(* ===== verification/_CoqProject ===== *)
-Q . S2P
Prelude.v
MachineInt.v
MathUtil.v
PermutationUtil.v
Primitive.v
Shape.v
ShapeUtil.v
ShapeEquality.v
IndexUtil.v
Util.v
InferBasic.v
InferDot.v
InferElementwise.v
InferLinalg.v
InferCollective.v
InferStructure.v
InferGather.v
IntervalTree.v
IntervalTreeInv.v
IntervalTreeOps.v
IntervalTreeTheorems.v
SlicePermutation.v
PermutationEnum.v
PermutationPreferred.v
PermutationCreate.v
PermutationTheorems.v
AllocationFinder.v
FinderPieces.v
FinderRoots.v
FinderFit.v
FinderSearch.v
FinderTheorems.v
BestFitHeap.v
BestFitColocations.v
BestFitChunks.v
BestFitPlace.v
BestFitCommit.v
BestFitFinish.v
BestFitTrace.v
BestFitTheorems.v
BestFitPeak.v
BestFitConstrained.v
HeapChoice.v
Arrays.v
ArrayTheorems.v
OrderedSet.v
GraphCycles.v
GraphInv.v
GraphDfs.v
GraphReorder.v
GraphInsert.v
GraphContract.v
GraphSpec.v
GraphTheorems.v
BfcAllocator.v
BfcHeap.v
BfcRegions.v
BfcInv.v
BfcOps.v
BfcCoalesce.v
BfcFree.v
BfcAlloc.v
BfcSub.v
BfcRegister.v
BfcExtend.v
BfcCollect.v
BfcSpec.v
BfcQuery.v
BfcTheorems.v
TileAssignment.v
IotaLayout.v
IotaCanonical.v
IotaAssignment.v
IotaFactors.v
IotaTranspose.v
TileTheorems.v
HloSharding.v
ShardingTiles.v
ShardingPartial.v
ShardingProto.v
