(* ===== verification/Prelude.v ===== *)
(** * XLA: shapes, shape inference, cycle detection and memory

    This library models five parts of XLA and proves them correct: the one that
    decides which shapes a program may use and which shape every operation
    produces, the shardings that say which device holds which part of an array, the
    incremental cycle detection that clustering passes ask whether two instructions may
    be fused, the algorithms of the heap simulator, which assigns offsets to buffers at
    compile time, and the best-fit-with-coalescing allocator that hands out device
    memory.  All file names are relative to src/.

    ** The program

    Every HLO instruction has a Shape (xla/shape.h): an element type, dimension
    sizes, a flag per dimension that says whether the size is only an upper
    bound, and a Layout (xla/layout.h), the order in which the dimensions are
    stored.  The size kUnboundedSize (INT64_MIN) stands for an unknown size.
    ShapeUtil and LayoutUtil construct and validate shapes, IndexUtil numbers
    the elements of an array in the order of its layout, and ShapeInference
    (xla/service/shape_inference.cc) computes the result shape of each
    operation from its operand shapes and attributes, or rejects it.  The HLO
    builder, parser and verifier call ShapeInference; nothing of them is
    modelled here.

    A TileAssignment (xla/hlo/ir/tile_assignment.{h,cc}) gives every tile of a sharded
    array a device: an Array (xla/array.h) of device numbers, or an
    IotaTileAssignment, which describes the array that reshaping and transposing 0,
    1, 2, ... gives, and is materialized when the array is needed.  Iota assignments
    are kept in a canonical form, without sizes of one and mergeable neighbours, so
    that they can be compared without their arrays; transposing one splits its
    dimensions into prime factors and groups them anew.  An HloSharding
    (xla/hlo/ir/hlo_sharding.{h,cc}) is replicated, manual, on one device, tiled by a
    tile assignment whose last dimensions may be subgroups, or a tuple of shardings for
    the leaves of a tuple shape; it says which box of an array a device holds.

    GraphCycles (xla/service/graphcycles/graphcycles.{h,cc}, ordered_set.h) keeps a
    directed graph acyclic: it gives every node a rank, keeps the ranks
    increasing along the edges, and refuses an edge that would close a cycle.
    An edge against the ranks starts a search forward and one backward between
    the two ranks, and the nodes found are given each other's ranks (the
    algorithm of Pearce and Kelly).  The object is one record ([rep]), its
    methods take it and return it.

    The heap simulator (xla/service/heap_simulator/heap_simulator.{h,cc}) keeps the
    buffers it has placed in a BufferIntervalTree: a search tree by start time in
    which every node knows the latest end time below it, so that the buffers
    alive during an interval are found without visiting the others.  A buffer may
    be cut into slices that are allocated one after the other; the allocation
    finder receives the free chunks at the start time of each slice, merges them
    into roots and looks for the offset where all slices fit, asking for every
    order in which the start times may be dealt to the slices that
    SlicedAllocationFinder::SliceTimePermutationIterator enumerates.
    GlobalDecreasingSizeBestFitHeap is told with Alloc, ShareWith and Free when the
    buffers live and which of them must be at the same place; its Finish sorts them,
    computes for each the chunks that are free during its life and those of the
    buffers that share with it, asks the allocation finder for the best fit, and
    commits the chunk to the interval tree.  A variant spreads the buffers over
    several heaps with a limit, and another one runs several algorithms and keeps the
    smallest heap.

    BFCAllocator (xla/tsl/framework/bfc_allocator.{h,cc}) cuts regions of memory,
    obtained from a SubAllocator, into chunks: doubly linked within a region,
    found by address through a table of handles, and kept in bins by size while
    they are free.  Its state is one record ([bfc]), a method is a computation in
    a state monad that returns, crashes or runs out of fuel; every public method
    holds the mutex, so that one computation is one atomic step.

    ** The files

    - [Prelude]: the outcome of a C++ call (a value, an error status, an abort of
      the process, or fuel exhausted), loops as folds in the outcome monad, and
      indexed access to vectors.
    - [MachineInt]: 64-bit wrap-around arithmetic; xla/overflow_util.h.
    - [PermutationUtil]: xla/permutation_util.{h,cc}.
    - [Primitive]: element types; xla/primitive_util.{h,cc}.  The numeric limits
      of the native floating-point types, which are defined outside the
      repository, are the type class [FloatLimits].
    - [Shape]: the data of xla/shape.{h,cc} and xla/layout.{h,cc}: the state
      variant of the class is the inductive type [Shape], its mutators return the
      new shape.
    - [ShapeUtil]: xla/shape_util.{h,cc} and xla/layout_util.cc.
    - [ShapeEquality]: the theory of Shape::Equal and its flags.
    - [IndexUtil]: xla/index_util.{h,cc}, and the bounds of xla/window_util.cc.
    - [MathUtil]: xla/tsl/lib/math/math_util.h and the functions of xla/util.h on
      integers: ratios, rounding to multiples, powers, masks.
    - [Util]: CommonFactors and ConvertDimensionNumbers of xla/util.cc.
    - [InferBasic], [InferDot], [InferElementwise], [InferLinalg],
      [InferCollective], [InferStructure], [InferGather]: the functions of
      xla/service/shape_inference.cc in the order of the file, each under its
      own name; a loop body is a definition of its own where a proof speaks of
      it.
    - [Arrays]: row-major numbers, strides and their permutation, and the data and
      operations of xla/array.h; [ArrayTheorems]: traversal and transposition.
    - [TileAssignment]: the data and operations of tile assignments.  [IotaLayout]: lists
      of sizes and strides and the map from linear indices to device numbers that they
      denote, with its own equivalence ([same]) and unique reduced forms;
      [IotaCanonical]: the canonicalization; [IotaAssignment]: Create, value_at,
      materialization; [IotaFactors]: prime factors and their
      grouping; [IotaTranspose] and [TileTheorems]: the theorems.
    - [HloSharding]: the data and operations of shardings.  [ShardingTiles]: the boxes of
      the devices; [ShardingPartial]: partial replication; [ShardingProto]: validation,
      and messages.
    - [IntervalTree]: the data and operations of the interval tree, on nodes and
      pointers.  [IntervalTreeInv]: the functional tree behind the pointers,
      contexts, and the representation invariant; [IntervalTreeOps]: Add and Remove
      keep it; [IntervalTreeTheorems]: the traversals, the queries and
      the theorem.
    - [SlicePermutation]: the data and operations of the three permutation
      iterators (heap_simulator.{h,cc}).  [PermutationEnum]: lexicographic order
      and std::next_permutation, the laws of an iterator, as the type class
      [IteratorLaws], and what a client that follows them visits;
      [PermutationPreferred] and [PermutationCreate]: the iterators obey them, the two
      factories; [PermutationTheorems]: loops that run again, and the theorems.
    - [AllocationFinder]: the data and operations of
      GlobalDecreasingSizeBestFitHeap::SlicedAllocationFinder.  [FinderPieces]:
      the pieces of a free chunk; [FinderRoots]: what a root is, offset by
      offset, in terms of the free chunks of every slice time; [FinderFit]:
      whether an offset fits; [FinderSearch]: the searches of a root;
      [FinderTheorems]: the theorems.
    - [BestFitHeap]: the data and operations of the heap algorithms.
      [BestFitColocations]: the intervals as a forest of buffers that share;
      [BestFitChunks]: the free chunks; [BestFitPlace]: the candidate for an
      interval; [BestFitCommit], [BestFitFinish]: committing, the order,
      and the invariant of the loop of Finish; [BestFitTrace]: what a sequence of
      calls leaves behind; [BestFitTheorems], [BestFitPeak], [BestFitConstrained]: the
      theorems, and inputs on which the code fails; [HeapChoice]: the midpoint iterator
      and the choice among algorithms.
    - [OrderedSet], [GraphCycles]: the data and operations of the cycle detection.
    - [GraphInv]: its representation invariant: ranks, edges stored at both ends.
      [GraphDfs]: what ForwardDFS and BackwardDFS visit; [GraphReorder]: the ranks
      Reorder assigns; [GraphInsert] and [GraphContract]: InsertEdge, RemoveEdge,
      RemoveNode and ContractEdge keep the invariant; [GraphSpec]: the search for
      a path, a finite directed graph as the specification, and how a state is
      seen as one; [GraphTheorems]: the theorems.
    - [BfcAllocator]: the data and all operations of the allocator.
    - [BfcHeap]: the chunks of disjoint regions as an abstract heap of linked
      nodes that tile them; splitting, merging, adding and extending regions.
    - [BfcRegions]: RegionManager as a partial map from addresses to handles.
    - [BfcInv]: sizes, bins, and the sets ordered by size and address; weakest
      preconditions and the invariant [Inv], relative to the
      chunks under way (free but in no bin) and in limbo (allocated but in no
      region).  [BfcOps], [BfcCoalesce], [BfcFree] and [BfcAlloc] give the rules of
      the bin operations, of Merge and SplitChunk, of deallocation and of
      FindChunkPtr.
    - [BfcSub], [BfcRegister], [BfcExtend]: Extend, with the laws of the
      sub-allocator as the type class [SubAllocatorLaws], and chunks freed under a
      timing counter.
    - [BfcCollect]: garbage collection of regions.
    - [BfcSpec]: the specification, a map from addresses to allocations, and how a
      state is seen as one; [BfcQuery]: reuse of freed memory and the queries;
      [BfcTheorems]: the theorems, and inputs on which the code fails.

    ** What is proved

    - The arithmetic: the portable code of the overflow checks equals the one
      with compiler builtins; permutations and their inverses.
    - Shapes: the exact set of arguments the constructors accept, validity of
      the arrays and tuples that the validated constructors build from each other, PermuteDimensions as a bitcast, and Shape::Equal as an
      equivalence for every setting of its flags that compares dynamic
      dimensions.
    - Indices: linear and multidimensional indices are in bijection under every
      layout; BumpIndices enumerates them; CompareIndices orders them.
    - Factorings: CommonFactors terminates and cuts both lists into groups of
      equal products; when a size is zero, only if the products of consecutive sizes
      do not overflow.
    - Inference: concatenate and degenerate broadcast infer shapes that admit
      all run-time sizes; the element count law of dot, for
      operands without unbounded dimensions; slice sizes count
      indices; static reshape succeeds exactly when counts agree, under the
      condition on zeros of CommonFactors; transpose,
      bitcast-convert, RFFT and all-gather are undone by their inverses.
    - Arrays and tile assignments: TransposeDimensions moves every element to its place;
      Create denotes the reshaped and transposed iota, value_at takes every device
      once, equality is equality of what is denoted in both formats, and transposition
      is right on every path, the regrouping of prime factors included.
    - Shardings: the boxes of the devices partition the array, EachTile gives the boxes
      of the single devices, tile indices and devices are inverse, and PartialTile sorts
      the groups of replicas unless there is one tile only or a group has one device.  A
      sharding is read from its message equal to the one written, and ValidateNonTuple
      accepts exactly the rank, the distinct devices and the number of tiles it is meant to.
    - The interval tree refines a multiset of intervals; its traversals visit
      exactly the intervals alive during the query, the sorted one in order, and
      the memory profile is exact.
    - The permutation iterators terminate and visit every order of the slice
      times once up to repeats; those of a repacked allocation visit exactly the
      valid ones.
    - The allocation finder: FindForOffset answers exactly when some permitted
      order of the slices fits at the offset, and Find returns chunks that fit
      and are the best fit: no smaller root has a place.
    - The best-fit heap: after every sequence of calls within the limits Finish
      returns; every buffer gets an aligned chunk of its size inside the heap, those
      that share are at one offset, and no two others that are alive at a moment
      overlap; the heap grows only when it is full, and is never smaller than the
      peak of what is alive.  The constrained variant ends, puts every buffer in
      one heap, and exceeds its limit by one buffer per heap at most.
    - Cycle detection: InsertEdge and ContractEdge refine the graph, accept an
      edge exactly when no cycle comes from it and change nothing otherwise; on
      no sequence of calls does a cycle arise; FindPath finds a path exactly when
      there is one, the two reachability tests agree, and the post order lists
      every node after its successors.
    - The allocator: AllocateRaw and DeallocateRaw refine the map of
      allocations, crash on no state that client calls can reach, and keep the
      live allocations disjoint and within memory that is owned; regions stay
      tiled by chunks and free neighbours merged; the placement is best fit;
      freed memory can be allocated again; a second deallocation is a CHECK failure;
      Extend terminates as long as the region size has not wrapped around to 0.
    - Behaviour that differs from the comments or from the evident intent is
      stated by theorems of its own: overflow in slice sizes, dynamic
      dimensions of reduce-scatter, lost dynamism in broadcasts, order-dependent
      validation, and compatibility that is not transitive.

    ** Conventions and bounds

    An int64_t is a [Z] and every operation that can overflow wraps around
    ([add64] and its relatives), although C++ leaves signed overflow undefined;
    sizes of containers stay small and are not wrapped, the sizes in bytes of the
    allocator are, as 64-bit unsigned numbers.  CHECK failures, LOG(FATAL) and
    out-of-range accesses are [Crash].  DCHECKs and the text of status messages
    are dropped, but not the reads that build a message where they can be out of
    range.  Fuel appears in [CommonFactors], where it is proved to be enough, in
    [SkipDims], and in the loops of the cycle detection and of the allocator:
    the traversals of the interval tree get one round per node, the sorted one two,
    and the searches over the graph one step per edge and two more, FindPath twice
    the number of nodes and four more, both proved to be enough; the walks over the chunks of a
    region get one unit more than there are chunks, which is proved to be enough;
    the loops of Extend get an argument, 64 units and one per 256 bytes are
    proved to be enough from 2560 bytes on while curr_region_allocation_bytes_ is not 0;
    below 2560 bytes, or once 64 doublings have wrapped it around to 0, the code can loop
    forever.  The loop over the worklist of colocated buffers gets one unit more than
    there are buffers, and that over the heaps of the constrained variant one more
    than there are intervals; both are proved to be enough.  The canonicalization of
    iota dimensions gets one round more than there are dimensions, trial division as
    many rounds as the square root, the grouping one per factor; all are proved to be
    enough.

    The theorems on tile assignments assume fewer than 2^31 devices, and for
    transpositions fewer than 46339 squared, from where the trial division overflows.

    The theorems on the best-fit heap assume that a buffer is allocated once and that
    no offset can overflow: twice the number of calls times the largest size plus two
    alignments is below 2^63.  A hash table is traversed in an order that is a
    parameter of the model ([HashOrder]); the theorems hold for all of them.

    The theorems on the allocator assume that a request is below 2^63 - 256
    bytes, that the memory limit is below 2^63, that garbage collection is not
    combined with a timing counter, and that a client frees what it allocated;
    [BfcTheorems] shows what happens outside these limits.

    ** Not modelled

    Printing, parsing, hashing and proto conversion, except that of shardings; the HLO graph, its passes
    and backends; buffer assignment; threads and I/O.  Of the allocator: the retry
    with a timeout, the destructor, memory dumps and debug information.  Of the
    cycle detection: its graphviz output (DebugString).  Of the
    heap simulator: the replay of a schedule (HeapSimulator::Run), which needs the HLO
    graph and its alias analysis, and the drawings and strings it logs.  Of arrays:
    random filling and initializer lists.  Of shardings: strings, hashes and the
    construction from a ShapeTree.  Sharding propagation, the partitioner and indexing
    maps. *)

From Stdlib Require Import ZArith Lia Bool Sorted.
From stdpp Require Export base option list numbers fin_maps gmap.

#[global] Open Scope Z_scope.

(** ** Status codes and outcomes

    A C++ call of the modelled code ends in one of four ways: it returns a
    value ([OK]), it returns a non-OK [absl::Status] ([Err]), it aborts the
    process through CHECK, LOG(FATAL), StatusOr::value() on an error or an
    out-of-range access ([Crash]), or it is still running when the fuel of the
    model is used up ([NoFuel]).  The text of a status message is dropped. *)

Inductive status_code :=
  | kInvalidArgument
  | kInternal
  | kUnimplemented
  | kFailedPrecondition
  | kResourceExhausted
  | kNotFound
  | kAlreadyExists
  | kOutOfRange.

#[global] Instance status_code_eq_dec : EqDecision status_code.
Proof. solve_decision. Defined.

Inductive outcome (A : Type) :=
  | OK (a : A)
  | Err (c : status_code)
  | Crash
  | NoFuel.
Arguments OK {A} a.
Arguments Err {A} c.
Arguments Crash {A}.
Arguments NoFuel {A}.

#[global] Instance outcome_ret : MRet outcome := fun _ a => OK a.
#[global] Instance outcome_bind : MBind outcome := fun _ _ f m =>
  match m with
  | OK a => f a
  | Err c => Err c
  | Crash => Crash
  | NoFuel => NoFuel
  end.
#[global] Instance outcome_fmap : FMap outcome := fun _ _ f m =>
  match m with
  | OK a => OK (f a)
  | Err c => Err c
  | Crash => Crash
  | NoFuel => NoFuel
  end.

Definition is_OK {A} (m : outcome A) : bool :=
  match m with OK _ => true | _ => false end.

(** [check b] is CHECK(b); [ret_if b c] is the guard [if (b) return c;] and
    [require b c] its negation. *)
Definition check (b : bool) : outcome () := if b then OK () else Crash.
Definition ret_if (b : bool) (c : status_code) : outcome () :=
  if b then Err c else OK ().
Definition require (b : bool) (c : status_code) : outcome () :=
  if b then OK () else Err c.

(** StatusOr::value(): the process aborts when there is no value. *)
Definition value_or_die {A} (m : outcome A) : outcome A :=
  match m with
  | OK a => OK a
  | NoFuel => NoFuel
  | _ => Crash
  end.

(** A left fold whose body may fail: a C++ range-for with early return. *)
Fixpoint foldM {A B} (f : B -> A -> outcome B) (b : B) (l : list A) : outcome B :=
  match l with
  | [] => OK b
  | a :: l => b' ← f b a; foldM f b' l
  end.

(** A loop that only checks: [for (x : l) if (bad(x)) return ...]. *)
Fixpoint forM_ {A} (l : list A) (f : A -> outcome ()) : outcome () :=
  match l with
  | [] => OK ()
  | a :: l => _ ← f a; forM_ l f
  end.

(** A loop of at most 2^d rounds.  A round yields the next state ([inl]) or the
    result ([inr]). *)
Fixpoint repeat_until {S R} (d : nat) (step : S -> outcome (S + R)) (s : S) : outcome (S + R) :=
  match d with
  | O => step s
  | Datatypes.S d =>
      x ← repeat_until d step s;
      match x with inl s => repeat_until d step s | inr r => OK (inr r) end
  end.

(** Element access of a std::vector or absl::Span by a signed index.  An
    out-of-range access is undefined behaviour in C++; the model aborts. *)
Definition idx {A} (l : list A) (i : Z) : option A :=
  if 0 <=? i then l !! Z.to_nat i else None.
Definition at_ {A} (l : list A) (i : Z) : outcome A :=
  match idx l i with Some a => OK a | None => Crash end.
Definition set_at {A} (l : list A) (i : Z) (a : A) : outcome (list A) :=
  if (0 <=? i) && (i <? Z.of_nat (length l)) then OK (<[Z.to_nat i := a]> l)
  else Crash.

Definition Zlen {A} (l : list A) : Z := Z.of_nat (length l).
Definition contains (l : list Z) (x : Z) : bool := bool_decide (x ∈ l).

(** ** Lemmas on the outcome monad *)

Lemma bind_OK {A B} (m : outcome A) (f : A -> outcome B) b :
  (m ≫= f) = OK b <-> exists a, m = OK a /\ f a = OK b.
Proof. destruct m; split; try done; eauto; by intros (? & ? & ?); simplify_eq. Qed.

Lemma require_OK b c u : require b c = OK u <-> b = true.
Proof. destruct b, u; split; done. Qed.
Lemma ret_if_OK b c u : ret_if b c = OK u <-> b = false.
Proof. destruct b, u; split; done. Qed.
Lemma check_OK b u : check b = OK u <-> b = true.
Proof. destruct b, u; split; done. Qed.
Lemma value_or_die_OK {A} (m : outcome A) a : value_or_die m = OK a <-> m = OK a.
Proof. by destruct m. Qed.

(** [outcome_simp] takes apart the hypotheses that a monadic computation ended
    in [OK]: the value of each step and the guards that were passed. *)
Ltac outcome_simp :=
  repeat match goal with
    | H : (_ ≫= _) = OK _ |- _ =>
        let x := fresh "v" in let E := fresh "E" in apply bind_OK in H as (x & E & H)
    | H : require _ _ = OK _ |- _ => apply require_OK in H
    | H : ret_if _ _ = OK _ |- _ => apply ret_if_OK in H
    | H : check _ = OK _ |- _ => apply check_OK in H
    | H : value_or_die _ = OK _ |- _ => rewrite value_or_die_OK in H
    | H : OK _ = OK _ |- _ => injection H as H; subst
    | H : Err _ = OK _ |- _ => discriminate H
    | H : Crash = OK _ |- _ => discriminate H
    | H : NoFuel = OK _ |- _ => discriminate H
    | H : _ && _ = true |- _ => apply andb_true_iff in H as [? ?]
    | H : _ || _ = false |- _ => apply orb_false_iff in H as [? ?]
    | H : negb _ = true |- _ => apply negb_true_iff in H
    | H : negb _ = false |- _ => apply negb_false_iff in H
    | u : unit |- _ => destruct u
    end.

Lemma foldM_app {A B} (f : B -> A -> outcome B) b l1 l2 :
  foldM f b (l1 ++ l2) = (b' ← foldM f b l1; foldM f b' l2).
Proof.
  revert b; induction l1 as [|a l1 IH]; intros b; simpl; [done|].
  destruct (f b a); simpl; auto.
Qed.

(** Invariant rule for a loop over a list: [P l b] relates the elements already
    visited to the accumulator. *)
Lemma foldM_inv {A B} (P : list A -> B -> Prop) (f : B -> A -> outcome B) l b0 b :
  P [] b0 ->
  (forall l1 a l2 b1 b2, l = l1 ++ a :: l2 -> P l1 b1 -> f b1 a = OK b2 -> P (l1 ++ [a]) b2) ->
  foldM f b0 l = OK b -> P l b.
Proof.
  intros H0 Hs. cut (forall l2 l1 b1, l = l1 ++ l2 -> P l1 b1 -> foldM f b1 l2 = OK b -> P l b).
  { intros Hc. apply (Hc l [] b0); done. }
  induction l2 as [|a l2 IH]; intros l1 b1 Hl HP HF; simpl in HF.
  - injection HF as <-. rewrite app_nil_r in Hl. by subst.
  - apply bind_OK in HF as (b2 & Hf & HF).
    apply (IH (l1 ++ [a]) b2); [by rewrite <- app_assoc|eauto|done].
Qed.

(** The same with progress: no iteration fails. *)
Lemma foldM_total {A B} (P : list A -> B -> Prop) (f : B -> A -> outcome B) l b0 :
  P [] b0 ->
  (forall l1 a l2 b1, l = l1 ++ a :: l2 -> P l1 b1 -> exists b2, f b1 a = OK b2 /\ P (l1 ++ [a]) b2) ->
  exists b, foldM f b0 l = OK b /\ P l b.
Proof.
  intros H0 Hs.
  cut (forall l2 l1 b1, l = l1 ++ l2 -> P l1 b1 -> exists b, foldM f b1 l2 = OK b /\ P l b).
  { intros Hc. apply (Hc l [] b0); done. }
  induction l2 as [|a l2 IH]; intros l1 b1 Hl HP; simpl.
  - rewrite app_nil_r in Hl. subst. eauto.
  - destruct (Hs _ _ _ _ Hl HP) as (b2 & Hf & HP2). rewrite Hf. simpl.
    apply (IH (l1 ++ [a])); [by rewrite <- app_assoc|done].
Qed.

Lemma mapM_OK {A B} (f : A -> outcome B) l k :
  mapM f l = OK k <-> Forall2 (fun a b => f a = OK b) l k.
Proof.
  revert k; induction l as [|a l IH]; intros k; simpl.
  - split; [by intros [= <-]|by inversion 1].
  - rewrite bind_OK. setoid_rewrite bind_OK. split.
    + intros (b & Hb & bs & Hbs%IH & [= <-]). by constructor.
    + inversion 1 as [|? b ? bs]; subst. exists b. split; [done|]. exists bs. by rewrite IH.
Qed.

Lemma mapM_exists {A B} (f : A -> outcome B) l :
  (forall a, a ∈ l -> exists b, f a = OK b) -> exists k, mapM f l = OK k.
Proof.
  induction l as [|a l IH]; intros Hf; simpl; [by exists []|].
  destruct (Hf a) as [b Hb]; [left|]. destruct IH as [k Hk]; [intros c Hc; apply Hf; by right|].
  exists (b :: k). by rewrite Hb, Hk.
Qed.

Lemma forM_OK {A} (l : list A) (f : A -> outcome ()) u :
  forM_ l f = OK u <-> Forall (fun a => f a = OK ()) l.
Proof.
  induction l as [|a l IH]; simpl.
  - destruct u. split; auto.
  - rewrite bind_OK, Forall_cons, <- IH. destruct u. split.
    + by intros ([] & ? & ?).
    + intros []. by exists ().
Qed.

(** ** Lemmas on indices *)

Lemma idx_of_nat {A} (l : list A) (n : nat) : idx l (Z.of_nat n) = l !! n.
Proof. unfold idx. rewrite (proj2 (Z.leb_le _ _)) by lia. by rewrite Nat2Z.id. Qed.

Lemma idx_Some {A} (l : list A) i a :
  idx l i = Some a <-> 0 <= i /\ l !! Z.to_nat i = Some a.
Proof. unfold idx. destruct (Z.leb_spec 0 i); split; try done; [by intros []|lia]. Qed.

Lemma at_OK {A} (l : list A) i a : at_ l i = OK a <-> idx l i = Some a.
Proof. unfold at_. destruct (idx l i); split; by intros [= ->]. Qed.

Lemma at_lookup {A} (l : list A) k x : at_ l (Z.of_nat k) = OK x <-> l !! k = Some x.
Proof. by rewrite at_OK, idx_of_nat. Qed.

Lemma at_nat {A} (l : list A) k x : l !! k = Some x -> at_ l (Z.of_nat k) = OK x.
Proof. apply at_lookup. Qed.

Lemma at_bound {A} (l : list A) i a : at_ l i = OK a -> 0 <= i < Zlen l.
Proof.
  rewrite at_OK, idx_Some. unfold Zlen. intros [? Hl].
  apply lookup_lt_Some in Hl. lia.
Qed.

Lemma at_in_range {A} (l : list A) i : 0 <= i < Zlen l -> exists a, at_ l i = OK a.
Proof.
  unfold Zlen. intros Hi. destruct (lookup_lt_is_Some_2 l (Z.to_nat i)) as [a Ha]; [lia|].
  exists a. rewrite at_OK, idx_Some. split; [lia|done].
Qed.

Lemma set_at_OK {A} (l l' : list A) i a :
  set_at l i a = OK l' <-> 0 <= i < Zlen l /\ l' = <[Z.to_nat i := a]> l.
Proof.
  unfold set_at, Zlen.
  destruct ((0 <=? i) && (i <? Z.of_nat (length l))) eqn:E; split.
  - intros [= <-]. split; [lia|done].
  - by intros [_ ->].
  - done.
  - intros [? _]. lia.
Qed.

Lemma contains_spec l x : contains l x = true <-> x ∈ l.
Proof. apply bool_decide_eq_true. Qed.

Lemma Zlen_app {A} (l1 l2 : list A) : Zlen (l1 ++ l2) = Zlen l1 + Zlen l2.
Proof. unfold Zlen. rewrite length_app. lia. Qed.
Lemma Zlen_nonneg {A} (l : list A) : 0 <= Zlen l.
Proof. unfold Zlen. lia. Qed.

(** The indices of a list, as the counting loop [for (i = 0; i < n; ++i)]. *)
Definition indices {A} (l : list A) : list Z := seqZ 0 (Zlen l).

Lemma elem_of_indices {A} (l : list A) i : i ∈ indices l <-> 0 <= i < Zlen l.
Proof. unfold indices. rewrite elem_of_seqZ. lia. Qed.

(** A counting loop: the invariant is indexed by the number of rounds. *)
Lemma foldM_seqZ_from {B} (P : nat -> B -> Prop) (f : B -> Z -> outcome B) m n b0 :
  P 0%nat b0 ->
  (forall k b, (k < n)%nat -> P k b -> exists b', f b (m + Z.of_nat k) = OK b' /\ P (S k) b') ->
  exists b, foldM f b0 (seqZ m (Z.of_nat n)) = OK b /\ P n b.
Proof.
  intros H0 Hs. destruct (foldM_total (fun l b => P (length l) b) f (seqZ m (Z.of_nat n)) b0) as (b & HF & HP); [done| |].
  - intros l1 a l2 b Hl HP. assert (Ha : seqZ m (Z.of_nat n) !! length l1 = Some a) by (by rewrite Hl, list_lookup_middle).
    apply lookup_seqZ in Ha as [-> Hlt]. destruct (Hs (length l1) b ltac:(lia) HP) as (b' & Hb' & HP').
    exists b'. split; [exact Hb'|]. by rewrite length_app, Nat.add_comm.
  - exists b. split; [done|]. by rewrite length_seqZ, Nat2Z.id in HP.
Qed.

Lemma foldM_seqZ {B} (P : nat -> B -> Prop) (f : B -> Z -> outcome B) n b0 :
  P 0%nat b0 ->
  (forall k b, (k < n)%nat -> P k b -> exists b', f b (Z.of_nat k) = OK b' /\ P (S k) b') ->
  exists b, foldM f b0 (seqZ 0 (Z.of_nat n)) = OK b /\ P n b.
Proof. apply (foldM_seqZ_from P f 0). Qed.

(** A loop that counts down; the invariant is indexed by the rounds that are left. *)
Lemma foldM_rev_indices {A B} (P : nat -> B -> Prop) (f : B -> Z -> outcome B) (l : list A) b0 :
  P (length l) b0 ->
  (forall k b, (k < length l)%nat -> P (S k) b -> exists b', f b (Z.of_nat k) = OK b' /\ P k b') ->
  exists b, foldM f b0 (rev (indices l)) = OK b /\ P 0%nat b.
Proof.
  intros H0 Hs. unfold indices, Zlen. remember (length l) as n eqn:En. clear En.
  revert b0 H0. induction n as [|n IH]; intros b0 H0; [by exists b0|].
  rewrite seqZ_S, rev_app_distr, Z.add_0_l. cbn [rev app foldM].
  destruct (Hs n b0 ltac:(lia) H0) as (b & -> & Hb). cbn [mbind outcome_bind]. apply IH; [|done].
  intros k c Hk. apply Hs. lia.
Qed.

Lemma foldM_indices {A B} (P : nat -> B -> Prop) (f : B -> Z -> outcome B) (l : list A) b0 :
  P 0%nat b0 ->
  (forall k b, (k < length l)%nat -> P k b -> exists b', f b (Z.of_nat k) = OK b' /\ P (S k) b') ->
  exists b, foldM f b0 (indices l) = OK b /\ P (length l) b.
Proof. apply foldM_seqZ. Qed.

(** A loop over the indices of a list of [n] elements that fills a vector. *)
Lemma mapM_seqZ_OK {B} (f : Z -> outcome B) (n : nat) (out : list B) :
  mapM f (seqZ 0 (Z.of_nat n)) = OK out <->
  length out = n /\ forall k b, out !! k = Some b -> f (Z.of_nat k) = OK b.
Proof.
  assert (Hl : forall k i, seqZ 0 (Z.of_nat n) !! k = Some i <-> (k < n)%nat /\ i = Z.of_nat k).
  { intros k i. rewrite lookup_seqZ. lia. }
  rewrite mapM_OK, Forall2_lookup. split.
  - intros HF. split.
    + enough (Hlen : length (seqZ 0 (Z.of_nat n)) = length out).
      { rewrite length_seqZ in Hlen. lia. }
      apply (Forall2_length (fun i b => f i = OK b)). by apply Forall2_lookup.
    + intros k b Hb. specialize (HF k). rewrite Hb in HF. inversion HF as [i ? Hi Hs|]; subst.
      symmetry in Hs. apply Hl in Hs as [_ ->]. done.
  - intros [Hlen Hf] k. destruct (seqZ 0 (Z.of_nat n) !! k) as [i|] eqn:Ei.
    + apply Hl in Ei as [Hk ->]. rewrite <- Hlen in Hk.
      destruct (lookup_lt_is_Some_2 out k Hk) as [b Hb]. rewrite Hb. constructor. auto.
    + rewrite lookup_ge_None_2; [constructor|].
      apply lookup_ge_None in Ei. rewrite length_seqZ in Ei. lia.
Qed.

Lemma mapM_ext_OK {A B} (f g : A -> outcome B) l :
  (forall a, a ∈ l -> f a = g a) -> mapM f l = mapM g l.
Proof.
  induction l as [|a l IH]; intros Hfg; simpl; [done|].
  rewrite (Hfg a) by (left). destruct (g a); simpl; [|done..].
  rewrite IH; [done|]. intros b Hb. apply Hfg. by right.
Qed.

Lemma filter_ext_in {A} (P Q : A -> Prop) `{!forall x, Decision (P x), !forall x, Decision (Q x)} (l : list A) :
  (forall x, x ∈ l -> (P x <-> Q x)) -> filter P l = filter Q l.
Proof.
  induction l as [|x l IH]; intros Hl; [done|]. rewrite !filter_cons. rewrite IH by (intros y Hy; apply Hl; by right).
  by rewrite (decide_ext (P x) (Q x)) by (apply Hl; left).
Qed.

(** ** Lemmas on sorted lists *)

Lemma sorted_lookup {A} (R : A -> A -> Prop) l i j x y :
  StronglySorted R l -> (i < j)%nat -> l !! i = Some x -> l !! j = Some y -> R x y.
Proof.
  intros Hs. revert i j. induction Hs as [|a l Hs IH HF]; intros i j Hij Hi Hj; [done|].
  destruct j as [|j]; [lia|]. simpl in Hj. destruct i as [|i]; simpl in Hi.
  - simplify_eq. by apply (Forall_lookup_1 _ _ _ _ HF Hj).
  - apply (IH i j); [lia|done..].
Qed.

Lemma sorted_lookup_2 {A} (R : A -> A -> Prop) l :
  (forall i j x y, l !! i = Some x -> l !! j = Some y -> (i < j)%nat -> R x y) -> StronglySorted R l.
Proof.
  induction l as [|a l IH]; intros Hl; [constructor|]. constructor.
  - apply IH. intros i j x y Hx Hy Hij. by apply (Hl (S i) (S j)); [..|lia].
  - apply Forall_lookup. intros i x Hx. by apply (Hl 0%nat (S i)); [..|lia].
Qed.

(** Proves a [Forall] or [Forall2] over concrete lists entry by entry. *)
Ltac each_entry tac :=
  simpl; repeat first
    [ apply Forall_nil_2 | apply Forall2_nil_2
    | apply Forall_cons_2; [solve [tac]|] | apply Forall2_cons_2; [solve [tac]|] ].
