(* ===== verification/MachineInt.v ===== *)
(** * Machine integers

    64-bit two's complement values as [Z], and the overflow-aware operations of
    xla/overflow_util.h in both of their preprocessor branches. *)

From S2P Require Import Prelude.

Definition two31 : Z := 2147483648.
Definition two32 : Z := 4294967296.
Definition two63 : Z := 9223372036854775808.
Definition two64 : Z := 18446744073709551616.

(** Conversion to uint64_t and to int64_t. *)
Definition u64 (z : Z) : Z := z mod two64.
Definition i64 (z : Z) : Z :=
  let u := z mod two64 in if u <? two63 then u else u - two64.

Definition i32 (z : Z) : Z := (z + two31) mod (2 * two31) - two31.
Definition is_i64 (z : Z) : bool := (- two63 <=? z) && (z <? two63).
Definition is_u64 (z : Z) : bool := (0 <=? z) && (z <? two64).

Definition int64_min : Z := - two63.
Definition int64_max : Z := two63 - 1.

(** Signed arithmetic of the compiled program: results wrap around. *)
Definition add64 (x y : Z) : Z := i64 (x + y).
Definition sub64 (x y : Z) : Z := i64 (x - y).
Definition mul64 (x y : Z) : Z := i64 (x * y).

(** Integer division and remainder of C++ truncate toward zero. *)
Definition div64 (x y : Z) : Z := i64 (Z.quot x y).
Definition rem64 (x y : Z) : Z := Z.rem x y.

(** ** OverflowSafeMultiply *)

(** The branch with __builtin_mul_overflow. *)
Definition OverflowSafeMultiply (x y : Z) : Z * bool :=
  let result := i64 (x * y) in
  let bad := negb (is_i64 (x * y)) in
  let bad := bad || (x <? 0) in
  let bad := bad || (y <? 0) in
  (result, bad).

(** The portable branch. *)
Definition OverflowSafeMultiply_portable (x y : Z) : Z * bool :=
  let ux := u64 x in
  let uy := u64 y in
  let uxy := u64 (ux * uy) in
  let result := i64 uxy in
  let bad := result <? 0 in
  let bad :=
    if negb (Z.shiftr (Z.lor ux uy) 32 =? 0) then
      if (x <? 0) || (y <? 0) then true
      else if negb (ux =? 0) && negb (uxy / ux =? uy) then true
      else bad
    else bad in
  (result, bad).

(** ** OverflowSafeAdd at T = int64_t *)

Definition OverflowSafeAdd (x y : Z) : option Z :=
  if is_i64 (x + y) then Some (i64 (x + y)) else None.

Definition OverflowSafeAdd_portable (x y : Z) : option Z :=
  let ux := u64 x in
  let uy := u64 y in
  let usum := u64 (ux + uy) in
  let sum := i64 usum in
  if eqb (0 <=? x) (0 <=? y) && negb (eqb (0 <=? sum) (0 <=? x)) then None
  else Some sum.

(** ** Lemmas *)

#[global] Arguments OverflowSafeMultiply : simpl never.
#[global] Arguments i64 : simpl never.
#[global] Arguments u64 : simpl never.
#[global] Arguments is_i64 : simpl never.
#[global] Arguments two63 : simpl never.
#[global] Arguments two64 : simpl never.
#[global] Arguments int64_min : simpl never.

Ltac z64 := unfold two32, two63, two64 in *.

Lemma is_i64_spec z : is_i64 z = true <-> - two63 <= z < two63.
Proof. unfold is_i64. rewrite andb_true_iff. lia. Qed.

Lemma i64_small z : is_i64 z = true -> i64 z = z.
Proof.
  rewrite is_i64_spec. unfold i64. intros [].
  destruct (decide (0 <= z)).
  - rewrite Z.mod_small by (z64; lia). by rewrite (proj2 (Z.ltb_lt _ _)).
  - replace (z mod two64) with (z + two64).
    + rewrite (proj2 (Z.ltb_ge _ _)) by (z64; lia). lia.
    + apply (Z.mod_unique_pos _ _ (-1)); z64; lia.
Qed.

Lemma i32_small z : - two31 <= z < two31 -> i32 z = z.
Proof. intros. unfold i32. rewrite Z.mod_small; unfold two31 in *; lia. Qed.

Lemma add64_small x y : - two63 <= x + y < two63 -> add64 x y = x + y.
Proof. intros. by apply i64_small, is_i64_spec. Qed.
Lemma sub64_small x y : - two63 <= x - y < two63 -> sub64 x y = x - y.
Proof. intros. by apply i64_small, is_i64_spec. Qed.

Lemma i64_range z : is_i64 (i64 z) = true.
Proof.
  rewrite is_i64_spec. unfold i64.
  pose proof (Z.mod_pos_bound z two64 ltac:(done)).
  destruct (Z.ltb_spec (z mod two64) two63); z64; lia.
Qed.

Lemma i64_mod z : i64 (z mod two64) = i64 z.
Proof. unfold i64. by rewrite Zmod_mod. Qed.

Lemma i64_shift z k : i64 (z + k * two64) = i64 z.
Proof. by rewrite <- (i64_mod (z + _)), Z_mod_plus_full, i64_mod. Qed.

Lemma i64_cong z : exists k, i64 z = z + k * two64.
Proof.
  unfold i64. pose proof (Z.div_mod z two64 ltac:(done)) as E.
  destruct (z mod two64 <? two63); [exists (- (z / two64))|exists (- (z / two64) - 1)]; lia.
Qed.

(** Wrapping early or late makes no difference. *)
Lemma add64_i64 x y : add64 (i64 x) y = i64 (x + y).
Proof.
  unfold add64. destruct (i64_cong x) as [k ->].
  rewrite <- (i64_shift (x + y) k). f_equal. lia.
Qed.

Lemma sub64_i64 x y : sub64 (i64 x) y = i64 (x - y).
Proof.
  unfold sub64. destruct (i64_cong x) as [k ->].
  rewrite <- (i64_shift (x - y) k). f_equal. lia.
Qed.

Lemma i64_neg z : 0 <= z < two64 -> (i64 z <? 0) = negb (z <? two63).
Proof.
  intros. unfold i64. rewrite Z.mod_small by done.
  destruct (Z.ltb_spec z two63); simpl; z64; lia.
Qed.

Lemma shiftr32_zero a b :
  0 <= a < two64 -> 0 <= b < two64 ->
  (Z.shiftr (Z.lor a b) 32 =? 0) = (a <? two32) && (b <? two32).
Proof.
  intros Ha Hb. rewrite Z.shiftr_lor.
  rewrite !Z.shiftr_div_pow2 by lia. change (2 ^ 32) with two32.
  assert (forall x, 0 <= x -> (x / two32 =? 0) = (x <? two32)) as Hd.
  { intros x Hx. apply eq_true_iff_eq. rewrite Z.eqb_eq, Z.ltb_lt.
    pose proof (Z.div_small_iff x two32 ltac:(done)). z64; lia. }
  rewrite <- !Hd by lia.
  apply eq_true_iff_eq. rewrite andb_true_iff, !Z.eqb_eq.
  apply Z.lor_eq_0_iff.
Qed.

(** A wrapped unsigned product divided by one factor gives the other factor
    exactly when it did not wrap. *)
Lemma wrapped_product_div x y :
  0 < x -> 0 <= y < two64 -> ((x * y) mod two64 / x =? y) = (x * y <? two64).
Proof.
  intros Hx Hy. destruct (Z.ltb_spec (x * y) two64) as [Hs|Hb].
  - rewrite Z.mod_small by nia. rewrite Z.mul_comm, Z.div_mul by lia. lia.
  - apply Z.eqb_neq. enough ((x * y) mod two64 / x < y) by lia.
    apply Z.div_lt_upper_bound; [lia|].
    pose proof (Z.mod_pos_bound (x * y) two64 ltac:(done)). z64; lia.
Qed.

Lemma OverflowSafeMultiply_ok x y r :
  OverflowSafeMultiply x y = (r, false) -> 0 <= x /\ 0 <= y /\ r = x * y /\ r < two63.
Proof.
  unfold OverflowSafeMultiply. intros [= <- H].
  apply orb_false_iff in H as [[H ?]%orb_false_iff ?].
  apply negb_false_iff in H. rewrite (i64_small _ H). apply is_i64_spec in H. lia.
Qed.

Lemma OverflowSafeMultiply_fits x y :
  0 <= x -> 0 <= y -> x * y < two63 -> OverflowSafeMultiply x y = (x * y, false).
Proof.
  intros. unfold OverflowSafeMultiply.
  assert (Hi : is_i64 (x * y) = true) by (apply is_i64_spec; z64; nia).
  rewrite Hi, i64_small by done. f_equal. lia.
Qed.

(** The overflow flag of the portable code, on two non-negative factors. *)
Lemma portable_bad_nonneg x y :
  0 <= x < two63 -> 0 <= y < two63 ->
  (if negb ((x <? two32) && (y <? two32)) then
     if negb (x =? 0) && negb (u64 (x * y) / x =? y) then true else i64 (x * y) <? 0
   else i64 (x * y) <? 0) = negb (is_i64 (x * y)).
Proof.
  intros Hx Hy. unfold u64.
  assert (Hi : is_i64 (x * y) = (x * y <? two63))
    by (unfold is_i64; z64; nia).
  destruct (Z.ltb_spec (x * y) two64) as [Hs|Hb].
  - assert ((i64 (x * y) <? 0) = negb (x * y <? two63)) as -> by (apply i64_neg; nia).
    rewrite Hi. destruct (Z.eqb_spec x 0) as [->|]; simpl; [by destruct (y <? two32)|].
    rewrite wrapped_product_div by (z64; lia).
    rewrite (proj2 (Z.ltb_lt (x * y) two64)) by done. by destruct (negb (_ && _)).
  - rewrite Hi. assert (x <> 0) by (intros ->; z64; lia).
    rewrite wrapped_product_div by (z64; lia).
    rewrite (proj2 (Z.ltb_ge (x * y) two64)) by done.
    rewrite (proj2 (Z.ltb_ge (x * y) two63)) by (z64; lia).
    rewrite (proj2 (Z.eqb_neq _ _)) by done. simpl.
    destruct (Z.ltb_spec x two32), (Z.ltb_spec y two32); simpl; try done.
    exfalso. z64. nia.
Qed.

Lemma u64_neg_large x : - two63 <= x < 0 -> u64 x = x + two64.
Proof. intros. unfold u64. symmetry. apply (Z.mod_unique_pos _ _ (-1)); z64; lia. Qed.

(** *** Theorems *)

(** the portable code of OverflowSafeMultiply and OverflowSafeAdd,
    which detects overflow by unsigned division and by the signs, computes the
    same pair, respectively optional, as the branch with the compiler
    builtins, for all int64_t arguments. *)
Lemma overflow_portable_equiv (x y : Z) (Hx : is_i64 x = true) (Hy : is_i64 y = true) :
  OverflowSafeMultiply_portable x y = OverflowSafeMultiply x y
  /\ OverflowSafeAdd_portable x y = OverflowSafeAdd x y.
Proof.
  apply is_i64_spec in Hx, Hy. split.
  - unfold OverflowSafeMultiply_portable, OverflowSafeMultiply.
    assert (Hr : i64 (u64 (u64 x * u64 y)) = i64 (x * y)).
    { unfold u64. by rewrite <- Zmult_mod, !i64_mod. }
    rewrite Hr. f_equal.
    rewrite shiftr32_zero by (apply Z.mod_pos_bound; done).
    destruct (Z.ltb_spec x 0) as [Hxn|Hxn].
    { rewrite (u64_neg_large x) by lia.
      rewrite (proj2 (Z.ltb_ge (x + two64) two32)) by (z64; lia).
      simpl. by rewrite !orb_true_r. }
    destruct (Z.ltb_spec y 0) as [Hyn|Hyn].
    { rewrite (u64_neg_large y) by lia.
      rewrite (proj2 (Z.ltb_ge (y + two64) two32)) by (z64; lia).
      rewrite andb_false_r. simpl. by rewrite !orb_true_r. }
    simpl. rewrite !orb_false_r.
    replace (u64 x) with x by (symmetry; apply Z.mod_small; z64; lia).
    replace (u64 y) with y by (symmetry; apply Z.mod_small; z64; lia).
    apply portable_bad_nonneg; lia.
  - unfold OverflowSafeAdd_portable, OverflowSafeAdd.
    replace (i64 (u64 (u64 x + u64 y))) with (i64 (x + y))
      by (unfold u64; by rewrite <- Zplus_mod, !i64_mod).
    destruct (is_i64 (x + y)) eqn:E.
    + rewrite i64_small by done.
      destruct (Z.leb_spec 0 x), (Z.leb_spec 0 y), (Z.leb_spec 0 (x + y)); simpl; try done; lia.
    + assert (Hc : ~ (- two63 <= x + y < two63)) by (rewrite <- is_i64_spec, E; done).
      destruct (decide (0 <= x)).
      * rewrite <- (i64_shift (x + y) (-1)), i64_small by (apply is_i64_spec; z64; lia).
        destruct (Z.leb_spec 0 x), (Z.leb_spec 0 y), (Z.leb_spec 0 (x + y + -1 * two64));
          try done; z64; lia.
      * rewrite <- (i64_shift (x + y) 1), i64_small by (apply is_i64_spec; z64; lia).
        destruct (Z.leb_spec 0 x), (Z.leb_spec 0 y), (Z.leb_spec 0 (x + y + 1 * two64));
          try done; z64; lia.
Qed.

Lemma overflow_portable_equiv_witness :
  OverflowSafeMultiply_portable 4294967296 4294967296
  = OverflowSafeMultiply 4294967296 4294967296
  /\ OverflowSafeAdd_portable int64_max 1 = None.
Proof.
  split.
  - exact (proj1 (overflow_portable_equiv 4294967296 4294967296 eq_refl eq_refl)).
  - rewrite (proj2 (overflow_portable_equiv int64_max 1 eq_refl eq_refl)). reflexivity.
Defined.
