(* ===== verification/MathUtil.v ===== *)
(** * Integer arithmetic: MathUtil and the functions of xla/util.h on it

    xla/tsl/lib/math/math_util.h and xla/util.h, at the types they are used with here:
    ratios at int64_t, the greatest common divisor and bit operations at uint64_t,
    powers at int64_t.  ABSL_ASSERT is dropped; a division by zero is a [Crash]. *)

From S2P Require Import Prelude MachineInt.

(** ** Ratios *)

Definition CeilOrFloorOfRatio (ceil : bool) (numerator denominator : Z) : outcome Z :=
  if denominator =? 0 then Crash
  else
    let rounded_toward_zero := div64 numerator denominator in
    let intermediate_product := mul64 rounded_toward_zero denominator in
    OK (if ceil then
          let needs_adjustment :=
            (0 <=? rounded_toward_zero) &&
            ((0 <? denominator) && (intermediate_product <? numerator) ||
             (denominator <? 0) && (numerator <? intermediate_product)) in
          add64 rounded_toward_zero (Z.b2z needs_adjustment)
        else
          let needs_adjustment :=
            (rounded_toward_zero <=? 0) &&
            ((0 <? denominator) && (numerator <? intermediate_product) ||
             (denominator <? 0) && (intermediate_product <? numerator)) in
          sub64 rounded_toward_zero (Z.b2z needs_adjustment)).

Definition CeilOfRatio (dividend divisor : Z) : outcome Z := CeilOrFloorOfRatio true dividend divisor.
Definition FloorOfRatio (dividend divisor : Z) : outcome Z := CeilOrFloorOfRatio false dividend divisor.

Definition RoundUpTo (value divisor : Z) : outcome Z :=
  q ← CeilOfRatio value divisor; OK (mul64 q divisor).
Definition RoundDownTo (value divisor : Z) : outcome Z :=
  q ← FloorOfRatio value divisor; OK (mul64 q divisor).

Definition FloorDivMod (dividend divisor : Z) : outcome (Z * Z) :=
  quotient ← FloorOfRatio dividend divisor;
  OK (quotient, sub64 dividend (mul64 quotient divisor)).

(** ** Greatest common divisors and powers *)

Fixpoint GCD_loop (fuel : nat) (x y : Z) : outcome Z :=
  if y =? 0 then OK x
  else match fuel with O => NoFuel | S fuel => GCD_loop fuel y (x mod y) end.

(** Two rounds halve the smaller number. *)
Definition GCD (x y : Z) : outcome Z := GCD_loop 129 x y.

Fixpoint IPow_loop (fuel : nat) (base exp result : Z) : outcome Z :=
  match fuel with
  | O => NoFuel
  | S fuel =>
      let result := if negb (Z.land exp 1 =? 0) then mul64 result base else result in
      let exp := Z.shiftr exp 1 in
      if exp =? 0 then OK result else IPow_loop fuel (mul64 base base) exp result
  end.

Definition IPow (base exp : Z) : outcome Z := IPow_loop 64 base exp 1.

(** ** Bits of uint64_t *)

Definition has_single_bit (x : Z) : bool := (0 <? x) && (Z.land x (x - 1) =? 0).
Definition bit_width (x : Z) : Z := if x =? 0 then 0 else Z.log2 x + 1.

Definition LsbMask (width : Z) : Z :=
  if width =? 0 then 0 else Z.shiftr (two64 - 1) (64 - width).
Definition KeepLowerBits (value width : Z) : Z := Z.land value (LsbMask width).
Definition Log2Floor (x : Z) : Z := bit_width x - 1.
Definition Log2Ceiling (x : Z) : Z := if x =? 0 then -1 else bit_width (x - 1).

(** ** What they compute *)

Lemma mul64_small x y : - two63 <= x * y < two63 -> mul64 x y = x * y.
Proof. intros. by apply i64_small, is_i64_spec. Qed.

Lemma div64_small x y : - two63 <= Z.quot x y < two63 -> div64 x y = Z.quot x y.
Proof. intros. by apply i64_small, is_i64_spec. Qed.

(** The rounding toward zero, its product and the adjustment, for the usual case of
    a positive denominator. *)
Lemma quot_bounds n d : 0 < d -> - two63 <= n < two63 ->
  - two63 <= Z.quot n d < two63 /\ - two63 <= Z.quot n d * d < two63 /\
  (if decide (0 <= n) then Z.quot n d = n / d else Z.quot n d = - (- n / d)).
Proof.
  intros Hd Hn. pose proof (Z.quot_rem' n d) as E.
  destruct (decide (0 <= n)) as [H0|H0].
  - pose proof (Z.rem_bound_pos n d H0 Hd). assert (0 <= Z.quot n d) by (apply Z.quot_pos; lia).
    split; [nia|]. split; [nia|]. apply Z.quot_div_nonneg; lia.
  - pose proof (Z.rem_bound_pos (- n) d ltac:(lia) Hd) as Hr. rewrite Z.rem_opp_l' in Hr.
    assert (0 <= Z.quot (- n) d) as Hq by (apply Z.quot_pos; lia). rewrite Z.quot_opp_l in Hq by lia.
    split; [nia|]. split; [nia|]. pose proof (Z.quot_div_nonneg (- n) d ltac:(lia) Hd) as Hqd.
    rewrite Z.quot_opp_l in Hqd by lia. lia.
Qed.

Lemma CeilOfRatio_ok n d : 0 < d -> - two63 <= n < two63 ->
  CeilOfRatio n d = OK (- (- n / d)).
Proof.
  intros Hd Hn. destruct (quot_bounds n d Hd Hn) as (Hq & Hp & Hv).
  unfold CeilOfRatio, CeilOrFloorOfRatio. rewrite (proj2 (Z.eqb_neq d 0)) by lia.
  rewrite div64_small, mul64_small by (rewrite ?div64_small; lia). f_equal.
  rewrite (proj2 (Z.ltb_lt 0 d) Hd), (proj2 (Z.ltb_ge d 0)) by lia. rewrite orb_false_r, andb_true_l.
  pose proof (Z.div_mod n d ltac:(lia)) as En. pose proof (Z.mod_pos_bound n d Hd).
  pose proof (Z.div_mod (- n) d ltac:(lia)) as Em. pose proof (Z.mod_pos_bound (- n) d Hd).
  destruct (decide (0 <= n)); rewrite Hv in *.
  - assert (0 <= n / d) by (apply Z.div_pos; lia). rewrite (proj2 (Z.leb_le 0 (n / d))) by done.
    destruct (Z.ltb_spec (n / d * d) n); cbn [andb Z.b2z]; rewrite add64_small; [nia|z64; nia|nia|lia].
  - assert (0 <= - n / d) by (apply Z.div_pos; lia). destruct (Z.leb_spec 0 (- (- n / d))); cbn [andb].
    + destruct (Z.ltb_spec (- (- n / d) * d) n); cbn [Z.b2z]; [nia|]. rewrite add64_small; lia.
    + cbn [Z.b2z]. rewrite add64_small; lia.
Qed.

Lemma FloorOfRatio_ok n d : 0 < d -> - two63 <= n < two63 -> FloorOfRatio n d = OK (n / d).
Proof.
  intros Hd Hn. destruct (quot_bounds n d Hd Hn) as (Hq & Hp & Hv).
  unfold FloorOfRatio, CeilOrFloorOfRatio. rewrite (proj2 (Z.eqb_neq d 0)) by lia.
  rewrite div64_small, mul64_small by (rewrite ?div64_small; lia). f_equal.
  rewrite (proj2 (Z.ltb_lt 0 d) Hd), (proj2 (Z.ltb_ge d 0)) by lia. rewrite orb_false_r, andb_true_l.
  pose proof (Z.div_mod n d ltac:(lia)) as En. pose proof (Z.mod_pos_bound n d Hd).
  pose proof (Z.div_mod (- n) d ltac:(lia)) as Em. pose proof (Z.mod_pos_bound (- n) d Hd).
  destruct (decide (0 <= n)); rewrite Hv in *.
  - assert (0 <= n / d) by (apply Z.div_pos; lia). destruct (Z.ltb_spec n (n / d * d)); [nia|].
    rewrite andb_false_r. cbn [Z.b2z]. rewrite sub64_small; lia.
  - assert (0 <= - n / d) by (apply Z.div_pos; lia). rewrite (proj2 (Z.leb_le (- (- n / d)) 0)) by lia.
    destruct (Z.ltb_spec n (- (- n / d) * d)); cbn [andb Z.b2z]; rewrite sub64_small; [nia|z64; nia|nia|lia].
Qed.

Lemma RoundUpTo_ok n d : 0 < d -> - two63 <= n -> n + d <= two63 ->
  exists r, RoundUpTo n d = OK r /\ r mod d = 0 /\ n <= r < n + d.
Proof.
  intros Hd H1 H2. unfold RoundUpTo. rewrite CeilOfRatio_ok by lia. cbn [mbind outcome_bind].
  pose proof (Z.div_mod (- n) d ltac:(lia)). pose proof (Z.mod_pos_bound (- n) d Hd).
  exists (- (- n / d) * d). rewrite mul64_small by (z64; nia). split; [done|].
  split; [by apply Z_mod_mult|nia].
Qed.

Lemma GCD_loop_ok fuel x y : 0 <= y <= x -> y < 2 ^ Z.of_nat fuel -> x * y < 2 ^ Z.of_nat fuel ->
  GCD_loop fuel x y = OK (Z.gcd x y).
Proof.
  revert x y. induction fuel as [|fuel IH]; intros x y Hxy Hy Hm.
  - simpl in *. assert (y = 0) as -> by lia. simpl. f_equal. by rewrite Z.gcd_0_r, Z.abs_eq by lia.
  - cbn [GCD_loop]. destruct (Z.eqb_spec y 0) as [->|H0].
    { f_equal. by rewrite Z.gcd_0_r, Z.abs_eq by lia. }
    rewrite Nat2Z.inj_succ, Z.pow_succ_r in Hy, Hm by lia.
    pose proof (Z.mod_pos_bound x y ltac:(lia)). pose proof (Z.div_mod x y ltac:(lia)).
    assert (1 <= x / y) by (apply Z.div_le_lower_bound; lia).
    rewrite IH; [f_equal; rewrite (Z.gcd_comm y), Z.gcd_mod by lia; apply Z.gcd_comm|lia|nia|nia].
Qed.

Lemma GCD_enough fuel x y : 2 ^ Z.of_nat fuel = two64 * two64 ->
  is_u64 x = true -> is_u64 y = true -> GCD_loop (S fuel) x y = OK (Z.gcd x y).
Proof.
  unfold is_u64. intros Hf Hx Hy. cbn [GCD_loop].
  destruct (Z.eqb_spec y 0) as [->|H0]; [f_equal; by rewrite Z.gcd_0_r, Z.abs_eq by lia|].
  pose proof (Z.mod_pos_bound x y ltac:(lia)).
  rewrite GCD_loop_ok; [f_equal; rewrite (Z.gcd_comm y), Z.gcd_mod by lia; apply Z.gcd_comm|lia|..];
    rewrite Hf; z64; nia.
Qed.

(** The greatest common divisor, on all 64-bit unsigned numbers. *)
Lemma GCD_ok x y : is_u64 x = true -> is_u64 y = true -> GCD x y = OK (Z.gcd x y).
Proof. exact (GCD_enough 128 x y eq_refl). Qed.

(** Squaring and multiplying computes the power, modulo 2^64. *)
Lemma i64_mul_l x y : i64 (i64 x * y) = i64 (x * y).
Proof.
  destruct (i64_cong x) as [k Hk]. rewrite Hk.
  assert (E : (x + k * two64) * y = x * y + (k * y) * two64) by ring. rewrite E. by rewrite i64_shift.
Qed.

Lemma i64_pow_l x e k : 0 <= e -> i64 (i64 x ^ e * k) = i64 (x ^ e * k).
Proof.
  intros He. destruct (i64_cong x) as [c ->]. revert k. pattern e. apply natlike_ind; [done| |done].
  intros e' He' IHe k. rewrite !Z.pow_succ_r by done.
  rewrite !(Z.mul_comm _ (_ ^ e')), <- !Z.mul_assoc, IHe.
  assert (E : x ^ e' * ((x + c * two64) * k) = x ^ e' * (x * k) + (x ^ e' * c * k) * two64) by ring.
  rewrite E. apply i64_shift.
Qed.

Lemma IPow_loop_ok fuel base exp result :
  0 <= exp < 2 ^ Z.of_nat fuel -> (0 < fuel)%nat ->
  exists r, IPow_loop fuel base exp result = OK r /\ i64 r = i64 (result * base ^ exp).
Proof.
  revert base exp result. induction fuel as [|fuel IH]; intros base exp result He Hf; [lia|].
  rewrite Nat2Z.inj_succ, Z.pow_succ_r in He by lia. cbn [IPow_loop].
  rewrite (Z.land_ones exp 1 ltac:(lia) : Z.land exp 1 = exp mod 2), Z.shiftr_div_pow2 by lia. change (2 ^ 1) with 2.
  pose proof (Z.div_mod exp 2 ltac:(lia)) as Ee. pose proof (Z.mod_pos_bound exp 2 ltac:(lia)) as Hm.
  set (result' := if negb (exp mod 2 =? 0) then mul64 result base else result).
  assert (Hr : i64 result' = i64 (result * base ^ (exp mod 2))).
  { unfold result'. destruct (Z.eqb_spec (exp mod 2) 0) as [->|H1]; cbn [negb]; [f_equal; ring|].
    replace (exp mod 2) with 1 by lia. unfold mul64. by rewrite i64_small, Z.pow_1_r by apply i64_range. }
  assert (Hpow : 0 <= exp / 2 -> result * base ^ exp = result * base ^ (exp mod 2) * (base * base) ^ (exp / 2)).
  { intros H0. rewrite Ee at 1. rewrite Z.pow_add_r, Z.pow_mul_r by lia. rewrite Z.pow_2_r. ring. }
  assert (Hd : 0 <= exp / 2) by (apply Z.div_pos; lia).
  destruct (Z.eqb_spec (exp / 2) 0) as [H0|H0].
  - exists result'. split; [done|]. rewrite Hr, Hpow, H0 by done. f_equal. simpl. ring.
  - destruct fuel as [|fuel]; [simpl in He; lia|].
    destruct (IH (mul64 base base) (exp / 2) result') as (r & -> & Hi); [lia|lia|]. exists r. split; [done|].
    rewrite Hi, Hpow by done. rewrite <- (i64_mul_l result'), Hr, i64_mul_l.
    unfold mul64. rewrite (Z.mul_comm (result * _)). rewrite i64_pow_l by done. f_equal. ring.
Qed.

(** IPow computes the power modulo 2^64, for every exponent that an int64_t holds. *)
Lemma IPow_ok base exp : 0 <= exp < two63 ->
  exists r, IPow base exp = OK r /\ i64 r = i64 (base ^ exp).
Proof.
  intros He. destruct (IPow_loop_ok 64 base exp 1) as (r & Hr & Hi); [|lia|].
  - change (2 ^ Z.of_nat 64) with two64. z64. lia.
  - exists r. split; [exact Hr|]. by rewrite Hi, Z.mul_1_l.
Qed.

(** ** Bits *)

Lemma has_single_bit_pow x : has_single_bit x = true -> exists n, 0 <= n /\ x = 2 ^ n.
Proof.
  unfold has_single_bit. intros [Hx Hl]%andb_true_iff. apply Z.ltb_lt in Hx. apply Z.eqb_eq in Hl.
  exists (Z.log2 x). pose proof (Z.log2_nonneg x) as Hn. split; [done|].
  destruct (Z.log2_spec x Hx) as [H1 H2]. destruct (decide (x = 2 ^ Z.log2 x)) as [|Hne]; [done|exfalso].
  assert (Hb : Z.testbit (Z.land x (x - 1)) (Z.log2 x) = true).
  { rewrite Z.land_spec, Z.bit_log2 by done. cbn [andb].
    rewrite <- (Z.log2_unique (x - 1) (Z.log2 x) Hn) by lia. apply Z.bit_log2. lia. }
  by rewrite Hl, Z.bits_0 in Hb.
Qed.

Lemma LsbMask_ok width : 0 <= width <= 64 -> LsbMask width = Z.ones width.
Proof.
  intros Hw. unfold LsbMask. destruct (Z.eqb_spec width 0) as [->|H0]; [done|].
  change (two64 - 1) with (Z.ones 64). rewrite Z.shiftr_div_pow2, Z.ones_div_pow2 by lia. f_equal. lia.
Qed.

Lemma KeepLowerBits_ok value width : 0 <= width <= 64 -> KeepLowerBits value width = value mod 2 ^ width.
Proof. intros Hw. unfold KeepLowerBits. rewrite LsbMask_ok by done. apply Z.land_ones. lia. Qed.

Lemma Log2Floor_ok x : 0 < x -> 2 ^ Log2Floor x <= x < 2 ^ (Log2Floor x + 1).
Proof.
  intros Hx. unfold Log2Floor, bit_width. rewrite (proj2 (Z.eqb_neq x 0)) by lia.
  destruct (Z.log2_spec x Hx). replace (Z.log2 x + 1 - 1) with (Z.log2 x) by lia. by rewrite Z.add_1_r.
Qed.

Lemma Log2Ceiling_ok x : 1 < x -> 2 ^ (Log2Ceiling x - 1) < x <= 2 ^ Log2Ceiling x.
Proof.
  intros Hx. unfold Log2Ceiling, bit_width. rewrite (proj2 (Z.eqb_neq x 0)), (proj2 (Z.eqb_neq (x - 1) 0)) by lia.
  destruct (Z.log2_spec (x - 1) ltac:(lia)). replace (Z.log2 (x - 1) + 1 - 1) with (Z.log2 (x - 1)) by lia.
  rewrite Z.add_1_r. lia.
Qed.

(** Adding [2^n - 1] and clearing the low bits rounds up. *)
Lemma clear_low_bits x n : 0 <= n -> Z.land x (Z.lnot (2 ^ n - 1)) = x / 2 ^ n * 2 ^ n.
Proof.
  intros Hn. rewrite Z.sub_1_r, <- Z.ones_equiv, <- Z.ldiff_land.
  by rewrite Z.ldiff_ones_r, Z.shiftl_mul_pow2, Z.shiftr_div_pow2 by done.
Qed.
