(* ===== verification/PermutationUtil.v ===== *)
(** * Permutations

    xla/permutation_util.{h,cc}: permutations of dimension numbers as vectors
    of int64_t. *)

From S2P Require Import Prelude.

(** ** Operations *)

Fixpoint IsPermutation_loop (permutation : list Z) (seen : list bool) : bool :=
  match permutation with
  | [] => true
  | p :: rest =>
      match idx seen p with
      | Some false => IsPermutation_loop rest (<[Z.to_nat p := true]> seen)
      | _ => false   (* p < 0, p >= size or already seen *)
      end
  end.

Definition IsPermutation (permutation : list Z) : bool :=
  IsPermutation_loop permutation (replicate (length permutation) false).

Definition Permute {A} (input : list A) (permutation : list Z) : outcome (list A) :=
  _ ← check (bool_decide (length permutation = length input));
  _ ← check (IsPermutation permutation);
  mapM (fun p => at_ input p) permutation.

(** [output[permutation[i]] = input[i]] over a value-initialized output. *)
Definition scatter {A} (d : A) (n : nat) (input : list A) (permutation : list Z) :
    outcome (list A) :=
  foldM (fun output '(p, x) => set_at output p x)
        (replicate n d) (zip permutation input).

Definition PermuteInverse {A} (d : A) (input : list A) (permutation : list Z) :
    outcome (list A) :=
  _ ← check (bool_decide (length permutation = length input));
  _ ← check (IsPermutation permutation);
  scatter d (length input) input permutation.

Definition InversePermutation (input_permutation : list Z) : outcome (list Z) :=
  scatter 0 (length input_permutation) (indices input_permutation) input_permutation.

Definition ComposePermutations (p1 p2 : list Z) : outcome (list Z) :=
  _ ← check (bool_decide (length p1 = length p2));
  mapM (fun i => at_ p1 i) p2.

Definition IsIdentityPermutation (permutation : list Z) : bool :=
  forallb (fun '(i, p) => p =? i) (zip (indices permutation) permutation).

(** ** Lemmas *)

(** What it means to be a permutation of 0 .. size-1. *)
Definition is_perm (p : list Z) : Prop := p ≡ₚ indices p.

Lemma IsPermutation_loop_spec p seen :
  IsPermutation_loop p seen = true <-> NoDup p /\ Forall (fun x => idx seen x = Some false) p.
Proof.
  revert seen; induction p as [|x p IH]; intros seen; simpl.
  { split; [by repeat constructor|done]. }
  rewrite NoDup_cons, Forall_cons.
  destruct (idx seen x) as [[]|] eqn:E; try (split; [done|]; intros [_ [? _]]; congruence).
  rewrite IH, !Forall_forall. apply idx_Some in E as [Hx Hl].
  assert (Hup : forall y, idx (<[Z.to_nat x:=true]> seen) y = Some false
                    <-> y <> x /\ idx seen y = Some false).
  { intros y. rewrite !idx_Some. destruct (decide (y = x)) as [->|n].
    - rewrite list_lookup_insert_eq by eauto using lookup_lt_Some.
      split; [intros [_ [=]]|by intros [? _]].
    - destruct (decide (0 <= y)).
      + rewrite list_lookup_insert_ne by lia. tauto.
      + split; [by intros []|by intros (_ & ? & _)]. }
  setoid_rewrite Hup. split.
  - intros [Hn Hf]. split_and!; [|done|done|].
    + intros Hin. by destruct (Hf x Hin).
    + intros y Hy. by destruct (Hf y Hy).
  - intros [[Hn Hd] [_ Hf]]. split; [done|]. intros y Hy. split; [by intros ->|auto].
Qed.

Lemma IsPermutation_bounds p :
  IsPermutation p = true <-> NoDup p /\ Forall (fun x => 0 <= x < Zlen p) p.
Proof.
  unfold IsPermutation. rewrite IsPermutation_loop_spec. f_equiv.
  apply Forall_iff. intros x. rewrite idx_Some, lookup_replicate. unfold Zlen.
  split; [intros (? & ? & ?); lia|intros ?; split_and!; [lia|done|lia]].
Qed.

Lemma is_perm_bounds p : is_perm p <-> NoDup p /\ Forall (fun x => 0 <= x < Zlen p) p.
Proof.
  unfold is_perm. split.
  - intros Hp. split.
    + rewrite Hp. apply NoDup_seqZ.
    + apply Forall_forall. intros x Hx. rewrite Hp in Hx. by apply elem_of_indices in Hx.
  - intros [Hn Hb]. apply submseteq_length_Permutation.
    + apply NoDup_submseteq; [done|]. intros x Hx. apply elem_of_indices.
      by apply (proj1 (Forall_forall _ _) Hb).
    + unfold indices. rewrite length_seqZ. unfold Zlen. lia.
Qed.

Lemma is_perm_NoDup p : is_perm p -> NoDup p.
Proof. by intros [? _]%is_perm_bounds. Qed.
Lemma is_perm_range p x : is_perm p -> x ∈ p -> 0 <= x < Zlen p.
Proof. intros [_ H]%is_perm_bounds. by apply (proj1 (Forall_forall _ _) H). Qed.
Lemma is_perm_surj p x : is_perm p -> 0 <= x < Zlen p -> x ∈ p.
Proof. unfold is_perm. intros H. rewrite <- elem_of_indices. by rewrite <- H. Qed.

Lemma scatter_spec {A} (d : A) n input p :
  NoDup p -> Forall (fun x => 0 <= x < Z.of_nat n) p -> length p = length input ->
  exists out, scatter d n input p = OK out /\ length out = n
    /\ forall k j x, p !! k = Some j -> input !! k = Some x -> idx out j = Some x.
Proof.
  intros Hn Hb Hl. unfold scatter.
  destruct (foldM_total
    (fun (l : list (Z * A)) out => length out = n /\ forall j x, (j, x) ∈ l -> idx out j = Some x)
    (fun output '(q, x) => set_at output q x) (zip p input) (replicate n d))
    as (out & Hout & Hlen & Hall).
  - split; [apply length_replicate|]. intros j x []%not_elem_of_nil.
  - intros l1 [q x] l2 b Hz [Hlb Hb1].
    assert (Hq : q ∈ p).
    { rewrite <- (fst_zip p input) by lia. rewrite Hz, fmap_app. set_solver. }
    pose proof (proj1 (Forall_forall _ _) Hb q Hq) as Hr; simpl in Hr.
    exists (<[Z.to_nat q := x]> b). rewrite set_at_OK, length_insert. unfold Zlen.
    split_and!; [lia|lia|done|done|].
    intros j y [Hin|Hin%list_elem_of_singleton]%elem_of_app.
    + assert (j <> q).
      { intros ->. rewrite <- (fst_zip p input), Hz, fmap_app in Hn by lia.
        apply NoDup_app in Hn as (_ & Hd & _). apply (Hd q); [|set_solver].
        apply list_elem_of_fmap. by exists (q, y). }
      specialize (Hb1 j y Hin). rewrite idx_Some in *.
      by rewrite list_lookup_insert_ne by lia.
    + simplify_eq. rewrite idx_Some, list_lookup_insert_eq by lia. split; [lia|done].
  - exists out. split_and!; [done..|]. intros k j x Hp Hi. apply Hall.
    apply list_elem_of_lookup. exists k. apply lookup_zip_with_Some. eauto 6.
Qed.

Lemma Permute_spec {A} (input out : list A) p :
  is_perm p -> length p = length input ->
  Permute input p = OK out <->
  length out = length p /\ forall k j, p !! k = Some j -> out !! k = idx input j.
Proof.
  intros Hp Hl. unfold Permute.
  rewrite bool_decide_eq_true_2 by done. simpl.
  rewrite (proj2 (IsPermutation_bounds p)) by (by apply is_perm_bounds). simpl.
  rewrite mapM_OK, Forall2_lookup. split.
  - intros HF. split.
    + symmetry. apply Forall2_length with (P := fun q x => at_ input q = OK x).
      by apply Forall2_lookup.
    + intros k j Hk. specialize (HF k). rewrite Hk in HF. inversion HF as [? x Hx|]; subst.
      symmetry. by apply at_OK.
  - intros [Hlo Hk] k. destruct (p !! k) as [j|] eqn:E.
    + pose proof (is_perm_range _ j Hp (list_elem_of_lookup_2 _ _ _ E)) as Hr.
      rewrite (Hk _ _ E). destruct (at_in_range input j) as [x Hx]; [unfold Zlen in *; lia|].
      pose proof (proj1 (at_OK _ _ _) Hx) as ->. by constructor.
    + apply lookup_ge_None in E. rewrite lookup_ge_None_2 by lia. constructor.
Qed.

Lemma Permute_total {A} (input : list A) p :
  is_perm p -> length p = length input -> exists out, Permute input p = OK out.
Proof.
  intros Hp Hl. unfold Permute.
  rewrite bool_decide_eq_true_2 by done. simpl.
  rewrite (proj2 (IsPermutation_bounds p)) by (by apply is_perm_bounds). simpl.
  cut (exists out, mapM (fun q => at_ input q) p = OK out); [done|].
  assert (Hall : Forall (fun q => 0 <= q < Zlen input) p).
  { apply Forall_forall. intros q Hq. pose proof (is_perm_range _ _ Hp Hq).
    unfold Zlen in *. lia. }
  clear Hp Hl. induction Hall as [|q p Hq _ (out & IH)]; simpl; [by exists []|].
  destruct (at_in_range input q Hq) as [x ->]. simpl. rewrite IH. by eexists.
Qed.

Lemma idx_indices {A} (l : list A) k i : indices l !! k = Some i <-> (k < length l)%nat /\ i = Z.of_nat k.
Proof.
  unfold indices. rewrite lookup_seqZ. unfold Zlen. lia.
Qed.

Lemma length_indices {A} (l : list A) : length (indices l) = length l.
Proof. unfold indices, Zlen. rewrite length_seqZ. lia. Qed.

Lemma is_perm_of_surj (q : list Z) :
  (forall i, 0 <= i < Zlen q -> i ∈ q) -> is_perm q.
Proof.
  intros Hs. unfold is_perm. symmetry. apply submseteq_length_Permutation.
  - apply NoDup_submseteq; [apply NoDup_seqZ|]. intros x Hx%elem_of_indices. auto.
  - by rewrite length_indices.
Qed.

(** InversePermutation succeeds on a permutation, returns a permutation, and
    [output_permutation[input_permutation[i]] = i]. *)
Lemma InversePermutation_spec p :
  is_perm p ->
  exists q, InversePermutation p = OK q /\ is_perm q /\ length q = length p
    /\ (forall k j, p !! k = Some j -> idx q j = Some (Z.of_nat k))
    /\ (forall k j, q !! k = Some j -> idx p j = Some (Z.of_nat k)).
Proof.
  intros Hp. unfold InversePermutation.
  destruct (scatter_spec 0 (length p) (indices p) p) as (q & Hq & Hl & Hk).
  { by apply is_perm_NoDup. }
  { by apply is_perm_bounds. }
  { by rewrite length_indices. }
  assert (Hf : forall k j, p !! k = Some j -> idx q j = Some (Z.of_nat k)).
  { intros k j Hj. apply (Hk k); [done|]. apply idx_indices. eauto using lookup_lt_Some. }
  assert (Hb : forall k j, q !! k = Some j -> idx p j = Some (Z.of_nat k)).
  { intros k j Hj. assert (Hin : Z.of_nat k ∈ p).
    { apply is_perm_surj; [done|]. apply lookup_lt_Some in Hj. unfold Zlen. lia. }
    apply list_elem_of_lookup in Hin as [m Hm]. specialize (Hf m _ Hm).
    rewrite idx_of_nat in Hf. rewrite Hf in Hj. injection Hj as <-. by rewrite idx_of_nat. }
  exists q. split_and!; [done| |done..].
  apply is_perm_of_surj. intros i Hi. unfold Zlen in Hi. rewrite Hl in Hi.
  destruct (lookup_lt_is_Some_2 p (Z.to_nat i)) as [j Hj]; [lia|].
  specialize (Hf _ _ Hj). apply idx_Some in Hf as [_ Hf].
  apply list_elem_of_lookup. exists (Z.to_nat j). rewrite Hf. f_equal. lia.
Qed.

Lemma ComposePermutations_spec p1 p2 out :
  length p1 = length p2 ->
  ComposePermutations p1 p2 = OK out <->
  length out = length p2 /\ forall k i, p2 !! k = Some i -> exists x, out !! k = Some x /\ idx p1 i = Some x.
Proof.
  intros Hl. unfold ComposePermutations. rewrite bool_decide_eq_true_2 by done. simpl.
  rewrite mapM_OK, Forall2_lookup. split.
  - intros HF. split.
    + symmetry. apply Forall2_length with (P := fun i x => at_ p1 i = OK x). by apply Forall2_lookup.
    + intros k i Hi. specialize (HF k). rewrite Hi in HF. inversion HF as [? x Hx|]; subst.
      exists x. split; [done|]. by apply at_OK.
  - intros [Hlo Hk] k. destruct (p2 !! k) as [i|] eqn:E.
    + destruct (Hk _ _ E) as (x & -> & Hx). constructor. by apply at_OK.
    + apply lookup_ge_None in E. rewrite lookup_ge_None_2 by lia. constructor.
Qed.

Lemma InversePermutation_involutive p q :
  is_perm p -> InversePermutation p = OK q -> is_perm q /\ length q = length p
  /\ InversePermutation q = OK p /\ (forall k j, q !! k = Some j -> idx p j = Some (Z.of_nat k)).
Proof.
  intros Hp Hq. destruct (InversePermutation_spec p Hp) as (q' & Hq' & Hpq & Hl & Hf & Hb).
  rewrite Hq in Hq'. injection Hq' as <-.
  split; [done|]. split; [done|]. split; [|done].
  destruct (InversePermutation_spec q Hpq) as (p' & -> & _ & Hl' & Hf' & _).
  f_equal. apply list_eq. intros k.
  destruct (decide (k < length p)%nat) as [Hk|Hk]; [|by rewrite !lookup_ge_None_2 by lia].
  destruct (lookup_lt_is_Some_2 p k Hk) as [j Hj]. rewrite Hj.
  pose proof (Hf k j Hj) as Hqj. apply idx_Some in Hqj as [Hj0 Hqj].
  specialize (Hf' _ _ Hqj). rewrite idx_of_nat in Hf'. rewrite Hf'. f_equal. lia.
Qed.

(** Permuting back with the inverse. *)
Lemma Permute_inverse {A} (input out : list A) p q :
  is_perm p -> length p = length input -> InversePermutation p = OK q ->
  Permute input p = OK out -> Permute out q = OK input.
Proof.
  intros Hp Hl Hq Ho. destruct (InversePermutation_involutive p q Hp Hq) as (Hpq & Hlq & _ & Hb).
  apply Permute_spec in Ho as [Hlo Hk]; [|done..].
  apply Permute_spec; [done|congruence|]. split; [congruence|].
  intros k j Hj. specialize (Hb k j Hj). apply idx_Some in Hb as [Hj0 Hb].
  rewrite <- (Z2Nat.id j) by done. rewrite idx_of_nat, (Hk _ _ Hb). by rewrite idx_of_nat.
Qed.

(** ** Theorems *)

(** IsPermutation, a single pass over a bit vector, decides exactly
    whether its argument is a rearrangement of 0 .. size-1. *)
Lemma IsPermutation_iff (p : list Z) : IsPermutation p = true <-> p ≡ₚ indices p.
Proof. rewrite IsPermutation_bounds. symmetry. apply is_perm_bounds. Qed.

(** for a permutation of the right size Permute and PermuteInverse
    pass all their CHECKs and undo each other, in both orders. *)
Lemma Permute_roundtrip {A} (d : A) (input : list A) (p : list Z) :
  IsPermutation p = true -> length p = length input ->
  (exists out, Permute input p = OK out /\ PermuteInverse d out p = OK input)
  /\ (exists out, PermuteInverse d input p = OK out /\ Permute out p = OK input).
Proof.
  intros Hip%IsPermutation_bounds Hl. pose proof Hip as Hp. apply is_perm_bounds in Hp.
  assert (HI : forall (x out : list A), length x = length p ->
    (forall k j y, p !! k = Some j -> x !! k = Some y -> idx out j = Some y) ->
    length out = length p -> Permute out p = OK x).
  { intros x out Hx Hk Ho. apply Permute_spec; [done|done|]. split; [done|].
    intros k j Hj. destruct (lookup_lt_is_Some_2 x k) as [y Hy].
    { rewrite Hx. eauto using lookup_lt_Some. }
    rewrite Hy. symmetry. eauto. }
  unfold PermuteInverse.
  split.
  - destruct (Permute_total input p Hp Hl) as [out Ho]. exists out. split; [done|].
    apply Permute_spec in Ho as [Hlo Hk]; [|done..].
    rewrite bool_decide_eq_true_2 by done. simpl.
    rewrite (proj2 (IsPermutation_bounds p)) by done. simpl.
    destruct (scatter_spec d (length out) out p) as (z & -> & Hz & Hzk).
    { apply Hip. } { rewrite Hlo. apply Hip. } { done. }
    f_equal. apply list_eq. intros i.
    destruct (decide (i < length p)%nat) as [Hi|Hi].
    + destruct (InversePermutation_spec p Hp) as (q & _ & _ & Hq & _ & Hqp).
      destruct (lookup_lt_is_Some_2 q i) as [j Hj]; [lia|].
      specialize (Hqp _ _ Hj). apply idx_Some in Hqp as [Hj0 Hpj].
      destruct (lookup_lt_is_Some_2 out (Z.to_nat j)) as [y Hy].
      { rewrite Hlo. eauto using lookup_lt_Some. }
      specialize (Hzk _ _ _ Hpj Hy). rewrite idx_of_nat in Hzk. rewrite Hzk.
      specialize (Hk _ _ Hpj). rewrite idx_of_nat, Hy in Hk. done.
    + rewrite !lookup_ge_None_2 by lia. done.
  - rewrite bool_decide_eq_true_2 by done. simpl.
    rewrite (proj2 (IsPermutation_bounds p)) by done. simpl.
    destruct (scatter_spec d (length input) input p) as (z & -> & Hz & Hzk).
    { apply Hip. } { rewrite <- Hl. apply Hip. } { done. }
    exists z. split; [done|]. apply HI; [done|done|lia].
Qed.

Lemma Permute_roundtrip_witness :
  IsPermutation [2; 0; 1] = true
  /\ (exists out, Permute [7; 8; 9] [2; 0; 1] = OK out /\ PermuteInverse 0 out [2; 0; 1] = OK [7; 8; 9]).
Proof.
  split; [reflexivity|].
  exact (proj1 (Permute_roundtrip 0 [7; 8; 9] [2; 0; 1] eq_refl eq_refl)).
Defined.

(** InversePermutation of a permutation is a permutation, and
    composing the two in either order gives the identity permutation. *)
Lemma InversePermutation_correct (p : list Z) (Hp : IsPermutation p = true) :
  exists q, InversePermutation p = OK q /\ IsPermutation q = true
    /\ ComposePermutations p q = OK (indices p) /\ ComposePermutations q p = OK (indices p).
Proof.
  apply IsPermutation_bounds, is_perm_bounds in Hp.
  destruct (InversePermutation_spec p Hp) as (q & Hq & Hpq & Hl & Hf & Hb).
  exists q. split; [done|]. split; [by apply IsPermutation_bounds, is_perm_bounds|].
  split; (apply ComposePermutations_spec; [done|]; split; [rewrite length_indices; lia|]);
    intros k i Hk; exists (Z.of_nat k);
    (split; [apply idx_indices; split; [|done]; apply lookup_lt_Some in Hk; lia|eauto]).
Qed.

Lemma InversePermutation_correct_witness :
  exists q, InversePermutation [1; 2; 0] = OK q /\ IsPermutation q = true
    /\ ComposePermutations [1; 2; 0] q = OK [0; 1; 2] /\ ComposePermutations q [1; 2; 0] = OK [0; 1; 2].
Proof. exact (InversePermutation_correct [1; 2; 0] eq_refl). Defined.
