(* ===== verification/Primitive.v ===== *)
(** * Primitive types

    The element types of xla/xla_data.proto and the classification, width and
    conversion functions of xla/primitive_util.{h,cc}.  The limits of the
    floating point types come from the third-party number libraries the source
    instantiates [std::numeric_limits] with; they are the class
    [FloatLimits]. *)

From S2P Require Import Prelude.

(** ** The enumeration (xla_data.proto, enum PrimitiveType) *)

Inductive PrimitiveType :=
  | PRIMITIVE_TYPE_INVALID
  | PRED
  | S1 | S2 | S4 | S8 | S16 | S32 | S64
  | U1 | U2 | U4 | U8 | U16 | U32 | U64
  | F16 | F32 | BF16 | F64
  | F8E5M2 | F8E4M3 | F8E4M3FN | F8E4M3B11FNUZ | F8E3M4 | F8E5M2FNUZ
  | F8E4M3FNUZ | F4E2M1FN | F8E8M0FNU
  | C64 | C128
  | TUPLE | OPAQUE_TYPE | TOKEN | BUFFER.

#[global] Instance PrimitiveType_eq_dec : EqDecision PrimitiveType.
Proof. solve_decision. Defined.

Declare Scope xla_scope.
Notation "a =?? b" := (bool_decide (a = b)) (at level 70) : xla_scope.
#[global] Open Scope xla_scope.

(** ** Classification (primitive_util.h) *)

Definition IsMXType (t : PrimitiveType) : bool :=
  match t with F4E2M1FN | F8E8M0FNU => true | _ => false end.

Definition IsF8Type (t : PrimitiveType) : bool :=
  match t with
  | F8E5M2 | F8E4M3 | F8E4M3FN | F8E4M3B11FNUZ | F8E5M2FNUZ | F8E4M3FNUZ
  | F8E3M4 | F8E8M0FNU => true
  | _ => false
  end.

Definition IsFloatingPointType (t : PrimitiveType) : bool :=
  match t with F16 | F32 | F64 | BF16 => true | _ => false end
  || IsF8Type t || IsMXType t.

Definition IsComplexType (t : PrimitiveType) : bool :=
  match t with C64 | C128 => true | _ => false end.

Definition IsSignedIntegralType (t : PrimitiveType) : bool :=
  match t with S1 | S2 | S4 | S8 | S16 | S32 | S64 => true | _ => false end.

Definition IsUnsignedIntegralType (t : PrimitiveType) : bool :=
  match t with U1 | U2 | U4 | U8 | U16 | U32 | U64 => true | _ => false end.

Definition IsIntegralType (t : PrimitiveType) : bool :=
  IsUnsignedIntegralType t || IsSignedIntegralType t.

Definition Is8BitIntegralType (t : PrimitiveType) : bool :=
  (t =?? S8) || (t =?? U8).

Definition IsArrayType (t : PrimitiveType) : bool :=
  (t =?? PRED) || IsIntegralType t || IsFloatingPointType t || IsComplexType t.

(** ** Widths *)

(** internal::PrimitiveTypeBitWidth: 0 outside the array types. *)
Definition PrimitiveTypeBitWidth (t : PrimitiveType) : Z :=
  match t with
  | PRED | S1 | U1 => 1
  | S2 | U2 => 2
  | S4 | U4 | F4E2M1FN => 4
  | S8 | U8 | F8E5M2 | F8E4M3 | F8E4M3FN | F8E4M3B11FNUZ | F8E3M4
  | F8E5M2FNUZ | F8E4M3FNUZ | F8E8M0FNU => 8
  | S16 | U16 | F16 | BF16 => 16
  | S32 | U32 | F32 => 32
  | S64 | U64 | F64 | C64 => 64
  | C128 => 128
  | PRIMITIVE_TYPE_INVALID | TUPLE | OPAQUE_TYPE | TOKEN | BUFFER => 0
  end.

Definition CeilOfRatio (dividend divisor : Z) : Z :=
  (dividend + divisor - 1) `div` divisor.

(** internal::WidthForType: LOG(FATAL) outside the array types. *)
Definition WidthForType (width : PrimitiveType -> Z) (t : PrimitiveType) : outcome Z :=
  if IsArrayType t then OK (width t) else Crash.
Definition BitWidth (t : PrimitiveType) : outcome Z :=
  WidthForType PrimitiveTypeBitWidth t.
Definition ByteWidth (t : PrimitiveType) : outcome Z :=
  WidthForType (fun t => CeilOfRatio (PrimitiveTypeBitWidth t) 8) t.

(** The type of a bit width (primitive_util.h, primitive_util.cc).  The signed
    table has no case for width 1. *)
Definition UnsignedIntegralTypeForBitWidth (src_bitwidth : Z) : PrimitiveType :=
  match src_bitwidth with
  | 1 => U1 | 2 => U2 | 4 => U4 | 8 => U8 | 16 => U16 | 32 => U32 | 64 => U64
  | _ => PRIMITIVE_TYPE_INVALID
  end.
Definition SignedIntegralTypeForBitWidth (src_bitwidth : Z) : PrimitiveType :=
  match src_bitwidth with
  | 2 => S2 | 4 => S4 | 8 => S8 | 16 => S16 | 32 => S32 | 64 => S64
  | _ => PRIMITIVE_TYPE_INVALID
  end.

Definition ComplexComponentType (t : PrimitiveType) : outcome PrimitiveType :=
  match t with C64 => OK F32 | C128 => OK F64 | _ => Crash end.

Definition ComplexType (t : PrimitiveType) : PrimitiveType :=
  match t with F32 => C64 | F64 => C128 | _ => PRIMITIVE_TYPE_INVALID end.

(** ** Floating point limits

    [std::numeric_limits<NativeT>] of the native type of a floating point
    element type: digits, min_exponent, max_exponent, has_infinity,
    has_quiet_NaN, and has_negative_zero_v. *)
Class FloatLimits := {
  fl_digits : PrimitiveType -> Z;
  fl_min_exponent : PrimitiveType -> Z;
  fl_max_exponent : PrimitiveType -> Z;
  fl_has_infinity : PrimitiveType -> bool;
  fl_has_nan : PrimitiveType -> bool;
  fl_has_negative_zero : PrimitiveType -> bool;
}.

Section Limits.
Context `{FloatLimits}.

(** FloatingPointTypeSwitch: LOG(FATAL) on any other type. *)
Definition FloatingPointTypeSwitch {A} (f : PrimitiveType -> A)
    (t : PrimitiveType) : outcome A :=
  if IsFloatingPointType t then OK (f t) else Crash.

Definition SignificandWidth (t : PrimitiveType) : outcome Z :=
  FloatingPointTypeSwitch fl_digits t.

Definition ExponentWidth (t : PrimitiveType) : outcome Z :=
  total_bit_width ← BitWidth t;
  s ← SignificandWidth t;
  let trailing_significand_field_width := s - 1 in
  let kSignBitWidth := 1 in
  OK (total_bit_width - (trailing_significand_field_width + kSignBitWidth)).

Definition UnderflowExponent (t : PrimitiveType) : outcome Z :=
  FloatingPointTypeSwitch fl_min_exponent t.
Definition OverflowExponent (t : PrimitiveType) : outcome Z :=
  FloatingPointTypeSwitch fl_max_exponent t.
Definition ExponentBias (t : PrimitiveType) : outcome Z :=
  u ← UnderflowExponent t; OK ((1 - u) + 1).

Definition HasInfinity (t : PrimitiveType) : bool :=
  if IsFloatingPointType t then fl_has_infinity t else false.
Definition HasNaN (t : PrimitiveType) : bool :=
  if IsFloatingPointType t then fl_has_nan t else false.
Definition HasNegativeZero (t : PrimitiveType) : bool :=
  if IsFloatingPointType t then fl_has_negative_zero t else false.

(** The tuple [type_properties] of HigherPrecisionType. *)
Definition type_properties (t : PrimitiveType) : outcome (list Z) :=
  component_type ← (if IsComplexType t then ComplexComponentType t else OK t);
  overflow ← (if IsFloatingPointType component_type
              then OverflowExponent component_type else OK (-1));
  significand ← (if IsFloatingPointType component_type
                 then SignificandWidth component_type else OK (-1));
  width ← BitWidth component_type;
  OK [Z.b2z (IsComplexType t); overflow; significand; width;
      Z.b2z (IsSignedIntegralType component_type)].

(** operator> of std::tuple: lexicographic. *)
Fixpoint tuple_gt (a b : list Z) : bool :=
  match a, b with
  | x :: a, y :: b => if y <? x then true else if x <? y then false else tuple_gt a b
  | _, _ => false
  end.

Definition HigherPrecisionType (a b : PrimitiveType) : outcome PrimitiveType :=
  a_properties ← type_properties a;
  b_properties ← type_properties b;
  if tuple_gt a_properties b_properties then OK a
  else if tuple_gt b_properties a_properties then OK b
  else _ ← check (a =?? b); OK a.

(** The floating point case of CastPreservesValues. *)
Definition FloatCastPreservesValues (from_type to_type : PrimitiveType) : outcome bool :=
  sf ← SignificandWidth from_type; st ← SignificandWidth to_type;
  ef ← ExponentWidth from_type; et ← ExponentWidth to_type;
  uf ← UnderflowExponent from_type; ut ← UnderflowExponent to_type;
  vf ← OverflowExponent from_type; vt ← OverflowExponent to_type;
  OK ((sf <=? st) && (ef <=? et)
      && (negb (HasInfinity from_type) || HasInfinity to_type)
      && (negb (HasNaN from_type) || HasNaN to_type)
      && (negb (HasNegativeZero from_type) || HasNegativeZero to_type)
      && (ut - st <=? uf - sf) && (vf <=? vt)).

(** The cases of CastPreservesValues from "F -> F" on. *)
Definition ScalarCastPreservesValues (from_type to_type : PrimitiveType) : outcome bool :=
  if IsFloatingPointType from_type && IsFloatingPointType to_type
  then FloatCastPreservesValues from_type to_type
  else if negb (IsIntegralType from_type) then OK false
  else
    from_width ← BitWidth from_type;
    let from_bits :=
      if IsSignedIntegralType from_type then from_width - 1 else from_width in
    to_width ← BitWidth to_type;
    let to_bits := if IsSignedIntegralType to_type then to_width - 1 else to_width in
    if IsFloatingPointType to_type then
      s ← SignificandWidth to_type;
      o ← OverflowExponent to_type;
      OK ((from_bits <=? s) && (from_width - 1 <? o))
    else if IsSignedIntegralType from_type && IsUnsignedIntegralType to_type
    then OK false
    else _ ← check (IsIntegralType to_type); OK (from_bits <=? to_bits).

(** The source recurses once, on the component types of a complex target,
    which are never complex; [CastPreservesValuesReal] is that call. *)
Definition CastPreservesValuesReal (from_type to_type : PrimitiveType) : outcome bool :=
  if from_type =?? to_type then OK true
  else if to_type =?? F8E8M0FNU then OK false
  else if from_type =?? PRED then OK true
  else if to_type =?? PRED then OK false
  else if IsComplexType from_type then OK false
  else ScalarCastPreservesValues from_type to_type.

Definition CastPreservesValues (from_type to_type : PrimitiveType) : outcome bool :=
  if from_type =?? to_type then OK true
  else if to_type =?? F8E8M0FNU then OK false
  else if from_type =?? PRED then OK true
  else if to_type =?? PRED then OK false
  else if IsComplexType to_type then
    from_component ← (if IsComplexType from_type
                      then ComplexComponentType from_type else OK from_type);
    to_component ← ComplexComponentType to_type;
    CastPreservesValuesReal from_component to_component
  else if IsComplexType from_type then OK false
  else ScalarCastPreservesValues from_type to_type.
End Limits.

(** ** Value ranges of the integral types *)

(** The least and greatest value of a PRED or integral element type. *)
Definition min_value (t : PrimitiveType) : Z :=
  if IsSignedIntegralType t then - 2 ^ (PrimitiveTypeBitWidth t - 1) else 0.
Definition max_value (t : PrimitiveType) : Z :=
  if IsSignedIntegralType t then 2 ^ (PrimitiveTypeBitWidth t - 1) - 1
  else 2 ^ PrimitiveTypeBitWidth t - 1.

(** *** Lemmas *)

Lemma array_type_cases t :
  IsArrayType t = true <->
  t = PRED \/ IsIntegralType t = true \/ IsFloatingPointType t = true \/ IsComplexType t = true.
Proof. destruct t; cbv; intuition (try discriminate; eauto). Qed.

Lemma BitWidth_array t : IsArrayType t = true -> BitWidth t = OK (PrimitiveTypeBitWidth t).
Proof. unfold BitWidth, WidthForType. by intros ->. Qed.

Lemma ByteWidth_pos t w : ByteWidth t = OK w -> 1 <= w <= 16.
Proof. destruct t; cbv; intros [= <-]; split; congruence. Qed.

Lemma tuple_gt_antisym a b : tuple_gt a b = true -> tuple_gt b a = false.
Proof.
  revert b; induction a as [|x a IH]; intros [|y b]; simpl; try done.
  destruct (Z.ltb_spec y x), (Z.ltb_spec x y); try lia; auto.
Qed.

Section Theorems.
  Context `{FloatLimits}.

Lemma type_properties_array (t : PrimitiveType) :
  IsArrayType t = true -> is_OK (type_properties t) = true.
Proof. by destruct t. Qed.

(** on PRED and the integral types the cast test holds precisely when
    every value of the source type is a value of the target type, where PRED is
    a target for PRED only; and there is one exception: PRED to S1 is accepted
    although the one-bit signed type has no value 1. *)
Lemma CastPreservesValues_integral_exact (a b : PrimitiveType)
    (Ha : a = PRED \/ IsIntegralType a = true) (Hb : b = PRED \/ IsIntegralType b = true) :
  CastPreservesValues a b
  = OK ((bool_decide (min_value b <= min_value a /\ max_value a <= max_value b)
         && ((a =?? PRED) || negb (b =?? PRED)))
        || ((a =?? PRED) && (b =?? S1))).
Proof.
  destruct Ha as [->|Ha], Hb as [->|Hb]; [| destruct b | destruct a | destruct a, b];
    try discriminate; vm_compute; reflexivity.
Qed.

(** the element type a mixed-precision instruction gets does not
    depend on the order of its operands: HigherPrecisionType is commutative,
    including where it aborts, and a value it returns is one of the two. *)
Lemma HigherPrecisionType_comm (a b : PrimitiveType) :
  IsArrayType a = true -> IsArrayType b = true ->
  HigherPrecisionType a b = HigherPrecisionType b a
  /\ forall t, HigherPrecisionType a b = OK t -> t = a \/ t = b.
Proof.
  intros Ha%type_properties_array Hb%type_properties_array.
  unfold HigherPrecisionType.
  destruct (type_properties a) as [pa| | |], (type_properties b) as [pb| | |]; try discriminate.
  simpl. destruct (tuple_gt pa pb) eqn:E1.
  - rewrite (tuple_gt_antisym _ _ E1). split; [done|]. intros t [= <-]. auto.
  - destruct (tuple_gt pb pa); [split; [done|]; intros t [= <-]; auto|].
    destruct (decide (a = b)) as [->|n].
    + rewrite bool_decide_eq_true_2 by done. split; [done|]. intros t [= <-]. auto.
    + by rewrite !bool_decide_eq_false_2.
Qed.
End Theorems.

(** The limits of the floating point types as the number libraries document
    them; they show that the hypotheses above can be met. *)
#[local] Instance example_limits : FloatLimits := {|
  fl_digits t := match t with
    | F64 => 53 | F32 => 24 | F16 => 11 | BF16 => 8 | F8E3M4 => 5
    | F8E4M3 | F8E4M3FN | F8E4M3B11FNUZ | F8E4M3FNUZ => 4
    | F8E5M2 | F8E5M2FNUZ => 3 | F4E2M1FN => 2 | _ => 1 end;
  fl_min_exponent t := match t with
    | F64 => -1021 | F32 | BF16 => -125 | F16 | F8E5M2 => -13 | F8E5M2FNUZ => -14
    | F8E4M3 | F8E4M3FN => -5 | F8E4M3FNUZ => -6 | F8E4M3B11FNUZ => -9
    | F8E3M4 => -1 | F4E2M1FN => 1 | _ => -126 end;
  fl_max_exponent t := match t with
    | F64 => 1024 | F32 | BF16 | F8E8M0FNU => 128 | F16 | F8E5M2 | F8E5M2FNUZ => 16
    | F8E4M3 | F8E4M3FNUZ => 8 | F8E4M3FN => 9 | F8E4M3B11FNUZ => 5
    | F8E3M4 => 4 | F4E2M1FN => 3 | _ => 0 end;
  fl_has_infinity t := match t with
    | F64 | F32 | BF16 | F16 | F8E5M2 | F8E4M3 | F8E3M4 => true | _ => false end;
  fl_has_nan t := negb (bool_decide (t = F4E2M1FN));
  fl_has_negative_zero t := match t with
    | F64 | F32 | BF16 | F16 | F8E5M2 | F8E4M3 | F8E4M3FN | F8E3M4 | F4E2M1FN => true
    | _ => false end |}.

Lemma CastPreservesValues_integral_exact_witness :
  CastPreservesValues PRED S1 = OK true /\ CastPreservesValues U8 S16 = OK true
  /\ CastPreservesValues S8 U16 = OK false.
Proof.
  split; [|split];
  [ exact (CastPreservesValues_integral_exact PRED S1 (or_introl eq_refl) (or_intror eq_refl))
  | exact (CastPreservesValues_integral_exact U8 S16 (or_intror eq_refl) (or_intror eq_refl))
  | exact (CastPreservesValues_integral_exact S8 U16 (or_intror eq_refl) (or_intror eq_refl)) ].
Defined.

Lemma HigherPrecisionType_comm_witness :
  HigherPrecisionType BF16 F16 = HigherPrecisionType F16 BF16
  /\ HigherPrecisionType BF16 F16 = OK BF16.
Proof.
  split; [exact (proj1 (HigherPrecisionType_comm BF16 F16 eq_refl eq_refl)) | reflexivity].
Defined.
