(* ===== verification/Shape.v ===== *)
(** * Shapes and layouts

    The data of xla/layout.{h,cc} and xla/shape.{h,cc}: the Shape class, whose
    variant state is an inductive type here, and its member functions.  DCHECKs
    are compiled out in an optimized build and are not modelled. *)

From S2P Require Import Prelude MachineInt Primitive.

#[local] Set Warnings "-register-all".

(** ** Data *)

(** Tile::dimensions_, SplitConfig and Layout.  A layout may own the shape of
    its physical representation, so it is parameterized by the type of
    shapes. *)
Definition Tile := list Z.
Record SplitConfig := mkSplitConfig { sc_dimension : Z; sc_split_indices : list Z }.

Record LayoutOf (S : Type) := mkLayout {
  memory_space : Z;
  element_size_in_bits : Z;
  minor_to_major : list Z;
  tiles : list Tile;
  split_configs : list SplitConfig;
  tail_padding_alignment_in_elements : Z;
  index_primitive_type : PrimitiveType;
  pointer_primitive_type : PrimitiveType;
  physical_shape : option S;
  dynamic_shape_metadata_prefix_bytes : Z;
}.
Arguments mkLayout {S}.
Arguments memory_space {S}.
Arguments element_size_in_bits {S}.
Arguments minor_to_major {S}.
Arguments tiles {S}.
Arguments split_configs {S}.
Arguments tail_padding_alignment_in_elements {S}.
Arguments index_primitive_type {S}.
Arguments pointer_primitive_type {S}.
Arguments physical_shape {S}.
Arguments dynamic_shape_metadata_prefix_bytes {S}.

(** Shape::ArrayState. *)
Record ArrayStateOf (S : Type) := mkArrayState {
  dims : list Z;
  dyns : list bool;
  array_layout : option (LayoutOf S);
}.
Arguments mkArrayState {S}.
Arguments dims {S}.
Arguments dyns {S}.
Arguments array_layout {S}.

(** Shape: the constructor is the case of the variant [state_], and the element
    type is stored where it is not determined by the case. *)
Inductive Shape :=
  | InvalidShape
  | TokenShape
  | OpaqueShape
  | ArrayShape (element_type : PrimitiveType) (state : ArrayStateOf Shape)
  | TupleShape (tuple_shapes : list Shape)
  | BufferShape (buffer_shape : Shape).

Abbreviation Layout := (LayoutOf Shape).
Abbreviation ArrayState := (ArrayStateOf Shape).

Definition kUnboundedSize : Z := int64_min.

(** Layout(): the default member values. *)
Definition empty_layout : Layout := {|
  memory_space := 0; element_size_in_bits := 0; minor_to_major := []; tiles := [];
  split_configs := []; tail_padding_alignment_in_elements := 1;
  index_primitive_type := PRIMITIVE_TYPE_INVALID;
  pointer_primitive_type := PRIMITIVE_TYPE_INVALID;
  physical_shape := None; dynamic_shape_metadata_prefix_bytes := 0 |}.

Definition set_minor_to_major (m : list Z) (l : Layout) : Layout :=
  mkLayout (memory_space l) (element_size_in_bits l) m (tiles l) (split_configs l)
    (tail_padding_alignment_in_elements l) (index_primitive_type l)
    (pointer_primitive_type l) (physical_shape l) (dynamic_shape_metadata_prefix_bytes l).
Definition set_element_size_in_bits (b : Z) (l : Layout) : Layout :=
  mkLayout (memory_space l) b (minor_to_major l) (tiles l) (split_configs l)
    (tail_padding_alignment_in_elements l) (index_primitive_type l)
    (pointer_primitive_type l) (physical_shape l) (dynamic_shape_metadata_prefix_bytes l).
Definition set_dynamic_shape_metadata_prefix_bytes (b : Z) (l : Layout) : Layout :=
  mkLayout (memory_space l) (element_size_in_bits l) (minor_to_major l) (tiles l)
    (split_configs l) (tail_padding_alignment_in_elements l) (index_primitive_type l)
    (pointer_primitive_type l) (physical_shape l) b.

(** ** Observers (shape.h) *)

Definition element_type_including_buffer (s : Shape) : PrimitiveType :=
  match s with
  | InvalidShape => PRIMITIVE_TYPE_INVALID
  | TokenShape => TOKEN
  | OpaqueShape => OPAQUE_TYPE
  | ArrayShape t _ => t
  | TupleShape _ => TUPLE
  | BufferShape _ => BUFFER
  end.

Fixpoint element_type (s : Shape) : PrimitiveType :=
  match s with
  | BufferShape b => element_type b
  | _ => element_type_including_buffer s
  end.

Definition IsArrayExcludingBuffer (s : Shape) : bool :=
  IsArrayType (element_type_including_buffer s).
Definition IsTuple (s : Shape) : bool := element_type_including_buffer s =?? TUPLE.
Definition IsBuffer (s : Shape) : bool := element_type_including_buffer s =?? BUFFER.
Definition IsToken (s : Shape) : bool := element_type_including_buffer s =?? TOKEN.
Definition IsOpaque (s : Shape) : bool := element_type_including_buffer s =?? OPAQUE_TYPE.
Definition IsArray (s : Shape) : bool := IsArrayExcludingBuffer s || IsBuffer s.

Definition if_array_state (s : Shape) : option ArrayState :=
  match s with ArrayShape _ st => Some st | _ => None end.
Definition if_buffer_state (s : Shape) : option Shape :=
  match s with BufferShape b => Some b | _ => None end.

(** array_state_maybe_underneath_buffer: CHECK-fails on a shape that is neither
    an array nor a buffer, and dereferences null on a buffer of a non-array. *)
Definition array_state (s : Shape) : outcome ArrayState :=
  match s with
  | ArrayShape _ st => OK st
  | BufferShape (ArrayShape _ st) => OK st
  | _ => Crash
  end.

Definition dimensions (s : Shape) : outcome (list Z) := st ← array_state s; OK (dims st).
Definition dynamic_dimensions (s : Shape) : outcome (list bool) :=
  st ← array_state s; OK (dyns st).
Definition rank (s : Shape) : outcome Z := st ← array_state s; OK (Zlen (dims st)).
Definition dimension (s : Shape) (i : Z) : outcome Z := st ← array_state s; at_ (dims st) i.
Definition is_dynamic_dimension (s : Shape) (i : Z) : outcome bool :=
  st ← array_state s; at_ (dyns st) i.
Definition is_unbounded_dynamic_dimension (s : Shape) (i : Z) : outcome bool :=
  d ← dimension s i; OK (d =? kUnboundedSize).
Definition is_bounded_dynamic_dimension (s : Shape) (i : Z) : outcome bool :=
  b ← is_dynamic_dimension s i;
  u ← is_unbounded_dynamic_dimension s i;
  OK (b && negb u).

Definition tuple_shapes (s : Shape) : outcome (list Shape) :=
  match s with TupleShape l => OK l | _ => Crash end.

Definition has_layout (s : Shape) : bool :=
  match array_state s with
  | OK st => match array_layout st with Some _ => true | None => false end
  | _ => false
  end.

Definition shape_layout (s : Shape) : outcome Layout :=
  st ← array_state s;
  match array_layout st with Some l => OK l | None => Crash end.

Definition IsValidDimensionSize (size : Z) (is_dynamic : bool) : bool :=
  (0 <=? size) || (is_dynamic && (size =? kUnboundedSize)).

Fixpoint AreAllLeavesIntegers (s : Shape) : bool :=
  match s with
  | TupleShape l => forallb AreAllLeavesIntegers l
  | _ => IsIntegralType (element_type s)
  end.

(** A predicate of the array state, folded over the elements of a tuple; the
    state below a buffer is read as in [array_state]. *)
Fixpoint is_static (s : Shape) : outcome bool :=
  match s with
  | TupleShape l =>
      (fix all (l : list Shape) : outcome bool := match l with
        | [] => OK true
        | s :: l => b ← is_static s; if (b : bool) then all l else OK false
        end) l
  | ArrayShape _ _ | BufferShape _ =>
      st ← array_state s; OK (negb (existsb (fun b => b) (dyns st)))
  | _ => OK true
  end.

Fixpoint is_unbounded_dynamic (s : Shape) : outcome bool :=
  match s with
  | TupleShape l =>
      (fix any (l : list Shape) : outcome bool := match l with
        | [] => OK false
        | s :: l => b ← is_unbounded_dynamic s; if (b : bool) then OK true else any l
        end) l
  | ArrayShape _ _ | BufferShape _ =>
      st ← array_state s; OK (existsb (fun d => d =? kUnboundedSize) (dims st))
  | _ => OK false
  end.

Fixpoint is_bounded_dynamic (s : Shape) : outcome bool :=
  match s with
  | TupleShape l =>
      (fix any (l : list Shape) : outcome bool := match l with
        | [] => OK false
        | s :: l => b ← is_bounded_dynamic s; if (b : bool) then OK true else any l
        end) l
  | ArrayShape _ _ | BufferShape _ =>
      st ← array_state s;
      foldM (fun (found : bool) i =>
               if found then OK true else is_bounded_dynamic_dimension s i)
            false (indices (dims st))
  | _ => OK false
  end.

(** ** Mutators *)

(** The array state below a possible buffer, replaced. *)
Definition with_array_state (s : Shape) (st : ArrayState) : Shape :=
  match s with
  | ArrayShape t _ => ArrayShape t st
  | BufferShape (ArrayShape t _) => BufferShape (ArrayShape t st)
  | _ => s
  end.

Definition CheckDimensionSize (size : Z) (is_dynamic : bool) : outcome () :=
  if is_dynamic then (if size <? 0 then check (size =? kUnboundedSize) else OK ())
  else check (0 <=? size).

Definition UnsafeAddDimension (s : Shape) (value : Z) (is_dynamic : bool) : outcome Shape :=
  st ← array_state s;
  _ ← check (bool_decide (length (dims st) = length (dyns st)));
  OK (with_array_state s (mkArrayState (dims st ++ [value]) (dyns st ++ [is_dynamic])
                                       (array_layout st))).

Definition add_dimensions (s : Shape) (value : Z) (is_dynamic : bool) : outcome Shape :=
  _ ← (if value <? 0 then
         _ ← check is_dynamic; check (value =? kUnboundedSize)
       else OK ());
  UnsafeAddDimension s value is_dynamic.

Definition set_dynamic_dimension (s : Shape) (i : Z) (is_dynamic : bool) : outcome Shape :=
  st ← array_state s;
  size ← at_ (dims st) i;
  _ ← CheckDimensionSize size is_dynamic;
  dyns' ← set_at (dyns st) i is_dynamic;
  OK (with_array_state s (mkArrayState (dims st) dyns' (array_layout st))).

Definition set_dimensions (s : Shape) (i size : Z) (is_dynamic : option bool) : outcome Shape :=
  st ← array_state s;
  dynamic ← match is_dynamic with Some b => OK b | None => at_ (dyns st) i end;
  _ ← CheckDimensionSize size dynamic;
  dims' ← set_at (dims st) i size;
  dyns' ← set_at (dyns st) i dynamic;
  OK (with_array_state s (mkArrayState dims' dyns' (array_layout st))).

Definition clear_dimensions (s : Shape) : outcome Shape :=
  st ← array_state s;
  OK (with_array_state s (mkArrayState [] [] (array_layout st))).

(** mutable_layout: an absent layout becomes the default one. *)
Definition mutable_layout (st : ArrayState) (f : Layout -> Layout) : ArrayState :=
  mkArrayState (dims st) (dyns st)
    (Some (f (match array_layout st with Some l => l | None => empty_layout end))).

Definition clear_layout (s : Shape) : outcome Shape :=
  st ← array_state s; OK (with_array_state s (mkArrayState (dims st) (dyns st) None)).

(** clear_dynamic_dimensions; the elements of a tuple are cleared in turn. *)
Fixpoint clear_dynamic_dimensions (s : Shape) : outcome Shape :=
  match s with
  | ArrayShape _ _ | BufferShape _ =>
      st ← array_state s;
      static ← is_static s;
      let st := if negb static
                then mutable_layout st (set_dynamic_shape_metadata_prefix_bytes 0) else st in
      OK (with_array_state s
            (mkArrayState (dims st) (map (fun _ => false) (dyns st)) (array_layout st)))
  | TupleShape l =>
      l ← (fix go (l : list Shape) : outcome (list Shape) := match l with
             | [] => OK []
             | s :: l => s ← clear_dynamic_dimensions s; l ← go l; OK (s :: l)
             end) l;
      OK (TupleShape l)
  | _ => OK s
  end.

(** CheckStateIsEmpty; a value-initialized BufferState holds an invalid shape,
    so the state below it cannot be read. *)
Definition CheckStateIsEmpty (s : Shape) : outcome () :=
  match s with
  | ArrayShape _ _ | BufferShape _ =>
      st ← array_state s;
      _ ← check (bool_decide (dims st = []));
      _ ← check (bool_decide (dyns st = []));
      check (match array_layout st with None => true | Some _ => false end)
  | TupleShape l => check (bool_decide (length l = 0%nat))
  | _ => OK ()
  end.

Definition set_element_type (s : Shape) (value : PrimitiveType) : outcome Shape :=
  match value, s with
  | TOKEN, TokenShape | OPAQUE_TYPE, OpaqueShape | TUPLE, TupleShape _
  | BUFFER, BufferShape _ => OK s
  | TOKEN, _ => _ ← CheckStateIsEmpty s; OK TokenShape
  | OPAQUE_TYPE, _ => _ ← CheckStateIsEmpty s; OK OpaqueShape
  | TUPLE, _ => _ ← CheckStateIsEmpty s; OK (TupleShape [])
  | BUFFER, _ => _ ← CheckStateIsEmpty s; OK (BufferShape InvalidShape)
  | _, _ =>
      if IsArrayType value then
        match s with
        | ArrayShape _ st => OK (ArrayShape value st)
        | _ => _ ← CheckStateIsEmpty s; OK (ArrayShape value (mkArrayState [] [] None))
        end
      else match s with
           | InvalidShape => OK InvalidShape
           | _ => _ ← CheckStateIsEmpty s; OK InvalidShape
           end
  end.

(** Shape::Clear. *)
Definition Clear (s : Shape) : outcome Shape :=
  let s := match s with
           | ArrayShape t _ => ArrayShape t (mkArrayState [] [] None)
           | TupleShape _ => TupleShape []
           | BufferShape _ => BufferShape InvalidShape
           | _ => s
           end in
  set_element_type s PRIMITIVE_TYPE_INVALID.

(** Layout::DeleteDimension: erase the dimension from the order and renumber
    the later ones. *)
Definition Layout_DeleteDimension (l : Layout) (dim_to_delete : Z) : outcome Layout :=
  _ ← check (0 <=? dim_to_delete);
  _ ← check (dim_to_delete <? Zlen (minor_to_major l));
  OK (set_minor_to_major
        (map (fun d => if dim_to_delete <? d then d - 1 else d)
             (filter (fun d => d <> dim_to_delete) (minor_to_major l))) l).

(** std::vector::erase at an index. *)
Definition erase_at {A} (l : list A) (i : Z) : list A :=
  take (Z.to_nat i) l ++ drop (S (Z.to_nat i)) l.

Definition DeleteDimension (s : Shape) (dim_to_delete : Z) : outcome Shape :=
  st ← array_state s;
  _ ← check (0 <=? dim_to_delete);
  _ ← check (dim_to_delete <? Zlen (dims st));
  layout' ← match array_layout st with
            | Some l => l ← Layout_DeleteDimension l dim_to_delete; OK (Some l)
            | None => OK None
            end;
  OK (with_array_state s
        (mkArrayState (erase_at (dims st) dim_to_delete) (erase_at (dyns st) dim_to_delete)
                      layout')).

(** ** Equality (Shape::Equal, Layout::Equal) *)

#[global] Instance SplitConfig_eq_dec : EqDecision SplitConfig.
Proof. solve_decision. Defined.

(** The ignore_* members of Shape::Equal. *)
Record EqualFlags := mkEqual {
  ignore_layout : bool;
  ignore_tiles_in_layout : bool;
  ignore_element_size_in_layout : bool;
  ignore_memory_space_in_layout : bool;
  ignore_element_type : bool;
  ignore_fp_precision : bool;
  ignore_dynamic_dimension : bool;
  ignore_dimensions : bool;
  ignore_tail_padding_alignment_in_elements_in_layout : bool;
  ignore_split_config_in_layout : bool;
  ignore_buffer : bool;
}.

Definition Equal_default : EqualFlags :=
  mkEqual false false false false false false false false false false false.

(** Layout::Equal with the flags Shape::Equal passes on; [shape_eq] compares
    the physical shapes. *)
Definition Layout_Equal (f : EqualFlags) (lhs rhs : Layout) (physical_eq : bool) : bool :=
  bool_decide (minor_to_major lhs = minor_to_major rhs)
  && (ignore_tiles_in_layout f || bool_decide (tiles lhs = tiles rhs))
  && (ignore_tail_padding_alignment_in_elements_in_layout f
      || (tail_padding_alignment_in_elements lhs =? tail_padding_alignment_in_elements rhs))
  && (index_primitive_type lhs =?? index_primitive_type rhs)
  && (pointer_primitive_type lhs =?? pointer_primitive_type rhs)
  && (ignore_element_size_in_layout f || (element_size_in_bits lhs =? element_size_in_bits rhs))
  && (ignore_memory_space_in_layout f || (memory_space lhs =? memory_space rhs))
  && (ignore_split_config_in_layout f || bool_decide (split_configs lhs = split_configs rhs))
  && physical_eq.

Definition SameElementTypeIgnoringFpPrecision' (a b : PrimitiveType) : bool :=
  (IsFloatingPointType a && IsFloatingPointType b) || (a =?? b).

(** The comparison of the dimension sizes; ranks are equal here. *)
Fixpoint dims_equal (ignore_dynamic : bool) (l r : list Z) : bool :=
  match l, r with
  | x :: l, y :: r =>
      ((x =? y) || (ignore_dynamic && ((x =? kUnboundedSize) || (y =? kUnboundedSize))))
      && dims_equal ignore_dynamic l r
  | _, _ => true
  end.

(** The array case of Shape::Equal. *)
Definition array_equal (f : EqualFlags) (lt : PrimitiveType) (l : ArrayState)
    (rt : PrimitiveType) (r : ArrayState) (physical_eq : bool) : bool :=
  (ignore_element_type f
   || (if ignore_fp_precision f then SameElementTypeIgnoringFpPrecision' lt rt else lt =?? rt))
  && bool_decide (length (dims l) = length (dims r))
  && (ignore_dimensions f || dims_equal (ignore_dynamic_dimension f) (dims l) (dims r))
  && (ignore_layout f
      || match array_layout l, array_layout r with
         | None, None => true
         | Some ll, Some rl => Layout_Equal f ll rl physical_eq
         | _, _ => false
         end)
  && (ignore_dynamic_dimension f || bool_decide (dyns l = dyns r)).

Fixpoint Shape_Equal (f : EqualFlags) (lhs : Shape) {struct lhs} : Shape -> bool :=
  fix eq_r (rhs : Shape) : bool :=
    match lhs, rhs with
    | TupleShape ls, TupleShape rs =>
        (fix go (ls rs : list Shape) : bool :=
           match ls, rs with
           | [], [] => true
           | l :: ls, r :: rs => Shape_Equal f l r && go ls rs
           | _, _ => false
           end) ls rs
    | TupleShape _, _ => false
    | BufferShape l, BufferShape r => Shape_Equal f l r
    | BufferShape l, _ => if ignore_buffer f then Shape_Equal f l rhs else false
    | _, BufferShape r => if ignore_buffer f then eq_r r else false
    | ArrayShape lt ls, ArrayShape rt rs =>
        let physical_eq :=
          match array_layout ls, array_layout rs with
          | Some ll, Some rl =>
              match physical_shape ll, physical_shape rl with
              | None, None => true
              | Some lp, Some rp => Shape_Equal Equal_default lp rp
              | _, _ => false
              end
          | _, _ => true
          end in
        array_equal f lt ls rt rs physical_eq
    | ArrayShape _ _, _ => false
    | _, _ => element_type lhs =?? element_type rhs
    end.

(** ** ProgramShape *)

Record ProgramShape := mkProgramShape { parameters : list Shape; result : Shape }.

(** ** Well-formed states

    The class invariant of Shape: an array state goes with an array element
    type, has as many dynamic flags as dimensions, and a buffer holds an
    array. *)
Inductive wf_state : Shape -> Prop :=
  | wf_invalid : wf_state InvalidShape
  | wf_token : wf_state TokenShape
  | wf_opaque : wf_state OpaqueShape
  | wf_array t st :
      IsArrayType t = true -> length (dyns st) = length (dims st) -> wf_state (ArrayShape t st)
  | wf_tuple l : Forall wf_state l -> wf_state (TupleShape l)
  | wf_buffer t st : wf_state (ArrayShape t st) -> wf_state (BufferShape (ArrayShape t st)).
