(* ===== verification/ShapeUtil.v ===== *)
(** * Shape and layout utilities

    The functions of xla/shape_util.{h,cc} and xla/layout_util.cc that shape
    inference rests on: the checked constructors, the validation of a shape and
    of its layout, comparison up to precision, and dimension surgery. *)

From S2P Require Import Prelude MachineInt PermutationUtil Primitive Shape.

(** ** LayoutUtil *)

Definition MakeLayout (m : list Z) : Layout := set_minor_to_major m empty_layout.

(** MakeDescendingLayout, and CreateDefaultLayoutForRank: n-1, ..., 1, 0. *)
Definition MakeDescendingLayout (num_dims : Z) : Layout := MakeLayout (rev (seqZ 0 num_dims)).
Definition MakeAscendingLayout (num_dims : Z) : Layout := MakeLayout (seqZ 0 num_dims).

(** ValidateLayoutForShape's bit vector of the dimensions already seen. *)
Fixpoint CheckMinorToMajor (m : list Z) (dimensions_in_layout : list bool) : outcome () :=
  match m with
  | [] => OK ()
  | dim :: m =>
      match idx dimensions_in_layout dim with
      | None => Err kInvalidArgument
      | Some true => Err kInvalidArgument
      | Some false => CheckMinorToMajor m (<[Z.to_nat dim := true]> dimensions_in_layout)
      end
  end.

Definition ValidateLayoutForShape (layout : Layout) (s : Shape) : outcome () :=
  _ ← ret_if (IsTuple s) kInvalidArgument;
  if negb (IsArray s) then OK () else
  ds ← dimensions s;
  _ ← require (bool_decide (length (minor_to_major layout) = length ds)) kInvalidArgument;
  _ ← CheckMinorToMajor (minor_to_major layout) (replicate (length ds) false);
  _ ← ret_if (tail_padding_alignment_in_elements layout <=? 0) kInvalidArgument;
  _ ← require (index_primitive_type layout =?? PRIMITIVE_TYPE_INVALID) kInvalidArgument;
  _ ← require (pointer_primitive_type layout =?? PRIMITIVE_TYPE_INVALID) kInvalidArgument;
  _ ← ret_if (match physical_shape layout with Some _ => true | None => false end)
             kInvalidArgument;
  _ ← ret_if (existsb (fun tile => bool_decide (tile = []) || existsb (fun d => d =? 0) tile)
                      (tiles layout)) kInvalidArgument;
  ret_if (element_size_in_bits layout <? 0) kInvalidArgument.

Fixpoint ValidateLayoutInShape (s : Shape) (allow_missing_layouts : bool) : outcome () :=
  match s with
  | TupleShape l =>
      (fix go (l : list Shape) : outcome () := match l with
         | [] => OK ()
         | e :: l => _ ← ValidateLayoutInShape e allow_missing_layouts; go l
         end) l
  | ArrayShape _ _ | BufferShape _ =>
      if negb (has_layout s) then
        (if allow_missing_layouts then OK () else Err kInvalidArgument)
      else layout ← shape_layout s; ValidateLayoutForShape layout s
  | _ => OK ()
  end.

Fixpoint HasLayout (s : Shape) : bool :=
  match s with
  | TupleShape l => forallb HasLayout l
  | ArrayShape _ _ | BufferShape _ => has_layout s
  | _ => true
  end.

(** SetToDefaultLayout: resize [minor_to_major] and fill it with the
    descending order; the other members of an existing layout are kept. *)
Fixpoint SetToDefaultLayout (s : Shape) : outcome Shape :=
  match s with
  | TupleShape l =>
      l ← (fix go (l : list Shape) : outcome (list Shape) := match l with
             | [] => OK []
             | e :: l => e ← SetToDefaultLayout e; l ← go l; OK (e :: l)
             end) l;
      OK (TupleShape l)
  | ArrayShape _ _ | BufferShape _ =>
      st ← array_state s;
      OK (with_array_state s
            (mutable_layout st (set_minor_to_major (rev (seqZ 0 (Zlen (dims st)))))))
  | _ => OK s
  end.

(** LayoutUtil::MinorToMajor: the order of a shape that has a layout. *)
Definition MinorToMajor (s : Shape) : outcome (list Z) :=
  l ← shape_layout s; OK (minor_to_major l).

(** ** Element types and ranks *)

Definition ElementIsIntegral (s : Shape) : bool := IsIntegralType (element_type s).
Definition ElementIsSigned (s : Shape) : bool :=
  IsSignedIntegralType (element_type s) || IsFloatingPointType (element_type s).
Definition ElementIsComplex (s : Shape) : bool := IsComplexType (element_type s).
Definition ElementIsFloating (s : Shape) : bool := IsFloatingPointType (element_type s).

Definition SameElementType (lhs rhs : Shape) : bool := element_type lhs =?? element_type rhs.
Definition SameElementTypeIgnoringFpPrecision (a b : Shape) : bool :=
  if ElementIsFloating a && ElementIsFloating b then true else SameElementType a b.
Definition HigherPrecisionElementType `{FloatLimits} (a b : Shape) : outcome PrimitiveType :=
  HigherPrecisionType (element_type a) (element_type b).

Definition IsScalar (s : Shape) : outcome bool :=
  if IsArray s then ds ← dimensions s; OK (bool_decide (length ds = 0%nat)) else OK false.
Definition SameRank (lhs rhs : Shape) : outcome bool :=
  l ← dimensions lhs; r ← dimensions rhs; OK (bool_decide (length l = length r)).

(** SameDimensions: equal ranks, and equal sizes where both are bounded. *)
Definition SameDimensions (lhs rhs : Shape) : outcome bool :=
  same ← SameRank lhs rhs;
  if negb same then OK false else
  l ← dimensions lhs; r ← dimensions rhs;
  OK (forallb (fun '(x, y) => (x =? kUnboundedSize) || (y =? kUnboundedSize) || (x =? y)) (zip l r)).

(** The comparisons of Shape::Equal shape inference uses. *)
Definition Compatible : Shape -> Shape -> bool :=
  Shape_Equal (mkEqual true false false false false false true false false false false).
Definition CompatibleIgnoringElementType : Shape -> Shape -> bool :=
  Shape_Equal (mkEqual true false false false true false true false false false false).
Definition CompatibleIgnoringFpPrecision : Shape -> Shape -> bool :=
  Shape_Equal (mkEqual true false false false false true true false false false false).
(** ShapeUtil::EqualIgnoringElementType. *)
Definition EqualIgnoringElementType : Shape -> Shape -> bool :=
  Shape_Equal (mkEqual false false false false true false false false false false false).

Definition GetDimensionNumber (s : Shape) (dimension_number : Z) : outcome Z :=
  n ← (if dimension_number <? 0 then r ← rank s; OK (dimension_number + r)
       else OK dimension_number);
  _ ← check (0 <=? n);
  OK n.
Definition GetDimension (s : Shape) (dimension_number : Z) : outcome Z :=
  n ← GetDimensionNumber s dimension_number; dimension s n.

Definition TupleElementCount (s : Shape) : outcome Z := l ← tuple_shapes s; OK (Zlen l).
Definition GetTupleElementShape (s : Shape) (index : Z) : outcome Shape :=
  n ← TupleElementCount s;
  _ ← check (index <? n);
  l ← tuple_shapes s;
  at_ l index.

(** ** Element counts

    ExtentProduct<kBoundedDynamicOk>: the product of the dimension sizes and
    whether a step overflowed; with kBoundedDynamicOk the unbounded dimensions
    are skipped. *)
Definition extent_product_step (bounded_dynamic_ok : bool) (acc : Z * bool) (d : Z) : Z * bool :=
  if bounded_dynamic_ok && (d =? kUnboundedSize) then acc
  else let '(product, any_overflows) := acc in
       let '(product, overflow) := OverflowSafeMultiply product d in
       (product, any_overflows || overflow).

Definition ExtentProduct (bounded_dynamic_ok : bool) (s : Shape) : outcome (Z * bool) :=
  ds ← dimensions s; OK (foldl (extent_product_step bounded_dynamic_ok) (1, false) ds).
Definition StaticExtentProduct (s : Shape) : outcome Z :=
  p ← ExtentProduct true s; OK p.1.
Definition ElementsIn (s : Shape) : outcome Z := p ← ExtentProduct false s; OK p.1.

Definition ByteSizeOfPrimitiveType (t : PrimitiveType) : outcome Z := ByteWidth t.

(** ** Validation *)

Definition ValidateShapeSize (s : Shape) : outcome () :=
  if negb (IsArray s) then OK () else
  p ← ExtentProduct true s;
  let '(extent_product, extent_overflow) := p in
  w ← ByteSizeOfPrimitiveType (element_type s);
  let '(_, byte_width_overflow) := OverflowSafeMultiply extent_product w in
  ret_if (extent_overflow || byte_width_overflow) kInvalidArgument.

Definition ValidateDimensions (s : Shape) : outcome () :=
  ds ← dimensions s;
  p ← foldM (fun '(product, any_overflows) dimension =>
               if dimension =? kUnboundedSize then OK (product, any_overflows)
               else _ ← ret_if (dimension <? 0) kInvalidArgument;
                    let '(product, overflow) := OverflowSafeMultiply product dimension in
                    OK (product, any_overflows || overflow))
            (1, false) ds;
  ret_if (p.2) kInvalidArgument.

Fixpoint ValidateNonLayoutProperties (s : Shape) : outcome () :=
  match s with
  | InvalidShape => Err kInvalidArgument
  | TupleShape l =>
      (fix go (l : list Shape) : outcome () := match l with
         | [] => OK ()
         | e :: l => _ ← ValidateNonLayoutProperties e; go l
         end) l
  | BufferShape b => ValidateNonLayoutProperties b
  | TokenShape | OpaqueShape => OK ()
  | ArrayShape t _ =>
      if IsArrayType t then _ ← ValidateDimensions s; ValidateShapeSize s
      else Err kInvalidArgument
  end.

Definition ValidateShapeWithOptionalLayout (s : Shape) : outcome () :=
  _ ← ValidateNonLayoutProperties s; ValidateLayoutInShape s true.
Definition ValidateShape (s : Shape) : outcome () :=
  _ ← ValidateNonLayoutProperties s; ValidateLayoutInShape s false.

(** ** Construction *)

Definition MakeDynamicDimensions (dimensions : list Z) : list bool :=
  map (fun d => d =? kUnboundedSize) dimensions.

(** The state of MakeValidatedShape's loop: the running product, the sticky
    overflow flag and the dimensions added so far. *)
Definition MakeValidatedShape_dyn (t : PrimitiveType) (dimensions : list Z)
    (dynamic_dimensions : list bool) : outcome Shape :=
  _ ← require (bool_decide (length dynamic_dimensions = length dimensions)) kInvalidArgument;
  dense_shape_size ← (if IsArrayType t then ByteWidth t else OK (-1));
  shape ← set_element_type InvalidShape t;
  st ← array_state shape;   (* mutable_layout() *)
  let shape := with_array_state shape (mutable_layout st id) in
  p ← foldM (fun '(shape, static_extent_product, any_overflows) '(d, is_dynamic) =>
               _ ← require (IsValidDimensionSize d is_dynamic) kInvalidArgument;
               let '(static_extent_product, overflow) :=
                 if d =? kUnboundedSize then (static_extent_product, false)
                 else OverflowSafeMultiply static_extent_product d in
               shape ← add_dimensions shape d is_dynamic;
               OK (shape, static_extent_product, any_overflows || overflow))
            (shape, dense_shape_size, false) (zip dimensions dynamic_dimensions);
  let '(shape, _, any_overflows) := p in
  st ← array_state shape;
  let shape := with_array_state shape
    (mutable_layout st (set_minor_to_major (rev (seqZ 0 (Zlen dimensions))))) in
  _ ← ret_if any_overflows kInvalidArgument;
  OK shape.

Definition MakeValidatedShape (t : PrimitiveType) (dimensions : list Z) : outcome Shape :=
  MakeValidatedShape_dyn t dimensions (MakeDynamicDimensions dimensions).

(** The constructors that abort on an error. *)
Definition MakeShape_dyn (t : PrimitiveType) (dimensions : list Z) (dynamic : list bool) :
    outcome Shape :=
  value_or_die (MakeValidatedShape_dyn t dimensions dynamic).
Definition MakeShape (t : PrimitiveType) (dimensions : list Z) : outcome Shape :=
  value_or_die (MakeValidatedShape t dimensions).

Definition MakeValidatedTupleShape (shapes : list Shape) : outcome Shape :=
  let result := TupleShape shapes in
  _ ← ValidateShapeWithOptionalLayout result;
  OK result.
Definition MakeTupleShape (shapes : list Shape) : outcome Shape :=
  value_or_die (MakeValidatedTupleShape shapes).

Definition IsSubByteNonPredType (t : PrimitiveType) : bool :=
  IsArrayType t && negb (t =?? PRED) && (PrimitiveTypeBitWidth t <? 8).

Fixpoint ChangeElementType (original : Shape) (t : PrimitiveType) : outcome Shape :=
  match original with
  | TupleShape l =>
      l ← (fix go (l : list Shape) : outcome (list Shape) := match l with
             | [] => OK []
             | e :: l => e ← ChangeElementType e t; l ← go l; OK (e :: l)
             end) l;
      MakeTupleShape l
  | _ =>
      new_shape ← set_element_type original t;
      if has_layout new_shape && negb (IsSubByteNonPredType t) then
        st ← array_state new_shape;
        OK (with_array_state new_shape (mutable_layout st (set_element_size_in_bits 0)))
      else OK new_shape
  end.

Definition ComplexComponentShape (s : Shape) : outcome Shape :=
  _ ← check (ElementIsComplex s);
  t ← ComplexComponentType (element_type s);
  ChangeElementType s t.

(** ** Dimension surgery *)

Definition AppendMajorDimension (bound : Z) (s : Shape) : outcome Shape :=
  _ ← check (IsArray s);
  st ← array_state s;
  let s := if has_layout s
           then with_array_state s (mutable_layout st (fun l =>
                  set_minor_to_major (minor_to_major l ++ [Zlen (dims st)]) l))
           else s in
  add_dimensions s bound false.

(** AppendMinorDimension: the loop moves every entry of the order one position
    up and the new dimension takes position 0. *)
Definition AppendMinorDimension (bound : Z) (s : Shape) : outcome Shape :=
  _ ← check (IsArray s);
  s ← add_dimensions s bound false;
  if has_layout s then
    st ← array_state s;
    OK (with_array_state s (mutable_layout st (fun l =>
          set_minor_to_major ((Zlen (dims st) - 1) :: minor_to_major l) l)))
  else OK s.

Definition TransposeIsBitcast (input_shape output_shape : Shape)
    (dimension_mapping : list Z) (ignore_elt_type : bool) : outcome bool :=
  _ ← check (IsArray input_shape);
  _ ← check (IsArray output_shape);
  _ ← check (has_layout input_shape);
  _ ← check (has_layout output_shape);
  if negb ignore_elt_type && negb (SameElementType input_shape output_shape) then OK false
  else
    m_out ← MinorToMajor output_shape;
    m_in ← MinorToMajor input_shape;
    c ← ComposePermutations dimension_mapping m_out;
    OK (bool_decide (c = m_in)).

Definition PermuteDimensions (permutation : list Z) (s : Shape) : outcome Shape :=
  new_shape ← clear_dimensions s;
  ds ← dimensions s;
  permuted_dims ← Permute ds permutation;
  dy ← dynamic_dimensions s;
  permuted_dynamic_dims ← Permute dy permutation;
  new_shape ← foldM (fun s '(d, b) => add_dimensions s d b) new_shape
                    (zip permuted_dims permuted_dynamic_dims);
  if has_layout s then
    _ ← check (IsArray s);
    m ← MinorToMajor s;
    inv ← InversePermutation permutation;
    m' ← ComposePermutations inv m;
    st ← array_state new_shape;
    let new_shape := with_array_state new_shape (mutable_layout st (set_minor_to_major m')) in
    bitcast ← TransposeIsBitcast s new_shape permutation false;
    _ ← check bitcast;
    OK new_shape
  else OK new_shape.

(** * Lemmas *)

#[local] Opaque OverflowSafeMultiply.

(** The array shape the validated constructors return. *)
Definition array_shape (t : PrimitiveType) (ds : list Z) (dy : list bool) : Shape :=
  ArrayShape t (mkArrayState ds dy (Some (MakeDescendingLayout (Zlen ds)))).

(** The product of the bounded dimensions. *)
Definition bounded (d : Z) : bool := negb (d =? kUnboundedSize).
Fixpoint bounded_product (ds : list Z) : Z :=
  match ds with
  | [] => 1
  | d :: ds => if bounded d then d * bounded_product ds else bounded_product ds
  end.

Abbreviation extents := (foldl (extent_product_step true)).

Lemma step_eq p b d :
  extent_product_step true (p, b) d
  = if d =? kUnboundedSize then (p, b)
    else ((OverflowSafeMultiply p d).1, b || (OverflowSafeMultiply p d).2).
Proof.
  unfold extent_product_step. simpl. destruct (d =? kUnboundedSize); [done|].
  by destruct (OverflowSafeMultiply p d).
Qed.

Lemma extents_sticky ds p : (extents (p, true) ds).2 = true.
Proof.
  revert p; induction ds as [|d ds IH]; intros p; simpl; [done|].
  rewrite step_eq. destruct (d =? kUnboundedSize); apply IH.
Qed.

Lemma extents_ok ds p :
  0 <= p < two63 -> (extents (p, false) ds).2 = false ->
  (extents (p, false) ds).1 = p * bounded_product ds
  /\ Forall (fun d => d = kUnboundedSize \/ 0 <= d) ds
  /\ 0 <= p * bounded_product ds < two63.
Proof.
  revert p; induction ds as [|d ds IH]; intros p Hp; simpl.
  { rewrite Z.mul_1_r. intros _. auto. }
  rewrite step_eq. unfold bounded. destruct (Z.eqb_spec d kUnboundedSize) as [->|n]; simpl.
  { intros H. destruct (IH p Hp H) as (? & ? & ?). auto. }
  destruct (OverflowSafeMultiply p d) as [q o] eqn:E.
  simpl. destruct o. { by rewrite extents_sticky. }
  apply OverflowSafeMultiply_ok in E as (Hp0 & Hd0 & -> & Hlt). intros Hx.
  destruct (IH (p * d)) as (H1 & H2 & H3); [nia|done|].
  rewrite Z.mul_assoc. auto.
Qed.

(** Fewer bytes per element never overflow where more do not. *)
Lemma extents_scale ds w p :
  1 <= w -> 0 <= p -> w * p < two63 -> (extents (w * p, false) ds).2 = false ->
  (extents (p, false) ds).2 = false.
Proof.
  revert p; induction ds as [|d ds IH]; intros p Hw Hp Hb; simpl; [done|].
  rewrite !step_eq. destruct (d =? kUnboundedSize); simpl; [auto|].
  destruct (OverflowSafeMultiply (w * p) d) as [q o] eqn:E.
  simpl. destruct o. { by rewrite extents_sticky. }
  apply OverflowSafeMultiply_ok in E as (? & ? & -> & ?).
  rewrite OverflowSafeMultiply_fits by nia. simpl. rewrite <- Z.mul_assoc.
  apply IH; nia.
Qed.

Lemma add_dimensions_valid t st d dy :
  length (dims st) = length (dyns st) -> IsValidDimensionSize d dy = true ->
  add_dimensions (ArrayShape t st) d dy
  = OK (ArrayShape t (mkArrayState (dims st ++ [d]) (dyns st ++ [dy]) (array_layout st))).
Proof.
  intros Hl Ev. unfold add_dimensions, UnsafeAddDimension. simpl. rewrite (bool_decide_eq_true_2 _ Hl).
  unfold IsValidDimensionSize in Ev.
  destruct (Z.ltb_spec d 0); [|done].
  rewrite (proj2 (Z.leb_gt 0 d)) in Ev by done. simpl in Ev.
  by apply andb_true_iff in Ev as [-> ->].
Qed.

Lemma add_dimensions_loop t st l :
  length (dims st) = length (dyns st) ->
  forallb (fun '(d, dy) => IsValidDimensionSize d dy) l = true ->
  foldM (fun s '(d, b) => add_dimensions s d b) (ArrayShape t st) l
  = OK (ArrayShape t (mkArrayState (dims st ++ map fst l) (dyns st ++ map snd l)
                                   (array_layout st))).
Proof.
  revert st; induction l as [|[d dy] l IH]; intros st Hl; simpl.
  { rewrite !app_nil_r. by destruct st. }
  intros [Hv Hr]%andb_true_iff. rewrite add_dimensions_valid by done. simpl.
  rewrite IH by (simpl; rewrite ?length_app, ?Hl; done). simpl. by rewrite <- !app_assoc.
Qed.

Lemma MakeValidatedShape_loop t st l p b :
  length (dims st) = length (dyns st) ->
  foldM (fun '(shape, static_extent_product, any_overflows) '(d, is_dynamic) =>
           _ ← require (IsValidDimensionSize d is_dynamic) kInvalidArgument;
           let '(static_extent_product, overflow) :=
             if d =? kUnboundedSize then (static_extent_product, false)
             else OverflowSafeMultiply static_extent_product d in
           shape ← add_dimensions shape d is_dynamic;
           OK (shape, static_extent_product, any_overflows || overflow))
        (ArrayShape t st, p, b) l
  = if forallb (fun '(d, dy) => IsValidDimensionSize d dy) l then
      OK (ArrayShape t (mkArrayState (dims st ++ map fst l) (dyns st ++ map snd l)
                                     (array_layout st)),
          (extents (p, b) (map fst l)).1, (extents (p, b) (map fst l)).2)
    else Err kInvalidArgument.
Proof.
  revert st p b; induction l as [|[d dy] l IH]; intros st p b Hl; simpl.
  { rewrite !app_nil_r. by destruct st. }
  destruct (IsValidDimensionSize d dy) eqn:Ev; simpl; [|done].
  assert (Hq : (extent_product_step true (p, b) d)
    = ((if d =? kUnboundedSize then (p, false) else OverflowSafeMultiply p d).1,
       b || (if d =? kUnboundedSize then (p, false) else OverflowSafeMultiply p d).2)).
  { rewrite step_eq. destruct (d =? kUnboundedSize); simpl; by rewrite ?orb_false_r. }
  rewrite Hq. destruct (if d =? kUnboundedSize then (p, false) else _) as [q o]; simpl.
  rewrite add_dimensions_valid by done. simpl. rewrite IH by (simpl; by rewrite !length_app, Hl).
  simpl. by rewrite <- !app_assoc.
Qed.

Definition shape_args_ok (t : PrimitiveType) (ds : list Z) (dy : list bool) : Prop :=
  IsArrayType t = true /\ length dy = length ds
  /\ forallb (fun '(d, b) => IsValidDimensionSize d b) (zip ds dy) = true
  /\ (extents (CeilOfRatio (PrimitiveTypeBitWidth t) 8, false) ds).2 = false.

Lemma CheckMinorToMajor_perm m n :
  length m = n -> IsPermutation_loop m (replicate n false) = true ->
  CheckMinorToMajor m (replicate n false) = OK ().
Proof.
  intros _. generalize (replicate n false) as seen. induction m as [|x m IH]; intros seen; simpl; [done|].
  destruct (idx seen x) as [[]|]; try done. apply IH.
Qed.

Lemma is_perm_descending {A} (l : list A) : is_perm (rev (seqZ 0 (Zlen l))).
Proof.
  unfold is_perm, indices.
  assert (Zlen (rev (seqZ 0 (Zlen l))) = Zlen l) as ->
    by (unfold Zlen at 1; rewrite length_rev, length_seqZ; unfold Zlen; lia).
  symmetry. apply Permutation_rev.
Qed.

Lemma MakeValidatedShape_dyn_OK t ds dy s :
  MakeValidatedShape_dyn t ds dy = OK s <-> shape_args_ok t ds dy /\ s = array_shape t ds dy.
Proof.
  unfold MakeValidatedShape_dyn, shape_args_ok.
  destruct (bool_decide (length dy = length ds)) eqn:El; simpl;
    [apply bool_decide_eq_true in El|apply bool_decide_eq_false in El;
      split; [done|]; intros [(_ & ? & _) _]; done].
  destruct (IsArrayType t) eqn:Et.
  - unfold ByteWidth, WidthForType. rewrite Et. simpl.
    assert (set_element_type InvalidShape t = OK (ArrayShape t (mkArrayState [] [] None))) as ->
      by (destruct t; try discriminate; done).
    simpl. rewrite MakeValidatedShape_loop by done. simpl.
    destruct (forallb _ _) eqn:Ef; simpl; [|split; [done|]; by intros [(_ & _ & [=] & _) _]].
    assert (Hm1 : map fst (zip ds dy) = ds) by (apply fst_zip; lia).
    assert (Hm2 : map snd (zip ds dy) = dy) by (apply snd_zip; lia).
    rewrite Hm1, Hm2.
    destruct (extents _ ds) as [q []]; simpl; split; try done.
    + by intros [(_ & _ & _ & [=]) _].
    + intros [= <-]. split; [done|]. done.
    + by intros [_ ->].
  - simpl. split; [|by intros [([=] & _) _]].
    intros H. exfalso. destruct t; try discriminate; simpl in H; done.
Qed.

(** The exact condition under which the running product stays in range: every
    prefix of the dimensions fits. *)
Lemma extents_iff ds p :
  0 <= p < two63 ->
  ((extents (p, false) ds).2 = false
   <-> Forall (fun d => d = kUnboundedSize \/ 0 <= d) ds
       /\ forall k, p * bounded_product (take k ds) < two63).
Proof.
  revert p; induction ds as [|d ds IH]; intros p Hp; simpl.
  { split; [|done]. intros _. split; [constructor|]. intros k. rewrite take_nil. simpl. lia. }
  rewrite step_eq, Forall_cons. destruct (Z.eqb_spec d kUnboundedSize) as [->|n].
  - rewrite IH by done. split.
    + intros [Hf Hk]. split; [by auto|]. intros [|k]; simpl; [lia|]. apply Hk.
    + intros [[_ Hf] Hk]. split; [done|]. intros k. apply (Hk (S k)).
  - destruct (OverflowSafeMultiply p d) as [q o] eqn:E. simpl.
    assert (Hd : forall k, bounded_product (take (S k) (d :: ds)) = d * bounded_product (take k ds)).
    { intros k. simpl. unfold bounded. by destruct (Z.eqb_spec d kUnboundedSize). }
    destruct o.
    + rewrite extents_sticky. split; [done|]. intros [[[?|H0] _] Hk]; [done|].
      specialize (Hk 1%nat). rewrite Hd in Hk. simpl in Hk.
      rewrite OverflowSafeMultiply_fits in E by lia. done.
    + apply OverflowSafeMultiply_ok in E as (_ & H0 & -> & Hlt). rewrite IH by nia. split.
      * intros [Hf Hk]. split; [auto|]. intros [|k]; [simpl; lia|].
        rewrite Hd, Z.mul_assoc. apply Hk.
      * intros [[_ Hf] Hk]. split; [done|]. intros k. specialize (Hk (S k)).
        by rewrite Hd, Z.mul_assoc in Hk.
Qed.

Lemma byte_width_bounds t : IsArrayType t = true -> 1 <= CeilOfRatio (PrimitiveTypeBitWidth t) 8 <= 16.
Proof. destruct t; try discriminate; intros _; vm_compute; split; discriminate. Qed.

Lemma valid_dims_iff ds dy :
  length dy = length ds ->
  forallb (fun '(d, b) => IsValidDimensionSize d b) (zip ds dy) = true
  <-> Forall2 (fun d b => 0 <= d \/ (b = true /\ d = kUnboundedSize)) ds dy.
Proof.
  revert dy; induction ds as [|d ds IH]; intros [|b dy] Hl; simpl in *; try done.
  rewrite andb_true_iff, IH by lia. unfold IsValidDimensionSize.
  rewrite orb_true_iff, andb_true_iff, Z.leb_le, Z.eqb_eq. split.
  - intros [? ?]. by constructor.
  - by inversion 1.
Qed.

Lemma ValidateLayout_descending t ds dy :
  IsArrayType t = true ->
  ValidateLayoutForShape (MakeDescendingLayout (Zlen ds))
    (ArrayShape t (mkArrayState ds dy (Some (MakeDescendingLayout (Zlen ds))))) = OK ().
Proof.
  intros Ht. unfold ValidateLayoutForShape, IsTuple, IsArray, IsArrayExcludingBuffer. simpl.
  rewrite Ht. simpl.
  assert (Hne : (t =?? TUPLE) = false) by (by destruct t).
  rewrite Hne. simpl.
  assert (Hlen : length (rev (seqZ 0 (Zlen ds))) = length ds)
    by (rewrite length_rev, length_seqZ; unfold Zlen; lia).
  rewrite bool_decide_eq_true_2 by done. simpl.
  rewrite CheckMinorToMajor_perm; [done|done|].
  rewrite <- Hlen. apply IsPermutation_bounds, is_perm_bounds, is_perm_descending.
Qed.

(** ValidateDimensions folds the same product as ExtentProduct. *)
Lemma ValidateDimensions_loop ds p b :
  Forall (fun d => d = kUnboundedSize \/ 0 <= d) ds ->
  foldM (fun '(product, any_overflows) dimension =>
               if dimension =? kUnboundedSize then OK (product, any_overflows)
               else _ ← ret_if (dimension <? 0) kInvalidArgument;
                    let '(product, overflow) := OverflowSafeMultiply product dimension in
                    OK (product, any_overflows || overflow)) (p, b) ds
  = OK (extents (p, b) ds).
Proof.
  intros Hf; revert p b; induction Hf as [|d ds Hd Hf IH]; intros p b; simpl; [done|].
  rewrite step_eq. destruct (Z.eqb_spec d kUnboundedSize); simpl; [apply IH|].
  rewrite (proj2 (Z.ltb_ge d 0)) by lia. simpl.
  destruct (OverflowSafeMultiply p d). apply IH.
Qed.

Lemma ValidateNonLayout_array t st :
  IsArrayType t = true ->
  (extents (CeilOfRatio (PrimitiveTypeBitWidth t) 8, false) (dims st)).2 = false ->
  Forall (fun d => d = kUnboundedSize \/ 0 <= d) (dims st) ->
  ValidateNonLayoutProperties (ArrayShape t st) = OK ().
Proof.
  intros Ht He Hf. simpl. rewrite Ht.
  pose proof (byte_width_bounds t Ht) as Hw. set (w := CeilOfRatio _ 8) in *.
  assert (H1 : (extents (1, false) (dims st)).2 = false).
  { apply (extents_scale _ w); rewrite ?Z.mul_1_r; unfold two63; try lia. done. }
  unfold ValidateDimensions. simpl. rewrite ValidateDimensions_loop by done. simpl.
  rewrite H1. simpl. unfold ValidateShapeSize, IsArray, IsArrayExcludingBuffer. simpl.
  rewrite Ht. simpl. unfold ExtentProduct. simpl.
  assert (Hw63 : 0 <= w < two63) by (unfold two63; lia).
  apply (extents_ok _ _ Hw63) in He as (_ & _ & Hb).
  destruct (extents (1, false) (dims st)) as [q o] eqn:Eq. simpl in H1. subst o. simpl.
  destruct (extents_ok (dims st) 1) as (Hq & _ & _); [unfold two63; lia|by rewrite Eq|].
  rewrite Eq, Z.mul_1_l in Hq. simpl in Hq. subst q.
  unfold ByteSizeOfPrimitiveType, ByteWidth, WidthForType. rewrite Ht. simpl. fold w.
  rewrite OverflowSafeMultiply_fits by nia. done.
Qed.

(** C37: MakeValidatedShape accepts exactly the element types of arrays with
    dimension sizes that are non-negative (or unbounded and flagged dynamic) and
    whose bounded prefixes, in bytes, all fit in an int64; the shape it returns
    has these dimensions, flags and the descending layout. *)
Theorem MakeValidatedShape_accepts (t : PrimitiveType) (ds : list Z) (dy : list bool) (s : Shape) :
  MakeValidatedShape_dyn t ds dy = OK s <->
  IsArrayType t = true
  /\ Forall2 (fun d b => 0 <= d \/ (b = true /\ d = kUnboundedSize)) ds dy
  /\ (forall k, CeilOfRatio (PrimitiveTypeBitWidth t) 8 * bounded_product (take k ds) < two63)
  /\ s = array_shape t ds dy.
Proof.
  rewrite MakeValidatedShape_dyn_OK. unfold shape_args_ok. split.
  - intros ((Ht & Hl & Hv & He) & ->). split; [done|].
    apply valid_dims_iff in Hv; [|done]. split; [done|]. split; [|done].
    apply extents_iff in He as [_ ?]; [done|].
    pose proof (byte_width_bounds t Ht). unfold two63. lia.
  - intros (Ht & Hv & Hk & ->). split; [|done]. pose proof (Forall2_length _ _ _ Hv) as Hl.
    split; [done|]. split; [done|]. split; [by apply valid_dims_iff|].
    apply extents_iff; [pose proof (byte_width_bounds t Ht); unfold two63; lia|].
    split; [|done]. apply Forall_forall. intros d Hd.
    apply list_elem_of_lookup in Hd as [i Hi].
    destruct (Forall2_lookup_l _ _ _ _ _ Hv Hi) as (b & _ & [?|[_ ?]]); auto.
Qed.

Lemma MakeValidatedShape_dyn_valid t ds dy s : MakeValidatedShape_dyn t ds dy = OK s -> ValidateShape s = OK () /\ wf_state s.
Proof.
  intros ((Ht & Hl & Hv & He) & ->)%MakeValidatedShape_dyn_OK. split; [|by constructor].
  unfold ValidateShape, array_shape.
  rewrite ValidateNonLayout_array; [|done|done|].
  - apply ValidateLayout_descending. done.
  - apply extents_iff in He as [? _]; [done|].
    pose proof (byte_width_bounds t Ht). unfold two63. lia.
Qed.

(** The shapes that the validated constructors build. *)
Inductive built : Shape -> Prop :=
| built_dyn t ds dy s : MakeValidatedShape_dyn t ds dy = OK s -> built s
| built_array t ds s : MakeValidatedShape t ds = OK s -> built s
| built_tuple l s : Forall built l -> MakeValidatedTupleShape l = OK s -> built s.

Lemma ValidateShape_OK s : ValidateShape s = OK () <-> ValidateNonLayoutProperties s = OK () /\ ValidateLayoutInShape s false = OK ().
Proof.
  unfold ValidateShape. destruct (ValidateNonLayoutProperties s) as [[]| | |]; cbn [mbind outcome_bind]; (split; [try done; by intros|]); by intros [].
Qed.

Lemma layout_in_tuple l b : Forall (fun s => ValidateLayoutInShape s b = OK ()) l -> ValidateLayoutInShape (TupleShape l) b = OK ().
Proof. induction 1 as [|s l Hs _ IH]; [done|]. cbn in IH |- *. rewrite Hs. exact IH. Qed.

Lemma non_layout_tuple l : Forall (fun s => ValidateNonLayoutProperties s = OK ()) l -> ValidateNonLayoutProperties (TupleShape l) = OK ().
Proof. induction 1 as [|s l Hs _ IH]; [done|]. cbn in IH |- *. rewrite Hs. exact IH. Qed.

(** A shape with valid layouts is valid where layouts may be missing. *)
Lemma layout_optional : forall s, ValidateLayoutInShape s false = OK () -> ValidateLayoutInShape s true = OK ().
Proof.
  fix layout_optional 1. intros s. destruct s as [| | |t st|l|s]; try done.
  - cbn. by destruct (negb _).
  - induction l as [|s l IHl]; [done|]. cbn in IHl |- *. pose proof (layout_optional s) as Hs.
    destruct (ValidateLayoutInShape s false) as [[]| | |]; try done. rewrite Hs by done. exact IHl.
  - cbn. by destruct (negb _).
Qed.

Lemma MakeValidatedTupleShape_valid l : Forall (fun s => ValidateShape s = OK () /\ wf_state s) l ->
  MakeValidatedTupleShape l = OK (TupleShape l) /\ ValidateShape (TupleShape l) = OK () /\ wf_state (TupleShape l).
Proof.
  intros HF. assert (HN : ValidateNonLayoutProperties (TupleShape l) = OK ()).
  { apply non_layout_tuple. eapply Forall_impl; [exact HF|]. simpl. by intros s [[? _]%ValidateShape_OK _]. }
  assert (HL : ValidateLayoutInShape (TupleShape l) false = OK ()).
  { apply layout_in_tuple. eapply Forall_impl; [exact HF|]. simpl. by intros s [[_ ?]%ValidateShape_OK _]. }
  split; [|split; [by apply ValidateShape_OK|]].
  - unfold MakeValidatedTupleShape, ValidateShapeWithOptionalLayout. rewrite HN. cbn [mbind outcome_bind].
    by rewrite (layout_optional _ HL).
  - constructor. eapply Forall_impl; [exact HF|]. by intros s [_ ?].
Qed.

(** The induction over a built shape goes through the elements of its tuples. *)
Lemma built_valid : forall s, built s -> ValidateShape s = OK () /\ wf_state s.
Proof.
  fix built_valid 2. intros s H. destruct H as [t ds dy s H|t ds s H|l s HF H].
  - by apply (MakeValidatedShape_dyn_valid t ds dy).
  - by apply (MakeValidatedShape_dyn_valid t ds (MakeDynamicDimensions ds)).
  - assert (HV : Forall (fun s => ValidateShape s = OK () /\ wf_state s) l).
    { clear H. induction HF as [|s' l' Hs' HF' IH]; constructor; [exact (built_valid s' Hs')|exact IH]. }
    destruct (MakeValidatedTupleShape_valid l HV) as [E HT]. rewrite E in H. injection H as <-. exact HT.
Qed.

(** C38: the shapes that MakeValidatedShape (with and without dynamic flags) and, from such
    shapes, MakeValidatedTupleShape return pass ValidateShape and satisfy the class
    invariant, and MakeValidatedTupleShape refuses none of them as elements. *)
Theorem MakeValidatedShape_valid (l : list Shape) (Hl : Forall built l) :
  Forall (fun s => ValidateShape s = OK () /\ wf_state s) l /\
  MakeValidatedTupleShape l = OK (TupleShape l) /\ ValidateShape (TupleShape l) = OK () /\ wf_state (TupleShape l).
Proof.
  assert (HV : Forall (fun s => ValidateShape s = OK () /\ wf_state s) l) by (eapply Forall_impl; [exact Hl|exact built_valid]).
  split; [exact HV|]. by apply MakeValidatedTupleShape_valid.
Qed.

Lemma MakeValidatedShape_valid_witness :
  exists s, MakeValidatedShape_dyn F32 [4; kUnboundedSize; 3] [false; true; true] = OK s
    /\ ValidateShape (TupleShape [s; TupleShape []]) = OK ().
Proof.
  eexists. split; [vm_compute; reflexivity|]. apply MakeValidatedShape_valid. repeat constructor.
  - eapply (built_dyn F32 [4; kUnboundedSize; 3] [false; true; true]). vm_compute; reflexivity.
  - by apply (built_tuple []).
Defined.

(** MakeValidatedTupleShape only checks that layouts are valid where there are any: an
    array without a layout is an element that it accepts and ValidateShape does not. *)
Example MakeValidatedTupleShape_no_layout :
  let s := TupleShape [ArrayShape F32 (mkArrayState [2] [false] None)] in
  MakeValidatedTupleShape [ArrayShape F32 (mkArrayState [2] [false] None)] = OK s /\ ValidateShape s = Err kInvalidArgument.
Proof. split; vm_compute; reflexivity. Qed.

(** ** Permuting the dimensions *)

Lemma CheckMinorToMajor_iff m seen :
  CheckMinorToMajor m seen = OK () <-> IsPermutation_loop m seen = true.
Proof.
  revert seen; induction m as [|x m IH]; intros seen; simpl; [done|].
  destruct (idx seen x) as [[]|]; try done.
Qed.

(** The part of ValidateLayoutForShape that depends on the dimensions. *)
Lemma ValidateLayoutForShape_order l t ds dy lo ds' dy' lo' m :
  ValidateLayoutForShape l (ArrayShape t (mkArrayState ds dy lo)) = OK () ->
  IsArrayType t = true ->
  is_perm (minor_to_major l) /\ length (minor_to_major l) = length ds
  /\ (is_perm m -> length m = length ds' ->
      ValidateLayoutForShape (set_minor_to_major m l)
        (ArrayShape t (mkArrayState ds' dy' lo')) = OK ()).
Proof.
  intros Hv Ht. unfold ValidateLayoutForShape, IsTuple, IsArray, IsArrayExcludingBuffer in *.
  simpl in *. rewrite Ht in *. simpl in *. outcome_simp.
  apply bool_decide_eq_true in E0 as Hl. apply CheckMinorToMajor_iff in E1.
  rewrite <- Hl in E1. split; [apply is_perm_bounds, IsPermutation_bounds, E1|].
  split; [done|]. intros Hm Hlm.
  rewrite E, (bool_decide_eq_true_2 _ Hlm). simpl.
  rewrite (proj2 (CheckMinorToMajor_iff m _)).
  - simpl. rewrite E2, E3, E4, E5, E6. simpl. by rewrite Hv.
  - rewrite <- Hlm. apply IsPermutation_bounds, is_perm_bounds, Hm.
Qed.

Lemma IsPermutation_perm p : IsPermutation p = true <-> is_perm p.
Proof. by rewrite IsPermutation_bounds, is_perm_bounds. Qed.

Lemma forallb_lookup {A} (f : A -> bool) l :
  forallb f l = true <-> forall i x, l !! i = Some x -> f x = true.
Proof.
  rewrite forallb_forall. split.
  - intros Hf i x Hi. apply Hf. apply list_elem_of_In. by eapply list_elem_of_lookup_2.
  - intros Hf x Hx%list_elem_of_In%list_elem_of_lookup. destruct Hx as [i Hi]. eauto.
Qed.

(** The permuted dimension sizes stay valid. *)
Lemma permuted_dims_valid ds dy ds' dy' p :
  is_perm p -> length p = length ds -> length dy = length ds ->
  Permute ds p = OK ds' -> Permute dy p = OK dy' ->
  forallb (fun '(d, b) => IsValidDimensionSize d b) (zip ds dy) = true ->
  forallb (fun '(d, b) => IsValidDimensionSize d b) (zip ds' dy') = true.
Proof.
  intros Hp Hl Hld Hds Hdy Hv. apply Permute_spec in Hds as [Hl1 Hk1]; [|done|done].
  apply Permute_spec in Hdy as [Hl2 Hk2]; [|done|congruence].
  apply forallb_lookup. intros i [d b] (d' & b' & Hdb & Hd & Hb)%lookup_zip_with_Some.
  injection Hdb as <- <-.
  destruct (lookup_lt_is_Some_2 p i) as [j Hj].
  { rewrite <- Hl1. by eapply lookup_lt_Some. }
  rewrite (Hk1 _ _ Hj) in Hd. rewrite (Hk2 _ _ Hj) in Hb.
  apply idx_Some in Hd as [_ Hd]. apply idx_Some in Hb as [_ Hb].
  apply (proj1 (forallb_lookup _ _) Hv (Z.to_nat j) (d, b)).
  apply lookup_zip_with_Some. eauto 6.
Qed.

(** The new order of a permuted shape: position k holds the output dimension
    that reads the input dimension at position k. *)
Lemma permuted_order p m :
  is_perm p -> is_perm m -> length m = length p ->
  exists inv m', InversePermutation p = OK inv /\ ComposePermutations inv m = OK m'
    /\ is_perm m' /\ length m' = length p
    /\ ComposePermutations p m' = OK m.
Proof.
  intros Hp Hm Hl.
  destruct (InversePermutation_spec p Hp) as (inv & Hi & Hpi & Hli & Hf & Hb).
  assert (Hex : exists m', ComposePermutations inv m = OK m').
  { unfold ComposePermutations. rewrite bool_decide_eq_true_2 by congruence. simpl.
    assert (Hall : Forall (fun i => 0 <= i < Zlen inv) m).
    { apply Forall_forall. intros i Hin. pose proof (is_perm_range _ _ Hm Hin).
      unfold Zlen in *. lia. }
    clear -Hall. induction Hall as [|i m Hin _ (m' & IH)]; simpl; [by exists []|].
    destruct (at_in_range inv i Hin) as [x ->]. simpl. rewrite IH. by eexists. }
  destruct Hex as [m' Hm']. exists inv, m'. split; [done|]. split; [done|].
  apply ComposePermutations_spec in Hm' as [Hlm Hk]; [|congruence].
  assert (Hpm : forall k b, m' !! k = Some b -> exists a, m !! k = Some a /\ idx p b = Some a).
  { intros k b Hkb. destruct (lookup_lt_is_Some_2 m k) as [a Ha].
    { rewrite <- Hlm. by eapply lookup_lt_Some. }
    exists a. split; [done|]. destruct (Hk _ _ Ha) as (b' & Hb' & Hia). simplify_eq.
    apply idx_Some in Hia as [Ha0 Hia]. pose proof (Hb _ _ Hia) as Hpb.
    by rewrite Z2Nat.id in Hpb by done. }
  split; [|split; [congruence|]].
  - apply is_perm_of_surj. intros i Hir. unfold Zlen in Hir.
    destruct (lookup_lt_is_Some_2 p (Z.to_nat i)) as [a Ha]; [lia|].
    assert (Hin : a ∈ m).
    { apply is_perm_surj; [done|]. pose proof (is_perm_range _ _ Hp (list_elem_of_lookup_2 _ _ _ Ha)).
      unfold Zlen in *. lia. }
    apply list_elem_of_lookup in Hin as [k Hka]. destruct (Hk _ _ Hka) as (b & Hkb & Hia).
    pose proof (Hf _ _ Ha) as Hia'. rewrite Hia in Hia'. injection Hia' as ->.
    rewrite Z2Nat.id in Hkb by lia. by eapply list_elem_of_lookup_2.
  - apply ComposePermutations_spec; [congruence|]. split; [congruence|].
    intros k b Hkb. destruct (Hpm _ _ Hkb) as (a & ? & ?). eauto.
Qed.

(** PermuteDimensions on an array with a valid layout: every CHECK passes. *)
Lemma PermuteDimensions_spec t ds dy l p :
  let s := ArrayShape t (mkArrayState ds dy (Some l)) in
  IsArrayType t = true ->
  length dy = length ds ->
  forallb (fun '(d, b) => IsValidDimensionSize d b) (zip ds dy) = true ->
  ValidateLayoutInShape s false = OK () ->
  IsPermutation p = true -> length p = length ds ->
  exists ds' dy' inv m',
    let s' := ArrayShape t (mkArrayState ds' dy' (Some (set_minor_to_major m' l))) in
    PermuteDimensions p s = OK s'
    /\ Permute ds p = OK ds' /\ Permute dy p = OK dy'
    /\ InversePermutation p = OK inv /\ ComposePermutations inv (minor_to_major l) = OK m'
    /\ forallb (fun '(d, b) => IsValidDimensionSize d b) (zip ds' dy') = true
    /\ ValidateLayoutInShape s' false = OK ()
    /\ ComposePermutations p m' = OK (minor_to_major l).
Proof.
  intros s Ht Hdy Hv Hl Hp%IsPermutation_perm Hlp. subst s.
  simpl in Hl. unfold shape_layout in Hl. simpl in Hl.
  destruct (ValidateLayoutForShape_order _ _ _ _ _ ds dy None (minor_to_major l) Hl Ht)
    as (Hm & Hlm & _).
  assert (Hlp2 : length p = length dy) by congruence.
  destruct (Permute_total ds p Hp Hlp) as [ds' Hds].
  destruct (Permute_total dy p Hp Hlp2) as [dy' Hdyp].
  destruct (permuted_order p (minor_to_major l) Hp Hm ltac:(congruence))
    as (inv & m' & Hinv & Hc & Hm' & Hlm' & Hb).
  exists ds', dy', inv, m'. simpl.
  pose proof (permuted_dims_valid _ _ _ _ _ Hp Hlp Hdy Hds Hdyp Hv) as Hv'.
  pose proof (proj1 (Permute_spec _ _ _ Hp Hlp) Hds) as [Hl1 _].
  pose proof (proj1 (Permute_spec _ _ _ Hp Hlp2) Hdyp) as [Hl2 _].
  split.
  { unfold PermuteDimensions, clear_dimensions, dynamic_dimensions, dimensions. simpl.
    rewrite Hds. simpl. rewrite Hdyp. simpl. rewrite add_dimensions_loop by done. simpl.
    rewrite fst_zip, snd_zip by lia.
    unfold IsArray, IsArrayExcludingBuffer, MinorToMajor, shape_layout. simpl. rewrite Ht. simpl.
    rewrite Hinv. simpl. rewrite Hc. simpl.
    unfold TransposeIsBitcast, IsArray, IsArrayExcludingBuffer, MinorToMajor, shape_layout. simpl.
    rewrite Ht. simpl. unfold SameElementType. simpl.
    assert ((t =?? t) = true) as -> by (by destruct t). simpl.
    rewrite Hb. simpl. by rewrite bool_decide_eq_true_2 by done. }
  do 5 (split; [done|]). split; [|done].
  unfold shape_layout. simpl.
  destruct (ValidateLayoutForShape_order _ _ _ _ _ ds' dy' (Some (set_minor_to_major m' l)) m' Hl Ht)
    as (_ & _ & Hg). apply Hg; [done|congruence].
Qed.

(** on an array with a valid layout, PermuteDimensions passes
    every CHECK; dimension k of the result is dimension permutation[k] of the
    input, and the new layout is valid and visits the input's dimensions in
    the same minor-to-major order, so that the transpose is a bitcast. *)
Lemma PermuteDimensions_bitcast (t : PrimitiveType) (ds : list Z) (dy : list bool)
    (l : Layout) (p : list Z) :
  let s := ArrayShape t (mkArrayState ds dy (Some l)) in
  IsArrayType t = true ->
  length dy = length ds ->
  forallb (fun '(d, b) => IsValidDimensionSize d b) (zip ds dy) = true ->
  ValidateLayoutInShape s false = OK () ->
  IsPermutation p = true -> length p = length ds ->
  exists ds' dy' m',
    let s' := ArrayShape t (mkArrayState ds' dy' (Some (set_minor_to_major m' l))) in
    PermuteDimensions p s = OK s'
    /\ (forall k j, p !! k = Some j -> ds' !! k = idx ds j /\ dy' !! k = idx dy j)
    /\ ValidateLayoutInShape s' false = OK ()
    /\ ComposePermutations p m' = OK (minor_to_major l).
Proof.
  intros s Ht Hdy Hv Hl Hp Hlp.
  destruct (PermuteDimensions_spec t ds dy l p Ht Hdy Hv Hl Hp Hlp)
    as (ds' & dy' & inv & m' & HE & Hds & Hdyp & _ & _ & _ & HV & HC).
  exists ds', dy', m'. apply IsPermutation_perm in Hp.
  apply Permute_spec in Hds as [_ Hk1]; [|done..].
  apply Permute_spec in Hdyp as [_ Hk2]; [|done|congruence].
  split; [done|]. split; [auto|]. done.
Qed.

Lemma PermuteDimensions_bitcast_witness :
  exists ds' dy' m',
    let l := MakeLayout [0; 2; 1] in
    let s' := ArrayShape F32 (mkArrayState ds' dy' (Some (set_minor_to_major m' l))) in
    PermuteDimensions [1; 2; 0] (ArrayShape F32 (mkArrayState [4; 5; 6] [false; true; false] (Some l)))
      = OK s'
    /\ (forall k j, [1; 2; 0] !! k = Some j -> ds' !! k = idx [4; 5; 6] j
                    /\ dy' !! k = idx [false; true; false] j)
    /\ ValidateLayoutInShape s' false = OK ()
    /\ ComposePermutations [1; 2; 0] m' = OK [0; 2; 1].
Proof.
  exact (PermuteDimensions_bitcast F32 [4; 5; 6] [false; true; false] (MakeLayout [0; 2; 1]) [1; 2; 0]
           eq_refl eq_refl eq_refl eq_refl eq_refl eq_refl).
Defined.

(** the size check of ValidateShape is not invariant under
    permutation: there is a valid shape, a permutation and a result of
    PermuteDimensions that ValidateShape rejects (a zero extent hides an
    overflow only in front of the large extents). *)
Lemma PermuteDimensions_can_invalidate :
  exists s s' p,
    ValidateShape s = OK () /\ IsPermutation p = true
    /\ PermuteDimensions p s = OK s' /\ ValidateShape s' = Err kInvalidArgument.
Proof.
  exists (array_shape F32 [0; 4294967296; 4294967296] [false; false; false]).
  eexists. exists [1; 2; 0].
  split; [vm_compute; reflexivity|]. split; [reflexivity|].
  split; [vm_compute; reflexivity|]. vm_compute. reflexivity.
Qed.
