(* ===== verification/ShapeEquality.v ===== *)
(** * Equality of shapes

    Shape::Equal (xla/shape.cc) with its ignore flags, and the relations of
    ShapeUtil built from it, as relations: reflexive and symmetric for every
    setting of the flags, transitive when dynamic dimensions are compared. *)

From S2P Require Import Prelude MachineInt Primitive Shape ShapeUtil.

(** ** Induction on shapes

    A shape contains shapes in a tuple, in a buffer, and as the physical shape
    of its layout. *)
Definition on_physical (P : Shape -> Prop) (st : ArrayState) : Prop :=
  match array_layout st with
  | Some l => match physical_shape l with Some p => P p | None => True end
  | None => True
  end.

Section Induction.
Context (P : Shape -> Prop).
Context (HI : P InvalidShape) (HT : P TokenShape) (HO : P OpaqueShape).
Context (HA : forall t st, on_physical P st -> P (ArrayShape t st)).
Context (HTup : forall l, Forall P l -> P (TupleShape l)).
Context (HB : forall s, P s -> P (BufferShape s)).

Fixpoint Shape_nested_ind (s : Shape) : P s :=
  match s with
  | InvalidShape => HI
  | TokenShape => HT
  | OpaqueShape => HO
  | ArrayShape t st =>
      HA t st
        (match st as st return on_physical P st with
         | mkArrayState _ _ None => I
         | mkArrayState _ _ (Some (mkLayout _ _ _ _ _ _ _ _ None _)) => I
         | mkArrayState _ _ (Some (mkLayout _ _ _ _ _ _ _ _ (Some p) _)) => Shape_nested_ind p
         end)
  | TupleShape l =>
      HTup l ((fix go (l : list Shape) : Forall P l :=
                 match l with
                 | [] => Forall_nil_2 P
                 | s :: l => Forall_cons_2 P s l (Shape_nested_ind s) (go l)
                 end) l)
  | BufferShape s => HB s (Shape_nested_ind s)
  end.
End Induction.

(** The class invariant equality relies on, here also for the physical shapes
    of layouts: an array state goes with an array element type, and a buffer
    holds an array. *)
Fixpoint typed (s : Shape) : Prop :=
  match s with
  | ArrayShape t st =>
      IsArrayType t = true
      /\ match array_layout st with
         | Some l => match physical_shape l with Some p => typed p | None => True end
         | None => True
         end
  | TupleShape l => (fix all (l : list Shape) : Prop :=
                       match l with [] => True | s :: l => typed s /\ all l end) l
  | BufferShape s => (exists t st, s = ArrayShape t st) /\ typed s
  | _ => True
  end.

Lemma typed_tuple l : typed (TupleShape l) <-> Forall typed l.
Proof.
  induction l as [|s l IH]; simpl; [split; [by constructor|done]|].
  rewrite Forall_cons, <- IH. done.
Qed.

(** ** The comparison of the parts *)

Definition physical_equal (l r : ArrayState) : bool :=
  match array_layout l, array_layout r with
  | Some ll, Some rl =>
      match physical_shape ll, physical_shape rl with
      | None, None => true
      | Some lp, Some rp => Shape_Equal Equal_default lp rp
      | _, _ => false
      end
  | _, _ => true
  end.

Fixpoint list_equal (eq : Shape -> Shape -> bool) (ls rs : list Shape) : bool :=
  match ls, rs with
  | [], [] => true
  | l :: ls, r :: rs => eq l r && list_equal eq ls rs
  | _, _ => false
  end.

Lemma Shape_Equal_array f lt l rt r :
  Shape_Equal f (ArrayShape lt l) (ArrayShape rt r) = array_equal f lt l rt r (physical_equal l r).
Proof. done. Qed.

Lemma Shape_Equal_tuple f ls rs :
  Shape_Equal f (TupleShape ls) (TupleShape rs) = list_equal (Shape_Equal f) ls rs.
Proof. revert rs; induction ls as [|l ls IH]; intros [|r rs]; try done. simpl. f_equal. apply IH. Qed.

Lemma dims_equal_refl b l : dims_equal b l l = true.
Proof. induction l as [|x l IH]; simpl; [done|]. by rewrite Z.eqb_refl. Qed.

Lemma dims_equal_sym b l r : dims_equal b l r = dims_equal b r l.
Proof.
  revert r; induction l as [|x l IH]; intros [|y r]; simpl; try done.
  by rewrite IH, (Z.eqb_sym x y), (orb_comm (x =? kUnboundedSize)).
Qed.

Lemma dims_equal_trans l m r :
  length l = length m -> dims_equal false l m = true -> dims_equal false m r = true ->
  dims_equal false l r = true.
Proof.
  revert m r; induction l as [|x l IH]; intros [|y m] [|z r] Hl; simpl in *; try done.
  rewrite !orb_false_r, !andb_true_iff, !Z.eqb_eq. intros [-> H1] [-> H2].
  split; [done|]. apply (IH m r); [lia|done|done].
Qed.

Lemma type_eqb_sym (a b : PrimitiveType) : (a =?? b) = (b =?? a).
Proof. apply bool_decide_ext. split; congruence. Qed.

(** ** Reflexivity and symmetry *)

Lemma Layout_Equal_refl f l : Layout_Equal f l l true = true.
Proof.
  unfold Layout_Equal. rewrite !Z.eqb_refl, !bool_decide_eq_true_2 by done.
  by rewrite !orb_true_r.
Qed.

Lemma Layout_Equal_sym f l r p : Layout_Equal f l r p = Layout_Equal f r l p.
Proof.
  unfold Layout_Equal.
  rewrite (bool_decide_ext (minor_to_major l = minor_to_major r) (minor_to_major r = minor_to_major l)),
    (bool_decide_ext (tiles l = tiles r) (tiles r = tiles l)),
    (bool_decide_ext (split_configs l = split_configs r) (split_configs r = split_configs l)),
    (type_eqb_sym (index_primitive_type l)), (type_eqb_sym (pointer_primitive_type l)) by done.
  by rewrite (Z.eqb_sym (tail_padding_alignment_in_elements l)),
    (Z.eqb_sym (element_size_in_bits l)), (Z.eqb_sym (memory_space l)).
Qed.

Lemma same_type_sym a b :
  SameElementTypeIgnoringFpPrecision' a b = SameElementTypeIgnoringFpPrecision' b a.
Proof. unfold SameElementTypeIgnoringFpPrecision'. by rewrite type_eqb_sym, andb_comm. Qed.

Lemma array_equal_refl f t st : array_equal f t st t st true = true.
Proof.
  unfold array_equal, SameElementTypeIgnoringFpPrecision'.
  rewrite dims_equal_refl, !bool_decide_eq_true_2 by done.
  assert (match array_layout st with Some l => Layout_Equal f l l true | None => true end = true) as HL
    by (destruct (array_layout st); [apply Layout_Equal_refl|done]).
  destruct (array_layout st); rewrite ?HL, ?orb_true_r; destruct (ignore_fp_precision f); rewrite ?orb_true_r; done.
Qed.

Lemma array_equal_sym f lt l rt r p :
  array_equal f lt l rt r p = array_equal f rt r lt l p.
Proof.
  unfold array_equal. rewrite (type_eqb_sym lt rt), (same_type_sym lt rt), dims_equal_sym.
  rewrite (bool_decide_ext (length (dims l) = _) (length (dims r) = length (dims l))),
    (bool_decide_ext (dyns l = dyns r) (dyns r = dyns l)) by done.
  destruct (array_layout l), (array_layout r); try done. by rewrite Layout_Equal_sym.
Qed.

Lemma Equal_refl s : forall f, Shape_Equal f s s = true.
Proof.
  induction s as [| | |t st IH|l IH|s IH] using Shape_nested_ind; intros f; try done.
  - rewrite Shape_Equal_array.
    assert (physical_equal st st = true) as ->; [|apply array_equal_refl].
    unfold physical_equal, on_physical in *. destruct (array_layout st); [|done].
    by destruct (physical_shape _).
  - rewrite Shape_Equal_tuple. induction IH as [|s l Hs _ IHl]; [done|]. simpl. by rewrite Hs.
  - apply IH.
Qed.

(** Shape::Equal at the top of two shapes: a buffer is looked through when the
    flag says so, and then shapes of different kinds differ. *)
Definition strip (f : EqualFlags) (s : Shape) : Shape :=
  match s with BufferShape s' => if ignore_buffer f then s' else s | _ => s end.

Definition top_equal (f : EqualFlags) (s1 s2 : Shape) : bool :=
  match s1, s2 with
  | InvalidShape, InvalidShape | TokenShape, TokenShape | OpaqueShape, OpaqueShape => true
  | ArrayShape t st, ArrayShape t' st'
  | BufferShape (ArrayShape t st), BufferShape (ArrayShape t' st') =>
      array_equal f t st t' st' (physical_equal st st')
  | TupleShape l, TupleShape l' => list_equal (Shape_Equal f) l l'
  | _, _ => false
  end.

Lemma Shape_Equal_top f s s' :
  typed s -> typed s' -> Shape_Equal f s s' = top_equal f (strip f s) (strip f s').
Proof.
  assert (HB : forall b, typed (BufferShape b) -> exists t st, b = ArrayShape t st /\ IsArrayType t = true).
  { intros b [(t & st & ->) [Ht _]]. eauto. }
  intros Hs Hs'. unfold strip.
  destruct s as [| | |t st|l|b]; [| | | | |destruct (HB b Hs) as (t & st & -> & Ht)];
  destruct s' as [| | |t' st'|l'|b']; try done;
    try (destruct (HB b' Hs') as (t' & st' & -> & Ht'));
    try (pose proof (proj1 Hs) as Ht); try (pose proof (proj1 Hs') as Ht');
    try (destruct (ignore_buffer f) eqn:EB); simpl; rewrite ?EB; try done;
    try (by destruct t); try (by destruct t');
    apply Shape_Equal_tuple.
Qed.

(** Induction through [strip]: the shapes a comparison recurs on. *)
Fixpoint children (P : Shape -> Prop) (s : Shape) : Prop :=
  match s with
  | ArrayShape _ st => on_physical P st
  | TupleShape l => Forall P l
  | BufferShape s => children P s
  | _ => True
  end.

Lemma Shape_children_ind (P : Shape -> Prop) :
  (forall s, children P s -> P s) -> forall s, P s.
Proof.
  intros Hstep s. enough (HQ : P s /\ children P s) by apply HQ.
  induction s as [| | |t st IH|l IH|s [IH1 IH2]] using Shape_nested_ind;
    try (split; [apply Hstep|]; done).
  - assert (on_physical P st).
    { unfold on_physical in *. destruct (array_layout st); [|done].
      destruct (physical_shape _); [apply IH|done]. }
    split; [by apply Hstep|done].
  - assert (Forall P l) by (eapply Forall_impl; [exact IH|]; by intros ? []).
    split; [by apply Hstep|done].
Qed.

Lemma children_strip P f s : children P s -> children P (strip f s).
Proof. destruct s; try done. simpl. by destruct (ignore_buffer f). Qed.

Lemma typed_strip f s : typed s -> typed (strip f s).
Proof. destruct s; try done. simpl. destruct (ignore_buffer f); [by intros []|done]. Qed.

(** What holds of all typed shapes holds of the physical shapes of a typed
    array. *)
Lemma physical_typed P t st :
  typed (ArrayShape t st) -> on_physical (fun s => typed s -> P s) st -> on_physical P st.
Proof.
  intros [_ Ht] HP. unfold on_physical in *. destruct (array_layout st); [|done].
  destruct (physical_shape _); auto.
Qed.

Definition sym_at (s : Shape) : Prop :=
  typed s -> forall f s', typed s' -> Shape_Equal f s s' = Shape_Equal f s' s.

Lemma physical_equal_sym t st t' st' :
  typed (ArrayShape t st) -> typed (ArrayShape t' st') -> on_physical sym_at st ->
  physical_equal st st' = physical_equal st' st.
Proof.
  intros [_ H] [_ H'] HP. unfold physical_equal, on_physical in *.
  destruct (array_layout st) as [l|], (array_layout st') as [l'|]; try done.
  destruct (physical_shape l), (physical_shape l'); auto.
Qed.

Lemma list_equal_sym f l : Forall sym_at l -> forall l', Forall typed l -> Forall typed l' ->
  list_equal (Shape_Equal f) l l' = list_equal (Shape_Equal f) l' l.
Proof.
  induction 1 as [|s l Hs _ IH]; intros [|s' l'] H1 H2; try done. simpl.
  apply Forall_cons in H1 as [? ?], H2 as [? ?]. rewrite IH by done. by rewrite Hs.
Qed.

Ltac open_buffer H :=
  lazymatch type of H with
  | typed (BufferShape _) => let t := fresh "t" in let st := fresh "st" in
                             destruct H as [(t & st & ->) H]
  | _ => idtac
  end.

Lemma Equal_sym s : sym_at s.
Proof.
  induction s as [s HP] using Shape_children_ind. intros Hs f s' Hs'.
  rewrite !Shape_Equal_top by done.
  apply (children_strip _ f) in HP. apply (typed_strip f) in Hs, Hs'.
  destruct (strip f s) as [| | |t st|l|b], (strip f s') as [| | |t' st'|l'|b'];
    open_buffer Hs; open_buffer Hs'; try done; simpl.
  - rewrite array_equal_sym. f_equal. by apply (physical_equal_sym t st t' st').
  - apply list_equal_sym; [done|by apply typed_tuple..].
  - rewrite array_equal_sym. f_equal. eapply physical_equal_sym; eassumption.
Qed.

(** ** Transitivity *)

Definition trans_at (s1 : Shape) : Prop :=
  typed s1 -> forall f s2 s3, typed s2 -> typed s3 -> ignore_dynamic_dimension f = false ->
  Shape_Equal f s1 s2 = true -> Shape_Equal f s2 s3 = true -> Shape_Equal f s1 s3 = true.

Lemma Layout_Equal_trans f l m r p q pq :
  (p = true -> q = true -> pq = true) ->
  Layout_Equal f l m p = true -> Layout_Equal f m r q = true -> Layout_Equal f l r pq = true.
Proof.
  intros Hp. unfold Layout_Equal.
  rewrite !andb_true_iff, !orb_true_iff, !bool_decide_eq_true, !Z.eqb_eq.
  intuition congruence.
Qed.

Lemma array_equal_trans f t1 st1 t2 st2 t3 st3 p q pq :
  ignore_dynamic_dimension f = false ->
  (array_layout st2 <> None -> p = true -> q = true -> pq = true) ->
  array_equal f t1 st1 t2 st2 p = true -> array_equal f t2 st2 t3 st3 q = true ->
  array_equal f t1 st1 t3 st3 pq = true.
Proof.
  intros Hdyn Hp. unfold array_equal. rewrite Hdyn, !andb_true_iff.
  intros ((((HT & HL) & HD) & HLay) & HDy) ((((HT' & HL') & HD') & HLay') & HDy').
  apply bool_decide_eq_true in HL, HL'.
  split; [split; [split; [split|]|]|].
  - clear - HT HT'. destruct (ignore_element_type f); [done|]. simpl in *.
    unfold SameElementTypeIgnoringFpPrecision' in *. destruct (ignore_fp_precision f).
    + apply orb_true_iff in HT, HT'. apply orb_true_iff. rewrite !andb_true_iff, !bool_decide_eq_true in *.
      intuition (subst; auto).
    + apply bool_decide_eq_true in HT, HT'. apply bool_decide_eq_true. congruence.
  - apply bool_decide_eq_true. congruence.
  - destruct (ignore_dimensions f); [done|]. by apply (dims_equal_trans _ (dims st2)).
  - destruct (ignore_layout f); [done|]. simpl in *.
    destruct (array_layout st1), (array_layout st2) as [m|], (array_layout st3); try done.
    apply (Layout_Equal_trans f _ m _ p q); [by apply Hp|done|done].
  - simpl in *. apply bool_decide_eq_true in HDy, HDy'. apply bool_decide_eq_true. congruence.
Qed.

Lemma physical_equal_trans t1 st1 t2 st2 t3 st3 :
  typed (ArrayShape t1 st1) -> typed (ArrayShape t2 st2) -> typed (ArrayShape t3 st3) ->
  on_physical trans_at st1 -> array_layout st2 <> None ->
  physical_equal st1 st2 = true -> physical_equal st2 st3 = true -> physical_equal st1 st3 = true.
Proof.
  intros [_ H1] [_ H2] [_ H3] HP Hne. unfold physical_equal, on_physical in *.
  destruct (array_layout st1) as [l1|], (array_layout st2) as [l2|], (array_layout st3) as [l3|]; try done.
  destruct (physical_shape l1) as [p1|], (physical_shape l2) as [p2|], (physical_shape l3) as [p3|];
    try done. by apply (HP H1 Equal_default p2 p3).
Qed.

Lemma list_equal_trans f l1 : ignore_dynamic_dimension f = false -> Forall trans_at l1 ->
  forall l2 l3, Forall typed l1 -> Forall typed l2 -> Forall typed l3 ->
  list_equal (Shape_Equal f) l1 l2 = true -> list_equal (Shape_Equal f) l2 l3 = true ->
  list_equal (Shape_Equal f) l1 l3 = true.
Proof.
  intros Hf. induction 1 as [|s1 l1 Hs _ IH]; intros [|s2 l2] [|s3 l3] H1 H2 H3; try done. simpl.
  apply Forall_cons in H1 as [? ?], H2 as [? ?], H3 as [? ?].
  rewrite !andb_true_iff. intros [? ?] [? ?]. split; [by apply (Hs H f s2 s3)|by apply (IH l2 l3)].
Qed.

Lemma Equal_trans s : trans_at s.
Proof.
  induction s as [s1 HP] using Shape_children_ind. intros H1 f s2 s3 H2 H3 Hf.
  rewrite !Shape_Equal_top by done.
  apply (children_strip _ f) in HP. apply (typed_strip f) in H1, H2, H3.
  destruct (strip f s1) as [| | |t1 st1|l1|b1], (strip f s2) as [| | |t2 st2|l2|b2];
    open_buffer H1; open_buffer H2; try done; simpl;
    destruct (strip f s3) as [| | |t3 st3|l3|b3]; open_buffer H3; try done.
  - apply array_equal_trans; [done|]. by apply (physical_equal_trans t1 _ t2 _ t3).
  - apply list_equal_trans; [done|done|by apply typed_tuple..].
  - apply array_equal_trans; [done|]. eapply physical_equal_trans; eassumption.
Qed.

(** for every setting of its flags Shape::Equal is reflexive and
    symmetric, and as long as dynamic dimensions are compared it is also
    transitive, so that the comparisons that ignore layouts, element types,
    floating-point precision or buffers are equivalence relations. *)
Lemma Shape_Equal_equivalence (f : EqualFlags) (s1 s2 s3 : Shape) :
  typed s1 -> typed s2 -> typed s3 ->
  Shape_Equal f s1 s1 = true
  /\ Shape_Equal f s1 s2 = Shape_Equal f s2 s1
  /\ (ignore_dynamic_dimension f = false ->
      Shape_Equal f s1 s2 = true -> Shape_Equal f s2 s3 = true -> Shape_Equal f s1 s3 = true).
Proof.
  intros H1 H2 H3. split; [apply Equal_refl|]. split; [by apply Equal_sym|].
  intros. by apply (Equal_trans s1) with s2.
Qed.

Lemma Shape_Equal_equivalence_witness :
  let a := array_shape F32 [2; 3] [false; true] in
  let b := array_shape F16 [2; 3] [false; true] in
  let c := array_shape BF16 [2; 3] [false; true] in
  let f := mkEqual false false false false false true false false false false false in
  Shape_Equal f a a = true /\ Shape_Equal f a b = Shape_Equal f b a
  /\ (ignore_dynamic_dimension f = false ->
      Shape_Equal f a b = true -> Shape_Equal f b c = true -> Shape_Equal f a c = true).
Proof. apply Shape_Equal_equivalence; repeat split. Defined.

(** The sizes of unbounded dimensions. *)
Definition all_unbounded (n : nat) : list Z := replicate n kUnboundedSize.

Lemma dims_equal_unbounded l : dims_equal true l (all_unbounded (length l)) = true.
Proof.
  induction l as [|x l IH]; [done|]. simpl. rewrite !orb_true_r. apply IH.
Qed.

Lemma dims_equal_static l r :
  Forall (fun d => 0 <= d) l -> Forall (fun d => 0 <= d) r -> length l = length r ->
  dims_equal true l r = true <-> l = r.
Proof.
  intros Hl. revert r; induction Hl as [|x l Hx _ IH]; intros [|y r] Hr Hlen; try done.
  apply Forall_cons in Hr as [Hy Hr]. simpl in *.
  assert (HU : kUnboundedSize < 0) by done.
  rewrite andb_true_iff, IH by (done || lia).
  rewrite (proj2 (Z.eqb_neq x kUnboundedSize)), (proj2 (Z.eqb_neq y kUnboundedSize)) by lia.
  rewrite orb_false_r, Z.eqb_eq. split; [by intros [-> ->]|by intros [= -> ->]].
Qed.

(** Compatible on arrays of one element type and rank. *)
Lemma Compatible_array t ds dy ds' dy' :
  length ds = length ds' ->
  Compatible (array_shape t ds dy) (array_shape t ds' dy') = dims_equal true ds ds'.
Proof.
  intros Hl. unfold Compatible, array_shape. rewrite Shape_Equal_array. unfold array_equal. simpl.
  rewrite !bool_decide_eq_true_2 by done. by rewrite !andb_true_r.
Qed.

(** ShapeUtil::Compatible, which ignores dynamic dimensions, is
    not transitive: two arrays of the same element type and rank, however their
    static sizes differ, are both compatible with the array of unbounded
    dimensions, and compatible with each other only if their sizes agree. *)
Lemma Compatible_not_transitive (t : PrimitiveType) (ds ds' : list Z) (dy dy' u : list bool) :
  Forall (fun d => 0 <= d) ds -> Forall (fun d => 0 <= d) ds' -> length ds = length ds' ->
  Compatible (array_shape t ds dy) (array_shape t (all_unbounded (length ds)) u) = true
  /\ Compatible (array_shape t (all_unbounded (length ds)) u) (array_shape t ds' dy') = true
  /\ (Compatible (array_shape t ds dy) (array_shape t ds' dy') = true <-> ds = ds').
Proof.
  intros H1 H2 Hl.
  assert (Hu : length (all_unbounded (length ds)) = length ds) by apply length_replicate.
  rewrite !Compatible_array by congruence. rewrite dims_equal_unbounded, dims_equal_sym.
  split; [done|]. split; [rewrite Hl; apply dims_equal_unbounded|by apply dims_equal_static].
Qed.

Lemma Compatible_not_transitive_witness :
  Compatible (array_shape F32 [4; 2] [false; true]) (array_shape F32 [kUnboundedSize; kUnboundedSize] [true; true]) = true
  /\ Compatible (array_shape F32 [kUnboundedSize; kUnboundedSize] [true; true]) (array_shape F32 [5; 2] [false; false]) = true
  /\ (Compatible (array_shape F32 [4; 2] [false; true]) (array_shape F32 [5; 2] [false; false]) = true
      <-> [4; 2] = [5; 2]).
Proof.
  apply (Compatible_not_transitive F32 [4; 2] [5; 2] [false; true] [false; false] [true; true]);
    [each_entry ltac:(lia)|each_entry ltac:(lia)|reflexivity].
Defined.

(** ** Equality of shapes in proofs

    The typed shapes with equality up to the flags of a comparison are a
    setoid, for rewriting with shapes that are equal up to layout. *)
Definition typed_shape : Type := { s : Shape | typed s }.
Definition equal_up_to (f : EqualFlags) (s1 s2 : typed_shape) : Prop :=
  Shape_Equal f (proj1_sig s1) (proj1_sig s2) = true.

Lemma equal_up_to_equivalence f :
  ignore_dynamic_dimension f = false -> Equivalence (equal_up_to f).
Proof.
  intros Hf. unfold equal_up_to. split.
  - intros [s H]. apply Equal_refl.
  - intros [s1 H1] [s2 H2] HE. simpl in *. by rewrite Equal_sym.
  - intros [s1 H1] [s2 H2] [s3 H3] HE1 HE2. simpl in *. by apply (Equal_trans s1) with s2.
Qed.
