(* ===== verification/IndexUtil.v ===== *)
(** * Indices of array elements

    xla/index_util.{h,cc}: the conversion between multidimensional indices and
    linear indices under a layout, the counting loop over all indices of a
    shape, strides, bounds and comparison; with them the window bounds of
    xla/window_util.cc. *)

From S2P Require Import Prelude MachineInt PermutationUtil Primitive Shape ShapeUtil.

(** ** IndexUtil *)

(** The overload with an explicit order; [prev] is [minor_to_major[i - 1]]. *)
Definition MultidimensionalIndexToLinearIndex_order (s : Shape) (m : list Z)
    (multi_index : list Z) : outcome Z :=
  match m with
  | [] => OK 0
  | m0 :: rest =>
      linear_index ← at_ multi_index m0;
      p ← foldM (fun '(prev, linear_index, scale) mi =>
                   d ← dimension s prev;
                   let scale := mul64 scale d in
                   x ← at_ multi_index mi;
                   OK (mi, add64 linear_index (mul64 scale x), scale))
                (m0, linear_index, 1) rest;
      let '(_, linear_index, _) := p in
      OK linear_index
  end.

Definition MultidimensionalIndexToLinearIndex (s : Shape) (multi_index : list Z) : outcome Z :=
  m ← MinorToMajor s; MultidimensionalIndexToLinearIndex_order s m multi_index.

(** [x / y] and [x % y] of int64_t operands; dividing by zero aborts. *)
Definition divide (x y : Z) : outcome Z := if y =? 0 then Crash else OK (div64 x y).
Definition modulo (x y : Z) : outcome Z := if y =? 0 then Crash else OK (rem64 x y).

Definition LinearIndexToMultidimensionalIndex (s : Shape) (linear_index : Z) : outcome (list Z) :=
  ds ← dimensions s;
  m ← MinorToMajor s;
  p ← foldM (fun '(multi_index, divisor) dim =>
               q ← divide linear_index divisor;
               d ← dimension s dim;
               r ← modulo q d;
               multi_index ← set_at multi_index dim r;
               OK (multi_index, mul64 divisor d))
            (replicate (length ds) 0, 1) m;
  OK (p.1).

(** BumpIndices: [n] is [dimno + 1], the dimensions still to try. *)
Fixpoint BumpIndices_from (s : Shape) (indices : list Z) (n : nat) : outcome (list Z * bool) :=
  match n with
  | O => OK (indices, false)
  | S dimno =>
      limit ← dimension s (Z.of_nat dimno);
      x ← at_ indices (Z.of_nat dimno);
      if add64 x 1 <? limit
      then OK (take dimno indices ++ add64 x 1 :: replicate (length indices - S dimno) 0, true)
      else BumpIndices_from s indices dimno
  end.
Definition BumpIndices (s : Shape) (indices : list Z) : outcome (list Z * bool) :=
  BumpIndices_from s indices (length indices).

Fixpoint GetDimensionStride_loop (s : Shape) (dimension_ : Z) (m : list Z) (stride : Z) : outcome Z :=
  match m with
  | [] => OK stride
  | dim :: m =>
      if dim =? dimension_ then OK stride
      else d ← dimension s dim; GetDimensionStride_loop s dimension_ m (mul64 stride d)
  end.
Definition GetDimensionStride (s : Shape) (dimension_ : Z) : outcome Z :=
  m ← MinorToMajor s; GetDimensionStride_loop s dimension_ m 1.

Definition IndexInBounds (s : Shape) (index : list Z) : outcome bool :=
  ds ← dimensions s;
  if negb (bool_decide (length ds = length index)) then OK false
  else OK (forallb (fun '(i, d) => negb (d <=? i)) (zip index ds)).

Fixpoint CompareIndices_loop (lhs rhs : list Z) : Z :=
  match lhs, rhs with
  | x :: lhs, y :: rhs => if x <? y then -1 else if y <? x then 1 else CompareIndices_loop lhs rhs
  | _, _ => 0
  end.
Definition CompareIndices (lhs rhs : list Z) : outcome Z :=
  _ ← check (bool_decide (length rhs = length lhs));
  OK (CompareIndices_loop lhs rhs).

(** ** window_util: dilated and strided bounds *)

Definition DilatedBound (bound dilation : Z) : outcome Z :=
  _ ← check (0 <=? bound);
  _ ← check (1 <=? dilation);
  if bound =? 0 then OK 0 else OK (add64 (mul64 (bound - 1) dilation) 1).

Definition StridedBound (bound window_size stride : Z) : outcome Z :=
  _ ← check (0 <=? window_size);
  _ ← check (0 <=? bound);
  _ ← check (1 <=? stride);
  if (bound =? 0) || (bound <? window_size) then OK 0
  else OK (add64 (div64 (sub64 bound window_size) stride) 1).

(** * Lemmas: mixed-radix numbers

    [lin es vs] reads the digits [vs] in the radices [es], least significant
    first; it is the closed formula of the comment in index_util.h. *)

Fixpoint prod (es : list Z) : Z := match es with [] => 1 | e :: es => e * prod es end.
Fixpoint lin (es vs : list Z) : Z :=
  match es, vs with e :: es, v :: vs => v + e * lin es vs | _, _ => 0 end.
Definition digit (e v : Z) : Prop := 0 <= v < e.

Lemma prod_app es1 es2 : prod (es1 ++ es2) = prod es1 * prod es2.
Proof. induction es1; simpl; [lia|]. rewrite IHes1. lia. Qed.

Lemma prod_perm es1 es2 : es1 ≡ₚ es2 -> prod es1 = prod es2.
Proof. induction 1; simpl; lia. Qed.

Lemma prod_pos es : Forall (fun e => 0 < e) es -> 0 < prod es.
Proof. induction 1; simpl; lia. Qed.

Lemma digits_pos es vs : Forall2 digit es vs -> Forall (fun e => 0 < e) es.
Proof. unfold digit. induction 1; constructor; [lia|done]. Qed.

Lemma lin_app es1 es2 vs1 vs2 :
  length es1 = length vs1 -> lin (es1 ++ es2) (vs1 ++ vs2) = lin es1 vs1 + prod es1 * lin es2 vs2.
Proof.
  revert vs1; induction es1 as [|e es1 IH]; intros [|v vs1] Hl; simpl in *; try done; [lia|].
  rewrite IH by lia. lia.
Qed.

Lemma lin_bound es vs : Forall2 digit es vs -> 0 <= lin es vs < prod es.
Proof.
  intros HF. pose proof (digits_pos _ _ HF) as Hp.
  induction HF as [|e v es vs Hd HF IH]; simpl; [lia|].
  inversion Hp; subst. unfold digit in Hd. specialize (IH ltac:(done)). nia.
Qed.

(** Digit k is what division by the earlier radices and remainder extract. *)
Lemma lin_digit es vs k e v :
  Forall2 digit es vs -> es !! k = Some e -> vs !! k = Some v ->
  (lin es vs / prod (take k es)) mod e = v.
Proof.
  intros HF; revert k. induction HF as [|e0 v0 es vs Hd HF IH]; intros [|k]; simpl; try done.
  - intros [= <-] [= <-]. unfold digit in Hd. rewrite Z.div_1_r.
    rewrite (Z.mul_comm e0), Z_mod_plus_full. by apply Z.mod_small.
  - intros He Hv. unfold digit in Hd. pose proof (digits_pos _ _ HF) as Hp.
    assert (0 < prod (take k es)) by (by apply prod_pos, Forall_take).
    rewrite <- Z.div_div by lia.
    replace ((v0 + e0 * lin es vs) / e0) with (lin es vs); [by apply IH|].
    rewrite (Z.mul_comm e0), Z.div_add, Z.div_small by lia. lia.
Qed.

(** Equal numbers have equal digits. *)
Lemma lin_inj es vs ws :
  Forall2 digit es vs -> Forall2 digit es ws -> lin es vs = lin es ws -> vs = ws.
Proof.
  intros Hv Hw Heq. apply list_eq. intros k.
  pose proof (Forall2_length _ _ _ Hv) as Hlv. pose proof (Forall2_length _ _ _ Hw) as Hlw.
  destruct (es !! k) as [e|] eqn:He.
  - pose proof (lookup_lt_Some _ _ _ He) as Hk.
    destruct (lookup_lt_is_Some_2 vs k) as [v Ev]; [lia|].
    destruct (lookup_lt_is_Some_2 ws k) as [w Ew]; [lia|].
    rewrite Ev, Ew. f_equal. rewrite <- (lin_digit _ _ _ _ _ Hv He Ev), Heq.
    by apply lin_digit.
  - apply lookup_ge_None in He. rewrite !lookup_ge_None_2 by lia. done.
Qed.

(** Every number below the product is read back from its digits. *)
Lemma digits_of es n :
  Forall (fun e => 0 < e) es -> 0 <= n < prod es ->
  exists vs, Forall2 digit es vs /\ lin es vs = n.
Proof.
  intros Hp; revert n. induction Hp as [|e es He Hp IH]; intros n Hn; simpl in *.
  { exists []. split; [constructor|simpl; lia]. }
  destruct (IH (n / e)) as (vs & Hvs & Hl).
  { split; [apply Z.div_pos; lia|]. apply Z.div_lt_upper_bound; lia. }
  exists (n mod e :: vs). split.
  - constructor; [unfold digit; apply Z.mod_pos_bound; lia|done].
  - simpl. rewrite Hl. pose proof (Z.div_mod n e). lia.
Qed.

Lemma mul64_fits x y : 0 <= x -> 0 <= y -> x * y < two63 -> mul64 x y = x * y.
Proof. intros. apply i64_small, is_i64_spec. z64. nia. Qed.
Lemma add64_fits x y : 0 <= x -> 0 <= y -> x + y < two63 -> add64 x y = x + y.
Proof. intros. apply i64_small, is_i64_spec. z64. lia. Qed.

(** ** Reading lists in the order of a layout *)

Definition sel (l m : list Z) : list Z := map (fun j => nth (Z.to_nat j) l 0) m.

Lemma at_nth (l : list Z) j : 0 <= j < Zlen l -> at_ l j = OK (nth (Z.to_nat j) l 0).
Proof.
  intros Hj. apply at_OK, idx_Some. split; [lia|].
  destruct (nth_lookup_or_length l (Z.to_nat j) 0); [done|]. unfold Zlen in *. lia.
Qed.

Lemma sel_perm l m : is_perm m -> length m = length l -> sel l m ≡ₚ l.
Proof.
  intros Hm Hl. unfold is_perm in Hm. unfold sel. rewrite Hm.
  enough (map (fun j => nth (Z.to_nat j) l 0) (indices m) = l) as -> by done.
  apply list_eq. intros k. rewrite list_lookup_fmap.
  destruct (decide (k < length l)%nat) as [Hk|Hk].
  - rewrite (proj2 (idx_indices m k (Z.of_nat k))) by (split; [lia|done]). simpl.
    rewrite Nat2Z.id, nth_lookup. by destruct (lookup_lt_is_Some_2 l k Hk) as [x ->].
  - rewrite !lookup_ge_None_2; [done|lia|rewrite length_indices; lia].
Qed.

Lemma nth_digit ds ix j :
  Forall2 digit ds ix -> 0 <= j < Zlen ds ->
  digit (nth (Z.to_nat j) ds 0) (nth (Z.to_nat j) ix 0).
Proof.
  intros HF Hj. unfold Zlen in Hj.
  destruct (lookup_lt_is_Some_2 ds (Z.to_nat j)) as [d Hd]; [lia|].
  destruct (Forall2_lookup_l _ _ _ _ _ HF Hd) as (v & Hv & Hdv).
  by rewrite !nth_lookup, Hd, Hv.
Qed.

Lemma sel_digits ds ix m :
  Forall2 digit ds ix -> Forall (fun j => 0 <= j < Zlen ds) m ->
  Forall2 digit (sel ds m) (sel ix m).
Proof. intros HF. induction 1; simpl; constructor; [by apply nth_digit|done]. Qed.

Lemma sel_inj ix iy m :
  is_perm m -> length ix = length m -> length iy = length m -> sel ix m = sel iy m -> ix = iy.
Proof.
  intros Hm Hx Hy Heq. apply list_eq. intros k.
  destruct (decide (k < length m)%nat) as [Hk|Hk]; [|by rewrite !lookup_ge_None_2 by lia].
  destruct (lookup_lt_is_Some_2 ix k) as [x Ex]; [lia|].
  destruct (lookup_lt_is_Some_2 iy k) as [y Ey]; [lia|]. rewrite Ex, Ey. f_equal.
  assert (Hin : Z.of_nat k ∈ m) by (apply is_perm_surj; [done|unfold Zlen; lia]).
  apply list_elem_of_lookup in Hin as [i Hi].
  assert (Hs : sel ix m !! i = sel iy m !! i) by (by rewrite Heq).
  unfold sel in Hs. rewrite !list_lookup_fmap, Hi in Hs. simpl in Hs.
  rewrite Nat2Z.id, !nth_lookup, Ex, Ey in Hs. simpl in Hs. congruence.
Qed.

Lemma perm_in_range (ds m : list Z) :
  is_perm m -> length m = length ds -> Forall (fun j => 0 <= j < Zlen ds) m.
Proof.
  intros Hm Hl. apply Forall_forall. intros j Hj. pose proof (is_perm_range _ _ Hm Hj).
  unfold Zlen in *. lia.
Qed.

(** ** The two loops *)

Lemma dimension_nth t ds dy lo j :
  0 <= j < Zlen ds ->
  dimension (ArrayShape t (mkArrayState ds dy lo)) j = OK (nth (Z.to_nat j) ds 0).
Proof. intros. unfold dimension. simpl. by apply at_nth. Qed.

Lemma linear_loop t ds dy lo ix rest prev L scale :
  length ix = length ds -> 0 <= prev < Zlen ds ->
  Forall (fun j => 0 <= j < Zlen ds) rest ->
  Forall2 digit (sel ds rest) (sel ix rest) ->
  0 < scale -> 0 < nth (Z.to_nat prev) ds 0 -> 0 <= L < scale * nth (Z.to_nat prev) ds 0 ->
  scale * nth (Z.to_nat prev) ds 0 * prod (sel ds rest) < two63 ->
  exists prev' scale',
  foldM (fun '(prev, linear_index, scale) mi =>
           d ← dimension (ArrayShape t (mkArrayState ds dy lo)) prev;
           let scale := mul64 scale d in
           x ← at_ ix mi;
           OK (mi, add64 linear_index (mul64 scale x), scale)) (prev, L, scale) rest
  = OK (prev', L + scale * nth (Z.to_nat prev) ds 0 * lin (sel ds rest) (sel ix rest), scale').
Proof.
  intros Hlen; revert prev L scale.
  induction rest as [|j rest IH]; intros prev L scale Hprev Hr HF Hs Hd HL Hb.
  { simpl. do 2 eexists. by rewrite Z.mul_0_r, Z.add_0_r. }
  cbn [foldM]. rewrite dimension_nth by done.
  set (d := nth (Z.to_nat prev) ds 0) in *. cbv beta iota zeta delta [mbind outcome_bind].
  inversion_clear Hr as [|? ? Hj Hr']. rename Hr' into Hr.
  simpl in HF. inversion_clear HF as [|? ? ? ? Hdig HF']. rename HF' into HF.
  simpl in Hb. pose proof (digits_pos _ _ HF) as Hpos. pose proof (prod_pos _ Hpos) as Hpp.
  pose proof (lin_bound _ _ HF) as Hlin. unfold digit in Hdig.
  rewrite at_nth by (unfold Zlen in *; lia). cbn [sel map lin].
  set (e := nth (Z.to_nat j) ds 0) in *. set (v := nth (Z.to_nat j) ix 0) in *.
  fold (sel ds rest) in *. fold (sel ix rest) in *.
  assert (Hsd : 0 < scale * d) by nia.
  assert (Hsd' : scale * d < two63).
  { apply Z.le_lt_trans with (2 := Hb). assert (1 <= e * prod (sel ds rest)) by nia. nia. }
  rewrite (mul64_fits scale d) by lia. set (sd := scale * d) in *.
  assert (Hse : 0 <= sd * e) by nia.
  assert (Hb' : sd * e * prod (sel ds rest) < two63) by (rewrite <- Z.mul_assoc; exact Hb).
  assert (Hse' : sd * e <= sd * e * prod (sel ds rest)) by nia.
  assert (Hv0 : 0 <= sd * v) by nia.
  assert (Hv1 : sd * v + sd <= sd * e) by nia.
  rewrite (mul64_fits sd v), add64_fits by lia.
  destruct (IH j (L + sd * v) sd) as (prev' & scale' & HE); try done.
  - fold e. lia.
  - fold e. lia.
  - fold e in HE. exists prev', scale'. etransitivity; [exact HE|].
    f_equal. f_equal. f_equal. ring.
Qed.

Lemma divide_pos x y : 0 <= x < two63 -> 0 < y -> divide x y = OK (x / y) /\ 0 <= x / y < two63.
Proof.
  intros Hx Hy. assert (Hq : 0 <= x / y <= x).
  { split; [apply Z.div_pos; lia|]. apply Z.div_le_upper_bound; nia. }
  unfold divide. rewrite (proj2 (Z.eqb_neq _ _)) by lia. unfold div64.
  rewrite Z.quot_div_nonneg, i64_small by (try apply is_i64_spec; z64; lia). split; [done|lia].
Qed.
Lemma modulo_pos x y : 0 <= x -> 0 < y -> modulo x y = OK (x mod y).
Proof.
  intros Hx Hy. unfold modulo, rem64. rewrite (proj2 (Z.eqb_neq _ _)) by lia.
  by rewrite Z.rem_mod_nonneg by lia.
Qed.

Section indexed_array.
Context (t : PrimitiveType) (ds : list Z) (dy : list bool) (l : Layout).
Context (Hm : IsPermutation (minor_to_major l) = true)
        (Hlm : length (minor_to_major l) = length ds)
        (Hfit : prod ds < two63).

#[local] Abbreviation s := (ArrayShape t (mkArrayState ds dy (Some l))).
#[local] Abbreviation m := (minor_to_major l).

Lemma layout_prod : prod (sel ds m) = prod ds.
Proof. apply prod_perm, sel_perm; [by apply IsPermutation_perm|done]. Qed.

Lemma layout_digits ix : Forall2 digit ds ix -> Forall2 digit (sel ds m) (sel ix m).
Proof.
  intros HF. apply sel_digits; [done|]. apply perm_in_range; [by apply IsPermutation_perm|done].
Qed.

Lemma Multidimensional_spec ix :
  Forall2 digit ds ix ->
  MultidimensionalIndexToLinearIndex s ix = OK (lin (sel ds m) (sel ix m)).
Proof.
  intros HF. pose proof (layout_digits _ HF) as HD.
  pose proof layout_prod as HP. pose proof (lin_bound _ _ HD) as HB.
  pose proof (perm_in_range ds m (proj1 (IsPermutation_perm _) Hm) Hlm) as HR.
  pose proof (Forall2_length _ _ _ HF) as Hlx.
  unfold MultidimensionalIndexToLinearIndex, MinorToMajor, shape_layout. simpl.
  unfold MultidimensionalIndexToLinearIndex_order.
  destruct m as [|m0 rest]; simpl in *; [done|].
  inversion_clear HR as [|? ? Hm0 HR']. inversion_clear HD as [|? ? ? ? Hd HD'].
  rewrite at_nth by (unfold Zlen in *; lia). simpl.
  pose proof (prod_pos _ (digits_pos _ _ HD')) as HPP. unfold digit in Hd.
  fold (sel ds rest) in *. fold (sel ix rest) in *.
  destruct (linear_loop t ds dy (Some l) ix rest m0 (nth (Z.to_nat m0) ix 0) 1)
    as (prev' & scale' & HE); try done; rewrite ?Z.mul_1_l in *; try lia.
  etransitivity; [apply (f_equal (fun x => x ≫= _)), HE|]. done.
Qed.

(** The loop that splits a linear index. *)
Lemma split_loop n l1 l2 :
  m = l1 ++ l2 -> 0 <= n < two63 -> Forall (fun e => 0 < e) ds ->
  forall multi, length multi = length ds ->
  exists multi' dv,
  foldM (fun '(multi_index, divisor) dim =>
             q ← divide n divisor;
             d ← dimension s dim;
             r ← modulo q d;
             multi_index ← set_at multi_index dim r;
             OK (multi_index, mul64 divisor d)) (multi, prod (sel ds l1)) l2
  = OK (multi', dv) /\ length multi' = length ds
  /\ (forall j, ~ j ∈ l2 -> idx multi' j = idx multi j)
  /\ (forall k j, l2 !! k = Some j ->
        idx multi' j = Some ((n / prod (sel ds (l1 ++ take k l2))) mod nth (Z.to_nat j) ds 0)).
Proof.
  intros Hml Hn Hpos. revert l1 Hml; induction l2 as [|j l2 IH]; intros l1 Hml multi Hl.
  { exists multi, (prod (sel ds l1)). done. }
  pose proof (perm_in_range ds m (proj1 (IsPermutation_perm _) Hm) Hlm) as HR.
  pose proof (is_perm_NoDup m (proj1 (IsPermutation_perm _) Hm)) as HN.
  rewrite Hml in HR, HN. apply Forall_app in HR as [HR1 HR2].
  inversion_clear HR2 as [|? ? Hj HR2'].
  assert (HP1 : forall l', Forall (fun j => 0 <= j < Zlen ds) l' -> 0 < prod (sel ds l')).
  { intros l' Hl'. apply prod_pos. clear -Hl' Hpos. induction Hl'; simpl; constructor; [|done].
    rewrite nth_lookup. unfold Zlen in *. destruct (lookup_lt_is_Some_2 ds (Z.to_nat x)) as [e He]; [lia|].
    rewrite He. by eapply (proj1 (Forall_lookup _ _) Hpos). }
  assert (HPj : 0 < prod (sel ds [j])) by (apply HP1, Forall_singleton, Hj).
  simpl in HPj. rewrite Z.mul_1_r in HPj.
  assert (Hsplit : prod (sel ds (l1 ++ [j])) * prod (sel ds l2) = prod ds).
  { rewrite <- layout_prod, Hml. unfold sel. rewrite !map_app, !prod_app. simpl. ring. }
  assert (Hl1j : prod (sel ds (l1 ++ [j])) = prod (sel ds l1) * nth (Z.to_nat j) ds 0).
  { unfold sel. rewrite map_app, prod_app. simpl. ring. }
  pose proof (HP1 l1 HR1). pose proof (HP1 l2 HR2').
  pose proof (Z.mul_pos_pos _ _ H HPj) as H1j.
  assert (Hfit1 : prod (sel ds l1) * nth (Z.to_nat j) ds 0 < two63) by nia.
  destruct (divide_pos n (prod (sel ds l1)) Hn ltac:(lia)) as [Hdiv Hq].
  pose proof (modulo_pos (n / prod (sel ds l1)) (nth (Z.to_nat j) ds 0) ltac:(lia) ltac:(lia)) as Hmod.
  set (r := (n / prod (sel ds l1)) mod nth (Z.to_nat j) ds 0).
  assert (Hset : set_at multi j r = OK (<[Z.to_nat j := r]> multi)).
  { apply set_at_OK. unfold Zlen in *. split; [lia|done]. }
  destruct (IH (l1 ++ [j])) with (multi := <[Z.to_nat j := r]> multi)
    as (multi' & dv & HE & Hl' & Hout & Hin).
  { by rewrite <- app_assoc. } { by rewrite length_insert. }
  apply NoDup_app in HN as (_ & _ & HN%NoDup_cons). destruct HN as [Hjl2 _].
  exists multi', dv. split.
  { cbn [foldM]. rewrite Hdiv. cbn [mbind outcome_bind]. rewrite dimension_nth by done.
    cbn [mbind outcome_bind]. rewrite Hmod. cbn [mbind outcome_bind].
    fold r. rewrite Hset. cbn [mbind outcome_bind]. rewrite mul64_fits, <- Hl1j by lia. exact HE. }
  split; [done|]. split.
  - intros j' Hj'. rewrite Hout by set_solver. apply option_eq. intros x.
    rewrite !idx_Some. destruct (decide (0 <= j')); [|lia].
    rewrite list_lookup_insert_ne; [done|]. assert (j <> j') by set_solver. lia.
  - intros [|k] j' Hk; simpl in Hk.
    + injection Hk as <-. rewrite Hout by done. simpl. rewrite app_nil_r.
      apply idx_Some. split; [lia|]. apply list_lookup_insert_eq. unfold Zlen in *. lia.
    + rewrite (Hin _ _ Hk). simpl. by rewrite <- app_assoc.
Qed.
Lemma LinearIndex_spec n :
  Forall (fun e => 0 < e) ds -> 0 <= n < prod ds ->
  exists ix, LinearIndexToMultidimensionalIndex s n = OK ix
    /\ Forall2 digit ds ix /\ lin (sel ds m) (sel ix m) = n.
Proof.
  intros Hpos Hn.
  pose proof (proj1 (IsPermutation_perm _) Hm) as Hp.
  destruct (split_loop n [] m eq_refl ltac:(lia) Hpos (replicate (length ds) 0))
    as (ix & dv & HE & Hl & _ & Hk); [by rewrite length_replicate|].
  exists ix. split.
  { unfold LinearIndexToMultidimensionalIndex, dimensions, MinorToMajor, shape_layout.
    simpl. etransitivity; [apply (f_equal (fun x => x ≫= _)), HE|]. done. }
  assert (Hpos' : Forall (fun e => 0 < e) (sel ds m)) by (by rewrite (sel_perm ds m)).
  destruct (digits_of (sel ds m) n Hpos') as (vs & Hvs & Hlin); [by rewrite layout_prod|].
  assert (Hdig : Forall2 digit ds ix).
  { apply Forall2_same_length_lookup_2; [done|]. intros i d v Hd Hv.
    pose proof (lookup_lt_Some _ _ _ Hd) as Hi.
    assert (Hin : Z.of_nat i ∈ m) by (apply is_perm_surj; [done|unfold Zlen; lia]).
    apply list_elem_of_lookup in Hin as [k Hmk]. specialize (Hk _ _ Hmk).
    rewrite idx_of_nat, Hv in Hk. injection Hk as ->. rewrite Nat2Z.id, nth_lookup, Hd. simpl.
    unfold digit. apply Z.mod_pos_bound. by eapply (proj1 (Forall_lookup _ _) Hpos). }
  split; [done|]. rewrite <- Hlin. f_equal. apply list_eq. intros k.
  pose proof (Forall2_length _ _ _ Hvs) as Hlv. unfold sel in Hlv. rewrite length_map in Hlv.
  unfold sel at 1. rewrite list_lookup_fmap. destruct (m !! k) as [j|] eqn:Hj; simpl.
  - destruct (lookup_lt_is_Some_2 vs k) as [v Hv].
    { rewrite <- Hlv. by eapply lookup_lt_Some. }
    specialize (Hk _ _ Hj). apply idx_Some in Hk as [Hj0 Hk].
    rewrite nth_lookup, Hk, Hv. simpl. f_equal.
    assert (He : sel ds m !! k = Some (nth (Z.to_nat j) ds 0))
      by (unfold sel; by rewrite list_lookup_fmap, Hj).
    rewrite <- (lin_digit _ _ _ _ _ Hvs He Hv), Hlin. unfold sel. by rewrite firstn_map.
  - apply lookup_ge_None in Hj. rewrite lookup_ge_None_2 by lia. done.
Qed.
End indexed_array.

(** C34: under a valid layout, an index within the bounds of the shape
    has a linear index below the number of elements, computed without
    overflow, and LinearIndexToMultidimensionalIndex recovers the index. *)
Theorem linear_index_roundtrip (t : PrimitiveType) (ds : list Z) (dy : list bool) (l : Layout)
    (ix : list Z) :
  let s := ArrayShape t (mkArrayState ds dy (Some l)) in
  IsPermutation (minor_to_major l) = true -> length (minor_to_major l) = length ds ->
  prod ds < two63 -> Forall2 digit ds ix ->
  exists n, MultidimensionalIndexToLinearIndex s ix = OK n /\ 0 <= n < prod ds
    /\ LinearIndexToMultidimensionalIndex s n = OK ix.
Proof.
  intros s Hm Hl Hfit HF. subst s.
  rewrite (Multidimensional_spec t ds dy l Hm Hl Hfit) by done.
  pose proof (layout_digits ds l Hm Hl ix HF) as HD. pose proof (lin_bound _ _ HD) as HB.
  rewrite (layout_prod ds l Hm Hl) in HB.
  eexists. split; [done|]. split; [done|].
  destruct (LinearIndex_spec t ds dy l Hm Hl Hfit _ (digits_pos _ _ HF) HB) as (ix' & -> & HF' & He).
  f_equal. apply lin_inj in He; [|by apply layout_digits|done].
  apply (sel_inj _ _ (minor_to_major l)); [by apply IsPermutation_perm| | |done];
    rewrite Hl; symmetry; by eapply Forall2_length.
Qed.

Lemma linear_index_roundtrip_witness :
  exists n, MultidimensionalIndexToLinearIndex
      (ArrayShape F32 (mkArrayState [5; 8; 10] [false; false; false] (Some (MakeLayout [1; 2; 0]))))
      [4; 7; 3] = OK n /\ 0 <= n < prod [5; 8; 10]
    /\ LinearIndexToMultidimensionalIndex
      (ArrayShape F32 (mkArrayState [5; 8; 10] [false; false; false] (Some (MakeLayout [1; 2; 0])))) n
      = OK [4; 7; 3].
Proof.
  apply (linear_index_roundtrip F32 [5; 8; 10] [false; false; false] (MakeLayout [1; 2; 0]));
    [reflexivity..|]. repeat constructor; discriminate.
Defined.

(** conversely every linear index below the number of elements
    is the linear index of the multidimensional index it is split into, which
    is within bounds: the two conversions are inverse bijections. *)
Lemma linear_index_surjective (t : PrimitiveType) (ds : list Z) (dy : list bool) (l : Layout)
    (n : Z) :
  let s := ArrayShape t (mkArrayState ds dy (Some l)) in
  IsPermutation (minor_to_major l) = true -> length (minor_to_major l) = length ds ->
  prod ds < two63 -> Forall (fun d => 0 < d) ds -> 0 <= n < prod ds ->
  exists ix, LinearIndexToMultidimensionalIndex s n = OK ix /\ Forall2 digit ds ix
    /\ IndexInBounds s ix = OK true
    /\ MultidimensionalIndexToLinearIndex s ix = OK n.
Proof.
  intros s Hm Hl Hfit Hpos Hn. subst s.
  destruct (LinearIndex_spec t ds dy l Hm Hl Hfit n Hpos Hn) as (ix & HE & HF & Hlin).
  exists ix. split; [done|]. split; [done|]. split.
  - unfold IndexInBounds, dimensions. simpl.
    rewrite bool_decide_eq_true_2 by (by eapply Forall2_length). simpl. f_equal.
    clear -HF. unfold digit in HF. induction HF; simpl; [done|]. rewrite IHHF. lia.
  - rewrite (Multidimensional_spec t ds dy l Hm Hl Hfit) by done. by rewrite Hlin.
Qed.

Lemma linear_index_surjective_witness :
  exists ix, LinearIndexToMultidimensionalIndex
      (ArrayShape F32 (mkArrayState [2; 3] [false; false] (Some (MakeLayout [0; 1])))) 5 = OK ix
    /\ Forall2 digit [2; 3] ix
    /\ IndexInBounds (ArrayShape F32 (mkArrayState [2; 3] [false; false] (Some (MakeLayout [0; 1])))) ix
       = OK true
    /\ MultidimensionalIndexToLinearIndex
      (ArrayShape F32 (mkArrayState [2; 3] [false; false] (Some (MakeLayout [0; 1])))) ix = OK 5.
Proof.
  apply (linear_index_surjective F32 [2; 3] [false; false] (MakeLayout [0; 1]));
    [reflexivity..| |split; [discriminate|reflexivity]]. repeat constructor.
Defined.

(** ** Counting through the indices *)

Lemma lin_zeros es vs : Forall (fun v => v = 0) vs -> lin es vs = 0.
Proof.
  intros HF; revert es; induction HF as [|v vs -> HF IH]; intros [|e es]; simpl; try done.
  rewrite IH. lia.
Qed.

Lemma prod_rev es : prod (rev es) = prod es.
Proof. apply prod_perm. symmetry. apply Permutation_rev. Qed.

Lemma elem_le_prod es e : Forall (fun e => 0 < e) es -> e ∈ es -> e <= prod es.
Proof.
  induction 1 as [|e0 es He HF IH]; [by intros ?%not_elem_of_nil|].
  pose proof (prod_pos _ HF). intros [->|Hin]%elem_of_cons; simpl; [nia|].
  specialize (IH Hin). nia.
Qed.

Lemma sel_descending ds : sel ds (rev (seqZ 0 (Zlen ds))) = rev ds.
Proof.
  unfold sel. rewrite map_rev. f_equal. fold (indices ds). apply list_eq. intros k. rewrite list_lookup_fmap.
  destruct (decide (k < length ds)%nat) as [Hk|Hk].
  - rewrite (proj2 (idx_indices ds k (Z.of_nat k))) by done. simpl.
    rewrite Nat2Z.id, nth_lookup. by destruct (lookup_lt_is_Some_2 ds k Hk) as [x ->].
  - rewrite !lookup_ge_None_2; [done|lia|rewrite length_indices; lia].
Qed.

Lemma digits_rev es vs : Forall2 digit es vs -> Forall2 digit (rev es) (rev vs).
Proof.
  induction 1; simpl; [constructor|]. apply Forall2_app; [done|]. by constructor.
Qed.

(** Reading position [length D] of a concatenation. *)
Lemma at_middle {A} (D E : list A) x : at_ (D ++ x :: E) (Z.of_nat (length D)) = OK x.
Proof.
  apply at_OK. rewrite idx_of_nat, lookup_app_r by lia. by rewrite Nat.sub_diag.
Qed.

Lemma lin_snoc D d E ix x iy :
  length D = length ix -> length E = length iy ->
  lin (rev (D ++ d :: E)) (rev (ix ++ x :: iy))
  = lin (rev E) (rev iy) + prod E * (x + d * lin (rev D) (rev ix)).
Proof.
  intros HD HE. rewrite !rev_app_distr. simpl.
  rewrite <- !app_assoc, lin_app by (rewrite !length_rev; lia).
  rewrite prod_rev. simpl. done.
Qed.

(** The loop of BumpIndices below a suffix of maxed-out positions. *)
Lemma Bump_loop t dy lo D ix :
  Forall2 digit D ix -> forall E iy, Forall2 digit E iy ->
  prod (D ++ E) < two63 -> lin (rev E) (rev iy) = prod E - 1 ->
  exists out b,
    BumpIndices_from (ArrayShape t (mkArrayState (D ++ E) dy lo)) (ix ++ iy) (length ix)
      = OK (out, b)
    /\ (if b then Forall2 digit (D ++ E) out
               /\ lin (rev (D ++ E)) (rev out) = lin (rev (D ++ E)) (rev (ix ++ iy)) + 1
        else lin (rev (D ++ E)) (rev (ix ++ iy)) = prod (D ++ E) - 1).
Proof.
  revert ix. induction D as [|d D IH] using rev_ind; intros ix HF E iy HE Hfit Hmax.
  { inversion HF; subst. simpl. eauto. }
  apply Forall2_app_inv_l in HF as (ix' & ix'' & HF & Hd & ->).
  apply Forall2_cons_inv_l in Hd as (x & ix3 & Hd & Hnil & ->).
  apply Forall2_nil_inv_l in Hnil as ->.
  rewrite <- !app_assoc in *. simpl in *. rewrite length_app. simpl. rewrite Nat.add_1_r. cbn [BumpIndices_from].
  pose proof (Forall2_length _ _ _ HF) as HlD. pose proof (Forall2_length _ _ _ HE) as HlE.
  assert (Hdig : Forall2 digit (D ++ d :: E) (ix' ++ x :: iy))
    by (apply Forall2_app; [done|by constructor]).
  assert (Hd63 : d < two63).
  { eapply Z.le_lt_trans; [|exact Hfit]. apply elem_le_prod; [by eapply digits_pos|set_solver]. }
  unfold dimension. simpl.
  assert (at_ (D ++ d :: E) (Z.of_nat (length ix')) = OK d) as ->
    by (rewrite <- HlD; apply at_middle). simpl.
  rewrite at_middle. simpl. unfold digit in Hd. rewrite add64_fits by (z64; lia).
  pose proof (lin_snoc D d E ix' x iy HlD HlE) as Hlin.
  destruct (Z.ltb_spec (x + 1) d) as [Hlt|Hge].
  - rewrite take_app_length. rewrite length_app. simpl.
    assert (length ix' + S (length iy) - S (length ix') = length iy)%nat as -> by lia.
    do 2 eexists. split; [done|]. split.
    + apply Forall2_app; [done|]. constructor; [unfold digit; lia|].
      apply Forall2_same_length_lookup_2; [by rewrite length_replicate|].
      intros i e v He [-> _]%lookup_replicate.
      destruct (Forall2_lookup_l _ _ _ _ _ HE He) as (w & _ & Hw). unfold digit in *. lia.
    + rewrite lin_snoc by (rewrite ?length_replicate; done).
      rewrite Hlin, Hmax, (lin_zeros _ (rev (replicate _ 0))); [ring|].
      rewrite <- Permutation_rev. by apply Forall_replicate.
  - assert (Hx : x = d - 1) by lia.
    destruct (IH ix' HF (d :: E) (x :: iy)) as (out & b & Hout & Hb).
    { by constructor. } { done. }
    { simpl rev. rewrite lin_app by (rewrite !length_rev; lia). rewrite Hmax, prod_rev. simpl.
      rewrite Hx. ring. }
    exists out, b. done.
Qed.

(** Under the descending layout the linear index is the row-major number. *)
Lemma row_major_spec t ds dy iz :
  prod ds < two63 -> Forall2 digit ds iz ->
  MultidimensionalIndexToLinearIndex (array_shape t ds dy) iz = OK (lin (rev ds) (rev iz)).
Proof.
  intros Hfit Hz. unfold array_shape.
  assert (Hm : IsPermutation (minor_to_major (MakeDescendingLayout (Zlen ds))) = true)
    by (apply IsPermutation_perm, is_perm_descending).
  assert (Hl : length (minor_to_major (MakeDescendingLayout (Zlen ds))) = length ds)
    by (simpl; rewrite length_rev, length_seqZ; unfold Zlen; lia).
  rewrite (Multidimensional_spec t ds dy _ Hm Hl Hfit) by done. f_equal. simpl.
  rewrite sel_descending. f_equal.
  assert (Zlen ds = Zlen iz) as -> by (unfold Zlen; f_equal; by eapply Forall2_length).
  apply sel_descending.
Qed.

(** BumpIndices is the successor function of the row-major numbering
    of the elements: on an index within bounds it returns true and the index of
    the next element, or false exactly at the last element. *)
Lemma BumpIndices_successor (t : PrimitiveType) (ds ix : list Z) (dy : list bool) :
  let s := array_shape t ds dy in
  prod ds < two63 -> Forall2 digit ds ix ->
  exists n out b,
    MultidimensionalIndexToLinearIndex s ix = OK n
    /\ BumpIndices s ix = OK (out, b)
    /\ b = negb (n =? prod ds - 1)
    /\ (b = true -> Forall2 digit ds out /\ MultidimensionalIndexToLinearIndex s out = OK (n + 1)).
Proof.
  intros s Hfit HF. subst s.
  destruct (Bump_loop t dy (Some (MakeDescendingLayout (Zlen ds))) ds ix HF [] [])
    as (out & b & Hout & Hb); try rewrite !app_nil_r in *; [constructor|done|done|].
  exists (lin (rev ds) (rev ix)), out, b. split; [by apply row_major_spec|]. split; [exact Hout|].
  destruct b.
  - destruct Hb as [Hdig Hb]. split; [|intros _; split; [done|by rewrite row_major_spec, Hb]].
    pose proof (digits_rev _ _ Hdig) as Hbd.
    apply lin_bound in Hbd. rewrite prod_rev in Hbd. lia.
  - split; [|done]. lia.
Qed.

Lemma BumpIndices_successor_witness :
  exists n out b,
    MultidimensionalIndexToLinearIndex (array_shape S32 [2; 3] [false; false]) [0; 2] = OK n
    /\ BumpIndices (array_shape S32 [2; 3] [false; false]) [0; 2] = OK (out, b)
    /\ b = negb (n =? prod [2; 3] - 1)
    /\ (b = true -> Forall2 digit [2; 3] out
        /\ MultidimensionalIndexToLinearIndex (array_shape S32 [2; 3] [false; false]) out = OK (n + 1)).
Proof.
  apply (BumpIndices_successor S32 [2; 3] [0; 2] [false; false]); [reflexivity|].
  repeat constructor; discriminate.
Defined.

(** ** Comparison *)

Lemma CompareIndices_lin ds ix iy :
  Forall2 digit ds ix -> Forall2 digit ds iy ->
  Z.sgn (lin (rev ds) (rev ix) - lin (rev ds) (rev iy)) = CompareIndices_loop ix iy.
Proof.
  intros HX; revert iy. induction HX as [|d x ds ix Hx HX IH]; intros iy HY.
  { by inversion HY. }
  inversion HY as [|? y ? iy' Hy HY']; subst. specialize (IH _ HY').
  apply Forall2_length in HX as Hl1. apply Forall2_length in HY' as Hl2.
  simpl. rewrite !lin_app by (rewrite !length_rev; lia). simpl. rewrite prod_rev.
  pose proof (lin_bound _ _ (digits_rev _ _ HX)) as B1.
  pose proof (lin_bound _ _ (digits_rev _ _ HY')) as B2. rewrite prod_rev in B1, B2.
  unfold digit in *. destruct (Z.ltb_spec x y); [apply Z.sgn_neg; nia|].
  destruct (Z.ltb_spec y x); [apply Z.sgn_pos; nia|]. rewrite <- IH. f_equal. nia.
Qed.

(** for indices within bounds CompareIndices is the sign of the
    difference of their row-major element numbers: negative when the left index
    comes first (the header documents the opposite sign). *)
Lemma CompareIndices_row_major (t : PrimitiveType) (ds ix iy : list Z) (dy : list bool) :
  prod ds < two63 -> Forall2 digit ds ix -> Forall2 digit ds iy ->
  exists n m,
    MultidimensionalIndexToLinearIndex (array_shape t ds dy) ix = OK n
    /\ MultidimensionalIndexToLinearIndex (array_shape t ds dy) iy = OK m
    /\ CompareIndices ix iy = OK (Z.sgn (n - m)).
Proof.
  intros Hfit HX HY.
  exists (lin (rev ds) (rev ix)), (lin (rev ds) (rev iy)).
  rewrite !row_major_spec by done. split; [done|]. split; [done|].
  unfold CompareIndices.
  rewrite bool_decide_eq_true_2 by (apply Forall2_length in HX, HY; lia). simpl.
  by rewrite (CompareIndices_lin ds).
Qed.

Lemma CompareIndices_row_major_witness :
  exists n m,
    MultidimensionalIndexToLinearIndex (array_shape F32 [2; 3] [false; false]) [0; 2] = OK n
    /\ MultidimensionalIndexToLinearIndex (array_shape F32 [2; 3] [false; false]) [1; 0] = OK m
    /\ CompareIndices [0; 2] [1; 0] = OK (Z.sgn (n - m)).
Proof.
  apply (CompareIndices_row_major F32 [2; 3] [0; 2] [1; 0] [false; false]); [reflexivity| |];
    repeat constructor; discriminate.
Defined.

(** StridedBound is the number of window placements: offset q * stride
    is a placement exactly when the window [q * stride, q * stride + size) lies
    within the bound, for all arguments that pass its CHECKs. *)
Lemma StridedBound_counts (bound window_size stride : Z) :
  0 <= window_size -> 0 < bound < two63 - 1 -> 1 <= stride ->
  exists n, StridedBound bound window_size stride = OK n /\ 0 <= n
    /\ forall q, 0 <= q -> (q < n <-> q * stride + window_size <= bound).
Proof.
  intros Hw Hb Hs. unfold StridedBound.
  rewrite (proj2 (Z.leb_le _ _)), (proj2 (Z.leb_le _ _)), (proj2 (Z.leb_le _ _)) by lia. simpl.
  rewrite (proj2 (Z.eqb_neq _ _)) by lia. simpl.
  destruct (Z.ltb_spec bound window_size).
  { exists 0. split; [done|]. split; [done|]. intros q Hq. nia. }
  assert (Hq0 : 0 <= (bound - window_size) / stride <= bound).
  { split; [apply Z.div_pos; lia|]. apply Z.div_le_upper_bound; nia. }
  unfold div64, sub64. rewrite (i64_small (bound - window_size)) by (apply is_i64_spec; z64; lia).
  rewrite Z.quot_div_nonneg by lia. rewrite i64_small by (apply is_i64_spec; z64; lia).
  rewrite add64_fits by lia.
  eexists. split; [done|]. split; [lia|]. intros q Hq.
  split.
  - intros Hlt. assert (q <= (bound - window_size) / stride) by lia.
    pose proof (Z.mul_div_le (bound - window_size) stride). nia.
  - intros Hle. enough (q <= (bound - window_size) / stride) by lia.
    apply Z.div_le_lower_bound; lia.
Qed.

Lemma StridedBound_counts_witness :
  exists n, StridedBound 10 3 2 = OK n /\ 0 <= n
    /\ forall q, 0 <= q -> (q < n <-> q * 2 + 3 <= 10).
Proof. apply (StridedBound_counts 10 3 2); [discriminate|split; reflexivity|discriminate]. Defined.
