(* ===== verification/Util.v ===== *)
(** * Factorings of dimension lists

    xla/util.cc: Product, CommonFactors and ConvertDimensionNumbers, which
    relate the dimensions before and after a reshape. *)

From stdpp Require Import sorting.
From S2P Require Import Prelude MachineInt Primitive Shape ShapeUtil IndexUtil.

Definition Product (xs : list Z) : Z := foldl mul64 1 xs.

(** [a.subspan(i)]. *)
Definition subspan (a : list Z) (i : Z) : list Z := drop (Z.to_nat i) a.

(** The loop over the common prefix: the pairs (i, i) it emits and the prior
    pair. *)
Fixpoint CommonPrefix (fuel : nat) (a b : list Z) (i j prior_i prior_j : Z)
    (bounds : list (Z * Z)) : Z * Z * Z * Z * list (Z * Z) :=
  match fuel with
  | O => (i, j, prior_i, prior_j, bounds)
  | S fuel =>
      match idx a i, idx b j with
      | Some x, Some y =>
          if x =? y
          then CommonPrefix fuel a b (i + 1) (j + 1) i j (bounds ++ [(i, j)])
          else (i, j, prior_i, prior_j, bounds)
      | _, _ => (i, j, prior_i, prior_j, bounds)
      end
  end.

(** The merge loop.  Reading past the end of a list aborts. *)
Fixpoint CommonFactors_loop (fuel : nat) (a b : list Z) (i j prior_i prior_j : Z)
    (partial_size_a partial_size_b : Z) (bounds : list (Z * Z)) : outcome (list (Z * Z)) :=
  match fuel with
  | O => NoFuel
  | S fuel =>
      if (partial_size_a =? partial_size_b) && ((prior_i <? i) || (prior_j <? j)) then
        CommonFactors_loop fuel a b i j i j partial_size_a partial_size_b (bounds ++ [(i, j)])
      else
        let in_bounds_i := i <? Zlen a in
        let in_bounds_j := j <? Zlen b in
        if negb (in_bounds_i || in_bounds_j) then OK bounds
        else
          (* a[i] <= b[j] is evaluated only where both are in bounds *)
          let le_ij := match idx a i, idx b j with Some x, Some y => x <=? y | _, _ => false end in
          let le_ji := match idx a i, idx b j with Some x, Some y => y <=? x | _, _ => false end in
          let next_a := (partial_size_a <? partial_size_b)
            || (in_bounds_i && (negb in_bounds_j
                                || ((partial_size_a =? partial_size_b) && le_ij))) in
          let next_b := (partial_size_b <? partial_size_a)
            || (in_bounds_j && (negb in_bounds_i
                                || ((partial_size_b =? partial_size_a) && le_ji))) in
          pa ← (if next_a then x ← at_ a i; OK (mul64 partial_size_a x) else OK partial_size_a);
          pb ← (if next_b then y ← at_ b j; OK (mul64 partial_size_b y) else OK partial_size_b);
          CommonFactors_loop fuel a b (if next_a then i + 1 else i) (if next_b then j + 1 else j)
            prior_i prior_j pa pb bounds
  end.

Definition CommonFactors (a b : list Z) : outcome (list (Z * Z)) :=
  _ ← check (Product a =? Product b);
  if bool_decide (a = b) then OK (map (fun i => (i, i)) (seqZ 0 (Zlen a + 1)))
  else
    let '(i, j, prior_i, prior_j, bounds) :=
      CommonPrefix (length a) a b 0 0 (-1) (-1) [] in
    if negb (Product (subspan a i) =? Product (subspan b j)) then OK [(0, 0); (Zlen a, Zlen b)]
    else if 0 =? Product (subspan a i) then OK (bounds ++ [(i, j); (Zlen a, Zlen b)])
    else CommonFactors_loop (2 * (length a + length b) + 2) a b i j prior_i prior_j 1 1 bounds.

(** ** ConvertDimensionNumbers *)

Record ConvertedDimensionNumbers := mkConverted {
  transformed_from_dimensions : list Z;
  untransformed_from_dimensions : list Z;
  to_dimensions : list Z;
  split_from_dimensions : list Z;
  split_from_sizes : list Z;
  split_to_dimensions : list Z;
}.

(** The backward loop over the to-dimensions of a group; [n] counts the
    dimensions left.  The quotient, whether a dimension was taken, and the
    dimensions taken. *)
Fixpoint SplitToDims (to_sizes : list Z) (first : Z) (n : nat) (from_size : Z) (taken : list Z) :
    outcome (Z * list Z) :=
  match n with
  | O => OK (from_size, taken)
  | S n =>
      let to_dim := first + Z.of_nat n in
      to_size ← at_ to_sizes to_dim;
      r ← modulo from_size to_size;
      if r =? 0 then
        q ← divide from_size to_size;
        SplitToDims to_sizes first n q (taken ++ [to_dim])
      else OK (from_size, taken)
  end.

(** One group of the common factors. *)
Definition ConvertGroup (from_dimensions from_sizes to_sizes : list Z)
    (dn : ConvertedDimensionNumbers) (group : (Z * Z) * (Z * Z)) :
    outcome ConvertedDimensionNumbers :=
  let '((f0, t0), (f1, t1)) := group in
  let from_group := seqZ f0 (f1 - f0) in
  let any_present := existsb (contains from_dimensions) from_group in
  let all_present := forallb (contains from_dimensions) from_group in
  if all_present then
    OK (mkConverted (transformed_from_dimensions dn ++ from_group)
          (untransformed_from_dimensions dn) (to_dimensions dn ++ seqZ t0 (t1 - t0))
          (split_from_dimensions dn) (split_from_sizes dn) (split_to_dimensions dn))
  else if any_present then
    dn ← (if (f0 + 2 =? f1) && contains from_dimensions (f0 + 1) then
            from_size ← at_ from_sizes (f1 - 1);
            p ← SplitToDims to_sizes t0 (Z.to_nat (t1 - t0)) from_size [];
            let '(from_size, taken) := p in
            let has_to_dim := negb (bool_decide (taken = [])) in
            OK (mkConverted (transformed_from_dimensions dn) (untransformed_from_dimensions dn)
                  (to_dimensions dn ++ taken)
                  (if has_to_dim then split_from_dimensions dn ++ [f0 + 1]
                   else split_from_dimensions dn)
                  (if has_to_dim then split_from_sizes dn ++ [from_size] else split_from_sizes dn)
                  (split_to_dimensions dn))
          else OK dn);
    OK (mkConverted (transformed_from_dimensions dn)
          (untransformed_from_dimensions dn
           ++ filter (fun d => contains from_dimensions d = true) from_group)
          (to_dimensions dn) (split_from_dimensions dn) (split_from_sizes dn)
          (split_to_dimensions dn))
  else OK dn.

Definition ConvertDimensionNumbers (from_dimensions from_sizes to_sizes : list Z) :
    outcome ConvertedDimensionNumbers :=
  common_factors ← CommonFactors from_sizes to_sizes;
  dn ← foldM (ConvertGroup from_dimensions from_sizes to_sizes)
             (mkConverted [] [] [] [] [] []) (zip common_factors (drop 1 common_factors));
  OK (mkConverted (transformed_from_dimensions dn) (untransformed_from_dimensions dn)
        (merge_sort Z.le (to_dimensions dn)) (split_from_dimensions dn) (split_from_sizes dn)
        (split_to_dimensions dn)).

Example CommonFactors_example :
  CommonFactors [2; 3; 4; 5] [6; 2; 10] = OK [(0, 0); (2, 1); (4, 3)].
Proof. reflexivity. Qed.

(** ** Segments of a list and their products *)

Definition seg (l : list Z) (i k : Z) : list Z := take (Z.to_nat (k - i)) (drop (Z.to_nat i) l).

Lemma seg_nil l i : seg l i i = [].
Proof. unfold seg. by rewrite Z.sub_diag. Qed.

Lemma seg_snoc l i k x :
  0 <= i <= k -> idx l k = Some x -> prod (seg l i (k + 1)) = prod (seg l i k) * x.
Proof.
  intros Hi [_ Hx]%idx_Some. unfold seg.
  replace (Z.to_nat (k + 1 - i)) with (S (Z.to_nat (k - i))) by lia.
  rewrite (take_S_r _ _ x).
  - rewrite prod_app. simpl. lia.
  - rewrite lookup_drop. by replace (Z.to_nat i + Z.to_nat (k - i))%nat with (Z.to_nat k) by lia.
Qed.

Lemma seg_rest l i : seg l i (Zlen l) = subspan l i.
Proof. unfold seg, subspan, Zlen. apply take_ge. rewrite length_drop. lia. Qed.

Lemma subspan_cons l i x : 0 <= i -> idx l i = Some x -> subspan l i = x :: subspan l (i + 1).
Proof.
  intros Hi [_ Hx]%idx_Some. unfold subspan. rewrite (drop_S _ x) by done. f_equal. f_equal. lia.
Qed.

Lemma subspan_end l i : Zlen l <= i -> subspan l i = [].
Proof. intros Hi. unfold subspan, Zlen in *. apply drop_ge. lia. Qed.

Lemma idx_in_range {A} (l : list A) i : 0 <= i < Zlen l -> exists x, idx l i = Some x.
Proof. intros Hi. destruct (at_in_range l i Hi) as [x Hx]. exists x. by apply at_OK. Qed.

Lemma idx_end {A} (l : list A) i : Zlen l <= i -> idx l i = None.
Proof.
  intros Hi. unfold idx, Zlen in *. destruct (Z.leb_spec 0 i); [|done].
  apply lookup_ge_None_2. lia.
Qed.

Lemma idx_bound {A} (l : list A) i x : idx l i = Some x -> 0 <= i < Zlen l.
Proof. intros H. apply (at_bound l i x), at_OK, H. Qed.

(** The product of int64_t values that all stay in range. *)
Lemma Product_loop l p :
  0 <= p -> Forall (fun x => 0 <= x) l ->
  (forall k, p * prod (take k l) < two63) -> foldl mul64 p l = p * prod l.
Proof.
  intros Hp HF; revert p Hp. induction HF as [|x l Hx HF IH]; intros p Hp Hk; simpl; [lia|].
  assert (Hpx : p * x < two63) by (specialize (Hk 1%nat); simpl in Hk; lia).
  rewrite mul64_fits by lia. rewrite IH; [lia|nia|].
  intros k. specialize (Hk (S k)). simpl in Hk. lia.
Qed.

Lemma prod_nonneg l : Forall (fun x => 0 <= x) l -> 0 <= prod l.
Proof. induction 1; simpl; [lia|]. nia. Qed.

Lemma prod_take_le l k : Forall (fun x => 0 < x) l -> prod (take k l) <= prod l.
Proof.
  intros HF; revert k. induction HF as [|x l Hx HF IH]; intros [|k]; simpl; try lia.
  - pose proof (prod_pos _ HF). nia.
  - specialize (IH k). nia.
Qed.

Lemma Product_pos l :
  Forall (fun x => 0 < x) l -> prod l < two63 -> Product l = prod l.
Proof.
  intros HF Hb. unfold Product. rewrite Product_loop; [lia|lia| |].
  - eapply Forall_impl; [exact HF|]. simpl. lia.
  - intros k. pose proof (prod_take_le l k HF). lia.
Qed.

(** ** Chains of factor groups

    [factor_chain a b p bs q]: the pairs [p :: bs] are strictly increasing, end
    in [q], and between neighbours the two lists have equal products. *)
Fixpoint factor_chain (a b : list Z) (p : Z * Z) (bs : list (Z * Z)) (q : Z * Z) : Prop :=
  match bs with
  | [] => p = q
  | p' :: bs =>
      p.1 <= p'.1 /\ p.2 <= p'.2 /\ p <> p'
      /\ prod (seg a (p.1) (p'.1)) = prod (seg b (p.2) (p'.2))
      /\ factor_chain a b p' bs q
  end.

Lemma factor_chain_snoc a b p bs q r :
  factor_chain a b p bs q ->
  q.1 <= r.1 -> q.2 <= r.2 -> q <> r -> prod (seg a (q.1) (r.1)) = prod (seg b (q.2) (r.2)) ->
  factor_chain a b p (bs ++ [r]) r.
Proof.
  revert p; induction bs as [|p' bs IH]; intros p; simpl.
  - intros ->. auto.
  - intros (? & ? & ? & ? & ?). auto 10.
Qed.

(** The loop invariant after the first emitted pair: [P] is the product both
    partial sizes had at the last pair. *)
Record loop_inv (a b : list Z) (i j pi pj pa pb T : Z) : Prop := {
  li_i : 0 <= pi <= i /\ i <= Zlen a;
  li_j : 0 <= pj <= j /\ j <= Zlen b;
  li_pos_a : Forall (fun x => 0 < x) (subspan a i);
  li_pos_b : Forall (fun x => 0 < x) (subspan b j);
  li_a : 0 < pa /\ pa * prod (subspan a i) = T;
  li_b : 0 < pb /\ pb * prod (subspan b j) = T;
  li_P : exists P, 0 < P /\ P * prod (seg a pi i) = pa /\ P * prod (seg b pj j) = pb;
}.

Definition loop_measure (a b : list Z) (i j pi pj : Z) : Z :=
  2 * ((Zlen a - i) + (Zlen b - j))
  + (if (pi <? i) || (pj <? j) then 1 else 0).

Lemma step_a a i j pi pj b pa pb T x :
  loop_inv a b i j pi pj pa pb T -> T < two63 -> idx a i = Some x ->
  mul64 pa x = pa * x /\ loop_inv a b (i + 1) j pi pj (pa * x) pb T.
Proof.
  intros [Hi Hj Hpa Hpb [Ha Ta] Hb (P & HP & HPa & HPb)] HT Hx.
  pose proof (idx_bound _ _ _ Hx) as Hr.
  rewrite (subspan_cons a i x) in Hpa, Ta by (lia || done).
  inversion_clear Hpa as [|? ? Hx0 Hpa']. simpl in Ta.
  pose proof (prod_pos _ Hpa') as Hpp.
  assert (Hle : pa * x <= T) by nia.
  split; [apply mul64_fits; nia|]. split; [lia|lia|done|done|split; [nia|lia]|done|].
  exists P. split; [done|]. split; [|done]. rewrite (seg_snoc a pi i x) by (lia || done). nia.
Qed.

Lemma loop_inv_sym a b i j pi pj pa pb T :
  loop_inv a b i j pi pj pa pb T -> loop_inv b a j i pj pi pb pa T.
Proof.
  intros [Hi Hj Hpa Hpb Ha Hb (P & HP & HPa & HPb)]. constructor; try done. eauto.
Qed.

(** A side that is behind has elements left. *)
Lemma behind_in_bounds a b i j pi pj pa pb T :
  loop_inv a b i j pi pj pa pb T -> pa < pb -> i < Zlen a.
Proof.
  intros [Hi Hj Hpa Hpb [Ha Ta] [Hb Tb] _] Hlt.
  destruct (Z.lt_ge_cases i (Zlen a)) as [|Hge]; [done|].
  rewrite (subspan_end a i) in Ta by done. simpl in Ta. pose proof (prod_pos _ Hpb). nia.
Qed.

Lemma step_b a i j pi pj b pa pb T y :
  loop_inv a b i j pi pj pa pb T -> T < two63 -> idx b j = Some y ->
  mul64 pb y = pb * y /\ loop_inv a b i (j + 1) pi pj pa (pb * y) T.
Proof.
  intros HI%loop_inv_sym HT Hy. destruct (step_a _ _ _ _ _ _ _ _ _ _ HI HT Hy) as [? ?].
  split; [done|]. by apply loop_inv_sym.
Qed.

(** What the body of the loop does when it does not emit a pair. *)
Lemma CommonFactors_step a b i j pi pj pa pb T :
  loop_inv a b i j pi pj pa pb T -> T < two63 ->
  (i <? Zlen a) || (j <? Zlen b) = true ->
  exists i' j' pa' pb',
    loop_inv a b i' j' pi pj pa' pb' T /\ i <= i' /\ j <= j' /\ i + j < i' + j'
    /\ forall fuel bs,
       (pa =? pb) && ((pi <? i) || (pj <? j)) = false ->
       CommonFactors_loop (S fuel) a b i j pi pj pa pb bs
       = CommonFactors_loop fuel a b i' j' pi pj pa' pb' bs.
Proof.
  intros HI HT Hin. pose proof HI as [Hi Hj _ _ _ _ _].
  destruct (Z.ltb_spec i (Zlen a)) as [Hia|Hia], (Z.ltb_spec j (Zlen b)) as [Hjb|Hjb];
    try discriminate Hin.
  - destruct (idx_in_range a i ltac:(lia)) as [x Hx]. destruct (idx_in_range b j ltac:(lia)) as [y Hy].
    destruct (step_a _ _ _ _ _ _ _ _ _ _ HI HT Hx) as [Hma HIa].
    destruct (step_b _ _ _ _ _ _ _ _ _ _ HI HT Hy) as [Hmb HIb].
    destruct (step_b _ _ _ _ _ _ _ _ _ _ HIa HT Hy) as [_ HIab].
    set (go_a := (pa <? pb) || ((pa =? pb) && (x <=? y))).
    set (go_b := (pb <? pa) || ((pa =? pb) && (y <=? x))).
    exists (if go_a then i + 1 else i), (if go_b then j + 1 else j),
           (if go_a then pa * x else pa), (if go_b then pb * y else pb).
    assert (Hgo : go_a || go_b = true).
    { unfold go_a, go_b. destruct (Z.ltb_spec pa pb), (Z.ltb_spec pb pa), (Z.eqb_spec pa pb),
        (Z.leb_spec x y), (Z.leb_spec y x); try done; lia. }
    split; [|split; [|split; [|split]]].
    + destruct go_a, go_b; done.
    + destruct go_a; lia.
    + destruct go_b; lia.
    + destruct go_a, go_b; try done; lia.
    + intros fuel bs Hc. cbn [CommonFactors_loop]. rewrite Hc, Hx, Hy.
      rewrite (proj2 (Z.ltb_lt i _)), (proj2 (Z.ltb_lt j _)) by done. simpl orb. cbv iota.
      rewrite (proj2 (at_OK _ _ _) Hx), (proj2 (at_OK _ _ _) Hy).
      rewrite (Z.eqb_sym pb pa). cbn [andb negb orb].
      fold go_a. fold go_b. destruct go_a, go_b; simpl; rewrite ?Hma, ?Hmb; done.
  - destruct (idx_in_range a i ltac:(lia)) as [x Hx].
    destruct (step_a _ _ _ _ _ _ _ _ _ _ HI HT Hx) as [Hma HIa].
    exists (i + 1), j, (pa * x), pb. split; [done|]. split; [lia|]. split; [lia|]. split; [lia|].
    intros fuel bs Hc. cbn [CommonFactors_loop]. rewrite Hc.
    rewrite (proj2 (Z.ltb_lt i _)), (proj2 (Z.ltb_ge j _)) by done. simpl orb. cbv iota.
    assert ((pb <? pa) = false) as ->.
    { apply Z.ltb_ge. destruct (Z.lt_ge_cases pb pa) as [Hlt|]; [|done].
      pose proof (behind_in_bounds _ _ _ _ _ _ _ _ _ (loop_inv_sym _ _ _ _ _ _ _ _ _ HI) Hlt). lia. }
    rewrite (proj2 (at_OK _ _ _) Hx). simpl. rewrite orb_true_r, Hma. done.
  - destruct (idx_in_range b j ltac:(lia)) as [y Hy].
    destruct (step_b _ _ _ _ _ _ _ _ _ _ HI HT Hy) as [Hmb HIb].
    exists i, (j + 1), pa, (pb * y). split; [done|]. split; [lia|]. split; [lia|]. split; [lia|].
    intros fuel bs Hc. cbn [CommonFactors_loop]. rewrite Hc.
    rewrite (proj2 (Z.ltb_ge i _)), (proj2 (Z.ltb_lt j _)) by done. simpl orb. cbv iota.
    assert ((pa <? pb) = false) as ->.
    { apply Z.ltb_ge. destruct (Z.lt_ge_cases pa pb) as [Hlt|]; [|done].
      pose proof (behind_in_bounds _ _ _ _ _ _ _ _ _ HI Hlt). lia. }
    rewrite (proj2 (at_OK _ _ _) Hy). simpl. rewrite orb_true_r, Hmb. done.
Qed.

Lemma CommonFactors_loop_ok a b T fuel : forall i j pi pj pa pb p0 bs,
  loop_inv a b i j pi pj pa pb T -> T < two63 ->
  factor_chain a b p0 bs (pi, pj) ->
  loop_measure a b i j pi pj < Z.of_nat fuel ->
  exists out, CommonFactors_loop fuel a b i j pi pj pa pb (p0 :: bs) = OK (p0 :: out)
    /\ factor_chain a b p0 out (Zlen a, Zlen b).
Proof.
  induction fuel as [|fuel IH]; intros i j pi pj pa pb p0 bs HI HT HC Hm.
  { unfold loop_measure in Hm. destruct HI as [[_ ?] [_ ?] _ _ _ _ _]. destruct (_ || _); lia. }
  destruct ((pa =? pb) && ((pi <? i) || (pj <? j))) eqn:Hpush.
  - cbn [CommonFactors_loop]. rewrite Hpush. apply andb_true_iff in Hpush as [He%Z.eqb_eq Hlt].
    pose proof HI as [Hi Hj Hpa Hpb Ha Hb (P & HP & HPa & HPb)]. change (p0 :: bs) with ([p0] ++ bs).
    rewrite <- app_assoc. change ([p0] ++ bs ++ [(i, j)]) with (p0 :: (bs ++ [(i, j)])).
    apply IH; [|done| |].
    + constructor; [lia|lia|done|done|done|done|].
      exists pa. rewrite !seg_nil. simpl. lia.
    + apply (factor_chain_snoc _ _ _ _ (pi, pj)); simpl; [done|lia|lia| |nia].
      intros [= -> ->]. rewrite !Z.ltb_irrefl in Hlt. done.
    + unfold loop_measure in *. rewrite Hlt in Hm. rewrite !Z.ltb_irrefl. simpl. lia.
  - destruct ((i <? Zlen a) || (j <? Zlen b)) eqn:Hin.
    + destruct (CommonFactors_step _ _ _ _ _ _ _ _ _ HI HT Hin)
        as (i' & j' & pa' & pb' & HI' & Hi' & Hj' & Hij & Heq).
      rewrite Heq by done. apply IH; [done|done|done|].
      unfold loop_measure in *. destruct ((pi <? i') || (pj <? j')), ((pi <? i) || (pj <? j)); lia.
    + cbn [CommonFactors_loop]. rewrite Hpush, Hin. simpl. exists bs. split; [done|].
      apply orb_false_iff in Hin as [Hia%Z.ltb_ge Hjb%Z.ltb_ge].
      destruct HI as [Hi Hj _ _ [_ Ta] [_ Tb] _].
      rewrite subspan_end in Ta, Tb by done. simpl in Ta, Tb.
      assert ((pa =? pb) = true) as Hab by lia. rewrite Hab in Hpush. simpl in Hpush.
      apply orb_false_iff in Hpush as [?%Z.ltb_ge ?%Z.ltb_ge].
      assert (pi = Zlen a) as -> by lia. by assert (pj = Zlen b) as -> by lia.
Qed.

(** ** The common prefix *)

Definition diag (k : Z) : list (Z * Z) := map (fun i => (i, i)) (seqZ 0 k).

Lemma diag_S k : 0 <= k -> diag (k + 1) = diag k ++ [(k, k)].
Proof.
  intros Hk. unfold diag. rewrite seqZ_app by lia. by rewrite map_app.
Qed.

Lemma seg_ext a b k i j :
  take (Z.to_nat k) a = take (Z.to_nat k) b -> 0 <= i -> j <= k -> seg a i j = seg b i j.
Proof.
  intros Ht Hi Hj. unfold seg.
  rewrite !take_drop_commute.
  assert (Hx : forall l : list Z, take (Z.to_nat i + Z.to_nat (j - i)) l
    = if decide (i <= j) then take (Z.to_nat j) (take (Z.to_nat k) l) else take (Z.to_nat i) l).
  { intros l. case_decide; [|f_equal; lia]. rewrite take_take. f_equal. lia. }
  rewrite !Hx. case_decide; [by rewrite Ht|]. rewrite !drop_ge; [done| |];
    rewrite length_take; lia.
Qed.

Lemma diag_chain a b k :
  take (Z.to_nat k) a = take (Z.to_nat k) b -> 0 <= k ->
  exists bs, diag (k + 1) = (0, 0) :: bs /\ factor_chain a b (0, 0) bs (k, k).
Proof.
  intros Ht Hk. rewrite <- (Z2Nat.id k Hk) in *. set (n := Z.to_nat k) in *. clearbody n. clear k Hk.
  rewrite Nat2Z.id in Ht. induction n as [|n IH].
  { exists []. done. }
  destruct IH as (bs & Hd & HC).
  { assert (Hm : forall l : list Z, take n (take (S n) l) = take n l)
      by (intros l; rewrite take_take; f_equal; lia).
    by rewrite <- (Hm a), <- (Hm b), Ht. }
  exists (bs ++ [(Z.of_nat (S n), Z.of_nat (S n))]). split.
  { rewrite diag_S by lia. replace (Z.of_nat (S n)) with (Z.of_nat n + 1) at 1 by lia.
    by rewrite Hd. }
  apply (factor_chain_snoc _ _ _ _ (Z.of_nat n, Z.of_nat n)); simpl; [done|lia|lia| |].
  - intros [=]. lia.
  - f_equal. apply (seg_ext _ _ (Z.of_nat (S n))); [by rewrite Nat2Z.id|lia|lia].
Qed.

Lemma CommonPrefix_ok a b fuel k :
  0 <= k <= Zlen a -> k <= Zlen b -> take (Z.to_nat k) a = take (Z.to_nat k) b ->
  exists k', CommonPrefix fuel a b k k (k - 1) (k - 1) (diag k)
             = (k', k', k' - 1, k' - 1, diag k')
    /\ 0 <= k' <= Zlen a /\ k' <= Zlen b /\ take (Z.to_nat k') a = take (Z.to_nat k') b.
Proof.
  revert k; induction fuel as [|fuel IH]; intros k Hk Hkb Ht; simpl; [eauto 10|].
  destruct (idx a k) as [x|] eqn:Hx; [|eauto 10]. destruct (idx b k) as [y|] eqn:Hy; [|eauto 10].
  destruct (Z.eqb_spec x y) as [->|]; [|eauto 10].
  rewrite <- diag_S by lia.
  specialize (IH (k + 1)). rewrite Z.add_simpl_r in IH. apply IH.
  - pose proof (idx_bound _ _ _ Hx). lia.
  - pose proof (idx_bound _ _ _ Hy). lia.
  - apply idx_Some in Hx as [_ Hx]. apply idx_Some in Hy as [_ Hy].
    replace (Z.to_nat (k + 1)) with (S (Z.to_nat k)) by lia.
    by rewrite (take_S_r a _ y), (take_S_r b _ y), Ht.
Qed.

(** Every slice of the sizes has a product in range: with positive sizes, the
    product of all of them. *)
Definition slices_fit (l : list Z) : Prop := forall i k, prod (take k (drop i l)) < two63.

Lemma slices_fit_pos l : Forall (fun x => 0 < x) l -> prod l < two63 -> slices_fit l.
Proof.
  intros HF Hb i k. apply Z.le_lt_trans with (2 := Hb).
  pose proof (prod_take_le (drop i l) k (Forall_drop _ _ _ HF)) as H1.
  assert (H2 : prod (take i l) * prod (drop i l) = prod l)
    by (rewrite <- prod_app; by rewrite take_drop).
  pose proof (prod_pos _ (Forall_take _ i _ HF)). pose proof (prod_pos _ (Forall_drop _ i _ HF)). nia.
Qed.

Lemma Product_subspan l i :
  Forall (fun x => 0 <= x) l -> slices_fit l -> Product (subspan l i) = prod (subspan l i).
Proof.
  intros HF Hs. unfold Product, subspan. rewrite Product_loop; [lia|lia|by apply Forall_drop|].
  intros k. specialize (Hs (Z.to_nat i) k). lia.
Qed.

Lemma nonzero_prod_pos l :
  Forall (fun x => 0 <= x) l -> prod l <> 0 -> Forall (fun x => 0 < x) l.
Proof.
  induction 1 as [|x l Hx HF IH]; simpl; [constructor|]. intros Hn.
  constructor.
  - destruct (Z.eq_dec x 0) as [->|]; [exfalso; apply Hn; lia|lia].
  - apply IH. intros H0. apply Hn. rewrite H0. lia.
Qed.

Lemma CommonFactors_emit fuel a b i j pi pj p bs :
  pi < i ->
  CommonFactors_loop (S fuel) a b i j pi pj p p bs
  = CommonFactors_loop fuel a b i j i j p p (bs ++ [(i, j)]).
Proof.
  intros Hlt. cbn [CommonFactors_loop]. by rewrite Z.eqb_refl, (proj2 (Z.ltb_lt _ _) Hlt).
Qed.

Lemma CommonFactors_ok (a b : list Z) :
  Forall (fun x => 0 <= x) a -> Forall (fun x => 0 <= x) b ->
  slices_fit a -> slices_fit b -> prod a = prod b ->
  exists bs, CommonFactors a b = OK ((0, 0) :: bs)
    /\ factor_chain a b (0, 0) bs (Zlen a, Zlen b).
Proof.
  intros Ha Hb Hfa Hfb Hp. unfold CommonFactors.
  pose proof (Product_subspan a 0 Ha Hfa) as HPa. pose proof (Product_subspan b 0 Hb Hfb) as HPb.
  unfold subspan in HPa, HPb. simpl in HPa, HPb. rewrite drop_0 in HPa, HPb.
  rewrite HPa, HPb, Hp, Z.eqb_refl. cbn [check mbind outcome_bind].
  case_bool_decide as Hab.
  { subst b. destruct (diag_chain a a (Zlen a) eq_refl (Zlen_nonneg a)) as (bs & Hd & HC).
    exists bs. split; [|done]. f_equal. exact Hd. }
  destruct (CommonPrefix_ok a b (length a) 0) as (k & Hpre & Hka & Hkb & Ht);
    [pose proof (Zlen_nonneg a); lia|apply Zlen_nonneg|done|].
  change (diag 0) with (@nil (Z * Z)) in Hpre. change (0 - 1) with (-1) in Hpre.
  rewrite Hpre. rewrite !Product_subspan by done.
  assert (Hall : forall l, seg l 0 (Zlen l) = l).
  { intros l. rewrite seg_rest. unfold subspan. by rewrite drop_0. }
  destruct (diag_chain a b k Ht (proj1 Hka)) as (bs & Hd & HC).
  destruct (Z.eqb_spec (prod (subspan a k)) (prod (subspan b k))) as [He|Hne]; cbn [negb].
  2: { exists [(Zlen a, Zlen b)]. split; [done|]. simpl.
       split; [apply Zlen_nonneg|]. split; [apply Zlen_nonneg|]. split; [|by rewrite !Hall].
       intros [= H1 H2]. apply Hab. destruct a, b; unfold Zlen in *; simpl in *; (done || lia). }
  destruct (Z.eqb_spec 0 (prod (subspan a k))) as [H0|H0].
  - rewrite diag_S in Hd by lia. change [(k, k); (Zlen a, Zlen b)] with ([(k, k)] ++ [(Zlen a, Zlen b)]).
    rewrite app_assoc, Hd. exists (bs ++ [(Zlen a, Zlen b)]). split; [reflexivity|].
    apply (factor_chain_snoc _ _ _ _ (k, k)); simpl; [done|lia|lia| |by rewrite !seg_rest].
    intros [= -> Hkb2]. rewrite subspan_end in H0 by lia. simpl in H0. lia.
  - rewrite (Nat.add_comm _ 2). simpl (2 + _)%nat.
    rewrite CommonFactors_emit, <- diag_S, Hd by lia.
    assert (HT63 : prod (subspan a k) < two63).
    { unfold subspan. rewrite <- (take_ge (drop (Z.to_nat k) a) (length a)); [apply Hfa|].
      rewrite length_drop. lia. }
    apply (CommonFactors_loop_ok a b (prod (subspan a k))); [|exact HT63|done|].
    + assert (Hna : Forall (fun x => 0 <= x) (subspan a k)) by (by apply Forall_drop).
      assert (Hnb : Forall (fun x => 0 <= x) (subspan b k)) by (by apply Forall_drop).
      constructor; [lia|lia|apply nonzero_prod_pos; [done|lia]|apply nonzero_prod_pos; [done|lia]|lia|lia|].
      exists 1. rewrite !seg_nil. simpl. lia.
    + unfold loop_measure. rewrite !Z.ltb_irrefl. unfold Zlen. simpl. lia.
Qed.

(** Only sizes with a zero among them can have a slice whose product is larger than the
    product of all. *)
Lemma slices_fit_equal a b :
  Forall (fun x => 0 <= x) a -> Forall (fun x => 0 <= x) b -> prod a = prod b -> prod a < two63 ->
  (0 ∈ a -> slices_fit a /\ slices_fit b) -> slices_fit a /\ slices_fit b.
Proof.
  intros Ha Hb He Hs Hz. destruct (decide (0 ∈ a)) as [?|Hn]; [by apply Hz|].
  assert (Hpa : Forall (fun x => 0 < x) a).
  { apply Forall_forall. intros x Hx. rewrite Forall_forall in Ha. specialize (Ha x Hx). assert (x <> 0) by (by intros ->). lia. }
  assert (0 < prod a) by (clear -Hpa; induction Hpa; simpl; nia).
  split; [by apply slices_fit_pos|]. apply slices_fit_pos; [|lia]. apply nonzero_prod_pos; [done|lia].
Qed.

(** C24: for sizes with equal products in int64 CommonFactors ends and returns
    pairs of positions that start at the front of both lists, are strictly
    increasing, end at the ends of both lists, and cut them into groups with
    equal products; no step reads out of bounds or overflows.  When a size is zero,
    the products of consecutive sizes have to fit in int64, too. *)
Theorem CommonFactors_groups (a b : list Z) :
  Forall (fun x => 0 <= x) a -> Forall (fun x => 0 <= x) b -> prod a = prod b -> prod a < two63 ->
  (0 ∈ a -> slices_fit a /\ slices_fit b) ->
  exists bs, CommonFactors a b = OK ((0, 0) :: bs)
    /\ factor_chain a b (0, 0) bs (Zlen a, Zlen b).
Proof. intros Ha Hb He Hs Hz. destruct (slices_fit_equal a b) as [Hfa Hfb]; [done..|]. by apply CommonFactors_ok. Qed.

Lemma CommonFactors_groups_witness :
  exists bs, CommonFactors [2; 3; 4; 5] [6; 2; 10] = OK ((0, 0) :: bs)
    /\ factor_chain [2; 3; 4; 5] [6; 2; 10] (0, 0) bs (4, 3).
Proof.
  apply (CommonFactors_groups [2; 3; 4; 5] [6; 2; 10]);
    [repeat constructor; discriminate..|reflexivity|reflexivity|].
  intros H. exfalso. revert H. apply (bool_decide_unpack (0 ∉ [2; 3; 4; 5])). reflexivity.
Defined.

(** With a zero and a product of the sizes behind it that overflows, the search reads behind
    the end of a list, or a group has different products. *)
Example CommonFactors_overflow :
  CommonFactors [0; 4294967297; 4294967297] [0; 26789838902651; 8814587391829852595] = Crash
  /\ CommonFactors [0; 4294967296; 4294967296] [0; 8589934592; 4294967296] = OK [(0, 0); (1, 1); (3, 3)].
Proof. split; vm_compute; reflexivity. Qed.

(** Mapping dimension numbers through a reshape divides by a size
    of the target without testing it: a zero-sized target dimension in a group
    that is only partly selected makes the process divide by zero; the splitting of a
    non-zero dimension works as documented. *)
Example ConvertDimensionNumbers_zero :
  ConvertDimensionNumbers [1] [2; 0] [0; 3] = Crash
  /\ ConvertDimensionNumbers [1] [2; 32] [4; 4; 4]
     = OK (mkConverted [] [1] [1; 2] [1] [2] []).
Proof. split; vm_compute; reflexivity. Qed.
