(* ===== verification/InferBasic.v ===== *)
(** * Shape inference: common definitions and unary operations

    xla/service/shape_inference.cc up to InferPadShape: the dimension rules
    shared by the operations, reducer verification, the window rule, and the
    unary, top-k, concatenate, convert, reduce-precision and pad operations.

    A TF_DCHECK_OK is compiled out of an optimized build; a TF_RET_CHECK
    returns an internal error. *)

From S2P Require Import Prelude MachineInt PermutationUtil Primitive Shape ShapeUtil IndexUtil.

(** ** Opcodes (hlo_opcode.h) *)

Inductive HloOpcode :=
  | kAbs | kAcosh | kAdd | kAddDependency | kAfterAll | kAllGather | kAllGatherDone
  | kAllGatherStart | kAllReduce | kAllReduceDone | kAllReduceStart | kAllToAll | kAnd
  | kAsyncDone | kAsyncStart | kAsyncUpdate | kAtan2 | kBatchNormGrad | kBatchNormInference
  | kBatchNormTraining | kBitcast | kBitcastConvert | kBroadcast | kCall | kCbrt | kCeil
  | kCholesky | kClamp | kClz | kCollectiveBroadcast | kCollectivePermute
  | kCollectivePermuteDone | kCollectivePermuteStart | kCompare | kComplex | kConcatenate
  | kConditional | kConstant | kConvert | kConvolution | kCopy | kCopyDone | kCopyStart
  | kCos | kCustomCall | kDivide | kDomain | kDot | kDynamicReshape | kDynamicSlice
  | kDynamicUpdateSlice | kErf | kExp | kExpm1 | kFft | kFloor | kFusion | kGather
  | kGetDimensionSize | kGetTupleElement | kImag | kInfeed | kIota | kIsFinite | kLog
  | kLog1p | kLogistic | kMap | kMaximum | kMinimum | kMultiply | kNegate | kNot
  | kOptimizationBarrier | kOr | kOutfeed | kPad | kParameter | kPartitionId
  | kPopulationCount | kPower | kRaggedAllToAll | kRaggedDot | kReal | kRecv | kRecvDone
  | kReduce | kReducePrecision | kReduceScatter | kReduceWindow | kRemainder | kReplicaId
  | kReshape | kReverse | kRng | kRngBitGenerator | kRngGetAndUpdateState
  | kRoundNearestAfz | kRoundNearestEven | kRsqrt | kScaledDot | kScatter | kSelect
  | kSelectAndScatter | kSend | kSendDone | kSetDimensionSize | kShiftLeft
  | kShiftRightArithmetic | kShiftRightLogical | kSign | kSin | kSlice | kSort | kSqrt
  | kStochasticConvert | kSubtract | kTan | kTanh | kTopK | kTranspose | kTriangularSolve
  | kTuple | kWhile | kXor.

#[global] Instance HloOpcode_eq_dec : EqDecision HloOpcode.
Proof. solve_decision. Defined.

(** ** The messages of xla_data.proto the operations read *)

Record WindowDimension := mkWindowDimension {
  w_size : Z;
  w_stride : Z;
  w_padding_low : Z;
  w_padding_high : Z;
  w_window_dilation : Z;
  w_base_dilation : Z;
  w_window_reversal : bool;
}.
Definition Window := list WindowDimension.

Record PaddingConfigDimension := mkPadding {
  edge_padding_low : Z;
  edge_padding_high : Z;
  interior_padding : Z;
}.
Definition PaddingConfig := list PaddingConfigDimension.

(** ** Rules for dimension sizes *)

Definition AllUnique (slice : list Z) : bool := bool_decide (NoDup slice).

Definition IsUnboundedDynamicSize (size : Z) : bool := size =? kUnboundedSize.

Definition CompatibleDimensionSizes (size_a size_b : Z) : bool :=
  IsUnboundedDynamicSize size_a || IsUnboundedDynamicSize size_b || (size_a =? size_b).

Definition ExpectArray (s : Shape) : outcome () :=
  require (IsArrayExcludingBuffer s) kInvalidArgument.

(** DimAndBound: an inferred dimension size and bound. *)
Abbreviation DimAndBound := (Z * Z)%type.

Definition InferConcatenatedDimAndBound (left_size right_size left_bound right_bound : Z) :
    DimAndBound :=
  let is_left_static_dim := negb (IsUnboundedDynamicSize left_size) in
  let is_right_static_dim := negb (IsUnboundedDynamicSize right_size) in
  let is_left_static_bound := negb (IsUnboundedDynamicSize left_bound) in
  let is_right_static_bound := negb (IsUnboundedDynamicSize right_bound) in
  let inferred_size :=
    if is_left_static_dim && is_right_static_dim then add64 left_size right_size
    else kUnboundedSize in
  let inferred_bound :=
    if is_left_static_bound || is_right_static_bound then
      let leftBoundOrSize := if is_left_static_bound then left_bound else left_size in
      let rightBoundOrSize := if is_right_static_bound then right_bound else right_size in
      if negb (IsUnboundedDynamicSize leftBoundOrSize)
         && negb (IsUnboundedDynamicSize rightBoundOrSize)
      then add64 leftBoundOrSize rightBoundOrSize
      else kUnboundedSize
    else kUnboundedSize in
  (inferred_size, inferred_bound).

Definition InferMostSpecificDimAndBound (left_size right_size left_bound right_bound : Z) :
    outcome DimAndBound :=
  let is_left_static_dim := negb (IsUnboundedDynamicSize left_size) in
  let is_right_static_dim := negb (IsUnboundedDynamicSize right_size) in
  let is_left_static_bound := negb (IsUnboundedDynamicSize left_bound) in
  let is_right_static_bound := negb (IsUnboundedDynamicSize right_bound) in
  inferred_bound ←
    (if is_left_static_bound || is_right_static_bound then
       _ ← ret_if (is_left_static_bound && is_right_static_bound
                   && negb (left_bound =? right_bound)) kInvalidArgument;
       OK (if is_left_static_bound then left_bound else right_bound)
     else OK kUnboundedSize);
  inferred_size ←
    (if is_left_static_dim || is_right_static_dim then
       _ ← ret_if (is_left_static_dim && is_right_static_dim
                   && negb (left_size =? right_size)) kInvalidArgument;
       let inferred_size := if is_left_static_dim then left_size else right_size in
       _ ← ret_if (negb (IsUnboundedDynamicSize inferred_bound)
                   && negb (inferred_size =? inferred_bound)) kInvalidArgument;
       OK inferred_size
     else OK kUnboundedSize);
  OK (inferred_size, inferred_bound).

(** ** Reducers *)

Definition VerifyReducerShape (reducer_shape : ProgramShape) (init_value_shapes : list Shape)
    (input_element_types : list PrimitiveType) (inputs : Z) : outcome () :=
  _ ← require (Zlen (parameters reducer_shape) =? inputs * 2) kInvalidArgument;
  let accumulator_shape := result reducer_shape in
  accumulator_subshapes ←
    (if IsArrayExcludingBuffer accumulator_shape then
       _ ← require (inputs =? 1) kInvalidArgument;
       OK [accumulator_shape]
     else if IsTuple accumulator_shape then
       n ← TupleElementCount accumulator_shape;
       _ ← require (n =? inputs) kInvalidArgument;
       tuple_shapes accumulator_shape
     else Err kInvalidArgument);
  _ ← forM_ accumulator_subshapes (fun element_shape =>
        ds ← dimensions element_shape;
        require (bool_decide (ds = [])) kInvalidArgument);
  forM_ (seqZ 0 inputs) (fun i =>
    acc ← at_ accumulator_subshapes i;
    param ← at_ (parameters reducer_shape) i;
    _ ← require (Compatible acc param) kInvalidArgument;
    init ← at_ init_value_shapes i;
    _ ← require (CompatibleIgnoringFpPrecision acc init) kInvalidArgument;
    t ← at_ input_element_types i;
    input_element_shape ← MakeShape t [];
    param ← at_ (parameters reducer_shape) (inputs + i);
    _ ← require (CompatibleIgnoringFpPrecision input_element_shape param) kInvalidArgument;
    require (CompatibleIgnoringFpPrecision acc param) kInvalidArgument).

(** ** Windows *)

(** One iteration of InferWindowOutputShape. *)
Definition InferWindowOutputDimension (base_shape : Shape) (i : Z) (dim : WindowDimension) :
    outcome (Z * bool) :=
  _ ← ret_if (w_size dim <=? 0) kInvalidArgument;
  _ ← ret_if (w_stride dim <=? 0) kInvalidArgument;
  _ ← ret_if (w_base_dilation dim <? 1) kInvalidArgument;
  _ ← ret_if (w_window_dilation dim <? 1) kInvalidArgument;
  d ← GetDimension base_shape i;
  output_dimension ←
    (if IsUnboundedDynamicSize d then OK kUnboundedSize
     else
       dilated_base ← DilatedBound d (w_base_dilation dim);
       let padded_dilated_base :=
         add64 (add64 (w_padding_low dim) dilated_base) (w_padding_high dim) in
       dilated_window ← DilatedBound (w_size dim) (w_window_dilation dim);
       StridedBound padded_dilated_base dilated_window (w_stride dim));
  output_is_dynamic ← is_dynamic_dimension base_shape i;
  OK (output_dimension, output_is_dynamic).

Definition InferWindowOutputShape (base_shape : Shape) (window : Window) (t : PrimitiveType) :
    outcome Shape :=
  r ← rank base_shape;
  _ ← require (Zlen window =? r) kInvalidArgument;
  out ← mapM (fun '(i, dim) => InferWindowOutputDimension base_shape i dim)
             (zip (indices window) window);
  MakeValidatedShape_dyn t (map fst out) (map snd out).

(** ** Unary operations *)

Definition InferUnaryOpShape (opcode : HloOpcode) (shape : Shape) : outcome Shape :=
  if bool_decide (opcode = kCopy) || bool_decide (opcode = kDomain) then OK shape else
  _ ← ExpectArray shape;
  match opcode with
  | kAcosh | kFloor | kCbrt | kCeil | kErf | kRoundNearestAfz | kRoundNearestEven =>
      _ ← require (ElementIsFloating shape) kInvalidArgument; OK shape
  | kCos | kSin | kExp | kExpm1 | kLog | kLog1p | kLogistic | kRsqrt | kSqrt | kTan | kTanh =>
      _ ← require (ElementIsFloating shape || ElementIsComplex shape) kInvalidArgument; OK shape
  | kReal | kImag =>
      if ElementIsComplex shape then ComplexComponentShape shape
      else if ElementIsFloating shape then OK shape
      else Err kInvalidArgument
  | kAbs =>
      if ElementIsComplex shape then
        t ← ComplexComponentType (element_type shape);
        ChangeElementType shape t
      else if ElementIsSigned shape then OK shape
      else Err kInvalidArgument
  | kClz => _ ← require (ElementIsIntegral shape) kInvalidArgument; OK shape
  | kNegate =>
      _ ← require (ElementIsIntegral shape || ElementIsFloating shape || ElementIsComplex shape)
                  kInvalidArgument;
      OK shape
  | kPopulationCount => _ ← require (ElementIsIntegral shape) kInvalidArgument; OK shape
  | kSign =>
      _ ← require (ElementIsSigned shape || ElementIsComplex shape) kInvalidArgument; OK shape
  | kNot =>
      _ ← require ((element_type shape =?? PRED) || IsIntegralType (element_type shape))
                  kInvalidArgument;
      OK shape
  | kIsFinite =>
      _ ← require (ElementIsFloating shape) kInvalidArgument;
      ChangeElementType shape PRED
  | _ => Err kInvalidArgument
  end.

(** ** Top-k *)

Definition InferTopKShape (operand_shape : Shape) (k : Z) : outcome Shape :=
  _ ← ExpectArray operand_shape;
  r ← rank operand_shape;
  let last_dim := r - 1 in
  last ← dimension operand_shape last_dim;
  _ ← require (k <=? last) kInternal;
  out ← mapM (fun i =>
               dyn ← (if i =? last_dim then OK false else is_dynamic_dimension operand_shape i);
               d ← (if i =? last_dim then OK k else dimension operand_shape i);
               OK (d, dyn))
             (seqZ 0 r);
  shape ← MakeShape_dyn (element_type operand_shape) (map fst out) (map snd out);
  idxs_shape ← ChangeElementType shape S32;
  MakeTupleShape [shape; idxs_shape].

(** ** Concatenate *)

Section Concat.
Context `{FloatLimits}.

(** The loop that compares the operands with the first one and joins their
    element types; [None] is the null [arg_shape]. *)
Definition ConcatCheckOperand (dimension_ : Z) (acc : option Shape * PrimitiveType)
    (shape : Shape) : outcome (option Shape * PrimitiveType) :=
  _ ← ExpectArray shape;
  match acc with
  | (None, _) => OK (Some shape, element_type shape)
  | (Some arg_shape, _) =>
      same ← SameRank arg_shape shape;
      _ ← require same kInvalidArgument;
      _ ← require (SameElementTypeIgnoringFpPrecision arg_shape shape) kInvalidArgument;
      r ← rank arg_shape;
      _ ← forM_ (seqZ 0 r) (fun dimension_number =>
            x ← dimension arg_shape dimension_number;
            y ← dimension shape dimension_number;
            if CompatibleDimensionSizes x y then OK ()
            else require (dimension_number =? dimension_) kInvalidArgument);
      t ← HigherPrecisionElementType shape arg_shape;
      OK (Some arg_shape, t)
  end.

(** One operand's contribution to the inferred sizes and bounds. *)
Definition ConcatStep (dimension_ : Z) (acc : list DimAndBound) (shape : Shape) :
    outcome (list DimAndBound) :=
  mapM (fun '(dim, (leftSize, leftBound)) =>
          rightSize ← dimension shape dim;
          dyn ← is_dynamic_dimension shape dim;
          let rightBound := if (dyn : bool) then rightSize else kUnboundedSize in
          if dim =? dimension_
          then OK (InferConcatenatedDimAndBound leftSize rightSize leftBound rightBound)
          else InferMostSpecificDimAndBound leftSize rightSize leftBound rightBound)
       (zip (indices acc) acc).

Definition InferConcatOpShape (arg_shapes : list Shape) (dimension_ : Z) : outcome Shape :=
  match arg_shapes with
  | [] => Err kInvalidArgument
  | first :: _ =>
      r0 ← rank first;
      _ ← ret_if ((dimension_ <? 0) || (r0 <=? dimension_)) kInvalidArgument;
      p ← foldM (ConcatCheckOperand dimension_) (None, PRIMITIVE_TYPE_INVALID) arg_shapes;
      arg_shape ← (match p.1 with Some s => OK s | None => Crash end);
      r ← rank arg_shape;
      inferred ← set_at (replicate (Z.to_nat r) (kUnboundedSize, kUnboundedSize)) dimension_
                        (0, kUnboundedSize);
      inferred ← foldM (ConcatStep dimension_) inferred arg_shapes;
      res ← MakeShape (p.2) (map fst inferred);
      foldM (fun res '(i, p) =>
               if (negb (IsUnboundedDynamicSize p.2) || IsUnboundedDynamicSize p.1)
               then set_dynamic_dimension res i true else OK res)
            res (zip (indices inferred) inferred)
  end.
End Concat.

(** ** Convert, bitcast-convert, stochastic-convert, reduce-precision *)

Definition InferConvertShape (operand_shape : Shape) (new_element_type : PrimitiveType) :
    outcome Shape :=
  _ ← ret_if (negb (IsArrayExcludingBuffer operand_shape) || negb (IsArrayType new_element_type))
             kInvalidArgument;
  ChangeElementType operand_shape new_element_type.

Definition InferBitcastConvertShape (operand_shape : Shape) (new_element_type : PrimitiveType) :
    outcome Shape :=
  let old_element_type := element_type operand_shape in
  _ ← require (eqb (IsComplexType old_element_type) (IsComplexType new_element_type))
              kInvalidArgument;
  _ ← ret_if (negb (IsArrayExcludingBuffer operand_shape) || negb (IsArrayType new_element_type))
             kInvalidArgument;
  input_bitwidth ← BitWidth old_element_type;
  output_bitwidth ← BitWidth new_element_type;
  let mx := Z.max input_bitwidth output_bitwidth in
  let mn := Z.min input_bitwidth output_bitwidth in
  _ ← require (Z.rem mx mn =? 0) kInvalidArgument;
  let ratio := Z.quot mx mn in
  new_shape ← set_element_type operand_shape new_element_type;
  if output_bitwidth <? input_bitwidth then AppendMinorDimension ratio new_shape
  else if input_bitwidth <? output_bitwidth then
    ds ← dimensions operand_shape;
    let last_dimension_idx := Zlen ds - 1 in
    mismatch ← (if bool_decide (ds = []) then OK true
                else l ← dimension operand_shape last_dimension_idx; OK (negb (l =? ratio)));
    if (mismatch : bool) then
      (* the message prints dimensions(last_dimension_idx) *)
      _ ← dimension operand_shape last_dimension_idx;
      Err kInvalidArgument
    else DeleteDimension new_shape last_dimension_idx
  else OK new_shape.

Definition InferStochasticConvertShape (operand_shape random_shape : Shape)
    (new_element_type : PrimitiveType) : outcome Shape :=
  _ ← ExpectArray operand_shape;
  _ ← ExpectArray random_shape;
  _ ← require (IsUnsignedIntegralType (element_type random_shape)) kInvalidArgument;
  _ ← require (ElementIsFloating operand_shape) kInvalidArgument;
  operand_bits ← BitWidth (element_type operand_shape);
  random_bits ← BitWidth (element_type random_shape);
  _ ← require (operand_bits =? random_bits) kInvalidArgument;
  _ ← require (EqualIgnoringElementType operand_shape random_shape) kInvalidArgument;
  ChangeElementType operand_shape new_element_type.

Definition InferReducePrecisionShape (operand_shape : Shape) (exponent_bits mantissa_bits : Z) :
    outcome Shape :=
  _ ← require (ElementIsFloating operand_shape) kInvalidArgument;
  _ ← ret_if (exponent_bits <? 1) kInvalidArgument;
  _ ← ret_if (mantissa_bits <? 0) kInvalidArgument;
  OK operand_shape.

(** ** Pad *)

Definition PadDimension (operand_shape : Shape) (i : Z) (p : PaddingConfigDimension) :
    outcome (Z * bool) :=
  unbounded ← is_unbounded_dynamic_dimension operand_shape i;
  size ← (if (unbounded : bool) then OK kUnboundedSize
          else
            d ← dimension operand_shape i;
            let n := add64 (add64 (add64 d (edge_padding_low p)) (edge_padding_high p))
                           (mul64 (Z.max (sub64 d 1) 0) (interior_padding p)) in
            _ ← ret_if (n <? 0) kInvalidArgument;
            OK n);
  dyn ← is_dynamic_dimension operand_shape i;
  OK (size, dyn).

Definition InferPadShape `{FloatLimits} (operand_shape padding_value_shape : Shape)
    (padding_config : PaddingConfig) : outcome Shape :=
  _ ← require (IsArrayExcludingBuffer operand_shape) kInvalidArgument;
  scalar ← IsScalar padding_value_shape;
  _ ← require scalar kInvalidArgument;
  r ← rank operand_shape;
  _ ← require (r =? Zlen padding_config) kInvalidArgument;
  _ ← require (SameElementTypeIgnoringFpPrecision operand_shape padding_value_shape)
              kInvalidArgument;
  _ ← ret_if (existsb (fun p => interior_padding p <? 0) padding_config) kInvalidArgument;
  static ← is_static padding_value_shape;
  _ ← require static kInvalidArgument;
  out ← mapM (fun '(i, p) => PadDimension operand_shape i p)
             (zip (indices padding_config) padding_config);
  t ← HigherPrecisionElementType operand_shape padding_value_shape;
  MakeShape_dyn t (map fst out) (map snd out).

(** * Lemmas

    ** Run-time sizes

    [dim_admits d dyn n]: an array whose dimension has the inferred size [d]
    and dynamic flag [dyn] can have [n] elements along it at run time. *)
Definition dim_admits (d : Z) (dyn : bool) (n : Z) : Prop :=
  0 <= n /\ (d = kUnboundedSize \/ (if dyn then n <= d else n = d)).

(** The same for all dimensions of an array. *)
Definition sizes_admit (ds : list Z) (dy : list bool) (ns : list Z) : Prop :=
  length ds = length ns /\ length dy = length ns
  /\ forall i d b n, ds !! i = Some d -> dy !! i = Some b -> ns !! i = Some n -> dim_admits d b n.

Lemma unbounded_neg : kUnboundedSize < 0.
Proof. done. Qed.

(** Reading an array shape. *)
Lemma rank_array t st : rank (ArrayShape t st) = OK (Z.of_nat (length (dims st))).
Proof. done. Qed.

Lemma dimension_array t st k x :
  dimension (ArrayShape t st) (Z.of_nat k) = OK x <-> dims st !! k = Some x.
Proof. apply at_lookup. Qed.

Lemma is_dynamic_dimension_array t st k x :
  is_dynamic_dimension (ArrayShape t st) (Z.of_nat k) = OK x <-> dyns st !! k = Some x.
Proof. apply at_lookup. Qed.

Lemma MakeShape_dyn_OK t ds dy s :
  MakeShape_dyn t ds dy = OK s <-> shape_args_ok t ds dy /\ s = array_shape t ds dy.
Proof. unfold MakeShape_dyn. rewrite value_or_die_OK. apply MakeValidatedShape_dyn_OK. Qed.

Lemma lookup_fst_snd {A B} (l : list (A * B)) k a b :
  map fst l !! k = Some a -> map snd l !! k = Some b -> l !! k = Some (a, b).
Proof.
  rewrite !list_lookup_fmap. destruct (l !! k) as [[x y]|]; simpl; [|done]. by intros [= ->] [= ->].
Qed.

(** ** The rules for concatenation

    A size and bound describe a dimension: a bound limits it, else a size
    fixes it, else it is unknown. *)
Definition db_admits (p : DimAndBound) (n : Z) : Prop :=
  0 <= n /\ (if IsUnboundedDynamicSize (p.2)
             then p.1 = kUnboundedSize \/ n = p.1 else n <= p.2).

(** The pairs inference works with: a bound always equals the size. *)
Definition db_wf (p : DimAndBound) : Prop := p.2 = kUnboundedSize \/ (p.1 = p.2 /\ 0 <= p.2).
Definition db_nonneg (p : DimAndBound) : Prop := p.1 = kUnboundedSize \/ 0 <= p.1 < two63.

Lemma InferConcatenated_comm ls rs lb rb :
  InferConcatenatedDimAndBound ls rs lb rb = InferConcatenatedDimAndBound rs ls rb lb.
Proof.
  unfold InferConcatenatedDimAndBound, IsUnboundedDynamicSize, add64.
  destruct (ls =? kUnboundedSize) eqn:E1, (rs =? kUnboundedSize) eqn:E2,
    (lb =? kUnboundedSize) eqn:E3, (rb =? kUnboundedSize) eqn:E4; simpl;
    rewrite ?E1, ?E2, ?E3, ?E4; simpl; try done;
    rewrite ?(Z.add_comm rs ls), ?(Z.add_comm rb lb), ?(Z.add_comm rs lb), ?(Z.add_comm rb ls);
    done.
Qed.

Lemma db_cases s b :
  db_wf (s, b) -> db_nonneg (s, b) ->
  (s = kUnboundedSize /\ b = kUnboundedSize) \/ (b = kUnboundedSize /\ 0 <= s < two63)
  \/ (s = b /\ 0 <= s < two63).
Proof. pose proof unbounded_neg. unfold db_wf, db_nonneg. simpl. lia. Qed.

Lemma eqb_unbounded x : 0 <= x -> (x =? kUnboundedSize) = false.
Proof. pose proof unbounded_neg. lia. Qed.

(** Decides the tests for an unbounded size. *)
Ltac unbounded_simp := repeat (match goal with
  | |- context [kUnboundedSize =? kUnboundedSize] => rewrite (Z.eqb_refl kUnboundedSize)
  | |- context [?x =? kUnboundedSize] => rewrite (eqb_unbounded x) by lia
  | H : context [kUnboundedSize =? kUnboundedSize] |- _ => rewrite (Z.eqb_refl kUnboundedSize) in H
  | H : context [?x =? kUnboundedSize] |- _ => rewrite (eqb_unbounded x) in H by lia
  end; simpl in * ).

Lemma InferConcatenated_sound ls rs lb rb n m :
  db_wf (ls, lb) -> db_wf (rs, rb) -> db_nonneg (ls, lb) -> db_nonneg (rs, rb) ->
  (ls <> kUnboundedSize -> rs <> kUnboundedSize -> ls + rs < two63) ->
  db_admits (ls, lb) n -> db_admits (rs, rb) m ->
  let p := InferConcatenatedDimAndBound ls rs lb rb in
  db_admits p (n + m) /\ db_wf p /\ db_nonneg p
  /\ (p.1 = kUnboundedSize
      \/ (ls <> kUnboundedSize /\ rs <> kUnboundedSize /\ p.1 = ls + rs)).
Proof.
  pose proof unbounded_neg as HU.
  intros Hwl Hwr Hnl Hnr Hov [Hn0 Hn] [Hm0 Hm].
  destruct (db_cases _ _ Hwl Hnl) as [[-> ->]|[[-> Hl]|[-> Hl]]],
    (db_cases _ _ Hwr Hnr) as [[-> ->]|[[-> Hr]|[-> Hr]]];
    try specialize (Hov ltac:(lia) ltac:(lia));
    unfold db_wf, db_nonneg, db_admits, InferConcatenatedDimAndBound, IsUnboundedDynamicSize in *;
    simpl in *; unbounded_simp; rewrite ?add64_fits by lia; unbounded_simp; lia.
Qed.

Lemma InferMostSpecific_sound ls rs lb rb p n :
  db_wf (ls, lb) -> db_wf (rs, rb) -> db_nonneg (ls, lb) -> db_nonneg (rs, rb) ->
  InferMostSpecificDimAndBound ls rs lb rb = OK p ->
  db_admits (ls, lb) n -> db_admits (rs, rb) n -> db_admits p n /\ db_wf p /\ db_nonneg p.
Proof.
  pose proof unbounded_neg as HU.
  intros Hwl Hwr Hnl Hnr HI [Hn0 Hn] [Hm0 Hm].
  destruct (db_cases _ _ Hwl Hnl) as [[-> ->]|[[-> Hl]|[-> Hl]]],
    (db_cases _ _ Hwr Hnr) as [[-> ->]|[[-> Hr]|[-> Hr]]];
    unfold db_wf, db_nonneg, db_admits, InferMostSpecificDimAndBound, IsUnboundedDynamicSize in *;
    simpl in *; unbounded_simp;
    repeat (match type of HI with context [negb (?x =? ?y)] =>
      destruct (Z.eqb_spec x y); simpl in HI; subst; unbounded_simp end);
    try discriminate HI; injection HI as <-; simpl; unbounded_simp; lia.
Qed.

(** ** Marking dimensions dynamic *)

Lemma set_dynamic_OK t st k d :
  dims st !! k = Some d -> 0 <= d \/ d = kUnboundedSize -> (k < length (dyns st))%nat ->
  set_dynamic_dimension (ArrayShape t st) (Z.of_nat k) true
  = OK (ArrayShape t (mkArrayState (dims st) (<[k := true]> (dyns st)) (array_layout st))).
Proof.
  intros Hd Hv Hk. unfold set_dynamic_dimension. simpl.
  rewrite (proj2 (at_lookup _ _ _) Hd). simpl.
  assert ((if d <? 0 then check (d =? kUnboundedSize) else OK ()) = OK ()) as ->.
  { destruct (Z.ltb_spec d 0); [|done]. destruct Hv as [?| ->]; [lia|]. by rewrite Z.eqb_refl. }
  simpl. rewrite (proj2 (set_at_OK (dyns st) (<[k := true]> (dyns st)) (Z.of_nat k) true)).
  - done.
  - unfold Zlen. rewrite Nat2Z.id. split; [lia|done].
Qed.

(** Setting a dimension and its flag. *)
Lemma set_dimensions_array t st i n b d b0 :
  idx (dims st) i = Some d -> idx (dyns st) i = Some b0 -> 0 <= n \/ (b = true /\ n = kUnboundedSize) ->
  set_dimensions (ArrayShape t st) i n (Some b)
  = OK (ArrayShape t (mkArrayState (<[Z.to_nat i := n]> (dims st)) (<[Z.to_nat i := b]> (dyns st))
                                   (array_layout st))).
Proof.
  intros Hd Hb Hn. unfold set_dimensions, CheckDimensionSize. cbn [array_state mbind outcome_bind].
  assert (HC : (if b then if n <? 0 then check (n =? kUnboundedSize) else OK () else check (0 <=? n))
               = OK ()).
  { destruct Hn as [Hn|[-> ->]]; [|done]. destruct b.
    - by rewrite (proj2 (Z.ltb_ge _ _)) by lia.
    - by rewrite (proj2 (Z.leb_le _ _)) by lia. }
  rewrite HC. cbn [mbind outcome_bind].
  apply at_OK, at_bound in Hd. apply at_OK, at_bound in Hb.
  rewrite (proj2 (set_at_OK _ _ _ _) (conj Hd eq_refl)). cbn [mbind outcome_bind].
  by rewrite (proj2 (set_at_OK _ _ _ _) (conj Hb eq_refl)).
Qed.

(** A loop over the dimensions that sets some flags. *)
Lemma mark_dynamic_loop {A} (f : A -> bool) t st (l : list A) :
  length l = length (dims st) -> length (dyns st) = length (dims st) ->
  Forall (fun d => 0 <= d \/ d = kUnboundedSize) (dims st) ->
  exists dy',
  foldM (fun res '(i, x) => if f x then set_dynamic_dimension res i true else OK res)
        (ArrayShape t st) (zip (indices l) l)
    = OK (ArrayShape t (mkArrayState (dims st) dy' (array_layout st)))
  /\ length dy' = length (dims st)
  /\ forall k b x, dyns st !! k = Some b -> l !! k = Some x -> dy' !! k = Some (b || f x).
Proof.
  intros Hl Hd HF.
  destruct (foldM_total (fun l1 s => exists dy',
      s = ArrayShape t (mkArrayState (dims st) dy' (array_layout st))
      /\ length dy' = length (dims st)
      /\ forall k b x, dyns st !! k = Some b -> l !! k = Some x ->
           dy' !! k = Some (b || (bool_decide (k < length l1)%nat && f x)))
    (fun res '(i, x) => if f x then set_dynamic_dimension res i true else OK res)
    (zip (indices l) l) (ArrayShape t st)) as (s & HE & dy' & -> & Hl' & Hk).
  - exists (dyns st). split; [by destruct st|]. split; [done|]. intros k b x Hb _.
    rewrite bool_decide_eq_false_2 by (simpl; lia). simpl. by rewrite orb_false_r.
  - intros l1 [i x] l2 s1 Hz (dy1 & -> & Hl1 & Hk1).
    assert (Hix : zip (indices l) l !! length l1 = Some (i, x))
      by (rewrite Hz, lookup_app_r by lia; by rewrite Nat.sub_diag).
    apply lookup_zip_with_Some in Hix as (i' & x' & [= <- <-] & Hi & Hx).
    apply idx_indices in Hi as [Hlt ->].
    assert (Hupd : forall k b y, dyns st !! k = Some b -> l !! k = Some y ->
      (if f x then <[length l1 := true]> dy1 else dy1) !! k
      = Some (b || (bool_decide (k < S (length l1))%nat && f y))).
    { intros k b y Hb Hy. destruct (decide (k = length l1)) as [->|Hne].
      - rewrite Hx in Hy. injection Hy as <-.
        rewrite bool_decide_eq_true_2 by lia. destruct (f x); simpl.
        + rewrite list_lookup_insert_eq by lia. by rewrite orb_true_r.
        + rewrite (Hk1 _ _ _ Hb Hx), bool_decide_eq_false_2 by lia. done.
      - assert (Hsame : (if f x then <[length l1 := true]> dy1 else dy1) !! k = dy1 !! k)
          by (destruct (f x); [by rewrite list_lookup_insert_ne|done]).
        rewrite Hsame, (Hk1 _ _ _ Hb Hy). do 3 f_equal.
        apply bool_decide_ext. lia. }
    assert (Hlen : length (if f x then <[length l1 := true]> dy1 else dy1) = length (dims st))
      by (destruct (f x); [rewrite length_insert|]; done).
    exists (ArrayShape t (mkArrayState (dims st) (if f x then <[length l1 := true]> dy1 else dy1)
                            (array_layout st))). split.
    + destruct (f x); [|done].
      destruct (lookup_lt_is_Some_2 (dims st) (length l1)) as [d Hdd]; [lia|].
      rewrite (set_dynamic_OK _ _ _ d); [done|done| |simpl; lia].
      by eapply (proj1 (Forall_lookup _ _) HF).
    + eexists. split; [done|]. split; [done|]. intros k b y Hb Hy.
      rewrite length_app, Nat.add_1_r. by apply Hupd.
  - exists dy'. split; [exact HE|]. split; [done|]. intros k b x Hb Hx.
    rewrite (Hk k b x Hb Hx), bool_decide_eq_true_2; [done|].
    rewrite length_zip, length_indices. apply lookup_lt_Some in Hx. lia.
Qed.

(** ** Soundness of concatenate *)

(** An operand shape with well-formed dimensions and its run-time sizes. *)
Definition operand_admits (s : Shape) (ns : list Z) : Prop :=
  exists t st, s = ArrayShape t st
    /\ Forall (fun d => d = kUnboundedSize \/ 0 <= d < two63) (dims st)
    /\ sizes_admit (dims st) (dyns st) ns.

(** The pair a dimension of an operand contributes. *)
Lemma operand_pair d b n :
  d = kUnboundedSize \/ 0 <= d < two63 -> dim_admits d b n ->
  let p := (d, if b then d else kUnboundedSize) in db_wf p /\ db_nonneg p /\ db_admits p n.
Proof.
  pose proof unbounded_neg as HU. intros Hd [Hn Ha]. simpl.
  unfold db_wf, db_nonneg, db_admits, IsUnboundedDynamicSize. simpl.
  destruct Hd as [->|Hd]; [destruct b; unbounded_simp; lia|].
  destruct b; unbounded_simp; lia.
Qed.

(** What is known of the inferred pair of dimension [i] after some operands:
    [total] bounds the sizes added up in the concatenated dimension. *)
Definition concat_pair_ok (dimension_ : Z) (total : Z) (i : nat) (p : DimAndBound) (n : Z) : Prop :=
  db_wf p /\ db_nonneg p /\ db_admits p n
  /\ (Z.of_nat i = dimension_ -> p.1 = kUnboundedSize \/ p.1 <= total).

Lemma ConcatStep_sound dimension_ total acc acc' s ns cur :
  operand_admits s ns -> length acc = length ns -> length cur = length ns ->
  (forall d, dimension s dimension_ = OK d -> total + Z.max 0 d < two63) ->
  (forall i p n, acc !! i = Some p -> cur !! i = Some n -> concat_pair_ok dimension_ total i p n) ->
  (forall i n m, Z.of_nat i <> dimension_ -> cur !! i = Some n -> ns !! i = Some m -> n = m) ->
  ConcatStep dimension_ acc s = OK acc' ->
  length acc' = length ns
  /\ forall i p n m d, acc' !! i = Some p -> cur !! i = Some n -> ns !! i = Some m ->
       dimension s dimension_ = OK d ->
       concat_pair_ok dimension_ (total + Z.max 0 d) i p
         (if Z.of_nat i =? dimension_ then n + m else n).
Proof.
  intros (t & st & -> & HF & Hl1 & Hl2 & Hadm) Hla Hlc Hov Hacc Hagree HS.
  unfold ConcatStep in HS. apply mapM_OK in HS.
  pose proof (Forall2_length _ _ _ HS) as Hlz. rewrite length_zip, length_indices in Hlz.
  split; [lia|]. intros i p n m d Hp Hn Hm Hd.
  destruct (Forall2_lookup_r _ _ _ _ _ HS Hp) as ([dim [ls lb]] & Hz & Hf).
  apply lookup_zip_with_Some in Hz as (i' & [ls' lb'] & [= <- <- <-] & Hi & Hai).
  apply idx_indices in Hi as [_ ->].
  simpl in Hf. apply bind_OK in Hf as (rs & Hrs & Hf). apply bind_OK in Hf as (dyn & Hdyn & Hf).
  pose proof Hrs as Hrs0. apply dimension_array in Hrs. apply is_dynamic_dimension_array in Hdyn.
  destruct (operand_pair rs dyn m) as (Hw & Hnn & Ha).
  { apply (proj1 (Forall_lookup _ _) HF i rs Hrs). } { by eapply Hadm. }
  simpl in *. destruct (Hacc i (ls, lb) n Hai Hn) as (Hw0 & Hnn0 & Ha0 & Ht0).
  destruct (Z.eqb_spec (Z.of_nat i) dimension_) as [He|Hne].
  - rewrite He, Hd in Hrs0. injection Hrs0 as ->. injection Hf as <-.
    specialize (Hov _ Hd). specialize (Ht0 He). simpl in Ht0.
    destruct (InferConcatenated_sound ls rs lb (if dyn then rs else kUnboundedSize) n m)
      as (R1 & R2 & R3 & R4); try done; [unfold db_nonneg in *; simpl in *; lia|].
    split; [done|]. split; [done|]. split; [done|]. intros _. destruct R4 as [?|(? & ? & ?)]; lia.
  - rewrite <- (Hagree i n m Hne Hn Hm) in Ha.
    destruct (InferMostSpecific_sound _ _ _ _ _ _ Hw0 Hw Hnn0 Hnn Hf Ha0 Ha) as (R1 & R2 & R3).
    split; [done|]. split; [done|]. split; [done|]. intros ?. lia.
Qed.

(** The run-time sizes of a concatenation along [dimension_]. *)
Definition sum_at (i : nat) (nss : list (list Z)) : Z :=
  foldr Z.add 0 (map (fun ns => default 0 (ns !! i)) nss).
Definition concat_sizes (dimension_ : Z) (nss : list (list Z)) (ns : list Z) : Prop :=
  Forall (fun x => length x = length ns) nss /\ Forall (fun n => 0 <= n) ns
  /\ forall i n, ns !! i = Some n ->
       if Z.of_nat i =? dimension_ then n = sum_at i nss
       else Forall (fun x => x !! i = Some n) nss.

(** The total of the bounded sizes along a dimension. *)
Definition bounded_size (dimension_ : Z) (s : Shape) : Z :=
  match dimension s dimension_ with OK d => Z.max 0 d | _ => 0 end.
Definition total_size (dimension_ : Z) (l : list Shape) : Z :=
  foldr Z.add 0 (map (bounded_size dimension_) l).

Lemma sum_at_app i l1 l2 : sum_at i (l1 ++ l2) = sum_at i l1 + sum_at i l2.
Proof. unfold sum_at. induction l1; simpl; [done|]. rewrite IHl1. lia. Qed.
Lemma total_size_app d l1 l2 : total_size d (l1 ++ l2) = total_size d l1 + total_size d l2.
Proof. unfold total_size. induction l1; simpl; [done|]. rewrite IHl1. lia. Qed.
Lemma total_size_nonneg d l : 0 <= total_size d l.
Proof.
  unfold total_size. induction l as [|s l IH]; simpl; [lia|].
  unfold bounded_size at 1. destruct (dimension s d); lia.
Qed.

(** The sizes of the result once the first [k] operands are in: the concatenated
    dimension holds their sum. *)
Definition partial_sizes (dimension_ : Z) (nss : list (list Z)) (ns : list Z) (k : nat) : list Z :=
  <[Z.to_nat dimension_ := sum_at (Z.to_nat dimension_) (take k nss)]> ns.

Section ConcatLoop.
Context `{FloatLimits} (dimension_ : Z) (operands : list Shape) (nss : list (list Z)) (ns : list Z).
Hypothesis HF : Forall2 operand_admits operands nss.
Hypothesis Hns : concat_sizes dimension_ nss ns.
Hypothesis Htot : total_size dimension_ operands < two63.
Hypothesis Hdim : 0 <= dimension_ < Zlen ns.
#[local] Abbreviation cur := (partial_sizes dimension_ nss ns).

Lemma partial_lookup k i n : cur k !! i = Some n ->
  exists m, ns !! i = Some m /\ n = if Z.of_nat i =? dimension_ then sum_at i (take k nss) else m.
Proof.
  unfold partial_sizes. destruct (decide (i = Z.to_nat dimension_)) as [->|Hne].
  - unfold Zlen in Hdim. rewrite list_lookup_insert_eq by lia. intros [= <-].
    destruct (lookup_lt_is_Some_2 ns (Z.to_nat dimension_)) as [m Hm]; [lia|].
    exists m. split; [done|]. rewrite (proj2 (Z.eqb_eq _ _)) by lia. done.
  - rewrite list_lookup_insert_ne by done. intros Hn. exists n. split; [done|].
    rewrite (proj2 (Z.eqb_neq _ _)) by lia. done.
Qed.

Lemma partial_length k : length (cur k) = length ns.
Proof. unfold partial_sizes. by rewrite length_insert. Qed.

Lemma partial_all i n : ns !! i = Some n -> cur (length operands) !! i = Some n.
Proof.
  intros Hn. pose proof (proj2 (proj2 Hns) i n Hn) as Hn'. unfold partial_sizes.
  destruct (Z.eqb_spec (Z.of_nat i) dimension_) as [He|Hne].
  - rewrite <- He, Nat2Z.id, list_lookup_insert_eq by (by eapply lookup_lt_Some).
    rewrite Hn'. f_equal. f_equal. apply take_ge. apply Forall2_length in HF. lia.
  - by rewrite list_lookup_insert_ne by lia.
Qed.

Definition loop_ok (l1 : list Shape) (acc : list (Z * Z)) : Prop :=
  length acc = length ns /\ forall i p n, acc !! i = Some p ->
    cur (length l1) !! i = Some n -> concat_pair_ok dimension_ (total_size dimension_ l1) i p n.

Lemma loop_start acc0 :
  length acc0 = length ns ->
  (forall i p, acc0 !! i = Some p ->
     p = if Z.of_nat i =? dimension_ then (0, kUnboundedSize) else (kUnboundedSize, kUnboundedSize)) ->
  loop_ok [] acc0.
Proof.
  intros Hl0 Hinit. split; [done|]. intros i p n Hp Hn. rewrite (Hinit _ _ Hp).
  apply partial_lookup in Hn as (m & Hm & ->). simpl. unfold concat_pair_ok, db_wf, db_nonneg, db_admits.
  pose proof (proj1 (Forall_lookup _ _) (proj1 (proj2 Hns)) i m Hm) as Hm0. simpl in Hm0.
  destruct (Z.eqb_spec (Z.of_nat i) dimension_) as [He|Hne]; simpl;
    unfold IsUnboundedDynamicSize; unbounded_simp; unfold sum_at, total_size, two63; simpl; lia.
Qed.

Lemma loop_step l1 s l2 acc1 acc2 :
  operands = l1 ++ s :: l2 -> loop_ok l1 acc1 -> ConcatStep dimension_ acc1 s = OK acc2 ->
  loop_ok (l1 ++ [s]) acc2.
Proof.
  intros Hops [Hl1 H1] Hstep. destruct Hns as (Hlen & _ & Hsum). pose proof HF as HFs. rewrite Hops in HFs.
  apply Forall2_app_inv_l in HFs as (n1 & n2 & HF1 & HF2 & Hnss).
  apply Forall2_cons_inv_l in HF2 as (x & n3 & Hx & HF2 & ->).
  pose proof (Forall2_length _ _ _ HF1) as Hll.
  assert (Hxl : length x = length ns).
  { rewrite Hnss in Hlen. apply Forall_app in Hlen as [_ Hlen']. by inversion Hlen'. }
  assert (Htk : take (S (length l1)) nss = take (length l1) nss ++ [x]).
  { apply take_S_r. rewrite Hnss, lookup_app_r by lia. by rewrite Hll, Nat.sub_diag. }
  pose proof (total_size_nonneg dimension_ l2) as Hn2. pose proof Htot as Htot'.
  rewrite Hops, total_size_app in Htot'. unfold total_size at 2 in Htot'. simpl in Htot'.
  fold (total_size dimension_ l2) in Htot'.
  destruct (ConcatStep_sound dimension_ (total_size dimension_ l1) acc1 acc2 s x
              (cur (length l1))) as [Hl2 H2]; try done.
  - congruence.
  - rewrite partial_length. congruence.
  - intros d Hd. unfold bounded_size in Htot'. rewrite Hd in Htot'. lia.
  - intros i n m Hne Hn Hm. apply partial_lookup in Hn as (m' & Hm' & ->).
    rewrite (proj2 (Z.eqb_neq _ _)) by done. specialize (Hsum i m' Hm').
    rewrite (proj2 (Z.eqb_neq _ _)), Hnss in Hsum by done.
    apply Forall_app in Hsum as [_ Hsum']. inversion Hsum'. congruence.
  - split; [congruence|]. intros i p n Hp Hn.
    apply partial_lookup in Hn as (m & Hm & ->). pose proof (lookup_lt_Some _ _ _ Hm) as Hi.
    destruct (lookup_lt_is_Some_2 (cur (length l1)) i) as [c Hc]; [by rewrite partial_length|].
    destruct (lookup_lt_is_Some_2 x i) as [y Hy]; [lia|].
    destruct Hx as (t & st & -> & HFd & Hld & Hly & Hadm).
    destruct (lookup_lt_is_Some_2 (dims st) (Z.to_nat dimension_)) as [d Hd].
    { unfold Zlen in Hdim. lia. }
    assert (Hdd : dimension (ArrayShape t st) dimension_ = OK d).
    { rewrite <- (Z2Nat.id dimension_) by lia. by apply dimension_array. }
    specialize (H2 i p c y d Hp Hc Hy Hdd).
    rewrite length_app, Nat.add_1_r, Htk, total_size_app.
    unfold total_size at 2, bounded_size. simpl. rewrite Hdd, Z.add_0_r.
    apply partial_lookup in Hc as (m' & Hm' & ->). rewrite Hm in Hm'. injection Hm' as <-.
    rewrite sum_at_app. unfold sum_at at 2. simpl. rewrite Hy. simpl. rewrite Z.add_0_r.
    destruct (Z.of_nat i =? dimension_); done.
Qed.

Lemma ConcatStep_loop acc0 acc :
  length acc0 = length ns ->
  (forall i p, acc0 !! i = Some p ->
     p = if Z.of_nat i =? dimension_ then (0, kUnboundedSize) else (kUnboundedSize, kUnboundedSize)) ->
  foldM (ConcatStep dimension_) acc0 operands = OK acc ->
  length acc = length ns
  /\ forall i p n, acc !! i = Some p -> ns !! i = Some n -> db_wf p /\ db_admits p n.
Proof.
  intros Hl0 Hinit Hfold.
  destruct (foldM_inv loop_ok (ConcatStep dimension_) operands acc0 acc) as [Hl Hfin];
    [by apply loop_start|by apply loop_step|exact Hfold|].
  split; [done|]. intros i p n Hp Hn.
  destruct (Hfin i p n Hp (partial_all i n Hn)) as (? & _ & ? & _). done.
Qed.
End ConcatLoop.

Lemma ConcatCheck_loop `{FloatLimits} dimension_ operands p t0 :
  foldM (ConcatCheckOperand dimension_) (None, t0) operands = OK p ->
  match p.1 with Some s => s ∈ operands | None => operands = [] end.
Proof.
  apply (foldM_inv (fun l p => match p.1 with Some s => s ∈ l | None => l = [] end)); [done|].
  intros l1 s l2 [o t] p2 _ Hp Hs. unfold ConcatCheckOperand in Hs. outcome_simp.
  simpl in Hp. destruct o as [a|].
  - outcome_simp. simpl. set_solver.
  - injection Hs as <-. simpl. set_solver.
Qed.

(** From the inferred pairs to the returned shape. *)
Lemma concat_result t (inferred : list DimAndBound) res out ns :
  MakeShape t (map fst inferred) = OK res ->
  foldM (fun res '(i, p) =>
           if (negb (IsUnboundedDynamicSize p.2) || IsUnboundedDynamicSize p.1)
           then set_dynamic_dimension res i true else OK res) res (zip (indices inferred) inferred)
    = OK out ->
  length inferred = length ns ->
  (forall i p n, inferred !! i = Some p -> ns !! i = Some n -> db_wf p /\ db_admits p n) ->
  exists st, out = ArrayShape t st /\ sizes_admit (dims st) (dyns st) ns.
Proof.
  intros HM Hmark Hl Hp. unfold MakeShape, MakeValidatedShape in HM. rewrite value_or_die_OK in HM.
  apply MakeValidatedShape_dyn_OK in HM as ((_ & Hld & Hv & _) & ->).
  rewrite valid_dims_iff in Hv by done. unfold array_shape in Hmark.
  set (f := fun p : DimAndBound => negb (IsUnboundedDynamicSize p.2) || IsUnboundedDynamicSize p.1).
  set (st0 := mkArrayState (map fst inferred) (MakeDynamicDimensions (map fst inferred))
                (Some (MakeDescendingLayout (Zlen (map fst inferred))))) in *.
  destruct (mark_dynamic_loop f t st0 inferred) as (dy' & HE & Hl' & Hk).
  { simpl. by rewrite length_map. } { done. }
  { apply Forall_forall. intros d Hd. simpl in Hd. apply list_elem_of_lookup in Hd as [i Hi].
    destruct (Forall2_lookup_l _ _ _ _ _ Hv Hi) as (b & _ & ?). naive_solver. }
  pose proof (eq_trans (eq_sym HE) Hmark) as Heq. injection Heq as <-.
  eexists. split; [done|]. split; [simpl; by rewrite length_map|].
  split; [simpl in *; rewrite Hl'; by rewrite length_map|].
  intros i d b n Hd Hb Hn. simpl in Hd, Hb. rewrite list_lookup_fmap in Hd.
  destruct (inferred !! i) as [[sz bd]|] eqn:Hi; [|done]. injection Hd as <-. simpl.
  assert (Hdy0 : dyns st0 !! i = Some (sz =? kUnboundedSize)).
  { simpl. unfold MakeDynamicDimensions. by rewrite !list_lookup_fmap, Hi. }
  rewrite (Hk i _ _ Hdy0 Hi) in Hb. injection Hb as <-.
  destruct (Hp i _ _ Hi Hn) as [Hw [Hn0 Ha]]. pose proof unbounded_neg.
  unfold dim_admits, f, db_wf, IsUnboundedDynamicSize in *. simpl in *. split; [done|].
  destruct (Z.eqb_spec sz kUnboundedSize), (Z.eqb_spec bd kUnboundedSize); simpl in *; lia.
Qed.

(** C15: concatenate is sound for dynamic shapes: whatever run-time sizes
    the operands have, the sizes of the concatenation (the sum along the
    concatenated dimension, the common size elsewhere) are among those the
    inferred shape allows. *)
Theorem InferConcatOpShape_sound `{FloatLimits} (operands : list Shape) (dimension_ : Z)
    (nss : list (list Z)) (ns : list Z) (out : Shape) :
  InferConcatOpShape operands dimension_ = OK out ->
  Forall2 operand_admits operands nss ->
  concat_sizes dimension_ nss ns ->
  total_size dimension_ operands < two63 ->
  exists t st, out = ArrayShape t st /\ sizes_admit (dims st) (dyns st) ns.
Proof.
  intros HI HF Hcs Htot. unfold InferConcatOpShape in HI.
  destruct operands as [|first rest] eqn:Hops; [done|]. rewrite <- Hops in *.
  apply bind_OK in HI as (r0 & Hr0 & HI). apply bind_OK in HI as ([] & Hb & HI).
  apply ret_if_OK, orb_false_iff in Hb as [Hb1 Hb2].
  apply bind_OK in HI as (p & Hp & HI). apply ConcatCheck_loop in Hp.
  apply bind_OK in HI as (a & Ha & HI). apply bind_OK in HI as (r & Hr & HI).
  apply bind_OK in HI as (inf0 & H0 & HI). apply bind_OK in HI as (inferred & Hfold & HI).
  apply bind_OK in HI as (res & Hres & HI).
  assert (Hlen : forall s r, s ∈ operands -> rank s = OK r -> r = Zlen ns).
  { intros s r' Hs Hrs. apply list_elem_of_lookup in Hs as [i Hi].
    destruct (Forall2_lookup_l _ _ _ _ _ HF Hi) as (x & Hx & (t & st & -> & _ & Hlx & _)).
    pose proof (proj1 (Forall_lookup _ _) (proj1 Hcs) i x Hx) as Hxl. simpl in Hxl.
    injection Hrs as <-. unfold Zlen. congruence. }
  destruct (p.1) as [a'|]; [|by subst]. injection Ha as ->.
  rewrite (Hlen a r Hp Hr) in H0. rewrite (Hlen first r0) in Hb2; [|set_solver|done].
  apply set_at_OK in H0 as [_ ->].
  assert (Hdim : 0 <= dimension_ < Zlen ns) by lia.
  destruct (ConcatStep_loop dimension_ operands nss ns HF Hcs Htot Hdim
    (<[Z.to_nat dimension_ := (0, kUnboundedSize)]>
       (replicate (Z.to_nat (Zlen ns)) (kUnboundedSize, kUnboundedSize))) inferred)
    as [Hli Hpairs]; [| |exact Hfold|].
  - rewrite length_insert, length_replicate. unfold Zlen. lia.
  - intros i q Hq. destruct (Z.eqb_spec (Z.of_nat i) dimension_) as [<-|Hne].
    + rewrite Nat2Z.id, list_lookup_insert_eq in Hq; [by injection Hq|].
      rewrite length_replicate. unfold Zlen in *. lia.
    + rewrite list_lookup_insert_ne in Hq by lia. by apply lookup_replicate in Hq as [-> _].
  - exists (p.2). eapply concat_result; eauto.
Qed.

Lemma operand_admits_intro t ds dy ns :
  Forall (fun d => d = kUnboundedSize \/ 0 <= d < two63) ds ->
  Forall2 (fun p n => dim_admits p.1 p.2 n) (zip ds dy) ns -> length dy = length ds ->
  operand_admits (array_shape t ds dy) ns.
Proof.
  intros HF HF2 Hl. exists t. eexists. split; [done|]. split; [done|]. simpl.
  apply Forall2_length in HF2 as Hl2. rewrite length_zip in Hl2.
  split; [lia|]. split; [lia|]. intros i d b n Hd Hb Hn.
  destruct (Forall2_lookup_r _ _ _ _ _ HF2 Hn) as ([d' b'] & Hz & Ha).
  apply lookup_zip_with_Some in Hz as (d2 & b2 & [= -> ->] & ? & ?). simpl in Ha. congruence.
Qed.

Section ConcatWitness.
#[local] Instance concat_limits : FloatLimits := {|
  fl_digits _ := 24; fl_min_exponent _ := -125; fl_max_exponent _ := 128;
  fl_has_infinity _ := true; fl_has_nan _ := true; fl_has_negative_zero _ := true |}.

(** f32[3,<=4] and f32[3,?] along dimension 1, at sizes 3x2 and 3x7. *)
Lemma InferConcatOpShape_sound_witness :
  exists out, InferConcatOpShape
      [array_shape F32 [3; 4] [false; true]; array_shape F32 [3; kUnboundedSize] [false; true]] 1
    = OK out
  /\ exists t st, out = ArrayShape t st /\ sizes_admit (dims st) (dyns st) [3; 9].
Proof.
  eexists. split; [vm_compute; reflexivity|].
  eapply (InferConcatOpShape_sound
    [array_shape F32 [3; 4] [false; true]; array_shape F32 [3; kUnboundedSize] [false; true]] 1
    [[3; 2]; [3; 7]] [3; 9]).
  - vm_compute. reflexivity.
  - each_entry ltac:(apply operand_admits_intro; [| |reflexivity]; each_entry ltac:(
      first [left; reflexivity | right; split; [discriminate|reflexivity]
            | split; [discriminate|right; simpl; first [discriminate|reflexivity]]
            | split; [discriminate|left; reflexivity]])).
  - split; [each_entry ltac:(reflexivity)|]. split; [each_entry ltac:(lia)|].
    intros [|[|[|?]]] x; simpl; try discriminate; intros [= <-]; [each_entry ltac:(reflexivity)|reflexivity].
  - reflexivity.
Defined.
End ConcatWitness.

(** ** Bitcast-convert *)

Lemma set_element_type_array t st t' :
  IsArrayType t' = true -> set_element_type (ArrayShape t st) t' = OK (ArrayShape t' st).
Proof. by destruct t'. Qed.

Lemma filter_all_ne (l : list Z) x : x ∉ l -> filter (fun d => d <> x) l = l.
Proof.
  induction l as [|y l IH]; [done|]. rewrite not_elem_of_cons. intros [Hy Hl].
  rewrite filter_cons_True by congruence. by rewrite IH.
Qed.

(** Deleting the dimension that AppendMinorDimension added gives back the
    layout, and the shape, whether or not it has a layout. *)
Lemma Layout_append_delete (l : Layout) n :
  Zlen (minor_to_major l) = n -> Forall (fun d => d < n) (minor_to_major l) ->
  Layout_DeleteDimension (set_minor_to_major (n :: minor_to_major l) l) n = OK l.
Proof.
  intros Hn HF. unfold Layout_DeleteDimension. cbn [minor_to_major set_minor_to_major].
  pose proof (Zlen_nonneg (minor_to_major l)).
  assert (Hin : n ∉ minor_to_major l).
  { intros Hin. pose proof (proj1 (Forall_forall _ _) HF n Hin). simpl in *. lia. }
  assert (Hlen : Zlen (n :: minor_to_major l) = n + 1) by (unfold Zlen in *; simpl; lia).
  rewrite Hlen, (proj2 (Z.leb_le 0 n)), (proj2 (Z.ltb_lt n (n + 1))) by lia.
  cbn [check mbind outcome_bind]. rewrite filter_cons_False by congruence.
  rewrite filter_all_ne by done.
  assert (map (fun d => if n <? d then d - 1 else d) (minor_to_major l) = minor_to_major l) as ->.
  { rewrite <- map_id. apply map_ext_in. intros d Hd%list_elem_of_In.
    pose proof (proj1 (Forall_forall _ _) HF d Hd). by rewrite (proj2 (Z.ltb_ge _ _)) by (simpl in *; lia). }
  by destruct l.
Qed.

Lemma erase_last {A} (l : list A) x n : Zlen l = n -> erase_at (l ++ [x]) n = l.
Proof.
  intros <-. unfold erase_at, Zlen. rewrite Nat2Z.id, take_app_length.
  rewrite drop_ge by (rewrite length_app; simpl; lia). by rewrite app_nil_r.
Qed.

(** A layout that orders the dimensions of its shape. *)
Definition layout_fits (st : ArrayState) : Prop :=
  length (dyns st) = length (dims st)
  /\ forall l, array_layout st = Some l ->
       Zlen (minor_to_major l) = Zlen (dims st)
       /\ Forall (fun d => d < Zlen (dims st)) (minor_to_major l).

Lemma Append_Delete_dimension t st bound :
  IsArrayType t = true -> 0 <= bound -> layout_fits st ->
  exists st', AppendMinorDimension bound (ArrayShape t st) = OK (ArrayShape t st')
    /\ dims st' = dims st ++ [bound]
    /\ forall t', DeleteDimension (ArrayShape t' st') (Zlen (dims st)) = OK (ArrayShape t' st).
Proof.
  intros Ht Hb [Hl Hlay]. set (n := Zlen (dims st)) in *.
  set (lay := match array_layout st with
              | Some l => Some (set_minor_to_major (n :: minor_to_major l) l) | None => None end).
  exists (mkArrayState (dims st ++ [bound]) (dyns st ++ [false]) lay).
  split; [|split; [done|]].
  - unfold AppendMinorDimension, IsArray, IsArrayExcludingBuffer.
    cbn [element_type_including_buffer]. rewrite Ht. cbn [orb check mbind outcome_bind].
    unfold add_dimensions, UnsafeAddDimension. rewrite (proj2 (Z.ltb_ge _ _) Hb).
    cbn [mbind outcome_bind array_state]. rewrite bool_decide_eq_true_2 by done.
    cbn [check mbind outcome_bind with_array_state]. unfold lay, has_layout.
    cbn [array_state array_layout]. destruct (array_layout st) as [l|]; [|done].
    cbn [mbind outcome_bind with_array_state mutable_layout array_layout dims].
    by replace (Zlen (dims st ++ [bound]) - 1) with n
      by (rewrite Zlen_app; unfold n, Zlen; simpl; lia).
  - intros t'. unfold DeleteDimension. cbn [array_state mbind outcome_bind dims dyns array_layout].
    assert (Hlen : Zlen (dims st ++ [bound]) = n + 1) by (rewrite Zlen_app; done).
    pose proof (Zlen_nonneg (dims st)). fold n in H. rewrite Hlen.
    rewrite (proj2 (Z.leb_le 0 n)), (proj2 (Z.ltb_lt n (n + 1))) by lia.
    cbn [check mbind outcome_bind]. rewrite !erase_last by (unfold n, Zlen; lia). unfold lay.
    destruct (array_layout st) as [l|] eqn:EL; [|by destruct st; simpl in *; subst].
    destruct (Hlay l eq_refl) as [H1 H2]. rewrite (Layout_append_delete l n H1 H2).
    by destruct st; simpl in *; subst.
Qed.

(** bitcast-convert round trip: when a shape is converted to a
    narrower element type, which appends a dimension with the ratio of the
    widths, the conversion back to the original element type succeeds and
    infers exactly the original shape, its layout included. *)
Lemma InferBitcastConvertShape_roundtrip (t t' : PrimitiveType) (st : ArrayState) (out : Shape) :
  IsArrayType t = true -> layout_fits st -> PrimitiveTypeBitWidth t' < PrimitiveTypeBitWidth t ->
  InferBitcastConvertShape (ArrayShape t st) t' = OK out ->
  exists st', out = ArrayShape t' st'
    /\ dims st' = dims st ++ [PrimitiveTypeBitWidth t ÷ PrimitiveTypeBitWidth t']
    /\ InferBitcastConvertShape out t = OK (ArrayShape t st).
Proof.
  intros Ht Hfit Hw HI. unfold InferBitcastConvertShape, IsArrayExcludingBuffer in HI.
  cbn [element_type element_type_including_buffer] in HI. rewrite Ht in HI. outcome_simp.
  rename H0 into Ht'. unfold BitWidth, WidthForType in *. rewrite Ht in *. rewrite Ht' in *.
  injection E1 as <-. injection E2 as <-. rewrite (set_element_type_array _ _ _ Ht') in E4.
  injection E4 as <-. rewrite (proj2 (Z.ltb_lt _ _) Hw) in HI.
  rewrite Z.max_l, Z.min_r in HI, E3 by lia.
  set (w := PrimitiveTypeBitWidth t) in *. set (w' := PrimitiveTypeBitWidth t') in *.
  assert (Hq : 0 <= w ÷ w') by (apply Z.quot_pos; [by destruct t|by destruct t']).
  destruct (Append_Delete_dimension t' st _ Ht' Hq Hfit) as (st' & HA & Hds & HD).
  rewrite HA in HI. injection HI as <-. exists st'. split; [done|]. split; [done|].
  unfold InferBitcastConvertShape, IsArrayExcludingBuffer.
  cbn [element_type element_type_including_buffer]. apply eqb_prop in E.
  rewrite E, eqb_reflx, Ht, Ht'.
  unfold BitWidth, WidthForType. rewrite Ht, Ht'. cbn [require ret_if negb orb mbind outcome_bind].
  fold w w'. rewrite Z.max_r, Z.min_l, E3 by lia. cbn [require mbind outcome_bind].
  rewrite (set_element_type_array _ _ _ Ht). cbn [mbind outcome_bind].
  rewrite (proj2 (Z.ltb_ge w w')), (proj2 (Z.ltb_lt w' w)) by lia.
  unfold dimensions, dimension. cbn [array_state mbind outcome_bind]. rewrite Hds.
  assert (Hlen : Zlen (dims st ++ [w ÷ w']) - 1 = Zlen (dims st)).
  { rewrite Zlen_app. unfold Zlen at 2. simpl. lia. }
  rewrite Hlen, bool_decide_eq_false_2 by (destruct (dims st); done).
  assert (Hat : at_ (dims st ++ [w ÷ w']) (Zlen (dims st)) = OK (w ÷ w')).
  { apply at_lookup. by rewrite lookup_app_r, Nat.sub_diag. }
  rewrite Hat. cbn [mbind outcome_bind]. rewrite Z.eqb_refl. apply HD.
Qed.

Lemma InferBitcastConvertShape_roundtrip_witness :
  exists st', array_shape S8 [3; 5; 4] [true; false; false] = ArrayShape S8 st'
    /\ dims st' = [3; 5] ++ [32 ÷ 8]
    /\ InferBitcastConvertShape (array_shape S8 [3; 5; 4] [true; false; false]) F32
       = OK (array_shape F32 [3; 5] [true; false]).
Proof.
  apply (InferBitcastConvertShape_roundtrip F32 S8
    (mkArrayState [3; 5] [true; false] (Some (MakeDescendingLayout 2)))).
  - reflexivity.
  - split; [reflexivity|]. intros l. cbn. intros [= <-]. split; [reflexivity|].
    each_entry ltac:(unfold Zlen; simpl; lia).
  - reflexivity.
  - vm_compute. reflexivity.
Defined.
