(* ===== verification/InferDot.v ===== *)
(** * Shape inference: dot and ragged dot

    xla/service/shape_inference.cc, ValidateDotDimensionNumbers to
    InferRaggedDotOpShape. *)

From S2P Require Import Prelude MachineInt PermutationUtil Primitive Shape ShapeUtil IndexUtil InferBasic.

(** DotDimensionNumbers and RaggedDotDimensionNumbers (xla_data.proto). *)
Record DotDimensionNumbers := mkDotDimensionNumbers {
  lhs_contracting_dimensions : list Z;
  rhs_contracting_dimensions : list Z;
  lhs_batch_dimensions : list Z;
  rhs_batch_dimensions : list Z;
}.
Record RaggedDotDimensionNumbers := mkRaggedDotDimensionNumbers {
  dot_dimension_numbers : DotDimensionNumbers;
  lhs_ragged_dimensions : list Z;
  rhs_group_dimensions : list Z;
}.

(** The lambdas of ValidateDotDimensionNumbers. *)
Definition dims_in_range (rank : Z) (contracting_dims batch_dims : list Z) : bool :=
  let in_range := fun i => (0 <=? i) && (i <? rank) in
  forallb in_range contracting_dims && forallb in_range batch_dims.
Definition dims_unique (contracting_dims batch_dims : list Z) : bool :=
  AllUnique (contracting_dims ++ batch_dims).

Definition ValidateDotDimensionNumbers (lhs rhs : Shape) (dn : DotDimensionNumbers) : outcome () :=
  lr ← rank lhs;
  rr ← rank rhs;
  _ ← require (dims_in_range lr (lhs_contracting_dimensions dn) (lhs_batch_dimensions dn)
               && dims_in_range rr (rhs_contracting_dimensions dn) (rhs_batch_dimensions dn))
              kInvalidArgument;
  require (dims_unique (lhs_contracting_dimensions dn) (lhs_batch_dimensions dn)
           && dims_unique (rhs_contracting_dimensions dn) (rhs_batch_dimensions dn))
          kInvalidArgument.

(** The sizes of two lists of dimensions agree pairwise. *)
Definition CheckDimensionPairs (lhs rhs : Shape) (ls rs : list Z) : outcome () :=
  _ ← require (bool_decide (length ls = length rs)) kInvalidArgument;
  forM_ (zip ls rs) (fun '(l, r) =>
    x ← dimension lhs l;
    y ← dimension rhs r;
    require (CompatibleDimensionSizes x y) kInvalidArgument).

Definition CheckDotDimensionConstraints (lhs rhs : Shape) (dn : DotDimensionNumbers) : outcome () :=
  _ ← CheckDimensionPairs lhs rhs (lhs_contracting_dimensions dn) (rhs_contracting_dimensions dn);
  CheckDimensionPairs lhs rhs (lhs_batch_dimensions dn) (rhs_batch_dimensions dn).

(** push_back of a dimension and its dynamic flag. *)
Definition dim_entry (s : Shape) (i : Z) : outcome (Z * bool) :=
  d ← dimension s i; b ← is_dynamic_dimension s i; OK (d, b).

(** The dimensions of an operand that are in none of the given lists. *)
Definition free_dimensions (s : Shape) (excluded : list Z) : outcome (list Z) :=
  r ← rank s; OK (filter (fun i => contains excluded i = false) (seqZ 0 r)).

Definition GenerateDotResultDimensions (lhs rhs : Shape) (dn : DotDimensionNumbers)
    (dims : list (Z * bool)) (group_dimensions : list Z) : outcome (list (Z * bool)) :=
  batch ← mapM (dim_entry lhs) (lhs_batch_dimensions dn);
  l ← free_dimensions lhs (lhs_contracting_dimensions dn ++ lhs_batch_dimensions dn);
  l ← mapM (dim_entry lhs) l;
  r ← free_dimensions rhs
        (rhs_contracting_dimensions dn ++ rhs_batch_dimensions dn ++ group_dimensions);
  r ← mapM (dim_entry rhs) r;
  OK (dims ++ batch ++ l ++ r).

Section Dot.
Context `{FloatLimits}.

(** The argument of value_or is evaluated in any case. *)
Definition PreferredElementType (lhs rhs : Shape) (preferred : option PrimitiveType) :
    outcome PrimitiveType :=
  t ← HigherPrecisionElementType lhs rhs;
  OK (match preferred with Some p => p | None => t end).

Definition InferDotOpShape (lhs rhs : Shape) (dn : DotDimensionNumbers)
    (preferred_element_type : option PrimitiveType) : outcome Shape :=
  _ ← ExpectArray lhs;
  _ ← ExpectArray rhs;
  _ ← ValidateDotDimensionNumbers lhs rhs dn;
  _ ← CheckDotDimensionConstraints lhs rhs dn;
  out ← GenerateDotResultDimensions lhs rhs dn [] [];
  t ← PreferredElementType lhs rhs preferred_element_type;
  MakeShape_dyn t (map fst out) (map snd out).

Inductive Mode := kNonContracting | kContracting | kBatch.

(** [first .. find(x)) of a list: the elements before the first [x]. *)
Fixpoint before (x : Z) (l : list Z) : list Z :=
  match l with
  | [] => []
  | y :: l => if y =? x then [] else y :: before x l
  end.

Definition RaggedMode (dn : DotDimensionNumbers) (lhs_ragged_dimension : Z) : Mode :=
  if contains (lhs_batch_dimensions dn) lhs_ragged_dimension then kBatch
  else if contains (lhs_contracting_dimensions dn) lhs_ragged_dimension then kContracting
  else kNonContracting.

(** The dimensions b..., x... of the expected shape of group_sizes. *)
Definition GroupSizesPrefixDims (lhs : Shape) (dn : DotDimensionNumbers) (mode : Mode)
    (lhs_ragged_dimension : Z) : outcome (list Z) :=
  lhs_non_contracting_dims ←
    free_dimensions lhs (lhs_contracting_dimensions dn ++ lhs_batch_dimensions dn);
  OK (match mode with
      | kBatch => before lhs_ragged_dimension (lhs_batch_dimensions dn)
      | kContracting =>
          lhs_batch_dimensions dn ++ before lhs_ragged_dimension (lhs_contracting_dimensions dn)
      | kNonContracting =>
          lhs_batch_dimensions dn ++ before lhs_ragged_dimension lhs_non_contracting_dims
      end).

Definition InferRaggedDotOpShape (lhs rhs group_sizes : Shape)
    (ragged_dot_dim_nums : RaggedDotDimensionNumbers)
    (preferred_element_type : option PrimitiveType) : outcome Shape :=
  _ ← ExpectArray lhs;
  _ ← ExpectArray rhs;
  _ ← ExpectArray group_sizes;
  let dn := dot_dimension_numbers ragged_dot_dim_nums in
  _ ← ValidateDotDimensionNumbers lhs rhs dn;
  _ ← CheckDotDimensionConstraints lhs rhs dn;
  _ ← require (Zlen (lhs_ragged_dimensions ragged_dot_dim_nums) =? 1) kInvalidArgument;
  lhs_ragged_dimension ← at_ (lhs_ragged_dimensions ragged_dot_dim_nums) 0;
  lr ← rank lhs;
  _ ← ret_if ((lhs_ragged_dimension <? 0) || (lr <=? lhs_ragged_dimension)) kInvalidArgument;
  let mode := RaggedMode dn lhs_ragged_dimension in
  prefix_dims ← GroupSizesPrefixDims lhs dn mode lhs_ragged_dimension;
  expected_prefix ← mapM (dimension lhs) prefix_dims;
  gds ← dimensions group_sizes;
  _ ← (if Zlen gds =? 1 then OK ()
       else
         _ ← require (Zlen gds =? Zlen expected_prefix + 1) kInvalidArgument;
         require (bool_decide (expected_prefix = take (length gds - 1) gds)) kInvalidArgument);
  num_groups ← at_ gds (Zlen gds - 1);
  gdy ← dynamic_dimensions group_sizes;
  is_dynamic_group_sizes ← at_ gdy (Zlen gdy - 1);
  rr ← rank rhs;
  let group_dims := rhs_group_dimensions ragged_dot_dim_nums in
  _ ← forM_ group_dims (fun rhs_group_dim =>
        _ ← ret_if ((rhs_group_dim <? 0) || (rr <=? rhs_group_dim)) kInvalidArgument;
        ret_if (contains (rhs_batch_dimensions dn) rhs_group_dim
                || contains (rhs_contracting_dimensions dn) rhs_group_dim) kInvalidArgument);
  _ ← (match mode with
       | kBatch | kContracting => require (bool_decide (group_dims = [])) kInvalidArgument
       | kNonContracting =>
           _ ← require (Zlen group_dims =? 1) kInvalidArgument;
           rhs_group_dim ← at_ group_dims 0;
           d ← dimension rhs rhs_group_dim;
           require (CompatibleDimensionSizes num_groups d) kInvalidArgument
       end);
  t ← PreferredElementType lhs rhs preferred_element_type;
  let initial := match mode with
                 | kContracting => [(num_groups, is_dynamic_group_sizes)]
                 | _ => []
                 end in
  out ← GenerateDotResultDimensions lhs rhs dn initial group_dims;
  MakeShape_dyn t (map fst out) (map snd out).
End Dot.

(** ** What dot infers *)

(** The dynamic flags at some dimensions; [sel] of IndexUtil for sizes. *)
Definition sel_dyn (dy : list bool) (m : list Z) : list bool :=
  map (fun j => nth (Z.to_nat j) dy false) m.

Lemma at_nth_gen {A} (l : list A) i x d : at_ l i = OK x -> x = nth (Z.to_nat i) l d.
Proof. intros [_ Hl]%at_OK%idx_Some. by rewrite nth_lookup, Hl. Qed.

Lemma dim_entries t st m es :
  mapM (dim_entry (ArrayShape t st)) m = OK es ->
  map fst es = sel (dims st) m /\ map snd es = sel_dyn (dyns st) m.
Proof.
  intros HF%mapM_OK. induction HF as [|i [d b] m es HE _ [IH1 IH2]]; [done|].
  unfold dim_entry, dimension, is_dynamic_dimension in HE. cbn [array_state mbind outcome_bind] in HE.
  outcome_simp. simpl. rewrite IH1, IH2.
  by rewrite (at_nth_gen _ _ _ 0 E), (at_nth_gen _ _ _ false E0).
Qed.

(** The dimensions below [n] that are not in [e], in increasing order. *)
Definition free_of (e : list Z) (n : Z) : list Z :=
  filter (fun i => contains e i = false) (seqZ 0 n).

(** The dimensions that are listed and those that are free partition the
    dimensions of the operand. *)
Lemma free_partition (e : list Z) n :
  NoDup e -> Forall (fun i => 0 <= i < n) e ->
  e ++ free_of e n ≡ₚ seqZ 0 n.
Proof.
  intros He Hr. unfold free_of. apply NoDup_Permutation.
  - apply NoDup_app. split; [done|]. split.
    + intros x Hx [Hc _]%list_elem_of_filter. apply contains_spec in Hx. congruence.
    + apply NoDup_filter, NoDup_seqZ.
  - apply NoDup_seqZ.
  - intros x. rewrite elem_of_app, list_elem_of_filter. split.
    + intros [Hx|[_ Hx]]; [|done]. pose proof (proj1 (Forall_forall _ _) Hr x Hx).
      apply elem_of_seqZ. simpl in *. lia.
    + intros Hx. destruct (contains e x) eqn:Ec; [left; by apply contains_spec|by right].
Qed.

Lemma partition_prod ds m : m ≡ₚ seqZ 0 (Zlen ds) -> prod (sel ds m) = prod ds.
Proof.
  intros Hm. assert (Hlen : length m = length ds).
  { rewrite Hm, length_seqZ. unfold Zlen. lia. }
  apply prod_perm, sel_perm; [|done]. unfold is_perm, indices, Zlen. by rewrite Hlen.
Qed.

Lemma sel_app ds m1 m2 : sel ds (m1 ++ m2) = sel ds m1 ++ sel ds m2.
Proof. apply map_app. Qed.

Definition compatible_sizes (x y : Z) : Prop := x = y \/ x = kUnboundedSize \/ y = kUnboundedSize.

(** Pairs of compatible static dimensions have equal sizes. *)
Lemma CheckDimensionPairs_sel t1 st1 t2 st2 ls rs :
  CheckDimensionPairs (ArrayShape t1 st1) (ArrayShape t2 st2) ls rs = OK () ->
  Forall (fun d => 0 <= d) (dims st1) -> Forall (fun d => 0 <= d) (dims st2) ->
  sel (dims st1) ls = sel (dims st2) rs.
Proof.
  unfold CheckDimensionPairs. intros HC H1 H2. outcome_simp. apply bool_decide_eq_true in E.
  apply forM_OK in HC. revert rs E HC; induction ls as [|l ls IH]; intros [|r rs] E HC; try done.
  simpl in HC. apply Forall_cons in HC as [HC HF]. injection E as E. simpl. rewrite (IH rs E HF). f_equal.
  unfold dimension in HC. cbn [array_state mbind outcome_bind] in HC. outcome_simp.
  rewrite <- (at_nth_gen _ _ _ 0 E0), <- (at_nth_gen _ _ _ 0 E1).
  assert (Hnn : forall (ds : list Z) i x, Forall (fun d => 0 <= d) ds -> at_ ds i = OK x -> 0 <= x).
  { intros ds i x HA [_ Hl]%at_OK%idx_Some. by apply (Forall_lookup_1 _ _ _ _ HA Hl). }
  unfold CompatibleDimensionSizes, IsUnboundedDynamicSize in HC.
  rewrite !eqb_unbounded in HC by eauto. simpl in HC. lia.
Qed.

(** Pairs of dimensions are compatible: of equal sizes, or one is unbounded. *)
Lemma CheckDimensionPairs_compatible t1 st1 t2 st2 ls rs :
  CheckDimensionPairs (ArrayShape t1 st1) (ArrayShape t2 st2) ls rs = OK () ->
  Forall2 compatible_sizes (sel (dims st1) ls) (sel (dims st2) rs).
Proof.
  unfold CheckDimensionPairs. intros HC. outcome_simp. apply bool_decide_eq_true in E.
  apply forM_OK in HC. revert rs E HC; induction ls as [|l ls IH]; intros [|r rs] E HC; try done.
  simpl in HC. apply Forall_cons in HC as [HC HF]. injection E as E. simpl. constructor; [|by apply IH].
  unfold dimension in HC. cbn [array_state mbind outcome_bind] in HC. outcome_simp.
  rewrite <- (at_nth_gen _ _ _ 0 E0), <- (at_nth_gen _ _ _ 0 E1).
  unfold CompatibleDimensionSizes, IsUnboundedDynamicSize in HC. unfold compatible_sizes.
  destruct (Z.eqb_spec v kUnboundedSize), (Z.eqb_spec v0 kUnboundedSize), (Z.eqb_spec v v0); tauto || done.
Qed.

(** The listed dimensions of an operand that passed the validation. *)
Lemma dims_checked (n : Z) (c b : list Z) :
  dims_in_range n c b = true -> dims_unique c b = true ->
  NoDup (c ++ b) /\ Forall (fun i => 0 <= i < n) (c ++ b).
Proof.
  unfold dims_in_range, dims_unique, AllUnique. intros [Hc Hb]%andb_true_iff HU%bool_decide_eq_true.
  split; [done|]. rewrite forallb_forall in Hc, Hb. apply Forall_app. split; apply Forall_forall.
  - intros x Hx%list_elem_of_In. specialize (Hc x Hx). simpl in *. lia.
  - intros x Hx%list_elem_of_In. specialize (Hb x Hx). simpl in *. lia.
Qed.

Section DotTheorems.
Context `{FloatLimits}.

(** C18: what dot inference accepts and returns: the contracting, the batch
    and the remaining free dimensions partition the dimensions of each operand, the
    result has the batch dimensions, the free ones of the left and the free
    ones of the right operand in this order, with their dynamic flags; contracted and batch
    sizes are pairwise equal where neither is unbounded; and for operands without
    unbounded dimensions the element counts satisfy
    [|out| * |contract|^2 * |batch| = |lhs| * |rhs|]. *)
Theorem InferDotOpShape_sound (t1 t2 : PrimitiveType) (st1 st2 : ArrayState)
    (dn : DotDimensionNumbers) (preferred : option PrimitiveType) (out : Shape) :
  InferDotOpShape (ArrayShape t1 st1) (ArrayShape t2 st2) dn preferred = OK out ->
  exists t,
    let lc := lhs_contracting_dimensions dn in
    let rc := rhs_contracting_dimensions dn in
    let lb := lhs_batch_dimensions dn in
    let rb := rhs_batch_dimensions dn in
    let fl := free_of (lc ++ lb) (Zlen (dims st1)) in
    let fr := free_of (rc ++ rb) (Zlen (dims st2)) in
    let sizes := sel (dims st1) lb ++ sel (dims st1) fl ++ sel (dims st2) fr in
    out = array_shape t sizes (sel_dyn (dyns st1) lb ++ sel_dyn (dyns st1) fl ++ sel_dyn (dyns st2) fr)
    /\ (lc ++ lb) ++ fl ≡ₚ seqZ 0 (Zlen (dims st1)) /\ (rc ++ rb) ++ fr ≡ₚ seqZ 0 (Zlen (dims st2))
    /\ Forall2 compatible_sizes (sel (dims st1) lc) (sel (dims st2) rc)
    /\ Forall2 compatible_sizes (sel (dims st1) lb) (sel (dims st2) rb)
    /\ (Forall (fun d => 0 <= d) (dims st1) -> Forall (fun d => 0 <= d) (dims st2) ->
        sel (dims st1) lc = sel (dims st2) rc /\ sel (dims st1) lb = sel (dims st2) rb
        /\ prod sizes * (prod (sel (dims st1) lc) * prod (sel (dims st1) lc)) * prod (sel (dims st1) lb)
           = prod (dims st1) * prod (dims st2)).
Proof.
  intros HI. unfold InferDotOpShape in HI. outcome_simp.
  unfold ValidateDotDimensionNumbers in E1. rewrite !rank_array in E1.
  cbn [mbind outcome_bind] in E1. outcome_simp.
  destruct (dims_checked _ _ _ H2 H0) as [HN1 HR1]. destruct (dims_checked _ _ _ H3 H1) as [HN2 HR2].
  unfold GenerateDotResultDimensions, free_dimensions in E3. rewrite !rank_array in E3.
  cbn [mbind outcome_bind] in E3. rewrite app_nil_r in E3. outcome_simp.
  apply dim_entries in E1 as [Hb1 Hb2], E5 as [Hl1 Hl2], E6 as [Hr1 Hr2].
  exists v4. cbn zeta. apply MakeShape_dyn_OK in HI as [_ ->]. simpl. rewrite !map_app.
  rewrite Hb1, Hb2, Hl1, Hl2, Hr1, Hr2. split; [done|].
  pose proof (free_partition _ _ HN1 HR1) as HP1. pose proof (free_partition _ _ HN2 HR2) as HP2.
  unfold CheckDotDimensionConstraints in E2. outcome_simp.
  split; [done|]. split; [done|]. split; [by eapply CheckDimensionPairs_compatible|]. split; [by eapply CheckDimensionPairs_compatible|]. intros Hn1 Hn2.
  pose proof (CheckDimensionPairs_sel _ _ _ _ _ _ E1 Hn1 Hn2) as Hc.
  pose proof (CheckDimensionPairs_sel _ _ _ _ _ _ E2 Hn1 Hn2) as Hb.
  split; [done|]. split; [done|].
  pose proof (partition_prod _ _ HP1) as HQ1. pose proof (partition_prod _ _ HP2) as HQ2.
  rewrite !sel_app, !prod_app in HQ1, HQ2. rewrite !prod_app. rewrite <- HQ1, <- HQ2, <- Hc, <- Hb.
  unfold free_of, Zlen. ring.
Qed.
End DotTheorems.

Section DotWitness.
#[local] Instance dot_limits : FloatLimits := {|
  fl_digits _ := 24; fl_min_exponent _ := -125; fl_max_exponent _ := 128;
  fl_has_infinity _ := true; fl_has_nan _ := true; fl_has_negative_zero _ := true |}.

(** f32[2,3,4] by f32[2,4,5], a batch of 2 matrix products. *)
Lemma InferDotOpShape_sound_witness :
  InferDotOpShape (array_shape F32 [2; 3; 4] [false; true; false])
      (array_shape F32 [2; 4; 5] [false; false; false]) (mkDotDimensionNumbers [2] [1] [0] [0]) None
    = OK (array_shape F32 [2; 3; 5] [false; true; false])
  /\ prod [2; 3; 5] * (prod [4] * prod [4]) * prod [2] = prod [2; 3; 4] * prod [2; 4; 5].
Proof.
  split; [vm_compute; reflexivity|].
  destruct (InferDotOpShape_sound F32 F32
    (mkArrayState [2; 3; 4] [false; true; false] None)
    (mkArrayState [2; 4; 5] [false; false; false] None)
    (mkDotDimensionNumbers [2] [1] [0] [0]) None
    (array_shape F32 [2; 3; 5] [false; true; false])) as (t & _ & _ & _ & _ & _ & Hc).
  - vm_compute. reflexivity.
  - destruct Hc as (_ & _ & Hc); [each_entry ltac:(lia)|each_entry ltac:(lia)|exact Hc].
Defined.
End DotWitness.
