(* ===== verification/InferElementwise.v ===== *)
(** * Shape inference: elementwise operations and broadcasting

    xla/service/shape_inference.cc, InferDegenerateDimensionBroadcastShape to
    InferMapShape, with InferClampShape and InferSelectShape. *)

From S2P Require Import Prelude MachineInt PermutationUtil Primitive Shape ShapeUtil InferBasic.

Section Elementwise.
Context `{FloatLimits}.

(** ** Broadcasting *)

(** One output dimension of InferDegenerateDimensionBroadcastShape. *)
Definition DegenerateDimension (ld : Z) (ldyn : bool) (rd : Z) (rdyn : bool) :
    outcome (Z * bool) :=
  if (ld =? 1) || (rd =? 1) then
    OK (if ld =? 1 then rd else ld, if ld =? 1 then rdyn else ldyn)
  else if ld =? rd then OK (ld, ldyn || rdyn)
  else if (ld =? kUnboundedSize) || (rd =? kUnboundedSize) then
    OK (if ld =? kUnboundedSize then rd else ld, if ld =? kUnboundedSize then rdyn else ldyn)
  else Err kInvalidArgument.

Definition InferDegenerateDimensionBroadcastShape (lhs rhs : Shape) : outcome Shape :=
  same ← SameRank lhs rhs;
  _ ← require same kInternal;
  r ← rank lhs;
  out ← mapM (fun i =>
               ld ← dimension lhs i; rd ← dimension rhs i;
               ldyn ← is_dynamic_dimension lhs i; rdyn ← is_dynamic_dimension rhs i;
               DegenerateDimension ld ldyn rd rdyn)
             (seqZ 0 r);
  t ← HigherPrecisionElementType lhs rhs;
  MakeShape_dyn t (map fst out) (map snd out).

(** One iteration of InferInDimBroadcastShape's loop. *)
Definition InDimBroadcastStep (smaller_shape larger_shape : Shape)
    (broadcast_dimensions : list Z) (output_shape : Shape) (i : Z) : outcome Shape :=
  dimension_to_match ← at_ broadcast_dimensions i;
  _ ← ret_if (dimension_to_match <? 0) kInvalidArgument;
  lr ← rank larger_shape;
  _ ← ret_if (lr <=? dimension_to_match) kInvalidArgument;
  small_dimension_size ← dimension smaller_shape i;
  large_dimension_size ← dimension larger_shape dimension_to_match;
  small_is_dynamic ← is_dynamic_dimension smaller_shape i;
  large_is_dynamic ← is_dynamic_dimension larger_shape dimension_to_match;
  _ ← ret_if (negb (small_dimension_size =? large_dimension_size)
              && negb (small_dimension_size =? 1) && negb (large_dimension_size =? 1))
             kInvalidArgument;
  _ ← (if eqb small_is_dynamic large_is_dynamic then OK ()
       else require ((small_dimension_size =? large_dimension_size)
                     || ((small_dimension_size =? 1) && negb small_is_dynamic)
                     || ((large_dimension_size =? 1) && negb large_is_dynamic))
                    kInvalidArgument);
  _ ← (if 0 <? i then
         previous ← at_ broadcast_dimensions (i - 1);
         ret_if (dimension_to_match <=? previous) kInvalidArgument
       else OK ());
  set_dimensions output_shape dimension_to_match small_dimension_size (Some small_is_dynamic).

Definition InferInDimBroadcastShape (smaller_shape larger_shape : Shape)
    (broadcast_dimensions : list Z) : outcome Shape :=
  scalar ← (if bool_decide (broadcast_dimensions = []) then IsScalar smaller_shape else OK true);
  _ ← require scalar kInvalidArgument;
  sr ← rank smaller_shape;
  _ ← require (Zlen broadcast_dimensions =? sr) kInvalidArgument;
  t ← HigherPrecisionElementType larger_shape smaller_shape;
  output_shape ← set_element_type larger_shape t;
  foldM (InDimBroadcastStep smaller_shape larger_shape broadcast_dimensions)
        output_shape (seqZ 0 sr).

Definition InferElementwiseBinaryOpShape (operation : HloOpcode) (lhs rhs : Shape)
    (broadcast_dimensions : list Z) : outcome Shape :=
  _ ← ExpectArray lhs;
  _ ← ExpectArray rhs;
  _ ← require (SameElementTypeIgnoringFpPrecision lhs rhs) kInvalidArgument;
  lr ← rank lhs;
  rr ← rank rhs;
  _ ← ret_if ((lr =? rr) && negb (bool_decide (broadcast_dimensions = []))
              && negb (bool_decide (broadcast_dimensions = seqZ 0 lr))) kInvalidArgument;
  _ ← ret_if (bool_decide (operation = kAtan2)
              && negb (ElementIsFloating lhs) && negb (ElementIsComplex lhs)) kInvalidArgument;
  bounded ← (if CompatibleIgnoringFpPrecision lhs rhs then
               lu ← is_unbounded_dynamic lhs;
               if (lu : bool) then OK false
               else ru ← is_unbounded_dynamic rhs; OK (negb ru)
             else OK false);
  if (bounded : bool) then
    t ← HigherPrecisionElementType lhs rhs;
    res ← ChangeElementType lhs t;
    foldM (fun res i =>
             dyn ← is_dynamic_dimension rhs i;
             if (dyn : bool) then set_dynamic_dimension res i true else OK res)
          res (seqZ 0 rr)
  else if lr =? rr then InferDegenerateDimensionBroadcastShape lhs rhs
  else
    let larger_shape := if rr <? lr then lhs else rhs in
    let smaller_shape := if rr <? lr then rhs else lhs in
    indim_broadcast_shape ←
      InferInDimBroadcastShape smaller_shape larger_shape broadcast_dimensions;
    InferDegenerateDimensionBroadcastShape indim_broadcast_shape larger_shape.

Definition InferScalarBroadcastShape (shapes : list Shape) : outcome (option Shape) :=
  foldM (fun broadcasted_shape shape =>
           empty ← (if IsArrayExcludingBuffer shape
                    then ds ← dimensions shape; OK (bool_decide (ds = [])) else OK true);
           if (empty : bool) then OK broadcasted_shape
           else
             let b := match broadcasted_shape with Some b => b | None => shape end in
             same ← SameDimensions b shape;
             _ ← require same kInternal;
             OK (Some b))
        None shapes.

(** ** Binary operations *)

Definition InferBinaryOpShape (opcode : HloOpcode) (lhs rhs : Shape)
    (broadcast_dimensions : list Z) : outcome Shape :=
  _ ← ExpectArray lhs;
  _ ← ExpectArray rhs;
  match opcode with
  | kAdd | kMaximum | kMinimum | kMultiply =>
      InferElementwiseBinaryOpShape opcode lhs rhs broadcast_dimensions
  | kSubtract | kAtan2 | kPower | kDivide | kRemainder | kShiftLeft | kShiftRightArithmetic
  | kShiftRightLogical =>
      _ ← ret_if ((element_type lhs =?? PRED) || (element_type rhs =?? PRED)) kInvalidArgument;
      InferElementwiseBinaryOpShape opcode lhs rhs broadcast_dimensions
  | kComplex =>
      _ ← require (ElementIsFloating lhs) kInvalidArgument;
      shape ← InferElementwiseBinaryOpShape opcode lhs rhs broadcast_dimensions;
      if (element_type lhs =?? F32) && (element_type rhs =?? F32) then ChangeElementType shape C64
      else if (element_type lhs =?? F64) && (element_type rhs =?? F64)
      then ChangeElementType shape C128
      else Err kUnimplemented
  | kAnd | kOr | kXor =>
      _ ← require ((element_type lhs =?? PRED) || IsIntegralType (element_type lhs))
                  kInvalidArgument;
      InferElementwiseBinaryOpShape opcode lhs rhs broadcast_dimensions
  | kCompare =>
      shape ← InferElementwiseBinaryOpShape opcode lhs rhs broadcast_dimensions;
      ChangeElementType shape PRED
  | _ => Err kUnimplemented
  end.

(** ** Clamp, select, and the ternary and variadic dispatchers *)

Definition InferClampShape (min operand max : Shape) : outcome Shape :=
  _ ← ExpectArray min;
  _ ← ExpectArray operand;
  _ ← ExpectArray max;
  _ ← require (SameElementTypeIgnoringFpPrecision min operand
               && SameElementTypeIgnoringFpPrecision max operand
               && SameElementTypeIgnoringFpPrecision min max) kInvalidArgument;
  min_scalar ← IsScalar min;
  max_scalar ← IsScalar max;
  _ ← ret_if ((negb min_scalar && negb (CompatibleIgnoringFpPrecision min operand))
              || (negb max_scalar && negb (CompatibleIgnoringFpPrecision max operand))
              || (negb min_scalar && negb max_scalar
                  && negb (CompatibleIgnoringFpPrecision min max))) kInvalidArgument;
  OK operand.

(** One dimension of InferSelectShape's result; [*inferred] of an error
    status aborts. *)
Definition SelectDimension (pred on_true on_false : Shape) (pred_scalar : bool)
    (res : Shape) (i : Z) : outcome Shape :=
  tu ← is_unbounded_dynamic_dimension on_true i;
  fu ← (if (tu : bool) then OK true else is_unbounded_dynamic_dimension on_false i);
  td ← is_dynamic_dimension on_true i;
  fd ← is_dynamic_dimension on_false i;
  if (fu : bool) then
    t ← dimension on_true i;
    f ← dimension on_false i;
    inferred ← value_or_die (InferMostSpecificDimAndBound t f t f);
    set_dimensions res i (inferred.1) (Some (td && fd))
  else
    pd ← (if pred_scalar then OK false else is_dynamic_dimension pred i);
    set_dynamic_dimension res i (pd || td || fd).

Definition InferSelectShape (pred on_true on_false : Shape) : outcome Shape :=
  _ ← ExpectArray pred;
  _ ← ExpectArray on_true;
  _ ← ExpectArray on_false;
  _ ← require (CompatibleIgnoringFpPrecision on_true on_false) kInvalidArgument;
  _ ← require (element_type pred =?? PRED) kInvalidArgument;
  pred_scalar ← IsScalar pred;
  _ ← ret_if ((negb pred_scalar
               && (negb (CompatibleIgnoringElementType pred on_true)
                   || negb (CompatibleIgnoringElementType pred on_false)))
              || negb (CompatibleIgnoringFpPrecision on_true on_false)) kInvalidArgument;
  let full_rank_shape := if (pred_scalar : bool) then on_true else pred in
  t ← HigherPrecisionElementType on_true on_false;
  res ← ChangeElementType full_rank_shape t;
  r ← rank full_rank_shape;
  res ← foldM (SelectDimension pred on_true on_false pred_scalar) res (seqZ 0 r);
  if has_layout res then
    l ← shape_layout on_true;
    st ← array_state res;
    OK (with_array_state res
          (mutable_layout st (set_element_size_in_bits (element_size_in_bits l))))
  else OK res.

Definition InferTernaryOpShape (opcode : HloOpcode) (lhs rhs ehs : Shape) : outcome Shape :=
  match opcode with
  | kClamp => InferClampShape lhs rhs ehs
  | kSelect => InferSelectShape lhs rhs ehs
  | _ => Err kInvalidArgument
  end.

Definition InferVariadicOpShape (opcode : HloOpcode) (operand_shapes : list Shape) :
    outcome Shape :=
  match opcode with
  | kTuple =>
      res ← MakeTupleShape [];
      shapes ← tuple_shapes res;
      OK (TupleShape (shapes ++ operand_shapes))
  | kSort =>
      if Zlen operand_shapes =? 1 then at_ operand_shapes 0
      else
        _ ← forM_ (seqZ 1 (Zlen operand_shapes - 1)) (fun i =>
              keys ← at_ operand_shapes 0;
              values ← at_ operand_shapes i;
              same ← SameDimensions keys values;
              require same kInvalidArgument);
        MakeTupleShape operand_shapes
  | _ => Err kInvalidArgument
  end.

(** ** Map *)

(** The operand the mapped shape is taken from. *)
Definition MapArgStep (arg_shape shape : Shape) : outcome Shape :=
  _ ← ExpectArray shape;
  if CompatibleIgnoringElementType shape arg_shape then OK arg_shape
  else if SameElementTypeIgnoringFpPrecision shape arg_shape then
    shape_scalar ← IsScalar shape;
    if (shape_scalar : bool) then OK arg_shape
    else
      arg_scalar ← IsScalar arg_shape;
      if (arg_scalar : bool) then OK shape else Err kInvalidArgument
  else Err kInvalidArgument.

Definition InferMapShape (arg_shapes : list Shape) (to_apply : ProgramShape)
    (map_dimensions : list Z) : outcome Shape :=
  match arg_shapes with
  | [] => Err kInvalidArgument
  | first :: rest =>
      arg_shape ← foldM MapArgStep first rest;
      ds ← dimensions arg_shape;
      _ ← require (Zlen map_dimensions =? Zlen ds) kInvalidArgument;
      _ ← forM_ (zip (indices map_dimensions) map_dimensions) (fun '(i, d) =>
            require (d =? i) kInvalidArgument);
      _ ← require (Zlen arg_shapes =? Zlen (parameters to_apply)) kInvalidArgument;
      let output_shape := result to_apply in
      out_scalar ← IsScalar output_shape;
      _ ← require out_scalar kInvalidArgument;
      _ ← forM_ (zip (parameters to_apply) arg_shapes) (fun '(parameter_shape, shape) =>
            scalar ← IsScalar parameter_shape;
            _ ← require scalar kInvalidArgument;
            require (SameElementTypeIgnoringFpPrecision parameter_shape shape) kInvalidArgument);
      dy ← dynamic_dimensions arg_shape;
      MakeShape_dyn (element_type output_shape) ds dy
  end.
End Elementwise.

(** ** Transpose and call *)

Definition InferTransposeShape (operand : Shape) (permutation : list Z) : outcome Shape :=
  _ ← ExpectArray operand;
  r ← rank operand;
  _ ← require ((Zlen permutation =? r) && IsPermutation permutation) kInvalidArgument;
  PermuteDimensions permutation operand.

Definition InferCallShape (arg_shapes : list Shape) (to_apply : ProgramShape) : outcome Shape :=
  _ ← require (Zlen arg_shapes =? Zlen (parameters to_apply)) kInvalidArgument;
  _ ← forM_ (zip arg_shapes (parameters to_apply)) (fun '(arg_shape, param_shape) =>
        require (Compatible arg_shape param_shape) kInvalidArgument);
  OK (result to_apply).

(** * Lemmas and theorems *)

Lemma InferTransposeShape_array t st p :
  IsArrayType t = true -> IsPermutation p = true -> length p = length (dims st) ->
  InferTransposeShape (ArrayShape t st) p = PermuteDimensions p (ArrayShape t st).
Proof.
  intros Ht Hp Hl. unfold InferTransposeShape, ExpectArray, IsArrayExcludingBuffer. simpl.
  rewrite Ht, Hp. simpl. unfold Zlen. by rewrite Hl, Z.eqb_refl.
Qed.

(** the transpose of an array with a valid layout is inferred
    without an abort, its layout is valid, and transposing it with the inverse
    permutation gives back the operand's shape, layout included. *)
Lemma InferTransposeShape_roundtrip (t : PrimitiveType) (ds : list Z) (dy : list bool)
    (l : Layout) (p : list Z) :
  let s := ArrayShape t (mkArrayState ds dy (Some l)) in
  IsArrayType t = true ->
  length dy = length ds ->
  forallb (fun '(d, b) => IsValidDimensionSize d b) (zip ds dy) = true ->
  ValidateLayoutInShape s false = OK () ->
  IsPermutation p = true -> length p = length ds ->
  exists s' q, InferTransposeShape s p = OK s' /\ ValidateLayoutInShape s' false = OK ()
    /\ InversePermutation p = OK q /\ InferTransposeShape s' q = OK s.
Proof.
  intros s Ht Hdy Hv Hl Hp Hlp. subst s.
  destruct (PermuteDimensions_spec t ds dy l p Ht Hdy Hv Hl Hp Hlp)
    as (ds' & dy' & q & m' & HE & Hds & Hdyp & Hq & Hm' & Hv' & Hl' & HC).
  pose proof (proj1 (IsPermutation_perm _) Hp) as Hpp.
  destruct (InversePermutation_involutive p q Hpp Hq) as (Hpq & Hlq & Hqp & _).
  pose proof (Permute_inverse _ _ _ _ Hpp Hlp Hq Hds) as Hds2.
  pose proof (Permute_inverse _ _ _ _ Hpp (eq_trans Hlp (eq_sym Hdy)) Hq Hdyp) as Hdy2.
  pose proof (proj1 (proj1 (Permute_spec _ _ _ Hpp Hlp) Hds)) as Hld.
  pose proof (proj1 (proj1 (Permute_spec _ _ _ Hpp (eq_trans Hlp (eq_sym Hdy))) Hdyp)) as Hldy.
  destruct (PermuteDimensions_spec t ds' dy' (set_minor_to_major m' l) q Ht)
    as (ds2 & dy2 & p2 & m2 & HE2 & Hds3 & Hdy3 & Hp2 & Hm2 & _ & _ & _);
    [congruence|done|done|by apply IsPermutation_perm|congruence|].
  rewrite Hds2 in Hds3. injection Hds3 as <-. rewrite Hdy2 in Hdy3. injection Hdy3 as <-.
  rewrite Hqp in Hp2. injection Hp2 as <-. simpl in Hm2. rewrite HC in Hm2. injection Hm2 as <-.
  eexists. exists q. rewrite InferTransposeShape_array by done. split; [exact HE|].
  split; [exact Hl'|]. split; [exact Hq|].
  rewrite InferTransposeShape_array by (try apply IsPermutation_perm; simpl; congruence || done).
  etransitivity; [exact HE2|]. by destruct l.
Qed.

Lemma InferTransposeShape_roundtrip_witness :
  exists s' q,
    InferTransposeShape
      (ArrayShape F32 (mkArrayState [4; 5; 6] [false; true; false] (Some (MakeLayout [0; 2; 1]))))
      [1; 2; 0] = OK s'
    /\ ValidateLayoutInShape s' false = OK ()
    /\ InversePermutation [1; 2; 0] = OK q
    /\ InferTransposeShape s' q
      = OK (ArrayShape F32 (mkArrayState [4; 5; 6] [false; true; false]
                                        (Some (MakeLayout [0; 2; 1])))).
Proof.
  exact (InferTransposeShape_roundtrip F32 [4; 5; 6] [false; true; false] (MakeLayout [0; 2; 1])
           [1; 2; 0] eq_refl eq_refl eq_refl eq_refl eq_refl eq_refl).
Defined.

(** ** Degenerate broadcasting *)

(** The run-time rule: equal sizes, or a size 1 that is stretched. *)
Definition broadcast_size (n m : Z) : option Z :=
  if n =? 1 then Some m else if m =? 1 then Some n else if n =? m then Some n else None.

(** The pairs of dimensions for which the inferred dimension covers every
    run-time size: not a dynamic 1 against a static 1, nor a bounded dynamic
    dimension against an unbounded one. *)
Definition degenerate_precise (ld : Z) (ldyn : bool) (rd : Z) (rdyn : bool) : bool :=
  negb ((ld =? 1) && (rd =? 1) && ldyn && negb rdyn)
  && negb ((ld =? kUnboundedSize) && negb (rd =? kUnboundedSize) && negb (rd =? 1) && rdyn)
  && negb ((rd =? kUnboundedSize) && negb (ld =? kUnboundedSize) && negb (ld =? 1) && ldyn).

Lemma DegenerateDimension_sound ld ldyn rd rdyn n m k d dyn :
  DegenerateDimension ld ldyn rd rdyn = OK (d, dyn) ->
  degenerate_precise ld ldyn rd rdyn = true ->
  dim_admits ld ldyn n -> dim_admits rd rdyn m -> broadcast_size n m = Some k ->
  dim_admits d dyn k.
Proof.
  unfold DegenerateDimension, degenerate_precise, dim_admits, broadcast_size.
  pose proof unbounded_neg as HU. intros HD HP [Hn0 Hn] [Hm0 Hm] Hk.
  destruct (Z.eqb_spec ld 1), (Z.eqb_spec rd 1), (Z.eqb_spec ld rd), (Z.eqb_spec ld kUnboundedSize),
    (Z.eqb_spec rd kUnboundedSize); simpl in *; try (exfalso; lia); try discriminate HD;
    injection HD as <- <-; destruct ldyn, rdyn; simpl in *; try discriminate HP;
    destruct (Z.eqb_spec n 1), (Z.eqb_spec m 1), (Z.eqb_spec n m); try discriminate Hk;
    injection Hk as <-; lia.
Qed.

Section Broadcast.
Context `{FloatLimits}.

Lemma InferDegenerate_spec t1 st1 t2 st2 out :
  InferDegenerateDimensionBroadcastShape (ArrayShape t1 st1) (ArrayShape t2 st2) = OK out ->
  exists t l, HigherPrecisionType t1 t2 = OK t
    /\ out = array_shape t (map fst l) (map snd l)
    /\ length l = length (dims st1) /\ length (dims st1) = length (dims st2)
    /\ forall i p, l !! i = Some p -> exists ld lb rd rb,
         dims st1 !! i = Some ld /\ dyns st1 !! i = Some lb
         /\ dims st2 !! i = Some rd /\ dyns st2 !! i = Some rb
         /\ DegenerateDimension ld lb rd rb = OK p.
Proof.
  intros HI. unfold InferDegenerateDimensionBroadcastShape, SameRank, dimensions in HI.
  cbn [array_state mbind outcome_bind] in HI. outcome_simp.
  rewrite rank_array in E0. injection E0 as <-.
  apply mapM_seqZ_OK in E1 as [Hl Hf]. apply MakeShape_dyn_OK in HI as [_ ->].
  exists v2, v1. split; [exact E2|]. split; [done|]. split; [done|].
  split; [by apply bool_decide_eq_true in E|].
  intros i p Hp. specialize (Hf i p Hp).
  apply bind_OK in Hf as (ld & Hld & Hf). apply bind_OK in Hf as (rd & Hrd & Hf).
  apply bind_OK in Hf as (lb & Hlb & Hf). apply bind_OK in Hf as (rb & Hrb & Hf).
  apply dimension_array in Hld, Hrd. apply is_dynamic_dimension_array in Hlb, Hrb. eauto 10.
Qed.

(** C39: the shape inferred for a binary operation with degenerate
    dimensions covers the run-time result: whenever the run-time sizes of the
    operands are compatible, the broadcast sizes are among those the inferred
    shape allows, for the pairs of dimensions [degenerate_precise] accepts. *)
Theorem InferDegenerateDimensionBroadcastShape_sound (t1 t2 : PrimitiveType)
    (st1 st2 : ArrayState) (out : Shape) (ns ms ks : list Z) :
  InferDegenerateDimensionBroadcastShape (ArrayShape t1 st1) (ArrayShape t2 st2) = OK out ->
  (forall i ld lb rd rb, dims st1 !! i = Some ld -> dyns st1 !! i = Some lb ->
     dims st2 !! i = Some rd -> dyns st2 !! i = Some rb -> degenerate_precise ld lb rd rb = true) ->
  sizes_admit (dims st1) (dyns st1) ns -> sizes_admit (dims st2) (dyns st2) ms ->
  length ks = length ns ->
  (forall i n m k, ns !! i = Some n -> ms !! i = Some m -> ks !! i = Some k ->
     broadcast_size n m = Some k) ->
  exists t st, out = ArrayShape t st /\ sizes_admit (dims st) (dyns st) ks.
Proof.
  intros HI Hprec (Hl1 & Hd1 & Ha1) (Hl2 & Hd2 & Ha2) Hlk Hk.
  destruct (InferDegenerate_spec _ _ _ _ _ HI) as (t & l & _ & -> & Hl & Hls & Hspec).
  exists t. eexists. split; [done|]. simpl.
  split; [rewrite length_map; lia|]. split; [rewrite length_map; lia|].
  intros i d b k Hd Hb Hki. pose proof (lookup_fst_snd _ _ _ _ Hd Hb) as Hi.
  destruct (Hspec i _ Hi) as (ld & lb & rd & rb & E1 & E2 & E3 & E4 & HD).
  pose proof (lookup_lt_Some _ _ _ E1). pose proof (lookup_lt_Some _ _ _ E3).
  destruct (lookup_lt_is_Some_2 ns i) as [n Hn]; [lia|].
  destruct (lookup_lt_is_Some_2 ms i) as [m Hm]; [lia|].
  eapply DegenerateDimension_sound; eauto.
Qed.

(** where the rule is not precise it is wrong: adding s32[<=1,2]
    and s32[1,1] is inferred as the static s32[1,2], although the first
    operand may be empty, while the swapped operands give s32[<=1,2]; and
    <=4 against an unbounded dimension gives <=4, although a run-time size of
    1 is stretched to any size. *)
Lemma InferBinaryOpShape_drops_dynamism :
  InferBinaryOpShape kAdd (array_shape S32 [1; 2] [true; false])
      (array_shape S32 [1; 1] [false; false]) []
    = OK (array_shape S32 [1; 2] [false; false])
  /\ InferBinaryOpShape kAdd (array_shape S32 [1; 1] [false; false])
      (array_shape S32 [1; 2] [true; false]) []
    = OK (array_shape S32 [1; 2] [true; false])
  /\ InferBinaryOpShape kAdd (array_shape S32 [4] [true])
      (array_shape S32 [kUnboundedSize] [true]) []
    = OK (array_shape S32 [4] [true])
  /\ dim_admits 4 true 1 /\ dim_admits kUnboundedSize true 9
  /\ broadcast_size 1 9 = Some 9 /\ ~ dim_admits 4 true 9.
Proof.
  split; [vm_compute; reflexivity|]. split; [vm_compute; reflexivity|].
  split; [vm_compute; reflexivity|]. unfold dim_admits.
  split; [lia|]. split; [lia|]. split; [reflexivity|].
  intros [_ [Hc|Hc]]; [discriminate Hc|lia].
Qed.
End Broadcast.

Section BroadcastWitness.
#[local] Instance broadcast_limits : FloatLimits := {|
  fl_digits _ := 24; fl_min_exponent _ := -125; fl_max_exponent _ := 128;
  fl_has_infinity _ := true; fl_has_nan _ := true; fl_has_negative_zero _ := true |}.

(** f32[<=4,1] and f32[4,?] at the sizes 4x1 and 4x7. *)
Lemma InferDegenerateDimensionBroadcastShape_sound_witness :
  exists out, InferDegenerateDimensionBroadcastShape
      (array_shape F32 [4; 1] [true; false]) (array_shape F32 [4; kUnboundedSize] [false; true])
    = OK out
  /\ exists t st, out = ArrayShape t st /\ sizes_admit (dims st) (dyns st) [4; 7].
Proof.
  eexists. split; [vm_compute; reflexivity|].
  eapply (InferDegenerateDimensionBroadcastShape_sound F32 F32
    (mkArrayState [4; 1] [true; false] (Some (MakeDescendingLayout 2)))
    (mkArrayState [4; kUnboundedSize] [false; true] (Some (MakeDescendingLayout 2)))
    _ [4; 1] [4; 7] [4; 7]).
  - vm_compute. reflexivity.
  - intros [|[|[|?]]] ld lb rd rb; simpl; try discriminate;
      intros [= <-] [= <-] [= <-] [= <-]; reflexivity.
  - split; [reflexivity|]. split; [reflexivity|].
    intros [|[|[|?]]] d b x; simpl; try discriminate; intros [= <-] [= <-] [= <-];
      (split; [discriminate|right; first [discriminate|reflexivity]]).
  - split; [reflexivity|]. split; [reflexivity|].
    intros [|[|[|?]]] d b x; simpl; try discriminate; intros [= <-] [= <-] [= <-];
      (split; [discriminate|first [left; reflexivity|right; reflexivity]]).
  - reflexivity.
  - intros [|[|[|?]]] x y z; simpl; try discriminate; intros [= <-] [= <-] [= <-]; reflexivity.
Defined.
End BroadcastWitness.
