(* ===== verification/InferLinalg.v ===== *)
(** * Shape inference: batch normalization, convolution, FFT and solvers

    xla/service/shape_inference.cc, InferBatchNormTrainingShape to
    InferCholeskyShape. *)

From stdpp Require Import sorting.
From S2P Require Import Prelude MachineInt PermutationUtil Primitive Shape ShapeUtil IndexUtil InferBasic InferDot.

(** ** Messages *)

Record ConvolutionDimensionNumbers := mkConvolutionDimensionNumbers {
  input_batch_dimension : Z;
  input_feature_dimension : Z;
  input_spatial_dimensions : list Z;
  kernel_input_feature_dimension : Z;
  kernel_output_feature_dimension : Z;
  kernel_spatial_dimensions : list Z;
  output_batch_dimension : Z;
  output_feature_dimension : Z;
  output_spatial_dimensions : list Z;
}.

(** FftType; [FFT_unrecognized] is any value the enumeration does not name. *)
Inductive FftType := FFT | IFFT | RFFT | IRFFT | FFT_unrecognized.

(** TriangularSolveOptions; [TRANSPOSE_unrecognized] as above. *)
Inductive Transpose :=
  | TRANSPOSE_INVALID | NO_TRANSPOSE | TRANSPOSE | ADJOINT | TRANSPOSE_unrecognized.
Record TriangularSolveOptions := mkTriangularSolveOptions {
  left_side : bool;
  transpose_a : Transpose;
}.

(** [GetDimension(s, 0)] is compatible with the feature count. *)
Definition FeatureCountMatches (feature_count : Z) (s : Shape) : outcome () :=
  d ← GetDimension s 0;
  require (CompatibleDimensionSizes d feature_count) kInvalidArgument.

(** The test that a shape has rank 1. *)
Definition RequireRank1 (s : Shape) : outcome () :=
  r ← rank s; require (r =? 1) kInvalidArgument.

(** TF_RET_CHECK(status == OkStatus()). *)
Definition ret_check_ok (m : outcome ()) : outcome () :=
  match m with OK _ => OK () | Err _ => Err kInternal | Crash => Crash | NoFuel => NoFuel end.

(** ** Batch normalization *)

Definition InferBatchNormTrainingShape (operand_shape scale_shape offset_shape : Shape)
    (feature_index : Z) : outcome Shape :=
  _ ← ExpectArray operand_shape;
  _ ← ExpectArray offset_shape;
  _ ← ExpectArray scale_shape;
  _ ← ret_check_ok (ValidateShapeWithOptionalLayout operand_shape);
  _ ← ret_check_ok (ValidateShapeWithOptionalLayout offset_shape);
  _ ← ret_check_ok (ValidateShapeWithOptionalLayout scale_shape);
  r ← rank operand_shape;
  _ ← ret_if (r <=? feature_index) kInvalidArgument;
  _ ← ret_if (feature_index <? 0) kInvalidArgument;
  _ ← ret_if (r =? 0) kInvalidArgument;
  _ ← RequireRank1 offset_shape;
  _ ← RequireRank1 scale_shape;
  _ ← require (ElementIsFloating operand_shape) kInvalidArgument;
  _ ← require (SameElementTypeIgnoringFpPrecision offset_shape operand_shape) kInvalidArgument;
  _ ← require (SameElementTypeIgnoringFpPrecision scale_shape operand_shape) kInvalidArgument;
  feature_count ← dimension operand_shape feature_index;
  dynamic_feature ← is_dynamic_dimension operand_shape feature_index;
  mean_and_var ← MakeShape_dyn (element_type operand_shape) [feature_count] [dynamic_feature];
  _ ← FeatureCountMatches feature_count offset_shape;
  _ ← FeatureCountMatches feature_count scale_shape;
  MakeTupleShape [operand_shape; mean_and_var; mean_and_var].

Definition InferBatchNormInferenceShape
    (operand_shape scale_shape offset_shape mean_shape variance_shape : Shape)
    (feature_index : Z) : outcome Shape :=
  _ ← ExpectArray operand_shape;
  _ ← ExpectArray offset_shape;
  _ ← ExpectArray scale_shape;
  _ ← ValidateShapeWithOptionalLayout operand_shape;
  _ ← ValidateShapeWithOptionalLayout offset_shape;
  _ ← ValidateShapeWithOptionalLayout scale_shape;
  _ ← ValidateShapeWithOptionalLayout mean_shape;
  _ ← ValidateShapeWithOptionalLayout variance_shape;
  r ← rank operand_shape;
  _ ← ret_if (r <=? feature_index) kInvalidArgument;
  _ ← ret_if (feature_index <? 0) kInvalidArgument;
  _ ← ret_if (r =? 0) kInvalidArgument;
  _ ← RequireRank1 offset_shape;
  _ ← RequireRank1 scale_shape;
  _ ← require (ElementIsFloating operand_shape) kInvalidArgument;
  _ ← require (SameElementTypeIgnoringFpPrecision offset_shape operand_shape) kInvalidArgument;
  _ ← require (SameElementTypeIgnoringFpPrecision scale_shape operand_shape) kInvalidArgument;
  _ ← require (SameElementTypeIgnoringFpPrecision mean_shape operand_shape) kInvalidArgument;
  _ ← require (SameElementTypeIgnoringFpPrecision variance_shape operand_shape) kInvalidArgument;
  feature_count ← dimension operand_shape feature_index;
  _ ← FeatureCountMatches feature_count offset_shape;
  _ ← FeatureCountMatches feature_count scale_shape;
  _ ← FeatureCountMatches feature_count mean_shape;
  _ ← FeatureCountMatches feature_count variance_shape;
  OK operand_shape.

Definition InferBatchNormGradShape
    (operand_shape scale_shape mean_shape var_shape output_grad_shape : Shape)
    (feature_index : Z) : outcome Shape :=
  _ ← ExpectArray operand_shape;
  _ ← ExpectArray scale_shape;
  _ ← ExpectArray mean_shape;
  _ ← ExpectArray var_shape;
  _ ← ExpectArray output_grad_shape;
  _ ← ValidateShapeWithOptionalLayout operand_shape;
  _ ← ValidateShapeWithOptionalLayout mean_shape;
  _ ← ValidateShapeWithOptionalLayout scale_shape;
  _ ← ValidateShapeWithOptionalLayout var_shape;
  _ ← ValidateShapeWithOptionalLayout output_grad_shape;
  r ← rank operand_shape;
  _ ← ret_if (r <=? feature_index) kInvalidArgument;
  gr ← rank output_grad_shape;
  _ ← require (r =? gr) kInvalidArgument;
  _ ← RequireRank1 mean_shape;
  _ ← RequireRank1 scale_shape;
  _ ← RequireRank1 var_shape;
  _ ← require (ElementIsFloating operand_shape) kInvalidArgument;
  _ ← require (ElementIsFloating output_grad_shape) kInvalidArgument;
  _ ← require (SameElementTypeIgnoringFpPrecision output_grad_shape operand_shape) kInvalidArgument;
  _ ← require (SameElementTypeIgnoringFpPrecision scale_shape operand_shape) kInvalidArgument;
  _ ← require (SameElementTypeIgnoringFpPrecision mean_shape operand_shape) kInvalidArgument;
  _ ← require (SameElementTypeIgnoringFpPrecision var_shape operand_shape) kInvalidArgument;
  feature_count ← dimension operand_shape feature_index;
  dynamic_feature ← is_dynamic_dimension operand_shape feature_index;
  feature_shape ← MakeShape_dyn (element_type operand_shape) [feature_count] [dynamic_feature];
  _ ← FeatureCountMatches feature_count mean_shape;
  _ ← FeatureCountMatches feature_count scale_shape;
  _ ← FeatureCountMatches feature_count var_shape;
  _ ← forM_ (seqZ 0 r) (fun i =>
        x ← GetDimension operand_shape i;
        y ← GetDimension output_grad_shape i;
        require (CompatibleDimensionSizes x y) kInvalidArgument);
  MakeTupleShape [operand_shape; feature_shape; feature_shape].

(** ** Convolution *)

(** The flags of the output dimensions: dimension i of the input, then of the
    kernel. *)
Definition ConvDynamicStep (lhs rhs : Shape) (dnums : ConvolutionDimensionNumbers)
    (is_dynamic : list bool) (i : Z) : outcome (list bool) :=
  let mark (spatial : list Z) (is_dynamic : list bool) : outcome (list bool) :=
    foldM (fun is_dynamic '(j, d) =>
             if i =? d then o ← at_ (output_spatial_dimensions dnums) j; set_at is_dynamic o true
             else OK is_dynamic)
          is_dynamic (zip (indices spatial) spatial) in
  ldyn ← is_dynamic_dimension lhs i;
  is_dynamic ←
    (if (ldyn : bool) then
       if i =? input_batch_dimension dnums
       then set_at is_dynamic (output_batch_dimension dnums) true
       else if i =? input_feature_dimension dnums then OK is_dynamic
       else mark (input_spatial_dimensions dnums) is_dynamic
     else OK is_dynamic);
  rdyn ← is_dynamic_dimension rhs i;
  if (rdyn : bool) then
    if i =? kernel_input_feature_dimension dnums then OK is_dynamic
    else if i =? kernel_output_feature_dimension dnums then Err kInvalidArgument
    else mark (kernel_spatial_dimensions dnums) is_dynamic
  else OK is_dynamic.

(** The dimension numbers of an operand, sorted. *)
Definition SortedDnums (d0 d1 : Z) (spatial : list Z) : list Z :=
  merge_sort Z.le (d0 :: d1 :: spatial).

Definition InferConvolveShape `{FloatLimits} (lhs rhs : Shape)
    (feature_group_count batch_group_count : Z) (window : Window)
    (dnums : ConvolutionDimensionNumbers) (preferred_element_type : option PrimitiveType) :
    outcome Shape :=
  _ ← ExpectArray lhs;
  _ ← ExpectArray rhs;
  _ ← ret_if (feature_group_count <=? 0) kInvalidArgument;
  _ ← ret_if (batch_group_count <=? 0) kInvalidArgument;
  _ ← ret_if ((1 <? batch_group_count) && (1 <? feature_group_count)) kInvalidArgument;
  let num_spatial_dims := Zlen (input_spatial_dimensions dnums) in
  _ ← require (num_spatial_dims =? Zlen (kernel_spatial_dimensions dnums)) kInvalidArgument;
  _ ← require (num_spatial_dims =? Zlen (output_spatial_dimensions dnums)) kInvalidArgument;
  _ ← require (Zlen window =? num_spatial_dims) kInvalidArgument;
  let num_dims := num_spatial_dims + 2 in
  lr ← rank lhs;
  _ ← require (lr =? num_dims) kInvalidArgument;
  rr ← rank rhs;
  _ ← require (rr =? num_dims) kInvalidArgument;
  let input_dnums := SortedDnums (input_batch_dimension dnums) (input_feature_dimension dnums)
                                 (input_spatial_dimensions dnums) in
  let window_dnums := SortedDnums (kernel_input_feature_dimension dnums)
                        (kernel_output_feature_dimension dnums) (kernel_spatial_dimensions dnums) in
  let output_dnums := SortedDnums (output_batch_dimension dnums) (output_feature_dimension dnums)
                                  (output_spatial_dimensions dnums) in
  let expected_dnums := seqZ 0 num_dims in
  let in_range := forallb (fun i => (0 <=? i) && (i <? num_dims)) in
  _ ← require (in_range input_dnums && in_range window_dnums && in_range output_dnums)
              kInvalidArgument;
  _ ← require (bool_decide (input_dnums = expected_dnums)) kInvalidArgument;
  _ ← require (bool_decide (window_dnums = expected_dnums)) kInvalidArgument;
  _ ← require (bool_decide (output_dnums = expected_dnums)) kInvalidArgument;
  input_spatial_dims ← mapM (dimension lhs) (input_spatial_dimensions dnums);
  input_features ← dimension lhs (input_feature_dimension dnums);
  input_batch ← dimension lhs (input_batch_dimension dnums);
  kernel_spatial_dims ← mapM (dimension rhs) (kernel_spatial_dimensions dnums);
  kernel_input_features ← dimension rhs (kernel_input_feature_dimension dnums);
  kernel_output_features ← dimension rhs (kernel_output_feature_dimension dnums);
  _ ← require (rem64 kernel_output_features batch_group_count =? 0) kInvalidArgument;
  _ ← require ((rem64 input_features feature_group_count =? 0)
               && (div64 input_features feature_group_count =? kernel_input_features))
              kInvalidArgument;
  _ ← ret_if (0 <? rem64 kernel_output_features feature_group_count) kInvalidArgument;
  _ ← require (rem64 input_batch batch_group_count =? 0) kInvalidArgument;
  let window_dims := map w_size window in
  _ ← require (bool_decide (kernel_spatial_dims = window_dims)) kInvalidArgument;
  base_shape ← MakeShape_dyn (element_type lhs) input_spatial_dims
                             (map IsUnboundedDynamicSize input_spatial_dims);
  window_output_shape ← InferWindowOutputShape base_shape window (element_type lhs);
  let dims0 := replicate (Z.to_nat num_dims) 0 in
  dims1 ← set_at dims0 (output_batch_dimension dnums) (div64 input_batch batch_group_count);
  dims2 ← set_at dims1 (output_feature_dimension dnums) kernel_output_features;
  dims3 ← foldM (fun ds '(i, o) => d ← dimension window_output_shape i; set_at ds o d)
                dims2 (zip (indices (output_spatial_dimensions dnums))
                           (output_spatial_dimensions dnums));
  is_dynamic ← foldM (ConvDynamicStep lhs rhs dnums)
                     (replicate (Z.to_nat num_dims) false) (seqZ 0 num_dims);
  t ← PreferredElementType lhs rhs preferred_element_type;
  MakeShape_dyn t dims3 is_dynamic.

(** ** FFT *)

Definition InferFftShape (input : Shape) (fft_type : FftType) (fft_length : list Z) :
    outcome Shape :=
  let fft_rank := Zlen fft_length in
  _ ← ret_if ((fft_rank <? 1) || (3 <? fft_rank)) kInvalidArgument;
  (* RET_CHECK_RANK *)
  let ret_check_rank := r ← rank input; ret_if (r <? fft_rank) kInvalidArgument in
  match fft_type with
  | FFT | IFFT =>
      _ ← require (IsComplexType (element_type input)) kInvalidArgument;
      _ ← ret_check_rank;
      OK input
  | RFFT =>
      _ ← require ((element_type input =?? F32) || (element_type input =?? F64)) kInvalidArgument;
      _ ← ret_check_rank;
      r ← rank input;
      _ ← forM_ (zip (indices fft_length) fft_length) (fun '(i, len) =>
            d ← dimension input (r - fft_rank + i);
            require (IsUnboundedDynamicSize d || (d =? len)) kInvalidArgument);
      res ← ChangeElementType input (if element_type input =?? F32 then C64 else C128);
      last ← at_ fft_length (fft_rank - 1);
      if last =? 0 then OK res
      else
        rr ← rank res;
        let dim := rr - 1 in
        dyn ← is_dynamic_dimension res dim;
        unbounded ← (if (dyn : bool) then is_unbounded_dynamic_dimension input dim else OK false);
        set_dimensions res dim (add64 (div64 last 2) 1) (Some (dyn && negb unbounded))
  | IRFFT =>
      _ ← require (IsComplexType (element_type input)) kInvalidArgument;
      _ ← ret_check_rank;
      res ← ComplexComponentShape input;
      r ← rank input;
      _ ← forM_ (zip (seqZ 0 (fft_rank - 1)) fft_length) (fun '(i, len) =>
            d ← dimension input (r - fft_rank + i);
            require (d =? len) kInvalidArgument);
      last_in_dimension_size ← dimension input (r - 1);
      last ← at_ fft_length (fft_rank - 1);
      _ ← ret_if ((negb (last_in_dimension_size =? 0) || negb (last =? 0))
                  && negb (IsUnboundedDynamicSize last_in_dimension_size)
                  && negb (last_in_dimension_size =? add64 (div64 last 2) 1)) kInvalidArgument;
      rr ← rank res;
      let dim := rr - 1 in
      dyn ← is_dynamic_dimension res dim;
      unbounded ← (if (dyn : bool) then is_unbounded_dynamic_dimension input dim else OK false);
      set_dimensions res dim last (Some (dyn && negb unbounded))
  | FFT_unrecognized => Crash
  end.

(** ** Triangular solve and Cholesky *)

Definition InferTriangularSolveShape (a b : Shape) (options : TriangularSolveOptions) :
    outcome Shape :=
  _ ← ret_if ((negb (ElementIsFloating a) && negb (ElementIsComplex a))
              || negb (element_type a =?? element_type b)) kInvalidArgument;
  ar ← rank a;
  _ ← ret_if (ar <? 2) kInvalidArgument;
  br ← rank b;
  _ ← require (br =? ar) kInvalidArgument;
  a2 ← dimension a (ar - 2);
  a1 ← dimension a (ar - 1);
  _ ← require (CompatibleDimensionSizes a2 a1) kInvalidArgument;
  shared ← dimension b (br - (if left_side options then 2 else 1));
  _ ← require (CompatibleDimensionSizes a1 shared) kInvalidArgument;
  ads ← dimensions a;
  bds ← dimensions b;
  _ ← require (bool_decide (take (length ads - 2) ads = take (length bds - 2) bds))
              kInvalidArgument;
  _ ← ret_if (match transpose_a options with
              | TRANSPOSE_unrecognized | TRANSPOSE_INVALID => true
              | _ => false
              end) kInvalidArgument;
  OK b.

Definition InferCholeskyShape (a : Shape) : outcome Shape :=
  _ ← ret_if (negb (ElementIsFloating a) && negb (ElementIsComplex a)) kInvalidArgument;
  r ← rank a;
  _ ← ret_if (r <? 2) kInvalidArgument;
  a2 ← dimension a (r - 2);
  a1 ← dimension a (r - 1);
  _ ← require (CompatibleDimensionSizes a2 a1) kInvalidArgument;
  OK a.

(** ** Real transforms and their inverses *)

(** The per-dimension checks of the transforms, on the list of sizes. *)
Lemma fft_check_OK t st off (len : list Z) (l : list Z) (f : Z -> Z -> bool) :
  forM_ (zip l len) (fun '(i, n) =>
    d ← dimension (ArrayShape t st) (off + i); require (f d n) kInvalidArgument) = OK ()
  <-> forall k i n, l !! k = Some i -> len !! k = Some n ->
        exists d, idx (dims st) (off + i) = Some d /\ f d n = true.
Proof.
  rewrite forM_OK, Forall_lookup. split.
  - intros HF k i n Hi Hn. specialize (HF k (i, n)).
    rewrite lookup_zip_with, Hi, Hn in HF. specialize (HF eq_refl). simpl in HF.
    apply bind_OK in HF as (d & Hd & HF). unfold dimension in Hd. cbn in Hd.
    apply at_OK in Hd. apply require_OK in HF. eauto.
  - intros Hall k [i n] Hz. apply lookup_zip_with_Some in Hz as (i' & n' & [= <- <-] & Hi & Hn).
    destruct (Hall k i n Hi Hn) as (d & Hd & Hf). unfold dimension. cbn [array_state mbind outcome_bind].
    rewrite (proj2 (at_OK _ _ _) Hd). cbn [mbind outcome_bind]. by rewrite Hf.
Qed.

(** The last dimension of an array shape. *)
Lemma set_last t ds0 d dy0 b lay n :
  length dy0 = length ds0 -> 0 <= n ->
  set_dimensions (ArrayShape t (mkArrayState (ds0 ++ [d]) (dy0 ++ [b]) lay))
    (Z.of_nat (length (ds0 ++ [d])) - 1) n (Some b)
  = OK (ArrayShape t (mkArrayState (ds0 ++ [n]) (dy0 ++ [b]) lay)).
Proof.
  intros Hl Hn. replace (Z.of_nat (length (ds0 ++ [d])) - 1) with (Z.of_nat (length ds0))
    by (rewrite length_app; simpl; lia).
  rewrite (set_dimensions_array _ _ _ _ _ d b).
  - cbn [dims dyns array_layout]. rewrite Nat2Z.id.
    rewrite insert_app_r_alt, Nat.sub_diag by lia. rewrite insert_app_r_alt by lia.
    replace (length ds0 - length dy0)%nat with 0%nat by lia. done.
  - cbn [dims]. rewrite idx_of_nat, lookup_app_r, Nat.sub_diag by lia. done.
  - cbn [dyns]. rewrite idx_of_nat, lookup_app_r by lia.
    by replace (length ds0 - length dy0)%nat with 0%nat by lia.
  - by left.
Qed.

Lemma last_dimension t ds0 d dy lay :
  dimension (ArrayShape t (mkArrayState (ds0 ++ [d]) dy lay)) (Z.of_nat (length (ds0 ++ [d])) - 1) = OK d.
Proof.
  replace (Z.of_nat (length (ds0 ++ [d])) - 1) with (Z.of_nat (length ds0))
    by (rewrite length_app; simpl; lia). apply at_middle.
Qed.

Lemma last_flag t (ds0 : list Z) (d : Z) dy0 (b : bool) lay :
  length dy0 = length ds0 ->
  is_dynamic_dimension (ArrayShape t (mkArrayState (ds0 ++ [d]) (dy0 ++ [b]) lay))
    (Z.of_nat (length (ds0 ++ [d])) - 1) = OK b.
Proof.
  intros Hl. replace (Z.of_nat (length (ds0 ++ [d])) - 1) with (Z.of_nat (length dy0))
    by (rewrite length_app; simpl; lia). apply at_middle.
Qed.

(** A flag stays: a known size is not unbounded. *)
Lemma last_unbounded t ds0 d dy lay (b : bool) :
  0 <= d ->
  (if b then is_unbounded_dynamic_dimension (ArrayShape t (mkArrayState (ds0 ++ [d]) dy lay))
               (Z.of_nat (length (ds0 ++ [d])) - 1)
   else OK false) = OK false.
Proof.
  intros Hd. destruct b; [|done]. unfold is_unbounded_dynamic_dimension.
  rewrite last_dimension. cbn [mbind outcome_bind]. by rewrite eqb_unbounded.
Qed.

(** The size RFFT gives the last dimension. *)
Definition rfft_size (d : Z) : Z := if d =? 0 then 0 else d / 2 + 1.

Lemma half_plus_one d : 0 <= d < two63 -> add64 (div64 d 2) 1 = d / 2 + 1 /\ 0 <= d / 2.
Proof.
  intros Hd. pose proof (Z.div_pos d 2 ltac:(lia) ltac:(lia)).
  pose proof (Z.div_lt_upper_bound d 2 two63 ltac:(lia) ltac:(lia)).
  assert (d / 2 < two63 - 1) by (apply Z.div_lt_upper_bound; unfold two63 in *; lia).
  split; [|done]. unfold div64. rewrite Z.quot_div_nonneg by lia.
  rewrite i64_small by (apply is_i64_spec; unfold two63 in *; lia).
  apply add64_fits; lia.
Qed.

(** Entries other than the last do not change with it. *)
Lemma idx_replace_last {A} (l : list A) x y i a :
  i < Zlen l -> idx (l ++ [x]) i = Some a -> idx (l ++ [y]) i = Some a.
Proof.
  rewrite !idx_Some. unfold Zlen. intros Hi [H0 Ha]. split; [done|].
  rewrite lookup_app_l in * by lia. done.
Qed.

(** The transform length of the last dimension. *)
Lemma last_length_entry ds0 (d : Z) (len : list Z) :
  1 <= Zlen len ->
  (forall k n, len !! k = Some n ->
     idx (ds0 ++ [d]) (Zlen (ds0 ++ [d]) - Zlen len + Z.of_nat k) = Some n) ->
  at_ len (Zlen len - 1) = OK d.
Proof.
  intros Hl Hchk. destruct (at_in_range len (Zlen len - 1)) as [x Hx]; [lia|]. rewrite Hx. f_equal.
  apply at_OK, idx_Some in Hx as [_ Hx]. apply Hchk in Hx. rewrite Z2Nat.id in Hx by lia.
  replace (Zlen (ds0 ++ [d]) - Zlen len + (Zlen len - 1)) with (Z.of_nat (length ds0)) in Hx
    by (rewrite Zlen_app; unfold Zlen; simpl; lia).
  rewrite idx_of_nat, lookup_app_r, Nat.sub_diag in Hx by lia. by injection Hx.
Qed.

(** What a successful RFFT returns. *)
Lemma InferFft_RFFT_spec t ds dy len out :
  Forall (fun d => 0 <= d < two63) ds -> length dy = length ds ->
  InferFftShape (array_shape t ds dy) RFFT len = OK out ->
  1 <= Zlen len <= 3 /\ Zlen len <= Zlen ds /\ (t = F32 \/ t = F64)
  /\ (forall k n, len !! k = Some n -> idx ds (Zlen ds - Zlen len + Z.of_nat k) = Some n)
  /\ exists ds0 d, ds = ds0 ++ [d]
       /\ out = ArrayShape (ComplexType t)
            (mkArrayState (ds0 ++ [rfft_size d]) dy (Some (MakeDescendingLayout (Zlen ds)))).
Proof.
  intros Hds Hl HI. unfold InferFftShape, array_shape in HI. cbn [element_type] in HI.
  rewrite rank_array in HI. cbn [mbind outcome_bind dims] in HI. outcome_simp.
  cbn [element_type_including_buffer] in E0, E3.
  apply Z.ltb_ge in H, H0, E1. fold (Zlen ds) in E1, E2.
  destruct ds as [|d ds0 _] using rev_ind; [unfold Zlen in *; simpl in *; lia|].
  destruct dy as [|b dy0 _] using rev_ind; [rewrite length_app in Hl; simpl in Hl; lia|].
  rewrite !length_app in Hl. simpl in Hl.
  assert (Hchk : forall k n, len !! k = Some n ->
    idx (ds0 ++ [d]) (Zlen (ds0 ++ [d]) - Zlen len + Z.of_nat k) = Some n).
  { intros k n Hk.
    destruct (proj1 (fft_check_OK _ _ _ _ _ (fun d n => IsUnboundedDynamicSize d || (d =? n))) E2 k (Z.of_nat k) n) as (x & Hx & Hc); [|done|].
    - apply idx_indices. split; [|done]. by apply lookup_lt_Some in Hk.
    - cbn [dims] in Hx. rewrite Hx. f_equal. apply idx_Some in Hx as [_ Hx].
      pose proof (Forall_lookup_1 _ _ _ _ Hds Hx) as Hr. simpl in Hr.
      unfold IsUnboundedDynamicSize in Hc. rewrite eqb_unbounded in Hc by lia. simpl in Hc. lia. }
  split; [lia|]. split; [done|]. split.
  { apply orb_true_iff in E0 as [E0|E0]; apply bool_decide_eq_true in E0; auto. }
  split; [done|]. exists ds0, d. split; [done|].
  rewrite (last_length_entry ds0 d len H Hchk) in E4. injection E4 as <-.
  apply Forall_app in Hds as [_ Hd]. apply Forall_inv in Hd.
  set (lay := Some (MakeDescendingLayout (Zlen (ds0 ++ [d])))) in *.
  assert (Hv3 : v3 = ArrayShape (ComplexType t) (mkArrayState (ds0 ++ [d]) (dy0 ++ [b]) lay)).
  { apply orb_true_iff in E0 as [E0|E0]; apply bool_decide_eq_true in E0; subst t;
      vm_compute in E3; injection E3 as <-; reflexivity. }
  subst v3. unfold rfft_size. destruct (Z.eqb_spec d 0) as [->|Hd0]; [by injection HI as <-|].
  rewrite rank_array in HI. cbn [mbind outcome_bind dims] in HI.
  rewrite last_flag in HI by lia. cbn [mbind outcome_bind] in HI.
  unfold lay in HI at 2. rewrite last_unbounded in HI by lia. cbn [mbind outcome_bind negb] in HI.
  rewrite andb_true_r in HI. destruct (half_plus_one d Hd) as [Hh Hp]. rewrite Hh in HI.
  rewrite set_last in HI by lia. by injection HI as <-.
Qed.

(** a real transform and its inverse: when RFFT of a shape whose
    dimensions are known or bounded is accepted, it replaces the last size [d]
    by [d / 2 + 1] (0 stays 0), and IRFFT of the result with the same transform
    length is accepted and infers the original shape. *)
Lemma InferFftShape_roundtrip (t : PrimitiveType) (ds : list Z) (dy : list bool) (len : list Z)
    (out : Shape) :
  Forall (fun d => 0 <= d < two63) ds -> length dy = length ds ->
  InferFftShape (array_shape t ds dy) RFFT len = OK out ->
  (exists ds0 d lay, ds = ds0 ++ [d]
     /\ out = ArrayShape (ComplexType t) (mkArrayState (ds0 ++ [rfft_size d]) dy lay))
  /\ InferFftShape out IRFFT len = OK (array_shape t ds dy).
Proof.
  intros Hds Hl HI.
  destruct (InferFft_RFFT_spec _ _ _ _ _ Hds Hl HI) as (Hlen & Hrank & Ht & Hchk & ds0 & d & -> & ->).
  split; [eauto 10|].
  destruct dy as [|b dy0 _] using rev_ind; [rewrite length_app in Hl; simpl in Hl; lia|].
  rewrite !length_app in Hl. simpl in Hl. apply Forall_app in Hds as [Hds0 Hd]. apply Forall_inv in Hd.
  unfold InferFftShape. rewrite rank_array.
  rewrite (proj2 (Z.ltb_ge (Zlen len) 1)), (proj2 (Z.ltb_ge 3 (Zlen len))) by lia.
  cbn [orb ret_if mbind outcome_bind dims element_type element_type_including_buffer].
  assert (HC : IsComplexType (ComplexType t) = true) by (by destruct Ht as [-> | ->]). rewrite HC.
  set (lay := Some (MakeDescendingLayout (Zlen (ds0 ++ [d])))) in *.
  assert (Hn : Z.of_nat (length (ds0 ++ [rfft_size d])) = Zlen (ds0 ++ [d]))
    by (unfold Zlen; rewrite !length_app; done).
  rewrite Hn, (proj2 (Z.ltb_ge _ _)) by lia. cbn [require ret_if mbind outcome_bind].
  assert (HCC : ComplexComponentShape (ArrayShape (ComplexType t)
      (mkArrayState (ds0 ++ [rfft_size d]) (dy0 ++ [b]) lay))
    = OK (ArrayShape t (mkArrayState (ds0 ++ [rfft_size d]) (dy0 ++ [b]) lay)))
    by (by destruct Ht as [-> | ->]).
  rewrite HCC. cbn [mbind outcome_bind].
  rewrite (proj2 (fft_check_OK _ _ _ _ _ (fun d n => d =? n))).
  2: { intros k i n Hi Hk. apply lookup_seqZ in Hi as [-> Hi]. exists n.
       rewrite Z.eqb_refl. split; [|done]. cbn [dims]. apply (idx_replace_last _ d); [|by apply Hchk].
       rewrite Zlen_app. unfold Zlen at 2. simpl. lia. }
  cbn [mbind outcome_bind]. rewrite <- Hn, last_dimension. cbn [mbind outcome_bind].
  rewrite (last_length_entry ds0 d len (proj1 Hlen) Hchk). cbn [mbind outcome_bind].
  destruct (half_plus_one d Hd) as [Hh Hp]. rewrite Hh.
  assert (Hg : (negb (rfft_size d =? 0) || negb (d =? 0)) && negb (IsUnboundedDynamicSize (rfft_size d))
                && negb (rfft_size d =? d / 2 + 1) = false).
  { unfold rfft_size. destruct (Z.eqb_spec d 0) as [->|]; [done|]. by rewrite Z.eqb_refl, andb_false_r. }
  rewrite Hg. cbn [ret_if mbind outcome_bind]. rewrite rank_array. cbn [mbind outcome_bind dims].
  rewrite last_flag by lia. cbn [mbind outcome_bind].
  rewrite last_unbounded by (unfold rfft_size; destruct (d =? 0); lia).
  cbn [mbind outcome_bind negb]. rewrite andb_true_r, set_last by lia. done.
Qed.

Lemma InferFftShape_roundtrip_witness :
  (exists ds0 d lay, [2; 3; 8] = ds0 ++ [d]
     /\ ArrayShape (ComplexType F32) (mkArrayState [2; 3; 5] [true; false; true] (Some (MakeDescendingLayout 3)))
        = ArrayShape (ComplexType F32) (mkArrayState (ds0 ++ [rfft_size d]) [true; false; true] lay))
  /\ InferFftShape (ArrayShape C64
       (mkArrayState [2; 3; 5] [true; false; true] (Some (MakeDescendingLayout 3)))) IRFFT [3; 8]
     = OK (array_shape F32 [2; 3; 8] [true; false; true]).
Proof.
  apply (InferFftShape_roundtrip F32 [2; 3; 8] [true; false; true] [3; 8]).
  - each_entry ltac:(unfold two63; lia).
  - reflexivity.
  - vm_compute. reflexivity.
Defined.
