(* ===== verification/InferCollective.v ===== *)
(** * Shape inference: collective operations and reductions

    xla/service/shape_inference.cc, InferAllGatherShape to
    InferCollectivePermuteDoneShape, and InferReduceShape to
    InferSelectAndScatterShape. *)

From S2P Require Import Prelude MachineInt Primitive Shape ShapeUtil IndexUtil InferBasic InferElementwise.

(** A single output shape is returned as such, several as a tuple. *)
Definition UntupleSingleton (shapes : list Shape) : outcome Shape :=
  if Zlen shapes =? 1 then at_ shapes 0 else MakeTupleShape shapes.

(** ** Collectives *)

Definition AllGatherOperand (all_gather_dimension shard_count : Z) (operand_shape : Shape) :
    outcome Shape :=
  r ← rank operand_shape;
  _ ← require (all_gather_dimension <? r) kInternal;
  _ ← ExpectArray operand_shape;
  output_shape_dimension ← dimension operand_shape all_gather_dimension;
  let is_dynamic := IsUnboundedDynamicSize output_shape_dimension in
  set_dimensions operand_shape all_gather_dimension
    (if is_dynamic then kUnboundedSize else mul64 shard_count output_shape_dimension)
    (Some is_dynamic).

Definition InferAllGatherShape (operand_shapes : list Shape)
    (all_gather_dimension shard_count : Z) : outcome Shape :=
  _ ← require (0 <=? all_gather_dimension) kInternal;
  _ ← require (0 <? shard_count) kInternal;
  output_shapes ← mapM (AllGatherOperand all_gather_dimension shard_count) operand_shapes;
  UntupleSingleton output_shapes.

Definition InferAllGatherStartShape (operand_shapes : list Shape)
    (all_gather_dimension shard_count : Z) : outcome Shape :=
  ag_shape ← InferAllGatherShape operand_shapes all_gather_dimension shard_count;
  input_shape ← UntupleSingleton operand_shapes;
  MakeTupleShape [input_shape; ag_shape].

Definition InferAllGatherDoneShape (all_gather_start_shape : Shape) : outcome Shape :=
  GetTupleElementShape all_gather_start_shape 1.

Definition InferAllReduceShape (operand_shapes : list Shape) : outcome Shape :=
  _ ← forM_ operand_shapes ExpectArray;
  UntupleSingleton operand_shapes.

Definition ReduceScatterOperand (scatter_dimension shard_count : Z) (operand_shape : Shape) :
    outcome Shape :=
  r ← rank operand_shape;
  _ ← require (scatter_dimension <? r) kInternal;
  _ ← ExpectArray operand_shape;
  scatter_dim_input_size ← dimension operand_shape scatter_dimension;
  _ ← require (rem64 scatter_dim_input_size shard_count =? 0) kInvalidArgument;
  is_dynamic ← is_dynamic_dimension operand_shape scatter_dimension;
  set_dimensions operand_shape scatter_dimension
    (if (is_dynamic : bool) then kUnboundedSize else div64 scatter_dim_input_size shard_count)
    (Some is_dynamic).

Definition InferReduceScatterShape (operand_shapes : list Shape)
    (scatter_dimension shard_count : Z) : outcome Shape :=
  _ ← require (0 <=? scatter_dimension) kInternal;
  _ ← require (0 <? shard_count) kInternal;
  output_shapes ← mapM (ReduceScatterOperand scatter_dimension shard_count) operand_shapes;
  UntupleSingleton output_shapes.

Definition InferAllReduceStartShape (operand_shapes : list Shape) : outcome Shape :=
  InferAllReduceShape operand_shapes.
Definition InferAllReduceDoneShape (operand_shape : Shape) : outcome Shape := OK operand_shape.

Definition InferAllToAllShape (shape : Shape)
    (split_dimension concat_dimension split_count : Z) : outcome Shape :=
  _ ← require (0 <? split_count) kInternal;
  bounded ← is_bounded_dynamic shape;
  _ ← ret_if bounded kInternal;
  _ ← (if split_dimension <? 0 then Err kInvalidArgument
       else r ← rank shape; ret_if (r <=? split_dimension) kInvalidArgument);
  _ ← (if concat_dimension <? 0 then Err kInvalidArgument
       else r ← rank shape; ret_if (r <=? concat_dimension) kInvalidArgument);
  split_dimension_size ← dimension shape split_dimension;
  _ ← ret_if (negb (IsUnboundedDynamicSize split_dimension_size)
              && negb (rem64 split_dimension_size split_count =? 0)) kInvalidArgument;
  ds ← dimensions shape;
  d ← at_ ds split_dimension;
  ds ← set_at ds split_dimension
         (if IsUnboundedDynamicSize d then kUnboundedSize else div64 d split_count);
  d ← at_ ds concat_dimension;
  ds ← set_at ds concat_dimension
         (if IsUnboundedDynamicSize d then kUnboundedSize else mul64 d split_count);
  dy ← dynamic_dimensions shape;
  MakeShape_dyn (element_type shape) ds dy.

(** Shape::Equal().IgnoreMemorySpaceInLayout(). *)
Definition EqualIgnoringMemorySpace : Shape -> Shape -> bool :=
  Shape_Equal (mkEqual false false false true false false false false false false false).

Definition InferAllToAllTupleShape `{FloatLimits} (operand_shapes : list Shape) : outcome Shape :=
  match operand_shapes with
  | [] => Err kInternal
  | first :: _ =>
      _ ← forM_ operand_shapes (fun s =>
            u ← is_unbounded_dynamic s;
            _ ← ret_if u kInvalidArgument;
            require (EqualIgnoringMemorySpace first s) kInvalidArgument);
      InferVariadicOpShape kTuple operand_shapes
  end.

Definition InferRaggedAllToAllShape (operand_shapes : list Shape) : outcome Shape :=
  s ← at_ operand_shapes 1; _ ← ExpectArray s; OK s.

Definition InferCollectiveBroadcastShape (operand_shapes : list Shape) : outcome Shape :=
  s ← at_ operand_shapes 0; _ ← ExpectArray s; OK s.

Definition InferCollectivePermuteShape (operand_shapes : list Shape) (inplace : bool) :
    outcome Shape :=
  if negb inplace then
    _ ← forM_ operand_shapes ExpectArray;
    UntupleSingleton operand_shapes
  else
    _ ← require (Zlen operand_shapes =? 4) kInternal;
    at_ operand_shapes 1.

Definition InferCollectivePermuteStartShape (operand_shapes context_shapes : list Shape)
    (inplace : bool) : outcome Shape :=
  shapes ←
    (if negb inplace then
       if Zlen operand_shapes =? 1 then
         s ← at_ operand_shapes 0;
         _ ← ExpectArray s;
         OK [s; s]
       else
         tuple_shape ← MakeTupleShape operand_shapes;
         OK [tuple_shape; tuple_shape]
     else
       _ ← require (Zlen operand_shapes =? 4) kInternal;
       s0 ← at_ operand_shapes 0;
       s1 ← at_ operand_shapes 1;
       OK [s0; s1]);
  MakeTupleShape (shapes ++ context_shapes).

Definition InferCollectivePermuteDoneShape (operand_shape : Shape) : outcome Shape :=
  _ ← require (IsTuple operand_shape) kInternal;
  GetTupleElementShape operand_shape 1.

(** ** Reduce *)

Definition InferReduceShape (arg_shapes : list Shape) (dimensions_to_reduce : list Z)
    (to_apply : ProgramShape) : outcome Shape :=
  _ ← ret_if (bool_decide (arg_shapes = [])) kInvalidArgument;
  _ ← require (Zlen arg_shapes mod 2 =? 0) kInvalidArgument;
  let num_reduced_args := Zlen arg_shapes / 2 in
  let reduced_args := take (Z.to_nat num_reduced_args) arg_shapes in
  arg ← at_ reduced_args 0;
  _ ← forM_ (drop 1 reduced_args) (fun s =>
        same ← SameDimensions arg s; require same kInvalidArgument);
  _ ← forM_ dimensions_to_reduce (fun d =>
        r ← rank arg; ret_if ((r <=? d) || (d <? 0)) kInvalidArgument);
  let init_values := drop (Z.to_nat num_reduced_args) arg_shapes in
  let element_types := map element_type reduced_args in
  _ ← VerifyReducerShape to_apply init_values element_types num_reduced_args;
  _ ← require (AllUnique dimensions_to_reduce) kInvalidArgument;
  r ← rank arg;
  kept ← mapM (fun i => d ← dimension arg i; b ← is_dynamic_dimension arg i; OK (d, b))
              (filter (fun i => contains dimensions_to_reduce i = false) (seqZ 0 r));
  let new_dimensions := map fst kept in
  let new_is_dynamic := map snd kept in
  scalar ← IsScalar (result to_apply);
  if (scalar : bool) then
    MakeShape_dyn (element_type (result to_apply)) new_dimensions new_is_dynamic
  else
    tuple_shapes ← tuple_shapes (result to_apply);
    result_subshapes ← mapM (fun subshape =>
      MakeShape_dyn (element_type subshape) new_dimensions new_is_dynamic) tuple_shapes;
    MakeTupleShape result_subshapes.

(** ** Reduce-window and select-and-scatter *)

Definition InferReduceWindowShape (operand_shape init_value_shape : Shape) (window : Window) :
    outcome Shape :=
  _ ← ExpectArray operand_shape;
  InferWindowOutputShape operand_shape window (element_type init_value_shape).

(** The overload with one operand and a computation. *)
Definition InferReduceWindowShape_to_apply (operand_shape init_value_shape : Shape)
    (window : Window) (to_apply_shape : ProgramShape) : outcome Shape :=
  _ ← VerifyReducerShape to_apply_shape [init_value_shape] [element_type operand_shape] 1;
  InferReduceWindowShape operand_shape init_value_shape window.

(** The variadic overload. *)
Definition InferReduceWindowShapes (operands init_values : list Shape) (window : Window)
    (to_apply_shape : ProgramShape) : outcome Shape :=
  _ ← forM_ (drop 1 operands) (fun s =>
        first ← at_ operands 0;
        same ← SameDimensions first s;
        require same kInvalidArgument);
  _ ← VerifyReducerShape to_apply_shape init_values (map element_type operands) (Zlen operands);
  output_shape_vec ← mapM (fun '(i, s) =>
                            init ← at_ init_values i;
                            InferReduceWindowShape s init window)
                          (zip (indices operands) operands);
  scalar ← IsScalar (result to_apply_shape);
  if (scalar : bool) then
    _ ← check (Zlen output_shape_vec =? 1);
    at_ output_shape_vec 0
  else MakeTupleShape output_shape_vec.

Definition InferSelectAndScatterShape (operand_shape : Shape) (select_shape : ProgramShape)
    (window : Window) (source_shape init_value_shape : Shape) (scatter_shape : ProgramShape) :
    outcome Shape :=
  _ ← ExpectArray operand_shape;
  _ ← require (Zlen (parameters select_shape) =? 2) kInvalidArgument;
  pred_scalar ← MakeShape PRED [];
  _ ← require (Compatible (result select_shape) pred_scalar) kInvalidArgument;
  operand_element_shape ← MakeShape (element_type operand_shape) [];
  p0 ← at_ (parameters select_shape) 0;
  _ ← require (CompatibleIgnoringFpPrecision operand_element_shape p0) kInvalidArgument;
  p1 ← at_ (parameters select_shape) 1;
  _ ← require (CompatibleIgnoringFpPrecision operand_element_shape p1) kInvalidArgument;
  _ ← VerifyReducerShape scatter_shape [init_value_shape] [element_type source_shape] 1;
  window_result_shape ← InferWindowOutputShape operand_shape window (element_type operand_shape);
  _ ← require (CompatibleIgnoringFpPrecision source_shape window_result_shape) kInvalidArgument;
  OK operand_shape.

(** ** All-gather and reduce-scatter are inverse *)

(** An operand whose gathered dimension is static, and stays representable
    when multiplied by the shard count. *)
Definition gatherable (dim shard_count : Z) (s : Shape) : Prop :=
  exists t st d, s = ArrayShape t st /\ IsArrayType t = true /\ idx (dims st) dim = Some d
    /\ idx (dyns st) dim = Some false /\ 0 <= d /\ shard_count * d < two63.

Lemma ReduceScatter_AllGather dim k s :
  0 <= dim -> 0 < k -> gatherable dim k s ->
  exists g, AllGatherOperand dim k s = OK g /\ ReduceScatterOperand dim k g = OK s.
Proof.
  intros Hdim Hk (t & st & d & -> & Ht & Hd & Hb & Hd0 & Hov).
  assert (Hr : forall st' : ArrayState, length (dims st') = length (dims st) ->
            (dim <? Z.of_nat (length (dims st'))) = true).
  { intros st' ->. apply at_OK, at_bound in Hd. unfold Zlen in Hd. lia. }
  pose proof Hd as Hd'. apply idx_Some in Hd' as [_ Hdk]. pose proof Hb as Hb'.
  apply idx_Some in Hb' as [_ Hbk].
  pose proof (lookup_lt_Some _ _ _ Hdk). pose proof (lookup_lt_Some _ _ _ Hbk).
  set (i := Z.to_nat dim) in *.
  set (st' := mkArrayState (<[i := k * d]> (dims st)) (<[i := false]> (dyns st)) (array_layout st)).
  exists (ArrayShape t st'). split.
  - unfold AllGatherOperand. rewrite rank_array. cbn [mbind outcome_bind].
    rewrite (Hr st eq_refl). unfold ExpectArray, dimension, IsArrayExcludingBuffer.
    cbn [element_type_including_buffer]. rewrite Ht. cbn [array_state mbind outcome_bind require].
    rewrite (proj2 (at_OK _ _ _) Hd). cbn [mbind outcome_bind]. unfold IsUnboundedDynamicSize.
    rewrite (eqb_unbounded d Hd0). rewrite mul64_fits by lia.
    rewrite (set_dimensions_array _ _ _ _ _ _ _ Hd Hb) by (left; nia). done.
  - assert (Hd2 : idx (dims st') dim = Some (k * d)).
    { apply idx_Some. split; [done|]. apply list_lookup_insert_eq. lia. }
    assert (Hb2 : idx (dyns st') dim = Some false).
    { apply idx_Some. split; [done|]. apply list_lookup_insert_eq. lia. }
    unfold ReduceScatterOperand. rewrite rank_array. cbn [mbind outcome_bind].
    rewrite Hr by (unfold st'; simpl; by rewrite length_insert).
    unfold ExpectArray, dimension, is_dynamic_dimension, IsArrayExcludingBuffer.
    cbn [element_type_including_buffer]. rewrite Ht. cbn [array_state mbind outcome_bind require].
    rewrite (proj2 (at_OK _ _ _) Hd2), (proj2 (at_OK _ _ _) Hb2). cbn [mbind outcome_bind].
    unfold rem64, div64. rewrite (Z.mul_comm k d), Z.rem_mul, Z.quot_mul by lia.
    rewrite i64_small by (apply is_i64_spec; unfold two63 in *; nia).
    cbn [Z.eqb require mbind outcome_bind].
    rewrite (set_dimensions_array _ _ _ _ _ _ _ Hd2 Hb2) by (left; lia).
    unfold st'. cbn [dims dyns array_layout]. fold i. rewrite !list_insert_insert_eq.
    rewrite !list_insert_id by done. by destruct st.
Qed.

(** reduce-scatter undoes all-gather: for operands whose gathered
    dimension is static and does not overflow, all-gather succeeds on every
    operand, and reduce-scatter of the gathered shapes with the same dimension
    and shard count infers the original operand shapes, layouts included. *)
Lemma InferReduceScatter_AllGather (operands : list Shape) (dim shard_count : Z) :
  0 <= dim -> 0 < shard_count -> Forall (gatherable dim shard_count) operands ->
  exists gathered,
    InferAllGatherShape operands dim shard_count = UntupleSingleton gathered
    /\ InferReduceScatterShape gathered dim shard_count = UntupleSingleton operands.
Proof.
  intros Hdim Hk HF.
  assert (exists gathered, mapM (AllGatherOperand dim shard_count) operands = OK gathered
    /\ mapM (ReduceScatterOperand dim shard_count) gathered = OK operands) as (gs & HA & HR).
  { setoid_rewrite mapM_OK. induction HF as [|s l Hs _ (gs & HA & HR)]; [by exists []|].
    destruct (ReduceScatter_AllGather dim shard_count s Hdim Hk Hs) as (g & ? & ?).
    exists (g :: gs). split; by constructor. }
  exists gs. unfold InferAllGatherShape, InferReduceScatterShape.
  rewrite (proj2 (Z.leb_le _ _) Hdim), (proj2 (Z.ltb_lt _ _) Hk). cbn [require mbind outcome_bind].
  by rewrite HA, HR.
Qed.

Lemma InferReduceScatter_AllGather_witness :
  exists gathered,
    InferAllGatherShape [array_shape F32 [4; 3] [true; false]; array_shape S8 [1; 5] [false; false]] 1 8
      = UntupleSingleton gathered
    /\ InferReduceScatterShape gathered 1 8
      = UntupleSingleton [array_shape F32 [4; 3] [true; false]; array_shape S8 [1; 5] [false; false]].
Proof.
  apply (InferReduceScatter_AllGather
    [array_shape F32 [4; 3] [true; false]; array_shape S8 [1; 5] [false; false]] 1 8); [lia|lia|].
  each_entry ltac:(unfold gatherable, array_shape; do 3 eexists; split; [reflexivity|];
    split; [reflexivity|]; split; [reflexivity|]; split; [reflexivity|]; unfold two63; lia).
Defined.

(** on a dynamic dimension the two operations are not inverse:
    all-gather makes a bounded dynamic dimension static, and reduce-scatter makes
    every dynamic dimension unbounded, bounded or not.  On an unbounded dimension
    it tests whether the shard count divides the sentinel for "unbounded", so
    that exactly the divisors of 2^63, the powers of two, are accepted. *)
Lemma ReduceScatterOperand_dynamic (t : PrimitiveType) (st : ArrayState) (dim shard_count d : Z) :
  IsArrayType t = true -> 0 < shard_count ->
  idx (dims st) dim = Some d -> idx (dyns st) dim = Some true ->
  (0 <= d -> shard_count * d < two63 -> AllGatherOperand dim shard_count (ArrayShape t st)
     = OK (ArrayShape t (mkArrayState (<[Z.to_nat dim := shard_count * d]> (dims st))
                           (<[Z.to_nat dim := false]> (dyns st)) (array_layout st))))
  /\ ReduceScatterOperand dim shard_count (ArrayShape t st)
     = (if Z.rem d shard_count =? 0
        then OK (ArrayShape t (mkArrayState (<[Z.to_nat dim := kUnboundedSize]> (dims st)) (dyns st)
                                 (array_layout st)))
        else Err kInvalidArgument)
  /\ (d = kUnboundedSize ->
      (is_OK (ReduceScatterOperand dim shard_count (ArrayShape t st)) = true
       <-> (shard_count | two63))).
Proof.
  intros Ht Hk Hd Hb.
  assert (Hr : (dim <? Z.of_nat (length (dims st))) = true).
  { apply at_OK, at_bound in Hd. unfold Zlen in Hd. lia. }
  assert (HR : ReduceScatterOperand dim shard_count (ArrayShape t st)
    = (if Z.rem d shard_count =? 0
       then OK (ArrayShape t (mkArrayState (<[Z.to_nat dim := kUnboundedSize]> (dims st)) (dyns st)
                                (array_layout st)))
       else Err kInvalidArgument)).
  { unfold ReduceScatterOperand. rewrite rank_array. cbn [mbind outcome_bind]. rewrite Hr.
    unfold ExpectArray, dimension, is_dynamic_dimension, IsArrayExcludingBuffer.
    cbn [element_type_including_buffer]. rewrite Ht. cbn [array_state mbind outcome_bind require].
    rewrite (proj2 (at_OK _ _ _) Hd), (proj2 (at_OK _ _ _) Hb). cbn [mbind outcome_bind].
    unfold rem64. destruct (Z.rem d shard_count =? 0); [|done]. cbn [require mbind outcome_bind].
    rewrite (set_dimensions_array _ _ _ _ _ _ _ Hd Hb) by auto.
    rewrite (list_insert_id (dyns st)); [done|]. by apply idx_Some in Hb as [_ Hb]. }
  split; [|split; [done|]].
  - intros Hd0 Hov. unfold AllGatherOperand. rewrite rank_array. cbn [mbind outcome_bind]. rewrite Hr.
    unfold ExpectArray, dimension, IsArrayExcludingBuffer.
    cbn [element_type_including_buffer]. rewrite Ht. cbn [array_state mbind outcome_bind require].
    rewrite (proj2 (at_OK _ _ _) Hd). cbn [mbind outcome_bind]. unfold IsUnboundedDynamicSize.
    rewrite (eqb_unbounded d Hd0), mul64_fits by lia.
    rewrite (set_dimensions_array _ _ _ _ _ _ _ Hd Hb) by (left; nia). done.
  - intros ->. rewrite HR. change kUnboundedSize with (- two63).
    rewrite Z.rem_opp_l by lia.
    rewrite <- (Z.rem_divide two63 shard_count) by lia.
    destruct (Z.eqb_spec (- Z.rem two63 shard_count) 0); split; try done; simpl; lia.
Qed.

(** f32[<=4,?]: the bounded dimension by 2 shards, the unbounded one by 3. *)
Lemma ReduceScatterOperand_dynamic_witness :
  ReduceScatterOperand 0 2 (array_shape F32 [4; kUnboundedSize] [true; true])
    = OK (ArrayShape F32 (mkArrayState [kUnboundedSize; kUnboundedSize] [true; true]
                            (Some (MakeDescendingLayout 2))))
  /\ (is_OK (ReduceScatterOperand 1 3 (array_shape F32 [4; kUnboundedSize] [true; true])) = true
      <-> (3 | two63)).
Proof.
  split.
  - apply (ReduceScatterOperand_dynamic F32
      (mkArrayState [4; kUnboundedSize] [true; true] (Some (MakeDescendingLayout 2))) 0 2 4);
      [reflexivity|lia|reflexivity|reflexivity].
  - apply (ReduceScatterOperand_dynamic F32
      (mkArrayState [4; kUnboundedSize] [true; true] (Some (MakeDescendingLayout 2))) 1 3 kUnboundedSize);
      [reflexivity|lia|reflexivity|reflexivity|reflexivity].
Defined.
