(* ===== verification/InferStructure.v ===== *)
(** * Shape inference: slicing, control flow, broadcast and reshape

    xla/service/shape_inference.cc, InferGetDimensionSizeShape to
    InferReshapeShape. *)

From S2P Require Import Prelude MachineInt Primitive Shape ShapeUtil IndexUtil Util InferBasic.

Definition int32_max : Z := 2147483647.

(** ** Dimension sizes and windows *)

Definition InferGetDimensionSizeShape (shape : Shape) (dimension_ : Z) : outcome Shape :=
  _ ← (if dimension_ <? 0 then Err kInvalidArgument
       else r ← rank shape; ret_if (r <=? dimension_) kInvalidArgument);
  d ← dimension shape dimension_;
  _ ← ret_if (int32_max <? d) kInvalidArgument;
  MakeShape S32 [].

Definition InferSetDimensionSizeShape (shape val_shape : Shape) (dimension_ : Z) : outcome Shape :=
  _ ← (if dimension_ <? 0 then Err kInvalidArgument
       else r ← rank shape; ret_if (r <=? dimension_) kInvalidArgument);
  vds ← dimensions val_shape;
  _ ← ret_if (negb (bool_decide (vds = [])) || negb (element_type val_shape =?? S32))
             kInvalidArgument;
  d ← dimension shape dimension_;
  _ ← ret_if (int32_max <? d) kInvalidArgument;
  set_dynamic_dimension shape dimension_ true.

(** An optional list of the window's length: [nth i l default] where present. *)
Definition window_entry {A} (l : list A) (i : Z) (d : A) : outcome A :=
  if bool_decide (length l = 0%nat) then OK d else at_ l i.

Definition InferWindowFromDimensions (window_dimensions window_strides : list Z)
    (padding : list (Z * Z)) (lhs_dilation rhs_dilation : list Z)
    (window_reversal : option (list bool)) : outcome Window :=
  let verify_size (x : Z) := ret_if (negb (x =? 0) && negb (x =? Zlen window_dimensions))
                                    kInvalidArgument in
  _ ← verify_size (Zlen window_strides);
  _ ← verify_size (Zlen padding);
  _ ← verify_size (Zlen lhs_dilation);
  _ ← verify_size (Zlen rhs_dilation);
  _ ← (match window_reversal with Some r => verify_size (Zlen r) | None => OK () end);
  mapM (fun '(i, size) =>
          stride ← window_entry window_strides i 1;
          pad ← window_entry padding i (0, 0);
          base_dilation ← window_entry lhs_dilation i 1;
          window_dilation ← window_entry rhs_dilation i 1;
          reversal ← (match window_reversal with
                      | Some r => window_entry r i false
                      | None => OK false
                      end);
          OK (mkWindowDimension size stride (pad.1) (pad.2) window_dilation base_dilation reversal))
       (zip (indices window_dimensions) window_dimensions).

(** ** Slices *)

Definition SliceSize (arg : Shape) (i start_index limit_index stride : Z) : outcome Z :=
  _ ← ret_if (start_index <? 0) kInvalidArgument;
  dimension_size ← dimension arg i;
  unbounded ← is_unbounded_dynamic_dimension arg i;
  _ ← ret_if (negb unbounded && (dimension_size <? limit_index)) kInvalidArgument;
  _ ← ret_if (limit_index <? start_index) kInvalidArgument;
  _ ← ret_if (stride <=? 0) kInvalidArgument;
  OK (div64 (sub64 (add64 (sub64 limit_index start_index) stride) 1) stride).

Definition InferSliceShape (arg : Shape) (starts limits strides : list Z) : outcome Shape :=
  _ ← ExpectArray arg;
  _ ← require (Zlen starts =? Zlen limits) kInvalidArgument;
  _ ← require (Zlen starts =? Zlen strides) kInvalidArgument;
  r ← rank arg;
  _ ← require (Zlen starts =? r) kInvalidArgument;
  sizes ← mapM (fun i =>
                 start_index ← at_ starts i;
                 limit_index ← at_ limits i;
                 stride ← at_ strides i;
                 SliceSize arg i start_index limit_index stride)
               (indices starts);
  is_dynamic ← mapM (fun '(i, size) =>
                      if size =? 1 then OK false else is_bounded_dynamic_dimension arg i)
                    (zip (seqZ 0 r) sizes);
  MakeShape_dyn (element_type arg) sizes is_dynamic.

(** The checks of the start indices of dynamic-slice and
    dynamic-update-slice. *)
Definition CheckStartIndices (operand_shape : Shape) (start_index_shapes : list Shape)
    (allow_scalar_indices : bool) : outcome () :=
  let number_of_indices := Zlen start_index_shapes in
  rank1 ← (if negb allow_scalar_indices then OK true
           else if 1 <=? number_of_indices then
             first ← at_ start_index_shapes 0; r ← rank first; OK (r =? 1)
           else OK false);
  if (rank1 : bool) then
    _ ← require (number_of_indices =? 1) kInvalidArgument;
    start_indices_shape ← at_ start_index_shapes 0;
    _ ← ExpectArray start_indices_shape;
    r ← rank start_indices_shape;
    _ ← require (r =? 1) kInvalidArgument;
    _ ← require (ElementIsIntegral start_indices_shape) kInvalidArgument;
    start_num_dims ← dimension start_indices_shape 0;
    or ← rank operand_shape;
    require (or =? start_num_dims) kInvalidArgument
  else
    or ← rank operand_shape;
    _ ← require (or =? number_of_indices) kInvalidArgument;
    if 0 <? number_of_indices then
      first_index_shape ← at_ start_index_shapes 0;
      scalar ← IsScalar first_index_shape;
      _ ← require scalar kInvalidArgument;
      _ ← require (ElementIsIntegral first_index_shape) kInvalidArgument;
      forM_ start_index_shapes (fun index_shape =>
        require (Compatible first_index_shape index_shape) kInvalidArgument)
    else OK ().

Definition InferDynamicSliceShape (operand_shape : Shape) (start_index_shapes : list Shape)
    (slice_sizes : list Z) (allow_scalar_indices : bool) : outcome Shape :=
  _ ← ExpectArray operand_shape;
  _ ← CheckStartIndices operand_shape start_index_shapes allow_scalar_indices;
  r ← rank operand_shape;
  _ ← require (Zlen slice_sizes =? r) kInvalidArgument;
  _ ← forM_ (zip (indices slice_sizes) slice_sizes) (fun '(dim, slice_dim_size) =>
        input_dim_size ← dimension operand_shape dim;
        _ ← ret_if (slice_dim_size <? 0) kInvalidArgument;
        ret_if (negb (IsUnboundedDynamicSize input_dim_size)
                && (input_dim_size <? slice_dim_size)) kInvalidArgument);
  res ← MakeShape (element_type operand_shape) slice_sizes;
  foldM (fun res '(i, size) =>
           dyn ← is_dynamic_dimension operand_shape i;
           d ← dimension operand_shape i;
           if (dyn : bool) && (1 <? size) && (size =? d)
           then set_dynamic_dimension res i true else OK res)
        res (zip (indices slice_sizes) slice_sizes).

Definition InferDynamicUpdateSliceShape (operand_shape update_shape : Shape)
    (start_index_shapes : list Shape) (allow_scalar_indices : bool) : outcome Shape :=
  _ ← ExpectArray operand_shape;
  _ ← ExpectArray update_shape;
  _ ← CheckStartIndices operand_shape start_index_shapes allow_scalar_indices;
  ur ← rank update_shape;
  or ← rank operand_shape;
  _ ← require (ur =? or) kInvalidArgument;
  _ ← require (SameElementTypeIgnoringFpPrecision operand_shape update_shape) kInvalidArgument;
  _ ← forM_ (seqZ 0 or) (fun dim =>
        input_dim_size ← dimension operand_shape dim;
        update_dim_size ← dimension update_shape dim;
        _ ← ret_if (negb (IsUnboundedDynamicSize update_dim_size) && (update_dim_size <? 0))
                   kInvalidArgument;
        ret_if (input_dim_size <? update_dim_size) kInvalidArgument);
  foldM (fun res i =>
           odyn ← is_dynamic_dimension operand_shape i;
           res ← (if (odyn : bool) then set_dynamic_dimension res i true else OK res);
           udyn ← is_dynamic_dimension update_shape i;
           ud ← dimension update_shape i;
           od ← dimension operand_shape i;
           if (udyn : bool) && (ud =? od) then set_dynamic_dimension res i true else OK res)
        operand_shape (seqZ 0 ur).

Definition InferReverseShape (operand_shape : Shape) (reverse_dimensions : list Z) :
    outcome Shape :=
  _ ← ExpectArray operand_shape;
  _ ← require (AllUnique reverse_dimensions) kInvalidArgument;
  r ← rank operand_shape;
  _ ← forM_ reverse_dimensions (fun d => ret_if ((d <? 0) || (r <=? d)) kInvalidArgument);
  OK operand_shape.

(** ** Tuples and control flow *)

Definition InferGetTupleElementShape (arg : Shape) (index : Z) : outcome Shape :=
  _ ← require (IsTuple arg) kInvalidArgument;
  l ← tuple_shapes arg;
  _ ← ret_if ((index <? 0) || (Zlen l <=? index)) kInvalidArgument;
  at_ l index.

Definition InferWhileShape (condition body : ProgramShape) (init : Shape) : outcome Shape :=
  _ ← require (Zlen (parameters condition) =? 1) kInvalidArgument;
  _ ← require (Zlen (parameters body) =? 1) kInvalidArgument;
  pred_shape ← MakeShape PRED [];
  _ ← require (Compatible (result condition) pred_shape) kInvalidArgument;
  cp ← at_ (parameters condition) 0;
  bp ← at_ (parameters body) 0;
  _ ← require (Compatible (result body) cp && Compatible (result body) bp
               && Compatible (result body) init) kInvalidArgument;
  OK init.

Fixpoint GetSubshape (s : Shape) (index : list Z) : outcome Shape :=
  match index with
  | [] => OK s
  | i :: index =>
      _ ← check (IsTuple s);
      l ← tuple_shapes s;
      e ← at_ l i;
      GetSubshape e index
  end.

(** ForEachMutableSubshape: pre-order, with the index of the visited shape, for
    a function that leaves a tuple itself as it is. *)
Fixpoint ForEachMutableSubshape (fn : Shape -> list Z -> outcome Shape) (s : Shape)
    (index : list Z) : outcome Shape :=
  match s with
  | TupleShape l =>
      _ ← fn s index;
      l ← (fix go (l : list Shape) (i : Z) : outcome (list Shape) := match l with
             | [] => OK []
             | e :: l =>
                 e ← ForEachMutableSubshape fn e (index ++ [i]);
                 l ← go l (i + 1);
                 OK (e :: l)
             end) l 0;
      OK (TupleShape l)
  | _ => fn s index
  end.

(** The lambda of InferConditionalShape: mark the dimensions that are dynamic in
    some branch. *)
Definition MarkDynamic (branch_results : list Shape) (subshape : Shape) (index : list Z) :
    outcome Shape :=
  if negb (IsArrayExcludingBuffer subshape) then OK subshape
  else foldM (fun subshape branch_result =>
                branch_subshape ← GetSubshape branch_result index;
                r ← rank branch_subshape;
                foldM (fun subshape i =>
                         dyn ← is_dynamic_dimension branch_subshape i;
                         if (dyn : bool) then set_dynamic_dimension subshape i true
                         else OK subshape)
                      subshape (seqZ 0 r))
             subshape branch_results.

Definition InferConditionalShape (branch_index : Shape) (branch_computations : list ProgramShape)
    (branch_operands : list Shape) : outcome Shape :=
  pred_shape ← MakeShape PRED [];
  s32_shape ← MakeShape S32 [];
  _ ← require (Compatible branch_index pred_shape || Compatible branch_index s32_shape)
              kInvalidArgument;
  _ ← (if element_type branch_index =?? PRED
       then require (2 =? Zlen branch_computations) kInternal
       else require (negb (Zlen branch_computations =? 0)) kInternal);
  _ ← require (Zlen branch_computations =? Zlen branch_operands) kInternal;
  c0 ← at_ branch_computations 0;
  _ ← forM_ (zip branch_computations branch_operands) (fun '(c, operand) =>
        _ ← require (Zlen (parameters c) =? 1) kInvalidArgument;
        p ← at_ (parameters c) 0;
        _ ← require (Compatible p operand) kInvalidArgument;
        require (Compatible (result c0) (result c)) kInvalidArgument);
  ForEachMutableSubshape (MarkDynamic (map result branch_computations)) (result c0) [].

(** ** Broadcast *)

Definition InferBroadcastShape (operand : Shape) (broadcast_sizes : list Z) : outcome Shape :=
  _ ← ExpectArray operand;
  unbounded ← is_unbounded_dynamic operand;
  _ ← ret_if unbounded kInternal;
  _ ← forM_ broadcast_sizes (fun size =>
        _ ← ret_if (size =? kUnboundedSize) kInvalidArgument;
        ret_if (size <? 0) kInvalidArgument);
  ds ← dimensions operand;
  res ← MakeValidatedShape (element_type operand) (broadcast_sizes ++ ds);
  foldM (fun res i =>
           dyn ← is_dynamic_dimension operand i;
           set_dynamic_dimension res (Zlen broadcast_sizes + i) dyn)
        res (indices ds).

(** The overload for a broadcast-in-dim to a given shape. *)
Definition InferBroadcastShape_in_dim (operand_shape output_shape : Shape)
    (broadcast_dimensions : list Z) : outcome Shape :=
  _ ← ExpectArray operand_shape;
  _ ← ExpectArray output_shape;
  unbounded ← is_unbounded_dynamic output_shape;
  _ ← ret_if unbounded kInternal;
  operand_rank ← rank operand_shape;
  output_rank ← rank output_shape;
  _ ← ret_if (output_rank <? operand_rank) kInvalidArgument;
  _ ← require (operand_rank =? Zlen broadcast_dimensions) kInvalidArgument;
  _ ← forM_ (zip (indices broadcast_dimensions) broadcast_dimensions) (fun '(i, bd) =>
        _ ← ret_if ((bd <? 0) || (output_rank <=? bd)) kInvalidArgument;
        unbounded ← is_unbounded_dynamic_dimension operand_shape i;
        od ← dimension operand_shape i;
        out ← dimension output_shape bd;
        _ ← ret_if (negb unbounded && negb (od =? out) && negb (od =? 1)) kInvalidArgument;
        ob ← is_bounded_dynamic_dimension operand_shape i;
        outb ← is_bounded_dynamic_dimension output_shape bd;
        _ ← ret_if (negb unbounded && negb (eqb ob outb)) kInvalidArgument;
        if 0 <? i then
          previous ← at_ broadcast_dimensions (i - 1);
          ret_if (bd <=? previous) kInvalidArgument
        else OK ());
  OK output_shape.

(** ** Reshape *)

Definition InferDynamicReshapeShape (operand : Shape) (dim_size_shapes : list Shape)
    (new_size_bounds : list Z) (dims_are_dynamic : list bool) : outcome Shape :=
  _ ← require (Zlen new_size_bounds =? Zlen dims_are_dynamic) kInvalidArgument;
  _ ← forM_ dim_size_shapes (fun s =>
        if element_type s =?? S32 then OK ()
        else ds ← dimensions s; require (bool_decide (ds = [])) kInvalidArgument);
  inferred_shape ← MakeShape_dyn (element_type operand) new_size_bounds dims_are_dynamic;
  n ← ElementsIn operand;
  m ← ElementsIn inferred_shape;
  _ ← require (n =? m) kInvalidArgument;
  OK inferred_shape.

(** The common-factor group [input_dim] belongs to; four times -1 if none. *)
Fixpoint FindFactorGroup (common_factors : list (Z * Z)) (input_dim : Z) : Z * Z * Z * Z :=
  match common_factors with
  | start :: ((stop :: _) as rest) =>
      if (start.1 <=? input_dim) && (input_dim <? stop.1)
      then (start.1, stop.1, start.2, stop.2)
      else FindFactorGroup rest input_dim
  | _ => (-1, -1, -1, -1)
  end.

(** The output dimension that becomes dynamic for a dynamic [input_dim]. *)
Definition ReshapeDynamicDim (operand : Shape) (dimensions_ : list Z) (inferred_dimension : Z)
    (common_factors : list (Z * Z)) (inferred_shape : Shape) (input_dim : Z) : outcome Shape :=
  dyn ← is_dynamic_dimension operand input_dim;
  if negb dyn then OK inferred_shape else
  let '(input_dim_start, input_dim_end, output_dim_start, output_dim_end) :=
    FindFactorGroup common_factors input_dim in
  _ ← ret_if ((1 <? input_dim_end - input_dim_start) && (1 <? output_dim_end - output_dim_start))
             kUnimplemented;
  let output_dim_start := foldl (fun acc cf =>
    if (cf.1 =? input_dim_start) then Z.min acc cf.2 else acc) output_dim_start common_factors in
  let output_dim_end := foldl (fun acc cf =>
    if (cf.1 =? input_dim_end) then Z.max acc cf.2 else acc) output_dim_end common_factors in
  r ← rank operand;
  d ← dimension operand input_dim;
  output_dynamic_dimension ←
    (if (d =? 1) && negb (bool_decide (dimensions_ = [])) then
       let o := if input_dim =? 0 then 0 else -1 in
       let o := if input_dim =? r - 1 then Zlen dimensions_ - 1 else o in
       _ ← ret_if (o =? -1) kUnimplemented;
       OK o
     else OK (-1));
  let output_dynamic_dimension :=
    if (output_dynamic_dimension =? -1) && (output_dim_end - output_dim_start =? 1)
    then output_dim_start else output_dynamic_dimension in
  let output_dynamic_dimension :=
    if (output_dynamic_dimension =? -1) && (1 <? output_dim_end - output_dim_start)
    then inferred_dimension else output_dynamic_dimension in
  if negb (output_dynamic_dimension =? -1) then
    set_dynamic_dimension inferred_shape output_dynamic_dimension true
  else
    sizes ← mapM (fun i => x ← at_ dimensions_ i; OK (i, x))
                 (seqZ output_dim_start (output_dim_end - output_dim_start));
    match filter (fun p => p.2 <> 1) sizes with
    | [p] => set_dynamic_dimension inferred_shape (p.1) true
    | _ => OK inferred_shape
    end.

Definition InferReshapeShape (operand : Shape) (dimensions_ : list Z) (inferred_dimension : Z) :
    outcome Shape :=
  _ ← ExpectArray operand;
  inferred_shape ← MakeShape (element_type operand) dimensions_;
  iu ← is_unbounded_dynamic inferred_shape;
  _ ← ret_if iu kInternal;
  ou ← is_unbounded_dynamic operand;
  if (ou : bool) then
    ob ← is_bounded_dynamic operand;
    _ ← ret_if ob kInternal;
    OK inferred_shape
  else
    n ← ElementsIn operand;
    m ← ElementsIn inferred_shape;
    _ ← require (n =? m) kInvalidArgument;
    ds ← dimensions operand;
    common_factors ← CommonFactors ds dimensions_;
    foldM (ReshapeDynamicDim operand dimensions_ inferred_dimension common_factors)
          inferred_shape (indices ds).

(** ** Slices count indices *)

(** A slice of one dimension that passes the checks, without overflow of
    [limit + stride]: its size is the number of indices
    [start, start + stride, ...] below the limit. *)
Lemma SliceSize_spec t st k start limit stride size d :
  dims st !! k = Some d -> limit + stride < two63 ->
  SliceSize (ArrayShape t st) (Z.of_nat k) start limit stride = OK size ->
  0 <= start <= limit /\ 0 < stride /\ 0 <= size < two63
  /\ (d = kUnboundedSize \/ limit <= d)
  /\ forall q, 0 <= q -> (q < size <-> start + q * stride < limit).
Proof.
  intros Hd Hov HS. unfold SliceSize in HS. outcome_simp.
  apply dimension_array in E0. rewrite Hd in E0. injection E0 as <-.
  unfold is_unbounded_dynamic_dimension in E1. outcome_simp.
  apply dimension_array in E0. rewrite Hd in E0. injection E0 as <-.
  apply Z.ltb_ge in E, E3. apply Z.leb_gt in E4. apply andb_false_iff in E2.
  unfold sub64, add64. rewrite (i64_small (limit - start)) by (apply is_i64_spec; unfold two63 in *; lia).
  rewrite (i64_small (limit - start + stride)) by (apply is_i64_spec; unfold two63 in *; lia).
  rewrite (i64_small (_ - 1)) by (apply is_i64_spec; unfold two63 in *; lia).
  set (n := limit - start + stride - 1). unfold div64.
  pose proof (Z.mul_div_le n stride ltac:(lia)). pose proof (Z.mul_succ_div_gt n stride ltac:(lia)).
  rewrite Z.quot_div_nonneg by (unfold n; lia).
  assert (0 <= n / stride <= n).
  { split; [apply Z.div_pos; unfold n; lia|]. apply Z.div_le_upper_bound; unfold n in *; nia. }
  rewrite i64_small by (apply is_i64_spec; unfold n, two63 in *; lia).
  split; [lia|]. split; [lia|]. split; [unfold n, two63 in *; lia|]. split.
  { destruct E2 as [E2|E2]; [left|right; lia]. apply negb_false_iff in E2. lia. }
  intros q Hq. split; intros HQ.
  - assert (stride * (q + 1) <= stride * (n / stride)) by (apply Z.mul_le_mono_nonneg_l; lia).
    unfold n in *. lia.
  - destruct (Z_lt_ge_dec q (n / stride)) as [|Hge]; [done|].
    assert (stride * Z.succ (n / stride) <= stride * (q + 1)) by (apply Z.mul_le_mono_nonneg_l; lia).
    unfold n in *. lia.
Qed.

(** slice inference returns the shape whose sizes count the selected
    indices, lies within the operand, and keeps a dimension dynamic exactly
    when it is bounded dynamic and the slice is not a single element. *)
Lemma InferSliceShape_counts (t : PrimitiveType) (st : ArrayState)
    (starts limits strides : list Z) (out : Shape) :
  Forall2 (fun limit stride => limit + stride < two63) limits strides ->
  InferSliceShape (ArrayShape t st) starts limits strides = OK out ->
  exists sizes dy, out = array_shape t sizes dy
    /\ length sizes = length (dims st) /\ length dy = length (dims st)
    /\ forall k start limit stride d b, starts !! k = Some start -> limits !! k = Some limit ->
         strides !! k = Some stride -> dims st !! k = Some d -> dyns st !! k = Some b ->
         exists size, sizes !! k = Some size
           /\ dy !! k = Some (b && negb (d =? kUnboundedSize) && negb (size =? 1))
           /\ 0 <= start <= limit /\ (d = kUnboundedSize \/ limit <= d)
           /\ forall q, 0 <= q -> (q < size <-> start + q * stride < limit).
Proof.
  intros Hov HI. unfold InferSliceShape in HI. outcome_simp.
  rewrite rank_array in E2. injection E2 as <-.
  apply Z.eqb_eq in E0, E1, E3. unfold Zlen in E0, E1, E3.
  unfold indices, Zlen in E4. apply mapM_seqZ_OK in E4 as [Hls Hs].
  apply MakeShape_dyn_OK in HI as [_ ->].
  rename v4 into sizes, v5 into flags.
  assert (Hd : length flags = length (dims st) /\ forall k size b, sizes !! k = Some size -> flags !! k = Some b ->
    (if size =? 1 then OK false else is_bounded_dynamic_dimension (ArrayShape t st) (Z.of_nat k)) = OK b).
  { apply mapM_OK in E5. pose proof (Forall2_length _ _ _ E5) as Hl5.
    rewrite length_zip_with, length_seqZ in Hl5. split; [lia|].
    intros k size b Hk Hb. destruct (Forall2_lookup_r _ _ _ _ _ E5 Hb) as ([i size'] & Hz & HE).
    apply lookup_zip_with_Some in Hz as (i' & s' & [= <- <-] & Hi & Hs').
    apply lookup_seqZ in Hi as [-> _]. rewrite Hk in Hs'. injection Hs' as <-. done. }
  destruct Hd as [Hld Hd]. exists sizes, flags. split; [done|]. split; [lia|]. split; [done|].
  intros k start limit stride d b H1 H2 H3 H4 H5.
  pose proof (lookup_lt_Some _ _ _ H1). destruct (lookup_lt_is_Some_2 sizes k) as [size Hk]; [lia|].
  destruct (lookup_lt_is_Some_2 flags k) as [b' Hk']; [lia|]. exists size. split; [done|].
  specialize (Hs k size Hk). specialize (Hd k size b' Hk Hk').
  rewrite (proj2 (at_lookup _ _ _) H1), (proj2 (at_lookup _ _ _) H2), (proj2 (at_lookup _ _ _) H3) in Hs.
  cbn [mbind outcome_bind] in Hs.
  pose proof (Forall2_lookup_lr _ _ _ _ _ _ Hov H2 H3) as Hlim.
  destruct (SliceSize_spec _ _ _ _ _ _ _ _ H4 Hlim Hs) as (Ha & Hb & _ & Hc & Hq).
  split; [|done]. rewrite Hk'. f_equal. destruct (Z.eqb_spec size 1).
  - injection Hd as <-. by rewrite andb_false_r.
  - unfold is_bounded_dynamic_dimension, is_unbounded_dynamic_dimension in Hd.
    rewrite (proj2 (dimension_array _ _ _ _) H4), (proj2 (is_dynamic_dimension_array _ _ _ _) H5) in Hd.
    cbn [mbind outcome_bind] in Hd. injection Hd as <-. by rewrite andb_true_r.
Qed.

Lemma InferSliceShape_counts_witness :
  exists sizes dy, array_shape F32 [3; 2] [true; false] = array_shape F32 sizes dy
    /\ length sizes = 2%nat /\ length dy = 2%nat
    /\ forall k start limit stride d b, [1; 0] !! k = Some start -> [8; 2] !! k = Some limit ->
         [3; 1] !! k = Some stride -> [10; kUnboundedSize] !! k = Some d ->
         [true; true] !! k = Some b ->
         exists size, sizes !! k = Some size
           /\ dy !! k = Some (b && negb (d =? kUnboundedSize) && negb (size =? 1))
           /\ 0 <= start <= limit /\ (d = kUnboundedSize \/ limit <= d)
           /\ forall q, 0 <= q -> (q < size <-> start + q * stride < limit).
Proof.
  apply (InferSliceShape_counts F32
    (mkArrayState [10; kUnboundedSize] [true; true] None) [1; 0] [8; 2] [3; 1]).
  - each_entry ltac:(unfold two63; lia).
  - vm_compute. reflexivity.
Defined.

(** where the numerator of the size does not fit in an int64
    the inferred size is wrong: a non-empty range is then given a size of zero
    or less, although the checks of the start, limit and stride pass. *)
Lemma SliceSize_overflow (t : PrimitiveType) (st : ArrayState) (k : nat) (start limit stride d : Z) :
  dims st !! k = Some d -> 0 <= start < limit -> limit <= d -> d < two63 -> 0 < stride < two63 ->
  two63 <= limit - start + stride - 1 ->
  exists size, SliceSize (ArrayShape t st) (Z.of_nat k) start limit stride = OK size /\ size <= 0.
Proof.
  intros Hd Hs Hl Hd63 Hst Hov.
  unfold SliceSize, is_unbounded_dynamic_dimension.
  rewrite (proj2 (dimension_array _ _ _ _) Hd). cbn [mbind outcome_bind].
  rewrite (eqb_unbounded d) by lia.
  rewrite (proj2 (Z.ltb_ge start 0)), (proj2 (Z.ltb_ge d limit)), (proj2 (Z.ltb_ge limit start)),
    (proj2 (Z.leb_gt stride 0)) by lia.
  cbn [negb andb ret_if mbind outcome_bind]. eexists. split; [reflexivity|].
  unfold sub64, add64. rewrite (i64_small (limit - start)) by (apply is_i64_spec; unfold two63 in *; lia).
  set (n := limit - start + stride - 1) in *.
  assert (Hn : i64 (i64 (limit - start + stride) - 1) = n - two64).
  { destruct (Z.eq_dec n two63) as [He|Hne].
    - assert (i64 (limit - start + stride) = limit - start + stride - two64) as ->.
      { rewrite <- (i64_shift _ (-1)). apply i64_small, is_i64_spec. unfold n, two63, two64 in *. lia. }
      replace (limit - start + stride - two64 - 1) with (n - two64) by (unfold n; lia).
      apply i64_small, is_i64_spec. unfold n, two63, two64 in *. lia.
    - assert (i64 (limit - start + stride) = limit - start + stride - two64) as ->.
      { rewrite <- (i64_shift _ (-1)). apply i64_small, is_i64_spec. unfold n, two63, two64 in *. lia. }
      replace (limit - start + stride - two64 - 1) with (n - two64) by (unfold n; lia).
      apply i64_small, is_i64_spec. unfold n, two63, two64 in *. lia. }
  rewrite Hn. unfold div64.
  assert (Hq : - two63 <= Z.quot (n - two64) stride <= 0).
  { rewrite <- (Z.opp_involutive (n - two64)), Z.quot_opp_l by lia.
    assert (0 <= Z.quot (- (n - two64)) stride <= - (n - two64)).
    { split; [apply Z.quot_pos; unfold n, two63, two64 in *; lia|].
      rewrite Z.quot_div_nonneg by (unfold n, two63, two64 in *; lia).
      apply Z.div_le_upper_bound; [lia|]. unfold n, two63, two64 in *. nia. }
    unfold n, two63, two64 in *. lia. }
  rewrite i64_small by (apply is_i64_spec; unfold two63 in *; lia). lia.
Qed.

(** Two elements sliced with the largest stride: the negative size makes the
    construction of the result abort. *)
Lemma SliceSize_overflow_witness :
  (exists size, SliceSize (array_shape F32 [2] [false]) 0 0 2 int64_max = OK size /\ size <= 0)
  /\ InferSliceShape (array_shape F32 [2] [false]) [0] [2] [int64_max] = Crash.
Proof.
  split; [|vm_compute; reflexivity].
  apply (SliceSize_overflow F32 (mkArrayState [2] [false] (Some (MakeDescendingLayout 1))) 0 0 2
    int64_max 2); [reflexivity|lia|lia|reflexivity|split; reflexivity|discriminate].
Defined.

(** ** Reshape of static shapes *)

(** Without unbounded dimensions the running product of ElementsIn is the one
    the validation computes. *)
Lemma extents_static ds p b :
  Forall (fun d => 0 <= d) ds ->
  foldl (extent_product_step false) (p, b) ds = foldl (extent_product_step true) (p, b) ds
  /\ bounded_product ds = prod ds.
Proof.
  intros HF. revert p b; induction HF as [|d ds Hd HF IH]; intros p b; [done|].
  cbn [foldl bounded_product prod]. unfold bounded, extent_product_step at 2 4.
  rewrite (eqb_unbounded d Hd). cbn [negb andb].
  destruct (OverflowSafeMultiply p d) as [q o]. destruct (IH q (b || o)) as [H1 H2]. by rewrite H1, H2.
Qed.

(** A static shape that was constructed: its form and its element count. *)
Lemma MakeShape_static t ds s :
  Forall (fun d => 0 <= d) ds -> MakeShape t ds = OK s ->
  IsArrayType t = true /\ s = array_shape t ds (MakeDynamicDimensions ds)
  /\ MakeDynamicDimensions ds = replicate (length ds) false /\ ElementsIn s = OK (prod ds) /\ prod ds < two63.
Proof.
  intros HF HM. unfold MakeShape, MakeValidatedShape in HM. rewrite value_or_die_OK in HM.
  apply MakeValidatedShape_dyn_OK in HM as [(Ht & _ & _ & He) ->]. split; [done|]. split; [done|]. split.
  { unfold MakeDynamicDimensions. clear He. induction HF as [|d ds Hd _ IH]; [done|].
    cbn [map length replicate]. by rewrite IH, eqb_unbounded. }
  unfold ElementsIn, ExtentProduct, dimensions. cbn [array_shape array_state mbind outcome_bind dims].
  destruct (extents_static ds 1 false HF) as [-> Hb]. pose proof (byte_width_bounds t Ht).
  rewrite <- (Z.mul_1_r (CeilOfRatio _ _)) in He.
  apply extents_scale in He; [|lia|lia|unfold two63; lia].
  destruct (extents_ok ds 1 ltac:(unfold two63; lia) He) as (HP & _ & HB). rewrite HP, Hb in *.
  rewrite Z.mul_1_l in *. split; [done|lia].
Qed.

(** No static dimension makes an output dimension dynamic. *)
Lemma ReshapeDynamicDim_static t ds lay dims' inferred cf s :
  foldM (ReshapeDynamicDim (ArrayShape t (mkArrayState ds (replicate (length ds) false) lay))
           dims' inferred cf) s (indices ds) = OK s.
Proof.
  destruct (foldM_total (fun _ s' => s' = s)
    (ReshapeDynamicDim (ArrayShape t (mkArrayState ds (replicate (length ds) false) lay))
       dims' inferred cf) (indices ds) s eq_refl) as (s' & HE & ->); [|done].
  intros l1 i l2 s1 Hl ->. exists s. split; [|done]. unfold ReshapeDynamicDim.
  assert (Hi : i ∈ indices ds) by (rewrite Hl; set_solver).
  apply elem_of_indices in Hi. unfold Zlen in Hi.
  rewrite <- (Z2Nat.id i) by lia. rewrite (proj2 (is_dynamic_dimension_array _ _ _ false)); [done|].
  apply lookup_replicate_2. lia.
Qed.

Lemma static_not_unbounded t ds dy lay :
  Forall (fun d => 0 <= d) ds -> is_unbounded_dynamic (ArrayShape t (mkArrayState ds dy lay)) = OK false.
Proof.
  intros HF. cbn. f_equal. induction HF as [|d ds Hd _ IH]; [done|]. simpl.
  by rewrite eqb_unbounded, IH.
Qed.

(** reshape of a static operand succeeds exactly when the element
    counts agree, and then returns the shape with the requested dimensions; the
    factor search always ends.  Where the counts agree and a size is zero, the products of
    consecutive sizes have to fit in int64. *)
Lemma InferReshapeShape_static (t : PrimitiveType) (ds dims' : list Z) (inferred : Z) (s s' : Shape) :
  Forall (fun d => 0 <= d) ds -> Forall (fun d => 0 <= d) dims' ->
  (prod ds = prod dims' -> 0 ∈ ds -> slices_fit ds /\ slices_fit dims') ->
  MakeShape t ds = OK s -> MakeShape t dims' = OK s' ->
  InferReshapeShape s dims' inferred
  = if prod ds =? prod dims' then OK s' else Err kInvalidArgument.
Proof.
  intros Hd Hd' Hf HM HM'.
  destruct (MakeShape_static t ds s Hd HM) as (Ht & -> & Hm & HE & Hb).
  destruct (MakeShape_static t dims' s' Hd' HM') as (_ & Es' & _ & HE' & _).
  unfold InferReshapeShape, ExpectArray, IsArrayExcludingBuffer, array_shape.
  cbn [element_type_including_buffer element_type]. rewrite Ht. cbn [require mbind outcome_bind].
  rewrite HM'. cbn [mbind outcome_bind]. rewrite Es' at 1. unfold array_shape in *.
  rewrite !static_not_unbounded by done. cbn [ret_if mbind outcome_bind].
  rewrite HE, HE'. cbn [mbind outcome_bind]. destruct (Z.eqb_spec (prod ds) (prod dims')) as [He|]; [|done].
  cbn [require mbind outcome_bind dimensions array_state dims].
  destruct (slices_fit_equal ds dims') as [Hfd Hfd']; [done..|by apply Hf|].
  destruct (CommonFactors_ok ds dims' Hd Hd' Hfd Hfd') as (bs & HC & _); [done|].
  rewrite HC. cbn [mbind outcome_bind]. rewrite Hm. apply ReshapeDynamicDim_static.
Qed.

Lemma InferReshapeShape_static_witness :
  InferReshapeShape (array_shape F32 [2; 3; 4] [false; false; false]) [6; 4] (-1)
    = OK (array_shape F32 [6; 4] [false; false])
  /\ InferReshapeShape (array_shape F32 [2; 3; 4] [false; false; false]) [6; 5] (-1)
    = Err kInvalidArgument.
Proof.
  assert (Hz : 0 ∈ [2; 3; 4] -> False) by (apply (bool_decide_unpack (0 ∉ [2; 3; 4])); reflexivity).
  split.
  - apply (InferReshapeShape_static F32 [2; 3; 4] [6; 4] (-1) (array_shape F32 [2; 3; 4] [false; false; false])
      (array_shape F32 [6; 4] [false; false])); [each_entry ltac:(lia)|each_entry ltac:(lia)
      |by intros _ ?%Hz|vm_compute; reflexivity|vm_compute; reflexivity].
  - apply (InferReshapeShape_static F32 [2; 3; 4] [6; 5] (-1) (array_shape F32 [2; 3; 4] [false; false; false])
      (array_shape F32 [6; 5] [false; false])); [each_entry ltac:(lia)|each_entry ltac:(lia)
      |by intros _ ?%Hz|vm_compute; reflexivity|vm_compute; reflexivity].
Defined.

(** Two empty shapes that MakeShape accepts, since a product with a zero does not overflow,
    but on which the search for common factors reads behind the end of a list. *)
Example InferReshapeShape_overflow :
  let s := array_shape S8 [0; 4294967297; 4294967297] [false; false; false] in
  MakeShape S8 [0; 4294967297; 4294967297] = OK s
  /\ InferReshapeShape s [0; 26789838902651; 8814587391829852595] (-1) = Crash.
Proof. split; vm_compute; reflexivity. Qed.

(** Dynamic reshape is meant to take scalar S32 sizes, but accepts
    an f32 scalar and an S32 vector as the size of a dimension, since it only
    rejects what is neither. *)
Example InferDynamicReshapeShape_accepts :
  InferDynamicReshapeShape (array_shape F32 [4] [false])
    [array_shape F32 [] []; array_shape S32 [7] [false]] [2; 2] [true; false]
  = OK (array_shape F32 [2; 2] [true; false]).
Proof. vm_compute. reflexivity. Qed.
