(* ===== verification/InferGather.v ===== *)
(** * Shape inference: gather and scatter

    xla/service/shape_inference.cc, ValidateGatherDimensionNumbers to
    InferScatterShape. *)

From stdpp Require Import sorting.
From S2P Require Import Prelude MachineInt Primitive Shape ShapeUtil InferBasic InferCollective.

Record GatherDimensionNumbers := mkGatherDimensionNumbers {
  offset_dims : list Z;
  collapsed_slice_dims : list Z;
  start_index_map : list Z;
  operand_batching_dims : list Z;
  start_indices_batching_dims : list Z;
  gather_index_vector_dim : Z;
}.
Record ScatterDimensionNumbers := mkScatterDimensionNumbers {
  update_window_dims : list Z;
  inserted_window_dims : list Z;
  scatter_dims_to_operand_dims : list Z;
  input_batching_dims : list Z;
  scatter_indices_batching_dims : list Z;
  scatter_index_vector_dim : Z;
}.

(** absl::c_is_sorted and absl::c_adjacent_find(l) != l.end(). *)
Fixpoint is_sorted (l : list Z) : bool :=
  match l with
  | x :: ((y :: _) as rest) => (x <=? y) && is_sorted rest
  | _ => true
  end.
Fixpoint has_adjacent_equal (l : list Z) : bool :=
  match l with
  | x :: ((y :: _) as rest) => (x =? y) || has_adjacent_equal rest
  | _ => false
  end.

(** Every entry lies in [0, bound). *)
Definition all_in_range (bound : Z) (l : list Z) : outcome () :=
  forM_ l (fun d => ret_if ((d <? 0) || (bound <=? d)) kInvalidArgument).

(** Sorted, in range and without repetition: the order of the three tests
    differs between the fields, their results do not. *)
Definition sorted_unique (l : list Z) : outcome () :=
  _ ← require (is_sorted l) kInvalidArgument;
  ret_if (has_adjacent_equal l) kInvalidArgument.
Definition unique_after_sort (l : list Z) : outcome () :=
  ret_if (has_adjacent_equal (merge_sort Z.le l)) kInvalidArgument.

(** ** Gather *)

Definition ValidateGatherDimensionNumbers (input_shape : Shape) (start_indices_shape : list Z)
    (dn : GatherDimensionNumbers) : outcome () :=
  _ ← sorted_unique (offset_dims dn);
  let output_shape_rank := Zlen (offset_dims dn) + Zlen start_indices_shape - 1 in
  _ ← all_in_range output_shape_rank (offset_dims dn);
  index_vector_size ← at_ start_indices_shape (gather_index_vector_dim dn);
  _ ← ret_if (negb (IsUnboundedDynamicSize index_vector_size)
              && negb (Zlen (start_index_map dn) =? index_vector_size)) kInvalidArgument;
  r ← rank input_shape;
  _ ← all_in_range r (start_index_map dn);
  _ ← unique_after_sort (start_index_map dn);
  _ ← all_in_range r (collapsed_slice_dims dn);
  _ ← sorted_unique (collapsed_slice_dims dn);
  _ ← require (Zlen (operand_batching_dims dn) =? Zlen (start_indices_batching_dims dn))
              kInvalidArgument;
  _ ← all_in_range r (operand_batching_dims dn);
  _ ← sorted_unique (operand_batching_dims dn);
  _ ← all_in_range (Zlen start_indices_shape) (start_indices_batching_dims dn);
  unique_after_sort (start_indices_batching_dims dn).

(** The dimensions and flags of the indices, with the implicit trailing 1. *)
Definition ExpandIndices (indices_shape : Shape) (index_vector_dim : Z) :
    outcome (list (Z * bool)) :=
  ds ← dimensions indices_shape;
  dy ← dynamic_dimensions indices_shape;
  let l := zip ds dy in
  OK (if Zlen ds =? index_vector_dim then l ++ [(1, false)] else l).

(** The while loop that skips the collapsed and batching dimensions. *)
Fixpoint SkipDims (fuel : nat) (skipped : list Z) (offset_dims_seen : Z) : outcome Z :=
  match fuel with
  | O => NoFuel
  | S fuel =>
      if contains skipped offset_dims_seen then SkipDims fuel skipped (offset_dims_seen + 1)
      else OK offset_dims_seen
  end.

(** One output dimension; the state counts the offset and the gather dimensions
    seen.  The binary searches run on lists checked to be sorted. *)
Definition GatherOutputDim (input_shape : Shape) (dn : GatherDimensionNumbers)
    (slice_sizes : list Z) (expanded : list (Z * bool)) (st : Z * Z * list (Z * bool)) (i : Z) :
    outcome (Z * Z * list (Z * bool)) :=
  let '(offset_dims_seen, gather_dims_seen, out) := st in
  if contains (offset_dims dn) i then
    let skipped := collapsed_slice_dims dn ++ operand_batching_dims dn in
    o ← SkipDims (S (length skipped)) skipped offset_dims_seen;
    slice_size ← at_ slice_sizes o;
    d ← dimension input_shape o;
    dyn ← (if slice_size =? d then is_dynamic_dimension input_shape o else OK false);
    OK (o + 1, gather_dims_seen, out ++ [(slice_size, dyn)])
  else
    let g := if gather_dims_seen =? gather_index_vector_dim dn
             then gather_dims_seen + 1 else gather_dims_seen in
    e ← at_ expanded g;
    OK (offset_dims_seen, g + 1, out ++ [e]).

Definition InferGatherShape (input_shape start_indices_shape : Shape)
    (dn : GatherDimensionNumbers) (slice_sizes : list Z) : outcome Shape :=
  _ ← ExpectArray input_shape;
  _ ← ExpectArray start_indices_shape;
  _ ← require (ElementIsIntegral start_indices_shape) kInvalidArgument;
  ir ← rank start_indices_shape;
  _ ← ret_if ((ir <? gather_index_vector_dim dn) || (gather_index_vector_dim dn <? 0))
             kInvalidArgument;
  expanded ← ExpandIndices start_indices_shape (gather_index_vector_dim dn);
  _ ← ValidateGatherDimensionNumbers input_shape (map fst expanded) dn;
  r ← rank input_shape;
  _ ← require (Zlen slice_sizes =? r) kInvalidArgument;
  _ ← require (Zlen slice_sizes =? Zlen (offset_dims dn) + Zlen (collapsed_slice_dims dn)
                                   + Zlen (operand_batching_dims dn)) kInvalidArgument;
  _ ← forM_ (zip (indices slice_sizes) slice_sizes) (fun '(i, slice_size) =>
        unbounded ← is_unbounded_dynamic_dimension input_shape i;
        if (unbounded : bool) then OK ()
        else
          d ← dimension input_shape i;
          ret_if ((slice_size <? 0) || (d <? slice_size)) kInvalidArgument);
  _ ← forM_ (collapsed_slice_dims dn) (fun c =>
        s ← at_ slice_sizes c; ret_if (1 <? s) kInvalidArgument);
  _ ← forM_ (operand_batching_dims dn) (fun c =>
        s ← at_ slice_sizes c; ret_if (1 <? s) kInvalidArgument);
  let result_rank := Zlen (offset_dims dn) + (Zlen expanded - 1) in
  p ← foldM (GatherOutputDim input_shape dn slice_sizes expanded) (0, 0, []) (seqZ 0 result_rank);
  let '(_, _, out) := p in
  MakeShape_dyn (element_type input_shape) (map fst out) (map snd out).

(** ** Scatter *)

Definition ValidateScatterDimensionNumbers (operand_shape : Shape)
    (scatter_indices_shape : list Z) (updates_shape : Shape) (dn : ScatterDimensionNumbers) :
    outcome () :=
  _ ← sorted_unique (update_window_dims dn);
  updates_rank ← rank updates_shape;
  _ ← all_in_range updates_rank (update_window_dims dn);
  _ ← sorted_unique (inserted_window_dims dn);
  r ← rank operand_shape;
  _ ← all_in_range r (inserted_window_dims dn);
  let window_size := Zlen (update_window_dims dn) + Zlen (inserted_window_dims dn)
                     + Zlen (input_batching_dims dn) in
  _ ← require (window_size =? r) kInvalidArgument;
  index_vector_size ← at_ scatter_indices_shape (scatter_index_vector_dim dn);
  _ ← require (CompatibleDimensionSizes (Zlen (scatter_dims_to_operand_dims dn)) index_vector_size)
              kInvalidArgument;
  _ ← all_in_range r (scatter_dims_to_operand_dims dn);
  _ ← unique_after_sort (scatter_dims_to_operand_dims dn);
  _ ← require (Zlen (input_batching_dims dn) =? Zlen (scatter_indices_batching_dims dn))
              kInvalidArgument;
  _ ← sorted_unique (input_batching_dims dn);
  _ ← all_in_range r (input_batching_dims dn);
  _ ← all_in_range (Zlen scatter_indices_shape) (scatter_indices_batching_dims dn);
  unique_after_sort (scatter_indices_batching_dims dn).

(** The head of a dimension list is the current dimension. *)
Definition head_is (l : list Z) (i : Z) : bool :=
  match l with d :: _ => d =? i | [] => false end.

(** max_update_slice_sizes: the dimensions of the operand that are neither
    inserted nor batching; the counters of the source are the tails of the two
    lists. *)
Fixpoint MaxUpdateSliceSizes (i : Z) (operand_dims inserted batching : list Z) : list Z :=
  match operand_dims with
  | [] => []
  | d :: operand_dims =>
      if head_is inserted i then MaxUpdateSliceSizes (i + 1) operand_dims (tail inserted) batching
      else if head_is batching i
      then MaxUpdateSliceSizes (i + 1) operand_dims inserted (tail batching)
      else d :: MaxUpdateSliceSizes (i + 1) operand_dims inserted batching
  end.

(** One dimension of the updates that is not a window dimension. *)
Definition ScatterUpdateDim (updates_shape : Shape) (dn : ScatterDimensionNumbers)
    (expanded : list Z) (scatter_dims_seen i : Z) : outcome Z :=
  if contains (update_window_dims dn) i then OK scatter_dims_seen
  else
    let seen := if scatter_dims_seen =? scatter_index_vector_dim dn
                then scatter_dims_seen + 1 else scatter_dims_seen in
    u ← dimension updates_shape i;
    e ← at_ expanded seen;
    _ ← require (CompatibleDimensionSizes u e) kInvalidArgument;
    OK (seen + 1).

(** The checks of one operand and its updates. *)
Definition ScatterCheckOperand (dn : ScatterDimensionNumbers) (expanded : list Z)
    (operand_shape updates_shape : Shape) : outcome () :=
  _ ← ExpectArray operand_shape;
  _ ← ExpectArray updates_shape;
  ods ← dimensions operand_shape;
  let max_update_slice_sizes :=
    MaxUpdateSliceSizes 0 ods (inserted_window_dims dn) (input_batching_dims dn) in
  let expected_updates_rank := Zlen expanded - 1 + Zlen (update_window_dims dn) in
  ur ← rank updates_shape;
  _ ← require (ur =? expected_updates_rank) kInvalidArgument;
  _ ← ValidateScatterDimensionNumbers operand_shape expanded updates_shape dn;
  _ ← forM_ (zip (indices (update_window_dims dn)) (update_window_dims dn)) (fun '(i, w) =>
        u ← dimension updates_shape w;
        m ← at_ max_update_slice_sizes i;
        ret_if (m <? u) kInvalidArgument);
  _ ← foldM (ScatterUpdateDim updates_shape dn expanded) 0 (seqZ 0 ur);
  OK ().

Definition InferScatterShape (arg_shapes : list Shape) (to_apply_shape : ProgramShape)
    (dn : ScatterDimensionNumbers) : outcome Shape :=
  let operand_count := Zlen arg_shapes / 2 in
  _ ← require (operand_count * 2 + 1 =? Zlen arg_shapes) kInvalidArgument;
  scatter_indices_shape ← at_ arg_shapes operand_count;
  _ ← ExpectArray scatter_indices_shape;
  _ ← require (ElementIsIntegral scatter_indices_shape) kInvalidArgument;
  ir ← rank scatter_indices_shape;
  _ ← ret_if ((ir <? scatter_index_vector_dim dn) || (scatter_index_vector_dim dn <? 0))
             kInvalidArgument;
  expanded ← ExpandIndices scatter_indices_shape (scatter_index_vector_dim dn);
  let expanded := map fst expanded in
  let operand_shapes := take (Z.to_nat operand_count) arg_shapes in
  let updates_shapes := drop (Z.to_nat (operand_count + 1)) arg_shapes in
  _ ← forM_ (zip operand_shapes updates_shapes) (fun '(o, u) => ScatterCheckOperand dn expanded o u);
  init_element_shapes ← mapM (fun o => MakeShape (element_type o) []) operand_shapes;
  _ ← VerifyReducerShape to_apply_shape init_element_shapes (map element_type updates_shapes)
                         operand_count;
  UntupleSingleton operand_shapes.
