(* ===== verification/IntervalTree.v ===== *)
(** * BufferIntervalTree: buffers by life time, data and operations

    xla/service/heap_simulator/heap_simulator.{h,cc}: HeapSimulator::Chunk, and
    the interval tree in which the heap simulator keeps the chunks it has
    assigned: a binary search tree on the start times, every node annotated with
    the latest end time in its subtree.

    The nodes lie in a list that only grows ([node_storage_]); a pointer is an
    index into it, and the null pointer is [None].  Dereferencing the null pointer
    is a [Crash].  A method takes the tree and returns it.  The traversals are
    given fuel by the number of nodes, which is proved to be enough. *)

From S2P Require Import Prelude MachineInt.

(** ** Chunks *)

Record Chunk := mkChunk {
  offset : Z;
  size : Z;
}.

#[global] Instance Chunk_eq_dec : EqDecision Chunk.
Proof. solve_decision. Defined.

Definition FromOffsetSize (offset size : Z) : Chunk := mkChunk offset size.
Definition FromOffsetEnd (offset end_ : Z) : Chunk := FromOffsetSize offset (sub64 end_ offset).
Definition chunk_end (c : Chunk) : Z := add64 (offset c) (size c).

Definition OverlapsWith (c other_chunk : Chunk) : outcome bool :=
  _ ← check (negb (size c =? 0));
  _ ← check (negb (size other_chunk =? 0));
  OK ((offset c <? chunk_end other_chunk) && (offset other_chunk <? chunk_end c)).

(** ** Nodes and pointers *)

Abbreviation ptr := (option nat).

Record BufferIntervalTreeNode := mkNode {
  start : Z;
  end_ : Z;
  subtree_end : Z;
  chunk : Chunk;
  left_ : ptr;
  right_ : ptr;
  parent : ptr;
}.

Record BufferIntervalTree := mkTree {
  root_ : ptr;
  node_storage_ : list BufferIntervalTreeNode;
}.

#[local] Abbreviation Nodes := (list BufferIntervalTreeNode).

Definition tree_empty : BufferIntervalTree := mkTree None [].

(** Field assignment. *)
Definition set_subtree_end v n := mkNode (start n) (end_ n) v (chunk n) (left_ n) (right_ n) (parent n).
Definition set_left v n := mkNode (start n) (end_ n) (subtree_end n) (chunk n) v (right_ n) (parent n).
Definition set_right v n := mkNode (start n) (end_ n) (subtree_end n) (chunk n) (left_ n) v (parent n).
Definition set_parent v n := mkNode (start n) (end_ n) (subtree_end n) (chunk n) (left_ n) (right_ n) v.
(** [to->start = from->start], and likewise end, subtree_end and chunk. *)
Definition set_content from n :=
  mkNode (start from) (end_ from) (subtree_end from) (chunk from) (left_ n) (right_ n) (parent n).

Definition deref (ns : Nodes) (p : ptr) : outcome BufferIntervalTreeNode :=
  match p with
  | None => Crash
  | Some i => match ns !! i with Some n => OK n | None => Crash end
  end.

Definition assign (p : ptr) (f : BufferIntervalTreeNode -> BufferIntervalTreeNode) (ns : Nodes) :
    outcome Nodes :=
  match p with
  | None => Crash
  | Some i => match ns !! i with Some n => OK (<[i := f n]> ns) | None => Crash end
  end.

(** [p == q] on pointers, and [p] used as a condition. *)
Definition ptr_eqb (p q : ptr) : bool := bool_decide (p = q).
Definition not_null (p : ptr) : bool := match p with Some _ => true | None => false end.

(** ** Add *)

Fixpoint Add_loop (fuel : nat) (start_ e : Z) (new_node parent_ : ptr) (ns : Nodes) : outcome Nodes :=
  match fuel with
  | O => NoFuel
  | S fuel =>
      n ← deref ns parent_;
      ns ← assign parent_ (set_subtree_end (Z.max (subtree_end n) e)) ns;
      if start_ <? start n then
        match left_ n with
        | None =>
            ns ← assign parent_ (set_left new_node) ns;
            assign new_node (set_parent parent_) ns
        | Some _ => Add_loop fuel start_ e new_node (left_ n) ns
        end
      else
        match right_ n with
        | None =>
            ns ← assign parent_ (set_right new_node) ns;
            assign new_node (set_parent parent_) ns
        | Some _ => Add_loop fuel start_ e new_node (right_ n) ns
        end
  end.

Definition Add (start_ e : Z) (c : Chunk) (t : BufferIntervalTree) : outcome BufferIntervalTree :=
  let back := length (node_storage_ t) in
  let ns := node_storage_ t ++ [mkNode start_ e e c None None None] in
  match root_ t with
  | None => OK (mkTree (Some back) ns)
  | Some _ =>
      ns ← Add_loop (length ns) start_ e (Some back) (root_ t) ns;
      OK (mkTree (root_ t) ns)
  end.

(** ** Remove *)

Fixpoint Remove_find (fuel : nat) (start_ e : Z) (c : Chunk) (to_delete : ptr) (ns : Nodes) :
    outcome ptr :=
  match to_delete with
  | None => OK None
  | Some _ =>
      match fuel with
      | O => NoFuel
      | S fuel =>
          n ← deref ns to_delete;
          if (start n =? start_) && (end_ n =? e) && (offset (chunk n) =? offset c)
          then OK to_delete
          else if start_ <? start n then Remove_find fuel start_ e c (left_ n) ns
          else Remove_find fuel start_ e c (right_ n) ns
      end
  end.

(** Recomputes [subtree_end] of a node and of all its ancestors. *)
Fixpoint fix_up (fuel : nat) (node : ptr) (ns : Nodes) : outcome Nodes :=
  match node with
  | None => OK ns
  | Some _ =>
      match fuel with
      | O => NoFuel
      | S fuel =>
          n ← deref ns node;
          let m := end_ n in
          m ← (if not_null (left_ n) then l ← deref ns (left_ n); OK (Z.max m (subtree_end l))
               else OK m);
          m ← (if not_null (right_ n) then r ← deref ns (right_ n); OK (Z.max m (subtree_end r))
               else OK m);
          ns ← assign node (set_subtree_end m) ns;
          fix_up fuel (parent n) ns
      end
  end.

(** [while (to_promote->left != nullptr) to_promote = to_promote->left;] *)
Fixpoint leftmost (fuel : nat) (to_promote : ptr) (ns : Nodes) : outcome ptr :=
  match fuel with
  | O => NoFuel
  | S fuel =>
      n ← deref ns to_promote;
      match left_ n with
      | None => OK to_promote
      | Some _ => leftmost fuel (left_ n) ns
      end
  end.

(** The left child of [d] takes the place of [to_delete] below the parent. *)
Definition move_up_left (to_delete : ptr) (d : BufferIntervalTreeNode) (ns : Nodes) : outcome Nodes :=
  p ← deref ns (parent d);
  ns ← (if ptr_eqb to_delete (left_ p) then assign (parent d) (set_left (left_ d)) ns else OK ns);
  p ← deref ns (parent d);
  if ptr_eqb to_delete (right_ p) then assign (parent d) (set_right (left_ d)) ns else OK ns.

(** [if (child) child->parent = p;] *)
Definition rewire (child p : ptr) (ns : Nodes) : outcome Nodes :=
  if not_null child then assign child (set_parent p) ns else OK ns.

(** The branch of Remove for a node [d] without right child. *)
Definition Remove_no_right (to_delete : ptr) (d : BufferIntervalTreeNode) (t : BufferIntervalTree) :
    outcome BufferIntervalTree :=
  let ns := node_storage_ t in
  if ptr_eqb (root_ t) to_delete then OK (mkTree (left_ d) ns)
  else
    ns ← move_up_left to_delete d ns;
    ns ← rewire (left_ d) (parent d) ns;
    ns ← fix_up (S (length ns)) to_delete ns;
    OK (mkTree (root_ t) ns).

(** The branch for a node with a right child: the leftmost node of the right
    subtree takes its place. *)
Definition Remove_promote (to_delete : ptr) (d : BufferIntervalTreeNode) (t : BufferIntervalTree) :
    outcome BufferIntervalTree :=
  let ns := node_storage_ t in
  to_promote ← leftmost (S (length ns)) (right_ d) ns;
  pn ← deref ns to_promote;
  ns ← assign to_delete (set_content pn) ns;
  let to_promote_parent := parent pn in
  pp ← deref ns to_promote_parent;
  ns ← (if ptr_eqb (left_ pp) to_promote
        then assign to_promote_parent (set_left (right_ pn)) ns
        else assign to_promote_parent (set_right (right_ pn)) ns);
  ns ← rewire (right_ pn) to_promote_parent ns;
  ns ← fix_up (S (length ns)) to_promote_parent ns;
  OK (mkTree (root_ t) ns).

Definition Remove (start_ e : Z) (c : Chunk) (t : BufferIntervalTree) :
    outcome (BufferIntervalTree * bool) :=
  to_delete ← Remove_find (S (length (node_storage_ t))) start_ e c (root_ t) (node_storage_ t);
  match to_delete with
  | None => OK (t, false)
  | Some _ =>
      d ← deref (node_storage_ t) to_delete;
      t ← (if not_null (right_ d) then Remove_promote to_delete d t
           else Remove_no_right to_delete d t);
      OK (t, true)
  end.

Definition Clear (t : BufferIntervalTree) : BufferIntervalTree := mkTree None [].

(** ** Queries

    The callback gets the node and threads a state of its own; the stack is kept
    with its back first. *)

Section Apply.
Context {A : Type}.

Fixpoint ApplyToNodes_loop (fuel : nat) (start_ e : Z)
    (fn : A -> BufferIntervalTreeNode -> outcome A) (visiting_stack : list ptr) (ns : Nodes) (a : A) :
    outcome A :=
  match visiting_stack with
  | [] => OK a
  | p :: visiting_stack =>
      match fuel with
      | O => NoFuel
      | S fuel =>
          top ← deref ns p;
          if subtree_end top <? start_ then ApplyToNodes_loop fuel start_ e fn visiting_stack ns a
          else
            let visiting_stack :=
              if not_null (left_ top) then left_ top :: visiting_stack else visiting_stack in
            a ← (if (start top <=? e) && (start_ <=? end_ top) then fn a top else OK a);
            if e <? start top then ApplyToNodes_loop fuel start_ e fn visiting_stack ns a
            else
              let visiting_stack :=
                if not_null (right_ top) then right_ top :: visiting_stack else visiting_stack in
              ApplyToNodes_loop fuel start_ e fn visiting_stack ns a
      end
  end.

Definition ApplyToNodesOverlappingInTime (start_ e : Z)
    (fn : A -> BufferIntervalTreeNode -> outcome A) (t : BufferIntervalTree) (a : A) : outcome A :=
  match root_ t with
  | None => OK a
  | Some _ =>
      ApplyToNodes_loop (length (node_storage_ t)) start_ e fn [root_ t] (node_storage_ t) a
  end.

(** The in-order traversal; the callback returns true to stop it. *)
Fixpoint ApplyToSorted_loop (fuel : nat) (start_ e : Z)
    (fn : A -> BufferIntervalTreeNode -> outcome (A * bool))
    (visiting_stack : list (ptr * bool)) (prev_start : Z) (ns : Nodes) (a : A) : outcome A :=
  match visiting_stack with
  | [] => OK a
  | (node, have_visited_left_subtree) :: rest =>
      match fuel with
      | O => NoFuel
      | S fuel =>
          top ← deref ns node;
          if subtree_end top <? start_ then ApplyToSorted_loop fuel start_ e fn rest prev_start ns a
          else if negb have_visited_left_subtree && not_null (left_ top) then
            ApplyToSorted_loop fuel start_ e fn ((left_ top, false) :: (node, true) :: rest)
              prev_start ns a
          else
            '(a, prev_start, stop) ←
              (if (start top <=? e) && (start_ <=? end_ top) then
                 _ ← check (prev_start <=? start top);
                 '(a, stop) ← fn a top;
                 OK (a, start top, stop)
               else OK (a, prev_start, false));
            if (stop : bool) then OK a
            else if e <? start top then ApplyToSorted_loop fuel start_ e fn rest prev_start ns a
            else
              let rest := if not_null (right_ top) then (right_ top, false) :: rest else rest in
              ApplyToSorted_loop fuel start_ e fn rest prev_start ns a
      end
  end.

Definition ApplyToSortedNodesOverlapping (start_ e : Z)
    (fn : A -> BufferIntervalTreeNode -> outcome (A * bool)) (t : BufferIntervalTree) (a : A) :
    outcome A :=
  match root_ t with
  | None => OK a
  | Some _ =>
      ApplyToSorted_loop (2 * length (node_storage_ t)) start_ e fn [(root_ t, false)] (-1)
        (node_storage_ t) a
  end.

End Apply.

Definition NumChunksOverlappingInTime (start_ e : Z) (t : BufferIntervalTree) : outcome Z :=
  ApplyToNodesOverlappingInTime start_ e (fun result node => OK (result + 1)) t 0.

Definition ChunksOverlappingInTime (start_ e : Z) (t : BufferIntervalTree) : outcome (list Chunk) :=
  ApplyToNodesOverlappingInTime start_ e (fun result node => OK (result ++ [chunk node])) t [].

Definition NodesOverlappingInTime (start_ e : Z) (t : BufferIntervalTree) :
    outcome (list BufferIntervalTreeNode) :=
  ApplyToNodesOverlappingInTime start_ e (fun result node => OK (result ++ [node])) t [].

(** The body of the inner loop: [memory_used_in_interval[time - start] += size]. *)
Definition add_memory_used (start_ : Z) (c : Chunk) (memory : list Z) (time : Z) : outcome (list Z) :=
  m ← at_ memory (sub64 time start_);
  set_at memory (sub64 time start_) (add64 m (size c)).

Definition MemoryUsedInInterval (start_ e : Z) (t : BufferIntervalTree) : outcome (list Z) :=
  let total_time := add64 (sub64 e start_) 1 in
  _ ← check (0 <=? total_time);
  nodes ← NodesOverlappingInTime start_ e t;
  foldM (fun memory node =>
           let node_start := Z.max (start node) start_ in
           let node_end := Z.min (end_ node) e in
           foldM (add_memory_used start_ (chunk node)) memory
             (seqZ node_start (node_end - node_start + 1)))
    (replicate (Z.to_nat total_time) 0) nodes.

Definition HeapSizeInInterval (start_ e : Z) (t : BufferIntervalTree) : outcome Z :=
  _ ← check (start_ <=? e);
  nodes ← NodesOverlappingInTime start_ e t;
  OK (foldl (fun m node => Z.max m (chunk_end (chunk node))) 0 nodes).
