(* ===== verification/IntervalTreeInv.v ===== *)
(** * BufferIntervalTree: the tree behind the pointers

    The abstraction of the pointer structure of [IntervalTree]: a functional tree
    whose nodes carry the index of the node and its content ([tree]), the
    predicate [shape] that a storage holds such a tree, and contexts ([frame]) to
    follow parent pointers upwards.  [tree_ok] is the search tree property with
    correct annotations, [repr] the representation invariant. *)

From S2P Require Import Prelude IntervalTree.

#[local] Abbreviation Nodes := (list BufferIntervalTreeNode).

(** What a node says of a buffer. *)
Record interval := mkInterval {
  iv_start : Z;
  iv_end : Z;
  iv_chunk : Chunk;
}.

#[global] Instance interval_eq_dec : EqDecision interval.
Proof. solve_decision. Defined.

Definition node_interval (n : BufferIntervalTreeNode) : interval :=
  mkInterval (start n) (end_ n) (chunk n).

(** The closed life times [[iv_start, iv_end]] and [[s, e]] meet. *)
Definition live_in (s e : Z) (v : interval) : bool := (iv_start v <=? e) && (s <=? iv_end v).

(** ** Trees *)

Inductive tree :=
  | Leaf
  | Nd (l : tree) (i : nat) (v : interval) (m : Z) (r : tree).

Fixpoint ids (t : tree) : list nat :=
  match t with Leaf => [] | Nd l i _ _ r => ids l ++ i :: ids r end.
Fixpoint vals (t : tree) : list interval :=
  match t with Leaf => [] | Nd l _ v _ r => vals l ++ v :: vals r end.

Definition tptr (t : tree) : ptr := match t with Leaf => None | Nd _ i _ _ _ => Some i end.

(** The largest annotation of a node's end time and its children's. *)
Definition max_sub (e : Z) (t : tree) : Z :=
  match t with Leaf => e | Nd _ _ _ m _ => Z.max e m end.
Definition node_max (l : tree) (v : interval) (r : tree) : Z := max_sub (max_sub (iv_end v) l) r.

Fixpoint aug (t : tree) : Prop :=
  match t with Leaf => True | Nd l _ v m r => m = node_max l v r /\ aug l /\ aug r end.

Fixpoint bst (t : tree) : Prop :=
  match t with
  | Leaf => True
  | Nd l _ v _ r =>
      Forall (fun w => iv_start w < iv_start v) (vals l) /\
      Forall (fun w => iv_start v <= iv_start w) (vals r) /\ bst l /\ bst r
  end.

Definition node_of (l : tree) (v : interval) (m : Z) (r : tree) (p : ptr) : BufferIntervalTreeNode :=
  mkNode (iv_start v) (iv_end v) m (iv_chunk v) (tptr l) (tptr r) p.

(** The storage holds [t], whose root has parent [p]. *)
Fixpoint shape (ns : Nodes) (p : ptr) (t : tree) : Prop :=
  match t with
  | Leaf => True
  | Nd l i v m r =>
      ns !! i = Some (node_of l v m r p) /\ shape ns (Some i) l /\ shape ns (Some i) r
  end.

Lemma node_interval_of l v m r p : node_interval (node_of l v m r p) = v.
Proof. by destruct v. Qed.

Lemma length_ids_vals t : length (ids t) = length (vals t).
Proof. induction t; simpl; [done|]. rewrite !length_app. simpl. lia. Qed.

Lemma shape_agree ns ns' p t :
  (forall j, j ∈ ids t -> ns' !! j = ns !! j) -> shape ns p t -> shape ns' p t.
Proof.
  revert p. induction t as [|l IHl i v m r IHr]; intros p Hag; simpl in *; [done|].
  intros (Hi & Hl & Hr). split_and!.
  - rewrite Hag; [done|set_solver].
  - apply IHl; [|done]. intros j Hj. apply Hag. set_solver.
  - apply IHr; [|done]. intros j Hj. apply Hag. set_solver.
Qed.

Lemma shape_bound ns p t j : shape ns p t -> j ∈ ids t -> (j < length ns)%nat.
Proof.
  revert p. induction t as [|l IHl i v m r IHr]; intros p; simpl; [by intros _ ?%not_elem_of_nil|].
  intros (Hi & Hl & Hr). rewrite elem_of_app, elem_of_cons.
  intros [Hj|[->|Hj]]; [by eapply IHl| by eapply lookup_lt_Some |by eapply IHr].
Qed.

(** A tree without shared nodes has at most as many nodes as the storage. *)
Lemma NoDup_bounded (l : list nat) n : NoDup l -> (forall j, j ∈ l -> (j < n)%nat) -> (length l <= n)%nat.
Proof.
  intros Hnd Hb. rewrite <- (length_seq n 0). apply NoDup_incl_length; [by apply NoDup_ListNoDup|].
  intros j Hj. apply in_seq. split; [lia|]. apply Hb. by apply list_elem_of_In.
Qed.

Lemma shape_size ns p t : shape ns p t -> NoDup (ids t) -> (length (vals t) <= length ns)%nat.
Proof.
  intros Hs Hnd. rewrite <- length_ids_vals. apply NoDup_bounded; [done|].
  intros j. by eapply shape_bound.
Qed.

Lemma aug_bound l i v m r w : aug (Nd l i v m r) -> w ∈ vals (Nd l i v m r) -> iv_end w <= m.
Proof.
  enough (He : forall t e, aug t -> e <= max_sub e t /\ forall w, w ∈ vals t -> iv_end w <= max_sub e t).
  { intros Haug Hw. destruct (He (Nd l i v m r) m Haug) as [_ H]. specialize (H w Hw).
    simpl in H. lia. }
  clear. induction t as [|l IHl i v m r IHr]; intros e.
  { intros _. simpl. split; [lia|]. by intros w ?%not_elem_of_nil. }
  intros [-> [Hl Hr]]. destruct (IHl (iv_end v) Hl) as [Hl1 Hl2].
  destruct (IHr (max_sub (iv_end v) l) Hr) as [Hr1 Hr2]. cbn [max_sub]. unfold node_max.
  split; [lia|]. intros w. cbn [vals]. rewrite elem_of_app, elem_of_cons.
  intros [Hw|[->|Hw]]; [specialize (Hl2 w Hw)| |specialize (Hr2 w Hw)]; lia.
Qed.

(** ** Contexts

    A frame is a node of which one child is the hole: [FL] the left one, [FR] the
    right one.  A context lists the frames from the hole to the root. *)

Inductive frame :=
  | FL (i : nat) (v : interval) (m : Z) (r : tree)
  | FR (l : tree) (i : nat) (v : interval) (m : Z).

Definition fill (F : frame) (t : tree) : tree :=
  match F with FL i v m r => Nd t i v m r | FR l i v m => Nd l i v m t end.
Fixpoint plug (C : list frame) (t : tree) : tree :=
  match C with [] => t | F :: C => plug C (fill F t) end.

Definition fid (F : frame) : nat := match F with FL i _ _ _ => i | FR _ i _ _ => i end.
Definition fparent (C : list frame) (p0 : ptr) : ptr :=
  match C with [] => p0 | F :: _ => Some (fid F) end.
Definition fsib (F : frame) : tree := match F with FL _ _ _ r => r | FR l _ _ _ => l end.
Definition fval (F : frame) : interval := match F with FL _ v _ _ => v | FR _ _ v _ => v end.

(** The storage holds the context; [q] is the root of what fills the hole. *)
Definition fnode (F : frame) (q p : ptr) : BufferIntervalTreeNode :=
  match F with
  | FL _ v m r => mkNode (iv_start v) (iv_end v) m (iv_chunk v) q (tptr r) p
  | FR l _ v m => mkNode (iv_start v) (iv_end v) m (iv_chunk v) (tptr l) q p
  end.
Fixpoint shape_ctx (ns : Nodes) (p0 : ptr) (C : list frame) (q : ptr) : Prop :=
  match C with
  | [] => True
  | F :: C =>
      ns !! fid F = Some (fnode F q (fparent C p0)) /\ shape ns (Some (fid F)) (fsib F) /\
      shape_ctx ns p0 C (Some (fid F))
  end.

Fixpoint ctx_ids (C : list frame) : list nat :=
  match C with [] => [] | F :: C => fid F :: ids (fsib F) ++ ctx_ids C end.
Fixpoint ctx_vals (C : list frame) : list interval :=
  match C with [] => [] | F :: C => fval F :: vals (fsib F) ++ ctx_vals C end.

Lemma shape_fill ns p F t :
  shape ns p (fill F t) <->
  ns !! fid F = Some (fnode F (tptr t) p) /\ shape ns (Some (fid F)) (fsib F) /\ shape ns (Some (fid F)) t.
Proof. destruct F; simpl; tauto. Qed.

Lemma shape_plug ns p0 C t :
  shape ns p0 (plug C t) <-> shape ns (fparent C p0) t /\ shape_ctx ns p0 C (tptr t).
Proof.
  revert t. induction C as [|F C IH]; intros t; simpl; [tauto|].
  rewrite IH, shape_fill. destruct F; simpl; tauto.
Qed.

Lemma tptr_fill F t : tptr (fill F t) = Some (fid F).
Proof. by destruct F. Qed.

Lemma ids_fill F t : ids (fill F t) ≡ₚ fid F :: ids (fsib F) ++ ids t.
Proof. destruct F; simpl; solve_Permutation. Qed.
Lemma vals_fill F t : vals (fill F t) ≡ₚ fval F :: vals (fsib F) ++ vals t.
Proof. destruct F; simpl; solve_Permutation. Qed.

Lemma ids_plug C t : ids (plug C t) ≡ₚ ctx_ids C ++ ids t.
Proof. revert t. induction C as [|F C IH]; intros t; simpl; [done|]. rewrite IH, ids_fill. solve_Permutation. Qed.
Lemma vals_plug C t : vals (plug C t) ≡ₚ ctx_vals C ++ vals t.
Proof. revert t. induction C as [|F C IH]; intros t; simpl; [done|]. rewrite IH, vals_fill. solve_Permutation. Qed.

Lemma plug_app C1 C2 t : plug (C1 ++ C2) t = plug C2 (plug C1 t).
Proof. revert t. induction C1 as [|F C1 IH]; intros t; simpl; [done|]. apply IH. Qed.

Lemma shape_ctx_agree ns ns' p0 C q :
  (forall j, j ∈ ctx_ids C -> ns' !! j = ns !! j) -> shape_ctx ns p0 C q -> shape_ctx ns' p0 C q.
Proof.
  revert q. induction C as [|F C IH]; intros q Hag; simpl in *; [done|].
  intros (Hi & Hs & HC). split_and!.
  - rewrite Hag; [done|set_solver].
  - eapply shape_agree; [|done]. intros j Hj. apply Hag. set_solver.
  - apply IH; [|done]. intros j Hj. apply Hag. set_solver.
Qed.

(** ** Values and the search tree property under a context *)

Lemma bst_fill_mono F t t' :
  (forall w, w ∈ vals t' -> w ∈ vals t) -> bst t' -> bst (fill F t) -> bst (fill F t').
Proof.
  rewrite <- !Forall_forall. intros Hsub Hb. destruct F; simpl; intros (Hl & Hr & Hbl & Hbr);
    split_and!; try done; rewrite Forall_forall in *; eauto.
Qed.

(** What fills a context may be replaced by a search tree with fewer values. *)
Lemma bst_plug_mono C t t' :
  (forall w, w ∈ vals t' -> w ∈ vals t) -> bst t' -> bst (plug C t) -> bst (plug C t').
Proof.
  revert t t'. induction C as [|F C IH]; intros t t' Hsub Hb; simpl; [done|].
  intros Hp. assert (Hf : bst (fill F t)).
  { clear -Hp. revert Hp. generalize (fill F t) as u. induction C as [|G C IH]; intros u; simpl; [done|].
    intros Hg%IH. by destruct G; simpl in Hg; destruct Hg as (_ & _ & ? & ?). }
  apply (IH (fill F t)); [|by eapply bst_fill_mono|done].
  intros w. rewrite !vals_fill, !elem_of_cons, !elem_of_app. naive_solver.
Qed.

Lemma bst_plug_inv C t : bst (plug C t) -> bst t.
Proof.
  revert t. induction C as [|F C IH]; intros t; simpl; [done|]. intros Hb%IH.
  destruct F; simpl in Hb; naive_solver.
Qed.

(** Recomputing the annotations of the frames bottom-up. *)
Definition frame_max (F : frame) (t : tree) : Z :=
  match F with FL _ v _ r => node_max t v r | FR l _ v _ => node_max l v t end.
Definition set_max (m : Z) (F : frame) : frame :=
  match F with FL i v _ r => FL i v m r | FR l i v _ => FR l i v m end.
Fixpoint replug (C : list frame) (t : tree) : tree :=
  match C with [] => t | F :: C => replug C (fill (set_max (frame_max F t) F) t) end.

Fixpoint ctx_aug (C : list frame) : Prop :=
  match C with [] => True | F :: C => aug (fsib F) /\ ctx_aug C end.

Lemma aug_plug C t : aug (plug C t) -> aug t /\ ctx_aug C.
Proof.
  revert t. induction C as [|F C IH]; intros t; simpl; [done|].
  intros [Hf HC]%IH. destruct F; simpl in *; naive_solver.
Qed.

Lemma aug_replug C t : aug t -> ctx_aug C -> aug (replug C t).
Proof.
  revert t. induction C as [|F C IH]; intros t Ht; simpl; [done|]. intros [HF HC].
  apply IH; [|done]. destruct F; simpl in *; done.
Qed.

(** Annotations do not matter for the rest. *)
Inductive same_tree : tree -> tree -> Prop :=
  | same_Leaf : same_tree Leaf Leaf
  | same_Nd l l' i v m m' r r' :
      same_tree l l' -> same_tree r r' -> same_tree (Nd l i v m r) (Nd l' i v m' r').

Lemma same_refl t : same_tree t t.
Proof. induction t; by constructor. Qed.

Lemma same_props t t' :
  same_tree t t' -> ids t' = ids t /\ vals t' = vals t /\ tptr t' = tptr t /\ (bst t -> bst t').
Proof.
  induction 1 as [|l l' i v m m' r r' Hl IHl Hr IHr]; [done|]. simpl.
  destruct IHl as (-> & -> & _ & Hbl), IHr as (-> & -> & _ & Hbr). naive_solver.
Qed.

Lemma same_replug C t t' : same_tree t t' -> same_tree (plug C t) (replug C t').
Proof.
  revert t t'. induction C as [|F C IH]; intros t t' Hs; simpl; [done|]. apply IH.
  destruct F; simpl; constructor; auto using same_refl.
Qed.

(** ** Insertion *)

Fixpoint insert_tree (i : nat) (v : interval) (t : tree) : tree :=
  match t with
  | Leaf => Nd Leaf i v (iv_end v) Leaf
  | Nd l j w m r =>
      if iv_start v <? iv_start w then Nd (insert_tree i v l) j w (Z.max m (iv_end v)) r
      else Nd l j w (Z.max m (iv_end v)) (insert_tree i v r)
  end.

Lemma ids_insert i v t : ids (insert_tree i v t) ≡ₚ i :: ids t.
Proof.
  induction t as [|l IHl j w m r IHr]; simpl; [done|].
  destruct (_ <? _); simpl; [rewrite IHl|rewrite IHr]; solve_Permutation.
Qed.
Lemma vals_insert i v t : vals (insert_tree i v t) ≡ₚ v :: vals t.
Proof.
  induction t as [|l IHl j w m r IHr]; simpl; [done|].
  destruct (_ <? _); simpl; [rewrite IHl|rewrite IHr]; solve_Permutation.
Qed.

Lemma bst_insert i v t : bst t -> bst (insert_tree i v t).
Proof.
  induction t as [|l IHl j w m r IHr]; simpl; [by repeat constructor|].
  intros (Hl & Hr & Hbl & Hbr). destruct (Z.ltb_spec (iv_start v) (iv_start w)); simpl;
    split_and!; auto; rewrite vals_insert; by constructor.
Qed.

Lemma max_sub_insert e i v t : max_sub e (insert_tree i v t) = Z.max (max_sub e t) (iv_end v).
Proof. destruct t as [|l j w m r]; simpl; [done|]. destruct (_ <? _); simpl; lia. Qed.

Lemma max_sub_max a e t : max_sub (Z.max a e) t = Z.max (max_sub a t) e.
Proof. destruct t; simpl; lia. Qed.

Lemma aug_insert i v t : aug t -> aug (insert_tree i v t).
Proof.
  induction t as [|l IHl j w m r IHr]; simpl; [done|]. intros (-> & Hl & Hr).
  unfold node_max. destruct (_ <? _); simpl; unfold node_max; rewrite max_sub_insert;
    (split; [|by auto]); by rewrite ?max_sub_max.
Qed.

(** ** The representation invariant

    Removing a root without right child leaves its left child with a stale
    parent pointer, which later calls of [fix_up] follow: [dead] describes the
    chain of former roots. *)

Definition in_storage (ns : Nodes) (p : ptr) : Prop :=
  match p with None => True | Some i => (i < length ns)%nat end.

Fixpoint dead (ns : Nodes) (p : ptr) (ds : list nat) : Prop :=
  match ds with
  | [] => p = None
  | d :: ds =>
      p = Some d /\ exists n, ns !! d = Some n /\
        in_storage ns (left_ n) /\ in_storage ns (right_ n) /\ dead ns (parent n) ds
  end.

Record Repr (bt : BufferIntervalTree) (t : tree) (p0 : ptr) (ds : list nat) : Prop := {
  repr_root : root_ bt = tptr t;
  repr_shape : shape (node_storage_ bt) p0 t;
  repr_dead : dead (node_storage_ bt) p0 ds;
  repr_NoDup : NoDup (ids t ++ ds);
  repr_bst : bst t;
  repr_aug : aug t;
}.

(** The tree represents a multiset of intervals. *)
Definition repr (bt : BufferIntervalTree) (ivs : list interval) : Prop :=
  exists t p0 ds, Repr bt t p0 ds /\ vals t ≡ₚ ivs.

Lemma dead_agree ns ns' p ds :
  (length ns <= length ns')%nat ->
  (forall j, j ∈ ds -> ns' !! j = ns !! j) -> dead ns p ds -> dead ns' p ds.
Proof.
  revert p. induction ds as [|d ds IH]; intros p Hlen Hag; simpl; [done|].
  assert (Hst : forall q, in_storage ns q -> in_storage ns' q) by (intros [i|]; simpl; [lia|done]).
  intros (-> & n & Hn & Hl & Hr & Hd). split; [done|]. exists n. split_and!; auto.
  - rewrite Hag; [done|set_solver].
  - apply IH; auto. intros j Hj. apply Hag. set_solver.
Qed.

Lemma dead_bound ns p ds j : dead ns p ds -> j ∈ ds -> (j < length ns)%nat.
Proof.
  revert p. induction ds as [|d ds IH]; intros p; simpl; [by intros _ ?%not_elem_of_nil|].
  intros (-> & n & Hn & _ & _ & Hd) [->|Hj]%elem_of_cons; [by eapply lookup_lt_Some|by eapply IH].
Qed.

Lemma Repr_bound bt t p0 ds j :
  Repr bt t p0 ds -> j ∈ ids t ++ ds -> (j < length (node_storage_ bt))%nat.
Proof.
  intros [] [Hj|Hj]%elem_of_app; [by eapply shape_bound|by eapply dead_bound].
Qed.

Lemma repr_Permutation bt ivs ivs' : ivs ≡ₚ ivs' -> repr bt ivs -> repr bt ivs'.
Proof. intros Hp (t & p0 & ds & HR & Hv). exists t, p0, ds. split; [done|]. by rewrite Hv. Qed.

#[global] Instance repr_Proper bt : Proper ((≡ₚ) ==> iff) (repr bt).
Proof. intros ivs ivs' Hp. split; by apply repr_Permutation. Qed.

Lemma repr_empty : repr tree_empty [].
Proof. exists Leaf, None, []. split; [|done]. by split; simpl; try constructor. Qed.
