(* ===== verification/IntervalTreeOps.v ===== *)
(** * BufferIntervalTree: Add, Remove and Clear

    Every operation on a represented tree returns, and the tree it leaves
    represents the intervals its name says.  [Add] is followed down the tree;
    [Remove] replaces a node in a context and [fix_up] recomputes the annotations
    of the context, then walks the dead chain. *)

From S2P Require Import Prelude IntervalTree IntervalTreeInv.

#[local] Abbreviation Nodes := (list BufferIntervalTreeNode).

Lemma deref_OK (ns : Nodes) i n : ns !! i = Some n -> deref ns (Some i) = OK n.
Proof. intros Hn. simpl. by rewrite Hn. Qed.
Lemma assign_OK (ns : Nodes) i n f : ns !! i = Some n -> assign (Some i) f ns = OK (<[i := f n]> ns).
Proof. intros Hn. simpl. by rewrite Hn. Qed.

(** Steps over a dereference or an assignment of a node that is known. *)
Ltac ptr_step :=
  first [ erewrite deref_OK by eassumption | erewrite assign_OK by eassumption ];
  cbn [mbind outcome_bind].

(** Lookups in a storage after assignments to other nodes. *)
Ltac upd_lookup :=
  repeat first
    [ rewrite list_lookup_insert_ne by congruence
    | rewrite list_lookup_insert_eq
        by (rewrite ?length_insert; first [eassumption | by eapply lookup_lt_Some]) ].

Lemma shape_insert ns p t i n : i ∉ ids t -> shape ns p t -> shape (<[i := n]> ns) p t.
Proof.
  intros Hi. apply shape_agree. intros j Hj. assert (i <> j) by (by intros ->). by upd_lookup.
Qed.

(** ** Add *)

(** The frame and the child through which an insertion of [v] passes. *)
Definition go_frame (v : interval) (l : tree) (i : nat) (w : interval) (m : Z) (r : tree) : frame :=
  if iv_start v <? iv_start w then FL i w (Z.max m (iv_end v)) r else FR l i w (Z.max m (iv_end v)).
Definition go_child (v : interval) (l : tree) (w : interval) (r : tree) : tree :=
  if iv_start v <? iv_start w then l else r.

Definition set_child (F : frame) : ptr -> BufferIntervalTreeNode -> BufferIntervalTreeNode :=
  match F with FL _ _ _ _ => set_left | FR _ _ _ _ => set_right end.

Lemma set_child_fnode F q q' p : set_child F q' (fnode F q p) = fnode F q' p.
Proof. by destruct F. Qed.

Lemma insert_tree_go k v l i w m r :
  insert_tree k v (Nd l i w m r) = fill (go_frame v l i w m r) (insert_tree k v (go_child v l w r)).
Proof. cbn [insert_tree]. unfold go_frame, go_child. by destruct (_ <? _). Qed.

Lemma insert_tree_tptr k v t : t <> Leaf -> tptr (insert_tree k v t) = tptr t.
Proof. destruct t as [|l i w m r]; [done|]. intros _. by rewrite insert_tree_go, tptr_fill; unfold go_frame; destruct (_ <? _). Qed.

Lemma Add_loop_step fuel ns v new_node l i w m r p :
  ns !! i = Some (node_of l w m r p) ->
  let F := go_frame v l i w m r in
  let u := go_child v l w r in
  let ns1 := <[i := fnode F (tptr u) p]> ns in
  Add_loop (S fuel) (iv_start v) (iv_end v) new_node (Some i) ns =
    match tptr u with
    | None => ns ← assign (Some i) (set_child F new_node) ns1; assign new_node (set_parent (Some i)) ns
    | Some _ => Add_loop fuel (iv_start v) (iv_end v) new_node (tptr u) ns1
    end.
Proof.
  intros Hi. cbn [Add_loop]. ptr_step. ptr_step.
  change (start (node_of l w m r p)) with (iv_start w). unfold go_frame, go_child.
  by destruct (_ <? _).
Qed.

(** What the choice of the child preserves of the node. *)
Lemma go_perm v l i w m r :
  let F := go_frame v l i w m r in
  ids (Nd l i w m r) ≡ₚ i :: ids (fsib F) ++ ids (go_child v l w r) /\ fid F = i.
Proof.
  unfold go_frame, go_child. destruct (_ <? _); simpl; (split; [solve_Permutation|done]).
Qed.

Lemma go_shape ns v l i w m r p :
  shape ns p (Nd l i w m r) ->
  shape ns (Some i) (fsib (go_frame v l i w m r)) /\ shape ns (Some i) (go_child v l w r).
Proof. unfold go_frame, go_child. destruct (_ <? _); simpl; tauto. Qed.

Lemma Add_loop_ok fuel t p ns k v q :
  t <> Leaf -> (length (ids t) <= fuel)%nat -> shape ns p t -> NoDup (k :: ids t) ->
  ns !! k = Some (node_of Leaf v (iv_end v) Leaf q) ->
  exists ns', Add_loop fuel (iv_start v) (iv_end v) (Some k) (tptr t) ns = OK ns' /\
    shape ns' p (insert_tree k v t) /\ length ns' = length ns /\
    forall j, j ∉ ids t -> j <> k -> ns' !! j = ns !! j.
Proof.
  revert t p ns. induction fuel as [|fuel IH]; intros t p ns Ht Hf Hs Hnd Hk;
    (destruct t as [|l i w m r]; [done|]).
  { simpl in Hf. rewrite length_app in Hf. simpl in Hf. lia. }
  destruct (go_perm v l i w m r) as [Hp HF].
  destruct (go_shape _ v _ _ _ _ _ _ Hs) as [Hsib Hu].
  rewrite Hp in Hf, Hnd. setoid_rewrite Hp. destruct Hs as [Hi _]. cbn [tptr].
  rewrite (Add_loop_step fuel ns v (Some k) l i w m r p Hi), insert_tree_go. cbv zeta.
  set (F := go_frame v l i w m r) in *. set (u := go_child v l w r) in *.
  apply lookup_lt_Some in Hi.
  clearbody F u. clear Hp Ht l w m r. simpl in Hf. rewrite length_app in Hf.
  rewrite !NoDup_cons, NoDup_app, !elem_of_cons, !elem_of_app in Hnd.
  destruct Hnd as (Hk' & Hi' & Hnds & Hdisj & Hndu).
  assert (i <> k) by naive_solver. assert ((i ∉ ids (fsib F)) /\ (i ∉ ids u)) as [His Hiu] by naive_solver.
  assert ((k ∉ ids (fsib F)) /\ (k ∉ ids u)) as [Hks Hku] by naive_solver. clear Hk' Hi'.
  set (ns1 := <[i := fnode F (tptr u) p]> ns).
  assert (Hi1 : ns1 !! i = Some (fnode F (tptr u) p)) by (subst ns1; by upd_lookup).
  assert (Hk1 : ns1 !! k = Some (node_of Leaf v (iv_end v) Leaf q)) by (subst ns1; by upd_lookup).
  assert (Hlen1 : length ns1 = length ns) by (subst ns1; apply length_insert).
  assert (Hag1 : forall j, j <> i -> ns1 !! j = ns !! j) by (intros; subst ns1; by upd_lookup).
  pose proof (shape_insert ns _ _ i (fnode F (tptr u) p) His Hsib) as Hsib1.
  pose proof (shape_insert ns _ _ i (fnode F (tptr u) p) Hiu Hu) as Hu1.
  fold ns1 in Hsib1, Hu1. setoid_rewrite shape_fill. rewrite HF. clearbody ns1.
  destruct u as [|ul ui uv um ur]; cbn [tptr].
  - ptr_step. rewrite set_child_fnode. set (ns2 := <[i := _]> ns1).
    assert (Hk2 : ns2 !! k = Some (node_of Leaf v (iv_end v) Leaf q)) by (subst ns2; by upd_lookup).
    ptr_step. eexists. split; [done|]. split; [|split].
    + split_and!; simpl; try done; [subst ns2; by upd_lookup| |by upd_lookup].
      by apply shape_insert, shape_insert.
    + subst ns2. by rewrite !length_insert.
    + intros j Hj Hjk. rewrite elem_of_cons in Hj. subst ns2.
      rewrite !list_lookup_insert_ne by naive_solver. apply Hag1. naive_solver.
  - set (u := Nd ul ui uv um ur) in *. change (Some ui) with (tptr u).
    destruct (IH u (Some i) ns1) as (ns' & HA & Hs' & Hlen & Hag); [done|lia|done| |done|].
    { by apply NoDup_cons. }
    exists ns'. split; [done|]. split; [split; [|split; [|done]]|split; [lia|]].
    + rewrite Hag by done. by rewrite insert_tree_tptr.
    + eapply shape_agree; [|exact Hsib1]. intros j Hj. apply Hag; [naive_solver|]. by intros ->.
    + intros j Hj Hjk. rewrite elem_of_cons, elem_of_app in Hj.
      rewrite Hag by naive_solver. apply Hag1. naive_solver.
Qed.

(** Appending a node to the storage changes nothing that is represented. *)
Lemma Repr_append bt t p0 ds n :
  Repr bt t p0 ds -> Repr (mkTree (root_ bt) (node_storage_ bt ++ [n])) t p0 ds.
Proof.
  intros HR. pose proof HR as []. split; simpl; try done.
  - eapply shape_agree; [|done]. intros j Hj. apply lookup_app_l.
    eapply Repr_bound; [done|]. apply elem_of_app. by left.
  - eapply dead_agree; [| |done]; [rewrite length_app; lia|]. intros j Hj. apply lookup_app_l.
    eapply Repr_bound; [done|]. apply elem_of_app. by right.
Qed.

Lemma Add_repr bt ivs s e c :
  repr bt ivs -> exists bt', Add s e c bt = OK bt' /\ repr bt' (mkInterval s e c :: ivs).
Proof.
  intros (t & p0 & ds & HR & Hv). set (v := mkInterval s e c). set (k := length (node_storage_ bt)).
  assert (Hk : k ∉ ids t ++ ds) by (intros Hk%(Repr_bound _ _ _ _ _ HR); subst k; lia).
  apply (Repr_append _ _ _ _ (node_of Leaf v (iv_end v) Leaf None)) in HR.
  destruct HR as [Hroot Hs Hd Hnd Hb Ha]. unfold Add. fold k. simpl in Hroot, Hs, Hd.
  change (mkNode s e e c None None None) with (node_of Leaf v (iv_end v) Leaf None).
  set (ns := node_storage_ bt ++ _) in *. rewrite Hroot.
  assert (Hlk : ns !! k = Some (node_of Leaf v (iv_end v) Leaf None)) by apply list_lookup_middle, eq_refl.
  assert (t = Leaf \/ t <> Leaf) as [->|Ht] by (destruct t; auto).
  { eexists. split; [done|]. exists (insert_tree k v Leaf), None, []. split; [|by rewrite vals_insert, <- Hv].
    split; simpl; try done; first [apply NoDup_singleton|by repeat constructor]. }
  destruct (Add_loop_ok (length ns) t p0 ns k v None) as (ns' & HA & Hs' & Hlen & Hag); try done.
  { apply NoDup_bounded; [by apply NoDup_app in Hnd as (? & _)|]. intros j. by eapply shape_bound. }
  { apply NoDup_app in Hnd as (? & _). apply NoDup_cons. split; [set_solver|done]. }
  destruct (tptr t) as [i|] eqn:Ei; [|by destruct t]. cbv beta iota.
  change (Add_loop _ s e _ _ _) with (Add_loop (length ns) (iv_start v) (iv_end v) (Some k) (Some i) ns).
  rewrite HA. cbn [mbind outcome_bind]. eexists. split; [done|].
  exists (insert_tree k v t), p0, ds. split; [|by rewrite vals_insert, Hv].
  rewrite not_elem_of_app in Hk. apply NoDup_app in Hnd as (Hndt & Hdisj & Hndd).
  split; simpl; [by rewrite insert_tree_tptr, Ei|done| | |by apply bst_insert|by apply aug_insert].
  - eapply dead_agree; [| |done]; [lia|]. intros j Hj. apply Hag; [naive_solver|]. intros ->. by destruct Hk.
  - rewrite ids_insert. simpl. apply NoDup_cons. split; [by rewrite not_elem_of_app|].
    by apply NoDup_app.
Qed.

(** ** Remove: the search *)

(** The path to the node that is removed. *)
Lemma Remove_find_ok fuel t p ns s e c :
  (length (ids t) < fuel)%nat -> shape ns p t -> bst t ->
  (exists C l i v m r, t = plug C (Nd l i v m r) /\
     iv_start v = s /\ iv_end v = e /\ offset (iv_chunk v) = offset c /\
     Remove_find fuel s e c (tptr t) ns = OK (Some i)) \/
  (Forall (fun v => ~ (iv_start v = s /\ iv_end v = e /\ offset (iv_chunk v) = offset c)) (vals t) /\
   Remove_find fuel s e c (tptr t) ns = OK None).
Proof.
  revert t p. induction fuel as [|fuel IH]; intros t p Hf Hs Hb; [lia|].
  destruct t as [|l i v m r]; [by right|].
  simpl in Hf. rewrite length_app in Hf. simpl in Hf. destruct Hs as (Hi & Hl & Hr).
  destruct Hb as (Hbl & Hbr & Hbsl & Hbsr). cbn [Remove_find tptr]. ptr_step. simpl.
  destruct ((iv_start v =? s) && (iv_end v =? e) && (offset (iv_chunk v) =? offset c)) eqn:Em.
  { left. exists [], l, i, v, m, r. split_and!; [done|lia..|done]. }
  assert (Hnv : ~ (iv_start v = s /\ iv_end v = e /\ offset (iv_chunk v) = offset c)) by lia.
  destruct (Z.ltb_spec s (iv_start v)) as [Hlt|Hge].
  - destruct (IH l (Some i)) as [(C & l' & j & w & m' & r' & -> & ? & ? & ? & HR)|[HF HR]]; [lia|done..| |].
    + left. exists (C ++ [FL i v m r]), l', j, w, m', r'. by rewrite plug_app.
    + right. split; [|done]. rewrite Forall_app, Forall_cons. split_and!; [done..|].
      eapply Forall_impl; [done|]. intros w. simpl. lia.
  - destruct (IH r (Some i)) as [(C & l' & j & w & m' & r' & -> & ? & ? & ? & HR)|[HF HR]]; [lia|done..| |].
    + left. exists (C ++ [FR l i v m]), l', j, w, m', r'. by rewrite plug_app.
    + right. split; [|done]. rewrite Forall_app, Forall_cons. split_and!; [|done..].
      eapply Forall_impl; [done|]. intros w. simpl. lia.
Qed.

(** ** fix_up *)

Lemma in_storage_tptr ns p t : shape ns p t -> in_storage ns (tptr t).
Proof. destruct t as [|l i v m r]; simpl; [done|]. intros [Hi _]. by eapply lookup_lt_Some. Qed.

Lemma shape_root ns p t j :
  shape ns p t -> tptr t = Some j ->
  exists n, ns !! j = Some n /\ forall e, max_sub e t = Z.max e (subtree_end n).
Proof.
  destruct t as [|l i v m r]; simpl; [done|]. intros [Hi _] [= ->]. eexists. by split.
Qed.

(** One round of [fix_up] at a node whose subtrees are represented. *)
Lemma fix_up_node fuel ns l i v m r p ql qr :
  ns !! i = Some (node_of l v m r p) -> shape ns ql l -> shape ns qr r ->
  fix_up (S fuel) (Some i) ns = fix_up fuel p (<[i := node_of l v (node_max l v r) r p]> ns).
Proof.
  intros Hi Hl Hr. cbn [fix_up]. ptr_step.
  change (left_ (node_of l v m r p)) with (tptr l). change (right_ (node_of l v m r p)) with (tptr r).
  change (end_ (node_of l v m r p)) with (iv_end v). unfold node_max.
  assert (El : max_sub (iv_end v) l = iv_end v \/ is_Some (tptr l)) by (destruct l; simpl; eauto).
  destruct (tptr l) as [j|] eqn:Ej; cbn [not_null mbind outcome_bind].
  1: destruct (shape_root _ _ _ _ Hl Ej) as (nl & Hj & ->); ptr_step.
  2: destruct El as [->|[? ?]]; [|done].
  all: destruct (tptr r) as [k|] eqn:Ek; cbn [not_null mbind outcome_bind].
  1,3: destruct (shape_root _ _ _ _ Hr Ek) as (nr & Hk & Em); ptr_step; rewrite Em.
  3,4: destruct r; [|done]; cbn [max_sub].
  all: ptr_step; unfold set_subtree_end, node_of; cbn; by rewrite ?Ej, ?Ek.
Qed.

Lemma fill_node F t p :
  exists l v m r, fill F t = Nd l (fid F) v m r /\ fnode F (tptr t) p = node_of l v m r p /\
    frame_max F t = node_max l v r /\
    fnode (set_max (frame_max F t) F) (tptr t) p = node_of l v (node_max l v r) r p.
Proof. destruct F as [i v m r|l i v m]; by eexists _, _, _, _. Qed.

Lemma fix_up_frame fuel ns F t p :
  shape ns p (fill F t) ->
  fix_up (S fuel) (Some (fid F)) ns =
  fix_up fuel p (<[fid F := fnode (set_max (frame_max F t) F) (tptr t) p]> ns).
Proof.
  destruct (fill_node F t p) as (l & v & m & r & -> & _ & _ & ->). intros (Hi & Hl & Hr).
  by eapply fix_up_node.
Qed.

Lemma fid_set_max m F : fid (set_max m F) = fid F.
Proof. by destruct F. Qed.
Lemma fsib_set_max m F : fsib (set_max m F) = fsib F.
Proof. by destruct F. Qed.

(** Going up a context. *)
Lemma fix_up_ctx C f t ns p0 :
  shape ns (fparent C p0) t -> shape_ctx ns p0 C (tptr t) -> NoDup (ctx_ids C ++ ids t) ->
  exists ns', fix_up (length C + f) (fparent C p0) ns = fix_up f p0 ns' /\
    shape ns' p0 (replug C t) /\ length ns' = length ns /\
    forall j, j ∉ ctx_ids C -> ns' !! j = ns !! j.
Proof.
  revert t ns. induction C as [|F C IH]; intros t ns Ht HC Hnd; [by exists ns|].
  destruct HC as (HF & Hsib & HC). cbn [fparent length plus ctx_ids] in *.
  simpl in Hnd. rewrite NoDup_cons in Hnd. destruct Hnd as [Hni Hnd].
  rewrite !elem_of_app in Hni.
  rewrite (fix_up_frame _ _ F t (fparent C p0)) by (by apply shape_fill).
  set (F' := set_max (frame_max F t) F). set (ns1 := <[fid F := _]> ns).
  assert (Hlt : (fid F < length ns)%nat) by (by eapply lookup_lt_Some).
  assert (HfF : fid F' = fid F) by apply fid_set_max.
  destruct (IH (fill F' t) ns1) as (ns' & Hfix & Hsh & Hlen & Hag).
  - apply shape_fill. rewrite HfF. split_and!; [subst ns1; by upd_lookup|..].
    + subst F'. rewrite fsib_set_max. apply shape_insert; [naive_solver|done].
    + apply shape_insert; [naive_solver|done].
  - rewrite tptr_fill, HfF. eapply shape_ctx_agree; [|exact HC]. intros j Hj. subst ns1.
    assert (fid F <> j) by naive_solver. by upd_lookup.
  - rewrite ids_fill, HfF. subst F'. rewrite fsib_set_max.
    assert (Hp : ctx_ids C ++ fid F :: ids (fsib F) ++ ids t ≡ₚ
                 fid F :: (ids (fsib F) ++ ctx_ids C) ++ ids t) by solve_Permutation.
    rewrite Hp. apply NoDup_cons. by rewrite !elem_of_app.
  - exists ns'. split; [done|]. split; [done|]. split.
    { rewrite Hlen. apply length_insert. }
    intros j Hj. rewrite elem_of_cons, elem_of_app in Hj. rewrite Hag by naive_solver.
    subst ns1. assert (fid F <> j) by naive_solver. by upd_lookup.
Qed.

Lemma in_storage_lookup (ns : Nodes) i : in_storage ns (Some i) -> exists n, ns !! i = Some n.
Proof. apply lookup_lt_is_Some_2. Qed.

(** One round at any node with pointers into the storage. *)
Lemma fix_up_any fuel ns i n :
  ns !! i = Some n -> in_storage ns (left_ n) -> in_storage ns (right_ n) ->
  exists m, fix_up (S fuel) (Some i) ns = fix_up fuel (parent n) (<[i := set_subtree_end m n]> ns).
Proof.
  intros Hi Hl Hr. cbn [fix_up]. ptr_step.
  destruct (left_ n) as [j|]; cbn [not_null mbind outcome_bind].
  1: destruct (in_storage_lookup _ _ Hl) as [nl Hj]; ptr_step.
  all: destruct (right_ n) as [k|]; cbn [not_null mbind outcome_bind].
  1,3: destruct (in_storage_lookup _ _ Hr) as [nr Hk]; ptr_step.
  all: ptr_step; by eexists.
Qed.

(** Going up the chain of former roots. *)
Lemma fix_up_dead ds f p ns :
  dead ns p ds -> NoDup ds -> (length ds <= f)%nat ->
  exists ns', fix_up f p ns = OK ns' /\ dead ns' p ds /\ length ns' = length ns /\
    forall j, j ∉ ds -> ns' !! j = ns !! j.
Proof.
  revert f p ns. induction ds as [|d ds IH]; intros f p ns Hd Hnd Hf; simpl in Hd.
  { subst p. exists ns. split; [by destruct f|done]. }
  destruct Hd as (-> & n & Hn & Hl & Hr & Hd). apply NoDup_cons in Hnd as [Hni Hnd].
  destruct f as [|f]; [simpl in Hf; lia|]. destruct (fix_up_any f ns d n) as [m ->]; [done..|].
  destruct (IH f (parent n) (<[d := set_subtree_end m n]> ns)) as (ns' & Hfix & Hd' & Hlen & Hag);
    [|done|simpl in Hf; lia|].
  { eapply dead_agree; [| |done]; [by rewrite length_insert|]. intros j Hj.
    assert (d <> j) by congruence. by upd_lookup. }
  rewrite length_insert in Hlen. exists ns'. split; [done|]. split; [|split; [done|]].
  - simpl. split; [done|]. exists (set_subtree_end m n). rewrite Hag by done. upd_lookup.
    split; [done|]. unfold in_storage in *. simpl. by rewrite Hlen.
  - intros j Hj. rewrite elem_of_cons in Hj. rewrite Hag by naive_solver.
    assert (d <> j) by naive_solver. by upd_lookup.
Qed.

(** The whole way, from a focus in the tree. *)
Lemma fix_up_ok C t f ns p0 ds :
  shape ns (fparent C p0) t -> shape_ctx ns p0 C (tptr t) -> dead ns p0 ds ->
  NoDup (ctx_ids C ++ ids t ++ ds) -> (length ns <= f)%nat ->
  exists ns', fix_up f (fparent C p0) ns = OK ns' /\ shape ns' p0 (replug C t) /\ dead ns' p0 ds.
Proof.
  intros Ht HC Hd Hnd Hf. rewrite app_assoc in Hnd.
  pose proof Hnd as (Hnd1 & Hdisj & Hndd)%NoDup_app.
  destruct (fix_up_ctx C (f - length C) t ns p0 Ht HC Hnd1) as (ns1 & Hfix & Hsh & Hlen & Hag).
  assert (HlC : forall C, (length C <= length (ctx_ids C))%nat).
  { clear. induction C; simpl; [lia|]. rewrite length_app. lia. }
  assert (Hb : (length ((ctx_ids C ++ ids t) ++ ds) <= length ns)%nat).
  { apply NoDup_bounded; [done|]. intros j. rewrite !elem_of_app.
    assert (Hp : shape ns p0 (plug C t)) by (by apply shape_plug).
    intros [Hj|Hj]; [|by eapply dead_bound].
    eapply shape_bound; [exact Hp|]. by rewrite ids_plug, elem_of_app. }
  rewrite !length_app in Hb. specialize (HlC C).
  assert (Hd1 : dead ns1 p0 ds).
  { apply (dead_agree ns); [lia| |exact Hd]. intros j Hj. apply Hag. intros HjC.
    apply (Hdisj j); [|done]. rewrite elem_of_app. by left. }
  destruct (fix_up_dead ds (f - length C) p0 ns1) as (ns2 & Hfix2 & Hd2 & _ & Hag2); [done..|lia|].
  exists ns2. replace (length C + (f - length C))%nat with f in Hfix by lia.
  rewrite Hfix, Hfix2. split; [done|]. split; [|done].
  eapply shape_agree; [|exact Hsh]. intros j Hj. apply Hag2. intros Hjd. apply (Hdisj j); [|done].
  destruct (same_props _ _ (same_replug C t t (same_refl t))) as (E & _).
  rewrite E, ids_plug in Hj. done.
Qed.

(** ** Replacing what fills a context *)

Lemma rewire_ok ns q q' t :
  shape ns q t -> NoDup (ids t) ->
  exists ns', rewire (tptr t) q' ns = OK ns' /\ shape ns' q' t /\ length ns' = length ns /\
    forall j, j ∉ ids t -> ns' !! j = ns !! j.
Proof.
  unfold rewire. destruct t as [|l i v m r]; cbn [tptr not_null]; [by exists ns|].
  intros (Hi & Hl & Hr) Hnd. simpl in Hnd. rewrite NoDup_app, NoDup_cons in Hnd.
  destruct Hnd as (_ & Hil & Hir & _). ptr_step. eexists. split; [done|].
  split; [|split; [apply length_insert|]].
  - simpl. upd_lookup. split; [done|]. split; apply shape_insert; try done.
    intros Hin. apply (Hil i Hin). left.
  - intros j Hj. simpl in Hj. rewrite elem_of_app, elem_of_cons in Hj.
    rewrite list_lookup_insert_ne; [done|naive_solver].
Qed.

(** The child pointer of the innermost frame is set and the new child rewired. *)
Lemma refill_ok ns p0 F C q u i :
  shape_ctx ns p0 (F :: C) (Some i) -> shape ns q u -> NoDup (ctx_ids (F :: C) ++ ids u) ->
  exists ns', rewire (tptr u) (Some (fid F)) (<[fid F := fnode F (tptr u) (fparent C p0)]> ns) = OK ns' /\
    shape ns' (Some (fid F)) u /\ shape_ctx ns' p0 (F :: C) (tptr u) /\ length ns' = length ns /\
    forall j, j <> fid F -> j ∉ ids u -> ns' !! j = ns !! j.
Proof.
  intros (HF & Hsib & HC) Hu Hnd. cbn [ctx_ids] in Hnd. simpl in Hnd.
  rewrite NoDup_cons, NoDup_app in Hnd. destruct Hnd as (HnF & Hndc & Hdisj & Hndu).
  rewrite !elem_of_app in HnF.
  set (ns1 := <[fid F := _]> ns).
  destruct (rewire_ok ns1 q (Some (fid F)) u) as (ns2 & Hrw & Hu2 & Hlen & Hag).
  { apply shape_insert; [naive_solver|done]. } { done. }
  assert (Hag2 : forall j, j <> fid F -> j ∉ ids u -> ns2 !! j = ns !! j).
  { intros j Hj Hju. rewrite Hag by done. subst ns1. by upd_lookup. }
  exists ns2. split; [done|]. split; [done|]. split; [|split; [|done]].
  - cbn [shape_ctx]. split; [rewrite Hag by naive_solver; subst ns1; by upd_lookup|]. split.
    + eapply shape_agree; [|done]. intros j Hj.
      apply Hag2; [naive_solver|]. apply Hdisj, elem_of_app. by left.
    + eapply shape_ctx_agree; [|done]. intros j Hj.
      apply Hag2; [naive_solver|]. apply Hdisj, elem_of_app. by right.
  - rewrite Hlen. apply length_insert.
Qed.

(** ** Remove: the two branches *)

Lemma move_up_left_ok ns F i l v m p :
  ns !! fid F = Some (fnode F (Some i) p) -> tptr (fsib F) <> Some i -> tptr l <> Some i ->
  move_up_left (Some i) (node_of l v m Leaf (Some (fid F))) ns =
  OK (<[fid F := fnode F (tptr l) p]> ns).
Proof.
  intros HF Hsib Hl. unfold move_up_left, ptr_eqb. cbn [parent node_of left_ right_].
  ptr_step. destruct F as [f w k r|f' f w k]; cbn [fnode left_ right_ fsib fid] in *.
  - rewrite bool_decide_true by done. ptr_step. upd_lookup.
    cbn [mbind outcome_bind]. erewrite deref_OK by (by upd_lookup). cbn [mbind outcome_bind].
    by rewrite bool_decide_false by (simpl; congruence).
  - rewrite bool_decide_false by congruence. cbn [mbind outcome_bind]. ptr_step.
    rewrite bool_decide_true by done. by ptr_step.
Qed.

Lemma tptr_ids t i : tptr t = Some i -> i ∈ ids t.
Proof.
  destruct t; [done|]. simpl. intros [= ->]. rewrite elem_of_app, elem_of_cons. auto.
Qed.

Lemma tptr_plug F C : exists j, j ∈ ctx_ids (F :: C) /\ forall t, tptr (plug (F :: C) t) = Some j.
Proof.
  revert F. induction C as [|G C IH]; intros F.
  - exists (fid F). split; [left|]. by destruct F.
  - destruct (IH G) as (j & Hin & Hj). exists j. split; [|intros t; apply Hj].
    change (j ∈ fid F :: ids (fsib F) ++ ctx_ids (G :: C)). right. apply elem_of_app. by right.
Qed.

(** The tree after the annotations of the context are recomputed. *)
Lemma Repr_replug root ns C t p0 ds :
  root = tptr (plug C t) -> shape ns p0 (replug C t) -> dead ns p0 ds ->
  NoDup (ctx_ids C ++ ids t ++ ds) -> bst (plug C t) -> aug t -> ctx_aug C ->
  Repr (mkTree root ns) (replug C t) p0 ds.
Proof.
  intros Hroot Hsh Hd Hnd Hb Ha HC.
  destruct (same_props _ _ (same_replug C t t (same_refl t))) as (Ei & _ & Et & Eb).
  split; simpl; [by rewrite Et|done..| |by apply Eb|by apply aug_replug].
  by rewrite Ei, ids_plug, <- app_assoc.
Qed.

Lemma vals_replug C t : vals (replug C t) ≡ₚ ctx_vals C ++ vals t.
Proof.
  destruct (same_props _ _ (same_replug C t t (same_refl t))) as (_ & -> & _). apply vals_plug.
Qed.

(** The facts about a node in a context that both branches use. *)
Lemma Repr_focus bt C l i v m r p0 ds :
  Repr bt (plug C (Nd l i v m r)) p0 ds ->
  let ns := node_storage_ bt in
  ns !! i = Some (node_of l v m r (fparent C p0)) /\ shape ns (Some i) l /\ shape ns (Some i) r /\
  shape_ctx ns p0 C (Some i) /\ NoDup (i :: ctx_ids C ++ (ids l ++ ids r) ++ ds) /\
  aug l /\ aug r /\ ctx_aug C /\ bst l /\ bst r /\
  Forall (fun w => iv_start w < iv_start v) (vals l) /\ Forall (fun w => iv_start v <= iv_start w) (vals r).
Proof.
  intros [Hroot [(Hi & Hl & Hr) HC]%shape_plug Hd Hnd Hb [(_ & Hal & Har) HaC]%aug_plug].
  apply bst_plug_inv in Hb as (? & ? & ? & ?). split_and!; try done.
  rewrite ids_plug in Hnd. simpl in Hnd.
  assert (Hp : (ctx_ids C ++ ids l ++ i :: ids r) ++ ds ≡ₚ i :: ctx_ids C ++ (ids l ++ ids r) ++ ds)
    by solve_Permutation. by rewrite <- Hp.
Qed.

(** A root without right child: its left child becomes the root. *)
Lemma Remove_root_ok bt l i v m p0 ds :
  Repr bt (Nd l i v m Leaf) p0 ds ->
  exists bt', Remove_no_right (Some i) (node_of l v m Leaf p0) bt = OK bt' /\ repr bt' (vals l).
Proof.
  intros HR. destruct (Repr_focus bt [] l i v m Leaf p0 ds HR)
    as (Hi & Hl & _ & _ & Hnd & Hal & _ & _ & Hbl & _ & _).
  destruct HR as [Hroot _ Hd _ _ _]. unfold Remove_no_right, ptr_eqb.
  rewrite Hroot, bool_decide_true by done. eexists. split; [done|].
  exists l, (Some i), (i :: ds). split; [|done].
  simpl in Hnd. rewrite app_nil_r, NoDup_cons in Hnd. destruct Hnd as [Hni Hnd].
  split; simpl; try done.
  - split; [done|]. exists (node_of l v m Leaf p0). split_and!; try done. by eapply in_storage_tptr.
  - rewrite <- Permutation_middle. by apply NoDup_cons.
Qed.

(** Steps of a removal below a parent, up to the call of [fix_up]: the child [u]
    takes the place of the node [i]. *)
Lemma refill_dead ns p0 F C q u i ds ns' :
  dead ns p0 ds -> NoDup ((ctx_ids (F :: C) ++ ids u) ++ ds) ->
  length ns' = length ns -> (forall j, j <> fid F -> j ∉ ids u -> ns' !! j = ns !! j) ->
  shape_ctx ns p0 (F :: C) (Some i) -> shape ns q u -> dead ns' p0 ds.
Proof.
  intros Hd (_ & Hdisj & _)%NoDup_app Hlen Hag _ _.
  apply (dead_agree ns); [lia| |done]. intros k Hk. apply Hag.
  - intros ->. apply (Hdisj (fid F)); [left|done].
  - intros Hku. apply (Hdisj k); [|done]. apply elem_of_app. by right.
Qed.

Lemma Remove_no_right_ok bt F C l i v m p0 ds :
  Repr bt (plug (F :: C) (Nd l i v m Leaf)) p0 ds ->
  exists bt', Remove_no_right (Some i) (node_of l v m Leaf (Some (fid F))) bt = OK bt' /\
    repr bt' (ctx_vals (F :: C) ++ vals l).
Proof.
  intros HR. destruct (Repr_focus _ _ _ _ _ _ _ _ _ HR)
    as (Hi & Hl & _ & HC & Hnd & Hal & _ & HaC & Hbl & _ & _).
  destruct HR as [Hroot _ Hd _ Hb _]. destruct (tptr_plug F C) as (j & Hjc & Hj).
  rewrite Hj in Hroot. simpl (ids Leaf) in Hnd. rewrite app_nil_r, app_assoc in Hnd.
  apply NoDup_cons in Hnd as [Hni Hnd]. rewrite !elem_of_app in Hni.
  unfold Remove_no_right, ptr_eqb. rewrite Hroot, bool_decide_false by (intros [= ->]; auto).
  set (ns := node_storage_ bt) in *. cbn [fparent] in Hi. pose proof HC as (HF & _).
  assert (i <> fid F) by (intros ->; apply Hni; left; left; left).
  rewrite (move_up_left_ok ns F i l v m (fparent C p0)); [|done|..].
  2: { intros E%tptr_ids. apply Hni. do 2 left. cbn [ctx_ids]. rewrite elem_of_cons, elem_of_app. auto. }
  2: { intros E%tptr_ids. auto. }
  cbn [mbind outcome_bind parent left_ node_of].
  pose proof Hnd as (Hndc & _)%NoDup_app.
  destruct (refill_ok ns p0 F C (Some i) l i) as (ns2 & -> & Hl2 & HC2 & Hlen & Hag); [done..|].
  pose proof (refill_dead _ _ _ _ _ _ _ _ _ Hd Hnd Hlen Hag HC Hl) as Hd2.
  cbn [mbind outcome_bind].
  assert (Hi2 : ns2 !! i = Some (node_of l v m Leaf (Some (fid F)))) by (rewrite Hag; auto).
  rewrite (fix_up_node (length ns2) ns2 l i v m Leaf (Some (fid F)) (Some (fid F)) None Hi2 Hl2 I).
  set (n2 := node_of l v (node_max l v Leaf) Leaf (Some (fid F))).
  destruct (fix_up_ok (F :: C) l (length ns2) (<[i := n2]> ns2) p0 ds) as (ns4 & Hfix & Hsh4 & Hd4).
  { apply shape_insert; [auto|done]. }
  { eapply shape_ctx_agree; [|exact HC2]. intros k Hk. apply list_lookup_insert_ne. intros ->. auto. }
  { apply (dead_agree ns2); [by rewrite length_insert| |done]. intros k Hk.
    apply list_lookup_insert_ne. intros ->. auto. }
  { by rewrite app_assoc. } { by rewrite length_insert. }
  cbn [fparent] in Hfix. rewrite Hfix. cbn [mbind outcome_bind]. eexists. split; [done|].
  exists (replug (F :: C) l), p0, ds. split; [|apply vals_replug].
  apply Repr_replug; [by rewrite Hj|done|done|by rewrite app_assoc| |done|done].
  eapply bst_plug_mono; [|done|exact Hb]. intros w Hw. simpl. apply elem_of_app. by left.
Qed.

(** *** The leftmost node of the right subtree *)

Definition is_FL (F : frame) : Prop := match F with FL _ _ _ _ => True | FR _ _ _ _ => False end.

Lemma leftmost_split t :
  t <> Leaf -> exists L j w m r, t = plug L (Nd Leaf j w m r) /\ Forall is_FL L.
Proof.
  induction t as [|l IH i v m r _]; [done|]. intros _.
  destruct l as [|l1 i1 v1 m1 r1]; [by exists [], i, v, m, r|].
  destruct IH as (L & j & w & m' & r' & -> & HL); [done|].
  exists (L ++ [FL i v m r]), j, w, m', r'. rewrite plug_app. split; [done|].
  apply Forall_app. split; [done|]. by repeat constructor.
Qed.

Lemma leftmost_ok fuel L j w m r p ns :
  Forall is_FL L -> shape ns p (plug L (Nd Leaf j w m r)) -> (length L < fuel)%nat ->
  leftmost fuel (tptr (plug L (Nd Leaf j w m r))) ns = OK (Some j).
Proof.
  revert fuel p. induction L as [|F L IH] using rev_ind; intros fuel p HL Hs Hf;
    (destruct fuel as [|fuel]; [lia|]).
  - destruct Hs as [Hj _]. cbn [leftmost plug tptr]. by ptr_step.
  - apply Forall_app in HL as [HL HF%Forall_inv]. rewrite plug_app in *.
    destruct F as [i v m' r'|]; [|done]. destruct Hs as (Hi & Hl & _). cbn [plug fill tptr leftmost].
    ptr_step. change (left_ (node_of ?l ?v ?m ?r ?p)) with (tptr l).
    rewrite length_app in Hf. simpl in Hf. specialize (IH fuel (Some i) HL Hl ltac:(lia)).
    cbn [left_ node_of]. destruct (tptr (plug L (Nd Leaf j w m r))) eqn:E; [done|].
    exfalso. destruct L as [|G L]; [done|]. destruct (tptr_plug G L) as (k & _ & Hk).
    by rewrite Hk in E.
Qed.

Lemma leftmost_min L j w m r :
  Forall is_FL L -> bst (plug L (Nd Leaf j w m r)) ->
  Forall (fun x => iv_start w <= iv_start x) (vals (plug L (Nd Leaf j w m r))).
Proof.
  revert w. induction L as [|F L IH] using rev_ind; intros w HL Hb.
  - simpl in *. destruct Hb as (_ & Hr & _). by constructor.
  - apply Forall_app in HL as [HL HF%Forall_inv]. rewrite plug_app in *.
    destruct F as [i v m' r'|]; [|done]. cbn [plug fill bst vals] in *.
    destruct Hb as (Hl & Hr & Hbl & _). specialize (IH w HL Hbl).
    rewrite Forall_app, Forall_cons. split; [done|].
    assert (Hw : iv_start w < iv_start v).
    { rewrite Forall_forall in Hl. apply Hl. rewrite vals_plug. apply elem_of_app. right. left. }
    split; [lia|]. eapply Forall_impl; [exact Hr|]. intros x. simpl. lia.
Qed.

(** *** Promotion *)

Lemma ctx_ids_app C1 C2 : ctx_ids (C1 ++ C2) = ctx_ids C1 ++ ctx_ids C2.
Proof. induction C1 as [|F C1 IH]; simpl; [done|]. by rewrite IH, <- app_assoc. Qed.
Lemma ctx_vals_app C1 C2 : ctx_vals (C1 ++ C2) = ctx_vals C1 ++ ctx_vals C2.
Proof. induction C1 as [|F C1 IH]; simpl; [done|]. by rewrite IH, <- app_assoc. Qed.
Lemma ctx_aug_app C1 C2 : ctx_aug (C1 ++ C2) <-> ctx_aug C1 /\ ctx_aug C2.
Proof. induction C1 as [|F C1 IH]; simpl; tauto. Qed.

(** The content of a node in the tree is overwritten. *)
Lemma shape_set_content ns p0 C l i v m r w m' :
  shape ns p0 (plug C (Nd l i v m r)) -> NoDup (ids (plug C (Nd l i v m r))) ->
  shape (<[i := node_of l w m' r (fparent C p0)]> ns) p0 (plug C (Nd l i w m' r)).
Proof.
  rewrite ids_plug. intros [(Hi & Hl & Hr) HC]%shape_plug (_ & Hdisj & Hnd)%NoDup_app.
  simpl in Hnd, Hdisj. apply NoDup_app in Hnd as (_ & Hil & [Hir _]%NoDup_cons).
  apply shape_plug. split; simpl.
  - upd_lookup. split; [done|]. split; apply shape_insert; try done.
    intros Hin. apply (Hil i Hin). left.
  - eapply shape_ctx_agree; [|exact HC]. intros j Hj. rewrite list_lookup_insert_ne; [done|].
    intros ->. apply (Hdisj j Hj). rewrite elem_of_app, elem_of_cons. auto.
Qed.

Lemma set_promoted_child ns F j u q :
  ns !! fid F = Some (fnode F (Some j) q) -> tptr (fsib F) <> Some j ->
  (if ptr_eqb (left_ (fnode F (Some j) q)) (Some j)
   then assign (Some (fid F)) (set_left u) ns else assign (Some (fid F)) (set_right u) ns) =
  OK (<[fid F := fnode F u q]> ns).
Proof.
  intros HF Hsib. unfold ptr_eqb. destruct F as [f w k r|f' f w k]; cbn [fnode left_ fsib fid] in *.
  - rewrite bool_decide_true by done. by ptr_step.
  - rewrite bool_decide_false by done. by ptr_step.
Qed.

(** The tree in which the promoted node's content has replaced that of node [i]
    and its right subtree [rr] has taken its place. *)
Definition promoted (L : list frame) (l : tree) (i : nat) (w : interval) (m' : Z) (C : list frame) :=
  L ++ FR l i w m' :: C.

Section Promote.
Context (bt : BufferIntervalTree) (C L : list frame) (l rr : tree) (i j : nat).
Context (v w : interval) (m m' : Z) (p0 : ptr) (ds : list nat).
#[local] Abbreviation r := (plug L (Nd Leaf j w m' rr)).
#[local] Abbreviation C1 := (promoted L l i w m' C).

Lemma promoted_plug t : plug C1 t = plug C (Nd l i w m' (plug L t)).
Proof using. unfold promoted. by rewrite plug_app. Qed.

Lemma promoted_vals t : ctx_vals C1 ++ vals t ≡ₚ ctx_vals C ++ vals l ++ ctx_vals L ++ w :: vals t.
Proof using. unfold promoted. rewrite ctx_vals_app. simpl. solve_Permutation. Qed.

Lemma promoted_cons :
  exists F C', C1 = F :: C' /\ forall t, tptr (plug C1 t) = tptr (plug C (Nd l i v m r)).
Proof using.
  assert (Ht : forall t, tptr (plug C1 t) = tptr (plug C (Nd l i v m r))).
  { intros t. rewrite promoted_plug. destruct C as [|F C']; [done|].
    destruct (tptr_plug F C') as (k & _ & Hk). by rewrite !Hk. }
  unfold promoted in *. destruct L as [|F L']; simpl in *; eauto.
Qed.

Context (HR : Repr bt (plug C (Nd l i v m r)) p0 ds) (HL : Forall is_FL L).

Lemma promoted_NoDup : NoDup ((ctx_ids C1 ++ j :: ids rr) ++ ds).
Proof using HR.
  destruct HR as [_ _ _ Hnd _ _]. rewrite !ids_plug in Hnd. simpl in Hnd.
  rewrite ids_plug in Hnd. simpl in Hnd. unfold promoted. rewrite ctx_ids_app. simpl.
  assert (Hp : (ctx_ids C ++ ids l ++ i :: ctx_ids L ++ j :: ids rr) ++ ds ≡ₚ
    ((ctx_ids L ++ i :: ids l ++ ctx_ids C) ++ j :: ids rr) ++ ds) by solve_Permutation.
  by rewrite <- Hp.
Qed.

Lemma promoted_bst : bst (plug C1 rr).
Proof using HR HL.
  destruct (Repr_focus _ _ _ _ _ _ _ _ _ HR) as (_ & _ & _ & _ & _ & _ & _ & _ & Hbl & Hbr & Hl & Hr).
  pose proof (leftmost_min _ _ _ _ _ HL Hbr) as Hmin. rewrite promoted_plug.
  assert (Hsub : forall x, x ∈ vals (plug L rr) -> x ∈ vals r).
  { intros x. rewrite !vals_plug, !elem_of_app. simpl. rewrite elem_of_cons. tauto. }
  assert (Hw : w ∈ vals r) by (rewrite vals_plug; apply elem_of_app; right; left).
  pose proof Hbr as (_ & _ & _ & Hbrr)%bst_plug_inv.
  eapply bst_plug_mono; [| |exact (repr_bst _ _ _ _ HR)].
  - intros x. simpl. rewrite !elem_of_app, !elem_of_cons. naive_solver.
  - simpl. rewrite Forall_forall in Hr. specialize (Hr w Hw). split_and!; [| |done|].
    + eapply Forall_impl; [exact Hl|]. intros x. simpl. lia.
    + apply Forall_forall. intros x Hx. rewrite Forall_forall in Hmin. by apply Hmin, Hsub.
    + eapply bst_plug_mono; [|exact Hbrr|exact Hbr]. intros x Hx. simpl. by right.
Qed.

Lemma promoted_aug : aug rr /\ ctx_aug C1.
Proof using HR.
  destruct (Repr_focus _ _ _ _ _ _ _ _ _ HR) as (_ & _ & _ & _ & _ & Hal & Har & HaC & _).
  apply aug_plug in Har as [(_ & _ & Harr) HaL]. split; [done|].
  unfold promoted. rewrite ctx_aug_app. simpl. done.
Qed.

(** The state in which the promoted node hangs below the context [C1]. *)
Lemma promoted_shape :
  let ns1 := <[i := node_of l w m' r (fparent C p0)]> (node_storage_ bt) in
  shape ns1 p0 (plug C1 (Nd Leaf j w m' rr)) /\ dead ns1 p0 ds.
Proof using HR.
  pose proof HR as [_ Hsh Hd Hnd _ _]. split.
  - rewrite promoted_plug. apply (shape_set_content _ _ _ _ _ v m); [done|]. by apply NoDup_app in Hnd as [? _].
  - apply (dead_agree (node_storage_ bt)); [by rewrite length_insert| |done]. intros k Hk.
    apply list_lookup_insert_ne. intros ->. apply NoDup_app in Hnd as (_ & Hdisj & _).
    apply (Hdisj k); [|done]. rewrite ids_plug. simpl. rewrite !elem_of_app, elem_of_cons. auto.
Qed.

Lemma promoted_fuel q :
  shape (node_storage_ bt) q r -> (length L < S (length (node_storage_ bt)))%nat.
Proof using HR.
  intros Hr. pose proof promoted_NoDup as Hnd.
  assert (HlC : forall C, (length C <= length (ctx_ids C))%nat).
  { clear. induction C; simpl; [lia|]. rewrite length_app. lia. }
  pose proof (shape_size _ q r Hr) as Hsz. rewrite <- length_ids_vals, ids_plug, length_app in Hsz.
  specialize (HlC L). enough (NoDup (ctx_ids L ++ ids (Nd Leaf j w m' rr))) by (specialize (Hsz H); lia).
  unfold promoted in Hnd. rewrite ctx_ids_app in Hnd.
  eapply sublist_NoDup; [exact Hnd|]. apply sublist_inserts_r, sublist_app; [|done].
  by apply sublist_inserts_r.
Qed.

Lemma Remove_promote_ok :
  exists bt', Remove_promote (Some i) (node_of l v m r (fparent C p0)) bt = OK bt' /\
    repr bt' (ctx_vals C ++ vals l ++ vals r).
Proof using HR HL.
  destruct (Repr_focus _ _ _ _ _ _ _ _ _ HR) as (Hi & _ & Hr & _).
  destruct promoted_shape as [Hsh1 Hd1]. destruct promoted_aug as [Harr HaC1].
  pose proof promoted_NoDup as Hnd. pose proof promoted_bst as Hb.
  destruct promoted_cons as (F & C' & EC & Hroot).
  set (ns := node_storage_ bt) in *.
  pose proof (promoted_fuel (Some i) Hr) as HLlen. fold ns in HLlen.
  unfold Remove_promote. fold ns. cbn [right_ node_of].
  rewrite (leftmost_ok _ L j w m' rr (Some i)) by done. cbn [mbind outcome_bind].
  apply shape_plug in Hr as [[Hj _] _]. rewrite (deref_OK ns j _ Hj). cbn [mbind outcome_bind].
  rewrite (assign_OK ns i _ _ Hi). cbn [mbind outcome_bind].
  change (set_content _ _) with (node_of l w m' r (fparent C p0)).
  fold ns in Hsh1, Hd1. set (ns1 := <[i := _]> ns) in *.
  assert (Epar : fparent L (Some i) = Some (fid F)).
  { unfold promoted in EC. destruct L; simpl in *; by injection EC as <- _. }
  cbn [parent right_ node_of]. rewrite Epar.
  apply shape_plug in Hsh1 as [(_ & _ & Hrr1) HC1]. cbn [tptr] in HC1. rewrite EC in HC1.
  pose proof HC1 as (HF & _). rewrite (deref_OK ns1 _ _ HF). cbn [mbind outcome_bind].
  rewrite EC in Hnd.
  rewrite (set_promoted_child ns1 F j (tptr rr) (fparent C' p0)); [|done|].
  2: { intros Hin%tptr_ids. rewrite NoDup_app in Hnd. destruct Hnd as [(_ & Hdisj & _)%NoDup_app _].
       apply (Hdisj j); [|left]. cbn [ctx_ids]. rewrite elem_of_cons, elem_of_app. auto. }
  cbn [mbind outcome_bind].
  assert (Hnd2 : NoDup ((ctx_ids (F :: C') ++ ids rr) ++ ds)).
  { eapply sublist_NoDup; [exact Hnd|]. apply sublist_app; [|done]. apply sublist_app; [done|].
    by apply sublist_cons. }
  destruct (refill_ok ns1 p0 F C' (Some j) rr j) as (ns2 & -> & Hrr2 & HC2 & Hlen & Hag);
    [done|done|by apply NoDup_app in Hnd2 as [? _]|].
  pose proof (refill_dead _ _ _ _ _ _ _ _ _ Hd1 Hnd2 Hlen Hag HC1 Hrr1) as Hd2.
  cbn [mbind outcome_bind].
  destruct (fix_up_ok (F :: C') rr (S (length ns2)) ns2 p0 ds) as (ns4 & Hfix & Hsh4 & Hd4);
    [done..|by rewrite app_assoc|lia|].
  cbn [fparent] in Hfix. rewrite Hfix. cbn [mbind outcome_bind]. eexists. split; [done|].
  exists (replug (F :: C') rr), p0, ds. split.
  - rewrite <- EC in *. destruct HR as [Hrt _ _ _ _ _].
    apply Repr_replug; [by rewrite Hroot|done|done|by rewrite app_assoc|done..].
  - rewrite vals_replug, <- EC, promoted_vals, vals_plug. simpl. solve_Permutation.
Qed.
End Promote.

Lemma Remove_repr bt ivs s e c :
  repr bt ivs ->
  exists bt' b, Remove s e c bt = OK (bt', b) /\
    if (b : bool) then exists v ivs', ivs ≡ₚ v :: ivs' /\
      iv_start v = s /\ iv_end v = e /\ offset (iv_chunk v) = offset c /\ repr bt' ivs'
    else bt' = bt /\
      Forall (fun v => ~ (iv_start v = s /\ iv_end v = e /\ offset (iv_chunk v) = offset c)) ivs.
Proof.
  intros (t & p0 & ds & HR & Hv). pose proof HR as [Hroot Hsh _ Hnd Hb _].
  unfold Remove. rewrite Hroot. pose proof Hnd as [Hndt _]%NoDup_app.
  assert (Hf : (length (ids t) < S (length (node_storage_ bt)))%nat).
  { rewrite length_ids_vals. by apply Nat.lt_succ_r, (shape_size _ p0). }
  destruct (Remove_find_ok _ t p0 _ s e c Hf Hsh Hb)
    as [(C & l & i & v & m & r & -> & Hs & He & Hc & HF)|[HF ->]].
  2: { exists bt, false. split; [done|]. split; [done|]. by rewrite <- Hv. }
  rewrite HF. cbn [mbind outcome_bind].
  destruct (Repr_focus _ _ _ _ _ _ _ _ _ HR) as (Hi & _).
  rewrite (deref_OK _ _ _ Hi). cbn [mbind outcome_bind]. rewrite vals_plug in Hv. simpl in Hv.
  assert (Hres : exists bt', (if not_null (right_ (node_of l v m r (fparent C p0)))
      then Remove_promote (Some i) (node_of l v m r (fparent C p0)) bt
      else Remove_no_right (Some i) (node_of l v m r (fparent C p0)) bt) = OK bt' /\
      repr bt' (ctx_vals C ++ vals l ++ vals r)).
  { change (right_ _) with (tptr r).
    assert (r = Leaf \/ r <> Leaf) as [->|Hr] by (destruct r; auto).
    - cbn [tptr not_null]. rewrite app_nil_r. destruct C as [|F C].
      + by eapply Remove_root_ok.
      + by eapply Remove_no_right_ok.
    - assert (En : not_null (tptr r) = true) by (by destruct r). rewrite En.
      destruct (leftmost_split r Hr) as (L & j & w & m' & rr & -> & HL).
      by eapply Remove_promote_ok. }
  destruct Hres as (bt' & -> & Hrepr). exists bt', true. split; [done|].
  exists v, (ctx_vals C ++ vals l ++ vals r). split; [|done].
  rewrite <- Hv. solve_Permutation.
Qed.
