(* ===== verification/IntervalTreeTheorems.v ===== *)
(** * The queries of the buffer interval tree, and its refinement of a multiset of intervals. *)

From Stdlib Require Import Sorted.
From stdpp Require Import sorting.
From S2P Require Import Prelude MachineInt IntervalTree IntervalTreeInv IntervalTreeOps.

(** ** BufferIntervalTree: the queries

    The two traversals call back exactly the nodes that are alive during the query
    interval, the second one in the order of their start times until the callback
    asks to stop.  From that follow the chunks, their number, the memory used at
    each time and the heap size. *)

#[local] Abbreviation Nodes := (list BufferIntervalTreeNode).

(** The nodes in the order in which the traversals visit them. *)
Fixpoint visit (s e : Z) (t : tree) : list nat :=
  match t with
  | Leaf => []
  | Nd l i v m r =>
      if m <? s then []
      else (if live_in s e v then [i] else []) ++ (if e <? iv_start v then [] else visit s e r) ++
           visit s e l
  end.

Fixpoint visit_sorted (s e : Z) (t : tree) : list nat :=
  match t with
  | Leaf => []
  | Nd l i v m r =>
      if m <? s then []
      else visit_sorted s e l ++ (if live_in s e v then [i] else []) ++
           (if e <? iv_start v then [] else visit_sorted s e r)
  end.

Definition nodes_at (ns : Nodes) (js : list nat) : Nodes := omap (fun i => ns !! i) js.

Lemma nodes_at_app ns js1 js2 : nodes_at ns (js1 ++ js2) = nodes_at ns js1 ++ nodes_at ns js2.
Proof. apply omap_app. Qed.

Lemma nodes_at_if ns (b : bool) i n :
  ns !! i = Some n -> nodes_at ns (if b then [i] else []) = if b then [n] else [].
Proof. intros Hi. destruct b; simpl; [by rewrite Hi|done]. Qed.

(** What the pruning leaves out is not alive. *)
Lemma filter_none (P : interval -> bool) l : Forall (fun v => P v = false) l -> filter P l = [].
Proof.
  induction 1 as [|v l Hv Hl IH]; [done|]. by rewrite filter_cons, Hv.
Qed.

Lemma pruned_end s e l i v m r :
  aug (Nd l i v m r) -> m < s -> filter (live_in s e) (vals (Nd l i v m r)) = [].
Proof.
  intros Ha Hm. apply filter_none, Forall_forall. intros w Hw.
  pose proof (aug_bound _ _ _ _ _ _ Ha Hw). unfold live_in. lia.
Qed.

Lemma pruned_start s e v t :
  e < iv_start v -> Forall (fun w => iv_start v <= iv_start w) (vals t) ->
  filter (live_in s e) (vals t) = [].
Proof.
  intros He HF. apply filter_none. eapply Forall_impl; [exact HF|]. intros w. unfold live_in. simpl. lia.
Qed.

Lemma visit_sorted_vals ns p s e t :
  shape ns p t -> bst t -> aug t ->
  node_interval <$> nodes_at ns (visit_sorted s e t) = filter (live_in s e) (vals t).
Proof.
  revert p. induction t as [|l IHl i v m r IHr]; intros p Hs Hb Ha; [done|]. cbn [visit_sorted].
  destruct (Z.ltb_spec m s) as [Hm|Hm]; [by rewrite (pruned_end _ _ _ _ _ _ _ Ha Hm)|].
  destruct Hs as (Hi & Hl & Hr), Hb as (Hbl & Hbr & Hbsl & Hbsr), Ha as (_ & Hal & Har).
  rewrite !nodes_at_app, !fmap_app, (IHl (Some i)) by done. cbn [vals].
  rewrite filter_app, filter_cons. f_equal.
  rewrite (nodes_at_if ns _ i _ Hi).
  assert (Hright : node_interval <$> nodes_at ns (if e <? iv_start v then [] else visit_sorted s e r)
                   = filter (live_in s e) (vals r)).
  { destruct (Z.ltb_spec e (iv_start v)) as [He|He]; [|by eapply IHr].
    by rewrite (pruned_start _ _ _ _ He Hbr). }
  rewrite Hright. destruct (live_in s e v) eqn:Ev; simpl.
  - by rewrite node_interval_of.
  - done.
Qed.

Lemma visit_perm s e t : visit s e t ≡ₚ visit_sorted s e t.
Proof.
  induction t as [|l IHl i v m r IHr]; simpl; [done|].
  destruct (m <? s); [done|]. destruct (e <? iv_start v); rewrite IHl, ?IHr; solve_Permutation.
Qed.

#[global] Instance nodes_at_Proper ns : Proper ((≡ₚ) ==> (≡ₚ)) (nodes_at ns).
Proof. intros l l' Hl. unfold nodes_at. by rewrite Hl. Qed.

Lemma visit_vals ns p s e t :
  shape ns p t -> bst t -> aug t ->
  node_interval <$> nodes_at ns (visit s e t) ≡ₚ filter (live_in s e) (vals t).
Proof. intros. by rewrite visit_perm, (visit_sorted_vals ns p). Qed.

(** ** ApplyToNodesOverlappingInTime *)

Definition total_size (ts : list tree) : nat := sum_list ((fun t => length (ids t)) <$> ts).

(** The stack after the children of a node are pushed. *)
Lemma push_child t (ts : list tree) :
  (if not_null (tptr t) then tptr t :: (tptr <$> ts) else tptr <$> ts) =
  tptr <$> (match t with Leaf => ts | _ => t :: ts end).
Proof. by destruct t. Qed.

Lemma concat_child {B} (f : tree -> list B) t ts :
  f Leaf = [] -> concat (f <$> (match t with Leaf => ts | _ => t :: ts end)) = f t ++ concat (f <$> ts).
Proof. intros Hf. destruct t; simpl; [by rewrite Hf|done]. Qed.

Definition stacked (ns : Nodes) (t : tree) : Prop := t <> Leaf /\ exists p, shape ns p t.

Lemma stacked_child ns p t ts :
  shape ns p t -> Forall (stacked ns) ts ->
  Forall (stacked ns) (match t with Leaf => ts | _ => t :: ts end).
Proof. intros Ht Hts. destruct t; [done|]. constructor; [|done]. split; [done|]. by exists p. Qed.

Lemma total_size_cons t ts : total_size (t :: ts) = (length (ids t) + total_size ts)%nat.
Proof. done. Qed.

Lemma total_size_child t ts :
  (total_size (match t with Leaf => ts | _ => t :: ts end) <= length (ids t) + total_size ts)%nat.
Proof. destruct t; [simpl; lia|]. by rewrite total_size_cons. Qed.

Section Loops.
Context {A : Type}.

Lemma ApplyToNodes_loop_ok fuel s e (fn : A -> BufferIntervalTreeNode -> outcome A) ts ns a :
  Forall (stacked ns) ts -> (total_size ts <= fuel)%nat ->
  ApplyToNodes_loop fuel s e fn (tptr <$> ts) ns a =
  foldM fn a (nodes_at ns (concat (visit s e <$> ts))).
Proof.
  revert ts a. induction fuel as [|fuel IH]; intros ts a HF Hf;
    (destruct ts as [|t ts]; [done|]); apply Forall_cons in HF as [[Ht [p Hs]] HF];
    (destruct t as [|l i v m r]; [done|]); rewrite total_size_cons in Hf; simpl in Hf;
    rewrite length_app in Hf; simpl in Hf; [lia|].
  destruct Hs as (Hi & Hl & Hr). cbn [fmap list_fmap tptr ApplyToNodes_loop concat visit].
  ptr_step. cbn [subtree_end node_of left_ right_ start end_].
  change (list_fmap tree ptr tptr ts) with (tptr <$> ts).
  change (list_fmap tree (list nat) (visit s e) ts) with (visit s e <$> ts).
  destruct (m <? s); [apply IH; [done|lia]|].
  rewrite push_child. set (ts1 := match l with Leaf => ts | _ => l :: ts end).
  assert (HF1 : Forall (stacked ns) ts1).
  { by eapply stacked_child. }
  pose proof (total_size_child l ts) as Hsz1. fold ts1 in Hsz1.
  assert (Hts1 : concat (visit s e <$> ts1) = visit s e l ++ concat (visit s e <$> ts))
    by (by apply concat_child).
  rewrite <- !app_assoc, nodes_at_app, (nodes_at_if ns _ i _ Hi), foldM_app.
  change ((iv_start v <=? e) && (s <=? iv_end v)) with (live_in s e v).
  replace (foldM fn a (if live_in s e v then [node_of l v m r p] else []))
    with (if live_in s e v then fn a (node_of l v m r p) else OK a)
    by (destruct (live_in s e v); simpl; [by destruct (fn a _)|done]).
  destruct (if live_in s e v then _ else _) as [a'| | |]; cbn [mbind outcome_bind]; try done.
  rewrite <- Hts1. destruct (e <? iv_start v); [apply IH; [done|lia]|].
  rewrite push_child, <- (concat_child (visit s e) r) by done. apply IH.
  - by eapply stacked_child.
  - pose proof (total_size_child r ts1). lia.
Qed.

(** ** ApplyToSortedNodesOverlapping *)

(** A fold that stops when the callback says so. *)
Fixpoint foldM_until (fn : A -> BufferIntervalTreeNode -> outcome (A * bool)) (a : A) (ns : Nodes) :
    outcome A :=
  match ns with
  | [] => OK a
  | n :: ns => '(a, stop) ← fn a n; if (stop : bool) then OK a else foldM_until fn a ns
  end.

(** What is still to be visited of a tree on the stack: all of it, or all but its
    left subtree. *)
Definition pending (s e : Z) (x : tree * bool) : list nat :=
  if x.2 then
    match x.1 with
    | Leaf => []
    | Nd l i v m r =>
        if m <? s then []
        else (if live_in s e v then [i] else []) ++ (if e <? iv_start v then [] else visit_sorted s e r)
    end
  else visit_sorted s e x.1.

Lemma pending_false s e l i v m r :
  pending s e (Nd l i v m r, false) =
  if m <? s then [] else visit_sorted s e l ++ pending s e (Nd l i v m r, true).
Proof. unfold pending. simpl. by destruct (m <? s). Qed.

(** The number of rounds that a tree on the stack takes at most. *)
Definition rounds (x : tree * bool) : nat :=
  if x.2 then match x.1 with Leaf => 0 | Nd _ _ _ _ r => 2 * length (ids r) + 1 end
  else 2 * length (ids x.1).

Lemma rounds_Nd l i v m r b : (2 * length (ids r) + 1 <= rounds (Nd l i v m r, b))%nat.
Proof. destruct b; unfold rounds; simpl; rewrite ?length_app; simpl; lia. Qed.

Lemma rounds_left l i v m r :
  (rounds (l, false) + rounds (Nd l i v m r, true) + 1 = rounds (Nd l i v m r, false))%nat.
Proof. unfold rounds. simpl. rewrite length_app. simpl. lia. Qed.

Definition entry (x : tree * bool) : ptr * bool := (tptr x.1, x.2).

Definition start_le (n n' : BufferIntervalTreeNode) : Prop := start n <= start n'.

(** The stack after a node is visited. *)
Definition after_node (e : Z) (v : interval) (r : tree) (st : list (tree * bool)) :=
  if e <? iv_start v then st else match r with Leaf => st | _ => (r, false) :: st end.

Lemma after_node_pending s e v r st :
  concat (pending s e <$> after_node e v r st) =
  (if e <? iv_start v then [] else visit_sorted s e r) ++ concat (pending s e <$> st).
Proof. unfold after_node. destruct (e <? iv_start v); [done|]. by destruct r. Qed.

Lemma after_node_rounds e v r st :
  (sum_list (rounds <$> after_node e v r st) <= 2 * length (ids r) + sum_list (rounds <$> st))%nat.
Proof.
  unfold after_node. destruct (e <? iv_start v); [lia|]. destruct r; [simpl; lia|].
  apply Nat.le_refl.
Qed.

Lemma after_node_stacked ns p e v r st :
  shape ns p r -> Forall (fun x => stacked ns x.1) st ->
  Forall (fun x => stacked ns x.1) (after_node e v r st).
Proof.
  intros Hr HF. unfold after_node. destruct (e <? iv_start v); [done|]. destruct r; [done|].
  constructor; [|done]. split; [done|]. by exists p.
Qed.

Lemma after_node_loop fuel s e fn v r st prev ns a :
  (if e <? iv_start v then ApplyToSorted_loop fuel s e fn (entry <$> st) prev ns a
   else ApplyToSorted_loop fuel s e fn
     (if not_null (tptr r) then (tptr r, false) :: (entry <$> st) else entry <$> st) prev ns a) =
  ApplyToSorted_loop (A := A) fuel s e fn (entry <$> after_node e v r st) prev ns a.
Proof. unfold after_node. destruct (e <? iv_start v); [done|]. by destruct r. Qed.

Lemma ApplyToSorted_loop_ok fuel s e (fn : A -> BufferIntervalTreeNode -> outcome (A * bool)) st ns
    prev a :
  let todo := nodes_at ns (concat (pending s e <$> st)) in
  Forall (fun x => stacked ns x.1) st -> (sum_list (rounds <$> st) <= fuel)%nat ->
  StronglySorted start_le todo -> Forall (fun n => prev <= start n) todo ->
  ApplyToSorted_loop fuel s e fn (entry <$> st) prev ns a = foldM_until fn a todo.
Proof.
  revert st prev a. induction fuel as [|fuel IH]; intros st prev a todo HF Hf Hsort Hprev;
    (destruct st as [|[t b] st]; [done|]); apply Forall_cons in HF as [[Ht [p Hs]] HF];
    (destruct t as [|l i v m r]; [done|]);
    change (sum_list (rounds <$> (Nd l i v m r, b) :: st))
      with (rounds (Nd l i v m r, b) + sum_list (rounds <$> st))%nat in Hf;
    pose proof (rounds_Nd l i v m r b); [lia|].
  pose proof Hs as (Hi & Hl & Hr). cbn [fmap list_fmap entry fst snd tptr ApplyToSorted_loop].
  ptr_step. cbn [subtree_end node_of left_ right_ start end_].
  subst todo. cbn [fmap list_fmap concat] in Hsort, Hprev |- *.
  change (list_fmap _ _ (pending s e) st) with (pending s e <$> st) in *.
  change (list_fmap _ _ entry st) with (entry <$> st).
  destruct (Z.ltb_spec m s) as [Hms|Hms].
  { assert (Ep : pending s e (Nd l i v m r, b) = []).
    { destruct b; unfold pending; simpl; by rewrite (proj2 (Z.ltb_lt m s)). }
    rewrite Ep in *. apply IH; [done|lia|done..]. }
  assert (Hp : pending s e (Nd l i v m r, true) =
    (if live_in s e v then [i] else []) ++ (if e <? iv_start v then [] else visit_sorted s e r)).
  { unfold pending. simpl. by rewrite (proj2 (Z.ltb_ge m s)). }
  destruct (negb b && not_null (tptr l)) eqn:Eb.
  { apply andb_true_iff in Eb as [->%negb_true_iff Enl].
    rewrite pending_false, (proj2 (Z.ltb_ge m s)), <- app_assoc in * by done.
    change ((tptr l, false) :: (Some i, true) :: (entry <$> st))
      with (entry <$> (l, false) :: (Nd l i v m r, true) :: st).
    apply (IH ((l, false) :: (Nd l i v m r, true) :: st) prev a); [|..|exact Hsort|exact Hprev].
    - constructor; [|by constructor; [split; [done|by exists p]|]].
      split; [by destruct l|by exists (Some i)].
    - rewrite <- rounds_left in Hf. 
      change (rounds (l, false) + (rounds (Nd l i v m r, true) + sum_list (rounds <$> st)) <= fuel)%nat.
      lia. }
  assert (Epend : pending s e (Nd l i v m r, b) = pending s e (Nd l i v m r, true)).
  { destruct b; [done|]. rewrite pending_false, (proj2 (Z.ltb_ge m s)) by done. by destruct l. }
  assert (Hrd : (2 * length (ids r) + sum_list (rounds <$> st) <= fuel)%nat).
  { lia. }
  rewrite Epend, Hp, <- app_assoc, <- after_node_pending, nodes_at_app, (nodes_at_if ns _ i _ Hi) in *.
  pose proof (after_node_rounds e v r st) as Hrd'.
  pose proof (after_node_stacked ns (Some i) e v r st Hr HF) as HF'.
  change ((iv_start v <=? e) && (s <=? iv_end v)) with (live_in s e v).
  destruct (live_in s e v); cbn [app] in *.
  - apply StronglySorted_inv in Hsort as [Hsort Hle]. apply Forall_cons in Hprev as [Hp0 _].
    cbn [start node_of] in Hp0. rewrite (proj2 (Z.leb_le prev (iv_start v))) by done.
    cbn [check mbind outcome_bind foldM_until].
    destruct (fn a (node_of l v m r p)) as [[a' stop]| | |]; cbn [mbind outcome_bind]; try done.
    destruct stop; [done|]. rewrite after_node_loop. by apply (IH (after_node e v r st)); [|lia|..].
  - cbn [mbind outcome_bind]. rewrite after_node_loop. by apply (IH (after_node e v r st)); [|lia|..].
Qed.
End Loops.

(** ** The queries of a represented tree *)

Lemma bst_sorted t : bst t -> StronglySorted (fun v w => iv_start v <= iv_start w) (vals t).
Proof.
  induction t as [|l IHl i v m r IHr]; simpl; [constructor|]. intros (Hl & Hr & Hbl & Hbr).
  apply StronglySorted_app_2; [|by apply IHl|constructor; [by apply IHr|done]].
  rewrite Forall_forall in Hl, Hr. intros x y Hx Hy%elem_of_cons. specialize (Hl x Hx).
  destruct Hy as [->|Hy]; [lia|]. specialize (Hr y Hy). lia.
Qed.

Lemma sorted_filter {B} (R : B -> B -> Prop) (P : B -> bool) l :
  StronglySorted R l -> StronglySorted R (filter P l).
Proof.
  induction 1 as [|x l Hs IH HF]; [constructor|]. rewrite filter_cons. destruct (decide _); [|done].
  constructor; [done|]. rewrite Forall_forall in *. intros y [_ Hy]%list_elem_of_filter. auto.
Qed.

Lemma sorted_nodes ns :
  StronglySorted (fun v w => iv_start v <= iv_start w) (node_interval <$> ns) ->
  StronglySorted start_le ns.
Proof.
  intros Hs. apply sorted_lookup_2. intros i j x y Hx Hy Hij.
  apply (sorted_lookup _ _ i j (node_interval x) (node_interval y) Hs Hij);
    by rewrite list_lookup_fmap, ?Hx, ?Hy.
Qed.

Lemma Apply_repr bt ivs s e :
  repr bt ivs ->
  exists nodes, node_interval <$> nodes ≡ₚ filter (live_in s e) ivs /\
    forall A (fn : A -> BufferIntervalTreeNode -> outcome A) a,
      ApplyToNodesOverlappingInTime s e fn bt a = foldM fn a nodes.
Proof.
  intros (t & p0 & ds & [Hroot Hsh Hd Hnd Hb Ha] & Hv).
  exists (nodes_at (node_storage_ bt) (visit s e t)). split.
  { rewrite (visit_vals _ p0) by done. by rewrite Hv. }
  intros A fn a. unfold ApplyToNodesOverlappingInTime. rewrite Hroot.
  destruct t as [|l i v m r]; [done|]. set (t := Nd l i v m r) in *. cbn [tptr t].
  change [Some i] with (tptr <$> [t]). rewrite ApplyToNodes_loop_ok.
  - simpl. by rewrite app_nil_r.
  - constructor; [|done]. split; [done|by exists p0].
  - rewrite total_size_cons, length_ids_vals. unfold total_size. simpl.
    pose proof (shape_size _ _ _ Hsh (proj1 (proj1 (NoDup_app _ _) Hnd))). simpl in *. lia.
Qed.

Lemma ApplySorted_repr bt ivs s e :
  repr bt ivs -> Forall (fun v => -1 <= iv_start v) ivs ->
  exists nodes, node_interval <$> nodes ≡ₚ filter (live_in s e) ivs /\ StronglySorted start_le nodes /\
    forall A (fn : A -> BufferIntervalTreeNode -> outcome (A * bool)) a,
      ApplyToSortedNodesOverlapping s e fn bt a = foldM_until fn a nodes.
Proof.
  intros (t & p0 & ds & [Hroot Hsh Hd Hnd Hb Ha] & Hv) Hge.
  set (nodes := nodes_at (node_storage_ bt) (visit_sorted s e t)).
  assert (Hvals : node_interval <$> nodes = filter (live_in s e) (vals t))
    by (by apply (visit_sorted_vals _ p0)).
  assert (Hsort : StronglySorted start_le nodes).
  { apply sorted_nodes. rewrite Hvals. by apply sorted_filter, bst_sorted. }
  exists nodes. split; [by rewrite Hvals, Hv|]. split; [done|].
  intros A fn a. unfold ApplyToSortedNodesOverlapping. rewrite Hroot.
  destruct t as [|l i v m r]; [done|]. set (t := Nd l i v m r) in *. cbn [tptr t].
  change [(Some i, false)] with (entry <$> [(t, false)]).
  replace nodes with (nodes_at (node_storage_ bt) (concat (pending s e <$> [(t, false)])))
    by (simpl; by rewrite app_nil_r).
  assert (Hn : nodes_at (node_storage_ bt) (concat (pending s e <$> [(t, false)])) = nodes)
    by (simpl; by rewrite app_nil_r).
  apply ApplyToSorted_loop_ok; rewrite ?Hn; try done.
  - constructor; [|done]. split; [done|by exists p0].
  - pose proof (shape_size _ _ _ Hsh (proj1 (proj1 (NoDup_app _ _) Hnd))) as Hsz.
    rewrite <- length_ids_vals in Hsz. change (2 * length (ids t) + 0 <= 2 * length (node_storage_ bt))%nat.
    lia.
  - apply Forall_forall. intros n Hn'. change (start n) with (iv_start (node_interval n)).
    assert (Hin : node_interval n ∈ node_interval <$> nodes) by (by apply list_elem_of_fmap_2).
    rewrite Hvals in Hin. apply list_elem_of_filter in Hin as [_ Hin].
    rewrite Hv in Hin. rewrite Forall_forall in Hge. by apply Hge.
Qed.

Lemma foldM_pure {A B} (f : A -> B -> A) (a : A) (l : list B) :
  foldM (fun a b => OK (f a b)) a l = OK (foldl f a l).
Proof. revert a. induction l as [|b l IH]; intros a; simpl; [done|apply IH]. Qed.

Lemma foldl_snoc_map {A B} (f : A -> B) l (a : list B) : foldl (fun r n => r ++ [f n]) a l = a ++ (f <$> l).
Proof.
  revert a. induction l as [|x l IH]; intros a; simpl; [by rewrite app_nil_r|].
  rewrite IH, <- app_assoc. done.
Qed.

Lemma NodesOverlapping_repr bt ivs s e :
  repr bt ivs ->
  exists nodes, NodesOverlappingInTime s e bt = OK nodes /\
    node_interval <$> nodes ≡ₚ filter (live_in s e) ivs.
Proof.
  intros HR. destruct (Apply_repr bt ivs s e HR) as (nodes & Hp & HA). exists nodes. split; [|done].
  unfold NodesOverlappingInTime. rewrite HA, foldM_pure.
  rewrite (foldl_snoc_map (fun n => n)). by rewrite list_fmap_id.
Qed.

Lemma ChunksOverlapping_repr bt ivs s e :
  repr bt ivs ->
  exists cs, ChunksOverlappingInTime s e bt = OK cs /\ cs ≡ₚ iv_chunk <$> filter (live_in s e) ivs.
Proof.
  intros HR. destruct (Apply_repr bt ivs s e HR) as (nodes & Hp & HA).
  exists (chunk <$> nodes). unfold ChunksOverlappingInTime.
  rewrite HA, foldM_pure, (foldl_snoc_map chunk). split; [done|].
  rewrite <- Hp. by rewrite <- list_fmap_compose.
Qed.

Lemma NumChunks_repr bt ivs s e :
  repr bt ivs -> NumChunksOverlappingInTime s e bt = OK (Zlen (filter (live_in s e) ivs)).
Proof.
  intros HR. destruct (Apply_repr bt ivs s e HR) as (nodes & Hp & HA).
  unfold NumChunksOverlappingInTime. rewrite HA, foldM_pure. f_equal.
  unfold Zlen. rewrite <- Hp, length_fmap.
  enough (Hf : forall a, foldl (fun r (_ : BufferIntervalTreeNode) => r + 1) a nodes
    = a + Z.of_nat (length nodes)) by (by rewrite Hf).
  clear. induction nodes as [|n nodes IH]; intros a; simpl; [lia|]. rewrite IH. lia.
Qed.

(** The largest end of the chunks, 0 if there is none. *)
Definition max_end (cs : list Chunk) : Z := foldr (fun c m => Z.max (chunk_end c) m) 0 cs.

#[global] Instance max_end_Proper : Proper ((≡ₚ) ==> (=)) max_end.
Proof.
  intros cs cs' Hp. unfold max_end. induction Hp; simpl; [done|by f_equal|lia|congruence].
Qed.

Lemma max_end_nonneg cs : 0 <= max_end cs.
Proof. induction cs as [|c cs IH]; simpl; lia. Qed.

Lemma foldl_max_end {B} (f : B -> Chunk) l a :
  0 <= a -> foldl (fun m n => Z.max m (chunk_end (f n))) a l = Z.max a (max_end (f <$> l)).
Proof.
  revert a. induction l as [|x l IH]; intros a Ha; simpl; [lia|]. rewrite IH by lia.
  change (list_fmap _ _ f l) with (f <$> l). lia.
Qed.

Lemma HeapSize_repr bt ivs s e :
  repr bt ivs -> s <= e ->
  HeapSizeInInterval s e bt = OK (max_end (iv_chunk <$> filter (live_in s e) ivs)).
Proof.
  intros HR Hse. destruct (NodesOverlapping_repr bt ivs s e HR) as (nodes & HN & Hp).
  unfold HeapSizeInInterval. rewrite (proj2 (Z.leb_le s e) Hse), HN. cbn [check mbind outcome_bind].
  f_equal. rewrite <- Hp, <- list_fmap_compose, foldl_max_end by lia.
  change (iv_chunk ∘ node_interval) with chunk. pose proof (max_end_nonneg (chunk <$> nodes)). lia.
Qed.

(** The memory used at a time: the sizes of the chunks alive then. *)
Definition used_at (ivs : list interval) (time : Z) : Z :=
  foldr Z.add 0 ((fun v => size (iv_chunk v)) <$> filter (live_in time time) ivs).

Lemma used_at_cons v ivs time :
  used_at (v :: ivs) time = (if live_in time time v then size (iv_chunk v) else 0) + used_at ivs time.
Proof. unfold used_at. rewrite filter_cons. by destruct (live_in time time v). Qed.

#[global] Instance used_at_Proper : Proper ((≡ₚ) ==> (=) ==> (=)) used_at.
Proof.
  intros l l' Hp time ? <-. induction Hp; rewrite ?used_at_cons; lia.
Qed.

(** Buffers that do not meet the query interval do not count in it. *)
Lemma used_at_filter s e ivs time :
  s <= time <= e -> used_at (filter (live_in s e) ivs) time = used_at ivs time.
Proof.
  intros Ht. induction ivs as [|v ivs IH]; [done|]. rewrite filter_cons, used_at_cons.
  destruct (live_in s e v) eqn:E; simpl; [by rewrite used_at_cons, IH|].
  rewrite IH. unfold live_in in *.
  destruct ((iv_start v <=? time) && (time <=? iv_end v)) eqn:E'; lia.
Qed.

(** The inner loop adds the size at the times [a], ..., [a + n - 1]. *)
Lemma add_memory_used_ok s c n mem a :
  is_i64 (Zlen mem) = true -> s <= a -> a + n <= s + Zlen mem ->
  exists mem', foldM (add_memory_used s c) mem (seqZ a n) = OK mem' /\ length mem' = length mem /\
    forall k x, mem !! k = Some x ->
      mem' !! k = Some (if (a <=? s + Z.of_nat k) && (s + Z.of_nat k <? a + n) then add64 x (size c) else x).
Proof.
  intros He. destruct (decide (0 <= n)) as [Hn|Hn].
  2: { intros _ _. unfold seqZ. replace (Z.to_nat n) with 0%nat by lia. exists mem. split; [done|].
       split; [done|]. intros k x Hk. rewrite Hk. f_equal. destruct (_ && _) eqn:E; [lia|done]. }
  revert mem a He. pattern n. apply natlike_ind; [| |done]; clear n Hn.
  { intros mem a _ _ _. exists mem. split; [done|]. split; [done|]. intros k x ->. f_equal.
    destruct (_ && _) eqn:E; [lia|done]. }
  intros n Hn IH mem a He Ha Hle. rewrite seqZ_cons by lia. rewrite Z.pred_succ.
  cbn [foldM].
  assert (Hk : sub64 a s = Z.of_nat (Z.to_nat (a - s))).
  { unfold sub64. rewrite i64_small; [lia|]. apply is_i64_spec. apply is_i64_spec in He.
    unfold two63 in *. lia. }
  unfold Zlen in *. set (k := Z.to_nat (a - s)) in *.
  destruct (lookup_lt_is_Some_2 mem k) as [x Hx]; [lia|].
  assert (E : add_memory_used s c mem a = OK (<[k := add64 x (size c)]> mem)).
  { unfold add_memory_used. rewrite Hk, (proj2 (at_OK mem _ x) (eq_trans (idx_of_nat mem k) Hx)).
    cbn [mbind outcome_bind]. apply set_at_OK. unfold Zlen. rewrite Nat2Z.id. split; [lia|done]. }
  rewrite E. cbn [mbind outcome_bind].
  destruct (IH (<[k := add64 x (size c)]> mem) (Z.succ a)) as (mem' & HF & Hlen & Hlk);
    [by rewrite length_insert|lia|rewrite length_insert; lia|].
  exists mem'. split; [done|]. rewrite length_insert in Hlen. split; [done|].
  intros j y Hj. destruct (decide (j = k)) as [->|Hjk].
  - rewrite (Hlk k (add64 x (size c))) by (apply list_lookup_insert_eq; lia). simplify_eq.
    destruct (Z.leb_spec (Z.succ a) (s + Z.of_nat k)); [lia|]. simpl.
    destruct (Z.leb_spec a (s + Z.of_nat k)), (Z.ltb_spec (s + Z.of_nat k) (a + Z.succ n)); simpl; first [done|lia].
  - rewrite (Hlk j y) by (by rewrite list_lookup_insert_ne). f_equal.
    assert (s + Z.of_nat j <> a) by (subst k; lia).
    replace (Z.succ a <=? s + Z.of_nat j) with (a <=? s + Z.of_nat j)
      by (apply Bool.eq_iff_eq_true; rewrite !Z.leb_le; lia).
    by replace (Z.succ a + n) with (a + Z.succ n) by lia.
Qed.

Lemma MemoryUsed_repr bt ivs s e :
  repr bt ivs -> s <= e + 1 -> is_i64 (e - s + 1) = true ->
  exists mem, MemoryUsedInInterval s e bt = OK mem /\ Zlen mem = e - s + 1 /\
    forall k m, mem !! k = Some m -> m = i64 (used_at ivs (s + Z.of_nat k)).
Proof.
  intros HR Hse Hlen. destruct (NodesOverlapping_repr bt ivs s e HR) as (nodes & HN & Hp).
  unfold MemoryUsedInInterval. rewrite HN. unfold sub64. rewrite add64_i64, i64_small by done.
  rewrite (proj2 (Z.leb_le 0 _)) by lia. cbn [check mbind outcome_bind].
  destruct (foldM_total (fun l mem => Zlen mem = e - s + 1 /\
      forall k m, mem !! k = Some m -> m = i64 (used_at (node_interval <$> l) (s + Z.of_nat k)))
    (fun memory node => foldM (add_memory_used s (chunk node)) memory
      (seqZ (Z.max (start node) s) (Z.min (end_ node) e - Z.max (start node) s + 1)))
    nodes (replicate (Z.to_nat (e - s + 1)) 0)) as (mem & HF & Hl & Hk).
  - split; [unfold Zlen; rewrite length_replicate; lia|]. by intros k m [-> _]%lookup_replicate.
  - intros l1 n l2 mem Hsp (Hl & Hk).
    assert (Hlive : live_in s e (node_interval n) = true).
    { assert (Hin : node_interval n ∈ node_interval <$> nodes).
      { apply list_elem_of_fmap_2. rewrite Hsp. apply elem_of_app. right. left. }
      rewrite Hp in Hin. apply list_elem_of_filter in Hin as [Hlv _]. by apply Is_true_true. }
    unfold live_in in Hlive. simpl in Hlive.
    destruct (add_memory_used_ok s (chunk n) (Z.min (end_ n) e - Z.max (start n) s + 1) mem
      (Z.max (start n) s)) as (mem' & HF & Hl' & Hk'); [by rewrite Hl|lia|..]. { rewrite Hl. lia. }
    exists mem'. split; [done|]. unfold Zlen in *. split; [lia|].
    intros k m Hm. destruct (lookup_lt_is_Some_2 mem k) as [x Hx].
    { rewrite <- Hl'. by eapply lookup_lt_Some. }
    rewrite (Hk' k x Hx) in Hm. injection Hm as <-. rewrite (Hk k x Hx), fmap_app.
    change (node_interval <$> [n]) with [node_interval n].
    rewrite <- Permutation_cons_append, used_at_cons.
    apply lookup_lt_Some in Hx. set (time := s + Z.of_nat k).
    assert (Et : (Z.max (start n) s <=? time) &&
      (time <? Z.max (start n) s + (Z.min (end_ n) e - Z.max (start n) s + 1)) =
      live_in time time (node_interval n)) by (unfold live_in; simpl; lia).
    rewrite Et. destruct (live_in time time (node_interval n)); [|done].
    by rewrite add64_i64, Z.add_comm.
  - exists mem. split; [done|]. split; [done|]. intros k m Hm. rewrite (Hk k m Hm), Hp.
    rewrite used_at_filter; [done|]. apply lookup_lt_Some in Hm. unfold Zlen in Hl. lia.
Qed.

(** ** BufferIntervalTree: theorems

    The specification of the interval tree is a multiset of intervals, and its
    operations are [spec_step].  The pointer structure refines it over every
    sequence of calls; the traversals and the memory profile are exact. *)

(** ** The specification *)

Inductive op :=
  | OpAdd (s e : Z) (c : Chunk)
  | OpRemove (s e : Z) (c : Chunk)
  | OpClear.

Definition matches (s e : Z) (c : Chunk) (v : interval) : Prop :=
  iv_start v = s /\ iv_end v = e /\ offset (iv_chunk v) = offset c.

(** Removal takes out one interval with the given times and offset, if there is
    one, and returns whether there was. *)
Inductive spec_step (ivs : list interval) : op -> list interval -> bool -> Prop :=
  | spec_add s e c : spec_step ivs (OpAdd s e c) (mkInterval s e c :: ivs) true
  | spec_remove s e c v ivs' :
      ivs ≡ₚ v :: ivs' -> matches s e c v -> spec_step ivs (OpRemove s e c) ivs' true
  | spec_remove_none s e c :
      Forall (fun v => ~ matches s e c v) ivs -> spec_step ivs (OpRemove s e c) ivs false
  | spec_clear : spec_step ivs OpClear [] true.

Inductive spec_run : list interval -> list op -> list interval -> list bool -> Prop :=
  | run_nil ivs : spec_run ivs [] ivs []
  | run_cons ivs o ivs1 b ops ivs2 bs :
      spec_step ivs o ivs1 b -> spec_run ivs1 ops ivs2 bs -> spec_run ivs (o :: ops) ivs2 (b :: bs).

(** ** The calls on the pointer structure *)

Definition call (t : BufferIntervalTree) (o : op) : outcome (BufferIntervalTree * bool) :=
  match o with
  | OpAdd s e c => t ← Add s e c t; OK (t, true)
  | OpRemove s e c => Remove s e c t
  | OpClear => OK (Clear t, true)
  end.

Fixpoint calls (t : BufferIntervalTree) (ops : list op) : outcome (BufferIntervalTree * list bool) :=
  match ops with
  | [] => OK (t, [])
  | o :: ops => '(t, b) ← call t o; '(t, bs) ← calls t ops; OK (t, b :: bs)
  end.

Lemma call_refines bt ivs o :
  repr bt ivs -> exists bt' b ivs', call bt o = OK (bt', b) /\ spec_step ivs o ivs' b /\ repr bt' ivs'.
Proof.
  intros HR. destruct o as [s e c|s e c|]; cbn [call].
  - destruct (Add_repr bt ivs s e c HR) as (bt' & -> & HR'). cbn [mbind outcome_bind].
    eexists _, _, _. split; [done|]. split; [constructor|done].
  - destruct (Remove_repr bt ivs s e c HR) as (bt' & b & -> & H). exists bt', b. destruct b.
    + destruct H as (v & ivs' & Hp & ? & ? & ? & HR'). exists ivs'. split; [done|]. split; [|done].
      by apply spec_remove with v.
    + destruct H as [-> HF]. exists ivs. split; [done|]. split; [|done]. by constructor.
  - eexists _, _, _. split; [done|]. split; [constructor|]. apply repr_empty.
Qed.

Lemma calls_refine bt ivs ops :
  repr bt ivs ->
  exists bt' bs ivs', calls bt ops = OK (bt', bs) /\ spec_run ivs ops ivs' bs /\ repr bt' ivs'.
Proof.
  revert bt ivs. induction ops as [|o ops IH]; intros bt ivs HR; cbn [calls].
  { exists bt, [], ivs. split; [done|]. split; [constructor|done]. }
  destruct (call_refines bt ivs o HR) as (bt1 & b & ivs1 & -> & Hs & HR1). cbn [mbind outcome_bind].
  destruct (IH bt1 ivs1 HR1) as (bt2 & bs & ivs2 & -> & Hr & HR2). cbn [mbind outcome_bind].
  exists bt2, (b :: bs), ivs2. split; [done|]. split; [|done]. by econstructor.
Qed.

(** C20: The interval tree refines a multiset of intervals: every sequence of
    calls of Add, Remove and Clear on a new tree returns, its results are those of
    a run of the specification, and after it the number of chunks alive during
    any time is that of the specification. *)
Theorem interval_tree_refines ops :
  exists bt bs ivs, calls tree_empty ops = OK (bt, bs) /\ spec_run [] ops ivs bs /\
    forall s e, NumChunksOverlappingInTime s e bt = OK (Zlen (filter (live_in s e) ivs)).
Proof.
  destruct (calls_refine tree_empty [] ops repr_empty) as (bt & bs & ivs & Hc & Hr & HR).
  exists bt, bs, ivs. split; [done|]. split; [done|]. intros s e. by apply NumChunks_repr.
Qed.

(** Both traversals of a tree that any calls have built visit exactly the
    intervals alive during the query, each once; ApplyToSortedNodesOverlapping
    visits them by start time until the callback asks to stop, and its CHECK on
    the order never fails when no interval starts before -1. *)
Lemma traversals_exact ops bt bs s e :
  calls tree_empty ops = OK (bt, bs) ->
  exists ivs, spec_run [] ops ivs bs /\
    (exists nodes, node_interval <$> nodes ≡ₚ filter (live_in s e) ivs /\
      forall A (fn : A -> BufferIntervalTreeNode -> outcome A) a,
        ApplyToNodesOverlappingInTime s e fn bt a = foldM fn a nodes) /\
    (Forall (fun v => -1 <= iv_start v) ivs ->
     exists nodes, node_interval <$> nodes ≡ₚ filter (live_in s e) ivs /\
      StronglySorted (fun n n' => start n <= start n') nodes /\
      forall A (fn : A -> BufferIntervalTreeNode -> outcome (A * bool)) a,
        ApplyToSortedNodesOverlapping s e fn bt a = foldM_until fn a nodes).
Proof.
  intros Hc. destruct (calls_refine tree_empty [] ops repr_empty) as (bt' & bs' & ivs & Hc' & Hr & HR).
  rewrite Hc in Hc'. injection Hc' as <- <-. exists ivs. split; [done|]. split.
  - by apply Apply_repr.
  - intros Hge. by apply ApplySorted_repr.
Qed.

(** MemoryUsedInInterval returns one number per time of the interval, the sum
    modulo 2^64 of the sizes of the chunks alive at that time; HeapSizeInInterval
    returns the largest end of a chunk alive during the interval. *)
Lemma memory_profile_exact ops bt bs s e :
  calls tree_empty ops = OK (bt, bs) -> s <= e -> is_i64 (e - s + 1) = true ->
  exists ivs mem, spec_run [] ops ivs bs /\
    MemoryUsedInInterval s e bt = OK mem /\ Zlen mem = e - s + 1 /\
    (forall k m, mem !! k = Some m -> m = i64 (used_at ivs (s + Z.of_nat k))) /\
    HeapSizeInInterval s e bt = OK (max_end (iv_chunk <$> filter (live_in s e) ivs)).
Proof.
  intros Hc Hse Hlen.
  destruct (calls_refine tree_empty [] ops repr_empty) as (bt' & bs' & ivs & Hc' & Hr & HR).
  rewrite Hc in Hc'. injection Hc' as <- <-.
  destruct (MemoryUsed_repr bt ivs s e HR) as (mem & Hm & Hl & Hk); [lia|done|].
  exists ivs, mem. split_and!; [done..|]. by apply HeapSize_repr.
Qed.

(** ** Witnesses

    A tree from which a node with two children and the root have been removed. *)

Definition demo_ops : list op :=
  [OpAdd 5 9 (mkChunk 0 16); OpAdd 2 6 (mkChunk 16 8); OpAdd 7 8 (mkChunk 24 4);
   OpAdd 6 12 (mkChunk 32 4); OpRemove 5 9 (mkChunk 0 16); OpRemove 1 1 (mkChunk 0 0)].

Definition demo_result : BufferIntervalTree * list bool :=
  match calls tree_empty demo_ops with OK x => x | _ => (tree_empty, []) end.

Lemma traversals_exact_witness :
  exists ivs, spec_run [] demo_ops ivs demo_result.2 /\
    (exists nodes, node_interval <$> nodes ≡ₚ filter (live_in 6 7) ivs /\
      forall A (fn : A -> BufferIntervalTreeNode -> outcome A) a,
        ApplyToNodesOverlappingInTime 6 7 fn demo_result.1 a = foldM fn a nodes) /\
    (Forall (fun v => -1 <= iv_start v) ivs ->
     exists nodes, node_interval <$> nodes ≡ₚ filter (live_in 6 7) ivs /\
      StronglySorted (fun n n' => start n <= start n') nodes /\
      forall A (fn : A -> BufferIntervalTreeNode -> outcome (A * bool)) a,
        ApplyToSortedNodesOverlapping 6 7 fn demo_result.1 a = foldM_until fn a nodes).
Proof. apply (traversals_exact demo_ops demo_result.1 demo_result.2 6 7). vm_compute. reflexivity. Defined.

Lemma memory_profile_exact_witness :
  exists ivs mem, spec_run [] demo_ops ivs demo_result.2 /\
    MemoryUsedInInterval 1 13 demo_result.1 = OK mem /\ Zlen mem = 13 - 1 + 1 /\
    (forall k m, mem !! k = Some m -> m = i64 (used_at ivs (1 + Z.of_nat k))) /\
    HeapSizeInInterval 1 13 demo_result.1 = OK (max_end (iv_chunk <$> filter (live_in 1 13) ivs)).
Proof.
  apply (memory_profile_exact demo_ops demo_result.1 demo_result.2 1 13);
    [vm_compute; reflexivity|lia|reflexivity].
Defined.

Example demo_profile :
  MemoryUsedInInterval 1 13 demo_result.1 = OK [0; 8; 8; 8; 8; 12; 8; 8; 4; 4; 4; 4; 0] /\
  demo_result.2 = [true; true; true; true; true; false].
Proof. split; vm_compute; reflexivity. Qed.
