(* ===== verification/SlicePermutation.v ===== *)
(** * Permutations of slice times, data and operations

    xla/service/heap_simulator/heap_simulator.cc, lines 1206 to 1776: in which order
    the slices of a buffer may be placed.  An iterator produces permutations of the
    slice times 0, ..., n-1: all of them, or three preferred ones; a composed
    iterator leaves out those that a repacking forbids and those equivalent to an
    earlier one.  AllocatedSlice and SlicedAllocationData are those of
    allocation_block.{h,cc}.

    The abstract class SliceTimePermutationIterator is the type class of that name;
    its instances are the iterators.  An iterator is a value, a method returns the
    changed one.  [Bound] is not a method of the code: it is the fuel for loops over
    the iterator. *)

From stdpp Require Import sorting.
From S2P Require Import Prelude.

(** ** Slices *)

Record AllocatedSlice := mkSlice {
  slice_size : Z;
  slice_offset : Z;
  inclusive_start_time : Z;
}.

Record SlicedAllocationData := mkSliced {
  slices_sorted_by_offset : list AllocatedSlice;
}.

Definition num_slices (d : SlicedAllocationData) : Z := Zlen (slices_sorted_by_offset d).
Definition SizesSortedByOffset (d : SlicedAllocationData) : list Z :=
  slice_size <$> slices_sorted_by_offset d.
Definition c_sort (l : list Z) : list Z := merge_sort Z.le l.
Definition SortedInclusiveStartTimes (d : SlicedAllocationData) : list Z :=
  c_sort (inclusive_start_time <$> slices_sorted_by_offset d).

(** The order of pairs. *)
Definition pair_le (p q : Z * Z) : Prop := p.1 < q.1 \/ p.1 = q.1 /\ p.2 <= q.2.
#[global] Instance pair_le_dec : RelDecision pair_le.
Proof. unfold pair_le. intros p q. apply _. Defined.
Definition c_sort_pairs (l : list (Z * Z)) : list (Z * Z) := merge_sort pair_le l.

(** ** SliceTimePermutationValidator *)

Record SliceTimePermutationValidator := mkValidator {
  original_num_slices_ : Z;
  slice_time_to_inclusive_schedule_time_ : list Z;
  original_slice_sizes_and_start_times_pairwise_sorted_ : list (Z * Z);
  sizes_sorted_by_offset_ : list Z;
}.

Definition new_validator (original_slices : option SlicedAllocationData) :
    SliceTimePermutationValidator :=
  match original_slices with
  | None => mkValidator 0 [] [] []
  | Some o =>
      if num_slices o <=? 0 then mkValidator (num_slices o) [] [] []
      else mkValidator (num_slices o) (c_sort (SortedInclusiveStartTimes o))
             (c_sort_pairs ((fun s => (slice_size s, inclusive_start_time s)) <$>
                            slices_sorted_by_offset o))
             (SizesSortedByOffset o)
  end.

Definition IsValid (v : SliceTimePermutationValidator) (permutation : list Z) : outcome bool :=
  if original_num_slices_ v <=? 0 then OK true
  else
    _ ← check (Zlen (sizes_sorted_by_offset_ v) =? original_num_slices_ v);
    _ ← check (Zlen permutation =? original_num_slices_ v);
    proposed ← mapM (fun i =>
        size ← at_ (sizes_sorted_by_offset_ v) i;
        slice_time ← at_ permutation i;
        time ← at_ (slice_time_to_inclusive_schedule_time_ v) slice_time;
        OK (size, time)) (seqZ 0 (original_num_slices_ v));
    OK (bool_decide (original_slice_sizes_and_start_times_pairwise_sorted_ v = c_sort_pairs proposed)).

(** ** ObservedPermutationManager *)

Record ObservedPermutationManager := mkObserved {
  slice_time_to_inclusive_start_time_ : list Z;
  observed_inclusive_start_time_permutation_ : list (list Z);
}.

Definition new_observed (inclusive_start_times : list Z) : ObservedPermutationManager :=
  mkObserved (c_sort inclusive_start_times) [].

Definition start_times (m : ObservedPermutationManager) (permutation : list Z) : outcome (list Z) :=
  mapM (at_ (slice_time_to_inclusive_start_time_ m)) permutation.

Definition Observed_Insert (m : ObservedPermutationManager) (permutation : list Z) :
    outcome (bool * ObservedPermutationManager) :=
  times ← start_times m permutation;
  let seen := observed_inclusive_start_time_permutation_ m in
  OK (if decide (times ∈ seen) then (false, m)
      else (true, mkObserved (slice_time_to_inclusive_start_time_ m) (times :: seen))).

Definition Observed_Clear (m : ObservedPermutationManager) : ObservedPermutationManager :=
  mkObserved (slice_time_to_inclusive_start_time_ m) [].

(** ** SliceTimePermutationIterator *)

Class SliceTimePermutationIterator (It : Type) := {
  Begin : It -> outcome It;
  Done : It -> bool;
  Next : It -> outcome It;
  Get : It -> list Z;
  Bound : It -> nat;
}.

(** ** SliceTimeAllPermutationIterator *)

(** std::next_permutation: the lexicographic successor.  The tail is advanced if it
    has a successor; otherwise it is descending, its smallest element greater than
    the head becomes the head and the rest is put in ascending order. *)
Fixpoint replace_greater (x : Z) (l : list Z) : option (Z * list Z) :=
  match l with
  | [] => None
  | y :: l =>
      if x <? y then Some (y, x :: l)
      else '(z, l') ← replace_greater x l; Some (z, y :: l')
  end.

Fixpoint next_permutation_opt (l : list Z) : option (list Z) :=
  match l with
  | [] => None
  | x :: l =>
      match next_permutation_opt l with
      | Some l' => Some (x :: l')
      | None => '(y, l') ← replace_greater x (rev l); Some (y :: l')
      end
  end.

(** It returns false, and the elements in ascending order, at the last one. *)
Definition next_permutation (l : list Z) : list Z * bool :=
  match next_permutation_opt l with Some l' => (l', true) | None => (rev l, false) end.

Record SliceTimeAllPermutationIterator := mkAll {
  all_num_slices_ : Z;
  all_done_ : bool;
  all_permutation_ : list Z;
}.

Definition new_All (num_slices : Z) : SliceTimeAllPermutationIterator :=
  mkAll num_slices true (replicate (Z.to_nat num_slices) 0).

Definition All_Begin (it : SliceTimeAllPermutationIterator) : outcome SliceTimeAllPermutationIterator :=
  permutation ← foldM (fun p i => set_at p i i) (all_permutation_ it) (seqZ 0 (all_num_slices_ it));
  OK (mkAll (all_num_slices_ it) (all_num_slices_ it <=? 0) permutation).

Definition All_Next (it : SliceTimeAllPermutationIterator) : outcome SliceTimeAllPermutationIterator :=
  if all_done_ it then OK it
  else
    let '(permutation, more) := next_permutation (all_permutation_ it) in
    OK (mkAll (all_num_slices_ it) (negb more) permutation).

(** There are at most n^n lists of n numbers below n. *)
Definition self_power (n : Z) : nat := Nat.pow (Z.to_nat n) (Z.to_nat n).

#[global] Instance All_iterator : SliceTimePermutationIterator SliceTimeAllPermutationIterator := {
  Begin := All_Begin;
  Done := all_done_;
  Next := All_Next;
  Get := all_permutation_;
  Bound it := S (self_power (all_num_slices_ it));
}.

(** ** SliceTimePreferredPermutationIterator *)

Inductive PermutationType :=
  | kUninitialized
  | kSmallerOffsetSmallerSliceTime
  | kSmallerOffsetLargerSliceTime
  | kDistributeSmallSliceTimesAroundMiddleOffset
  | kDone.

#[global] Instance PermutationType_eq_dec : EqDecision PermutationType.
Proof. solve_decision. Defined.

Definition is_kDone (t : PermutationType) : bool := match t with kDone => true | _ => false end.

Record SliceTimePreferredPermutationIterator := mkPreferred {
  num_slices_ : Z;
  fixed_permutation_values_ : list bool;
  slice_times_available_for_permutation_ : list Z;
  permutation_type_ : PermutationType;
  permutation_ : list Z;
}.

(** The slices, by index, in the order of their start times and then offsets: a
    slice's position is its slice time. *)
Definition slice_before (o : list AllocatedSlice) (i j : nat) : Prop :=
  match o !! i, o !! j with
  | Some s, Some t => pair_le (inclusive_start_time s, slice_offset s)
                              (inclusive_start_time t, slice_offset t)
  | _, _ => True
  end.
#[global] Instance slice_before_dec o : RelDecision (slice_before o).
Proof. intros i j. unfold slice_before. destruct (o !! i), (o !! j); apply _. Defined.

Definition BuildSliceToSliceTimeMap (o : list AllocatedSlice) : list nat :=
  merge_sort (slice_before o) (seq 0 (length o)).

(** [slice_to_slice_time_map[&slice]]: a missing key gets the value 0. *)
Definition slice_time_of (slice_time_to_slice : list nat) (i : nat) : Z :=
  match list_find (i =.) slice_time_to_slice with Some (t, _) => Z.of_nat t | None => 0 end.

(** One round of the constructor's loop over the offsets. *)
Definition fix_slice (o : list AllocatedSlice) (times : list nat)
    (x : list bool * list Z * list Z) (offset_index : Z) : outcome (list bool * list Z * list Z) :=
  let '(fixed, available, permutation) := x in
  first_slice ← at_ o 0;
  slice ← at_ o offset_index;
  let time := slice_time_of times (Z.to_nat offset_index) in
  if negb (slice_size slice =? slice_size first_slice) then
    fixed ← set_at fixed offset_index true;
    permutation ← set_at permutation offset_index time;
    OK (fixed, available, permutation)
  else OK (fixed, available ++ [time], permutation).

Definition new_Preferred (num_slices : Z) (original_sliced_allocation : option SlicedAllocationData) :
    outcome SliceTimePreferredPermutationIterator :=
  let n := Z.to_nat num_slices in
  match original_sliced_allocation with
  | None =>
      OK (mkPreferred num_slices (replicate n false) (seqZ 0 num_slices) kUninitialized (replicate n 0))
  | Some d =>
      let o := slices_sorted_by_offset d in
      '(fixed, available, permutation) ←
        foldM (fix_slice o (BuildSliceToSliceTimeMap o)) (replicate n false, [], replicate n 0)
          (seqZ 0 num_slices);
      OK (mkPreferred num_slices fixed (c_sort available) kUninitialized permutation)
  end.

Definition NextPermutationType (num_slices : Z) (ty : PermutationType) : PermutationType :=
  match ty with
  | kUninitialized => if num_slices <=? 0 then kDone else kSmallerOffsetSmallerSliceTime
  | kSmallerOffsetSmallerSliceTime =>
      if num_slices <=? 1 then kDone else kSmallerOffsetLargerSliceTime
  | kSmallerOffsetLargerSliceTime =>
      if num_slices <=? 2 then kDone else kDistributeSmallSliceTimesAroundMiddleOffset
  | kDistributeSmallSliceTimesAroundMiddleOffset | kDone => kDone
  end.

(** The first index from [k] on whose value is not fixed, or the length. *)
Fixpoint skip_fixed (fixed : list bool) (k : Z) : Z :=
  match fixed with
  | true :: fixed => skip_fixed fixed (k + 1)
  | _ => k
  end.
Definition NextAvailablePermutationIndex (fixed : list bool) (permutation_index : Z) : Z :=
  skip_fixed (drop (Z.to_nat (permutation_index + 1)) fixed) (permutation_index + 1).

Definition IsOdd (x : Z) : bool := Z.rem x 2 =? 1.
Definition IsEven (x : Z) : bool := Z.rem x 2 =? 0.

(** Whether the descending and the ascending loop place the [i]-th available time. *)
Definition descending (ty : PermutationType) (i : Z) : bool :=
  match ty with
  | kSmallerOffsetLargerSliceTime => true
  | kDistributeSmallSliceTimesAroundMiddleOffset => IsOdd i
  | _ => false
  end.
Definition ascending (ty : PermutationType) (i : Z) : bool :=
  match ty with
  | kSmallerOffsetSmallerSliceTime => true
  | kDistributeSmallSliceTimesAroundMiddleOffset => IsEven i
  | _ => false
  end.

(** [permutation_[permutation_index] = ...[i]], and on to the next free index. *)
Definition place (it : SliceTimePreferredPermutationIterator) (x : Z * list Z) (i : Z) :
    outcome (Z * list Z) :=
  let '(permutation_index, permutation) := x in
  _ ← check (permutation_index <? Zlen permutation);
  v ← at_ (slice_times_available_for_permutation_ it) i;
  permutation ← set_at permutation permutation_index v;
  OK (NextAvailablePermutationIndex (fixed_permutation_values_ it) permutation_index, permutation).

Definition place_if (f : Z -> bool) (it : SliceTimePreferredPermutationIterator)
    (x : Z * list Z) (i : Z) : outcome (Z * list Z) :=
  if f i then place it x i else OK x.

Definition SetUpPermutationForCurrentType (it : SliceTimePreferredPermutationIterator) :
    outcome SliceTimePreferredPermutationIterator :=
  let ty := permutation_type_ it in
  _ ← check (match ty with kUninitialized => false | _ => true end);
  if is_kDone ty then OK it
  else
    let js := indices (slice_times_available_for_permutation_ it) in
    let permutation_index := NextAvailablePermutationIndex (fixed_permutation_values_ it) (-1) in
    x ← foldM (place_if (descending ty) it) (permutation_index, permutation_ it) (rev js);
    '(permutation_index, permutation) ← foldM (place_if (ascending ty) it) x js;
    _ ← check (permutation_index =? Zlen permutation);
    OK (mkPreferred (num_slices_ it) (fixed_permutation_values_ it)
          (slice_times_available_for_permutation_ it) ty permutation).

Definition set_permutation_type (ty : PermutationType) (it : SliceTimePreferredPermutationIterator) :=
  mkPreferred (num_slices_ it) (fixed_permutation_values_ it)
    (slice_times_available_for_permutation_ it) ty (permutation_ it).

Definition Preferred_Begin (it : SliceTimePreferredPermutationIterator) :=
  SetUpPermutationForCurrentType
    (set_permutation_type (NextPermutationType (num_slices_ it) kUninitialized) it).
Definition Preferred_Next (it : SliceTimePreferredPermutationIterator) :=
  SetUpPermutationForCurrentType
    (set_permutation_type (NextPermutationType (num_slices_ it) (permutation_type_ it)) it).

#[global] Instance Preferred_iterator :
    SliceTimePermutationIterator SliceTimePreferredPermutationIterator := {
  Begin := Preferred_Begin;
  Done it := is_kDone (permutation_type_ it);
  Next := Preferred_Next;
  Get := permutation_;
  Bound _ := 4%nat;
}.

(** ** ComposedSliceTimePermutationIterator *)

Section Composed.
Context {It : Type} `{SliceTimePermutationIterator It}.

Record ComposedSliceTimePermutationIterator := mkComposed {
  validator_ : SliceTimePermutationValidator;
  seen_ : ObservedPermutationManager;
  base_iterator_ : It;
}.

(** [!validator_.IsValid(Get()) || !seen_.Insert(Get())], with the changed [seen_]. *)
Definition skipped (v : SliceTimePermutationValidator) (seen : ObservedPermutationManager) (base : It) :
    outcome (bool * ObservedPermutationManager) :=
  valid ← IsValid v (Get base);
  if (valid : bool) then
    '(inserted, seen) ← Observed_Insert seen (Get base);
    OK (negb inserted, seen)
  else OK (true, seen).

Fixpoint advance (fuel : nat) (v : SliceTimePermutationValidator) (seen : ObservedPermutationManager)
    (base : It) : outcome (ObservedPermutationManager * It) :=
  if Done base then OK (seen, base)
  else
    match fuel with
    | O => NoFuel
    | S fuel =>
        '(skip, seen) ← skipped v seen base;
        if (skip : bool) then base ← Next base; advance fuel v seen base
        else OK (seen, base)
    end.

Definition NextImpl (initialize : bool) (it : ComposedSliceTimePermutationIterator) :
    outcome ComposedSliceTimePermutationIterator :=
  it ← (if initialize then
          base ← Begin (base_iterator_ it);
          OK (mkComposed (validator_ it) (Observed_Clear (seen_ it)) base)
        else OK it);
  if Done (base_iterator_ it) then OK it
  else
    base ← (if initialize then OK (base_iterator_ it) else Next (base_iterator_ it));
    '(seen, base) ← advance (Bound base) (validator_ it) (seen_ it) base;
    OK (mkComposed (validator_ it) seen base).

End Composed.
Arguments ComposedSliceTimePermutationIterator It : clear implicits.
Arguments mkComposed {It}.

#[global] Instance Composed_iterator `{SliceTimePermutationIterator It} :
    SliceTimePermutationIterator (ComposedSliceTimePermutationIterator It) := {
  Begin := NextImpl true;
  Done it := Done (base_iterator_ it);
  Next := NextImpl false;
  Get it := Get (base_iterator_ it);
  Bound it := Bound (base_iterator_ it);
}.

(** ** Creation

    The base iterator of a composed one is of either type. *)

Inductive Ty := kAll | kPreferred.

Inductive BaseIterator :=
  | base_all (it : SliceTimeAllPermutationIterator)
  | base_preferred (it : SliceTimePreferredPermutationIterator).

#[global] Instance Base_iterator : SliceTimePermutationIterator BaseIterator := {
  Begin it := match it with
    | base_all it => it ← Begin it; OK (base_all it)
    | base_preferred it => it ← Begin it; OK (base_preferred it) end;
  Done it := match it with base_all it => Done it | base_preferred it => Done it end;
  Next it := match it with
    | base_all it => it ← Next it; OK (base_all it)
    | base_preferred it => it ← Next it; OK (base_preferred it) end;
  Get it := match it with base_all it => Get it | base_preferred it => Get it end;
  Bound it := match it with base_all it => Bound it | base_preferred it => Bound it end;
}.

Definition PermutationIterator : Type := ComposedSliceTimePermutationIterator BaseIterator.

Definition new_base (ty : Ty) (num_slices : Z) (original : option SlicedAllocationData) :
    outcome BaseIterator :=
  match ty with
  | kAll => OK (base_all (new_All num_slices))
  | kPreferred => it ← new_Preferred num_slices original; OK (base_preferred it)
  end.

Definition CreateForNewAllocation (ty : Ty) (inclusive_slice_start_times : list Z) :
    outcome PermutationIterator :=
  base ← new_base ty (Zlen inclusive_slice_start_times) None;
  OK (mkComposed (new_validator None) (new_observed inclusive_slice_start_times) base).

(** An allocation without slice data is repacked as a single slice. *)
Definition CreateForRepack (ty : Ty) (original_sliced_allocation : option SlicedAllocationData) :
    outcome PermutationIterator :=
  let n := match original_sliced_allocation with Some o => num_slices o | None => 1 end in
  let inclusive_start_times :=
    match original_sliced_allocation with Some o => SortedInclusiveStartTimes o | None => [0] end in
  base ← new_base ty n original_sliced_allocation;
  OK (mkComposed (new_validator original_sliced_allocation) (new_observed inclusive_start_times) base).

(** ** Enumeration

    What a client's [for (Begin(); !Done(); Next())] sees. *)

Fixpoint enumerate_from `{SliceTimePermutationIterator It} (fuel : nat) (it : It) :
    outcome (list (list Z)) :=
  if Done it then OK []
  else
    match fuel with
    | O => NoFuel
    | S fuel => it' ← Next it; rest ← enumerate_from fuel it'; OK (Get it :: rest)
    end.
Definition enumerate `{SliceTimePermutationIterator It} (it : It) : outcome (list (list Z)) :=
  it ← Begin it; enumerate_from (Bound it) it.

Example enumerate_all :
  CreateForNewAllocation kAll [7; 7; 9] ≫= enumerate = OK [[0; 1; 2]; [0; 2; 1]; [2; 0; 1]].
Proof. vm_compute. reflexivity. Qed.
Example enumerate_preferred :
  CreateForNewAllocation kPreferred [4; 7; 8; 9; 10] ≫= enumerate =
  OK [[0; 1; 2; 3; 4]; [4; 3; 2; 1; 0]; [3; 1; 0; 2; 4]].
Proof. vm_compute. reflexivity. Qed.
Example enumerate_repack :
  CreateForRepack kPreferred (Some (mkSliced [mkSlice 2 0 5; mkSlice 3 2 4; mkSlice 2 5 3]))
    ≫= enumerate = OK [[0; 1; 2]; [2; 1; 0]].
Proof. vm_compute. reflexivity. Qed.
