(* ===== verification/PermutationEnum.v ===== *)
(** * The order of permutations, and what the permutation iterators enumerate: the
    lexicographic order behind [next_permutation], and the interface and laws of the
    iterators. *)

From Stdlib Require Import Sorted.
From stdpp Require Import sorting.
From S2P Require Import Prelude SlicePermutation.

(** ** The lexicographic order of permutations

    [next_permutation] steps from a list to the least permutation of it that is
    greater, and ends at the descending one; so it visits, from the ascending list
    on, every permutation. *)

Inductive lex_lt : list Z -> list Z -> Prop :=
  | lex_head x y l m : x < y -> length l = length m -> lex_lt (x :: l) (y :: m)
  | lex_tail x l m : lex_lt l m -> lex_lt (x :: l) (x :: m).

Lemma lex_lt_trans l m k : lex_lt l m -> lex_lt m k -> lex_lt l k.
Proof.
  intros Hlm. revert k. induction Hlm as [x y l m Hxy Hlen|x l m Hlm IH]; intros k Hk.
  - inversion Hk as [? z ? m' Hyz Hlen'|? ? m' Hm]; subst.
    + constructor; [lia|congruence].
    + apply lex_head; [done|]. rewrite Hlen. clear -Hm. by induction Hm; simpl; f_equal.
  - inversion Hk as [? z ? m' Hyz Hlen'|? ? m' Hm]; subst.
    + apply lex_head; [done|]. rewrite <- Hlen'. clear -Hlm. by induction Hlm; simpl; f_equal.
    + apply lex_tail. by apply IH.
Qed.

Abbreviation ascending_list := (StronglySorted Z.le).
Abbreviation descending_list := (StronglySorted (flip Z.le)).

Lemma descending_rev l : descending_list l -> ascending_list (rev l).
Proof.
  induction 1 as [|x l Hl IH HF]; simpl; [constructor|].
  apply StronglySorted_app_2; [|done|by repeat constructor].
  intros y z Hy Hz. apply list_elem_of_singleton in Hz as ->.
  rewrite Forall_forall in HF. apply HF. apply list_elem_of_In, in_rev. by apply list_elem_of_In.
Qed.

Lemma replace_greater_Some x l y l' :
  ascending_list l -> replace_greater x l = Some (y, l') ->
  y ∈ l /\ x < y /\ x :: l ≡ₚ y :: l' /\ ascending_list l' /\ forall z, z ∈ l -> x < z -> y <= z.
Proof.
  revert y l'. induction l as [|w l IH]; intros y l' Hl; simpl; [done|].
  apply StronglySorted_inv in Hl as [Hl Hw]. rewrite Forall_forall in Hw.
  destruct (Z.ltb_spec x w) as [Hxw|Hxw].
  - intros [= <- <-]. split; [left|]. split; [done|]. split; [constructor|]. split.
    + constructor; [done|]. apply Forall_forall. intros z Hz. specialize (Hw z Hz). lia.
    + intros z [->|Hz]%elem_of_cons Hxz; [lia|]. by apply Hw.
  - destruct (replace_greater x l) as [[z k]|]; [|done]. intros [= <- <-].
    destruct (IH z k Hl eq_refl) as (Hz & Hxz & Hp & Hs & Hmin).
    split; [by right|]. split; [done|]. split; [|split].
    + etrans; [apply perm_swap|]. rewrite Hp. apply perm_swap.
    + constructor; [done|]. apply Forall_forall. intros u Hu.
      assert (Hu' : u ∈ x :: l) by (rewrite Hp; by right).
      apply elem_of_cons in Hu' as [->|Hu']; [lia|by apply Hw].
    + intros u [->|Hu]%elem_of_cons Hxu; [lia|by apply Hmin].
Qed.

Lemma replace_greater_None x l : replace_greater x l = None -> Forall (fun y => y <= x) l.
Proof.
  induction l as [|w l IH]; simpl; [constructor|]. destruct (Z.ltb_spec x w); [done|].
  destruct (replace_greater x l) as [[??]|]; [done|]. constructor; [lia|auto].
Qed.

Lemma next_None l : next_permutation_opt l = None -> descending_list l.
Proof.
  induction l as [|x l IH]; simpl; [constructor|].
  destruct (next_permutation_opt l); [done|]. specialize (IH eq_refl).
  destruct (replace_greater x (rev l)) as [[??]|] eqn:E; [done|]. intros _.
  constructor; [done|]. apply replace_greater_None in E. rewrite Forall_forall in *.
  intros y Hy. apply E. apply list_elem_of_In. rewrite <- in_rev. by apply list_elem_of_In.
Qed.

Lemma next_Some l l' : next_permutation_opt l = Some l' -> l' ≡ₚ l /\ lex_lt l l'.
Proof.
  revert l'. induction l as [|x l IH]; intros l'; simpl; [done|].
  destruct (next_permutation_opt l) as [k|] eqn:En.
  - intros [= <-]. destruct (IH k eq_refl) as [Hp Hlt]. split; [by rewrite Hp|by apply lex_tail].
  - apply next_None in En as Hd.
    destruct (replace_greater x (rev l)) as [[y k]|] eqn:E; [|done]. intros [= <-].
    destruct (replace_greater_Some _ _ _ _ (descending_rev _ Hd) E) as (_ & Hxy & Hp & _).
    rewrite <- Permutation_rev in Hp. split; [by rewrite <- Hp|].
    apply lex_head; [done|]. apply Permutation_length in Hp. simpl in Hp. lia.
Qed.

(** The descending list is the last of its permutations, the ascending one the
    first. *)
Lemma descending_max l p : descending_list l -> p ≡ₚ l -> ~ lex_lt l p.
Proof.
  intros Hl. revert p. induction Hl as [|x l Hl IH HF]; intros p Hp Hlt; inversion Hlt as [? y ? m Hxy|? ? m Hm]; subst.
  - assert (Hy : y ∈ x :: l) by (rewrite <- Hp; left). rewrite Forall_forall in HF.
    apply elem_of_cons in Hy as [->|Hy]; [lia|]. specialize (HF y Hy). simpl in HF. lia.
  - apply (IH m); [|done]. by apply Permutation_cons_inv in Hp.
Qed.

Lemma ascending_min l p : ascending_list l -> p ≡ₚ l -> p = l \/ lex_lt l p.
Proof.
  intros Hl. revert p. induction Hl as [|x l Hl IH HF]; intros p Hp.
  { left. by apply Permutation_nil. }
  destruct p as [|y p]; [by apply Permutation_nil_cons in Hp|].
  assert (Hy : y ∈ x :: l) by (rewrite <- Hp; left). rewrite Forall_forall in HF.
  destruct (decide (y = x)) as [->|Hne].
  - apply Permutation_cons_inv in Hp. destruct (IH p Hp) as [->|Hlt]; [by left|right; by apply lex_tail].
  - apply elem_of_cons in Hy as [?|Hy]; [done|]. right. specialize (HF y Hy).
    apply Permutation_length in Hp. apply lex_head; [lia|]. simpl in Hp. lia.
Qed.

(** Nothing lies between a list and its successor. *)
Lemma next_least l l' p :
  next_permutation_opt l = Some l' -> p ≡ₚ l -> lex_lt l p -> p = l' \/ lex_lt l' p.
Proof.
  revert l' p. induction l as [|x l IH]; intros l' p; simpl; [done|].
  intros Hn Hp Hlt. pose proof (Permutation_length Hp) as Hlen. simpl in Hlen.
  destruct (next_permutation_opt l) as [k|] eqn:En.
  - injection Hn as <-. inversion Hlt as [? y ? m Hxy Hl|? ? m Hm]; subst.
    + right. apply lex_head; [done|]. apply next_Some in En as [Hk _]. by rewrite Hk.
    + apply Permutation_cons_inv in Hp. destruct (IH k m eq_refl Hp Hm) as [->|]; [by left|].
      right. by apply lex_tail.
  - apply next_None in En. destruct (replace_greater x (rev l)) as [[y k]|] eqn:E; [|done].
    injection Hn as <-.
    destruct (replace_greater_Some _ _ _ _ (descending_rev _ En) E) as (Hy & Hxy & Hpk & Hk & Hmin).
    rewrite <- Permutation_rev in Hpk. setoid_rewrite <- (Permutation_rev l) in Hmin.
    inversion Hlt as [? z ? m Hxz Hl|? ? m Hm]; subst.
    2: { apply Permutation_cons_inv in Hp. by apply descending_max in Hm. }
    assert (Hz : z ∈ l).
    { assert (Hz : z ∈ x :: l) by (rewrite <- Hp; left). apply elem_of_cons in Hz as [->|]; [lia|done]. }
    specialize (Hmin z Hz Hxz). destruct (decide (z = y)) as [->|Hne].
    + rewrite Hpk in Hp. apply Permutation_cons_inv in Hp.
      destruct (ascending_min k m Hk Hp) as [->|]; [by left|right; by apply lex_tail].
    + right. apply Permutation_length in Hpk. simpl in Hpk. apply lex_head; [lia|]. lia.
Qed.

(** ** A bound on the number of steps *)

(** A list read as a number in base [n]. *)
Definition value (n : Z) (l : list Z) : Z := foldl (fun a x => a * n + x) 0 l.

Lemma foldl_value n l a : foldl (fun a x => a * n + x) a l = a * n ^ Zlen l + value n l.
Proof.
  unfold value. revert a. induction l as [|x l IH]; intros a; [unfold Zlen; simpl; lia|].
  cbn [foldl]. rewrite IH, (IH (0 * n + x)). unfold Zlen. simpl length. rewrite Nat2Z.inj_succ, Z.pow_succ_r by lia. ring.
Qed.

Lemma value_cons n x l : value n (x :: l) = x * n ^ Zlen l + value n l.
Proof. unfold value at 1. cbn [foldl]. rewrite foldl_value. ring. Qed.

Definition digits (n : Z) (l : list Z) : Prop := Forall (fun x => 0 <= x < n) l.

Lemma value_range n l : 0 < n -> digits n l -> 0 <= value n l < n ^ Zlen l.
Proof.
  intros Hn. induction 1 as [|x l Hx Hl IH]; [unfold value, Zlen; simpl; lia|].
  rewrite value_cons. unfold Zlen in *. simpl length. rewrite Nat2Z.inj_succ, Z.pow_succ_r by lia. nia.
Qed.

Lemma value_lt n l m : 0 < n -> digits n l -> digits n m -> lex_lt l m -> value n l < value n m.
Proof.
  intros Hn Hl Hm Hlt. induction Hlt as [x y l m Hxy Hlen|x l m Hlt IH];
    apply Forall_cons in Hl as [Hx Hl], Hm as [Hy Hm]; rewrite !value_cons.
  - pose proof (value_range n l Hn Hl). pose proof (value_range n m Hn Hm).
    unfold Zlen in *. rewrite Hlen in *. nia.
  - specialize (IH Hl Hm). enough (Zlen l = Zlen m) as -> by lia.
    unfold Zlen. f_equal. clear -Hlt. by induction Hlt; simpl; f_equal.
Qed.

(** ** What the permutation iterators enumerate

    The interface between the iterators and their client, the allocation finder, is
    the type class [IteratorLaws]: Begin and Next return, every value is a
    permutation of the slice times, and the loop ends within [Bound].  The instances
    are the iterator over all permutations and the preferred one; the composed
    iterator keeps the laws of its base and leaves out what the validator rejects
    and what is equivalent to an earlier value. *)

Class IteratorLaws (It : Type) `{SliceTimePermutationIterator It} (n : Z) := {
  ready : It -> Prop;
  started : It -> Prop;
  remaining : It -> nat;
  law_ready it : started it -> ready it;
  law_Begin it : ready it -> exists it', Begin it = OK it' /\ started it';
  law_Next it : started it -> Done it = false ->
    exists it', Next it = OK it' /\ started it' /\ (remaining it' < remaining it)%nat;
  law_Get it : started it -> Done it = false -> Get it ≡ₚ seqZ 0 n;
  law_Bound it : started it -> (remaining it < Bound it)%nat;
}.

(** The values from a state on. *)
Inductive Enum `{SliceTimePermutationIterator It} : It -> list (list Z) -> Prop :=
  | Enum_done it : Done it = true -> Enum it []
  | Enum_next it it' ps : Done it = false -> Next it = OK it' -> Enum it' ps -> Enum it (Get it :: ps).

Section Laws.
Context `{IteratorLaws It n}.

Lemma Enum_total it : started it -> exists ps, Enum it ps.
Proof.
  remember (remaining it) as k eqn:Ek. revert it Ek.
  induction (lt_wf k) as [k _ IH]. intros it -> Hs.
  destruct (Done it) eqn:Ed; [exists []; by constructor|].
  destruct (law_Next it Hs Ed) as (it' & HN & Hs' & Hlt).
  destruct (IH _ Hlt it' eq_refl Hs') as [ps Hps]. exists (Get it :: ps). by apply Enum_next with it'.
Qed.

Lemma Enum_perm it ps : Enum it ps -> started it -> Forall (fun p => p ≡ₚ seqZ 0 n) ps.
Proof.
  induction 1 as [it Hd|it it' ps Hd HN He IH]; intros Hs; [constructor|].
  constructor; [by apply law_Get|]. destruct (law_Next it Hs Hd) as (it2 & HN2 & Hs2 & _).
  rewrite HN in HN2. injection HN2 as <-. by apply IH.
Qed.

Lemma Enum_length it ps : Enum it ps -> started it -> (length ps <= S (remaining it))%nat.
Proof.
  induction 1 as [it Hd|it it' ps Hd HN He IH]; intros Hs; simpl; [lia|].
  destruct (law_Next it Hs Hd) as (it2 & HN2 & Hs2 & Hlt).
  rewrite HN in HN2. injection HN2 as <-. specialize (IH Hs2). lia.
Qed.

Lemma Enum_enumerate_from it ps fuel :
  Enum it ps -> (length ps <= fuel)%nat -> enumerate_from fuel it = OK ps.
Proof.
  intros He. revert fuel. induction He as [it Hd|it it' ps Hd HN He IH]; intros fuel Hf.
  - destruct fuel; simpl; by rewrite Hd.
  - simpl in Hf. destruct fuel as [|fuel]; [lia|]. simpl. rewrite Hd, HN. cbn [mbind outcome_bind].
    rewrite IH by lia. done.
Qed.

Lemma enumerate_Enum it it' ps : Begin it = OK it' -> started it' -> Enum it' ps -> enumerate it = OK ps.
Proof.
  intros HB Hs He. unfold enumerate. rewrite HB. cbn [mbind outcome_bind].
  apply Enum_enumerate_from; [done|]. pose proof (Enum_length _ _ He Hs). pose proof (law_Bound it' Hs). lia.
Qed.

End Laws.

(** ** All permutations *)

Definition all_started (n : Z) (it : SliceTimeAllPermutationIterator) : Prop :=
  all_num_slices_ it = n /\ all_permutation_ it ≡ₚ seqZ 0 n /\ (n <= 0 -> all_done_ it = true).
Definition all_ready (n : Z) (it : SliceTimeAllPermutationIterator) : Prop :=
  all_num_slices_ it = n /\ length (all_permutation_ it) = Z.to_nat n.
Definition all_remaining (n : Z) (it : SliceTimeAllPermutationIterator) : nat :=
  if all_done_ it then O else S (Z.to_nat (n ^ n - 1 - value n (all_permutation_ it))).

Lemma perm_digits n p : p ≡ₚ seqZ 0 n -> digits n p.
Proof.
  intros Hp. apply Forall_forall. intros x. rewrite Hp, elem_of_seqZ. lia.
Qed.

Lemma perm_value n p : 0 < n -> p ≡ₚ seqZ 0 n -> 0 <= value n p < n ^ n.
Proof.
  intros Hn Hp. pose proof (value_range n p Hn (perm_digits n p Hp)) as Hv.
  unfold Zlen in Hv. rewrite (Permutation_length Hp), length_seqZ, Z2Nat.id in Hv by lia. done.
Qed.

Lemma self_power_spec n : 0 < n -> Z.of_nat (self_power n) = n ^ n.
Proof. intros Hn. unfold self_power. rewrite Nat2Z.inj_pow, Z2Nat.id by lia. done. Qed.

Lemma fill_identity n p :
  length p = Z.to_nat n -> foldM (fun p i => set_at p i i) p (seqZ 0 n) = OK (seqZ 0 n).
Proof.
  intros Hlen. destruct (decide (0 <= n)) as [Hn|Hn].
  2: { unfold seqZ. replace (Z.to_nat n) with 0%nat in * by lia. by destruct p. }
  destruct (foldM_total (fun l q => length q = Z.to_nat n /\ forall i, i ∈ l -> q !! Z.to_nat i = Some i)
    (fun p i => set_at p i i) (seqZ 0 n) p) as (q & HF & Hq & Hlk).
  - split; [done|]. by intros i ?%not_elem_of_nil.
  - intros l1 i l2 q Hsp [Hq Hlk]. assert (Hi : i ∈ seqZ 0 n) by (rewrite Hsp; apply elem_of_app; right; left).
    apply elem_of_seqZ in Hi. exists (<[Z.to_nat i := i]> q).
    split; [apply set_at_OK; unfold Zlen; split; [lia|done]|]. rewrite length_insert. split; [done|].
    intros j [Hj| ->%list_elem_of_singleton]%elem_of_app.
    + assert (Hj' : j ∈ seqZ 0 n) by (rewrite Hsp; apply elem_of_app; by left).
      apply elem_of_seqZ in Hj'. destruct (decide (j = i)) as [->|Hne].
      * apply list_lookup_insert_eq. lia.
      * rewrite list_lookup_insert_ne by lia. by apply Hlk.
    + apply list_lookup_insert_eq. lia.
  - rewrite HF. f_equal. apply list_eq_same_length with (Z.to_nat n); [by rewrite length_seqZ|done|].
    intros k x y Hk Hx Hy. apply lookup_seqZ in Hy as [-> ?].
    specialize (Hlk (0 + Z.of_nat k)). rewrite elem_of_seqZ in Hlk. specialize (Hlk ltac:(lia)).
    rewrite Z.add_0_l, Nat2Z.id in Hlk. rewrite Hlk in Hx. injection Hx as <-. lia.
Qed.

#[global] Program Instance All_laws n : IteratorLaws SliceTimeAllPermutationIterator n := {
  ready := all_ready n;
  started := all_started n;
  remaining := all_remaining n;
}.
Next Obligation.
  intros n it (Hn & Hp & _). split; [done|]. by rewrite Hp, length_seqZ.
Qed.
Next Obligation.
  intros n it (Hn & Hlen). simpl. unfold All_Begin. rewrite Hn, fill_identity by done.
  eexists. split; [done|]. split; [done|]. split; [done|]. simpl. lia.
Qed.
Next Obligation.
  intros n it (Hn & Hp & H0) Hd. simpl in *. unfold All_Next. rewrite Hd.
  assert (Hpos : 0 < n) by (destruct (decide (n <= 0)) as [H|]; [specialize (H0 H); congruence|lia]).
  unfold next_permutation, all_remaining. rewrite Hd.
  destruct (next_permutation_opt (all_permutation_ it)) as [l'|] eqn:E; eexists; (split; [done|]).
  - apply next_Some in E as [Hp' Hlt]. rewrite Hp in Hp'. split; [split; [done|]; split; [done|simpl; lia]|].
    simpl. pose proof (perm_value n _ Hpos Hp'). pose proof (perm_value n _ Hpos Hp).
    apply (value_lt n) in Hlt; [lia|done|by apply perm_digits..].
  - split; [split; [done|]; split; [|done]|simpl; lia]. simpl. by rewrite <- Permutation_rev.
Qed.
Next Obligation. by intros n it (Hn & Hp & _) _. Qed.
Next Obligation.
  intros n it (Hn & Hp & H0). simpl. unfold all_remaining. rewrite Hn.
  destruct (all_done_ it) eqn:Hd; [lia|].
  assert (Hpos : 0 < n) by (destruct (decide (n <= 0)) as [H|]; [specialize (H0 H); congruence|lia]).
  pose proof (perm_value n _ Hpos Hp). pose proof (self_power_spec n Hpos). lia.
Qed.

(** Every permutation that is not before the current one is enumerated. *)
Lemma All_complete n it ps p :
  Enum it ps -> started (n := n) it -> Done it = false -> p ≡ₚ seqZ 0 n ->
  p = Get it \/ lex_lt (Get it) p -> p ∈ ps.
Proof.
  induction 1 as [it Hd|it it' ps Hd HN He IH]; intros Hs Hd' Hp Hge; [congruence|].
  destruct Hge as [->|Hlt]; [left|]. right.
  destruct (law_Next it Hs Hd) as (it2 & HN2 & Hs2 & _). rewrite HN in HN2. injection HN2 as <-.
  simpl in *. unfold All_Next in HN. rewrite Hd in HN. destruct Hs as (Hn & Hpi & _).
  unfold next_permutation in HN.
  destruct (next_permutation_opt (all_permutation_ it)) as [l'|] eqn:E; injection HN as <-.
  - apply IH; [done..|]. simpl. eapply next_least; [done| |done]. by rewrite Hpi.
  - apply next_None in E. exfalso. eapply descending_max; [exact E| |exact Hlt]. by rewrite Hpi.
Qed.
