(* ===== verification/PermutationPreferred.v ===== *)
(** * The preferred permutations

    SetUpPermutationForCurrentType fills the positions that are not fixed with the
    available slice times, each once; so every value of the preferred iterator is a
    permutation, with and without the data of an earlier allocation. *)

From Stdlib Require Import Sorted.
From stdpp Require Import sorting.
From S2P Require Import Prelude SlicePermutation PermutationEnum.

(** ** The free positions *)

(** The positions from [k] on that are not fixed. *)
Fixpoint free_from (k : nat) (fixed : list bool) : list nat :=
  match fixed with
  | [] => []
  | b :: fixed => (if b then [] else [k]) ++ free_from (S k) fixed
  end.
Definition free (fixed : list bool) : list nat := free_from 0 fixed.

Lemma free_from_lt k fixed i : i ∈ free_from k fixed -> (k <= i < k + length fixed)%nat.
Proof.
  revert k. induction fixed as [|b fixed IH]; intros k; simpl; [by intros ?%not_elem_of_nil|].
  rewrite elem_of_app. intros [Hi|Hi%IH]; [|lia].
  destruct b; [by apply not_elem_of_nil in Hi|]. apply list_elem_of_singleton in Hi. lia.
Qed.

Lemma skip_fixed_spec fixed k :
  skip_fixed fixed (Z.of_nat k) =
  Z.of_nat (default (k + length fixed)%nat (head (free_from k fixed))).
Proof.
  revert k. induction fixed as [|b fixed IH]; intros k; simpl; [f_equal; lia|].
  destruct b; simpl; [|done]. replace (Z.of_nat k + 1) with (Z.of_nat (S k)) by lia.
  rewrite IH. f_equal. destruct (free_from (S k) fixed); simpl; lia.
Qed.

Lemma free_from_next k fixed m f :
  free_from k fixed !! m = Some f ->
  head (free_from (S f) (drop (S f - k) fixed)) = free_from k fixed !! S m.
Proof.
  revert k m. induction fixed as [|b fixed IH]; intros k m; simpl; [done|]. intros Hm.
  destruct b; simpl in *.
  - pose proof (free_from_lt _ _ _ (list_elem_of_lookup_2 _ _ _ Hm)).
    specialize (IH (S k) m Hm). replace (S f - k)%nat with (S (S f - S k)) by lia. done.
  - destruct m as [|m]; simpl in Hm.
    + injection Hm as <-. replace (S k - k)%nat with 1%nat by lia. simpl. rewrite drop_0.
      by destruct (free_from (S k) fixed).
    + pose proof (free_from_lt _ _ _ (list_elem_of_lookup_2 _ _ _ Hm)).
      specialize (IH (S k) m Hm). replace (S f - k)%nat with (S (S f - S k)) by lia. done.
Qed.

(** The index in the loops: the [m]-th free position, or the length. *)
Definition free_index (fixed : list bool) (m : nat) : Z :=
  Z.of_nat (default (length fixed) (free fixed !! m)).

Lemma Next_first fixed : NextAvailablePermutationIndex fixed (-1) = free_index fixed 0.
Proof.
  unfold NextAvailablePermutationIndex, free_index, free. simpl. rewrite drop_0.
  change (-1 + 1) with (Z.of_nat 0). rewrite skip_fixed_spec. by destruct (free_from 0 fixed).
Qed.

Lemma Next_free fixed m :
  (m < length (free fixed))%nat ->
  NextAvailablePermutationIndex fixed (free_index fixed m) = free_index fixed (S m).
Proof.
  intros Hm. destruct (lookup_lt_is_Some_2 _ _ Hm) as [f Hf].
  unfold NextAvailablePermutationIndex, free_index. rewrite Hf. simpl.
  pose proof (free_from_lt _ _ _ (list_elem_of_lookup_2 _ _ _ Hf)) as Hlt.
  replace (Z.of_nat f + 1) with (Z.of_nat (S f)) by lia. rewrite Nat2Z.id, skip_fixed_spec.
  apply free_from_next in Hf. rewrite Nat.sub_0_r in Hf. unfold free. rewrite Hf.
  do 2 f_equal. rewrite length_drop. lia.
Qed.

(** ** Filling the free positions *)

(** [vs] is placed at the free positions from the [m]-th on. *)
Fixpoint fill_from (fixed : list bool) (m : nat) (vs p : list Z) : list Z :=
  match vs with
  | [] => p
  | v :: vs => fill_from fixed (S m) vs (<[Z.to_nat (free_index fixed m) := v]> p)
  end.

Lemma free_index_range fixed m :
  (m < length (free fixed))%nat -> 0 <= free_index fixed m < Zlen fixed.
Proof.
  intros Hm. destruct (lookup_lt_is_Some_2 _ _ Hm) as [f Hf]. unfold free_index. rewrite Hf. simpl.
  pose proof (free_from_lt _ _ _ (list_elem_of_lookup_2 _ _ _ Hf)). unfold Zlen. lia.
Qed.

Lemma length_fill_from fixed m vs p : length (fill_from fixed m vs p) = length p.
Proof. revert m p. induction vs as [|v vs IH]; intros m p; simpl; [done|]. by rewrite IH, length_insert. Qed.

Section Place.
Context (it : SliceTimePreferredPermutationIterator).
#[local] Abbreviation fixed := (fixed_permutation_values_ it).
#[local] Abbreviation avail := (slice_times_available_for_permutation_ it).

Lemma place_ok m p i v :
  (m < length (free fixed))%nat -> length p = length fixed -> at_ avail i = OK v ->
  place it (free_index fixed m, p) i =
  OK (free_index fixed (S m), <[Z.to_nat (free_index fixed m) := v]> p).
Proof.
  intros Hm Hlen Hv. pose proof (free_index_range fixed m Hm) as Hr. unfold place.
  unfold Zlen in *. rewrite (proj2 (Z.ltb_lt _ _)) by (unfold Zlen; lia). cbn [check mbind outcome_bind].
  rewrite Hv. cbn [mbind outcome_bind].
  rewrite (proj2 (set_at_OK p _ _ _)) by (unfold Zlen; split; [lia|done]). cbn [mbind outcome_bind].
  by rewrite Next_free.
Qed.

(** The values a loop places. *)
Definition chosen (f : Z -> bool) (js : list Z) : list Z :=
  (fun i => avail !!! Z.to_nat i) <$> filter f js.

Lemma place_loop f js m p :
  length p = length fixed -> Forall (fun i => 0 <= i < Zlen avail) js ->
  (m + length (chosen f js) <= length (free fixed))%nat ->
  foldM (place_if f it) (free_index fixed m, p) js =
  OK (free_index fixed (m + length (chosen f js)), fill_from fixed m (chosen f js) p).
Proof.
  revert m p. induction js as [|i js IH]; intros m p Hlen HF Hm; cbn [foldM].
  { simpl. by rewrite Nat.add_0_r. }
  apply Forall_cons in HF as [Hi HF]. unfold chosen in *.
  assert (Ec : filter f (i :: js) = if f i then i :: filter f js else filter f js)
    by (rewrite filter_cons; by destruct (f i)). rewrite Ec in *.
  assert (E : forall x, place_if f it x i = if f i then place it x i else OK x) by done. rewrite E.
  destruct (f i); [|by apply IH]. cbn [fmap list_fmap] in *.
  destruct (at_in_range avail i Hi) as [v Hv]. pose proof Hv as [_ Hv']%at_OK%idx_Some.
  rewrite (list_lookup_total_correct _ _ _ Hv') in *. cbn [length] in *.
  rewrite (place_ok m p i v) by (done || lia). cbn [mbind outcome_bind].
  rewrite IH by (rewrite ?length_insert; done || lia). do 3 f_equal. lia.
Qed.
End Place.

Lemma fill_from_app fixed m vs1 vs2 p :
  fill_from fixed m (vs1 ++ vs2) p = fill_from fixed (m + length vs1) vs2 (fill_from fixed m vs1 p).
Proof.
  revert m p. induction vs1 as [|v vs1 IH]; intros m p; simpl; [by rewrite Nat.add_0_r|].
  by rewrite IH, Nat.add_succ_comm.
Qed.

(** What filling computes. *)
Fixpoint merge (fixed : list bool) (vs p : list Z) : list Z :=
  match fixed, p, vs with
  | true :: fixed, x :: p, _ => x :: merge fixed vs p
  | false :: fixed, x :: p, v :: vs => v :: merge fixed vs p
  | _, _, _ => p
  end.
Fixpoint fixed_values (fixed : list bool) (p : list Z) : list Z :=
  match fixed, p with
  | b :: fixed, x :: p => if b then x :: fixed_values fixed p else fixed_values fixed p
  | _, _ => []
  end.

Lemma fill_from_zip fixed m vs p :
  (m + length vs <= length (free fixed))%nat ->
  fill_from fixed m vs p =
  foldl (fun p iv => <[iv.1 := iv.2]> p) p (zip (drop m (free fixed)) vs).
Proof.
  revert m p. induction vs as [|v vs IH]; intros m p Hm; simpl in *.
  { by rewrite zip_with_nil_r. }
  destruct (lookup_lt_is_Some_2 (free fixed) m) as [f Hf]; [lia|].
  rewrite (drop_S _ _ _ Hf). simpl. rewrite IH by lia. unfold free_index. rewrite Hf. simpl.
  by rewrite Nat2Z.id.
Qed.

Lemma zip_merge fixed vs p pre :
  length p = length fixed -> length vs = length (free_from (length pre) fixed) ->
  foldl (fun p iv => <[iv.1 := iv.2]> p) (pre ++ p) (zip (free_from (length pre) fixed) vs) =
  pre ++ merge fixed vs p.
Proof.
  revert vs p pre. induction fixed as [|b fixed IH]; intros vs p pre Hp Hvs; [done|].
  destruct p as [|x p]; [done|]. simpl in Hp, Hvs |- *. destruct b; simpl in *.
  - specialize (IH vs p (pre ++ [x])). rewrite length_app in IH. cbn [length] in IH.
    rewrite Nat.add_1_r, <- !app_assoc in IH. cbn [app] in IH. apply IH; lia.
  - destruct vs as [|v vs]; [done|]. simpl in *.
    rewrite insert_app_r_alt, Nat.sub_diag by lia. simpl.
    specialize (IH vs p (pre ++ [v])). rewrite length_app in IH. cbn [length] in IH.
    rewrite Nat.add_1_r, <- !app_assoc in IH. cbn [app] in IH. apply IH; lia.
Qed.

Lemma fill_merge fixed vs p :
  length p = length fixed -> length vs = length (free fixed) -> fill_from fixed 0 vs p = merge fixed vs p.
Proof.
  intros Hp Hvs. rewrite fill_from_zip by lia. rewrite drop_0. by apply (zip_merge fixed vs p []).
Qed.

Lemma merge_perm k fixed vs p :
  length p = length fixed -> length vs = length (free_from k fixed) ->
  merge fixed vs p ≡ₚ fixed_values fixed p ++ vs /\
  fixed_values fixed (merge fixed vs p) = fixed_values fixed p /\
  length (merge fixed vs p) = length p.
Proof.
  revert k vs p. induction fixed as [|b fixed IH]; intros k vs p Hp Hvs; simpl in *.
  { destruct vs; [|done]. by destruct p. }
  destruct p as [|x p]; [done|]. destruct b; simpl in *.
  - destruct (IH (S k) vs p) as (H1 & H2 & H3); [lia..|]. rewrite H2, H3. split; [by rewrite H1|done].
  - destruct vs as [|v vs]; [done|]. simpl in *.
    destruct (IH (S k) vs p) as (H1 & H2 & H3); [lia..|]. rewrite H2, H3. split; [|done].
    rewrite H1. apply Permutation_middle.
Qed.

(** ** SetUpPermutationForCurrentType *)

Lemma filter_partition (f g : Z -> bool) l :
  Forall (fun i => g i = negb (f i)) l -> filter f l ++ filter g l ≡ₚ l.
Proof.
  induction 1 as [|x l Hx Hl IH]; [done|]. rewrite !filter_cons, Hx. destruct (f x); simpl.
  - by constructor.
  - rewrite <- Permutation_middle. by constructor.
Qed.

Lemma parity_partition ty i :
  0 <= i -> ty <> kUninitialized -> ty <> kDone -> ascending ty i = negb (descending ty i).
Proof.
  intros Hi H1 H2. destruct ty; try done. simpl. unfold IsEven, IsOdd.
  rewrite Z.rem_mod_nonneg by lia. pose proof (Z.mod_pos_bound i 2 ltac:(lia)).
  destruct (Z.eqb_spec (i mod 2) 0), (Z.eqb_spec (i mod 2) 1); simpl; lia.
Qed.

Lemma filter_rev_perm (f : Z -> bool) l : filter f (rev l) ≡ₚ filter f l.
Proof. by rewrite <- Permutation_rev. Qed.

Lemma lookup_indices (l : list Z) : (fun i => l !!! Z.to_nat i) <$> indices l = l.
Proof.
  apply list_eq_same_length with (length l); [done|by rewrite length_fmap; unfold indices, Zlen; rewrite length_seqZ; lia|].
  intros k x y Hk Hx Hy. rewrite list_lookup_fmap in Hx. destruct (indices l !! k) as [i|] eqn:Ei; [|done].
  injection Hx as <-. apply lookup_seqZ in Ei as [-> ?]. rewrite Z.add_0_l, Nat2Z.id.
  by apply list_lookup_total_correct.
Qed.

Lemma chosen_perm it ty :
  ty <> kUninitialized -> ty <> kDone ->
  let js := indices (slice_times_available_for_permutation_ it) in
  chosen it (descending ty) (rev js) ++ chosen it (ascending ty) js ≡ₚ
  slice_times_available_for_permutation_ it.
Proof.
  intros H1 H2 js. unfold chosen. rewrite filter_rev_perm, <- fmap_app.
  rewrite filter_partition; [by rewrite lookup_indices|].
  apply Forall_forall. intros i Hi%elem_of_indices. apply parity_partition; [lia|done..].
Qed.

Record pref_ready (n : Z) (it : SliceTimePreferredPermutationIterator) : Prop := {
  pr_n : num_slices_ it = n;
  pr_fixed : length (fixed_permutation_values_ it) = Z.to_nat n;
  pr_perm : length (permutation_ it) = Z.to_nat n;
  pr_avail : length (slice_times_available_for_permutation_ it) =
    length (free (fixed_permutation_values_ it));
  pr_values : fixed_values (fixed_permutation_values_ it) (permutation_ it) ++
    slice_times_available_for_permutation_ it ≡ₚ seqZ 0 n;
}.

(** The available times in the order in which they are placed. *)
Definition pattern (it : SliceTimePreferredPermutationIterator) : list Z :=
  let js := indices (slice_times_available_for_permutation_ it) in
  chosen it (descending (permutation_type_ it)) (rev js) ++ chosen it (ascending (permutation_type_ it)) js.

Lemma SetUp_ok n it :
  pref_ready n it -> permutation_type_ it <> kUninitialized ->
  exists it', SetUpPermutationForCurrentType it = OK it' /\ pref_ready n it' /\
    permutation_type_ it' = permutation_type_ it /\
    fixed_permutation_values_ it' = fixed_permutation_values_ it /\
    slice_times_available_for_permutation_ it' = slice_times_available_for_permutation_ it /\
    (permutation_type_ it <> kDone -> permutation_ it' ≡ₚ seqZ 0 n /\
       permutation_ it' = merge (fixed_permutation_values_ it) (pattern it) (permutation_ it)).
Proof.
  intros [Hn Hf Hp Ha Hv] Hu. unfold SetUpPermutationForCurrentType.
  destruct (decide (permutation_type_ it = kDone)) as [E|Hd].
  { rewrite E. cbn [check mbind outcome_bind is_kDone]. exists it. by rewrite E. }
  assert (Ec : (match permutation_type_ it with kUninitialized => false | _ => true end) = true /\
    is_kDone (permutation_type_ it) = false) by (by destruct (permutation_type_ it)).
  destruct Ec as [-> ->]. cbn [check mbind outcome_bind]. rewrite Next_first.
  set (ty := permutation_type_ it) in *. set (js := indices _). set (fixed := fixed_permutation_values_ it) in *.
  pose proof (chosen_perm it ty Hu Hd) as Hcp. cbv zeta in Hcp. fold js in Hcp.
  set (vs1 := chosen it (descending ty) (rev js)) in *. set (vs2 := chosen it (ascending ty) js) in *.
  pose proof (Permutation_length Hcp) as Hlen. rewrite length_app in Hlen.
  assert (Hjs : Forall (fun i => 0 <= i < Zlen (slice_times_available_for_permutation_ it)) js).
  { apply Forall_forall. intros i. apply elem_of_indices. }
  rewrite place_loop; [|fold fixed; lia|by apply Forall_rev|fold fixed vs1; lia].
  fold fixed vs1. cbn [mbind outcome_bind Nat.add].
  rewrite place_loop; [|rewrite length_fill_from; fold fixed; lia|done|fold fixed vs2; lia].
  fold fixed vs2. cbn [mbind outcome_bind].
  pose proof (fill_from_app fixed 0 vs1 vs2 (permutation_ it)) as Efill. cbn [Nat.add] in Efill.
  rewrite <- Efill, fill_merge by (rewrite ?length_app; lia).
  destruct (merge_perm 0 fixed (vs1 ++ vs2) (permutation_ it)) as (Hm1 & Hm2 & Hm3);
    [lia|rewrite length_app; unfold free in Ha; lia|].
  assert (Hend : free_index fixed (length vs1 + length vs2) = Zlen (merge fixed (vs1 ++ vs2) (permutation_ it))).
  { unfold free_index, Zlen. rewrite lookup_ge_None_2 by lia. simpl. lia. }
  rewrite Hend, Z.eqb_refl. cbn [check mbind outcome_bind]. eexists. split; [done|].
  set (mp := merge _ _ _) in *. rewrite Hcp in Hm1. split; [|split; [done|split; [done|split; [done|]]]].
  - split; simpl; [done|done|fold fixed; lia|done|]. fold fixed. by rewrite Hm2.
  - intros _. change (mp ≡ₚ seqZ 0 n /\ mp = mp). split; [|done]. by rewrite Hm1.
Qed.

(** The number of permutation types from one on. *)
Definition types_left (ty : PermutationType) : nat :=
  match ty with
  | kUninitialized | kDone => 0
  | kSmallerOffsetSmallerSliceTime => 3
  | kSmallerOffsetLargerSliceTime => 2
  | kDistributeSmallSliceTimesAroundMiddleOffset => 1
  end.

#[global] Program Instance Preferred_laws n : IteratorLaws SliceTimePreferredPermutationIterator n := {
  ready := pref_ready n;
  started it := pref_ready n it /\ permutation_type_ it <> kUninitialized /\
    (permutation_type_ it <> kDone -> permutation_ it ≡ₚ seqZ 0 n);
  remaining it := types_left (permutation_type_ it);
}.
Next Obligation. by intros n it []. Qed.
Next Obligation.
  intros n it Hr. simpl. unfold Preferred_Begin.
  destruct (SetUp_ok n (set_permutation_type (NextPermutationType (num_slices_ it) kUninitialized) it))
    as (it' & HS & Hr' & Ht & _ & _ & Hp); [by destruct Hr|by simpl; destruct (_ <=? _)|].
  exists it'. split; [done|]. split; [done|]. rewrite Ht. split; [by simpl; destruct (_ <=? _)|].
  intros E. by apply Hp.
Qed.
Next Obligation.
  intros n it (Hr & Hu & _) Hd. simpl in *. unfold Preferred_Next.
  destruct (SetUp_ok n (set_permutation_type (NextPermutationType (num_slices_ it) (permutation_type_ it)) it))
    as (it' & HS & Hr' & Ht & _ & _ & Hp); [by destruct Hr|by simpl; destruct (permutation_type_ it); simpl; try destruct (_ <=? _)|].
  exists it'. split; [done|]. rewrite Ht. simpl in *. split.
  - split; [done|]. split; [|intros E; by apply Hp].
    destruct (permutation_type_ it); simpl; by try destruct (_ <=? _).
  - destruct (permutation_type_ it); simpl; try done; try destruct (_ <=? _); simpl; lia.
Qed.
Next Obligation.
  intros n it (_ & _ & Hp) Hd. simpl in *. apply Hp. intros E. by rewrite E in Hd.
Qed.
Next Obligation. intros n it _. simpl. destruct (permutation_type_ it); simpl; lia. Qed.

(** ** Construction *)

Lemma free_replicate k n : free_from k (replicate n false) = seq k n.
Proof. revert k. induction n as [|n IH]; intros k; simpl; [done|]. by rewrite IH. Qed.
Lemma fixed_values_none n p : fixed_values (replicate n false) p = [].
Proof. revert p. induction n as [|n IH]; intros [|x p]; simpl; done. Qed.


(** The iterator of a new allocation: no position is fixed. *)
Definition pref_free (n : Z) (it : SliceTimePreferredPermutationIterator) : Prop :=
  pref_ready n it /\ fixed_permutation_values_ it = replicate (Z.to_nat n) false /\
  slice_times_available_for_permutation_ it = seqZ 0 n.

Lemma new_Preferred_free n : 0 <= n -> exists it, new_Preferred n None = OK it /\ pref_free n it.
Proof.
  intros Hn. eexists. split; [done|]. split; [|done]. split; simpl; rewrite ?length_replicate; try done.
  - unfold free. by rewrite free_replicate, length_seq, length_seqZ.
  - by rewrite fixed_values_none.
Qed.

(** The permutation of a type: the descending times, then the ascending ones. *)
Definition candidate (n : Z) (ty : PermutationType) : list Z :=
  filter (descending ty) (rev (seqZ 0 n)) ++ filter (ascending ty) (seqZ 0 n).

Fixpoint types_from (fuel : nat) (n : Z) (ty : PermutationType) : list PermutationType :=
  match fuel with
  | O => []
  | S fuel => if is_kDone ty then [] else ty :: types_from fuel n (NextPermutationType n ty)
  end.

(** The three permutations, or as many of them as differ. *)
Definition candidates (n : Z) : list (list Z) :=
  candidate n <$> types_from 3 n (NextPermutationType n kUninitialized).

Lemma chosen_free n it f js :
  slice_times_available_for_permutation_ it = seqZ 0 n -> Forall (fun i => 0 <= i < n) js ->
  chosen it f js = filter f js.
Proof.
  intros Ha Hjs. unfold chosen. rewrite Ha.
  assert (Hf : Forall (fun i => 0 <= i < n) (filter f js)).
  { rewrite Forall_forall in Hjs |- *. intros i [_ Hi]%list_elem_of_filter. by apply Hjs. }
  rewrite <- (list_fmap_id (filter f js)) at 2. apply list_fmap_ext. intros k i Hk%list_elem_of_lookup_2.
  rewrite Forall_forall in Hf. specialize (Hf i Hk).
  apply list_lookup_total_correct. rewrite lookup_seqZ_lt by lia. simpl. f_equal. lia.
Qed.

Lemma merge_free n vs p : length p = n -> length vs = n -> merge (replicate n false) vs p = vs.
Proof.
  revert n p. induction vs as [|v vs IH]; intros [|n] [|x p] Hp Hv; simpl in *; try done.
  f_equal. apply IH; lia.
Qed.

Lemma SetUp_free n it :
  pref_free n it -> permutation_type_ it <> kUninitialized ->
  exists it', SetUpPermutationForCurrentType it = OK it' /\ pref_free n it' /\
    permutation_type_ it' = permutation_type_ it /\
    (permutation_type_ it <> kDone -> permutation_ it' = candidate n (permutation_type_ it)).
Proof.
  intros (Hr & Hf & Ha) Hu. destruct (SetUp_ok n it Hr Hu) as (it' & HS & Hr' & Ht & Hf' & Ha' & Hp).
  exists it'. split; [done|]. split; [split; [done|split; congruence]|]. split; [done|].
  intros Hd. destruct (Hp Hd) as [Hperm ->]. rewrite Hf.
  assert (Hc : pattern it = candidate n (permutation_type_ it)).
  { unfold pattern, candidate, indices. rewrite Ha. unfold Zlen. rewrite length_seqZ.
    assert (Hjs : Forall (fun i => 0 <= i < n) (seqZ 0 (Z.of_nat (Z.to_nat n)))).
    { apply Forall_forall. intros i. rewrite elem_of_seqZ. lia. }
    rewrite !(chosen_free n) by (done || by apply Forall_rev). unfold seqZ. by rewrite Nat2Z.id. }
  rewrite Hc. apply merge_free; [by apply Hr|]. rewrite <- Hc. unfold pattern.
  rewrite (Permutation_length (chosen_perm it (permutation_type_ it) Hu Hd)), Ha. apply length_seqZ.
Qed.

Lemma Enum_free fuel n it :
  pref_free n it -> permutation_type_ it <> kUninitialized -> (types_left (permutation_type_ it) <= fuel)%nat ->
  (permutation_type_ it <> kDone -> permutation_ it = candidate n (permutation_type_ it)) ->
  Enum it (candidate n <$> types_from fuel n (permutation_type_ it)).
Proof.
  revert it. induction fuel as [|fuel IH]; intros it Hfr Hu Hf Hp.
  { constructor. destruct (permutation_type_ it) eqn:E; simpl in *; rewrite ?E; (done || lia). }
  simpl. destruct (is_kDone (permutation_type_ it)) eqn:Hd; [by constructor|]. simpl.
  rewrite <- Hp by (intros E; by rewrite E in Hd).
  set (ty := NextPermutationType n (permutation_type_ it)).
  assert (Hty : ty <> kUninitialized /\ (types_left ty <= fuel)%nat).
  { unfold ty. destruct (permutation_type_ it); simpl in *; try done;
      repeat destruct (_ <=? _); simpl; split; (done || lia). }
  destruct Hty as [Hty Hle].
  destruct (SetUp_free n (set_permutation_type ty it)) as (it' & HS & Hfr' & Ht & Hp'); [|done|].
  { destruct Hfr as ([] & ? & ?). repeat split; done. }
  simpl in Ht, Hp'. rewrite <- Ht in Hty, Hle, Hp' |- *.
  change (Enum it (Get it :: (candidate n <$> types_from fuel n (permutation_type_ it')))).
  apply (Enum_next it it'); [done| |by apply IH].
  change (Preferred_Next it = OK it'). unfold Preferred_Next.
  destruct Hfr as ([Hn _ _ _ _] & _ & _). rewrite Hn. by fold ty.
Qed.
