(* ===== verification/PermutationCreate.v ===== *)
(** * The composed iterator and the equivalences of permutations, and the iterator of
    a new allocation. *)

From stdpp Require Import sorting.
From S2P Require Import Prelude SlicePermutation PermutationEnum PermutationPreferred.

(** ** The composed permutation iterator

    The composed iterator enumerates, of the base iterator's permutations, those the
    validator accepts and whose start times no earlier one has: the list [kept]. *)

(** ** The base iterator of either type *)

#[global] Program Instance Base_laws n : IteratorLaws BaseIterator n := {
  ready it := match it with base_all it => ready (n := n) it | base_preferred it => ready (n := n) it end;
  started it := match it with base_all it => started (n := n) it | base_preferred it => started (n := n) it end;
  remaining it :=
    match it with base_all it => remaining (n := n) it | base_preferred it => remaining (n := n) it end;
}.
Next Obligation. intros n [it|it]; apply law_ready. Qed.
Next Obligation.
  intros n [it|it] Hr; destruct (law_Begin it Hr) as (it' & HB & Hs);
    eexists; cbn [Begin Base_iterator]; rewrite HB; cbn [mbind outcome_bind]; by split.
Qed.
Next Obligation.
  intros n [it|it] Hs Hd; destruct (law_Next it Hs Hd) as (it' & HN & Hs' & Hl);
    eexists; cbn [Next Base_iterator]; rewrite HN; cbn [mbind outcome_bind]; by split.
Qed.
Next Obligation. intros n [it|it]; exact (law_Get (n := n) it). Qed.
Next Obligation. intros n [it|it]; exact (law_Bound (n := n) it). Qed.

(** ** What is kept *)

(** The permutation's start times, [start_times] without its bounds checks. *)
Definition times_of (times p : list Z) : list Z := (fun i => times !!! Z.to_nat i) <$> p.

Definition accepted (v : SliceTimePermutationValidator) (p : list Z) : bool :=
  match IsValid v p with OK b => b | _ => false end.

Fixpoint kept (v : SliceTimePermutationValidator) (times : list Z) (seen ps : list (list Z)) :
    list (list Z) :=
  match ps with
  | [] => []
  | p :: ps =>
      if accepted v p && bool_decide (times_of times p ∉ seen)
      then p :: kept v times (times_of times p :: seen) ps
      else kept v times seen ps
  end.

Lemma kept_sublist v times seen ps : kept v times seen ps `sublist_of` ps.
Proof.
  revert seen. induction ps as [|p ps IH]; intros seen; simpl; [done|].
  destruct (_ && _); [by apply sublist_skip|by apply sublist_cons].
Qed.

Lemma kept_accepted v times seen ps : Forall (fun p => accepted v p = true) (kept v times seen ps).
Proof.
  revert seen. induction ps as [|p ps IH]; intros seen; simpl; [constructor|].
  destruct (accepted v p) eqn:E; simpl; [|apply IH]. destruct (bool_decide _); [by constructor|apply IH].
Qed.

Lemma kept_fresh v times seen ps :
  NoDup (times_of times <$> kept v times seen ps) /\
  Forall (fun p => times_of times p ∉ seen) (kept v times seen ps).
Proof.
  revert seen. induction ps as [|p ps IH]; intros seen; simpl; [split; constructor|].
  destruct (accepted v p && _) eqn:E; [|apply IH].
  apply andb_true_iff in E as [_ E%bool_decide_eq_true].
  destruct (IH (times_of times p :: seen)) as [Hnd Hf]. rewrite Forall_forall in Hf. split.
  - constructor; [|done]. intros (q & Hq & Hin)%list_elem_of_fmap. apply (Hf q Hin).
    rewrite <- Hq. left.
  - constructor; [done|]. apply Forall_forall. intros q Hq Hs. apply (Hf q Hq). by right.
Qed.

Lemma kept_complete v times seen ps p :
  p ∈ ps -> accepted v p = true ->
  times_of times p ∈ seen \/ exists q, q ∈ kept v times seen ps /\ times_of times q = times_of times p.
Proof.
  revert seen. induction ps as [|p' ps IH]; intros seen; [by intros ?%not_elem_of_nil|].
  intros [->|Hin]%elem_of_cons Ha; simpl.
  - rewrite Ha. simpl. destruct (bool_decide _) eqn:E.
    + right. exists p'. split; [left|done].
    + left. apply bool_decide_eq_false in E. by apply dec_stable.
  - destruct (accepted v p' && _); [|by apply IH].
    destruct (IH (times_of times p' :: seen) Hin Ha) as [[->|Hs]%elem_of_cons|(q & Hq & Ht)].
    + right. exists p'. split; [left|done].
    + by left.
    + right. exists q. split; [by right|done].
Qed.

(** ** The composed iterator *)

(** The validator and the start times fit [n] slices. *)
Record fits (n : Z) (v : SliceTimePermutationValidator) (times : list Z) : Prop := {
  fits_times : Zlen times = n;
  fits_valid : 0 < original_num_slices_ v -> original_num_slices_ v = n /\
    Zlen (sizes_sorted_by_offset_ v) = n /\ Zlen (slice_time_to_inclusive_schedule_time_ v) = n;
}.

Lemma mapM_total {A B} (f : A -> outcome B) (g : A -> B) l :
  (forall a, a ∈ l -> f a = OK (g a)) -> mapM f l = OK (g <$> l).
Proof.
  induction l as [|a l IH]; intros Hf; [done|]. simpl. rewrite (Hf a) by left. cbn [mbind outcome_bind].
  rewrite IH by (intros b Hb; apply Hf; by right). done.
Qed.

Lemma at_total (l : list Z) i : 0 <= i < Zlen l -> at_ l i = OK (l !!! Z.to_nat i).
Proof.
  intros Hi. destruct (at_in_range l i Hi) as [a Ha]. rewrite Ha. f_equal. symmetry.
  apply list_lookup_total_correct. apply at_OK in Ha. by apply idx_Some in Ha as [_ ?].
Qed.

Lemma perm_total n p i : p ≡ₚ seqZ 0 n -> 0 <= i < n -> 0 <= p !!! Z.to_nat i < n.
Proof.
  intros Hp Hi. assert (Hl : is_Some (p !! Z.to_nat i)).
  { apply lookup_lt_is_Some. rewrite (Permutation_length Hp), length_seqZ. lia. }
  destruct Hl as [x Hx]. rewrite (list_lookup_total_correct _ _ _ Hx).
  apply list_elem_of_lookup_2 in Hx. rewrite Hp, elem_of_seqZ in Hx. lia.
Qed.

Lemma start_times_total n times p seen :
  Zlen times = n -> p ≡ₚ seqZ 0 n -> start_times (mkObserved times seen) p = OK (times_of times p).
Proof.
  intros Ht Hp. apply mapM_total. intros i Hi. simpl. apply at_total.
  rewrite Hp, elem_of_seqZ in Hi. lia.
Qed.

(** The pairs that the permutation proposes. *)
Definition proposed_pairs (sizes times p : list Z) : list (Z * Z) :=
  zip sizes (times_of times p).

Lemma proposed_pairs_spec n sizes times p :
  Zlen sizes = n -> p ≡ₚ seqZ 0 n ->
  proposed_pairs sizes times p =
  (fun i => (sizes !!! Z.to_nat i, times !!! Z.to_nat (p !!! Z.to_nat i))) <$> seqZ 0 n.
Proof.
  intros Hs Hp. unfold proposed_pairs, times_of.
  assert (Hlp : Zlen p = Z.of_nat (Z.to_nat n)) by (unfold Zlen; by rewrite (Permutation_length Hp), length_seqZ).
  unfold Zlen in *. apply list_eq_same_length with (Z.to_nat n).
  - by rewrite length_fmap, length_seqZ.
  - rewrite length_zip_with, length_fmap. lia.
  - intros k x y Hk Hx Hy. rewrite list_lookup_fmap in Hy. rewrite lookup_seqZ_lt in Hy by lia.
    injection Hy as <-. rewrite Z.add_0_l, Nat2Z.id.
    apply lookup_zip_with_Some in Hx as (a & b & -> & Ha & Hb).
    rewrite list_lookup_fmap in Hb. destruct (p !! k) as [c|] eqn:Ec; [|done]. injection Hb as <-.
    by rewrite (list_lookup_total_correct _ _ _ Ha), (list_lookup_total_correct _ _ _ Ec).
Qed.

Lemma IsValid_total n v times p :
  fits n v times -> p ≡ₚ seqZ 0 n ->
  IsValid v p = OK ((original_num_slices_ v <=? 0) ||
    bool_decide (original_slice_sizes_and_start_times_pairwise_sorted_ v =
      c_sort_pairs (proposed_pairs (sizes_sorted_by_offset_ v)
                      (slice_time_to_inclusive_schedule_time_ v) p))).
Proof.
  intros [_ Hv] Hp. unfold IsValid. destruct (Z.leb_spec (original_num_slices_ v) 0); simpl; [done|].
  destruct (Hv ltac:(lia)) as (Hn & Hs & Ht). rewrite Hs, Hn, Z.eqb_refl. cbn [check mbind outcome_bind].
  assert (Hlp : Zlen p = n) by (unfold Zlen; rewrite (Permutation_length Hp), length_seqZ; lia).
  rewrite Hlp, Z.eqb_refl. cbn [check mbind outcome_bind].
  rewrite (proposed_pairs_spec n), (mapM_total _ (fun i => (sizes_sorted_by_offset_ v !!! Z.to_nat i,
    slice_time_to_inclusive_schedule_time_ v !!! Z.to_nat (p !!! Z.to_nat i)))); [done| |done..].
  intros i Hi%elem_of_seqZ. rewrite (at_total (sizes_sorted_by_offset_ v)) by lia. cbn [mbind outcome_bind].
  rewrite (at_total p) by lia. cbn [mbind outcome_bind].
  rewrite at_total by (pose proof (perm_total n p i Hp ltac:(lia)); lia). done.
Qed.

Section Composed.
Context `{Laws : IteratorLaws It n}.
Context (v : SliceTimePermutationValidator) (times : list Z) (Hfits : fits n v times).

Lemma skipped_total seen base :
  Get base ≡ₚ seqZ 0 n ->
  skipped v (mkObserved times seen) base = OK
    (if accepted v (Get base) && bool_decide (times_of times (Get base) ∉ seen)
     then (false, mkObserved times (times_of times (Get base) :: seen))
     else (true, mkObserved times seen)).
Proof.
  intros Hp. unfold skipped, accepted. rewrite (IsValid_total n v times) by done.
  cbn [mbind outcome_bind]. destruct (_ || _); [|done]. unfold Observed_Insert.
  rewrite (start_times_total n) by (done || apply Hfits). cbn [mbind outcome_bind].
  cbn [observed_inclusive_start_time_permutation_ slice_time_to_inclusive_start_time_].
  destruct (decide (times_of times (Get base) ∈ seen)) as [Hs|Hs].
  - rewrite bool_decide_eq_false_2; [done|]. by intros ?.
  - by rewrite bool_decide_eq_true_2.
Qed.

(** Skipping stops at the next kept value, and from there the composed iterator
    enumerates the kept ones. *)
Lemma advance_Enum base ps :
  Enum base ps -> started (n := n) base ->
  forall seen fuel, (length ps <= fuel)%nat ->
  exists seen' base',
    advance fuel v (mkObserved times seen) base = OK (mkObserved times seen', base') /\
    Enum (mkComposed v (mkObserved times seen') base') (kept v times seen ps) /\
    started (n := n) base' /\ (remaining (n := n) base' <= remaining (n := n) base)%nat.
Proof.
  induction 1 as [base Hd|base base2 ps Hd HN He IH]; intros Hs seen fuel Hf.
  { exists seen, base. destruct fuel; simpl; rewrite Hd; repeat split; try done; by constructor. }
  destruct (law_Next base Hs Hd) as (b & Hb & Hs2 & Hlt). rewrite HN in Hb. injection Hb as <-.
  simpl in Hf. destruct fuel as [|fuel]; [lia|]. simpl. rewrite Hd, skipped_total by by apply law_Get.
  cbn [mbind outcome_bind]. destruct (_ && _) eqn:E.
  - exists (times_of times (Get base) :: seen), base. split; [done|]. split; [|split; [done|lia]].
    destruct (IH Hs2 (times_of times (Get base) :: seen) (Bound base2)) as (seen' & base' & Ha & He' & _).
    { pose proof (Enum_length _ _ He Hs2). pose proof (law_Bound base2 Hs2). lia. }
    change (Get base) with (Get (mkComposed v (mkObserved times (times_of times (Get base) :: seen)) base)) at 2.
    apply Enum_next with (mkComposed v (mkObserved times seen') base'); [done| |done].
    cbn [Next Composed_iterator]. unfold NextImpl. cbn [mbind outcome_bind base_iterator_]. rewrite Hd, HN.
    cbn [mbind outcome_bind validator_ seen_]. by rewrite Ha.
  - rewrite HN. cbn [mbind outcome_bind]. destruct (IH Hs2 seen fuel ltac:(lia)) as (seen' & base' & ? & ? & ? & ?).
    exists seen', base'. repeat split; try done. lia.
Qed.

Definition composed_state (P : It -> Prop) (it : ComposedSliceTimePermutationIterator It) : Prop :=
  validator_ it = v /\ slice_time_to_inclusive_start_time_ (seen_ it) = times /\ P (base_iterator_ it).

Lemma advance_total base seen :
  started (n := n) base -> exists seen' base',
    advance (Bound base) v (mkObserved times seen) base = OK (mkObserved times seen', base') /\
    started (n := n) base' /\ (remaining (n := n) base' <= remaining (n := n) base)%nat.
Proof.
  intros Hs. destruct (Enum_total base Hs) as [ps He].
  destruct (advance_Enum base ps He Hs seen (Bound base)) as (seen' & base' & Ha & _ & Hs' & Hr); [|eauto].
  pose proof (Enum_length _ _ He Hs). pose proof (law_Bound base Hs). lia.
Qed.

Lemma NextImpl_Begin it base :
  composed_state (ready (n := n)) it -> Begin (base_iterator_ it) = OK base -> started (n := n) base ->
  NextImpl true it =
  ('(seen, base') ← advance (Bound base) v (mkObserved times []) base; OK (mkComposed v seen base')).
Proof.
  destruct it as [v' [ts seen] b]. intros (Hv & Ht & Hb) HB Hs. simpl in *. subst v' ts.
  unfold NextImpl. cbn [base_iterator_]. rewrite HB. cbn [mbind outcome_bind base_iterator_].
  unfold Observed_Clear. cbn [slice_time_to_inclusive_start_time_ validator_ seen_].
  destruct (Done base) eqn:Hd; [|done]. destruct (Bound base); simpl; by rewrite Hd.
Qed.

#[local] Program Instance Composed_laws : IteratorLaws (ComposedSliceTimePermutationIterator It) n := {
  ready := composed_state (ready (n := n));
  started := composed_state (started (n := n));
  remaining it := remaining (n := n) (base_iterator_ it);
}.
Next Obligation. intros it (? & ? & Hb). split; [done|]. split; [done|]. by apply law_ready. Qed.
Next Obligation.
  intros it Hr. destruct (law_Begin (base_iterator_ it)) as (base & HB & Hs); [apply Hr|].
  destruct (advance_total base [] Hs) as (seen' & base' & Ha & Hs' & _).
  exists (mkComposed v (mkObserved times seen') base'). split; [|by repeat split].
  change (NextImpl true it = OK (mkComposed v (mkObserved times seen') base')).
  rewrite (NextImpl_Begin it base) by done. by rewrite Ha.
Qed.
Next Obligation.
  intros [v' [ts seen] base] (Hv & Ht & Hs) Hd. simpl in *. subst v' ts.
  destruct (law_Next base Hs Hd) as (b & HN & Hs2 & Hlt).
  destruct (advance_total b seen Hs2) as (seen' & base' & Ha & Hs' & Hr).
  exists (mkComposed v (mkObserved times seen') base'). split; [|split; [by repeat split|simpl; lia]].
  unfold NextImpl. cbn [mbind outcome_bind base_iterator_ validator_ seen_]. rewrite Hd, HN.
  cbn [mbind outcome_bind]. by rewrite Ha.
Qed.
Next Obligation. intros it (_ & _ & Hs) Hd. exact (law_Get (n := n) (base_iterator_ it) Hs Hd). Qed.
Next Obligation. intros it (_ & _ & Hs). exact (law_Bound (n := n) (base_iterator_ it) Hs). Qed.

End Composed.

(** ** The permutation iterators that are created

    The constructor of the preferred iterator for a repacked allocation, what the
    base iterators of CreateForNewAllocation and CreateForRepack enumerate, and
    which permutations the validator of a repack accepts. *)

(** ** The slice times of a repacked allocation *)

Lemma BuildSliceToSliceTimeMap_perm o : BuildSliceToSliceTimeMap o ≡ₚ seq 0 (length o).
Proof. apply merge_sort_Permutation. Qed.

Lemma slice_time_of_spec (times : list nat) i :
  i ∈ times -> exists t, slice_time_of times i = Z.of_nat t /\ times !! t = Some i.
Proof.
  intros Hi. unfold slice_time_of. destruct (list_find_elem_of (i =.) times i Hi eq_refl) as [[t j] Ht].
  rewrite Ht. apply list_find_Some in Ht as (Ht & -> & _). by exists t.
Qed.

Lemma slice_times_perm n (times : list nat) :
  times ≡ₚ seq 0 n -> slice_time_of times <$> seq 0 n ≡ₚ seqZ 0 (Z.of_nat n).
Proof.
  intros Hp. assert (Hin : forall i, i ∈ seq 0 n -> i ∈ times) by (intros i; by rewrite Hp).
  apply submseteq_length_Permutation; [|by rewrite length_fmap, length_seq, length_seqZ; lia].
  apply NoDup_submseteq.
  - apply NoDup_fmap_2_strong; [|apply NoDup_seq]. intros i j Hi Hj E.
    destruct (slice_time_of_spec times i) as (ti & Ei & Hti); [by apply Hin|].
    destruct (slice_time_of_spec times j) as (tj & Ej & Htj); [by apply Hin|].
    rewrite Ei, Ej in E. apply Nat2Z.inj in E as ->. congruence.
  - intros t (i & -> & Hi)%list_elem_of_fmap.
    destruct (slice_time_of_spec times i) as (t & -> & Ht); [by apply Hin|].
    apply elem_of_seqZ. apply lookup_lt_Some in Ht.
    rewrite (Permutation_length Hp), length_seq in Ht. lia.
Qed.

(** ** The constructor's loop

    A slice is an item: whether its position is fixed, and its slice time. *)

Definition item : Type := bool * Z.
Definition item_value (x : item) : Z := if x.1 then x.2 else 0.
Definition available_times (items : list item) : list Z := (filter (fun x => x.1 = false) items).*2.

Lemma items_free k items :
  length (free_from k items.*1) = length (available_times items).
Proof.
  revert k. induction items as [|[b t] items IH]; intros k; [done|]. unfold available_times in *. simpl.
  rewrite length_app, filter_cons. destruct b; simpl; by rewrite IH.
Qed.

Lemma items_values items :
  fixed_values items.*1 (item_value <$> items) ++ available_times items ≡ₚ items.*2.
Proof.
  induction items as [|[b t] items IH]; [done|]. unfold available_times in *. simpl.
  rewrite filter_cons. destruct b; simpl; [by rewrite IH|].
  by rewrite <- Permutation_middle, IH.
Qed.

Lemma set_at_next {A} (l : list A) x y r : set_at (l ++ y :: r) (Zlen l) x = OK ((l ++ [x]) ++ r).
Proof.
  apply set_at_OK. unfold Zlen. rewrite length_app. simpl. split; [lia|].
  rewrite Nat2Z.id. replace (length l) with (length l + 0)%nat by lia. rewrite insert_app_r. simpl.
  by rewrite <- app_assoc.
Qed.

Definition slice_item (o : list AllocatedSlice) (times : list nat) (i : nat) : item :=
  (bool_decide ((slice_size <$> o !! i) <> (slice_size <$> o !! 0%nat)), slice_time_of times i).

Lemma fix_slices_ok o times :
  let n := length o in
  foldM (fix_slice o times) (replicate n false, [], replicate n 0) (seqZ 0 (Z.of_nat n)) =
  OK ((slice_item o times <$> seq 0 n).*1, available_times (slice_item o times <$> seq 0 n),
      item_value <$> (slice_item o times <$> seq 0 n)).
Proof.
  intros n. set (items k := slice_item o times <$> seq 0 k).
  destruct (foldM_total (fun l x => x = ((items (length l)).*1 ++ replicate (n - length l) false,
      available_times (items (length l)),
      (item_value <$> items (length l)) ++ replicate (n - length l) 0))
    (fix_slice o times) (seqZ 0 (Z.of_nat n)) (replicate n false, [], replicate n 0)) as (x & HF & Hx).
  - simpl. by rewrite Nat.sub_0_r.
  - intros l1 i l2 x Hsp ->. assert (Hi : i = Zlen l1 /\ (length l1 < n)%nat).
    { assert (Hl : seqZ 0 (Z.of_nat n) !! length l1 = Some i) by (rewrite Hsp; by apply list_lookup_middle).
      apply lookup_seqZ in Hl as [-> ?]. unfold Zlen. lia. }
    destruct Hi as [-> Hlt]. set (k := length l1) in *. rewrite length_app. simpl.
    fold k. rewrite Nat.add_1_r.
    assert (Hk : (n - k = S (n - S k))%nat) by lia. rewrite Hk.
    assert (Hit : items (S k) = items k ++ [slice_item o times k]).
    { unfold items. by rewrite seq_S, fmap_app. }
    rewrite Hit, !fmap_app. unfold available_times. rewrite filter_app, fmap_app. simpl.
    destruct (lookup_lt_is_Some_2 o 0) as [f Hf]; [lia|]. destruct (lookup_lt_is_Some_2 o k) as [s Hs]; [done|].
    unfold fix_slice. eexists. split; [|reflexivity].
    assert (E0 : at_ o 0 = OK f) by (apply at_OK; by rewrite (idx_of_nat o 0 : idx o 0 = _)).
    rewrite E0. cbn [mbind outcome_bind].
    assert (Ek : at_ o (Zlen l1) = OK s) by (apply at_OK; unfold Zlen; by rewrite idx_of_nat).
    rewrite Ek. cbn [mbind outcome_bind]. replace (Z.to_nat (Zlen l1)) with k by (unfold Zlen; lia).
    unfold slice_item. rewrite Hf, Hs. simpl.
    assert (Hlen : Zlen l1 = Zlen (items k).*1 /\ Zlen l1 = Zlen (item_value <$> items k)).
    { unfold Zlen, items. by rewrite !length_fmap, length_seq. }
    destruct Hlen as [Hl1 Hl2].
    destruct (Z.eqb_spec (slice_size s) (slice_size f)) as [E|E]; simpl.
    + rewrite bool_decide_eq_false_2 by (rewrite E; by intros ?). by rewrite <- !app_assoc.
    + rewrite bool_decide_eq_true_2 by congruence. rewrite Hl1, set_at_next. cbn [mbind outcome_bind].
      rewrite <- Hl1, Hl2, set_at_next. simpl. by rewrite app_nil_r.
  - rewrite HF. subst x. by rewrite length_seqZ, Nat2Z.id, Nat.sub_diag, !app_nil_r.
Qed.

Lemma new_Preferred_repack d :
  exists it, new_Preferred (num_slices d) (Some d) = OK it /\ pref_ready (num_slices d) it.
Proof.
  unfold new_Preferred, num_slices, Zlen. set (o := slices_sorted_by_offset d).
  rewrite Nat2Z.id, fix_slices_ok. cbn [mbind outcome_bind]. eexists. split; [done|].
  set (items := slice_item o _ <$> seq 0 (length o)).
  assert (Hlen : length items = length o) by (unfold items; by rewrite length_fmap, length_seq).
  split; simpl; rewrite ?Nat2Z.id; [done|by rewrite length_fmap|by rewrite length_fmap| |].
  - unfold free, c_sort. rewrite items_free. apply Permutation_length, merge_sort_Permutation.
  - unfold c_sort. rewrite merge_sort_Permutation, items_values. unfold items.
    rewrite <- list_fmap_compose. apply slice_times_perm, BuildSliceToSliceTimeMap_perm.
Qed.

(** ** The base iterators *)

Lemma seqZ_ascending n : StronglySorted Z.le (seqZ 0 n).
Proof.
  apply sorted_lookup_2. intros i j x y Hx Hy Hij.
  apply lookup_seqZ in Hx as [-> _]. apply lookup_seqZ in Hy as [-> _]. lia.
Qed.

Lemma filter_always (f : Z -> bool) (l : list Z) : (forall i, f i = true) -> filter f l = l.
Proof. intros Hf. induction l as [|i l IH]; [done|]. by rewrite filter_cons, Hf, IH. Qed.
Lemma filter_never (f : Z -> bool) (l : list Z) : (forall i, f i = false) -> filter f l = [].
Proof. intros Hf. induction l as [|i l IH]; [done|]. by rewrite filter_cons, Hf. Qed.

Lemma Enum_base_all it ps : Enum it ps -> Enum (base_all it) ps.
Proof.
  induction 1 as [it Hd|it it' ps Hd HN He IH]; [by constructor|].
  change (Get it) with (Get (base_all it)). apply (Enum_next _ (base_all it')); [done| |done].
  cbn [Next Base_iterator]. by rewrite HN.
Qed.
Lemma Enum_base_preferred it ps : Enum it ps -> Enum (base_preferred it) ps.
Proof.
  induction 1 as [it Hd|it it' ps Hd HN He IH]; [by constructor|].
  change (Get it) with (Get (base_preferred it)). apply (Enum_next _ (base_preferred it')); [done| |done].
  cbn [Next Base_iterator]. by rewrite HN.
Qed.

(** Both begin at a permutation and enumerate only permutations; the first iterator
    begins at the identity and leaves out none. *)
Lemma all_enumerates n :
  0 <= n -> exists base all,
    Begin (base_all (new_All n)) = OK base /\ started (n := n) base /\ Enum base all /\
    Forall (fun p => p ≡ₚ seqZ 0 n) all /\
    (0 < n -> head all = Some (seqZ 0 n) /\ forall p, p ≡ₚ seqZ 0 n -> p ∈ all).
Proof.
  intros Hn. assert (Hr : ready (n := n) (new_All n)) by (split; [done|apply length_replicate]).
  assert (HB : Begin (new_All n) = OK (mkAll n (n <=? 0) (seqZ 0 n))).
  { simpl. unfold All_Begin. simpl. rewrite fill_identity by apply length_replicate. done. }
  destruct (law_Begin _ Hr) as (it & HB' & Hs). rewrite HB in HB'. injection HB' as <-.
  destruct (Enum_total _ Hs) as [all He]. set (it := mkAll _ _ _) in *.
  exists (base_all it), all. split; [cbn [Begin Base_iterator]; by rewrite HB|]. split; [done|].
  split; [by apply Enum_base_all|]. split; [by apply (Enum_perm _ _ He)|]. intros Hpos.
  assert (Hd : Done it = false) by (simpl; lia). split.
  - inversion He as [? Hd'|? it' ps Hd' HN He']; subst; [congruence|done].
  - intros p Hp. apply (All_complete n it all p He Hs Hd Hp). simpl. apply ascending_min; [|done].
    apply seqZ_ascending.
Qed.

Lemma preferred_enumerates n :
  0 <= n -> exists it base,
    new_Preferred n None = OK it /\ Begin (base_preferred it) = OK base /\ started (n := n) base /\
    ready (n := n) it /\ Enum base (candidates n) /\ Forall (fun p => p ≡ₚ seqZ 0 n) (candidates n).
Proof.
  intros Hn. destruct (new_Preferred_free n Hn) as (it & HN & Hf).
  set (ty := NextPermutationType n kUninitialized).
  assert (Hty : ty <> kUninitialized) by (unfold ty; simpl; by destruct (_ <=? _)).
  destruct (SetUp_free n (set_permutation_type ty it)) as (it' & HS & Hf' & Ht & Hp); [|done|].
  { destruct Hf as ([] & ? & ?). repeat split; done. }
  assert (Hr : ready (n := n) it) by apply Hf.
  destruct (law_Begin it Hr) as (it2 & HB & Hs).
  assert (HB' : Begin it = OK it').
  { change (Preferred_Begin it = OK it'). unfold Preferred_Begin. destruct Hf as ([Hn' _ _ _ _] & _ & _).
    rewrite Hn'. by fold ty. }
  rewrite HB in HB'. injection HB' as ->. simpl in Ht, Hp. rewrite <- Ht in Hty, Hp.
  assert (He : Enum it' (candidates n)).
  { unfold candidates. fold ty. rewrite <- Ht. apply Enum_free; [done|done| |done].
    destruct (permutation_type_ it'); simpl; lia. }
  exists it, (base_preferred it'). split; [done|]. split; [cbn [Begin Base_iterator]; by rewrite HB|].
  split; [done|]. split; [done|]. split; [by apply Enum_base_preferred|]. by apply (Enum_perm _ _ He).
Qed.

Lemma sublist_Forall {A} (P : A -> Prop) l k : l `sublist_of` k -> Forall P k -> Forall P l.
Proof.
  intros Hs. rewrite !Forall_forall. intros Hk x Hx. apply Hk.
  by apply (elem_of_submseteq l), sublist_submseteq.
Qed.

(** ** New allocations *)

Lemma candidate_smaller n : candidate n kSmallerOffsetSmallerSliceTime = seqZ 0 n.
Proof. unfold candidate. by rewrite filter_never, filter_always. Qed.
Lemma candidate_larger n : candidate n kSmallerOffsetLargerSliceTime = rev (seqZ 0 n).
Proof. unfold candidate. rewrite filter_always, filter_never by done. apply app_nil_r. Qed.

Lemma candidates_take (l : list Z) :
  candidates (Zlen l) = take (length l)
    [seqZ 0 (Zlen l); rev (seqZ 0 (Zlen l));
     filter IsOdd (rev (seqZ 0 (Zlen l))) ++ filter IsEven (seqZ 0 (Zlen l))].
Proof.
  unfold candidates. change (filter IsOdd (rev (seqZ 0 (Zlen l))) ++ filter IsEven (seqZ 0 (Zlen l)))
    with (candidate (Zlen l) kDistributeSmallSliceTimesAroundMiddleOffset).
  rewrite <- (candidate_larger (Zlen l)), <- (candidate_smaller (Zlen l)).
  assert (Hl : Zlen l = Z.of_nat (length l)) by done. revert Hl.
  generalize (Zlen l), (length l). intros n k ->.
  destruct k as [|[|[|k]]]; [done..|].
  assert (Hle : forall i, i <= 2 -> (Z.of_nat (S (S (S k))) <=? i) = false) by (intros i ?; apply Z.leb_gt; lia).
  generalize dependent (Z.of_nat (S (S (S k)))). intros n Hle.
  unfold types_from, NextPermutationType. rewrite (Hle 0) by lia. cbn [is_kDone].
  rewrite (Hle 1) by lia. cbn [is_kDone]. rewrite (Hle 2) by lia. simpl. by rewrite take_nil.
Qed.

Lemma accepted_new p : accepted (new_validator None) p = true.
Proof. done. Qed.

Lemma fits_new times : fits (Zlen times) (new_validator None) times.
Proof. split; [done|]. simpl. lia. Qed.

Lemma Zlen_c_sort l : Zlen (c_sort l) = Zlen l.
Proof. unfold Zlen, c_sort. by rewrite (Permutation_length (merge_sort_Permutation _ l)). Qed.

(** ** Repacked allocations *)

#[local] Instance pair_le_total : Total pair_le.
Proof. intros [a b] [c d]. unfold pair_le. simpl. lia. Qed.
#[local] Instance pair_le_trans : Transitive pair_le.
Proof. intros [a b] [c d] [e f]. unfold pair_le. simpl. lia. Qed.
#[local] Instance pair_le_antisym : AntiSymm (=) pair_le.
Proof. intros [a b] [c d]. unfold pair_le. simpl. intros ? ?. f_equal; lia. Qed.

Lemma c_sort_pairs_eq l k : c_sort_pairs l = c_sort_pairs k <-> l ≡ₚ k.
Proof.
  unfold c_sort_pairs. split.
  - intros E. by rewrite <- (merge_sort_Permutation pair_le l), E, merge_sort_Permutation.
  - intros Hp. apply (Sorted_unique pair_le); [apply Sorted_merge_sort; apply _..|].
    by rewrite !merge_sort_Permutation.
Qed.

Lemma c_sort_idem l : c_sort (c_sort l) = c_sort l.
Proof.
  unfold c_sort. apply (Sorted_unique Z.le); [apply Sorted_merge_sort; apply _..|].
  by rewrite merge_sort_Permutation.
Qed.

(** The slices' sizes and start times. *)
Definition slice_pairs (d : SlicedAllocationData) : list (Z * Z) :=
  (fun s => (slice_size s, inclusive_start_time s)) <$> slices_sorted_by_offset d.

Lemma Zlen_sizes d : Zlen (SizesSortedByOffset d) = num_slices d.
Proof. unfold SizesSortedByOffset, num_slices, Zlen. by rewrite length_fmap. Qed.
Lemma Zlen_starts d : Zlen (SortedInclusiveStartTimes d) = num_slices d.
Proof. unfold SortedInclusiveStartTimes. rewrite Zlen_c_sort. unfold num_slices, Zlen. by rewrite length_fmap. Qed.

Lemma new_validator_fits d : fits (num_slices d) (new_validator (Some d)) (SortedInclusiveStartTimes d).
Proof.
  split; [apply Zlen_starts|]. simpl. destruct (Z.leb_spec (num_slices d) 0); simpl; [lia|].
  intros _. by rewrite Zlen_c_sort, Zlen_starts, Zlen_sizes.
Qed.

(** The validator accepts exactly the permutations that keep the multiset of sizes
    and start times. *)
Lemma accepted_repack d p :
  p ≡ₚ seqZ 0 (num_slices d) ->
  accepted (new_validator (Some d)) p = true <->
  proposed_pairs (SizesSortedByOffset d) (SortedInclusiveStartTimes d) p ≡ₚ slice_pairs d.
Proof.
  intros Hp. unfold accepted. rewrite (IsValid_total _ _ _ p (new_validator_fits d) Hp).
  simpl. destruct (Z.leb_spec (num_slices d) 0) as [H0|H0]; simpl.
  - destruct d as [[|s o]]; [|exfalso; unfold num_slices, Zlen in H0; simpl in H0; lia].
    split; [done|]. done.
  - destruct (Z.leb_spec (num_slices d) 0); [lia|]. simpl. rewrite bool_decide_eq_true.
    fold (slice_pairs d). rewrite c_sort_pairs_eq. unfold SortedInclusiveStartTimes. rewrite c_sort_idem. done.
Qed.

Lemma base_enumerates ty d :
  exists base base' all,
    new_base ty (num_slices d) (Some d) = OK base /\ ready (n := num_slices d) base /\
    Begin base = OK base' /\ started (n := num_slices d) base' /\ Enum base' all /\
    Forall (fun p => p ≡ₚ seqZ 0 (num_slices d)) all /\
    (ty = kAll -> 0 < num_slices d -> forall p, p ≡ₚ seqZ 0 (num_slices d) -> p ∈ all).
Proof.
  destruct ty; cbn [new_base].
  - destruct (all_enumerates (num_slices d)) as (base & all & HB & Hs & He & Hall & Hc); [apply Zlen_nonneg|].
    exists (base_all (new_All (num_slices d))), base, all. split; [done|].
    split; [split; [done|apply length_replicate]|]. do 4 (split; [done|]). intros _ Hpos. by apply Hc.
  - destruct (new_Preferred_repack d) as (it & HN & Hr). rewrite HN. cbn [mbind outcome_bind].
    assert (Hr' : ready (n := num_slices d) (base_preferred it)) by done.
    destruct (law_Begin _ Hr') as (base' & HB & Hs). destruct (Enum_total _ Hs) as [all He].
    exists (base_preferred it), base', all. do 5 (split; [done|]). split; [by apply (Enum_perm _ _ He)|done].
Qed.
