(* ===== verification/PermutationTheorems.v ===== *)
(** * The iterators of a repacking, and the properties of the permutations that the
    finder tries. *)

From stdpp Require Import sorting.
From S2P Require Import Prelude SlicePermutation PermutationEnum PermutationPreferred PermutationCreate.

(** ** Loops over a permutation iterator can be repeated

    The allocation finder runs its iterator once for every offset it tries.  The
    class [Repeatable] states what it needs: whenever Begin is called on an iterator
    that came out of an earlier loop, the same permutations follow. *)

Class Repeatable (It : Type) `{SliceTimePermutationIterator It} (ps : list (list Z)) := {
  usable : It -> Prop;
  rep_Begin it : usable it -> exists it',
    Begin it = OK it' /\ usable it' /\ Enum it' ps /\ (length ps <= Bound it')%nat;
  rep_Next it it' : usable it -> Done it = false -> Next it = OK it' -> usable it';
}.

Lemma Enum_Bound `{IteratorLaws It n} it ps : started it -> Enum it ps -> (length ps <= Bound it)%nat.
Proof. intros Hs He. pose proof (Enum_length _ _ He Hs). pose proof (law_Bound it Hs). lia. Qed.

(** ** The base iterators *)

Program Definition All_repeatable n all (He : Enum (mkAll n (n <=? 0) (seqZ 0 n)) all) :
    Repeatable SliceTimeAllPermutationIterator all := {|
  usable := all_ready n;
|}.
Next Obligation.
  intros n all He it Hr. assert (Hr' : ready (n := n) it) by done.
  destruct (law_Begin it Hr') as (it' & HB & Hs). exists it'. split; [done|].
  split; [exact (law_ready it' Hs)|]. destruct Hr as [Hn Hlen]. simpl in HB. unfold All_Begin in HB.
  rewrite Hn, fill_identity in HB by done. cbn [mbind outcome_bind] in HB. injection HB as <-.
  split; [done|]. by apply (Enum_Bound (n := n)).
Qed.
Next Obligation.
  intros n all _ it it' [Hn Hlen] Hd HN. simpl in *. unfold All_Next in HN. rewrite Hd in HN.
  unfold next_permutation in HN. destruct (next_permutation_opt (all_permutation_ it)) as [l'|] eqn:E;
    injection HN as <-; (split; [done|]); simpl.
  - apply next_Some in E as [Hp _]. by rewrite (Permutation_length Hp).
  - by rewrite length_rev.
Qed.

(** The permutation is used only where it is fixed. *)
Definition pref_usable (n : Z) (fixed : list bool) (avail p0 : list Z)
    (it : SliceTimePreferredPermutationIterator) : Prop :=
  pref_ready n it /\ fixed_permutation_values_ it = fixed /\
  slice_times_available_for_permutation_ it = avail /\
  forall vs, length vs = length avail -> merge fixed vs (permutation_ it) = merge fixed vs p0.

Lemma merge_merge fixed vs ws p :
  length vs = length (free fixed) -> length ws = length (free fixed) -> length p = length fixed ->
  merge fixed vs (merge fixed ws p) = merge fixed vs p.
Proof.
  unfold free. generalize 0%nat. revert vs ws p. induction fixed as [|b fixed IH]; intros vs ws p k Hv Hw Hp; simpl.
  { by destruct p. }
  destruct p as [|x p]; [done|]. simpl in *. destruct b; simpl in *.
  - f_equal. apply (IH vs ws p (S k)); lia.
  - destruct ws as [|w ws]; [done|]. destruct vs as [|v vs]; [done|]. simpl in *. f_equal.
    apply (IH vs ws p (S k)); lia.
Qed.

Lemma length_pattern it :
  permutation_type_ it <> kUninitialized -> permutation_type_ it <> kDone ->
  length (pattern it) = length (slice_times_available_for_permutation_ it).
Proof. intros Hu Hd. exact (Permutation_length (chosen_perm it _ Hu Hd)). Qed.

Lemma SetUp_usable n fixed avail p0 it :
  pref_usable n fixed avail p0 it -> permutation_type_ it <> kUninitialized ->
  exists it', SetUpPermutationForCurrentType it = OK it' /\ pref_usable n fixed avail p0 it' /\
    (permutation_type_ it <> kDone ->
     it' = mkPreferred n fixed avail (permutation_type_ it) (merge fixed (pattern it) p0)).
Proof.
  intros (Hr & Hf & Ha & Hm) Hu. destruct (SetUp_ok n it Hr Hu) as (it' & HS & Hr' & Ht & Hf' & Ha' & Hp).
  exists it'. split; [done|]. destruct (decide (permutation_type_ it = kDone)) as [Hd|Hd].
  { split; [|done]. unfold SetUpPermutationForCurrentType in HS. rewrite Hd in HS. simpl in HS.
    injection HS as <-. exact (conj Hr (conj Hf (conj Ha Hm))). }
  destruct (Hp Hd) as [Hperm Hmerge]. rewrite Hf in *. rewrite Ha in *.
  assert (Hlen : length (pattern it) = length avail) by (rewrite <- Ha; by apply length_pattern).
  assert (Hav : length avail = length (free fixed)).
  { destruct Hr as [_ _ _ Hav _]. by rewrite Ha, Hf in Hav. }
  assert (Hpl : length (permutation_ it) = length fixed).
  { destruct Hr as [_ Hfl Hpl _ _]. rewrite Hf in Hfl. lia. }
  split.
  - split; [done|]. split; [done|]. split; [done|]. intros vs Hvs. rewrite Hmerge, merge_merge by lia. by apply Hm.
  - intros _. rewrite Hm in Hmerge by done. destruct Hr' as [Hn' _ _ _ _]. destruct it'; simpl in *. congruence.
Qed.

Lemma pref_usable_type n fixed avail p0 ty it :
  pref_usable n fixed avail p0 it -> pref_usable n fixed avail p0 (set_permutation_type ty it).
Proof. intros ([] & ? & ? & ?). by repeat split. Qed.

(** After Begin, the iterator is the same for all usable ones, unless it is done. *)
Lemma Preferred_Begin_usable n fixed avail p0 it :
  pref_usable n fixed avail p0 it -> exists it',
    Begin it = OK it' /\ pref_usable n fixed avail p0 it' /\
    if n <=? 0 then Done it' = true
    else forall it2, pref_usable n fixed avail p0 it2 -> Begin it2 = OK it'.
Proof.
  intros Hu. set (ty := NextPermutationType n kUninitialized).
  assert (Hty : ty <> kUninitialized) by (unfold ty; simpl; by destruct (_ <=? _)).
  assert (HB : forall it2, pref_usable n fixed avail p0 it2 ->
    Begin it2 = SetUpPermutationForCurrentType (set_permutation_type ty it2)).
  { intros it2 Hu2. change (Preferred_Begin it2 = SetUpPermutationForCurrentType (set_permutation_type ty it2)).
    unfold Preferred_Begin. destruct Hu2 as ([Hn _ _ _ _] & _). by rewrite Hn. }
  destruct (SetUp_usable _ _ _ _ _ (pref_usable_type _ _ _ _ ty _ Hu) Hty) as (it' & HS & Hu' & Hd).
  exists it'. rewrite (HB it) by done. split; [done|]. split; [done|]. simpl in Hd.
  destruct (n <=? 0) eqn:En.
  - assert (E : ty = kDone) by (unfold ty; simpl; by rewrite En).
    unfold SetUpPermutationForCurrentType in HS. simpl in HS. rewrite E in HS. simpl in HS. by injection HS as <-.
  - assert (E : ty = kSmallerOffsetSmallerSliceTime) by (unfold ty; simpl; by rewrite En).
    intros it2 Hu2. rewrite (HB it2) by done.
    destruct (SetUp_usable _ _ _ _ _ (pref_usable_type _ _ _ _ ty _ Hu2) Hty) as (it2' & -> & _ & Hd2).
    simpl in Hd2. rewrite Hd, Hd2 by (rewrite E; done). unfold pattern, chosen.
    cbn [set_permutation_type slice_times_available_for_permutation_ permutation_type_].
    destruct Hu as (_ & _ & Ha & _), Hu2 as (_ & _ & Ha2 & _). by rewrite Ha, Ha2.
Qed.

Lemma Preferred_repeatable n it0 it1 all :
  pref_ready n it0 -> Begin it0 = OK it1 -> Enum it1 all ->
  exists R : Repeatable SliceTimePreferredPermutationIterator all,
    usable (Repeatable := R) it0 /\ forall it, usable (Repeatable := R) it -> ready (n := n) it.
Proof.
  intros Hr HB0 He. set (U := pref_usable n (fixed_permutation_values_ it0)
    (slice_times_available_for_permutation_ it0) (permutation_ it0)).
  assert (HU : U it0) by exact (conj Hr (conj eq_refl (conj eq_refl (fun _ _ => eq_refl)))).
  assert (Hb : forall it, U it -> exists it', Begin it = OK it' /\ U it' /\ Enum it' all /\ (length all <= Bound it')%nat).
  { intros it Hit. destruct (Preferred_Begin_usable _ _ _ _ it Hit) as (it' & HB & Hit' & Hcase).
    exists it'. split; [done|]. split; [done|].
    assert (Hri : ready (n := n) it) by apply Hit.
    destruct (law_Begin it Hri) as (it2 & HB2 & Hs). rewrite HB in HB2. injection HB2 as <-.
    assert (He' : Enum it' all); [|split; [done|by apply (Enum_Bound (n := n))]].
    destruct (n <=? 0) eqn:En.
    - destruct (Preferred_Begin_usable _ _ _ _ it0 HU) as (it3 & HB3 & _ & Hd3). rewrite En in Hd3.
      rewrite HB0 in HB3. injection HB3 as <-. inversion He; subst; [by constructor|congruence].
    - specialize (Hcase it0 HU). rewrite HB0 in Hcase. by injection Hcase as <-. }
  assert (Hn : forall it it', U it -> Done it = false -> Next it = OK it' -> U it').
  { intros it it' Hit Hd HN. change (Preferred_Next it = OK it') in HN. unfold Preferred_Next in HN.
    destruct (SetUp_usable _ _ _ _ _ (pref_usable_type _ _ _ _ (NextPermutationType (num_slices_ it)
      (permutation_type_ it)) _ Hit)) as (it2 & HS & Hu2 & _).
    - simpl. destruct (permutation_type_ it); simpl; by try destruct (_ <=? _).
    - rewrite HN in HS. by injection HS as <-. }
  exists (Build_Repeatable _ _ _ U Hb Hn). split; [done|]. intros it Hit. apply Hit.
Qed.

Lemma Enum_base_inv b all :
  Enum b all -> match b with base_all it => Enum it all | base_preferred it => Enum it all end.
Proof.
  induction 1 as [b Hd|b b' all Hd HN He IH]; [destruct b; by constructor|].
  destruct b as [it|it]; cbn [Next Base_iterator] in HN.
  - destruct (Next it) as [it'| | |] eqn:E; try done. injection HN as <-.
    change (Get (base_all it)) with (Get it). by apply (Enum_next it it').
  - destruct (Next it) as [it'| | |] eqn:E; try done. injection HN as <-.
    change (Get (base_preferred it)) with (Get it). by apply (Enum_next it it').
Qed.

Lemma Base_repeatable n b0 b1 all :
  ready (n := n) b0 -> Begin b0 = OK b1 -> Enum b1 all ->
  exists R : Repeatable BaseIterator all,
    usable (Repeatable := R) b0 /\ forall b, usable (Repeatable := R) b -> ready (n := n) b.
Proof.
  intros Hr HB He. pose proof (Enum_base_inv _ _ He) as He'. destruct b0 as [it0|it0]; cbn [Begin Base_iterator] in HB.
  - destruct (Begin it0) as [it1| | |] eqn:E; try done. injection HB as <-. cbn in He'.
    assert (E1 : it1 = mkAll n (n <=? 0) (seqZ 0 n)).
    { destruct Hr as [Hn Hlen]. simpl in E. unfold All_Begin in E. rewrite Hn, fill_identity in E by done. by injection E. }
    subst it1. pose (RA := All_repeatable n all He').
    pose proof (rep_Begin (Repeatable := RA)) as Hb. pose proof (rep_Next (Repeatable := RA)) as Hn.
    unshelve eexists (Build_Repeatable _ _ _ (fun b => match b with base_all it => all_ready n it | _ => False end) _ _).
    + intros [it|it] Hit; [|done]. destruct (Hb it Hit) as (it' & HB' & ? & Hen & ?).
      exists (base_all it'). cbn [Begin Base_iterator]. rewrite HB'. split; [done|]. split; [done|].
      split; [by apply Enum_base_all|done].
    + intros [it|it] b' Hit Hd HN; [|done]. cbn [Next Base_iterator] in HN.
      destruct (Next it) as [it'| | |] eqn:EN; try done. injection HN as <-. by apply (Hn it it').
    + split; [done|]. by intros [it|it].
  - destruct (Begin it0) as [it1| | |] eqn:E; try done. injection HB as <-. cbn in He'.
    destruct (Preferred_repeatable n it0 it1 all Hr E He') as ([U Hb Hn] & HU & Hur). simpl in HU, Hur.
    unshelve eexists (Build_Repeatable _ _ _ (fun b => match b with base_preferred it => U it | _ => False end) _ _).
    + intros [it|it] Hit; [done|]. destruct (Hb it Hit) as (it' & HB' & ? & Hen & ?).
      exists (base_preferred it'). cbn [Begin Base_iterator]. rewrite HB'. split; [done|]. split; [done|].
      split; [by apply Enum_base_preferred|done].
    + intros [it|it] b' Hit Hd HN; [done|]. cbn [Next Base_iterator] in HN.
      destruct (Next it) as [it'| | |] eqn:EN; try done. injection HN as <-. by apply (Hn it it').
    + split; [done|]. intros [it|it] Hit; [done|]. by apply Hur.
Qed.

(** ** The composed iterator *)

Section Composed.
Context `{Laws : IteratorLaws It n} {all : list (list Z)} {R : Repeatable It all}.
Context (v : SliceTimePermutationValidator) (times : list Z) (Hfits : fits n v times).
Context (Hur : forall it, usable it -> ready (n := n) it).

Lemma skipped_times seen base skip seen' :
  skipped v seen base = OK (skip, seen') ->
  slice_time_to_inclusive_start_time_ seen' = slice_time_to_inclusive_start_time_ seen.
Proof.
  intros Hs. apply bind_OK in Hs as (valid & _ & Hs). destruct valid; [|by injection Hs as _ <-].
  apply bind_OK in Hs as ([inserted seen2] & Hi & Hs). injection Hs as _ <-.
  apply bind_OK in Hi as (ts & _ & Hi). injection Hi as Hi. destruct (decide _); by injection Hi as _ <-.
Qed.

Lemma advance_usable fuel seen base seen' base' :
  advance fuel v seen base = OK (seen', base') -> usable base ->
  usable base' /\ slice_time_to_inclusive_start_time_ seen' = slice_time_to_inclusive_start_time_ seen.
Proof.
  revert seen base. induction fuel as [|fuel IH]; intros seen base Ha Hu; simpl in Ha.
  - destruct (Done base); [|done]. by injection Ha as <- <-.
  - destruct (Done base) eqn:Hd; [by injection Ha as <- <-|].
    apply bind_OK in Ha as ([skip seen2] & Hs & Ha). rewrite <- (skipped_times _ _ _ _ Hs). destruct skip.
    + apply bind_OK in Ha as (b & HN & Ha). apply (IH _ _ Ha). by apply (rep_Next base b).
    + by injection Ha as <- <-.
Qed.

Lemma Composed_repeatable it0 :
  composed_state v times usable it0 ->
  exists RC : Repeatable (ComposedSliceTimePermutationIterator It) (kept v times [] all),
    usable (Repeatable := RC) it0.
Proof.
  intros H0. set (U := composed_state v times (usable (It := It))).
  assert (Hb : forall it, U it -> exists it', Begin it = OK it' /\ U it' /\ Enum it' (kept v times [] all) /\
    (length (kept v times [] all) <= Bound it')%nat).
  { intros it (Hv & Ht & Hu). destruct (rep_Begin _ Hu) as (base & HB & Hu' & He & Hlen).
    destruct (law_Begin _ (Hur _ Hu)) as (base2 & HB2 & Hs). rewrite HB in HB2. injection HB2 as <-.
    destruct (advance_Enum v times Hfits base all He Hs [] (Bound base) Hlen)
      as (seen' & base' & Ha & He2 & Hs2 & _).
    exists (mkComposed v (mkObserved times seen') base'). split; [|split; [|split; [done|]]].
    - change (NextImpl true it = OK (mkComposed v (mkObserved times seen') base')).
      rewrite (NextImpl_Begin v times it base); [by rewrite Ha| |done|done]. repeat split; try done. by apply Hur.
    - split; [done|]. split; [done|]. by apply (advance_usable _ _ _ _ _ Ha).
    - apply (Enum_Bound (H0 := Composed_laws v times Hfits)); [|done]. by repeat split. }
  assert (Hn : forall it it', U it -> Done it = false -> Next it = OK it' -> U it').
  { intros [v' [ts seen] base] it' (Hv & Ht & Hu) Hd HN. simpl in Hv, Ht, Hu, Hd. subst v' ts.
    change (NextImpl false (mkComposed v (mkObserved times seen) base) = OK it') in HN.
    unfold NextImpl in HN. cbn [mbind outcome_bind base_iterator_ validator_ seen_] in HN. rewrite Hd in HN.
    apply bind_OK in HN as (b & Hb2 & HN). apply bind_OK in HN as ([seen' base'] & Ha & HN). injection HN as <-.
    destruct (advance_usable _ _ _ _ _ Ha) as [Hu' Ht']; [by apply (rep_Next base b)|]. by repeat split. }
  by exists (Build_Repeatable _ _ _ U Hb Hn).
Qed.

End Composed.

(** ** The iterators that are created *)

Definition repeats `{SliceTimePermutationIterator It} (it : It) (ps : list (list Z)) : Prop :=
  exists R : Repeatable It ps, usable (Repeatable := R) it.

Lemma repeats_enumerate `{SliceTimePermutationIterator It} it ps : repeats it ps -> enumerate it = OK ps.
Proof.
  intros [R Hu]. destruct (rep_Begin it Hu) as (it' & HB & _ & He & Hlen). unfold enumerate. rewrite HB.
  cbn [mbind outcome_bind]. by apply Enum_enumerate_from.
Qed.

Lemma composed_repeats n v times b0 b1 all seen :
  fits n v times -> ready (n := n) b0 -> Begin b0 = OK b1 -> Enum b1 all ->
  repeats (mkComposed v (mkObserved times seen) b0 : PermutationIterator) (kept v times [] all).
Proof.
  intros Hf Hr HB He. destruct (Base_repeatable n b0 b1 all Hr HB He) as (R & Hu & Hur).
  apply (Composed_repeatable v times Hf Hur). by repeat split.
Qed.

(** ** Which permutations of slice times are tried

    The theorems on the iterators that the allocation finder uses, for new and for
    repacked allocations. *)

(** Whatever the type, the permutations of a new allocation are the kept ones of a
    list of permutations that starts with the identity. *)
Lemma new_allocation_kept ty l :
  exists it all,
    CreateForNewAllocation ty l = OK it /\
    repeats it (kept (new_validator None) (c_sort l) [] all) /\
    Forall (fun p => p ≡ₚ seqZ 0 (Zlen l)) all /\
    (l <> [] -> head all = Some (seqZ 0 (Zlen l))) /\
    match ty with
    | kAll => l <> [] -> forall p, p ≡ₚ seqZ 0 (Zlen l) -> p ∈ all
    | kPreferred => all = candidates (Zlen l)
    end.
Proof.
  pose proof (Zlen_nonneg l) as Hn. unfold CreateForNewAllocation, new_base, new_observed.
  assert (Hpos : l <> [] -> 0 < Zlen l) by (destruct l; [done|unfold Zlen; simpl; lia]).
  assert (Hfit : fits (Zlen l) (new_validator None) (c_sort l)) by (rewrite <- (Zlen_c_sort l); apply fits_new).
  destruct ty; cbn [mbind outcome_bind].
  - destruct (all_enumerates (Zlen l) Hn) as (base & all & HB & Hs & He & Hall & Hc).
    eexists _, all. split; [done|]. split; [|split; [done|]].
    + apply (composed_repeats (Zlen l) _ _ _ base); [done| |done..]. split; [done|]. apply length_replicate.
    + split; [intros Hl; by apply Hc, Hpos|]. intros Hl. by apply Hc, Hpos.
  - destruct (preferred_enumerates (Zlen l) Hn) as (it & base & HN & HB & Hs & Hr & He & Hall).
    rewrite HN. cbn [mbind outcome_bind]. eexists _, (candidates (Zlen l)). split; [done|].
    split; [|split; [done|split; [|done]]].
    + by apply (composed_repeats (Zlen l) _ _ _ base).
    + intros Hl%Hpos. unfold candidates. simpl. destruct (Z.leb_spec (Zlen l) 0); [lia|].
      simpl. by rewrite candidate_smaller.
Qed.

Lemma new_allocation_repeats ty l :
  l <> [] -> exists it ps,
    CreateForNewAllocation ty l = OK it /\ repeats it ps /\
    Forall (fun p => p ≡ₚ seqZ 0 (Zlen l)) ps /\ head ps = Some (seqZ 0 (Zlen l)).
Proof.
  intros Hl. destruct (new_allocation_kept ty l) as (it & all & HC & Hrep & Hall & Hhd & _).
  exists it, (kept (new_validator None) (c_sort l) [] all). split; [done|]. split; [done|]. split.
  - apply (sublist_Forall _ _ all); [apply kept_sublist|done].
  - specialize (Hhd Hl). by destruct all.
Qed.

(** C35: the permutations tried for a new allocation whose slices start at the times
    [l].  The loop over the iterator ends without an error for either type; every
    value is a permutation of the slice times 0, ..., n-1, the first one the
    identity; no two of them give the slices the same start times.  The iterator over
    all permutations leaves out only permutations with the start times of one it
    returns; the preferred one tries, in this order and up to equal start times, the
    times ascending, descending, and the odd ones descending followed by the even
    ones ascending. *)
Theorem permutations_enumerated ty l :
  exists it ps,
    CreateForNewAllocation ty l = OK it /\ enumerate it = OK ps /\
    Forall (fun p => p ≡ₚ seqZ 0 (Zlen l)) ps /\
    (l <> [] -> head ps = Some (seqZ 0 (Zlen l))) /\
    NoDup (times_of (c_sort l) <$> ps) /\
    match ty with
    | kAll => forall p, p ≡ₚ seqZ 0 (Zlen l) -> l <> [] ->
        exists q, q ∈ ps /\ times_of (c_sort l) q = times_of (c_sort l) p
    | kPreferred =>
        let all := take (length l)
          [seqZ 0 (Zlen l); rev (seqZ 0 (Zlen l));
           filter IsOdd (rev (seqZ 0 (Zlen l))) ++ filter IsEven (seqZ 0 (Zlen l))] in
        ps `sublist_of` all /\
    forall p, p ∈ all -> exists q, q ∈ ps /\ times_of (c_sort l) q = times_of (c_sort l) p
    end.
Proof.
  destruct (new_allocation_kept ty l) as (it & all & HC & HE & Hall & Hhd & Hty).
  set (ps := kept (new_validator None) (c_sort l) [] all) in *.
  pose proof (kept_sublist (new_validator None) (c_sort l) [] all) as Hsub. fold ps in Hsub.
  assert (Hcomp : forall p, p ∈ all -> exists q, q ∈ ps /\ times_of (c_sort l) q = times_of (c_sort l) p).
  { intros p Hp. destruct (kept_complete (new_validator None) (c_sort l) [] all p Hp (accepted_new p))
      as [?%not_elem_of_nil|?]; done. }
  exists it, ps. split; [done|]. split; [by apply repeats_enumerate|]. split; [by apply (sublist_Forall _ _ _ Hsub)|].
  split; [|split; [apply kept_fresh|]].
  - intros Hl. specialize (Hhd Hl). unfold ps. by destruct all.
  - destruct ty.
    + intros p Hp Hl. by apply Hcomp, Hty.
    + rewrite <- candidates_take, <- Hty. by split.
Qed.

(** C36: the permutations tried when an allocation of several slices is repacked.
    Creating the iterator and looping over it succeed for every list of slices and
    either type.  Every value is a permutation of the slice times that gives the slices, by
    offset, the sizes and start times they had before up to their order; no two give
    the same start times; and of those permutations the iterator over all of them
    leaves out none, up to equal start times. *)
Theorem repack_permutations_valid ty d :
  exists it ps,
    CreateForRepack ty (Some d) = OK it /\ enumerate it = OK ps /\
    Forall (fun p => p ≡ₚ seqZ 0 (num_slices d) /\
      proposed_pairs (SizesSortedByOffset d) (SortedInclusiveStartTimes d) p ≡ₚ slice_pairs d) ps /\
    NoDup (times_of (SortedInclusiveStartTimes d) <$> ps) /\
    (ty = kAll -> 0 < num_slices d -> forall p, p ≡ₚ seqZ 0 (num_slices d) ->
      proposed_pairs (SizesSortedByOffset d) (SortedInclusiveStartTimes d) p ≡ₚ slice_pairs d ->
      exists q, q ∈ ps /\
        times_of (SortedInclusiveStartTimes d) q = times_of (SortedInclusiveStartTimes d) p).
Proof.
  destruct (base_enumerates ty d) as (base & base' & all & HN & Hr & HB & Hs & He & Hall & Hc).
  set (v := new_validator (Some d)). set (T := SortedInclusiveStartTimes d).
  pose proof (kept_sublist v T [] all) as Hsub. pose proof (kept_accepted v T [] all) as Hacc.
  pose proof (sublist_Forall _ _ _ Hsub Hall) as Hperm.
  eexists _, (kept v T [] all). split; [|split; [|split; [|split]]].
  - unfold CreateForRepack. rewrite HN. done.
  - assert (HT : c_sort T = T) by apply c_sort_idem. unfold new_observed. fold T. rewrite HT.
    apply repeats_enumerate, (composed_repeats (num_slices d) _ _ _ base'); [apply new_validator_fits|done..].
  - rewrite Forall_forall in Hacc, Hperm |- *. intros p Hp. split; [by apply Hperm|].
    apply accepted_repack; [by apply Hperm|by apply Hacc].
  - apply kept_fresh.
  - intros Hty Hpos p Hp Hpairs%accepted_repack; [|done].
    destruct (kept_complete v T [] all p (Hc Hty Hpos p Hp) Hpairs) as [?%not_elem_of_nil|?]; done.
Qed.
