(* ===== verification/AllocationFinder.v ===== *)
(** * SlicedAllocationFinder, data and operations

    xla/service/heap_simulator/heap_simulator.cc, lines 1800 to 2376: where in the
    free memory a buffer, possibly one that is allocated in slices, is placed.

    A std::map with the comparator std::greater is an association list in descending
    order of its keys.  The heap of roots is popped in the order of its comparator,
    which is total as no two roots have the same offset: the roots sorted by it.
    The iterator over the permutations is part of the finder and changes as it is
    used, so Find returns it.  [is_offset_allowed] is a function the caller
    provides.  Sums of offsets and sizes are those of int64_t. *)

From stdpp Require Import sorting.
From S2P Require Import Prelude MachineInt IntervalTree SlicePermutation.

(** ** Maps in descending order *)

Abbreviation dmap A := (list (Z * A)).

(** std::map::insert: an entry with the key stays. *)
Fixpoint dinsert {A} (k : Z) (v : A) (m : dmap A) : dmap A :=
  match m with
  | [] => [(k, v)]
  | (k', v') :: m' =>
      if k' <? k then (k, v) :: m
      else if k' =? k then m
      else (k', v') :: dinsert k v m'
  end.

(** std::map::lower_bound: the entries before the first whose key is at most [k],
    and those from it on. *)
Fixpoint lower_bound {A} (k : Z) (m : dmap A) : dmap A * dmap A :=
  match m with
  | [] => ([], [])
  | (k', v) :: m' =>
      if k' <=? k then ([], m)
      else let '(before, from) := lower_bound k m' in ((k', v) :: before, from)
  end.

(** A mapping from a free chunk's offset to its end. *)
Abbreviation FreeChunks := (dmap Z).

(** ** Free chunk roots and pieces *)

Record FreeChunkPiece := mkPiece {
  earliest_free_slice_time : Z;
  dimensions : Chunk;
}.

Abbreviation FreeChunkPieces := (dmap FreeChunkPiece).

Record FreeChunkRoot := mkRoot {
  root_chunk : Chunk;
  pieces : FreeChunkPieces;
}.

Definition new_FreeChunkRoot (free_chunk : Chunk) (free_chunk_slice_time : Z) : FreeChunkRoot :=
  mkRoot free_chunk [(offset free_chunk, mkPiece free_chunk_slice_time free_chunk)].

(** The pieces that replace one that overlaps the free chunk: the part before it,
    the common part, the part after it. *)
Definition new_pieces (free_chunk : Chunk) (time : Z) (piece : FreeChunkPiece) : list FreeChunkPiece :=
  let d := dimensions piece in
  (if offset d <? offset free_chunk then
     [mkPiece (earliest_free_slice_time piece)
        (FromOffsetEnd (offset d) (Z.min (offset free_chunk) (chunk_end d)))]
   else []) ++
  [mkPiece time (FromOffsetEnd (Z.max (offset free_chunk) (offset d))
                   (Z.min (chunk_end free_chunk) (chunk_end d)))] ++
  (if chunk_end free_chunk <? chunk_end d then
     [mkPiece (earliest_free_slice_time piece) (FromOffsetEnd (chunk_end free_chunk) (chunk_end d))]
   else []).

(** The loop over the pieces: those that stay and those to be inserted. *)
Fixpoint Update_loop (free_chunk : Chunk) (time : Z) (ps : FreeChunkPieces) :
    outcome (FreeChunkPieces * list FreeChunkPiece) :=
  match ps with
  | [] => OK ([], [])
  | (k, piece) :: rest =>
      if offset free_chunk <=? chunk_end (dimensions piece) then
        overlaps ← OverlapsWith free_chunk (dimensions piece);
        '(kept, added) ← Update_loop free_chunk time rest;
        if negb overlaps || negb (time =? earliest_free_slice_time piece - 1)
        then OK ((k, piece) :: kept, added)
        else OK (kept, new_pieces free_chunk time piece ++ added)
      else OK (ps, [])
  end.

Definition insert_piece (m : FreeChunkPieces) (p : FreeChunkPiece) : FreeChunkPieces :=
  dinsert (offset (dimensions p)) p m.

Definition Update (free_chunk : Chunk) (free_chunk_slice_time : Z) (root : FreeChunkRoot) :
    outcome FreeChunkRoot :=
  let '(before, from) := lower_bound (sub64 (chunk_end free_chunk) 1) (pieces root) in
  '(kept, added) ← Update_loop free_chunk free_chunk_slice_time from;
  OK (mkRoot (root_chunk root) (foldl insert_piece (before ++ kept) added)).

(** ** Construction *)

Abbreviation FreeChunkRoots := (dmap FreeChunkRoot).

Definition initial_roots (latest : Z) (free_chunks : FreeChunks) : outcome FreeChunkRoots :=
  foldM (fun (roots : FreeChunkRoots) '(o, e) =>
    let free_chunk := FromOffsetEnd o e in
    if size free_chunk =? 0 then OK roots
    else
      _ ← check (0 <? size free_chunk);
      OK (dinsert o (new_FreeChunkRoot free_chunk latest) roots)) [] free_chunks.

(** [it], an index into the roots, moves past the roots above the free chunk. *)
Fixpoint skip_roots (free_chunk : Chunk) (roots : FreeChunkRoots) (it : nat) : nat :=
  match roots with
  | [] => it
  | (_, root) :: roots =>
      if sub64 (chunk_end free_chunk) 1 <? offset (root_chunk root)
      then skip_roots free_chunk roots (S it) else it
  end.

(** The roots from [it] on that overlap the free chunk are updated; the index of the
    last of them, or [it], is returned. *)
Fixpoint update_roots (free_chunk : Chunk) (time : Z) (roots : FreeChunkRoots) (it previous_it : nat) :
    outcome (FreeChunkRoots * nat) :=
  match roots with
  | [] => OK ([], previous_it)
  | (k, root) :: rest =>
      overlaps ← OverlapsWith (root_chunk root) free_chunk;
      if (overlaps : bool) then
        root ← Update free_chunk time root;
        '(rest, previous_it) ← update_roots free_chunk time rest (S it) it;
        OK ((k, root) :: rest, previous_it)
      else OK (roots, previous_it)
  end.

Fixpoint slice_roots (free_chunks : FreeChunks) (time : Z) (roots : FreeChunkRoots) (it : nat) :
    outcome FreeChunkRoots :=
  match free_chunks with
  | [] => OK roots
  | (o, e) :: free_chunks =>
      let free_chunk := FromOffsetEnd o e in
      if size free_chunk =? 0 then slice_roots free_chunks time roots it
      else
        _ ← check (0 <? size free_chunk);
        let it := skip_roots free_chunk (drop it roots) it in
        if bool_decide (it = length roots) then OK roots
        else
          '(updated, it') ← update_roots free_chunk time (drop it roots) it it;
          slice_roots free_chunks time (take it roots ++ updated) it'
  end.

Record SlicedAllocationFinder (It : Type) := mkFinder {
  sorted_slice_sizes_ : list Z;
  slice_size_sum_ : Z;
  max_colocation_size_ : Z;
  preferred_offset_ : Z;
  alignment_ : Z;
  free_chunks_ : FreeChunkRoots;
  slice_time_permutation_iterator_ : It;
  is_offset_allowed_ : Z -> bool;
}.
Arguments mkFinder {It}.
Arguments sorted_slice_sizes_ {It}.
Arguments slice_size_sum_ {It}.
Arguments max_colocation_size_ {It}.
Arguments preferred_offset_ {It}.
Arguments alignment_ {It}.
Arguments free_chunks_ {It}.
Arguments slice_time_permutation_iterator_ {It}.
Arguments is_offset_allowed_ {It}.

Definition AllOffsetsAllowed (offset : Z) : bool := true.

Definition EarliestSliceTime : Z := 0.

Section Finder.
Context {It : Type} `{SliceTimePermutationIterator It}.

Definition LatestSliceTime (f : SlicedAllocationFinder It) : Z := Zlen (sorted_slice_sizes_ f) - 1.

Definition new_SlicedAllocationFinder (free_chunks_per_slice_time : list FreeChunks)
    (sorted_slice_sizes : list Z) (max_colocation_size preferred_offset alignment : Z)
    (iterator : It) (is_offset_allowed : Z -> bool) : outcome (SlicedAllocationFinder It) :=
  let latest := Zlen sorted_slice_sizes - 1 in
  let sum := foldl add64 0 sorted_slice_sizes in
  _ ← check (Zlen sorted_slice_sizes =? Zlen free_chunks_per_slice_time);
  _ ← check (0 <? Zlen free_chunks_per_slice_time);
  free_chunks ← at_ free_chunks_per_slice_time latest;
  roots ← initial_roots latest free_chunks;
  roots ← foldM (fun roots time =>
      free_chunks ← at_ free_chunks_per_slice_time time;
      slice_roots free_chunks time roots 0)
    roots (rev (seqZ EarliestSliceTime latest));
  OK (mkFinder sorted_slice_sizes sum
        (if max_colocation_size <? sum then sum else max_colocation_size)
        preferred_offset alignment roots iterator is_offset_allowed).

(** ** Does a permutation fit? *)

(** The loop over the slices and, upwards from the offset, the pieces.  It ends with
    the index of the first slice that is not placed. *)
Fixpoint fit_loop (fuel : nat) (sizes permutation : list Z) (ps : list FreeChunkPiece)
    (slice_index consumed current_offset : Z) : outcome Z :=
  match ps with
  | [] => OK slice_index
  | piece :: rest =>
      if Zlen sizes - 1 <? slice_index then OK slice_index
      else
        match fuel with
        | O => NoFuel
        | S fuel =>
            current_slice_time ← at_ permutation slice_index;
            current_slice_size ← at_ sizes slice_index;
            let remaining_in_slice := sub64 current_slice_size consumed in
            let remaining_in_piece := sub64 (chunk_end (dimensions piece)) current_offset in
            let amount_to_consume := Z.min remaining_in_slice remaining_in_piece in
            _ ← require (earliest_free_slice_time piece <=? current_slice_time) kFailedPrecondition;
            let '(ps, consumed) :=
              if remaining_in_piece <=? remaining_in_slice
              then (rest, add64 consumed amount_to_consume) else (ps, consumed) in
            let '(slice_index, consumed) :=
              if remaining_in_slice <=? remaining_in_piece
              then (slice_index + 1, 0) else (slice_index, consumed) in
            fit_loop fuel sizes permutation ps slice_index consumed
              (add64 current_offset amount_to_consume)
        end
  end.

Definition DoesPermutationFitImpl (f : SlicedAllocationFinder It) (permutation : list Z)
    (root : FreeChunkRoot) (offset : Z) : outcome () :=
  let sizes := sorted_slice_sizes_ f in
  _ ← require (Zlen permutation =? Zlen sizes) kInvalidArgument;
  _ ← require (offset <? chunk_end (root_chunk root)) kFailedPrecondition;
  _ ← require (add64 offset (max_colocation_size_ f) <=? chunk_end (root_chunk root)) kFailedPrecondition;
  _ ← require (is_offset_allowed_ f offset) kFailedPrecondition;
  let '(before, from) := lower_bound offset (pieces root) in
  match from with
  | [] => Err kFailedPrecondition
  | piece :: _ =>
      let ps := snd <$> rev (before ++ [piece]) in
      slice_index ← fit_loop (length ps + length sizes) sizes permutation ps 0 0 offset;
      require (LatestSliceTime f <? slice_index) kInternal
  end.

Definition DoesPermutationFit := DoesPermutationFitImpl.

(** absl::Status::ok() of a returned status. *)
Definition ok (status : outcome ()) : outcome bool :=
  match status with
  | OK _ => OK true
  | Err _ => OK false
  | Crash => Crash
  | NoFuel => NoFuel
  end.

(** ** Placing the slices *)

(** One round of the loop: the slice's chunk, at the index of its slice time. *)
Definition place_slice (f : SlicedAllocationFinder It) (permutation : list Z) (x : list Chunk * Z)
    (slice_index : Z) : outcome (list Chunk * Z) :=
  let '(chunks, current_offset) := x in
  size ← at_ (sorted_slice_sizes_ f) slice_index;
  time ← at_ permutation slice_index;
  chunks ← set_at chunks time (FromOffsetSize current_offset size);
  OK (chunks, add64 current_offset size).

Definition PermutationToChunks (f : SlicedAllocationFinder It) (permutation : list Z) (offset : Z) :
    outcome (list Chunk) :=
  let chunks := replicate (S (length permutation)) (FromOffsetSize (-1) 1) in
  '(chunks, current_offset) ←
    foldM (place_slice f permutation) (chunks, offset) (indices (sorted_slice_sizes_ f));
  set_at chunks (Zlen chunks - 1)
    (FromOffsetSize current_offset (sub64 (max_colocation_size_ f) (sub64 current_offset offset))).

(** The loop over the permutations at one offset. *)
Fixpoint try_permutations (fuel : nat) (f : SlicedAllocationFinder It) (root : FreeChunkRoot)
    (offset : Z) (it : It) : outcome (list Chunk * It) :=
  if Done it then OK ([], it)
  else
    match fuel with
    | O => NoFuel
    | S fuel =>
        fits ← ok (DoesPermutationFit f (Get it) root offset);
        if (fits : bool) then chunks ← PermutationToChunks f (Get it) offset; OK (chunks, it)
        else it ← Next it; try_permutations fuel f root offset it
    end.

(** x % y, which is undefined for y = 0. *)
Definition rem_ (x y : Z) : outcome Z := if y =? 0 then Crash else OK (Z.rem x y).

(** One round of the loop over the offsets: [inl], the next offset, or [inr], the
    result. *)
Definition try_offset (f : SlicedAllocationFinder It) (root : FreeChunkRoot) (last_end : Z)
    (x : Z * It) : outcome ((Z * It) + (list Chunk * It)) :=
  let '(offset, it) := x in
  if add64 offset (max_colocation_size_ f) <=? last_end then
    it ← Begin it;
    '(chunks, it) ← try_permutations (Bound it) f root offset it;
    if negb (bool_decide (chunks = [])) then OK (inr (chunks, it))
    else if Zlen (pieces root) =? 1 then OK (inr ([], it))
    else OK (inl (add64 offset (alignment_ f), it))
  else OK (inr ([], it)).

(** The loop over the offsets, of which there are at most 2^63. *)
Definition search_offsets (f : SlicedAllocationFinder It) (root : FreeChunkRoot)
    (first_offset last_end : Z) (it : It) : outcome (list Chunk * It) :=
  r ← rem_ first_offset (alignment_ f);
  _ ← check (r =? 0);
  x ← repeat_until 64 (try_offset f root last_end) (first_offset, it);
  match x with inl _ => NoFuel | inr result => OK result end.

Definition FindInRoot (f : SlicedAllocationFinder It) (root : FreeChunkRoot)
    (only_try_this_offset : option Z) (it : It) : outcome (list Chunk * It) :=
  match only_try_this_offset with
  | Some o =>
      r ← rem_ o (alignment_ f);
      if negb (r =? 0) then OK ([], it)
      else search_offsets f root o (add64 o (max_colocation_size_ f)) it
  | None =>
      let o := offset (root_chunk root) in
      r ← rem_ o (alignment_ f);
      search_offsets f root (if negb (r =? 0) then add64 o (sub64 (alignment_ f) r) else o)
        (chunk_end (root_chunk root)) it
  end.

Definition FindForOffset_ (f : SlicedAllocationFinder It) (offset : Z) (it : It) :
    outcome (list Chunk * It) :=
  match (lower_bound offset (free_chunks_ f)).2 with
  | [] => OK ([], it)
  | (_, root) :: _ => FindInRoot f root (Some offset) it
  end.

(** The order in which the heap gives the roots: by size, then by offset. *)
Definition root_le (r s : FreeChunkRoot) : Prop :=
  pair_le (size (root_chunk r), offset (root_chunk r)) (size (root_chunk s), offset (root_chunk s)).
#[global] Instance root_le_dec : RelDecision root_le.
Proof. unfold root_le. intros r s. apply _. Defined.

Fixpoint search_roots (f : SlicedAllocationFinder It) (roots : list FreeChunkRoot) (it : It) :
    outcome (list Chunk * It) :=
  match roots with
  | [] => OK ([], it)
  | root :: roots =>
      '(chunks, it) ← FindInRoot f root None it;
      if negb (bool_decide (chunks = [])) then OK (chunks, it)
      else search_roots f roots it
  end.

Definition Find_ (f : SlicedAllocationFinder It) (it : It) : outcome (list Chunk * It) :=
  '(chunks, it) ← (if 0 <=? preferred_offset_ f then FindForOffset_ f (preferred_offset_ f) it
                   else OK ([], it));
  if negb (bool_decide (chunks = [])) then OK (chunks, it)
  else search_roots f (merge_sort root_le (snd <$> rev (free_chunks_ f))) it.

(** The methods, on the finder's own iterator. *)
Definition FindForOffset (f : SlicedAllocationFinder It) (offset : Z) : outcome (list Chunk) :=
  fst <$> FindForOffset_ f offset (slice_time_permutation_iterator_ f).
Definition Find (f : SlicedAllocationFinder It) : outcome (list Chunk) :=
  fst <$> Find_ f (slice_time_permutation_iterator_ f).

End Finder.

(** ** On the inputs of three tests (heap_simulator_test.cc) *)

Definition test_find (free : list FreeChunks) (sizes : list Z) (max_colocation_size alignment : Z)
    (is_offset_allowed : Z -> bool) : outcome (list Chunk) :=
  it ← CreateForNewAllocation kAll (indices sizes);
  f ← new_SlicedAllocationFinder free sizes max_colocation_size (-1) alignment it is_offset_allowed;
  Find f.

Example ManyHoles :
  test_find [[(62, 64); (54, 60); (46, 51); (39, 42); (5, 31)];
             [(62, 64); (54, 59); (46, 51); (38, 44); (5, 31)];
             [(62, 64); (36, 59); (5, 31)]] [3; 3; 3] (-1) 1 AllOffsetsAllowed
  = OK [mkChunk 46 3; mkChunk 40 3; mkChunk 43 3; mkChunk 49 0].
Proof. vm_compute. reflexivity. Qed.
Example Misaligned :
  test_find [[(60, 70); (47, 53); (10, 40); (5, 7)]; [(60, 70); (47, 57); (10, 40); (5, 7)];
             [(60, 70); (43, 57); (10, 40); (5, 7)]] [4; 4; 4] (-1) 2 AllOffsetsAllowed
  = OK [mkChunk 48 4; mkChunk 52 4; mkChunk 44 4; mkChunk 56 0].
Proof. vm_compute. reflexivity. Qed.
Example LeftHoleNotAllowedToStartAtFirstOffset :
  test_find [[(60, 70); (45, 49); (10, 40); (5, 7)]; [(60, 70); (45, 52); (10, 40); (5, 7)];
             [(60, 70); (45, 55); (10, 40); (5, 7)]] [3; 3; 3] (-1) 1 (fun offset => negb (offset =? 45))
  = OK [mkChunk 46 3; mkChunk 49 3; mkChunk 52 3; mkChunk 55 0].
Proof. vm_compute. reflexivity. Qed.
