(* ===== verification/FinderPieces.v ===== *)
(** * The pieces of a free chunk root

    Pieces tile their root and record a function of the offset, the earliest slice
    time from which it is free.  [Update] changes that function at the offsets of
    the free chunk where it is one more than the chunk's slice time. *)

From stdpp Require Import sorting.
From S2P Require Import Prelude MachineInt IntervalTree SlicePermutation AllocationFinder.

(** ** Chunks without overflow *)

#[local] Arguments FromOffsetEnd : simpl never.

Definition chunk_ok (c : Chunk) : Prop :=
  0 <= offset c /\ 0 < size c /\ offset c + size c <= int64_max.

Lemma chunk_end_ok c : chunk_ok c -> chunk_end c = offset c + size c.
Proof. intros (?&?&?). apply add64_small. unfold int64_max in *. z64. lia. Qed.

Lemma FromOffsetEnd_ok o e :
  0 <= o -> o < e -> e <= int64_max ->
  chunk_ok (FromOffsetEnd o e) /\ offset (FromOffsetEnd o e) = o /\ size (FromOffsetEnd o e) = e - o.
Proof.
  intros. unfold chunk_ok, FromOffsetEnd, FromOffsetSize. simpl.
  rewrite sub64_small by (unfold int64_max in *; z64; lia). lia.
Qed.

Definition inside (c : Chunk) (x : Z) : Prop := offset c <= x < offset c + size c.
#[global] Instance inside_dec c x : Decision (inside c x).
Proof. unfold inside. apply _. Defined.

Definition overlap (c d : Chunk) : bool :=
  (offset c <? offset d + size d) && (offset d <? offset c + size c).

Lemma OverlapsWith_ok c d : chunk_ok c -> chunk_ok d -> OverlapsWith c d = OK (overlap c d).
Proof.
  intros Hc Hd. unfold OverlapsWith. rewrite !chunk_end_ok by done.
  destruct Hc as (?&?&?), Hd as (?&?&?).
  destruct (Z.eqb_spec (size c) 0); [lia|]. destruct (Z.eqb_spec (size d) 0); [lia|]. done.
Qed.

(** ** Maps in descending order *)

Abbreviation dsorted := (StronglySorted (fun a b => b.1 < a.1)).

Lemma dsorted_unique {A} (m1 m2 : dmap A) : dsorted m1 -> dsorted m2 -> m1 ≡ₚ m2 -> m1 = m2.
Proof. intros H1 H2. apply StronglySorted_unique_strong with (2 := H1) (3 := H2). intros; lia. Qed.

Lemma sorted_sublist {A} (R : A -> A -> Prop) l k : l `sublist_of` k -> StronglySorted R k -> StronglySorted R l.
Proof.
  induction 1 as [|a l k Hs IH|a l k Hs IH]; intros Hk; [done|..]; inversion Hk as [|? ? Hk' Ha]; subst; [|by apply IH].
  constructor; [by apply IH|]. rewrite Forall_forall in Ha |- *. intros b Hb. apply Ha.
  by apply (elem_of_submseteq l), sublist_submseteq.
Qed.

Lemma dsorted_NoDup {A} (m : dmap A) : dsorted m -> NoDup m.*1.
Proof.
  induction 1 as [|a m Hm IH Ha]; [constructor|]. constructor; [|done].
  intros (b & Hb & Hin)%list_elem_of_fmap. rewrite Forall_forall in Ha. specialize (Ha b Hin). lia.
Qed.

Lemma dinsert_perm {A} k (v : A) m : k ∉ m.*1 -> dinsert k v m ≡ₚ (k, v) :: m.
Proof.
  induction m as [|[k' v'] m IH]; intros Hk; simpl; [done|]. simpl in Hk.
  rewrite not_elem_of_cons in Hk. destruct Hk as [Hne Hk].
  destruct (k' <? k); [done|]. destruct (Z.eqb_spec k' k); [congruence|]. rewrite (IH Hk). constructor.
Qed.

Lemma dinsert_sorted {A} k (v : A) m : dsorted m -> dsorted (dinsert k v m).
Proof.
  induction 1 as [|[k' v'] m Hm IH Ha]; simpl; [repeat constructor|].
  destruct (Z.ltb_spec k' k).
  - constructor; [by constructor|]. constructor; [done|]. eapply Forall_impl; [done|]. simpl. intros [] ?. simpl in *. lia.
  - destruct (Z.eqb_spec k' k); [by constructor|]. constructor; [done|].
    clear IH Hm. induction m as [|[k2 v2] m IH]; simpl.
    + constructor; [simpl; lia|constructor].
    + inversion Ha as [|? ? Hh Ht]; subst. simpl in Hh. destruct (k2 <? k); [|destruct (k2 =? k)];
        repeat constructor; simpl; try lia; try done. by apply IH.
Qed.

Lemma lower_bound_app {A} k (m : dmap A) before from : lower_bound k m = (before, from) -> m = before ++ from.
Proof.
  revert before. induction m as [|[k' v] m IH]; simpl; intros before; [by intros [= <- <-]|].
  destruct (k' <=? k); [by intros [= <- <-]|]. destruct (lower_bound k m) as [b f].
  intros [= <- <-]. by rewrite (IH b eq_refl).
Qed.

Lemma lower_bound_before {A} k (m : dmap A) before from :
  lower_bound k m = (before, from) -> Forall (fun a => k < a.1) before.
Proof.
  revert before. induction m as [|[k' v] m IH]; simpl; intros before; [intros [= <- <-]; constructor|].
  destruct (Z.leb_spec k' k); [intros [= <- <-]; constructor|]. destruct (lower_bound k m) as [b f].
  intros [= <- <-]. constructor; [done|]. by apply IH.
Qed.

Lemma lower_bound_from {A} k (m : dmap A) before a from :
  lower_bound k m = (before, a :: from) -> a.1 <= k.
Proof.
  revert before. induction m as [|[k' v] m IH]; simpl; intros before; [done|].
  destruct (Z.leb_spec k' k); [by intros [= <- <- <-]|]. destruct (lower_bound k m) as [b f].
  intros [= <- ->]. by apply (IH b).
Qed.

(** Inserting pieces with new keys. *)
Definition keyed (p : FreeChunkPiece) : Z * FreeChunkPiece := (offset (dimensions p), p).

Lemma insert_pieces_perm m added :
  NoDup (added.*1 ++ m.*1) -> Forall (fun a => a = keyed a.2) added -> dsorted m ->
  foldl insert_piece m added.*2 ≡ₚ added ++ m /\ dsorted (foldl insert_piece m added.*2).
Proof.
  revert m. induction added as [|[k p] added IH]; intros m Hnd Hk Hm; simpl; [done|].
  inversion Hk as [|? ? Hkp Hk']; subst. unfold keyed in Hkp. simpl in Hkp. injection Hkp as Hkp.
  simpl in Hnd. inversion Hnd as [|? ? Hnin Hnd']; subst.
  rewrite elem_of_app in Hnin.
  assert (Hp : insert_piece m p ≡ₚ (offset (dimensions p), p) :: m) by (apply dinsert_perm; tauto).
  destruct (IH (insert_piece m p)) as [IHp IHs]; [|done|by apply dinsert_sorted|].
  - rewrite Hp. simpl. rewrite <- Permutation_middle. constructor; [|done]. by rewrite elem_of_app.
  - split; [|done]. rewrite IHp, Hp. by rewrite <- Permutation_middle.
Qed.

(** ** Pieces *)

(** Consecutive pieces, from the last one down, cover [lo, hi). *)
Fixpoint tiles (lo hi : Z) (ps : FreeChunkPieces) : Prop :=
  match ps with
  | [] => lo = hi
  | (k, p) :: ps =>
      k = offset (dimensions p) /\ chunk_ok (dimensions p) /\
      offset (dimensions p) + size (dimensions p) = hi /\ tiles lo (offset (dimensions p)) ps
  end.

(** The pieces have the earliest slice times that [g] gives. *)
Definition records (g : Z -> Z) (ps : FreeChunkPieces) : Prop :=
  forall a x, a ∈ ps -> inside (dimensions a.2) x -> earliest_free_slice_time a.2 = g x.

Lemma tiles_app lo hi l1 l2 : tiles lo hi (l1 ++ l2) <-> exists mid, tiles mid hi l1 /\ tiles lo mid l2.
Proof.
  revert hi. induction l1 as [|[k p] l1 IH]; intros hi; simpl.
  - split; [eauto|]. by intros (mid & <- & ?).
  - rewrite IH. split.
    + intros (? & ? & ? & mid & ? & ?). exists mid. tauto.
    + intros (mid & (? & ? & ? & ?) & ?). do 3 (split; [done|]). by exists mid.
Qed.

Lemma tiles_le lo hi ps : tiles lo hi ps -> lo <= hi.
Proof.
  revert hi. induction ps as [|[k p] ps IH]; simpl; intros hi; [lia|].
  intros (_ & (?&?&?) & ? & ?%IH). lia.
Qed.

Lemma tiles_bound lo hi ps a :
  tiles lo hi ps -> a ∈ ps ->
  a.1 = offset (dimensions a.2) /\ chunk_ok (dimensions a.2) /\ lo <= a.1 /\
  offset (dimensions a.2) + size (dimensions a.2) <= hi.
Proof.
  revert hi. induction ps as [|[k p] ps IH]; intros hi; [by intros _ ?%not_elem_of_nil|].
  intros (Hk & Hp & He & Ht) [->|Hin]%elem_of_cons; simpl.
  - pose proof (tiles_le _ _ _ Ht). split; [done|]. split; [done|]. lia.
  - destruct (IH _ Ht Hin) as (? & ? & ? & ?). destruct Hp as (?&?&?).
    split; [done|]. split; [done|]. lia.
Qed.

Lemma tiles_sorted lo hi ps : tiles lo hi ps -> dsorted ps.
Proof.
  revert hi. induction ps as [|[k p] ps IH]; intros hi; [constructor|]. intros (Hk & Hp & He & Ht).
  constructor; [by apply (IH _ Ht)|]. apply Forall_forall. intros a Ha. simpl.
  destruct (tiles_bound _ _ _ _ Ht Ha) as (? & (?&?&?) & ? & ?). lia.
Qed.

Lemma tiles_nonempty lo hi ps : tiles lo hi ps -> lo < hi -> ps <> [].
Proof. intros Ht Hlt ->. simpl in Ht. lia. Qed.

(** ** Update *)

Definition touched (fc : Chunk) (t : Z) (p : FreeChunkPiece) : bool :=
  overlap fc (dimensions p) && (t =? earliest_free_slice_time p - 1).

(** The pieces after an update: every touched one is replaced in place. *)
Definition splice1 (fc : Chunk) (t : Z) (a : Z * FreeChunkPiece) : FreeChunkPieces :=
  if touched fc t a.2 then keyed <$> rev (new_pieces fc t a.2) else [a].
Definition splice (fc : Chunk) (t : Z) (ps : FreeChunkPieces) : FreeChunkPieces :=
  mbind (splice1 fc t) ps.

(** The function after an update. *)
Definition lowered (fc : Chunk) (t : Z) (g : Z -> Z) (x : Z) : Z :=
  if decide (inside fc x /\ g x = t + 1) then t else g x.

Lemma splice1_tiles fc t p :
  chunk_ok fc -> chunk_ok (dimensions p) ->
  tiles (offset (dimensions p)) (offset (dimensions p) + size (dimensions p)) (splice1 fc t (keyed p)).
Proof.
  intros Hfc Hp. unfold splice1. simpl. destruct (touched fc t p) eqn:E; [|simpl; tauto].
  unfold touched, overlap in E. apply andb_true_iff in E as [E _].
  unfold new_pieces. rewrite !chunk_end_ok by done. destruct Hfc as (?&?&?), Hp as (?&?&?).
  assert (Hpc : forall o e, offset (dimensions p) <= o -> o < e -> e <= int64_max ->
    chunk_ok (FromOffsetEnd o e) /\ offset (FromOffsetEnd o e) = o /\ size (FromOffsetEnd o e) = e - o)
    by (intros; apply FromOffsetEnd_ok; lia).
  destruct (Z.ltb_spec (offset (dimensions p)) (offset fc));
    destruct (Z.ltb_spec (offset fc + size fc) (offset (dimensions p) + size (dimensions p)));
    unfold keyed; cbn [app rev fmap list_fmap tiles dimensions]; repeat match goal with
    | |- context [FromOffsetEnd ?o ?e] => destruct (Hpc o e) as (?&?&?); [lia..|];
        generalize dependent (FromOffsetEnd o e); intros
    end; tauto || (repeat split; (done || lia)).
Qed.

Lemma splice_tiles fc t lo hi ps : chunk_ok fc -> tiles lo hi ps -> tiles lo hi (splice fc t ps).
Proof.
  intros Hfc. revert hi. induction ps as [|[k p] ps IH]; intros hi; [done|].
  intros (-> & Hp & He & Ht). simpl. apply tiles_app. exists (offset (dimensions p)).
  rewrite <- He. split; [by apply (splice1_tiles fc t p)|by apply IH].
Qed.

Lemma new_pieces_in fc t p q x :
  chunk_ok fc -> chunk_ok (dimensions p) -> overlap fc (dimensions p) = true ->
  q ∈ new_pieces fc t p -> inside (dimensions q) x ->
  inside (dimensions p) x /\
  earliest_free_slice_time q = if decide (inside fc x) then t else earliest_free_slice_time p.
Proof.
  intros Hfc Hp Eo Hq Hx. unfold overlap in Eo. unfold new_pieces in Hq. rewrite !chunk_end_ok in Hq by done.
  destruct Hfc as (?&?&?), Hp as (?&?&?). unfold inside in *.
  assert (Hpc : forall o e, offset (dimensions p) <= o -> o < e -> e <= int64_max ->
    offset (FromOffsetEnd o e) = o /\ size (FromOffsetEnd o e) = e - o)
    by (intros; apply FromOffsetEnd_ok; lia).
  rewrite !elem_of_app in Hq. destruct Hq as [Hq|[Hq|Hq]].
  - destruct (Z.ltb_spec (offset (dimensions p)) (offset fc)); [|by apply not_elem_of_nil in Hq].
    apply list_elem_of_singleton in Hq as ->. cbn [dimensions earliest_free_slice_time] in Hx |- *.
    edestruct Hpc as [Eoff Esz];
      [..|rewrite Eoff, Esz in Hx]; [lia..|]. rewrite decide_False by lia. lia.
  - apply list_elem_of_singleton in Hq as ->. cbn [dimensions earliest_free_slice_time] in Hx |- *.
    edestruct Hpc as [Eoff Esz];
      [..|rewrite Eoff, Esz in Hx]; [lia..|]. rewrite decide_True by lia. lia.
  - destruct (Z.ltb_spec (offset fc + size fc) (offset (dimensions p) + size (dimensions p)));
      [|by apply not_elem_of_nil in Hq].
    apply list_elem_of_singleton in Hq as ->. cbn [dimensions earliest_free_slice_time] in Hx |- *.
    edestruct Hpc as [Eoff Esz];
      [..|rewrite Eoff, Esz in Hx]; [lia..|]. rewrite decide_False by lia. lia.
Qed.

Lemma splice_records fc t lo hi g ps :
  chunk_ok fc -> tiles lo hi ps -> records g ps -> records (lowered fc t g) (splice fc t ps).
Proof.
  intros Hfc Ht Hg a x (a' & Ha & Ha')%list_elem_of_bind Hx.
  destruct (tiles_bound _ _ _ _ Ht Ha') as (Hk & Hp & _). pose proof (Hg a' x Ha') as Hg'.
  unfold splice1 in Ha. unfold lowered. destruct (touched fc t a'.2) eqn:E; unfold touched in E.
  - apply andb_true_iff in E as [Eo Et%Z.eqb_eq].
    apply list_elem_of_fmap in Ha as (p & -> & Hpin). simpl in *.
    destruct (new_pieces_in fc t a'.2 p x) as [Hin ->]; [done..|by rewrite <- (Permutation_rev (new_pieces fc t a'.2)) in Hpin|done|].
    specialize (Hg' Hin). destruct (decide (inside fc x)).
    + rewrite decide_True by (split; [done|lia]). done.
    + rewrite decide_False by tauto. done.
  - apply list_elem_of_singleton in Ha as ->. rewrite decide_False; [by apply Hg'|]. intros [Hin Heq].
    rewrite <- (Hg' Hx) in Heq. apply andb_false_iff in E as [E|E]; [unfold overlap, inside in *|]; lia.
Qed.

Lemma splice_cons fc t a ps : splice fc t (a :: ps) = splice1 fc t a ++ splice fc t ps.
Proof. done. Qed.

Lemma splice_untouched fc t ps : Forall (fun a => overlap fc (dimensions a.2) = false) ps -> splice fc t ps = ps.
Proof.
  induction 1 as [|a ps Ha Hps IH]; [done|]. rewrite splice_cons, IH.
  unfold splice1, touched. by rewrite Ha.
Qed.

Lemma splice_app fc t l1 l2 : splice fc t (l1 ++ l2) = splice fc t l1 ++ splice fc t l2.
Proof. apply bind_app. Qed.

Lemma Update_loop_ok fc t lo hi ps :
  chunk_ok fc -> tiles lo hi ps -> exists kept added,
    Update_loop fc t ps = OK (kept, added) /\ kept `sublist_of` ps /\
    splice fc t ps ≡ₚ (keyed <$> added) ++ kept.
Proof.
  intros Hfc. revert hi. induction ps as [|[k p] ps IH]; intros hi Ht; [by exists [], []|].
  pose proof Ht as (Hk & Hp & He & Ht'). cbn [Update_loop]. rewrite chunk_end_ok by done.
  destruct (Z.leb_spec (offset fc) (offset (dimensions p) + size (dimensions p))).
  - rewrite OverlapsWith_ok by done. cbn [mbind outcome_bind].
    destruct (IH _ Ht') as (kept & added & -> & Hsub & Hs). cbn [mbind outcome_bind].
    rewrite splice_cons. unfold splice1, touched. cbn [snd].
    destruct (overlap fc (dimensions p)), (t =? earliest_free_slice_time p - 1); simpl;
      eexists _, _; (split; [done|]); (split; [by constructor|]); rewrite Hs.
    2-4: by rewrite Permutation_middle.
    rewrite fmap_app, <- app_assoc. apply Permutation_app_tail, Permutation_map. symmetry. apply Permutation_rev.
  - exists ((k, p) :: ps), []. split; [done|]. split; [done|]. rewrite splice_untouched; [done|].
    apply Forall_forall. intros a Ha. destruct (tiles_bound _ _ _ _ Ht Ha) as (_ & _ & _ & Hb).
    unfold overlap. lia.
Qed.

(** The map is the one with the touched pieces replaced. *)
Lemma Update_ok fc t root lo hi :
  chunk_ok fc -> tiles lo hi (pieces root) ->
  Update fc t root = OK (mkRoot (root_chunk root) (splice fc t (pieces root))).
Proof.
  intros Hfc Ht. unfold Update. rewrite chunk_end_ok by done.
  rewrite sub64_small by (destruct Hfc as (?&?&?); unfold int64_max in *; z64; lia).
  destruct (lower_bound _ _) as [before from] eqn:E. pose proof (lower_bound_app _ _ _ _ E) as Eapp.
  pose proof (lower_bound_before _ _ _ _ E) as Hbef. rewrite Eapp in Ht |- *.
  pose proof Ht as (mid & Htb & Htf)%tiles_app.
  destruct (Update_loop_ok fc t _ _ from Hfc Htf) as (kept & added & -> & Hsub & Hs). cbn [mbind outcome_bind].
  do 2 f_equal. assert (Hb : splice fc t before = before).
  { apply splice_untouched, Forall_forall. intros a Ha. rewrite Forall_forall in Hbef. specialize (Hbef a Ha).
    destruct (tiles_bound _ _ _ _ Htb Ha) as (? & _). unfold overlap. lia. }
  assert (Hp : splice fc t (before ++ from) ≡ₚ (keyed <$> added) ++ before ++ kept).
  { rewrite splice_app, Hb, Hs, !app_assoc. apply Permutation_app_tail, Permutation_app_comm. }
  pose proof (tiles_sorted _ _ _ (splice_tiles fc t _ _ _ Hfc Ht)) as Hss.
  assert (Hk : dsorted (before ++ kept)).
  { apply (sorted_sublist _ _ (before ++ from)); [by apply sublist_app|by apply (tiles_sorted lo hi)]. }
  destruct (insert_pieces_perm (before ++ kept) (keyed <$> added)) as [Hip His].
  - apply dsorted_NoDup in Hss. rewrite Hp, fmap_app in Hss. done.
  - apply Forall_fmap, Forall_true. done.
  - done.
  - assert (Ek : (keyed <$> added).*2 = added) by (rewrite <- list_fmap_compose; apply list_fmap_id).
    rewrite Ek in Hip, His. apply dsorted_unique; [done|done|]. by rewrite Hip.
Qed.
