(* ===== verification/FinderRoots.v ===== *)
(** * The free chunk roots of an allocation finder

    The constructor of SlicedAllocationFinder: the simultaneous walk over the roots
    and the free chunks of a slice time updates every root with every chunk that
    overlaps it.  In the end the pieces record, for every offset that is free at
    the latest slice time, the least slice time from which it is always free. *)

From stdpp Require Import sorting.
From S2P Require Import Prelude MachineInt IntervalTree SlicePermutation AllocationFinder FinderPieces.

(** ** Free memory *)

Definition free_at (fcs : FreeChunks) (x : Z) : Prop := Exists (fun a => a.1 <= x < a.2) fcs.

#[global] Instance free_at_dec fcs x : Decision (free_at fcs x).
Proof. unfold free_at. apply _. Defined.

(** Free chunks are disjoint and in descending order; some may be empty. *)
Record free_ok (fcs : FreeChunks) : Prop := {
  fo_sorted : StronglySorted (fun a b => b.2 <= a.1 /\ b.1 < a.1) fcs;
  fo_bounds : Forall (fun a => 0 <= a.1 <= a.2 /\ a.2 <= int64_max) fcs;
}.

(** The non-empty ones, as chunks. *)
Definition real_chunks (fcs : FreeChunks) : list Chunk :=
  (fun a => FromOffsetEnd a.1 a.2) <$> filter (fun a => a.1 < a.2) fcs.

Abbreviation desc := (StronglySorted (fun c d => offset d + size d <= offset c)).

Lemma free_chunk_ok o e :
  0 <= o <= e -> e <= int64_max ->
  offset (FromOffsetEnd o e) = o /\ size (FromOffsetEnd o e) = e - o /\ (o < e -> chunk_ok (FromOffsetEnd o e)).
Proof.
  intros. unfold FromOffsetEnd, FromOffsetSize, chunk_ok. simpl.
  rewrite sub64_small by (unfold int64_max in *; z64; lia). lia.
Qed.

Lemma free_ok_cons a fcs :
  free_ok (a :: fcs) -> free_ok fcs /\ (0 <= a.1 <= a.2 /\ a.2 <= int64_max) /\
    Forall (fun b => b.2 <= a.1 /\ b.1 < a.1) fcs.
Proof. intros [Hs Hb]. inversion Hs; inversion Hb; subst. split; [by split|by split]. Qed.

Lemma real_chunks_cons o e fcs :
  real_chunks ((o, e) :: fcs) = if decide (o < e) then FromOffsetEnd o e :: real_chunks fcs else real_chunks fcs.
Proof. unfold real_chunks. rewrite filter_cons. cbn [fst snd]. by destruct (decide (o < e)). Qed.

Lemma real_chunks_spec fcs :
  free_ok fcs -> Forall chunk_ok (real_chunks fcs) /\ desc (real_chunks fcs) /\
    forall x, Exists (fun c => inside c x) (real_chunks fcs) <-> free_at fcs x.
Proof.
  induction fcs as [|[o e] fcs IH]; intros Hok.
  { split; [constructor|]. split; [constructor|]. intros x. unfold free_at. simpl. by rewrite !Exists_nil. }
  apply free_ok_cons in Hok as (Hok & [Hb He] & Hf). simpl in *. destruct (IH Hok) as (Hc & Hd & Hx).
  destruct (free_chunk_ok o e Hb He) as (Eo & Es & Hco). rewrite real_chunks_cons.
  destruct (decide (o < e)) as [Hlt|Hlt].
  - split; [constructor; [by apply Hco|done]|]. split.
    + constructor; [done|]. rewrite Eo. apply Forall_forall. intros c (b & -> & Hb')%list_elem_of_fmap.
      apply list_elem_of_filter in Hb' as [_ Hb']. rewrite Forall_forall in Hf. specialize (Hf b Hb').
      destruct Hok as [_ Hbs]. rewrite Forall_forall in Hbs. specialize (Hbs b Hb').
      destruct (free_chunk_ok b.1 b.2) as (-> & -> & _); lia.
    + intros x. unfold free_at in *. rewrite !Exists_cons, Hx. simpl. unfold inside. by rewrite Eo, Es, Zplus_minus.
  - split; [done|]. split; [done|]. intros x. unfold free_at in *. rewrite Exists_cons, Hx. simpl.
    split; [by right|]. intros [?|?]; [lia|done].
Qed.

(** ** Roots *)

Record root_ok (g : Z -> Z) (kr : Z * FreeChunkRoot) : Prop := {
  ro_key : kr.1 = offset (root_chunk kr.2);
  ro_chunk : chunk_ok (root_chunk kr.2);
  ro_tiles : tiles (offset (root_chunk kr.2)) (offset (root_chunk kr.2) + size (root_chunk kr.2)) (pieces kr.2);
  ro_records : records g (pieces kr.2);
}.

Definition root_chunks (roots : FreeChunkRoots) : list Chunk := (fun kr => root_chunk kr.2) <$> roots.

Record roots_ok (g : Z -> Z) (roots : FreeChunkRoots) : Prop := {
  rs_desc : desc (root_chunks roots);
  rs_roots : Forall (root_ok g) roots;
}.

Lemma dinsert_last {A} k (v : A) m : Forall (fun a => k < a.1) m -> dinsert k v m = m ++ [(k, v)].
Proof.
  induction 1 as [|[k' v'] m Hk Hm IH]; [done|]. simpl in *.
  destruct (Z.ltb_spec k' k); [lia|]. destruct (Z.eqb_spec k' k); [lia|]. by rewrite IH.
Qed.

Lemma new_root_ok latest c :
  chunk_ok c -> root_ok (fun _ => latest) (offset c, new_FreeChunkRoot c latest).
Proof.
  intros Hc. split; simpl; [done|done|tauto|]. intros a x ->%list_elem_of_singleton _. done.
Qed.

Lemma initial_roots_ok latest fcs :
  free_ok fcs -> exists roots, initial_roots latest fcs = OK roots /\
    roots_ok (fun _ => latest) roots /\ root_chunks roots = real_chunks fcs.
Proof.
  intros Hok. set (mk c := (offset c, new_FreeChunkRoot c latest)).
  assert (Hgo : forall roots, Forall (fun a => Forall (fun b => b.1 < a.1) fcs) roots ->
    foldM (fun (roots : FreeChunkRoots) '(o, e) =>
      let free_chunk := FromOffsetEnd o e in
      if size free_chunk =? 0 then OK roots
      else _ ← check (0 <? size free_chunk);
           OK (dinsert o (new_FreeChunkRoot free_chunk latest) roots)) roots fcs =
    OK (roots ++ (mk <$> real_chunks fcs))).
  { induction fcs as [|[o e] fcs IH]; intros roots Hab; [simpl; by rewrite app_nil_r|].
    apply free_ok_cons in Hok as (Hok & [Hb He] & Hf). simpl in Hb, He, Hf.
    destruct (free_chunk_ok o e Hb He) as (Eo & Es & Hco). cbn [foldM]. rewrite real_chunks_cons, Es.
    assert (Hab' : Forall (fun a => Forall (fun b => b.1 < a.1) fcs) roots).
    { eapply Forall_impl; [exact Hab|]. intros a Ha. by inversion Ha. }
    destruct (decide (o < e)) as [Hlt|Hlt].
    - destruct (Z.eqb_spec (e - o) 0); [lia|]. destruct (Z.ltb_spec 0 (e - o)); [|lia].
      cbn [check mbind outcome_bind]. rewrite dinsert_last.
      + rewrite IH; [|done|].
        * by rewrite <- app_assoc.
        * apply Forall_app. split; [done|]. constructor; [|constructor]. eapply Forall_impl; [exact Hf|]. simpl. lia.
      + eapply Forall_impl; [exact Hab|]. intros a Ha. by inversion Ha.
    - destruct (Z.eqb_spec (e - o) 0); [|lia]. cbn [mbind outcome_bind]. by apply IH. }
  unfold initial_roots. rewrite Hgo by constructor. eexists. split; [done|]. simpl.
  destruct (real_chunks_spec fcs Hok) as (Hc & Hd & _).
  assert (Hrc : root_chunks (mk <$> real_chunks fcs) = real_chunks fcs).
  { unfold root_chunks. rewrite <- list_fmap_compose. apply list_fmap_id. }
  split; [|done]. split; [by rewrite Hrc|]. apply Forall_fmap. eapply Forall_impl; [exact Hc|].
  intros c Hc'. by apply new_root_ok.
Qed.

(** ** The walk *)

Definition upd (fc : Chunk) (t : Z) (kr : Z * FreeChunkRoot) : Z * FreeChunkRoot :=
  (kr.1, mkRoot (root_chunk kr.2) (splice fc t (pieces kr.2))).

Lemma upd_ok fc t g kr : chunk_ok fc -> root_ok g kr -> root_ok (lowered fc t g) (upd fc t kr).
Proof.
  intros Hfc [Hk Hc Ht Hr]. split; simpl; [done|done|by apply splice_tiles|].
  by apply (splice_records _ _ _ _ _ _ Hfc Ht).
Qed.

Lemma upds_ok fc t g roots : chunk_ok fc -> roots_ok g roots -> roots_ok (lowered fc t g) (upd fc t <$> roots).
Proof.
  intros Hfc [Hd Hr]. split.
  - unfold root_chunks. by rewrite <- list_fmap_compose.
  - apply Forall_fmap. eapply Forall_impl; [exact Hr|]. intros kr. by apply upd_ok.
Qed.

Lemma upd_apart fc t g kr :
  root_ok g kr -> overlap (root_chunk kr.2) fc = false -> upd fc t kr = kr.
Proof.
  intros [Hk Hc Ht Hr] Ho. unfold upd. rewrite splice_untouched; [by destruct kr as [? []]|].
  apply Forall_forall. intros a Ha. destruct (tiles_bound _ _ _ _ Ht Ha) as (? & (?&?&?) & ? & ?).
  unfold overlap in *. lia.
Qed.

Lemma roots_ok_cons g kr roots :
  roots_ok g (kr :: roots) -> root_ok g kr /\ roots_ok g roots /\
    Forall (fun kr' => offset (root_chunk kr'.2) + size (root_chunk kr'.2) <= offset (root_chunk kr.2)) roots.
Proof.
  intros [Hd Hr]. inversion Hr; subst. inversion Hd as [|? ? Hd' Hf]; subst.
  split; [done|]. split; [by split|]. unfold root_chunks in Hf. by rewrite Forall_fmap in Hf.
Qed.

Lemma upds_apart fc t g roots :
  roots_ok g roots -> Forall (fun kr => overlap (root_chunk kr.2) fc = false) roots -> upd fc t <$> roots = roots.
Proof.
  intros [_ Hr]. induction Hr as [|kr roots Hk Hr IH]; intros Ha; [done|].
  inversion Ha; subst. rewrite fmap_cons, (upd_apart fc t g kr), IH; done.
Qed.

Lemma update_roots_ok fc t g roots it previous_it :
  chunk_ok fc -> roots_ok g roots -> (previous_it <= it)%nat ->
  Forall (fun kr => offset (root_chunk kr.2) < offset fc + size fc) roots ->
  exists it', update_roots fc t roots it previous_it = OK (upd fc t <$> roots, it') /\
    (it' = previous_it \/ (it <= it' < it + length roots)%nat /\
       exists kr rest, roots = kr :: rest /\ overlap (root_chunk kr.2) fc = true) /\
    forall j kr, roots !! j = Some kr -> (it + j < it')%nat -> offset fc < offset (root_chunk kr.2).
Proof.
  intros Hfc. revert it previous_it. induction roots as [|[k root] roots IH]; intros it pit Hok Hle Hb.
  { exists pit. split; [done|]. split; [by left|]. by intros j kr Hj; rewrite lookup_nil in Hj. }
  pose proof (roots_ok_cons _ _ _ Hok) as (Hroot & Hok' & Hd). inversion Hb as [|? ? Hb1 Hb']; subst.
  cbn [update_roots]. rewrite OverlapsWith_ok by (done || apply Hroot). cbn [mbind outcome_bind].
  simpl in Hb1, Hd. destruct (overlap (root_chunk root) fc) eqn:Ho.
  - rewrite (Update_ok fc t root _ _ Hfc (ro_tiles _ _ Hroot)). cbn [mbind outcome_bind].
    destruct (IH (S it) it Hok' ltac:(lia) Hb') as (it' & -> & Hit & Hj). cbn [mbind outcome_bind].
    exists it'. split; [done|]. split.
    + right. split; [destruct Hit as [->|[? _]]; simpl; lia|]. by exists (k, root), roots.
    + intros [|j] kr Hkr Hlt; simpl in Hkr.
      * injection Hkr as <-. simpl. destruct Hit as [->|[_ (kr2 & rest & -> & Ho2)]]; [lia|].
        inversion Hd as [|? ? Hd2 _]; subst. simpl in Hd2. unfold overlap in Ho2. lia.
      * apply (Hj j kr Hkr). lia.
  - exists pit. split.
    + do 2 f_equal. symmetry. apply (upds_apart fc t g); [done|]. constructor; [done|].
      eapply Forall_impl; [exact Hd|]. intros [k' r'] Hr'. simpl in *.
      destruct (ro_chunk _ _ Hroot) as (?&?&?). simpl in *. unfold overlap in *. lia.
    + split; [by left|]. intros j kr _ Hlt. lia.
Qed.

Lemma skip_roots_ok fc g roots it :
  chunk_ok fc -> roots_ok g roots ->
  exists n, skip_roots fc roots it = (it + n)%nat /\ (n <= length roots)%nat /\
    Forall (fun kr => offset fc + size fc <= offset (root_chunk kr.2)) (take n roots) /\
    Forall (fun kr => offset (root_chunk kr.2) < offset fc + size fc) (drop n roots).
Proof.
  intros Hfc. revert it. induction roots as [|[k root] roots IH]; intros it Hok; simpl.
  { exists 0%nat. rewrite Nat.add_0_r. repeat split; (lia || constructor). }
  apply roots_ok_cons in Hok as (Hroot & Hok & Hf). simpl in Hf.
  rewrite chunk_end_ok by done.
  rewrite sub64_small by (destruct Hfc as (?&?&?); unfold int64_max in *; z64; lia).
  destruct (Z.ltb_spec (offset fc + size fc - 1) (offset (root_chunk root))) as [Hlt|Hlt].
  - destruct (IH (S it) Hok) as (n & -> & Hn & Ht & Hdr). exists (S n). split; [lia|]. split; [simpl; lia|].
    split; [constructor; [simpl; lia|done]|done].
  - exists 0%nat. rewrite Nat.add_0_r. split; [done|]. split; [lia|]. split; [constructor|]. simpl.
    constructor; [simpl; lia|]. destruct Hok as [_ Hr]. rewrite Forall_forall in Hf, Hr |- *. intros kr Hkr.
    specialize (Hf kr Hkr). destruct (ro_chunk _ _ (Hr kr Hkr)) as (?&?&?). lia.
Qed.

Lemma roots_ok_app g l1 l2 : roots_ok g (l1 ++ l2) -> roots_ok g l1 /\ roots_ok g l2.
Proof.
  intros [Hd Hr]. unfold root_chunks in Hd. rewrite fmap_app in Hd.
  apply StronglySorted_app in Hd as (_ & ? & ?). apply Forall_app in Hr as [? ?]. by split; split.
Qed.

(** The root lies above the chunks. *)
Definition above (cs : list Chunk) (kr : Z * FreeChunkRoot) : Prop :=
  Forall (fun c => offset c + size c <= offset (root_chunk kr.2)) cs.

Lemma above_apart c (kr : Z * FreeChunkRoot) : offset c + size c <= offset (root_chunk kr.2) -> overlap (root_chunk kr.2) c = false.
Proof. unfold overlap. lia. Qed.

Lemma updates_above t g cs roots :
  roots_ok g roots -> Forall (above cs) roots ->
  foldl (fun roots fc => upd fc t <$> roots) roots cs = roots.
Proof.
  intros Hro. induction cs as [|c cs IH]; intros Hab; [done|]. cbn [foldl].
  rewrite (upds_apart c t g) by (done || (eapply Forall_impl; [exact Hab|]; intros kr Hkr;
    inversion Hkr; by apply above_apart)).
  apply IH. eapply Forall_impl; [exact Hab|]. intros kr Hkr. by inversion Hkr.
Qed.

(** The roots after the walk: every one updated with every chunk. *)
Lemma slice_roots_ok t g fcs roots it :
  free_ok fcs -> roots_ok g roots -> Forall (above (real_chunks fcs)) (take it roots) ->
  slice_roots fcs t roots it = OK (foldl (fun roots fc => upd fc t <$> roots) roots (real_chunks fcs)).
Proof.
  revert g roots it. induction fcs as [|[o e] fcs IH]; intros g roots it Hok Hro Hab; [done|].
  pose proof (real_chunks_spec _ Hok) as (Hrc & Hdesc & _).
  apply free_ok_cons in Hok as (Hok & [Hb He] & _). simpl in Hb, He.
  destruct (free_chunk_ok o e Hb He) as (Eo & Es & Hco). cbn [slice_roots]. rewrite Es.
  rewrite real_chunks_cons in *. destruct (decide (o < e)) as [Hlt|Hlt].
  2: { destruct (Z.eqb_spec (e - o) 0); [|lia]. by apply (IH g). }
  destruct (Z.eqb_spec (e - o) 0); [lia|]. destruct (Z.ltb_spec 0 (e - o)); [|lia].
  cbn [check mbind outcome_bind foldl]. set (fc := FromOffsetEnd o e) in *.
  assert (Hfc : chunk_ok fc) by by apply Hco. apply StronglySorted_inv in Hdesc as [Hdesc' Hbelow].
  assert (Hro2 : roots_ok g (drop it roots)).
  { rewrite <- (take_drop it roots) in Hro. by apply roots_ok_app in Hro as [_ ?]. }
  destruct (skip_roots_ok fc g (drop it roots) it Hfc Hro2) as (m & -> & Hm & Hskip & Hrest).
  rewrite drop_drop in Hrest. set (i := (it + m)%nat) in *.
  assert (Hab2 : Forall (above (fc :: real_chunks fcs)) (take i roots)).
  { unfold i. rewrite <- take_take_drop. apply Forall_app. split; [done|].
    eapply Forall_impl; [exact Hskip|]. intros kr Hkr. constructor; [done|].
    eapply Forall_impl; [exact Hbelow|]. intros c Hc. cbn beta in Hkr, Hc. destruct Hfc as (?&?&?). lia. }
  destruct (decide (i = length roots)) as [Ei|Ei].
  { rewrite bool_decide_eq_true_2 by done. rewrite Ei, take_ge in Hab2 by lia. f_equal. symmetry.
    by apply (updates_above t g (fc :: real_chunks fcs)). }
  rewrite bool_decide_eq_false_2 by done.
  pose proof Hro as Hro3. rewrite <- (take_drop i roots) in Hro3. apply roots_ok_app in Hro3 as [Hro3 Hro4].
  destruct (update_roots_ok fc t g (drop i roots) i i Hfc Hro4) as (it' & -> & _ & Hj); [lia|done|].
  cbn [mbind outcome_bind].
  assert (Hall : take i roots ++ (upd fc t <$> drop i roots) = upd fc t <$> roots).
  { rewrite <- (upds_apart fc t g (take i roots)), <- fmap_app, take_drop; [done|done|].
    eapply Forall_impl; [exact Hab2|]. intros kr Hkr. inversion Hkr. by apply above_apart. }
  rewrite Hall. apply (IH (lowered fc t g)); [done|by apply upds_ok|].
  apply Forall_lookup. intros j kr Hkr. apply lookup_take_Some in Hkr as [Hkr Hji].
  apply list_lookup_fmap_Some in Hkr as (kr' & -> & Hkr').
  change (above (real_chunks fcs) kr'). destruct (decide (j < i)%nat) as [Hlti|Hge].
  - rewrite Forall_lookup in Hab2. specialize (Hab2 j kr'). rewrite lookup_take_lt in Hab2 by done.
    specialize (Hab2 Hkr'). by inversion Hab2.
  - specialize (Hj (j - i)%nat kr'). rewrite lookup_drop in Hj. replace (i + (j - i))%nat with j in Hj by lia.
    specialize (Hj Hkr' Hji). eapply Forall_impl; [exact Hbelow|]. intros c Hc. cbn beta in Hc. lia.
Qed.

(** ** The constructor *)

(** [x] is free at the slice times from [t] to [latest]. *)
Definition always_free (F : list FreeChunks) (latest t x : Z) : Prop :=
  forall t' fcs, t <= t' <= latest -> F !! Z.to_nat t' = Some fcs -> free_at fcs x.

(** [g x] is the least time, not before [t], from which [x] is always free. *)
Definition earliest (F : list FreeChunks) (latest t : Z) (g : Z -> Z) : Prop :=
  forall x, always_free F latest latest x ->
    t <= g x <= latest /\ always_free F latest (g x) x /\ (t < g x -> ~ always_free F latest (g x - 1) x).

Lemma lowered_all t cs g x :
  foldl (fun g c => lowered c t g) g cs x =
  if decide (Exists (fun c => inside c x) cs /\ g x = t + 1) then t else g x.
Proof.
  revert g. induction cs as [|c cs IH]; intros g; cbn [foldl].
  - rewrite decide_False; [done|]. rewrite Exists_nil. tauto.
  - rewrite IH. unfold lowered.
    destruct (decide (inside c x /\ g x = t + 1)) as [[Hin Hg]|Hno].
    + rewrite decide_False by lia. rewrite decide_True; [done|]. rewrite Exists_cons. tauto.
    + destruct (decide (Exists _ cs /\ g x = t + 1)) as [[Hex Hg]|Hno'].
      * rewrite decide_True; [done|]. rewrite Exists_cons. tauto.
      * rewrite decide_False; [done|]. rewrite Exists_cons. tauto.
Qed.

Lemma all_updates_ok t g cs roots :
  Forall chunk_ok cs -> roots_ok g roots ->
  roots_ok (foldl (fun g c => lowered c t g) g cs) (foldl (fun roots c => upd c t <$> roots) roots cs) /\
  root_chunks (foldl (fun roots c => upd c t <$> roots) roots cs) = root_chunks roots.
Proof.
  intros Hcs. revert g roots. induction Hcs as [|c cs Hc Hcs IH]; intros g roots Hro; [done|]. cbn [foldl].
  destruct (IH (lowered c t g) (upd c t <$> roots)) as [? ->]; [by apply upds_ok|].
  split; [done|]. unfold root_chunks. by rewrite <- list_fmap_compose.
Qed.

Lemma earliest_step F latest t g fcs :
  0 <= t < latest -> free_ok fcs -> F !! Z.to_nat t = Some fcs -> earliest F latest (t + 1) g ->
  earliest F latest t (foldl (fun g c => lowered c t g) g (real_chunks fcs)).
Proof.
  intros Ht Hok HF He x Hx. destruct (He x Hx) as (Hr & Ha & Hn). rewrite lowered_all.
  pose proof (proj2 (proj2 (real_chunks_spec fcs Hok)) x) as Hfree.
  destruct (decide _) as [[Hex Hg]|Hno].
  - split; [lia|]. split; [|lia]. intros t' fcs' Ht' HF'. destruct (decide (t' = t)) as [->|].
    + rewrite HF in HF'. injection HF' as <-. by apply Hfree.
    + apply (Ha t' fcs'); [lia|done].
  - split; [lia|]. split; [done|]. intros Hlt Haf. destruct (decide (g x = t + 1)) as [Hg|Hg].
    + apply Hno. split; [|done]. apply Hfree. apply (Haf t fcs); [lia|done].
    + apply Hn; [lia|done].
Qed.

Lemma rev_seqZ_lookup n i t : rev (seqZ 0 n) !! i = Some t -> t = n - 1 - Z.of_nat i /\ Z.of_nat i < n.
Proof.
  rewrite List.rev_alt. change (rev_append (seqZ 0 n) []) with (reverse (seqZ 0 n)).
  rewrite reverse_lookup_Some, length_seqZ, lookup_seqZ. lia.
Qed.

Section Constructor.
Context {It : Type} `{SliceTimePermutationIterator It}.

(** What the constructor requires of the free chunks. *)
Definition free_chunks_ok (F : list FreeChunks) : Prop := F <> [] /\ Forall free_ok F.

Lemma free_chunks_at (F : list FreeChunks) t :
  0 <= t < Zlen F -> exists fcs, F !! Z.to_nat t = Some fcs /\ at_ F t = OK fcs.
Proof.
  intros Ht. destruct (at_in_range F t Ht) as [fcs Hf]. exists fcs. split; [|done].
  apply at_OK, idx_Some in Hf. tauto.
Qed.

Lemma new_finder_ok (F : list FreeChunks) sizes max_colocation_size preferred alignment (it : It) allowed :
  free_chunks_ok F -> Zlen sizes = Zlen F ->
  exists roots g last,
    let sum := foldl add64 0 sizes in
    new_SlicedAllocationFinder F sizes max_colocation_size preferred alignment it allowed =
      OK (mkFinder sizes sum (if max_colocation_size <? sum then sum else max_colocation_size)
            preferred alignment roots it allowed) /\
    F !! Z.to_nat (Zlen F - 1) = Some last /\ root_chunks roots = real_chunks last /\
    roots_ok g roots /\ earliest F (Zlen F - 1) 0 g.
Proof.
  intros [HF Hok] Hlen. assert (Hpos : 0 < Zlen F) by (destruct F; [done|unfold Zlen; simpl; lia]).
  unfold new_SlicedAllocationFinder. rewrite Hlen, Z.eqb_refl. destruct (Z.ltb_spec 0 (Zlen F)); [|lia].
  cbn [check mbind outcome_bind]. set (latest := Zlen F - 1).
  destruct (free_chunks_at F latest) as (last & Hl & ->); [lia|]. cbn [mbind outcome_bind].
  assert (Hfree : forall t fcs, F !! t = Some fcs -> free_ok fcs).
  { intros t fcs Ht. rewrite Forall_lookup in Hok. by apply (Hok t). }
  destruct (initial_roots_ok latest last (Hfree _ _ Hl)) as (roots & -> & Hro & Hrc). cbn [mbind outcome_bind].
  destruct (foldM_total (fun l roots' => exists g, roots_ok g roots' /\ root_chunks roots' = real_chunks last /\
      earliest F latest (latest - Zlen l) g)
    (fun roots time => free_chunks ← at_ F time; slice_roots free_chunks time roots 0)
    (rev (seqZ EarliestSliceTime latest)) roots) as (roots' & -> & g & Hro' & Hrc' & He).
  - exists (fun _ => latest). split; [done|]. split; [done|]. intros x Hx. unfold Zlen. simpl.
    split; [lia|]. split; [done|lia].
  - intros l1 t l2 roots1 Hsp (g & Hro1 & Hrc1 & He1).
    assert (Ht : t = latest - 1 - Zlen l1 /\ Zlen l1 < latest).
    { assert (Hn : rev (seqZ EarliestSliceTime latest) !! length l1 = Some t) by (rewrite Hsp; by apply list_lookup_middle).
      apply rev_seqZ_lookup in Hn. unfold Zlen. lia. }
    destruct Ht as [-> Hlt]. pose proof (Zlen_nonneg l1). set (t := latest - 1 - Zlen l1) in *.
    destruct (free_chunks_at F t) as (fcs & Hf & ->); [lia|]. cbn [mbind outcome_bind].
    rewrite (slice_roots_ok t g) by (eauto || constructor). eexists. split; [done|].
    destruct (real_chunks_spec fcs (Hfree _ _ Hf)) as (Hcs & _).
    destruct (all_updates_ok t g (real_chunks fcs) roots1 Hcs Hro1) as [Hro2 Hrc2].
    eexists. split; [exact Hro2|]. split; [by rewrite Hrc2|]. rewrite Zlen_app.
    replace (latest - (Zlen l1 + Zlen [t])) with t by (unfold Zlen at 2; simpl; lia).
    apply earliest_step; [lia|by eauto|done|]. by replace (t + 1) with (latest - Zlen l1) by lia.
  - cbn [mbind outcome_bind]. exists roots', g, last. split; [done|]. split; [done|]. split; [done|].
    split; [done|]. unfold EarliestSliceTime in He. replace (latest - _) with 0 in He; [done|].
    unfold Zlen. rewrite length_rev, length_seqZ. lia.
Qed.

End Constructor.
