(* ===== verification/FinderFit.v ===== *)
(** * Does a permutation fit?

    The loop over slices and pieces decides whether every offset of every slice is
    free from the slice's time on. *)

From stdpp Require Import sorting.
From S2P Require Import Prelude MachineInt IntervalTree SlicePermutation AllocationFinder FinderPieces FinderRoots.

(** Slices, each with a size and a slice time, placed one after the other from
    [offset] on: every offset is free from the slice's time on. *)
Fixpoint fits_from (g : Z -> Z) (offset : Z) (slices : list (Z * Z)) : Prop :=
  match slices with
  | [] => True
  | (size, time) :: slices =>
      (forall x, offset <= x < offset + size -> g x <= time) /\ fits_from g (offset + size) slices
  end.

Definition total (sizes : list Z) : Z := foldr Z.add 0 sizes.

Lemma total_nonneg sizes : Forall (fun s => 0 < s) sizes -> 0 <= total sizes.
Proof. induction 1; simpl; [done|]. unfold total in *. lia. Qed.

Lemma total_pos sizes : sizes <> [] -> Forall (fun s => 0 < s) sizes -> 0 < total sizes.
Proof. intros Hne Hp. destruct Hp as [|s l Hs Hl]; [done|]. pose proof (total_nonneg l Hl). unfold total in *. simpl. lia. Qed.

Lemma total_app l k : total (l ++ k) = total l + total k.
Proof. induction l as [|s l IH]; simpl; [done|]. unfold total in *. lia. Qed.

Lemma sum_sizes sizes a :
  0 <= a -> Forall (fun s => 0 < s) sizes -> a + total sizes <= int64_max ->
  foldl add64 a sizes = a + total sizes.
Proof.
  intros Ha Hs. revert a Ha. induction Hs as [|s sizes Hs Hss IH]; intros a Ha Hle; simpl in *; [lia|].
  pose proof (total_nonneg sizes Hss). unfold total in *.
  rewrite add64_small by (unfold int64_max in *; z64; lia). rewrite IH; lia.
Qed.

(** Where the function is constant, the offset does not matter. *)
Lemma fits_from_const g lo hi e sizes permutation o o' :
  (forall x, lo <= x < hi -> e = g x) -> Forall (fun s => 0 < s) sizes ->
  lo <= o -> o + total sizes <= hi -> lo <= o' -> o' + total sizes <= hi ->
  fits_from g o' (zip sizes permutation) -> fits_from g o (zip sizes permutation).
Proof.
  intros Hg Hpos. revert permutation o o'.
  induction Hpos as [|s ss Hs Hss IH]; intros [|t p] o o' Ho Hb Ho' Hb' Hfit; simpl in *; try done.
  pose proof (total_nonneg ss Hss). unfold total in *. destruct Hfit as [Hx Hfit]. split.
  - intros x Hxr. rewrite <- (Hg x) by lia. rewrite (Hg o') by lia. apply Hx. lia.
  - apply (IH p _ (o' + s)); try lia. done.
Qed.

(** ** The loop *)

(** The pieces, upwards from the one that contains the offset. *)
Fixpoint covers (g : Z -> Z) (cur hi : Z) (ps : list FreeChunkPiece) : Prop :=
  match ps with
  | [] => cur = hi
  | p :: ps =>
      let d := dimensions p in
      chunk_ok d /\ offset d <= cur < offset d + size d /\
      (forall x, inside d x -> earliest_free_slice_time p = g x) /\ covers g (offset d + size d) hi ps
  end.

Lemma covers_le g cur hi ps : covers g cur hi ps -> cur <= hi.
Proof.
  revert cur. induction ps as [|p ps IH]; simpl; intros cur; [lia|]. intros (_ & ? & _ & ?%IH). lia.
Qed.

(** The rest of the current slice, and the slices after it. *)
Definition rest_slices (sizes permutation : list Z) (i : nat) (consumed : Z) : list (Z * Z) :=
  match drop i (zip sizes permutation) with
  | [] => []
  | (s, t) :: slices => (s - consumed, t) :: slices
  end.

Lemma rest_next sizes permutation i s t :
  zip sizes permutation !! i = Some (s, t) ->
  rest_slices sizes permutation i 0 = (s, t) :: rest_slices sizes permutation (S i) 0.
Proof.
  intros Hi. unfold rest_slices. rewrite (drop_S _ _ _ Hi). rewrite Z.sub_0_r. f_equal.
  by destruct (drop (S i) _) as [|[s' t'] l]; [|rewrite Z.sub_0_r].
Qed.

Lemma fits_split g cur a s t slices :
  0 <= a <= s -> fits_from g cur ((s, t) :: slices) <->
  (forall x, cur <= x < cur + a -> g x <= t) /\ fits_from g (cur + a) ((s - a, t) :: slices).
Proof.
  intros Ha. simpl. replace (cur + a + (s - a)) with (cur + s) by lia. split.
  - intros [Hx Hr]. split; [|split; [|done]]; intros x ?; apply Hx; lia.
  - intros (H1 & H2 & Hr). split; [|done]. intros x Hx.
    destruct (decide (x < cur + a)); [apply H1|apply H2]; lia.
Qed.

Lemma fits_zero g cur t slices : fits_from g cur ((0, t) :: slices) <-> fits_from g cur slices.
Proof. simpl. rewrite Z.add_0_r. split; [tauto|]. intros ?. split; [lia|done]. Qed.

(** [b] decides whether the rest fits: all slices are placed, or the status is an
    error. *)
Definition decides (m : outcome Z) (n : Z) (P : Prop) : Prop :=
  (P /\ m = OK n) \/ (~ P /\ m = Err kFailedPrecondition).

Lemma decides_iff m n P Q : (P <-> Q) -> decides m n Q -> decides m n P.
Proof. unfold decides. tauto. Qed.

Lemma rest_cons sizes permutation i s t consumed :
  zip sizes permutation !! i = Some (s, t) ->
  rest_slices sizes permutation i consumed = (s - consumed, t) :: rest_slices sizes permutation (S i) 0.
Proof.
  intros Hi. unfold rest_slices. rewrite (drop_S _ _ _ Hi). f_equal.
  by destruct (drop (S i) _) as [|[s' t'] l]; [|rewrite Z.sub_0_r].
Qed.

Lemma zip_sizes (P : Z -> Prop) sizes (permutation : list Z) :
  Forall P sizes -> Forall (fun x => P x.1) (zip sizes permutation).
Proof.
  intros Hp. revert permutation. induction Hp as [|s sizes Hs Hp IH]; intros [|t permutation]; simpl; constructor; eauto.
Qed.

Lemma rest_pos sizes permutation i : Forall (fun s => 0 < s) sizes -> 0 <= total (rest_slices sizes permutation i 0).*1.
Proof.
  intros Hpos. apply (zip_sizes _ _ permutation), (Forall_drop _ i) in Hpos. apply total_nonneg, Forall_fmap.
  unfold rest_slices. destruct (drop i (zip sizes permutation)) as [|[s t] l]; [done|]. by rewrite Z.sub_0_r.
Qed.

Lemma size_le_total sizes i s : Forall (fun s => 0 < s) sizes -> sizes !! i = Some s -> s <= total sizes.
Proof.
  intros Hpos Hs. rewrite <- (take_drop_middle _ _ _ Hs) in Hpos |- *. rewrite total_app.
  apply Forall_app in Hpos as [H1%total_nonneg H2]. inversion H2 as [|? ? _ H3%total_nonneg]; subst.
  unfold total in *. simpl. lia.
Qed.

(** One round places [amount] of the current slice in the piece. *)
Lemma fits_round g cur p s t slices a :
  offset (dimensions p) <= cur -> cur + a <= offset (dimensions p) + size (dimensions p) -> 0 <= a <= s ->
  (forall x, inside (dimensions p) x -> earliest_free_slice_time p = g x) -> earliest_free_slice_time p <= t ->
  fits_from g cur ((s, t) :: slices) <-> fits_from g (cur + a) ((s - a, t) :: slices).
Proof.
  intros Hlo Hhi Ha Hg Ht. rewrite (fits_split g cur a) by done. split; [tauto|]. intros Hf. split; [|done].
  intros x Hx. rewrite <- (Hg x); [done|]. unfold inside. lia.
Qed.

Lemma fit_loop_spec fuel sizes permutation g hi ps i consumed cur :
  length permutation = length sizes -> Forall (fun s => 0 < s) sizes -> total sizes <= int64_max ->
  hi <= int64_max -> 0 <= cur -> covers g cur hi ps -> (length ps + (length sizes - i) <= fuel)%nat -> (i <= length sizes)%nat ->
  0 <= consumed -> (forall s, sizes !! i = Some s -> consumed < s) ->
  cur + total (rest_slices sizes permutation i consumed).*1 <= hi ->
  decides (fit_loop fuel sizes permutation ps (Z.of_nat i) consumed cur) (Zlen sizes)
    (fits_from g cur (rest_slices sizes permutation i consumed)).
Proof.
  intros Hlen Hpos Hmax Hhi. revert ps i consumed cur.
  induction fuel as [|fuel IH]; intros ps i consumed cur Hcur Hcov Hfuel Hi Hcons Hlt Htot.
  { destruct ps; simpl in *; [|lia]. left. unfold rest_slices. rewrite drop_ge by (rewrite length_zip_with; lia).
    split; [done|]. unfold Zlen. do 2 f_equal. lia. }
  destruct (decide (i = length sizes)) as [->|Hne].
  { left. unfold rest_slices. rewrite drop_ge by (rewrite length_zip_with; lia). split; [done|].
    destruct ps; simpl; [done|]. unfold Zlen. destruct (Z.ltb_spec (Z.of_nat (length sizes) - 1) (Z.of_nat (length sizes))); [done|lia]. }
  destruct (lookup_lt_is_Some_2 sizes i) as [s Hs]; [lia|].
  destruct (lookup_lt_is_Some_2 permutation i) as [t Ht]; [lia|].
  assert (Hz : zip sizes permutation !! i = Some (s, t)) by (apply lookup_zip_with_Some; eauto 10).
  rewrite (rest_cons _ _ _ _ _ _ Hz) in *. specialize (Hlt s Hs).
  pose proof (size_le_total _ _ _ Hpos Hs) as Hst.
  pose proof (rest_pos sizes permutation (S i) Hpos) as Hrest.
  change (cur + ((s - consumed) + total (rest_slices sizes permutation (S i) 0).*1) <= hi) in Htot.
  destruct ps as [|p ps]; [simpl in Hcov; lia|]. destruct Hcov as (Hok & Hin & Hg & Hcov). simpl in Hfuel.
  cbn [fit_loop]. destruct (Z.ltb_spec (Zlen sizes - 1) (Z.of_nat i)); [unfold Zlen in *; lia|].
  assert (E1 : at_ permutation (Z.of_nat i) = OK t) by (apply at_OK; by rewrite idx_of_nat).
  assert (E2 : at_ sizes (Z.of_nat i) = OK s) by (apply at_OK; by rewrite idx_of_nat).
  rewrite E1, E2. cbn [mbind outcome_bind]. rewrite chunk_end_ok by done.
  destruct Hok as (?&?&?).
  rewrite !sub64_small by (unfold int64_max in *; z64; lia).
  set (a := s - consumed) in *. set (b := offset (dimensions p) + size (dimensions p) - cur) in *.
  destruct (Z.leb_spec (earliest_free_slice_time p) t) as [Hle|Hgt]; cbn [require mbind outcome_bind].
  2: { right. split; [|done]. intros [Hx _]. specialize (Hx cur ltac:(lia)). rewrite <- (Hg cur) in Hx; [lia|done]. }
  assert (Hround := fits_round g cur p a t (rest_slices sizes permutation (S i) 0) (Z.min a b)
    ltac:(lia) ltac:(lia) ltac:(lia) Hg Hle).
  apply (decides_iff _ _ _ _ Hround). rewrite (add64_small cur) by (unfold int64_max in *; z64; lia).
  assert (Hnext : forall s', sizes !! S i = Some s' -> 0 < s').
  { intros s' Hs'. rewrite Forall_lookup in Hpos. by apply (Hpos (S i)). }
  destruct (Z.leb_spec b a) as [Hba|Hba].
  - rewrite (add64_small consumed) by (unfold int64_max in *; z64; lia).
    rewrite Z.min_r by lia. replace (cur + b) with (offset (dimensions p) + size (dimensions p)) by lia.
    destruct (Z.leb_spec a b) as [Hab|Hab].
    + replace (a - b) with 0 by lia. eapply decides_iff; [apply fits_zero|].
      replace (Z.of_nat i + 1) with (Z.of_nat (S i)) by lia. apply IH; auto; lia.
    + replace (a - b) with (s - (consumed + b)) by lia. rewrite <- (rest_cons _ _ _ _ _ _ Hz).
      apply IH; auto; try lia.
      * intros s' Hs'. rewrite Hs in Hs'. injection Hs' as <-. lia.
      * rewrite (rest_cons _ _ _ _ _ _ Hz).
        change (offset (dimensions p) + size (dimensions p) +
          ((s - (consumed + b)) + total (rest_slices sizes permutation (S i) 0).*1) <= hi). lia.
  - rewrite Z.min_l by lia. destruct (Z.leb_spec a b); [|lia]. replace (a - a) with 0 by lia.
    eapply decides_iff; [apply fits_zero|]. replace (Z.of_nat i + 1) with (Z.of_nat (S i)) by lia.
    apply IH; auto; try (simpl; lia). split; [done|]. split; [lia|]. by split.
Qed.

(** ** The pieces from an offset on *)

Lemma covers_app g cur mid hi ps qs : covers g cur mid ps -> covers g mid hi qs -> covers g cur hi (ps ++ qs).
Proof.
  revert cur. induction ps as [|p ps IH]; simpl; intros cur; [by intros ->|].
  intros (? & ? & ? & ?) ?. do 3 (split; [done|]). by apply IH.
Qed.

Lemma records_cons g a ps :
  records g (a :: ps) ->
  (forall x, inside (dimensions a.2) x -> earliest_free_slice_time a.2 = g x) /\ records g ps.
Proof.
  intros Hr. split; [intros x; by apply (Hr a x); left|]. intros b x Hb. apply (Hr b x). by right.
Qed.

Lemma tiles_covers g lo hi ps : tiles lo hi ps -> records g ps -> covers g lo hi (rev ps).*2.
Proof.
  revert hi. induction ps as [|[k p] ps IH]; intros hi; simpl; [done|]. intros (_ & Hp & He & Ht) [Hg Hr]%records_cons.
  rewrite fmap_app. apply (covers_app _ _ (offset (dimensions p))); [by apply IH|].
  destruct Hp as (?&?&?). simpl. split; [done|]. split; [lia|]. by split.
Qed.

Lemma tiles_below lo hi ps o : tiles lo hi ps -> Forall (fun a => o < a.1) ps -> o < hi -> o < lo.
Proof.
  revert hi. induction ps as [|[k p] ps IH]; simpl; intros hi; [lia|]. intros (-> & _ & _ & Ht) Hf Hlt.
  inversion Hf as [|? ? Hk Hf']; subst. simpl in Hk. by apply (IH _ Ht Hf').
Qed.

Lemma pieces_from g lo hi ps o before from :
  tiles lo hi ps -> records g ps -> o < hi -> lower_bound o ps = (before, from) ->
  match from with
  | [] => o < lo
  | a :: _ => lo <= o /\ covers g o hi (snd <$> rev (before ++ [a]))
  end.
Proof.
  intros Ht Hr Hlt E. pose proof (lower_bound_before _ _ _ _ E) as Hbef.
  pose proof (lower_bound_app _ _ _ _ E) as ->. destruct from as [|[k p] from].
  - rewrite app_nil_r in Ht. by apply (tiles_below _ _ _ _ Ht).
  - apply lower_bound_from in E. simpl in E. apply tiles_app in Ht as (mid & Htb & -> & Hp & He & Ht).
    pose proof (tiles_le _ _ _ Ht). pose proof (tiles_below _ _ _ _ Htb Hbef Hlt) as Hmid. split; [lia|].
    rewrite rev_app_distr. cbn [rev app fmap list_fmap snd covers]. split; [done|]. split; [lia|]. split.
    + intros x. apply (Hr (offset (dimensions p), p)). apply elem_of_app. right. left.
    + rewrite He. apply tiles_covers; [done|]. intros a x Ha. apply (Hr a x). apply elem_of_app. by left.
Qed.

(** ** DoesPermutationFit *)

Section Fit.
Context {It : Type} `{SliceTimePermutationIterator It} (f : SlicedAllocationFinder It).

(** What the constructor establishes of its own fields. *)
Record sizes_ok : Prop := {
  so_pos : Forall (fun s => 0 < s) (sorted_slice_sizes_ f);
  so_nonempty : sorted_slice_sizes_ f <> [];
  so_total : total (sorted_slice_sizes_ f) <= max_colocation_size_ f;
  so_max : max_colocation_size_ f <= int64_max;
}.

(** The slices fit at the offset in this order, together with the largest
    colocated buffer. *)
Definition feasible (g : Z -> Z) (c : Chunk) (o : Z) (permutation : list Z) : Prop :=
  offset c <= o /\ o + max_colocation_size_ f <= offset c + size c /\ is_offset_allowed_ f o = true /\
  fits_from g o (zip (sorted_slice_sizes_ f) permutation).

Lemma DoesPermutationFit_spec g k root permutation o :
  sizes_ok -> root_ok g (k, root) -> length permutation = length (sorted_slice_sizes_ f) ->
  0 <= o -> o + max_colocation_size_ f <= int64_max ->
  exists b, ok (DoesPermutationFit f permutation root o) = OK b /\
    (b = true <-> feasible g (root_chunk root) o permutation).
Proof.
  intros [Hpos Hne Htot Hmax] [_ Hc Ht Hr] Hlen Ho Hom. cbn [snd] in *.
  unfold DoesPermutationFit, DoesPermutationFitImpl. rewrite !chunk_end_ok by done.
  pose proof (total_pos _ Hne Hpos) as Hnn. rewrite add64_small by (unfold int64_max in *; z64; lia).
  assert (Hpl : Zlen permutation =? Zlen (sorted_slice_sizes_ f) = true) by (unfold Zlen; rewrite Hlen; apply Z.eqb_refl).
  rewrite Hpl. cbn [require mbind outcome_bind]. set (c := root_chunk root) in *. unfold feasible.
  destruct (Z.ltb_spec o (offset c + size c)) as [Hlt|Hge]; cbn [require mbind outcome_bind].
  2: { exists false. split; [done|]. split; [done|]. lia. }
  destruct (Z.leb_spec (o + max_colocation_size_ f) (offset c + size c)) as [Hle|Hgt]; cbn [require mbind outcome_bind].
  2: { exists false. split; [done|]. split; [done|]. lia. }
  destruct (is_offset_allowed_ f o) eqn:Eall; cbn [require mbind outcome_bind].
  2: { exists false. split; [done|]. split; [done|]. by intros (_ & _ & ? & _). }
  destruct (lower_bound o (pieces root)) as [before from] eqn:E.
  pose proof (pieces_from g _ _ _ o before from Ht Hr Hlt E) as Hfrom.
  destruct from as [|a from]; [exists false; split; [done|]; split; [done|lia]|]. destruct Hfrom as [Hlo Hcov].
  set (ps := snd <$> rev (before ++ [a])) in *.
  assert (Hrs : rest_slices (sorted_slice_sizes_ f) permutation 0 0 = zip (sorted_slice_sizes_ f) permutation).
  { unfold rest_slices. rewrite drop_0. destruct (zip _ permutation) as [|[s t] l]; [done|]. by rewrite Z.sub_0_r. }
  destruct (fit_loop_spec (length ps + length (sorted_slice_sizes_ f)) (sorted_slice_sizes_ f) permutation g
    (offset c + size c) ps 0 0 o) as [[Hfit HF]|[Hfit HF]]; try (done || lia).
  - destruct Hc as (?&?&?). lia.
  - intros s Hs. rewrite Forall_lookup in Hpos. by apply (Hpos 0%nat).
  - rewrite Hrs, fst_zip by lia. lia.
  - rewrite Hrs in Hfit. change (Z.of_nat 0) with 0 in HF. rewrite HF. cbn [mbind outcome_bind].
    unfold LatestSliceTime. destruct (Z.ltb_spec (Zlen (sorted_slice_sizes_ f) - 1) (Zlen (sorted_slice_sizes_ f))); [|lia].
    exists true. by repeat split.
  - rewrite Hrs in Hfit. change (Z.of_nat 0) with 0 in HF. rewrite HF. exists false. split; [done|]. split; [done|]. tauto.
Qed.

End Fit.
