(* ===== verification/FinderSearch.v ===== *)
(** * The search of an allocation finder

    The loops over permutations, offsets and roots end and find the first choice
    that fits, in the order in which they try them. *)

From stdpp Require Import sorting.
From S2P Require Import Prelude MachineInt IntervalTree SlicePermutation PermutationEnum PermutationTheorems.
From S2P Require Import AllocationFinder FinderPieces FinderRoots FinderFit.

(** ** Loops *)

(** A loop ends when a bounded measure decreases. *)
Lemma repeat_until_rounds {S R} (step : S -> outcome (S + R)) (I : S -> Prop) (Q : R -> Prop) (m : S -> Z) d s :
  (forall s, I s ->
    (exists s', step s = OK (inl s') /\ I s' /\ m s' < m s) \/ (exists r, step s = OK (inr r) /\ Q r)) ->
  I s -> exists x, repeat_until d step s = OK x /\
    match x with inl s' => I s' /\ m s' + 2 ^ Z.of_nat d <= m s | inr r => Q r end.
Proof.
  intros Hstep. revert s. induction d as [|d IH]; intros s HI; cbn [repeat_until].
  - destruct (Hstep s HI) as [(s' & -> & HI' & Hm)|(r & -> & HQ)]; eexists; (split; [done|]); [|done].
    split; [done|]. change (2 ^ Z.of_nat 0) with 1. lia.
  - destruct (IH s HI) as ([s'|r] & -> & Hx); cbn [mbind outcome_bind]; [|by exists (inr r)].
    destruct Hx as [HI' Hm]. destruct (IH s' HI') as ([s2|r] & -> & Hx); eexists; (split; [done|]); [|done].
    destruct Hx as [HI2 Hm2]. split; [done|]. rewrite Nat2Z.inj_succ, Z.pow_succ_r by lia. lia.
Qed.

Lemma repeat_until_ends {S R} (step : S -> outcome (S + R)) (I : S -> Prop) (Q : R -> Prop) (m : S -> Z) d s :
  (forall s, I s -> 0 <= m s) ->
  (forall s, I s ->
    (exists s', step s = OK (inl s') /\ I s' /\ m s' < m s) \/ (exists r, step s = OK (inr r) /\ Q r)) ->
  I s -> m s < 2 ^ Z.of_nat d -> exists r, repeat_until d step s = OK (inr r) /\ Q r.
Proof.
  intros Hnn Hstep HI Hm. destruct (repeat_until_rounds step I Q m d s Hstep HI) as ([s'|r] & HR & Hx); [|eauto].
  destruct Hx as [HI' ?]. specialize (Hnn s' HI'). lia.
Qed.

Lemma max_rounds : int64_max < 2 ^ Z.of_nat 64.
Proof. vm_compute. reflexivity. Qed.

Section Search.
Context {It : Type} `{SliceTimePermutationIterator It} {ps : list (list Z)} {R : Repeatable It ps}.
Context (f : SlicedAllocationFinder It) (g : Z -> Z).
Context (Hsizes : sizes_ok f) (Halign : 1 <= alignment_ f).
Context (Hps : Forall (fun p => p ≡ₚ seqZ 0 (Zlen (sorted_slice_sizes_ f))) ps).

#[local] Abbreviation sizes := (sorted_slice_sizes_ f).
#[local] Abbreviation M := (max_colocation_size_ f).

(** ** The result *)

(** The slices in space: the chunk of slice time t is that of the slice whose time
    is t; the last chunk is what the largest colocated buffer needs beyond. *)
Definition placement (o : Z) (permutation : list Z) (chunks : list Chunk) : Prop :=
  length chunks = S (length sizes) /\
  (forall j s t, sizes !! j = Some s -> permutation !! j = Some t ->
    chunks !! Z.to_nat t = Some (mkChunk (o + total (take j sizes)) s)) /\
  last chunks = Some (mkChunk (o + total sizes) (M - total sizes)).

Lemma total_take_S j s : sizes !! j = Some s -> total (take (S j) sizes) = total (take j sizes) + s.
Proof. intros Hs. rewrite (take_S_r _ _ _ Hs), total_app. simpl. lia. Qed.

Lemma total_take_le j : Forall (fun s => 0 < s) sizes -> total (take j sizes) <= total sizes.
Proof.
  intros Hp. rewrite <- (take_drop j sizes) at 2. rewrite total_app.
  pose proof (total_nonneg _ (Forall_drop _ j _ Hp)). lia.
Qed.

Lemma last_insert (l : list Chunk) c : l <> [] -> last (<[pred (length l) := c]> l) = Some c.
Proof.
  intros Hl. rewrite last_lookup, length_insert. apply list_lookup_insert_eq. destruct l; [done|simpl; lia].
Qed.

Lemma perm_inj (n : Z) p i j t : p ≡ₚ seqZ 0 n -> p !! i = Some t -> p !! j = Some t -> i = j.
Proof.
  intros Hp. apply NoDup_lookup. rewrite Hp. apply NoDup_seqZ.
Qed.

Lemma ps_perm p : p ∈ ps -> p ≡ₚ seqZ 0 (Zlen sizes) /\ length p = length sizes.
Proof.
  intros Hin. pose proof (proj1 (Forall_forall _ _) Hps p Hin) as Hp. split; [done|].
  rewrite (Permutation_length Hp), length_seqZ. unfold Zlen. lia.
Qed.

(** After the slices below [k]. *)
Definition placed (o : Z) (p : list Z) (k : nat) (x : list Chunk * Z) : Prop :=
  length x.1 = S (length sizes) /\ x.2 = o + total (take k sizes) /\
  forall j s t, (j < k)%nat -> sizes !! j = Some s -> p !! j = Some t ->
    x.1 !! Z.to_nat t = Some (mkChunk (o + total (take j sizes)) s).

Lemma place_slice_ok p o k x :
  p ≡ₚ seqZ 0 (Zlen sizes) -> 0 <= o -> o + M <= int64_max -> (k < length sizes)%nat -> placed o p k x ->
  exists x', place_slice f p x (Z.of_nat k) = OK x' /\ placed o p (S k) x'.
Proof.
  intros Hp Ho Hom Hk. destruct x as [chunks cur]. intros (Hcl & Hcur & Hj). simpl in Hcl, Hcur, Hj.
  destruct Hsizes as [Hpos Hne Htot Hmax]. subst cur.
  assert (Hlen : length p = length sizes) by (rewrite (Permutation_length Hp), length_seqZ; unfold Zlen; lia).
  destruct (lookup_lt_is_Some_2 sizes k) as [s Hs]; [lia|]. destruct (lookup_lt_is_Some_2 p k) as [t Ht]; [lia|].
  assert (Hr : forall i t', p !! i = Some t' -> 0 <= t' < Zlen sizes).
  { intros i t' Ht'%list_elem_of_lookup_2. rewrite Hp, elem_of_seqZ in Ht'. lia. }
  pose proof (Hr k t Ht) as Htr. unfold Zlen in Htr. cbn [place_slice].
  assert (E1 : at_ sizes (Z.of_nat k) = OK s) by (apply at_OK; by rewrite idx_of_nat).
  assert (E2 : at_ p (Z.of_nat k) = OK t) by (apply at_OK; by rewrite idx_of_nat).
  assert (E3 : set_at chunks t (FromOffsetSize (o + total (take k sizes)) s) =
    OK (<[Z.to_nat t := FromOffsetSize (o + total (take k sizes)) s]> chunks)).
  { apply set_at_OK. split; [unfold Zlen; lia|done]. }
  rewrite E1, E2. cbn [mbind outcome_bind]. rewrite E3. cbn [mbind outcome_bind]. eexists. split; [done|].
  pose proof (total_take_S k s Hs) as HtS. pose proof (total_take_le (S k) Hpos).
  pose proof (total_nonneg _ (Forall_take _ (S k) _ Hpos)).
  split; [by simpl; rewrite length_insert|]. simpl.
  split; [rewrite add64_small; [lia|unfold int64_max in *; z64; lia]|].
  intros j s' t' Hjk Hs' Ht'. destruct (decide (j = k)) as [->|Hne'].
  - assert (s' = s /\ t' = t) as [-> ->] by (split; congruence). apply list_lookup_insert_eq. lia.
  - rewrite list_lookup_insert_ne; [apply (Hj j); [lia|done..]|].
    intros Heq. apply Hne'. pose proof (Hr j t' Ht'). assert (t' = t) as -> by lia.
    by apply (perm_inj (Zlen sizes) p j k t).
Qed.

Lemma PermutationToChunks_ok p o :
  p ∈ ps -> 0 <= o -> o + M <= int64_max ->
  exists chunks, PermutationToChunks f p o = OK chunks /\ placement o p chunks.
Proof.
  intros Hin Ho Hom. destruct (ps_perm p Hin) as [Hp Hlen].
  unfold PermutationToChunks.
  destruct (foldM_total (fun l x => placed o p (length l) x) (place_slice f p) (indices sizes)
    (replicate (S (length p)) (FromOffsetSize (-1) 1), o)) as ([chunks cur] & -> & Hcl & Hcur & Hj).
  - split; [cbn [fst]; by rewrite length_replicate, Hlen|]. split; [simpl; lia|]. simpl. lia.
  - intros l1 i l2 x Hsp Hx.
    assert (Hi : indices sizes !! length l1 = Some i) by (rewrite Hsp; by apply list_lookup_middle).
    apply lookup_seqZ in Hi as [-> Hi]. rewrite Z.add_0_l, length_app. simpl. rewrite Nat.add_1_r.
    apply place_slice_ok; try done. unfold Zlen in Hi. lia.
  - assert (Hil : length (indices sizes) = length sizes) by (unfold indices, Zlen; rewrite length_seqZ; lia).
    cbn [mbind outcome_bind fst snd] in *. rewrite Hil in Hj, Hcur. rewrite firstn_all in Hcur. subst cur.
    destruct Hsizes as [Hpos Hne Htot Hmax]. pose proof (total_pos _ Hne Hpos).
    rewrite (sub64_small (o + _) o) by (unfold int64_max in *; z64; lia).
    rewrite sub64_small by (unfold int64_max in *; z64; lia).
    eexists. split; [apply set_at_OK; unfold Zlen; rewrite Hcl; split; [lia|done]|].
    split; [by rewrite length_insert|]. split.
    + intros j s t Hs Ht. apply lookup_lt_Some in Hs as Hjl. rewrite list_lookup_insert_ne; [by apply (Hj j)|].
      apply list_elem_of_lookup_2 in Ht. rewrite Hp, elem_of_seqZ in Ht. unfold Zlen in Ht. lia.
    + replace (Z.to_nat (Z.of_nat (S (length sizes)) - 1)) with (pred (length chunks)) by lia.
      rewrite last_insert by (by intros ->). unfold FromOffsetSize. do 2 f_equal. lia.
Qed.

(** ** One offset *)

(** The first permutation that fits. *)
Definition first_fit (c : Chunk) (o : Z) (p : list Z) : Prop :=
  exists l1 l2, ps = l1 ++ p :: l2 /\ feasible f g c o p /\ Forall (fun q => ~ feasible f g c o q) l1.

Definition fits_at (c : Chunk) (o : Z) : Prop := exists p, p ∈ ps /\ feasible f g c o p.

Lemma try_permutations_ok k root o fuel it qs :
  root_ok g (k, root) -> 0 <= o -> o + M <= int64_max ->
  Enum it qs -> usable it -> qs `suffix_of` ps -> (length qs <= fuel)%nat ->
  exists chunks it', try_permutations fuel f root o it = OK (chunks, it') /\ usable it' /\
    ((exists l1 p l2, qs = l1 ++ p :: l2 /\ feasible f g (root_chunk root) o p /\
        Forall (fun q => ~ feasible f g (root_chunk root) o q) l1 /\ placement o p chunks) \/
     (chunks = [] /\ Forall (fun q => ~ feasible f g (root_chunk root) o q) qs)).
Proof.
  intros Hroot Ho Hom He. revert fuel. induction He as [it Hd|it it2 qs Hd HN He IH]; intros fuel Hu Hsuf Hf.
  { exists [], it. destruct fuel; simpl; rewrite Hd; (split; [done|]); (split; [done|]); right; by split. }
  simpl in Hf. destruct fuel as [|fuel]; [lia|]. cbn [try_permutations]. rewrite Hd.
  assert (Hin : Get it ∈ ps) by (destruct Hsuf as [l ->]; apply elem_of_app; right; left).
  destruct (ps_perm _ Hin) as [Hp Hlen].
  destruct (DoesPermutationFit_spec f g k root (Get it) o Hsizes Hroot Hlen Ho Hom) as (b & -> & Hb).
  cbn [mbind outcome_bind]. destruct b.
  - destruct (PermutationToChunks_ok (Get it) o Hin Ho Hom) as (chunks & -> & Hpl). cbn [mbind outcome_bind].
    exists chunks, it. split; [done|]. split; [done|]. left. exists [], (Get it), qs.
    split; [done|]. split; [by apply Hb|]. split; [constructor|done].
  - rewrite HN. cbn [mbind outcome_bind].
    destruct (IH fuel) as (chunks & it' & HT & Hu' & Hcase); [by apply (rep_Next it)| |lia|].
    { destruct Hsuf as [l Hl]. exists (l ++ [Get it]). by rewrite <- app_assoc. }
    assert (Hnf : ~ feasible f g (root_chunk root) o (Get it)) by (intros Hfe; apply Hb in Hfe; done).
    exists chunks, it'. split; [done|]. split; [done|]. destruct Hcase as [(l1 & p & l2 & -> & Hfe & Hl1 & Hpl)|[-> Hno]].
    + left. exists (Get it :: l1), p, l2. split; [done|]. split; [done|]. by split; [constructor|].
    + right. split; [done|]. by constructor.
Qed.

(** ** One root *)

Definition aligned (o : Z) : Prop := o mod alignment_ f = 0.

(** The least aligned offset at which a permutation fits, and the permutation. *)
Definition best_offset (c : Chunk) (o : Z) (p : list Z) : Prop :=
  aligned o /\ first_fit c o p /\ forall o', aligned o' -> o' < o -> ~ fits_at c o'.

Definition no_fit (c : Chunk) : Prop := forall o, aligned o -> ~ fits_at c o.

Definition root_result (c : Chunk) (result : list Chunk * It) : Prop :=
  usable result.2 /\
  ((exists o p, best_offset c o p /\ placement o p result.1) \/ (result.1 = [] /\ no_fit c)).

Lemma aligned_next o o' : aligned o -> aligned o' -> o < o' -> o + alignment_ f <= o'.
Proof.
  unfold aligned. intros H1 H2 Hlt. apply Z.mod_divide in H1 as [a Ha]; [|lia]. apply Z.mod_divide in H2 as [b Hb]; [|lia].
  assert (a < b) by (apply (Z.mul_lt_mono_pos_r (alignment_ f)); lia).
  assert ((a + 1) * alignment_ f <= b * alignment_ f) by (apply Z.mul_le_mono_nonneg_r; lia). lia.
Qed.

Lemma placement_nonempty o p chunks : placement o p chunks -> chunks <> [].
Proof. by intros (Hl & _) ->. Qed.

(** In a root with a single piece, what fits anywhere fits at every offset where
    there is room. *)
Lemma single_piece k root o o' p :
  root_ok g (k, root) -> Zlen (pieces root) = 1 -> (forall x, is_offset_allowed_ f x = true) -> p ∈ ps ->
  offset (root_chunk root) <= o -> o + M <= offset (root_chunk root) + size (root_chunk root) ->
  feasible f g (root_chunk root) o' p -> feasible f g (root_chunk root) o p.
Proof.
  intros [_ Hc Ht Hr] Hone Hall Hin Ho Hom (Ho' & Hom' & _ & Hfit). cbn [snd] in *.
  split; [done|]. split; [done|]. split; [apply Hall|].
  destruct (pieces root) as [|[k' q] [|]]; [done| |unfold Zlen in Hone; simpl in Hone; lia]. destruct Ht as (_ & _ & He & Hlo).
  assert (Hg : forall x, offset (root_chunk root) <= x < offset (root_chunk root) + size (root_chunk root) ->
    earliest_free_slice_time q = g x).
  { intros x Hx. apply (Hr (k', q)); [left|]. unfold inside. simpl in *. lia. }
  destruct Hsizes as [Hpos Hne Htot _].
  destruct (ps_perm p Hin) as [_ Hlen].
  assert (Hb : o + total sizes <= offset (root_chunk root) + size (root_chunk root)) by lia.
  assert (Hb' : o' + total sizes <= offset (root_chunk root) + size (root_chunk root)) by lia.
  by apply (fits_from_const g (offset (root_chunk root)) (offset (root_chunk root) + size (root_chunk root))
    (earliest_free_slice_time q) sizes p o o').
Qed.

(** The state of the loop over the offsets. *)
Definition loop_state (c : Chunk) (x : Z * It) : Prop :=
  usable x.2 /\ aligned x.1 /\ offset c <= x.1 /\ x.1 + M <= int64_max /\
  forall o', aligned o' -> o' < x.1 -> ~ fits_at c o'.

(** The offsets of the loop do not overflow: there is space behind the root, or the
    loop ends at an offset that fits. *)
Definition bounded_search (c : Chunk) : Prop :=
  offset c + size c + alignment_ f <= int64_max \/ ~ no_fit c.

Lemma fits_at_range c o : fits_at c o -> offset c <= o /\ o + M <= offset c + size c.
Proof. intros (p & _ & ? & ? & _). done. Qed.

Lemma no_fit_from c o :
  (forall o', aligned o' -> o' < o -> ~ fits_at c o') -> (forall o', aligned o' -> o <= o' -> ~ fits_at c o') -> no_fit c.
Proof. intros H1 H2 o' Ha. destruct (decide (o' < o)); [by apply H1|]. apply H2; [done|lia]. Qed.

Lemma M_pos : 0 < M.
Proof. destruct Hsizes as [Hpos Hne Htot _]. pose proof (total_pos _ Hne Hpos). lia. Qed.

Lemma try_offset_round k root x :
  root_ok g (k, root) -> (forall o, is_offset_allowed_ f o = true) -> bounded_search (root_chunk root) ->
  loop_state (root_chunk root) x ->
  let c := root_chunk root in
  (exists x', try_offset f root (offset c + size c) x = OK (inl x') /\ loop_state c x' /\ x.1 < x'.1) \/
  (exists r, try_offset f root (offset c + size c) x = OK (inr r) /\ root_result c r).
Proof.
  intros Hroot Hall Hbs (Hu & Ha & Hlo & Hom & Hprev) c. fold c in Hlo, Hprev, Hbs. destruct x as [o it]. simpl in *.
  pose proof (ro_chunk _ _ Hroot) as (Hc0 & Hcs & Hce). simpl in Hc0, Hcs, Hce. fold c in Hc0, Hcs, Hce.
  pose proof M_pos as HM. rewrite add64_small by (unfold int64_max in *; z64; lia).
  destruct (Z.leb_spec (o + M) (offset c + size c)) as [Hle|Hgt].
  2: { right. eexists. split; [done|]. split; [done|]. right. split; [done|]. apply (no_fit_from c o Hprev).
       intros o' _ Hge Hf%fits_at_range. lia. }
  destruct (rep_Begin it Hu) as (it1 & -> & Hu1 & He & Hlen). cbn [mbind outcome_bind].
  destruct (try_permutations_ok k root o (Bound it1) it1 ps Hroot) as (chunks & it2 & -> & Hu2 & Hcase);
    [lia|done..|]. cbn [mbind outcome_bind]. fold c in Hcase.
  destruct Hcase as [(l1 & p & l2 & Hsp & Hfe & Hl1 & Hpl)|[-> Hno]].
  { right. rewrite bool_decide_eq_false_2 by by apply (placement_nonempty o p). eexists. split; [done|].
    split; [done|]. left. exists o, p. split; [|done]. split; [done|]. split; [|done]. by exists l1, l2. }
  rewrite bool_decide_eq_true_2 by done. cbn [negb].
  assert (Hno' : ~ fits_at c o).
  { intros (p & Hin & Hf). rewrite Forall_forall in Hno. by apply (Hno p Hin). }
  destruct (Z.eqb_spec (Zlen (pieces root)) 1) as [Hone|Hmany].
  - right. eexists. split; [done|]. split; [done|]. right. split; [done|]. apply (no_fit_from c o Hprev).
    intros o' _ _ (p & Hin & Hf). apply Hno'. exists p. split; [done|]. by apply (single_piece k root o o').
  - left. assert (Hroom : o + alignment_ f + M <= int64_max).
    { destruct Hbs as [Hend|Hfit]; [lia|]. destruct (decide (o + alignment_ f + M <= int64_max)); [done|].
      exfalso. apply Hfit. apply (no_fit_from c (o + alignment_ f)).
      - intros o' Ha' Hlt. destruct (decide (o' < o)); [by apply Hprev|].
        destruct (decide (o' = o)) as [->|]; [done|]. pose proof (aligned_next o o' Ha Ha'). lia.
      - intros o' _ Hge Hf%fits_at_range. lia. }
    rewrite add64_small by (unfold int64_max in *; z64; lia). eexists. split; [done|]. split; [|simpl; lia].
    split; [done|]. simpl. split; [|split; [lia|split; [lia|]]].
    + unfold aligned in *. rewrite <- Z.add_mod_idemp_l, Ha, Z.mod_same by lia. done.
    + intros o' Ha' Hlt. destruct (decide (o' < o)); [by apply Hprev|].
      destruct (decide (o' = o)) as [->|]; [done|]. pose proof (aligned_next o o' Ha Ha'). lia.
Qed.

(** The first aligned offset that is not below [o]. *)
Definition align_up (o : Z) : Z := (o + alignment_ f - 1) / alignment_ f * alignment_ f.

Lemma align_up_spec o : aligned (align_up o) /\ o <= align_up o < o + alignment_ f /\
  forall o', aligned o' -> o <= o' -> align_up o <= o'.
Proof.
  unfold aligned, align_up. set (q := (o + alignment_ f - 1) / alignment_ f).
  pose proof (Z.div_mod (o + alignment_ f - 1) (alignment_ f) ltac:(lia)) as Hdm. fold q in Hdm.
  pose proof (Z.mod_pos_bound (o + alignment_ f - 1) (alignment_ f) ltac:(lia)).
  assert (Ha : (q * alignment_ f) mod alignment_ f = 0) by (apply Z.mod_mul; lia).
  split; [done|]. split; [lia|]. intros o' Ho' Hge.
  destruct (decide (o' < q * alignment_ f)) as [Hlt|]; [|lia].
  pose proof (aligned_next o' (q * alignment_ f) Ho' Ha Hlt). lia.
Qed.

Lemma first_offset o :
  0 <= o -> o + alignment_ f <= int64_max ->
  exists r, rem_ o (alignment_ f) = OK r /\
    (if negb (r =? 0) then add64 o (sub64 (alignment_ f) r) else o) = align_up o /\
    rem_ (align_up o) (alignment_ f) = OK 0.
Proof.
  intros Ho Hb. unfold rem_. destruct (Z.eqb_spec (alignment_ f) 0); [lia|]. eexists. split; [done|].
  destruct (align_up_spec o) as (Ha & Hr & Hleast). split.
  - rewrite Z.rem_mod_nonneg by lia. pose proof (Z.mod_pos_bound o (alignment_ f) ltac:(lia)).
    destruct (Z.eqb_spec (o mod alignment_ f) 0) as [E|E]; cbn [negb].
    + pose proof (Hleast o E). lia.
    + rewrite sub64_small by (unfold int64_max in *; z64; lia). rewrite add64_small by (unfold int64_max in *; z64; lia).
      set (x := o + (alignment_ f - o mod alignment_ f)).
      assert (Hx : aligned x).
      { unfold aligned, x. rewrite (Z.div_mod o (alignment_ f)) at 1 by lia.
        replace (_ + _) with ((o / alignment_ f + 1) * alignment_ f) by lia. apply Z.mod_mul. lia. }
      pose proof (Hleast x Hx). destruct (decide (align_up o < x)) as [Hlt|]; [|lia].
      pose proof (aligned_next _ _ Ha Hx Hlt). destruct (decide (align_up o = o)) as [Eo|]; [|lia].
      unfold aligned in Ha. rewrite Eo in Ha. lia.
  - rewrite Z.rem_mod_nonneg by lia. by f_equal.
Qed.

(** The offsets of a root are far enough from the largest int64_t. *)
Definition room (c : Chunk) : Prop := bounded_search c /\ offset c + alignment_ f + M <= int64_max.

(** The loop ends when every round from a state of the invariant does. *)
Lemma search_offsets_ok root o last_end it (I : Z * It -> Prop) (Q : list Chunk * It -> Prop) :
  rem_ o (alignment_ f) = OK 0 ->
  (forall x, I x -> x.1 <= int64_max) ->
  (forall x, I x ->
    (exists x', try_offset f root last_end x = OK (inl x') /\ I x' /\ x.1 < x'.1) \/
    (exists r, try_offset f root last_end x = OK (inr r) /\ Q r)) ->
  0 <= o -> I (o, it) -> exists r, search_offsets f root o last_end it = OK r /\ Q r.
Proof.
  intros Hrem Hmax Hround Ho HI.
  destruct (repeat_until_ends (try_offset f root last_end) I Q (fun x => int64_max - x.1) 64 (o, it)) as (res & HR & Hres).
  - intros x Hx. specialize (Hmax x Hx). lia.
  - intros x Hx. destruct (Hround x Hx) as [(x' & ? & Hx' & ?)|?]; [|by right].
    left. exists x'. split; [done|]. split; [done|]. lia.
  - done.
  - pose proof max_rounds. cbn [fst]. lia.
  - exists res. split; [|done]. unfold search_offsets. by rewrite Hrem, HR.
Qed.

Lemma FindInRoot_ok k root it :
  root_ok g (k, root) -> (forall o, is_offset_allowed_ f o = true) -> room (root_chunk root) -> usable it ->
  exists r, FindInRoot f root None it = OK r /\ root_result (root_chunk root) r.
Proof.
  intros Hroot Hall [Hbs Hroom] Hu. pose proof (ro_chunk _ _ Hroot) as (Hc0 & Hcs & Hce). simpl in Hc0, Hcs, Hce.
  pose proof M_pos as HM. cbn [FindInRoot]. rewrite chunk_end_ok by by split.
  destruct (first_offset (offset (root_chunk root))) as (r & -> & Hfo & Hrem); [lia|lia|].
  cbn [mbind outcome_bind]. rewrite Hfo.
  destruct (align_up_spec (offset (root_chunk root))) as (Ha & Hr & Hleast).
  apply (search_offsets_ok _ _ _ _ (loop_state (root_chunk root))); [done| | |lia|].
  - intros x (_ & _ & _ & ? & _). lia.
  - intros x Hx. by apply (try_offset_round k root x).
  - split; [done|]. simpl. split; [done|]. split; [lia|]. split; [lia|]. intros o' Ho' Hlt Hf%fits_at_range.
    pose proof (Hleast o' Ho'). lia.
Qed.

Lemma no_result_fits c r o p : root_result c r -> r.1 = [] -> aligned o -> p ∈ ps -> ~ feasible f g c o p.
Proof.
  intros [_ [(o' & p' & _ & Hpl)|[_ Hno]]] Hr Ha Hin Hf.
  - by apply (placement_nonempty o' p' r.1).
  - apply (Hno o Ha). by exists p.
Qed.

(** The roots in the order of the heap: the first in which something fits. *)
Lemma search_roots_ok rs it :
  Forall (fun root => root_ok g (offset (root_chunk root), root) /\ room (root_chunk root)) rs ->
  (forall o, is_offset_allowed_ f o = true) -> usable it ->
  Exists (fun root => ~ no_fit (root_chunk root)) rs ->
  exists chunks it' l1 root l2 o p, search_roots f rs it = OK (chunks, it') /\ usable it' /\
    rs = l1 ++ root :: l2 /\ Forall (fun root => no_fit (root_chunk root)) l1 /\
    best_offset (root_chunk root) o p /\ placement o p chunks.
Proof.
  intros Hrs Hall. revert it. induction Hrs as [|root rs [Hroot Hroom] Hrs IH]; intros it Hu Hex; [by inversion Hex|].
  cbn [search_roots]. destruct (FindInRoot_ok _ root it Hroot Hall Hroom Hu) as ([chunks it2] & -> & Hu2 & Hcase).
  cbn [mbind outcome_bind]. simpl in Hcase, Hu2. destruct Hcase as [(o & p & Hbest & Hpl)|[-> Hno]].
  - rewrite bool_decide_eq_false_2 by by apply (placement_nonempty o p).
    exists chunks, it2, [], root, rs, o, p. repeat (split; [done || constructor|]). done.
  - rewrite bool_decide_eq_true_2 by done. cbn [negb].
    destruct (IH it2 Hu2) as (chunks & it' & l1 & root' & l2 & o & p & HS & Hu' & -> & Hl1 & Hb & Hpl).
    { by inversion Hex; subst. }
    exists chunks, it', (root :: l1), root', l2, o, p. repeat (split; [done|]). split; [by constructor|]. by split.
Qed.

(** ** One given offset *)

Definition offset_result (c : Chunk) (o : Z) (result : list Chunk * It) : Prop :=
  usable result.2 /\
  ((exists p, aligned o /\ first_fit c o p /\ placement o p result.1) \/
   (result.1 = [] /\ ~ (aligned o /\ fits_at c o))).

Lemma FindInRoot_at k root o it :
  root_ok g (k, root) -> usable it -> 0 <= o -> o + M + alignment_ f <= int64_max ->
  exists r, FindInRoot f root (Some o) it = OK r /\ offset_result (root_chunk root) o r.
Proof.
  intros Hroot Hu Ho Hom. pose proof M_pos as HM. cbn [FindInRoot]. unfold rem_ at 1.
  destruct (Z.eqb_spec (alignment_ f) 0); [lia|]. cbn [mbind outcome_bind].
  rewrite Z.rem_mod_nonneg by lia. destruct (Z.eqb_spec (o mod alignment_ f) 0) as [E|E]; cbn [negb].
  2: { eexists. split; [done|]. split; [done|]. right. split; [done|]. by intros [? _]. }
  rewrite add64_small by (unfold int64_max in *; z64; lia).
  set (c := root_chunk root).
  apply (search_offsets_ok _ _ _ _
    (fun x => usable x.2 /\ (x.1 = o \/ x.1 = o + alignment_ f /\ ~ fits_at c o))); [| | |done|simpl; tauto].
  - unfold rem_. destruct (Z.eqb_spec (alignment_ f) 0); [lia|]. by rewrite Z.rem_mod_nonneg, E by lia.
  - intros [o' it'] [_ Hx]. simpl in *. lia.
  - intros [o' it'] [Hu' Hx]. simpl in Hu', Hx. unfold try_offset.
    rewrite add64_small by (unfold int64_max in *; z64; lia). destruct Hx as [->|[-> Hno]].
    2: { right. destruct (Z.leb_spec (o + alignment_ f + M) (o + M)); [lia|]. eexists. split; [done|].
         split; [done|]. right. split; [done|]. tauto. }
    destruct (Z.leb_spec (o + M) (o + M)); [|lia].
    destruct (rep_Begin it' Hu') as (it1 & -> & Hu1 & He & Hlen). cbn [mbind outcome_bind].
    destruct (try_permutations_ok k root o (Bound it1) it1 ps Hroot) as (chunks & it2 & -> & Hu2 & Hcase);
      [lia|lia|done..|]. cbn [mbind outcome_bind]. fold c in Hcase.
    destruct Hcase as [(l1 & p & l2 & Hsp & Hfe & Hl1 & Hpl)|[-> Hno]].
    + right. rewrite bool_decide_eq_false_2 by by apply (placement_nonempty o p). eexists. split; [done|].
      split; [done|]. left. exists p. split; [done|]. split; [|done]. by exists l1, l2.
    + assert (Hno' : ~ fits_at c o).
      { intros (p & Hin & Hf). rewrite Forall_forall in Hno. by apply (Hno p Hin). }
      rewrite bool_decide_eq_true_2 by done. cbn [negb]. destruct (Zlen (pieces root) =? 1).
      * right. eexists. split; [done|]. split; [done|]. right. split; [done|]. tauto.
      * left. rewrite add64_small by (unfold int64_max in *; z64; lia). eexists. split; [done|]. simpl.
        split; [|lia]. split; [done|]. by right.
Qed.

Lemma FindForOffset_ok o it :
  roots_ok g (free_chunks_ f) -> usable it -> 0 <= o -> o + M + alignment_ f <= int64_max ->
  exists chunks it', FindForOffset_ f o it = OK (chunks, it') /\ usable it' /\
    ((exists c p, c ∈ root_chunks (free_chunks_ f) /\ aligned o /\ first_fit c o p /\ placement o p chunks) \/
     (chunks = [] /\ forall c, c ∈ root_chunks (free_chunks_ f) -> ~ (aligned o /\ fits_at c o))).
Proof.
  intros [Hd Hr] Hu Ho Hom. pose proof M_pos as HM. unfold FindForOffset_.
  destruct (lower_bound o (free_chunks_ f)) as [before from] eqn:E. cbn [snd].
  pose proof (lower_bound_app _ _ _ _ E) as Eapp. pose proof (lower_bound_before _ _ _ _ E) as Hbef.
  assert (Hb : forall c, c ∈ root_chunks before -> ~ (aligned o /\ fits_at c o)).
  { intros c (kr & -> & Hin)%list_elem_of_fmap [_ Hf%fits_at_range]. rewrite Forall_forall in Hbef, Hr.
    specialize (Hbef kr Hin). rewrite (ro_key g kr) in Hbef; [lia|]. apply Hr. rewrite Eapp, elem_of_app. by left. }
  unfold root_chunks in *. rewrite Eapp, fmap_app in *. destruct from as [|[k root] from].
  { exists [], it. split; [done|]. split; [done|]. right. split; [done|]. by rewrite app_nil_r. }
  apply Forall_app in Hr as [_ Hr]. inversion Hr as [|? ? Hroot _]; subst.
  destruct (FindInRoot_at k root o it Hroot Hu Ho Hom) as ([chunks it'] & HF & Hu' & Hcase).
  exists chunks, it'. split; [done|]. split; [done|]. simpl in Hcase.
  destruct Hcase as [(p & Ha & Hff & Hpl)|[-> Hno]].
  - left. exists (root_chunk root), p. split; [|done]. apply elem_of_app. right. left.
  - right. split; [done|]. intros c. simpl. rewrite elem_of_app, elem_of_cons. intros [Hc|[->|Hc]]; [by apply Hb|done|].
    intros [_ Hf%fits_at_range]. apply lower_bound_from in E. simpl in E.
    rewrite (ro_key _ _ Hroot : k = offset (root_chunk root)) in E.
    apply StronglySorted_app in Hd as (_ & _ & Hd). simpl in Hd. apply StronglySorted_inv in Hd as [_ Hd].
    rewrite Forall_forall in Hd. specialize (Hd c Hc). cbn beta in Hd. lia.
Qed.

End Search.
