(* ===== verification/FinderTheorems.v ===== *)
(** * Where a finder places an allocation

    The theorems on Find and FindForOffset, stated on the free chunks that the finder
    is given: what is found is free, nothing is overlooked, and Find takes the
    smallest root, in it the lowest offset, and there the first permutation. *)

From stdpp Require Import sorting.
From S2P Require Import Prelude MachineInt IntervalTree SlicePermutation PermutationEnum PermutationTheorems.
From S2P Require Import AllocationFinder FinderPieces FinderRoots FinderFit FinderSearch.

(** ** Find *)

Section Find.
Context {It : Type} `{SliceTimePermutationIterator It} {ps : list (list Z)} {R : Repeatable It ps}.
Context (f : SlicedAllocationFinder It) (g : Z -> Z).
Context (Hsizes : sizes_ok f) (Halign : 1 <= alignment_ f).
Context (Hps : Forall (fun p => p ≡ₚ seqZ 0 (Zlen (sorted_slice_sizes_ f))) ps).
Context (Hroots : roots_ok g (free_chunks_ f)).

#[local] Abbreviation fits_at := (fits_at (ps := ps) f g).
#[local] Abbreviation first_fit := (first_fit (ps := ps) f g).

Definition chunk_le (c d : Chunk) : Prop := pair_le (size c, offset c) (size d, offset d).

#[local] Instance root_le_total : Total root_le.
Proof. intros r s. unfold root_le, pair_le. simpl. lia. Qed.
#[local] Instance root_le_trans : Transitive root_le.
Proof. intros r s t. unfold root_le, pair_le. simpl. lia. Qed.

Lemma search_all_ok it :
  (forall o, is_offset_allowed_ f o = true) -> usable it ->
  (forall c, c ∈ root_chunks (free_chunks_ f) -> room (ps := ps) f g c) ->
  (exists c, c ∈ root_chunks (free_chunks_ f) /\ ~ no_fit (ps := ps) f g c) ->
  exists chunks it' c o p,
    search_roots f (merge_sort root_le (snd <$> rev (free_chunks_ f))) it = OK (chunks, it') /\
    c ∈ root_chunks (free_chunks_ f) /\ best_offset (ps := ps) f g c o p /\ placement f o p chunks /\
    forall c' o', c' ∈ root_chunks (free_chunks_ f) -> aligned f o' -> fits_at c' o' -> chunk_le c c'.
Proof.
  intros Hall Hu Hroom (c0 & Hc0 & Hfit). set (rs := merge_sort root_le (snd <$> rev (free_chunks_ f))).
  assert (Hmem : forall root, root ∈ rs <-> root ∈ (free_chunks_ f).*2).
  { intros root. unfold rs. by rewrite merge_sort_Permutation, <- Permutation_rev. }
  assert (Hch : forall root, root ∈ rs -> root_chunk root ∈ root_chunks (free_chunks_ f)).
  { intros root ([k r] & -> & Hin)%Hmem%list_elem_of_fmap. apply list_elem_of_fmap. by exists (k, r). }
  assert (Hch2 : forall c, c ∈ root_chunks (free_chunks_ f) -> exists root, root ∈ rs /\ root_chunk root = c).
  { intros c ([k r] & -> & Hin)%list_elem_of_fmap. exists r. split; [|done]. apply Hmem, list_elem_of_fmap. by exists (k, r). }
  destruct (search_roots_ok f g Hsizes Halign Hps rs it) as (chunks & it' & l1 & root & l2 & o & p & HS & _ & Hrs & Hl1 & Hb & Hpl).
  - apply Forall_forall. intros root Hin. split; [|by apply Hroom, Hch].
    apply Hmem, list_elem_of_fmap in Hin as ([k r] & -> & Hin). destruct Hroots as [_ Hr].
    rewrite Forall_forall in Hr. pose proof (Hr _ Hin) as Hok. pose proof (ro_key _ _ Hok) as Hk. simpl in *. by rewrite <- Hk.
  - done.
  - done.
  - apply Exists_exists. destruct (Hch2 c0 Hc0) as (root & Hin & <-). eauto.
  - exists chunks, it', (root_chunk root), o, p. split; [done|].
    split; [apply Hch; rewrite Hrs, elem_of_app; right; left|]. split; [done|]. split; [done|].
    intros c' o' Hc' Ha' Hf'. destruct (Hch2 c' Hc') as (root' & Hin' & <-).
    assert (Hss : StronglySorted root_le rs) by (apply StronglySorted_merge_sort; apply _).
    rewrite Hrs, elem_of_app, elem_of_cons in Hin'. destruct Hin' as [Hin'|[->|Hin']].
    + rewrite Forall_forall in Hl1. by destruct (Hl1 root' Hin' o' Ha').
    + unfold chunk_le, pair_le. simpl. lia.
    + rewrite Hrs in Hss. apply StronglySorted_app_1_r, StronglySorted_inv in Hss as [_ Hss].
      rewrite Forall_forall in Hss. by apply (Hss root').
Qed.

Lemma Find_ok it :
  (forall o, is_offset_allowed_ f o = true) -> usable it ->
  preferred_offset_ f + max_colocation_size_ f + alignment_ f <= int64_max ->
  (forall c, c ∈ root_chunks (free_chunks_ f) -> room (ps := ps) f g c) ->
  (exists c, c ∈ root_chunks (free_chunks_ f) /\ ~ no_fit (ps := ps) f g c) ->
  exists chunks it' c o p, Find_ f it = OK (chunks, it') /\
    c ∈ root_chunks (free_chunks_ f) /\ aligned f o /\ first_fit c o p /\ placement f o p chunks /\
    (o = preferred_offset_ f \/
     (forall c', 0 <= preferred_offset_ f -> c' ∈ root_chunks (free_chunks_ f) ->
        ~ (aligned f (preferred_offset_ f) /\ fits_at c' (preferred_offset_ f))) /\
     forall c' o', c' ∈ root_chunks (free_chunks_ f) -> aligned f o' -> fits_at c' o' ->
       chunk_le c c' /\ (c' = c -> o <= o')).
Proof.
  intros Hall Hu Hpref Hroom Hex. unfold Find_.
  assert (Hsearch : forall it2, usable it2 ->
    (forall c', 0 <= preferred_offset_ f -> c' ∈ root_chunks (free_chunks_ f) ->
        ~ (aligned f (preferred_offset_ f) /\ fits_at c' (preferred_offset_ f))) ->
    exists chunks it' c o p, search_roots f (merge_sort root_le (snd <$> rev (free_chunks_ f))) it2 = OK (chunks, it') /\
      c ∈ root_chunks (free_chunks_ f) /\ aligned f o /\ first_fit c o p /\ placement f o p chunks /\
      (o = preferred_offset_ f \/
       (forall c', 0 <= preferred_offset_ f -> c' ∈ root_chunks (free_chunks_ f) ->
          ~ (aligned f (preferred_offset_ f) /\ fits_at c' (preferred_offset_ f))) /\
       forall c' o', c' ∈ root_chunks (free_chunks_ f) -> aligned f o' -> fits_at c' o' ->
         chunk_le c c' /\ (c' = c -> o <= o'))).
  { intros it2 Hu2 Hno. destruct (search_all_ok it2 Hall Hu2 Hroom Hex) as (chunks & it' & c & o & p & HS & Hc & (Ha & Hff & Hleast) & Hpl & Hbest).
    exists chunks, it', c, o, p. do 5 (split; [done|]). right. split; [done|]. intros c' o' Hc' Ha' Hf'.
    split; [by apply (Hbest c' o')|]. intros ->. destruct (decide (o <= o')); [done|]. by destruct (Hleast o'); [|lia|]. }
  destruct (Z.leb_spec 0 (preferred_offset_ f)) as [H0|H0].
  - destruct (FindForOffset_ok f g Hsizes Halign Hps (preferred_offset_ f) it Hroots Hu H0 Hpref)
      as (chunks & it2 & -> & Hu2 & Hcase). cbn [mbind outcome_bind].
    destruct Hcase as [(c & p & Hc & Ha & Hff & Hpl)|[-> Hno]].
    + rewrite bool_decide_eq_false_2 by by apply (placement_nonempty f (preferred_offset_ f) p). cbn [negb].
      exists chunks, it2, c, (preferred_offset_ f), p. do 5 (split; [done|]). by left.
    + rewrite bool_decide_eq_true_2 by done. cbn [negb]. apply Hsearch; [done|]. intros c' _. apply Hno.
  - cbn [mbind outcome_bind]. rewrite bool_decide_eq_true_2 by done. cbn [negb]. apply Hsearch; [done|]. lia.
Qed.

End Find.

(** ** In terms of the free chunks *)

Section Free.
Context {It : Type} `{SliceTimePermutationIterator It} (f : SlicedAllocationFinder It).
Context (F : list FreeChunks).

(** With the permutation [p], the slices can be placed from [o] on in the free chunk
    [c] of the latest slice time: the chunk has space for the largest colocated
    buffer, the offset is aligned and allowed, and the memory of every slice is free
    at its slice time and all later ones. *)
Definition can_place (c : Chunk) (o : Z) (p : list Z) : Prop :=
  (exists last, F !! Z.to_nat (Zlen F - 1) = Some last /\ c ∈ real_chunks last) /\
  offset c <= o /\ o + max_colocation_size_ f <= offset c + size c /\
  o mod alignment_ f = 0 /\ is_offset_allowed_ f o = true /\
  forall j s t x, sorted_slice_sizes_ f !! j = Some s -> p !! j = Some t ->
    o + total (take j (sorted_slice_sizes_ f)) <= x < o + total (take j (sorted_slice_sizes_ f)) + s ->
    always_free F (Zlen F - 1) t x.

Lemma fits_from_slices g o sizes permutation :
  fits_from g o (zip sizes permutation) <->
  forall j s t x, sizes !! j = Some s -> permutation !! j = Some t ->
    o + total (take j sizes) <= x < o + total (take j sizes) + s -> g x <= t.
Proof.
  revert o permutation. induction sizes as [|s sizes IH]; intros o [|t permutation]; simpl.
  - split; [|done]. by intros _ j s t x Hs.
  - split; [|done]. by intros _ j s t' x Hs.
  - split; [|done]. by intros _ j s' t x _ Hs.
  - rewrite IH. split.
    + intros [H0 HS] [|j] s' t' x; simpl.
      * intros [= <-] [= <-] Hx. apply H0. lia.
      * intros Hs Ht Hx. apply (HS j s' t' x Hs Ht). unfold total in *. simpl in *. lia.
    + intros Hj. split.
      * intros x Hx. apply (Hj 0%nat s t x); simpl; [done..|lia].
      * intros j s' t' x Hs Ht Hx. apply (Hj (S j) s' t' x Hs Ht). unfold total in *. simpl in *. lia.
Qed.

(** An offset is free early enough exactly when it is always free from then on. *)
Lemma earliest_le g x t :
  earliest F (Zlen F - 1) 0 g -> always_free F (Zlen F - 1) (Zlen F - 1) x -> 0 <= t < Zlen F ->
  g x <= t <-> always_free F (Zlen F - 1) t x.
Proof.
  intros He Hx Ht. destruct (He x Hx) as (Hg & Ha & Hn). split.
  - intros Hle t' fcs Ht'. apply Ha. lia.
  - intros Haf. destruct (decide (g x <= t)); [done|]. exfalso. apply Hn; [lia|].
    intros t' fcs Ht'. apply Haf. lia.
Qed.

Lemma feasible_can_place g c o p last :
  sizes_ok f -> free_chunks_ok F -> Zlen (sorted_slice_sizes_ f) = Zlen F ->
  F !! Z.to_nat (Zlen F - 1) = Some last -> c ∈ real_chunks last -> earliest F (Zlen F - 1) 0 g ->
  p ≡ₚ seqZ 0 (Zlen F) ->
  aligned f o /\ feasible f g c o p <-> can_place c o p.
Proof.
  intros [Hpos _ Htot _] [_ Hok] Hlen Hlast Hc He Hp. unfold aligned, feasible, can_place. rewrite fits_from_slices.
  assert (Hfree : forall j s x, sorted_slice_sizes_ f !! j = Some s -> offset c <= o ->
    o + max_colocation_size_ f <= offset c + size c ->
    o + total (take j (sorted_slice_sizes_ f)) <= x < o + total (take j (sorted_slice_sizes_ f)) + s ->
    always_free F (Zlen F - 1) (Zlen F - 1) x).
  { intros j s x Hs Hlo Hhi Hx t' fcs Ht' Hf. replace t' with (Zlen F - 1) in Hf by lia.
    rewrite Hlast in Hf. injection Hf as <-. rewrite Forall_lookup in Hok.
    apply (real_chunks_spec last (Hok _ _ Hlast)). apply Exists_exists. exists c. split; [done|].
    pose proof (total_take_S f j s Hs). pose proof (total_take_le f (S j) Hpos).
    pose proof (total_nonneg _ (Forall_take _ j _ Hpos)). unfold inside. lia. }
  assert (Ht : forall j t, p !! j = Some t -> 0 <= t < Zlen F).
  { intros j t Hj%list_elem_of_lookup_2. rewrite Hp, elem_of_seqZ in Hj. lia. }
  split.
  - intros (Ha & Hlo & Hhi & Hall & Hfit). split; [eauto|]. do 4 (split; [done|]).
    intros j s t x Hs Hj Hx. apply (earliest_le g); [done|by eauto..|]. by apply (Hfit j s t x).
  - intros (_ & Hlo & Hhi & Ha & Hall & Hfit). do 4 (split; [done|]). intros j s t x Hs Hj Hx.
    apply (earliest_le g); [done|by eauto..|]. by apply (Hfit j s t x).
Qed.

End Free.

(** ** The theorems *)

(** What the constructor requires: as many slices as slice times, an alignment,
    disjoint free chunks in descending order; and that the sizes do not overflow. *)
Record finder_input (F : list FreeChunks) (sizes times : list Z) (max_colocation_size alignment : Z) : Prop := {
  fi_free : free_chunks_ok F;
  fi_slices : Zlen sizes = Zlen F;
  fi_times : Zlen times = Zlen F;
  fi_sizes : Forall (fun s => 0 < s) sizes;
  fi_alignment : 1 <= alignment;
  fi_max : Z.max max_colocation_size (total sizes) <= int64_max;
}.

(** From [limit] on, the memory is free at all slice times, and an aligned place for
    the allocation is left there. *)
Definition free_tail (F : list FreeChunks) (space alignment limit : Z) : Prop :=
  Forall (fun fcs => exists a, head fcs = Some (a, int64_max) /\ 0 <= a <= limit) F /\
  limit + alignment + space <= int64_max.

Lemma new_finder_fields ty times F sizes mx preferred alignment allowed :
  finder_input F sizes times mx alignment ->
  exists it ps f g last,
    CreateForNewAllocation ty times = OK it /\ repeats it ps /\
    Forall (fun p => p ≡ₚ seqZ 0 (Zlen F)) ps /\ ps <> [] /\
    new_SlicedAllocationFinder F sizes mx preferred alignment it allowed = OK f /\
    sizes_ok f /\ sorted_slice_sizes_ f = sizes /\ max_colocation_size_ f = Z.max mx (total sizes) /\
    preferred_offset_ f = preferred /\ alignment_ f = alignment /\ is_offset_allowed_ f = allowed /\
    slice_time_permutation_iterator_ f = it /\
    F !! Z.to_nat (Zlen F - 1) = Some last /\ root_chunks (free_chunks_ f) = real_chunks last /\
    roots_ok g (free_chunks_ f) /\ earliest F (Zlen F - 1) 0 g.
Proof.
  intros [Hfree Hsl Htl Hpos Hal Hmax].
  assert (HF : F <> []) by apply Hfree.
  assert (Ht : times <> []) by (intros ->; by destruct F).
  destruct (new_allocation_repeats ty times Ht) as (it & ps & HC & Hrep & Hperm & Hhd).
  destruct (new_finder_ok F sizes mx preferred alignment it allowed Hfree Hsl)
    as (roots & g & last & Hnew & Hlast & Hrc & Hro & He).
  assert (Hsum : foldl add64 0 sizes = total sizes) by (rewrite sum_sizes; [lia|lia|done|lia]).
  rewrite Hsum in Hnew.
  assert (Hm : (if mx <? total sizes then total sizes else mx) = Z.max mx (total sizes)).
  { destruct (Z.ltb_spec mx (total sizes)); lia. }
  rewrite Hm in Hnew. eexists it, ps, _, g, last. split; [done|]. split; [done|]. rewrite <- Htl.
  split; [done|]. split; [by intros ->|]. rewrite Htl. split; [exact Hnew|]. simpl.
  split; [|repeat (split; [done|]); done]. split; simpl; [done| |lia|done]. intros ->. by destruct F.
Qed.

(** C12: FindForOffset places an allocation at the given offset exactly when that is
    possible.  The iterator and the finder are created; the call returns; it returns
    the chunks of a placement of the slices, by the first of the permutations tried
    that can be placed there, or no chunks when none of them can. *)
Theorem FindForOffset_exact ty times F sizes mx preferred alignment allowed o :
  finder_input F sizes times mx alignment ->
  0 <= o -> o + Z.max mx (total sizes) + alignment <= int64_max ->
  exists it ps f chunks,
    CreateForNewAllocation ty times = OK it /\ enumerate it = OK ps /\
    new_SlicedAllocationFinder F sizes mx preferred alignment it allowed = OK f /\
    FindForOffset f o = OK chunks /\
    ((exists c l1 p l2, ps = l1 ++ p :: l2 /\ can_place f F c o p /\
        Forall (fun q => ~ can_place f F c o q) l1 /\ placement f o p chunks) \/
     (chunks = [] /\ forall c p, p ∈ ps -> ~ can_place f F c o p)).
Proof.
  intros Hin Ho Hom. destruct (new_finder_fields ty times F sizes mx preferred alignment allowed Hin)
    as (it & ps & f & g & last & HC & Hrep & Hperm & _ & Hnew & Hso & Hs & Hm & _ & Ha & _ & Hit & Hlast & Hrc & Hro & He).
  exists it, ps, f. pose proof Hrep as HE%repeats_enumerate. destruct Hrep as [R Hu].
  destruct Hin as [Hfree Hsl _ _ Hal _]. rewrite <- Hs in Hsl.
  assert (Hps : Forall (fun p => p ≡ₚ seqZ 0 (Zlen (sorted_slice_sizes_ f))) ps) by by rewrite Hsl.
  destruct (FindForOffset_ok (ps := ps) f g Hso ltac:(lia) Hps o it Hro Hu Ho ltac:(lia))
    as (chunks & it' & HF & _ & Hcase).
  exists chunks. do 3 (split; [done|]). split; [unfold FindForOffset; rewrite Hit, HF; done|].
  assert (Hiff : forall c p, c ∈ real_chunks last -> p ∈ ps -> aligned f o /\ feasible f g c o p <-> can_place f F c o p).
  { intros c p Hc Hp. rewrite Forall_forall in Hperm. by apply (feasible_can_place f F g c o p last); auto. }
  rewrite Hrc in Hcase. destruct Hcase as [(c & p & Hc & Hao & (l1 & l2 & Hsp & Hfe & Hno) & Hpl)|[-> Hno]].
  - left. exists c, l1, p, l2. split; [done|]. split; [apply Hiff; [done|subst ps; apply elem_of_app; right; left|done]|].
    split; [|done]. rewrite Forall_forall in Hno |- *. intros q Hq Hcp.
    apply Hiff in Hcp as [_ ?]; [|done|subst ps; apply elem_of_app; by left]. by apply (Hno q Hq).
  - right. split; [done|]. intros c p Hp Hcp. pose proof Hcp as ((last' & Hl' & Hc) & _).
    rewrite Hlast in Hl'. injection Hl' as <-. apply Hiff in Hcp as [Hao Hf]; [|done..].
    apply (Hno c Hc). split; [done|]. by exists p.
Qed.

Section Tail.
Context {It : Type} `{SliceTimePermutationIterator It} (f : SlicedAllocationFinder It).
Context (F : list FreeChunks) (last : FreeChunks) (limit : Z).
Context (Hsizes : sizes_ok f) (Halign : 1 <= alignment_ f) (Hfree : free_chunks_ok F).
Context (Hslices : Zlen (sorted_slice_sizes_ f) = Zlen F).
Context (Hlast : F !! Z.to_nat (Zlen F - 1) = Some last).
Context (Htail : free_tail F (max_colocation_size_ f) (alignment_ f) limit).
Context (Hall : forall o, is_offset_allowed_ f o = true).

(** The free chunk that goes on to the end of the memory, and the others below it. *)
Lemma tail_chunk : exists c0, c0 ∈ real_chunks last /\ 0 <= offset c0 <= limit /\
  offset c0 + size c0 = int64_max /\
  forall c, c ∈ real_chunks last -> c = c0 \/ offset c + size c <= offset c0.
Proof.
  destruct Htail as [Hheads Hroom]. destruct Hfree as [_ Hok]. rewrite Forall_lookup in Hheads, Hok.
  destruct (Hheads _ _ Hlast) as (a & Hhd & Ha). pose proof (Hok _ _ Hlast) as Hokl.
  destruct last as [|[a' e] rest]; [done|]. simpl in Hhd. injection Hhd as -> ->.
  pose proof (M_pos f Hsizes) as HM. assert (Hlt : a < int64_max) by lia.
  destruct (real_chunks_spec _ Hokl) as (_ & Hd & _).
  destruct (free_chunk_ok a int64_max ltac:(lia) ltac:(lia)) as (Eo & Es & _).
  rewrite real_chunks_cons in *. rewrite decide_True in * by done.
  exists (FromOffsetEnd a int64_max). split; [left|]. split; [lia|]. split; [lia|].
  intros c [->|Hc]%elem_of_cons; [by left|right]. apply StronglySorted_inv in Hd as [_ Hd].
  rewrite Forall_forall in Hd. apply (Hd c Hc).
Qed.

Lemma tail_can_place p : exists c, can_place f F c (align_up f limit) p /\ c ∈ real_chunks last.
Proof.
  destruct tail_chunk as (c0 & Hc0 & Hb & He & _). destruct Htail as [Hheads Hroom].
  destruct (align_up_spec f Halign limit) as (Ha & Hr & _). exists c0. split; [|done].
  split; [by exists last|]. split; [lia|]. split; [lia|]. split; [done|]. split; [apply Hall|].
  intros j s t x Hs _ Hx t' fcs _ Hf. rewrite Forall_lookup in Hheads.
  destruct (Hheads _ _ Hf) as (a & Hhd & Ha'). destruct fcs as [|[a' e] fcs]; [done|]. simpl in Hhd. injection Hhd as -> ->.
  apply Exists_cons_hd. simpl. destruct Hsizes as [Hpos _ Htot _].
  pose proof (total_take_S f j s Hs). pose proof (total_take_le f (S j) Hpos).
  pose proof (total_nonneg _ (Forall_take _ j _ Hpos)). lia.
Qed.

Lemma tail_room `{Repeatable It ps} g :
  ps <> [] -> Forall (fun p => p ≡ₚ seqZ 0 (Zlen F)) ps -> earliest F (Zlen F - 1) 0 g ->
  (forall c, c ∈ real_chunks last -> room (ps := ps) f g c) /\
  exists c, c ∈ real_chunks last /\ ~ no_fit (ps := ps) f g c.
Proof.
  intros Hne Hperm He. assert (Hfit : exists c, c ∈ real_chunks last /\ fits_at (ps := ps) f g c (align_up f limit)).
  { destruct ps as [|p ps']; [done|]. destruct (tail_can_place p) as (c & Hcp & Hc). exists c. split; [done|].
    exists p. split; [left|]. inversion Hperm; subst. by apply (feasible_can_place f F g c _ p last). }
  destruct (align_up_spec f Halign limit) as (Hal & _ & _).
  destruct Hfit as (cf & Hcf & Hfit). pose proof Hfit as Hr%fits_at_range.
  assert (Hnf : ~ no_fit (ps := ps) f g cf) by (intros Hno; by apply (Hno _ Hal)).
  destruct tail_chunk as (c0 & Hc0 & Hb & Hend & Hcs). destruct Htail as [_ Hroom].
  pose proof (M_pos f Hsizes) as HM. split; [|by exists cf].
  assert (Ecf : cf = c0).
  { destruct (Hcs cf Hcf) as [|Hbelow]; [done|]. destruct (align_up_spec f Halign limit) as (_ & ? & _). lia. }
  subst cf. destruct Hfree as [_ Hok]. rewrite Forall_lookup in Hok.
  destruct (real_chunks_spec _ (Hok _ _ Hlast)) as (Hck & _). rewrite Forall_forall in Hck.
  intros c Hc. destruct (Hck c Hc) as (?&?&?). destruct (Hcs c Hc) as [->|Hbelow]; (split; [|lia]); [by right|left; lia].
Qed.

End Tail.

(** Find, from the creation of the iterator and the finder to the chunks. *)
Lemma Find_result ty times F sizes mx preferred alignment limit :
  finder_input F sizes times mx alignment ->
  free_tail F (Z.max mx (total sizes)) alignment limit ->
  preferred + Z.max mx (total sizes) + alignment <= int64_max ->
  exists it ps f chunks c o p,
    CreateForNewAllocation ty times = OK it /\ enumerate it = OK ps /\
    new_SlicedAllocationFinder F sizes mx preferred alignment it AllOffsetsAllowed = OK f /\
    Find f = OK chunks /\ p ∈ ps /\ can_place f F c o p /\ placement f o p chunks /\
    (o = preferred \/
     (forall c' p', 0 <= preferred -> p' ∈ ps -> ~ can_place f F c' preferred p') /\
     forall c' o' p', p' ∈ ps -> can_place f F c' o' p' -> chunk_le c c' /\ (c' = c -> o <= o')).
Proof.
  intros Hin Htail Hpref.
  destruct (new_finder_fields ty times F sizes mx preferred alignment AllOffsetsAllowed Hin)
    as (it & ps & f & g & last & HC & Hrep & Hperm & Hne & Hnew & Hso & Hs & Hm & Hp & Ha & Hal & Hit & Hlast & Hrc & Hro & He).
  exists it, ps, f. pose proof Hrep as HE%repeats_enumerate. destruct Hrep as [R Hu].
  destruct Hin as [Hfree Hsl _ _ Hal1 _]. rewrite <- Hs in Hsl. rewrite <- Hm, <- Ha in *. rewrite <- Hp in *.
  assert (Hps : Forall (fun p => p ≡ₚ seqZ 0 (Zlen (sorted_slice_sizes_ f))) ps) by by rewrite Hsl.
  assert (Hall : forall o, is_offset_allowed_ f o = true) by (intros o; by rewrite Hal).
  destruct (tail_room f F last limit Hso Hal1 Hfree Hsl Hlast Htail Hall g Hne Hperm He) as [Hroom Hex].
  rewrite <- Hrc in Hroom, Hex.
  destruct (Find_ok (ps := ps) f g Hso Hal1 Hps Hro it Hall Hu Hpref Hroom Hex)
    as (chunks & it' & c & o & p & HF & Hc & Hao & (l1 & l2 & Hsp & Hfe & _) & Hpl & Hbest).
  rewrite Hrc in Hc, Hbest. assert (Hinp : p ∈ ps) by (subst ps; apply elem_of_app; right; left).
  assert (Hiff : forall c o p, c ∈ real_chunks last -> p ∈ ps -> aligned f o /\ feasible f g c o p <-> can_place f F c o p).
  { intros c' o' p' Hc' Hp'. rewrite Forall_forall in Hperm. by apply (feasible_can_place f F g c' o' p' last); auto. }
  assert (Hcl : forall c o p, can_place f F c o p -> c ∈ real_chunks last).
  { intros c' o' p' ((last' & Hl' & Hc') & _). rewrite Hlast in Hl'. by injection Hl' as <-. }
  exists chunks, c, o, p. do 3 (split; [done|]). split; [unfold Find; rewrite Hit, HF; done|].
  split; [done|]. split; [by apply Hiff|]. split; [done|]. destruct Hbest as [|[Hno Hbest]]; [by left|right]. split.
  - intros c' p' H0 Hp' Hcp. pose proof (Hcl _ _ _ Hcp) as Hc'. apply Hiff in Hcp as [Hao' Hf]; [|done..].
    apply (Hno c' H0 Hc'). split; [done|]. by exists p'.
  - intros c' o' p' Hp' Hcp. pose proof (Hcl _ _ _ Hcp) as Hc'. apply Hiff in Hcp as [Hao' Hf]; [|done..].
    apply Hbest; [done|done|]. by exists p'.
Qed.

(** C11: Find is best-fit.  When memory from some offset on is free at all slice times
    and every offset is allowed, the finder is created, Find returns, and it
    returns a placement: every slice lies in memory that is free from its slice
    time on, aligned, with space for the largest colocated buffer.  It is at the
    preferred offset if it can be; otherwise no placement, by the permutations
    tried, is in a smaller free chunk, or in one of that size at a lower offset, or
    at a lower offset in the same chunk. *)
Theorem Find_best_fit ty times F sizes mx preferred alignment limit :
  finder_input F sizes times mx alignment ->
  free_tail F (Z.max mx (total sizes)) alignment limit ->
  preferred + Z.max mx (total sizes) + alignment <= int64_max ->
  exists it ps f chunks c o p,
    CreateForNewAllocation ty times = OK it /\ enumerate it = OK ps /\
    new_SlicedAllocationFinder F sizes mx preferred alignment it AllOffsetsAllowed = OK f /\
    Find f = OK chunks /\ p ∈ ps /\ can_place f F c o p /\ placement f o p chunks /\
    (o = preferred \/
     (forall c' p', 0 <= preferred -> p' ∈ ps -> ~ can_place f F c' preferred p') /\
     forall c' o' p', p' ∈ ps -> can_place f F c' o' p' -> chunk_le c c' /\ (c' = c -> o <= o')).
Proof. apply Find_result. Qed.

(** ** At concrete inputs *)

(** Two slices of 3, at slice time 0 without the offsets 14 to 16. *)
Definition demo_free : list FreeChunks :=
  [[(30, int64_max); (17, 21); (10, 14); (2, 6)]; [(30, int64_max); (10, 21); (2, 6)]].

Lemma demo_input : finder_input demo_free [3; 3] [5; 8] (-1) 1.
Proof.
  split; [|done|done|repeat constructor; lia|lia|by vm_compute]. split; [done|].
  repeat constructor; simpl; unfold int64_max; z64; lia.
Qed.

Lemma demo_tail : free_tail demo_free (Z.max (-1) (total [3; 3])) 1 30.
Proof.
  split; [|by vm_compute]. repeat constructor; eexists; (split; [done|lia]).
Qed.

Lemma Find_best_fit_witness :
  finder_input demo_free [3; 3] [5; 8] (-1) 1 /\ free_tail demo_free (Z.max (-1) (total [3; 3])) 1 30 /\
  exists it f chunks,
    CreateForNewAllocation kAll [5; 8] = OK it /\
    new_SlicedAllocationFinder demo_free [3; 3] (-1) (-1) 1 it AllOffsetsAllowed = OK f /\
    Find f = OK chunks.
Proof.
  split; [exact demo_input|]. split; [exact demo_tail|].
  destruct (Find_best_fit kAll [5; 8] demo_free [3; 3] (-1) (-1) 1 30 demo_input demo_tail)
    as (it & ps & f & chunks & c & o & p & ? & _ & ? & ? & _); [by vm_compute|].
  exists it, f, chunks. auto.
Defined.

Example demo_find : test_find demo_free [3; 3] (-1) 1 AllOffsetsAllowed =
  OK [mkChunk 10 3; mkChunk 13 3; mkChunk 16 0].
Proof. vm_compute. reflexivity. Qed.

Lemma FindForOffset_exact_witness :
  finder_input demo_free [3; 3] [5; 8] (-1) 1 /\ 0 <= 11 /\ 11 + Z.max (-1) (total [3; 3]) + 1 <= int64_max /\
  exists it f chunks,
    CreateForNewAllocation kPreferred [5; 8] = OK it /\
    new_SlicedAllocationFinder demo_free [3; 3] (-1) (-1) 1 it (fun o => negb (o =? 10)) = OK f /\
    FindForOffset f 11 = OK chunks.
Proof.
  split; [exact demo_input|]. split; [lia|]. split; [by vm_compute|].
  destruct (FindForOffset_exact kPreferred [5; 8] demo_free [3; 3] (-1) (-1) 1 (fun o => negb (o =? 10)) 11 demo_input)
    as (it & ps & f & chunks & ? & _ & ? & ? & _); [lia|by vm_compute|].
  exists it, f, chunks. auto.
Defined.

(** ** A free chunk that is overlooked

    The search of a root with a single piece ends after its first aligned offset, for
    "if we don't fit at the first offset, we won't fit at any offset"; but that
    offset may be one that is_offset_allowed rejects.  Here the offset 11 is free
    and allowed, as FindForOffset confirms, and Find returns a place in a larger
    chunk. *)

Definition not_10 (offset : Z) : bool := negb (offset =? 10).

Lemma Find_overlooks_allowed_offset :
  test_find [[(30, 90); (10, 20)]] [3] (-1) 1 not_10 = OK [mkChunk 30 3; mkChunk 33 0] /\
  (it ← CreateForNewAllocation kAll [0];
   f ← new_SlicedAllocationFinder [[(30, 90); (10, 20)]] [3] (-1) (-1) 1 it not_10;
   FindForOffset f 11) = OK [mkChunk 11 3; mkChunk 14 0].
Proof. vm_compute. split; reflexivity. Qed.
