(* ===== verification/BestFitHeap.v ===== *)
(** * The heap algorithms, data and operations

    xla/service/heap_simulator/heap_simulator.{h,cc}: NoFragmentationStatsHeap,
    GlobalDecreasingSizeBestFitHeap with SlicedBufferInterval,
    ConstrainedGlobalDecreasingSizeBestFitHeap and ChooseBestHeapAlgorithm.

    A buffer is its id, which is what the comparison of two buffers looks at.  A
    method takes the object and returns it.  The order in which a hash table is
    traversed is the type class [HashOrder]; [at] on a missing key is a [Crash].
    VLOG, LOG and DCHECKs are dropped. *)

From stdpp Require Import gmap.
From S2P Require Import Prelude MachineInt MathUtil IntervalTree SlicePermutation AllocationFinder.

Abbreviation buffer_id := Z (only parsing).

(** ** NoFragmentationStatsHeap *)

Record NoFragmentationStatsHeap := mkStats {
  current_heap_size_ : Z;
  max_heap_size_ : Z;
}.

Definition new_NoFragmentationStatsHeap : NoFragmentationStatsHeap := mkStats 0 0.

Definition stats_Alloc (size : Z) (h : NoFragmentationStatsHeap) : NoFragmentationStatsHeap :=
  let current := add64 (current_heap_size_ h) size in
  mkStats current (if max_heap_size_ h <? current then current else max_heap_size_ h).

Definition stats_Free (size : Z) (h : NoFragmentationStatsHeap) : NoFragmentationStatsHeap :=
  mkStats (sub64 (current_heap_size_ h) size) (max_heap_size_ h).

(** The local variable that starts at 0 and is decreased only when it is positive. *)
Definition stats_AccountForSubcomputationMemory (is_while_call_conditional : bool)
    (alloc_size_by_instruction : Z) (h : NoFragmentationStatsHeap) : NoFragmentationStatsHeap :=
  let max_subcomputation_bytes := 0 in
  let max_subcomputation_bytes :=
    if (0 <? max_subcomputation_bytes) && is_while_call_conditional
    then sub64 max_subcomputation_bytes alloc_size_by_instruction else max_subcomputation_bytes in
  mkStats (current_heap_size_ h)
    (Z.max (max_heap_size_ h) (add64 (current_heap_size_ h) max_subcomputation_bytes)).

Definition stats_Finish (h : NoFragmentationStatsHeap) : Z := max_heap_size_ h.

(** ** The data of GlobalDecreasingSizeBestFitHeap *)

Record BufferInterval := mkBuffer {
  bi_buffer : buffer_id;
  bi_size : Z;
  bi_start : Z;
  bi_end : Z;
  bi_colocations : list buffer_id;
  bi_need_allocation : bool;
}.

#[global] Instance BufferInterval_eq_dec : EqDecision BufferInterval.
Proof. solve_decision. Defined.

Definition set_bi_end e b := mkBuffer (bi_buffer b) (bi_size b) (bi_start b) e (bi_colocations b) (bi_need_allocation b).
Definition set_bi_start s b := mkBuffer (bi_buffer b) (bi_size b) s (bi_end b) (bi_colocations b) (bi_need_allocation b).
Definition add_colocation c b :=
  mkBuffer (bi_buffer b) (bi_size b) (bi_start b) (bi_end b) (bi_colocations b ++ [c]) (bi_need_allocation b).

Inductive HeapType := kSpatial | kTemporal | kCustom.

(** The comparison functions: the two of this class and one that a caller provides. *)
Inductive BufferIntervalCompare :=
  | GetSpatialBufferIntervalCompare
  | GetTemporalBufferIntervalCompare
  | CustomBufferIntervalCompare (lt : BufferInterval -> BufferInterval -> bool).

Record HeapResult := mkHeapResult {
  chunk_map : gmap buffer_id Chunk;
  heap_size : Z;
}.

Definition new_HeapResult : HeapResult := mkHeapResult ∅ 0.
Definition UpdatedHeapSize (c : Chunk) (r : HeapResult) : Z := Z.max (heap_size r) (chunk_end c).

Record BestFitHeap := mkHeap {
  buffer_intervals_ : gmap buffer_id BufferInterval;
  result_ : HeapResult;
  buffer_interval_compare_ : BufferIntervalCompare;
  interval_tree_ : BufferIntervalTree;
  heap_alignment_ : Z;
  current_time_ : Z;
  slice_time_permutation_iteration_type_ : Ty;
}.

Definition set_intervals m h := mkHeap m (result_ h) (buffer_interval_compare_ h) (interval_tree_ h)
  (heap_alignment_ h) (current_time_ h) (slice_time_permutation_iteration_type_ h).
Definition set_result r h := mkHeap (buffer_intervals_ h) r (buffer_interval_compare_ h) (interval_tree_ h)
  (heap_alignment_ h) (current_time_ h) (slice_time_permutation_iteration_type_ h).
Definition set_tree t h := mkHeap (buffer_intervals_ h) (result_ h) (buffer_interval_compare_ h) t
  (heap_alignment_ h) (current_time_ h) (slice_time_permutation_iteration_type_ h).
Definition tick h := mkHeap (buffer_intervals_ h) (result_ h) (buffer_interval_compare_ h) (interval_tree_ h)
  (heap_alignment_ h) (add64 (current_time_ h) 1) (slice_time_permutation_iteration_type_ h).

Definition new_GlobalDecreasingSizeBestFitHeap (alignment : Z) (type : HeapType)
    (compare : option (BufferInterval -> BufferInterval -> bool)) (ty : Ty) : outcome BestFitHeap :=
  _ ← check (0 <? alignment);
  compare ← match type, compare with
            | kTemporal, None => OK GetTemporalBufferIntervalCompare
            | kSpatial, None => OK GetSpatialBufferIntervalCompare
            | kCustom, Some lt => OK (CustomBufferIntervalCompare lt)
            | _, _ => Crash
            end;
  OK (mkHeap ∅ new_HeapResult compare tree_empty alignment 0 ty).

(** ** Alloc, ShareWith, Free *)

(** std::map::emplace keeps an entry that is there. *)
Definition emplace {A} (k : Z) (a : A) (m : gmap Z A) : gmap Z A :=
  match m !! k with Some _ => m | None => <[k := a]> m end.

Definition AddToChunkMap (buffer : buffer_id) (c : Chunk) (h : BestFitHeap) : BestFitHeap :=
  set_result (mkHeapResult (emplace buffer c (chunk_map (result_ h))) (heap_size (result_ h))) h.

(** [emplace] into the intervals, its CHECK, and the clock. *)
Definition add_interval (b : BufferInterval) (h : BestFitHeap) : outcome BestFitHeap :=
  _ ← check (bool_decide (buffer_intervals_ h !! bi_buffer b = None));
  OK (tick (set_intervals (<[bi_buffer b := b]> (buffer_intervals_ h)) h)).

Definition Alloc (buffer : buffer_id) (size : Z) (h : BestFitHeap) : outcome BestFitHeap :=
  if size =? 0 then OK (AddToChunkMap buffer (FromOffsetSize 0 0) h)
  else add_interval (mkBuffer buffer size (current_time_ h) (-1) [] true) h.

Definition ShareWith (buffer share_with : buffer_id) (size : Z) (h : BestFitHeap) : outcome BestFitHeap :=
  if size =? 0 then OK (AddToChunkMap buffer (FromOffsetSize 0 0) h)
  else
    match buffer_intervals_ h !! share_with with
    | None => Crash
    | Some s =>
        let h := set_intervals (<[share_with := add_colocation buffer s]> (buffer_intervals_ h)) h in
        add_interval (mkBuffer buffer size (current_time_ h) (-1) [] false) h
    end.

Definition Free (buffer : buffer_id) (size : Z) (h : BestFitHeap) : outcome BestFitHeap :=
  if size =? 0 then OK h
  else
    match buffer_intervals_ h !! buffer with
    | None => Crash
    | Some b =>
        _ ← check (bi_buffer b =? buffer);
        _ ← check (bi_size b =? size);
        _ ← check (bi_end b =? -1);
        if negb (bi_end b =? -1) then OK h
        else OK (tick (set_intervals (<[buffer := set_bi_end (current_time_ h) b]> (buffer_intervals_ h)) h))
    end.

(** ** Colocated buffers *)

(** The order in which the elements of a hash table come, given here in the order of
    their insertion. *)
Class HashOrder := {
  iterate : list Z -> list Z;
  iterate_Permutation l : iterate l ≡ₚ l;
}.

Definition interval_at (m : gmap buffer_id BufferInterval) (b : buffer_id) : outcome BufferInterval :=
  match m !! b with Some i => OK i | None => Crash end.

(** One colocated buffer of the item: into the result and on the worklist, whose back
    comes first, if it is new. *)
Definition visit_colocated (m : gmap buffer_id BufferInterval) (x : list buffer_id * list BufferInterval)
    (colocated : buffer_id) : outcome (list buffer_id * list BufferInterval) :=
  let '(result, worklist) := x in
  if bool_decide (colocated ∈ result) then OK (result, worklist)
  else i ← interval_at m colocated; OK (result ++ [colocated], i :: worklist).

Fixpoint colocations_loop (fuel : nat) (m : gmap buffer_id BufferInterval) (result : list buffer_id)
    (worklist : list BufferInterval) : outcome (list buffer_id) :=
  match worklist with
  | [] => OK result
  | item :: worklist =>
      match fuel with
      | O => NoFuel
      | S fuel =>
          '(result, worklist) ← foldM (visit_colocated m) (result, worklist) (bi_colocations item);
          colocations_loop fuel m result worklist
      end
  end.

Section Heap.
Context `{HashOrder}.

Definition GetTransitiveColocations (interval : BufferInterval) (h : BestFitHeap) : outcome (list buffer_id) :=
  let m := buffer_intervals_ h in
  iterate <$> colocations_loop (S (base.size m)) m [] [interval].

(** [max] over the colocated buffers, starting with a value of the buffer's own. *)
Definition max_colocated (f : BufferInterval -> Z) (interval : BufferInterval) (h : BestFitHeap) : outcome Z :=
  colocations ← GetTransitiveColocations interval h;
  foldM (fun m c => i ← interval_at (buffer_intervals_ h) c; OK (Z.max m (f i))) (f interval) colocations.

Definition GetMaxColocationSize (interval : BufferInterval) (h : BestFitHeap) : outcome Z :=
  max_colocated bi_size interval h.

(** ** Sorting the intervals *)

Definition SpatialKey (x : BufferInterval) : Z * Z * Z :=
  (i64 (- bi_size x), sub64 (bi_start x) (bi_end x), bi_buffer x).

Definition TemporalKey (h : BestFitHeap) (x : BufferInterval) : outcome (Z * Z * Z) :=
  x_end ← max_colocated bi_end x h;
  OK (sub64 (bi_start x) x_end, i64 (- bi_size x), bi_buffer x).

(** The order of std::tuple. *)
Definition key_lt (k l : Z * Z * Z) : bool :=
  let '(a1, b1, c1) := k in
  let '(a2, b2, c2) := l in
  (a1 <? a2) || (a1 =? a2) && ((b1 <? b2) || (b1 =? b2) && (c1 <? c2)).

Definition interval_less (h : BestFitHeap) (x y : BufferInterval) : outcome bool :=
  match buffer_interval_compare_ h with
  | GetSpatialBufferIntervalCompare => OK (key_lt (SpatialKey x) (SpatialKey y))
  | GetTemporalBufferIntervalCompare =>
      k ← TemporalKey h x; l ← TemporalKey h y; OK (key_lt k l)
  | CustomBufferIntervalCompare lt => OK (lt x y)
  end.

(** absl::c_sort with a comparison that can fail, by insertion. *)
Fixpoint insertM {A} (less : A -> A -> outcome bool) (x : A) (l : list A) : outcome (list A) :=
  match l with
  | [] => OK [x]
  | y :: l' =>
      b ← less y x;
      if (b : bool) then l' ← insertM less x l'; OK (y :: l') else OK (x :: l)
  end.

Fixpoint sortM {A} (less : A -> A -> outcome bool) (l : list A) : outcome (list A) :=
  match l with
  | [] => OK []
  | x :: l => l ← sortM less l; insertM less x l
  end.

Definition entries (m : gmap buffer_id BufferInterval) : list BufferInterval :=
  omap (fun b => m !! b) (iterate (map_to_list m).*1).

Definition GetSortedBufferIntervals (h : BestFitHeap) : outcome (list BufferInterval) :=
  sortM (interval_less h) (entries (buffer_intervals_ h)).

(** ** SlicedBufferInterval

    The full interval is held by reference; the methods that change it return the
    record with the changed interval. *)

Record SlicedBufferInterval := mkSliced {
  full_buffer_interval_ : BufferInterval;
  mutable_ : bool;
  slice_sizes_sorted_by_offset_ : list Z;
  make_free_chunks_intervals_ : list BufferInterval;
}.

Definition num_slices (s : SlicedBufferInterval) : Z := Zlen (slice_sizes_sorted_by_offset_ s).

Definition Slice (slice_sizes_sorted_by_offset : list Z) (s : SlicedBufferInterval) :
    outcome SlicedBufferInterval :=
  let full := full_buffer_interval_ s in
  match slice_sizes_sorted_by_offset with
  | [] => OK (mkSliced full (mutable_ s) [bi_size full] [full])
  | x :: sizes =>
      let min_slice_size := foldl Z.min x sizes in
      let n := length slice_sizes_sorted_by_offset in
      let interval (i : nat) :=
        if bool_decide (i = (n - 1)%nat)
        then mkBuffer (bi_buffer full) (bi_size full) 0 (bi_end full) (bi_colocations full) (bi_need_allocation full)
        else mkBuffer (bi_buffer full) min_slice_size 0 (bi_end full) [] (bi_need_allocation full) in
      _ ← check (foldl add64 0 slice_sizes_sorted_by_offset =? bi_size full);
      OK (mkSliced full (mutable_ s) slice_sizes_sorted_by_offset (interval <$> seq 0 n))
  end.

Definition new_SlicedBufferInterval (full : BufferInterval) (mutable : bool) : outcome SlicedBufferInterval :=
  Slice [] (mkSliced full mutable [] []).
Definition CreateConstInterval (full : BufferInterval) := new_SlicedBufferInterval full false.
Definition CreateMutableInterval (full : BufferInterval) := new_SlicedBufferInterval full true.

Definition ExclusiveToInclusiveStartTime (exclusive_time : Z) : Z := add64 exclusive_time 1.
Definition InclusiveToExclusiveStartTime (inclusive_time : Z) : Z := sub64 inclusive_time 1.
Definition ExclusiveToInclusiveEndTime (exclusive_time : Z) : Z := sub64 exclusive_time 1.
Definition InclusiveToExclusiveEndTime (inclusive_time : Z) : Z := add64 inclusive_time 1.

(** One round of the loop over the slice times. *)
Definition update_slice_time (n : Z) (full : BufferInterval) (inclusive_start_times : list Z)
    (intervals : list BufferInterval) (slice_time : Z) : outcome (list BufferInterval) :=
  t ← at_ inclusive_start_times slice_time;
  i ← at_ intervals slice_time;
  e ← (if negb (slice_time =? n - 1)
       then next ← at_ inclusive_start_times (slice_time + 1); OK (ExclusiveToInclusiveEndTime next)
       else OK (bi_end full));
  set_at intervals slice_time (set_bi_end e (set_bi_start t i)).

Definition UpdateInclusiveSliceStartTimes (inclusive_start_times : list Z) (s : SlicedBufferInterval) :
    outcome SlicedBufferInterval :=
  _ ← check (Zlen inclusive_start_times =? num_slices s);
  _ ← check (mutable_ s);
  front ← at_ inclusive_start_times 0;
  let full := set_bi_start front (full_buffer_interval_ s) in
  intervals ← foldM (update_slice_time (num_slices s) full inclusive_start_times)
                (make_free_chunks_intervals_ s) (seqZ 0 (num_slices s));
  OK (mkSliced full (mutable_ s) (slice_sizes_sorted_by_offset_ s) intervals).

Definition UpdateExclusiveSliceStartTimes (exclusive_start_times : list Z) (s : SlicedBufferInterval) :
    outcome SlicedBufferInterval :=
  UpdateInclusiveSliceStartTimes (ExclusiveToInclusiveStartTime <$> exclusive_start_times) s.

Definition UpdateEndTime (end_time : Z) (s : SlicedBufferInterval) : outcome SlicedBufferInterval :=
  _ ← check (mutable_ s);
  let intervals := make_free_chunks_intervals_ s in
  back ← at_ intervals (Zlen intervals - 1);
  intervals ← set_at intervals (Zlen intervals - 1) (set_bi_end end_time back);
  OK (mkSliced (set_bi_end end_time (full_buffer_interval_ s)) (mutable_ s) (slice_sizes_sorted_by_offset_ s)
        intervals).

Definition inclusive_start_times (s : SlicedBufferInterval) : list Z :=
  bi_start <$> make_free_chunks_intervals_ s.

Definition IntervalForMakeFreeChunks (slice_time : Z) (s : SlicedBufferInterval) : outcome BufferInterval :=
  _ ← check (slice_time <? num_slices s);
  at_ (make_free_chunks_intervals_ s) slice_time.

(** ** Free chunks *)

Definition ComputeAlignedChunkEnd (h : BestFitHeap) (e : Z) : outcome Z :=
  let a := heap_alignment_ h in
  if negb (a =? 1) then
    if has_single_bit (u64 a) then OK (Z.land (sub64 (add64 e a) 1) (Z.lnot (sub64 a 1)))
    else RoundUpTo e a
  else OK e.

(** The used chunk is cut out of the free chunks; iterators are indices, and erasing a
    range that ends before it starts is undefined. *)
Definition subtract_used_chunk (h : BestFitHeap) (size max_colocation_size : Z) (free_chunks : FreeChunks)
    (node : BufferIntervalTreeNode) : outcome FreeChunks :=
  let used_chunk := chunk node in
  let it_end := length (lower_bound (chunk_end used_chunk) free_chunks).1 in
  match free_chunks !! it_end with
  | None => OK free_chunks
  | Some (_, free_chunk_end) =>
      let it_start := length (lower_bound (offset used_chunk) free_chunks).1 in
      let '(free_chunks, it_start) :=
        match free_chunks !! it_start with
        | Some (k, e) =>
            if size <=? sub64 (offset used_chunk) k
            then (<[it_start := (k, Z.min e (offset used_chunk))]> free_chunks, it_start)
            else (free_chunks, S it_start)
        | None => (free_chunks, it_start)
        end in
      _ ← check (bool_decide (it_end <= it_start)%nat);
      let free_chunks := take it_end free_chunks ++ drop it_start free_chunks in
      chunk_end_aligned ← ComputeAlignedChunkEnd h (chunk_end used_chunk);
      if max_colocation_size <=? sub64 free_chunk_end chunk_end_aligned then
        _ ← check (negb (bool_decide (chunk_end_aligned ∈ free_chunks.*1)));
        OK (dinsert chunk_end_aligned free_chunk_end free_chunks)
      else OK free_chunks
  end.

Definition MakeFreeChunks (interval : BufferInterval) (max_colocation_size : Z) (h : BestFitHeap) :
    outcome FreeChunks :=
  let subtract := subtract_used_chunk h (bi_size interval) max_colocation_size in
  free_chunks ← ApplyToNodesOverlappingInTime (bi_start interval) (bi_end interval) subtract
                  (interval_tree_ h) [(0, int64_max)];
  colocations ← GetTransitiveColocations interval h;
  foldM (fun free_chunks colocation =>
      i ← interval_at (buffer_intervals_ h) colocation;
      ApplyToNodesOverlappingInTime (bi_start i) (bi_end i) subtract (interval_tree_ h) free_chunks)
    free_chunks colocations.

Definition FindLatestEndWithFreeChunkAtPreferredOffset (interval : BufferInterval) (preferred_offset : Z)
    (h : BestFitHeap) : outcome Z :=
  _ ← check (0 <=? preferred_offset);
  ApplyToSortedNodesOverlapping (bi_start interval) (bi_end interval) (fun latest node =>
      let used_chunk := chunk node in
      chunk_end_aligned ← (if offset used_chunk <? preferred_offset
                           then ComputeAlignedChunkEnd h (chunk_end used_chunk) else OK 0);
      if (offset used_chunk <? preferred_offset) && (preferred_offset <? chunk_end_aligned) ||
         (preferred_offset <=? offset used_chunk) &&
         (offset used_chunk <? add64 preferred_offset (bi_size interval))
      then OK (sub64 (start node) 1, true)
      else OK (latest, false))
    (interval_tree_ h) (bi_end interval).

(** ** Finding chunks *)

Definition CreateSlicedAllocationFinder {It} `{SliceTimePermutationIterator It} (sliced : SlicedBufferInterval)
    (max_colocation_size preferred_offset : Z) (iterator : It) (is_offset_allowed : Z -> bool)
    (h : BestFitHeap) : outcome (SlicedAllocationFinder It) :=
  let last := num_slices sliced - 1 in
  free_chunks ← mapM (fun slice_time =>
      interval ← IntervalForMakeFreeChunks slice_time sliced; MakeFreeChunks interval (-1) h) (seqZ 0 last);
  interval ← IntervalForMakeFreeChunks last sliced;
  last_free_chunks ← MakeFreeChunks interval max_colocation_size h;
  new_SlicedAllocationFinder (free_chunks ++ [last_free_chunks]) (slice_sizes_sorted_by_offset_ sliced)
    max_colocation_size preferred_offset (heap_alignment_ h) iterator is_offset_allowed.

Definition PostProcessFindChunkCandidatesResult (sliced : SlicedBufferInterval) (chunks : list Chunk) :
    outcome (list Chunk) :=
  match chunks with
  | [] => OK []
  | _ =>
      _ ← check (Zlen chunks =? num_slices sliced + 1);
      OK (take (length chunks - 1) chunks)
  end.

Definition FindChunkCandidates (sliced : SlicedBufferInterval) (preferred_offset : Z) (h : BestFitHeap) :
    outcome (list Chunk) :=
  max_colocation_size ← GetMaxColocationSize (full_buffer_interval_ sliced) h;
  it ← CreateForNewAllocation (slice_time_permutation_iteration_type_ h) (inclusive_start_times sliced);
  f ← CreateSlicedAllocationFinder sliced max_colocation_size preferred_offset it AllOffsetsAllowed h;
  chunks ← Find f;
  PostProcessFindChunkCandidatesResult sliced chunks.

Definition FindChunkCandidate (interval : BufferInterval) (preferred_offset : Z) (h : BestFitHeap) :
    outcome Chunk :=
  sliced ← CreateConstInterval interval;
  chunks ← FindChunkCandidates sliced preferred_offset h;
  _ ← check (Zlen chunks =? 1);
  at_ chunks 0.

(** ** Committing chunks and Finish *)

Definition update_heap_size (c : Chunk) (h : BestFitHeap) : BestFitHeap :=
  set_result (mkHeapResult (chunk_map (result_ h)) (UpdatedHeapSize c (result_ h))) h.

Definition add_to_tree (interval : BufferInterval) (c : Chunk) (h : BestFitHeap) : outcome BestFitHeap :=
  t ← Add (bi_start interval) (bi_end interval) c (interval_tree_ h);
  OK (set_tree t h).

Definition commit_colocation (c : Chunk) (h : BestFitHeap) (colocation : buffer_id) : outcome BestFitHeap :=
  i ← interval_at (buffer_intervals_ h) colocation;
  let colocation_chunk := FromOffsetSize (offset c) (bi_size i) in
  h ← add_to_tree i colocation_chunk (update_heap_size colocation_chunk h);
  OK (AddToChunkMap colocation colocation_chunk h).

Definition CommitChunk (interval : BufferInterval) (c : Chunk) (h : BestFitHeap) : outcome BestFitHeap :=
  _ ← check (size c =? bi_size interval);
  h ← add_to_tree interval c (update_heap_size c h);
  colocations ← GetTransitiveColocations interval h;
  h ← foldM (commit_colocation c) h colocations;
  OK (AddToChunkMap (bi_buffer interval) c h).

Record Result := mkResult {
  heap_results : list HeapResult;
  result_heap_size : Z;
}.

Definition place (h : BestFitHeap) (interval : BufferInterval) : outcome BestFitHeap :=
  if negb (bi_need_allocation interval) then OK h
  else c ← FindChunkCandidate interval (-1) h; CommitChunk interval c h.

Definition Finish (h : BestFitHeap) : outcome (BestFitHeap * Result) :=
  sorted ← GetSortedBufferIntervals h;
  h ← foldM place h sorted;
  OK (h, mkResult [result_ h] (heap_size (result_ h))).

(** ** ConstrainedGlobalDecreasingSizeBestFitHeap *)

(** One round of the loop over the list of intervals; those that stay are collected. *)
Definition place_constrained (size_limit_per_heap_ : Z) (x : BestFitHeap * list BufferInterval)
    (interval : BufferInterval) : outcome (BestFitHeap * list BufferInterval) :=
  let '(h, kept) := x in
  if negb (bi_need_allocation interval) then OK (h, kept)
  else
    c ← FindChunkCandidate interval (-1) h;
    if (u64 (chunk_end c) <=? size_limit_per_heap_) || (heap_size (result_ h) =? 0)
    then h ← CommitChunk interval c h; OK (h, kept)
    else OK (h, kept ++ [interval]).

Fixpoint constrained_loop (fuel : nat) (size_limit_per_heap_ : Z) (h : BestFitHeap)
    (intervals : list BufferInterval) (multi : Result) : outcome (BestFitHeap * Result) :=
  match fuel with
  | O => NoFuel
  | S fuel =>
      '(h, kept) ← foldM (place_constrained size_limit_per_heap_) (h, []) intervals;
      let multi := mkResult (heap_results multi ++ [result_ h])
                     (add64 (result_heap_size multi) (heap_size (result_ h))) in
      let h := set_tree (Clear (interval_tree_ h)) (set_result new_HeapResult h) in
      if bool_decide (kept = []) then OK (h, multi)
      else constrained_loop fuel size_limit_per_heap_ h kept multi
  end.

(** Every round places a buffer, so that there are no more rounds than buffers. *)
Definition Constrained_Finish (size_limit_per_heap_ : Z) (h : BestFitHeap) : outcome (BestFitHeap * Result) :=
  sorted ← GetSortedBufferIntervals h;
  constrained_loop (S (length sorted)) size_limit_per_heap_ h sorted (mkResult [] 0).

End Heap.

(** ** ChooseBestHeapAlgorithm *)

(** One round of the loop over the algorithms, given by what their Finish returns. *)
Definition choose_best (algorithms : list (outcome Result)) (x : list Result * Z * Z) (i : Z) :
    outcome (list Result * Z * Z) :=
  let '(results, min_size, min_size_index) := x in
  finish ← at_ algorithms i;
  r ← finish;
  results ← set_at results i r;
  if result_heap_size r <? min_size then OK (results, result_heap_size r, i)
  else OK (results, min_size, min_size_index).

Definition ChooseBest_Finish (algorithms : list (outcome Result)) : outcome Result :=
  '(results, _, min_size_index) ←
    foldM (choose_best algorithms) (replicate (length algorithms) (mkResult [] 0), int64_max, -1)
      (indices algorithms);
  at_ results min_size_index.
