(* ===== verification/BestFitColocations.v ===== *)
(** * Buffers that share an allocation

    The intervals of a best-fit heap form a forest: ShareWith puts the new buffer
    below the one it shares with.  [store_ok] says so; the calls Alloc, ShareWith and
    Free keep it, and GetTransitiveColocations computes the buffers below one. *)

From stdpp Require Import gmap relations.
From S2P Require Import Prelude MachineInt IntervalTree SlicePermutation BestFitHeap.

Abbreviation store := (gmap buffer_id BufferInterval).

(** ** The forest *)

(** [c] shares directly with [b]. *)
Definition shares (m : store) (b c : buffer_id) : Prop :=
  exists i, m !! b = Some i /\ c ∈ bi_colocations i.

(** The buffers below an interval, which need not be one of the store. *)
Definition below (m : store) (i : BufferInterval) (c : buffer_id) : Prop :=
  exists d, d ∈ bi_colocations i /\ rtc (shares m) d c.

Record store_ok (m : store) (now : Z) : Prop := {
  so_key b i : m !! b = Some i -> bi_buffer i = b;
  so_size b i : m !! b = Some i -> 0 < bi_size i;
  so_start b i : m !! b = Some i -> 0 <= bi_start i < now;
  so_end b i : m !! b = Some i -> bi_end i = -1 \/ bi_start i < bi_end i < now;
  so_child b i c : m !! b = Some i -> c ∈ bi_colocations i ->
    exists j, m !! c = Some j /\ bi_need_allocation j = false /\ bi_start i < bi_start j;
  so_parent c j : m !! c = Some j -> bi_need_allocation j = false -> exists b, shares m b c;
  so_unique b b' c : shares m b c -> shares m b' c -> b = b';
}.

Lemma interval_at_Some (m : store) b i : m !! b = Some i -> interval_at m b = OK i.
Proof. intros Hi. unfold interval_at. by rewrite Hi. Qed.

Lemma store_ok_empty : store_ok ∅ 0.
Proof. split; intros *; try (by rewrite lookup_empty). intros (i & Hi & _). by rewrite lookup_empty in Hi. Qed.

Section Forest.
Context (m : store) (now : Z) (Hok : store_ok m now).

Lemma shares_child b c : shares m b c -> exists j, m !! c = Some j /\ bi_need_allocation j = false.
Proof. intros (i & Hi & Hc). destruct (so_child _ _ Hok b i c Hi Hc) as (j & ? & ? & _). eauto. Qed.

Lemma shares_start b c i j : shares m b c -> m !! b = Some i -> m !! c = Some j -> bi_start i < bi_start j.
Proof.
  intros (i' & Hi' & Hc) Hi Hj. assert (i' = i) as -> by congruence. destruct (so_child _ _ Hok b i c Hi Hc) as (j' & ? & _ & ?).
  by simplify_eq.
Qed.

(** A buffer that needs an allocation of its own is below no other. *)
Definition is_root (r : buffer_id) : Prop := exists i, m !! r = Some i /\ bi_need_allocation i = true.

Lemma shares_not_root b r : shares m b r -> ~ is_root r.
Proof. intros (j & Hj & Hf)%shares_child (i & Hi & Ht). congruence. Qed.

Lemma tc_not_root b r : tc (shares m) b r -> ~ is_root r.
Proof. induction 1 as [b c Hbc|b d c _ _ IH]; [by eapply shares_not_root|done]. Qed.

(** Every buffer has exactly one root. *)
Lemma root_exists c j : m !! c = Some j -> exists r, is_root r /\ rtc (shares m) r c.
Proof.
  remember (Z.to_nat (bi_start j)) as n eqn:En. revert c j En.
  induction (lt_wf n) as [n _ IH]. intros c j -> Hj.
  destruct (bi_need_allocation j) eqn:E; [exists c; split; [by exists j|done]|].
  destruct (so_parent _ _ Hok c j Hj E) as (b & Hb). pose proof Hb as (i & Hi & _).
  pose proof (shares_start _ _ _ _ Hb Hi Hj). pose proof (so_start _ _ Hok b i Hi).
  destruct (IH (Z.to_nat (bi_start i))) with (c := b) (j := i) as (r & Hr & Hrb); [lia|done|done|].
  exists r. split; [done|]. by eapply rtc_r.
Qed.

Lemma root_unique r r' c : is_root r -> is_root r' -> rtc (shares m) r c -> rtc (shares m) r' c -> r = r'.
Proof.
  intros Hr Hr' H1. revert c H1. apply (rtc_ind_r (fun c => rtc (shares m) r' c -> r = r')).
  - intros [<-|(b & _ & Hb)]%rtc_inv_r; [done|]. by destruct (shares_not_root _ _ Hb).
  - intros b c _ Hbc IH [<-|(b' & H2 & Hb')]%rtc_inv_r; [by destruct (shares_not_root _ _ Hbc)|].
    rewrite (so_unique _ _ Hok _ _ _ Hb' Hbc) in H2. by apply IH.
Qed.

Lemma rtc_shares_lookup b c i : rtc (shares m) b c -> m !! b = Some i -> exists j, m !! c = Some j.
Proof.
  intros H Hi. revert i Hi. induction H as [|b d c Hbd _ IH]; intros i Hi; [by exists i|].
  destruct (shares_child _ _ Hbd) as (j & Hj & _). by apply (IH j).
Qed.

(** The buffers below one of the store. *)
Lemma below_tc b i c : m !! b = Some i -> below m i c <-> tc (shares m) b c.
Proof.
  intros Hi. split.
  - intros (d & Hd & Hdc). apply (tc_rtc_r _ d); [|done]. apply tc_once. by exists i.
  - intros Ht. assert (Hex : exists d, shares m b d /\ rtc (shares m) d c).
    { destruct Ht as [b c Hbc|b d c Hbd Hdc]; [by exists c|exists d; split; [done|by apply tc_rtc]]. }
    destruct Hex as (d & (i' & Hi' & Hd) & Hdc). assert (i' = i) as -> by congruence. by exists d.
Qed.

Lemma below_lookup i c : (forall d, d ∈ bi_colocations i -> is_Some (m !! d)) -> below m i c -> exists j, m !! c = Some j.
Proof. intros Hi (d & [j Hj]%Hi & Hdc). by apply (rtc_shares_lookup d c j). Qed.

End Forest.

(** ** GetTransitiveColocations *)

Section Worklist.
Context (m : store) (interval : BufferInterval).
Context (Hclosed : forall b i c, m !! b = Some i -> c ∈ bi_colocations i -> is_Some (m !! c)).
Context (Hinterval : forall c, c ∈ bi_colocations interval -> is_Some (m !! c)).

(** The interval with which the search starts, and those of the store. *)
Definition known (i : BufferInterval) : Prop := i = interval \/ exists b, m !! b = Some i.

(** The colocated buffers of an interval are in the result, or it is still to be
    visited. *)
Definition handled (result : list buffer_id) (worklist : list BufferInterval) (i : BufferInterval) : Prop :=
  i ∈ worklist \/ forall c, c ∈ bi_colocations i -> c ∈ result.

Record worklist_ok (result : list buffer_id) (worklist : list BufferInterval) : Prop := {
  wo_nodup : NoDup result;
  wo_below c : c ∈ result -> below m interval c;
  wo_result c : c ∈ result -> exists i, m !! c = Some i /\ handled result worklist i;
  wo_start : handled result worklist interval;
  wo_items i : i ∈ worklist -> i = interval \/ exists c, c ∈ result /\ m !! c = Some i;
}.

Lemma handled_mono result result' worklist worklist' i :
  result ⊆ result' -> worklist ⊆ worklist' -> handled result worklist i -> handled result' worklist' i.
Proof. intros Hr Hw [Hi|Hi]; [left; by apply Hw|right; intros c Hc; by apply Hr, Hi]. Qed.

(** The inner loop: [todo] is left of the item's colocated buffers. *)
Lemma visit_ok todo result worklist item :
  (forall c, c ∈ todo -> below m interval c /\ is_Some (m !! c)) ->
  worklist_ok result (item :: worklist) ->
  (forall c, c ∈ bi_colocations item -> c ∈ result \/ c ∈ todo) ->
  exists result' worklist', foldM (visit_colocated m) (result, worklist) todo = OK (result', worklist') /\
    worklist_ok result' (item :: worklist') /\ (forall c, c ∈ bi_colocations item -> c ∈ result') /\
    (length worklist' + length result = length worklist + length result')%nat.
Proof.
  revert result worklist. induction todo as [|c todo IH]; intros result worklist Htodo Hok Hitem.
  { exists result, worklist. split; [done|]. split; [done|]. split; [|lia]. intros c Hc. by destruct (Hitem c Hc) as [|?%not_elem_of_nil]. }
  cbn [foldM visit_colocated]. destruct (Htodo c) as [Hb [i Hi]]; [left|].
  destruct (bool_decide_reflect (c ∈ result)) as [Hin|Hnin].
  { cbn [mbind outcome_bind]. apply IH; [intros d Hd; apply Htodo; by right|done|].
    intros d Hd. destruct (Hitem d Hd) as [|[->|]%elem_of_cons]; auto. }
  unfold interval_at. rewrite Hi. cbn [mbind outcome_bind].
  destruct (IH (result ++ [c]) (i :: worklist)) as (result' & worklist' & -> & Hok' & Hitem' & Hlen).
  - intros d Hd. apply Htodo. by right.
  - assert (Hm : forall j, handled result (item :: worklist) j -> handled (result ++ [c]) (item :: i :: worklist) j).
    { intros j. apply handled_mono; set_solver. }
    destruct Hok as [Hnd Hbe Hre Hst Hit]. split.
    + apply NoDup_app. split; [done|]. split; [|apply NoDup_singleton]. intros d Hd ->%list_elem_of_singleton. done.
    + intros d [Hd| ->%list_elem_of_singleton]%elem_of_app; [by apply Hbe|done].
    + intros d [Hd| ->%list_elem_of_singleton]%elem_of_app.
      * destruct (Hre d Hd) as (j & ? & ?). exists j. split; [done|]. by apply Hm.
      * exists i. split; [done|]. left. set_solver.
    + by apply Hm.
    + intros j [->|[->|Hj]%elem_of_cons]%elem_of_cons.
      * destruct (Hit item) as [|(d & ? & ?)]; [left|by left|right; exists d; set_solver].
      * right. exists c. set_solver.
      * destruct (Hit j) as [|(d & ? & ?)]; [by right|by left|right; exists d; set_solver].
  - intros d Hd. destruct (Hitem d Hd) as [|[->|]%elem_of_cons]; set_solver.
  - exists result', worklist'. split; [done|]. split; [done|]. split; [done|]. rewrite length_app in Hlen. simpl in Hlen. lia.
Qed.

Lemma worklist_bound result worklist : worklist_ok result worklist -> (length result <= base.size m)%nat.
Proof.
  intros [Hnd _ Hre _ _]. rewrite <- size_dom, <- (size_list_to_set (C := gset Z) result Hnd).
  apply subseteq_size. intros c Hc%elem_of_list_to_set. destruct (Hre c Hc) as (i & Hi & _).
  by apply elem_of_dom_2 in Hi.
Qed.

Lemma colocations_loop_ok fuel result worklist :
  worklist_ok result worklist -> (length worklist + base.size m <= fuel + length result)%nat ->
  exists l, colocations_loop fuel m result worklist = OK l /\ NoDup l /\ forall c, c ∈ l <-> below m interval c.
Proof.
  revert result worklist. induction fuel as [|fuel IH]; intros result [|item worklist] Hok Hf.
  2: { pose proof (worklist_bound _ _ Hok). simpl in Hf. lia. }
  1,2: exists result; split; [done|]; destruct Hok as [Hnd Hbe Hre Hst _]; split; [done|]; intros c; split; [apply Hbe|];
    intros (d & Hd & Hdc); destruct Hst as [?%not_elem_of_nil|Hst]; [done|]; apply Hst in Hd; clear Hst;
    induction Hdc as [|b d c (i & Hi & Hd') _ IHc]; [done|]; apply IHc; destruct (Hre _ Hd) as (i' & Hi' & Hh);
    destruct Hh as [?%not_elem_of_nil|Hh]; [done|]; simplify_eq; by apply Hh.
  cbn [colocations_loop].
  assert (Hknown : item = interval \/ exists c, c ∈ result /\ m !! c = Some item) by (apply (wo_items _ _ Hok); left).
  destruct (visit_ok (bi_colocations item) result worklist item) as (result' & worklist' & -> & Hok' & Hitem & Hlen).
  - intros c Hc. destruct Hknown as [->|(b & Hb & Hi)].
    + split; [by exists c|]. by apply Hinterval.
    + split; [|by apply (Hclosed b item)]. destruct (wo_below _ _ Hok b Hb) as (d & Hd & Hdb).
      exists d. split; [done|]. eapply rtc_r; [done|]. by exists item.
  - done.
  - by right.
  - cbn [mbind outcome_bind]. apply IH; [|simpl in *; lia].
    assert (Hdrop : forall i, handled result' (item :: worklist') i -> handled result' worklist' i).
    { intros i [[->|Hi]%elem_of_cons|Hi]; [by right|by left|by right]. }
    destruct Hok' as [Hnd Hbe Hre Hst Hit]. split; [done|done| |by apply Hdrop|].
    + intros c Hc. destruct (Hre c Hc) as (i & ? & ?). eauto.
    + intros i Hi. apply Hit. by right.
Qed.

End Worklist.

Section Transitive.
Context `{HashOrder}.

(** The buffers below the interval, each once, and enough fuel. *)
Lemma GetTransitiveColocations_ok h interval now :
  store_ok (buffer_intervals_ h) now ->
  (forall c, c ∈ bi_colocations interval -> is_Some (buffer_intervals_ h !! c)) ->
  exists l, GetTransitiveColocations interval h = OK l /\ NoDup l /\
    forall c, c ∈ l <-> below (buffer_intervals_ h) interval c.
Proof.
  intros Hok Hi. set (m := buffer_intervals_ h) in *.
  destruct (colocations_loop_ok m interval) with (fuel := S (base.size m)) (result := @nil Z) (worklist := [interval])
    as (l & Hl & Hnd & Hin).
  - intros b i c Hb Hc. destruct (so_child _ _ Hok b i c Hb Hc) as (j & ? & _). by exists j.
  - done.
  - split; [constructor|by intros c ?%not_elem_of_nil..|left; left|]. intros i ->%list_elem_of_singleton. by left.
  - simpl. lia.
  - unfold GetTransitiveColocations. fold m. rewrite Hl. exists (iterate l). split; [done|].
    rewrite iterate_Permutation. split; [done|]. intros c. by rewrite iterate_Permutation.
Qed.

Lemma GetTransitiveColocations_stored h b i now :
  store_ok (buffer_intervals_ h) now -> buffer_intervals_ h !! b = Some i ->
  exists l, GetTransitiveColocations i h = OK l /\ NoDup l /\
    forall c, c ∈ l <-> tc (shares (buffer_intervals_ h)) b c.
Proof.
  intros Hok Hi. destruct (GetTransitiveColocations_ok h i now Hok) as (l & Hl & Hnd & Hin).
  - intros c Hc. destruct (so_child _ _ Hok b i c Hi Hc) as (j & ? & _). by exists j.
  - exists l. split; [done|]. split; [done|]. intros c. rewrite Hin. by apply below_tc.
Qed.

End Transitive.

(** ** Alloc, ShareWith and Free keep the forest *)

Lemma shares_insert_new m b i c d :
  m !! b = None -> bi_colocations i = [] -> shares (<[b := i]> m) c d <-> shares m c d.
Proof.
  intros Hb Hi. split.
  - intros (j & Hj & Hd). destruct (decide (c = b)) as [->|Hne].
    + rewrite lookup_insert_eq in Hj. injection Hj as <-. rewrite Hi in Hd. by apply not_elem_of_nil in Hd.
    + rewrite lookup_insert_ne in Hj by done. by exists j.
  - intros (j & Hj & Hd). exists j. split; [|done]. rewrite lookup_insert_ne; [done|]. intros ->. congruence.
Qed.

Lemma shares_replace m b i i' c d :
  m !! b = Some i -> bi_colocations i' = bi_colocations i -> shares (<[b := i']> m) c d <-> shares m c d.
Proof.
  intros Hb Hi. unfold shares. destruct (decide (c = b)) as [->|Hne].
  - rewrite lookup_insert_eq, Hb. split; intros (j & [= <-] & Hd); eexists; (split; [done|]); congruence.
  - by rewrite lookup_insert_ne by done.
Qed.

Lemma shares_add m s b i c d :
  m !! s = Some i -> shares (<[s := add_colocation b i]> m) c d <-> shares m c d \/ (c = s /\ d = b).
Proof.
  intros Hs. unfold shares. destruct (decide (c = s)) as [->|Hne].
  - rewrite lookup_insert_eq, Hs. split.
    + intros (j & [= <-] & [Hd| ->%list_elem_of_singleton]%elem_of_app); [left; eauto|by right].
    + intros [(j & [= <-] & Hd)|[_ ->]]; (eexists; split; [done|]); apply elem_of_app; [by left|right; left].
  - rewrite lookup_insert_ne by done. tauto.
Qed.

Definition fresh_interval (b size now : Z) (need : bool) : BufferInterval := mkBuffer b size now (-1) [] need.

Lemma store_ok_alloc m now b size :
  store_ok m now -> 0 <= now -> m !! b = None -> 0 < size ->
  store_ok (<[b := fresh_interval b size now true]> m) (now + 1).
Proof.
  intros Hok Hnow Hb Hs. pose proof (fun c d => shares_insert_new m b (fresh_interval b size now true) c d Hb eq_refl) as Hsh.
  split.
  - intros c i [[<- <-]|[_ Hi]]%lookup_insert_Some; [done|by apply (so_key _ _ Hok)].
  - intros c i [[<- <-]|[_ Hi]]%lookup_insert_Some; [done|by apply (so_size _ _ Hok c)].
  - intros c i [[<- <-]|[_ Hi]]%lookup_insert_Some; [simpl; lia|]. pose proof (so_start _ _ Hok c i Hi). lia.
  - intros c i [[<- <-]|[_ Hi]]%lookup_insert_Some; [by left|]. pose proof (so_end _ _ Hok c i Hi). lia.
  - intros c i d [[<- <-]|[_ Hi]]%lookup_insert_Some Hd; [by apply not_elem_of_nil in Hd|].
    destruct (so_child _ _ Hok c i d Hi Hd) as (j & Hj & ?). exists j. split; [|done].
    rewrite lookup_insert_ne; [done|]. intros ->. congruence.
  - intros c i [[<- <-]|[_ Hi]]%lookup_insert_Some Hn; [done|].
    destruct (so_parent _ _ Hok c i Hi Hn) as (p & Hp). exists p. by apply Hsh.
  - intros c c' d Hc%Hsh Hc'%Hsh. by apply (so_unique _ _ Hok c c' d).
Qed.

Lemma store_ok_share m now b s si size :
  store_ok m now -> 0 <= now -> m !! b = None -> m !! s = Some si -> 0 < size ->
  store_ok (<[b := fresh_interval b size now false]> (<[s := add_colocation b si]> m)) (now + 1).
Proof.
  intros Hok Hnow Hb Hsi Hs. set (m1 := <[s := add_colocation b si]> m).
  assert (Hne : b <> s) by congruence.
  assert (Hb1 : m1 !! b = None) by (unfold m1; by rewrite lookup_insert_ne).
  assert (Hsh : forall c d, shares (<[b := fresh_interval b size now false]> m1) c d <-> shares m c d \/ (c = s /\ d = b)).
  { intros c d. rewrite shares_insert_new by done. by apply shares_add. }
  assert (Hm1 : forall c i, m1 !! c = Some i ->
    exists i0, m !! c = Some i0 /\ bi_buffer i = bi_buffer i0 /\ bi_size i = bi_size i0 /\ bi_start i = bi_start i0 /\
      bi_end i = bi_end i0 /\ bi_need_allocation i = bi_need_allocation i0).
  { intros c i [[<- <-]|[_ Hi]]%lookup_insert_Some; eexists; (split; [done|]); done. }
  assert (Hup : forall c i, m !! c = Some i -> exists i', m1 !! c = Some i' /\ bi_start i' = bi_start i /\
    bi_need_allocation i' = bi_need_allocation i).
  { intros c i Hi. unfold m1. destruct (decide (c = s)) as [->|Hc].
    - rewrite lookup_insert_eq. eexists. split; [done|]. by simplify_eq.
    - rewrite lookup_insert_ne by done. by exists i. }
  assert (Hnob : forall c, ~ shares m c b).
  { intros c (j & Hj & _)%(shares_child _ _ Hok). congruence. }
  split.
  - intros c i [[<- <-]|[_ (i0 & Hi & -> & _)%Hm1]]%lookup_insert_Some; [done|by apply (so_key _ _ Hok)].
  - intros c i [[<- <-]|[_ (i0 & Hi & _ & -> & _)%Hm1]]%lookup_insert_Some; [done|by apply (so_size _ _ Hok c)].
  - intros c i [[<- <-]|[_ (i0 & Hi & _ & _ & -> & _)%Hm1]]%lookup_insert_Some; [simpl; lia|].
    pose proof (so_start _ _ Hok c i0 Hi). lia.
  - intros c i [[<- <-]|[_ (i0 & Hi & _ & _ & -> & -> & _)%Hm1]]%lookup_insert_Some; [by left|].
    pose proof (so_end _ _ Hok c i0 Hi). lia.
  - intros c i d Hi Hd. assert (Hcd : shares (<[b := fresh_interval b size now false]> m1) c d) by by exists i.
    apply Hsh in Hcd as [Hcd|[-> ->]].
    + pose proof Hcd as (i0 & Hi0 & Hd0). destruct (so_child _ _ Hok c i0 d Hi0 Hd0) as (j & Hj & Hn & Hlt).
      apply lookup_insert_Some in Hi as [[<- <-]|[_ Hi]]; [congruence|].
      destruct (Hm1 c i Hi) as (i0' & Hi0' & _ & _ & Es & _). assert (i0' = i0) as -> by congruence.
      destruct (Hup d j Hj) as (j' & Hj' & Esj & Enj). exists j'.
      rewrite lookup_insert_ne by congruence. split; [done|]. split; [congruence|lia].
    + rewrite lookup_insert_eq. eexists. split; [done|]. split; [done|]. simpl.
      apply lookup_insert_Some in Hi as [[? _]|[_ (i0 & Hi & _ & _ & -> & _)%Hm1]]; [done|].
      pose proof (so_start _ _ Hok s i0 Hi). lia.
  - intros c i [[<- <-]|[_ (i0 & Hi & _ & _ & _ & _ & En)%Hm1]]%lookup_insert_Some Hn.
    + exists s. apply Hsh. by right.
    + rewrite En in Hn. destruct (so_parent _ _ Hok c i0 Hi Hn) as (p & Hp). exists p. apply Hsh. by left.
  - intros c c' d [Hc|[-> ->]]%Hsh [Hc'|[-> Hd]]%Hsh; [by apply (so_unique _ _ Hok c c' d)|subst d; by destruct (Hnob c)|by destruct (Hnob c')|done].
Qed.

Lemma store_ok_free m now b i :
  store_ok m now -> m !! b = Some i -> store_ok (<[b := set_bi_end now i]> m) (now + 1).
Proof.
  intros Hok Hb. pose proof (fun c d => shares_replace m b i (set_bi_end now i) c d Hb eq_refl) as Hsh. split.
  - intros c j [[<- <-]|[_ Hj]]%lookup_insert_Some; [exact (so_key _ _ Hok b i Hb)|by apply (so_key _ _ Hok)].
  - intros c j [[<- <-]|[_ Hj]]%lookup_insert_Some; [exact (so_size _ _ Hok b i Hb)|by apply (so_size _ _ Hok c)].
  - intros c j [[<- <-]|[_ Hj]]%lookup_insert_Some.
    + pose proof (so_start _ _ Hok b i Hb). simpl. lia.
    + pose proof (so_start _ _ Hok c j Hj). lia.
  - intros c j [[<- <-]|[_ Hj]]%lookup_insert_Some.
    + pose proof (so_start _ _ Hok b i Hb). right. simpl. lia.
    + pose proof (so_end _ _ Hok c j Hj). lia.
  - intros c j d Hj Hd. assert (Hcd : shares (<[b := set_bi_end now i]> m) c d) by by exists j.
    apply Hsh in Hcd as (j0 & Hj0 & Hd0). destruct (so_child _ _ Hok c j0 d Hj0 Hd0) as (k & Hk & Hn & Hlt).
    assert (Es : bi_start j = bi_start j0).
    { apply lookup_insert_Some in Hj as [[<- <-]|[_ Hj]]; [|congruence]. simpl. congruence. }
    destruct (decide (d = b)) as [->|Hne].
    + rewrite lookup_insert_eq. eexists. split; [done|]. simplify_eq. split; [done|simpl; lia].
    + rewrite lookup_insert_ne by done. exists k. split; [done|]. split; [done|lia].
  - intros c j Hj Hn. assert (Hex : exists j0, m !! c = Some j0 /\ bi_need_allocation j0 = false).
    { apply lookup_insert_Some in Hj as [[<- <-]|[_ Hj]]; eauto. }
    destruct Hex as (j0 & Hj0 & Hn0). destruct (so_parent _ _ Hok c j0 Hj0 Hn0) as (p & Hp). exists p. by apply Hsh.
  - intros c c' d Hc%Hsh Hc'%Hsh. by apply (so_unique _ _ Hok c c' d).
Qed.
