(* ===== verification/BestFitChunks.v ===== *)
(** * Free chunks: the memory around the used ones

    MakeFreeChunks starts with all memory and cuts out one used chunk after the other.
    [cut_ok] says what the map of free chunks is in between: aligned, disjoint chunks in
    descending order with gaps between them, disjoint from the used ones, that
    leave out no place where the buffer fits. *)

From stdpp Require Import gmap sorting.
From S2P Require Import Prelude MachineInt MathUtil IntervalTree IntervalTreeInv IntervalTreeTheorems SlicePermutation.
From S2P Require Import AllocationFinder FinderPieces FinderRoots BestFitHeap BestFitColocations.

(** ** Alignment *)

(** The least multiple of [al] that is not below [x]. *)
Definition round_up (al x : Z) : Z := - (- x / al) * al.

Lemma round_up_spec al x : 0 < al ->
  round_up al x mod al = 0 /\ x <= round_up al x < x + al /\ forall y, y mod al = 0 -> x <= y -> round_up al x <= y.
Proof.
  intros Hal. unfold round_up. pose proof (Z.div_mod (- x) al ltac:(lia)). pose proof (Z.mod_pos_bound (- x) al Hal).
  split; [by apply Z_mod_mult|]. split; [nia|]. intros y Hy Hxy.
  apply Z.mod_divide in Hy as [k ->]; [|lia]. apply Z.mul_le_mono_nonneg_r; [lia|].
  enough (- k <= - x / al) by lia. apply Z.div_le_lower_bound; nia.
Qed.

Lemma round_up_div al x : 0 < al -> round_up al x = (x + al - 1) / al * al.
Proof.
  intros Hal. unfold round_up. f_equal. pose proof (Z.div_mod (- x) al ltac:(lia)). pose proof (Z.mod_pos_bound (- x) al Hal).
  apply (Z.div_unique_pos _ _ _ (al - 1 - (- x) mod al)); [lia|nia].
Qed.

Lemma ComputeAlignedChunkEnd_ok h e :
  0 < heap_alignment_ h -> 0 <= e -> e + heap_alignment_ h <= int64_max ->
  ComputeAlignedChunkEnd h e = OK (round_up (heap_alignment_ h) e).
Proof.
  intros Hal He Hle. unfold ComputeAlignedChunkEnd. set (a := heap_alignment_ h) in *.
  unfold int64_max in *. destruct (Z.eqb_spec a 1) as [->|Hne]; cbn [negb].
  { f_equal. unfold round_up. rewrite Z.div_1_r. lia. }
  assert (Hu : u64 a = a) by (apply Z.mod_small; z64; lia). rewrite Hu.
  destruct (has_single_bit a) eqn:Hb.
  - f_equal. rewrite add64_small, !sub64_small by lia. apply has_single_bit_pow in Hb as (n & Hn & Ea).
    rewrite round_up_div, Ea by done. by apply clear_low_bits.
  - unfold RoundUpTo. rewrite CeilOfRatio_ok by lia. cbn [mbind outcome_bind]. f_equal.
    destruct (round_up_spec a e Hal) as (_ & Hr & _). unfold round_up in *. apply mul64_small. lia.
Qed.

(** ** The map of free chunks *)

Section Cut.
Context (al sz mx limit : Z).
Context (Hal : 0 < al) (Hsz : 0 < sz) (Hmx : -1 <= mx) (Hlimit : limit + Z.max mx 0 <= int64_max).

Record cut_ok (us : list Chunk) (free : FreeChunks) : Prop := {
  co_sorted : StronglySorted (fun a b => b.2 < a.1) free;
  co_bounds : Forall (fun a => 0 <= a.1 <= a.2 /\ a.2 <= int64_max) free;
  co_aligned : Forall (fun a => a.1 mod al = 0) free;
  co_ends : Forall (fun a => a.2 = int64_max \/ a.2 ∈ offset <$> us) free;
  co_tail : exists a rest, free = (a, int64_max) :: rest /\ a <= limit;
  co_free : Forall (fun a => Forall (fun u => a.2 <= offset u \/ offset u + size u <= a.1) us) free;
  co_complete : sz <= mx -> 0 < mx -> forall o, 0 <= o -> o mod al = 0 -> o + mx <= int64_max ->
    Forall (fun u => o + mx <= offset u \/ offset u + size u <= o) us ->
    Exists (fun a => a.1 <= o /\ o + mx <= a.2) free;
}.

Lemma cut_ok_all : 0 <= limit -> cut_ok [] [(0, int64_max)].
Proof.
  intros H0. split.
  - repeat constructor.
  - repeat constructor; simpl; unfold int64_max; z64; lia.
  - repeat constructor.
  - repeat constructor.
  - exists 0, []. split; [done|lia].
  - repeat constructor.
  - intros _ _ o Ho _ Hm _. constructor. simpl. lia.
Qed.

(** ** Cutting one chunk out *)

Lemma lower_bound_split {A} k (X Y : dmap A) :
  Forall (fun a => k < a.1) X -> Forall (fun a => a.1 <= k) Y -> lower_bound k (X ++ Y) = (X, Y).
Proof.
  intros HX HY. induction HX as [|[k' v] X Hk HX IH]; simpl in *.
  - destruct HY as [|[k' v] Y Hk HY]; [done|]. simpl in *. by rewrite (proj2 (Z.leb_le k' k)).
  - rewrite (proj2 (Z.leb_gt k' k)) by done. by rewrite IH.
Qed.

(** What remains of the free chunks that start at or below [p]. *)
Definition cut_start (p : Z) (R : FreeChunks) : FreeChunks :=
  match R with
  | (k, e) :: A => if sz <=? sub64 p k then (k, Z.min e p) :: A else A
  | [] => []
  end.

Lemma subtract_used_chunk_eq h node B D R :
  let p := offset (chunk node) in
  let q := chunk_end (chunk node) in
  p <= q -> Forall (fun a => q < a.1) B -> Forall (fun a => p < a.1 <= q) D -> Forall (fun a => a.1 <= p) R ->
  subtract_used_chunk h sz mx (B ++ D ++ R) node =
  match D ++ R with
  | [] => OK (B ++ D ++ R)
  | (_, ee) :: _ =>
      q' ← ComputeAlignedChunkEnd h q;
      if mx <=? sub64 ee q' then
        _ ← check (negb (bool_decide (q' ∈ (B ++ cut_start p R).*1)));
        OK (dinsert q' ee (B ++ cut_start p R))
      else OK (B ++ cut_start p R)
  end.
Proof.
  intros p q Hpq HB HD HR. unfold subtract_used_chunk. fold p q.
  assert (HDR : Forall (fun a => a.1 <= q) (D ++ R)).
  { apply Forall_app. split; (eapply Forall_impl; [eassumption|]); simpl; lia. }
  assert (HBD : Forall (fun a => p < a.1) (B ++ D)).
  { apply Forall_app. split; (eapply Forall_impl; [eassumption|]); simpl; lia. }
  rewrite (lower_bound_split q B) by done.
  rewrite (app_assoc B D R), (lower_bound_split p (B ++ D)) by done.
  cbn [fst]. rewrite <- (app_assoc B D R), lookup_app_r, Nat.sub_diag by lia.
  destruct (D ++ R) as [|[ke ee] tl] eqn:E; [done|]. cbn [lookup list_lookup]. rewrite <- E.
  rewrite (app_assoc B D R), lookup_app_r, Nat.sub_diag by lia.
  assert (Htake : forall X, take (length B) ((B ++ D) ++ X) = B) by (intros X; by rewrite <- app_assoc, take_app_length).
  assert (Hle : (length B <= length (B ++ D))%nat) by (rewrite length_app; lia).
  destruct R as [|[k e] A]; cbn [lookup list_lookup cut_start].
  - rewrite bool_decide_eq_true_2 by done. cbn [check mbind outcome_bind]. by rewrite Htake, drop_app_length.
  - destruct (sz <=? sub64 p k).
    + rewrite bool_decide_eq_true_2 by done. cbn [check mbind outcome_bind].
      rewrite insert_app_r_alt, Nat.sub_diag by lia. cbn [insert list_insert]. by rewrite Htake, drop_app_length.
    + rewrite bool_decide_eq_true_2 by lia. cbn [check mbind outcome_bind].
      rewrite Htake. rewrite (cons_middle (k, e)), (app_assoc (B ++ D)), drop_app_length'; [done|].
      rewrite (length_app (B ++ D)). simpl. lia.
Qed.

Lemma split_free p q free :
  p <= q -> StronglySorted (fun a b => b.2 < a.1) free -> Forall (fun a : Z * Z => a.1 <= a.2) free ->
  exists B D R, free = B ++ D ++ R /\ Forall (fun a => q < a.1) B /\ Forall (fun a => p < a.1 <= q) D /\
    Forall (fun a => a.1 <= p) R.
Proof.
  intros Hpq Hs Hle. induction Hs as [|[k e] free Hs IH HF]; [by exists [], [], []|].
  apply Forall_cons in Hle as [Hke Hle]. destruct (IH Hle) as (B & D & R & -> & HB & HD & HR). simpl in *.
  assert (Hall : Forall (fun a : Z * Z => a.1 < k) (B ++ D ++ R)).
  { rewrite Forall_forall in HF, Hle |- *. intros x Hx. specialize (HF x Hx). specialize (Hle x Hx). simpl in *. lia. }
  rewrite !Forall_app in Hall. destruct Hall as (HaB & HaD & HaR).
  destruct (Z.ltb_spec q k); [exists ((k, e) :: B), D, R; split; [done|]; split; [by constructor|done]|].
  assert (B = []) as ->. { destruct HB as [|x B Hx HB]; [done|]. inversion HaB; subst. lia. }
  destruct (Z.ltb_spec p k); [exists [], ((k, e) :: D), R; split; [done|]; split; [done|]; split; [constructor; [simpl; lia|done]|done]|].
  assert (D = []) as ->. { destruct HD as [|x D Hx HD]; [done|]. inversion HaD; subst. lia. }
  exists [], [], ((k, e) :: R). split; [done|]. split; [done|]. split; [done|]. constructor; [done|].
  eapply Forall_impl; [exact HaR|]. simpl. lia.
Qed.

(** [a'] is a part of [a], cut off at its end by a used chunk from [p] on. *)
Definition part_of (p : Z) (a' a : Z * Z) : Prop :=
  a'.1 = a.1 /\ a'.2 <= p /\ a'.1 <= a'.2 <= a.2 /\ (a'.2 = a.2 \/ a'.2 = p).

Lemma cut_start_parts p R :
  0 <= p <= int64_max ->
  StronglySorted (fun a b => b.2 < a.1) R -> Forall (fun a => 0 <= a.1 <= a.2 /\ a.2 <= int64_max) R ->
  Forall (fun a => a.1 <= p) R ->
  Forall (fun a' => Exists (part_of p a') R) (cut_start p R) /\
  StronglySorted (fun a b => b.2 < a.1) (cut_start p R).
Proof.
  intros Hp Hs Hb HR. destruct Hs as [|[k e] A Hs HF]; [split; [done|constructor]|].
  apply Forall_cons in Hb as [Hke Hb]. apply Forall_cons in HR as [Hk HR]. simpl in Hke, Hk, HF.
  assert (HA : Forall (fun a' => Exists (part_of p a') ((k, e) :: A)) A).
  { apply Forall_forall. intros a Ha. apply Exists_cons_tl, Exists_exists. exists a. split; [done|].
    rewrite Forall_forall in HF, Hb. specialize (HF a Ha). specialize (Hb a Ha). unfold part_of. lia. }
  cbn [cut_start]. destruct (sz <=? sub64 p k); [|done]. split.
  - constructor; [|done]. apply Exists_cons_hd. unfold part_of. simpl. lia.
  - constructor; [done|]. done.
Qed.

(** The free chunk in which the used chunk's end lies. *)
Lemma head_of_rest (B D R : FreeChunks) a tl :
  D ++ R = a :: tl -> StronglySorted (fun a b => b.2 < a.1) (B ++ D ++ R) ->
  Forall (fun b => a.2 < b.1) B /\ Forall (fun b => b.2 < a.1) tl.
Proof.
  intros E Hs. rewrite E in Hs. split.
  - apply Forall_forall. intros b Hb. apply StronglySorted_app in Hs as (Hx & _ & _). apply Hx; [done|left].
  - apply StronglySorted_app in Hs as (_ & _ & Hs). by apply StronglySorted_inv in Hs as [_ Hs].
Qed.

(** The chunks of the result, as parts of those before: unchanged above the used
    chunk, the new one behind it, and those below it. *)
Definition cut_result (q' ee : Z) (p : Z) (B R : FreeChunks) : FreeChunks :=
  if mx <=? ee - q' then B ++ (q', ee) :: cut_start p R else B ++ cut_start p R.

Lemma cut_result_inserted q' ee p B R :
  0 <= q' -> is_i64 (ee - q') = true -> (mx <= ee - q' -> Forall (fun b => q' < b.1) B) -> Forall (fun b => b.1 < q') (cut_start p R) ->
  (if mx <=? sub64 ee q' then
     _ ← check (negb (bool_decide (q' ∈ (B ++ cut_start p R).*1)));
     OK (dinsert q' ee (B ++ cut_start p R))
   else OK (B ++ cut_start p R)) = OK (cut_result q' ee p B R).
Proof.
  intros Hq He HB HR. unfold cut_result, sub64. rewrite i64_small by done. destruct (Z.leb_spec mx (ee - q')) as [Hm|]; [|done]. specialize (HB Hm).
  rewrite bool_decide_eq_false_2.
  - cbn [negb check mbind outcome_bind]. f_equal. clear He. induction HB as [|[k v] B Hk HB IH]; simpl in *.
    + destruct HR as [|[k v] R' Hk HR]; [done|]. simpl in *. by rewrite (proj2 (Z.ltb_lt k q')).
    + rewrite (proj2 (Z.ltb_ge k q')), (proj2 (Z.eqb_neq k q')) by lia. by rewrite IH.
  - rewrite fmap_app, elem_of_app. rewrite Forall_forall in HB, HR.
    intros [(b & -> & Hb)%list_elem_of_fmap|(b & -> & Hb)%list_elem_of_fmap]; [specialize (HB b Hb)|specialize (HR b Hb)]; lia.
Qed.

Section Step.
Context (us : list Chunk) (u : Chunk) (B D R : FreeChunks).
#[local] Abbreviation free := (B ++ D ++ R).
#[local] Abbreviation p := (offset u).
#[local] Abbreviation q := (offset u + size u).
#[local] Abbreviation q' := (round_up al q).
Context (Hok : cut_ok us free) (Hu : chunk_ok u) (Hq : q' <= limit).
Context (Hspare : forall e, e ∈ offset <$> us -> mx <= e - q' -> q' <= e).
Context (HB : Forall (fun a => q < a.1) B) (HD : Forall (fun a => p < a.1 <= q) D) (HR : Forall (fun a => a.1 <= p) R).

Lemma q'_bounds : q <= q' /\ q' <= int64_max - Z.max mx 0 /\ q' mod al = 0 /\ 0 <= q'.
Proof. destruct (round_up_spec al q Hal) as (? & ? & _). destruct Hu as (?&?&?). lia. Qed.

Lemma end_spare a : a ∈ free -> mx <= a.2 - q' -> q' <= a.2.
Proof.
  intros Ha Hm. pose proof (proj1 (Forall_forall _ _) (co_ends _ _ Hok) a Ha) as [->|He]; [|by apply Hspare].
  pose proof q'_bounds. lia.
Qed.

Lemma step_none : D ++ R = [] -> cut_ok (u :: us) free.
Proof.
  intros E. assert (EB : free = B) by by rewrite E, app_nil_r.
  rewrite EB. assert (HokB : cut_ok us B) by by rewrite <- EB. destruct HokB as [Hs Hb Ha He Ht Hf Hc]. split; [done..| |done| |].
  - eapply Forall_impl; [exact He|]. intros a [|Hin]; [by left|right]. by right.
  - apply Forall_forall. intros a Hin. constructor; [|by apply (proj1 (Forall_forall _ _) Hf)].
    right. pose proof (proj1 (Forall_forall _ _) HB a Hin). simpl in *. lia.
  - intros ? ? o ? ? ? [_ HF]%Forall_cons. by apply Hc.
Qed.

Context (E : Z * Z) (tl : FreeChunks) (HE : D ++ R = E :: tl).

Lemma E_free : E ∈ free.
Proof. rewrite HE. apply elem_of_app. right. left. Qed.

Lemma E_start : E.1 <= q.
Proof.
  assert (HF : Forall (fun a => a.1 <= q) (D ++ R)).
  { destruct Hu as (?&?&?). apply Forall_app. split; (eapply Forall_impl; [eassumption|]); simpl; lia. }
  rewrite HE in HF. by inversion HF.
Qed.

Lemma R_ok : StronglySorted (fun a b => b.2 < a.1) R /\ Forall (fun a => 0 <= a.1 <= a.2 /\ a.2 <= int64_max) R.
Proof.
  destruct Hok as [Hs Hb _ _ _ _ _]. split.
  - apply StronglySorted_app in Hs as (_ & _ & Hs). by apply StronglySorted_app in Hs as (_ & _ & Hs).
  - rewrite !Forall_app in Hb. tauto.
Qed.

(** Where the chunks of the result come from. *)
Lemma step_each a' : a' ∈ cut_result q' E.2 p B R ->
  a' ∈ B \/ (a' = (q', E.2) /\ q' <= E.2 /\ mx <= E.2 - q') \/ exists a, a ∈ R /\ part_of p a' a.
Proof.
  destruct R_ok as [HsR HbR]. destruct Hu as (?&?&?).
  destruct (cut_start_parts p R ltac:(lia) HsR HbR HR) as [HF _]. rewrite Forall_forall in HF.
  unfold cut_result. destruct (Z.leb_spec mx (E.2 - q')).
  - intros [Ha'|[->|Ha']%elem_of_cons]%elem_of_app; [by left| |right; right; by apply Exists_exists, HF].
    right. left. split; [done|]. split; [|done]. by apply end_spare; [apply E_free|].
  - intros [Ha'|Ha']%elem_of_app; [by left|right; right; by apply Exists_exists, HF].
Qed.

Lemma cut_start_below : Forall (fun b => b.2 <= p) (cut_start p R).
Proof.
  destruct R_ok as [HsR HbR]. destruct Hu as (?&?&?). eapply Forall_impl; [exact (proj1 (cut_start_parts p R ltac:(lia) HsR HbR HR))|].
  intros a' (a & _ & Hp)%Exists_exists. unfold part_of in Hp. lia.
Qed.

Lemma B_above : Forall (fun b => E.2 < b.1) B.
Proof. by destruct (head_of_rest B D R E tl HE (co_sorted _ _ Hok)). Qed.

Lemma step_sorted : StronglySorted (fun a b => b.2 < a.1) (cut_result q' E.2 p B R).
Proof.
  destruct R_ok as [HsR HbR]. destruct Hu as (?&?&?). pose proof q'_bounds. pose proof cut_start_below as HRp.
  pose proof B_above as HBE. destruct (cut_start_parts p R ltac:(lia) HsR HbR HR) as [_ HsS].
  assert (HsB : StronglySorted (fun a b => b.2 < a.1) B) by (pose proof (co_sorted _ _ Hok) as Hs; by apply StronglySorted_app in Hs as (_ & Hs & _)).
  rewrite Forall_forall in HRp, HBE. pose proof (proj1 (Forall_forall _ _) HB) as HB'. simpl in HB'. unfold cut_result.
  destruct (mx <=? E.2 - q'); (apply StronglySorted_app_2; [|done|]).
  - intros b [x y] Hb [[= -> ->]|Ha]%elem_of_cons; [by apply HBE|]. specialize (HRp _ Ha). specialize (HB' b Hb). simpl in *. lia.
  - constructor; [done|]. apply Forall_forall. intros b Hb. specialize (HRp b Hb). simpl. lia.
  - intros b a Hb Ha. specialize (HRp a Ha). specialize (HB' b Hb). lia.
  - done.
Qed.

Lemma step_tail : exists a rest, cut_result q' E.2 p B R = (a, int64_max) :: rest /\ a <= limit.
Proof.
  destruct (co_tail _ _ Hok) as (a & rest & Ht & Ha). pose proof q'_bounds. unfold cut_result.
  destruct B as [|b B'].
  - simpl in Ht. rewrite HE in Ht. injection Ht as -> ->. cbn [snd]. rewrite (proj2 (Z.leb_le _ _)) by lia. simpl. eauto.
  - simpl in Ht. injection Ht as -> _. destruct (mx <=? E.2 - q'); simpl; eauto.
Qed.

Lemma step_complete o : sz <= mx -> 0 < mx -> 0 <= o -> o mod al = 0 -> o + mx <= int64_max ->
  Forall (fun u => o + mx <= offset u \/ offset u + size u <= o) (u :: us) ->
  Exists (fun a => a.1 <= o /\ o + mx <= a.2) (cut_result q' E.2 p B R).
Proof.
  intros Hszm Hm Ho Hal' Hom [Hou Hus]%Forall_cons. destruct (round_up_spec al q Hal) as (_ & _ & Hleast).
  pose proof (co_complete _ _ Hok Hszm Hm o Ho Hal' Hom Hus) as (a & Ha & Ha1 & Ha2)%Exists_exists.
  destruct Hu as (?&?&?). pose proof E_start as HE1.
  destruct (head_of_rest B D R E tl HE (co_sorted _ _ Hok)) as [_ Htl].
  assert (Hin : forall x, x ∈ cut_result q' E.2 p B R -> x.1 <= o -> o + mx <= x.2 ->
    Exists (fun a => a.1 <= o /\ o + mx <= a.2) (cut_result q' E.2 p B R)).
  { intros x Hx ? ?. apply Exists_exists. by exists x. }
  apply elem_of_app in Ha as [Ha|Ha].
  { apply (Hin a); [|done..]. unfold cut_result. destruct (mx <=? E.2 - q'); apply elem_of_app; by left. }
  (* behind the used chunk, [a] is the chunk in which it ends *)
  assert (Hbehind : q <= o -> Exists (fun a => a.1 <= o /\ o + mx <= a.2) (cut_result q' E.2 p B R)).
  { intros Hqo. pose proof (Hleast o Hal' Hqo). assert (a = E) as ->.
    { rewrite HE in Ha. apply elem_of_cons in Ha as [|Ha]; [done|]. pose proof (proj1 (Forall_forall _ _) Htl a Ha). simpl in *. lia. }
    apply (Hin (q', E.2)); simpl; [|done|done]. unfold cut_result. rewrite (proj2 (Z.leb_le _ _)) by lia.
    apply elem_of_app. right. left. }
  destruct Hou as [Hou|Hou]; [|by apply Hbehind].
  apply elem_of_app in Ha as [Ha|Ha]; [pose proof (proj1 (Forall_forall _ _) HD a Ha); simpl in *; lia|].
  assert (Hcut : forall x, x ∈ cut_start p R -> x ∈ cut_result q' E.2 p B R).
  { intros x Hx. unfold cut_result. destruct (mx <=? E.2 - q'); apply elem_of_app; right; [by right|done]. }
  destruct R_ok as [HsR HbR]. pose proof (proj1 (Forall_forall _ _) HR a Ha) as Hap. simpl in Hap.
  pose proof (proj1 (Forall_forall _ _) HbR a Ha) as Hab. simpl in Hab. destruct R as [|[k e] A]; [by apply not_elem_of_nil in Ha|].
  apply elem_of_cons in Ha as [->|Ha].
  - apply (Hin (k, Z.min e p)); simpl in *; [|lia|lia]. apply Hcut. simpl. rewrite sub64_small by (unfold int64_max in *; z64; lia).
    rewrite (proj2 (Z.leb_le _ _)) by lia. left.
  - apply (Hin a); [|done..]. apply Hcut. simpl. destruct (sz <=? sub64 p k); [by right|done].
Qed.

Lemma step_ok : cut_ok (u :: us) (cut_result q' E.2 p B R).
Proof.
  destruct Hu as (?&?&?). pose proof q'_bounds as (Hq1 & Hq2 & Hq3 & Hq4). pose proof E_start as HE1.
  pose proof E_free as HEf. pose proof B_above as HBE. destruct R_ok as [HsR HbR].
  pose proof Hok as [_ Hb Ha He _ Hf _]. rewrite Forall_forall in Hb, Ha, He, Hf.
  assert (HBf : forall a, a ∈ B -> a ∈ free) by (intros a ?; apply elem_of_app; by left).
  assert (HRf : forall a, a ∈ R -> a ∈ free) by (intros a ?; rewrite !elem_of_app; by right; right).
  split; [exact step_sorted| | | |exact step_tail| |].
  - apply Forall_forall. intros a' [Ha'|[(-> & ? & ?)|(a & Hin & ?&?&?&?)]]%step_each; [by auto| |].
    + specialize (Hb E HEf). simpl. lia.
    + specialize (Hb a (HRf a Hin)). lia.
  - apply Forall_forall. intros a' [Ha'|[(-> & ? & ?)|(a & Hin & -> & ?)]]%step_each; by auto.
  - apply Forall_forall. intros a' [Ha'|[(-> & ? & ?)|(a & Hin & ?&?&?& [->| ->])]]%step_each; rewrite fmap_cons, elem_of_cons.
    + destruct (He a' (HBf a' Ha')); auto.
    + destruct (He E HEf); auto.
    + destruct (He a (HRf a Hin)); auto.
    + auto.
  - apply Forall_forall. intros a' [Ha'|[(-> & ? & ?)|(a & Hin & ?&?&?&?)]]%step_each; (constructor; [|apply Forall_forall; intros w Hw]).
    + right. pose proof (proj1 (Forall_forall _ _) HB a' Ha'). simpl in *. lia.
    + by apply (proj1 (Forall_forall _ _) (Hf a' (HBf a' Ha'))).
    + simpl. lia.
    + pose proof (proj1 (Forall_forall _ _) (Hf E HEf) w Hw). simpl in *. lia.
    + lia.
    + pose proof (proj1 (Forall_forall _ _) (Hf a (HRf a Hin)) w Hw). simpl in *. lia.
  - intros. by apply step_complete.
Qed.

End Step.

Lemma cut_ok_equiv us us' free : us ≡ₚ us' \/ (forall u, u ∈ us <-> u ∈ us') -> cut_ok us free -> cut_ok us' free.
Proof.
  intros Heq. assert (Hin : forall u, u ∈ us <-> u ∈ us') by (destruct Heq as [Hp|]; [by intros; rewrite Hp|done]).
  clear Heq. assert (HF : forall P : Chunk -> Prop, Forall P us <-> Forall P us').
  { intros P. rewrite !Forall_forall. split; intros Hx u Hu; apply Hx, Hin, Hu. }
  intros [Hs Hb Ha He Ht Hf Hc]. split; [done..| |done| |].
  - eapply Forall_impl; [exact He|]. intros a [|(u & -> & Hu)%list_elem_of_fmap]; [by left|right].
    apply list_elem_of_fmap. exists u. split; [done|by apply Hin].
  - eapply Forall_impl; [exact Hf|]. intros a. apply HF.
  - intros ? ? o ? ? ? Hx%HF. by apply Hc.
Qed.

(** The chunks in use: within the limit, and so placed that a free chunk that is too
    short by one is not empty. *)
Definition in_use (u : Chunk) : Prop :=
  chunk_ok u /\ round_up al (offset u + size u) <= limit /\ offset u + size u + al <= int64_max.

Definition spare (us : list Chunk) : Prop :=
  forall u w, u ∈ us -> w ∈ us -> mx <= offset w - round_up al (offset u + size u) ->
    round_up al (offset u + size u) <= offset w.

Lemma spare_nonneg us : 0 <= mx -> spare us.
Proof. intros Hm u w _ _. lia. Qed.

Lemma spare_aligned us : 2 <= al -> Forall (fun u => offset u mod al = 0) us -> spare us.
Proof.
  intros Ha HF u w _ Hw Hm. rewrite Forall_forall in HF. specialize (HF w Hw).
  destruct (round_up_spec al (offset u + size u) Hal) as (Hr & _ & _).
  apply Z.mod_divide in Hr as [k Ek]; [|lia]. apply Z.mod_divide in HF as [l El]; [|lia].
  rewrite Ek, El in *. apply Z.mul_le_mono_nonneg_r; [lia|]. destruct (decide (k <= l)); [done|]. nia.
Qed.

Lemma subtract_used_chunk_ok h us free node :
  heap_alignment_ h = al -> cut_ok us free -> in_use (chunk node) -> spare (chunk node :: us) ->
  exists free', subtract_used_chunk h sz mx free node = OK free' /\ cut_ok (chunk node :: us) free'.
Proof.
  intros Ha Hok (Hu & Hq & Hqa) Hsp. set (u := chunk node) in *. pose proof Hu as (?&?&?).
  assert (Eend : chunk_end u = offset u + size u) by by apply chunk_end_ok.
  destruct (split_free (offset u) (offset u + size u) free) as (B & D & R & -> & HB & HD & HR).
  - lia.
  - apply Hok.
  - eapply Forall_impl; [exact (co_bounds _ _ Hok)|]. simpl. lia.
  - rewrite subtract_used_chunk_eq; fold u; rewrite ?Eend; [|lia|done..].
    destruct (D ++ R) as [|[ke ee] tl] eqn:E.
    { eexists. split; [done|]. rewrite <- E in Hok |- *. by apply (step_none us u B D R). }
    rewrite ComputeAlignedChunkEnd_ok, Ha by (rewrite ?Ha; lia). cbn [mbind outcome_bind].
    assert (Hspare : forall e, e ∈ offset <$> us -> mx <= e - round_up al (offset u + size u) ->
      round_up al (offset u + size u) <= e).
    { intros e (w & -> & Hw)%list_elem_of_fmap. apply Hsp; [left|by right]. }
    rewrite <- E in Hok.
    pose proof (q'_bounds u Hu Hq) as (Hq1 & Hq2 & Hq3 & Hq4).
    pose proof (step_ok us u B D R Hok Hu Hq Hspare HB HD HR (ke, ee) tl E) as Hstep. cbn [snd] in Hstep.
    pose proof (E_free B D R (ke, ee) tl E) as HEf.
    pose proof (proj1 (Forall_forall _ _) (co_bounds _ _ Hok) _ HEf) as HEb. cbn [fst snd] in HEb.
    rewrite cut_result_inserted; [by eexists|done| | |].
    + apply is_i64_spec. unfold int64_max in *. z64. lia.
    + intros Hm. pose proof (B_above us B D R Hok (ke, ee) tl E) as HBE. eapply Forall_impl; [exact HBE|]. cbn [snd].
      intros b ?. pose proof (end_spare us u B D R Hok Hu Hq Hspare (ke, ee) HEf Hm). cbn [snd] in *. lia.
    + pose proof (cut_start_below us u B D R Hok Hu HR) as HRp. destruct (R_ok us B D R Hok) as [HsR HbR].
      destruct (cut_start_parts (offset u) R ltac:(lia) HsR HbR HR) as [HF _]. rewrite Forall_forall in HRp, HF |- *.
      intros b Hb. specialize (HRp b Hb). pose proof (HF b Hb) as (a & _ & Hpart)%Exists_exists. unfold part_of in Hpart. lia.
Qed.

Lemma spare_subset us us' : us ⊆ us' -> spare us' -> spare us.
Proof. intros Hs Hsp u w Hu Hw. apply Hsp; by apply Hs. Qed.

Lemma subtract_all h all nodes us free :
  heap_alignment_ h = al -> Forall in_use all -> spare all -> (chunk <$> nodes) ⊆ all -> us ⊆ all ->
  cut_ok us free ->
  exists free', foldM (subtract_used_chunk h sz mx) free nodes = OK free' /\
    cut_ok (us ++ (chunk <$> nodes)) free'.
Proof.
  intros Ha Huse Hsp. revert us free. induction nodes as [|node nodes IH]; intros us free Hn Hus Hok.
  { exists free. rewrite app_nil_r. done. }
  rewrite fmap_cons in Hn. assert (Hnode : chunk node ∈ all) by (apply Hn; left).
  destruct (subtract_used_chunk_ok h us free node Ha Hok) as (free1 & HS & Hok1).
  - rewrite Forall_forall in Huse. by apply Huse.
  - apply (spare_subset _ all); [|done]. intros u [->|Hu]%elem_of_cons; [done|by apply Hus].
  - cbn [foldM]. rewrite HS. cbn [mbind outcome_bind].
    destruct (IH (us ++ [chunk node]) free1) as (free' & HF & Hok').
    + intros u Hu. apply Hn. by right.
    + intros u [Hu| ->%list_elem_of_singleton]%elem_of_app; [by apply Hus|done].
    + eapply cut_ok_equiv; [|exact Hok1]. left. by rewrite Permutation_app_comm.
    + exists free'. split; [exact HF|]. by rewrite fmap_cons, cons_middle, app_assoc.
Qed.

End Cut.

(** ** MakeFreeChunks *)

(** The chunk of an interval that is alive while the buffer, or one below it, is. *)
Definition blocked (m : store) (ivs : list interval) (i : BufferInterval) (u : Chunk) : Prop :=
  exists v, v ∈ ivs /\ iv_chunk v = u /\
    (live_in (bi_start i) (bi_end i) v \/
     exists c j, below m i c /\ m !! c = Some j /\ live_in (bi_start j) (bi_end j) v).

Section Make.
Context `{HashOrder} (h : BestFitHeap) (ivs : list interval) (now limit mx : Z).
Context (Hal : 0 < heap_alignment_ h) (Hmx : -1 <= mx) (Hlimit : limit + Z.max mx 0 <= int64_max) (Hl0 : 0 <= limit).
Context (Htree : repr (interval_tree_ h) ivs) (Hstore : store_ok (buffer_intervals_ h) now).
Context (Huse : Forall (in_use (heap_alignment_ h) limit) (iv_chunk <$> ivs)).
Context (Hspare : spare (heap_alignment_ h) mx (iv_chunk <$> ivs)).

Lemma apply_subtract sz s e us free :
  0 < sz -> us ⊆ (iv_chunk <$> ivs) -> cut_ok (heap_alignment_ h) sz mx limit us free ->
  exists free', ApplyToNodesOverlappingInTime s e (subtract_used_chunk h sz mx) (interval_tree_ h) free = OK free' /\
    cut_ok (heap_alignment_ h) sz mx limit (us ++ (iv_chunk <$> filter (live_in s e) ivs)) free'.
Proof.
  intros Hsz Hus Hok. destruct (Apply_repr _ _ s e Htree) as (nodes & Hp & HA). rewrite HA.
  assert (Hnodes : chunk <$> nodes ≡ₚ iv_chunk <$> filter (live_in s e) ivs).
  { rewrite <- Hp, <- list_fmap_compose. done. }
  destruct (subtract_all (heap_alignment_ h) sz mx limit Hal Hlimit h (iv_chunk <$> ivs) nodes us free)
    as (free' & HF & Hok'); [done..| | |done|].
  - intros u Hu. rewrite Hnodes in Hu. apply list_elem_of_fmap in Hu as (v & -> & [_ Hv]%list_elem_of_filter).
    by apply list_elem_of_fmap_2.
  - done.
  - exists free'. split; [done|]. eapply cut_ok_equiv; [|exact Hok']. left. by rewrite Hnodes.
Qed.

(** The chunks alive during the interval of [c]. *)
Definition live_chunks (c : buffer_id) : list Chunk :=
  match buffer_intervals_ h !! c with
  | Some j => iv_chunk <$> filter (live_in (bi_start j) (bi_end j)) ivs
  | None => []
  end.

Lemma live_chunks_subset s e : iv_chunk <$> filter (live_in s e) ivs ⊆ iv_chunk <$> ivs.
Proof. intros u (v & -> & [_ Hv]%list_elem_of_filter)%list_elem_of_fmap. by apply list_elem_of_fmap_2. Qed.

Lemma apply_colocations sz l us free :
  0 < sz -> (forall c, c ∈ l -> is_Some (buffer_intervals_ h !! c)) -> us ⊆ (iv_chunk <$> ivs) ->
  cut_ok (heap_alignment_ h) sz mx limit us free ->
  exists free', foldM (fun free_chunks c => j ← interval_at (buffer_intervals_ h) c;
      ApplyToNodesOverlappingInTime (bi_start j) (bi_end j) (subtract_used_chunk h sz mx) (interval_tree_ h) free_chunks)
      free l = OK free' /\
    cut_ok (heap_alignment_ h) sz mx limit (us ++ mjoin (live_chunks <$> l)) free'.
Proof.
  intros Hsz. revert us free. induction l as [|c l IH]; intros us free Hsome Hus Hok.
  { exists free. simpl. by rewrite app_nil_r. }
  destruct (Hsome c) as [j Hj]; [left|]. cbn [foldM]. rewrite (interval_at_Some _ _ _ Hj). cbn [mbind outcome_bind].
  destruct (apply_subtract sz (bi_start j) (bi_end j) us free Hsz Hus Hok) as (free2 & -> & Hok2). cbn [mbind outcome_bind].
  destruct (IH (us ++ (iv_chunk <$> filter (live_in (bi_start j) (bi_end j)) ivs)) free2) as (free' & HF & Hok').
  - intros d Hd. apply Hsome. by right.
  - intros u [Hu|Hu]%elem_of_app; [by apply Hus|]. by apply (live_chunks_subset (bi_start j) (bi_end j)).
  - done.
  - exists free'. split; [exact HF|]. cbn [fmap list_fmap mjoin list_join]. unfold live_chunks at 1. rewrite Hj.
    by rewrite app_assoc.
Qed.

Lemma MakeFreeChunks_ok i :
  0 < bi_size i -> (forall c, c ∈ bi_colocations i -> is_Some (buffer_intervals_ h !! c)) ->
  exists free us, MakeFreeChunks i mx h = OK free /\ cut_ok (heap_alignment_ h) (bi_size i) mx limit us free /\
    forall u, u ∈ us <-> blocked (buffer_intervals_ h) ivs i u.
Proof.
  intros Hsz Hi. destruct (GetTransitiveColocations_ok h i now Hstore Hi) as (l & Hl & _ & Hin).
  assert (Hclosed : forall c, c ∈ l -> is_Some (buffer_intervals_ h !! c)).
  { intros c Hc%Hin. destruct (below_lookup _ _ Hstore i c Hi Hc) as (j & ?). by exists j. }
  unfold MakeFreeChunks.
  destruct (apply_subtract (bi_size i) (bi_start i) (bi_end i) [] [(0, int64_max)] Hsz) as (free1 & -> & Hok1);
    [by intros u ?%not_elem_of_nil|by apply cut_ok_all|]. rewrite Hl. cbn [mbind outcome_bind app] in *.
  destruct (apply_colocations (bi_size i) l _ free1 Hsz Hclosed (live_chunks_subset _ _) Hok1) as (free & -> & Hok).
  exists free, ((iv_chunk <$> filter (live_in (bi_start i) (bi_end i)) ivs) ++ mjoin (live_chunks <$> l)).
  split; [done|]. split; [exact Hok|]. intros u. rewrite elem_of_app, list_elem_of_fmap, list_elem_of_join. split.
  - intros [(v & -> & [Hv Hiv]%list_elem_of_filter)|(x & Hu & (c & -> & Hc)%list_elem_of_fmap)].
    + exists v. split; [done|]. split; [done|]. by left.
    + unfold live_chunks in Hu. destruct (Hclosed c Hc) as [j Hj]. rewrite Hj in Hu.
      apply list_elem_of_fmap in Hu as (v & -> & [Hv Hiv]%list_elem_of_filter). exists v. split; [done|]. split; [done|].
      right. exists c, j. split; [by apply Hin|done].
  - intros (v & Hiv & <- & [Hv|(c & j & Hc & Hj & Hv)]).
    + left. exists v. split; [done|]. by apply list_elem_of_filter.
    + right. exists (live_chunks c). split; [|by apply list_elem_of_fmap_2, Hin]. unfold live_chunks. rewrite Hj.
      by apply list_elem_of_fmap_2, list_elem_of_filter.
Qed.

End Make.
