(* ===== verification/BestFitPlace.v ===== *)
(** * Where a best-fit heap places a buffer

    FindChunkCandidates, by the theory of the allocation finder on the free chunks of
    MakeFreeChunks: the chunks returned are aligned, free as long as the buffer and
    those colocated with it live, and the best fit. *)

From stdpp Require Import gmap sorting.
From S2P Require Import Prelude MachineInt MathUtil IntervalTree IntervalTreeInv IntervalTreeTheorems SlicePermutation.
From S2P Require Import PermutationEnum PermutationTheorems AllocationFinder FinderPieces FinderRoots FinderFit.
From S2P Require Import FinderSearch FinderTheorems BestFitHeap BestFitColocations BestFitChunks.

(** ** Intervals in slices *)

(** A well-formed SlicedBufferInterval: one interval for every slice; only the last has
    colocated buffers, those of the full interval. *)
Record sliced_ok (s : SlicedBufferInterval) : Prop := {
  sl_nonempty : slice_sizes_sorted_by_offset_ s <> [];
  sl_length : length (make_free_chunks_intervals_ s) = length (slice_sizes_sorted_by_offset_ s);
  sl_sizes : Forall (fun z => 0 < z) (slice_sizes_sorted_by_offset_ s);
  sl_total : total (slice_sizes_sorted_by_offset_ s) = bi_size (full_buffer_interval_ s);
  sl_size : Forall (fun i => 0 < bi_size i) (make_free_chunks_intervals_ s);
  sl_last i : last (make_free_chunks_intervals_ s) = Some i ->
    bi_colocations i = bi_colocations (full_buffer_interval_ s) /\ bi_size i = bi_size (full_buffer_interval_ s);
  sl_others t i : make_free_chunks_intervals_ s !! t = Some i ->
    S t <> length (make_free_chunks_intervals_ s) -> bi_colocations i = [];
}.

Lemma CreateInterval_ok i mutable :
  0 < bi_size i -> exists s, new_SlicedBufferInterval i mutable = OK s /\ sliced_ok s /\
    full_buffer_interval_ s = i /\ slice_sizes_sorted_by_offset_ s = [bi_size i] /\ make_free_chunks_intervals_ s = [i].
Proof.
  intros Hi. eexists. split; [done|]. split; [|done]. split; simpl; [done|done|by repeat constructor|lia|by repeat constructor| |].
  - by intros j [= <-].
  - intros [|t] j; simpl; [done|]. by rewrite lookup_nil.
Qed.

Lemma min_size_pos x sizes : Forall (fun z => 0 < z) (x :: sizes) -> 0 < foldl Z.min x sizes.
Proof.
  intros [Hx Hs]%Forall_cons. revert x Hx. induction Hs as [|y l Hy Hl IH]; intros x Hx; simpl; [done|].
  apply IH. lia.
Qed.

Lemma sum_from (l : list Z) a : 0 <= a -> Forall (fun z => 0 < z) l -> a + total l <= int64_max ->
  foldl add64 a l = a + total l.
Proof.
  intros Ha Hl. revert a Ha. induction Hl as [|y l Hy Hl IH]; intros a Ha Ht; cbn [total foldr foldl] in *; [unfold total; simpl; lia|].
  pose proof (total_nonneg l Hl). unfold total in *. simpl in *.
  rewrite IH; rewrite ?add64_small by (unfold int64_max in *; z64; lia); lia.
Qed.

(** Slice accepts positive sizes that add up to the size of the buffer. *)
Lemma Slice_ok s sizes :
  Forall (fun z => 0 < z) sizes -> sizes <> [] -> total sizes = bi_size (full_buffer_interval_ s) ->
  bi_size (full_buffer_interval_ s) <= int64_max ->
  exists s', Slice sizes s = OK s' /\ sliced_ok s' /\ full_buffer_interval_ s' = full_buffer_interval_ s /\
    slice_sizes_sorted_by_offset_ s' = sizes /\ mutable_ s' = mutable_ s.
Proof.
  intros Hpos Hne Htot Hmax. destruct sizes as [|x sizes]; [done|]. unfold Slice.
  rewrite sum_from, Z.add_0_l, Htot, Z.eqb_refl by (done || lia). cbn [check mbind outcome_bind].
  eexists. split; [done|]. split; [|done]. set (n := length (x :: sizes)).
  assert (Hlook : forall (f : nat -> BufferInterval) t i, (f <$> seq 0 n) !! t = Some i <-> (t < n)%nat /\ i = f t).
  { intros f t i. rewrite list_lookup_fmap. split.
    - intros (k & [Hk Hlt]%lookup_seq & ->)%fmap_Some. simpl in Hk. by subst.
    - intros [Hlt ->]. by rewrite lookup_seq_lt. }
  assert (Hfull : 0 < bi_size (full_buffer_interval_ s)) by (rewrite <- Htot; by apply total_pos).
  split; cbn [slice_sizes_sorted_by_offset_ make_free_chunks_intervals_ full_buffer_interval_].
  - done.
  - by rewrite length_fmap, length_seq.
  - done.
  - done.
  - apply Forall_lookup. intros t i [Hlt ->]%Hlook. case_bool_decide; simpl; [done|]. by apply min_size_pos.
  - intros i Hi. rewrite last_lookup in Hi. apply Hlook in Hi as [Hlt ->]. rewrite length_fmap, length_seq.
    rewrite bool_decide_eq_true_2; [done|]. unfold n. simpl. lia.
  - intros t i [Hlt ->]%Hlook Ht. rewrite length_fmap, length_seq in Ht. by rewrite bool_decide_eq_false_2 by lia.
Qed.

Lemma Zlen_lookup {A} (l : list A) (t : Z) : 0 <= t < Zlen l -> exists x, l !! Z.to_nat t = Some x /\ at_ l t = OK x.
Proof.
  intros Ht. destruct (at_in_range l t Ht) as [x Hx]. exists x. split; [|done]. by apply at_OK, idx_Some in Hx as [_ ?].
Qed.

Lemma set_at_ok {A} (l : list A) (t : Z) x : 0 <= t < Zlen l -> set_at l t x = OK (<[Z.to_nat t := x]> l).
Proof. intros Ht. by apply set_at_OK. Qed.

(** The interval of a slice time after the start times are set. *)
Definition timed (times : list Z) (full : BufferInterval) (t : nat) (i : BufferInterval) : BufferInterval :=
  set_bi_end (match times !! S t with Some next => sub64 next 1 | None => bi_end full end)
    (set_bi_start (times !!! t) i).

Lemma update_slice_times_ok times full intervals :
  Zlen times = Zlen intervals ->
  exists intervals', foldM (update_slice_time (Zlen intervals) full times) intervals (seqZ 0 (Zlen intervals)) = OK intervals' /\
    length intervals' = length intervals /\
    forall t i, intervals !! t = Some i -> intervals' !! t = Some (timed times full t i).
Proof.
  intros Hlen. destruct (foldM_total (fun done cur => length cur = length intervals /\
      forall t i, intervals !! t = Some i -> cur !! t = Some (if decide (t < length done)%nat then timed times full t i else i))
    (update_slice_time (Zlen intervals) full times) (seqZ 0 (Zlen intervals)) intervals) as (cur & HF & Hl & Hc).
  - split; [done|]. intros t i Hi. by rewrite decide_False by (simpl; lia).
  - intros l1 a l2 cur Hs [Hl Hc].
    assert (Ha : a = Z.of_nat (length l1) /\ 0 <= a < Zlen intervals).
    { assert (Hin : seqZ 0 (Zlen intervals) !! length l1 = Some a) by (rewrite Hs; by apply list_lookup_middle).
      apply lookup_seqZ in Hin. lia. }
    destruct Ha as [Ea Ha]. unfold update_slice_time.
    destruct (Zlen_lookup times a ltac:(lia)) as (t0 & Ht0 & ->). cbn [mbind outcome_bind].
    assert (Hcl : Zlen cur = Zlen intervals) by (unfold Zlen; lia).
    destruct (Zlen_lookup cur a ltac:(lia)) as (i0 & Hi0 & ->). cbn [mbind outcome_bind].
    set (e := match times !! S (Z.to_nat a) with Some next => sub64 next 1 | None => bi_end full end).
    assert (He : (if negb (a =? Zlen intervals - 1)
                  then next ← at_ times (a + 1); OK (ExclusiveToInclusiveEndTime next) else OK (bi_end full)) = OK e).
    { unfold e. destruct (Z.eqb_spec a (Zlen intervals - 1)) as [->|Hne]; cbn [negb].
      - rewrite lookup_ge_None_2; [done|]. unfold Zlen in *. lia.
      - destruct (Zlen_lookup times (a + 1) ltac:(lia)) as (t1 & Ht1 & ->). cbn [mbind outcome_bind].
        replace (Z.to_nat (a + 1)) with (S (Z.to_nat a)) in Ht1 by lia. by rewrite Ht1. }
    rewrite He. cbn [mbind outcome_bind]. rewrite set_at_ok by lia. eexists. split; [done|].
    split; [by rewrite length_insert|]. intros t i Hi. rewrite length_app. simpl.
    destruct (decide (t = Z.to_nat a)) as [->|Hne].
    + rewrite list_lookup_insert_eq, decide_True by (unfold Zlen in *; lia). f_equal. unfold timed. fold e.
      rewrite (list_lookup_total_correct _ _ _ Ht0). specialize (Hc _ _ Hi). rewrite Hi0 in Hc.
      rewrite decide_False in Hc by lia. by injection Hc as <-.
    + rewrite list_lookup_insert_ne by done. rewrite (Hc t i Hi). f_equal.
      destruct (decide (t < length l1)%nat); [by rewrite decide_True by lia|by rewrite decide_False by lia].
  - exists cur. split; [done|]. split; [done|]. intros t i Hi. rewrite (Hc t i Hi), decide_True; [done|].
    apply lookup_lt_Some in Hi. rewrite length_seqZ. unfold Zlen. lia.
Qed.

(** The slices then start at the given times, each ends where the next one starts, and
    the last with the buffer. *)
Lemma UpdateInclusiveSliceStartTimes_ok s times :
  sliced_ok s -> mutable_ s = true -> Zlen times = num_slices s ->
  exists s', UpdateInclusiveSliceStartTimes times s = OK s' /\ sliced_ok s' /\ inclusive_start_times s' = times /\
    full_buffer_interval_ s' = set_bi_start (times !!! 0%nat) (full_buffer_interval_ s) /\
    slice_sizes_sorted_by_offset_ s' = slice_sizes_sorted_by_offset_ s /\
    forall t i, make_free_chunks_intervals_ s !! t = Some i ->
      make_free_chunks_intervals_ s' !! t = Some (timed times (set_bi_start (times !!! 0%nat) (full_buffer_interval_ s)) t i).
Proof.
  intros [Hne Hlen Hpos Htot Hsz Hlast Hoth] Hmut Hn. unfold UpdateInclusiveSliceStartTimes.
  rewrite Hmut, (proj2 (Z.eqb_eq _ _) Hn). cbn [check mbind outcome_bind].
  assert (Hni : num_slices s = Zlen (make_free_chunks_intervals_ s)) by (unfold num_slices, Zlen; lia).
  assert (H1 : 0 < num_slices s) by (unfold num_slices, Zlen; destruct (slice_sizes_sorted_by_offset_ s); [done|simpl; lia]).
  destruct (Zlen_lookup times 0 ltac:(lia)) as (t0 & Ht0 & ->). cbn [mbind outcome_bind].
  rewrite (list_lookup_total_correct _ _ _ Ht0). rewrite Hni. rewrite Hni in Hn.
  destruct (update_slice_times_ok times (set_bi_start t0 (full_buffer_interval_ s)) _ Hn) as (ivs' & -> & Hl' & Hc').
  cbn [mbind outcome_bind]. eexists. split; [done|].
  assert (Hback : forall t i', ivs' !! t = Some i' -> exists i, make_free_chunks_intervals_ s !! t = Some i /\
    i' = timed times (set_bi_start t0 (full_buffer_interval_ s)) t i).
  { intros t i' Hi'. destruct (lookup_lt_is_Some_2 (make_free_chunks_intervals_ s) t) as [i Hi].
    { apply lookup_lt_Some in Hi'. lia. }
    exists i. split; [done|]. rewrite (Hc' t i Hi) in Hi'. congruence. }
  split; [|split; [|by split]].
  - split; cbn [slice_sizes_sorted_by_offset_ make_free_chunks_intervals_ full_buffer_interval_]; [done|lia|done|done| | |].
    + apply Forall_lookup. intros t i' (i & Hi & ->)%Hback. exact (proj1 (Forall_lookup _ _) Hsz t i Hi).
    + intros i' Hi'. rewrite last_lookup, Hl' in Hi'. apply Hback in Hi' as (i & Hi & ->).
      rewrite <- last_lookup in Hi. exact (Hlast i Hi).
    + intros t i' (i & Hi & ->)%Hback Ht. rewrite Hl' in Ht. exact (Hoth t i Hi Ht).
  - apply list_eq. intros t. unfold inclusive_start_times. cbn [make_free_chunks_intervals_]. rewrite list_lookup_fmap.
    destruct (ivs' !! t) as [i'|] eqn:Ei.
    + destruct (Hback t i' Ei) as (i & Hi & ->). simpl. apply lookup_lt_Some in Hi.
      destruct (lookup_lt_is_Some_2 times t) as [x Hx]; [unfold Zlen in *; lia|].
      by rewrite Hx, (list_lookup_total_correct _ _ _ Hx).
    + simpl. symmetry. apply lookup_ge_None. apply lookup_ge_None in Ei. unfold Zlen in *. lia.
Qed.

Lemma UpdateEndTime_ok s e :
  sliced_ok s -> mutable_ s = true ->
  exists s', UpdateEndTime e s = OK s' /\ sliced_ok s' /\ inclusive_start_times s' = inclusive_start_times s /\
    full_buffer_interval_ s' = set_bi_end e (full_buffer_interval_ s) /\
    exists i, last (make_free_chunks_intervals_ s) = Some i /\ last (make_free_chunks_intervals_ s') = Some (set_bi_end e i).
Proof.
  intros [Hne Hlen Hpos Htot Hsz Hlast Hoth] Hmut. unfold UpdateEndTime. rewrite Hmut. cbn [check mbind outcome_bind].
  destruct s as [full mut sizes ivs]. cbn [slice_sizes_sorted_by_offset_ make_free_chunks_intervals_ full_buffer_interval_ mutable_] in *.
  destruct ivs as [|i l _] using rev_ind.
  { destruct sizes; [done|simpl in Hlen; lia]. }
  assert (E : Zlen (l ++ [i]) - 1 = Z.of_nat (length l)) by (rewrite Zlen_app; unfold Zlen; simpl; lia). rewrite E.
  assert (Hat : at_ (l ++ [i]) (Z.of_nat (length l)) = OK i) by (rewrite at_OK, idx_of_nat; by apply list_lookup_middle).
  rewrite Hat. cbn [mbind outcome_bind]. rewrite set_at_ok by (rewrite Zlen_app; unfold Zlen; simpl; lia). cbn [mbind outcome_bind].
  rewrite Nat2Z.id, insert_app_r_alt, Nat.sub_diag by lia. cbn [insert list_insert]. eexists. split; [done|].
  assert (HL : last (l ++ [i]) = Some i) by apply last_snoc. destruct (Hlast i HL) as [Hcol Hsi].
  apply Forall_app in Hsz as [Hszl [Hszi _]%Forall_cons]. split.
  - split; cbn [slice_sizes_sorted_by_offset_ make_free_chunks_intervals_ full_buffer_interval_]; [done| |done|done| | |].
    + rewrite length_app in *. simpl in *. lia.
    + apply Forall_app. split; [done|]. by constructor.
    + intros j. rewrite last_snoc. by intros [= <-].
    + intros t j Hj Ht. rewrite length_app in Ht. simpl in Ht. apply (Hoth t j); [|rewrite length_app; simpl; lia].
      apply lookup_app_Some in Hj as [Hj|[Hle Hj]]; [by apply lookup_app_l_Some|].
      apply lookup_lt_Some in Hj. simpl in Hj. lia.
  - split; [unfold inclusive_start_times; simpl; by rewrite !fmap_app|]. split; [done|]. exists i. cbn [make_free_chunks_intervals_]. split; apply last_snoc.
Qed.

(** ** From the used chunks to the free ones *)

Lemma cut_free_ok al sz mx limit us free : cut_ok al sz mx limit us free -> free_ok free.
Proof.
  intros [Hs Hb _ _ _ _ _]. split; [|done]. clear - Hs Hb. induction Hs as [|a free Hs IH HF]; [constructor|].
  apply Forall_cons in Hb as [Ha Hb]. constructor; [by apply IH|]. rewrite Forall_forall in Hb, HF |- *.
  intros b Hin. specialize (Hb b Hin). specialize (HF b Hin). lia.
Qed.

Lemma real_chunk_elem fcs c :
  free_ok fcs -> c ∈ real_chunks fcs <->
    exists a, a ∈ fcs /\ a.1 < a.2 /\ offset c = a.1 /\ offset c + size c = a.2.
Proof.
  intros [_ Hb]. rewrite Forall_forall in Hb. unfold real_chunks. rewrite list_elem_of_fmap. split.
  - intros (a & -> & [Hlt Ha]%list_elem_of_filter). exists a. specialize (Hb a Ha).
    destruct (free_chunk_ok a.1 a.2) as (-> & -> & _); [lia|lia|]. split; [done|]. lia.
  - intros (a & Ha & Hlt & E1 & E2). exists a. rewrite list_elem_of_filter. split; [|done]. specialize (Hb a Ha).
    destruct (free_chunk_ok a.1 a.2) as (F1 & F2 & _); [lia|lia|]. destruct c as [o s], (FromOffsetEnd a.1 a.2) as [o' s']. cbn [offset size] in *. f_equal; lia.
Qed.

(** Nothing that is blocked during the interval lies in the range. *)
Definition unblocked (m : store) (ivs : list interval) (i : BufferInterval) (lo hi : Z) : Prop :=
  forall u, blocked m ivs i u -> hi <= offset u \/ offset u + size u <= lo.

(** The free chunks of an interval. *)
Definition free_of (h : BestFitHeap) (ivs : list interval) (limit mx : Z) (i : BufferInterval) (free : FreeChunks) : Prop :=
  exists us, cut_ok (heap_alignment_ h) (bi_size i) mx limit us free /\
    forall u, u ∈ us <-> blocked (buffer_intervals_ h) ivs i u.

Lemma free_chunk_unblocked h ivs limit mx i free c lo hi :
  free_of h ivs limit mx i free -> c ∈ real_chunks free -> offset c <= lo -> hi <= offset c + size c ->
  unblocked (buffer_intervals_ h) ivs i lo hi.
Proof.
  intros (us & Hok & Hus) Hc Hlo Hhi u Hu%Hus. apply real_chunk_elem in Hc as (a & Ha & _ & E1 & E2); [|by eapply cut_free_ok].
  pose proof (proj1 (Forall_forall _ _) (co_free _ _ _ _ _ _ Hok) a Ha) as HF.
  pose proof (proj1 (Forall_forall _ _) HF u Hu). simpl in *. lia.
Qed.

Lemma free_points_unblocked h ivs limit mx i free lo hi :
  free_of h ivs limit mx i free -> Forall (fun u => 0 < size u) (iv_chunk <$> ivs) -> lo < hi ->
  (forall x, lo <= x < hi -> free_at free x) -> unblocked (buffer_intervals_ h) ivs i lo hi.
Proof.
  intros (us & Hok & Hus) Hpos Hlt Hfree u Hu. pose proof Hu as (v & Hv & <- & _).
  pose proof (proj1 (Forall_forall _ _) Hpos _ (list_elem_of_fmap_2 iv_chunk _ _ Hv)) as Hsu. simpl in Hsu.
  destruct (decide (hi <= offset (iv_chunk v) \/ offset (iv_chunk v) + size (iv_chunk v) <= lo)) as [|Hno]; [done|exfalso].
  destruct (proj1 (Exists_exists _ _) (Hfree (Z.max lo (offset (iv_chunk v))) ltac:(lia))) as (a & Ha & Hx).
  pose proof (proj1 (Forall_forall _ _) (co_free _ _ _ _ _ _ Hok) a Ha) as HF.
  pose proof (proj1 (Forall_forall _ _) HF _ (proj2 (Hus _) Hu)). simpl in *. lia.
Qed.

(** A place that is not blocked lies in a free chunk, if it is large enough for the
    buffer and all that share with it. *)
Lemma unblocked_free_chunk h ivs limit mx i free o :
  free_of h ivs limit mx i free -> bi_size i <= mx -> 0 < mx -> 0 <= o -> o mod heap_alignment_ h = 0 ->
  o + mx <= int64_max -> unblocked (buffer_intervals_ h) ivs i o (o + mx) ->
  exists c, c ∈ real_chunks free /\ offset c <= o /\ o + mx <= offset c + size c.
Proof.
  intros (us & Hok & Hus) Hsz Hmx Ho Ha Hm Hun.
  destruct (proj1 (Exists_exists _ _) (co_complete _ _ _ _ _ _ Hok Hsz Hmx o Ho Ha Hm
    (proj2 (Forall_forall _ _) (fun u Hu => Hun u (proj1 (Hus u) Hu))))) as (a & Hin & H1 & H2).
  exists (mkChunk a.1 (a.2 - a.1)). simpl. split; [|lia]. apply real_chunk_elem; [by eapply cut_free_ok|].
  exists a. simpl. split; [done|]. lia.
Qed.

(** The last of the free chunks goes to the end of the memory; every other one ends
    where a used chunk starts. *)
Lemma free_chunk_end h ivs limit mx i free c :
  free_of h ivs limit mx i free -> c ∈ real_chunks free ->
  (offset c <= limit /\ offset c + size c = int64_max) \/
  exists u, u ∈ iv_chunk <$> ivs /\ offset c + size c = offset u.
Proof.
  intros (us & Hok & Hus) Hc. pose proof (cut_free_ok _ _ _ _ _ _ Hok) as Hfo.
  apply real_chunk_elem in Hc as (a & Ha & Hlt & E1 & E2); [|done].
  destruct (co_tail _ _ _ _ _ _ Hok) as (a0 & rest & -> & Ha0).
  apply elem_of_cons in Ha as [->|Ha]; [left; simpl in *; lia|].
  pose proof (proj1 (Forall_forall _ _) (co_ends _ _ _ _ _ _ Hok) a (list_elem_of_further _ _ _ Ha)) as [He|(u & Eu & Hu)%list_elem_of_fmap].
  - destruct (free_ok_cons _ _ Hfo) as (_ & Hb & HF). pose proof (proj1 (Forall_forall _ _) HF a Ha). simpl in *. lia.
  - right. exists u. apply Hus in Hu as (v & Hv & <- & _). split; [by apply list_elem_of_fmap_2|lia].
Qed.

(** ** FindChunkCandidates *)

(** What the tree and the store of a heap hold: the chunks of [ivs], below [limit]. *)
Record heap_ready (h : BestFitHeap) (ivs : list interval) (now limit : Z) : Prop := {
  hr_alignment : 0 < heap_alignment_ h;
  hr_tree : repr (interval_tree_ h) ivs;
  hr_store : store_ok (buffer_intervals_ h) now;
  hr_use : Forall (in_use (heap_alignment_ h) limit) (iv_chunk <$> ivs);
  hr_limit : 0 <= limit;
}.

Definition closed (m : store) (i : BufferInterval) : Prop := forall c, c ∈ bi_colocations i -> is_Some (m !! c).

Section Candidates.
Context `{HashOrder} (h : BestFitHeap) (ivs : list interval) (now limit : Z).
Context (Hready : heap_ready h ivs now limit).
#[local] Abbreviation al := (heap_alignment_ h).
#[local] Abbreviation m := (buffer_intervals_ h).

Lemma max_colocated_ok f i :
  closed m i -> exists x, max_colocated f i h = OK x /\ f i <= x /\
    (forall c j, below m i c -> m !! c = Some j -> f j <= x) /\
    (x = f i \/ exists c j, below m i c /\ m !! c = Some j /\ x = f j).
Proof.
  intros Hi. pose proof (hr_store _ _ _ _ Hready) as Hst.
  destruct (GetTransitiveColocations_ok h i now Hst Hi) as (l & Hl & _ & Hin).
  unfold max_colocated. rewrite Hl. cbn [mbind outcome_bind].
  destruct (foldM_total (fun done x => f i <= x /\ (forall c j, c ∈ done -> m !! c = Some j -> f j <= x) /\
      (x = f i \/ exists c j, below m i c /\ m !! c = Some j /\ x = f j))
    (fun x c => j ← interval_at m c; OK (Z.max x (f j))) l (f i)) as (x & HF & H1 & H2 & H3).
  - split; [lia|]. split; [by intros c j ?%not_elem_of_nil|by left].
  - intros l1 c l2 x Hs (H1 & H2 & H3).
    assert (Hc : below m i c) by (apply Hin; rewrite Hs; apply elem_of_app; right; left).
    destruct (below_lookup _ _ Hst i c Hi Hc) as [j Hj]. rewrite (interval_at_Some _ _ _ Hj). cbn [mbind outcome_bind].
    exists (Z.max x (f j)). split; [done|]. split; [lia|]. split.
    + intros d k [Hd| ->%list_elem_of_singleton]%elem_of_app Hk; [specialize (H2 d k Hd Hk); lia|]. simplify_eq. lia.
    + destruct (Z.max_spec x (f j)) as [[_ ->]|[_ ->]]; [right; eauto|done].
  - exists x. split; [done|]. split; [done|]. split; [|done]. intros c j Hc Hj. by apply (H2 c); [apply Hin|].
Qed.

(** The free chunks of every slice time. *)
Lemma slice_free_chunks s mx :
  sliced_ok s -> closed m (full_buffer_interval_ s) -> 0 <= mx -> limit + mx <= int64_max ->
  (num_slices s = 1 \/ (2 <= al /\ Forall (fun u => offset u mod al = 0) (iv_chunk <$> ivs))) ->
  exists F F1, F !! Z.to_nat (num_slices s - 1) = Some F1 /\ Zlen F = num_slices s /\
    (forall i, last (make_free_chunks_intervals_ s) = Some i -> free_of h ivs limit mx i F1) /\
    (forall t i, make_free_chunks_intervals_ s !! t = Some i ->
      exists free mx', F !! t = Some free /\ free_of h ivs limit mx' i free) /\
    forall It (Hit : SliceTimePermutationIterator It) preferred (it : It) allowed,
      CreateSlicedAllocationFinder s mx preferred it allowed h =
      new_SlicedAllocationFinder F (slice_sizes_sorted_by_offset_ s) mx preferred al it allowed.
Proof.
  intros [Hne Hlen Hpos Htot Hsz Hlast Hoth] Hcl Hmx Hlim Hsp. destruct Hready as [Hal Htree Hst Huse Hl0].
  set (n := num_slices s) in *. assert (Hn : n = Zlen (make_free_chunks_intervals_ s)) by (unfold n, num_slices, Zlen; lia).
  assert (Hn1 : 0 < n) by (unfold n, num_slices, Zlen; destruct (slice_sizes_sorted_by_offset_ s); [done|simpl; lia]).
  assert (Hat : forall t, 0 <= t < n -> exists i, make_free_chunks_intervals_ s !! Z.to_nat t = Some i /\
    IntervalForMakeFreeChunks t s = OK i).
  { intros t Ht. unfold IntervalForMakeFreeChunks. fold n. rewrite (proj2 (Z.ltb_lt t n)) by lia.
    cbn [check mbind outcome_bind]. apply Zlen_lookup. lia. }
  rewrite Forall_lookup in Hsz.
  assert (Hmk : forall t, 0 <= t < n - 1 -> exists free, (i ← IntervalForMakeFreeChunks t s; MakeFreeChunks i (-1) h) = OK free /\
    forall i, make_free_chunks_intervals_ s !! Z.to_nat t = Some i -> free_of h ivs limit (-1) i free).
  { intros t Ht. destruct (Hat t ltac:(lia)) as (i & Hi & ->). cbn [mbind outcome_bind].
    destruct (MakeFreeChunks_ok h ivs now limit (-1) Hal ltac:(lia) Hl0 Htree Hst Huse) with (i := i) as (free & us & HM & Hok & Hus).
    - destruct Hsp as [?|[Hal2 Ho]]; [lia|]. by apply spare_aligned.
    - by apply (Hsz (Z.to_nat t)).
    - intros c Hc. rewrite (Hoth _ i Hi) in Hc; [by apply not_elem_of_nil in Hc|]. unfold Zlen in *. lia.
    - exists free. split; [done|]. intros i' Hi'. assert (i' = i) as -> by congruence. by exists us. }
  destruct (mapM_exists (fun t => i ← IntervalForMakeFreeChunks t s; MakeFreeChunks i (-1) h) (seqZ 0 (n - 1))) as (fs & Hfs).
  { intros t Ht%elem_of_seqZ. destruct (Hmk t ltac:(lia)) as (free & ? & _). by exists free. }
  replace (n - 1) with (Z.of_nat (Z.to_nat (n - 1))) in Hfs by lia. pose proof Hfs as [Hfl Hfk]%mapM_seqZ_OK.
  rewrite Z2Nat.id in Hfs by lia. destruct (Hat (n - 1) ltac:(lia)) as (il & Hil & Eil).
  assert (Hlast' : last (make_free_chunks_intervals_ s) = Some il).
  { rewrite last_lookup. replace (Nat.pred _) with (Z.to_nat (n - 1)) by (unfold Zlen in *; lia). done. }
  destruct (Hlast il Hlast') as [Ecol Esz].
  destruct (MakeFreeChunks_ok h ivs now limit mx Hal ltac:(lia) Hl0 Htree Hst Huse) with (i := il) as (free & us & HM & Hok & Hus).
  { by apply spare_nonneg. } { by apply (Hsz (Z.to_nat (n - 1))). } { intros c Hc. rewrite Ecol in Hc. by apply Hcl. }
  exists (fs ++ [free]), free.
  assert (Hmid : (fs ++ [free]) !! Z.to_nat (n - 1) = Some free) by (rewrite <- Hfl; by apply list_lookup_middle).
  split; [done|]. split; [rewrite Zlen_app; unfold Zlen; simpl; lia|].
  split; [intros i Hi; rewrite Hlast' in Hi; injection Hi as <-; by exists us|]. split.
  - intros t i Hi. pose proof (lookup_lt_Some _ _ _ Hi) as Hlt. destruct (decide (Z.of_nat t = n - 1)) as [Et|Hnt].
    + exists free, mx. replace t with (Z.to_nat (n - 1)) in * by lia. split; [done|]. assert (i = il) as -> by congruence. by exists us.
    + assert (Ht : 0 <= Z.of_nat t < n - 1) by (unfold Zlen in *; lia).
      destruct (lookup_lt_is_Some_2 fs t ltac:(lia)) as [ft Hft]. exists ft, (-1). rewrite lookup_app_l by lia. split; [done|].
      destruct (Hmk _ Ht) as (ft' & Hft' & Hfo). rewrite (Hfk t ft Hft) in Hft'. injection Hft' as <-. apply Hfo. by rewrite Nat2Z.id.
  - intros It ? preferred it allowed. unfold CreateSlicedAllocationFinder. fold n. rewrite Hfs. cbn [mbind outcome_bind].
    rewrite Eil. cbn [mbind outcome_bind]. rewrite HM. done.
Qed.


(** The slices of the buffer lie one behind the other from [o] on; the slice that gets
    the [j]-th place is allocated at slice time [p !! j]. *)
Definition slices_at (s : SlicedBufferInterval) (p : list Z) (o : Z) (chunks : list Chunk) : Prop :=
  Zlen chunks = num_slices s /\
  forall j z t, slice_sizes_sorted_by_offset_ s !! j = Some z -> p !! j = Some t ->
    chunks !! Z.to_nat t = Some (mkChunk (o + total (take j (slice_sizes_sorted_by_offset_ s))) z).

(** Every slice is unblocked from its slice time on, and at the last slice time there
    is space for all colocated buffers. *)
Definition slices_unblocked (s : SlicedBufferInterval) (p : list Z) (o mx : Z) : Prop :=
  (forall i, last (make_free_chunks_intervals_ s) = Some i -> unblocked m ivs i o (o + mx)) /\
  forall j z t t' i, slice_sizes_sorted_by_offset_ s !! j = Some z -> p !! j = Some t -> t <= t' ->
    make_free_chunks_intervals_ s !! Z.to_nat t' = Some i ->
    unblocked m ivs i (o + total (take j (slice_sizes_sorted_by_offset_ s)))
      (o + total (take j (slice_sizes_sorted_by_offset_ s)) + z).

Lemma F_input s mx F :
  sliced_ok s -> bi_size (full_buffer_interval_ s) <= mx -> limit + al + mx <= int64_max -> Zlen F = num_slices s ->
  (forall t i, make_free_chunks_intervals_ s !! t = Some i ->
      exists free mx', F !! t = Some free /\ free_of h ivs limit mx' i free) ->
  finder_input F (slice_sizes_sorted_by_offset_ s) (inclusive_start_times s) mx al /\ free_tail F mx al limit.
Proof.
  intros [Hne Hlen Hpos Htot _ _ _] Hmx Hlim HlF HF. destruct Hready as [Hal _ _ _ Hl0].
  assert (Hfs : forall t free, F !! t = Some free -> free_ok free /\ exists a, head free = Some (a, int64_max) /\ 0 <= a <= limit).
  { intros t free Hf. pose proof (lookup_lt_Some _ _ _ Hf).
    destruct (lookup_lt_is_Some_2 (make_free_chunks_intervals_ s) t) as [i Hi]; [unfold num_slices, Zlen in *; lia|].
    destruct (HF t i Hi) as (free' & mx' & Hf' & us & Hok & _). assert (free' = free) as -> by congruence.
    split; [by eapply cut_free_ok|]. destruct (co_tail _ _ _ _ _ _ Hok) as (a & rest & -> & Ha). exists a. split; [done|].
    pose proof (co_bounds _ _ _ _ _ _ Hok) as [Hb _]%Forall_cons. simpl in Hb. lia. }
  split.
  - split; [split; [|apply Forall_lookup; intros t free Hf; by apply (Hfs t)]| | |done|lia|].
    + intros ->. unfold num_slices, Zlen in HlF. simpl in HlF. destruct (slice_sizes_sorted_by_offset_ s); [done|simpl in HlF; lia].
    + symmetry. exact HlF.
    + unfold inclusive_start_times, num_slices, Zlen in *. rewrite length_fmap. lia.
    + rewrite Htot. unfold int64_max in *. lia.
  - split; [|lia]. apply Forall_lookup. intros t free Hf. by apply (Hfs t).
Qed.

(** The finder that is created, and what it finds. *)
Record found (s : SlicedBufferInterval) (mx preferred : Z) (f : SlicedAllocationFinder PermutationIterator)
    (F : list FreeChunks) (F1 : FreeChunks) (ps : list (list Z)) (c : Chunk) (o : Z) (p : list Z) (chunks : list Chunk) : Prop := {
  fd_sizes : sorted_slice_sizes_ f = slice_sizes_sorted_by_offset_ s;
  fd_max : max_colocation_size_ f = mx;
  fd_alignment : alignment_ f = al;
  fd_allowed : is_offset_allowed_ f = AllOffsetsAllowed;
  fd_length : Zlen F = num_slices s;
  fd_last : F !! Z.to_nat (num_slices s - 1) = Some F1;
  fd_last_free i : last (make_free_chunks_intervals_ s) = Some i -> free_of h ivs limit mx i F1;
  fd_free t i : make_free_chunks_intervals_ s !! t = Some i ->
    exists free mx', F !! t = Some free /\ free_of h ivs limit mx' i free;
  fd_perms : Forall (fun p => p ≡ₚ seqZ 0 (num_slices s)) ps;
  fd_perm : p ∈ ps;
  fd_place : can_place f F c o p;
  fd_placement : placement f o p chunks;
  fd_chunks : FindChunkCandidates s preferred h = OK (take (length chunks - 1) chunks);
  fd_best : o = preferred \/ forall c' o' p', p' ∈ ps -> can_place f F c' o' p' -> chunk_le c c' /\ (c' = c -> o <= o');
}.

Lemma candidates_found s mx preferred :
  sliced_ok s -> closed m (full_buffer_interval_ s) ->
  GetMaxColocationSize (full_buffer_interval_ s) h = OK mx ->
  limit + al + mx <= int64_max -> preferred + mx + al <= int64_max ->
  (num_slices s = 1 \/ (2 <= al /\ Forall (fun u => offset u mod al = 0) (iv_chunk <$> ivs))) ->
  exists f F F1 ps c o p chunks, found s mx preferred f F F1 ps c o p chunks.
Proof.
  intros Hs Hcl Hmx Hlim Hpref Hsp. pose proof Hready as [Hal _ _ Huse Hl0].
  destruct (max_colocated_ok bi_size _ Hcl) as (mx0 & Emx & Hle & _). unfold GetMaxColocationSize in Hmx.
  assert (mx0 = mx) as -> by congruence. pose proof Hs as [Hne Hlen Hpos Htot Hsz _ _].
  pose proof (total_pos _ Hne Hpos) as Htp.
  destruct (slice_free_chunks s mx Hs Hcl ltac:(lia) ltac:(lia) Hsp) as (F & F1 & HF1 & HlF & Hlast & HF & HC).
  destruct (F_input s mx F Hs Hle Hlim HlF HF) as [Hin Htail]. rewrite Htot in Htp.
  assert (Emax : Z.max mx (total (slice_sizes_sorted_by_offset_ s)) = mx) by lia.
  destruct (Find_result (slice_time_permutation_iteration_type_ h) (inclusive_start_times s) F
    (slice_sizes_sorted_by_offset_ s) mx preferred al limit Hin) as (it & ps & f & chunks & c & o & p & Hit & He & Hnew & HFi & Hp & Hcp & Hpl & Hbest);
    [by rewrite Emax|by rewrite Emax|].
  destruct (new_finder_fields (slice_time_permutation_iteration_type_ h) (inclusive_start_times s) F
    (slice_sizes_sorted_by_offset_ s) mx preferred al AllOffsetsAllowed Hin)
    as (it' & ps' & f' & g & F1' & Hit' & Hrep & Hperm & _ & Hnew' & _ & Es & Em & _ & Ea & Eall & _ & _ & _).
  assert (it' = it) as -> by congruence. assert (f' = f) as -> by congruence.
  assert (ps' = ps) as -> by (apply repeats_enumerate in Hrep; congruence).
  exists f, F, F1, ps, c, o, p, chunks. rewrite HlF in Hperm. split; [done|by rewrite Em|done..| |].
  - destruct Hpl as (Hcl' & _ & _). rewrite Es in Hcl'.
    unfold FindChunkCandidates, GetMaxColocationSize. rewrite Emx. cbn [mbind outcome_bind]. rewrite Hit. cbn [mbind outcome_bind].
    rewrite HC, Hnew. cbn [mbind outcome_bind]. rewrite HFi. cbn [mbind outcome_bind].
    unfold PostProcessFindChunkCandidatesResult. destruct chunks as [|c0 chunks]; [done|].
    rewrite (proj2 (Z.eqb_eq _ _)); [done|]. unfold num_slices, Zlen. rewrite Hcl'. lia.
  - destruct Hbest as [|[_ Hbest]]; [by left|by right].
Qed.

Lemma found_unblocked s mx preferred f F F1 ps c o p chunks :
  sliced_ok s -> found s mx preferred f F F1 ps c o p chunks ->
  p ≡ₚ seqZ 0 (num_slices s) /\ slices_at s p o (take (length chunks - 1) chunks) /\ slices_unblocked s p o mx /\ o mod al = 0.
Proof.
  intros [Hne Hlen Hpos Htot Hsz _ _] [Es Em Ea _ HlF HF1 Hlast HF Hperm Hp Hcp (Hcl & Hch & _) _ _].
  pose proof (proj1 (Forall_forall _ _) Hperm p Hp) as Hpp. cbn beta in Hpp. pose proof (hr_use _ _ _ _ Hready) as Huse.
  destruct Hcp as ((F1' & HF1' & Hc) & Ho1 & Ho2 & Ho3 & _ & Hsl). rewrite HlF in HF1'. assert (F1' = F1) as -> by congruence.
  rewrite Es, ?Em, ?Ea, ?HlF in *. split; [done|]. split; [split|split; [split|done]].
  - unfold num_slices, Zlen. rewrite length_take. lia.
  - intros j z t Hz Ht. rewrite lookup_take_lt; [by apply Hch|].
    apply list_elem_of_lookup_2 in Ht. rewrite Hpp in Ht. apply elem_of_seqZ in Ht. unfold num_slices, Zlen in *. lia.
  - intros i Hi. apply (free_chunk_unblocked h ivs limit mx i F1 c); [by apply Hlast|done..].
  - intros j z t t' i Hz Ht Htt Hi. destruct (HF _ i Hi) as (free & mx' & Hf & Hfo).
    pose proof (lookup_lt_Some _ _ _ Hi) as Hlt. pose proof (proj1 (Forall_lookup _ _) Hpos j z Hz) as Hzp. cbn beta in Hzp.
    apply (free_points_unblocked h ivs limit mx' i free); [done| |lia|].
    + eapply Forall_impl; [exact Huse|]. intros u ((_ & ? & _) & _). done.
    + intros x Hx. apply (Hsl j z t x Hz Ht Hx t' free); [|done]. unfold num_slices, Zlen in *. lia.
Qed.

Lemma FindChunkCandidates_ok s mx preferred :
  sliced_ok s -> closed m (full_buffer_interval_ s) ->
  GetMaxColocationSize (full_buffer_interval_ s) h = OK mx ->
  limit + al + mx <= int64_max -> preferred + mx + al <= int64_max ->
  (num_slices s = 1 \/ (2 <= al /\ Forall (fun u => offset u mod al = 0) (iv_chunk <$> ivs))) ->
  exists o p chunks, FindChunkCandidates s preferred h = OK chunks /\
    p ≡ₚ seqZ 0 (num_slices s) /\ slices_at s p o chunks /\ slices_unblocked s p o mx /\ o mod al = 0.
Proof.
  intros Hs Hcl Hmx Hlim Hpref Hsp.
  destruct (candidates_found s mx preferred Hs Hcl Hmx Hlim Hpref Hsp) as (f & F & F1 & ps & c & o & p & chunks & Hf).
  exists o, p, (take (length chunks - 1) chunks). split; [by apply (fd_chunks _ _ _ _ _ _ _ _ _ _ _ Hf)|].
  by apply (found_unblocked _ _ _ _ _ _ _ _ _ _ _ Hs Hf).
Qed.

(** ** FindChunkCandidate *)

Lemma desc_cases cs c d : desc cs -> c ∈ cs -> d ∈ cs ->
  c = d \/ offset d + size d <= offset c \/ offset c + size c <= offset d.
Proof.
  induction 1 as [|x cs Hs IH HF]; [by intros ?%not_elem_of_nil|]. rewrite Forall_forall in HF.
  intros [->|Hc]%elem_of_cons [->|Hd]%elem_of_cons; [by left|right; left; by apply HF|right; right; by apply HF|by apply IH].
Qed.

(** A buffer as a whole. *)
Section Single.
Context (i : BufferInterval) (s : SlicedBufferInterval) (mx preferred : Z) (f : SlicedAllocationFinder PermutationIterator).
Context (F : list FreeChunks) (F1 : FreeChunks) (ps : list (list Z)) (c : Chunk) (o : Z) (p : list Z) (chunks : list Chunk).
Context (Hi : 0 < bi_size i) (Hmxi : bi_size i <= mx) (Hs : sliced_ok s) (Hfull : full_buffer_interval_ s = i).
Context (Hsizes : slice_sizes_sorted_by_offset_ s = [bi_size i]) (Hivs : make_free_chunks_intervals_ s = [i]).
Context (Hf : found s mx preferred f F F1 ps c o p chunks) (Hlim : limit + al + mx <= int64_max).

Lemma single_F : F = [F1] /\ free_of h ivs limit mx i F1 /\ p = [0].
Proof.
  destruct Hf as [Es Em Ea _ HlF HF1 Hlast HF Hperm Hp _ _ _ _].
  unfold num_slices, Zlen in *. rewrite Hsizes in *. cbn [length] in *.
  destruct F as [|F0 [|? ?]]; [done| |simpl in HlF; lia]. injection HF1 as ->. split; [done|].
  split; [apply Hlast; by rewrite Hivs|]. pose proof (proj1 (Forall_forall _ _) Hperm p Hp) as Hpp. cbn beta in Hpp.
  by apply Permutation_singleton_r in Hpp.
Qed.

Lemma single_chunk : c ∈ real_chunks F1 /\ 0 <= offset c <= o /\ o + mx <= offset c + size c.
Proof.
  destruct single_F as (EF & (us & Hok & _) & _). destruct Hf as [_ Em _ _ _ _ _ _ _ _ ((F1' & HF1 & Hc) & H1 & H2 & _) _ _ _].
  rewrite EF in HF1. injection HF1 as <-. split; [done|]. rewrite Em in H2. split; [|done].
  pose proof Hc as (a & Ha & _ & E1 & E2)%real_chunk_elem; [|by eapply cut_free_ok].
  pose proof (proj1 (Forall_forall _ _) (co_bounds _ _ _ _ _ _ Hok) a Ha). simpl in *. lia.
Qed.

Lemma single_can_place c' o' :
  c' ∈ real_chunks F1 -> offset c' <= o' -> o' + mx <= offset c' + size c' -> o' mod al = 0 ->
  can_place f F c' o' [0].
Proof.
  intros Hc' H1 H2 H3. destruct single_F as (EF & (us & Hok & _) & _). destruct Hf as [Es Em Ea Eall _ _ _ _ _ _ _ _ _ _].
  unfold can_place. rewrite Es, Em, Ea, Eall, EF, Hsizes. split; [by exists F1|]. do 4 (split; [done|]).
  intros [|j] z t x; [|by destruct j]. intros [= <-] [= <-] Hx t' fcs Ht' Hfc. cbn [take total foldr] in Hx.
  unfold Zlen in Ht'. cbn [length] in Ht'. replace t' with 0 in Hfc by lia. injection Hfc as <-.
  destruct (real_chunks_spec F1 (cut_free_ok _ _ _ _ _ _ Hok)) as (_ & _ & Hfree). apply Hfree, Exists_exists.
  exists c'. split; [done|]. unfold inside. lia.
Qed.

Lemma single_best c' o' :
  preferred < 0 -> c' ∈ real_chunks F1 -> offset c' <= o' -> o' + mx <= offset c' + size c' -> o' mod al = 0 ->
  chunk_le c c' /\ (c' = c -> o <= o').
Proof.
  intros Hpref Hc' H1 H2 H3. destruct single_chunk as (_ & Ho & _).
  destruct (fd_best _ _ _ _ _ _ _ _ _ _ _ Hf) as [->|Hbest]; [lia|]. apply (Hbest c' o' [0]); [|by apply single_can_place].
  destruct single_F as (_ & _ & <-). apply Hf.
Qed.

Lemma single_below : preferred < 0 -> o < limit + al.
Proof.
  intros Hpref. destruct single_chunk as (Hc & Ho1 & Ho2). destruct single_F as (_ & Hfo & _). pose proof Hready as [Hal _ _ Huse _].
  destruct (free_chunk_end h ivs limit mx i F1 c Hfo Hc) as [[Hcl Hce]|(u & Hu & Hce)].
  - destruct (round_up_spec al (offset c) Hal) as (Hr & Hr1 & _).
    destruct (single_best c (round_up al (offset c)) Hpref Hc ltac:(lia) ltac:(lia) Hr) as [_ Hle]. specialize (Hle eq_refl). lia.
  - destruct (proj1 (Forall_forall _ _) Huse u Hu) as ((_ & ? & _) & Hr & _).
    destruct (round_up_spec al (offset u + size u) Hal) as (_ & ? & _). lia.
Qed.

(** The memory behind a place below [top] is left alone. *)
Lemma single_top top o' :
  preferred < 0 -> 2 * limit < int64_max -> Forall (fun u => offset u <= top) (iv_chunk <$> ivs) -> 0 <= o' ->
  o' mod al = 0 -> o' + mx <= top -> o' + mx <= int64_max -> unblocked m ivs i o' (o' + mx) -> o + mx <= top.
Proof.
  intros Hpref Hl2 Htop Ho' Ha Hot Hom Hun. destruct single_chunk as (Hc & Ho1 & Ho2). destruct single_F as (_ & Hfo & _).
  pose proof Hready as [Hal _ _ Huse _]. rewrite Forall_forall in Htop, Huse.
  assert (Hul : forall u, u ∈ iv_chunk <$> ivs -> offset u <= limit).
  { intros u Hu. destruct (Huse u Hu) as ((_ & ? & _) & Hr & _).
    destruct (round_up_spec al (offset u + size u) Hal) as (_ & ? & _). lia. }
  destruct (unblocked_free_chunk h ivs limit mx i F1 o' Hfo Hmxi ltac:(lia) Ho' Ha Hom Hun) as (c' & Hc' & H1 & H2).
  destruct (single_best c' o' Hpref Hc' H1 H2 Ha) as [Hle Heq].
  destruct (free_chunk_end h ivs limit mx i F1 c Hfo Hc) as [[Hcl Hce]|(u & Hu & Hce)]; [|specialize (Htop u Hu); lia].
  destruct (free_chunk_end h ivs limit mx i F1 c' Hfo Hc') as [[Hcl' Hce']|(u & Hu & Hce')].
  - pose proof Hfo as (us & Hok & _). destruct (real_chunks_spec F1 (cut_free_ok _ _ _ _ _ _ Hok)) as (_ & Hd & _).
    destruct (desc_cases _ c c' Hd Hc Hc') as [->|?]; [specialize (Heq eq_refl); lia|lia].
  - specialize (Hul u Hu). destruct Hfo as (us & Hok & _).
    apply real_chunk_elem in Hc' as (a & Hin & _ & E1 & _); [|by eapply cut_free_ok].
    pose proof (proj1 (Forall_forall _ _) (co_bounds _ _ _ _ _ _ Hok) a Hin). unfold chunk_le, pair_le in Hle. simpl in *. lia.
Qed.

End Single.

(** One chunk, in which all that share with the buffer have space, at the preferred
    offset or at the best fit.  A place below [top] is found when there is one. *)
Lemma FindChunkCandidate_ok i mx preferred :
  0 < bi_size i -> closed m i -> GetMaxColocationSize i h = OK mx ->
  limit + al + mx <= int64_max -> preferred + mx + al <= int64_max ->
  exists o, FindChunkCandidate i preferred h = OK (mkChunk o (bi_size i)) /\
    0 <= o /\ o mod al = 0 /\ unblocked m ivs i o (o + mx) /\
    (preferred < 0 -> o < limit + al) /\
    (preferred < 0 -> 2 * limit < int64_max -> forall top o',
      Forall (fun u => offset u <= top) (iv_chunk <$> ivs) -> 0 <= o' -> o' mod al = 0 -> o' + mx <= top ->
      o' + mx <= int64_max -> unblocked m ivs i o' (o' + mx) -> o + mx <= top).
Proof.
  intros Hi Hcl Hmx Hlim Hpref. destruct (CreateInterval_ok i false Hi) as (s & HS & Hs & Hfull & Hsizes & Hivs).
  rewrite <- Hfull in Hcl, Hmx.
  destruct (candidates_found s mx preferred Hs Hcl Hmx Hlim Hpref) as (f & F & F1 & ps & c & o & p & chunks & Hf).
  { left. unfold num_slices. by rewrite Hsizes. }
  rewrite Hfull in Hcl, Hmx. destruct (max_colocated_ok bi_size _ Hcl) as (mx0 & Emx & Hle & _).
  unfold GetMaxColocationSize in Hmx. assert (mx0 = mx) as -> by congruence.
  destruct (found_unblocked _ _ _ _ _ _ _ _ _ _ _ Hs Hf) as (_ & [Hn Hat] & [Hun _] & Ho).
  destruct (single_F _ _ _ _ _ _ _ _ _ _ _ _ Hsizes Hivs Hf) as (_ & _ & ->).
  destruct (single_chunk _ _ _ _ _ _ _ _ _ _ _ _ Hsizes Hivs Hf) as (_ & Hob & _).
  exists o. split; [|split; [lia|split; [done|split; [|split]]]].
  - unfold FindChunkCandidate, CreateConstInterval. rewrite HS. cbn [mbind outcome_bind].
    rewrite (fd_chunks _ _ _ _ _ _ _ _ _ _ _ Hf). cbn [mbind outcome_bind].
    rewrite Hn. unfold num_slices. rewrite Hsizes. cbn [check mbind outcome_bind].
    specialize (Hat 0%nat (bi_size i) 0). rewrite Hsizes in Hat. specialize (Hat eq_refl eq_refl).
    unfold at_, idx. simpl in *. rewrite Hat. f_equal. f_equal. lia.
  - apply Hun. by rewrite Hivs.
  - by apply (single_below i s mx preferred f F F1 ps c o [0] chunks).
  - intros Hp Hl2 top o'. by apply (single_top i s mx preferred f F F1 ps c o [0] chunks).
Qed.

End Candidates.
