(* ===== verification/BestFitCommit.v ===== *)
(** * Committing chunks, and the order in which buffers are placed. *)

From stdpp Require Import gmap sorting.
From S2P Require Import Prelude MachineInt MathUtil IntervalTree IntervalTreeInv IntervalTreeOps IntervalTreeTheorems.
From S2P Require Import SlicePermutation AllocationFinder FinderPieces BestFitHeap BestFitColocations BestFitChunks.
From S2P Require Import BestFitPlace.

(** ** Committing chunks

    CommitChunk gives a chunk to a buffer and to those that share with it.  [placed] is
    the invariant of Finish: the roots placed so far, their offsets, and what the tree,
    the map and the size of the heap then are. *)

#[global] Instance BufferInterval_inhabited : Inhabited BufferInterval := populate (mkBuffer 0 0 0 0 [] false).

(** The chunk of a buffer whose group is placed at [o], and its interval in the tree. *)
Definition chunk_of (m : store) (o : Z) (b : buffer_id) : Chunk := mkChunk o (bi_size (m !!! b)).
Definition interval_of (m : store) (o : Z) (b : buffer_id) : interval :=
  mkInterval (bi_start (m !!! b)) (bi_end (m !!! b)) (chunk_of m o b).

(** Two heaps before and after buffers are placed. *)
Record same_but_placed (h h' : BestFitHeap) : Prop := {
  sb_intervals : buffer_intervals_ h' = buffer_intervals_ h;
  sb_compare : buffer_interval_compare_ h' = buffer_interval_compare_ h;
  sb_alignment : heap_alignment_ h' = heap_alignment_ h;
  sb_time : current_time_ h' = current_time_ h;
  sb_type : slice_time_permutation_iteration_type_ h' = slice_time_permutation_iteration_type_ h;
}.

#[global] Instance same_but_placed_po : PreOrder same_but_placed.
Proof. split; [by split|]. intros h1 h2 h3 [] []. split; congruence. Qed.

(** Buffers are placed at [o]: those of [B] in the tree, those of [K] in the map. *)
Record committed (h h' : BestFitHeap) (ivs : list interval) (o : Z) (B K : list buffer_id) : Prop := {
  cm_same : same_but_placed h h';
  cm_tree : repr (interval_tree_ h') ((interval_of (buffer_intervals_ h) o <$> B) ++ ivs);
  cm_size : heap_size (result_ h') = Z.max (heap_size (result_ h)) (max_end (chunk_of (buffer_intervals_ h) o <$> B));
  cm_in b : b ∈ K -> chunk_map (result_ h) !! b = None ->
    chunk_map (result_ h') !! b = Some (chunk_of (buffer_intervals_ h) o b);
  cm_out b : b ∉ K -> chunk_map (result_ h') !! b = chunk_map (result_ h) !! b;
}.

Lemma max_end_app l1 l2 : max_end (l1 ++ l2) = Z.max (max_end l1) (max_end l2).
Proof. pose proof (max_end_nonneg l2). induction l1 as [|c l1 IH]; simpl; lia. Qed.

Lemma emplace_lookup {A} (k : Z) (a : A) (m : gmap Z A) :
  (m !! k = None -> emplace k a m !! k = Some a) /\ forall k', k' <> k -> emplace k a m !! k' = m !! k'.
Proof.
  unfold emplace. split.
  - intros ->. by rewrite lookup_insert_eq.
  - intros k' Hne. destruct (m !! k); [done|]. by rewrite lookup_insert_ne.
Qed.

Section Commit.
Context `{HashOrder}.

(** The three steps: into the tree, into the map, and what they add up to. *)
Lemma commit_tree_ok h ivs o b i :
  repr (interval_tree_ h) ivs -> buffer_intervals_ h !! b = Some i -> 0 <= heap_size (result_ h) ->
  exists h', add_to_tree i (mkChunk o (bi_size i)) (update_heap_size (mkChunk o (bi_size i)) h) = OK h' /\
    committed h h' ivs o [b] [].
Proof.
  intros HR Hi H0. unfold add_to_tree. cbn [update_heap_size set_result interval_tree_].
  destruct (Add_repr _ ivs (bi_start i) (bi_end i) (mkChunk o (bi_size i)) HR) as (t & -> & HR').
  cbn [mbind outcome_bind]. eexists. split; [done|].
  assert (Ei : buffer_intervals_ h !!! b = i) by (by apply lookup_total_correct).
  split; cbn [set_result set_tree update_heap_size interval_tree_ result_ chunk_map heap_size]; [by split| | |by intros b' ?%not_elem_of_nil|done].
  - cbn [fmap list_fmap app]. unfold interval_of, chunk_of. rewrite Ei. exact HR'.
  - cbn [fmap list_fmap max_end foldr]. unfold UpdatedHeapSize, chunk_of. rewrite Ei. lia.
Qed.

Lemma commit_map_ok h ivs o b i :
  repr (interval_tree_ h) ivs -> buffer_intervals_ h !! b = Some i -> 0 <= heap_size (result_ h) ->
  committed h (AddToChunkMap b (mkChunk o (bi_size i)) h) ivs o [] [b].
Proof.
  intros HR Hi H0. assert (Ei : buffer_intervals_ h !!! b = i) by (by apply lookup_total_correct).
  destruct (emplace_lookup b (mkChunk o (bi_size i)) (chunk_map (result_ h))) as [E1 E2].
  split; cbn [AddToChunkMap set_result interval_tree_ result_ chunk_map heap_size]; [by split|done|simpl; lia| |].
  - intros b' ->%list_elem_of_singleton Hn. unfold chunk_of. rewrite Ei. by apply E1.
  - intros b' Hb'. apply E2. intros ->. apply Hb'. left.
Qed.

Lemma committed_nil h ivs o : repr (interval_tree_ h) ivs -> 0 <= heap_size (result_ h) -> committed h h ivs o [] [].
Proof. intros HR H0. split; [done|done|simpl; lia| |done]. by intros b ?%not_elem_of_nil. Qed.

Lemma committed_app h1 h2 h3 ivs o B1 B2 K1 K2 :
  committed h1 h2 ivs o B1 K1 -> committed h2 h3 ((interval_of (buffer_intervals_ h1) o <$> B1) ++ ivs) o B2 K2 ->
  (forall b, b ∈ K1 -> b ∉ K2) -> committed h1 h3 ivs o (B2 ++ B1) (K2 ++ K1).
Proof.
  intros [Hs1 Ht1 Hz1 Hi1 Ho1] [Hs2 Ht2 Hz2 Hi2 Ho2] Hd. pose proof (sb_intervals _ _ Hs1) as E. rewrite E in *. split.
  - by transitivity h2.
  - by rewrite fmap_app, <- app_assoc.
  - rewrite Hz2, Hz1, fmap_app, max_end_app. lia.
  - intros b Hb Hn. destruct (decide (b ∈ K1)) as [H1|H1].
    + rewrite Ho2 by by apply Hd. by apply Hi1.
    + apply elem_of_app in Hb as [Hb|]; [|done]. apply Hi2; [done|]. by rewrite Ho1.
  - intros b [Hb2 Hb1]%not_elem_of_app. rewrite Ho2, Ho1; done.
Qed.

Lemma commit_colocation_ok h ivs c b i :
  repr (interval_tree_ h) ivs -> buffer_intervals_ h !! b = Some i -> 0 <= heap_size (result_ h) ->
  exists h', commit_colocation c h b = OK h' /\ committed h h' ivs (offset c) [b] [b].
Proof.
  intros HR Hi H0. unfold commit_colocation. rewrite (interval_at_Some _ _ _ Hi). cbn [mbind outcome_bind].
  destruct (commit_tree_ok h ivs (offset c) b i HR Hi H0) as (h1 & E1 & Hc1). unfold FromOffsetSize. rewrite E1.
  cbn [mbind outcome_bind]. eexists. split; [done|].
  apply (committed_app _ _ _ _ _ [b] [] [] [b] Hc1); [|by intros b' ?%not_elem_of_nil].
  apply commit_map_ok; [apply Hc1|by rewrite (sb_intervals _ _ (cm_same _ _ _ _ _ _ Hc1))|].
  rewrite (cm_size _ _ _ _ _ _ Hc1). lia.
Qed.

Lemma commit_colocations_ok l h ivs c :
  repr (interval_tree_ h) ivs -> 0 <= heap_size (result_ h) -> NoDup l ->
  (forall b, b ∈ l -> is_Some (buffer_intervals_ h !! b)) ->
  exists h', foldM (commit_colocation c) h l = OK h' /\ committed h h' ivs (offset c) (rev l) (rev l).
Proof.
  revert h ivs. induction l as [|b l IH]; intros h ivs HR H0 Hnd Hl.
  { exists h. split; [done|]. by apply committed_nil. }
  apply NoDup_cons in Hnd as [Hb Hnd]. destruct (Hl b) as [i Hi]; [left|].
  destruct (commit_colocation_ok h ivs c b i HR Hi H0) as (h1 & H1 & Hcm1).
  pose proof (sb_intervals _ _ (cm_same _ _ _ _ _ _ Hcm1)) as E1.
  destruct (IH h1 ((interval_of (buffer_intervals_ h) (offset c) <$> [b]) ++ ivs)) as (h' & HF & Hcm).
  - apply Hcm1.
  - rewrite (cm_size _ _ _ _ _ _ Hcm1). lia.
  - done.
  - intros b' Hb'. rewrite E1. apply Hl. by right.
  - exists h'. cbn [foldM]. rewrite H1. split; [exact HF|]. cbn [rev]. eapply committed_app; [exact Hcm1|exact Hcm|].
    intros b' ->%list_elem_of_singleton. by rewrite <- Permutation_rev.
Qed.

(** CommitChunk: the buffer [r] of the interval and those below it. *)
Lemma CommitChunk_ok h ivs now o r i :
  store_ok (buffer_intervals_ h) now -> repr (interval_tree_ h) ivs -> 0 <= heap_size (result_ h) ->
  buffer_intervals_ h !! r = Some i -> is_root (buffer_intervals_ h) r ->
  exists h' B K, CommitChunk i (mkChunk o (bi_size i)) h = OK h' /\ committed h h' ivs o B K /\
    (forall b, b ∈ B <-> rtc (shares (buffer_intervals_ h)) r b) /\
    (forall b, b ∈ K <-> rtc (shares (buffer_intervals_ h)) r b).
Proof.
  intros Hst HR H0 Hi Hroot. unfold CommitChunk. cbn [size]. rewrite Z.eqb_refl. cbn [check mbind outcome_bind].
  destruct (GetTransitiveColocations_stored h r i now Hst Hi) as (l & Hl & Hnd & Hin).
  assert (Hr : r ∉ l).
  { intros Hx%Hin. by apply (tc_not_root _ now Hst r r Hx). }
  assert (Hlook : forall b, b ∈ l -> is_Some (buffer_intervals_ h !! b)).
  { intros b Hb%Hin%tc_rtc. destruct (rtc_shares_lookup _ now Hst r b i Hb Hi) as [j ?]. by exists j. }
  destruct (commit_tree_ok h ivs o r i HR Hi H0) as (h1 & -> & Hc1). cbn [mbind outcome_bind].
  pose proof (sb_intervals _ _ (cm_same _ _ _ _ _ _ Hc1)) as E1.
  assert (Hl1 : GetTransitiveColocations i h1 = OK l) by (unfold GetTransitiveColocations in *; by rewrite E1).
  rewrite Hl1. cbn [mbind outcome_bind]. pose proof (cm_size _ _ _ _ _ _ Hc1) as Hz1.
  destruct (commit_colocations_ok l h1 _ (mkChunk o (bi_size i)) (cm_tree _ _ _ _ _ _ Hc1)) as (h2 & -> & Hc2);
    [lia|done|by rewrite E1|]. cbn [mbind outcome_bind]. pose proof (cm_size _ _ _ _ _ _ Hc2) as Hz2.
  pose proof (committed_app _ _ _ _ _ _ _ _ _ Hc1 Hc2 ltac:(by intros b ?%not_elem_of_nil)) as Hc12.
  pose proof (sb_intervals _ _ (cm_same _ _ _ _ _ _ Hc12)) as E2.
  assert (Hc3 : committed h (AddToChunkMap (bi_buffer i) (mkChunk o (bi_size i)) h2) ivs o ([] ++ rev l ++ [r]) ([r] ++ rev l ++ [])).
  { eapply committed_app; [exact Hc12| |].
    - rewrite (so_key _ _ Hst r i Hi). apply commit_map_ok; [apply Hc12|by rewrite E2|lia].
    - intros b Hb ->%list_elem_of_singleton. by rewrite app_nil_r, <- Permutation_rev in Hb. }
  assert (Hiff : forall b, b = r \/ b ∈ l <-> rtc (shares (buffer_intervals_ h)) r b).
  { intros b. rewrite Hin, rtc_tc. naive_solver. }
  eexists _, _, _. split; [done|]. split; [exact Hc3|].
  split; intros b; rewrite <- Hiff, ?app_nil_r; cbn [app]; rewrite ?elem_of_cons, ?elem_of_app, <- Permutation_rev; set_solver.
Qed.

End Commit.

(** ** The order in which buffers are placed

    GetSortedBufferIntervals returns every interval once, in the order of the
    comparison: by descending size, or by descending time that the buffer and those
    colocated with it live, and ties by the id, so that the result does not depend
    on the order of the hash table. *)

(** ** Insertion sort with a comparison that may fail *)

Section Sort.
Context {A : Type} (less : A -> A -> outcome bool) (lt : A -> A -> bool).

Lemma insertM_ok x l :
  (forall y, y ∈ l -> less y x = OK (lt y x)) -> exists l', insertM less x l = OK l' /\ l' ≡ₚ x :: l.
Proof.
  induction l as [|y l IH]; intros Hl; cbn [insertM]; [by eexists|].
  rewrite Hl by left. cbn [mbind outcome_bind]. destruct (lt y x); [|by eexists].
  destruct IH as (l' & -> & Hp); [intros z Hz; apply Hl; by right|]. cbn [mbind outcome_bind].
  eexists. split; [done|]. rewrite Hp. constructor.
Qed.

Lemma sortM_ok l :
  (forall x y, x ∈ l -> y ∈ l -> less x y = OK (lt x y)) -> exists l', sortM less l = OK l' /\ l' ≡ₚ l.
Proof.
  induction l as [|x l IH]; intros Hl; cbn [sortM]; [by eexists|].
  destruct IH as (l1 & -> & Hp); [intros y z Hy Hz; apply Hl; by right|]. cbn [mbind outcome_bind].
  destruct (insertM_ok x l1) as (l2 & -> & Hp2).
  - intros y Hy. apply Hl; [right|left]. by rewrite <- Hp.
  - eexists. split; [done|]. by rewrite Hp2, Hp.
Qed.

(** Sorted, when the comparison is a total order. *)
Context (Hasym : forall x y, lt x y = true -> lt y x = false).
Context (Htrans : forall x y z, lt y x = false -> lt z y = false -> lt z x = false).

#[local] Abbreviation ordered := (StronglySorted (fun x y => lt y x = false)).

Lemma insertM_sorted x l l' :
  (forall y, y ∈ l -> less y x = OK (lt y x)) -> ordered l -> insertM less x l = OK l' -> ordered l'.
Proof.
  intros Hl Hs. revert l'. induction Hs as [|y l Hs IH HF]; intros l'; cbn [insertM].
  { intros [= <-]. by repeat constructor. }
  rewrite Hl by left. cbn [mbind outcome_bind]. destruct (lt y x) eqn:E.
  - destruct (insertM_ok x l) as (l1 & E1 & Hp); [intros z Hz; apply Hl; by right|]. rewrite E1. intros [= <-].
    constructor; [apply IH; [intros z Hz; apply Hl; by right|done]|]. rewrite Hp. constructor; [by apply Hasym|done].
  - intros [= <-]. constructor; [by constructor|]. constructor; [done|].
    eapply Forall_impl; [exact HF|]. intros z Hz. by apply (Htrans x y z).
Qed.

Lemma sortM_sorted l l' :
  (forall x y, x ∈ l -> y ∈ l -> less x y = OK (lt x y)) -> sortM less l = OK l' -> ordered l'.
Proof.
  revert l'. induction l as [|x l IH]; intros l' Hl; cbn [sortM]; [intros [= <-]; constructor|].
  destruct (sortM_ok l) as (l1 & E1 & Hp); [intros y z Hy Hz; apply Hl; by right|]. rewrite E1. cbn [mbind outcome_bind].
  apply insertM_sorted; [|apply IH; [intros y z Hy Hz; apply Hl; by right|done]].
  intros y Hy. apply Hl; [right|left]. by rewrite <- Hp.
Qed.

End Sort.

(** ** The keys *)

Definition key_le (k l : Z * Z * Z) : Prop := key_lt l k = false.

Lemma key_lt_spec k l : key_lt k l = true <->
  k.1.1 < l.1.1 \/ (k.1.1 = l.1.1 /\ (k.1.2 < l.1.2 \/ (k.1.2 = l.1.2 /\ k.2 < l.2))).
Proof.
  destruct k as [[a1 b1] c1], l as [[a2 b2] c2]. cbn [key_lt fst snd].
  rewrite orb_true_iff, andb_true_iff, orb_true_iff, andb_true_iff, !Z.ltb_lt, !Z.eqb_eq. done.
Qed.

Lemma key_lt_false k l : key_lt k l = false <-> ~ (key_lt k l = true).
Proof. by rewrite not_true_iff_false. Qed.

Section Intervals.
Context `{HashOrder} (h : BestFitHeap) (ivs : list interval) (now limit : Z) (Hready : heap_ready h ivs now limit).
#[local] Abbreviation m := (buffer_intervals_ h).

(** The comparison as a function: custom comparisons are the caller's. *)
Definition latest_end (x : BufferInterval) : Z :=
  match max_colocated bi_end x h with OK e => e | _ => 0 end.

Definition sort_key (x : BufferInterval) : Z * Z * Z :=
  match buffer_interval_compare_ h with
  | GetTemporalBufferIntervalCompare => (sub64 (bi_start x) (latest_end x), i64 (- bi_size x), bi_buffer x)
  | _ => SpatialKey x
  end.

Definition lt_interval (x y : BufferInterval) : bool :=
  match buffer_interval_compare_ h with
  | CustomBufferIntervalCompare lt => lt x y
  | _ => key_lt (sort_key x) (sort_key y)
  end.

Lemma interval_less_ok x y : closed m x -> closed m y -> interval_less h x y = OK (lt_interval x y).
Proof.
  intros Hx Hy. unfold interval_less, lt_interval, sort_key. destruct (buffer_interval_compare_ h); [done| |done].
  unfold TemporalKey, latest_end. destruct (max_colocated_ok h ivs now limit Hready bi_end x Hx) as (ex & -> & _).
  destruct (max_colocated_ok h ivs now limit Hready bi_end y Hy) as (ey & -> & _). done.
Qed.

Lemma entries_ok : entries m ≡ₚ (map_to_list m).*2.
Proof.
  unfold entries. rewrite iterate_Permutation.
  assert (E : forall l, (forall b j, (b, j) ∈ l -> m !! b = Some j) -> omap (fun b => m !! b) l.*1 = l.*2).
  { induction l as [|[b j] l IH]; intros Hl; [done|]. cbn [omap list_omap fmap list_fmap fst snd].
    rewrite (Hl b j) by left. f_equal. apply IH. intros b' j' Hin. apply Hl. by right. }
  rewrite E; [done|]. intros b j. by rewrite elem_of_map_to_list.
Qed.

Lemma entries_elem i : i ∈ entries m <-> m !! bi_buffer i = Some i.
Proof.
  rewrite entries_ok, list_elem_of_fmap. split.
  - intros ([b j] & -> & Hin%elem_of_map_to_list). cbn [snd]. by rewrite (so_key _ _ (hr_store _ _ _ _ Hready) b j Hin).
  - intros Hi. exists (bi_buffer i, i). split; [done|]. by apply elem_of_map_to_list.
Qed.

Lemma entries_NoDup : NoDup (bi_buffer <$> entries m).
Proof.
  rewrite entries_ok, <- list_fmap_compose. pose proof (NoDup_fst_map_to_list m) as Hnd.
  replace (bi_buffer ∘ snd <$> map_to_list m) with ((map_to_list m).*1); [done|].
  apply list_fmap_ext. intros k [b j] Hk%list_elem_of_lookup_2%elem_of_map_to_list. simpl.
  by rewrite (so_key _ _ (hr_store _ _ _ _ Hready) b j Hk).
Qed.

Lemma entries_length : length (entries m) = base.size m.
Proof. rewrite entries_ok, length_fmap. apply length_map_to_list. Qed.

Lemma entry_closed i : i ∈ entries m -> closed m i.
Proof.
  intros Hi%entries_elem c Hc. destruct (so_child _ _ (hr_store _ _ _ _ Hready) _ i c Hi Hc) as (j & ? & _). by exists j.
Qed.

(** All intervals, each once, and sorted. *)
Lemma GetSortedBufferIntervals_ok :
  exists l, GetSortedBufferIntervals h = OK l /\ l ≡ₚ entries m /\
    match buffer_interval_compare_ h with
    | CustomBufferIntervalCompare _ => True
    | _ => StronglySorted key_le (sort_key <$> l)
    end.
Proof.
  unfold GetSortedBufferIntervals.
  assert (Hless : forall x y, x ∈ entries m -> y ∈ entries m -> interval_less h x y = OK (lt_interval x y)).
  { intros x y Hx Hy. by apply interval_less_ok; apply entry_closed. }
  destruct (sortM_ok (interval_less h) lt_interval _ Hless) as (l & Hl & Hp). exists l. split; [done|]. split; [done|].
  assert (Hsorted : (forall x y, lt_interval x y = key_lt (sort_key x) (sort_key y)) -> StronglySorted key_le (sort_key <$> l)).
  { intros Hlt. assert (Hs : StronglySorted (fun x y => lt_interval y x = false) l).
    { apply (sortM_sorted (interval_less h) lt_interval) with (l := entries m); [..|done|done].
      - intros x y. rewrite !Hlt, key_lt_false, !key_lt_spec. lia.
      - intros x y z. rewrite !Hlt, !key_lt_false, !key_lt_spec. lia. }
    clear Hl Hp. induction Hs as [|x l Hs IH HF]; [constructor|]. cbn [fmap list_fmap]. constructor; [done|].
    apply Forall_fmap. eapply Forall_impl; [exact HF|]. intros y Hy. unfold key_le. simpl. by rewrite <- Hlt. }
  unfold lt_interval in Hsorted. destruct (buffer_interval_compare_ h); [by apply Hsorted|by apply Hsorted|done].
Qed.

End Intervals.
