(* ===== verification/BestFitFinish.v ===== *)
(** * Finish

    The invariant of the loop of Finish, one step of it, and the loop: every buffer is
    placed, no two that live at the same time overlap unless they share, and the heap
    grows only when nothing fits below its end. *)

From stdpp Require Import gmap sorting.
From S2P Require Import Prelude MachineInt MathUtil IntervalTree IntervalTreeInv IntervalTreeOps IntervalTreeTheorems.
From S2P Require Import SlicePermutation AllocationFinder FinderPieces BestFitHeap BestFitColocations BestFitChunks.
From S2P Require Import BestFitPlace BestFitCommit.

(** Two buffers live at the same time; the end of an interval belongs to it. *)
Definition meet (i j : BufferInterval) : Prop := bi_start i <= bi_end j /\ bi_start j <= bi_end i.

Definition disjoint (u w : Chunk) : Prop := offset u + size u <= offset w \/ offset w + size w <= offset u.

(** The root of a buffer, as a relation. *)
Definition root_of (m : store) (r b : buffer_id) : Prop := is_root m r /\ rtc (shares m) r b.

(** ** The invariant

    [R] are the roots placed, [off] their offsets, [cm0] is the map before. *)
Record placed (cm0 : gmap buffer_id Chunk) (now limit : Z) (R : list buffer_id) (off : Z -> Z)
    (h : BestFitHeap) (ivs : list interval) : Prop := {
  pl_ready : heap_ready h ivs now limit;
  pl_ivs v : v ∈ ivs <-> exists r b, r ∈ R /\ rtc (shares (buffer_intervals_ h)) r b /\
    v = interval_of (buffer_intervals_ h) (off r) b;
  pl_map r b : root_of (buffer_intervals_ h) r b ->
    chunk_map (result_ h) !! b = if decide (r ∈ R) then Some (chunk_of (buffer_intervals_ h) (off r) b) else None;
  pl_map0 b : buffer_intervals_ h !! b = None -> chunk_map (result_ h) !! b = cm0 !! b;
  pl_roots r : r ∈ R -> is_root (buffer_intervals_ h) r;
  pl_off r : r ∈ R -> 0 <= off r /\ off r mod heap_alignment_ h = 0;
  pl_disjoint r r' b b' i i' : r ∈ R -> r' ∈ R -> r <> r' ->
    rtc (shares (buffer_intervals_ h)) r b -> rtc (shares (buffer_intervals_ h)) r' b' ->
    buffer_intervals_ h !! b = Some i -> buffer_intervals_ h !! b' = Some i' -> meet i i' ->
    disjoint (chunk_of (buffer_intervals_ h) (off r) b) (chunk_of (buffer_intervals_ h) (off r') b');
  pl_size : heap_size (result_ h) = max_end (iv_chunk <$> ivs);
}.

Lemma placed_empty cm0 now h :
  0 < heap_alignment_ h -> repr (interval_tree_ h) [] -> store_ok (buffer_intervals_ h) now ->
  heap_size (result_ h) = 0 -> chunk_map (result_ h) = cm0 ->
  (forall b, is_Some (buffer_intervals_ h !! b) -> cm0 !! b = None) ->
  placed cm0 now 0 [] (fun _ => 0) h [].
Proof.
  intros Hal Ht Hst Hz Hm Hcm. split; [by split|..].
  - intros v. split; [by intros ?%not_elem_of_nil|by intros (r & b & ?%not_elem_of_nil & _)].
  - intros r b [(i & Hi & _) Hrb]. rewrite decide_False by apply not_elem_of_nil. rewrite Hm. apply Hcm.
    destruct (rtc_shares_lookup _ now Hst r b i Hrb Hi) as [j ?]. by exists j.
  - intros b _. by rewrite Hm.
  - by intros r ?%not_elem_of_nil.
  - by intros r ?%not_elem_of_nil.
  - by intros r r' b b' i i' ?%not_elem_of_nil.
  - done.
Qed.

(** ** One step *)

Section Step.
Context `{HashOrder} (cm0 : gmap buffer_id Chunk) (now limit : Z) (R : list buffer_id) (off : Z -> Z).
Context (h : BestFitHeap) (ivs : list interval) (Hpl : placed cm0 now limit R off h ivs).
#[local] Abbreviation m := (buffer_intervals_ h).
#[local] Abbreviation al := (heap_alignment_ h).
Context (r : buffer_id) (i : BufferInterval) (Hi : m !! r = Some i) (Hroot : is_root m r) (Hnew : r ∉ R).

Lemma stored_closed b j : m !! b = Some j -> closed m j.
Proof.
  intros Hj c Hc. destruct (so_child _ _ (hr_store _ _ _ _ (pl_ready _ _ _ _ _ _ _ Hpl)) b j c Hj Hc) as (k & ? & _). by exists k.
Qed.

Lemma group_below b : rtc (shares m) r b -> b = r \/ below m i b.
Proof using Hi.
  intros Hb. apply rtc_tc in Hb as [<-|Ht]; [by left|right].
  by apply (below_tc _ r).
Qed.

Lemma group_lookup b : rtc (shares m) r b -> exists j, m !! b = Some j /\ m !!! b = j.
Proof.
  intros Hb. destruct (rtc_shares_lookup _ now (hr_store _ _ _ _ (pl_ready _ _ _ _ _ _ _ Hpl)) r b i Hb Hi) as [j Hj].
  exists j. split; [done|]. by apply lookup_total_correct.
Qed.

(** The place found is free of all buffers that live with one of the group. *)
Lemma unblocked_disjoint o mx r' b b' j j' :
  unblocked m ivs i o (o + mx) -> (forall c k, rtc (shares m) r c -> m !! c = Some k -> bi_size k <= mx) ->
  r' ∈ R -> rtc (shares m) r b -> rtc (shares m) r' b' -> m !! b = Some j -> m !! b' = Some j' -> meet j j' ->
  disjoint (chunk_of m o b) (chunk_of m (off r') b').
Proof.
  intros Hun Hmx Hr' Hb Hb' Hj Hj' [H1 H2]. pose proof (Hmx b j Hb Hj) as Hsz.
  assert (Ej : m !!! b = j) by (by apply lookup_total_correct). assert (Ej' : m !!! b' = j') by (by apply lookup_total_correct).
  assert (Hlive : live_in (bi_start j) (bi_end j) (interval_of m (off r') b')).
  { unfold live_in, interval_of. rewrite Ej'. simpl. apply Is_true_true. lia. }
  assert (Hbl : blocked m ivs i (chunk_of m (off r') b')).
  { exists (interval_of m (off r') b'). split; [apply (pl_ivs _ _ _ _ _ _ _ Hpl); by exists r', b'|]. split; [done|].
    destruct (group_below b Hb) as [->|Hbe]; [left|right; by exists b, j]. by assert (i = j) as -> by congruence. }
  apply Hun in Hbl. unfold disjoint, chunk_of in *. rewrite Ej. simpl in *. lia.
Qed.

Definition off_with (o : Z) (r' : Z) : Z := if decide (r' = r) then o else off r'.

Lemma off_with_old o r' : r' ∈ R -> off_with o r' = off r'.
Proof. intros Hr'. unfold off_with. by rewrite decide_False by (intros ->; done). Qed.
Lemma off_with_new o : off_with o r = o.
Proof. unfold off_with. by rewrite decide_True. Qed.

Lemma root_group r' b : root_of m r' b -> rtc (shares m) r b -> r' = r.
Proof.
  intros [Hr' Hb'] Hb. by apply (root_unique m now (hr_store _ _ _ _ (pl_ready _ _ _ _ _ _ _ Hpl)) r' r b).
Qed.

Lemma committed_placed o mx limit' h' B K :
  committed h h' ivs o B K -> (forall b, b ∈ B <-> rtc (shares m) r b) -> (forall b, b ∈ K <-> rtc (shares m) r b) ->
  0 <= o -> o mod al = 0 -> unblocked m ivs i o (o + mx) ->
  (forall b j, rtc (shares m) r b -> m !! b = Some j -> bi_size j <= mx) ->
  limit <= limit' -> o + mx + al <= limit' -> limit' + al <= int64_max ->
  placed cm0 now limit' (r :: R) (off_with o) h' ((interval_of m o <$> B) ++ ivs).
Proof.
  intros Hcm HB HK Ho Hoa Hun Hmx Hll Hol Hlm. pose proof Hpl as [[Hal Ht Hst Huse Hl0] Hivs Hmap Hmap0 Hroots Hoff Hdis Hsz].
  pose proof (cm_same _ _ _ _ _ _ Hcm) as [E _ Ea _ _].
  split; rewrite ?E, ?Ea.
  - split; rewrite ?E, ?Ea; [done|apply Hcm|done| |lia]. rewrite fmap_app. apply Forall_app. split.
    + apply Forall_forall. intros u (v & -> & (b & -> & Hb%HB)%list_elem_of_fmap)%list_elem_of_fmap.
      destruct (group_lookup b Hb) as (j & Hj & Ej). pose proof (Hmx b j Hb Hj). pose proof (so_size _ _ Hst b j Hj).
      simpl. unfold chunk_of. rewrite Ej. unfold in_use, chunk_ok. simpl.
      destruct (round_up_spec al (o + bi_size j) Hal) as (_ & ? & _). lia.
    + eapply Forall_impl; [exact Huse|]. intros u (?&?&?). split; [done|]. lia.
  - intros v. rewrite elem_of_app, Hivs. split.
    + intros [(b & -> & Hb%HB)%list_elem_of_fmap|(r' & b & Hr' & Hb & ->)].
      * exists r, b. rewrite off_with_new. split; [left|done].
      * exists r', b. rewrite off_with_old by done. split; [by right|done].
    + intros (r' & b & [->|Hr']%elem_of_cons & Hb & ->); [left|right].
      * rewrite off_with_new. by apply list_elem_of_fmap_2, HB.
      * exists r', b. by rewrite off_with_old.
  - intros r' b Hrb. destruct (decide (b ∈ K)) as [Hb|Hb].
    + pose proof (root_group r' b Hrb (proj1 (HK b) Hb)) as ->. rewrite decide_True by left. rewrite off_with_new.
      apply (cm_in _ _ _ _ _ _ Hcm); [done|]. rewrite (Hmap r b Hrb). by rewrite decide_False.
    + rewrite (cm_out _ _ _ _ _ _ Hcm b Hb), (Hmap r' b Hrb). destruct (decide (r' = r)) as [->|Hne].
      { destruct Hb. apply HK, Hrb. }
      destruct (decide (r' ∈ R)); [rewrite decide_True, off_with_old by (done || by right); done|].
      rewrite decide_False; [done|]. rewrite elem_of_cons. by intros [|].
  - intros b Hb. rewrite (cm_out _ _ _ _ _ _ Hcm b); [by apply Hmap0|]. intros Hx%HK.
    destruct (group_lookup b Hx) as (j & ? & _). congruence.
  - intros r' [->|Hr']%elem_of_cons; auto.
  - intros r' [->|Hr']%elem_of_cons; [rewrite off_with_new; done|rewrite off_with_old by done; auto].
  - intros r1 r2 b1 b2 i1 i2 [->|H1]%elem_of_cons [->|H2]%elem_of_cons Hne Hb1 Hb2 Hi1 Hi2 Hm; [done|..].
    + rewrite off_with_new, off_with_old by done. by apply (unblocked_disjoint o mx r2 b1 b2 i1 i2).
    + rewrite off_with_new, off_with_old by done. assert (Hm' : meet i2 i1) by (destruct Hm; by split).
      pose proof (unblocked_disjoint o mx r1 b2 b1 i2 i1 Hun Hmx H1 Hb2 Hb1 Hi2 Hi1 Hm') as [?|?]; [by right|by left].
    + rewrite !off_with_old by done. by apply (Hdis r1 r2 b1 b2 i1 i2).
  - rewrite (cm_size _ _ _ _ _ _ Hcm), Hsz, fmap_app, max_end_app, <- list_fmap_compose.
    rewrite Z.max_comm. f_equal.
Qed.

End Step.

Lemma max_end_ge c l : c ∈ l -> chunk_end c <= max_end l.
Proof. induction l as [|d l IH]; [by intros ?%not_elem_of_nil|]. intros [->|Hc]%elem_of_cons; simpl; [|specialize (IH Hc)]; lia. Qed.

Lemma max_end_le l z : 0 <= z -> Forall (fun c => chunk_end c <= z) l -> max_end l <= z.
Proof. intros Hz. induction 1; simpl; lia. Qed.

(** The heap grows only if no place up to its end would do: such a place is blocked by
    a buffer that lives at the same time as one of the group. *)
Definition grows_when_full (h h' : BestFitHeap) (ivs : list interval) (i : BufferInterval) (mx : Z) : Prop :=
  heap_size (result_ h) <= heap_size (result_ h') /\
  (heap_size (result_ h) < heap_size (result_ h') ->
  forall o, 0 <= o -> o mod heap_alignment_ h = 0 -> o + mx <= heap_size (result_ h) ->
    ~ unblocked (buffer_intervals_ h) ivs i o (o + mx)).

Section Place.
Context `{HashOrder} (cm0 : gmap buffer_id Chunk) (now X : Z).

(** All buffers are at most [X] bytes, and [k] of them can be placed. *)
Definition sizes_below (h : BestFitHeap) : Prop := forall b j, buffer_intervals_ h !! b = Some j -> bi_size j <= X.
Definition step_size (h : BestFitHeap) : Z := X + 2 * heap_alignment_ h.

Lemma candidate_ok limit R off h ivs r i :
  placed cm0 now limit R off h ivs -> buffer_intervals_ h !! r = Some i -> sizes_below h ->
  2 * (limit + step_size h) < int64_max ->
  exists mx o, GetMaxColocationSize i h = OK mx /\ bi_size i <= mx <= X /\
    (forall b j, rtc (shares (buffer_intervals_ h)) r b -> buffer_intervals_ h !! b = Some j -> bi_size j <= mx) /\
    FindChunkCandidate i (-1) h = OK (mkChunk o (bi_size i)) /\ 0 <= o < limit + heap_alignment_ h /\
    o mod heap_alignment_ h = 0 /\ unblocked (buffer_intervals_ h) ivs i o (o + mx) /\
    forall o', 0 <= o' -> o' mod heap_alignment_ h = 0 -> o' + mx <= heap_size (result_ h) ->
      unblocked (buffer_intervals_ h) ivs i o' (o' + mx) -> o + mx <= heap_size (result_ h).
Proof.
  intros Hpl Hi HX Hb. unfold step_size in Hb. pose proof (pl_ready _ _ _ _ _ _ _ Hpl) as Hr. pose proof Hr as [Hal Ht Hst Huse Hl0].
  pose proof (so_size _ _ Hst r i Hi) as Hsz. pose proof (HX r i Hi) as HXi.
  assert (Hcl : closed (buffer_intervals_ h) i) by (by eapply stored_closed).
  destruct (max_colocated_ok h ivs now limit Hr bi_size i Hcl) as (mx & Emx & Hle & Hbelow & Hatt).
  assert (HmX : mx <= X) by (destruct Hatt as [->|(c & j & _ & Hj & ->)]; [done|by apply (HX c)]).
  assert (Hgroup : forall b j, rtc (shares (buffer_intervals_ h)) r b -> buffer_intervals_ h !! b = Some j -> bi_size j <= mx).
  { intros b j Hbb Hj. destruct (group_below h r i Hi b Hbb) as [->|Hx]; [|by apply (Hbelow b)]. by assert (j = i) as -> by congruence. }
  destruct (FindChunkCandidate_ok h ivs now limit Hr i mx (-1) Hsz Hcl Emx) as (o & HF & Ho & Hoa & Hun & Hlo & Htop); [lia|lia|].
  specialize (Hlo ltac:(lia)). specialize (Htop ltac:(lia) ltac:(lia) (heap_size (result_ h))).
  exists mx, o. do 4 (split; [done|]). split; [lia|]. split; [done|]. split; [done|]. intros o' Ho' Hoa' Hm' Hun'.
  assert (Hmax : heap_size (result_ h) <= limit).
  { rewrite (pl_size _ _ _ _ _ _ _ Hpl). apply max_end_le; [done|]. eapply Forall_impl; [exact Huse|].
    intros u (Hu & Hru & _). rewrite chunk_end_ok by done. destruct (round_up_spec (heap_alignment_ h) (offset u + size u) Hal) as (_ & ? & _). lia. }
  apply (Htop o'); [|done..|lia|done]. apply Forall_forall. intros u Hu. rewrite (pl_size _ _ _ _ _ _ _ Hpl).
  pose proof (max_end_ge u _ Hu) as Hge. destruct (proj1 (Forall_forall _ _) Huse u Hu) as (Hok & _). rewrite chunk_end_ok in Hge by done.
  destruct Hok as (?&?&?). lia.
Qed.

Lemma commit_ok limit R off h ivs r i mx o :
  placed cm0 now limit R off h ivs -> buffer_intervals_ h !! r = Some i -> is_root (buffer_intervals_ h) r -> r ∉ R ->
  2 * (limit + step_size h) < int64_max -> mx <= X -> 0 <= o < limit + heap_alignment_ h -> o mod heap_alignment_ h = 0 ->
  (forall b j, rtc (shares (buffer_intervals_ h)) r b -> buffer_intervals_ h !! b = Some j -> bi_size j <= mx) ->
  unblocked (buffer_intervals_ h) ivs i o (o + mx) ->
  exists h' ivs', CommitChunk i (mkChunk o (bi_size i)) h = OK h' /\ same_but_placed h h' /\
    placed cm0 now (limit + step_size h) (r :: R) (off_with off r o) h' ivs' /\
    heap_size (result_ h) <= heap_size (result_ h') <= Z.max (heap_size (result_ h)) (o + mx) /\
    0 < heap_size (result_ h').
Proof.
  intros Hpl Hi Hroot Hnew Hb HmX Ho Hoa Hgroup Hun. unfold step_size in *.
  pose proof (pl_ready _ _ _ _ _ _ _ Hpl) as Hr. pose proof Hr as [Hal Ht Hst Huse Hl0].
  assert (H0 : 0 <= heap_size (result_ h)) by (rewrite (pl_size _ _ _ _ _ _ _ Hpl); apply max_end_nonneg).
  pose proof (Hgroup r i (rtc_refl _ _) Hi). pose proof (so_size _ _ Hst r i Hi).
  destruct (CommitChunk_ok h ivs now o r i Hst Ht H0 Hi Hroot) as (h' & B & K & HC & Hcm & HB & HK).
  exists h', ((interval_of (buffer_intervals_ h) o <$> B) ++ ivs). split; [done|]. split; [apply Hcm|]. split.
  - apply (committed_placed cm0 now limit R off h ivs Hpl r i Hi Hroot Hnew o mx) with (K := K); try done; lia.
  - assert (HBc : forall b, b ∈ B -> 0 < chunk_end (chunk_of (buffer_intervals_ h) o b) <= o + mx).
    { intros b Hbb%HB. destruct (group_lookup cm0 now limit R off h ivs Hpl r i Hi b Hbb) as (j & Hj & Ej).
      pose proof (Hgroup b j Hbb Hj). pose proof (so_size _ _ Hst b j Hj). unfold chunk_of, chunk_end. rewrite Ej. simpl.
      rewrite add64_small by (unfold int64_max in *; z64; lia). lia. }
    rewrite (cm_size _ _ _ _ _ _ Hcm). pose proof (HBc r (proj2 (HB r) (rtc_refl _ _))) as Hr1.
    pose proof (max_end_ge _ _ (list_elem_of_fmap_2 (chunk_of (buffer_intervals_ h) o) _ _ (proj2 (HB r) (rtc_refl _ _)))).
    assert (max_end (chunk_of (buffer_intervals_ h) o <$> B) <= o + mx); [|lia].
    apply max_end_le; [lia|]. apply Forall_fmap, Forall_forall. intros b Hbb. apply (HBc b Hbb).
Qed.

Lemma place_one_ok limit R off h ivs r i :
  placed cm0 now limit R off h ivs -> buffer_intervals_ h !! r = Some i -> is_root (buffer_intervals_ h) r -> r ∉ R ->
  sizes_below h -> 2 * (limit + step_size h) < int64_max ->
  exists h' o mx ivs', place h i = OK h' /\ same_but_placed h h' /\
    placed cm0 now (limit + step_size h) (r :: R) (off_with off r o) h' ivs' /\
    GetMaxColocationSize i h = OK mx /\ grows_when_full h h' ivs i mx.
Proof.
  intros Hpl Hi Hroot Hnew HX Hb.
  destruct (candidate_ok limit R off h ivs r i Hpl Hi HX Hb) as (mx & o & Emx & HmX & Hgroup & HF & Ho & Hoa & Hun & Htop).
  destruct (commit_ok limit R off h ivs r i mx o Hpl Hi Hroot Hnew Hb ltac:(lia) Ho Hoa Hgroup Hun) as (h' & ivs' & HC & Hs & Hpl' & Hz & _).
  exists h', o, mx, ivs'. destruct Hroot as (i' & Hi' & Hneed). assert (i' = i) as -> by congruence.
  split; [|split; [done|split; [done|split; [done|]]]].
  - unfold place. rewrite Hneed. cbn [negb]. rewrite HF. exact HC.
  - split; [lia|]. intros Hgrow o' Ho' Hoa' Hm' Hun'. specialize (Htop o' Ho' Hoa' Hm' Hun'). lia.
Qed.


(** ** The loop *)

(** The roots among a list of intervals. *)
Definition roots_of (l : list BufferInterval) : list buffer_id :=
  bi_buffer <$> filter (fun i => bi_need_allocation i) l.

Lemma elem_of_roots_of l r : r ∈ roots_of l <-> exists i, i ∈ l /\ bi_need_allocation i = true /\ r = bi_buffer i.
Proof.
  unfold roots_of. rewrite list_elem_of_fmap. split.
  - intros (i & -> & [Hn Hi]%list_elem_of_filter). exists i. split; [done|]. split; [by apply Is_true_true|done].
  - intros (i & Hi & Hn & ->). exists i. split; [done|]. apply list_elem_of_filter. split; [by apply Is_true_true|done].
Qed.

Lemma step_size_same h h' : same_but_placed h h' -> step_size h' = step_size h.
Proof. intros [_ _ E _ _]. unfold step_size. by rewrite E. Qed.

(** After the intervals [l1] of [l1 ++ l2]. *)
Definition progress (h0 : BestFitHeap) (l1 : list BufferInterval) (h : BestFitHeap) : Prop :=
  same_but_placed h0 h /\ exists R off ivs,
    placed cm0 now (Zlen l1 * step_size h0) R off h ivs /\ forall r, r ∈ R <-> r ∈ roots_of l1.

Lemma progress_step h0 l1 i l2 h :
  sizes_below h0 -> 2 * (Zlen (l1 ++ i :: l2) * step_size h0) < int64_max -> 0 < step_size h0 ->
  NoDup (bi_buffer <$> l1 ++ i :: l2) -> (forall j, j ∈ l1 ++ i :: l2 -> buffer_intervals_ h0 !! bi_buffer j = Some j) ->
  progress h0 l1 h ->
  exists h' mx, place h i = OK h' /\ progress h0 (l1 ++ [i]) h' /\
    (bi_need_allocation i = true -> GetMaxColocationSize i h = OK mx /\
      exists R off ivs, placed cm0 now (Zlen l1 * step_size h0) R off h ivs /\ grows_when_full h h' ivs i mx).
Proof.
  intros HX Hb Hpos Hnd Hl [Hs (R & off & ivs & Hpl & HR)].
  pose proof Hs as [Es Ec Ea Et Ey].
  assert (Hi : buffer_intervals_ h !! bi_buffer i = Some i) by (rewrite Es; apply Hl, elem_of_app; right; left).
  assert (Hlen : Zlen (l1 ++ i :: l2) = Zlen l1 + 1 + Zlen l2) by (rewrite Zlen_app; unfold Zlen; simpl; lia).
  assert (Hlen1 : Zlen (l1 ++ [i]) = Zlen l1 + 1) by (rewrite Zlen_app; done).
  pose proof (Zlen_nonneg l2). pose proof (Zlen_nonneg l1).
  destruct (bi_need_allocation i) eqn:Hn.
  - assert (Hroot : is_root (buffer_intervals_ h) (bi_buffer i)) by by exists i.
    assert (Hnew : bi_buffer i ∉ R).
    { intros Hin%HR. apply elem_of_roots_of in Hin as (j & Hj & _ & Ej). rewrite fmap_app, fmap_cons in Hnd.
      apply NoDup_app in Hnd as (_ & Hd & _). apply (Hd (bi_buffer i)); [|left]. rewrite Ej. by apply list_elem_of_fmap_2. }
    destruct (place_one_ok (Zlen l1 * step_size h0) R off h ivs (bi_buffer i) i Hpl Hi Hroot Hnew)
      as (h' & o & mx & ivs' & HP & Hs' & Hpl' & Hmx & Hg).
    + intros b j Hj. apply (HX b). by rewrite <- Es.
    + rewrite (step_size_same _ _ Hs). rewrite Hlen in Hb. nia.
    + exists h', mx. split; [done|]. split; [|intros _; split; [done|by exists R, off, ivs]]. split; [by transitivity h|].
      exists (bi_buffer i :: R), (off_with off (bi_buffer i) o), ivs'. split.
      { rewrite (step_size_same _ _ Hs) in Hpl'. rewrite Hlen1. by replace ((Zlen l1 + 1) * step_size h0)
          with (Zlen l1 * step_size h0 + step_size h0) by ring. }
      intros r. unfold roots_of in *. rewrite filter_app, fmap_app, elem_of_cons, elem_of_app, HR.
      rewrite filter_cons, Hn. simpl. set_solver.
  - exists h, 0. split; [unfold place; by rewrite Hn|]. split; [|done]. split; [done|]. exists R, off, ivs. split.
    + pose proof Hpl as [[Hal Ht Hst Huse Hl0] ? ? ? ? ? ? ?]. split; [|done..]. split; [done..| |nia].
      eapply Forall_impl; [exact Huse|]. intros u (?&?&?). split; [done|]. rewrite Hlen1. nia.
    + intros r. rewrite HR. unfold roots_of. rewrite filter_app, fmap_app, elem_of_app, filter_cons, Hn. simpl. set_solver.
Qed.

Lemma place_all_ok h0 l :
  sizes_below h0 -> 2 * (Zlen l * step_size h0) < int64_max -> 0 < step_size h0 ->
  NoDup (bi_buffer <$> l) -> (forall j, j ∈ l -> buffer_intervals_ h0 !! bi_buffer j = Some j) ->
  progress h0 [] h0 -> exists h', foldM place h0 l = OK h' /\ progress h0 l h'.
Proof.
  intros HX Hb Hpos Hnd Hl H0. apply (foldM_total (progress h0)); [done|].
  intros l1 i l2 h -> Hp. destruct (progress_step h0 l1 i l2 h HX Hb Hpos Hnd Hl Hp) as (h' & mx & HP & Hp' & _). by exists h'.
Qed.

(** Finish returns, with every buffer placed. *)
Lemma Finish_ok h :
  placed cm0 now 0 [] (fun _ => 0) h [] -> sizes_below h -> 0 <= X ->
  2 * (Z.of_nat (base.size (buffer_intervals_ h)) * step_size h) < int64_max ->
  exists h' R off ivs limit, Finish h = OK (h', mkResult [result_ h'] (heap_size (result_ h'))) /\ same_but_placed h h' /\
    placed cm0 now limit R off h' ivs /\ forall r, r ∈ R <-> is_root (buffer_intervals_ h) r.
Proof.
  intros Hpl HX HX0 Hb. pose proof (pl_ready _ _ _ _ _ _ _ Hpl) as Hr. pose proof Hr as [Hal _ _ _ _].
  destruct (GetSortedBufferIntervals_ok h [] now 0 Hr) as (l & Hl & Hp & _).
  assert (Hin : forall j, j ∈ l <-> buffer_intervals_ h !! bi_buffer j = Some j) by (intros j; rewrite Hp; by eapply entries_elem).
  assert (Hlen : Zlen l = Z.of_nat (base.size (buffer_intervals_ h))) by (unfold Zlen; rewrite Hp, (entries_length h); done).
  destruct (place_all_ok h l HX) as (h' & HF & Hs & R & off & ivs & Hpl' & HR).
  - by rewrite Hlen.
  - unfold step_size. lia.
  - rewrite Hp. by eapply entries_NoDup.
  - intros j Hj. by apply Hin.
  - split; [done|]. exists [], (fun _ => 0), []. split; [|done]. unfold Zlen. simpl. by rewrite Z.mul_0_l.
  - exists h', R, off, ivs, (Zlen l * step_size h). unfold Finish. rewrite Hl. cbn [mbind outcome_bind]. rewrite HF.
    split; [done|]. split; [done|]. split; [done|]. intros r. rewrite HR, elem_of_roots_of. split.
    + intros (i & Hi%Hin & Hn & ->). by exists i.
    + intros (i & Hi & Hn). exists i. rewrite (so_key _ _ (hr_store _ _ _ _ Hr) r i Hi). split; [|done].
      apply Hin. by rewrite (so_key _ _ (hr_store _ _ _ _ Hr) r i Hi).
Qed.

End Place.
