(* ===== verification/BestFitTrace.v ===== *)
(** * Calls to a best-fit heap

    A heap is created and given a sequence of calls to Alloc, ShareWith and Free.  What
    the calls leave behind: the forest of intervals, and the map with the buffers of
    size zero; which buffers there are, how large, and when they live. *)

From stdpp Require Import gmap sorting.
From S2P Require Import Prelude MachineInt MathUtil IntervalTree IntervalTreeInv SlicePermutation AllocationFinder.
From S2P Require Import BestFitHeap BestFitColocations BestFitChunks BestFitPlace BestFitCommit BestFitFinish.

Inductive heap_op :=
  | OpAlloc (buffer : buffer_id) (size : Z)
  | OpShareWith (buffer share_with : buffer_id) (size : Z)
  | OpFree (buffer : buffer_id) (size : Z).

Definition heap_call (h : BestFitHeap) (o : heap_op) : outcome BestFitHeap :=
  match o with
  | OpAlloc b size => Alloc b size h
  | OpShareWith b s size => ShareWith b s size h
  | OpFree b size => Free b size h
  end.

(** The buffer that a call allocates, and its size. *)
Definition requested (o : heap_op) : option (buffer_id * Z) :=
  match o with
  | OpAlloc b size => Some (b, size)
  | OpShareWith b _ size => Some (b, size)
  | OpFree _ _ => None
  end.

Definition requests (ops : list heap_op) : list (buffer_id * Z) := omap requested ops.

(** A client allocates every buffer once, with a size that is not negative, and at
    most [X] bytes. *)
Definition well_formed (X : Z) (ops : list heap_op) : Prop :=
  NoDup (requests ops).*1 /\ Forall (fun z => 0 <= z <= X) (requests ops).*2.

(** [b] shares directly with [s]; and [b] is freed.  A call for a buffer of size zero
    has no effect on the intervals. *)
Definition shared_by (ops : list heap_op) (s b : buffer_id) : Prop :=
  exists z, OpShareWith b s z ∈ ops /\ z <> 0.
Definition freed (ops : list heap_op) (b : buffer_id) : Prop := exists z, OpFree b z ∈ ops /\ z <> 0.

(** ** What the calls leave behind *)

(** The state after the calls [ops]. *)
Record called (X : Z) (h0 : BestFitHeap) (ops : list heap_op) (h : BestFitHeap) : Prop := {
  ca_alignment : heap_alignment_ h = heap_alignment_ h0;
  ca_compare : buffer_interval_compare_ h = buffer_interval_compare_ h0;
  ca_tree : interval_tree_ h = interval_tree_ h0;
  ca_size : heap_size (result_ h) = heap_size (result_ h0);
  ca_time : 0 <= current_time_ h <= Zlen ops;
  ca_store : store_ok (buffer_intervals_ h) (current_time_ h);
  ca_interval b z : (b, z) ∈ requests ops -> z <> 0 -> exists i, buffer_intervals_ h !! b = Some i /\ bi_size i = z;
  ca_zero b : (b, 0) ∈ requests ops -> chunk_map (result_ h) !! b = Some (mkChunk 0 0);
  ca_requested b i : buffer_intervals_ h !! b = Some i -> (b, bi_size i) ∈ requests ops;
  ca_map b c : chunk_map (result_ h) !! b = Some c -> (b, 0) ∈ requests ops /\ c = mkChunk 0 0;
  ca_shares s b : shares (buffer_intervals_ h) s b <-> shared_by ops s b;
  ca_freed b i : buffer_intervals_ h !! b = Some i -> bi_end i = -1 <-> ~ freed ops b;
  ca_known b : freed ops b -> is_Some (buffer_intervals_ h !! b);
}.

Definition fresh_heap (h0 : BestFitHeap) : Prop :=
  buffer_intervals_ h0 = ∅ /\ result_ h0 = new_HeapResult /\ interval_tree_ h0 = tree_empty /\ current_time_ h0 = 0 /\
  0 < heap_alignment_ h0.

Lemma new_heap_fresh alignment type compare ty h0 :
  new_GlobalDecreasingSizeBestFitHeap alignment type compare ty = OK h0 -> fresh_heap h0 /\ heap_alignment_ h0 = alignment.
Proof.
  unfold new_GlobalDecreasingSizeBestFitHeap. destruct (Z.ltb_spec 0 alignment); [|done]. cbn [check mbind outcome_bind].
  destruct type, compare; cbn [mbind outcome_bind]; intros [= <-]; done.
Qed.

Lemma requests_app l1 l2 : requests (l1 ++ l2) = requests l1 ++ requests l2.
Proof. apply omap_app. Qed.

Lemma called_nil X h0 : fresh_heap h0 -> called X h0 [] h0.
Proof.
  intros (Em & Er & Et & Ec & Hal). split; try done; rewrite ?Em, ?Er, ?Ec; [done|apply store_ok_empty|..].
  - by intros b z ?%not_elem_of_nil.
  - by intros b ?%not_elem_of_nil.
  - intros b i. by rewrite lookup_empty.
  - intros b c. simpl. by rewrite lookup_empty.
  - intros s b. split; [intros (i & Hi & _)|by intros (z & ?%not_elem_of_nil & _)]. by rewrite lookup_empty in Hi.
  - intros b i. by rewrite lookup_empty.
  - by intros b (z & ?%not_elem_of_nil & _).
Qed.

(** What one more call adds. *)
Lemma shared_by_snoc l o s b : shared_by (l ++ [o]) s b <-> shared_by l s b \/ exists z, o = OpShareWith b s z /\ z <> 0.
Proof. unfold shared_by. setoid_rewrite elem_of_app. setoid_rewrite list_elem_of_singleton. naive_solver. Qed.

Lemma freed_snoc l o b : freed (l ++ [o]) b <-> freed l b \/ exists z, o = OpFree b z /\ z <> 0.
Proof. unfold freed. setoid_rewrite elem_of_app. setoid_rewrite list_elem_of_singleton. naive_solver. Qed.

Section Calls.
Context (X : Z) (h0 : BestFitHeap) (l1 : list heap_op) (h h' : BestFitHeap).
Context (Hc : called X h0 l1 h) (Hlen : Zlen l1 + 1 < two63).

Lemma len_snoc (o : heap_op) : Zlen (l1 ++ [o]) = Zlen l1 + 1.
Proof. by rewrite Zlen_app. Qed.

Lemma tick_ok : add64 (current_time_ h) 1 = current_time_ h + 1.
Proof. pose proof (ca_time _ _ _ _ Hc). apply add64_small. z64. lia. Qed.

Lemma requests_snoc o b z : requested o = Some (b, z) -> requests (l1 ++ [o]) = requests l1 ++ [(b, z)].
Proof. intros Ho. rewrite requests_app. unfold requests at 2. simpl. by rewrite Ho. Qed.

(** A buffer of size zero. *)
Lemma called_zero o b :
  requested o = Some (b, 0) -> b ∉ (requests l1).*1 -> called X h0 (l1 ++ [o]) (AddToChunkMap b (FromOffsetSize 0 0) h).
Proof.
  intros Ho Hb. pose proof Hc as [Ha Hcm Ht Hz Htm Hst Hint Hzero Hreq Hmap Hsh Hfr Hkn].
  assert (Hn : chunk_map (result_ h) !! b = None).
  { destruct (chunk_map (result_ h) !! b) as [c|] eqn:E; [|done]. destruct (Hmap b c E) as [Hin _].
    destruct Hb. by apply (list_elem_of_fmap_2 fst) in Hin. }
  split; cbn [AddToChunkMap set_result result_ chunk_map heap_size buffer_intervals_]; try done;
    rewrite ?(requests_snoc o b 0 Ho); unfold emplace; rewrite ?Hn.
  - change (current_time_ (AddToChunkMap _ _ h)) with (current_time_ h). rewrite len_snoc. lia.
  - intros b' z [Hin|[= -> ->]%list_elem_of_singleton]%elem_of_app Hz'; [by apply Hint|done].
  - intros b' [Hin|[= ->]%list_elem_of_singleton]%elem_of_app; [|by rewrite lookup_insert_eq].
    rewrite lookup_insert_ne; [by apply Hzero|]. intros <-. destruct Hb. by apply (list_elem_of_fmap_2 fst) in Hin.
  - intros b' i Hi. apply elem_of_app. left. by apply Hreq.
  - intros b' c [[<- <-]|[_ Hc']]%lookup_insert_Some; rewrite elem_of_app.
    + split; [right; left|done].
    + destruct (Hmap b' c Hc') as [? ->]. split; [by left|done].
  - intros s b'. rewrite shared_by_snoc. rewrite Hsh. split; [by left|]. intros [|(z & -> & Hz0)]; [done|]. simpl in Ho. congruence.
  - intros b' i Hi. rewrite freed_snoc, (Hfr b' i Hi). split; [|tauto]. intros Hnf [|(z & -> & _)]; [done|]. by simpl in Ho.
  - intros b' [?|(z & -> & _)]%freed_snoc; [by apply Hkn|by simpl in Ho].
Qed.

(** A buffer with an interval; the intervals there were keep their sizes. *)
Lemma called_interval o b size need (m1 : store) :
  requested o = Some (b, size) -> b ∉ (requests l1).*1 -> 0 < size ->
  (forall c i, m1 !! c = Some i -> exists i0, buffer_intervals_ h !! c = Some i0 /\ bi_size i = bi_size i0) ->
  (forall c i, buffer_intervals_ h !! c = Some i -> exists i1, m1 !! c = Some i1 /\ bi_size i1 = bi_size i) ->
  (forall c i, m1 !! c = Some i -> exists i0, buffer_intervals_ h !! c = Some i0 /\ bi_end i = bi_end i0) ->
  (forall s c, shares m1 s c <-> shared_by (l1 ++ [o]) s c) -> buffer_intervals_ h !! b = None ->
  store_ok (<[b := fresh_interval b size (current_time_ h) need]> m1) (current_time_ h + 1) ->
  add_interval (mkBuffer b size (current_time_ h) (-1) [] need) (set_intervals m1 h) = OK h' ->
  called X h0 (l1 ++ [o]) h'.
Proof.
  intros Ho Hb Hs Hdown Hup Hend Hshare Hnb Hst' Hadd. pose proof Hc as [Ha Hcm Ht Hz Htm Hst Hint Hzero Hreq Hmap Hsh Hfr Hkn].
  unfold add_interval in Hadd. cbn [set_intervals buffer_intervals_ bi_buffer] in Hadd.
  assert (Hm1 : m1 !! b = None).
  { destruct (m1 !! b) as [i|] eqn:E; [|done]. destruct (Hdown b i E) as (i0 & ? & _). congruence. }
  rewrite bool_decide_eq_true_2 in Hadd by done. cbn [check mbind outcome_bind] in Hadd. injection Hadd as <-.
  split; cbn [tick set_intervals result_ chunk_map heap_size buffer_intervals_ current_time_ heap_alignment_ interval_tree_ buffer_interval_compare_];
    try done; rewrite ?(requests_snoc o b size Ho), ?tick_ok.
  - rewrite len_snoc. lia.
  - done.
  - intros c z [Hin|[= -> ->]%list_elem_of_singleton]%elem_of_app Hz'; [|rewrite lookup_insert_eq; by eexists].
    destruct (Hint c z Hin Hz') as (i & Hi & <-). destruct (Hup c i Hi) as (i1 & Hi1 & ?). exists i1.
    rewrite lookup_insert_ne; [done|]. intros <-. destruct Hb. by apply (list_elem_of_fmap_2 fst) in Hin.
  - intros c [Hin|[= _ ?]%list_elem_of_singleton]%elem_of_app; [by apply Hzero|lia].
  - intros c i [[<- <-]|[_ Hi]]%lookup_insert_Some; rewrite elem_of_app; [right; left|left].
    destruct (Hdown c i Hi) as (i0 & Hi0 & ->). by apply Hreq.
  - intros c c0 Hin. destruct (Hmap c c0 Hin) as [? ->]. rewrite elem_of_app. auto.
  - intros s c. rewrite <- Hshare. by apply shares_insert_new.
  - assert (Hof : forall c, freed (l1 ++ [o]) c <-> freed l1 c).
    { intros c. rewrite freed_snoc. split; [|by left]. intros [|(z & -> & _)]; [done|]. by simpl in Ho. }
    intros c i [[<- <-]|[_ Hi]]%lookup_insert_Some; rewrite Hof.
    + split; [|done]. intros _ [j Hj]%Hkn. congruence.
    + destruct (Hend c i Hi) as (i0 & Hi0 & ->). by apply Hfr.
  - intros c [Hc'|(z & -> & _)]%freed_snoc; [|by simpl in Ho]. apply Hkn in Hc' as [j Hj].
    destruct (Hup c j Hj) as (j1 & Hj1 & _). exists j1. rewrite lookup_insert_ne; [done|]. intros <-. congruence.
Qed.

Lemma called_free (i : BufferInterval) b z :
  z <> 0 -> buffer_intervals_ h !! b = Some i ->
  called X h0 (l1 ++ [OpFree b z]) (tick (set_intervals (<[b := set_bi_end (current_time_ h) i]> (buffer_intervals_ h)) h)).
Proof.
  intros Hz0 Hi. pose proof Hc as [Ha Hcm Ht Hz Htm Hst Hint Hzero Hreq Hmap Hsh Hfr Hkn].
  assert (Er : requests (l1 ++ [OpFree b z]) = requests l1) by (rewrite requests_app; by rewrite app_nil_r).
  split; cbn [tick set_intervals result_ chunk_map heap_size buffer_intervals_ current_time_ heap_alignment_ interval_tree_ buffer_interval_compare_];
    try done; rewrite ?Er, ?tick_ok; [rewrite len_snoc; lia|by apply store_ok_free| |done| |done| | |].
  - intros c z' Hin Hz'. destruct (Hint c z' Hin Hz') as (j & Hj & Ej). destruct (decide (c = b)) as [->|Hne].
    + rewrite lookup_insert_eq. eexists. split; [done|]. simpl. congruence.
    + rewrite lookup_insert_ne by done. eauto.
  - intros c j [[<- <-]|[_ Hj]]%lookup_insert_Some; [exact (Hreq b i Hi)|by apply Hreq].
  - intros s c. rewrite (shares_replace _ b i) by done. rewrite Hsh, shared_by_snoc. split; [by left|].
    by intros [|(z' & ? & _)].
  - intros c j [[<- <-]|[Hne Hj]]%lookup_insert_Some; rewrite freed_snoc.
    + simpl. split; [lia|]. intros []. right. by exists z.
    + rewrite (Hfr c j Hj). split; [|tauto]. by intros Hnf [|(z' & [= <- <-] & _)].
  - intros c [[j Hj]%Hkn|(z' & [= <- <-] & _)]%freed_snoc; [|rewrite lookup_insert_eq; by eexists].
    destruct (decide (c = b)) as [->|Hne]; [rewrite lookup_insert_eq; by eexists|rewrite lookup_insert_ne by done; by exists j].
Qed.

End Calls.

Lemma called_step X h0 l1 o h h' :
  called X h0 l1 h -> Zlen l1 + 1 < two63 -> well_formed X (l1 ++ [o]) -> heap_call h o = OK h' ->
  called X h0 (l1 ++ [o]) h'.
Proof.
  intros Hc Hlen [Hnd Hsz] Hcall. pose proof Hc as [Ha Hcm Ht Hz Htm Hst Hint Hzero Hreq Hmap Hsh Hfr Hkn].
  assert (Hnew : forall b z, requested o = Some (b, z) -> b ∉ (requests l1).*1 /\ 0 <= z /\ buffer_intervals_ h !! b = None).
  { intros b z Ho. rewrite (requests_snoc l1 o b z Ho) in Hnd, Hsz. rewrite fmap_app in Hnd, Hsz.
    apply NoDup_app in Hnd as (_ & Hd & _). apply Forall_app in Hsz as [_ [? _]%Forall_cons]. simpl in *.
    assert (Hb : b ∉ (requests l1).*1) by (intros Hb; apply (Hd b Hb); left). split; [done|]. split; [lia|].
    destruct (buffer_intervals_ h !! b) as [i|] eqn:E; [|done]. destruct Hb.
    by apply Hreq, (list_elem_of_fmap_2 fst) in E. }
  destruct o as [b size|b s size|b size]; cbn [heap_call] in Hcall.
  - destruct (Hnew b size eq_refl) as (Hb & Hs & Hn). unfold Alloc in Hcall. destruct (Z.eqb_spec size 0) as [->|Hs0].
    + injection Hcall as <-. by apply called_zero.
    + apply (called_interval X h0 l1 h h' Hc Hlen _ b size true (buffer_intervals_ h)); [done|done|lia|by eauto|by eauto|by eauto| |done| |].
      * intros s c. rewrite Hsh, shared_by_snoc. split; [by left|]. by intros [|(z & ? & _)].
      * apply store_ok_alloc; [done|lia|done|lia].
      * by destruct h.
  - destruct (Hnew b size eq_refl) as (Hb & Hs & Hn). unfold ShareWith in Hcall. destruct (Z.eqb_spec size 0) as [->|Hs0].
    + injection Hcall as <-. by apply called_zero.
    + destruct (buffer_intervals_ h !! s) as [si|] eqn:Es; [|done].
      apply (called_interval X h0 l1 h h' Hc Hlen _ b size false (<[s := add_colocation b si]> (buffer_intervals_ h))); [done|done|lia|..].
      * intros c i [[<- <-]|[_ Hi]]%lookup_insert_Some; by eauto.
      * intros c i Hi. destruct (decide (c = s)) as [->|Hne]; [rewrite lookup_insert_eq|rewrite lookup_insert_ne by done; by eauto].
        eexists. split; [done|]. simpl. congruence.
      * intros c i [[<- <-]|[_ Hi]]%lookup_insert_Some; by eauto.
      * intros c d. rewrite (shares_add _ s b si) by done. rewrite Hsh, shared_by_snoc. split.
        { intros [|[-> ->]]; [by left|right; by exists size]. }
        { intros [|(z & [= <- <- _] & _)]; [by left|by right]. }
      * done.
      * apply store_ok_share; [done|lia|done|done|lia].
      * exact Hcall.
  - unfold Free in Hcall. destruct (Z.eqb_spec size 0) as [->|Hs0].
    + injection Hcall as <-.
      assert (Er : requests (l1 ++ [OpFree b 0]) = requests l1) by (rewrite requests_app; by rewrite app_nil_r).
      split; rewrite ?Er; try done.
      * rewrite Zlen_app. unfold Zlen at 2. simpl. lia.
      * intros c d. rewrite Hsh, shared_by_snoc. split; [by left|]. by intros [|(z & ? & _)].
      * intros c i Hi. rewrite freed_snoc, (Hfr c i Hi). split; [|tauto]. by intros Hnf [|(z & [= <- <-] & ?)].
      * intros c [?|(z & [= <- <-] & ?)]%freed_snoc; [by apply Hkn|done].
    + destruct (buffer_intervals_ h !! b) as [i|] eqn:Ei; [|done].
      destruct (bi_buffer i =? b); [|done]. destruct (bi_size i =? size); [|done]. destruct (bi_end i =? -1); [|done].
      cbn [check mbind outcome_bind negb] in Hcall. injection Hcall as <-. by apply called_free.
Qed.

(** Every sequence of calls that runs through. *)
Lemma calls_called X h0 ops h :
  fresh_heap h0 -> well_formed X ops -> Zlen ops < two63 -> foldM heap_call h0 ops = OK h -> called X h0 ops h.
Proof.
  intros Hf [Hnd Hsz] Hlen Hrun. apply (foldM_inv (fun l h => called X h0 l h) heap_call ops h0 h); [by apply called_nil| |done].
  intros l1 o l2 h1 h2 -> Hc Hcall.
  assert (El : l1 ++ o :: l2 = (l1 ++ [o]) ++ l2) by by rewrite <- app_assoc. rewrite El, requests_app in Hnd, Hsz.
  rewrite fmap_app in Hnd, Hsz. apply NoDup_app in Hnd as (Hnd & _). apply Forall_app in Hsz as [Hsz _].
  apply (called_step X h0 l1 o h1 h2 Hc); [|by split|done].
  assert (E2 : Zlen (l1 ++ o :: l2) = Zlen l1 + 1 + Zlen l2) by (rewrite Zlen_app; unfold Zlen; simpl; lia).
  pose proof (Zlen_nonneg l2). lia.
Qed.

Lemma called_sizes X h0 ops h : called X h0 ops h -> well_formed X ops -> sizes_below X h.
Proof.
  intros Hc [_ Hsz] b j Hj. apply (ca_requested _ _ _ _ Hc) in Hj. rewrite Forall_forall in Hsz.
  apply (Hsz (bi_size j)). by apply (list_elem_of_fmap_2 snd) in Hj.
Qed.

Lemma called_count X h0 ops h : called X h0 ops h -> Z.of_nat (base.size (buffer_intervals_ h)) <= Zlen ops.
Proof.
  intros Hc. assert (Hle : (length (map_to_list (buffer_intervals_ h)).*1 <= length (requests ops).*1)%nat).
  { apply submseteq_length, NoDup_submseteq; [apply NoDup_fst_map_to_list|].
    intros b ([b' i] & -> & Hin%elem_of_map_to_list)%list_elem_of_fmap.
    by apply (ca_requested _ _ _ _ Hc), (list_elem_of_fmap_2 fst) in Hin. }
  rewrite !length_fmap, length_map_to_list in Hle.
  assert (length (requests ops) <= length ops)%nat; [|unfold Zlen; lia].
  clear. induction ops as [|o ops IH]; [done|].
  change (requests (o :: ops)) with (match requested o with Some y => y :: requests ops | None => requests ops end).
  destruct (requested o); simpl; lia.
Qed.

Lemma NoDup_fst_unique (l : list (buffer_id * Z)) b z z' : NoDup l.*1 -> (b, z) ∈ l -> (b, z') ∈ l -> z = z'.
Proof.
  intros Hnd [j Hj]%list_elem_of_lookup [k Hk]%list_elem_of_lookup.
  assert (j = k) as ->.
  { apply (NoDup_lookup l.*1 j k b Hnd); by rewrite list_lookup_fmap, ?Hj, ?Hk. }
  congruence.
Qed.

(** The calls lead to a state in which Finish can start. *)
Lemma called_placed X h0 ops h :
  fresh_heap h0 -> well_formed X ops -> called X h0 ops h ->
  placed (chunk_map (result_ h)) (current_time_ h) 0 [] (fun _ => 0) h [].
Proof.
  intros (Em & Er & Et & Ec & Hal) [Hnd _] Hc. apply placed_empty.
  - by rewrite (ca_alignment _ _ _ _ Hc).
  - rewrite (ca_tree _ _ _ _ Hc), Et. apply repr_empty.
  - apply Hc.
  - rewrite (ca_size _ _ _ _ Hc), Er. done.
  - done.
  - intros b [i Hi]. destruct (chunk_map (result_ h) !! b) as [c|] eqn:E; [|done].
    apply (ca_map _ _ _ _ Hc) in E as [Hin _]. pose proof (so_size _ _ (ca_store _ _ _ _ Hc) b i Hi) as Hpos.
    apply (ca_requested _ _ _ _ Hc) in Hi. pose proof (NoDup_fst_unique _ _ _ _ Hnd Hin Hi). lia.
Qed.

(** ** From a moment of the sequence to its end *)

(** The interval of a buffer later: only its end is set, and to a later time. *)
Definition continues (now : Z) (m m' : store) : Prop :=
  forall b i, m !! b = Some i -> exists i', m' !! b = Some i' /\ bi_start i' = bi_start i /\ bi_size i' = bi_size i /\
    (bi_end i = -1 -> bi_end i' = -1 \/ now <= bi_end i').

Lemma continues_refl now m : continues now m m.
Proof. intros b i Hi. exists i. split; [done|]. split; [done|]. split; [done|]. by left. Qed.

Lemma continues_step now m1 m2 m3 :
  continues now m1 m2 ->
  (forall b i, m2 !! b = Some i -> exists i', m3 !! b = Some i' /\ bi_start i' = bi_start i /\ bi_size i' = bi_size i /\
    (bi_end i' = bi_end i \/ now <= bi_end i')) ->
  continues now m1 m3.
Proof.
  intros H1 H2 b i Hi. destruct (H1 b i Hi) as (i2 & Hi2 & Es & Ez & He). destruct (H2 b i2 Hi2) as (i3 & Hi3 & Es3 & Ez3 & He3).
  exists i3. split; [done|]. split; [congruence|]. split; [congruence|]. intros Hn. destruct (He Hn), He3; lia.
Qed.

Lemma call_continues now m1 o h h' :
  now <= current_time_ h -> continues now m1 (buffer_intervals_ h) -> heap_call h o = OK h' ->
  continues now m1 (buffer_intervals_ h').
Proof.
  intros Hnow Hc Hcall. apply (continues_step now m1 _ _ Hc).
  assert (Hadd : forall m0 i0 h2, add_interval i0 (set_intervals m0 h) = OK h2 ->
    buffer_intervals_ h2 = <[bi_buffer i0 := i0]> m0 /\ m0 !! bi_buffer i0 = None).
  { intros m0 i0 h2 Hx. unfold add_interval in Hx. cbn [set_intervals buffer_intervals_] in Hx.
    case_bool_decide; [|done]. cbn [check mbind outcome_bind] in Hx. by injection Hx as <-. }
  intros c i Hi. destruct o as [b size|b s size|b size]; cbn [heap_call] in Hcall.
  - unfold Alloc in Hcall. destruct (size =? 0); [injection Hcall as <-; exists i; by eauto|].
    destruct (Hadd (buffer_intervals_ h) _ h' ltac:(destruct h; exact Hcall)) as [-> Hn]. cbn [bi_buffer] in *.
    exists i. rewrite lookup_insert_ne by congruence. by eauto.
  - unfold ShareWith in Hcall. destruct (size =? 0); [injection Hcall as <-; exists i; by eauto|].
    destruct (buffer_intervals_ h !! s) as [si|] eqn:Es; [|done].
    destruct (Hadd _ _ h' Hcall) as [-> Hn]. cbn [bi_buffer] in *. destruct (decide (c = s)) as [->|Hne].
    + assert (si = i) as -> by congruence. exists (add_colocation b i). destruct (decide (s = b)) as [->|Hsb].
      { by rewrite lookup_insert_eq in Hn. }
      rewrite lookup_insert_ne, lookup_insert_eq by done. by eauto.
    + exists i. rewrite lookup_insert_ne in Hn by (intros ->; by rewrite lookup_insert_eq in Hn).
      rewrite !lookup_insert_ne by congruence. by eauto.
  - unfold Free in Hcall. destruct (size =? 0); [injection Hcall as <-; exists i; by eauto|].
    destruct (buffer_intervals_ h !! b) as [ib|] eqn:Eb; [|done].
    destruct (bi_buffer ib =? b); [|done]. destruct (bi_size ib =? size); [|done]. destruct (bi_end ib =? -1); [|done].
    cbn [check mbind outcome_bind negb] in Hcall. injection Hcall as <-.
    cbn [tick set_intervals buffer_intervals_]. destruct (decide (c = b)) as [->|Hne].
    + rewrite lookup_insert_eq. assert (ib = i) as -> by congruence. eexists. split; [done|]. split; [done|]. split; [done|]. by right.
    + rewrite lookup_insert_ne by done. exists i. by eauto.
Qed.

Lemma call_time X h0 l1 o h h' :
  called X h0 l1 h -> Zlen l1 + 1 < two63 -> heap_call h o = OK h' -> current_time_ h <= current_time_ h'.
Proof.
  intros Hc Hlen Hcall. pose proof (tick_ok X h0 l1 h Hc Hlen) as Ht.
  assert (Hadd : forall i0 h2, current_time_ h2 = current_time_ h -> add_interval i0 h2 = OK h' -> current_time_ h <= current_time_ h').
  { intros i0 h2 E Hx. unfold add_interval in Hx. case_bool_decide; [|done]. cbn [check mbind outcome_bind] in Hx.
    injection Hx as <-. cbn [tick current_time_ set_intervals]. rewrite E, Ht. lia. }
  destruct o as [b size|b s size|b size]; cbn [heap_call] in Hcall.
  - unfold Alloc in Hcall. destruct (size =? 0); [injection Hcall as <-; cbn; lia|by eapply Hadd].
  - unfold ShareWith in Hcall. destruct (size =? 0); [injection Hcall as <-; cbn; lia|].
    destruct (buffer_intervals_ h !! s); [|done]. by eapply Hadd; [|exact Hcall].
  - unfold Free in Hcall. destruct (size =? 0); [injection Hcall as <-; lia|].
    destruct (buffer_intervals_ h !! b) as [ib|]; [|done].
    destruct (bi_buffer ib =? b); [|done]. destruct (bi_size ib =? size); [|done]. destruct (bi_end ib =? -1); [|done].
    cbn [check mbind outcome_bind negb] in Hcall. injection Hcall as <-. cbn [tick current_time_ set_intervals]. rewrite Ht. lia.
Qed.

(** The state after a prefix of the calls, and the end. *)
Lemma calls_prefix X h0 l1 l2 h :
  fresh_heap h0 -> well_formed X (l1 ++ l2) -> Zlen (l1 ++ l2) < two63 -> foldM heap_call h0 (l1 ++ l2) = OK h ->
  exists h1, called X h0 l1 h1 /\ called X h0 (l1 ++ l2) h /\
    continues (current_time_ h1) (buffer_intervals_ h1) (buffer_intervals_ h).
Proof.
  intros Hf Hwf Hlen Hrun. pose proof (calls_called X h0 _ h Hf Hwf Hlen Hrun) as Hall.
  rewrite foldM_app in Hrun. apply bind_OK in Hrun as (h1 & H1 & H2).
  assert (Hpre : forall l l', l1 ++ l2 = l ++ l' -> well_formed X l /\ Zlen l < two63).
  { intros l l' E. destruct Hwf as [Hnd Hsz]. rewrite E, requests_app, fmap_app in Hnd, Hsz. rewrite E, Zlen_app in Hlen.
    apply NoDup_app in Hnd as (Hnd & _). apply Forall_app in Hsz as [Hsz _]. pose proof (Zlen_nonneg l'). split; [by split|lia]. }
  destruct (Hpre l1 l2 eq_refl) as [Hwf1 Hlen1]. pose proof (calls_called X h0 l1 h1 Hf Hwf1 Hlen1 H1) as Hc1.
  exists h1. split; [done|]. split; [done|].
  apply (foldM_inv (fun l h' => called X h0 (l1 ++ l) h' /\ current_time_ h1 <= current_time_ h' /\
      continues (current_time_ h1) (buffer_intervals_ h1) (buffer_intervals_ h')) heap_call l2 h1 h); [| |done].
  - rewrite app_nil_r. split; [done|]. split; [lia|]. apply continues_refl.
  - intros la o lb h2 h3 -> (Hc2 & Ht & Hco) Hcall.
    destruct (Hpre (l1 ++ la ++ [o]) lb) as [Hwf3 Hlen3]; [by rewrite <- !app_assoc|].
    rewrite app_assoc in Hwf3, Hlen3 |- *. assert (Hlen2 : Zlen (l1 ++ la) + 1 < two63) by (rewrite <- (len_snoc _ o); done).
    split; [by apply (called_step X h0 (l1 ++ la) o h2 h3)|].
    pose proof (call_time X h0 _ o h2 h3 Hc2 Hlen2 Hcall). split; [lia|]. by apply (call_continues _ _ o h2 h3).
Qed.

(** ** Buffers alive *)

(** A buffer that is allocated and not freed. *)
Definition alive (ops : list heap_op) (b : buffer_id) : Prop :=
  (exists z, (b, z) ∈ requests ops /\ z <> 0) /\ ~ freed ops b.

(** Two buffers that are alive at a moment, and freed in the end, meet. *)
Lemma alive_meet X h0 l1 l2 h b b' :
  fresh_heap h0 -> well_formed X (l1 ++ l2) -> Zlen (l1 ++ l2) < two63 -> foldM heap_call h0 (l1 ++ l2) = OK h ->
  alive l1 b -> alive l1 b' -> freed (l1 ++ l2) b -> freed (l1 ++ l2) b' ->
  exists i i', buffer_intervals_ h !! b = Some i /\ buffer_intervals_ h !! b' = Some i' /\ meet i i'.
Proof.
  intros Hf Hwf Hlen Hrun. destruct (calls_prefix X h0 l1 l2 h Hf Hwf Hlen Hrun) as (h1 & Hc1 & Hc & Hco).
  assert (Hone : forall b, alive l1 b -> freed (l1 ++ l2) b ->
    exists i, buffer_intervals_ h !! b = Some i /\ bi_start i < current_time_ h1 <= bi_end i).
  { intros c [(z & Hin & Hz) Hnf] Hfr. destruct (ca_interval _ _ _ _ Hc1 c z Hin Hz) as (i1 & Hi1 & _).
    destruct (Hco c i1 Hi1) as (i & Hi & Es & _ & He). exists i. split; [done|].
    pose proof (so_start _ _ (ca_store _ _ _ _ Hc1) c i1 Hi1). rewrite Es. split; [lia|].
    destruct He as [He|He]; [by apply (ca_freed _ _ _ _ Hc1 c i1 Hi1)| |done].
    by apply (ca_freed _ _ _ _ Hc c i Hi) in He. }
  intros Ha Ha' Hfr Hfr'. destruct (Hone b Ha Hfr) as (i & Hi & ? & ?). destruct (Hone b' Ha' Hfr') as (i' & Hi' & ? & ?).
  exists i, i'. split; [done|]. split; [done|]. unfold meet. lia.
Qed.
