(* ===== verification/BestFitTheorems.v ===== *)
(** * The properties of the best-fit heap, and what modelling it showed. *)

From stdpp Require Import gmap sorting.
From S2P Require Import Prelude MachineInt MathUtil IntervalTree IntervalTreeInv IntervalTreeTheorems SlicePermutation.
From S2P Require Import AllocationFinder FinderPieces FinderFit BestFitHeap BestFitColocations BestFitChunks.
From S2P Require Import BestFitPlace BestFitCommit BestFitFinish BestFitTrace.

(** ** The best-fit heap: theorems

    For every sequence of calls that a client can make, Finish returns; every buffer
    gets a chunk of its size, aligned and inside the heap; buffers that share an
    allocation are at the same offset and others that live at the same time do not
    overlap; the heap grows only when nothing fits, and is never smaller than what is
    alive at once. *)

(** ** What a client does *)

Definition run (alignment : Z) (type : HeapType) (compare : option (BufferInterval -> BufferInterval -> bool)) (ty : Ty)
    (ops : list heap_op) : outcome BestFitHeap :=
  h ← new_GlobalDecreasingSizeBestFitHeap alignment type compare ty;
  foldM heap_call h ops.

(** Every buffer is allocated once, with at most [X] bytes, and an offset never
    overflows. *)
Record within_limits (X alignment : Z) (ops : list heap_op) : Prop := {
  wl_formed : well_formed X ops;
  wl_size : 0 <= X;
  wl_offsets : 2 * (Zlen ops * (X + 2 * alignment)) < int64_max;
}.

(** [b] and [b'] are connected by calls of ShareWith. *)
Definition together (ops : list heap_op) : relation buffer_id := rtsc (shared_by ops).

Lemma max_end_attained l : max_end l = 0 \/ exists c, c ∈ l /\ chunk_end c = max_end l.
Proof.
  induction l as [|c l IH]; [by left|]. simpl. destruct (Z.max_spec (chunk_end c) (max_end l)) as [[_ E]|[_ E]].
  - change (foldr _ 0 l) with (max_end l). rewrite E. destruct IH as [|(d & Hd & ?)]; [by left|right; exists d; split; [by right|done]].
  - change (foldr _ 0 l) with (max_end l). rewrite E. right. exists c. split; [left|done].
Qed.

Section Run.
Context `{HashOrder} (X alignment : Z) (type : HeapType) (compare : option (BufferInterval -> BufferInterval -> bool)) (ty : Ty).
Context (ops : list heap_op) (h : BestFitHeap).
Context (Hrun : run alignment type compare ty ops = OK h) (Hwl : within_limits X alignment ops).
#[local] Abbreviation m := (buffer_intervals_ h).

Lemma run_called : exists h0, fresh_heap h0 /\ called X h0 ops h /\ foldM heap_call h0 ops = OK h /\
  heap_alignment_ h = alignment /\ Zlen ops < two63.
Proof.
  unfold run in Hrun. apply bind_OK in Hrun as (h0 & H0 & Hops). destruct (new_heap_fresh _ _ _ _ _ H0) as [Hf Ha].
  destruct Hwl as [Hwf HX Hlim]. assert (Hlen : Zlen ops < two63).
  { pose proof (Zlen_nonneg ops). destruct Hf as (_ & _ & _ & _ & Hal). rewrite Ha in Hal. unfold int64_max in Hlim. z64. nia. }
  pose proof (calls_called X h0 ops h Hf Hwf Hlen Hops) as Hc. exists h0. split; [done|]. split; [done|]. split; [done|].
  split; [|done]. by rewrite (ca_alignment _ _ _ _ Hc).
Qed.

(** The state with which Finish starts. *)
Lemma run_ready : exists h0, called X h0 ops h /\ placed (chunk_map (result_ h)) (current_time_ h) 0 [] (fun _ => 0) h [] /\
  sizes_below X h /\ heap_alignment_ h = alignment /\ 0 < step_size X h /\
  2 * (Z.of_nat (base.size m) * step_size X h) < int64_max.
Proof.
  destruct run_called as (h0 & Hf & Hc & _ & Ha & _). destruct Hwl as [Hwf HX Hlim]. exists h0. split; [done|].
  pose proof (called_placed X h0 ops h Hf Hwf Hc) as Hpl. split; [done|]. split; [by apply (called_sizes X h0 ops)|]. split; [done|].
  pose proof (hr_alignment _ _ _ _ (pl_ready _ _ _ _ _ _ _ Hpl)) as Hal. unfold step_size. rewrite Ha in *. split; [lia|].
  pose proof (called_count X h0 ops h Hc). nia.
Qed.

(** What Finish returns, by the invariant of its loop. *)
Lemma run_Finish : exists h0 h' R off ivs limit,
  called X h0 ops h /\ Finish h = OK (h', mkResult [result_ h'] (heap_size (result_ h'))) /\ same_but_placed h h' /\
  placed (chunk_map (result_ h)) (current_time_ h) limit R off h' ivs /\ (forall r, r ∈ R <-> is_root m r) /\
  heap_alignment_ h' = alignment.
Proof.
  destruct run_ready as (h0 & Hc & Hpl & HX & Ha & _ & Hlim). destruct Hwl as [_ HX0 _].
  destruct (Finish_ok (chunk_map (result_ h)) (current_time_ h) X h Hpl HX HX0 Hlim) as (h' & R & off & ivs & limit & HF & Hs & Hpl' & HR).
  exists h0, h', R, off, ivs, limit. do 5 (split; [done|]). by rewrite (sb_alignment _ _ Hs).
Qed.

End Run.

(** The chunk of a buffer that was given an interval. *)
Section Placed.
Context (cm0 : gmap buffer_id Chunk) (now limit : Z) (R : list buffer_id) (off : Z -> Z) (h : BestFitHeap) (ivs : list interval).
Context (Hpl : placed cm0 now limit R off h ivs).
#[local] Abbreviation m := (buffer_intervals_ h).

Lemma placed_store : store_ok m now.
Proof. apply (pl_ready _ _ _ _ _ _ _ Hpl). Qed.

Lemma placed_group r b i : root_of m r b -> r ∈ R -> m !! b = Some i -> 0 <= off r /\
  off r mod heap_alignment_ h = 0 /\ chunk_map (result_ h) !! b = Some (mkChunk (off r) (bi_size i)) /\
  mkChunk (off r) (bi_size i) ∈ iv_chunk <$> ivs /\ off r + bi_size i <= heap_size (result_ h).
Proof.
  intros [Hr Hrb] HrR Hi. destruct (pl_off _ _ _ _ _ _ _ Hpl r HrR) as [Ho Hoa].
  assert (Ec : chunk_of m (off r) b = mkChunk (off r) (bi_size i)) by (unfold chunk_of; by rewrite (lookup_total_correct _ _ _ Hi)).
  assert (Hin : mkChunk (off r) (bi_size i) ∈ iv_chunk <$> ivs).
  { rewrite <- Ec. apply (list_elem_of_fmap_2 iv_chunk ivs (interval_of m (off r) b)). apply (pl_ivs _ _ _ _ _ _ _ Hpl). by exists r, b. }
  do 2 (split; [done|]). split; [rewrite (pl_map _ _ _ _ _ _ _ Hpl r b) by done; by rewrite decide_True, Ec|]. split; [done|].
  rewrite (pl_size _ _ _ _ _ _ _ Hpl). pose proof (max_end_ge _ _ Hin) as Hge.
  destruct (proj1 (Forall_forall _ _) (hr_use _ _ _ _ (pl_ready _ _ _ _ _ _ _ Hpl)) _ Hin) as (Hok & _).
  by rewrite chunk_end_ok in Hge.
Qed.

Lemma placed_root b i c : m !! b = Some i -> chunk_map (result_ h) !! b = Some c ->
  exists r, root_of m r b /\ r ∈ R /\ c = mkChunk (off r) (bi_size i).
Proof.
  intros Hi Hc. destruct (root_exists m now placed_store b i Hi) as (r & Hr & Hrb). exists r. split; [done|].
  rewrite (pl_map _ _ _ _ _ _ _ Hpl r b) in Hc by done. destruct (decide (r ∈ R)) as [|]; [split; [done|]|done].
  injection Hc as <-. unfold chunk_of. by rewrite (lookup_total_correct _ _ _ Hi).
Qed.

(** Buffers that share have the same root. *)
Lemma shares_root b c r : shares m b c -> root_of m r b <-> root_of m r c.
Proof.
  intros Hbc. unfold root_of. split; intros [Hr Hrb]; (split; [done|]); [by eapply rtc_r|].
  apply rtc_inv_r in Hrb as [<-|(b' & Hrb & Hb')]; [by destruct (shares_not_root m now placed_store b r Hbc)|].
  by rewrite (so_unique _ _ placed_store b b' c Hbc Hb').
Qed.

Lemma together_root ops b b' : (forall s c, shares m s c <-> shared_by ops s c) -> together ops b b' ->
  b = b' \/ exists r i i', root_of m r b /\ root_of m r b' /\ m !! b = Some i /\ m !! b' = Some i'.
Proof.
  intros Hsh Ht. assert (Hcase : b = b' \/ (is_Some (m !! b) /\ is_Some (m !! b') /\ forall r, root_of m r b <-> root_of m r b')).
  { induction Ht as [b|b c b' Hbc _ IH]; [by left|right].
    assert (Hstep : is_Some (m !! b) /\ is_Some (m !! c) /\ forall r, root_of m r b <-> root_of m r c).
    { assert (Hsome : forall s d, shares m s d -> is_Some (m !! s) /\ is_Some (m !! d)).
      { intros s d Hs. pose proof Hs as (i & Hi & _). destruct (shares_child m now placed_store s d Hs) as (j & Hj & _).
        split; [by exists i|by exists j]. }
      destruct Hbc as [Hbc|Hbc]; apply Hsh in Hbc; destruct (Hsome _ _ Hbc); (split; [done|]); (split; [done|]); intros r; [|symmetry]; by apply shares_root. }
    destruct Hstep as (Hb & Hc & Hr). destruct IH as [<-|(_ & Hb' & Hr')]; [done|].
    split; [done|]. split; [done|]. intros r. by rewrite Hr, Hr'. }
  destruct Hcase as [|([i Hi] & [i' Hi'] & Hr)]; [by left|right].
  destruct (root_exists m now placed_store b i Hi) as (r & Hroot & Hrb). exists r, i, i'. split; [done|]. split; [|done]. by apply Hr.
Qed.

Lemma root_together ops b b' r : (forall s c, shares m s c <-> shared_by ops s c) -> root_of m r b -> root_of m r b' -> together ops b b'.
Proof.
  intros Hsh [_ Hb] [_ Hb'].
  assert (Hs : forall c, rtc (shares m) r c -> rtsc (shared_by ops) r c).
  { intros c Hc. apply (rtc_subrel (shares m)); [|done]. intros x y Hxy. left. by apply Hsh. }
  unfold together. transitivity r; [symmetry|]; by apply Hs.
Qed.

(** Buffers that meet share or are disjoint. *)
Lemma meet_disjoint ops b b' i i' c c' :
  (forall s d, shares m s d <-> shared_by ops s d) -> m !! b = Some i -> m !! b' = Some i' -> meet i i' ->
  chunk_map (result_ h) !! b = Some c -> chunk_map (result_ h) !! b' = Some c' -> together ops b b' \/ disjoint c c'.
Proof.
  intros Hsh Hi Hi' Hm Hb Hb'.
  destruct (placed_root b i c Hi Hb) as (rb & [Hroot Hrb] & HrR & ->).
  destruct (placed_root b' i' c' Hi' Hb') as (rb' & [Hroot' Hrb'] & HrR' & ->).
  destruct (decide (rb = rb')) as [<-|Hne]; [left; by apply (root_together ops b b' rb)|right].
  pose proof (pl_disjoint _ _ _ _ _ _ _ Hpl rb rb' b b' i i' HrR HrR' Hne Hrb Hrb' Hi Hi' Hm) as Hd.
  unfold chunk_of in Hd. by rewrite (lookup_total_correct _ _ _ Hi), (lookup_total_correct _ _ _ Hi') in Hd.
Qed.

End Placed.

(** ** The theorems *)

Section Theorems.
Context `{HashOrder} (X alignment : Z) (type : HeapType) (compare : option (BufferInterval -> BufferInterval -> bool)) (ty : Ty).

(** C9: Finish places every buffer.  After calls that run through and stay within the
    limits it returns one heap; its map holds exactly the buffers that were
    allocated, each with a chunk of its size, at an aligned offset and below the size
    of the heap, which is the largest end of a chunk; buffers connected by ShareWith
    are at the same offset. *)
Theorem Finish_places_all ops h :
  run alignment type compare ty ops = OK h -> within_limits X alignment ops ->
  exists h' r, Finish h = OK (h', mkResult [r] (heap_size r)) /\
    (forall b z, (b, z) ∈ requests ops -> exists o, chunk_map r !! b = Some (mkChunk o z) /\
       0 <= o /\ o mod alignment = 0 /\ o + z <= heap_size r) /\
    (forall b, is_Some (chunk_map r !! b) -> b ∈ (requests ops).*1) /\
    (heap_size r = 0 \/ exists b c, chunk_map r !! b = Some c /\ chunk_end c = heap_size r) /\
    (forall b b' c c', together ops b b' -> chunk_map r !! b = Some c -> chunk_map r !! b' = Some c' -> offset c = offset c').
Proof.
  intros Hrun Hwl. destruct (run_Finish X alignment type compare ty ops h Hrun Hwl)
    as (h0 & h' & R & off & ivs & limit & Hc & HF & Hs & Hpl & HR & Ha).
  pose proof (sb_intervals _ _ Hs) as Em. exists h', (result_ h'). split; [done|].
  assert (HR' : forall r, is_root (buffer_intervals_ h') r -> r ∈ R) by (intros r; rewrite Em; apply HR).
  assert (Hsh : forall s c, shares (buffer_intervals_ h') s c <-> shared_by ops s c) by (rewrite Em; apply (ca_shares _ _ _ _ Hc)).
  assert (Hsz0 : 0 <= heap_size (result_ h')) by (rewrite (pl_size _ _ _ _ _ _ _ Hpl); apply max_end_nonneg).
  split; [|split; [|split]].
  - intros b z Hin. destruct (decide (z = 0)) as [->|Hz].
    + exists 0. destruct Hwl as [[Hnd _] _ _]. rewrite (pl_map0 _ _ _ _ _ _ _ Hpl b).
      { rewrite (ca_zero _ _ _ _ Hc b Hin). rewrite Z.mod_0_l by (rewrite <- Ha; pose proof (hr_alignment _ _ _ _ (pl_ready _ _ _ _ _ _ _ Hpl)); lia). done. }
      rewrite Em. destruct (buffer_intervals_ h !! b) as [i|] eqn:E; [|done].
      pose proof (so_size _ _ (ca_store _ _ _ _ Hc) b i E). apply (ca_requested _ _ _ _ Hc) in E.
      pose proof (NoDup_fst_unique _ _ _ _ Hnd Hin E). lia.
    + destruct (ca_interval _ _ _ _ Hc b z Hin Hz) as (i & Hi & <-). rewrite <- Em in Hi.
      destruct (root_exists _ _ (placed_store _ _ _ _ _ _ _ Hpl) b i Hi) as (r & Hr & Hrb).
      destruct (placed_group _ _ _ _ _ _ _ Hpl r b i) as (Ho & Hoa & Hm & _ & Hle); [done|by apply HR'|done|].
      exists (off r). by rewrite <- Ha.
  - intros b [c Hb]. destruct (buffer_intervals_ h' !! b) as [i|] eqn:E.
    + rewrite Em in E. apply (ca_requested _ _ _ _ Hc) in E. by apply (list_elem_of_fmap_2 fst) in E.
    + rewrite (pl_map0 _ _ _ _ _ _ _ Hpl b E) in Hb. apply (ca_map _ _ _ _ Hc) in Hb as [Hb _]. by apply (list_elem_of_fmap_2 fst) in Hb.
  - rewrite (pl_size _ _ _ _ _ _ _ Hpl). destruct (max_end_attained (iv_chunk <$> ivs)) as [|(c & Hin & Hce)]; [by left|right].
    apply list_elem_of_fmap in Hin as (v & -> & (r & b & Hr & Hb & ->)%(pl_ivs _ _ _ _ _ _ _ Hpl)).
    exists b, (chunk_of (buffer_intervals_ h') (off r) b). split; [|done]. rewrite (pl_map _ _ _ _ _ _ _ Hpl r b); [by rewrite decide_True|].
    split; [|done]. by apply (pl_roots _ _ _ _ _ _ _ Hpl).
  - intros b b' c c' Ht Hb Hb'. destruct (together_root _ _ _ _ _ _ _ Hpl ops b b' Hsh Ht) as [->|(r & i & i' & Hrb & Hrb' & _)]; [congruence|].
    assert (HrR : r ∈ R) by (apply HR', Hrb). rewrite (pl_map _ _ _ _ _ _ _ Hpl r) in Hb, Hb' by done.
    rewrite decide_True in Hb, Hb' by done. by simplify_eq.
Qed.

(** C10: No two buffers overlap.  Take a moment in a sequence of calls, and two buffers
    that are allocated by then and not yet freed, though they are freed in the end: in
    the heap that Finish returns, either they are connected by ShareWith, or their chunks
    are disjoint. *)
Theorem Finish_no_overlap ops1 ops2 h h' res r b b' c c' :
  run alignment type compare ty (ops1 ++ ops2) = OK h -> within_limits X alignment (ops1 ++ ops2) ->
  alive ops1 b -> alive ops1 b' -> freed (ops1 ++ ops2) b -> freed (ops1 ++ ops2) b' ->
  Finish h = OK (h', res) -> r ∈ heap_results res -> chunk_map r !! b = Some c -> chunk_map r !! b' = Some c' ->
  together (ops1 ++ ops2) b b' \/ disjoint c c'.
Proof.
  intros Hrun Hwl Hal Hal' Hfr Hfr' HF Hr Hb Hb'.
  destruct (run_called X alignment type compare ty _ h Hrun Hwl) as (h0 & Hf & _ & Hops & _ & Hlen).
  destruct (run_Finish X alignment type compare ty _ h Hrun Hwl) as (h0' & h2 & R & off & ivs & limit & Hc & HF2 & Hs & Hpl & HR & Ha).
  rewrite HF2 in HF. injection HF as <- <-. cbn [heap_results] in Hr. apply list_elem_of_singleton in Hr as ->.
  pose proof (sb_intervals _ _ Hs) as Em.
  destruct (alive_meet X h0 ops1 ops2 h b b' Hf (wl_formed _ _ _ Hwl) Hlen Hops Hal Hal' Hfr Hfr') as (i & i' & Hi & Hi' & Hm).
  rewrite <- Em in Hi, Hi'. apply (meet_disjoint _ _ _ _ _ _ _ Hpl _ b b' i i'); [|done..].
  intros s d. rewrite Em. apply (ca_shares _ _ _ _ Hc).
Qed.

(** In the middle of the loop of Finish: the intervals [l1] are placed, [i] is next. *)
Lemma run_next ops h l1 i l2 h1 h2 mx :
  run alignment type compare ty ops = OK h -> within_limits X alignment ops ->
  GetSortedBufferIntervals h = OK (l1 ++ i :: l2) -> foldM place h l1 = OK h1 -> place h1 i = OK h2 ->
  GetMaxColocationSize i h1 = OK mx ->
  buffer_intervals_ h !! bi_buffer i = Some i /\ same_but_placed h h1 /\
  (h2 = h1 \/ exists now limit R off ivs, placed (chunk_map (result_ h)) now limit R off h1 ivs /\ grows_when_full h1 h2 ivs i mx).
Proof.
  intros Hrun Hwl Hsort H1 H2 Hmx.
  destruct (run_ready X alignment type compare ty ops h Hrun Hwl) as (h0 & Hc & Hpl & HX & Ha & Hpos & Hlim).
  pose proof (pl_ready _ _ _ _ _ _ _ Hpl) as Hr.
  destruct (GetSortedBufferIntervals_ok h [] (current_time_ h) 0 Hr) as (l & Hl & Hp & _). rewrite Hsort in Hl. injection Hl as <-.
  assert (Hin : forall j, j ∈ l1 ++ i :: l2 -> buffer_intervals_ h !! bi_buffer j = Some j).
  { intros j. rewrite Hp. by apply (entries_elem h [] (current_time_ h) 0 Hr). }
  assert (Hnd : NoDup (bi_buffer <$> l1 ++ i :: l2)) by (rewrite Hp; by eapply entries_NoDup).
  assert (Hlen : Zlen (l1 ++ i :: l2) = Z.of_nat (base.size (buffer_intervals_ h))) by (unfold Zlen; by rewrite Hp, (entries_length h)).
  rewrite <- Hlen in Hlim. assert (Hlen2 : Zlen (l1 ++ i :: l2) = Zlen l1 + 1 + Zlen l2) by (rewrite Zlen_app; unfold Zlen; simpl; lia).
  pose proof (Zlen_nonneg l1). pose proof (Zlen_nonneg l2).
  destruct (place_all_ok (chunk_map (result_ h)) (current_time_ h) X h l1 HX) as (h1' & HF1 & Hpr); [nia|done|..].
  { rewrite fmap_app in Hnd. by apply NoDup_app in Hnd as (? & _). } { intros j Hj. apply Hin, elem_of_app. by left. }
  { split; [done|]. exists [], (fun _ => 0), []. split; [|done]. unfold Zlen. simpl. by rewrite Z.mul_0_l. }
  rewrite H1 in HF1. injection HF1 as <-. split; [apply Hin, elem_of_app; right; left|]. split; [apply Hpr|].
  destruct (progress_step (chunk_map (result_ h)) (current_time_ h) X h l1 i l2 h1 HX Hlim Hpos Hnd Hin Hpr) as (h2' & mx' & HP & _ & Hg).
  rewrite H2 in HP. injection HP as <-. destruct (bi_need_allocation i) eqn:Hn.
  - right. destruct (Hg eq_refl) as (Hmx' & R & off & ivs & Hpl1 & Hgrow). assert (mx' = mx) as -> by congruence.
    by exists (current_time_ h), (Zlen l1 * step_size X h), R, off, ivs.
  - left. unfold place in H2. rewrite Hn in H2. by injection H2 as <-.
Qed.

(** A place that the chunks assigned leave free is not blocked. *)
Lemma disjoint_unblocked cm0 now limit R off h ivs i o mx :
  placed cm0 now limit R off h ivs -> buffer_intervals_ h !! bi_buffer i = Some i ->
  (forall b j b' j' c, rtc (shares (buffer_intervals_ h)) (bi_buffer i) b -> buffer_intervals_ h !! b = Some j ->
     buffer_intervals_ h !! b' = Some j' -> chunk_map (result_ h) !! b' = Some c -> meet j j' ->
     disjoint (mkChunk o mx) c) ->
  unblocked (buffer_intervals_ h) ivs i o (o + mx).
Proof.
  intros Hpl Hi Hfree u (v & (r & b' & Hr' & Hb' & ->)%(pl_ivs _ _ _ _ _ _ _ Hpl) & <- & Hlive).
  pose proof (pl_roots _ _ _ _ _ _ _ Hpl r Hr') as Hroot. pose proof Hroot as (ir & Hir & _).
  destruct (rtc_shares_lookup _ _ (placed_store _ _ _ _ _ _ _ Hpl) r b' ir Hb' Hir) as [j' Hj'].
  unfold interval_of, live_in in *. cbn [iv_start iv_end iv_chunk] in *. rewrite (lookup_total_correct _ _ _ Hj') in Hlive.
  assert (Hcm : chunk_map (result_ h) !! b' = Some (chunk_of (buffer_intervals_ h) (off r) b')).
  { rewrite (pl_map _ _ _ _ _ _ _ Hpl r b'), decide_True; [done|done|by split]. }
  destruct Hlive as [Hlive|(d & j & Hd & Hj & Hlive)]; apply Is_true_true in Hlive.
  - apply (Hfree (bi_buffer i) i b' j' _ (rtc_refl _ _) Hi Hj' Hcm). unfold meet. lia.
  - apply (Hfree d j b' j'); [|done|done|done|unfold meet; lia]. apply (below_tc _ (bi_buffer i)) in Hd; [|done]. by apply tc_rtc.
Qed.

(** C28: The heap grows only when it is full.  When Finish has placed the first
    intervals of its order and places the next one, [i], with space for the largest
    buffer of its group: if the heap has any aligned place of that size up to its
    current end that no buffer uses which lives at the same time as one of the group,
    then the heap does not grow. *)
Theorem Finish_grows_when_full ops h l1 i l2 h1 h2 mx o :
  run alignment type compare ty ops = OK h -> within_limits X alignment ops ->
  GetSortedBufferIntervals h = OK (l1 ++ i :: l2) -> foldM place h l1 = OK h1 -> place h1 i = OK h2 ->
  GetMaxColocationSize i h1 = OK mx -> 0 <= o -> o mod alignment = 0 -> o + mx <= heap_size (result_ h1) ->
  (forall b j b' j' c, rtc (shares (buffer_intervals_ h)) (bi_buffer i) b -> buffer_intervals_ h !! b = Some j ->
     buffer_intervals_ h !! b' = Some j' -> chunk_map (result_ h1) !! b' = Some c -> meet j j' ->
     disjoint (mkChunk o mx) c) ->
  heap_size (result_ h2) = heap_size (result_ h1).
Proof.
  intros Hrun Hwl Hsort H1 H2 Hmx Ho Hoa Hom Hfree.
  destruct (run_next ops h l1 i l2 h1 h2 mx Hrun Hwl Hsort H1 H2 Hmx) as (Hi & Hs & [->|(now & limit & R & off & ivs & Hpl & Hle & Hgrow)]); [done|].
  destruct (run_ready X alignment type compare ty ops h Hrun Hwl) as (_ & _ & _ & _ & Ha & _).
  destruct (decide (heap_size (result_ h1) < heap_size (result_ h2))) as [Hlt|]; [|lia]. exfalso.
  apply (Hgrow Hlt o Ho); [by rewrite (sb_alignment _ _ Hs), Ha|done|].
  apply (disjoint_unblocked _ _ _ _ _ _ _ _ _ _ Hpl); rewrite (sb_intervals _ _ Hs); done.
Qed.

End Theorems.

(** ** A run

    The calls of a test in heap_simulator_test.cc, with a hash table that keeps the
    order of insertion. *)

Section Demo.
#[local] Instance demo_order : HashOrder := {| iterate l := l; iterate_Permutation l := Permutation_refl l |}.

Definition demo_ops : list heap_op :=
  [OpAlloc 1 10; OpAlloc 2 20; OpAlloc 3 40; OpFree 1 10; OpAlloc 4 30; OpAlloc 5 50; OpFree 2 20; OpFree 3 40;
   OpFree 4 30; OpFree 5 50].

Definition new_demo : outcome BestFitHeap := new_GlobalDecreasingSizeBestFitHeap 1 kSpatial None kAll.
Definition demo_heap : outcome BestFitHeap := run 1 kSpatial None kAll demo_ops.

Lemma demo_limits : within_limits 50 1 demo_ops.
Proof.
  split; [split|lia|vm_compute; reflexivity].
  - by apply (bool_decide_unpack _).
  - by apply (bool_decide_unpack _).
Qed.

Example demo_result :
  match (h ← demo_heap; Finish h) with
  | OK (_, mkResult [r] size) =>
      size = 140 /\ (fun b => offset <$> chunk_map r !! b) <$> [1; 2; 3; 4; 5] = [Some 90; Some 120; Some 50; Some 90; Some 0]
  | _ => False
  end.
Proof. vm_compute. split; reflexivity. Qed.

Lemma Finish_places_all_witness : exists h h' r, demo_heap = OK h /\ Finish h = OK (h', mkResult [r] (heap_size r)) /\
  exists o, chunk_map r !! 4 = Some (mkChunk o 30) /\ o + 30 <= heap_size r.
Proof.
  destruct demo_heap as [h| | |] eqn:E; [|vm_compute in E; discriminate E..].
  destruct (Finish_places_all 50 1 kSpatial None kAll demo_ops h E demo_limits) as (h' & r & HF & Hall & _).
  exists h, h', r. split; [reflexivity|]. split; [exact HF|].
  destruct (Hall 4 30) as (o & Ho & _ & _ & Hle); [by apply (bool_decide_unpack _)|]. by exists o.
Defined.

(** The calls of a list that free a buffer. *)
Definition frees (b : buffer_id) (o : heap_op) : bool := match o with OpFree b' _ => b =? b' | _ => false end.

Lemma not_listed ops b z : forallb (fun o => negb (frees b o)) ops = true -> OpFree b z ∈ ops -> False.
Proof. rewrite forallb_forall. intros HF Hin%list_elem_of_In%HF. cbn in Hin. by rewrite Z.eqb_refl in Hin. Qed.

Lemma Finish_no_overlap_witness : exists h h' r c c', demo_heap = OK h /\ Finish h = OK (h', mkResult [r] 140) /\
  chunk_map r !! 2 = Some c /\ chunk_map r !! 4 = Some c' /\ (together demo_ops 2 4 \/ disjoint c c').
Proof.
  destruct demo_heap as [h| | |] eqn:E; [|vm_compute in E; discriminate E..].
  assert (HF : exists h' r, Finish h = OK (h', mkResult [r] 140) /\ chunk_map r !! 2 = Some (mkChunk 120 20) /\
    chunk_map r !! 4 = Some (mkChunk 90 30)).
  { vm_compute in E. injection E as <-. eexists _, _. split; [vm_compute; reflexivity|]. split; vm_compute; reflexivity. }
  destruct HF as (h' & r & HF & H2 & H4). exists h, h', r, (mkChunk 120 20), (mkChunk 90 30). split; [reflexivity|]. split; [exact HF|].
  split; [exact H2|]. split; [exact H4|].
  refine (Finish_no_overlap 50 1 kSpatial None kAll (take 6 demo_ops) (drop 6 demo_ops) h h' _ r 2 4 (mkChunk 120 20) (mkChunk 90 30) E demo_limits _ _ _ _ HF _ H2 H4).
  - split; [exists 20; split; [by apply (bool_decide_unpack _)|done]|].
    intros (z & Hin & _). exact (not_listed (take 6 demo_ops) 2 z eq_refl Hin).
  - split; [exists 30; split; [by apply (bool_decide_unpack _)|done]|].
    intros (z & Hin & _). exact (not_listed (take 6 demo_ops) 4 z eq_refl Hin).
  - exists 20. split; [|done]. apply list_elem_of_lookup. by exists 6%nat.
  - exists 30. split; [|done]. apply list_elem_of_lookup. by exists 8%nat.
  - left.
Defined.

Definition alone (x : Z * BufferInterval) : bool := match bi_colocations x.2 with [] => true | _ => false end.

Lemma no_colocations m b c : forallb alone (map_to_list m) = true -> rtc (shares m) b c -> b = c.
Proof. intros Hm [|? ? ? (i & Hi & Hin)]; [done|]. rewrite forallb_forall in Hm.
  apply elem_of_map_to_list, list_elem_of_In, Hm in Hi. unfold alone in Hi. cbn in Hi. destruct (bi_colocations i); [|done].
  by apply not_elem_of_nil in Hin.
Qed.

(** No buffer that meets [i] is placed across the bytes from [o] to [o + mx]. *)
Definition clear_of (m : store) (cm : gmap buffer_id Chunk) (i : BufferInterval) (o mx : Z) : bool :=
  forallb (fun x => match cm !! x.1 with
                    | Some c => negb ((bi_start i <=? bi_end x.2) && (bi_start x.2 <=? bi_end i)) ||
                                (o + mx <=? offset c) || (offset c + size c <=? o)
                    | None => true
                    end) (map_to_list m).

Lemma clear_of_disjoint m cm i o mx b j c :
  clear_of m cm i o mx = true -> m !! b = Some j -> cm !! b = Some c -> meet i j -> disjoint (mkChunk o mx) c.
Proof.
  intros HF Hj Hc Hm. unfold clear_of in HF. rewrite forallb_forall in HF.
  apply elem_of_map_to_list, list_elem_of_In, HF in Hj. cbn in Hj. rewrite Hc in Hj.
  unfold meet, disjoint in *. cbn [offset size] in *. lia.
Qed.

(** The first four buffers of the order are placed, the fifth fits at 90. *)
Lemma Finish_grows_when_full_witness : exists h l i h1 h2, demo_heap = OK h /\ GetSortedBufferIntervals h = OK (l ++ [i]) /\
  length l = 4%nat /\ foldM place h l = OK h1 /\ place h1 i = OK h2 /\ heap_size (result_ h2) = heap_size (result_ h1).
Proof.
  destruct demo_heap as [h| | |] eqn:E; [|vm_compute in E; discriminate E..]. exists h.
  assert (HS : exists l i h1 h2, GetSortedBufferIntervals h = OK (l ++ [i]) /\ length l = 4%nat /\ foldM place h l = OK h1 /\
    place h1 i = OK h2 /\ GetMaxColocationSize i h1 = OK 10 /\ bi_buffer i = 1 /\ heap_size (result_ h1) = 140 /\
    forallb alone (map_to_list (buffer_intervals_ h)) = true /\ buffer_intervals_ h !! 1 = Some i /\
    clear_of (buffer_intervals_ h) (chunk_map (result_ h1)) i 90 10 = true).
  { vm_compute in E. injection E as <-. eexists (_ :: _ :: _ :: [_]), _, _, _.
    split; [vm_compute; reflexivity|]. split; [reflexivity|]. do 7 (split; [vm_compute; reflexivity|]). vm_compute. reflexivity. }
  destruct HS as (l & i & h1 & h2 & H1 & H2 & H3 & H4 & H5 & H6 & H7 & H8 & H9 & H10). exists l, i, h1, h2.
  do 5 (split; [done|]). apply (Finish_grows_when_full 50 1 kSpatial None kAll demo_ops h l i [] h1 h2 10 90);
    [done|apply demo_limits|done..|lia|reflexivity|lia|].
  rewrite H6. intros b j b' j' c Hb Hj Hj' Hc Hm. apply (no_colocations _ _ _ H8) in Hb as <-.
  assert (i = j) as <- by congruence. by apply (clear_of_disjoint _ _ i 90 10 b' j' c H10).
Defined.

End Demo.

(** ** The best-fit heap: inputs on which the code fails

    And a comment that the code does not follow. *)

#[local] Existing Instance demo_order.

(** With alignment 1, MakeFreeChunks is asked for the slices but the last with
    [max_colocation_size = -1].  A chunk in use that ends one byte behind the start of
    another one, which lives at another time, then leaves a free chunk of size -1
    behind, and the finder's CHECK fails: *)
Definition occupied (alignment : Z) : outcome BestFitHeap :=
  h ← new_GlobalDecreasingSizeBestFitHeap alignment kSpatial None kAll;
  h ← CommitChunk (mkBuffer 1 5 0 1 [] true) (mkChunk 20 5) h;
  CommitChunk (mkBuffer 2 6 3 4 [] true) (mkChunk 15 6) h.

Definition two_slices : outcome SlicedBufferInterval :=
  s ← CreateMutableInterval (mkBuffer 3 10 0 8 [] true);
  s ← Slice [5; 5] s;
  UpdateInclusiveSliceStartTimes [0; 5] s.

Lemma free_chunk_negative :
  (s ← two_slices; i ← IntervalForMakeFreeChunks 0 s; h ← occupied 1; MakeFreeChunks i (-1) h) =
    OK [(25, int64_max); (21, 20); (0, 15)] /\
  (s ← two_slices; h ← occupied 1; FindChunkCandidates s (-1) h) = Crash.
Proof. split; vm_compute; reflexivity. Qed.

(** The same buffers, in slices of other sizes at multiples of 5, are placed. *)
Lemma free_chunk_fine :
  (s ← two_slices; h ← occupied 5; FindChunkCandidates s (-1) h) = OK [mkChunk 0 5; mkChunk 5 5].
Proof. vm_compute. reflexivity. Qed.

(** AccountForSubcomputationMemory counts no memory: whatever the subcomputations
    need, the peak becomes the maximum of itself and what is alive already. *)
Lemma subcomputations_not_counted b alloc h :
  is_i64 (current_heap_size_ h) = true -> current_heap_size_ h <= max_heap_size_ h ->
  stats_AccountForSubcomputationMemory b alloc h = h.
Proof.
  intros Hi Hle. destruct h as [cur mx]. unfold stats_AccountForSubcomputationMemory. cbn [current_heap_size_ max_heap_size_ Z.ltb Z.compare andb] in *.
  f_equal. unfold add64. rewrite Z.add_0_r, i64_small by done. lia.
Qed.
