(* ===== verification/BestFitPeak.v ===== *)
(** * A lower bound: the heap without fragmentation

    NoFragmentationStatsHeap adds up what is alive; its peak is what a heap needs at
    least.  After the same calls, without ShareWith, the heap of the best-fit algorithm
    is at least as large. *)

From stdpp Require Import gmap sorting.
From S2P Require Import Prelude MachineInt MathUtil IntervalTree IntervalTreeInv IntervalTreeTheorems SlicePermutation.
From S2P Require Import AllocationFinder FinderPieces FinderFit BestFitHeap BestFitColocations BestFitChunks.
From S2P Require Import BestFitPlace BestFitCommit BestFitFinish BestFitTrace BestFitTheorems.

(** ** Disjoint chunks fill no more than the heap *)

Definition offset_le (c d : Chunk) : Prop := offset c <= offset d.
#[local] Instance offset_le_dec : RelDecision offset_le.
Proof. intros c d. unfold offset_le. apply _. Defined.
#[local] Instance offset_le_total : Total offset_le.
Proof. intros c d. unfold offset_le. lia. Qed.
#[local] Instance offset_le_trans : Transitive offset_le.
Proof. intros c d e. unfold offset_le. lia. Qed.

(** Pairwise disjoint chunks; the order of the list does not matter. *)
Definition all_disjoint (cs : list Chunk) : Prop :=
  forall j k c d, j <> k -> cs !! j = Some c -> cs !! k = Some d -> disjoint c d.

Lemma all_disjoint_cons c cs : all_disjoint (c :: cs) <-> Forall (disjoint c) cs /\ all_disjoint cs.
Proof.
  split.
  - intros Hd. split.
    + apply Forall_lookup. intros k d Hk. by apply (Hd 0%nat (S k)).
    + intros j k d e Hne Hj Hk. apply (Hd (S j) (S k)); [congruence|done|done].
  - intros [HF Hd] [|j] [|k] d e Hne; simpl.
    + done.
    + intros [= <-] Hk. by apply (proj1 (Forall_lookup _ _) HF k).
    + intros Hj [= <-]. pose proof (proj1 (Forall_lookup _ _) HF j d Hj) as [?|?]; [by right|by left].
    + intros Hj Hk. apply (Hd j k); [congruence|done|done].
Qed.

#[global] Instance all_disjoint_Proper : Proper ((≡ₚ) ==> iff) all_disjoint.
Proof.
  assert (Hone : forall cs cs', cs ≡ₚ cs' -> all_disjoint cs -> all_disjoint cs').
  { intros cs cs' Hp. induction Hp as [|c cs cs' Hp IH|c d cs|cs1 cs2 cs3 _ IH1 _ IH2]; [done|..|tauto].
    - rewrite !all_disjoint_cons. intros [HF Hd]. split; [by rewrite <- Hp|by apply IH].
    - rewrite !all_disjoint_cons, !Forall_cons. intros ([Hdc HFd] & HFc & Hcs). split; [|done]. split; [|done].
      destruct Hdc; [by right|by left]. }
  intros cs cs' Hp. split; by apply Hone.
Qed.

#[global] Instance total_Proper : Proper ((≡ₚ) ==> (=)) total.
Proof. intros l l' Hp. unfold total. induction Hp; simpl; lia. Qed.

Lemma sorted_fill cs base top :
  StronglySorted offset_le cs -> all_disjoint cs -> base <= top ->
  Forall (fun c => base <= offset c /\ 0 < size c /\ offset c + size c <= top) cs -> total (size <$> cs) <= top - base.
Proof.
  intros Hs. revert base. induction Hs as [|c cs Hs IH HF]; intros base Hd Hbt Hcs; [simpl; lia|].
  apply all_disjoint_cons in Hd as [Hdc Hd]. apply Forall_cons in Hcs as [(Hb & Hsc & Ht) Hcs]. cbn [fmap list_fmap total foldr].
  assert (Hrest : total (size <$> cs) <= top - (offset c + size c)); [|unfold total in *; simpl in *; lia].
  apply IH; [done|lia|]. apply Forall_forall. intros d Hin. rewrite Forall_forall in HF, Hdc, Hcs.
  pose proof (HF d Hin) as Hle. pose proof (Hdc d Hin) as Hdis. pose proof (Hcs d Hin). unfold offset_le, disjoint in *. lia.
Qed.

Lemma disjoint_fill cs top :
  all_disjoint cs -> 0 <= top -> Forall (fun c => 0 <= offset c /\ 0 < size c /\ offset c + size c <= top) cs ->
  total (size <$> cs) <= top.
Proof.
  intros Hd Ht Hcs. rewrite <- (merge_sort_Permutation offset_le cs) in Hd, Hcs |- *.
  pose proof (sorted_fill _ 0 top (StronglySorted_merge_sort offset_le cs) Hd Ht Hcs). lia.
Qed.

(** ** What is alive *)

Definition live_intervals (m : store) : list (buffer_id * BufferInterval) :=
  filter (fun x => bi_end x.2 = -1) (map_to_list m).

Definition live_size (m : store) : Z := total ((fun x => bi_size x.2) <$> live_intervals m).

Lemma live_size_insert (m : store) b i :
  m !! b = None -> live_size (<[b := i]> m) = live_size m + (if decide (bi_end i = -1) then bi_size i else 0).
Proof.
  intros Hb. unfold live_size, live_intervals. rewrite (map_to_list_insert m b i Hb), filter_cons. cbn [snd].
  destruct (decide (bi_end i = -1)); cbn [fmap list_fmap total foldr snd]; unfold total; simpl; lia.
Qed.

Lemma live_size_replace (m : store) b i j :
  m !! b = Some i -> live_size (<[b := j]> m) =
  live_size m - (if decide (bi_end i = -1) then bi_size i else 0) + (if decide (bi_end j = -1) then bi_size j else 0).
Proof.
  intros Hb. rewrite <- (insert_delete_eq m b j). rewrite <- (insert_id m b i Hb) at 2. rewrite <- (insert_delete_eq m b i).
  rewrite !live_size_insert by apply lookup_delete_eq. lia.
Qed.

Definition stats_call (s : NoFragmentationStatsHeap) (o : heap_op) : NoFragmentationStatsHeap :=
  match o with
  | OpAlloc _ size => stats_Alloc size s
  | OpShareWith _ _ size => stats_Alloc size s
  | OpFree _ size => stats_Free size s
  end.

Definition stats_after (ops : list heap_op) : NoFragmentationStatsHeap := foldl stats_call new_NoFragmentationStatsHeap ops.

Lemma NoDup_fst_filter (P : buffer_id * BufferInterval -> Prop) `{forall x, Decision (P x)} l : NoDup l.*1 -> NoDup (filter P l).*1.
Proof.
  induction l as [|x l IH]; [done|]. rewrite filter_cons. intros [Hx Hnd]%NoDup_cons. destruct (decide (P x)); [|by apply IH].
  cbn [fmap list_fmap]. apply NoDup_cons. split; [|by apply IH]. intros (y & Ey & [_ Hy]%list_elem_of_filter)%list_elem_of_fmap.
  apply Hx. rewrite Ey. by apply list_elem_of_fmap_2.
Qed.

Definition no_sharing (ops : list heap_op) : Prop := forall b s z, OpShareWith b s z ∉ ops.
Definition all_freed (ops : list heap_op) : Prop := forall b z, (b, z) ∈ requests ops -> z <> 0 -> freed ops b.

Lemma together_alone ops b b' : no_sharing ops -> together ops b b' -> b = b'.
Proof.
  intros Hno. induction 1 as [b|b c b' Hbc _ IH]; [done|]. destruct Hbc as [(z & Hin & _)|(z & Hin & _)]; by apply Hno in Hin.
Qed.

Section Peak.
Context `{HashOrder} (X alignment : Z) (type : HeapType) (compare : option (BufferInterval -> BufferInterval -> bool)) (ty : Ty).
Context (ops : list heap_op) (h : BestFitHeap) (Hrun : run alignment type compare ty ops = OK h).
Context (Hwl : within_limits X alignment ops) (Hno : no_sharing ops) (Hfreed : all_freed ops).
Context (h' : BestFitHeap) (res : Result) (HF : Finish h = OK (h', res)).

(** What is alive at a moment fits into the heap. *)
Lemma live_fits l1 l2 h0 h1 :
  ops = l1 ++ l2 -> fresh_heap h0 -> called X h0 l1 h1 -> foldM heap_call h0 ops = OK h ->
  live_size (buffer_intervals_ h1) <= result_heap_size res.
Proof.
  intros Hops Hf Hc1 Hall.
  destruct (run_called X alignment type compare ty ops h Hrun Hwl) as (_ & _ & _ & _ & _ & Hlen).
  destruct (run_Finish X alignment type compare ty ops h Hrun Hwl) as (h0' & h2 & R & off & ivs & limit & Hc & HF2 & Hs & Hpl & HR & _).
  rewrite HF2 in HF. injection HF as <- <-. cbn [result_heap_size]. pose proof (sb_intervals _ _ Hs) as Em.
  assert (HR' : forall r, is_root (buffer_intervals_ h2) r -> r ∈ R) by (intros r; rewrite Em; apply HR).
  assert (Hsh : forall s d, shares (buffer_intervals_ h2) s d <-> shared_by ops s d) by (intros s d; rewrite Em; apply (ca_shares _ _ _ _ Hc)).
  set (ch (x : buffer_id * BufferInterval) := default (mkChunk 0 0) (chunk_map (result_ h2) !! x.1)).
  assert (Hlive : forall b i, (b, i) ∈ live_intervals (buffer_intervals_ h1) ->
    alive l1 b /\ freed ops b /\ exists j, buffer_intervals_ h2 !! b = Some j /\ bi_size j = bi_size i).
  { intros b i [Hend Hi%elem_of_map_to_list]%list_elem_of_filter. pose proof (ca_requested _ _ _ _ Hc1 b i Hi) as Hreq.
    pose proof (so_size _ _ (ca_store _ _ _ _ Hc1) b i Hi). assert (Hreq' : (b, bi_size i) ∈ requests ops).
    { rewrite Hops, requests_app. apply elem_of_app. by left. }
    split; [split; [exists (bi_size i); split; [done|lia]|by apply (ca_freed _ _ _ _ Hc1 b i Hi)]|].
    split; [apply (Hfreed b _ Hreq'); lia|].
    destruct (ca_interval _ _ _ _ Hc b _ Hreq') as (j & Hj & ?); [lia|]. exists j. by rewrite Em. }
  assert (Hch : forall b i, (b, i) ∈ live_intervals (buffer_intervals_ h1) ->
    chunk_map (result_ h2) !! b = Some (ch (b, i)) /\ size (ch (b, i)) = bi_size i /\
    0 <= offset (ch (b, i)) /\ 0 < size (ch (b, i)) /\ offset (ch (b, i)) + size (ch (b, i)) <= heap_size (result_ h2)).
  { intros b i Hin. destruct (Hlive b i Hin) as (_ & _ & j & Hj & Ej).
    destruct (root_exists _ _ (placed_store _ _ _ _ _ _ _ Hpl) b j Hj) as (r & Hr & Hrb).
    destruct (placed_group _ _ _ _ _ _ _ Hpl r b j) as (Ho & _ & Hm & _ & Hle); [done|by apply HR'|done|].
    pose proof (so_size _ _ (placed_store _ _ _ _ _ _ _ Hpl) b j Hj). unfold ch. cbn [fst]. rewrite Hm. simpl. rewrite <- Ej. auto. }
  assert (Esz : live_size (buffer_intervals_ h1) = total (size <$> (ch <$> live_intervals (buffer_intervals_ h1)))).
  { unfold live_size. f_equal. rewrite <- list_fmap_compose. apply list_fmap_ext. intros k [b i] Hk%list_elem_of_lookup_2.
    simpl. symmetry. apply (Hch b i Hk). }
  rewrite Esz. apply disjoint_fill.
  - intros j k c d Hjk Hj Hk. apply list_lookup_fmap_Some in Hj as ([b i] & -> & Hj), Hk as ([b' i'] & -> & Hk).
    assert (Hne : b <> b').
    { intros <-. apply Hjk. apply (NoDup_lookup (live_intervals (buffer_intervals_ h1)).*1 j k b); [|by rewrite list_lookup_fmap, ?Hj, ?Hk..].
      apply NoDup_fst_filter, NoDup_fst_map_to_list. }
    apply list_elem_of_lookup_2 in Hj, Hk. destruct (Hlive b i Hj) as (Ha & Hfr & _). destruct (Hlive b' i' Hk) as (Ha' & Hfr' & _).
    rewrite Hops in Hall, Hlen, Hfr, Hfr'. pose proof (wl_formed _ _ _ Hwl) as Hwf. rewrite Hops in Hwf.
    destruct (alive_meet X h0 l1 l2 h b b' Hf Hwf Hlen Hall Ha Ha' Hfr Hfr') as (a & a' & Hia & Hia' & Hm).
    rewrite <- Em in Hia, Hia'.
    destruct (meet_disjoint _ _ _ _ _ _ _ Hpl ops b b' a a' _ _ Hsh Hia Hia' Hm (proj1 (Hch b i Hj)) (proj1 (Hch b' i' Hk))) as [Ht|]; [|done].
    by apply together_alone in Ht.
  - rewrite (pl_size _ _ _ _ _ _ _ Hpl). apply max_end_nonneg.
  - apply Forall_fmap, Forall_forall. intros [b i] Hin. simpl. apply (Hch b i Hin).
Qed.


Lemma live_nonneg h0 l1 h1 : called X h0 l1 h1 -> 0 <= live_size (buffer_intervals_ h1).
Proof.
  intros Hc. apply total_nonneg, Forall_fmap, Forall_forall. intros [b i] [_ Hin%elem_of_map_to_list]%list_elem_of_filter.
  exact (so_size _ _ (ca_store _ _ _ _ Hc) b i Hin).
Qed.

Lemma res_small : result_heap_size res <= int64_max.
Proof.
  destruct (run_Finish X alignment type compare ty ops h Hrun Hwl) as (_ & h2 & R & off & ivs & limit & _ & HF2 & _ & Hpl & _).
  rewrite HF2 in HF. injection HF as _ <-. cbn [result_heap_size]. rewrite (pl_size _ _ _ _ _ _ _ Hpl).
  apply max_end_le; [by unfold int64_max; z64; lia|]. eapply Forall_impl; [exact (hr_use _ _ _ _ (pl_ready _ _ _ _ _ _ _ Hpl))|].
  intros u (Hu & _). rewrite chunk_end_ok by done. by destruct Hu as (_ & _ & ?).
Qed.

(** One call changes what is alive by its size. *)
Lemma call_live h0 l1 o l2 h1 h2 :
  ops = l1 ++ o :: l2 -> called X h0 l1 h1 -> heap_call h1 o = OK h2 ->
  match o with
  | OpAlloc _ z => 0 <= z /\ live_size (buffer_intervals_ h2) = live_size (buffer_intervals_ h1) + z
  | OpShareWith _ _ _ => False
  | OpFree _ z => live_size (buffer_intervals_ h2) = live_size (buffer_intervals_ h1) - z
  end.
Proof.
  intros Hops Hc Hcall. destruct o as [b z|b s z|b z]; cbn [heap_call] in Hcall.
  - assert (Hz : 0 <= z).
    { destruct (wl_formed _ _ _ Hwl) as [_ Hsz]. rewrite Hops, requests_app, fmap_app in Hsz.
      apply Forall_app in Hsz as [_ [[? _] _]%Forall_cons]. done. }
    split; [done|]. unfold Alloc in Hcall. destruct (Z.eqb_spec z 0) as [->|Hz0].
    { injection Hcall as <-. cbn [AddToChunkMap set_result buffer_intervals_]. lia. }
    unfold add_interval in Hcall. cbn [bi_buffer] in Hcall. case_bool_decide as Hn; [|done]. cbn [check mbind outcome_bind] in Hcall.
    injection Hcall as <-. cbn [tick set_intervals buffer_intervals_]. rewrite live_size_insert by done. by rewrite decide_True.
  - apply (Hno b s z). rewrite Hops. apply elem_of_app. right. left.
  - unfold Free in Hcall. destruct (Z.eqb_spec z 0) as [->|Hz0]; [injection Hcall as <-; lia|].
    destruct (buffer_intervals_ h1 !! b) as [i|] eqn:Ei; [|done].
    destruct (bi_buffer i =? b); [|done]. destruct (Z.eqb_spec (bi_size i) z) as [Ez|]; [|done].
    destruct (Z.eqb_spec (bi_end i) (-1)) as [Ee|]; [|done]. cbn [check mbind outcome_bind negb] in Hcall. injection Hcall as <-.
    cbn [tick set_intervals buffer_intervals_]. rewrite (live_size_replace _ b i) by done. rewrite decide_True by done.
    cbn [set_bi_end bi_end]. pose proof (ca_time _ _ _ _ Hc). rewrite decide_False by lia. lia.
Qed.

(** The counters after a prefix of the calls. *)
Lemma stats_step l1 o l2 h0 h1 h2 :
  ops = l1 ++ o :: l2 -> fresh_heap h0 -> foldM heap_call h0 ops = OK h -> called X h0 l1 h1 -> heap_call h1 o = OK h2 ->
  current_heap_size_ (stats_after l1) = live_size (buffer_intervals_ h1) /\ max_heap_size_ (stats_after l1) <= result_heap_size res ->
  called X h0 (l1 ++ [o]) h2 /\ current_heap_size_ (stats_after (l1 ++ [o])) = live_size (buffer_intervals_ h2) /\
    max_heap_size_ (stats_after (l1 ++ [o])) <= result_heap_size res.
Proof.
  intros Hops Hf Hall Hc Hcall [Hcur Hmax].
  destruct (run_called X alignment type compare ty ops h Hrun Hwl) as (_ & _ & _ & _ & _ & Hlen).
  assert (Hops2 : ops = (l1 ++ [o]) ++ l2) by by rewrite Hops, <- app_assoc.
  assert (Hc2 : called X h0 (l1 ++ [o]) h2).
  { apply (called_step X h0 l1 o h1 h2 Hc); [| |done].
    - rewrite <- (len_snoc l1 o). rewrite Hops2, Zlen_app in Hlen. pose proof (Zlen_nonneg l2). lia.
    - destruct (wl_formed _ _ _ Hwl) as [Hnd Hsz]. rewrite Hops2, requests_app, fmap_app in Hnd, Hsz.
      apply NoDup_app in Hnd as (Hnd & _). apply Forall_app in Hsz as [Hsz _]. by split. }
  split; [done|]. pose proof (live_fits (l1 ++ [o]) l2 h0 h2 Hops2 Hf Hc2 Hall) as Hfit. pose proof res_small as Hres.
  pose proof (live_nonneg h0 l1 h1 Hc) as H1. pose proof (live_nonneg h0 _ h2 Hc2) as H2.
  pose proof (live_fits l1 (o :: l2) h0 h1 Hops Hf Hc Hall) as Hfit1.
  pose proof (call_live h0 l1 o l2 h1 h2 Hops Hc Hcall) as Hl. unfold stats_after in *. rewrite foldl_app. cbn [foldl].
  unfold int64_max in Hres. destruct o as [b z|b s z|b z]; [|done|]; cbn [stats_call stats_Alloc stats_Free current_heap_size_ max_heap_size_].
  - destruct Hl as [Hz Hl]. rewrite Hcur, add64_small by (z64; lia). split; [lia|]. destruct (_ <? _); lia.
  - rewrite Hcur, sub64_small by (z64; lia). lia.
Qed.

Lemma stats_after_ops : max_heap_size_ (stats_after ops) <= result_heap_size res.
Proof.
  destruct (run_called X alignment type compare ty ops h Hrun Hwl) as (h0 & Hf & _ & Hall & _).
  pose proof (live_fits [] ops h0 h0 eq_refl Hf (called_nil X h0 Hf) Hall) as H0.
  pose proof (live_nonneg h0 [] h0 (called_nil X h0 Hf)) as H1.
  assert (Hinv : called X h0 ops h /\ current_heap_size_ (stats_after ops) = live_size (buffer_intervals_ h) /\
    max_heap_size_ (stats_after ops) <= result_heap_size res); [|tauto].
  apply (foldM_inv (fun l h1 => called X h0 l h1 /\ current_heap_size_ (stats_after l) = live_size (buffer_intervals_ h1) /\
    max_heap_size_ (stats_after l) <= result_heap_size res) heap_call ops h0 h); [| |done].
  - split; [by apply called_nil|]. destruct Hf as (Em & _). rewrite Em. split; [done|simpl; lia].
  - intros l1 o l2 h1 h2 Hops [Hc Hst] Hcall. by apply (stats_step l1 o l2 h0 h1 h2).
Qed.

End Peak.

Section Bound.
Context `{HashOrder} (X alignment : Z) (type : HeapType) (compare : option (BufferInterval -> BufferInterval -> bool)) (ty : Ty).

(** C29: No heap can be smaller than what is alive at once, and Finish reports no less:
    for calls without ShareWith that free every buffer, the size that
    NoFragmentationStatsHeap computes from the same calls is at most the size that
    GlobalDecreasingSizeBestFitHeap does. *)
Theorem Finish_at_least_peak ops h h' res :
  run alignment type compare ty ops = OK h -> within_limits X alignment ops -> no_sharing ops -> all_freed ops ->
  Finish h = OK (h', res) -> stats_Finish (stats_after ops) <= result_heap_size res.
Proof. intros Hrun Hwl Hno Hfr HF. by apply (stats_after_ops X alignment type compare ty ops h Hrun Hwl Hno Hfr h' res HF). Qed.

End Bound.

Section Demo.
#[local] Existing Instance demo_order.

Lemma demo_no_sharing : no_sharing demo_ops.
Proof.
  intros b s z Hin. unfold demo_ops in Hin. repeat (apply elem_of_cons in Hin as [Hin|Hin]; [discriminate Hin|]).
  by apply not_elem_of_nil in Hin.
Qed.

Lemma demo_freed : all_freed demo_ops.
Proof.
  intros b z Hin Hz. exists z. split; [|done]. unfold requests, demo_ops in *. cbn [omap list_omap requested] in Hin.
  repeat (apply elem_of_cons in Hin as [[= -> ->]|Hin]; [repeat (apply elem_of_cons; (by left) || right)|]).
  by apply not_elem_of_nil in Hin.
Qed.

(** The run of [BestFitTheorems]: 140 bytes are alive at once, and the heap has as many. *)
Lemma Finish_at_least_peak_witness : exists h h' res, demo_heap = OK h /\ Finish h = OK (h', res) /\
  result_heap_size res = 140 /\ stats_Finish (stats_after demo_ops) = 140 /\
  stats_Finish (stats_after demo_ops) <= result_heap_size res.
Proof.
  destruct demo_heap as [h| | |] eqn:E; [|vm_compute in E; discriminate E..].
  assert (HF : exists h' res, Finish h = OK (h', res) /\ result_heap_size res = 140).
  { vm_compute in E. injection E as <-. eexists _, _. split; vm_compute; reflexivity. }
  destruct HF as (h' & res & HF & Hs). exists h, h', res. split; [reflexivity|]. split; [exact HF|]. split; [exact Hs|].
  split; [vm_compute; reflexivity|]. apply (Finish_at_least_peak 50 1 kSpatial None kAll demo_ops h h' res E demo_limits); [apply demo_no_sharing|apply demo_freed|exact HF].
Defined.

End Demo.
