(* ===== verification/BestFitConstrained.v ===== *)
(** * ConstrainedGlobalDecreasingSizeBestFitHeap

    The buffers are spread over heaps: every round fills a new heap with the buffers
    whose place ends within the limit, and keeps the others for the next round.  The
    first buffer of a round is placed wherever it ends, so that every round places one
    and the loop ends. *)

From stdpp Require Import gmap sorting.
From S2P Require Import Prelude MachineInt MathUtil IntervalTree IntervalTreeInv IntervalTreeTheorems SlicePermutation.
From S2P Require Import AllocationFinder FinderPieces FinderFit BestFitHeap BestFitColocations BestFitChunks.
From S2P Require Import BestFitPlace BestFitCommit BestFitFinish BestFitTrace BestFitTheorems.

(** ** One round *)

(** Of the roots placed, only the first may end beyond the limit. *)
Definition fits (limit : Z) (m : store) (R : list buffer_id) (off : Z -> Z) : Prop :=
  R = [] \/ exists r0, r0 ∈ R /\ forall r i, r ∈ R -> r <> r0 -> m !! r = Some i -> off r + bi_size i <= limit.

Lemma placed_none cm0 now lim off h ivs : placed cm0 now lim [] off h ivs -> heap_size (result_ h) = 0.
Proof.
  intros Hpl. rewrite (pl_size _ _ _ _ _ _ _ Hpl). destruct ivs as [|v ivs]; [done|].
  destruct (proj1 (pl_ivs _ _ _ _ _ _ _ Hpl v)) as (r & b & ?%not_elem_of_nil & _); [by left|done].
Qed.

Lemma placed_size cm0 now lim R off h ivs : placed cm0 now lim R off h ivs -> 0 <= heap_size (result_ h) <= lim.
Proof.
  intros Hpl. pose proof (pl_ready _ _ _ _ _ _ _ Hpl) as [Hal _ _ Huse Hl0]. rewrite (pl_size _ _ _ _ _ _ _ Hpl).
  split; [apply max_end_nonneg|]. apply max_end_le; [done|]. eapply Forall_impl; [exact Huse|].
  intros u (Hu & Hru & _). rewrite chunk_end_ok by done.
  destruct (round_up_spec (heap_alignment_ h) (offset u + size u) Hal) as (_ & ? & _). lia.
Qed.

Section Rounds.
Context `{HashOrder} (now X limit : Z) (h0 : BestFitHeap) (HX : sizes_below X h0).
#[local] Abbreviation m := (buffer_intervals_ h0).
#[local] Abbreviation step := (step_size X h0).

(** After the intervals [l1] of a round that began with the map [cm0]. *)
Record round (cm0 : gmap buffer_id Chunk) (l1 : list BufferInterval) (h : BestFitHeap) (kept : list BufferInterval)
    (R : list buffer_id) (off : Z -> Z) (ivs : list interval) : Prop := {
  rd_same : same_but_placed h0 h;
  rd_placed : placed cm0 now (Zlen R * step) R off h ivs;
  rd_split : roots_of l1 ≡ₚ R ++ (bi_buffer <$> kept);
  rd_kept : Forall (fun i => i ∈ l1 /\ bi_need_allocation i = true) kept;
  rd_first : R = [] -> kept = [];
  rd_size : R <> [] -> 0 < heap_size (result_ h);
  rd_limit : fits limit m R off;
}.

Lemma roots_of_snoc l i : roots_of (l ++ [i]) = roots_of l ++ (if bi_need_allocation i then [bi_buffer i] else []).
Proof. unfold roots_of. rewrite filter_app, fmap_app, filter_cons. by destruct (bi_need_allocation i). Qed.

Lemma roots_of_sublist l : roots_of l `sublist_of` (bi_buffer <$> l).
Proof. unfold roots_of. induction l as [|i l IH]; [done|]. rewrite filter_cons. destruct (decide _); simpl; by constructor. Qed.

Lemma roots_of_NoDup l : NoDup (bi_buffer <$> l) -> NoDup (roots_of l).
Proof. intros Hnd. eapply sublist_NoDup; [apply Hnd|apply roots_of_sublist]. Qed.

Lemma roots_of_length l : Zlen (roots_of l) <= Zlen l.
Proof. unfold Zlen. pose proof (sublist_length _ _ (roots_of_sublist l)) as Hl. rewrite length_fmap in Hl. lia. Qed.

Lemma round_length cm0 l1 h kept R off ivs : round cm0 l1 h kept R off ivs -> Zlen R + Zlen kept <= Zlen l1.
Proof.
  intros Hr. pose proof (roots_of_length l1). pose proof (Permutation_length (rd_split _ _ _ _ _ _ _ Hr)) as Hl.
  rewrite length_app, length_fmap in Hl. unfold Zlen in *. lia.
Qed.

(** The buffer is placed, *)
Lemma round_commit cm0 l1 i h kept R off ivs o mx :
  round cm0 l1 h kept R off ivs -> m !! bi_buffer i = Some i -> bi_need_allocation i = true -> bi_buffer i ∉ R ->
  2 * ((Zlen R + 1) * step) < int64_max -> mx <= X -> 0 <= o < Zlen R * step + heap_alignment_ h0 ->
  o mod heap_alignment_ h0 = 0 ->
  (forall b j, rtc (shares m) (bi_buffer i) b -> m !! b = Some j -> bi_size j <= mx) ->
  unblocked m ivs i o (o + mx) -> (R = [] \/ o + bi_size i <= limit) ->
  exists h' ivs', CommitChunk i (mkChunk o (bi_size i)) h = OK h' /\
    round cm0 (l1 ++ [i]) h' kept (bi_buffer i :: R) (off_with off (bi_buffer i) o) ivs'.
Proof.
  intros [Hs Hpl Hsp Hk Hf Hz Hlim] Hi Hn Hnew Hb HmX Ho Hoa Hgroup Hun Hor. pose proof Hs as [Es Ec Ea Et Ey].
  assert (Hr : exists h' ivs', CommitChunk i (mkChunk o (bi_size i)) h = OK h' /\ same_but_placed h h' /\
    placed cm0 now (Zlen R * step + step_size X h) (bi_buffer i :: R) (off_with off (bi_buffer i) o) h' ivs' /\
    heap_size (result_ h) <= heap_size (result_ h') <= Z.max (heap_size (result_ h)) (o + mx) /\ 0 < heap_size (result_ h')).
  { eapply commit_ok with (mx := mx); rewrite ?Es, ?Ea; try done; [by exists i|]. rewrite (step_size_same X _ _ Hs). lia. }
  destruct Hr as (h' & ivs' & HC & Hs' & Hpl' & _ & Hpos). exists h', ivs'. split; [done|]. split.
  - by transitivity h.
  - rewrite (step_size_same X _ _ Hs) in Hpl'. assert (E : Zlen (bi_buffer i :: R) = Zlen R + 1) by (unfold Zlen; simpl; lia).
    rewrite E. by replace ((Zlen R + 1) * step) with (Zlen R * step + step) by ring.
  - rewrite roots_of_snoc, Hn, Hsp. rewrite <- app_assoc, (Permutation_app_comm (bi_buffer <$> kept)). simpl.
    by rewrite <- Permutation_middle.
  - eapply Forall_impl; [exact Hk|]. intros j [Hj ?]. split; [|done]. apply elem_of_app. by left.
  - done.
  - done.
  - right. destruct Hlim as [->|(r0 & Hr0 & Hlim)].
    + exists (bi_buffer i). split; [left|]. by intros r j [->|?%not_elem_of_nil]%elem_of_cons.
    + exists r0. split; [by right|]. intros r j [->|Hr]%elem_of_cons Hne Hj; [|rewrite (off_with_old R off (bi_buffer i) Hnew) by done; by apply Hlim].
      rewrite off_with_new. assert (j = i) as -> by congruence. destruct Hor as [->|]; [by apply not_elem_of_nil in Hr0|done].
Qed.

(** or kept for the next round. *)
Lemma round_step cm0 l1 i l2 h kept R off ivs :
  2 * (Zlen (l1 ++ i :: l2) * step) < int64_max -> 0 < step -> 0 <= X ->
  NoDup (bi_buffer <$> l1 ++ i :: l2) -> (forall j, j ∈ l1 ++ i :: l2 -> m !! bi_buffer j = Some j) ->
  round cm0 l1 h kept R off ivs ->
  exists h' kept' R' off' ivs', place_constrained limit (h, kept) i = OK (h', kept') /\
    round cm0 (l1 ++ [i]) h' kept' R' off' ivs'.
Proof.
  intros Hb Hpos HX0 Hnd Hl Hr. pose proof (round_length _ _ _ _ _ _ _ Hr) as HlenR.
  pose proof Hr as [Hs Hpl Hsp Hk Hf Hz Hlim]. pose proof Hs as [Es Ec Ea Et Ey].
  assert (Hlen : Zlen (l1 ++ i :: l2) = Zlen l1 + 1 + Zlen l2) by (rewrite Zlen_app; unfold Zlen; simpl; lia).
  pose proof (Zlen_nonneg l2). pose proof (Zlen_nonneg R). pose proof (Zlen_nonneg kept).
  assert (Hi : m !! bi_buffer i = Some i) by (apply Hl, elem_of_app; right; left).
  unfold place_constrained. destruct (bi_need_allocation i) eqn:Hn; cbn [negb].
  2:{ exists h, kept, R, off, ivs. split; [done|]. split; [done..| | |done|done|done].
      - by rewrite roots_of_snoc, Hn, app_nil_r.
      - eapply Forall_impl; [exact Hk|]. intros j [Hj ?]. split; [|done]. apply elem_of_app. by left. }
  assert (Hnew : bi_buffer i ∉ R).
  { intros Hin. assert (Hin1 : bi_buffer i ∈ roots_of l1) by (rewrite Hsp; apply elem_of_app; by left).
    apply elem_of_roots_of in Hin1 as (j & Hj & _ & Ej). rewrite fmap_app, fmap_cons in Hnd.
    apply NoDup_app in Hnd as (_ & Hd & _). apply (Hd (bi_buffer i)); [|left]. rewrite Ej. by apply list_elem_of_fmap_2. }
  assert (Hbound : 2 * ((Zlen R + 1) * step) < int64_max) by nia.
  destruct (candidate_ok cm0 now X (Zlen R * step) R off h ivs (bi_buffer i) i Hpl) as (mx & o & _ & HmX & Hgroup & HF & Ho & Hoa & Hun & _).
  { by rewrite Es. } { intros b j Hj. apply (HX b). by rewrite <- Es. } { rewrite (step_size_same X _ _ Hs). lia. }
  rewrite Es in Hgroup, Hun. rewrite Ea in Ho, Hoa. pose proof (so_size _ _ (hr_store _ _ _ _ (pl_ready _ _ _ _ _ _ _ Hpl)) (bi_buffer i) i) as Hsz.
  rewrite Es in Hsz. specialize (Hsz Hi). rewrite HF. cbn [mbind outcome_bind].
  assert (Hce : u64 (chunk_end (mkChunk o (bi_size i))) = o + bi_size i).
  { unfold chunk_end. cbn [offset size]. unfold step_size, int64_max in *. rewrite add64_small by (z64; nia). unfold u64. apply Z.mod_small. z64. nia. }
  rewrite Hce. destruct (_ || _) eqn:Etest.
  - destruct (round_commit cm0 l1 i h kept R off ivs o mx Hr Hi Hn Hnew Hbound) as (h' & ivs' & HC & Hr'); [lia|done..| |].
    + destruct (decide (R = [])) as [|Hne]; [by left|right]. specialize (Hz Hne).
      apply orb_true_iff in Etest as [?%Z.leb_le|?%Z.eqb_eq]; lia.
    + rewrite HC. cbn [mbind outcome_bind]. by eexists _, _, _, _, _.
  - assert (Hne : R <> []).
    { intros ->. apply orb_false_iff in Etest as [_ Etest%Z.eqb_neq]. by rewrite (placed_none _ _ _ _ _ _ Hpl) in Etest. }
    exists h, (kept ++ [i]), R, off, ivs. split; [done|]. split; [done..| | |done|done|done].
    + by rewrite roots_of_snoc, Hn, Hsp, fmap_app, app_assoc.
    + apply Forall_app. split; [|by repeat constructor; [apply elem_of_app; right; left|]].
      eapply Forall_impl; [exact Hk|]. intros j [Hj ?]. split; [|done]. apply elem_of_app. by left.
Qed.

Lemma round_all cm0 l h :
  2 * (Zlen l * step) < int64_max -> 0 < step -> 0 <= X -> NoDup (bi_buffer <$> l) ->
  (forall j, j ∈ l -> m !! bi_buffer j = Some j) -> same_but_placed h0 h -> placed cm0 now 0 [] (fun _ => 0) h [] ->
  exists h' kept R off ivs, foldM (place_constrained limit) (h, []) l = OK (h', kept) /\ round cm0 l h' kept R off ivs.
Proof.
  intros Hb Hpos HX0 Hnd Hl Hs Hpl.
  destruct (foldM_total (fun l1 x => exists R off ivs, round cm0 l1 x.1 x.2 R off ivs) (place_constrained limit) l (h, []))
    as ((h' & kept) & HF & R & off & ivs & Hr).
  - exists [], (fun _ => 0), []. split; [done| |done|done|done|done|by left]. unfold Zlen. simpl. by rewrite Z.mul_0_l.
  - intros l1 i l2 [h1 kept] -> (R & off & ivs & Hr). simpl in Hr.
    destruct (round_step cm0 l1 i l2 h1 kept R off ivs Hb Hpos HX0 Hnd Hl Hr) as (h' & kept' & R' & off' & ivs' & HP & Hr').
    exists (h', kept'). split; [done|]. by exists R', off', ivs'.
  - by exists h', kept, R, off, ivs.
Qed.

(** ** All rounds *)

(** What a finished heap holds: the groups of the roots [R]. *)
Definition heap_done (cm0 : gmap buffer_id Chunk) (R : list buffer_id) (res : HeapResult) : Prop :=
  exists h off ivs, same_but_placed h0 h /\ placed cm0 now (Zlen R * step) R off h ivs /\ result_ h = res /\
    fits limit m R off.

Lemma heap_done_size cm0 R res : heap_done cm0 R res -> 0 <= heap_size res <= Zlen R * step.
Proof. intros (h & off & ivs & _ & Hpl & <- & _). by eapply placed_size. Qed.

Lemma Forall2_done_size Rs rs : Forall2 (heap_done ∅) Rs rs ->
  0 <= total (heap_size <$> rs) <= Zlen (concat Rs) * step.
Proof.
  induction 1 as [|R res Rs rs Hd _ IH]; [unfold Zlen; simpl; lia|]. pose proof (heap_done_size _ _ _ Hd).
  cbn [concat fmap list_fmap total foldr]. change (foldr Z.add 0 (heap_size <$> rs)) with (total (heap_size <$> rs)).
  rewrite Zlen_app. lia.
Qed.

Lemma constrained_loop_ok fuel : forall cm0 l h multi,
  2 * (Zlen l * step) < int64_max -> 0 < step -> 0 <= X -> NoDup (bi_buffer <$> l) ->
  (forall j, j ∈ l -> m !! bi_buffer j = Some j) -> same_but_placed h0 h -> placed cm0 now 0 [] (fun _ => 0) h [] ->
  (length l < fuel)%nat -> 0 <= result_heap_size multi -> result_heap_size multi + Zlen l * step <= int64_max ->
  exists h' R1 r1 Rs rs, constrained_loop fuel limit h l multi =
      OK (h', mkResult (heap_results multi ++ r1 :: rs) (result_heap_size multi + total (heap_size <$> r1 :: rs))) /\
    heap_done cm0 R1 r1 /\ Forall2 (heap_done ∅) Rs rs /\ R1 ++ concat Rs ≡ₚ roots_of l.
Proof.
  induction fuel as [|fuel IH]; intros cm0 l h multi Hb Hpos HX0 Hnd Hl Hs Hpl Hfuel Hm0 Hm; [lia|].
  destruct (round_all cm0 l h Hb Hpos HX0 Hnd Hl Hs Hpl) as (h1 & kept & R & off & ivs & HF & Hr).
  pose proof (round_length _ _ _ _ _ _ _ Hr) as Hlen. destruct Hr as [Hs1 Hpl1 Hsp Hk Hf _ Hlim].
  assert (Hd : heap_done cm0 R (result_ h1)) by (exists h1, off, ivs; done). pose proof (heap_done_size _ _ _ Hd) as Hsz.
  pose proof (Zlen_nonneg R). pose proof (Zlen_nonneg kept).
  cbn [constrained_loop]. rewrite HF. cbn [mbind outcome_bind]. rewrite add64_small by (unfold int64_max in *; z64; nia).
  case_bool_decide as Ek.
  - exists (set_tree (Clear (interval_tree_ h1)) (set_result new_HeapResult h1)), R, (result_ h1), [], [].
    split; [do 3 f_equal; simpl; lia|]. split; [done|]. split; [constructor|]. rewrite Hsp, Ek. done.
  - set (h2 := set_tree _ _).
    assert (Hs2 : same_but_placed h0 h2) by (destruct Hs1; by split).
    assert (HR : 0 < Zlen R) by (destruct R; [by specialize (Hf eq_refl)|unfold Zlen; simpl; lia]).
    assert (Ekr : roots_of kept = bi_buffer <$> kept).
    { unfold roots_of. f_equal. clear -Hk. induction Hk as [|j k [_ Hj] _ IH]; [done|]. by rewrite filter_cons, Hj, IH. }
    destruct (IH ∅ kept h2 (mkResult (heap_results multi ++ [result_ h1]) (result_heap_size multi + heap_size (result_ h1))))
      as (h' & R1 & r1 & Rs & rs & HL & Hd1 & Hds & Hp); cbn [result_heap_size heap_results] in *; try done.
    + nia.
    + assert (Hndr : NoDup (roots_of l)) by by apply roots_of_NoDup. rewrite Hsp in Hndr. by apply NoDup_app in Hndr as (_ & _ & ?).
    + intros j Hj. rewrite Forall_forall in Hk. apply Hl, (Hk j Hj).
    + pose proof Hs2 as [E _ Ea _ _]. pose proof (pl_ready _ _ _ _ _ _ _ Hpl) as [Hal _ Hst _ _]. pose proof Hs as [E0 _ Ea0 _ _].
      apply placed_empty; [by rewrite Ea, <- Ea0|apply repr_empty|by rewrite E, <- E0|done|done|by intros b _].
    + unfold Zlen in *. lia.
    + lia.
    + nia.
    + exists h', R, (result_ h1), (R1 :: Rs), (r1 :: rs). rewrite HL. split; [|split; [done|split; [by constructor|]]].
      * do 2 f_equal. rewrite <- app_assoc. f_equal. cbn [fmap list_fmap total foldr]. lia.
      * cbn [concat]. by rewrite Hp, Ekr, Hsp.
Qed.

End Rounds.

(** ** A finished heap *)

Section Done.
Context `{HashOrder} (now X limit : Z) (h0 : BestFitHeap).
#[local] Abbreviation m := (buffer_intervals_ h0).

Lemma done_group cm R res : heap_done now X limit h0 cm R res -> exists off, forall r b i,
  root_of m r b -> r ∈ R -> m !! b = Some i -> chunk_map res !! b = Some (mkChunk (off r) (bi_size i)) /\ 0 <= off r /\
    off r mod heap_alignment_ h0 = 0 /\ off r + bi_size i <= heap_size res.
Proof.
  intros (h & off & ivs & [E _ Ea _ _] & Hpl & <- & _). exists off. intros r b i Hr HrR Hi. rewrite <- E in Hr, Hi.
  destruct (placed_group _ _ _ _ _ _ _ Hpl r b i Hr HrR Hi) as (? & Hal & ? & _ & ?). rewrite Ea in Hal. done.
Qed.

Lemma done_root cm R res b i c : heap_done now X limit h0 cm R res -> m !! b = Some i -> chunk_map res !! b = Some c ->
  exists r, root_of m r b /\ r ∈ R.
Proof.
  intros (h & off & ivs & [E _ _ _ _] & Hpl & <- & _) Hi Hc. rewrite <- E in Hi |- *.
  destruct (placed_root _ _ _ _ _ _ _ Hpl b i c Hi Hc) as (r & ? & ? & _). by exists r.
Qed.

Lemma done_other cm R res b : heap_done now X limit h0 cm R res -> m !! b = None -> chunk_map res !! b = cm !! b.
Proof. intros (h & off & ivs & [E _ _ _ _] & Hpl & <- & _) Hb. apply (pl_map0 _ _ _ _ _ _ _ Hpl). by rewrite E. Qed.

Lemma done_member cm R1 r1 Rs rs k res :
  heap_done now X limit h0 cm R1 r1 -> Forall2 (heap_done now X limit h0 ∅) Rs rs -> (r1 :: rs) !! k = Some res ->
  exists R, (R1 :: Rs) !! k = Some R /\ heap_done now X limit h0 (if decide (k = 0%nat) then cm else ∅) R res.
Proof.
  intros H1 Hs. destruct k as [|k]; simpl; [intros [= <-]; by exists R1|]. intros Hk.
  destruct (Forall2_lookup_r _ _ _ _ _ Hs Hk) as (R & ? & ?). by exists R.
Qed.

End Done.

Lemma NoDup_concat_lookup {A} (ls : list (list A)) k k' l l' x :
  NoDup (concat ls) -> ls !! k = Some l -> ls !! k' = Some l' -> x ∈ l -> x ∈ l' -> k = k'.
Proof.
  revert k k'. induction ls as [|a ls IH]; intros k k' Hnd Hk Hk' Hx Hx'; [done|]. cbn [concat] in Hnd.
  apply NoDup_app in Hnd as (_ & Hd & Hnd).
  assert (Hin : forall j l, ls !! j = Some l -> x ∈ l -> x ∈ concat ls).
  { intros j l0 Hj Hl. apply list_elem_of_In, in_concat. exists l0. split; apply list_elem_of_In; [by eapply list_elem_of_lookup_2|done]. }
  destruct k as [|k], k' as [|k']; simpl in *; simplify_eq; [done|..].
  - destruct (Hd x Hx). by eapply Hin.
  - destruct (Hd x Hx'). by eapply Hin.
  - f_equal. by eapply IH.
Qed.

(** ** The theorems *)

Section Run.
Context `{HashOrder} (X alignment : Z) (type : HeapType) (compare : option (BufferInterval -> BufferInterval -> bool)) (ty : Ty).

Lemma run_Constrained ops h limit :
  run alignment type compare ty ops = OK h -> within_limits X alignment ops ->
  exists h0 h' R1 r1 Rs rs, called X h0 ops h /\
    Constrained_Finish limit h = OK (h', mkResult (r1 :: rs) (total (heap_size <$> r1 :: rs))) /\
    heap_done (current_time_ h) X limit h (chunk_map (result_ h)) R1 r1 /\
    Forall2 (heap_done (current_time_ h) X limit h ∅) Rs rs /\ NoDup (concat (R1 :: Rs)) /\
    forall r, r ∈ concat (R1 :: Rs) <-> is_root (buffer_intervals_ h) r.
Proof.
  intros Hrun Hwl. destruct (run_ready X alignment type compare ty ops h Hrun Hwl) as (h0 & Hc & Hpl & HX & Ha & Hpos & Hb).
  destruct Hwl as [_ HX0 _]. pose proof (pl_ready _ _ _ _ _ _ _ Hpl) as Hr.
  destruct (GetSortedBufferIntervals_ok h [] (current_time_ h) 0 Hr) as (l & Hl & Hp & _).
  assert (Hin : forall j, j ∈ l <-> buffer_intervals_ h !! bi_buffer j = Some j) by (intros j; rewrite Hp; by eapply entries_elem).
  assert (Hlen : Zlen l = Z.of_nat (base.size (buffer_intervals_ h))) by (unfold Zlen; rewrite Hp, (entries_length h); done).
  assert (Hnd : NoDup (bi_buffer <$> l)) by (rewrite Hp; by eapply entries_NoDup). rewrite <- Hlen in Hb.
  pose proof (Zlen_nonneg l).
  destruct (constrained_loop_ok (current_time_ h) X limit h HX (S (length l)) (chunk_map (result_ h)) l h (mkResult [] 0) Hb Hpos HX0 Hnd)
    as (h' & R1 & r1 & Rs & rs & HL & H1 & Hs & HR); [intros j; apply Hin|done|done|lia|done|simpl; nia|].
  exists h0, h', R1, r1, Rs, rs. split; [done|]. split; [unfold Constrained_Finish; rewrite Hl; exact HL|].
  split; [done|]. split; [done|]. cbn [concat]. split; [rewrite HR; by apply roots_of_NoDup|].
  intros r. rewrite HR, elem_of_roots_of. split.
  - intros (i & Hi%Hin & Hn & ->). by exists i.
  - intros (i & Hi & Hn). pose proof (so_key _ _ (hr_store _ _ _ _ Hr) r i Hi) as Ek. exists i.
    split; [|by split]. apply Hin. by rewrite Ek.
Qed.

(** What the heaps hold together. *)
Section Spread.
Context (ops : list heap_op) (h h0 : BestFitHeap) (limit : Z) (R1 : list buffer_id) (r1 : HeapResult).
Context (Rs : list (list buffer_id)) (rs : list HeapResult) (Hc : called X h0 ops h) (Hnd : NoDup (requests ops).*1).
Context (H1 : heap_done (current_time_ h) X limit h (chunk_map (result_ h)) R1 r1).
Context (Hs : Forall2 (heap_done (current_time_ h) X limit h ∅) Rs rs) (HndR : NoDup (concat (R1 :: Rs))).
Context (HR : forall r, r ∈ concat (R1 :: Rs) <-> is_root (buffer_intervals_ h) r).
#[local] Abbreviation m := (buffer_intervals_ h).

Lemma zero_not_stored b : (b, 0) ∈ requests ops -> m !! b = None.
Proof using Hc Hnd.
  intros Hin. destruct (m !! b) as [i|] eqn:E; [|done]. pose proof (so_size _ _ (ca_store _ _ _ _ Hc) b i E).
  apply (ca_requested _ _ _ _ Hc) in E. pose proof (NoDup_fst_unique _ _ _ _ Hnd Hin E). lia.
Qed.

Lemma spread_zero b : (b, 0) ∈ requests ops -> chunk_map r1 !! b = Some (mkChunk 0 0).
Proof using Hc Hnd H1. intros Hin. rewrite (done_other _ _ _ _ _ _ _ b H1) by by apply zero_not_stored. by apply (ca_zero _ _ _ _ Hc). Qed.

Lemma spread_buffer b i : m !! b = Some i -> exists r o, r ∈ r1 :: rs /\ chunk_map r !! b = Some (mkChunk o (bi_size i)) /\
  0 <= o /\ o mod heap_alignment_ h = 0 /\ o + bi_size i <= heap_size r.
Proof using Hc H1 Hs HR.
  intros Hi. destruct (root_exists _ _ (ca_store _ _ _ _ Hc) b i Hi) as (r & Hr & Hrb).
  apply HR, list_elem_of_In, in_concat in Hr as (R & [k Hk]%list_elem_of_In%list_elem_of_lookup & HrR%list_elem_of_In).
  assert (HD : Forall2 (fun R r => exists cm, heap_done (current_time_ h) X limit h cm R r) (R1 :: Rs) (r1 :: rs)).
  { constructor; [by eexists|]. eapply Forall2_impl; [exact Hs|]. intros. by eexists. }
  destruct (Forall2_lookup_l _ _ _ _ _ HD Hk) as (res & Hres & cm & Hd). destruct (done_group _ _ _ _ _ _ _ Hd) as (off & Hoff).
  destruct (Hoff r b i) as (Hm & ?); [split; [|done]|done|done|].
  { apply HR, list_elem_of_In, in_concat. exists R. split; apply list_elem_of_In; [by eapply list_elem_of_lookup_2|done]. }
  exists res, (off r). split; [by eapply list_elem_of_lookup_2|]. done.
Qed.

(** The heap of a buffer. *)
Lemma spread_home k r b : (r1 :: rs) !! k = Some r -> is_Some (chunk_map r !! b) ->
  (k = 0%nat /\ m !! b = None /\ (b, 0) ∈ requests ops) \/
  exists i R r0, m !! b = Some i /\ (R1 :: Rs) !! k = Some R /\ root_of m r0 b /\ r0 ∈ R.
Proof using Hc H1 Hs.
  intros Hk [c Hb]. destruct (done_member _ _ _ _ _ _ _ _ _ _ _ H1 Hs Hk) as (R & HRk & Hd).
  destruct (m !! b) as [i|] eqn:E; [right|left].
  - destruct (done_root _ _ _ _ _ _ _ b i c Hd E Hb) as (r0 & ? & ?). by exists i, R, r0.
  - rewrite (done_other _ _ _ _ _ _ _ b Hd E) in Hb. destruct (decide (k = 0%nat)); [|done].
    by apply (ca_map _ _ _ _ Hc) in Hb as [? _].
Qed.

Lemma spread_unique k k' r r' b : (r1 :: rs) !! k = Some r -> (r1 :: rs) !! k' = Some r' ->
  is_Some (chunk_map r !! b) -> is_Some (chunk_map r' !! b) -> k = k'.
Proof using Hc H1 Hs HndR.
  intros Hk Hk' Hb Hb'. destruct (spread_home k r b Hk Hb) as [(-> & E & _)|(i & R & r0 & E & HRk & Hr0 & Hin)];
    destruct (spread_home k' r' b Hk' Hb') as [(-> & E' & _)|(i' & R' & r0' & E' & HRk' & Hr0' & Hin')]; [done|congruence..|].
  assert (r0' = r0) as ->.
  { destruct Hr0, Hr0'. by apply (root_unique m (current_time_ h) (ca_store _ _ _ _ Hc) r0' r0 b). }
  by apply (NoDup_concat_lookup (R1 :: Rs) k k' R R' r0).
Qed.

Lemma spread_together k r b b' c : together ops b b' -> (r1 :: rs) !! k = Some r -> chunk_map r !! b = Some c ->
  exists c', chunk_map r !! b' = Some c' /\ offset c' = offset c.
Proof using Hc H1 Hs.
  intros Ht Hk Hb. destruct (done_member _ _ _ _ _ _ _ _ _ _ _ H1 Hs Hk) as (R & HRk & Hd).
  destruct Hd as (h2 & off & ivs & [E _ _ _ _] & Hpl & <- & _).
  destruct (together_root _ _ _ _ _ _ _ Hpl ops b b') as [->|(r0 & i & i' & Hr0 & Hr0' & Hi & Hi')]; [|done|by exists c|].
  { rewrite E. apply (ca_shares _ _ _ _ Hc). }
  rewrite (pl_map _ _ _ _ _ _ _ Hpl r0 b Hr0) in Hb. destruct (decide (r0 ∈ R)) as [HrR|]; [|done]. injection Hb as <-.
  exists (chunk_of (buffer_intervals_ h2) (off r0) b'). rewrite (pl_map _ _ _ _ _ _ _ Hpl r0 b' Hr0'). by rewrite decide_True.
Qed.

End Spread.

(** C19: The constrained algorithm places every buffer in one heap.  After calls that run
    through and stay within the limits, for any limit per heap, its loop ends; the
    size returned is the sum of the sizes of the heaps; every buffer has a chunk of its
    size, aligned and inside the heap, in one heap and no other; buffers connected by
    ShareWith are in the same heap at the same offset. *)
Theorem Constrained_places_all ops h limit :
  run alignment type compare ty ops = OK h -> within_limits X alignment ops ->
  exists h' rs, Constrained_Finish limit h = OK (h', mkResult rs (total (heap_size <$> rs))) /\
    (forall b z, (b, z) ∈ requests ops -> exists r o, r ∈ rs /\ chunk_map r !! b = Some (mkChunk o z) /\
       0 <= o /\ o mod alignment = 0 /\ o + z <= heap_size r) /\
    (forall k k' r r' b, rs !! k = Some r -> rs !! k' = Some r' ->
       is_Some (chunk_map r !! b) -> is_Some (chunk_map r' !! b) -> k = k') /\
    (forall r b, r ∈ rs -> is_Some (chunk_map r !! b) -> b ∈ (requests ops).*1) /\
    (forall r b b' c, together ops b b' -> r ∈ rs -> chunk_map r !! b = Some c ->
       exists c', chunk_map r !! b' = Some c' /\ offset c' = offset c).
Proof.
  intros Hrun Hwl. destruct (run_Constrained ops h limit Hrun Hwl) as (h0 & h' & R1 & r1 & Rs & rs & Hc & HF & H1 & Hs & Hnd & HR).
  destruct (run_ready X alignment type compare ty ops h Hrun Hwl) as (_ & _ & Hpl & _ & Ha & _).
  pose proof (wl_formed _ _ _ Hwl) as [HndQ _]. exists h', (r1 :: rs). split; [done|]. split; [|split; [|split]].
  - intros b z Hin. destruct (decide (z = 0)) as [->|Hz].
    + exists r1, 0. split; [left|]. split; [by eapply spread_zero|]. rewrite Z.mod_0_l.
      * split; [done|]. split; [done|]. apply (heap_done_size _ _ _ _ _ _ _ H1).
      * rewrite <- Ha. pose proof (hr_alignment _ _ _ _ (pl_ready _ _ _ _ _ _ _ Hpl)). lia.
    + destruct (ca_interval _ _ _ _ Hc b z Hin Hz) as (i & Hi & <-). rewrite <- Ha. by eapply spread_buffer.
  - intros k k' r r' b. by eapply spread_unique.
  - intros r b [k Hk]%list_elem_of_lookup Hb.
    destruct (spread_home _ _ _ _ _ _ _ _ Hc H1 Hs k r b Hk Hb) as [(_ & _ & Hin)|(i & _ & _ & Hi & _)].
    + by apply (list_elem_of_fmap_2 fst) in Hin.
    + apply (ca_requested _ _ _ _ Hc) in Hi. by apply (list_elem_of_fmap_2 fst) in Hi.
  - intros r b b' c Ht [k Hk]%list_elem_of_lookup. by eapply spread_together.
Qed.

(** C31: In no heap do two buffers overlap.  Take a moment in a sequence of calls, and two
    buffers that are allocated by then and not yet freed, though they are freed in the
    end: in every heap that the constrained algorithm returns, either they are
    connected by ShareWith, or their chunks are disjoint. *)
Theorem Constrained_no_overlap ops1 ops2 h limit h' res r b b' c c' :
  run alignment type compare ty (ops1 ++ ops2) = OK h -> within_limits X alignment (ops1 ++ ops2) ->
  alive ops1 b -> alive ops1 b' -> freed (ops1 ++ ops2) b -> freed (ops1 ++ ops2) b' ->
  Constrained_Finish limit h = OK (h', res) -> r ∈ heap_results res ->
  chunk_map r !! b = Some c -> chunk_map r !! b' = Some c' -> together (ops1 ++ ops2) b b' \/ disjoint c c'.
Proof.
  intros Hrun Hwl Hal Hal' Hfr Hfr' HF Hr Hb Hb'.
  destruct (run_called X alignment type compare ty _ h Hrun Hwl) as (h0 & Hf & _ & Hops & _ & Hlen).
  destruct (run_Constrained _ h limit Hrun Hwl) as (h0' & h2 & R1 & r1 & Rs & rs & Hc & HF2 & H1 & Hs & _).
  rewrite HF2 in HF. injection HF as <- <-. cbn [heap_results] in Hr. apply list_elem_of_lookup in Hr as [k Hk].
  destruct (done_member _ _ _ _ _ _ _ _ _ _ _ H1 Hs Hk) as (R & _ & h3 & off & ivs & [Em _ _ _ _] & Hpl & <- & _).
  destruct (alive_meet X h0 ops1 ops2 h b b' Hf (wl_formed _ _ _ Hwl) Hlen Hops Hal Hal' Hfr Hfr') as (i & i' & Hi & Hi' & Hm).
  rewrite <- Em in Hi, Hi'. apply (meet_disjoint _ _ _ _ _ _ _ Hpl _ b b' i i'); [|done..].
  intros s d. rewrite Em. apply (ca_shares _ _ _ _ Hc).
Qed.

(** C30: The limit is soft for one buffer per heap.  In every heap that the constrained
    algorithm returns, all buffers that do not share the allocation of another one end
    within the limit, with at most one exception. *)
Theorem Constrained_limit ops h limit h' res r :
  run alignment type compare ty ops = OK h -> within_limits X alignment ops -> 0 <= limit ->
  Constrained_Finish limit h = OK (h', res) -> r ∈ heap_results res ->
  exists b0, forall b c, (forall s, ~ shared_by ops s b) -> chunk_map r !! b = Some c -> b <> b0 -> chunk_end c <= limit.
Proof.
  intros Hrun Hwl Hlim HF Hr. destruct (run_Constrained _ h limit Hrun Hwl) as (h0 & h2 & R1 & r1 & Rs & rs & Hc & HF2 & H1 & Hs & _).
  rewrite HF2 in HF. injection HF as <- <-. cbn [heap_results] in Hr. apply list_elem_of_lookup in Hr as [k Hk].
  destruct (done_member _ _ _ _ _ _ _ _ _ _ _ H1 Hs Hk) as (R & _ & h3 & off & ivs & Hsb & Hpl & <- & Hfit).
  pose proof Hsb as [Em _ _ _ _]. pose proof (ca_store _ _ _ _ Hc) as Hst.
  assert (Hend : forall b c, (forall s, ~ shared_by ops s b) -> chunk_map (result_ h3) !! b = Some c ->
    chunk_end c = 0 \/ exists i, buffer_intervals_ h !! b = Some i /\ b ∈ R /\ chunk_end c = off b + bi_size i).
  { intros b c Hsh Hb. destruct (buffer_intervals_ h !! b) as [i|] eqn:Ei; [right|left].
    - exists i. split; [done|]. rewrite <- Em in Ei. destruct (placed_root _ _ _ _ _ _ _ Hpl b i c Ei Hb) as (r & Hrb & HrR & ->).
      assert (r = b) as ->.
      { destruct Hrb as [_ Hrb]. apply rtc_inv_r in Hrb as [|(s & _ & Hsb')]; [done|]. destruct (Hsh s). rewrite Em in Hsb'.
        by apply (ca_shares _ _ _ _ Hc). }
      split; [done|]. destruct (placed_group _ _ _ _ _ _ _ Hpl b b i Hrb HrR Ei) as (_ & _ & _ & Hin & _).
      apply chunk_end_ok. apply (proj1 (Forall_forall _ _) (hr_use _ _ _ _ (pl_ready _ _ _ _ _ _ _ Hpl)) _ Hin).
    - rewrite <- Em in Ei. rewrite (pl_map0 _ _ _ _ _ _ _ Hpl b Ei) in Hb. destruct (decide _); [|done].
      apply (ca_map _ _ _ _ Hc) in Hb as [_ ->]. done. }
  destruct Hfit as [->|(r0 & _ & Hfit)].
  - exists 0. intros b c Hsh Hb _. destruct (Hend b c Hsh Hb) as [->|(i & _ & ?%not_elem_of_nil & _)]; done.
  - exists r0. intros b c Hsh Hb Hne. destruct (Hend b c Hsh Hb) as [->|(i & Hi & HbR & ->)]; [done|]. by apply Hfit.
Qed.

End Run.

(** ** A run

    A test of heap_simulator_test.cc: two heaps, of 70 and 60 bytes. *)

Section Demo.
#[local] Existing Instance demo_order.

Definition constrained_ops : list heap_op :=
  [OpAlloc 1 10; OpAlloc 2 20; OpAlloc 3 50; OpFree 1 10; OpAlloc 4 40; OpFree 2 20; OpFree 3 50; OpFree 4 40].
Definition constrained_heap : outcome BestFitHeap := run 20 kSpatial None kAll constrained_ops.

Lemma constrained_limits : within_limits 50 20 constrained_ops.
Proof. split; [split; by apply (bool_decide_unpack _)|lia|vm_compute; reflexivity]. Qed.

Lemma constrained_result : exists h h' r1 r2, constrained_heap = OK h /\
  Constrained_Finish 70 h = OK (h', mkResult [r1; r2] 130) /\ heap_size r1 = 70 /\ heap_size r2 = 60 /\
  map_to_list (chunk_map r1) = [(3, mkChunk 0 50); (1, mkChunk 60 10)] /\
  map_to_list (chunk_map r2) = [(4, mkChunk 0 40); (2, mkChunk 40 20)].
Proof. eexists _, _, _, _. do 5 (split; [vm_compute; reflexivity|]). vm_compute. reflexivity. Qed.

Lemma Constrained_places_all_witness : exists h h' rs r o, constrained_heap = OK h /\
  Constrained_Finish 70 h = OK (h', mkResult rs (total (heap_size <$> rs))) /\ r ∈ rs /\
  chunk_map r !! 2 = Some (mkChunk o 20) /\ o mod 20 = 0.
Proof.
  destruct constrained_heap as [h| | |] eqn:E; [|vm_compute in E; discriminate E..].
  destruct (Constrained_places_all 50 20 kSpatial None kAll constrained_ops h 70 E constrained_limits) as (h' & rs & HF & Hall & _).
  destruct (Hall 2 20) as (r & o & Hr & Hb & _ & Ho & _); [by apply (bool_decide_unpack _)|].
  by exists h, h', rs, r, o.
Defined.

Lemma Constrained_no_overlap_witness : exists h h' r1 r2, constrained_heap = OK h /\
  Constrained_Finish 70 h = OK (h', mkResult [r1; r2] 130) /\
  (together constrained_ops 2 4 \/ disjoint (mkChunk 40 20) (mkChunk 0 40)).
Proof.
  destruct constrained_result as (h & h' & r1 & r2 & E & HF & _ & _ & _ & H2). exists h, h', r1, r2.
  split; [exact E|]. split; [exact HF|].
  assert (Hin : chunk_map r2 !! 2 = Some (mkChunk 40 20) /\ chunk_map r2 !! 4 = Some (mkChunk 0 40)).
  { split; apply elem_of_map_to_list; rewrite H2; [right; left|left]. }
  refine (Constrained_no_overlap 50 20 kSpatial None kAll (take 5 constrained_ops) (drop 5 constrained_ops) h 70 h' _ r2 2 4
    (mkChunk 40 20) (mkChunk 0 40) E constrained_limits _ _ _ _ HF _ (proj1 Hin) (proj2 Hin)).
  - split; [exists 20; split; [by apply (bool_decide_unpack _)|done]|].
    intros (z & Hz & _). exact (not_listed (take 5 constrained_ops) 2 z eq_refl Hz).
  - split; [exists 40; split; [by apply (bool_decide_unpack _)|done]|].
    intros (z & Hz & _). exact (not_listed (take 5 constrained_ops) 4 z eq_refl Hz).
  - exists 20. split; [|done]. apply list_elem_of_lookup. by exists 5%nat.
  - exists 40. split; [|done]. apply list_elem_of_lookup. by exists 7%nat.
  - right. left.
Defined.

(** With a limit of 45 the buffer of 50 bytes is the exception of its heap. *)
Lemma Constrained_limit_witness : exists h h' res, constrained_heap = OK h /\ Constrained_Finish 45 h = OK (h', res) /\
  forall r, r ∈ heap_results res -> exists b0, forall b c,
    (forall s, ~ shared_by constrained_ops s b) -> chunk_map r !! b = Some c -> b <> b0 -> chunk_end c <= 45.
Proof.
  assert (HC : exists h h' res, constrained_heap = OK h /\ Constrained_Finish 45 h = OK (h', res)).
  { eexists _, _, _. split; [vm_compute; reflexivity|vm_compute; reflexivity]. }
  destruct HC as (h & h' & res & E & HF). exists h, h', res. split; [exact E|]. split; [exact HF|]. intros r Hr.
  refine (Constrained_limit 50 20 kSpatial None kAll constrained_ops h 45 h' res r E constrained_limits _ HF Hr). lia.
Defined.

(** The limit is tested for the end of the buffer that is placed, not for those of the
    buffers that share with it: a buffer of 20 bytes with a colocated one of 50 is
    placed at 40, and the heap is larger than 70, though two heaps within the limit
    would do. *)
Definition shared_ops : list heap_op :=
  [OpAlloc 4 40; OpAlloc 1 20; OpFree 1 20; OpShareWith 3 1 50; OpFree 3 50; OpFree 4 40].

Lemma Constrained_limit_shared : exists h h' r, run 1 kSpatial None kAll shared_ops = OK h /\
  Constrained_Finish 70 h = OK (h', mkResult [r] 90) /\ chunk_map r !! 1 = Some (mkChunk 40 20) /\
  chunk_map r !! 3 = Some (mkChunk 40 50).
Proof. eexists _, _, _. do 3 (split; [vm_compute; reflexivity|]). vm_compute. reflexivity. Qed.

End Demo.
