(* ===== verification/HeapChoice.v ===== *)
(** * BreadthFirstMidpointIterator and ChooseBestHeapAlgorithm

    xla/service/heap_simulator/heap_simulator.{h,cc}.  The iterator visits a range of
    integers by halving it, breadth first; its ints are 32 bits wide.  A std::list that
    is used as a queue is a list.  ChooseBestHeapAlgorithm runs several algorithms and
    returns the result with the smallest heap. *)

From stdpp Require Import gmap.
From S2P Require Import Prelude MachineInt MathUtil BestFitHeap.

Record WorkItem := mkWork { wi_start : Z; wi_end : Z }.

Record BreadthFirstMidpointIterator := mkMidpoint {
  initial_work_item_ : WorkItem;
  value_ : option Z;
  work_items_ : list WorkItem;
}.

Definition value (it : BreadthFirstMidpointIterator) : outcome Z :=
  match value_ it with Some v => OK v | None => Crash end.

Definition End (it : BreadthFirstMidpointIterator) : bool := bool_decide (value_ it = None).

Definition Next (it : BreadthFirstMidpointIterator) : outcome BreadthFirstMidpointIterator :=
  match work_items_ it with
  | [] => OK (mkMidpoint (initial_work_item_ it) None [])
  | w :: work =>
      if wi_end w <? wi_start w then OK (mkMidpoint (initial_work_item_ it) None work)
      else
        midpoint ← CeilOfRatio (i32 (wi_start w + wi_end w)) 2;
        let work := if wi_start w <? midpoint then work ++ [mkWork (wi_start w) (i32 (midpoint - 1))] else work in
        let work := if midpoint <? wi_end w then work ++ [mkWork (i32 (midpoint + 1)) (wi_end w)] else work in
        OK (mkMidpoint (initial_work_item_ it) (Some midpoint) work)
  end.

Definition Begin (it : BreadthFirstMidpointIterator) : outcome BreadthFirstMidpointIterator :=
  Next (mkMidpoint (initial_work_item_ it) None [initial_work_item_ it]).

Definition new_BreadthFirstMidpointIterator (start end_ : Z) : outcome BreadthFirstMidpointIterator :=
  Begin (mkMidpoint (mkWork start end_) None []).

(** ** What a client's loop sees *)

Fixpoint midpoints (fuel : nat) (it : BreadthFirstMidpointIterator) : outcome (list Z) :=
  if End it then OK []
  else match fuel with
       | O => NoFuel
       | S fuel => v ← value it; it ← Next it; l ← midpoints fuel it; OK (v :: l)
       end.

Definition range (w : WorkItem) : list Z := seqZ (wi_start w) (wi_end w - wi_start w + 1).

(** A range that is not empty, and whose ends may be added. *)
Definition item_ok (w : WorkItem) : Prop := wi_start w <= wi_end w /\ - two31 <= 2 * wi_start w /\ 2 * wi_end w < two31.


Lemma range_split a b mid : a <= mid <= b ->
  range (mkWork a b) ≡ₚ mid :: range (mkWork a (mid - 1)) ++ range (mkWork (mid + 1) b).
Proof.
  intros Hm. unfold range. cbn [wi_start wi_end].
  replace (b - a + 1) with ((mid - a) + (1 + (b - mid))) by lia. rewrite seqZ_app, seqZ_app by lia.
  replace (a + (mid - a)) with mid by lia. replace (mid - 1 - a + 1) with (mid - a) by lia.
  replace (b - (mid + 1) + 1) with (b - mid) by lia. rewrite (seqZ_cons mid 1), (seqZ_nil _ (Z.pred 1)) by lia. simpl.
  replace (mid + 1) with (Z.succ mid) by lia. by rewrite <- Permutation_middle.
Qed.

Lemma range_empty a b : b < a -> range (mkWork a b) = [].
Proof. intros. unfold range. apply seqZ_nil. simpl. lia. Qed.

(** One call of Next on a valid item. *)
Lemma Next_item it w work : work_items_ it = w :: work -> item_ok w -> Forall item_ok work ->
  exists mid work', Next it = OK (mkMidpoint (initial_work_item_ it) (Some mid) work') /\ Forall item_ok work' /\
    mid :: concat (range <$> work') ≡ₚ concat (range <$> w :: work).
Proof.
  intros Ew (Hle & Hlo & Hhi) Hwork. destruct w as [a b]. cbn [wi_start wi_end] in *. unfold Next. rewrite Ew. cbn [wi_start wi_end].
  rewrite (proj2 (Z.ltb_ge b a)) by done. rewrite (i32_small (a + b)) by (unfold two31 in *; lia).
  rewrite CeilOfRatio_ok by (unfold two31 in *; z64; lia). cbn [mbind outcome_bind].
  set (mid := - (- (a + b) / 2)). assert (Hmid : a <= mid <= b) by (unfold mid; pose proof (Z.div_mod (- (a + b)) 2 ltac:(lia));
    pose proof (Z.mod_pos_bound (- (a + b)) 2 ltac:(lia)); lia).
  rewrite !i32_small by (unfold two31 in *; lia).
  set (left := if a <? mid then [mkWork a (mid - 1)] else []). set (right := if mid <? b then [mkWork (mid + 1) b] else []).
  exists mid, (work ++ left ++ right). split; [|split].
  - do 2 f_equal. unfold left, right. destruct (a <? mid), (mid <? b); by rewrite <- ?app_assoc, ?app_nil_r.
  - apply Forall_app. split; [done|]. apply Forall_app. unfold left, right, item_ok.
    split; [destruct (Z.ltb_spec a mid)|destruct (Z.ltb_spec mid b)]; repeat constructor; simpl; lia.
  - rewrite !fmap_app, !concat_app, fmap_cons. cbn [concat]. rewrite (range_split a b mid Hmid).
    assert (El : concat (range <$> left) = range (mkWork a (mid - 1))).
    { unfold left. destruct (Z.ltb_spec a mid); simpl; [by rewrite app_nil_r|by rewrite range_empty by lia]. }
    assert (Er : concat (range <$> right) = range (mkWork (mid + 1) b)).
    { unfold right. destruct (Z.ltb_spec mid b); simpl; [by rewrite app_nil_r|by rewrite range_empty by lia]. }
    rewrite El, Er. simpl. constructor. apply Permutation_app_comm.
Qed.

Lemma midpoints_ok fuel : forall it v, value_ it = Some v -> Forall item_ok (work_items_ it) ->
  (S (length (concat (range <$> work_items_ it))) <= fuel)%nat ->
  exists l, midpoints fuel it = OK (v :: l) /\ l ≡ₚ concat (range <$> work_items_ it).
Proof.
  induction fuel as [|fuel IH]; intros it v Hv Hok Hf; [lia|]. destruct it as [init ov work]. cbn [value_ work_items_] in *. subst ov.
  cbn [midpoints]. unfold End, value. cbn [value_]. rewrite bool_decide_false by done. cbn [mbind outcome_bind].
  destruct work as [|w work]; [exists []; split; [by destruct fuel|done]|]. apply Forall_cons in Hok as [Hw Hwork].
  destruct (Next_item (mkMidpoint init (Some v) (w :: work)) w work eq_refl Hw Hwork) as (mid & work' & HN & Hok' & Hp).
  rewrite HN. cbn [mbind outcome_bind initial_work_item_].
  destruct (IH (mkMidpoint init (Some mid) work') mid eq_refl Hok') as (l & HL & Hl); cbn [work_items_] in *.
  - apply Permutation_length in Hp. simpl in Hp, Hf. lia.
  - rewrite HL. exists (mid :: l). split; [done|]. by rewrite Hl.
Qed.

(** BreadthFirstMidpointIterator visits every integer of its range exactly once: for
    bounds whose sums fit in an int, a loop over the iterator ends after as many rounds
    as the range has numbers, starting in the middle; an empty range has no rounds. *)
Lemma midpoints_once start end_ : - two31 <= 2 * start -> 2 * end_ < two31 ->
  exists it l, new_BreadthFirstMidpointIterator start end_ = OK it /\
    midpoints (Z.to_nat (end_ - start + 1)) it = OK l /\ l ≡ₚ seqZ start (end_ - start + 1) /\
    (start <= end_ -> head l = Some (start + (end_ - start + 1) / 2)).
Proof.
  intros Hlo Hhi. unfold new_BreadthFirstMidpointIterator, Begin. cbn [initial_work_item_].
  destruct (decide (start <= end_)) as [Hse|Hse].
  - destruct (Next_item (mkMidpoint (mkWork start end_) None [mkWork start end_]) (mkWork start end_) [] eq_refl) as (mid & work & HN & Hok & Hp);
      [by split|constructor|]. cbn [fmap list_fmap concat] in Hp. rewrite app_nil_r in Hp. eexists.
    destruct (midpoints_ok (Z.to_nat (end_ - start + 1)) (mkMidpoint (mkWork start end_) (Some mid) work) mid eq_refl Hok) as (l & HL & Hl).
    { pose proof (Permutation_length Hp) as Hlen. unfold range in Hlen. cbn [wi_start wi_end work_items_] in *.
      rewrite length_seqZ in Hlen. cbn [length] in Hlen. change (fun w : WorkItem => _) with range in Hlen. lia. }
    exists (mid :: l). split; [exact HN|]. split; [done|]. split; [by rewrite Hl|]. intros _. simpl. f_equal.
    revert HN. unfold Next. cbn [work_items_ wi_start wi_end]. rewrite (proj2 (Z.ltb_ge end_ start)) by done.
    rewrite (i32_small (start + end_)) by (unfold two31 in *; lia). rewrite CeilOfRatio_ok by (unfold two31 in *; z64; lia).
    cbn [mbind outcome_bind]. intros [= <- _]. pose proof (Z.div_mod (- (start + end_)) 2 ltac:(lia)).
    pose proof (Z.mod_pos_bound (- (start + end_)) 2 ltac:(lia)). pose proof (Z.div_mod (end_ - start + 1) 2 ltac:(lia)).
    pose proof (Z.mod_pos_bound (end_ - start + 1) 2 ltac:(lia)). lia.
  - unfold Next. cbn [work_items_ wi_start wi_end]. rewrite (proj2 (Z.ltb_lt end_ start)) by lia. eexists _, [].
    split; [done|]. rewrite seqZ_nil by lia. split; [by destruct (Z.to_nat _)|]. done.
Qed.

Lemma midpoints_once_witness : exists it l, new_BreadthFirstMidpointIterator 0 6 = OK it /\ midpoints 7 it = OK l /\
  l ≡ₚ seqZ 0 7 /\ l = [3; 1; 5; 0; 2; 4; 6].
Proof.
  destruct (midpoints_once 0 6) as (it & l & Hit & Hl & Hp & _); [unfold two31; lia..|]. exists it, l.
  split; [exact Hit|]. split; [exact Hl|]. split; [exact Hp|].
  vm_compute in Hit. injection Hit as <-. vm_compute in Hl. by injection Hl as <-.
Defined.

(** The tests of heap_simulator_test.cc. *)
Definition all_midpoints (start end_ : Z) : outcome (list Z) :=
  it ← new_BreadthFirstMidpointIterator start end_; midpoints (Z.to_nat (end_ - start + 1)) it.

Example NoValues : all_midpoints 1 0 = OK []. Proof. reflexivity. Qed.
Example OneValue : all_midpoints 1 1 = OK [1]. Proof. reflexivity. Qed.
Example TwoValues : all_midpoints 1 2 = OK [2; 1]. Proof. reflexivity. Qed.
Example General1 : all_midpoints 1 5 = OK [3; 2; 5; 1; 4]. Proof. reflexivity. Qed.
Example General2 : all_midpoints 0 10 = OK [5; 2; 8; 1; 4; 7; 10; 0; 3; 6; 9]. Proof. reflexivity. Qed.

(** ** ChooseBestHeapAlgorithm *)

(** [i] is the first of the smallest. *)
Definition first_smallest (rs : list Result) (i : nat) (r : Result) : Prop :=
  rs !! i = Some r /\ (forall j s, rs !! j = Some s -> result_heap_size r <= result_heap_size s) /\
  (forall j s, (j < i)%nat -> rs !! j = Some s -> result_heap_size r < result_heap_size s).

(** After the first [k] algorithms. *)
Record chosen (rs : list Result) (k : nat) (x : list Result * Z * Z) : Prop := {
  ch_results : take k x.1.1 = take k rs;
  ch_length : length x.1.1 = length rs;
  ch_best : (k = 0%nat /\ x.1.2 = int64_max /\ x.2 = -1) \/
    exists i r, first_smallest (take k rs) i r /\ x.1.2 = result_heap_size r /\ x.2 = Z.of_nat i;
}.

Lemma first_smallest_new l r i r0 : first_smallest l i r0 -> result_heap_size r < result_heap_size r0 ->
  first_smallest (l ++ [r]) (length l) r.
Proof.
  intros (_ & Hle & _) Hlt. split; [by rewrite lookup_app_r, Nat.sub_diag|]. split.
  - intros j s [Hj|[_ Hj]]%lookup_app_Some; [specialize (Hle j s Hj); lia|]. apply list_lookup_singleton_Some in Hj as [_ <-]. lia.
  - intros j s Hj Hs. rewrite lookup_app_l in Hs by done. specialize (Hle j s Hs). lia.
Qed.

Lemma first_smallest_old l r i r0 : first_smallest l i r0 -> result_heap_size r0 <= result_heap_size r ->
  first_smallest (l ++ [r]) i r0.
Proof.
  intros (Hi & Hle & Hlt) Hr. pose proof (lookup_lt_Some _ _ _ Hi). split; [by apply lookup_app_l_Some|]. split.
  - intros j s [Hj|[_ Hj]]%lookup_app_Some; [by apply (Hle j)|]. apply list_lookup_singleton_Some in Hj as [_ <-]. lia.
  - intros j s Hj Hs. rewrite lookup_app_l in Hs by lia. by apply (Hlt j).
Qed.

Lemma choose_best_step rs k r x :
  rs !! k = Some r -> result_heap_size r < int64_max -> chosen rs k x ->
  exists x', choose_best (OK <$> rs) x (Z.of_nat k) = OK x' /\ chosen rs (S k) x'.
Proof.
  intros Hk Hr [Hres Hlen Hbest]. destruct x as [[results mn] ix]. cbn [fst snd] in *.
  assert (Hlt : (k < length rs)%nat) by by apply lookup_lt_Some in Hk.
  assert (Ha : at_ (OK <$> rs) (Z.of_nat k) = OK (OK r)).
  { apply at_OK, idx_Some. rewrite Nat2Z.id, list_lookup_fmap, Hk. split; [lia|done]. }
  assert (Hs : set_at results (Z.of_nat k) r = OK (<[k := r]> results)).
  { apply set_at_OK. rewrite Nat2Z.id. unfold Zlen. split; [lia|done]. }
  assert (Et : take (S k) (<[k := r]> results) = take (S k) rs).
  { rewrite (take_S_r _ _ r), (take_S_r rs _ r) by (try apply list_lookup_insert_eq; try lia; done).
    f_equal. rewrite <- Hres. apply take_insert_ge. lia. }
  assert (El : length (<[k := r]> results) = length rs) by by rewrite length_insert.
  assert (Etk : take (S k) rs = take k rs ++ [r]) by by apply take_S_r.
  assert (Elk : length (take k rs) = k) by (rewrite length_take; lia).
  unfold choose_best. rewrite Ha. cbn [mbind outcome_bind]. rewrite Hs. cbn [mbind outcome_bind].
  destruct (Z.ltb_spec (result_heap_size r) mn) as [Hm|Hm].
  - eexists. split; [done|]. split; [done|done|]. right. exists k, r. split; [|done]. rewrite Etk.
    destruct Hbest as [(-> & _)|(i & r0 & Hf & -> & _)].
    + split; [done|]. split; [intros j s|intros j s ?; lia]. cbn. destruct j; [by intros [= <-]|done].
    + rewrite <- Elk at 2. by apply (first_smallest_new _ _ i r0).
  - eexists. split; [done|]. split; [done|done|]. cbn [fst snd]. destruct Hbest as [(-> & -> & _)|(i & r0 & Hf & -> & ->)]; [lia|].
    right. exists i, r0. split; [|done]. rewrite Etk. by apply first_smallest_old.
Qed.

(** ChooseBestHeapAlgorithm returns a smallest heap: when every algorithm returns a
    result, and each is smaller than INT64_MAX, it returns the first of those with the
    smallest heap. *)
Lemma ChooseBest_smallest rs :
  rs <> [] -> Forall (fun r => result_heap_size r < int64_max) rs ->
  exists i r, ChooseBest_Finish (OK <$> rs) = OK r /\ first_smallest rs i r.
Proof.
  intros Hne Hsz. destruct (foldM_total (fun l x => chosen rs (length l) x) (choose_best (OK <$> rs)) (indices (OK <$> rs))
    (replicate (length (OK <$> rs)) (mkResult [] 0), int64_max, -1)) as (x & HF & [Hres _ Hbest]).
  - split; [done|simpl; by rewrite length_replicate, length_fmap|by left].
  - intros l1 k l2 x Hl Hx. assert (Hk : indices (OK <$> rs) !! length l1 = Some k) by (by rewrite Hl, list_lookup_middle).
    unfold indices, Zlen in Hk. rewrite length_fmap in Hk. apply lookup_seqZ in Hk as [-> Hlt]. rewrite Z.add_0_l.
    destruct (lookup_lt_is_Some_2 rs (length l1)) as [r Hr]; [lia|].
    destruct (choose_best_step rs (length l1) r x Hr) as (x' & Hx' & Hc); [|done|].
    { rewrite Forall_forall in Hsz. apply Hsz. by eapply list_elem_of_lookup_2. }
    exists x'. split; [done|]. rewrite length_app. by rewrite Nat.add_comm.
  - unfold indices, Zlen in Hres, Hbest. rewrite length_seqZ, length_fmap, Nat2Z.id in Hres, Hbest. rewrite firstn_all in Hbest.
    destruct Hbest as [(Hz & _)|(i & r & Hf & _ & Ei)]; [by apply length_zero_iff_nil in Hz|].
    exists i, r. split; [|done]. unfold ChooseBest_Finish. rewrite HF. destruct x as [[results mn] ix]. cbn [mbind outcome_bind fst snd] in *.
    subst ix. apply at_OK, idx_Some. rewrite Nat2Z.id. split; [lia|]. destruct Hf as [Hi _]. rewrite firstn_all in Hres. rewrite <- Hres in Hi.
    apply lookup_take_Some in Hi. apply Hi.
Qed.

Lemma ChooseBest_smallest_witness : exists i r,
  ChooseBest_Finish (OK <$> [mkResult [] 30; mkResult [] 20; mkResult [] 20]) = OK r /\
  first_smallest [mkResult [] 30; mkResult [] 20; mkResult [] 20] i r.
Proof. apply ChooseBest_smallest; [discriminate|repeat constructor]. Defined.

(** An algorithm that fails ends the choice with its failure. *)
Example ChooseBest_error e r : ChooseBest_Finish [OK r; Err e] = Err e.
Proof. unfold ChooseBest_Finish. simpl. by destruct (_ <? _). Qed.
