(* ===== verification/Arrays.v ===== *)
(** * Row-major numbers, and the data and operations of xla/array.h. *)

From S2P Require Import Prelude MachineInt PermutationUtil IndexUtil Util.

(** ** Row-major numbers

    The number of an index in the row-major order of an array, its digits, and their
    permutation: the theory behind xla/array.h and the tile assignments. *)

(** The first dimension is the most significant one. *)
Fixpoint rm (ds ix : list Z) : Z :=
  match ds, ix with d :: ds, x :: ix => x * prod ds + rm ds ix | _, _ => 0 end.

(** The product of the dimensions after each one. *)
Fixpoint strides (ds : list Z) : list Z :=
  match ds with [] => [] | _ :: ds => prod ds :: strides ds end.

Fixpoint dot (xs ys : list Z) : Z :=
  match xs, ys with x :: xs, y :: ys => x * y + dot xs ys | _, _ => 0 end.

Lemma rm_lin ds ix : length ds = length ix -> rm ds ix = lin (rev ds) (rev ix).
Proof.
  revert ix. induction ds as [|d ds IH]; intros [|x ix] Hl; simpl in *; try done.
  rewrite lin_app by (rewrite !length_rev; lia). rewrite prod_rev, IH by lia. simpl. lia.
Qed.

Lemma rm_app ds es ix iy : length ds = length ix -> rm (ds ++ es) (ix ++ iy) = rm ds ix * prod es + rm es iy.
Proof.
  revert ix. induction ds as [|d ds IH]; intros [|x ix] Hl; simpl in *; try done. rewrite prod_app, IH by lia. ring.
Qed.

Lemma rm_bound ds ix : Forall2 digit ds ix -> 0 <= rm ds ix < prod ds.
Proof.
  intros HF. rewrite rm_lin by (by eapply Forall2_length). rewrite <- (prod_rev ds). by apply lin_bound, digits_rev.
Qed.

Lemma rm_inj ds ix iy : Forall2 digit ds ix -> Forall2 digit ds iy -> rm ds ix = rm ds iy -> ix = iy.
Proof.
  intros Hx Hy. rewrite !rm_lin by (by eapply Forall2_length). intros E.
  apply (lin_inj (rev ds)) in E; [|by apply digits_rev..]. by rewrite <- (rev_involutive ix), E, rev_involutive.
Qed.

Lemma rm_digits ds n : Forall (fun d => 0 < d) ds -> 0 <= n < prod ds -> exists ix, Forall2 digit ds ix /\ rm ds ix = n.
Proof.
  intros Hp Hn. destruct (digits_of (rev ds) n) as (vs & Hvs & Hl).
  { by apply Forall_rev. } { by rewrite prod_rev. }
  exists (rev vs). apply digits_rev in Hvs. rewrite rev_involutive in Hvs. split; [done|].
  rewrite rm_lin by (by eapply Forall2_length). by rewrite rev_involutive.
Qed.

Lemma rm_strides ds ix : length ds = length ix -> rm ds ix = dot ix (strides ds).
Proof.
  revert ix. induction ds as [|d ds IH]; intros [|x ix] Hl; simpl in *; try done. by rewrite IH by lia.
Qed.

Lemma length_strides ds : length (strides ds) = length ds.
Proof. induction ds; simpl; congruence. Qed.

Lemma dot_app xs ys us vs : length xs = length us -> dot (xs ++ ys) (us ++ vs) = dot xs us + dot ys vs.
Proof. revert us. induction xs as [|x xs IH]; intros [|u us] Hl; simpl in *; try done. rewrite IH by lia. lia. Qed.

Lemma dot_zeros ys xs : Forall (fun x => x = 0) xs -> dot xs ys = 0.
Proof. intros HF. revert ys. induction HF as [|x xs -> HF IH]; intros [|y ys]; simpl; try done. by rewrite IH. Qed.

(** A sum of products does not depend on the order of the summands. *)
Lemma dot_sum xs ys : dot xs ys = foldr Z.add 0 (zip_with Z.mul xs ys).
Proof. revert ys. induction xs as [|x xs IH]; intros [|y ys]; simpl; try done. by rewrite IH. Qed.

Lemma sum_perm l k : l ≡ₚ k -> foldr Z.add 0 l = foldr Z.add 0 k.
Proof. induction 1; simpl; lia. Qed.

Lemma sel_zip (f : Z -> Z -> Z) xs ys p : f 0 0 = 0 -> length xs = length ys ->
  sel (zip_with f xs ys) p = zip_with f (sel xs p) (sel ys p).
Proof.
  intros Hf Hl. unfold sel. induction p as [|j p IH]; [done|]. simpl. rewrite IH. f_equal.
  rewrite !nth_lookup, lookup_zip_with. destruct (xs !! Z.to_nat j) as [x|] eqn:Ex, (ys !! Z.to_nat j) as [y|] eqn:Ey; simpl; try done.
  - apply lookup_ge_None in Ey. apply lookup_lt_Some in Ex. lia.
  - apply lookup_ge_None in Ex. apply lookup_lt_Some in Ey. lia.
Qed.

Lemma dot_sel xs ys p : is_perm p -> length p = length xs -> length xs = length ys ->
  dot (sel xs p) (sel ys p) = dot xs ys.
Proof.
  intros Hp Hlx Hl. rewrite !dot_sum, <- sel_zip by done. apply sum_perm, sel_perm; [done|].
  rewrite length_zip_with. lia.
Qed.

Lemma length_sel l p : length (sel l p) = length p.
Proof. unfold sel. apply length_map. Qed.

Lemma sel_lookup l p k j : p !! k = Some j -> 0 <= j < Zlen l -> sel l p !! k = l !! Z.to_nat j.
Proof.
  intros Hk Hj. unfold sel. rewrite list_lookup_fmap, Hk. simpl. rewrite nth_lookup. unfold Zlen in Hj.
  by destruct (lookup_lt_is_Some_2 l (Z.to_nat j)) as [x ->]; [lia|].
Qed.

(** A permutation that is an inverse undoes the selection. *)
Lemma sel_onto ds iy p : is_perm p -> length p = length ds -> Forall2 digit (sel ds p) iy ->
  exists ix, Forall2 digit ds ix /\ iy = sel ix p.
Proof.
  intros Hp Hl Hy. pose proof (Forall2_length _ _ _ Hy) as Hly. rewrite length_sel in Hly.
  destruct (scatter_spec 0 (length ds) iy p) as (ix & _ & Hlx & Hix).
  { by apply is_perm_NoDup. } { apply Forall_forall. intros j Hj. pose proof (is_perm_range _ _ Hp Hj). unfold Zlen in *. lia. } { lia. }
  assert (Esel : sel ix p = iy).
  { apply list_eq. intros k. destruct (p !! k) as [j|] eqn:Ek.
    - destruct (lookup_lt_is_Some_2 iy k) as [y Ey]; [apply lookup_lt_Some in Ek; lia|].
      rewrite (sel_lookup ix p k j Ek); [rewrite Ey; by destruct (proj1 (idx_Some _ _ _) (Hix k j y Ek Ey))|].
      pose proof (is_perm_range p j Hp (list_elem_of_lookup_2 _ _ _ Ek)). unfold Zlen in *. lia.
    - rewrite lookup_ge_None in Ek. rewrite !lookup_ge_None_2 by (rewrite ?length_sel; lia). done. }
  exists ix. split; [|done]. apply Forall2_same_length_lookup_2; [lia|]. intros j d x Hd Hx.
  assert (Hj : Z.of_nat j ∈ p) by (apply is_perm_surj; [done|]; apply lookup_lt_Some in Hd; unfold Zlen; lia).
  apply list_elem_of_lookup in Hj as [k Hk]. apply lookup_lt_Some in Hd as Hlt. apply lookup_lt_Some in Hx as Hlt'.
  pose proof (Forall2_lookup_lr _ _ _ k d x Hy) as HD. apply HD.
  - rewrite (sel_lookup ds p k _ Hk); [by rewrite Nat2Z.id|unfold Zlen; lia].
  - rewrite <- Esel, (sel_lookup ix p k _ Hk); [by rewrite Nat2Z.id|unfold Zlen; lia].
Qed.

(** ** Multidimensional arrays: the data and operations of xla/array.h

    An array is its sizes and its values in row-major order.  An element of a buffer
    that C++ leaves uninitialized is [inhabitant].  Sizes and indices are 64 bits wide;
    those of type size_t are unsigned.  An index that a buffer does not have is a
    [Crash].  Random filling and the conversion to a string are not modelled. *)

Record Array (T : Type) := mkArray {
  sizes_ : list Z;
  values_ : list T;
}.
Arguments mkArray {T} sizes_ values_.
Arguments sizes_ {T} a : rename.
Arguments values_ {T} a : rename.

Definition addu64 (x y : Z) : Z := u64 (x + y).
Definition mulu64 (x y : Z) : Z := u64 (x * y).

Definition calculate_elements (sizes : list Z) : Z := u64 (foldl mul64 1 sizes).

Section Array.
Context {T : Type} `{Inhabited T}.

Definition no_default_init (sizes : list Z) : Array T :=
  mkArray sizes (replicate (Z.to_nat (calculate_elements sizes)) inhabitant).

Definition Fill (value : T) (a : Array T) : Array T :=
  mkArray (sizes_ a) (replicate (length (values_ a)) value).

Definition new_Array_filled (sizes : list Z) (value : T) : Array T := Fill value (no_default_init sizes).

Definition dim (a : Array T) (n : Z) : outcome Z := at_ (sizes_ a) n.
Definition dimensions (a : Array T) : list Z := sizes_ a.
Definition num_dimensions (a : Array T) : Z := Zlen (sizes_ a).
Definition num_elements (a : Array T) : Z := Zlen (values_ a).

Definition calculate_index (a : Array T) (indexes : list Z) : outcome Z :=
  foldM (fun index i =>
      s ← at_ (sizes_ a) i; x ← at_ indexes i; OK (add64 (mul64 index s) x))
    0 (indices (sizes_ a)).

Definition get (a : Array T) (indexes : list Z) : outcome T :=
  _ ← check (Zlen indexes =? num_dimensions a);
  i ← calculate_index a indexes;
  at_ (values_ a) i.

(** [n] is [i_plus_1]. *)
Fixpoint next_index_from (a : Array T) (index : list Z) (n : nat) : outcome (list Z * bool) :=
  match n with
  | O => OK (index, false)
  | S i =>
      x ← at_ index (Z.of_nat i);
      s ← at_ (sizes_ a) (Z.of_nat i);
      let new_index := add64 x 1 in
      if new_index <? s then index ← set_at index (Z.of_nat i) new_index; OK (index, true)
      else index ← set_at index (Z.of_nat i) 0; next_index_from a index i
  end.

Definition next_index (a : Array T) (index : list Z) : outcome (list Z * bool) :=
  next_index_from a index (length (sizes_ a)).

(** The loop of Each and of the slices: over the values, with their indices. *)
Definition each_index {S} (a : Array T) (f : S -> list Z -> Z -> T -> outcome S) (s : S) : outcome S :=
  '(s, _) ← foldM (fun '(s, index) i =>
      v ← at_ (values_ a) i;
      s ← f s index i v;
      '(index, _) ← next_index a index;
      OK (s, index))
    (s, replicate (length (sizes_ a)) 0) (indices (values_ a));
  OK s.

(** The calls of the callback. *)
Definition Each (a : Array T) : outcome (list (list Z * T)) :=
  each_index a (fun calls index _ v => OK (calls ++ [(index, v)])) [].

Definition SetValues (container : list T) (a : Array T) : outcome (Array T) :=
  _ ← check (Zlen container =? num_elements a); OK (mkArray (sizes_ a) container).

Definition array_eq `{EqDecision T} (a b : Array T) : bool :=
  bool_decide (sizes_ a = sizes_ b) && bool_decide (values_ a = values_ b).

Definition Reshape (new_dimensions : list Z) (a : Array T) : outcome (Array T) :=
  _ ← check (Product new_dimensions =? num_elements a); OK (mkArray new_dimensions (values_ a)).

(** ** Slices *)

Fixpoint all_inside_range (values range_starts range_limits : list Z) : bool :=
  match values, range_starts, range_limits with
  | v :: values, s :: starts, l :: limits =>
      if (v <? s) || (l <=? v) then false else all_inside_range values starts limits
  | _, _, _ => true
  end.

Definition Slice (starts limits : list Z) (out_of_bounds_value : option T) (a : Array T) : outcome (Array T) :=
  _ ← check (Zlen starts =? num_dimensions a);
  _ ← check (Zlen limits =? num_dimensions a);
  sizes ← mapM (fun i =>
      s ← at_ starts i; l ← at_ limits i;
      _ ← check (0 <=? s);
      d ← dim a i;
      _ ← check (bool_decide (is_Some out_of_bounds_value) || (l <=? d));
      OK (sub64 l s)) (indices starts);
  let result := mkArray sizes (replicate (Z.to_nat (calculate_elements sizes)) inhabitant) in
  if num_elements result =? 0 then OK result
  else
    let result := match out_of_bounds_value with Some v => Fill v result | None => result end in
    '(values, _) ← each_index a (fun '(values, slice_i) index i v =>
        if all_inside_range index starts limits
        then values ← set_at values slice_i v; OK (values, slice_i + 1)
        else OK (values, slice_i)) (values_ result, 0);
    OK (mkArray sizes values).

Definition UpdateSlice (from : Array T) (start_indices : list Z) (a : Array T) : outcome (Array T) :=
  _ ← check (num_dimensions from =? num_dimensions a);
  limit_indices ← mapM (fun i => f ← dim from i; s ← at_ start_indices i; OK (add64 f s)) (indices start_indices);
  '(values, _) ← each_index a (fun '(values, from_i) index i _ =>
      if all_inside_range index start_indices limit_indices
      then v ← at_ (values_ from) from_i; values ← set_at values i v; OK (values, from_i + 1)
      else OK (values, from_i)) (values_ a, 0);
  OK (mkArray (sizes_ a) values).

(** ** Transposition *)

Definition TransposeDimensionsImpl2D (a permuted : Array T) : outcome (Array T) :=
  size0 ← at_ (sizes_ a) 0;
  size1 ← at_ (sizes_ a) 1;
  '(values, _) ← foldM (fun '(values, src_value_index) i0 =>
      '(values, src_value_index, _) ← foldM (fun '(values, src_value_index, dst_value_index) _ =>
          v ← at_ (values_ a) src_value_index;
          values ← set_at values dst_value_index v;
          OK (values, addu64 src_value_index 1, addu64 dst_value_index size0))
        (values, src_value_index, i0) (seqZ 0 size1);
      OK (values, src_value_index)) (values_ permuted, 0) (seqZ 0 size0);
  OK (mkArray (sizes_ permuted) values).

(** strides[k - 1] = strides[k] * dim(k), from the last one on. *)
Fixpoint strides_of (sizes : list Z) : list Z :=
  match sizes with
  | [] => []
  | [_] => [1]
  | _ :: (d :: _) as sizes =>
      match strides_of sizes with
      | s :: strides => mulu64 s d :: s :: strides
      | [] => []
      end
  end.

(** The last dimension that can be increased; [n] is [dim_index_plus_1]. *)
Fixpoint find_dim (a : Array T) (src_indexes : list Z) (n : nat) : outcome (nat * Z) :=
  match n with
  | O => Crash
  | S dim_index =>
      x ← at_ src_indexes (Z.of_nat dim_index);
      d ← dim a (Z.of_nat dim_index);
      let new_index := addu64 x 1 in
      if new_index <? d then OK (dim_index, new_index) else find_dim a src_indexes dim_index
  end.

(** The indices and the stack, set from position [k] on. *)
Definition set_from (l : list Z) (k : nat) (x : Z) : list Z := take k l ++ replicate (length l - k) x.

(** The loop over [src_value_index]; [fuel] is the number of values left. *)
Fixpoint transpose_loop (fuel : nat) (a : Array T) (strides_aligned : list Z) (values : list T)
    (src_value_index dst_value_index : Z) (src_indexes dst_value_index_stack : list Z) : outcome (list T) :=
  match fuel with
  | O => NoFuel
  | S fuel =>
      v ← at_ (values_ a) src_value_index;
      values ← set_at values dst_value_index v;
      if src_value_index =? u64 (num_elements a - 1) then OK values
      else
        '(dim_index, new_index) ← find_dim a src_indexes (length (sizes_ a));
        src_indexes ← set_at src_indexes (Z.of_nat dim_index) new_index;
        base ← at_ dst_value_index_stack (Z.of_nat dim_index);
        stride ← at_ strides_aligned (Z.of_nat dim_index);
        let dst_value_index := addu64 base stride in
        dst_value_index_stack ← set_at dst_value_index_stack (Z.of_nat dim_index) dst_value_index;
        transpose_loop fuel a strides_aligned values (addu64 src_value_index 1) dst_value_index
          (set_from src_indexes (S dim_index) 0) (set_from dst_value_index_stack (S dim_index) dst_value_index)
  end.

Definition TransposeDimensionsImpl3DOrMore (permutation : list Z) (a permuted : Array T) : outcome (Array T) :=
  if num_elements a =? 0 then OK permuted
  else
    let strides := strides_of (sizes_ permuted) in
    strides_aligned ← scatter 0 (length (sizes_ a)) strides permutation;
    values ← transpose_loop (length (values_ a)) a strides_aligned (values_ permuted) 0 0
      (replicate (length (sizes_ a)) 0) (replicate (length (sizes_ a)) 0);
    OK (mkArray (sizes_ permuted) values).

Definition TransposeDimensions (permutation : list Z) (a : Array T) : outcome (Array T) :=
  _ ← check (num_dimensions a =? Zlen permutation);
  if IsIdentityPermutation permutation then OK a
  else
    permuted_dims ← mapM (fun p => dim a p) permutation;
    let permuted := no_default_init permuted_dims in
    if num_dimensions a =? 2 then TransposeDimensionsImpl2D a permuted
    else TransposeDimensionsImpl3DOrMore permutation a permuted.

End Array.

(** ** Counting *)

Definition FillIota (value : Z) (a : Array Z) : Array Z :=
  mkArray (sizes_ a) (seqZ value (Zlen (values_ a))).

Definition FillWithMultiples (multiplier : Z) (a : Array Z) : Array Z :=
  mkArray (sizes_ a) ((fun i => mul64 i multiplier) <$> indices (values_ a)).

(** An array whose elements are initialized: of numbers, zeros. *)
Definition new_Array (sizes : list Z) : Array Z := new_Array_filled sizes 0.
