(* ===== verification/ArrayTheorems.v ===== *)
(** * xla/array.h: theorems

    The traversals visit every index once in row-major order; both routines of
    TransposeDimensions move every element to its place. *)

From S2P Require Import Prelude MachineInt PermutationUtil IndexUtil Util Arrays.

(** An array of the sizes [ds], which are positive. *)
Record array_ok {T} (ds : list Z) (a : Array T) : Prop := {
  ao_sizes : sizes_ a = ds;
  ao_pos : Forall (fun d => 0 < d) ds;
  ao_values : Zlen (values_ a) = prod ds;
  ao_small : prod ds < two63;
}.

Lemma digit_small ds ix : Forall2 digit ds ix -> prod ds < two63 -> Forall (fun x => 0 <= x < two63 - 1) ix.
Proof.
  intros HF Hp. apply Forall_forall. intros x [k Hk]%list_elem_of_lookup.
  destruct (Forall2_lookup_r _ _ _ _ _ HF Hk) as (d & Hd & Hdig). unfold digit in Hdig.
  assert (d <= prod ds); [|lia]. apply elem_le_prod; [by eapply digits_pos|]. by eapply list_elem_of_lookup_2.
Qed.

Lemma prod_small ds k : Forall (fun d => 0 < d) ds -> 0 < prod (take k ds) <= prod ds.
Proof. intros Hp. split; [by apply prod_pos, Forall_take|by apply prod_take_le]. Qed.

Lemma Product_ok ds : Forall (fun d => 0 < d) ds -> prod ds < two63 -> Product ds = prod ds.
Proof.
  intros Hp Hs. unfold Product.
  assert (Hloop : forall ds p, Forall (fun d => 0 < d) ds -> 0 < p -> p * prod ds < two63 -> foldl mul64 p ds = p * prod ds).
  { clear. induction ds as [|d ds IH]; intros p Hp H0 Hs; simpl in *; [lia|]. apply Forall_cons in Hp as [Hd Hp].
    pose proof (prod_pos ds Hp). rewrite mul64_fits by (z64; nia). rewrite IH; [ring|done|nia|nia]. }
  rewrite Hloop by (done || lia). lia.
Qed.

Lemma calculate_elements_ok ds : Forall (fun d => 0 < d) ds -> prod ds < two63 -> calculate_elements ds = prod ds.
Proof.
  intros Hp Hs. unfold calculate_elements. fold (Product ds). rewrite Product_ok by done. pose proof (prod_pos ds Hp).
  unfold u64. apply Z.mod_small. z64. lia.
Qed.

Section Arrays.
Context {T : Type} `{Inhabited T} (ds : list Z) (a : Array T) (Ha : array_ok ds a).

Lemma no_default_init_ok es : Forall (fun d => 0 < d) es -> prod es < two63 -> array_ok es (no_default_init (T := T) es).
Proof.
  intros Hp Hs. split; [done|done| |done]. unfold no_default_init, Zlen. simpl.
  rewrite length_replicate, calculate_elements_ok by done. pose proof (prod_pos es Hp). lia.
Qed.

Lemma calculate_index_ok ix : Forall2 digit ds ix -> calculate_index a ix = OK (rm ds ix).
Proof.
  intros HF. pose proof (Forall2_length _ _ _ HF) as Hl. destruct Ha as [E Hp _ Hs]. unfold calculate_index. rewrite E.
  destruct (foldM_indices (fun k index => index = rm (take k ds) (take k ix))
    (fun index i => s ← at_ ds i; x ← at_ ix i; OK (add64 (mul64 index s) x)) ds 0) as (r & Hr & HP); [done| |].
  - intros k index Hk ->. destruct (lookup_lt_is_Some_2 ds k Hk) as [d Hd].
    destruct (Forall2_lookup_l _ _ _ _ _ HF Hd) as (x & Hx & Hdig). unfold digit in Hdig.
    rewrite (proj2 (at_OK ds (Z.of_nat k) d)) by by rewrite idx_of_nat.
    rewrite (proj2 (at_OK ix (Z.of_nat k) x)) by by rewrite idx_of_nat. cbn [mbind outcome_bind].
    assert (HFk : Forall2 digit (take k ds) (take k ix)) by by apply Forall2_take. pose proof (rm_bound _ _ HFk) as Hb. pose proof (prod_small ds (S k) Hp) as Hps.
    rewrite (take_S_r _ _ _ Hd), prod_app in Hps. simpl in Hps.
    eexists. split; [done|]. rewrite (take_S_r _ _ _ Hd), (take_S_r _ _ _ Hx), rm_app by (rewrite !length_take; lia).
    simpl. rewrite mul64_fits by (z64; nia). rewrite add64_fits by (z64; nia). lia.
  - rewrite Hr. by rewrite HP, take_ge, take_ge by lia.
Qed.

Lemma value_in_range n : 0 <= n < prod ds -> exists v, values_ a !! Z.to_nat n = Some v /\ at_ (values_ a) n = OK v.
Proof.
  intros Hn. destruct Ha as [_ _ Hv _]. destruct (at_in_range (values_ a) n) as [v Hat]; [lia|].
  exists v. split; [|done]. by apply at_OK, idx_Some in Hat as [_ ?].
Qed.

Lemma get_ok ix : Forall2 digit ds ix -> exists v, get a ix = OK v /\ values_ a !! Z.to_nat (rm ds ix) = Some v.
Proof.
  intros HF. destruct (value_in_range (rm ds ix) (rm_bound _ _ HF)) as (v & Hv & Hat). exists v. split; [|done].
  unfold get, num_dimensions. rewrite (ao_sizes _ _ Ha). unfold Zlen. rewrite (Forall2_length _ _ _ HF), Z.eqb_refl.
  cbn [check mbind outcome_bind]. rewrite calculate_index_ok by done. exact Hat.
Qed.

(** ** Counting *)

Lemma set_at_middle {A} (l : list A) x r y : set_at (l ++ x :: r) (Z.of_nat (length l)) y = OK (l ++ y :: r).
Proof.
  apply set_at_OK. unfold Zlen. rewrite length_app. simpl. split; [lia|]. rewrite Nat2Z.id.
  replace (length l) with (length l + 0)%nat at 1 by lia. by rewrite insert_app_r.
Qed.

(** The dimensions behind [ix] are reset already. *)
Lemma next_index_loop ix : forall D E, Forall2 digit D ix -> ds = D ++ E ->
  exists out b, next_index_from a (ix ++ replicate (length E) 0) (length D) = OK (out, b) /\ Forall2 digit ds out /\
    (if b then rm ds out = (rm D ix + 1) * prod E else rm D ix = prod D - 1).
Proof.
  destruct Ha as [Es Hp _ Hs]. induction ix as [|x ix IH] using rev_ind; intros D E HF HD.
  { inversion HF; subst D. simpl. exists (replicate (length E) 0), false. split; [done|]. split; [|done].
    rewrite HD in Hp |- *. simpl in *. clear -Hp. induction Hp; simpl; constructor; [by unfold digit; lia|done]. }
  apply Forall2_app_inv_r in HF as (D' & d' & HF & Hd & ->). apply Forall2_cons_inv_r in Hd as (d & d2 & Hd & Hnil & ->).
  apply Forall2_nil_inv_r in Hnil as ->. unfold digit in Hd. pose proof (Forall2_length _ _ _ HF) as Hl.
  rewrite <- app_assoc in HD. simpl in HD. rewrite length_app, Nat.add_1_r. cbn [next_index_from]. rewrite Es, HD.
  rewrite <- app_assoc. simpl. rewrite Hl, at_middle. cbn [mbind outcome_bind]. rewrite <- Hl, at_middle. cbn [mbind outcome_bind].
  assert (Hd63 : d < two63) by (eapply Z.le_lt_trans; [|exact Hs]; rewrite HD in Hp |- *; apply elem_le_prod; [done|set_solver]).
  rewrite add64_fits by (z64; lia). rewrite Hl, !set_at_middle. cbn [mbind outcome_bind].
  assert (Hz : Forall2 digit E (replicate (length E) 0)).
  { rewrite HD in Hp. apply Forall_app in Hp as [_ [_ Hp]%Forall_cons]. clear -Hp. induction Hp; simpl; constructor; [by unfold digit; lia|done]. }
  assert (Hz0 : rm E (replicate (length E) 0) = 0).
  { rewrite rm_strides by by rewrite length_replicate. apply dot_zeros. by apply Forall_replicate. }
  rewrite rm_app, prod_app by done. cbn [rm prod]. destruct (Z.ltb_spec (x + 1) d) as [Hlt|Hge].
  - exists (ix ++ (x + 1) :: replicate (length E) 0), true. split; [done|]. split.
    + apply Forall2_app; [done|]. constructor; [unfold digit; lia|done].
    + rewrite rm_app by done. cbn [rm prod]. rewrite Hz0. ring.
  - destruct (IH D' (d :: E) HF HD) as (out & b & HO & Hdig & Hb). cbn [length replicate] in HO. rewrite Hl in HO. rewrite HO.
    rewrite HD in Hdig, Hb. exists out, b. split; [done|]. split; [done|]. assert (x = d - 1) by lia. destruct b; [rewrite Hb; simpl; subst x; ring|subst x; nia].
Qed.

Lemma next_index_ok ix : Forall2 digit ds ix ->
  exists out b, next_index a ix = OK (out, b) /\ Forall2 digit ds out /\
    (if b then rm ds out = rm ds ix + 1 else rm ds ix = prod ds - 1).
Proof.
  intros HF. destruct (next_index_loop ix ds [] HF) as (out & b & HN & Hd & Hb); [by rewrite app_nil_r|].
  simpl in HN. rewrite app_nil_r in HN. exists out, b. unfold next_index. rewrite (ao_sizes _ _ Ha). split; [done|]. split; [done|].
  destruct b; simpl in Hb; lia.
Qed.

Lemma zeros_digits : Forall2 digit ds (replicate (length ds) 0) /\ rm ds (replicate (length ds) 0) = 0.
Proof.
  destruct Ha as [_ Hp _ _]. split.
  - clear -Hp. induction Hp; simpl; constructor; [by unfold digit; lia|done].
  - rewrite rm_strides by by rewrite length_replicate. apply dot_zeros. by apply Forall_replicate.
Qed.

(** The loop over all elements and their indices. *)
Lemma each_index_ok {S} (P : Z -> S -> Prop) (f : S -> list Z -> Z -> T -> outcome S) s0 :
  P 0 s0 ->
  (forall ix v s, Forall2 digit ds ix -> values_ a !! Z.to_nat (rm ds ix) = Some v -> P (rm ds ix) s ->
    exists s', f s ix (rm ds ix) v = OK s' /\ P (rm ds ix + 1) s') ->
  exists s, each_index a f s0 = OK s /\ P (prod ds) s.
Proof.
  intros H0 Hs. unfold each_index. rewrite (ao_sizes _ _ Ha). destruct zeros_digits as [Hz Hz0].
  pose proof (ao_values _ _ Ha) as Hv. unfold Zlen in Hv.
  match goal with |- context [foldM ?F ?B ?L] => destruct (foldM_indices (fun k x => P (Z.of_nat k) x.1 /\ ((k < length (values_ a))%nat ->
    Forall2 digit ds x.2 /\ rm ds x.2 = Z.of_nat k)) F (values_ a) B) as ((s & index) & HF & HP & _) end.
  - split; [done|]. intros _. done.
  - intros k [s index] Hk [HP Hidx]. cbn [fst snd] in *. destruct (Hidx Hk) as [Hd Hrm].
    destruct (value_in_range (Z.of_nat k)) as (v & Hvk & Hat); [lia|]. rewrite Hat. cbn [mbind outcome_bind].
    rewrite <- Hrm in HP, Hvk |- *. destruct (Hs index v s Hd Hvk HP) as (s' & Hf & HP'). rewrite Hf. cbn [mbind outcome_bind].
    destruct (next_index_ok index Hd) as (out & b & HN & Hdo & Hb). rewrite HN. cbn [mbind outcome_bind].
    eexists. split; [done|]. cbn [fst snd]. split; [by replace (Z.of_nat (Datatypes.S k)) with (rm ds index + 1) by lia|].
    intros Hk'. split; [done|]. destruct b; lia.
  - rewrite HF. cbn [mbind outcome_bind fst] in *. exists s. split; [done|]. by rewrite <- Hv.
Qed.

End Arrays.

Lemma Each_ok {T} `{Inhabited T} ds (a : Array T) : array_ok ds a ->
  exists calls, Each a = OK calls /\ calls.*2 = values_ a /\
    forall k ix v, calls !! k = Some (ix, v) -> Forall2 digit ds ix /\ rm ds ix = Z.of_nat k.
Proof.
  intros Ha. unfold Each.
  destruct (each_index_ok ds a Ha (fun n calls => Zlen calls = n /\ calls.*2 = take (Z.to_nat n) (values_ a) /\
    forall k ix v, calls !! k = Some (ix, v) -> Forall2 digit ds ix /\ rm ds ix = Z.of_nat k)
    (fun calls index _ v => OK (calls ++ [(index, v)])) []) as (calls & HE & _ & Hv & Hk).
  - done.
  - intros ix v calls Hd Hv (Hl & Hvals & Hk). eexists. split; [done|]. pose proof (rm_bound _ _ Hd) as Hb.
    split; [rewrite Zlen_app; unfold Zlen in *; simpl; lia|]. split.
    + rewrite fmap_app, Hvals. replace (Z.to_nat (rm ds ix + 1)) with (S (Z.to_nat (rm ds ix))) by lia. simpl.
      by rewrite (take_S_r _ _ _ Hv).
    + intros k iy w [Hin|[Hge Hin]]%lookup_app_Some; [by apply (Hk k iy w)|].
      apply list_lookup_singleton_Some in Hin as [Hkk [= <- <-]]. split; [done|]. unfold Zlen in Hl. lia.
  - exists calls. split; [done|]. split; [|done]. rewrite Hv. apply take_ge. pose proof (ao_values _ _ Ha) as Hvv. unfold Zlen in Hvv. lia.
Qed.

(** ** Transposition *)

Lemma strides_of_ok es : Forall (fun d => 0 < d) es -> prod es < two63 -> strides_of es = strides es.
Proof.
  induction es as [|e es IH]; intros Hpos Hs; [done|]. destruct es as [|d es]; [done|].
  apply Forall_cons in Hpos as [He Hpos]. pose proof Hpos as [Hd Hpos']%Forall_cons. pose proof (prod_pos es Hpos').
  change (strides_of (e :: d :: es)) with
    (match strides_of (d :: es) with s :: strides => mulu64 s d :: s :: strides | [] => [] end).
  rewrite IH; [|done|simpl in *; nia]. cbn [strides]. f_equal. unfold mulu64, u64. simpl in *.
  rewrite Z.mod_small by (z64; nia). ring.
Qed.

Section Transpose.
Context {T : Type} `{Inhabited T} (ds p : list Z) (a : Array T) (Ha : array_ok ds a).
Context (Hp : is_perm p) (Hlp : length p = length ds).

(** Where an element goes. *)
Definition target (ix : list Z) : Z := rm (sel ds p) (sel ix p).

Lemma sel_pos : Forall (fun d => 0 < d) (sel ds p).
Proof using Ha Hlp Hp. rewrite sel_perm by done. apply (ao_pos _ _ Ha). Qed.

Lemma sel_prod : prod (sel ds p) = prod ds.
Proof using Hlp Hp. apply prod_perm. by apply sel_perm. Qed.

Lemma target_bound ix : Forall2 digit ds ix -> 0 <= target ix < prod ds.
Proof using Hlp Hp. intros Hd. rewrite <- sel_prod. apply rm_bound, sel_digits; [done|]. by apply perm_in_range. Qed.

Lemma target_inj ix iy : Forall2 digit ds ix -> Forall2 digit ds iy -> target ix = target iy -> ix = iy.
Proof using Hlp Hp.
  intros Hx Hy E. apply rm_inj in E; [|by apply sel_digits, perm_in_range..].
  apply Forall2_length in Hx, Hy. apply (sel_inj ix iy p Hp); [lia..|done].
Qed.

(** The first [n] elements are moved. *)
Definition moved (n : Z) (vals : list T) : Prop :=
  Zlen vals = prod ds /\
  forall ix, Forall2 digit ds ix -> rm ds ix < n -> vals !! Z.to_nat (target ix) = values_ a !! Z.to_nat (rm ds ix).

Lemma moved_start vals : Zlen vals = prod ds -> moved 0 vals.
Proof using Type. intros Hl. split; [done|]. intros ix Hd Hn. pose proof (rm_bound _ _ Hd) as Hb. clear -Hn Hb. lia. Qed.

Lemma move_step n vals ix v : moved n vals -> Forall2 digit ds ix -> rm ds ix = n -> values_ a !! Z.to_nat n = Some v ->
  exists vals', set_at vals (target ix) v = OK vals' /\ moved (n + 1) vals'.
Proof using Hlp Hp.
  intros [Hl Hm] Hd Hn Hv. pose proof (target_bound ix Hd) as Hb. exists (<[Z.to_nat (target ix) := v]> vals).
  split; [apply set_at_OK; rewrite Hl; done|]. split; [unfold Zlen in *; by rewrite length_insert|]. intros iy Hy Hlt.
  destruct (decide (iy = ix)) as [->|Hne].
  - rewrite list_lookup_insert_eq by (unfold Zlen in Hl; lia). by rewrite Hn.
  - rewrite list_lookup_insert_ne; [apply Hm; [done|]|].
    + destruct (decide (rm ds iy = n)); [|lia]. destruct Hne. apply (rm_inj ds); [done..|congruence].
    + intros E. destruct Hne. pose proof (target_bound iy Hy). apply target_inj; [done..|lia].
Qed.

(** Two dimensions. *)
Lemma Transpose2D_ok s0 s1 permuted : ds = [s0; s1] -> p = [1; 0] -> array_ok (sel ds p) permuted ->
  exists vals, TransposeDimensionsImpl2D a permuted = OK (mkArray (sel ds p) vals) /\ moved (prod ds) vals.
Proof using Ha Hlp Hp.
  intros Eds Ep Hper. pose proof Ha as [Es Hpos Hv Hs]. rewrite Eds in Es, Hpos. unfold TransposeDimensionsImpl2D. rewrite Es.
  apply Forall_cons in Hpos as [H0 [H1 _]%Forall_cons]. assert (Epr : prod ds = s0 * s1) by (rewrite Eds; simpl; lia).
  cbn [at_ idx mbind outcome_bind]. change (at_ [s0; s1] 0) with (OK s0 : outcome Z). change (at_ [s0; s1] 1) with (OK s1 : outcome Z).
  cbn [mbind outcome_bind].
  assert (Hix : forall i0 i1, 0 <= i0 < s0 -> 0 <= i1 < s1 -> Forall2 digit ds [i0; i1] /\ rm ds [i0; i1] = i0 * s1 + i1 /\
    target [i0; i1] = i1 * s0 + i0).
  { intros i0 i1 ? ?. unfold target. rewrite Eds, Ep. split; [constructor; [done|constructor; [done|constructor]]|]. split; simpl; lia. }
  match goal with |- context [foldM ?F ?B _] => destruct (foldM_seqZ (fun k x => moved (Z.of_nat k * s1) x.1 /\ x.2 = Z.of_nat k * s1)
    F (Z.to_nat s0) B) as ((vals & src) & HF & HM & _) end.
  - split; [|done]. apply moved_start. cbn [fst]. rewrite (ao_values _ _ Hper). apply sel_prod.
  - intros k [vals src] Hk [HM Hsrc]. cbn [fst snd] in *.
    match goal with |- context [foldM ?F ?B _] => destruct (foldM_seqZ (fun j x => moved (Z.of_nat k * s1 + Z.of_nat j) x.1.1 /\
      x.1.2 = Z.of_nat k * s1 + Z.of_nat j /\ x.2 = Z.of_nat j * s0 + Z.of_nat k) F (Z.to_nat s1) B) as ((x & dst) & HF & HM' & Hx & _) end.
    + cbn [fst snd]. rewrite Z.add_0_r. split; [done|]. split; lia.
    + intros j [[vals' src'] dst] Hj (HM' & Hs' & Hd'). cbn [fst snd] in *. destruct (Hix (Z.of_nat k) (Z.of_nat j)) as (Hd & Er & Et); [lia..|].
      destruct (value_in_range ds a Ha (Z.of_nat k * s1 + Z.of_nat j)) as (v & Hvk & Hat); [nia|].
      rewrite Hs', Hat. cbn [mbind outcome_bind].
      destruct (move_step _ vals' [Z.of_nat k; Z.of_nat j] v HM' Hd Er Hvk) as (vals2 & Hset & HM2). rewrite Et in Hset.
      rewrite Hd', Hset. cbn [mbind outcome_bind]. eexists. split; [done|]. cbn [fst snd]. unfold addu64, u64.
      split; [by replace (Z.of_nat k * s1 + Z.of_nat (S j)) with (Z.of_nat k * s1 + Z.of_nat j + 1) by lia|].
      rewrite !Z.mod_small by (z64; nia). lia.
    + destruct x as [vals' src']. cbn [fst snd] in *. rewrite (Z2Nat.id s1) in HF by lia. rewrite HF. cbn [mbind outcome_bind]. eexists. split; [done|]. cbn [fst snd].
      replace (Z.of_nat (S k) * s1) with (Z.of_nat k * s1 + Z.of_nat (Z.to_nat s1)) by lia. done.
  - rewrite (Z2Nat.id s0) in HF by lia. rewrite HF. cbn [mbind outcome_bind fst] in *. exists vals. rewrite (ao_sizes _ _ Hper). split; [done|].
    by replace (prod ds) with (Z.of_nat (Z.to_nat s0) * s1) by lia.
Qed.

(** Three dimensions or more. *)
(** The strides of the target, in the order of the source. *)
Lemma aligned_ok : exists al, scatter 0 (length ds) (strides (sel ds p)) p = OK al /\ length al = length ds /\
  forall ix, length ix = length ds -> target ix = dot ix al.
Proof using Hlp Hp.
  destruct (scatter_spec 0 (length ds) (strides (sel ds p)) p) as (al & Hal & Hl & Hk).
  { by apply is_perm_NoDup. } { apply Forall_forall. intros j Hj. pose proof (is_perm_range _ _ Hp Hj). unfold Zlen in *. lia. }
  { by rewrite length_strides, length_sel. }
  exists al. split; [done|]. split; [done|]. intros ix Hix. unfold target. rewrite rm_strides by by rewrite !length_sel.
  rewrite <- (dot_sel ix al p) by (done || lia). f_equal. apply list_eq. intros k. destruct (p !! k) as [j|] eqn:Ek.
  - destruct (lookup_lt_is_Some_2 (strides (sel ds p)) k) as [s Es].
    { rewrite length_strides, length_sel. by eapply lookup_lt_Some. }
    rewrite (sel_lookup al p k j Ek); [rewrite Es; by destruct (proj1 (idx_Some _ _ _) (Hk k j s Ek Es))|].
    pose proof (is_perm_range p j Hp (list_elem_of_lookup_2 _ _ _ Ek)). unfold Zlen in *. lia.
  - rewrite lookup_ge_None in Ek. rewrite !lookup_ge_None_2 by (rewrite ?length_strides, ?length_sel; lia). done.
Qed.

Lemma find_dim_loop ix1 : forall D E ix2, Forall2 digit D ix1 -> Forall2 digit E ix2 -> ds = D ++ E ->
  rm E ix2 = prod E - 1 -> rm ds (ix1 ++ ix2) + 1 < prod ds ->
  exists pre x rest, ix1 ++ ix2 = pre ++ x :: rest /\ find_dim a (ix1 ++ ix2) (length D) = OK (length pre, x + 1) /\
    Forall2 digit ds (pre ++ (x + 1) :: replicate (length rest) 0) /\
    rm ds (pre ++ (x + 1) :: replicate (length rest) 0) = rm ds (ix1 ++ ix2) + 1.
Proof using Ha Hlp Hp.
  pose proof Ha as [Es Hpos _ Hs]. induction ix1 as [|x ix IH] using rev_ind; intros D E ix2 HD HE Eds Hmax Hlt.
  { inversion HD; subst D. simpl in *. subst E. lia. }
  apply Forall2_app_inv_r in HD as (D' & d' & HD & Hd & ->). apply Forall2_cons_inv_r in Hd as (d & d2 & Hd & Hnil & ->).
  apply Forall2_nil_inv_r in Hnil as ->. unfold digit in Hd. pose proof (Forall2_length _ _ _ HD) as Hl.
  pose proof (Forall2_length _ _ _ HE) as HlE. rewrite <- app_assoc in Eds, Hlt |- *. simpl in Eds, Hlt |- *.
  rewrite length_app, Nat.add_1_r. cbn [find_dim]. unfold dim. rewrite Es. rewrite Hl, at_middle. cbn [mbind outcome_bind].
  rewrite Eds, <- Hl, at_middle, Hl. cbn [mbind outcome_bind].
  assert (Hd63 : d < two63) by (eapply Z.le_lt_trans; [|exact Hs]; rewrite Eds in Hpos |- *; apply elem_le_prod; [done|set_solver]).
  assert (Ex : addu64 x 1 = x + 1) by (unfold addu64, u64; apply Z.mod_small; z64; lia). rewrite Ex.
  rewrite Eds, rm_app, !prod_app in Hlt by done. cbn [rm prod] in Hlt. destruct (Z.ltb_spec (x + 1) d) as [Hx|Hx].
  - assert (Hz : Forall2 digit E (replicate (length ix2) 0)).
    { rewrite <- HlE. rewrite Eds in Hpos. apply Forall_app in Hpos as [_ [_ Hpos]%Forall_cons]. clear -Hpos.
      induction Hpos; simpl; constructor; [by unfold digit; lia|done]. }
    assert (Hz0 : rm E (replicate (length ix2) 0) = 0).
    { rewrite rm_strides by by rewrite length_replicate. apply dot_zeros. by apply Forall_replicate. }
    exists ix, x, ix2. split; [done|]. split; [done|]. split.
    + apply Forall2_app; [done|]. constructor; [unfold digit; lia|done].
    + rewrite !rm_app by done. cbn [rm prod]. rewrite Hz0, Hmax. ring.
  - assert (Exd : x = d - 1) by lia. destruct (IH D' (d :: E) (x :: ix2)) as (pre & y & rest & Hpre & HF & Hdig & Hrm).
    + done. + by constructor. + done.
    + cbn [rm prod]. rewrite Hmax, Exd. ring.
    + rewrite Eds, rm_app, !prod_app by done. cbn [rm prod]. lia.
    + exists pre, y, rest. rewrite <- Hl, HF. rewrite Eds in Hdig, Hrm. done.
Qed.

Lemma find_dim_ok ix : Forall2 digit ds ix -> rm ds ix + 1 < prod ds ->
  exists pre x rest, ix = pre ++ x :: rest /\ find_dim a ix (length ds) = OK (length pre, x + 1) /\
    Forall2 digit ds (pre ++ (x + 1) :: replicate (length rest) 0) /\
    rm ds (pre ++ (x + 1) :: replicate (length rest) 0) = rm ds ix + 1.
Proof using Ha Hlp Hp.
  intros Hd Hlt. pose proof (find_dim_loop ix ds [] [] Hd) as HF. rewrite !app_nil_r in HF. by apply HF.
Qed.

(** The partial sums that the stack keeps. *)
Definition stack_ok (al ix stack : list Z) : Prop :=
  length stack = length ds /\ forall k s, stack !! k = Some s -> s = dot (take (S k) ix) (take (S k) al).

Lemma stack_next al pre x rest stack base stride :
  length al = length ds -> length (pre ++ x :: rest) = length ds -> stack_ok al (pre ++ x :: rest) stack ->
  stack !! length pre = Some base -> al !! length pre = Some stride ->
  let ix' := pre ++ (x + 1) :: replicate (length rest) 0 in
  base + stride = dot ix' al /\
  stack_ok al ix' (set_from (<[length pre := base + stride]> stack) (S (length pre)) (base + stride)).
Proof.
  intros Hal Hix [Hls Hst] Hb Hstr ix'. assert (Eal : al = take (length pre) al ++ stride :: drop (S (length pre)) al)
    by (symmetry; by apply take_drop_middle).
  assert (Hlal : length (take (length pre) al) = length pre) by (rewrite length_take; rewrite length_app in Hix; simpl in Hix; lia).
  assert (Eb : base = dot pre (take (length pre) al) + x * stride).
  { rewrite (Hst _ _ Hb), (take_S_r _ _ _ Hstr). rewrite take_app_ge by lia. replace (S (length pre) - length pre)%nat with 1%nat by lia.
    simpl. rewrite dot_app by done. simpl. lia. }
  assert (Edot : forall l, dot (pre ++ (x + 1) :: l) al = dot pre (take (length pre) al) + (x + 1) * stride + dot l (drop (S (length pre)) al)).
  { intros l. rewrite Eal at 1. rewrite dot_app by done. simpl. lia. }
  assert (Enew : forall l, Forall (fun z => z = 0) l -> base + stride = dot (pre ++ (x + 1) :: l) al).
  { intros l Hl. rewrite Edot, (dot_zeros _ l) by done. lia. }
  split; [apply Enew; by apply Forall_replicate|]. split.
  - unfold set_from. rewrite length_app, length_take, length_replicate, !length_insert. apply lookup_lt_Some in Hb. lia.
  - intros k s Hk. unfold set_from in Hk. assert (Hltp : (length pre < length stack)%nat) by by eapply lookup_lt_Some.
    apply lookup_app_Some in Hk as [[Hk Hlt]%lookup_take_Some|[Hge [-> Hlt]%lookup_replicate]].
    + destruct (decide (k = length pre)) as [->|Hne].
      * rewrite list_lookup_insert_eq in Hk by done. injection Hk as <-. rewrite (Enew []) by constructor. unfold ix'.
        rewrite (take_S_r al _ stride) by done. rewrite take_app_ge by lia.
        replace (S (length pre) - length pre)%nat with 1%nat by lia. simpl.
        rewrite Eal at 1. rewrite !dot_app by done. simpl. lia.
      * rewrite list_lookup_insert_ne in Hk by done. rewrite (Hst k s Hk). unfold ix'. rewrite length_app in Hix. cbn [length] in Hix. rewrite !take_app_le by lia. done.
    + rewrite length_take, length_insert in Hge. unfold ix'. rewrite take_app_ge by lia.
      destruct (S k - length pre)%nat as [|n] eqn:En; [lia|]. rewrite firstn_cons.
      assert (Et : take (S k) al = take (length pre) al ++ stride :: take n (drop (S (length pre)) al)).
      { rewrite Eal at 1. rewrite take_app_ge by lia. rewrite Hlal, En. done. }
      rewrite Et, dot_app by done. cbn [dot]. rewrite (dot_zeros _ (take n _)) by (by apply Forall_take, Forall_replicate). lia.
Qed.

Lemma transpose_loop_ok al : length al = length ds -> (forall ix, length ix = length ds -> target ix = dot ix al) ->
  forall fuel vals ix stack, Forall2 digit ds ix -> moved (rm ds ix) vals -> stack_ok al ix stack ->
  prod ds - rm ds ix = Z.of_nat fuel ->
  exists vals', transpose_loop fuel a al vals (rm ds ix) (target ix) ix stack = OK vals' /\ moved (prod ds) vals'.
Proof using Ha Hlp Hp.
  intros Hal Htar. pose proof Ha as [Es Hpos Hv Hs]. induction fuel as [|fuel IH]; intros vals ix stack Hd Hm Hst Hf.
  { pose proof (rm_bound _ _ Hd). lia. }
  pose proof (rm_bound _ _ Hd) as Hb. destruct (value_in_range ds a Ha (rm ds ix) Hb) as (v & Hvk & Hat).
  destruct (move_step _ vals ix v Hm Hd eq_refl Hvk) as (vals' & Hset & Hm'). cbn [transpose_loop]. rewrite Hat. cbn [mbind outcome_bind].
  rewrite Hset. cbn [mbind outcome_bind]. unfold num_elements. rewrite Hv.
  assert (Eu : u64 (prod ds - 1) = prod ds - 1) by (unfold u64; apply Z.mod_small; z64; lia). rewrite Eu.
  destruct (Z.eqb_spec (rm ds ix) (prod ds - 1)) as [El|Hne].
  { exists vals'. split; [done|]. by replace (prod ds) with (rm ds ix + 1) by lia. }
  destruct (find_dim_ok ix Hd) as (pre & x & rest & Eix & HF & Hd' & Hrm'); [lia|]. rewrite Es, HF. cbn [mbind outcome_bind].
  pose proof (Forall2_length _ _ _ Hd) as Hlix. rewrite Eix in Hst, Hlix.
  assert (Hlt : (length pre < length ds)%nat) by (rewrite Hlix, length_app; simpl; lia).
  destruct (lookup_lt_is_Some_2 stack (length pre)) as [base Hbase]; [destruct Hst; lia|].
  destruct (lookup_lt_is_Some_2 al (length pre)) as [stride Hstride]; [lia|].
  destruct (stack_next al pre x rest stack base stride Hal (eq_sym Hlix) Hst Hbase Hstride) as [Edst Hst'].
  assert (Hset2 : set_at ix (Z.of_nat (length pre)) (x + 1) = OK (pre ++ (x + 1) :: rest)) by (rewrite Eix; apply set_at_middle).
  rewrite Hset2. cbn [mbind outcome_bind].
  rewrite (proj2 (at_OK stack _ base)) by by rewrite idx_of_nat. cbn [mbind outcome_bind].
  rewrite (proj2 (at_OK al _ stride)) by by rewrite idx_of_nat. cbn [mbind outcome_bind].
  set (ix' := pre ++ (x + 1) :: replicate (length rest) 0) in *.
  assert (Ed' : addu64 base stride = target ix').
  { unfold addu64. rewrite Edst, <- Htar by (symmetry; by eapply Forall2_length). pose proof (target_bound ix' Hd'). unfold u64. apply Z.mod_small. z64. lia. }
  rewrite Ed'. rewrite (proj2 (set_at_OK stack (<[length pre := target ix']> stack) _ _)).
  2:{ rewrite Nat2Z.id. destruct Hst. unfold Zlen. split; [lia|done]. }
  cbn [mbind outcome_bind].
  assert (Esrc : addu64 (rm ds ix) 1 = rm ds ix') by (unfold addu64, u64; rewrite Z.mod_small by (z64; lia); lia). rewrite Esrc.
  assert (Eset : set_from (pre ++ (x + 1) :: rest) (S (length pre)) 0 = ix').
  { unfold set_from, ix'. rewrite length_app. simpl length. rewrite take_app_ge by lia.
    replace (S (length pre) - length pre)%nat with 1%nat by lia. simpl. rewrite <- app_assoc. simpl. do 3 f_equal. lia. }
  rewrite Eset. rewrite Edst, <- Htar in Hst' by (symmetry; by eapply Forall2_length).
  apply IH; [done|by rewrite Hrm'|done|lia].
Qed.

End Transpose.

(** ** The whole transposition *)

Lemma IsIdentity_spec p : IsIdentityPermutation p = true <-> p = indices p.
Proof.
  unfold IsIdentityPermutation. rewrite forallb_forall. split.
  - intros HF. apply list_eq. intros k. destruct (p !! k) as [j|] eqn:Ek.
    + pose proof (lookup_lt_Some _ _ _ Ek) as Hlt. symmetry. apply idx_indices. split; [done|].
      specialize (HF (Z.of_nat k, j)). apply Z.eqb_eq. apply HF. apply list_elem_of_In, list_elem_of_lookup. exists k.
      apply lookup_zip_with_Some. exists (Z.of_nat k), j. split; [done|]. split; [|done]. by apply idx_indices.
    + symmetry. apply lookup_ge_None_2. rewrite length_indices. by apply lookup_ge_None.
  - intros E [i j] Hin. apply list_elem_of_In, list_elem_of_lookup in Hin as [k Hk].
    apply lookup_zip_with_Some in Hk as (i' & j' & [= <- <-] & Hi & Hj). apply Z.eqb_eq. rewrite E in Hj. congruence.
Qed.

Lemma sel_indices l : sel l (indices l) = l.
Proof.
  apply list_eq. intros k. destruct (decide (k < length l)%nat) as [Hlt|Hge].
  - rewrite (sel_lookup l _ k (Z.of_nat k)); [by rewrite Nat2Z.id|by apply idx_indices|unfold Zlen; lia].
  - rewrite !lookup_ge_None_2 by (rewrite ?length_sel, ?length_indices; lia). done.
Qed.

Lemma permuted_dims {T} ds p (a : Array T) : array_ok ds a -> is_perm p -> length p = length ds ->
  mapM (fun p => dim a p) p = OK (sel ds p).
Proof.
  intros Ha Hp Hl. apply mapM_OK. unfold sel. apply Forall2_fmap_r, Forall2_same_length_lookup_2; [done|].
  intros k j j' Hj Hj'. assert (j' = j) as -> by congruence. unfold dim. rewrite (ao_sizes _ _ Ha). apply at_nth.
  pose proof (is_perm_range p j Hp (list_elem_of_lookup_2 _ _ _ Hj)). unfold Zlen in *. lia.
Qed.

Lemma swap_perm p : is_perm p -> length p = 2%nat -> IsIdentityPermutation p = false -> p = [1; 0].
Proof.
  intros Hp Hl Hid. destruct p as [|x [|y [|? ?]]]; try done. pose proof (is_perm_NoDup _ Hp) as Hn.
  assert (Hx : 0 <= x < 2) by (apply (is_perm_range [x; y]); [done|set_solver]).
  assert (Hy : 0 <= y < 2) by (apply (is_perm_range [x; y]); [done|set_solver]).
  apply NoDup_cons in Hn as [Hn _]. rewrite list_elem_of_singleton in Hn.
  assert (x = 0 \/ x = 1) as [->| ->] by lia; assert (y = 0 \/ y = 1) as [->| ->] by lia; try done.
Qed.

Lemma moved_all {T} `{Inhabited T} ds p (a : Array T) vals : array_ok ds a -> is_perm p -> length p = length ds ->
  moved ds p a (prod ds) vals ->
  array_ok (sel ds p) (mkArray (sel ds p) vals) /\
  forall ix, Forall2 digit ds ix -> get (mkArray (sel ds p) vals) (sel ix p) = get a ix.
Proof.
  intros Ha Hp Hl [Hlen Hm].
  assert (Hok : array_ok (sel ds p) (mkArray (sel ds p) vals)).
  { split; [done|by apply (sel_pos ds p a)|simpl; by rewrite sel_prod|rewrite sel_prod by done; apply (ao_small _ _ Ha)]. }
  split; [done|]. intros ix Hd. assert (Hd' : Forall2 digit (sel ds p) (sel ix p)) by by apply sel_digits, perm_in_range.
  destruct (get_ok _ _ Hok _ Hd') as (v & -> & Hv). destruct (get_ok _ _ Ha _ Hd) as (w & -> & Hw). cbn [values_] in Hv.
  fold (target ds p ix) in Hv. rewrite (Hm ix Hd) in Hv by (by apply rm_bound). congruence.
Qed.

Lemma TransposeDimensions_ok {T} `{Inhabited T} (ds p : list Z) (a : Array T)
    (Ha : array_ok ds a) (Hp : is_perm p) (Hlp : length p = length ds) :
  exists b, TransposeDimensions p a = OK b /\ array_ok (sel ds p) b /\
    forall ix, Forall2 digit ds ix -> get b (sel ix p) = get a ix.
Proof.
  unfold TransposeDimensions, num_dimensions. rewrite (ao_sizes _ _ Ha). unfold Zlen. rewrite Hlp, Z.eqb_refl. cbn [check mbind outcome_bind].
  destruct (IsIdentityPermutation p) eqn:Hid.
  { apply IsIdentity_spec in Hid. exists a. split; [done|]. assert (Ep : p = indices ds) by (unfold indices, Zlen in *; congruence).
    rewrite Ep, sel_indices. split; [done|]. intros ix Hd. f_equal. pose proof (Forall2_length _ _ _ Hd) as Hl.
    replace (indices ds) with (indices ix) by (unfold indices, Zlen; congruence). apply sel_indices. }
  rewrite (permuted_dims ds p a) by done. cbn [mbind outcome_bind].
  assert (Hper : array_ok (sel ds p) (no_default_init (T := T) (sel ds p))).
  { apply no_default_init_ok; [by apply (sel_pos ds p a)|rewrite sel_prod by done; apply (ao_small _ _ Ha)]. }
  destruct (Z.eqb_spec (Z.of_nat (length ds)) 2) as [El|_].
  - assert (Ep : p = [1; 0]) by (apply swap_perm; [done|lia|done]). destruct ds as [|s0 [|s1 [|? ?]]]; try (simpl in El; lia).
    destruct (Transpose2D_ok [s0; s1] p a Ha Hp Hlp s0 s1 _ eq_refl Ep Hper) as (vals & HT & Hm). rewrite HT.
    exists (mkArray (sel [s0; s1] p) vals). split; [done|]. by apply moved_all.
  - pose proof (ao_values _ _ Ha) as Hv. pose proof (prod_pos ds (ao_pos _ _ Ha)) as Hpos.
    unfold TransposeDimensionsImpl3DOrMore, num_elements. rewrite Hv. destruct (Z.eqb_spec (prod ds) 0) as [|_]; [lia|].
    rewrite (ao_sizes _ _ Hper), (ao_sizes _ _ Ha). rewrite strides_of_ok by (apply Hper).
    destruct (aligned_ok ds p Hp Hlp) as (al & -> & Hal & Htar). cbn [mbind outcome_bind].
    destruct (zeros_digits ds a Ha) as [Hz Hz0].
    assert (Ht0 : target ds p (replicate (length ds) 0) = 0).
    { rewrite Htar by by rewrite length_replicate. apply dot_zeros. by apply Forall_replicate. }
    destruct (transpose_loop_ok ds p a Ha Hp Hlp al Hal Htar (length (values_ a))
      (values_ (no_default_init (T := T) (sel ds p))) (replicate (length ds) 0) (replicate (length ds) 0)) as (vals & HT & Hm).
    + done.
    + rewrite Hz0. apply moved_start. rewrite (ao_values _ _ Hper). by apply sel_prod.
    + split; [by rewrite length_replicate|]. intros k s [-> _]%lookup_replicate. symmetry. apply dot_zeros.
      by apply Forall_take, Forall_replicate.
    + rewrite Hz0. unfold Zlen in Hv. lia.
    + rewrite Hz0, Ht0 in HT. rewrite HT. cbn [mbind outcome_bind]. eexists. split; [done|]. by apply moved_all.
Qed.

(** C27: TransposeDimensions, by its routine for two dimensions or the one that walks an
    array of more dimensions with a stack of partial target positions, returns for an
    array of positive sizes and a permutation of its dimensions an array of the permuted
    sizes whose element at the permuted index is the element of the source at the index. *)
Theorem TransposeDimensions_correct {T} `{Inhabited T} (ds p : list Z) (a : Array T)
    (Ha : array_ok ds a) (Hp : is_perm p) (Hlp : length p = length ds) :
  exists b, TransposeDimensions p a = OK b /\ dimensions b = sel ds p /\ num_elements b = num_elements a /\
    forall ix, Forall2 digit ds ix -> is_OK (get a ix) = true /\ get b (sel ix p) = get a ix.
Proof.
  destruct (TransposeDimensions_ok ds p a Ha Hp Hlp) as (b & HT & Hb & Hget). exists b. split; [done|].
  split; [apply Hb|]. split.
  - unfold num_elements. rewrite (ao_values _ _ Hb), (ao_values _ _ Ha). by apply sel_prod.
  - intros ix Hd. split; [|by apply Hget]. by destruct (get_ok ds a Ha ix Hd) as (v & -> & _).
Qed.

Lemma TransposeDimensions_correct_witness :
  exists b : Array Z, TransposeDimensions [2; 0; 1] (mkArray [2; 3; 2] (seqZ 0 12)) = OK b /\ dimensions b = [2; 2; 3] /\
    num_elements b = 12 /\ get b [1; 1; 2] = OK 11.
Proof.
  destruct (TransposeDimensions_correct [2; 3; 2] [2; 0; 1] (mkArray [2; 3; 2] (seqZ 0 12))) as (b & HT & Hd & Hn & Hget).
  - split; [done|repeat constructor; lia|done|done].
  - apply IsPermutation_iff. vm_compute. reflexivity.
  - reflexivity.
  - exists b. split; [exact HT|]. split; [exact Hd|]. split; [exact Hn|].
    destruct (Hget [1; 2; 1]) as [_ H1]; [repeat constructor; unfold digit; lia|]. exact H1.
Defined.
