(* ===== verification/OrderedSet.v ===== *)
(** * OrderedSet: a set with a deterministic iteration order

    xla/service/graphcycles/ordered_set.h.  The elements lie in a vector, a hash
    map gives the position of each; erasing moves the last element into the
    place of the erased one.  [os_ok] is the invariant that ties the two
    together, and every operation is shown to be the operation on sets that its
    name says. *)

From Stdlib Require Import ZArith Lia.
From S2P Require Import Prelude.

Record OrderedSet := mkOrderedSet {
  value_sequence_ : list Z;
  value_to_index_ : gmap Z Z;
}.

Definition os_empty : OrderedSet := mkOrderedSet [] ∅.

(** ** Operations *)

(** Returns whether the value was not yet in the set. *)
Definition Insert (value : Z) (s : OrderedSet) : bool * OrderedSet :=
  match value_to_index_ s !! value with
  | Some _ => (false, s)
  | None => (true, mkOrderedSet (value_sequence_ s ++ [value])
               (<[value := Zlen (value_sequence_ s)]> (value_to_index_ s)))
  end.

(** Erasing a value that is not in the set dereferences the end iterator. *)
Definition Erase (value : Z) (s : OrderedSet) : outcome OrderedSet :=
  match value_to_index_ s !! value with
  | None => Crash
  | Some i =>
      let n := Zlen (value_sequence_ s) in
      back ← at_ (value_sequence_ s) (n - 1);
      let m := <[back := i]> (value_to_index_ s) in
      v ← at_ (value_sequence_ s) i;
      seq ← set_at (value_sequence_ s) i back;
      seq ← set_at seq (n - 1) v;
      OK (mkOrderedSet (take (length seq - 1) seq) (delete value m))
  end.

Definition Clear (s : OrderedSet) : OrderedSet := mkOrderedSet [] ∅.
Definition Contains (value : Z) (s : OrderedSet) : bool :=
  bool_decide (is_Some (value_to_index_ s !! value)).
Definition Size (s : OrderedSet) : Z := Zlen (value_sequence_ s).
Definition GetSequence (s : OrderedSet) : list Z := value_sequence_ s.

(** ** The invariant *)

Definition os_ok (s : OrderedSet) : Prop :=
  forall v i, value_to_index_ s !! v = Some i <-> idx (value_sequence_ s) i = Some v.

Lemma os_ok_NoDup s : os_ok s -> NoDup (GetSequence s).
Proof.
  intros Hok. apply NoDup_alt. intros i j v Hi Hj.
  rewrite <- idx_of_nat in Hi, Hj. apply Hok in Hi, Hj. rewrite Hi in Hj.
  injection Hj. lia.
Qed.

Lemma os_ok_elem s v :
  os_ok s -> v ∈ GetSequence s <-> is_Some (value_to_index_ s !! v).
Proof.
  intros Hok. split.
  - intros [i Hi]%list_elem_of_lookup. rewrite <- idx_of_nat in Hi. apply Hok in Hi. eauto.
  - intros [i Hi]. apply Hok, idx_Some in Hi as [_ Hi]. by eapply list_elem_of_lookup_2.
Qed.

Lemma Contains_spec s v : os_ok s -> Contains v s = true <-> v ∈ GetSequence s.
Proof. intros Hok. unfold Contains. rewrite bool_decide_eq_true. by rewrite os_ok_elem. Qed.

Lemma os_ok_empty : os_ok os_empty.
Proof.
  intros v i. simpl. rewrite lookup_empty, idx_Some, lookup_nil. by split; [|intros []].
Qed.

Lemma Insert_spec s v :
  os_ok s ->
  let (b, s') := Insert v s in
  os_ok s' /\ b = negb (bool_decide (v ∈ GetSequence s)) /\
  GetSequence s' = if b then GetSequence s ++ [v] else GetSequence s.
Proof.
  intros Hok. unfold Insert. pose proof (os_ok_elem s v Hok) as Hel.
  destruct (value_to_index_ s !! v) as [j|] eqn:Ev.
  { split_and!; [done| |done]. rewrite bool_decide_true; [done|]. by apply Hel. }
  assert (Hn : v ∉ value_sequence_ s) by (intros Hv%Hel; by apply is_Some_None in Hv).
  split_and!; [|by rewrite bool_decide_false|done].
  intros w i. simpl. rewrite idx_Some, lookup_app_Some, list_lookup_singleton_Some.
  pose proof (Hok w i) as Hwi. rewrite idx_Some in Hwi. unfold Zlen.
  destruct (decide (w = v)) as [->|Hne].
  - rewrite lookup_insert_eq. split.
    + intros [= <-]. split; [lia|]. right. split; [lia|]. split; [lia|done].
    + intros (? & [Hi|(? & ? & _)]); [by apply list_elem_of_lookup_2 in Hi|]. f_equal. lia.
  - rewrite lookup_insert_ne by done. rewrite Hwi. naive_solver.
Qed.

(** What [Erase] computes: the last element [b] takes the place [i] of [v]. *)
Definition erased (l : list Z) (i : nat) (v b : Z) : list Z :=
  take (length l - 1) (<[(length l - 1)%nat := v]> (<[i := b]> l)).

Lemma Erase_OK s v :
  os_ok s -> v ∈ GetSequence s ->
  exists (i : nat) b, GetSequence s !! i = Some v /\
    GetSequence s !! (length (GetSequence s) - 1)%nat = Some b /\
    Erase v s = OK (mkOrderedSet (erased (GetSequence s) i v b)
      (delete v (<[b := Z.of_nat i]> (value_to_index_ s)))).
Proof.
  intros Hok Hv. unfold Erase, GetSequence in *.
  destruct (proj1 (os_ok_elem s v Hok) Hv) as [iz Hiz]. rewrite Hiz.
  pose proof (proj1 (Hok _ _) Hiz) as [Hi0 Hi]%idx_Some.
  pose proof (lookup_lt_Some _ _ _ Hi) as Hlt. set (l := value_sequence_ s) in *.
  destruct (lookup_lt_is_Some_2 l (length l - 1)) as [b Hb]; [lia|].
  assert (En : Zlen l - 1 = Z.of_nat (length l - 1)) by (unfold Zlen; lia).
  exists (Z.to_nat iz), b. split; [done|]. split; [done|].
  rewrite En, (proj2 (at_OK l _ b) (eq_trans (idx_of_nat l _) Hb)). cbn [mbind outcome_bind].
  rewrite (proj2 (at_OK l iz v) (proj2 (idx_Some l iz v) (conj Hi0 Hi))). cbn [mbind outcome_bind].
  rewrite (proj2 (set_at_OK l _ iz b)) by (unfold Zlen; split; [lia|done]).
  cbn [mbind outcome_bind].
  rewrite (proj2 (set_at_OK _ _ _ v))
    by (unfold Zlen; rewrite length_insert; split; [lia|done]).
  cbn [mbind outcome_bind]. unfold erased.
  by rewrite !length_insert, Nat2Z.id, Z2Nat.id.
Qed.

Section Erased.
Context (l : list Z) (i : nat) (v b : Z).
Context (Hnd : NoDup l) (Hi : l !! i = Some v) (Hb : l !! (length l - 1)%nat = Some b).

Lemma erased_lookup k w :
  erased l i v b !! k = Some w <->
  (k < length l - 1)%nat /\ if decide (k = i) then w = b else l !! k = Some w.
Proof.
  pose proof (lookup_lt_Some _ _ _ Hi). unfold erased. rewrite lookup_take_Some.
  split; intros [H1 H2].
  - split; [done|]. rewrite list_lookup_insert_ne in H1 by lia. case_decide as E; [subst k|].
    + rewrite list_lookup_insert_eq in H1 by done. by injection H1.
    + by rewrite list_lookup_insert_ne in H1.
  - split; [|done]. rewrite list_lookup_insert_ne by lia. case_decide as E; [subst k w|].
    + by rewrite list_lookup_insert_eq.
    + by rewrite list_lookup_insert_ne.
Qed.

Lemma erased_elem w : w ∈ erased l i v b <-> w ∈ l /\ w <> v.
Proof.
  pose proof (lookup_lt_Some _ _ _ Hi).
  rewrite list_elem_of_lookup. setoid_rewrite erased_lookup. split.
  - intros (k & Hk & Hw). case_decide as E; [subst k w|].
    + split; [by eapply list_elem_of_lookup_2|]. intros ->.
      assert (i = length l - 1)%nat by (eapply NoDup_lookup; eauto). lia.
    + split; [by eapply list_elem_of_lookup_2|]. intros ->. by eapply E, NoDup_lookup.
  - intros [[k Hk]%list_elem_of_lookup Hne]. pose proof (lookup_lt_Some _ _ _ Hk).
    destruct (decide (k = length l - 1)%nat) as [->|Hl1].
    + exists i. rewrite decide_True by done. split; [|congruence].
      enough (i <> length l - 1)%nat by lia. intros ->. congruence.
    + exists k. rewrite decide_False by (intros ->; congruence). split; [lia|done].
Qed.

Lemma erased_index m :
  os_ok (mkOrderedSet l m) ->
  os_ok (mkOrderedSet (erased l i v b) (delete v (<[b := Z.of_nat i]> m))).
Proof.
  intros Hok w k. pose proof (Hok w k) as Hwk. simpl in *.
  rewrite lookup_delete_Some. rewrite idx_Some in Hwk |- *. rewrite erased_lookup.
  pose proof (lookup_lt_Some _ _ _ Hi).
  assert (Hsame : forall j j' x, l !! j = Some x -> l !! j' = Some x -> j = j')
    by (intros; by eapply NoDup_lookup).
  destruct (decide (b = w)) as [->|Hbw]; [rewrite lookup_insert_eq|
    rewrite lookup_insert_ne, Hwk by done]; split.
  - intros [Hne [= <-]]. rewrite Nat2Z.id, decide_True by done.
    split; [lia|]. split; [|done].
    enough (i <> length l - 1)%nat by lia. intros ->. congruence.
  - intros (Hk0 & Hlk & Hl). case_decide as E.
    + split; [|f_equal; lia]. intros ->. pose proof (Hsame _ _ _ Hi Hb). lia.
    + pose proof (Hsame _ _ _ Hl Hb). lia.
  - intros (Hne & Hk0 & Hl). pose proof (lookup_lt_Some _ _ _ Hl).
    rewrite decide_False by (intros E; rewrite E in Hl; congruence).
    split; [done|]. split; [|done].
    enough (Z.to_nat k <> length l - 1)%nat by lia. intros E. rewrite E in Hl. congruence.
  - intros (Hk0 & Hlk & Hl). case_decide as E; [congruence|].
    split; [|done]. intros ->. by eapply E, Hsame.
Qed.
End Erased.

Lemma Erase_spec s v :
  os_ok s -> v ∈ GetSequence s ->
  exists s', Erase v s = OK s' /\ os_ok s' /\
    forall w, w ∈ GetSequence s' <-> w ∈ GetSequence s /\ w <> v.
Proof.
  intros Hok Hv. destruct (Erase_OK s v Hok Hv) as (i & b & Hi & Hb & HE).
  pose proof (os_ok_NoDup s Hok) as Hnd. destruct s as [l m]. unfold GetSequence in *.
  eexists. split; [exact HE|]. split; [by apply erased_index|].
  intros w. by apply erased_elem.
Qed.
