(* ===== verification/GraphCycles.v ===== *)
(** * GraphCycles: incremental cycle detection, data and operations

    xla/service/graphcycles/graphcycles.{h,cc}: a directed acyclic graph that
    refuses edges which would close a cycle.  Every node has a rank; ranks grow
    along edges, and inserting an edge against the ranks reorders them by the
    algorithm of Pearce and Kelly.

    A method takes the representation [Rep] and returns its result with the new
    representation, or crashes where the code would: on a failing CHECK and on an
    index out of range.  The vectors [stack_] and [free_nodes_], which the code
    only uses at their back, are kept with their back first; node data are the
    numbers of pointers.  Moved-from sets are empty.  Depth-first searches get
    fuel for one step per edge and node, which is proved to be enough. *)

From stdpp Require Import sorting.
From S2P Require Import Prelude OrderedSet.

Record Node := mkNode {
  rank : Z;
  visited : bool;
}.

Record NodeIO := mkNodeIO {
  in_ : OrderedSet;
  out : OrderedSet;
}.

Record Rep := mkRep {
  nodes_ : list Node;
  node_io_ : list NodeIO;
  free_nodes_ : list Z;
  deltaf_ : list Z;
  deltab_ : list Z;
  list_ : list Z;
  merged_ : list Z;
  stack_ : list Z;
  node_data_ : list Z;
}.

Definition GraphCycles_new : Rep := mkRep [] [] [] [] [] [] [] [] [].

(** Field assignment. *)
Definition with_nodes v r := mkRep v (node_io_ r) (free_nodes_ r) (deltaf_ r) (deltab_ r)
  (list_ r) (merged_ r) (stack_ r) (node_data_ r).
Definition with_io v r := mkRep (nodes_ r) v (free_nodes_ r) (deltaf_ r) (deltab_ r)
  (list_ r) (merged_ r) (stack_ r) (node_data_ r).
Definition with_free v r := mkRep (nodes_ r) (node_io_ r) v (deltaf_ r) (deltab_ r)
  (list_ r) (merged_ r) (stack_ r) (node_data_ r).
Definition with_deltaf v r := mkRep (nodes_ r) (node_io_ r) (free_nodes_ r) v (deltab_ r)
  (list_ r) (merged_ r) (stack_ r) (node_data_ r).
Definition with_deltab v r := mkRep (nodes_ r) (node_io_ r) (free_nodes_ r) (deltaf_ r) v
  (list_ r) (merged_ r) (stack_ r) (node_data_ r).
Definition with_list v r := mkRep (nodes_ r) (node_io_ r) (free_nodes_ r) (deltaf_ r)
  (deltab_ r) v (merged_ r) (stack_ r) (node_data_ r).
Definition with_merged v r := mkRep (nodes_ r) (node_io_ r) (free_nodes_ r) (deltaf_ r)
  (deltab_ r) (list_ r) v (stack_ r) (node_data_ r).
Definition with_stack v r := mkRep (nodes_ r) (node_io_ r) (free_nodes_ r) (deltaf_ r)
  (deltab_ r) (list_ r) (merged_ r) v (node_data_ r).
Definition with_data v r := mkRep (nodes_ r) (node_io_ r) (free_nodes_ r) (deltaf_ r)
  (deltab_ r) (list_ r) (merged_ r) (stack_ r) v.

Definition set_visited (b : bool) (v : Z) (r : Rep) : outcome Rep :=
  n ← at_ (nodes_ r) v;
  ns ← set_at (nodes_ r) v (mkNode (rank n) b);
  OK (with_nodes ns r).
Definition set_rank (k : Z) (v : Z) (r : Rep) : outcome Rep :=
  n ← at_ (nodes_ r) v;
  ns ← set_at (nodes_ r) v (mkNode k (visited n));
  OK (with_nodes ns r).

(** [node_io_[x].in.Erase(y)] and its relatives. *)
Definition upd_io (x : Z) (f : NodeIO -> outcome NodeIO) (r : Rep) : outcome Rep :=
  io ← at_ (node_io_ r) x;
  io' ← f io;
  ios ← set_at (node_io_ r) x io';
  OK (with_io ios r).
Definition in_Erase (x y : Z) : Rep -> outcome Rep :=
  upd_io x (fun io => s ← Erase y (in_ io); OK (mkNodeIO s (out io))).
Definition out_Erase (x y : Z) : Rep -> outcome Rep :=
  upd_io x (fun io => s ← Erase y (out io); OK (mkNodeIO (in_ io) s)).
Definition in_Insert (x y : Z) : Rep -> outcome Rep :=
  upd_io x (fun io => OK (mkNodeIO (Insert y (in_ io)).2 (out io))).
Definition out_Insert (x y : Z) : Rep -> outcome Rep :=
  upd_io x (fun io => OK (mkNodeIO (in_ io) (Insert y (out io)).2)).

(** ** Nodes, edges and node data *)

Definition NewNode (r : Rep) : outcome (Z * Rep) :=
  match free_nodes_ r with
  | [] =>
      let n := mkNode (Zlen (nodes_ r)) false in
      OK (rank n,
          with_data (node_data_ r ++ [0])
            (with_io (node_io_ r ++ [mkNodeIO os_empty os_empty])
              (with_nodes (nodes_ r ++ [n]) r)))
  | x :: free =>
      data ← set_at (node_data_ r) x 0;
      OK (x, with_data data (with_free free r))
  end.

Definition RemoveNode (node : Z) (r : Rep) : outcome Rep :=
  x ← at_ (node_io_ r) node;
  r ← foldM (fun r y => in_Erase y node r) r (GetSequence (out x));
  x ← at_ (node_io_ r) node;
  r ← foldM (fun r y => out_Erase y node r) r (GetSequence (in_ x));
  r ← upd_io node (fun io => OK (mkNodeIO (Clear (in_ io)) (Clear (out io)))) r;
  OK (with_free (node :: free_nodes_ r) r).

Definition GetNodeData (node : Z) (r : Rep) : outcome Z := at_ (node_data_ r) node.
Definition SetNodeData (node data : Z) (r : Rep) : outcome Rep :=
  d ← set_at (node_data_ r) node data;
  OK (with_data d r).

Definition HasEdge (x y : Z) (r : Rep) : outcome bool :=
  io ← at_ (node_io_ r) x;
  OK (Contains y (out io)).

Definition RemoveEdge (x y : Z) (r : Rep) : outcome Rep :=
  r ← out_Erase x y r;
  in_Erase y x r.

(** ** Depth-first search *)

(** The loop over the successors of a node: [false] when a node of rank
    [upper_bound] is found; the stack is left as it is then. *)
Fixpoint ForwardDFS_push (nodes : list Node) (upper_bound : Z) (ws stack : list Z) :
    outcome (bool * list Z) :=
  match ws with
  | [] => OK (true, stack)
  | w :: ws =>
      nw ← at_ nodes w;
      if rank nw =? upper_bound then OK (false, stack)
      else ForwardDFS_push nodes upper_bound ws
             (if negb (visited nw) && (rank nw <? upper_bound) then w :: stack else stack)
  end.

Fixpoint ForwardDFS_loop (fuel : nat) (upper_bound : Z) (r : Rep) : outcome (bool * Rep) :=
  match fuel with
  | O => NoFuel
  | S fuel =>
      match stack_ r with
      | [] => OK (true, r)
      | n :: stack =>
          nn ← at_ (nodes_ r) n;
          if visited nn then ForwardDFS_loop fuel upper_bound (with_stack stack r)
          else
            r ← set_visited true n (with_stack stack r);
            let r := with_deltaf (deltaf_ r ++ [n]) r in
            nn_io ← at_ (node_io_ r) n;
            p ← ForwardDFS_push (nodes_ r) upper_bound (GetSequence (out nn_io)) (stack_ r);
            let r := with_stack p.2 r in
            if negb p.1 then OK (false, r)
            else ForwardDFS_loop fuel upper_bound r
      end
  end.

Fixpoint total_degree (sel : NodeIO -> OrderedSet) (ios : list NodeIO) : nat :=
  match ios with
  | [] => O
  | io :: ios => (length (GetSequence (sel io)) + total_degree sel ios)%nat
  end.

Definition ForwardDFS (n upper_bound : Z) (r : Rep) : outcome (bool * Rep) :=
  ForwardDFS_loop (2 + total_degree out (node_io_ r)) upper_bound
    (with_stack [n] (with_deltaf [] r)).

Fixpoint BackwardDFS_push (nodes : list Node) (lower_bound : Z) (ws stack : list Z) :
    outcome (list Z) :=
  match ws with
  | [] => OK stack
  | w :: ws =>
      nw ← at_ nodes w;
      BackwardDFS_push nodes lower_bound ws
        (if negb (visited nw) && (lower_bound <? rank nw) then w :: stack else stack)
  end.

Fixpoint BackwardDFS_loop (fuel : nat) (lower_bound : Z) (r : Rep) : outcome Rep :=
  match fuel with
  | O => NoFuel
  | S fuel =>
      match stack_ r with
      | [] => OK r
      | n :: stack =>
          nn ← at_ (nodes_ r) n;
          if visited nn then BackwardDFS_loop fuel lower_bound (with_stack stack r)
          else
            r ← set_visited true n (with_stack stack r);
            let r := with_deltab (deltab_ r ++ [n]) r in
            nn_io ← at_ (node_io_ r) n;
            stack ← BackwardDFS_push (nodes_ r) lower_bound (GetSequence (in_ nn_io)) (stack_ r);
            BackwardDFS_loop fuel lower_bound (with_stack stack r)
      end
  end.

Definition BackwardDFS (n lower_bound : Z) (r : Rep) : outcome Rep :=
  BackwardDFS_loop (2 + total_degree in_ (node_io_ r)) lower_bound
    (with_stack [n] (with_deltab [] r)).

Definition ClearVisitedBits (visited_indices : list Z) (r : Rep) : outcome Rep :=
  foldM (fun r index => set_visited false index r) r visited_indices.

(** ** Reordering *)

Definition rank_of (nodes : list Node) (a : Z) : Z :=
  match idx nodes a with Some n => rank n | None => 0 end.

Definition rank_le (nodes : list Node) (a b : Z) : Prop := rank_of nodes a <= rank_of nodes b.
#[global] Instance rank_le_dec nodes : RelDecision (rank_le nodes).
Proof. intros a b. unfold rank_le. apply _. Defined.

(** std::sort by rank; the comparison reads the nodes of all elements. *)
Definition Sort (nodes : list Node) (delta : list Z) : outcome (list Z) :=
  _ ← mapM (at_ nodes) delta;
  OK (merge_sort (rank_le nodes) delta).

(** Appends [src] to [dst], clears the visited marks and returns the ranks that
    replace the entries of [src]. *)
Fixpoint MoveToList (src dst : list Z) (r : Rep) : outcome (list Z * list Z * Rep) :=
  match src with
  | [] => OK ([], dst, r)
  | w :: src =>
      nw ← at_ (nodes_ r) w;
      r ← set_visited false w r;
      '(ranks, dst, r) ← MoveToList src (dst ++ [w]) r;
      OK (rank nw :: ranks, dst, r)
  end.

Definition Reorder (r : Rep) : outcome Rep :=
  deltab ← Sort (nodes_ r) (deltab_ r);
  deltaf ← Sort (nodes_ r) (deltaf_ r);
  '(deltab, list, r) ← MoveToList deltab [] r;
  '(deltaf, list, r) ← MoveToList deltaf list r;
  let merged := list_merge Z.le deltab deltaf in
  let r := with_merged merged (with_list list (with_deltab deltab (with_deltaf deltaf r))) in
  foldM (fun r p => set_rank p.2 p.1 r) r (zip list merged).

(** ** Edge insertion and contraction *)

Definition InsertEdge (x y : Z) (r : Rep) : outcome (bool * Rep) :=
  if x =? y then OK (false, r)
  else
    nx_io ← at_ (node_io_ r) x;
    if negb (Insert y (out nx_io)).1 then OK (true, r)
    else
      r ← out_Insert x y r;
      r ← in_Insert y x r;
      nx ← at_ (nodes_ r) x;
      ny ← at_ (nodes_ r) y;
      if rank nx <=? rank ny then OK (true, r)
      else
        '(acyclic, r) ← ForwardDFS y (rank nx) r;
        if negb acyclic then
          r ← out_Erase x y r;
          r ← in_Erase y x r;
          r ← ClearVisitedBits (deltaf_ r) r;
          OK (false, r)
        else
          r ← BackwardDFS x (rank ny) r;
          r ← Reorder r;
          OK (true, r).

Definition IsReachableNonConst (x y : Z) (r : Rep) : outcome (bool * Rep) :=
  if x =? y then OK (true, r)
  else
    nx ← at_ (nodes_ r) x;
    ny ← at_ (nodes_ r) y;
    if rank ny <=? rank nx then OK (false, r)
    else
      '(acyclic, r) ← ForwardDFS x (rank ny) r;
      r ← ClearVisitedBits (deltaf_ r) r;
      OK (negb acyclic, r).

Definition CanContractEdge (a b : Z) (r : Rep) : outcome (bool * Rep) :=
  has ← HasEdge a b r;
  _ ← check has;
  r ← RemoveEdge a b r;
  '(reachable, r) ← IsReachableNonConst a b r;
  '(_, r) ← InsertEdge a b r;
  OK (negb reachable, r).

(** The second half of ContractEdge: [b] is merged into [a]. *)
Definition MergeInto (a b : Z) (r : Rep) : outcome Rep :=
  nb_io ← at_ (node_io_ r) b;
  r ← upd_io b (fun _ => OK (mkNodeIO os_empty os_empty)) r;
  r ← foldM (fun r y => in_Erase y b r) r (GetSequence (out nb_io));
  r ← foldM (fun r y => out_Erase y b r) r (GetSequence (in_ nb_io));
  let r := with_free (b :: free_nodes_ r) r in
  r ← foldM (fun r y => '(_, r) ← InsertEdge a y r; OK r) r (GetSequence (out nb_io));
  foldM (fun r y => '(_, r) ← InsertEdge y a r; OK r) r (GetSequence (in_ nb_io)).

Definition ContractEdge (a b : Z) (r : Rep) : outcome (option Z * Rep) :=
  has ← HasEdge a b r;
  _ ← check has;
  r ← RemoveEdge a b r;
  '(reachable, r) ← IsReachableNonConst a b r;
  if (reachable : bool) then
    '(_, r) ← InsertEdge a b r;
    OK (None, r)
  else
    ioa ← at_ (node_io_ r) a;
    iob ← at_ (node_io_ r) b;
    let '(a, b) := if Size (in_ iob) + Size (out iob) >? Size (in_ ioa) + Size (out ioa)
                   then (b, a) else (a, b) in
    r ← MergeInto a b r;
    OK (Some a, r).

(** ** Paths *)

(** [path] is the caller's array; a negative number on the stack marks that a
    node is left. *)
Fixpoint FindPath_loop (fuel : nat) (ios : list NodeIO) (y max_path_len : Z)
    (stack : list Z) (seen : gset Z) (path_len : Z) (path : list Z) :
    outcome (Z * list Z * list Z) :=
  match fuel with
  | O => NoFuel
  | S fuel =>
      match stack with
      | [] => OK (0, path, [])
      | n :: stack =>
          if n <? 0 then FindPath_loop fuel ios y max_path_len stack seen (path_len - 1) path
          else
            path ← if path_len <? max_path_len then set_at path path_len n else OK path;
            let path_len := path_len + 1 in
            let stack := -1 :: stack in
            if n =? y then OK (path_len, path, stack)
            else
              io ← at_ ios n;
              let '(seen, stack) :=
                foldl (fun '(seen, stack) w =>
                         if decide (w ∈ seen) then (seen, stack) else ({[w]} ∪ seen, w :: stack))
                      (seen, stack) (GetSequence (out io)) in
              FindPath_loop fuel ios y max_path_len stack seen path_len path
      end
  end.

Definition FindPath (x y max_path_len : Z) (path : list Z) (r : Rep) :
    outcome (Z * list Z * Rep) :=
  '(len, path, stack) ←
    FindPath_loop (2 * length (node_io_ r) + 4) (node_io_ r) y max_path_len [x] ∅ 0 path;
  OK (len, path, with_stack stack r).

Definition IsReachable (x y : Z) (r : Rep) : outcome (bool * Rep) :=
  '(len, _, r) ← FindPath x y 0 [] r;
  OK (0 <? len, r).

(** ** Enumeration and self check *)

Definition Successors (node : Z) (r : Rep) : outcome (list Z) :=
  io ← at_ (node_io_ r) node;
  OK (GetSequence (out io)).
Definition Predecessors (node : Z) (r : Rep) : outcome (list Z) :=
  io ← at_ (node_io_ r) node;
  OK (GetSequence (in_ io)).

Definition SortInPostOrder (nodes : list Node) (to_sort : list Z) : list Z :=
  merge_sort (flip (rank_le nodes)) to_sort.
Definition AllNodesInPostOrder (r : Rep) : list Z :=
  SortInPostOrder (nodes_ r)
    (filter (fun i => i ∉ free_nodes_ r) (indices (nodes_ r))).

Definition CheckInvariants (r : Rep) : outcome bool :=
  _ ← foldM (fun (ranks : gset Z) x =>
        nx ← at_ (nodes_ r) x;
        _ ← check (negb (visited nx));
        _ ← check (negb (bool_decide (rank nx ∈ ranks)));
        nx_io ← at_ (node_io_ r) x;
        _ ← forM_ (GetSequence (out nx_io)) (fun y =>
              ny ← at_ (nodes_ r) y;
              check (rank nx <? rank ny));
        OK ({[rank nx]} ∪ ranks)) ∅ (indices (nodes_ r));
  OK true.
