(* ===== verification/GraphInv.v ===== *)
(** * GraphCycles: views of the state, the invariant, and the edge updates

    The adjacency sets of xla/service/graphcycles/graphcycles.cc are seen as two
    relations ([io_view]); the invariant [GInv] says that they are inverse to
    each other, that the ranks are distinct and grow along edges, that no node is
    marked and that unused nodes have no edges. *)

From Stdlib Require Import ZArith Lia.
From stdpp Require Import relations.
From S2P Require Import Prelude OrderedSet GraphCycles.

(** ** Nodes *)

Definition visited_of (ns : list Node) (a : Z) : bool :=
  match idx ns a with Some n => visited n | None => false end.

Definition mark (b : bool) (v : Z) (ns : list Node) : list Node :=
  alter (fun n => mkNode (rank n) b) (Z.to_nat v) ns.
Definition rerank (k v : Z) (ns : list Node) : list Node :=
  alter (fun n => mkNode k (visited n)) (Z.to_nat v) ns.

Definition in_range {A} (l : list A) (x : Z) : Prop := 0 <= x < Zlen l.

Lemma idx_in_range_iff {A} (l : list A) x : in_range l x <-> is_Some (idx l x).
Proof.
  unfold in_range, Zlen, idx. destruct (Z.leb_spec 0 x).
  - rewrite lookup_lt_is_Some. lia.
  - split; [lia|]. by intros [? ?].
Qed.

Lemma idx_alter {A} (f : A -> A) (l : list A) v x :
  0 <= v -> idx (alter f (Z.to_nat v) l) x = if decide (x = v) then f <$> idx l x else idx l x.
Proof.
  intros Hv. unfold idx. destruct (Z.leb_spec 0 x); case_decide; subst; try lia; try done.
  - by rewrite list_lookup_alter_eq.
  - by rewrite list_lookup_alter_ne by lia.
Qed.

Lemma Zlen_alter {A} (f : A -> A) (l : list A) i : Zlen (alter f i l) = Zlen l.
Proof. unfold Zlen. by rewrite length_alter. Qed.

Lemma set_at_alter {A} (f : A -> A) (l : list A) v a :
  idx l v = Some a -> set_at l v (f a) = OK (alter f (Z.to_nat v) l).
Proof.
  intros [Hv Hl]%idx_Some. apply set_at_OK. pose proof (lookup_lt_Some _ _ _ Hl).
  split; [unfold Zlen; lia|]. apply list_eq. intros i.
  destruct (decide (i = Z.to_nat v)) as [->|Hne].
  - by rewrite list_lookup_alter_eq, Hl, list_lookup_insert_eq.
  - by rewrite list_lookup_alter_ne, list_lookup_insert_ne.
Qed.

Section Marks.
Context (ns : list Node) (v : Z).
Hypothesis Hv : in_range ns v.

Lemma mark_rank b x : rank_of (mark b v ns) x = rank_of ns x.
Proof.
  unfold rank_of, mark. rewrite idx_alter by (unfold in_range in Hv; lia).
  case_decide; [|done]. by destruct (idx ns x).
Qed.
Lemma mark_visited b x :
  visited_of (mark b v ns) x = if decide (x = v) then b else visited_of ns x.
Proof.
  unfold visited_of, mark. rewrite idx_alter by (unfold in_range in Hv; lia).
  case_decide as E; [|done]. subst. apply idx_in_range_iff in Hv as [n ->]. done.
Qed.
Lemma rerank_rank k x :
  rank_of (rerank k v ns) x = if decide (x = v) then k else rank_of ns x.
Proof.
  unfold rank_of, rerank. rewrite idx_alter by (unfold in_range in Hv; lia).
  case_decide as E; [|done]. subst. apply idx_in_range_iff in Hv as [n ->]. done.
Qed.
Lemma rerank_visited k x : visited_of (rerank k v ns) x = visited_of ns x.
Proof.
  unfold visited_of, rerank. rewrite idx_alter by (unfold in_range in Hv; lia).
  case_decide; [|done]. by destruct (idx ns x).
Qed.
End Marks.

Lemma set_visited_OK b v r :
  in_range (nodes_ r) v -> set_visited b v r = OK (with_nodes (mark b v (nodes_ r)) r).
Proof.
  intros [n Hn]%idx_in_range_iff. unfold set_visited. rewrite (proj2 (at_OK _ _ _) Hn).
  cbn [mbind outcome_bind].
  by rewrite (set_at_alter (fun n => mkNode (rank n) b) _ _ _ Hn).
Qed.
Lemma set_rank_OK k v r :
  in_range (nodes_ r) v -> set_rank k v r = OK (with_nodes (rerank k v (nodes_ r)) r).
Proof.
  intros [n Hn]%idx_in_range_iff. unfold set_rank. rewrite (proj2 (at_OK _ _ _) Hn).
  cbn [mbind outcome_bind].
  by rewrite (set_at_alter (fun n => mkNode k (visited n)) _ _ _ Hn).
Qed.

(** Reading the node of an index. *)
Lemma at_node ns v :
  in_range ns v -> at_ ns v = OK (mkNode (rank_of ns v) (visited_of ns v)).
Proof.
  intros [n Hn]%idx_in_range_iff. rewrite (proj2 (at_OK _ _ _) Hn).
  unfold rank_of, visited_of. rewrite Hn. by destruct n.
Qed.

(** ** Adjacency sets *)

Definition outs_of (ios : list NodeIO) (x : Z) : list Z :=
  match idx ios x with Some io => GetSequence (out io) | None => [] end.
Definition ins_of (ios : list NodeIO) (x : Z) : list Z :=
  match idx ios x with Some io => GetSequence (in_ io) | None => [] end.

Definition ios_ok (ios : list NodeIO) : Prop :=
  forall x io, idx ios x = Some io -> os_ok (in_ io) /\ os_ok (out io).

Record io_view (ios : list NodeIO) (n : Z) (O I : Z -> Z -> Prop) : Prop := {
  v_ok : ios_ok ios;
  v_len : Zlen ios = n;
  v_out : forall x y, y ∈ outs_of ios x <-> O x y;
  v_in : forall x y, y ∈ ins_of ios x <-> I x y;
}.

Lemma io_view_iff ios n (O I O' I' : Z -> Z -> Prop) :
  io_view ios n O I -> (forall x y, O x y <-> O' x y) -> (forall x y, I x y <-> I' x y) ->
  io_view ios n O' I'.
Proof.
  intros [? ? Ho Hi] HO HI. split; [done..| |]; intros x y; [by rewrite Ho|by rewrite Hi].
Qed.

Section View.
Context (ios : list NodeIO) (n : Z) (O I : Z -> Z -> Prop).
Hypothesis V : io_view ios n O I.

Lemma view_at x : 0 <= x < n ->
  exists io, at_ ios x = OK io /\ idx ios x = Some io /\ GetSequence (out io) = outs_of ios x /\
    GetSequence (in_ io) = ins_of ios x /\ os_ok (in_ io) /\ os_ok (out io).
Proof.
  intros Hx. rewrite <- (v_len _ _ _ _ V) in Hx.
  destruct (proj1 (idx_in_range_iff ios x) Hx) as [io Hio]. exists io.
  unfold outs_of, ins_of. rewrite Hio, at_OK.
  split_and!; try done; apply (v_ok _ _ _ _ V x io Hio).
Qed.

Lemma view_out_range x y : O x y -> 0 <= x < n.
Proof.
  rewrite <- (v_out _ _ _ _ V). unfold outs_of. rewrite <- (v_len _ _ _ _ V).
  destruct (idx ios x) eqn:E; [|by rewrite elem_of_nil].
  intros _. apply (idx_in_range_iff ios). eauto.
Qed.
Lemma view_in_range x y : I x y -> 0 <= x < n.
Proof.
  rewrite <- (v_in _ _ _ _ V). unfold ins_of. rewrite <- (v_len _ _ _ _ V).
  destruct (idx ios x) eqn:E; [|by rewrite elem_of_nil].
  intros _. apply (idx_in_range_iff ios). eauto.
Qed.

(** An update of the sets of one node. *)
Lemma upd_io_view x (f : NodeIO -> outcome NodeIO) io io' (O' I' : Z -> Z -> Prop) r :
  node_io_ r = ios -> at_ ios x = OK io -> f io = OK io' ->
  os_ok (in_ io') -> os_ok (out io') ->
  (forall z y, O' z y <-> if decide (z = x) then y ∈ GetSequence (out io') else O z y) ->
  (forall z y, I' z y <-> if decide (z = x) then y ∈ GetSequence (in_ io') else I z y) ->
  exists ios', upd_io x f r = OK (with_io ios' r) /\ io_view ios' n O' I'.
Proof.
  intros Er Hio Hf Hi Ho HO HI. unfold upd_io. rewrite Er, Hio. cbn [mbind outcome_bind].
  rewrite Hf. cbn [mbind outcome_bind]. pose proof (proj1 (at_OK _ _ _) Hio) as Hx.
  rewrite (set_at_alter (fun _ => io') ios x io Hx). cbn [mbind outcome_bind].
  eexists. split; [done|].
  assert (Hx0 : 0 <= x) by (by apply idx_Some in Hx as [? _]).
  assert (Hidx : forall z, idx (alter (fun _ => io') (Z.to_nat x) ios) z
            = if decide (z = x) then Some io' else idx ios z).
  { intros z. rewrite idx_alter by done. case_decide; [subst; by rewrite Hx|done]. }
  split.
  - intros z io2. rewrite Hidx. case_decide; [by intros [= <-]|apply (v_ok _ _ _ _ V)].
  - rewrite Zlen_alter. apply (v_len _ _ _ _ V).
  - intros z y. rewrite HO. unfold outs_of. rewrite Hidx. case_decide; [done|].
    apply (v_out _ _ _ _ V).
  - intros z y. rewrite HI. unfold ins_of. rewrite Hidx. case_decide; [done|].
    apply (v_in _ _ _ _ V).
Qed.

Context (r : Rep).
Hypothesis Hr : node_io_ r = ios.

Lemma out_Insert_view x y : 0 <= x < n ->
  exists ios', out_Insert x y r = OK (with_io ios' r) /\
    io_view ios' n (fun z w => O z w \/ z = x /\ w = y) I.
Proof.
  intros Hx. destruct (view_at x Hx) as (io & Hio & _ & Eo & Ei & Hoi & Hoo).
  pose proof (Insert_spec (out io) y Hoo) as HI.
  destruct (Insert y (out io)) as [b s'] eqn:EI. destruct HI as (Hs' & Hb & Hseq).
  eapply upd_io_view; [done|exact Hio|done|done|simpl; by rewrite EI|intros z w; simpl..].
  - destruct (decide (z = x)) as [E|E]; [subst z|naive_solver]. rewrite EI. simpl. rewrite Hseq, <- (v_out _ _ _ _ V), <- Eo.
    destruct b.
    + rewrite elem_of_app, list_elem_of_singleton. naive_solver.
    + symmetry in Hb. apply negb_false_iff, bool_decide_eq_true in Hb. naive_solver.
  - destruct (decide (z = x)) as [E|E]; [subst z|done]. by rewrite Ei, (v_in _ _ _ _ V).
Qed.

Lemma in_Insert_view x y : 0 <= x < n ->
  exists ios', in_Insert x y r = OK (with_io ios' r) /\
    io_view ios' n O (fun z w => I z w \/ z = x /\ w = y).
Proof.
  intros Hx. destruct (view_at x Hx) as (io & Hio & _ & Eo & Ei & Hoi & Hoo).
  pose proof (Insert_spec (in_ io) y Hoi) as HI.
  destruct (Insert y (in_ io)) as [b s'] eqn:EI. destruct HI as (Hs' & Hb & Hseq).
  eapply upd_io_view; [done|exact Hio|done|simpl; by rewrite EI|done|intros z w; simpl..].
  - destruct (decide (z = x)) as [E|E]; [subst z|done]. by rewrite Eo, (v_out _ _ _ _ V).
  - destruct (decide (z = x)) as [E|E]; [subst z|naive_solver]. rewrite EI. simpl. rewrite Hseq, <- (v_in _ _ _ _ V), <- Ei.
    destruct b.
    + rewrite elem_of_app, list_elem_of_singleton. naive_solver.
    + symmetry in Hb. apply negb_false_iff, bool_decide_eq_true in Hb. naive_solver.
Qed.

Lemma out_Erase_view x y : O x y ->
  exists ios', out_Erase x y r = OK (with_io ios' r) /\
    io_view ios' n (fun z w => O z w /\ ~ (z = x /\ w = y)) I.
Proof.
  intros Hxy. pose proof (view_out_range x y Hxy) as Hx.
  destruct (view_at x Hx) as (io & Hio & _ & Eo & Ei & Hoi & Hoo).
  apply (v_out _ _ _ _ V) in Hxy. rewrite <- Eo in Hxy.
  destruct (Erase_spec (out io) y Hoo Hxy) as (s' & HE & Hs' & Hseq).
  eapply upd_io_view; [done|exact Hio|by rewrite HE|done|done|intros z w; simpl..].
  - case_decide as E; [subst z|naive_solver]. rewrite Hseq, Eo, (v_out _ _ _ _ V). naive_solver.
  - case_decide as E; [subst z|done]. by rewrite Ei, (v_in _ _ _ _ V).
Qed.

Lemma in_Erase_view x y : I x y ->
  exists ios', in_Erase x y r = OK (with_io ios' r) /\
    io_view ios' n O (fun z w => I z w /\ ~ (z = x /\ w = y)).
Proof.
  intros Hxy. pose proof (view_in_range x y Hxy) as Hx.
  destruct (view_at x Hx) as (io & Hio & _ & Eo & Ei & Hoi & Hoo).
  apply (v_in _ _ _ _ V) in Hxy. rewrite <- Ei in Hxy.
  destruct (Erase_spec (in_ io) y Hoi Hxy) as (s' & HE & Hs' & Hseq).
  eapply upd_io_view; [done|exact Hio|by rewrite HE|done|done|intros z w; simpl..].
  - case_decide as E; [subst z|done]. by rewrite Eo, (v_out _ _ _ _ V).
  - case_decide as E; [subst z|naive_solver]. rewrite Hseq, Ei, (v_in _ _ _ _ V). naive_solver.
Qed.
End View.

(** ** The invariant *)

Record GInv (r : Rep) (E : Z -> Z -> Prop) : Prop := {
  g_io : io_view (node_io_ r) (Zlen (nodes_ r)) E (flip E);
  g_data : Zlen (node_data_ r) = Zlen (nodes_ r);
  g_inj : forall x y, in_range (nodes_ r) x -> in_range (nodes_ r) y ->
    rank_of (nodes_ r) x = rank_of (nodes_ r) y -> x = y;
  g_bound : forall x, in_range (nodes_ r) x -> 0 <= rank_of (nodes_ r) x < Zlen (nodes_ r);
  g_vis : forall x, visited_of (nodes_ r) x = false;
  g_rank : forall x y, E x y -> rank_of (nodes_ r) x < rank_of (nodes_ r) y;
  g_free : NoDup (free_nodes_ r) /\ forall x, x ∈ free_nodes_ r ->
    in_range (nodes_ r) x /\ forall y, ~ E x y /\ ~ E y x;
}.

#[global] Arguments g_io {r E}.
#[global] Arguments g_data {r E}.
#[global] Arguments g_inj {r E}.
#[global] Arguments g_bound {r E}.
#[global] Arguments g_vis {r E}.
#[global] Arguments g_rank {r E}.
#[global] Arguments g_free {r E}.

Lemma GInv_iff r (E E' : Z -> Z -> Prop) :
  GInv r E -> (forall x y, E x y <-> E' x y) -> GInv r E'.
Proof.
  intros [Hio Hd Hinj Hb Hv Hr Hf] HE. split; try done.
  - eapply io_view_iff; [exact Hio|done|]. intros x y. apply HE.
  - intros x y Hxy. by apply Hr, HE.
  - split; [apply Hf|]. intros x Hx. destruct (proj2 Hf x Hx) as [? Hn]. split; [done|].
    intros y. rewrite <- !HE. apply Hn.
Qed.

Section Edges.
Context {r : Rep} {E : Z -> Z -> Prop}.
Hypothesis G : GInv r E.

Lemma edge_range x y : E x y -> in_range (nodes_ r) x /\ in_range (nodes_ r) y.
Proof.
  intros Hxy. split.
  - exact (view_out_range _ _ _ _ (g_io G) x y Hxy).
  - exact (view_in_range _ _ _ _ (g_io G) y x Hxy).
Qed.

Lemma path_rank x y : tc E x y -> rank_of (nodes_ r) x < rank_of (nodes_ r) y.
Proof.
  induction 1 as [x y Hxy|x y z Hxy _ IH]; [by apply (g_rank G)|].
  apply (g_rank G) in Hxy. lia.
Qed.
Lemma path_rank_le x y : rtc E x y -> rank_of (nodes_ r) x <= rank_of (nodes_ r) y.
Proof. intros [->|?%path_rank]%rtc_tc; lia. Qed.

(** The graph has no cycle. *)
Lemma acyclic x : ~ tc E x x.
Proof. intros ?%path_rank. lia. Qed.
End Edges.

(** ** Nodes and edges *)

Lemma HasEdge_OK r E x y :
  GInv r E -> in_range (nodes_ r) x -> exists b, HasEdge x y r = OK b /\ (b = true <-> E x y).
Proof.
  intros G Hx. unfold HasEdge.
  destruct (view_at _ _ _ _ (g_io G) x Hx) as (io & -> & _ & Eo & _ & _ & Hok).
  cbn [mbind outcome_bind]. eexists. split; [done|].
  by rewrite (Contains_spec _ y Hok), Eo, (v_out _ _ _ _ (g_io G)).
Qed.

(** Changing edges only: the rest of the invariant is kept. *)
Lemma GInv_edges r r' (E E' : Z -> Z -> Prop) :
  GInv r E -> nodes_ r' = nodes_ r -> free_nodes_ r' = free_nodes_ r ->
  node_data_ r' = node_data_ r -> io_view (node_io_ r') (Zlen (nodes_ r)) E' (flip E') ->
  (forall x y, E' x y -> rank_of (nodes_ r) x < rank_of (nodes_ r) y) ->
  (forall x y, E' x y -> x ∉ free_nodes_ r /\ y ∉ free_nodes_ r) ->
  GInv r' E'.
Proof.
  intros G En Ef Ed V Hr Hf. split; rewrite ?En, ?Ef, ?Ed; try apply G; try done.
  split; [apply (g_free G)|]. intros x Hx. split; [by apply (proj2 (g_free G))|].
  intros y. split; intros [? ?]%Hf; tauto.
Qed.

Lemma edge_live r E x y : GInv r E -> E x y -> x ∉ free_nodes_ r /\ y ∉ free_nodes_ r.
Proof.
  intros G Hxy. split; intros Hf; apply (g_free G) in Hf as [_ Hf].
  - by apply (proj1 (Hf y)).
  - by apply (proj2 (Hf x)).
Qed.

Lemma RemoveEdge_OK r E x y :
  GInv r E -> E x y ->
  exists ios, RemoveEdge x y r = OK (with_io ios r) /\
    GInv (with_io ios r) (fun z w => E z w /\ ~ (z = x /\ w = y)).
Proof.
  intros G Hxy. unfold RemoveEdge.
  destruct (out_Erase_view _ _ _ _ (g_io G) r eq_refl x y Hxy) as (ios1 & -> & V1).
  cbn [mbind outcome_bind].
  destruct (in_Erase_view _ _ _ _ V1 (with_io ios1 r) eq_refl y x Hxy) as (ios2 & -> & V2).
  exists ios2. split; [done|]. apply (GInv_edges r _ E); [done..| | |].
  - eapply io_view_iff; [exact V2|done|]. intros z w. unfold flip. naive_solver.
  - intros z w [Hzw _]. by apply (g_rank G).
  - intros z w [Hzw _]. by eapply edge_live.
Qed.

(** Every node outside of a loop over [l] keeps its sets; the elements of [l]
    lose [x]. *)
Lemma in_Erase_loop n x l r O I :
  io_view (node_io_ r) n O I -> NoDup l -> (forall y, y ∈ l -> I y x) ->
  exists ios, foldM (fun r y => in_Erase y x r) r l = OK (with_io ios r) /\
    io_view ios n O (fun z w => I z w /\ ~ (z ∈ l /\ w = x)).
Proof.
  revert r I. induction l as [|y l IH]; intros r I V Hnd Hl; cbn [foldM].
  - exists (node_io_ r). split; [by destruct r|]. eapply io_view_iff; [exact V|done|].
    intros z w. rewrite elem_of_nil. tauto.
  - apply NoDup_cons in Hnd as [Hy Hnd].
    destruct (in_Erase_view _ _ _ _ V r eq_refl y x) as (ios & -> & V1); [apply Hl; left|].
    cbn [mbind outcome_bind].
    destruct (IH (with_io ios r) _ V1 Hnd) as (ios2 & -> & V2).
    + intros z Hz. split; [apply Hl; by right|]. intros [-> _]. done.
    + exists ios2. split; [done|]. eapply io_view_iff; [exact V2|done|].
      intros z w. simpl. rewrite elem_of_cons. naive_solver.
Qed.
Lemma out_Erase_loop n x l r O I :
  io_view (node_io_ r) n O I -> NoDup l -> (forall y, y ∈ l -> O y x) ->
  exists ios, foldM (fun r y => out_Erase y x r) r l = OK (with_io ios r) /\
    io_view ios n (fun z w => O z w /\ ~ (z ∈ l /\ w = x)) I.
Proof.
  revert r O. induction l as [|y l IH]; intros r O V Hnd Hl; cbn [foldM].
  - exists (node_io_ r). split; [by destruct r|]. eapply io_view_iff; [exact V| |done].
    intros z w. rewrite elem_of_nil. tauto.
  - apply NoDup_cons in Hnd as [Hy Hnd].
    destruct (out_Erase_view _ _ _ _ V r eq_refl y x) as (ios & -> & V1); [apply Hl; left|].
    cbn [mbind outcome_bind].
    destruct (IH (with_io ios r) _ V1 Hnd) as (ios2 & -> & V2).
    + intros z Hz. split; [apply Hl; by right|]. intros [-> _]. done.
    + exists ios2. split; [done|]. eapply io_view_iff; [exact V2| |done].
      intros z w. simpl. rewrite elem_of_cons. naive_solver.
Qed.
