(* ===== verification/GraphDfs.v ===== *)
(** * GraphCycles: the depth-first searches

    ForwardDFS and BackwardDFS of xla/service/graphcycles/graphcycles.cc end with
    the fuel they are given, mark exactly the nodes they collect, and the
    collection is closed under the edges whose ranks lie within the bound. *)

From Stdlib Require Import ZArith Lia.
From stdpp Require Import relations.
From S2P Require Import Prelude OrderedSet GraphCycles GraphInv.

(** ** Marking a list of nodes *)

Definition marks (b : bool) (d : list Z) (ns : list Node) : list Node :=
  foldl (fun ns v => mark b v ns) ns d.

Lemma marks_len b d ns : Zlen (marks b d ns) = Zlen ns.
Proof.
  revert ns. induction d as [|v d IH]; intros ns; [done|]. simpl. rewrite IH. apply Zlen_alter.
Qed.

Lemma marks_snoc b d v ns : marks b (d ++ [v]) ns = mark b v (marks b d ns).
Proof. unfold marks. by rewrite foldl_app. Qed.

Lemma marks_rank b d ns x :
  (forall v, v ∈ d -> in_range ns v) -> rank_of (marks b d ns) x = rank_of ns x.
Proof.
  revert ns. induction d as [|v d IH]; intros ns Hd; [done|]. simpl. rewrite IH.
  - apply mark_rank, Hd. left.
  - intros w Hw. unfold in_range, mark. rewrite Zlen_alter. apply Hd. by right.
Qed.

Lemma marks_visited b d ns x :
  (forall v, v ∈ d -> in_range ns v) ->
  visited_of (marks b d ns) x = if decide (x ∈ d) then b else visited_of ns x.
Proof.
  revert ns. induction d as [|v d IH]; intros ns Hd; [done|]. simpl. rewrite IH.
  - rewrite mark_visited by (apply Hd; left).
    repeat case_decide; try done; set_solver.
  - intros w Hw. unfold in_range, mark. rewrite Zlen_alter. apply Hd. by right.
Qed.

Lemma marks_range b d ns x : in_range (marks b d ns) x <-> in_range ns x.
Proof. unfold in_range. by rewrite marks_len. Qed.

(** Nodes are determined by ranks and marks. *)
Lemma nodes_ext (ns ns' : list Node) :
  Zlen ns = Zlen ns' -> (forall x, rank_of ns x = rank_of ns' x) ->
  (forall x, visited_of ns x = visited_of ns' x) -> ns = ns'.
Proof.
  intros Hl Hr Hv. apply list_eq. intros i.
  specialize (Hr (Z.of_nat i)). specialize (Hv (Z.of_nat i)).
  unfold rank_of, visited_of in *. rewrite !idx_of_nat in Hr, Hv. unfold Zlen in Hl.
  destruct (ns !! i) as [[k b]|] eqn:E1, (ns' !! i) as [[k' b']|] eqn:E2; simpl in *; try congruence.
  - apply lookup_lt_Some in E1. apply lookup_ge_None in E2. lia.
  - apply lookup_lt_Some in E2. apply lookup_ge_None in E1. lia.
Qed.

Lemma ClearVisitedBits_OK d r :
  (forall v, v ∈ d -> in_range (nodes_ r) v) ->
  ClearVisitedBits d r = OK (with_nodes (marks false d (nodes_ r)) r).
Proof.
  unfold ClearVisitedBits. revert r. induction d as [|v d IH]; intros r Hd; cbn [foldM].
  - by destruct r.
  - rewrite set_visited_OK by (apply Hd; left). cbn [mbind outcome_bind]. rewrite IH; [done|].
    intros w Hw. simpl. unfold in_range, mark. rewrite Zlen_alter. apply Hd. by right.
Qed.

(** Clearing the marks of a search restores the nodes. *)
Lemma marks_clear d ns :
  (forall v, v ∈ d -> in_range ns v) -> (forall x, visited_of ns x = false) ->
  marks false d (marks true d ns) = ns.
Proof.
  intros Hd Hv. apply nodes_ext.
  - by rewrite !marks_len.
  - intros x. rewrite !marks_rank; [done|done|]. intros v. rewrite marks_range. apply Hd.
  - intros x. rewrite marks_visited by (intros v; rewrite marks_range; apply Hd).
    rewrite marks_visited by done. case_decide; [by rewrite Hv|done].
Qed.

(** ** The fuel: one step per edge *)

Definition degree (succs : Z -> list Z) (d : list Z) : nat :=
  sum_list_with (fun x => length (succs x)) d.

Lemma degree_snoc succs d v : degree succs (d ++ [v]) = (degree succs d + length (succs v))%nat.
Proof. unfold degree. rewrite sum_list_with_app. simpl. lia. Qed.

Lemma degree_submseteq succs d d' : d ⊆+ d' -> (degree succs d <= degree succs d')%nat.
Proof.
  intros [k Hk]%submseteq_Permutation. unfold degree.
  rewrite Hk, sum_list_with_app. lia.
Qed.

Lemma degree_indices (sel : NodeIO -> OrderedSet) (succs : Z -> list Z) ios :
  (forall x, succs x = match idx ios x with Some io => GetSequence (sel io) | None => [] end) ->
  degree succs (indices ios) = total_degree sel ios.
Proof.
  intros Hs. unfold degree.
  assert (Hm : (length ∘ succs) <$> indices ios = (length ∘ GetSequence ∘ sel) <$> ios).
  { apply list_eq. intros i. rewrite !list_lookup_fmap. unfold indices.
    destruct (decide (i < length ios)%nat) as [Hi|Hi].
    - rewrite (lookup_seqZ_lt 0 (Zlen ios) i) by (unfold Zlen; lia). simpl.
      rewrite Hs, Z.add_0_l, idx_of_nat.
      destruct (lookup_lt_is_Some_2 ios i Hi) as [io ->]. done.
    - rewrite (lookup_seqZ_ge 0 (Zlen ios) i) by (unfold Zlen; lia).
      by rewrite lookup_ge_None_2 by lia. }
  replace (sum_list_with (fun x => length (succs x)) (indices ios))
    with (sum_list ((length ∘ succs) <$> indices ios)).
  - rewrite Hm. clear. induction ios as [|io ios IH]; [done|]. simpl. f_equal. exact IH.
  - clear. induction (indices ios) as [|x l IH]; [done|]. simpl. f_equal. exact IH.
Qed.

Lemma degree_bound (sel : NodeIO -> OrderedSet) (succs : Z -> list Z) ios d :
  (forall x, succs x = match idx ios x with Some io => GetSequence (sel io) | None => [] end) ->
  NoDup d -> (forall x, x ∈ d -> in_range ios x) ->
  (degree succs d <= total_degree sel ios)%nat.
Proof.
  intros Hs Hnd Hd. rewrite <- (degree_indices sel succs ios Hs).
  apply degree_submseteq, NoDup_submseteq; [done|].
  intros x Hx. apply elem_of_indices. by apply Hd.
Qed.

(** ** The invariant of a search

    [S] are the edges followed, [P] the nodes within the bound, [vis0] the nodes
    marked before the search, [st] the stack and [d] the nodes collected. *)
Record search (S : Z -> Z -> Prop) (P vis0 : Z -> Prop) (start : Z) (st d : list Z) : Prop := {
  s_nodup : NoDup d;
  s_new : forall x, x ∈ d -> ~ vis0 x;
  s_good : forall x, x ∈ d \/ x ∈ st -> P x;
  s_reach : forall x, x ∈ d \/ x ∈ st -> rtc (fun u w => S u w /\ P u) start x;
  s_closed : forall x y, x ∈ d -> S x y -> P y -> y ∈ d \/ y ∈ st \/ vis0 y;
  s_start : start ∈ d \/ start ∈ st \/ vis0 start;
}.

Lemma search_iff S (P P' vis0 vis0' : Z -> Prop) start st d :
  search S P vis0 start st d -> (forall x, P x <-> P' x) -> (forall x, vis0 x <-> vis0' x) ->
  search S P' vis0' start st d.
Proof.
  intros [Hnd Hn Hg Hr Hc Hs] HP HV. split; [done| | | | |].
  - intros x Hx. rewrite <- HV. by apply Hn.
  - intros x Hx. rewrite <- HP. by apply Hg.
  - intros x Hx. eapply rtc_subrel; [|by apply Hr]. intros a b. simpl. by rewrite HP.
  - intros x y Hx Hxy. specialize (Hc x y Hx Hxy). by rewrite <- HP, <- HV.
  - by rewrite <- HV.
Qed.

Lemma search_skip S P vis0 start v st d :
  search S P vis0 start (v :: st) d -> v ∈ d \/ vis0 v -> search S P vis0 start st d.
Proof.
  intros [Hnd Hn Hg Hr Hc Hs] Hv. split; try done.
  - intros x [?|?]; apply Hg; [by left|right; by right].
  - intros x [?|?]; apply Hr; [by left|right; by right].
  - intros x y Hx Hxy Hy. destruct (Hc x y Hx Hxy Hy) as [?|[[->|?]%elem_of_cons|?]]; tauto.
  - destruct Hs as [?|[[->|?]%elem_of_cons|?]]; tauto.
Qed.

Lemma search_visit S P vis0 start v st st' d :
  search S P vis0 start (v :: st) d -> v ∉ d -> ~ vis0 v ->
  (forall w, w ∈ st' <-> w ∈ st \/ (S v w /\ P w /\ ~ (w ∈ d ++ [v] \/ vis0 w))) ->
  (forall w, w ∈ d ++ [v] \/ vis0 w \/ ~ (w ∈ d ++ [v] \/ vis0 w)) ->
  search S P vis0 start st' (d ++ [v]).
Proof.
  intros [Hnd Hn Hg Hr Hc Hs] Hv Hv0 Hst Hdec.
  assert (HPv : P v) by (apply Hg; right; left).
  split.
  - apply NoDup_app. split; [done|]. split; [|apply NoDup_singleton].
    intros x Hx ->%list_elem_of_singleton. done.
  - intros x [?| ->%list_elem_of_singleton]%elem_of_app; auto.
  - intros x [[?| ->%list_elem_of_singleton]%elem_of_app|[?|(_ & ? & _)]%Hst]; [|done| |done].
    + apply Hg. by left.
    + apply Hg. right. by right.
  - intros x [[?| ->%list_elem_of_singleton]%elem_of_app|[?|(? & _ & _)]%Hst].
    + apply Hr. by left.
    + apply Hr. right. left.
    + apply Hr. right. by right.
    + eapply rtc_r; [apply Hr; right; left|]. done.
  - intros x y Hx Hxy Hy. rewrite Hst.
    destruct (Hdec y) as [?|[?|Hny]]; [by left|by right; right|].
    apply elem_of_app in Hx as [Hx| ->%list_elem_of_singleton].
    + destruct (Hc x y Hx Hxy Hy) as [?|[[->|?]%elem_of_cons|?]]; try tauto.
      * left. apply elem_of_app. by left.
      * left. apply elem_of_app. right. left.
    + right. left. by right.
  - rewrite Hst. destruct Hs as [?|[[->|?]%elem_of_cons|?]]; try tauto.
    + left. apply elem_of_app. by left.
    + left. apply elem_of_app. right. left.
Qed.

(** ** The loops over the successors *)

Lemma ForwardDFS_push_OK ns ub ws st :
  (forall w, w ∈ ws -> in_range ns w) ->
  exists b st', ForwardDFS_push ns ub ws st = OK (b, st') /\
    (length st' <= length st + length ws)%nat /\
    if b then
      (forall w, w ∈ ws -> rank_of ns w <> ub) /\
      forall w, w ∈ st' <-> w ∈ st \/ (w ∈ ws /\ rank_of ns w < ub /\ visited_of ns w = false)
    else exists w, w ∈ ws /\ rank_of ns w = ub.
Proof.
  revert st. induction ws as [|w ws IH]; intros st Hws; cbn [ForwardDFS_push].
  - exists true, st. split; [done|]. split; [simpl; lia|]. split; [by intros w Hw%elem_of_nil|].
    intros w. rewrite elem_of_nil. tauto.
  - rewrite at_node by (apply Hws; left). cbn [mbind outcome_bind rank visited].
    destruct (Z.eqb_spec (rank_of ns w) ub) as [Heq|Hne].
    + exists false, st. split; [done|]. split; [lia|]. exists w. split; [left|done].
    + set (st1 := if negb (visited_of ns w) && (rank_of ns w <? ub) then w :: st else st).
      destruct (IH st1) as (b & st' & HE & Hlen & Hb); [intros w' Hw'; apply Hws; by right|].
      exists b, st'. split; [exact HE|].
      assert (Hl1 : (length st1 <= S (length st))%nat) by (subst st1; destruct (_ && _); simpl; lia).
      split; [simpl; lia|]. destruct b.
      * destruct Hb as [Hub Hel]. split; [by intros w' [->|?]%elem_of_cons; auto|].
        intros w'. rewrite Hel, elem_of_cons. subst st1.
        destruct (visited_of ns w) eqn:Ev; simpl;
          [split; [tauto|]; intros [?|([->|?] & ? & ?)]; [tauto|congruence|tauto]|].
        destruct (Z.ltb_spec (rank_of ns w) ub);
          [|split; [tauto|]; intros [?|([->|?] & ? & ?)]; [tauto|lia|tauto]].
        rewrite elem_of_cons. split; [intros [[->|?]|?]; tauto|].
        intros [?|([->|?] & ? & ?)]; tauto.
      * destruct Hb as (w' & Hw' & Hr). exists w'. split; [by right|done].
Qed.

Lemma BackwardDFS_push_OK ns lb ws st :
  (forall w, w ∈ ws -> in_range ns w) ->
  exists st', BackwardDFS_push ns lb ws st = OK st' /\
    (length st' <= length st + length ws)%nat /\
    forall w, w ∈ st' <-> w ∈ st \/ (w ∈ ws /\ lb < rank_of ns w /\ visited_of ns w = false).
Proof.
  revert st. induction ws as [|w ws IH]; intros st Hws; cbn [BackwardDFS_push].
  - exists st. split; [done|]. split; [simpl; lia|]. intros w. rewrite elem_of_nil. tauto.
  - rewrite at_node by (apply Hws; left). cbn [mbind outcome_bind rank visited].
    set (st1 := if negb (visited_of ns w) && (lb <? rank_of ns w) then w :: st else st).
    destruct (IH st1) as (st' & HE & Hlen & Hel); [intros w' Hw'; apply Hws; by right|].
    exists st'. split; [exact HE|].
    assert (Hl1 : (length st1 <= S (length st))%nat) by (subst st1; destruct (_ && _); simpl; lia).
    split; [simpl; lia|].
    intros w'. rewrite Hel, elem_of_cons. subst st1.
    destruct (visited_of ns w) eqn:Ev; simpl;
          [split; [tauto|]; intros [?|([->|?] & ? & ?)]; [tauto|congruence|tauto]|].
    destruct (Z.ltb_spec lb (rank_of ns w));
      [|split; [tauto|]; intros [?|([->|?] & ? & ?)]; [tauto|lia|tauto]].
    rewrite elem_of_cons. split; [intros [[->|?]|?]; tauto|].
    intros [?|([->|?] & ? & ?)]; tauto.
Qed.

(** ** The searches *)

Section Search.
Context (r0 : Rep) (E I : Z -> Z -> Prop) (start : Z).
Hypothesis V : io_view (node_io_ r0) (Zlen (nodes_ r0)) E I.
Hypothesis HE : forall x y, E x y -> in_range (nodes_ r0) y.
Hypothesis HI : forall x y, I x y -> in_range (nodes_ r0) y.

#[local] Abbreviation ns0 := (nodes_ r0).
#[local] Abbreviation vis0 := (fun w => visited_of (nodes_ r0) w = true).

Definition below (ub w : Z) : Prop := in_range ns0 w /\ rank_of ns0 w < ub.
Definition above (lb w : Z) : Prop := in_range ns0 w /\ lb < rank_of ns0 w.

(** The states a search goes through. *)
Definition fstate (st d : list Z) : Rep :=
  mkRep (marks true d ns0) (node_io_ r0) (free_nodes_ r0) d (deltab_ r0) (list_ r0)
    (merged_ r0) st (node_data_ r0).
Definition bstate (st d : list Z) : Rep :=
  mkRep (marks true d ns0) (node_io_ r0) (free_nodes_ r0) (deltaf_ r0) d (list_ r0)
    (merged_ r0) st (node_data_ r0).

(** A node that is not marked yet is new to the search. *)
Lemma marks_new S P st d v :
  search S P vis0 start st d -> (forall x, P x -> in_range ns0 x) ->
  visited_of (marks true d ns0) v = false <-> ~ (v ∈ d \/ vis0 v).
Proof.
  intros HS HP. rewrite marks_visited.
  - case_decide as Hv; [split; [done|tauto]|]. destruct (visited_of ns0 v); naive_solver.
  - intros x Hx. apply HP, (s_good _ _ _ _ _ _ HS). by left.
Qed.

Lemma search_range S P st d x :
  search S P vis0 start st d -> (forall x, P x -> in_range ns0 x) ->
  x ∈ d \/ x ∈ st -> in_range ns0 x.
Proof. intros HS HP Hx. by apply HP, (s_good _ _ _ _ _ _ HS). Qed.

Lemma marks_old S P st d v :
  search S P vis0 start st d -> (forall x, P x -> in_range ns0 x) ->
  visited_of (marks true d ns0) v = true -> v ∈ d \/ vis0 v.
Proof.
  intros HS HP. rewrite marks_visited.
  - case_decide; [by left|by right].
  - intros x Hx. apply (search_range _ _ _ _ _ HS HP). by left.
Qed.

Lemma search_range_snoc S P st d v :
  search S P vis0 start (v :: st) d -> (forall x, P x -> in_range ns0 x) ->
  forall x, x ∈ d ++ [v] -> in_range ns0 x.
Proof.
  intros HS HP x [?| ->%list_elem_of_singleton]%elem_of_app;
    apply (search_range _ _ _ _ _ HS HP); [by left|right; left].
Qed.

(** The visit of a node: its mark and the new stack. *)
Lemma visit_step S P (st st' d : list Z) (v : Z) (ws : list Z) :
  search S P vis0 start (v :: st) d -> (forall x, P x -> in_range ns0 x) ->
  ~ (v ∈ d \/ vis0 v) ->
  (forall w, w ∈ ws <-> S v w) ->
  (forall w, w ∈ st' <-> w ∈ st \/ (w ∈ ws /\ P w /\ visited_of (marks true (d ++ [v]) ns0) w = false)) ->
  search S P vis0 start st' (d ++ [v]).
Proof.
  intros HS HP Hv Hws Hst.
  pose proof (search_range_snoc _ _ _ _ _ HS HP) as Hr.
  assert (Hm : forall w, visited_of (marks true (d ++ [v]) ns0) w = false
            <-> ~ (w ∈ d ++ [v] \/ vis0 w)).
  { intros w. rewrite marks_visited by done. case_decide; [split; [done|tauto]|].
    destruct (visited_of ns0 w); naive_solver. }
  apply (search_visit _ _ _ _ _ st); [done|tauto|tauto| |].
  - intros w. rewrite Hst, Hws, Hm. done.
  - intros w. destruct (decide (w ∈ d ++ [v])); [by left|].
    destruct (visited_of ns0 w) eqn:Ew; [by right; left|]. right. right. naive_solver.
Qed.

Lemma visit_measure (sel : NodeIO -> OrderedSet) (succs : Z -> list Z) d v (n : nat) fuel m :
  (forall x, succs x = match idx (node_io_ r0) x with Some io => GetSequence (sel io) | None => [] end) ->
  NoDup (d ++ [v]) -> (forall x, x ∈ d ++ [v] -> in_range ns0 x) ->
  (S n + (total_degree sel (node_io_ r0) - degree succs d) < S fuel)%nat ->
  (m <= n + length (succs v))%nat ->
  (m + (total_degree sel (node_io_ r0) - degree succs (d ++ [v])) < fuel)%nat.
Proof.
  intros Hs Hnd Hr Hf Hm.
  assert (Hb : (degree succs (d ++ [v]) <= total_degree sel (node_io_ r0))%nat).
  { apply degree_bound; [done..|]. intros x Hx%Hr. unfold in_range.
    by rewrite (v_len _ _ _ _ V). }
  rewrite degree_snoc in *. lia.
Qed.

Lemma ForwardDFS_loop_OK ub fuel st d :
  search E (below ub) vis0 start st d ->
  (forall x y, x ∈ d -> E x y -> rank_of ns0 y <> ub) ->
  (length st + (total_degree out (node_io_ r0) - degree (outs_of (node_io_ r0)) d) < fuel)%nat ->
  exists b st' d', ForwardDFS_loop fuel ub (fstate st d) = OK (b, fstate st' d') /\
    if b then search E (below ub) vis0 start [] d' /\
           forall x y, x ∈ d' -> E x y -> rank_of ns0 y <> ub
    else (forall x, x ∈ d' -> in_range ns0 x) /\
         exists v w, rtc (fun u w => E u w /\ below ub u) start v /\ below ub v /\
           E v w /\ rank_of ns0 w = ub.
Proof.
  revert st d. induction fuel as [|fuel IH]; intros st d HS Hub Hfuel; [lia|].
  cbn [ForwardDFS_loop]. unfold fstate. cbn [stack_ nodes_].
  destruct st as [|v st]; [exists true, [], d; done|].
  assert (HP : forall x, below ub x -> in_range ns0 x) by (by intros x []).
  assert (Hv : in_range ns0 v) by (apply (search_range _ _ _ _ _ HS HP); right; left).
  rewrite at_node by (by apply marks_range). cbn [mbind outcome_bind visited].
  destruct (visited_of (marks true d ns0) v) eqn:Ev.
  { apply (IH st d); [|done|simpl in Hfuel; lia]. eapply search_skip; [done|].
    exact (marks_old _ _ _ _ _ HS HP Ev). }
  apply (marks_new _ _ _ _ _ HS HP) in Ev as Hnew.
  rewrite set_visited_OK by (by apply marks_range). cbn [mbind outcome_bind].
  destruct (view_at _ _ _ _ V v Hv) as (io & Hio & _ & Eo & _).
  cbn [with_deltaf with_stack with_nodes nodes_ node_io_ stack_ deltaf_]. rewrite Hio.
  cbn [mbind outcome_bind]. rewrite Eo, <- marks_snoc.
  destruct (ForwardDFS_push_OK (marks true (d ++ [v]) ns0) ub (outs_of (node_io_ r0) v) st)
    as (b & st' & -> & Hlen & Hb).
  { intros w Hw. apply marks_range. by eapply HE, (v_out _ _ _ _ V). }
  cbn [mbind outcome_bind fst snd].
  pose proof (search_range_snoc _ _ _ _ _ HS HP) as Hr.
  destruct b; cbn [negb].
  - destruct Hb as [Hne Hst].
    assert (HS' : search E (below ub) vis0 start st' (d ++ [v])).
    { eapply (visit_step _ _ _ _ _ _ (outs_of (node_io_ r0) v) HS HP Hnew).
      - intros w. apply (v_out _ _ _ _ V).
      - intros w. rewrite Hst, marks_rank by done. unfold below.
        split; [|tauto]. intros [?|(Hw & ? & ?)]; [tauto|]. right.
        split_and!; try done. by eapply HE, (v_out _ _ _ _ V). }
    apply (IH st' (d ++ [v])); [done| |].
    + intros x y [Hx| ->%list_elem_of_singleton]%elem_of_app Hxy; [by eapply Hub|].
      rewrite <- (marks_rank true (d ++ [v]) ns0 y Hr). by apply Hne, (v_out _ _ _ _ V).
    + cbn [length] in Hfuel. eapply (visit_measure out); [done|apply (s_nodup _ _ _ _ _ _ HS')|done|exact Hfuel|lia].
  - exists false, st', (d ++ [v]). split; [done|]. split; [done|].
    destruct Hb as (w & Hw & Hwub). rewrite marks_rank in Hwub by done.
    exists v, w. split; [apply (s_reach _ _ _ _ _ _ HS); right; left|].
    split; [apply (s_good _ _ _ _ _ _ HS); right; left|].
    split; [|done]. by apply (v_out _ _ _ _ V).
Qed.

Lemma BackwardDFS_loop_OK lb fuel st d :
  search I (above lb) vis0 start st d ->
  (length st + (total_degree in_ (node_io_ r0) - degree (ins_of (node_io_ r0)) d) < fuel)%nat ->
  exists d', BackwardDFS_loop fuel lb (bstate st d) = OK (bstate [] d') /\
    search I (above lb) vis0 start [] d'.
Proof.
  revert st d. induction fuel as [|fuel IH]; intros st d HS Hfuel; [lia|].
  cbn [BackwardDFS_loop]. unfold bstate. cbn [stack_ nodes_].
  destruct st as [|v st]; [by exists d|].
  assert (HP : forall x, above lb x -> in_range ns0 x) by (by intros x []).
  assert (Hv : in_range ns0 v) by (apply (search_range _ _ _ _ _ HS HP); right; left).
  rewrite at_node by (by apply marks_range). cbn [mbind outcome_bind visited].
  destruct (visited_of (marks true d ns0) v) eqn:Ev.
  { apply (IH st d); [|simpl in Hfuel; lia]. eapply search_skip; [done|].
    exact (marks_old _ _ _ _ _ HS HP Ev). }
  apply (marks_new _ _ _ _ _ HS HP) in Ev as Hnew.
  rewrite set_visited_OK by (by apply marks_range). cbn [mbind outcome_bind].
  destruct (view_at _ _ _ _ V v Hv) as (io & Hio & _ & _ & Ei & _).
  cbn [with_deltab with_stack with_nodes nodes_ node_io_ stack_ deltab_]. rewrite Hio.
  cbn [mbind outcome_bind]. rewrite Ei, <- marks_snoc.
  destruct (BackwardDFS_push_OK (marks true (d ++ [v]) ns0) lb (ins_of (node_io_ r0) v) st)
    as (st' & -> & Hlen & Hst).
  { intros w Hw. apply marks_range. by eapply HI, (v_in _ _ _ _ V). }
  cbn [mbind outcome_bind].
  pose proof (search_range_snoc _ _ _ _ _ HS HP) as Hr.
  assert (HS' : search I (above lb) vis0 start st' (d ++ [v])).
  { eapply (visit_step _ _ _ _ _ _ (ins_of (node_io_ r0) v) HS HP Hnew).
    - intros w. apply (v_in _ _ _ _ V).
    - intros w. rewrite Hst, marks_rank by done. unfold above.
      split; [|tauto]. intros [?|(Hw & ? & ?)]; [tauto|]. right.
      split_and!; try done. by eapply HI, (v_in _ _ _ _ V). }
  apply (IH st' (d ++ [v])); [done|].
  cbn [length] in Hfuel. eapply (visit_measure in_); [done|apply (s_nodup _ _ _ _ _ _ HS')|done|exact Hfuel|lia].
Qed.

Lemma search_init S (P : Z -> Prop) : P start -> search S P vis0 start [start] [].
Proof.
  intros HP. split.
  - constructor.
  - by intros x ?%elem_of_nil.
  - by intros x [?%elem_of_nil| ->%list_elem_of_singleton].
  - by intros x [?%elem_of_nil| ->%list_elem_of_singleton].
  - by intros x y ?%elem_of_nil.
  - right. left. left.
Qed.

Lemma ForwardDFS_OK ub :
  below ub start ->
  exists b st d, ForwardDFS start ub r0 = OK (b, fstate st d) /\
    (forall x, x ∈ d -> in_range ns0 x) /\
    if b then search E (below ub) vis0 start [] d /\
           forall x y, x ∈ d -> E x y -> rank_of ns0 y <> ub
    else exists v w, rtc (fun u w => E u w /\ below ub u) start v /\ below ub v /\
           E v w /\ rank_of ns0 w = ub.
Proof.
  intros Hs. unfold ForwardDFS.
  destruct (ForwardDFS_loop_OK ub (2 + total_degree out (node_io_ r0)) [start] [])
    as (b & st & d & HF & Hb).
  - by apply search_init.
  - by intros x y ?%elem_of_nil.
  - simpl. lia.
  - exists b, st, d. split; [exact HF|]. destruct b; [|tauto].
    split; [|done]. intros x Hx. destruct Hb as [HS _].
    apply (search_range _ _ _ _ _ HS); [by intros y []|by left].
Qed.

Lemma BackwardDFS_OK lb :
  above lb start ->
  exists d, BackwardDFS start lb r0 = OK (bstate [] d) /\ search I (above lb) vis0 start [] d.
Proof.
  intros Hs. unfold BackwardDFS.
  destruct (BackwardDFS_loop_OK lb (2 + total_degree in_ (node_io_ r0)) [start] [])
    as (d & HF & Hd).
  - by apply search_init.
  - simpl. lia.
  - by exists d.
Qed.
End Search.
