(* ===== verification/GraphReorder.v ===== *)
(** * GraphCycles: the reassignment of ranks

    Reorder of xla/service/graphcycles/graphcycles.cc gives the ranks of the two
    collected sets back in order, to the backward set first: ranks of the
    backward set do not grow, those of the forward set do not shrink, and every
    rank stays in use. *)

From Stdlib Require Import ZArith Lia Sorted.
From stdpp Require Import sorting relations.
From S2P Require Import Prelude OrderedSet GraphCycles GraphInv GraphDfs.

(** ** Sorted lists and their merge *)

Lemma sorted_fmap {A} (f : A -> Z) (R : A -> A -> Prop) l :
  (forall x y, R x y -> f x <= f y) -> StronglySorted R l -> StronglySorted Z.le (f <$> l).
Proof.
  intros Hf. induction 1 as [|a l _ IH HF]; simpl; constructor; [done|].
  apply Forall_fmap. eapply Forall_impl; [exact HF|]. intros b. apply Hf.
Qed.

Section Merge.
Implicit Types k l m : list Z.

Lemma merge_sorted k l :
  StronglySorted Z.le k -> StronglySorted Z.le l -> StronglySorted Z.le (list_merge Z.le k l).
Proof.
  intros Hk Hl. apply Sorted_StronglySorted; [intros ? ? ?; lia|].
  apply Sorted_list_merge; [intros ? ?; lia|by apply StronglySorted_Sorted..].
Qed.

Lemma merge_length k l : length (list_merge Z.le k l) = (length k + length l)%nat.
Proof. by rewrite merge_Permutation, length_app. Qed.

(** The i-th entry of the merge is at most the i-th entry of either list. *)
Lemma merge_low k l i x :
  StronglySorted Z.le k -> k !! i = Some x ->
  exists y, list_merge Z.le k l !! i = Some y /\ y <= x.
Proof.
  revert l i x. induction k as [|a k IHk]; intros l i x Hk; [done|].
  revert i x. induction l as [|b l IHl]; intros i x Hx.
  { rewrite list_merge_nil_r. exists x. split; [done|lia]. }
  rewrite list_merge_cons. inversion Hk as [|? ? Hk' HF]; subst. case_decide as Hab.
  - destruct i as [|i]; simpl in *; [injection Hx as ->; exists x; split; [done|lia]|].
    by apply IHk.
  - assert (Hbx : b <= x).
    { destruct i as [|i]; simpl in Hx; [injection Hx as ->; lia|].
      pose proof (Forall_lookup_1 _ _ _ _ HF Hx). lia. }
    destruct i as [|i]; simpl; [by exists b|].
    destruct (lookup_lt_is_Some_2 (a :: k) i) as [z Hz].
    { apply lookup_lt_Some in Hx. lia. }
    destruct (IHl i z Hz) as (y & Hy & Hyz). exists y. split; [done|].
    pose proof (sorted_lookup Z.le _ i (S i) z x Hk ltac:(lia) Hz Hx). lia.
Qed.

(** Counted from the end, it is at least the entry of either list. *)
Lemma merge_high k l j x :
  StronglySorted Z.le k -> StronglySorted Z.le l -> l !! j = Some x ->
  exists y, list_merge Z.le k l !! (length k + j)%nat = Some y /\ x <= y.
Proof.
  revert l j x. induction k as [|a k IHk]; intros l j x Hk Hl Hx.
  { rewrite list_merge_nil_l. exists x. split; [done|lia]. }
  revert j x Hx. induction l as [|b l IHl]; intros j x Hx; [done|].
  rewrite list_merge_cons. inversion Hk as [|? ? Hk' HFk]; inversion Hl as [|? ? Hl' HFl]; subst.
  case_decide as Hab; simpl.
  - by apply IHk.
  - destruct j as [|j]; simpl in Hx.
    + injection Hx as ->. rewrite Nat.add_0_r.
      destruct (lookup_lt_is_Some_2 (list_merge Z.le (a :: k) l) (length k)) as [y Hy].
      { rewrite merge_length. simpl. lia. }
      exists y. split; [done|].
      assert (Hm : y ∈ (a :: k) ++ l).
      { rewrite <- (merge_Permutation Z.le). by eapply list_elem_of_lookup_2. }
      rewrite Forall_forall in HFk, HFl.
      apply elem_of_app in Hm as [[->|Hm%HFk]%elem_of_cons|Hm%HFl]; lia.
    + destruct (IHl Hl' j x Hx) as (y & Hy & Hxy). exists y. split; [|done].
      rewrite <- Hy. f_equal. simpl. lia.
Qed.
End Merge.

(** ** Assigning ranks *)

Definition assign (l m : list Z) (ns : list Node) : list Node :=
  foldl (fun ns p => rerank p.2 p.1 ns) ns (zip l m).

Lemma assign_cons v l k m ns : assign (v :: l) (k :: m) ns = assign l m (rerank k v ns).
Proof. done. Qed.

Section Assign.
Context (l m : list Z) (ns : list Node).
Hypothesis Hr : forall v, v ∈ l -> in_range ns v.

Lemma assign_frame :
  Zlen (assign l m ns) = Zlen ns /\
  (forall x, visited_of (assign l m ns) x = visited_of ns x) /\
  (forall x, x ∉ l -> rank_of (assign l m ns) x = rank_of ns x).
Proof.
  revert m ns Hr. induction l as [|v l' IH]; intros [|k m'] ns' Hr'.
  1-3: by split; [|split].
  rewrite assign_cons.
  assert (Hl : Zlen (rerank k v ns') = Zlen ns') by apply Zlen_alter.
  destruct (IH m' (rerank k v ns')) as (Hz & Hv & Hk).
  { intros w Hw. unfold in_range. rewrite Hl. apply Hr'. by right. }
  split; [congruence|]. split.
  - intros x. rewrite Hv. apply rerank_visited, Hr'. left.
  - intros x Hx. apply not_elem_of_cons in Hx as [Hne Hx]. rewrite Hk by done.
    rewrite rerank_rank by (apply Hr'; left). by rewrite decide_False.
Qed.
End Assign.

Lemma assign_rank l m ns i x k :
  (forall v, v ∈ l -> in_range ns v) -> NoDup l ->
  l !! i = Some x -> m !! i = Some k -> rank_of (assign l m ns) x = k.
Proof.
  revert m ns i. induction l as [|v l IH]; intros [|k' m] ns i Hr Hnd Hx Hk; try done.
  apply NoDup_cons in Hnd as [Hv Hnd]. rewrite assign_cons.
  assert (Hr' : forall w, w ∈ l -> in_range (rerank k' v ns) w).
  { intros w Hw. unfold in_range, rerank. rewrite Zlen_alter. apply Hr. by right. }
  destruct i as [|i]; simpl in Hx, Hk.
  - injection Hx as ->. injection Hk as ->.
    rewrite (proj2 (proj2 (assign_frame l m _ Hr'))) by done.
    rewrite rerank_rank by (apply Hr; left). by rewrite decide_True.
  - by apply (IH m _ i).
Qed.

Lemma assign_loop l m r :
  (forall v, v ∈ l -> in_range (nodes_ r) v) ->
  foldM (fun r p => set_rank p.2 p.1 r) r (zip l m) = OK (with_nodes (assign l m (nodes_ r)) r).
Proof.
  revert m r. induction l as [|v l IH]; intros [|k m] r Hr; cbn [foldM zip zip_with].
  1-3: by destruct r.
  rewrite set_rank_OK by (apply Hr; left). cbn [mbind outcome_bind fst snd].
  change (zip_with pair l m) with (zip l m). rewrite IH; [done|].
  intros w Hw. simpl. unfold in_range, rerank. rewrite Zlen_alter. apply Hr. by right.
Qed.

(** ** Reorder *)

Lemma Sort_OK ns d :
  (forall v, v ∈ d -> in_range ns v) -> Sort ns d = OK (merge_sort (rank_le ns) d).
Proof.
  intros Hd. unfold Sort.
  rewrite (proj2 (mapM_OK (at_ ns) d ((fun v => mkNode (rank_of ns v) (visited_of ns v)) <$> d)));
    [done|].
  apply Forall2_fmap_r, Forall_Forall2_diag, Forall_forall. intros v Hv. by apply at_node, Hd.
Qed.

Lemma MoveToList_OK src dst r :
  (forall v, v ∈ src -> in_range (nodes_ r) v) ->
  MoveToList src dst r
  = OK (rank_of (nodes_ r) <$> src, dst ++ src, with_nodes (marks false src (nodes_ r)) r).
Proof.
  revert dst r. induction src as [|w src IH]; intros dst r Hr; cbn [MoveToList].
  - rewrite app_nil_r. by destruct r.
  - rewrite at_node by (apply Hr; left). cbn [mbind outcome_bind].
    rewrite set_visited_OK by (apply Hr; left). cbn [mbind outcome_bind].
    rewrite IH.
    + cbn [mbind outcome_bind rank with_nodes nodes_ fmap list_fmap]. rewrite <- app_assoc.
      do 4 f_equal. apply list_fmap_ext. intros _ x _. apply mark_rank, Hr. left.
    + intros v Hv. cbn. unfold in_range, mark. rewrite Zlen_alter. apply Hr. by right.
Qed.

#[global] Instance rank_le_trans ns : Transitive (rank_le ns).
Proof. intros x y z. unfold rank_le. lia. Qed.
#[global] Instance rank_le_total ns : Total (rank_le ns).
Proof. intros x y. unfold rank_le. lia. Qed.

(** The lists that Reorder works with. *)
Definition sorted_of (ns : list Node) (d : list Z) : list Z := merge_sort (rank_le ns) d.
Definition reordered (b f : list Z) (ns : list Node) : list Node :=
  let l := sorted_of ns b ++ sorted_of ns f in
  assign l (list_merge Z.le (rank_of ns <$> sorted_of ns b) (rank_of ns <$> sorted_of ns f))
    (marks false l ns).

Lemma sorted_of_elem ns d x : x ∈ sorted_of ns d <-> x ∈ d.
Proof. unfold sorted_of. by rewrite merge_sort_Permutation. Qed.

Lemma Reorder_OK r :
  (forall v, v ∈ deltab_ r \/ v ∈ deltaf_ r -> in_range (nodes_ r) v) ->
  exists r', Reorder r = OK r' /\ nodes_ r' = reordered (deltab_ r) (deltaf_ r) (nodes_ r) /\
    node_io_ r' = node_io_ r /\ free_nodes_ r' = free_nodes_ r /\ node_data_ r' = node_data_ r.
Proof.
  intros Hr. unfold Reorder.
  rewrite (Sort_OK _ (deltab_ r)) by (intros v Hv; apply Hr; by left). cbn [mbind outcome_bind].
  rewrite (Sort_OK _ (deltaf_ r)) by (intros v Hv; apply Hr; by right). cbn [mbind outcome_bind].
  change (merge_sort (rank_le (nodes_ r))) with (sorted_of (nodes_ r)).
  assert (Hb : forall v, v ∈ sorted_of (nodes_ r) (deltab_ r) -> in_range (nodes_ r) v).
  { intros v Hv%sorted_of_elem. apply Hr. by left. }
  assert (Hf : forall v, v ∈ sorted_of (nodes_ r) (deltaf_ r) -> in_range (nodes_ r) v).
  { intros v Hv%sorted_of_elem. apply Hr. by right. }
  rewrite MoveToList_OK by done. cbn [mbind outcome_bind with_nodes nodes_].
  rewrite MoveToList_OK.
  2: { intros v Hv. cbn. apply marks_range. by apply Hf. }
  cbn [mbind outcome_bind app]. rewrite assign_loop.
  2: { intros v Hv. cbn. apply marks_range, marks_range. apply elem_of_app in Hv as [?|?]; auto. }
  eexists. split; [done|]. cbn. split; [|done]. unfold reordered.
  set (bs := sorted_of _ (deltab_ r)) in *. set (fs := sorted_of _ (deltaf_ r)) in *.
  unfold marks. rewrite foldl_app. f_equal. f_equal. apply list_fmap_ext.
  intros _ x _. by apply marks_rank.
Qed.

(** ** The new ranks *)

Section Reordered.
Context (ns : list Node) (b f : list Z).
Hypothesis Hrange : forall v, v ∈ b \/ v ∈ f -> in_range ns v.
Hypothesis Hinj : forall x y, in_range ns x -> in_range ns y -> rank_of ns x = rank_of ns y -> x = y.
Hypothesis Hb : NoDup b.
Hypothesis Hf : NoDup f.
Hypothesis Hbf : forall x, x ∈ b -> x ∉ f.

#[local] Abbreviation bs := (sorted_of ns b).
#[local] Abbreviation fs := (sorted_of ns f).
#[local] Abbreviation ranks_b := (rank_of ns <$> bs).
#[local] Abbreviation ranks_f := (rank_of ns <$> fs).
#[local] Abbreviation merged := (list_merge Z.le ranks_b ranks_f).
#[local] Abbreviation rk := (rank_of ns).
#[local] Abbreviation rk' := (rank_of (reordered b f ns)).

Lemma list_range v : v ∈ bs ++ fs -> in_range ns v.
Proof. rewrite elem_of_app, !sorted_of_elem. apply Hrange. Qed.

Lemma list_elem v : v ∈ bs ++ fs <-> v ∈ b \/ v ∈ f.
Proof. by rewrite elem_of_app, !sorted_of_elem. Qed.

Lemma list_nodup : NoDup (bs ++ fs).
Proof.
  apply NoDup_app. split_and!.
  - unfold sorted_of. by rewrite merge_sort_Permutation.
  - intros x. rewrite !sorted_of_elem. apply Hbf.
  - unfold sorted_of. by rewrite merge_sort_Permutation.
Qed.

Lemma sorted_ranks d : StronglySorted Z.le (rank_of ns <$> sorted_of ns d).
Proof. apply (sorted_fmap _ (rank_le ns)); [done|]. apply (StronglySorted_merge_sort _). Qed.

Lemma merged_perm : merged ≡ₚ rk <$> (bs ++ fs).
Proof. by rewrite merge_Permutation, fmap_app. Qed.

Lemma merged_nodup : NoDup merged.
Proof.
  rewrite merged_perm. apply NoDup_fmap_2_strong; [|apply list_nodup].
  intros x y Hx%list_range Hy%list_range. by apply Hinj.
Qed.

Lemma reordered_at i x :
  (bs ++ fs) !! i = Some x -> merged !! i = Some (rk' x).
Proof.
  intros Hx. destruct (lookup_lt_is_Some_2 merged i) as [k Hk].
  { rewrite merged_perm, length_fmap. by eapply lookup_lt_Some. }
  rewrite Hk. f_equal. symmetry. unfold reordered.
  apply (assign_rank _ _ _ i); [|apply list_nodup|done|done].
  intros v Hv. by apply marks_range, list_range.
Qed.

Lemma reordered_frame :
  Zlen (reordered b f ns) = Zlen ns /\
  (forall x, visited_of (reordered b f ns) x
     = if decide (x ∈ b \/ x ∈ f) then false else visited_of ns x) /\
  (forall x, ~ (x ∈ b \/ x ∈ f) -> rk' x = rk x).
Proof.
  unfold reordered.
  destruct (assign_frame (bs ++ fs) merged (marks false (bs ++ fs) ns)) as (Hl & Hv & Hk).
  { intros v Hv. by apply marks_range, list_range. }
  split; [by rewrite Hl, marks_len|]. split.
  - intros x. rewrite Hv, marks_visited by apply list_range.
    destruct (decide (x ∈ bs ++ fs)) as [H1|H1], (decide (x ∈ b \/ x ∈ f)) as [H2|H2];
      rewrite list_elem in H1; tauto.
  - intros x Hx. rewrite Hk by (by rewrite list_elem).
    apply marks_rank, list_range.
Qed.

Lemma reordered_from x : x ∈ b \/ x ∈ f -> exists z, (z ∈ b \/ z ∈ f) /\ rk' x = rk z.
Proof.
  intros Hx. apply list_elem, list_elem_of_lookup in Hx as [i Hi].
  apply reordered_at in Hi. apply list_elem_of_lookup_2 in Hi.
  rewrite merged_perm in Hi. apply list_elem_of_fmap in Hi as (z & Hz & Hin).
  exists z. by rewrite <- list_elem.
Qed.

Lemma reordered_low x : x ∈ b -> rk' x <= rk x.
Proof.
  intros Hx. rewrite <- (sorted_of_elem ns), list_elem_of_lookup in Hx.
  destruct Hx as [i Hi].
  assert (Hk : ranks_b !! i = Some (rk x)) by (by rewrite list_lookup_fmap, Hi).
  destruct (merge_low _ ranks_f _ _ (sorted_ranks b) Hk) as (y & Hy & Hle).
  rewrite (reordered_at i x) in Hy; [by injection Hy as ->|].
  by apply lookup_app_l_Some.
Qed.

Lemma reordered_high x : x ∈ f -> rk x <= rk' x.
Proof.
  intros Hx. rewrite <- (sorted_of_elem ns), list_elem_of_lookup in Hx.
  destruct Hx as [i Hi].
  assert (Hk : ranks_f !! i = Some (rk x)) by (by rewrite list_lookup_fmap, Hi).
  destruct (merge_high _ _ _ _ (sorted_ranks b) (sorted_ranks f) Hk) as (y & Hy & Hle).
  rewrite length_fmap, (reordered_at _ x) in Hy; [by injection Hy as ->|].
  rewrite lookup_app_r by lia. by replace (length bs + i - length bs)%nat with i by lia.
Qed.

(** Positions in the list of collected nodes decide the new order. *)
Lemma reordered_lt i j x y :
  (bs ++ fs) !! i = Some x -> (bs ++ fs) !! j = Some y -> (i < j)%nat -> rk' x < rk' y.
Proof.
  intros Hx%reordered_at Hy%reordered_at Hij.
  pose proof (merge_sorted _ _ (sorted_ranks b) (sorted_ranks f)) as HS.
  pose proof (sorted_lookup _ _ _ _ _ _ HS Hij Hx Hy).
  enough (rk' x <> rk' y) by lia. intros E. rewrite E in Hx.
  pose proof (NoDup_lookup _ _ _ _ merged_nodup Hx Hy). lia.
Qed.

Lemma reordered_cross x y : x ∈ b -> y ∈ f -> rk' x < rk' y.
Proof.
  rewrite <- (sorted_of_elem ns b), <- (sorted_of_elem ns f), !list_elem_of_lookup.
  intros [i Hi] [j Hj]. pose proof (lookup_lt_Some _ _ _ Hi).
  apply (reordered_lt i (length bs + j)).
  - by apply lookup_app_l_Some.
  - rewrite lookup_app_r by lia. by replace (length bs + j - length bs)%nat with j by lia.
  - lia.
Qed.

Lemma sorted_position d x y :
  x ∈ d -> y ∈ d -> rk x < rk y ->
  exists i j, sorted_of ns d !! i = Some x /\ sorted_of ns d !! j = Some y /\ (i < j)%nat.
Proof.
  rewrite <- (sorted_of_elem ns d), <- (sorted_of_elem ns d y), !list_elem_of_lookup.
  intros [i Hi] [j Hj] Hlt. exists i, j. split; [done|]. split; [done|].
  destruct (decide (i < j)%nat) as [|Hn]; [done|].
  assert (Hij : (i = j \/ j < i)%nat) by lia. destruct Hij as [->|Hij].
  - rewrite Hi in Hj. injection Hj as ->. lia.
  - pose proof (sorted_lookup (rank_le ns) _ _ _ _ _ (StronglySorted_merge_sort _ d) Hij Hj Hi) as Hle.
    unfold rank_le in Hle. lia.
Qed.

Lemma reordered_within x y :
  (x ∈ b /\ y ∈ b) \/ (x ∈ f /\ y ∈ f) -> rk x < rk y -> rk' x < rk' y.
Proof.
  intros [[Hx Hy]|[Hx Hy]] Hlt; destruct (sorted_position _ x y Hx Hy Hlt) as (i & j & Hi & Hj & Hij).
  - apply (reordered_lt i j); [by apply lookup_app_l_Some..|done].
  - apply (reordered_lt (length bs + i) (length bs + j)); [..|lia];
      rewrite lookup_app_r by lia.
    + by replace (length bs + i - length bs)%nat with i by lia.
    + by replace (length bs + j - length bs)%nat with j by lia.
Qed.

(** The ranks stay distinct. *)
Lemma reordered_inj x y : in_range ns x -> in_range ns y -> rk' x = rk' y -> x = y.
Proof.
  intros Hx Hy Hxy. destruct reordered_frame as (_ & _ & Hout).
  assert (Hdec : forall z, (z ∈ b \/ z ∈ f) \/ ~ (z ∈ b \/ z ∈ f)).
  { intros z. destruct (decide (z ∈ b)), (decide (z ∈ f)); tauto. }
  destruct (Hdec x) as [Hxl|Hxl], (Hdec y) as [Hyl|Hyl].
  - apply list_elem, list_elem_of_lookup in Hxl as [i Hi], Hyl as [j Hj].
    destruct (decide (i = j)) as [->|Hne]; [congruence|].
    assert (Hij : (i < j \/ j < i)%nat) by lia.
    destruct Hij as [Hij|Hij]; [pose proof (reordered_lt _ _ _ _ Hi Hj Hij)|
      pose proof (reordered_lt _ _ _ _ Hj Hi Hij)]; lia.
  - destruct (reordered_from x Hxl) as (z & Hz & Ez). rewrite Ez, (Hout y Hyl) in Hxy.
    apply Hinj in Hxy as ->; [done|by apply Hrange|done].
  - destruct (reordered_from y Hyl) as (z & Hz & Ez). rewrite Ez, (Hout x Hxl) in Hxy.
    apply Hinj in Hxy as ->; [done|done|by apply Hrange].
  - apply Hinj; [done..|]. by rewrite <- !Hout.
Qed.

Lemma reordered_bound x :
  (forall z, in_range ns z -> 0 <= rk z < Zlen ns) -> in_range ns x -> 0 <= rk' x < Zlen ns.
Proof.
  intros Hbound Hx. destruct (decide (x ∈ b)) as [H|H1]; [|destruct (decide (x ∈ f)) as [H|H2]].
  - destruct (reordered_from x) as (z & Hz & ->); [by left|]. by apply Hbound, Hrange.
  - destruct (reordered_from x) as (z & Hz & ->); [by right|]. by apply Hbound, Hrange.
  - rewrite (proj2 (proj2 reordered_frame)) by tauto. by apply Hbound.
Qed.
End Reordered.
