(* ===== verification/GraphInsert.v ===== *)
(** * GraphCycles: edge insertion and reachability

    InsertEdge of xla/service/graphcycles/graphcycles.cc adds an edge exactly
    when it closes no cycle and restores the graph otherwise; after an insertion
    against the ranks the reordered ranks grow along all edges again.
    IsReachableNonConst decides reachability. *)

From Stdlib Require Import ZArith Lia.
From stdpp Require Import sorting relations.
From S2P Require Import Prelude OrderedSet GraphCycles GraphInv GraphDfs GraphReorder.

Definition add (E : Z -> Z -> Prop) (x y : Z) : Z -> Z -> Prop :=
  fun u v => E u v \/ u = x /\ v = y.

(** A set that is closed under the edges below a rank shows that its start does
    not reach the node of that rank. *)
Lemma closed_unreachable (E : Z -> Z -> Prop) (rk : Z -> Z) (d : list Z) x y :
  (forall u v, E u v -> rk u < rk v) -> x ∈ d -> (forall u, u ∈ d -> rk u < rk y) ->
  (forall u v, u ∈ d -> E u v -> v ∈ d \/ rk y < rk v) -> ~ rtc E x y.
Proof.
  intros Hup Hx Hlow Hcl Hp. assert (Hc : forall z, rtc E x z -> rk z <= rk y -> z ∈ d).
  { apply (rtc_ind_r (fun z => rk z <= rk y -> z ∈ d)); [done|].
    intros a b _ Hab IH Hby. pose proof (Hup a b Hab).
    destruct (Hcl a b) as [?|?]; [apply IH; lia|done..|lia]. }
  pose proof (Hlow y (Hc y Hp (Z.le_refl _))). lia.
Qed.

(** ** The reordering is right *)

Section PearceKelly.
Context (r : Rep) (E : Z -> Z -> Prop) (x y : Z) (df db : list Z).
#[local] Abbreviation rk := (rank_of (nodes_ r)).
#[local] Abbreviation E1 := (add E x y).

Hypothesis G : GInv r E.
Hypothesis Hx : in_range (nodes_ r) x.
Hypothesis Hy : in_range (nodes_ r) y.
Hypothesis Hlt : rk y < rk x.

(** What the forward search from [y] and the backward search from [x] found. *)
Hypothesis Fsearch :
  search E1 (below r (rk x)) (fun w => visited_of (nodes_ r) w = true) y [] df.
Hypothesis Fnocycle : forall u v, u ∈ df -> E1 u v -> rk v <> rk x.
Hypothesis Bsearch :
  search (flip E1) (fun w => in_range (nodes_ r) w /\ rk y < rk w) (fun w => w ∈ df) x [] db.

Lemma pk_edge_range u v : E1 u v -> in_range (nodes_ r) u /\ in_range (nodes_ r) v.
Proof. intros [He|[-> ->]]; [by apply (edge_range G)|done]. Qed.

Lemma pk_forward u : u ∈ df -> in_range (nodes_ r) u /\ rk u < rk x.
Proof. intros Hu. apply (s_good _ _ _ _ _ _ Fsearch). by left. Qed.

Lemma pk_forward_closed u v : u ∈ df -> E1 u v -> v ∈ df \/ rk x < rk v.
Proof.
  intros Hu Huv. destruct (decide (rk x < rk v)) as [|Hn]; [by right|left].
  pose proof (Fnocycle u v Hu Huv). apply pk_edge_range in Huv as Hr.
  destruct (s_closed _ _ _ _ _ _ Fsearch u v Hu Huv) as [?|[?%elem_of_nil|Hv]]; [|done..|].
  - split; [apply Hr|lia].
  - by rewrite (g_vis G) in Hv.
Qed.

Lemma pk_forward_low u : u ∈ df -> rk y <= rk u.
Proof.
  intros Hu. assert (Hr : rtc E y u).
  { assert (H := s_reach _ _ _ _ _ _ Fsearch u (or_introl Hu)).
    revert H. apply rtc_subrel. intros a b [[Hab|[-> ->]] [_ Ha]]; [done|lia]. }
  by apply (path_rank_le G).
Qed.

Lemma pk_start_y : y ∈ df.
Proof.
  destruct (s_start _ _ _ _ _ _ Fsearch) as [?|[?%elem_of_nil|Hv]]; [done..|].
  by rewrite (g_vis G) in Hv.
Qed.

Lemma pk_start_x : x ∈ db.
Proof.
  destruct (s_start _ _ _ _ _ _ Bsearch) as [?|[?%elem_of_nil|Hv]]; [done..|].
  apply pk_forward in Hv. lia.
Qed.

Lemma pk_backward u : u ∈ db -> in_range (nodes_ r) u /\ rk y < rk u /\ rk u <= rk x /\ u ∉ df.
Proof.
  intros Hu. destruct (s_good _ _ _ _ _ _ Bsearch u (or_introl Hu)) as [Hr Hlow].
  split; [done|]. split; [done|]. split; [|by apply (s_new _ _ _ _ _ _ Bsearch)].
  assert (H := s_reach _ _ _ _ _ _ Bsearch u (or_introl Hu)). revert H. clear Hu Hr Hlow.
  apply (rtc_ind_r (fun u => rk u <= rk x)); [lia|].
  intros a b _ [[Hab%(g_rank G)|[-> ->]] _] IH; lia.
Qed.

Lemma pk_backward_closed u v : v ∈ db -> E1 u v -> u ∈ db \/ u ∈ df \/ rk u <= rk y.
Proof.
  intros Hv Huv. destruct (decide (rk u <= rk y)) as [|Hn]; [by right; right|].
  apply pk_edge_range in Huv as Hr.
  destruct (s_closed _ _ _ _ _ _ Bsearch v u Hv Huv) as [?|[?%elem_of_nil|?]]; [|tauto|done|tauto].
  split; [apply Hr|lia].
Qed.

Lemma pk_no_cross u v : u ∈ df -> v ∈ db -> ~ E1 u v.
Proof.
  intros Hu Hv Huv. destruct (pk_backward v Hv) as (_ & _ & Hvx & Hn).
  destruct (pk_forward_closed u v Hu Huv); [done|lia].
Qed.

Lemma pk_sets : NoDup df /\ NoDup db /\ (forall u, u ∈ db -> u ∉ df) /\
  forall u, u ∈ db \/ u ∈ df -> in_range (nodes_ r) u.
Proof.
  split; [apply (s_nodup _ _ _ _ _ _ Fsearch)|]. split; [apply (s_nodup _ _ _ _ _ _ Bsearch)|].
  split; [by intros u (_ & _ & _ & ?)%pk_backward|].
  intros u [[? _]%pk_backward|[? _]%pk_forward]; done.
Qed.

(** The nodes that Reorder starts from: those of [r] with marks. *)
Context (ns : list Node).
Hypothesis Nlen : Zlen ns = Zlen (nodes_ r).
Hypothesis Nrank : forall z, rank_of ns z = rk z.
#[local] Abbreviation rk' := (rank_of (reordered db df ns)).

Lemma pk_range z : in_range ns z <-> in_range (nodes_ r) z.
Proof. unfold in_range. by rewrite Nlen. Qed.

Lemma pk_order u v : E1 u v -> rk' u < rk' v.
Proof.
  intros Huv. destruct pk_sets as (Hf & Hb & Hbf & Hrg).
  assert (Hrg' : forall z, z ∈ db \/ z ∈ df -> in_range ns z) by (intros; by apply pk_range, Hrg).
  assert (Hinj : forall a b, in_range ns a -> in_range ns b -> rank_of ns a = rank_of ns b -> a = b).
  { intros a b. rewrite !pk_range, !Nrank. apply (g_inj G). }
  pose proof (reordered_cross ns db df Hrg' Hinj Hb Hf Hbf) as Hcross.
  destruct (decide (u ∈ db)) as [Hub|Hub], (decide (v ∈ df)) as [Hvf|Hvf]; [by apply Hcross|..].
  all: destruct Huv as [Huv|[-> ->]]; [|by destruct (Hub pk_start_x) || destruct (Hvf pk_start_y)].
  all: pose proof (g_rank G u v Huv) as Hord; apply (or_introl (B := u = x /\ v = y)) in Huv as Huv1.
  all: pose proof (reordered_within ns db df Hrg' Hinj Hb Hf Hbf u v) as Hin; rewrite !Nrank in Hin.
  all: pose proof (reordered_low ns db df Hrg' Hb Hf Hbf u) as Hlow; rewrite Nrank in Hlow.
  all: pose proof (reordered_high ns db df Hrg' Hb Hf Hbf v) as Hhigh; rewrite Nrank in Hhigh.
  all: destruct (reordered_frame ns db df Hrg') as (_ & _ & Hout).
  - destruct (decide (v ∈ db)); [apply Hin; tauto|].
    rewrite (Hout v) by tauto. rewrite Nrank. specialize (Hlow Hub). lia.
  - destruct (decide (u ∈ df)); [apply Hin; tauto|].
    rewrite (Hout u) by tauto. rewrite Nrank. specialize (Hhigh Hvf). lia.
  - destruct (decide (u ∈ df)) as [Huf|Huf], (decide (v ∈ db)) as [Hvb|Hvb].
    + by destruct (pk_no_cross u v Huf Hvb).
    + destruct (pk_forward_closed u v Huf Huv1) as [?|Hbig]; [done|].
      rewrite (Hout v) by tauto. rewrite Nrank.
      destruct (reordered_from ns db df Hrg' Hb Hf Hbf u) as (z & Hz & ->); [tauto|].
      rewrite Nrank. destruct Hz as [Hz%pk_backward|Hz%pk_forward]; lia.
    + rewrite (Hout u) by tauto. rewrite Nrank.
      destruct (pk_backward_closed u v Hvb Huv1) as [?|[?|Hsmall]]; [done..|].
      assert (rk u <> rk y).
      { intros Eq. apply (g_inj G) in Eq as ->; [|by apply (pk_edge_range _ _ Huv1)|done].
        by destruct (Huf pk_start_y). }
      destruct (reordered_from ns db df Hrg' Hb Hf Hbf v) as (z & Hz & ->); [tauto|].
      rewrite Nrank. destruct Hz as [Hz%pk_backward|Hz%pk_forward_low]; lia.
    + rewrite !Hout by tauto. by rewrite !Nrank.
Qed.

Lemma pk_inj a b : in_range ns a -> in_range ns b -> rank_of ns a = rank_of ns b -> a = b.
Proof. rewrite !pk_range, !Nrank. apply (g_inj G). Qed.

(** The invariant after the reordering. *)
Lemma pk_GInv r' :
  (forall z, visited_of ns z = true -> z ∈ db \/ z ∈ df) ->
  nodes_ r' = reordered db df ns -> free_nodes_ r' = free_nodes_ r ->
  node_data_ r' = node_data_ r -> io_view (node_io_ r') (Zlen (nodes_ r)) E1 (flip E1) ->
  (forall u v, E1 u v -> u ∉ free_nodes_ r /\ v ∉ free_nodes_ r) ->
  GInv r' E1.
Proof.
  intros Hvis En Ef Ed V Hfree. destruct pk_sets as (Hf & Hb & Hbf & Hrg).
  assert (Hrg' : forall z, z ∈ db \/ z ∈ df -> in_range ns z) by (intros; by apply pk_range, Hrg).
  destruct (reordered_frame ns db df Hrg') as (Hlen & Hv & _).
  assert (Hrange : forall z, in_range (nodes_ r') z <-> in_range ns z).
  { intros z. unfold in_range. by rewrite En, Hlen. }
  split; rewrite ?Ef, ?Ed, ?En, ?Hlen, ?Nlen; try done.
  - apply G.
  - intros a b. rewrite <- En, !Hrange, En.
    apply (reordered_inj ns db df Hrg' pk_inj Hb Hf Hbf).
  - intros a Ha. rewrite <- En, Hrange in Ha. rewrite <- Nlen.
    apply (reordered_bound ns db df Hrg' Hb Hf Hbf); [|done].
    intros z Hz. rewrite Nrank, Nlen. by apply (g_bound G), pk_range.
  - intros z. rewrite Hv. case_decide as Hz; [done|].
    destruct (visited_of ns z) eqn:Ez; [by destruct Hz; apply Hvis|done].
  - intros u v. apply pk_order.
  - split; [apply (g_free G)|]. intros z Hz. split.
    + rewrite <- En. apply Hrange, pk_range. by apply (g_free G).
    + intros u. split; intros [? ?]%Hfree; tauto.
Qed.

(** Reaching [x] from [y] would have been noticed by the forward search. *)
Lemma pk_unreachable : ~ rtc E y x.
Proof.
  apply (closed_unreachable E rk df); [apply (g_rank G)|apply pk_start_y|by intros u [_ ?]%pk_forward|].
  intros u v Hu Huv. apply pk_forward_closed with u; [done|by left].
Qed.
End PearceKelly.

(** ** InsertEdge *)

(** What no operation on edges changes. *)
Definition keeps (r r' : Rep) : Prop :=
  Zlen (nodes_ r') = Zlen (nodes_ r) /\ free_nodes_ r' = free_nodes_ r /\
  node_data_ r' = node_data_ r.

Lemma keeps_refl r : keeps r r.
Proof. done. Qed.
Lemma keeps_trans r1 r2 r3 : keeps r1 r2 -> keeps r2 r3 -> keeps r1 r3.
Proof. unfold keeps. intros (? & ? & ?) (? & ? & ?). split_and!; congruence. Qed.

Section Insert.
Context (r : Rep) (E : Z -> Z -> Prop) (x y : Z).
#[local] Abbreviation rk := (rank_of (nodes_ r)).
Hypothesis G : GInv r E.
Hypothesis Hx : in_range (nodes_ r) x /\ x ∉ free_nodes_ r.
Hypothesis Hy : in_range (nodes_ r) y /\ y ∉ free_nodes_ r.

Lemma add_live u v : add E x y u v -> u ∉ free_nodes_ r /\ v ∉ free_nodes_ r.
Proof. intros [Huv|[-> ->]]; [by apply (edge_live _ E)|split; [apply Hx|apply Hy]]. Qed.

Lemma insert_range u v : add E x y u v -> in_range (nodes_ r) u /\ in_range (nodes_ r) v.
Proof. intros [Huv|[-> ->]]; [by apply (edge_range G)|split; [apply Hx|apply Hy]]. Qed.

(** The sets after the edge has been entered. *)
Lemma insert_sets :
  exists ios, out_Insert x y r ≫= in_Insert y x = OK (with_io ios r) /\
    io_view ios (Zlen (nodes_ r)) (add E x y) (flip (add E x y)).
Proof.
  destruct (out_Insert_view _ _ _ _ (g_io G) r eq_refl x y (proj1 Hx)) as (ios1 & -> & V1).
  cbn [mbind outcome_bind].
  destruct (in_Insert_view _ _ _ _ V1 (with_io ios1 r) eq_refl y x (proj1 Hy)) as (ios2 & -> & V2).
  exists ios2. split; [done|]. eapply io_view_iff; [exact V2|done|].
  intros u v. unfold flip, add. tauto.
Qed.

(** The edge against the ranks that closes no cycle. *)
Lemma insert_reorder ios st df :
  rk y < rk x -> io_view ios (Zlen (nodes_ r)) (add E x y) (flip (add E x y)) ->
  search (add E x y) (below r (rk x)) (fun w => visited_of (nodes_ r) w = true) y [] df ->
  (forall u v, u ∈ df -> add E x y u v -> rk v <> rk x) ->
  exists r', (r ← BackwardDFS x (rk y) (fstate (with_io ios r) st df); Reorder r) = OK r' /\
    GInv r' (add E x y) /\ keeps r r' /\ ~ rtc E y x.
Proof.
  intros Hlt V Fs Fn. set (r2 := fstate (with_io ios r) st df).
  assert (Hdf : forall v, v ∈ df -> in_range (nodes_ r) v)
    by (intros v Hv; apply (s_good _ _ _ _ _ _ Fs); by left).
  assert (Hrk2 : forall z, rank_of (nodes_ r2) z = rk z) by (intros; by apply marks_rank).
  assert (Hin2 : forall z, in_range (nodes_ r2) z <-> in_range (nodes_ r) z)
    by (intros; apply marks_range).
  destruct (BackwardDFS_OK r2 (add E x y) (flip (add E x y)) x) with (lb := rk y)
    as (db & -> & Bs).
  { simpl. by rewrite marks_len. }
  { intros u v Huv. apply Hin2, (insert_range _ _ Huv). }
  { split; [by apply Hin2, Hx|by rewrite Hrk2]. }
  cbn [mbind outcome_bind].
  assert (Bs' : search (flip (add E x y)) (fun w => in_range (nodes_ r) w /\ rk y < rk w)
            (fun w => w ∈ df) x [] db).
  { apply (search_iff _ _ _ _ _ _ _ _ Bs); intros u.
    - unfold above. by rewrite Hin2, Hrk2.
    - simpl. rewrite marks_visited by done. rewrite (g_vis G). case_decide; naive_solver. }
  destruct (pk_sets r E x y df db) as (Hf & Hb & Hbf & Hrg); [done..|].
  assert (Nlen : Zlen (nodes_ (bstate r2 [] db)) = Zlen (nodes_ r)) by (simpl; by rewrite !marks_len).
  assert (Hrange3 : forall z, in_range (nodes_ (bstate r2 [] db)) z <-> in_range (nodes_ r) z).
  { intros z. unfold in_range. by rewrite Nlen. }
  assert (Nrank : forall z, rank_of (nodes_ (bstate r2 [] db)) z = rk z).
  { intros z. simpl. rewrite marks_rank; [apply Hrk2|]. intros v Hv. apply Hin2, Hrg. by left. }
  destruct (Reorder_OK (bstate r2 [] db)) as (r' & HR & En & Eio & Ef & Ed).
  { intros v Hv. by apply Hrange3, Hrg. }
  assert (Hvis : forall z, visited_of (nodes_ (bstate r2 [] db)) z = true -> z ∈ db \/ z ∈ df).
  { intros z. simpl. rewrite marks_visited by (intros v Hv; apply Hin2, Hrg; by left).
    case_decide; [by left|]. rewrite marks_visited by done.
    case_decide; [by right|]. by rewrite (g_vis G). }
  exists r'. split; [exact HR|]. split; [|split].
  - pose proof (proj1 Hx). pose proof (proj1 Hy).
    eapply (pk_GInv r E x y df db); try done; [by rewrite Eio|]. intros u v. apply add_live.
  - split; [|done]. rewrite En, <- Nlen. apply reordered_frame.
    intros v Hv. by apply Hrange3, Hrg.
  - pose proof (proj1 Hx). pose proof (proj1 Hy). by eapply (pk_unreachable r E x y df).
Qed.

(** The edge that would close a cycle is taken back. *)
Lemma insert_undo ios st df :
  ~ E x y -> io_view ios (Zlen (nodes_ r)) (add E x y) (flip (add E x y)) ->
  (forall v, v ∈ df -> in_range (nodes_ r) v) ->
  exists r', (r ← out_Erase x y (fstate (with_io ios r) st df); r ← in_Erase y x r;
              ClearVisitedBits (deltaf_ r) r) = OK r' /\
    GInv r' E /\ keeps r r' /\ nodes_ r' = nodes_ r.
Proof.
  intros Hn V Hdf.
  assert (Hxy : add E x y x y) by (by right).
  destruct (out_Erase_view _ _ _ _ V (fstate (with_io ios r) st df) eq_refl x y Hxy)
    as (ios1 & -> & V1). cbn [mbind outcome_bind].
  destruct (in_Erase_view _ _ _ _ V1 (with_io ios1 (fstate (with_io ios r) st df)) eq_refl y x Hxy)
    as (ios2 & -> & V2). cbn [mbind outcome_bind].
  rewrite ClearVisitedBits_OK.
  2: { intros v Hv. simpl. apply marks_range. by apply Hdf. }
  eexists. split; [done|].
  assert (En : marks false df (marks true df (nodes_ r)) = nodes_ r)
    by (apply marks_clear; [done|apply (g_vis G)]).
  split; [|split; [split; [|done]|]]; simpl; try (by rewrite ?En).
  apply (GInv_edges r _ E); simpl; [done..| |intros u v; apply (g_rank G)|].
  - eapply io_view_iff; [exact V2| |]; intros u v; unfold flip, add; naive_solver.
  - intros u v Huv. by apply (edge_live _ E).
Qed.
End Insert.

Lemma InsertEdge_OK r E x y :
  GInv r E -> in_range (nodes_ r) x /\ x ∉ free_nodes_ r ->
  in_range (nodes_ r) y /\ y ∉ free_nodes_ r ->
  exists b r', InsertEdge x y r = OK (b, r') /\ GInv r' (if b then add E x y else E) /\
    keeps r r' /\ if b then ~ rtc E y x else rtc E y x.
Proof.
  intros G Hx Hy. unfold InsertEdge. destruct (Z.eqb_spec x y) as [->|Hne].
  { exists false, r. by split_and!. }
  destruct (view_at _ _ _ _ (g_io G) x (proj1 Hx)) as (io & -> & _ & Eo & _ & _ & Hok).
  cbn [mbind outcome_bind]. pose proof (Insert_spec (out io) y Hok) as HI.
  destruct (Insert y (out io)) as [new s']. destruct HI as (_ & -> & _). simpl fst.
  rewrite negb_involutive. case_bool_decide as Hin.
  { rewrite Eo, (v_out _ _ _ _ (g_io G)) in Hin. exists true, r. split_and!; try done.
    - eapply GInv_iff; [exact G|]. unfold add. naive_solver.
    - intros Hr. apply (acyclic G x). eapply tc_rtc_r; [by apply tc_once|done]. }
  rewrite Eo, (v_out _ _ _ _ (g_io G)) in Hin.
  destruct (insert_sets r E x y G Hx Hy) as (ios & Hios & V).
  apply bind_OK in Hios as (r1 & -> & Hios). cbn [mbind outcome_bind]. rewrite Hios.
  cbn [mbind outcome_bind with_io nodes_].
  rewrite (at_node _ _ (proj1 Hx)), (at_node _ _ (proj1 Hy)). cbn [mbind outcome_bind rank].
  destruct (Z.leb_spec (rank_of (nodes_ r) x) (rank_of (nodes_ r) y)) as [Hle|Hlt].
  { exists true, (with_io ios r). split_and!; try done.
    - apply (GInv_edges r _ E); simpl; try done.
      + intros u v [Huv|[-> ->]]; [by apply (g_rank G)|].
        enough (rank_of (nodes_ r) x <> rank_of (nodes_ r) y) by lia.
        intros Heq. by apply (g_inj G) in Heq; [|apply Hx|apply Hy].
      + intros u v. by apply (add_live r E).
    - intros Hr%(path_rank_le G). apply Hne, (g_inj G); [apply Hx|apply Hy|lia]. }
  destruct (ForwardDFS_OK (with_io ios r) (add E x y) (flip (add E x y)) y V)
    with (ub := rank_of (nodes_ r) x) as (b & st & df & -> & Hdf & Hb).
  { intros u v Huv. by apply (insert_range r E x y G Hx Hy) in Huv as [_ ?]. }
  { split; [apply Hy|done]. }
  cbn [mbind outcome_bind]. destruct b; cbn [negb].
  - destruct Hb as [Hs Hnc].
    destruct (insert_reorder r E x y G Hx Hy ios st df Hlt V Hs Hnc) as (r' & HR & HG & Hk & Hnr).
    apply bind_OK in HR as (r2 & -> & HR). cbn [mbind outcome_bind]. rewrite HR.
    cbn [mbind outcome_bind]. by exists true, r'.
  - destruct (insert_undo r E x y G Hx Hy ios st df Hin V Hdf) as (r' & HR & HG & Hk & _).
    apply bind_OK in HR as (r2 & -> & HR). cbn [mbind outcome_bind].
    apply bind_OK in HR as (r3 & -> & HR). cbn [mbind outcome_bind]. rewrite HR.
    cbn [mbind outcome_bind]. exists false, r'. split_and!; try done.
    destruct Hb as (v & w & Hp & [_ Hv] & Hvw & Hw).
    assert (w = x) as ->.
    { apply (g_inj G); [|apply Hx|done]. apply (insert_range r E x y G Hx Hy _ _ Hvw). }
    apply (rtc_r _ v); [|destruct Hvw as [?|[-> _]]; [done|simpl in Hv; lia]].
    eapply rtc_subrel; [|exact Hp]. intros a b [[Hab|[-> _]] [_ Ha]]; [done|simpl in Ha; lia].
Qed.

(** ** Reachability *)

Lemma IsReachableNonConst_OK r E x y :
  GInv r E -> in_range (nodes_ r) x -> in_range (nodes_ r) y ->
  exists b r', IsReachableNonConst x y r = OK (b, r') /\ (b = true <-> rtc E x y) /\
    GInv r' E /\ keeps r r' /\ nodes_ r' = nodes_ r /\ node_io_ r' = node_io_ r.
Proof.
  intros G Hx Hy. unfold IsReachableNonConst. destruct (Z.eqb_spec x y) as [->|Hne].
  { exists true, r. by split_and!. }
  rewrite (at_node _ _ Hx), (at_node _ _ Hy). cbn [mbind outcome_bind rank].
  destruct (Z.leb_spec (rank_of (nodes_ r) y) (rank_of (nodes_ r) x)) as [Hle|Hlt].
  { exists false, r. split_and!; try done. split; [done|]. intros Hr%(path_rank_le G).
    destruct Hne. apply (g_inj G); [done..|lia]. }
  destruct (ForwardDFS_OK r E (flip E) x (g_io G)) with (ub := rank_of (nodes_ r) y)
    as (b & st & df & -> & Hdf & Hb).
  { intros u v Huv. by apply (edge_range G) in Huv as [_ ?]. }
  { done. }
  cbn [mbind outcome_bind]. rewrite ClearVisitedBits_OK.
  2: { intros v Hv. simpl. apply marks_range. by apply Hdf. }
  cbn [mbind outcome_bind]. eexists _, _. split; [done|].
  assert (En : marks false df (marks true df (nodes_ r)) = nodes_ r)
    by (apply marks_clear; [done|apply (g_vis G)]).
  split_and!; simpl; try (by rewrite ?En).
  - destruct b; simpl; split; try done.
    + intros Hp. exfalso. revert Hp. destruct Hb as [Hs Hnc].
      apply (closed_unreachable E (rank_of (nodes_ r)) df); [apply (g_rank G)| | |].
      * destruct (s_start _ _ _ _ _ _ Hs) as [?|[?%elem_of_nil|Hv]]; [done..|].
        by rewrite (g_vis G) in Hv.
      * intros u Hu. apply (s_good _ _ _ _ _ _ Hs). by left.
      * intros u v Hu Huv. pose proof (Hnc u v Hu Huv).
        destruct (decide (rank_of (nodes_ r) y < rank_of (nodes_ r) v)); [by right|].
        destruct (s_closed _ _ _ _ _ _ Hs u v Hu Huv) as [?|[?%elem_of_nil|Hv]]; [|by left|done|].
        -- split; [by apply (edge_range G u v)|lia].
        -- by rewrite (g_vis G) in Hv.
    + intros _. destruct Hb as (v & w & Hp & _ & Hvw & Hw).
      assert (w = y) as ->.
      { apply (g_inj G); [by apply (edge_range G v w)|done..]. }
      apply (rtc_r _ v); [|done]. eapply rtc_subrel; [|exact Hp]. by intros a b [? _].
  - apply (GInv_edges r _ E); simpl; try done; [apply (g_io G)|apply (g_rank G)|].
    intros u v Huv. by apply (edge_live _ E).
Qed.

(** ** CanContractEdge *)

(** The edges without [(x, y)]. *)
Definition cut (E : Z -> Z -> Prop) (x y : Z) : Z -> Z -> Prop :=
  fun u v => E u v /\ ~ (u = x /\ v = y).

(** The common start of the two contraction methods. *)
Lemma contract_test r E a b :
  GInv r E -> E a b ->
  exists has r1 reach r2, HasEdge a b r = OK has /\ check has = OK () /\
    RemoveEdge a b r = OK r1 /\ IsReachableNonConst a b r1 = OK (reach, r2) /\
    (reach = true <-> rtc (cut E a b) a b) /\ GInv r2 (cut E a b) /\ keeps r r2.
Proof.
  intros G Hab. destruct (edge_range G a b Hab) as [Ha Hb].
  destruct (HasEdge_OK r E a b G Ha) as (has & Hh & Hhas).
  destruct (RemoveEdge_OK r E a b G Hab) as (ios & HR & G1).
  destruct (IsReachableNonConst_OK _ _ a b G1 Ha Hb) as (reach & r2 & HI & Hreach & G2 & Hk & _).
  exists has, (with_io ios r), reach, r2. split_and!; try done.
  by rewrite (proj2 Hhas).
Qed.

(** Entering the edge again gives the graph back. *)
Lemma contract_restore r E a b :
  GInv r E -> E a b -> forall r2, GInv r2 (cut E a b) -> keeps r r2 ->
  exists r3, InsertEdge a b r2 = OK (true, r3) /\ GInv r3 E /\ keeps r r3.
Proof.
  intros G Hab r2 G2 Hk. destruct (edge_range G a b Hab) as [Ha Hb].
  destruct (edge_live r E a b G Hab) as [Hfa Hfb]. destruct Hk as (Hl & Hf & Hd).
  destruct (InsertEdge_OK r2 (cut E a b) a b) as (ok & r3 & HI & G3 & Hk3 & Hok); [done|..].
  1,2: unfold in_range; by rewrite Hl, Hf.
  assert (ok = true) as ->.
  { destruct ok; [done|]. destruct (acyclic G a). eapply tc_rtc_r; [by apply tc_once|].
    eapply rtc_subrel; [|exact Hok]. by intros u v [? _]. }
  exists r3. split; [done|]. split; [|by apply (keeps_trans _ r2)].
  eapply GInv_iff; [exact G3|]. intros u v. unfold add, cut.
  split; [intros [[? _]|[-> ->]]; done|]. intros Huv.
  destruct (decide (u = a)), (decide (v = b)); tauto.
Qed.

Lemma CanContractEdge_OK r E a b :
  GInv r E -> E a b ->
  exists ok r', CanContractEdge a b r = OK (ok, r') /\
    (ok = true <-> ~ rtc (cut E a b) a b) /\ GInv r' E /\ keeps r r'.
Proof.
  intros G Hab.
  destruct (contract_test r E a b G Hab) as (has & r1 & reach & r2 & H1 & H2 & H3 & H4 & Hreach & G2 & Hk).
  unfold CanContractEdge. rewrite H1. cbn [mbind outcome_bind]. rewrite H2. cbn [mbind outcome_bind].
  rewrite H3. cbn [mbind outcome_bind]. rewrite H4. cbn [mbind outcome_bind].
  destruct (contract_restore r E a b G Hab r2 G2 Hk) as (r3 & -> & G3 & Hk3).
  cbn [mbind outcome_bind]. exists (negb reach), r3. split_and!; try done.
  rewrite <- Hreach. destruct reach; naive_solver.
Qed.
