(* ===== verification/GraphContract.v ===== *)
(** * GraphCycles: contraction, new and removed nodes

    ContractEdge, NewNode and RemoveNode of xla/service/graphcycles/graphcycles.cc.
    Contraction ignores the results of the InsertEdge calls it makes; none of
    them can fail, because the contracted graph has no cycle. *)

From Stdlib Require Import ZArith Lia.
From stdpp Require Import relations.
From S2P Require Import Prelude OrderedSet GraphCycles GraphInv GraphDfs GraphReorder GraphInsert.

Definition live (r : Rep) (x : Z) : Prop := in_range (nodes_ r) x /\ x ∉ free_nodes_ r.

Lemma keeps_live r r' x : keeps r r' -> live r' x <-> live r x.
Proof. intros (Hl & Hf & _). unfold live, in_range. by rewrite Hl, Hf. Qed.

(** ** Removing a node *)

Definition without (E : Z -> Z -> Prop) (b : Z) : Z -> Z -> Prop :=
  fun u v => E u v /\ u <> b /\ v <> b.

Lemma GInv_drop r r' E b :
  GInv r E -> live r b -> nodes_ r' = nodes_ r -> free_nodes_ r' = b :: free_nodes_ r ->
  node_data_ r' = node_data_ r ->
  io_view (node_io_ r') (Zlen (nodes_ r)) (without E b) (flip (without E b)) ->
  GInv r' (without E b).
Proof.
  intros G [Hb Hbf] En Ef Ed V. split; rewrite ?En, ?Ef, ?Ed; try apply G; try done.
  - intros x y [Hxy _]. by apply (g_rank G).
  - split; [apply NoDup_cons; split; [done|apply (g_free G)]|].
    intros x [->|Hx]%elem_of_cons.
    + split; [done|]. intros y. unfold without. tauto.
    + destruct (proj2 (g_free G) x Hx) as [Hr Hn]. split; [done|].
      intros y. destruct (Hn y). unfold without. tauto.
Qed.

Lemma no_self_edge r E x : GInv r E -> ~ E x x.
Proof. intros G Hxx%(g_rank G). lia. Qed.

Lemma elem_of_os_empty x : x ∈ GetSequence os_empty <-> False.
Proof. apply elem_of_nil. Qed.

Lemma RemoveNode_OK r E b :
  GInv r E -> live r b ->
  exists r', RemoveNode b r = OK r' /\ GInv r' (without E b) /\ nodes_ r' = nodes_ r /\
    free_nodes_ r' = b :: free_nodes_ r /\ node_data_ r' = node_data_ r.
Proof.
  intros G Hb. unfold RemoveNode. pose proof (g_io G) as V.
  destruct (view_at _ _ _ _ V b (proj1 Hb)) as (io & Hio & _ & Eo & _ & _ & Hoo).
  rewrite Hio. cbn [mbind outcome_bind].
  destruct (in_Erase_loop _ b (GetSequence (out io)) r _ _ V) as (ios1 & -> & V1).
  { by apply os_ok_NoDup. }
  { intros y Hy. by rewrite Eo, (v_out _ _ _ _ V) in Hy. }
  cbn [mbind outcome_bind with_io node_io_].
  destruct (view_at _ _ _ _ V1 b (proj1 Hb)) as (io1 & -> & _ & _ & Ei1 & Hoi1 & _).
  cbn [mbind outcome_bind].
  destruct (out_Erase_loop _ b (GetSequence (in_ io1)) (with_io ios1 r) _ _ V1) as (ios2 & -> & V2).
  { by apply os_ok_NoDup. }
  { intros y Hy. rewrite Ei1, (v_in _ _ _ _ V1) in Hy. apply Hy. }
  cbn [mbind outcome_bind].
  destruct (view_at _ _ _ _ V2 b (proj1 Hb)) as (io2 & Hio2 & _ & _ & _).
  pose proof (no_self_edge r E) as Hself.
  destruct (upd_io_view _ _ _ _ V2 b (fun io => OK (mkNodeIO (Clear (in_ io)) (Clear (out io)))) io2
    (mkNodeIO os_empty os_empty) (without E b) (flip (without E b)) (with_io ios2 (with_io ios1 r)))
    as (ios3 & -> & V3); [done..|apply os_ok_empty|apply os_ok_empty| | |].
  { intros u v. unfold without. case_decide as Hu; cbn [in_ out].
    - rewrite elem_of_os_empty. tauto.
    - rewrite Ei1, (v_in _ _ _ _ V1). cbn beta. rewrite Eo, (v_out _ _ _ _ V).
      unfold flip. specialize (Hself b G). naive_solver. }
  { intros u v. unfold without, flip. case_decide as Hu; cbn [in_ out].
    - rewrite elem_of_os_empty. tauto.
    - rewrite Eo, (v_out _ _ _ _ V). naive_solver. }
  cbn [mbind outcome_bind]. eexists. split; [done|]. split_and!; try done.
  by apply (GInv_drop r _ E b).
Qed.

(** ** The contracted graph *)

(** [b] is replaced by [a]. *)
Definition contracted (C : Z -> Z -> Prop) (a b : Z) : Z -> Z -> Prop :=
  fun u v => without C b u v \/ (u = a /\ C b v) \/ (v = a /\ C u b).

Section Contracted.
Context (C : Z -> Z -> Prop) (a b : Z).
(** No path leads from one of the two nodes to one of them. *)
Hypothesis Hfree : forall s t, s = a \/ s = b -> t = a \/ t = b -> ~ tc C s t.

Definition lift (u u' : Z) : Prop := u' = u \/ (u = a /\ u' = b).

Lemma contracted_lift u v :
  contracted C a b u v -> exists u' v', lift u u' /\ lift v v' /\ C u' v'.
Proof.
  unfold lift. intros [(H & _ & _)|[[-> H]|[-> H]]].
  - exists u, v. tauto.
  - exists b, v. tauto.
  - exists u, b. tauto.
Qed.

(** A path from [a] starts at one of the two nodes after its last visit of [a]. *)
Lemma contracted_path_step z w :
  (z = a \/ exists s z', (s = a \/ s = b) /\ lift z z' /\ tc C s z') ->
  contracted C a b z w -> exists s w', (s = a \/ s = b) /\ lift w w' /\ tc C s w'.
Proof.
  intros Hz (z' & w' & Hlz & Hlw & Hzw)%contracted_lift.
  destruct (decide (z = a)) as [->|Hne].
  - exists z', w'. split; [destruct Hlz as [->|[_ ->]]; tauto|]. split; [done|]. by apply tc_once.
  - destruct Hz as [?|(s & z2 & Hs & Hl2 & Hp)]; [done|]. exists s, w'.
    split; [done|]. split; [done|].
    assert (z' = z) as -> by (destruct Hlz as [?|[? _]]; [done|by destruct Hne]).
    assert (z2 = z) as -> by (destruct Hl2 as [?|[? _]]; [done|by destruct Hne]).
    eapply tc_r; eauto.
Qed.

Lemma contracted_path z :
  rtc (contracted C a b) a z -> z = a \/ exists s z', (s = a \/ s = b) /\ lift z z' /\ tc C s z'.
Proof.
  apply (rtc_ind_r (fun z => z = a \/ exists s z', (s = a \/ s = b) /\ lift z z' /\ tc C s z'));
    [by left|].
  intros z1 z2 _ H12 IH. right. by apply (contracted_path_step z1).
Qed.

Lemma contracted_no_cycle z : rtc (contracted C a b) a z -> ~ contracted C a b z a.
Proof.
  intros Hp%contracted_path Hz. destruct (contracted_path_step z a Hp Hz) as (s & t & Hs & Ht & Hst).
  apply (Hfree s t Hs); [|done]. destruct Ht as [->|[_ ->]]; tauto.
Qed.

(** The edges that [MergeInto] inserts close no cycle. *)
Lemma contracted_out y : C b y -> ~ rtc (contracted C a b) y a.
Proof.
  intros Hy Hp. assert (Ha : contracted C a b a y) by (right; left; done).
  apply rtc_inv_r in Hp as [->|(z & Hz & Hza)].
  - by apply (contracted_no_cycle a).
  - apply (contracted_no_cycle z); [|done]. by eapply rtc_l.
Qed.
Lemma contracted_in y : C y b -> ~ rtc (contracted C a b) a y.
Proof.
  intros Hy Hp. apply (contracted_no_cycle y Hp). right. right. done.
Qed.
End Contracted.

(** ** A loop of insertions whose results are not looked at *)

Definition insert_all (l : list (Z * Z)) (r : Rep) : outcome Rep :=
  foldM (fun r p => '(_, r) ← InsertEdge p.1 p.2 r; OK r) r l.

Lemma insert_all_OK (T : Z -> Z -> Prop) l r E :
  GInv r E -> (forall u v, E u v -> T u v) ->
  (forall p, p ∈ l -> live r p.1 /\ live r p.2 /\ T p.1 p.2 /\ ~ rtc T p.2 p.1) ->
  exists r', insert_all l r = OK r' /\ GInv r' (fun u v => E u v \/ (u, v) ∈ l) /\ keeps r r'.
Proof.
  unfold insert_all. revert r E. induction l as [|[x y] l IH]; intros r E G HE Hl; cbn [foldM].
  - exists r. split; [done|]. split; [|done]. eapply GInv_iff; [exact G|].
    intros u v. rewrite elem_of_nil. tauto.
  - destruct (Hl (x, y)) as (Hx & Hy & HT & Hn); [left|]. simpl in Hx, Hy, HT, Hn.
    destruct (InsertEdge_OK r E x y G Hx Hy) as (ok & r1 & HI & G1 & Hk1 & Hok).
    cbn [fst snd]. rewrite HI. cbn [mbind outcome_bind].
    assert (ok = true) as -> by (destruct ok; [done|]; destruct Hn; by eapply rtc_subrel).
    destruct (IH r1 (add E x y) G1) as (r2 & HR & G2 & Hk2).
    + intros u v [?|[-> ->]]; auto.
    + intros p Hp. rewrite !(keeps_live r r1) by done. apply Hl. by right.
    + exists r2. split; [exact HR|]. split; [|by apply (keeps_trans _ r1)].
      eapply GInv_iff; [exact G2|]. intros u v. unfold add. rewrite elem_of_cons. naive_solver.
Qed.

Lemma insert_all_fmap {A} (g : A -> Z * Z) l r :
  foldM (fun r a => '(_, r) ← InsertEdge (g a).1 (g a).2 r; OK r) r l = insert_all (g <$> l) r.
Proof.
  unfold insert_all. revert r. induction l as [|a l IH]; intros r; cbn [foldM fmap list_fmap]; [done|].
  destruct (InsertEdge (g a).1 (g a).2 r) as [[b r']| | |]; cbn [mbind outcome_bind]; [apply IH|done..].
Qed.

(** ** ContractEdge *)

(** The edges of [b] are taken away and [b] becomes unused. *)
Lemma drop_edges r C b io :
  GInv r C -> live r b -> at_ (node_io_ r) b = OK io ->
  exists ios,
    (r ← upd_io b (fun _ => OK (mkNodeIO os_empty os_empty)) r;
     r ← foldM (fun r y => in_Erase y b r) r (GetSequence (out io));
     foldM (fun r y => out_Erase y b r) r (GetSequence (in_ io))) = OK (with_io ios r) /\
    GInv (with_free (b :: free_nodes_ r) (with_io ios r)) (without C b) /\
    (forall y, y ∈ GetSequence (out io) <-> C b y) /\ (forall y, y ∈ GetSequence (in_ io) <-> C y b).
Proof.
  intros G Hb Hio. pose proof (g_io G) as V.
  destruct (view_at _ _ _ _ V b (proj1 Hb)) as (io' & Hio' & _ & Eo & Ei & Hoi & Hoo).
  rewrite Hio in Hio'. injection Hio' as <-.
  assert (Hout : forall y, y ∈ GetSequence (out io) <-> C b y)
    by (intros y; by rewrite Eo, (v_out _ _ _ _ V)).
  assert (Hin : forall y, y ∈ GetSequence (in_ io) <-> C y b)
    by (intros y; by rewrite Ei, (v_in _ _ _ _ V)).
  pose proof (no_self_edge r C b G) as Hself.
  destruct (upd_io_view _ _ _ _ V b (fun _ => OK (mkNodeIO os_empty os_empty)) io
    (mkNodeIO os_empty os_empty) (fun u v => C u v /\ u <> b) (fun u v => C v u /\ u <> b) r)
    as (ios1 & -> & V1); [done..|apply os_ok_empty|apply os_ok_empty| | |].
  1,2: intros u v; case_decide; cbn [in_ out]; unfold flip; [rewrite elem_of_os_empty|]; tauto.
  cbn [mbind outcome_bind].
  destruct (in_Erase_loop _ b (GetSequence (out io)) (with_io ios1 r) _ _ V1) as (ios2 & -> & V2).
  { by apply os_ok_NoDup. }
  { intros y Hy%Hout. split; [done|]. by intros ->. }
  cbn [mbind outcome_bind].
  destruct (out_Erase_loop _ b (GetSequence (in_ io)) (with_io ios2 (with_io ios1 r)) _ _ V2)
    as (ios3 & -> & V3).
  { by apply os_ok_NoDup. }
  { intros y Hy%Hin. split; [done|]. by intros ->. }
  exists ios3. split; [done|]. split; [|done]. apply (GInv_drop r _ C b); try done.
  eapply io_view_iff; [exact V3| |]; intros u v; cbn beta; unfold without, flip.
  - rewrite Hin. naive_solver.
  - rewrite Hout. naive_solver.
Qed.

Lemma MergeInto_OK r C a b :
  GInv r C -> live r a -> live r b -> a <> b ->
  (forall s t, s = a \/ s = b -> t = a \/ t = b -> ~ tc C s t) ->
  exists r', MergeInto a b r = OK r' /\ GInv r' (contracted C a b) /\
    Zlen (nodes_ r') = Zlen (nodes_ r) /\ free_nodes_ r' = b :: free_nodes_ r /\
    node_data_ r' = node_data_ r.
Proof.
  intros G Ha Hb Hab Hno. unfold MergeInto.
  destruct (view_at _ _ _ _ (g_io G) b (proj1 Hb)) as (io & Hio & _).
  rewrite Hio. cbn [mbind outcome_bind].
  destruct (drop_edges r C b io G Hb Hio) as (ios & HD & G1 & Hout & Hin).
  apply bind_OK in HD as (r1 & -> & HD). cbn [mbind outcome_bind].
  apply bind_OK in HD as (r2 & -> & HD). cbn [mbind outcome_bind].
  rewrite HD. cbn [mbind outcome_bind]. clear r1 r2 HD.
  set (r1 := with_free (b :: free_nodes_ r) (with_io ios r)) in *.
  change (with_free (b :: free_nodes_ (with_io ios r)) (with_io ios r)) with r1.
  assert (Hlive : forall z, live r z -> z <> b -> live r1 z).
  { intros z [Hz Hzf] Hzb. split; [done|]. simpl. rewrite elem_of_cons. tauto. }
  assert (Hnb : forall y, C b y \/ C y b -> live r y /\ y <> a /\ y <> b).
  { intros y Hy. split.
    - destruct Hy as [Hy|Hy]; split;
        (by apply (edge_range G _ _ Hy)) || (by apply (edge_live _ _ _ _ G Hy)).
    - split; intros ->; destruct Hy as [Hy|Hy]; eapply Hno; try (by apply tc_once, Hy); tauto. }
  rewrite (insert_all_fmap (fun y => (a, y))).
  destruct (insert_all_OK (contracted C a b) ((fun y => (a, y)) <$> GetSequence (out io)) r1 _ G1)
    as (r2 & -> & G2 & Hk2).
  { intros u v Huv. by left. }
  { intros p (y & -> & Hy%Hout)%list_elem_of_fmap. simpl.
    destruct (Hnb y) as (Hy1 & _ & Hy2); [by left|]. split_and!; [by apply Hlive..| |].
    - right. by left.
    - by apply contracted_out. }
  cbn [mbind outcome_bind]. rewrite (insert_all_fmap (fun y => (y, a))).
  destruct (insert_all_OK (contracted C a b) ((fun y => (y, a)) <$> GetSequence (in_ io)) r2 _ G2)
    as (r3 & -> & G3 & Hk3).
  { intros u v [Huv|(y & [= -> ->] & Hy%Hout)%list_elem_of_fmap]; [by left|right; by left]. }
  { intros p (y & -> & Hy%Hin)%list_elem_of_fmap. simpl. rewrite !(keeps_live r1 r2) by done.
    destruct (Hnb y) as (Hy1 & _ & Hy2); [by right|]. split_and!; [by apply Hlive..| |].
    - right. by right.
    - by apply contracted_in. }
  exists r3. split; [done|]. split.
  - eapply GInv_iff; [exact G3|]. intros u v. unfold contracted.
    rewrite !list_elem_of_fmap. setoid_rewrite Hout. setoid_rewrite Hin. naive_solver.
  - apply (keeps_trans _ _ _ Hk2) in Hk3. exact Hk3.
Qed.

Lemma tc_mono (R S : Z -> Z -> Prop) x y :
  (forall u v, R u v -> S u v) -> tc R x y -> tc S x y.
Proof. intros HRS. induction 1; [by apply tc_once, HRS|by eapply tc_l; [apply HRS|]]. Qed.

Lemma cut_no_path r E a b :
  GInv r E -> E a b -> ~ rtc (cut E a b) a b ->
  forall s t, s = a \/ s = b -> t = a \/ t = b -> ~ tc (cut E a b) s t.
Proof.
  intros G Hab Hn s t Hs Ht Hp.
  assert (Hp' : tc E s t) by (eapply tc_mono; [|exact Hp]; by intros u v [? _]).
  destruct Hs as [->| ->], Ht as [->| ->].
  - by apply (acyclic G a).
  - by apply Hn, tc_rtc.
  - apply (acyclic G a). eapply tc_l; eauto.
  - by apply (acyclic G b).
Qed.

Lemma ContractEdge_OK r E a b :
  GInv r E -> E a b ->
  exists o r', ContractEdge a b r = OK (o, r') /\
    match o with
    | None => rtc (cut E a b) a b /\ GInv r' E /\ keeps r r'
    | Some c => ~ rtc (cut E a b) a b /\ exists d, (c = a /\ d = b \/ c = b /\ d = a) /\
        GInv r' (contracted (cut E a b) c d) /\ Zlen (nodes_ r') = Zlen (nodes_ r) /\
        free_nodes_ r' = d :: free_nodes_ r /\ node_data_ r' = node_data_ r
    end.
Proof.
  intros G Hab. unfold ContractEdge.
  destruct (contract_test r E a b G Hab) as (has & r1 & reach & r2 & H1 & H2 & H3 & H4 & Hreach & G2 & Hk).
  rewrite H1. cbn [mbind outcome_bind]. rewrite H2. cbn [mbind outcome_bind].
  rewrite H3. cbn [mbind outcome_bind]. rewrite H4. cbn [mbind outcome_bind].
  destruct reach.
  { destruct (contract_restore r E a b G Hab r2 G2 Hk) as (r3 & -> & G3 & Hk3).
    cbn [mbind outcome_bind]. exists None, r3. by rewrite <- Hreach. }
  assert (Hn : ~ rtc (cut E a b) a b) by (rewrite <- Hreach; done).
  pose proof (cut_no_path r E a b G Hab Hn) as Hno.
  destruct (edge_range G a b Hab) as [Ha Hb]. destruct (edge_live r E a b G Hab) as [Hfa Hfb].
  assert (Hla : live r2 a) by (apply (keeps_live r); done).
  assert (Hlb : live r2 b) by (apply (keeps_live r); done).
  assert (Hne : a <> b) by (intros ->; by apply (no_self_edge r E b)).
  destruct (view_at _ _ _ _ (g_io G2) a (proj1 Hla)) as (ioa & -> & _).
  destruct (view_at _ _ _ _ (g_io G2) b (proj1 Hlb)) as (iob & -> & _).
  cbn [mbind outcome_bind].
  assert (Hm : forall c d, (c = a /\ d = b \/ c = b /\ d = a) ->
    exists o r', (r ← MergeInto c d r2; OK (Some c, r)) = OK (o, r') /\ o = Some c /\
      GInv r' (contracted (cut E a b) c d) /\ Zlen (nodes_ r') = Zlen (nodes_ r) /\
      free_nodes_ r' = d :: free_nodes_ r /\ node_data_ r' = node_data_ r).
  { intros c d Hcd.
    destruct (MergeInto_OK r2 (cut E a b) c d G2) as (r3 & -> & G3 & E1 & E2 & E3).
    - by destruct Hcd as [[-> ->]|[-> ->]].
    - by destruct Hcd as [[-> ->]|[-> ->]].
    - destruct Hcd as [[-> ->]|[-> ->]]; congruence.
    - intros s t Hs Ht. apply Hno; naive_solver.
    - destruct Hk as (K1 & K2 & K3). exists (Some c), r3. cbn [mbind outcome_bind].
      split_and!; try done; congruence. }
  destruct (_ >? _).
  - destruct (Hm b a) as (o & r' & HE & -> & HG); [by right|]. exists (Some b), r'.
    split; [exact HE|]. split; [done|]. exists a. split; [by right|done].
  - destruct (Hm a b) as (o & r' & HE & -> & HG); [by left|]. exists (Some a), r'.
    split; [exact HE|]. split; [done|]. exists b. split; [by left|done].
Qed.

(** ** NewNode *)

Lemma idx_snoc {A} (l : list A) a x :
  idx (l ++ [a]) x = if decide (x = Zlen l) then Some a else idx l x.
Proof.
  unfold idx, Zlen. destruct (Z.leb_spec 0 x); [|by rewrite decide_False by lia].
  case_decide as Hx; [subst|].
  - rewrite Nat2Z.id, lookup_app_r by lia. by rewrite Nat.sub_diag.
  - destruct (decide (Z.to_nat x < length l)%nat).
    + by rewrite lookup_app_l.
    + rewrite !lookup_ge_None_2; [done|lia|]. rewrite length_app. simpl. lia.
Qed.

Lemma idx_past_end {A} (l : list A) : idx l (Zlen l) = None.
Proof.
  unfold idx, Zlen. rewrite (proj2 (Z.leb_le _ _)) by lia. apply lookup_ge_None_2. lia.
Qed.

Lemma io_view_snoc ios n O I :
  io_view ios n O I -> io_view (ios ++ [mkNodeIO os_empty os_empty]) (n + 1) O I.
Proof.
  intros [H1 H2 H3 H4]. split.
  - intros z io. rewrite idx_snoc. case_decide; [intros [= <-]|apply H1].
    split; apply os_ok_empty.
  - by rewrite Zlen_app, H2.
  - intros z w. rewrite <- H3. unfold outs_of. rewrite idx_snoc.
    case_decide as Hz; [subst z|done]. by rewrite idx_past_end.
  - intros z w. rewrite <- H4. unfold ins_of. rewrite idx_snoc.
    case_decide as Hz; [subst z|done]. by rewrite idx_past_end.
Qed.

(** The state after a fresh node has been appended. *)
Definition appended (r : Rep) : Rep :=
  with_data (node_data_ r ++ [0])
    (with_io (node_io_ r ++ [mkNodeIO os_empty os_empty])
      (with_nodes (nodes_ r ++ [mkNode (Zlen (nodes_ r)) false]) r)).

Lemma appended_range r z :
  in_range (nodes_ (appended r)) z <-> in_range (nodes_ r) z \/ z = Zlen (nodes_ r).
Proof.
  unfold in_range. simpl. rewrite Zlen_app. pose proof (Zlen_nonneg (nodes_ r)).
  change (Zlen [mkNode (Zlen (nodes_ r)) false]) with 1. lia.
Qed.

Lemma appended_GInv r E : GInv r E -> free_nodes_ r = [] -> GInv (appended r) E.
Proof.
  intros G Ef. set (n := Zlen (nodes_ r)).
  assert (Hl : Zlen (nodes_ (appended r)) = n + 1) by (simpl; by rewrite Zlen_app).
  assert (Hrk : forall z, rank_of (nodes_ (appended r)) z
            = if decide (z = n) then n else rank_of (nodes_ r) z).
  { intros z. unfold rank_of. simpl. rewrite idx_snoc. fold n. by case_decide. }
  assert (Hlt : forall z, in_range (nodes_ r) z -> z <> n /\ 0 <= rank_of (nodes_ r) z < n).
  { intros z Hz. split; [unfold in_range in Hz; lia|by apply (g_bound G)]. }
  split.
  - rewrite Hl. apply io_view_snoc, G.
  - rewrite Hl. simpl. by rewrite Zlen_app, (g_data G).
  - intros z w. rewrite !appended_range, !Hrk. fold n. intros [Hz| ->] [Hw| ->];
      try (pose proof (Hlt _ Hz)); try (pose proof (Hlt _ Hw));
      repeat case_decide; try tauto; try lia. by apply (g_inj G).
  - intros z. rewrite appended_range, Hl, Hrk. fold n. pose proof (Zlen_nonneg (nodes_ r)).
    intros [Hz| ->]; [pose proof (Hlt _ Hz)|]; case_decide; lia.
  - intros z. unfold visited_of. simpl. rewrite idx_snoc. case_decide; [done|].
    exact (g_vis G z).
  - intros z w Hzw. destruct (edge_range G z w Hzw) as [Hz Hw].
    destruct (Hlt z Hz) as [Hz1 _]. destruct (Hlt w Hw) as [Hw1 _].
    rewrite !Hrk, !decide_False by done. by apply (g_rank G).
  - simpl. rewrite Ef. split; [constructor|]. by intros x ?%elem_of_nil.
Qed.

Lemma NewNode_OK r E :
  GInv r E ->
  exists x r', NewNode r = OK (x, r') /\ GInv r' E /\ ~ live r x /\
    (forall z, live r' z <-> live r z \/ z = x) /\
    idx (node_data_ r') x = Some 0 /\
    forall z, z <> x -> idx (node_data_ r') z = idx (node_data_ r) z.
Proof.
  intros G. unfold NewNode. destruct (free_nodes_ r) as [|x free] eqn:Ef.
  - exists (Zlen (nodes_ r)), (appended r). split; [done|]. split; [by apply appended_GInv|].
    assert (Hd : forall z, idx (node_data_ (appended r)) z
              = if decide (z = Zlen (nodes_ r)) then Some 0 else idx (node_data_ r) z).
    { intros z. simpl. by rewrite idx_snoc, (g_data G). }
    split_and!.
    + intros [Hr _]. unfold in_range in Hr. lia.
    + intros z. unfold live. rewrite appended_range. simpl. rewrite Ef, elem_of_nil. tauto.
    + rewrite Hd. by rewrite decide_True.
    + intros z Hz. rewrite Hd. by rewrite decide_False.
  - destruct (g_free G) as [Hnd Hfr]. rewrite Ef in Hnd. apply NoDup_cons in Hnd as [Hx Hnd].
    destruct (Hfr x) as [Hxr Hxe]; [rewrite Ef; left|].
    assert (Hxd : 0 <= x < Zlen (node_data_ r)) by (by rewrite (g_data G)).
    rewrite (proj2 (set_at_OK (node_data_ r) _ x 0) (conj Hxd eq_refl)). cbn [mbind outcome_bind].
    eexists _, _. split; [done|]. split_and!.
    + destruct G as [G1 G2 G3 G4 G5 G6 G7]. split; try done.
      * simpl. unfold Zlen in *. by rewrite length_insert.
      * simpl. split; [done|]. intros z Hz. apply Hfr. rewrite Ef. by right.
    + intros [_ Hf]. apply Hf. rewrite Ef. left.
    + intros z. unfold live. simpl. rewrite Ef, elem_of_cons. split; [|naive_solver].
      intros [Hz Hzf]. destruct (decide (z = x)); [by right|left; tauto].
    + simpl. unfold idx. rewrite (proj2 (Z.leb_le _ _)) by lia.
      apply list_lookup_insert_eq. unfold Zlen in Hxd. lia.
    + intros z Hz. simpl. unfold idx. destruct (Z.leb_spec 0 z); [|done].
      apply list_lookup_insert_ne. lia.
Qed.

(** Node data do not concern the graph. *)
Lemma SetNodeData_OK r E x d :
  GInv r E -> live r x ->
  exists r', SetNodeData x d r = OK r' /\ GInv r' E /\ (forall z, live r' z <-> live r z) /\
    idx (node_data_ r') x = Some d /\
    forall z, z <> x -> idx (node_data_ r') z = idx (node_data_ r) z.
Proof.
  intros G [Hx _]. unfold SetNodeData.
  assert (Hxd : 0 <= x < Zlen (node_data_ r)) by (by rewrite (g_data G)).
  rewrite (proj2 (set_at_OK (node_data_ r) _ x d) (conj Hxd eq_refl)). cbn [mbind outcome_bind].
  eexists. split; [done|]. split_and!; [|done| |].
  - destruct G as [G1 G2 G3 G4 G5 G6 G7]. split; try done.
    simpl. unfold Zlen in *. by rewrite length_insert.
  - simpl. unfold idx. rewrite (proj2 (Z.leb_le _ _)) by lia.
    apply list_lookup_insert_eq. unfold Zlen in Hxd. lia.
  - intros z Hz. simpl. unfold idx. destruct (Z.leb_spec 0 z); [|done].
    apply list_lookup_insert_ne. lia.
Qed.
