(* ===== verification/GraphSpec.v ===== *)
(** * Paths as lists, and the abstract graph that the cycle detection refines. *)

From Stdlib Require Import ZArith Lia.
From stdpp Require Import sorting relations.
From S2P Require Import Prelude OrderedSet GraphCycles GraphInv GraphDfs GraphInsert GraphContract.

(** ** GraphCycles: FindPath and the enumeration of nodes

    FindPath of xla/service/graphcycles/graphcycles.cc keeps the path to the
    current node implicitly, as the markers on its stack; [frames] makes it
    explicit.  The search ends with the fuel it is given. *)

(** ** Paths as lists *)

Record is_path (E : Z -> Z -> Prop) (x y : Z) (p : list Z) : Prop := {
  p_head : head p = Some x;
  p_last : last p = Some y;
  p_edge : forall i u v, p !! i = Some u -> p !! S i = Some v -> E u v;
}.

(** The same from the back: [rp] leads from its last element to its first. *)
Fixpoint chain (E : Z -> Z -> Prop) (x : Z) (rp : list Z) : Prop :=
  match rp with
  | [] => True
  | p :: rp => match rp with [] => p = x | q :: _ => E q p end /\ chain E x rp
  end.

Lemma chain_path E x y rp : chain E x (y :: rp) -> is_path E x y (rev (y :: rp)).
Proof.
  revert y. induction rp as [|q rp IH]; intros y.
  - intros [-> _]. simpl. split; [done..|]. intros [|[|i]] u v; done.
  - intros [Hqy Hc]. destruct (IH q Hc) as [Hh Hl He].
    change (rev (y :: q :: rp)) with (rev (q :: rp) ++ [y]). set (l := rev (q :: rp)) in *.
    split.
    + destruct l; [done|exact Hh].
    + by rewrite last_snoc.
    + intros i u v Hu Hv. destruct (decide (S i < length l)%nat) as [Hi|Hi].
      * rewrite lookup_app_l in Hu, Hv by lia. by eapply He.
      * assert (S i = length l) as Hil.
        { apply lookup_lt_Some in Hv. rewrite length_app in Hv. simpl in Hv. lia. }
        rewrite lookup_app_l in Hu by lia.
        rewrite Hil, lookup_app_r, Nat.sub_diag in Hv by lia. injection Hv as <-.
        rewrite last_lookup, <- Hil in Hl. simpl in Hl. congruence.
Qed.

Lemma is_path_rtc E x y p : is_path E x y p -> rtc E x y.
Proof.
  intros [Hh Hl He]. assert (Hr : forall i v, p !! i = Some v -> rtc E x v).
  { induction i as [|i IH]; intros v Hv.
    - destruct p; [done|]. simpl in *. injection Hh as ->. by injection Hv as ->.
    - destruct (lookup_lt_is_Some_2 p i) as [u Hu]; [apply lookup_lt_Some in Hv; lia|].
      eapply rtc_r; [by apply IH|by eapply He]. }
  rewrite last_lookup in Hl. by eapply Hr.
Qed.

(** In a graph with growing ranks no node occurs twice. *)
Lemma is_path_NoDup E x y p (rk : Z -> Z) :
  (forall u v, E u v -> rk u < rk v) -> is_path E x y p -> NoDup p.
Proof.
  intros Hrk [_ _ He]. assert (Hup : forall d i u v, p !! i = Some u -> p !! (i + S d)%nat = Some v ->
    rk u < rk v).
  { induction d as [|d IH]; intros i u v Hu Hv.
    - apply Hrk, (He i); [done|]. by rewrite Nat.add_1_r in Hv.
    - destruct (lookup_lt_is_Some_2 p (i + S d)) as [w Hw]; [apply lookup_lt_Some in Hv; lia|].
      pose proof (IH i u w Hu Hw). rewrite Nat.add_succ_r in Hv.
      pose proof (Hrk _ _ (He _ _ _ Hw Hv)). lia. }
  apply NoDup_alt. intros i j v Hi Hj.
  destruct (decide (i = j)) as [|Hne]; [done|].
  assert (Hij : (i < j \/ j < i)%nat) by lia. destruct Hij as [Hij|Hij].
  - pose proof (Hup (j - S i)%nat i v v Hi) as H.
    replace (i + S (j - S i))%nat with j in H by lia. specialize (H Hj). lia.
  - pose proof (Hup (i - S j)%nat j v v Hj) as H.
    replace (j + S (i - S j))%nat with i in H by lia. specialize (H Hi). lia.
Qed.

(** ** The search *)

Section FindPath.
Context (ios : list NodeIO) (E I : Z -> Z -> Prop) (x y max : Z).
Hypothesis V : io_view ios (Zlen ios) E I.
Hypothesis HE : forall u v, E u v -> in_range ios v.
Hypothesis Hx : in_range ios x.

(** The stack below the marker of each node of the path holds nodes still to be
    tried from it. *)
Inductive frames : list Z -> list Z -> Prop :=
  | frames_nil ws : Forall (fun w => w = x) ws -> frames [] ws
  | frames_cons p rp ws st :
      Forall (fun w => E p w) ws -> frames rp st -> frames (p :: rp) (ws ++ -1 :: st).

(** The nodes seen or started from are done or on the stack; all successors of a
    node that is done have been seen; [y] is not done. *)
Record covered (seen done : gset Z) (st : list Z) : Prop := {
  c_seen : forall w, w = x \/ w ∈ seen -> w ∈ done \/ w ∈ st;
  c_succ : forall v w, v ∈ done -> E v w -> w ∈ seen;
  c_goal : y ∉ done;
  c_range : forall w, w ∈ seen -> in_range ios w;
}.

Definition weight (w : Z) : nat := if w <? 0 then 1 else 2.
Definition measure (st : list Z) (seen : gset Z) : nat :=
  (sum_list_with weight st + 2 * (length ios - size seen))%nat.

Lemma seen_size (seen : gset Z) : (forall w, w ∈ seen -> in_range ios w) -> (size seen <= length ios)%nat.
Proof.
  intros Hs. transitivity (size (list_to_set (indices ios) : gset Z)).
  - apply subseteq_size. intros w Hw. apply elem_of_list_to_set, elem_of_indices. by apply Hs.
  - rewrite size_list_to_set by apply NoDup_seqZ. unfold indices. rewrite length_seqZ. unfold Zlen. lia.
Qed.

(** The loop that pushes the successors not seen yet. *)
Lemma push_unseen (ws : list Z) (seen : gset Z) (st : list Z) :
  exists (new : list Z) (seen' : gset Z), foldl (fun '(seen, stack) w =>
      if decide (w ∈ seen) then (seen, stack) else ({[w]} ∪ seen, w :: stack)) (seen, st) ws
    = (seen', new ++ st) /\
    (forall w, w ∈ new -> w ∈ ws) /\ (forall w, w ∈ seen' <-> w ∈ seen \/ w ∈ new) /\
    (forall w, w ∈ ws -> w ∈ seen') /\ size seen' = (size seen + length new)%nat.
Proof.
  revert seen st. induction ws as [|w ws IH]; intros seen st; cbn [foldl].
  - exists [], seen. split_and!; try done;
      [intros; rewrite elem_of_nil; tauto|by intros w ?%elem_of_nil].
  - destruct (decide (w ∈ seen)) as [Hw|Hw].
    + destruct (IH seen st) as (new & seen' & HF & H1 & H2 & H3 & H4). exists new, seen'.
      split; [exact HF|]. split_and!; try done.
      * intros v Hv. right. by apply H1.
      * intros v [->|Hv]%elem_of_cons; [|by apply H3]. apply H2. by left.
    + destruct (IH ({[w]} ∪ seen) (w :: st)) as (new & seen' & HF & H1 & H2 & H3 & H4).
      exists (new ++ [w]), seen'. split; [by rewrite <- app_assoc|].
      rewrite size_union, size_singleton in H4 by (intros v ->%elem_of_singleton; done).
      split_and!.
      * intros v [Hv| ->%list_elem_of_singleton]%elem_of_app; [right; by apply H1|left].
      * intros v. rewrite H2, elem_of_union, elem_of_singleton, elem_of_app, list_elem_of_singleton. tauto.
      * intros v [->|Hv]%elem_of_cons; [|by apply H3]. apply H2. left. by apply elem_of_union_l, elem_of_singleton.
      * rewrite length_app. cbn [length]. lia.
Qed.

Lemma sum_weight_app l k :
  sum_list_with weight (l ++ k) = (sum_list_with weight l + sum_list_with weight k)%nat.
Proof. apply sum_list_with_app. Qed.

Lemma sum_weight_nonneg l : (forall w, w ∈ l -> 0 <= w) -> sum_list_with weight l = (2 * length l)%nat.
Proof.
  induction l as [|w l IH]; intros Hl; [done|]. cbn [sum_list_with length]. rewrite IH.
  - unfold weight. rewrite (proj2 (Z.ltb_ge _ _)); [lia|]. apply Hl. left.
  - intros v Hv. apply Hl. by right.
Qed.

(** The entries of the caller's array agree with the path. *)
Definition written (rp path : list Z) : Prop :=
  forall i v, rev rp !! i = Some v -> Z.of_nat i < max -> path !! i = Some v.

Lemma write_next rp path n :
  written rp path -> max <= Zlen path ->
  exists path', (if Zlen rp <? max then set_at path (Zlen rp) n else OK path) = OK path' /\
    written (n :: rp) path' /\ Zlen path' = Zlen path.
Proof.
  intros HW Hm. assert (Hr : Zlen rp = Z.of_nat (length (rev rp))) by (unfold Zlen; by rewrite length_rev).
  destruct (Z.ltb_spec (Zlen rp) max) as [Hlt|Hge].
  - exists (<[Z.to_nat (Zlen rp) := n]> path). split.
    { apply set_at_OK. split; [pose proof (Zlen_nonneg rp); lia|done]. }
    split; [|unfold Zlen; by rewrite length_insert].
    intros i v Hv Hi. cbn [rev] in Hv. rewrite Hr, Nat2Z.id.
    destruct (decide (i < length (rev rp))%nat) as [Hl|Hl].
    + rewrite list_lookup_insert_ne by lia. rewrite lookup_app_l in Hv by done. by apply HW.
    + assert (i = length (rev rp)) as ->.
      { apply lookup_lt_Some in Hv. rewrite length_app in Hv. simpl in Hv. lia. }
      rewrite lookup_app_r, Nat.sub_diag in Hv by lia. injection Hv as ->.
      apply list_lookup_insert_eq. unfold Zlen in *. lia.
  - exists path. split; [done|]. split; [|done]. intros i v Hv Hi. cbn [rev] in Hv.
    rewrite lookup_app_l in Hv by lia. by apply HW.
Qed.

Lemma written_tail p rp path : written (p :: rp) path -> written rp path.
Proof.
  intros HW i v Hv Hi. apply HW; [|done]. cbn [rev]. rewrite lookup_app_l; [done|].
  by eapply lookup_lt_Some.
Qed.

(** The top of the stack is a marker or a node to be tried next. *)
Lemma frames_pop rp n st :
  frames rp (n :: st) -> chain E x rp ->
  (n = -1 /\ exists p rp', rp = p :: rp' /\ frames rp' st /\ chain E x rp') \/
  (in_range ios n /\ frames rp st /\ chain E x (n :: rp)).
Proof.
  intros HF Hc. inversion HF as [ws Hws|p rp' ws st0 Hws Hst]; subst.
  - right. apply Forall_cons in Hws as [-> Hws]. split; [done|].
    split; [by constructor|done].
  - destruct ws as [|w ws]; simplify_eq/=.
    + left. split; [done|]. exists p, rp'. split; [done|]. split; [done|apply Hc].
    + right. apply Forall_cons in Hws as [Hw Hws]. split; [by eapply HE|].
      split; [by constructor|]. done.
Qed.

Lemma FindPath_loop_OK fuel st seen done rp path :
  frames rp st -> chain E x rp -> covered seen done st -> written rp path ->
  max <= Zlen path -> (measure st seen < fuel)%nat ->
  exists len path' st', FindPath_loop fuel ios y max st seen (Zlen rp) path = OK (len, path', st') /\
    Zlen path' = Zlen path /\
    ((len = 0 /\ ~ rtc E x y) \/
     exists rp', len = Zlen (y :: rp') /\ chain E x (y :: rp') /\ written (y :: rp') path').
Proof.
  revert st seen done rp path. induction fuel as [|fuel IH];
    intros st seen done rp path HF Hc Hcov HW Hm Hfuel; [lia|].
  cbn [FindPath_loop]. destruct st as [|n st].
  { exists 0, path, []. split; [done|]. split; [done|]. left. split; [done|]. intros Hp.
    destruct Hcov as [Hseen Hsucc Hgoal _]. apply Hgoal. revert Hp.
    assert (Hd : forall w, w = x \/ w ∈ seen -> w ∈ done).
    { intros w Hw. destruct (Hseen w Hw) as [?|?%elem_of_nil]; done. }
    apply (rtc_ind_r (fun z => z ∈ done)); [apply Hd; by left|].
    intros u v _ Huv Hu. apply Hd. right. by apply (Hsucc u). }
  destruct (frames_pop rp n st HF Hc) as [(-> & p & rp' & -> & HF' & Hc')|(Hn & HF' & Hc')].
  { cbn [Z.ltb Z.compare]. replace (Zlen (p :: rp') - 1) with (Zlen rp')
      by (unfold Zlen; simpl; lia).
    apply (IH st seen done rp' path); [done|done| |by eapply written_tail|done|].
    - destruct Hcov as [Hseen Hsucc Hgoal Hr]. split; try done. intros w Hw.
      destruct (Hseen w Hw) as [?|[->|?]%elem_of_cons]; [by left| |by right].
      exfalso. assert (Hneg : in_range ios (-1)) by (destruct Hw as [->|Hw]; [done|by apply Hr]).
      unfold in_range in Hneg. lia.
    - unfold measure in *. cbn [sum_list_with] in Hfuel. unfold weight at 1 in Hfuel. simpl in Hfuel. lia. }
  assert (Hn0 : 0 <= n) by (unfold in_range in Hn; lia).
  rewrite (proj2 (Z.ltb_ge n 0)) by done.
  destruct (write_next rp path n HW Hm) as (path1 & -> & HW1 & Hl1). cbn [mbind outcome_bind].
  assert (Elen : Zlen rp + 1 = Zlen (n :: rp)) by (unfold Zlen; simpl; lia). rewrite Elen.
  destruct (Z.eqb_spec n y) as [->|Hny].
  { exists (Zlen (y :: rp)), path1, (-1 :: st). split; [done|]. split; [done|]. right. by exists rp. }
  destruct (view_at _ _ _ _ V n Hn) as (io & -> & _ & Eo & _). cbn [mbind outcome_bind]. rewrite Eo.
  destruct (push_unseen (outs_of ios n) seen (-1 :: st)) as (new & seen' & -> & N1 & N2 & N3 & N4).
  assert (Hnew : forall w, w ∈ new -> E n w) by (intros w Hw%N1; by apply (v_out _ _ _ _ V)).
  assert (Hseen' : forall w, w ∈ seen' -> in_range ios w).
  { intros w [Hw|Hw]%N2; [by apply Hcov|by eapply HE, Hnew]. }
  destruct (IH (new ++ -1 :: st) seen' ({[n]} ∪ done) (n :: rp) path1)
    as (len & path2 & st2 & HL & Hl2 & Hres); try done.
  - constructor; [|done]. apply Forall_forall. intros w Hw. by apply Hnew.
  - destruct Hcov as [Hseen Hsucc Hgoal Hr]. split; try done.
    + intros w Hw. rewrite elem_of_union, elem_of_singleton, elem_of_app, elem_of_cons.
      destruct Hw as [Hw|[Hw|Hw]%N2]; [| |tauto];
        (destruct (Hseen w) as [?|[->|?]%elem_of_cons]; [by left + by right|tauto..]).
    + intros v w [->%elem_of_singleton|Hv]%elem_of_union Hvw.
      * apply N3. by apply (v_out _ _ _ _ V).
      * apply N2. left. by eapply Hsucc.
    + rewrite elem_of_union, elem_of_singleton. intros [->|?]; done.
  - lia.
  - pose proof (seen_size seen' Hseen'). unfold measure in *. cbn [sum_list_with] in Hfuel.
    rewrite sum_weight_app. cbn [sum_list_with].
    rewrite sum_weight_nonneg by (intros w Hw%Hnew%HE; unfold in_range in Hw; lia).
    assert (weight n = 2%nat) as Ew by (unfold weight; by rewrite (proj2 (Z.ltb_ge n 0))).
    assert (weight (-1) = 1%nat) as -> by done. rewrite Ew in Hfuel. lia.
  - exists len, path2, st2. split; [exact HL|]. split; [congruence|done].
Qed.
End FindPath.

Lemma FindPath_OK r E x y max path :
  GInv r E -> in_range (nodes_ r) x -> max <= Zlen path ->
  exists len path' st, FindPath x y max path r = OK (len, path', with_stack st r) /\
    Zlen path' = Zlen path /\
    ((len = 0 /\ ~ rtc E x y) \/
     exists p, len = Zlen p /\ is_path E x y p /\ NoDup p /\
       forall i v, p !! i = Some v -> Z.of_nat i < max -> path' !! i = Some v).
Proof.
  intros G Hx Hm. unfold FindPath. pose proof (g_io G) as V.
  rewrite <- (v_len _ _ _ _ V) in V.
  assert (Hr : forall z, in_range (node_io_ r) z <-> in_range (nodes_ r) z)
    by (intros z; unfold in_range; by rewrite (v_len _ _ _ _ (g_io G))).
  destruct (FindPath_loop_OK (node_io_ r) E (flip E) x y max V) with
    (fuel := (2 * length (node_io_ r) + 4)%nat) (st := [x]) (seen := (∅ : gset Z))
    (done := (∅ : gset Z)) (rp := @nil Z) (path := path)
    as (len & path' & st & HL & Hl & Hres); try done.
  - intros u v Huv. apply Hr. by apply (edge_range G u v).
  - by apply Hr.
  - constructor. by constructor.
  - split.
    + intros w [->|?%elem_of_empty]; [right; left|done].
    + by intros v w ?%elem_of_empty.
    + by intros ?%elem_of_empty.
    + by intros w ?%elem_of_empty.
  - unfold measure. cbn [sum_list_with]. rewrite size_empty. unfold weight. case_match; lia.
  - change (Zlen (@nil Z)) with 0 in HL. rewrite HL. cbn [mbind outcome_bind].
    exists len, path', st. split; [done|]. split; [done|].
    destruct Hres as [?|(rp & -> & Hc & HW)]; [by left|]. right. exists (rev (y :: rp)).
    pose proof (chain_path _ _ _ _ Hc) as Hp. split_and!; try done.
    + unfold Zlen. by rewrite length_rev.
    + eapply is_path_NoDup; [|exact Hp]. apply (g_rank G).
Qed.

Lemma IsReachable_OK r E x y :
  GInv r E -> in_range (nodes_ r) x ->
  exists b st, IsReachable x y r = OK (b, with_stack st r) /\ (b = true <-> rtc E x y).
Proof.
  intros G Hx. unfold IsReachable.
  destruct (FindPath_OK r E x y 0 [] G Hx) as (len & path & st & -> & _ & Hres); [done|].
  cbn [mbind outcome_bind]. exists (0 <? len), st. split; [done|].
  rewrite Z.ltb_lt. destruct Hres as [[-> Hn]|(p & -> & Hp & _)].
  - split; [lia|done].
  - split; [intros _; by eapply is_path_rtc|]. intros _. destruct Hp as [Hh _ _].
    destruct p; [done|]. unfold Zlen. simpl. lia.
Qed.

(** ** GraphCycles: the specification

    A client of xla/service/graphcycles/graphcycles.h sees a directed graph: the
    nodes with their data and the edges ([graph]).  [represents] relates it to
    the state; each operation of the class is the operation of the same name on
    graphs. *)

(** ** Graphs *)

Record graph := mkGraph {
  gnodes : gmap Z Z;
  gedges : gset (Z * Z);
}.

Definition edge (g : graph) (x y : Z) : Prop := (x, y) ∈ gedges g.
(** Reachability by zero or more edges. *)
Definition path (g : graph) : Z -> Z -> Prop := rtc (edge g).

Definition empty_graph : graph := mkGraph ∅ ∅.
Definition set_data (x d : Z) (g : graph) : graph := mkGraph (<[x := d]> (gnodes g)) (gedges g).
Definition add_edge (x y : Z) (g : graph) : graph := mkGraph (gnodes g) ({[(x, y)]} ∪ gedges g).
Definition remove_edge (x y : Z) (g : graph) : graph := mkGraph (gnodes g) (gedges g ∖ {[(x, y)]}).
Definition remove_node (x : Z) (g : graph) : graph :=
  mkGraph (delete x (gnodes g)) (filter (fun e => e.1 <> x /\ e.2 <> x) (gedges g)).

(** Node [b] merges into [a]: its edges become edges of [a]. *)
Definition rename (a b z : Z) : Z := if decide (z = b) then a else z.
Definition merge_node (a b : Z) (g : graph) : graph :=
  mkGraph (delete b (gnodes g))
    (set_map (fun e => (rename a b e.1, rename a b e.2)) (gedges g)).

(** ** The representation *)

Record represents (r : Rep) (g : graph) : Prop := {
  r_inv : GInv r (edge g);
  r_nodes : forall x d, gnodes g !! x = Some d <-> live r x /\ idx (node_data_ r) x = Some d;
}.

Lemma represents_live r g x : represents r g -> live r x <-> x ∈ dom (gnodes g).
Proof.
  intros [G Hn]. rewrite elem_of_dom. split.
  - intros Hl. destruct (proj1 (idx_in_range_iff (node_data_ r) x)) as [d Hd].
    { unfold in_range. rewrite (g_data G). apply Hl. }
    exists d. by apply Hn.
  - intros [d Hd]. by apply Hn in Hd as [? _].
Qed.

Lemma represents_edge r g x y :
  represents r g -> edge g x y -> x ∈ dom (gnodes g) /\ y ∈ dom (gnodes g).
Proof.
  intros HR He. rewrite <- !(represents_live r g) by done. destruct HR as [G _].
  pose proof (edge_range G x y He) as [? ?]. by destruct (edge_live r _ x y G He).
Qed.

Lemma represents_acyclic r g x : represents r g -> ~ tc (edge g) x x.
Proof. intros [G _]. apply (acyclic G). Qed.

Lemma represents_new : represents GraphCycles_new empty_graph.
Proof.
  split.
  - split; simpl.
    + split; simpl; [|done| |]; intros x y; unfold outs_of, ins_of, edge, flip, idx;
        rewrite lookup_nil; destruct (0 <=? x); set_solver.
    + done.
    + intros x y Hx. unfold in_range, Zlen in Hx. simpl in Hx. lia.
    + intros x Hx. unfold in_range, Zlen in Hx. simpl in Hx. lia.
    + intros x. unfold visited_of, idx. rewrite lookup_nil. by destruct (0 <=? x).
    + intros x y. unfold edge. set_solver.
    + split; [constructor|]. by intros x ?%elem_of_nil.
  - intros x d. simpl. rewrite lookup_empty. split; [done|]. intros [[Hx _] _].
    unfold in_range, Zlen in Hx. simpl in Hx. lia.
Qed.

(** Changes of the edges that keep the nodes. *)
Lemma represents_edges r r' g g' :
  represents r g -> keeps r r' -> gnodes g' = gnodes g -> GInv r' (edge g') -> represents r' g'.
Proof.
  intros [G Hn] Hk En G'. split; [done|]. intros x d.
  rewrite En, Hn, (keeps_live r r' x Hk). by destruct Hk as (_ & _ & ->).
Qed.

(** A node goes, the data stay. *)
Lemma represents_drop r r' g g' b :
  represents r g -> Zlen (nodes_ r') = Zlen (nodes_ r) -> free_nodes_ r' = b :: free_nodes_ r ->
  node_data_ r' = node_data_ r -> gnodes g' = delete b (gnodes g) -> GInv r' (edge g') ->
  represents r' g'.
Proof.
  intros [G Hn] El Ef Ed En G'. split; [done|]. intros x d.
  rewrite En, lookup_delete_Some, Hn, Ed. unfold live, in_range. rewrite El, Ef, not_elem_of_cons.
  naive_solver.
Qed.

(** ** Operations *)

Section Operations.
Context (r : Rep) (g : graph).
Hypothesis HR : represents r g.
#[local] Abbreviation nodes := (dom (gnodes g)).

Lemma NewNode_represents :
  exists x r', NewNode r = OK (x, r') /\ x ∉ nodes /\ represents r' (set_data x 0 g).
Proof.
  destruct (NewNode_OK r _ (r_inv _ _ HR)) as (x & r' & HN & G' & Hx & Hl & Hd & Hd').
  exists x, r'. split; [done|]. split; [by rewrite <- (represents_live r g)|].
  split; [exact G'|]. intros z d. simpl. rewrite Hl.
  destruct (decide (z = x)) as [->|Hne].
  - rewrite lookup_insert_eq, Hd. naive_solver.
  - rewrite lookup_insert_ne, (r_nodes _ _ HR), Hd' by done. naive_solver.
Qed.

Lemma SetNodeData_represents x d :
  x ∈ nodes -> exists r', SetNodeData x d r = OK r' /\ represents r' (set_data x d g).
Proof.
  intros Hx%(represents_live _ _ _ HR).
  destruct (SetNodeData_OK r _ x d (r_inv _ _ HR) Hx) as (r' & HN & G' & Hl & Hd & Hd').
  exists r'. split; [done|]. split; [exact G'|]. intros z d'. simpl. rewrite Hl.
  destruct (decide (z = x)) as [->|Hne].
  - rewrite lookup_insert_eq, Hd. naive_solver.
  - by rewrite lookup_insert_ne, (r_nodes _ _ HR), Hd' by done.
Qed.

Lemma GetNodeData_represents x d : gnodes g !! x = Some d -> GetNodeData x r = OK d.
Proof. intros [_ Hd]%(r_nodes _ _ HR). by apply at_OK. Qed.

Lemma RemoveNode_represents x :
  x ∈ nodes -> exists r', RemoveNode x r = OK r' /\ represents r' (remove_node x g).
Proof.
  intros Hx%(represents_live _ _ _ HR).
  destruct (RemoveNode_OK r _ x (r_inv _ _ HR) Hx) as (r' & HN & G' & En & Ef & Ed).
  exists r'. split; [done|]. apply (represents_drop r r' g _ x); try done; [by rewrite En|].
  eapply GInv_iff; [exact G'|]. intros u v. unfold without, edge. simpl. set_solver.
Qed.

Lemma HasEdge_represents x y :
  x ∈ nodes -> exists b, HasEdge x y r = OK b /\ (b = true <-> edge g x y).
Proof.
  intros [Hx _]%(represents_live _ _ _ HR). apply HasEdge_OK; [apply HR|done].
Qed.

Lemma RemoveEdge_represents x y :
  edge g x y -> exists r', RemoveEdge x y r = OK r' /\ represents r' (remove_edge x y g).
Proof.
  intros He. destruct (RemoveEdge_OK r _ x y (r_inv _ _ HR) He) as (ios & HN & G').
  eexists. split; [exact HN|]. apply (represents_edges r _ g); try done.
  eapply GInv_iff; [exact G'|]. intros u v. unfold edge. simpl.
  rewrite elem_of_difference, elem_of_singleton. naive_solver.
Qed.

Lemma InsertEdge_represents x y :
  x ∈ nodes -> y ∈ nodes ->
  exists b r', InsertEdge x y r = OK (b, r') /\ (if b then ~ path g y x else path g y x) /\
    represents r' (if b then add_edge x y g else g).
Proof.
  intros Hx%(represents_live _ _ _ HR) Hy%(represents_live _ _ _ HR).
  destruct (InsertEdge_OK r _ x y (r_inv _ _ HR) Hx Hy) as (b & r' & HN & G' & Hk & Hb).
  exists b, r'. split; [done|]. split; [done|].
  apply (represents_edges r _ g); [done..|by destruct b|].
  eapply GInv_iff; [exact G'|]. intros u v. destruct b; [|done].
  unfold edge, add. simpl. rewrite elem_of_union, elem_of_singleton. naive_solver.
Qed.

Lemma cut_remove_edge a b u v : cut (edge g) a b u v <-> edge (remove_edge a b g) u v.
Proof.
  unfold cut, edge. simpl. rewrite elem_of_difference, elem_of_singleton. naive_solver.
Qed.
End Operations.

Lemma contracted_iff (C C' : Z -> Z -> Prop) a b u v :
  (forall x y, C x y <-> C' x y) -> contracted C a b u v <-> contracted C' a b u v.
Proof. intros HC. unfold contracted, without. by rewrite !HC. Qed.

Lemma contracted_merge g a b u v :
  ~ edge g b b -> contracted (edge g) a b u v <-> edge (merge_node a b g) u v.
Proof.
  intros Hb. unfold edge, contracted, without, merge_node, rename. simpl.
  rewrite elem_of_map. split.
  - intros [(He & Hu & Hv)|[[-> He]|[-> He]]].
    + exists (u, v). by rewrite !decide_False.
    + exists (b, v). cbn [fst snd]. rewrite decide_True by done.
      rewrite decide_False; [done|]. by intros ->.
    + exists (u, b). cbn [fst snd]. rewrite (decide_True (P := b = b)) by done.
      rewrite decide_False; [done|]. by intros ->.
  - intros ([u' v'] & [= -> ->] & He). unfold edge in Hb. cbn [fst snd].
    destruct (decide (u' = b)) as [->|Hu], (decide (v' = b)) as [->|Hv]; tauto.
Qed.

Lemma ContractEdge_represents r g a b :
  represents r g -> edge g a b ->
  exists o r', ContractEdge a b r = OK (o, r') /\
    match o with
    | None => path (remove_edge a b g) a b /\ represents r' g
    | Some c => ~ path (remove_edge a b g) a b /\ exists d, (c = a /\ d = b \/ c = b /\ d = a) /\
        represents r' (merge_node c d (remove_edge a b g))
    end.
Proof.
  intros HR He.
  destruct (ContractEdge_OK r _ a b (r_inv _ _ HR) He) as (o & r' & HC & Hres).
  assert (Hpath : rtc (cut (edge g) a b) a b <-> path (remove_edge a b g) a b).
  { split; apply rtc_subrel; intros u v; apply cut_remove_edge. }
  exists o, r'. split; [done|]. destruct o as [c|].
  - destruct Hres as (Hn & d & Hcd & G' & El & Ef & Ed). split; [by rewrite <- Hpath|].
    exists d. split; [done|]. apply (represents_drop r r' g _ d); try done.
    eapply GInv_iff; [exact G'|]. intros u v.
    rewrite (contracted_iff _ (edge (remove_edge a b g))) by apply cut_remove_edge.
    apply contracted_merge. intros Hdd%cut_remove_edge. destruct Hdd as [Hdd _].
    by apply (no_self_edge r (edge g) d (r_inv _ _ HR)).
  - destruct Hres as (Hp & G' & Hk). split; [by apply Hpath|].
    by apply (represents_edges r _ g).
Qed.

Lemma CanContractEdge_represents r g a b :
  represents r g -> edge g a b ->
  exists ok r', CanContractEdge a b r = OK (ok, r') /\
    (ok = true <-> ~ path (remove_edge a b g) a b) /\ represents r' g.
Proof.
  intros HR He.
  destruct (CanContractEdge_OK r _ a b (r_inv _ _ HR) He) as (ok & r' & HC & Hok & G' & Hk).
  assert (Hpath : rtc (cut (edge g) a b) a b <-> path (remove_edge a b g) a b).
  { split; apply rtc_subrel; intros u v; apply cut_remove_edge. }
  exists ok, r'. split; [done|]. split; [by rewrite Hok, Hpath|]. by apply (represents_edges r _ g).
Qed.

Lemma IsReachableNonConst_represents r g x y :
  represents r g -> x ∈ dom (gnodes g) -> y ∈ dom (gnodes g) ->
  exists b r', IsReachableNonConst x y r = OK (b, r') /\ (b = true <-> path g x y) /\ represents r' g.
Proof.
  intros HR [Hx _]%(represents_live _ _ _ HR) [Hy _]%(represents_live _ _ _ HR).
  destruct (IsReachableNonConst_OK r _ x y (r_inv _ _ HR) Hx Hy) as (b & r' & HC & Hb & G' & Hk & _).
  exists b, r'. split; [done|]. split; [done|]. by apply (represents_edges r _ g).
Qed.

(** Searches only write the stack. *)
Lemma represents_stack r g st : represents r g -> represents (with_stack st r) g.
Proof.
  intros [G Hn]. split; [|exact Hn]. destruct G. by split.
Qed.

(** ** Enumerating and checking *)

#[global] Instance flip_rank_le_trans ns : Transitive (flip (rank_le ns)).
Proof. intros x y z. unfold flip, rank_le. lia. Qed.
#[global] Instance flip_rank_le_total ns : Total (flip (rank_le ns)).
Proof. intros x y. unfold flip, rank_le. lia. Qed.

Lemma AllNodesInPostOrder_perm r :
  AllNodesInPostOrder r ≡ₚ filter (fun i => i ∉ free_nodes_ r) (indices (nodes_ r)).
Proof. apply merge_sort_Permutation. Qed.

Lemma AllNodesInPostOrder_elem r x : x ∈ AllNodesInPostOrder r <-> live r x.
Proof. rewrite AllNodesInPostOrder_perm, list_elem_of_filter, elem_of_indices. unfold live, in_range. tauto. Qed.

Lemma AllNodesInPostOrder_NoDup r : NoDup (AllNodesInPostOrder r).
Proof. rewrite AllNodesInPostOrder_perm. apply NoDup_filter, NoDup_seqZ. Qed.

Lemma AllNodesInPostOrder_sorted r i j x y :
  AllNodesInPostOrder r !! i = Some x -> AllNodesInPostOrder r !! j = Some y -> (i < j)%nat ->
  rank_of (nodes_ r) y <= rank_of (nodes_ r) x.
Proof.
  intros Hx Hy Hij. eapply (sorted_lookup (flip (rank_le (nodes_ r)))); [|done..].
  apply (StronglySorted_merge_sort _).
Qed.

Lemma CheckInvariants_OK r E : GInv r E -> CheckInvariants r = OK true.
Proof.
  intros G. unfold CheckInvariants.
  match goal with |- (foldM ?f ?b ?l ≫= _) = _ =>
    destruct (foldM_total (fun l1 ranks => forall k, k ∈ ranks <-> exists z, z ∈ l1 /\ rank_of (nodes_ r) z = k)
      f l b) as (ranks & -> & _) end; [| |done].
  - intros k. setoid_rewrite elem_of_nil. set_solver.
  - intros l1 x l2 ranks Hl HP.
    assert (Hx : in_range (nodes_ r) x).
    { apply elem_of_indices. rewrite Hl. apply elem_of_app. right. left. }
    assert (Hl1 : forall z, z ∈ l1 -> in_range (nodes_ r) z /\ z <> x).
    { intros z Hz. split; [apply elem_of_indices; rewrite Hl; apply elem_of_app; by left|].
      intros ->. pose proof (NoDup_seqZ 0 (Zlen (nodes_ r))) as Hnd.
      change (seqZ 0 (Zlen (nodes_ r))) with (indices (nodes_ r)) in Hnd. rewrite Hl in Hnd.
      apply NoDup_app in Hnd as (_ & Hd & _). apply (Hd x Hz). left. }
    rewrite at_node by done. cbn [mbind outcome_bind visited rank].
    rewrite (g_vis G). cbn [negb check mbind outcome_bind].
    rewrite bool_decide_false.
    2: { intros (z & Hz & Hzx)%HP. destruct (Hl1 z Hz) as [Hz1 Hz2]. by apply Hz2, (g_inj G). }
    cbn [negb check mbind outcome_bind].
    destruct (view_at _ _ _ _ (g_io G) x Hx) as (io & -> & _ & Eo & _). cbn [mbind outcome_bind].
    rewrite (proj2 (forM_OK _ _ ())).
    2: { apply Forall_forall. intros y Hy. rewrite Eo, (v_out _ _ _ _ (g_io G)) in Hy.
      rewrite at_node by (by apply (edge_range G x y)). cbn [mbind outcome_bind rank].
      rewrite (proj2 (Z.ltb_lt _ _)); [done|]. by apply (g_rank G). }
    cbn [mbind outcome_bind]. eexists. split; [done|].
    intros k. rewrite elem_of_union, elem_of_singleton, HP. setoid_rewrite elem_of_app.
    setoid_rewrite list_elem_of_singleton. naive_solver.
Qed.
