(* ===== verification/GraphTheorems.v ===== *)
(** * GraphCycles: the theorems

    Every operation of xla/service/graphcycles/graphcycles.cc refines the graph
    operation of its name; sequences of legal calls never crash and keep the
    graph acyclic. *)

From Stdlib Require Import ZArith Lia.
From stdpp Require Import sorting relations.
From S2P Require Import Prelude OrderedSet GraphCycles GraphInv GraphInsert GraphContract GraphSpec.

(** ** Calls of a client *)

Inductive call :=
  | call_NewNode
  | call_RemoveNode (x : Z)
  | call_SetNodeData (x d : Z)
  | call_InsertEdge (x y : Z)
  | call_RemoveEdge (x y : Z)
  | call_ContractEdge (a b : Z)
  | call_CanContractEdge (a b : Z)
  | call_IsReachable (x y : Z)
  | call_IsReachableNonConst (x y : Z).

Inductive result :=
  | ret_unit
  | ret_node (x : Z)
  | ret_bool (b : bool)
  | ret_option (o : option Z).

Definition exec (c : call) (r : Rep) : outcome (result * Rep) :=
  match c with
  | call_NewNode => '(x, r) ← NewNode r; OK (ret_node x, r)
  | call_RemoveNode x => r ← RemoveNode x r; OK (ret_unit, r)
  | call_SetNodeData x d => r ← SetNodeData x d r; OK (ret_unit, r)
  | call_InsertEdge x y => '(b, r) ← InsertEdge x y r; OK (ret_bool b, r)
  | call_RemoveEdge x y => r ← RemoveEdge x y r; OK (ret_unit, r)
  | call_ContractEdge a b => '(o, r) ← ContractEdge a b r; OK (ret_option o, r)
  | call_CanContractEdge a b => '(b, r) ← CanContractEdge a b r; OK (ret_bool b, r)
  | call_IsReachable x y => '(b, r) ← IsReachable x y r; OK (ret_bool b, r)
  | call_IsReachableNonConst x y => '(b, r) ← IsReachableNonConst x y r; OK (ret_bool b, r)
  end.

(** The obligations of the client: nodes are in use, edges to be removed or
    contracted exist. *)
Definition legal (g : graph) (c : call) : Prop :=
  let nodes := dom (gnodes g) in
  match c with
  | call_NewNode => True
  | call_RemoveNode x | call_SetNodeData x _ => x ∈ nodes
  | call_RemoveEdge x y | call_ContractEdge x y | call_CanContractEdge x y => edge g x y
  | call_InsertEdge x y | call_IsReachable x y | call_IsReachableNonConst x y =>
      x ∈ nodes /\ y ∈ nodes
  end.

(** What a call means for the graph. *)
Inductive gstep (g : graph) : call -> result -> graph -> Prop :=
  | step_new x : x ∉ dom (gnodes g) -> gstep g call_NewNode (ret_node x) (set_data x 0 g)
  | step_remove x : gstep g (call_RemoveNode x) ret_unit (remove_node x g)
  | step_set x d : gstep g (call_SetNodeData x d) ret_unit (set_data x d g)
  | step_insert x y : ~ path g y x ->
      gstep g (call_InsertEdge x y) (ret_bool true) (add_edge x y g)
  | step_reject x y : path g y x -> gstep g (call_InsertEdge x y) (ret_bool false) g
  | step_remove_edge x y : gstep g (call_RemoveEdge x y) ret_unit (remove_edge x y g)
  | step_contract a b c d : ~ path (remove_edge a b g) a b -> (c = a /\ d = b \/ c = b /\ d = a) ->
      gstep g (call_ContractEdge a b) (ret_option (Some c)) (merge_node c d (remove_edge a b g))
  | step_no_contract a b : path (remove_edge a b g) a b ->
      gstep g (call_ContractEdge a b) (ret_option None) g
  | step_can a b ok : (ok = true <-> ~ path (remove_edge a b g) a b) ->
      gstep g (call_CanContractEdge a b) (ret_bool ok) g
  | step_reach x y b : (b = true <-> path g x y) -> gstep g (call_IsReachable x y) (ret_bool b) g
  | step_reach' x y b : (b = true <-> path g x y) ->
      gstep g (call_IsReachableNonConst x y) (ret_bool b) g.

(** The states a client can bring about, with the graph it has in mind. *)
Inductive reachable : Rep -> graph -> Prop :=
  | reachable_new : reachable GraphCycles_new empty_graph
  | reachable_call r g c res r' g' :
      reachable r g -> legal g c -> exec c r = OK (res, r') -> gstep g c res g' -> reachable r' g'.

Lemma IsReachable_represents r g x y :
  represents r g -> x ∈ dom (gnodes g) ->
  exists b r', IsReachable x y r = OK (b, r') /\ (b = true <-> path g x y) /\ represents r' g.
Proof.
  intros HR [Hx _]%(represents_live _ _ _ HR).
  destruct (IsReachable_OK r _ x y (r_inv _ _ HR) Hx) as (b & st & HI & Hb).
  exists b, (with_stack st r). split; [done|]. split; [done|]. by apply represents_stack.
Qed.

(** One call: it returns, and what it returns and leaves is a step of the graph. *)
Lemma exec_step r g c :
  represents r g -> legal g c ->
  exists res r' g', exec c r = OK (res, r') /\ gstep g c res g' /\ represents r' g'.
Proof.
  intros HR Hl. destruct c; cbn [legal exec] in *.
  - destruct (NewNode_represents r g HR) as (x & r' & -> & Hx & HR'). cbn [mbind outcome_bind].
    eexists _, _, _. split; [done|]. split; [by apply step_new|done].
  - destruct (RemoveNode_represents r g HR x Hl) as (r' & -> & HR').
    eexists _, _, _. split; [done|]. split; [apply step_remove|done].
  - destruct (SetNodeData_represents r g HR x d Hl) as (r' & -> & HR').
    eexists _, _, _. split; [done|]. split; [apply step_set|done].
  - destruct Hl as [Hx Hy].
    destruct (InsertEdge_represents r g HR x y Hx Hy) as (b & r' & -> & Hb & HR').
    eexists _, _, _. split; [done|]. split; [|exact HR'].
    destruct b; [by apply step_insert|by apply step_reject].
  - destruct (RemoveEdge_represents r g HR x y Hl) as (r' & -> & HR').
    eexists _, _, _. split; [done|]. split; [apply step_remove_edge|done].
  - destruct (ContractEdge_represents r g a b HR Hl) as (o & r' & -> & Ho).
    destruct o as [c|]; [destruct Ho as (Hn & d & Hcd & HR')|destruct Ho as [Hp HR']];
      eexists _, _, _; (split; [done|]); (split; [|exact HR']).
    + by apply step_contract.
    + by apply step_no_contract.
  - destruct (CanContractEdge_represents r g a b HR Hl) as (ok & r' & -> & Hok & HR').
    eexists _, _, _. split; [done|]. split; [by apply step_can|done].
  - destruct (IsReachable_represents r g x y HR (proj1 Hl)) as (b & r' & -> & Hb & HR').
    eexists _, _, _. split; [done|]. split; [by apply step_reach|done].
  - destruct (IsReachableNonConst_represents r g x y HR (proj1 Hl) (proj2 Hl)) as (b & r' & -> & Hb & HR').
    eexists _, _, _. split; [done|]. split; [by apply step_reach'|done].
Qed.

(** The graph after a call is determined by its result. *)
Lemma gstep_det g c res g1 g2 :
  (forall x, ~ edge g x x) -> legal g c -> gstep g c res g1 -> gstep g c res g2 -> g1 = g2.
Proof.
  intros Hself Hl H1 H2. destruct H1; inversion H2; subst; try done.
  assert (a <> b) by (intros ->; by apply (Hself b)).
  assert (d = d0) as ->; [|done].
  repeat match goal with H : _ \/ _ |- _ => destruct H as [[? ?]|[? ?]] end; congruence.
Qed.

Lemma reachable_represents r g : reachable r g -> represents r g.
Proof.
  induction 1 as [|r g c res r' g' _ IH Hl He Hs]; [apply represents_new|].
  destruct (exec_step r g c IH Hl) as (res2 & r2 & g2 & He2 & Hs2 & HR2).
  rewrite He in He2. injection He2 as <- <-.
  rewrite (gstep_det g c res g' g2); [done| |done..].
  intros x. apply (no_self_edge r (edge g) x), IH.
Qed.

(** ** Theorems *)

(** C3: InsertEdge on two nodes in use never crashes; it adds the edge and
    returns true exactly when the target does not reach the source, and
    otherwise returns false and leaves the graph as it was. *)
Theorem InsertEdge_refines (r : Rep) (g : graph) (x y : Z) :
  represents r g -> x ∈ dom (gnodes g) -> y ∈ dom (gnodes g) ->
  exists b r', InsertEdge x y r = OK (b, r') /\ (if b then ~ path g y x else path g y x) /\
    represents r' (if b then add_edge x y g else g).
Proof. intros HR. apply (InsertEdge_represents r g HR). Qed.

(** C4: ContractEdge of an existing edge merges one of its two nodes into the
    other, which it returns, when the edge is the only path between them, and
    otherwise returns nothing and leaves the graph as it was. *)
Theorem ContractEdge_refines (r : Rep) (g : graph) (a b : Z) :
  represents r g -> edge g a b ->
  exists o r', ContractEdge a b r = OK (o, r') /\
    match o with
    | None => path (remove_edge a b g) a b /\ represents r' g
    | Some c => ~ path (remove_edge a b g) a b /\ exists d, (c = a /\ d = b \/ c = b /\ d = a) /\
        represents r' (merge_node c d (remove_edge a b g))
    end.
Proof. apply ContractEdge_represents. Qed.

(** C23: After every sequence of legal calls the graph is acyclic, the self check
    CheckInvariants passes, and every further legal call returns and does to the
    graph what its name says. *)
Theorem reachable_graphs_acyclic (r : Rep) (g : graph) :
  reachable r g ->
  (forall x, ~ tc (edge g) x x) /\ CheckInvariants r = OK true /\
  forall c, legal g c -> exists res r' g', exec c r = OK (res, r') /\ gstep g c res g' /\ reachable r' g'.
Proof.
  intros HR. pose proof (reachable_represents r g HR) as HRep. split_and!.
  - intros x. by apply (represents_acyclic r).
  - apply (CheckInvariants_OK r (edge g)), HRep.
  - intros c Hl. destruct (exec_step r g c HRep Hl) as (res & r' & g' & He & Hs & _).
    exists res, r', g'. split; [done|]. split; [done|]. by eapply reachable_call.
Qed.

(** FindPath ends; it returns 0 when there is no path, and otherwise the
    number of nodes of a path without repetition, of which it has written as many
    to the caller's array as fit. *)
Lemma FindPath_correct (r : Rep) (g : graph) (x y max : Z) (arr : list Z) :
  represents r g -> x ∈ dom (gnodes g) -> max <= Zlen arr ->
  exists len arr' r', FindPath x y max arr r = OK (len, arr', r') /\ represents r' g /\
    ((len = 0 /\ ~ path g x y) \/
     exists p, len = Zlen p /\ is_path (edge g) x y p /\ NoDup p /\
       forall i v, p !! i = Some v -> Z.of_nat i < max -> arr' !! i = Some v).
Proof.
  intros HR [Hx _]%(represents_live _ _ _ HR) Hm.
  destruct (FindPath_OK r _ x y max arr (r_inv _ _ HR) Hx Hm) as (len & arr' & st & HF & _ & Hres).
  exists len, arr', (with_stack st r). split; [done|]. split; [by apply represents_stack|done].
Qed.

(** IsReachable, which enumerates paths, and IsReachableNonConst, which
    searches between two ranks, return the same: whether there is a path. *)
Lemma IsReachable_agree (r : Rep) (g : graph) (x y : Z) :
  represents r g -> x ∈ dom (gnodes g) -> y ∈ dom (gnodes g) ->
  exists b r1 r2, IsReachable x y r = OK (b, r1) /\ IsReachableNonConst x y r = OK (b, r2) /\
    (b = true <-> path g x y) /\ represents r1 g /\ represents r2 g.
Proof.
  intros HR Hx Hy.
  destruct (IsReachable_represents r g x y HR Hx) as (b1 & r1 & H1 & Hb1 & HR1).
  destruct (IsReachableNonConst_represents r g x y HR Hx Hy) as (b2 & r2 & H2 & Hb2 & HR2).
  assert (b2 = b1) as -> by (apply eq_true_iff_eq; by rewrite Hb1, Hb2).
  by exists b1, r1, r2.
Qed.

(** AllNodesInPostOrder lists every node once, and a node that is reached
    from another one before it. *)
Lemma AllNodesInPostOrder_correct (r : Rep) (g : graph) :
  represents r g ->
  NoDup (AllNodesInPostOrder r) /\
  (forall x, x ∈ AllNodesInPostOrder r <-> x ∈ dom (gnodes g)) /\
  forall i j x y, AllNodesInPostOrder r !! i = Some x -> AllNodesInPostOrder r !! j = Some y ->
    tc (edge g) x y -> (j < i)%nat.
Proof.
  intros HR. split; [apply AllNodesInPostOrder_NoDup|]. split.
  - intros x. by rewrite AllNodesInPostOrder_elem, (represents_live r g).
  - intros i j x y Hi Hj Hp. pose proof (path_rank (r_inv _ _ HR) x y Hp) as Hlt.
    destruct (decide (j < i)%nat) as [|Hn]; [done|].
    destruct (decide (i = j)) as [->|Hne]; [rewrite Hi in Hj; injection Hj as ->; lia|].
    pose proof (AllNodesInPostOrder_sorted r i j x y Hi Hj). lia.
Qed.

(** ** A graph on which the hypotheses hold

    Five nodes and the edges 3 -> 1 -> 0 -> 4 -> 2, of which the second one is
    inserted against the ranks. *)

Lemma NewNode_to r g x r' :
  represents r g -> NewNode r = OK (x, r') -> represents r' (set_data x 0 g).
Proof.
  intros HR HN. destruct (NewNode_represents r g HR) as (x2 & r2 & HN2 & _ & HR2).
  rewrite HN in HN2. by injection HN2 as <- <-.
Qed.

Lemma InsertEdge_to r g x y r' :
  represents r g -> InsertEdge x y r = OK (true, r') ->
  x ∈ dom (gnodes g) -> y ∈ dom (gnodes g) -> represents r' (add_edge x y g).
Proof.
  intros HR HI Hx Hy. destruct (InsertEdge_represents r g HR x y Hx Hy) as (b & r2 & HI2 & _ & HR2).
  rewrite HI in HI2. by injection HI2 as <- <-.
Qed.

Definition example_nodes : graph :=
  set_data 4 0 (set_data 3 0 (set_data 2 0 (set_data 1 0 (set_data 0 0 empty_graph)))).
Definition example_graph : graph :=
  add_edge 4 2 (add_edge 0 4 (add_edge 1 0 (add_edge 3 1 example_nodes))).
Definition build : outcome Rep :=
  r ← foldM (fun r _ => '(_, r) ← NewNode r; OK r) GraphCycles_new (replicate 5 ());
  foldM (fun r p => '(_, r) ← InsertEdge p.1 p.2 r; OK r) r [(3, 1); (1, 0); (0, 4); (4, 2)].
Definition example_rep : Rep :=
  Eval vm_compute in match build with OK r => r | _ => GraphCycles_new end.

Lemma example_represents : represents example_rep example_graph.
Proof.
  pose proof represents_new as H.
  do 5 (eapply NewNode_to in H; [|vm_compute; reflexivity]).
  eapply (InsertEdge_to _ _ 3 1) in H;
    [|vm_compute; reflexivity|apply elem_of_dom; by eexists|apply elem_of_dom; by eexists].
  eapply (InsertEdge_to _ _ 1 0) in H;
    [|vm_compute; reflexivity|apply elem_of_dom; by eexists|apply elem_of_dom; by eexists].
  eapply (InsertEdge_to _ _ 0 4) in H;
    [|vm_compute; reflexivity|apply elem_of_dom; by eexists|apply elem_of_dom; by eexists].
  eapply (InsertEdge_to _ _ 4 2) in H;
    [|vm_compute; reflexivity|apply elem_of_dom; by eexists|apply elem_of_dom; by eexists].
  exact H.
Qed.

(** The ranks follow the edges; an edge back is refused and leaves the ranks. *)
Example example_ranks : (rank <$> nodes_ example_rep) = [2; 1; 4; 0; 3].
Proof. reflexivity. Qed.
Example example_refused :
  match InsertEdge 2 3 example_rep with
  | OK (b, r') => b = false /\ nodes_ r' = nodes_ example_rep
  | _ => False
  end.
Proof. vm_compute. done. Qed.
Example example_order : AllNodesInPostOrder example_rep = [2; 4; 0; 1; 3].
Proof. reflexivity. Qed.
Example example_path :
  match FindPath 3 4 3 [9; 9; 9] example_rep with
  | OK (len, arr, _) => len = 4 /\ arr = [3; 1; 0]
  | _ => False
  end.
Proof. vm_compute. done. Qed.

Lemma InsertEdge_refines_witness :
  exists b r', InsertEdge 2 3 example_rep = OK (b, r') /\
    (if b then ~ path example_graph 3 2 else path example_graph 3 2) /\
    represents r' (if b then add_edge 2 3 example_graph else example_graph).
Proof.
  apply (InsertEdge_refines example_rep example_graph 2 3 example_represents);
    apply elem_of_dom; by eexists.
Defined.

Lemma ContractEdge_refines_witness :
  exists o r', ContractEdge 1 0 example_rep = OK (o, r') /\
    match o with
    | None => path (remove_edge 1 0 example_graph) 1 0 /\ represents r' example_graph
    | Some c => ~ path (remove_edge 1 0 example_graph) 1 0 /\
        exists d, (c = 1 /\ d = 0 \/ c = 0 /\ d = 1) /\
          represents r' (merge_node c d (remove_edge 1 0 example_graph))
    end.
Proof.
  apply (ContractEdge_refines example_rep example_graph 1 0 example_represents).
  unfold edge. simpl. set_solver.
Defined.

Lemma reachable_graphs_acyclic_witness :
  exists r, reachable r (set_data 0 0 empty_graph) /\
    (forall x, ~ tc (edge (set_data 0 0 empty_graph)) x x) /\ CheckInvariants r = OK true /\
    forall c, legal (set_data 0 0 empty_graph) c ->
      exists res r' g', exec c r = OK (res, r') /\ gstep (set_data 0 0 empty_graph) c res g' /\
        reachable r' g'.
Proof.
  assert (HR : exists r, reachable r (set_data 0 0 empty_graph)).
  { eexists. eapply (reachable_call _ _ call_NewNode); [apply reachable_new|done|reflexivity|].
    by apply step_new. }
  destruct HR as [r HR]. exists r. split; [exact HR|].
  exact (reachable_graphs_acyclic r (set_data 0 0 empty_graph) HR).
Defined.

Lemma FindPath_correct_witness :
  exists len arr' r', FindPath 3 4 3 [9; 9; 9] example_rep = OK (len, arr', r') /\
    represents r' example_graph /\
    ((len = 0 /\ ~ path example_graph 3 4) \/
     exists p, len = Zlen p /\ is_path (edge example_graph) 3 4 p /\ NoDup p /\
       forall i v, p !! i = Some v -> Z.of_nat i < 3 -> arr' !! i = Some v).
Proof.
  apply (FindPath_correct example_rep example_graph 3 4 3 [9; 9; 9] example_represents).
  - apply elem_of_dom. by eexists.
  - done.
Defined.

Lemma IsReachable_agree_witness :
  exists b r1 r2, IsReachable 3 2 example_rep = OK (b, r1) /\
    IsReachableNonConst 3 2 example_rep = OK (b, r2) /\ (b = true <-> path example_graph 3 2) /\
    represents r1 example_graph /\ represents r2 example_graph.
Proof.
  apply (IsReachable_agree example_rep example_graph 3 2 example_represents);
    apply elem_of_dom; by eexists.
Defined.

Lemma AllNodesInPostOrder_correct_witness :
  NoDup (AllNodesInPostOrder example_rep) /\
  (forall x, x ∈ AllNodesInPostOrder example_rep <-> x ∈ dom (gnodes example_graph)) /\
  forall i j x y, AllNodesInPostOrder example_rep !! i = Some x ->
    AllNodesInPostOrder example_rep !! j = Some y -> tc (edge example_graph) x y -> (j < i)%nat.
Proof. exact (AllNodesInPostOrder_correct example_rep example_graph example_represents). Defined.

(** IsReachable, which the header sets against the "non-thread-safe"
    IsReachableNonConst, writes to the state that all callers share. *)
Example IsReachable_writes :
  match IsReachable 3 4 example_rep with
  | OK (_, r') => stack_ r' <> stack_ example_rep
  | _ => False
  end.
Proof. vm_compute. done. Qed.
