(* ===== verification/BfcAllocator.v ===== *)
(** * The best-fit-with-coalescing allocator: data and operations

    xla/tsl/framework/bfc_allocator.{h,cc}.  The object is the record [bfc], a
    method is a computation of the state monad [M]: it returns a value and the
    new state, or it crashes (CHECK, LOG(FATAL), a vector index out of range).
    Every public method holds the mutex, so one computation is one atomic step.

    kInvalidChunkHandle and kInvalidBinNum are [None], a null pointer is 0.
    The sub-allocator is an interface ([SubAllocator]), its state is part of the
    allocator's.  DCHECKs, logging and the memory map dump are dropped.  *)

From S2P Require Import Prelude MachineInt.

Definition kMinAllocationBits : Z := 8.
Definition kMinAllocationSize : Z := 256.
Definition kNumBins : nat := 21.

Abbreviation ChunkHandle := nat.

(** ** Data *)

Record Chunk := mkChunk {
  size : Z;
  requested_size : Z;
  allocation_id : Z;
  ptr : Z;
  prev : option ChunkHandle;
  next : option ChunkHandle;
  bin_num : option nat;
  freed_at_count : Z;
}.

Definition Chunk_default : Chunk := mkChunk 0 0 (-1) 0 None None None 0.
Definition in_use (c : Chunk) : bool := negb (allocation_id c =? -1).

Definition set_size v c := mkChunk v (requested_size c) (allocation_id c) (ptr c)
  (prev c) (next c) (bin_num c) (freed_at_count c).
Definition set_requested_size v c := mkChunk (size c) v (allocation_id c) (ptr c)
  (prev c) (next c) (bin_num c) (freed_at_count c).
Definition set_allocation_id v c := mkChunk (size c) (requested_size c) v (ptr c)
  (prev c) (next c) (bin_num c) (freed_at_count c).
Definition set_ptr v c := mkChunk (size c) (requested_size c) (allocation_id c) v
  (prev c) (next c) (bin_num c) (freed_at_count c).
Definition set_prev v c := mkChunk (size c) (requested_size c) (allocation_id c) (ptr c)
  v (next c) (bin_num c) (freed_at_count c).
Definition set_next v c := mkChunk (size c) (requested_size c) (allocation_id c) (ptr c)
  (prev c) v (bin_num c) (freed_at_count c).
Definition set_bin_num v c := mkChunk (size c) (requested_size c) (allocation_id c) (ptr c)
  (prev c) (next c) v (freed_at_count c).
Definition set_freed_at_count v c := mkChunk (size c) (requested_size c) (allocation_id c)
  (ptr c) (prev c) (next c) (bin_num c) v.

(** One block of memory obtained from the sub-allocator.  [handles_] maps the
    address [region_ptr + 256 * i] to the chunk that starts there. *)
Record AllocationRegion := mkRegion {
  region_ptr : Z;
  memory_size : Z;
  end_ptr : Z;
  handles_ : list (option ChunkHandle);
}.

Record AllocatorStats := mkStats {
  num_allocs : Z;
  bytes_in_use : Z;
  peak_bytes_in_use : Z;
  largest_alloc_size : Z;
  pool_bytes : Z;
  peak_pool_bytes : Z;
}.

(** What never changes after construction.  [max_internal_fragmentation_bytes]
    is the value of the expression in FindChunkPtr: 128 MB, or the product of the
    floating-point option fragmentation_fraction and the memory limit. *)
Record Config := mkConfig {
  memory_limit_ : Z;
  garbage_collection : bool;
  coalesce_regions_ : bool;
  max_internal_fragmentation_bytes : Z;
}.

(** The sub-allocator, which is not part of the component: [Alloc] returns the
    address (0 for null) and the bytes received. *)
Class SubAllocator (Sub : Type) := {
  Alloc : Sub -> Z -> Z -> (Z * Z) * Sub;
  Free : Sub -> Z -> Z -> Sub;
}.

Record bfc {Sub : Type} := mkBfc {
  chunks_ : list Chunk;
  free_chunks_list_ : option ChunkHandle;
  regions_ : list AllocationRegion;
  bins_ : list (list ChunkHandle);
  curr_region_allocation_bytes_ : Z;
  next_allocation_id_ : Z;
  timestamped_chunks_ : list ChunkHandle;
  timing_counter_ : option Z;
  safe_frontier_ : Z;
  stats_ : AllocatorStats;
  sub_allocator_ : Sub;
}.
Arguments bfc Sub : clear implicits.
Arguments mkBfc {Sub}.

(** Field assignment. *)
Section Setters.
Context {Sub : Type}.
Implicit Types s : bfc Sub.
Definition with_chunks v s := mkBfc v (free_chunks_list_ s) (regions_ s) (bins_ s)
  (curr_region_allocation_bytes_ s) (next_allocation_id_ s) (timestamped_chunks_ s)
  (timing_counter_ s) (safe_frontier_ s) (stats_ s) (sub_allocator_ s).
Definition with_free_list v s := mkBfc (chunks_ s) v (regions_ s) (bins_ s)
  (curr_region_allocation_bytes_ s) (next_allocation_id_ s) (timestamped_chunks_ s)
  (timing_counter_ s) (safe_frontier_ s) (stats_ s) (sub_allocator_ s).
Definition with_regions v s := mkBfc (chunks_ s) (free_chunks_list_ s) v (bins_ s)
  (curr_region_allocation_bytes_ s) (next_allocation_id_ s) (timestamped_chunks_ s)
  (timing_counter_ s) (safe_frontier_ s) (stats_ s) (sub_allocator_ s).
Definition with_bins v s := mkBfc (chunks_ s) (free_chunks_list_ s) (regions_ s) v
  (curr_region_allocation_bytes_ s) (next_allocation_id_ s) (timestamped_chunks_ s)
  (timing_counter_ s) (safe_frontier_ s) (stats_ s) (sub_allocator_ s).
Definition with_curr v s := mkBfc (chunks_ s) (free_chunks_list_ s) (regions_ s) (bins_
  s) v (next_allocation_id_ s) (timestamped_chunks_ s) (timing_counter_ s)
  (safe_frontier_ s) (stats_ s) (sub_allocator_ s).
Definition with_next_id v s := mkBfc (chunks_ s) (free_chunks_list_ s) (regions_ s)
  (bins_ s) (curr_region_allocation_bytes_ s) v (timestamped_chunks_ s) (timing_counter_
  s) (safe_frontier_ s) (stats_ s) (sub_allocator_ s).
Definition with_timestamped v s := mkBfc (chunks_ s) (free_chunks_list_ s) (regions_ s)
  (bins_ s) (curr_region_allocation_bytes_ s) (next_allocation_id_ s) v (timing_counter_
  s) (safe_frontier_ s) (stats_ s) (sub_allocator_ s).
Definition with_timing v s := mkBfc (chunks_ s) (free_chunks_list_ s) (regions_ s)
  (bins_ s) (curr_region_allocation_bytes_ s) (next_allocation_id_ s)
  (timestamped_chunks_ s) v (safe_frontier_ s) (stats_ s) (sub_allocator_ s).
Definition with_frontier v s := mkBfc (chunks_ s) (free_chunks_list_ s) (regions_ s)
  (bins_ s) (curr_region_allocation_bytes_ s) (next_allocation_id_ s)
  (timestamped_chunks_ s) (timing_counter_ s) v (stats_ s) (sub_allocator_ s).
Definition with_stats v s := mkBfc (chunks_ s) (free_chunks_list_ s) (regions_ s) (bins_
  s) (curr_region_allocation_bytes_ s) (next_allocation_id_ s) (timestamped_chunks_ s)
  (timing_counter_ s) (safe_frontier_ s) v (sub_allocator_ s).
Definition with_sub (v : Sub) s := mkBfc (chunks_ s) (free_chunks_list_ s) (regions_ s) (bins_
  s) (curr_region_allocation_bytes_ s) (next_allocation_id_ s) (timestamped_chunks_ s)
  (timing_counter_ s) (safe_frontier_ s) (stats_ s) v.
End Setters.

(** ** The state monad *)

Definition M (Sub A : Type) : Type := bfc Sub -> outcome (A * bfc Sub).

#[global] Instance M_ret {Sub} : MRet (M Sub) := fun _ a s => OK (a, s).
#[global] Instance M_bind {Sub} : MBind (M Sub) := fun _ _ f m s =>
  match m s with
  | OK (a, s') => f a s'
  | Err c => Err c
  | Crash => Crash
  | NoFuel => NoFuel
  end.

Section Monad.
Context {Sub : Type}.

Definition gets {A} (f : bfc Sub -> A) : M Sub A := fun s => OK (f s, s).
Definition modify (f : bfc Sub -> bfc Sub) : M Sub () := fun s => OK ((), f s).
Definition lift {A} (o : outcome A) : M Sub A := fun s =>
  match o with
  | OK a => OK (a, s)
  | Err c => Err c
  | Crash => Crash
  | NoFuel => NoFuel
  end.
Definition mcheck (b : bool) : M Sub () := lift (check b).
Definition diverge {A} : M Sub A := fun _ => NoFuel.

(** An element of a vector at an unsigned index, and its assignment. *)
Definition nth_ {A} (l : list A) (i : nat) : M Sub A := fun s =>
  match l !! i with Some a => OK (a, s) | None => Crash end.

Definition ChunkFromHandle (h : ChunkHandle) : M Sub Chunk := fun s =>
  match chunks_ s !! h with Some c => OK (c, s) | None => Crash end.

(** [ChunkFromHandle(h)->field = v], as the function that assigns the field. *)
Definition upd_chunk (h : ChunkHandle) (f : Chunk -> Chunk) : M Sub () := fun s =>
  match chunks_ s !! h with
  | Some c => OK ((), with_chunks (<[h := f c]> (chunks_ s)) s)
  | None => Crash
  end.

Definition BinFromIndex (b : nat) : M Sub (list ChunkHandle) := fun s =>
  match bins_ s !! b with Some l => OK (l, s) | None => Crash end.
Definition set_bin (b : nat) (l : list ChunkHandle) : M Sub () :=
  modify (fun s => with_bins (<[b := l]> (bins_ s)) s).
End Monad.

(** ** Sizes and bins *)

Definition RoundedBytes (bytes : Z) : Z :=
  u64 (kMinAllocationSize * (u64 (bytes + kMinAllocationSize - 1) / kMinAllocationSize)).

Definition BinNumToSize (index : nat) : Z := Z.shiftl 256 (Z.of_nat index).

Definition BinNumForSize (bytes : Z) : nat :=
  let v := Z.shiftr (Z.max bytes 256) kMinAllocationBits in
  Z.to_nat (Z.min (Z.of_nat kNumBins - 1) (Z.log2 v)).

(** The checks of the constructor on bin [b]. *)
Definition bin_checks (b : nat) : bool :=
  let bin_size := BinNumToSize b in
  (BinNumForSize bin_size =? b)%nat
  && (BinNumForSize (bin_size + 255) =? b)%nat
  && (BinNumForSize (bin_size * 2 - 1) =? b)%nat
  && (if (b + 1 <? kNumBins)%nat then negb (BinNumForSize (bin_size * 2) =? b)%nat else true).

(** std::set<ChunkHandle, ChunkComparator>, as the list of its elements in
    order.  The comparator reads the chunks. *)
Definition chunk_less (a b : Chunk) : bool :=
  if negb (size a =? size b) then size a <? size b else ptr a <? ptr b.

Definition ChunkComparator (cs : list Chunk) (ha hb : ChunkHandle) : outcome bool :=
  match cs !! ha, cs !! hb with
  | Some a, Some b => OK (chunk_less a b)
  | _, _ => Crash
  end.

Fixpoint set_insert (cs : list Chunk) (h : ChunkHandle) (l : list ChunkHandle) :
    outcome (list ChunkHandle) :=
  match l with
  | [] => OK [h]
  | k :: l' =>
      lt ← ChunkComparator cs h k;
      if lt : bool then OK (h :: l)
      else
        gt ← ChunkComparator cs k h;
        if gt : bool then l'' ← set_insert cs h l'; OK (k :: l'')
        else OK l
  end.

(** erase(key): the set without the element equivalent to [h], and how many
    elements that removed. *)
Fixpoint set_erase (cs : list Chunk) (h : ChunkHandle) (l : list ChunkHandle) :
    outcome (list ChunkHandle * Z) :=
  match l with
  | [] => OK ([], 0)
  | k :: l' =>
      lt ← ChunkComparator cs k h;
      if lt : bool then r ← set_erase cs h l'; OK (k :: fst r, snd r)
      else
        gt ← ChunkComparator cs h k;
        if gt : bool then OK (l, 0) else OK (l', 1)
  end.

(** ** AllocationRegion and RegionManager *)

Definition n_handles (bytes : Z) : nat :=
  Z.to_nat (u64 (bytes + kMinAllocationSize - 1) / kMinAllocationSize).

Definition new_region (p bytes : Z) : AllocationRegion :=
  mkRegion p bytes (p + bytes) (replicate (n_handles bytes) None).

Definition resize_handles (n : nat) (l : list (option ChunkHandle)) :
    list (option ChunkHandle) :=
  take n l ++ replicate (n - length l) None.

Definition extend (bytes : Z) (r : AllocationRegion) : AllocationRegion :=
  let memory_size' := u64 (memory_size r + bytes) in
  mkRegion (region_ptr r) memory_size' (end_ptr r + bytes)
    (resize_handles (n_handles memory_size') (handles_ r)).

Definition IndexFor (r : AllocationRegion) (p : Z) : Z :=
  Z.shiftr (u64 (p - region_ptr r)) kMinAllocationBits.

(** std::upper_bound by [ptr < end_ptr]: on regions sorted by end, the index of
    the first region that ends after [p]. *)
Fixpoint upper_bound (p : Z) (rs : list AllocationRegion) : nat :=
  match rs with
  | [] => 0
  | r :: rs => if p <? end_ptr r then 0 else S (upper_bound p rs)
  end.

Definition insert_region (i : nat) (r : AllocationRegion) (rs : list AllocationRegion) :=
  take i rs ++ r :: drop i rs.

Definition AddAllocationRegion (p bytes : Z) (rs : list AllocationRegion) :
    list AllocationRegion :=
  insert_region (upper_bound p rs) (new_region p bytes) rs.

(** The index of the extended region, when a region was extended. *)
Definition AddOrExtendAllocationRegion (p bytes : Z) (rs : list AllocationRegion) :
    option nat * list AllocationRegion :=
  match upper_bound p rs with
  | S i as entry =>
      match rs !! i with
      | Some preceding_region =>
          if end_ptr preceding_region =? p
          then (Some i, <[i := extend bytes preceding_region]> rs)
          else (None, insert_region entry (new_region p bytes) rs)
      | None => (None, insert_region entry (new_region p bytes) rs)
      end
  | O => (None, insert_region O (new_region p bytes) rs)
  end.

Definition RegionFor (rs : list AllocationRegion) (p : Z) : outcome (nat * AllocationRegion) :=
  let entry := upper_bound p rs in
  match rs !! entry with
  | Some r => OK (entry, r)
  | None => Crash
  end.

(** An element of [handles_]; the index is unsigned. *)
Definition handle_at (hs : list (option ChunkHandle)) (i : Z) : outcome (option ChunkHandle) :=
  if i <? Zlen hs then at_ hs i else Crash.

Definition region_get_handle (rs : list AllocationRegion) (p : Z) :
    outcome (option ChunkHandle) :=
  r ← RegionFor rs p;
  handle_at (handles_ (snd r)) (IndexFor (snd r) p).

Definition region_set_handle (rs : list AllocationRegion) (p : Z) (h : option ChunkHandle) :
    outcome (list AllocationRegion) :=
  r ← RegionFor rs p;
  hs ← set_at (handles_ (snd r)) (IndexFor (snd r) p) h;
  OK (<[fst r := mkRegion (region_ptr (snd r)) (memory_size (snd r)) (end_ptr (snd r)) hs]> rs).

(** ** The operations *)

Section Operations.
Context {Sub : Type} `{SA : SubAllocator Sub} (cfg : Config).
#[local] Abbreviation M := (M Sub).

(** RegionManager::get_handle, set_handle and erase on the allocator's regions. *)
Definition get_handle (p : Z) : M (option ChunkHandle) :=
  rs ← gets regions_; lift (region_get_handle rs p).
Definition set_handle (p : Z) (h : option ChunkHandle) : M () :=
  rs ← gets regions_;
  rs' ← lift (region_set_handle rs p h);
  modify (with_regions rs').
Definition erase (p : Z) : M () := set_handle p None.

Definition AllocateChunk : M ChunkHandle :=
  free_chunks_list ← gets free_chunks_list_;
  match free_chunks_list with
  | Some h =>
      c ← ChunkFromHandle h;
      _ ← modify (with_free_list (next c));
      mret h
  | None =>
      h ← gets (fun s => length (chunks_ s));
      _ ← modify (fun s => with_chunks (chunks_ s ++ [Chunk_default]) s);
      mret h
  end.

Definition DeallocateChunk (h : ChunkHandle) : M () :=
  free_chunks_list ← gets free_chunks_list_;
  _ ← upd_chunk h (fun c => set_next free_chunks_list (set_bin_num None (set_allocation_id (-1) c)));
  modify (with_free_list (Some h)).

Definition DeleteChunk (h : ChunkHandle) : M () :=
  c ← ChunkFromHandle h;
  _ ← erase (ptr c);
  DeallocateChunk h.

Definition InsertFreeChunkIntoBin (h : ChunkHandle) : M () :=
  c ← ChunkFromHandle h;
  _ ← mcheck (negb (in_use c) && bool_decide (bin_num c = None));
  let b := BinNumForSize (size c) in
  new_bin ← BinFromIndex b;
  _ ← upd_chunk h (set_bin_num (Some b));
  cs ← gets chunks_;
  new_bin' ← lift (set_insert cs h new_bin);
  set_bin b new_bin'.

(** [free_chunks] is bin [b], the iterator points to [h]. *)
Definition RemoveFreeChunkIterFromBin (b : nat) (h : ChunkHandle) : M () :=
  c ← ChunkFromHandle h;
  _ ← mcheck (negb (in_use c) && bool_decide (bin_num c <> None));
  free_chunks ← BinFromIndex b;
  _ ← set_bin b (filter (fun k => k <> h) free_chunks);
  upd_chunk h (set_bin_num None).

Definition RemoveFreeChunkFromBin (h : ChunkHandle) : M () :=
  c ← ChunkFromHandle h;
  _ ← mcheck (negb (in_use c) && bool_decide (bin_num c <> None));
  b ← lift (match bin_num c with Some b => OK b | None => Crash end);
  free_chunks ← BinFromIndex b;
  cs ← gets chunks_;
  erased ← lift (set_erase cs h free_chunks);
  _ ← set_bin b (fst erased);
  _ ← mcheck (0 <? snd erased);
  upd_chunk h (set_bin_num None).

Definition SplitChunk (h : ChunkHandle) (num_bytes : Z) : M () :=
  h_new_chunk ← AllocateChunk;
  c ← ChunkFromHandle h;
  _ ← mcheck (negb (in_use c) && bool_decide (bin_num c = None));
  _ ← upd_chunk h_new_chunk (set_ptr (ptr c + num_bytes));
  _ ← set_handle (ptr c + num_bytes) (Some h_new_chunk);
  _ ← upd_chunk h_new_chunk (set_size (u64 (size c - num_bytes)));
  _ ← upd_chunk h (set_size num_bytes);
  _ ← upd_chunk h_new_chunk (fun n =>
        set_freed_at_count (freed_at_count c) (set_allocation_id (-1) n));
  let h_neighbor := next c in
  _ ← upd_chunk h_new_chunk (fun n => set_next h_neighbor (set_prev (Some h) n));
  _ ← upd_chunk h (set_next (Some h_new_chunk));
  _ ← match h_neighbor with
      | Some k => upd_chunk k (set_prev (Some h_new_chunk))
      | None => mret ()
      end;
  InsertFreeChunkIntoBin h_new_chunk.

Definition Merge (h1 h2 : ChunkHandle) : M () :=
  c1 ← ChunkFromHandle h1;
  c2 ← ChunkFromHandle h2;
  _ ← mcheck (negb (in_use c1) && negb (in_use c2));
  let h3 := next c2 in
  _ ← upd_chunk h1 (set_next h3);
  _ ← mcheck (bool_decide (prev c2 = Some h1));
  _ ← match h3 with
      | Some k => upd_chunk k (set_prev (Some h1))
      | None => mret ()
      end;
  _ ← upd_chunk h1 (fun c =>
        set_freed_at_count (Z.max (freed_at_count c1) (freed_at_count c2))
          (set_size (u64 (size c1 + size c2)) c));
  DeleteChunk h2.

Definition MarkFree (h : ChunkHandle) : M () :=
  c ← ChunkFromHandle h;
  _ ← mcheck (in_use c && bool_decide (bin_num c = None));
  _ ← upd_chunk h (set_allocation_id (-1));
  timing_counter ← gets timing_counter_;
  _ ← match timing_counter with
      | Some v =>
          _ ← modify (with_timing (Some (v + 1)));
          upd_chunk h (set_freed_at_count (v + 1))
      | None => mret ()
      end;
  modify (fun s => let st := stats_ s in with_stats
    (mkStats (num_allocs st) (sub64 (bytes_in_use st) (size c)) (peak_bytes_in_use st)
       (largest_alloc_size st) (pool_bytes st) (peak_pool_bytes st)) s).

(** The two halves of TryToCoalesce. *)
Definition CoalesceNext (h : ChunkHandle) (ignore_freed_at : bool) : M () :=
  c ← ChunkFromHandle h;
  match next c with
  | None => mret ()
  | Some hn =>
      n ← ChunkFromHandle hn;
      if negb (in_use n) && ((freed_at_count n =? 0) || ignore_freed_at) then
        _ ← RemoveFreeChunkFromBin hn;
        Merge h hn
      else mret ()
  end.

Definition CoalescePrev (h : ChunkHandle) (ignore_freed_at : bool) : M ChunkHandle :=
  c ← ChunkFromHandle h;
  match prev c with
  | None => mret h
  | Some hp =>
      n ← ChunkFromHandle hp;
      if negb (in_use n) && ((freed_at_count n =? 0) || ignore_freed_at) then
        _ ← RemoveFreeChunkFromBin hp;
        _ ← Merge hp h;
        mret hp
      else mret h
  end.

Definition TryToCoalesce (h : ChunkHandle) (ignore_freed_at : bool) : M ChunkHandle :=
  c ← ChunkFromHandle h;
  if negb ignore_freed_at && (0 <? freed_at_count c) then mret h
  else
    _ ← CoalesceNext h ignore_freed_at;
    CoalescePrev h ignore_freed_at.

(** *** Extend *)

(** [while (rounded_bytes > curr) curr *= 2], and whether it doubled. *)
Fixpoint grow_region (fuel : nat) (rounded_bytes curr : Z) (increased : bool) :
    outcome (Z * bool) :=
  match fuel with
  | O => NoFuel
  | S fuel =>
      if curr <? rounded_bytes
      then grow_region fuel rounded_bytes (u64 (curr * 2)) true
      else OK (curr, increased)
  end.

(** binary32 values as [m * 2^e]; rounding to the nearest, ties to even. *)
Definition shift_round (m k : Z) : Z :=
  let q := Z.shiftr m k in
  let r := m - Z.shiftl q k in
  let half := Z.shiftl 1 (k - 1) in
  if (half <? r) || ((r =? half) && Z.odd q) then q + 1 else q.
Definition f32_round (m e : Z) : Z * Z :=
  let k := Z.log2 m - 23 in
  if k <=? 0 then (m, e) else (shift_round m k, e + k).
Definition f32_trunc (x : Z * Z) : Z :=
  if 0 <=? snd x then Z.shiftl (fst x) (snd x) else Z.shiftr (fst x) (- snd x).

(** [bytes * kBackpedalFactor] converted back to size_t; 0.9f is 15099494 * 2^-24. *)
Definition backpedal (bytes : Z) : Z :=
  let x := f32_round bytes 0 in
  f32_trunc (f32_round (fst x * 15099494) (snd x - 24)).

(** [while (mem_addr == nullptr)] of Extend: the block received, or [None] for
    [return false]. *)
Fixpoint backpedal_loop (fuel : nat) (alignment rounded_bytes bytes : Z) : M (option (Z * Z)) :=
  match fuel with
  | O => diverge
  | S fuel =>
      let bytes := RoundedBytes (backpedal bytes) in
      if bytes <? rounded_bytes then mret None
      else
        sub ← gets sub_allocator_;
        let '(r, sub') := Alloc sub alignment bytes in
        _ ← modify (with_sub sub');
        if fst r =? 0 then backpedal_loop fuel alignment rounded_bytes bytes
        else mret (Some r)
  end.

Definition extend_alloc (fuel : nat) (alignment rounded_bytes bytes : Z) : M (option (Z * Z)) :=
  sub ← gets sub_allocator_;
  let '(r, sub') := Alloc sub alignment bytes in
  _ ← modify (with_sub sub');
  if fst r =? 0 then backpedal_loop fuel alignment rounded_bytes bytes
  else mret (Some r).

(** [while (prev_chunk->next != kInvalidChunkHandle)]. *)
Fixpoint last_chunk (fuel : nat) (h : ChunkHandle) : M ChunkHandle :=
  match fuel with
  | O => diverge
  | S fuel =>
      c ← ChunkFromHandle h;
      match next c with
      | Some h' => last_chunk fuel h'
      | None => mret h
      end
  end.

(** Extend from the registration of the region on. *)
Definition add_region (mem_addr bytes_received : Z) : M () :=
  rs ← gets regions_;
  let '(maybe_extended_region, rs') :=
    if coalesce_regions_ cfg then AddOrExtendAllocationRegion mem_addr bytes_received rs
    else (None, AddAllocationRegion mem_addr bytes_received rs) in
  _ ← modify (with_regions rs');
  h ← AllocateChunk;
  _ ← upd_chunk h (fun c => set_freed_at_count 0 (set_next None (set_prev None
        (set_allocation_id (-1) (set_size bytes_received (set_ptr mem_addr c))))));
  _ ← set_handle mem_addr (Some h);
  _ ← match maybe_extended_region with
      | None => mret ()
      | Some i =>
          r ← (rs ← gets regions_; nth_ rs i);
          first ← lift (handle_at (handles_ r) (IndexFor r (region_ptr r)));
          first ← lift (match first with Some k => OK k | None => Crash end);
          n ← gets (fun s => length (chunks_ s));
          last ← last_chunk (S n) first;
          _ ← upd_chunk h (set_prev (Some last));
          upd_chunk last (set_next (Some h))
      end;
  h' ← TryToCoalesce h false;
  InsertFreeChunkIntoBin h'.

Definition Extend (fuel : nat) (alignment rounded_bytes : Z) : M bool :=
  st ← gets stats_;
  let available_bytes := u64 (memory_limit_ cfg - pool_bytes st) in
  let available_bytes := available_bytes / kMinAllocationSize * kMinAllocationSize in
  if available_bytes <? rounded_bytes then mret false
  else
    curr ← gets curr_region_allocation_bytes_;
    grown ← lift (grow_region fuel rounded_bytes curr false);
    _ ← modify (with_curr (fst grown));
    let bytes := Z.min (fst grown) available_bytes in
    mem ← extend_alloc fuel alignment rounded_bytes bytes;
    match mem with
    | None => mret false
    | Some (mem_addr, bytes_received) =>
        _ ← (if snd grown : bool then mret () else
               modify (fun s => with_curr (u64 (curr_region_allocation_bytes_ s * 2)) s));
        _ ← modify (fun s => let st := stats_ s in
              let pool := add64 (pool_bytes st) bytes_received in with_stats
              (mkStats (num_allocs st) (bytes_in_use st) (peak_bytes_in_use st)
                 (largest_alloc_size st) pool (Z.max pool (peak_pool_bytes st))) s);
        _ ← add_region mem_addr bytes_received;
        mret true
    end.

(** *** Allocation *)

(** The inner loop of FindChunkPtr over the free chunks of a bin. *)
Fixpoint find_in_bin (rounded_bytes freed_before : Z) (l : list ChunkHandle) :
    M (option ChunkHandle) :=
  match l with
  | [] => mret None
  | h :: l =>
      chunk ← ChunkFromHandle h;
      if (0 <? freed_before) && (freed_before <? freed_at_count chunk)
      then find_in_bin rounded_bytes freed_before l
      else if rounded_bytes <=? size chunk then mret (Some h)
      else find_in_bin rounded_bytes freed_before l
  end.

Definition should_split (chunk_size rounded_bytes : Z) : bool :=
  (u64 (rounded_bytes * 2) <=? chunk_size)
  || (u64 (max_internal_fragmentation_bytes cfg) <=? u64 (i64 chunk_size - rounded_bytes)).

(** The body of the loop once the chunk [h] of bin [b] fits. *)
Definition take_chunk (b : nat) (h : ChunkHandle) (rounded_bytes num_bytes : Z) : M Z :=
  _ ← RemoveFreeChunkIterFromBin b h;
  chunk ← ChunkFromHandle h;
  _ ← (if should_split (size chunk) rounded_bytes then SplitChunk h rounded_bytes else mret ());
  id ← gets next_allocation_id_;
  _ ← modify (with_next_id (id + 1));
  _ ← upd_chunk h (fun c => set_allocation_id id (set_requested_size num_bytes c));
  chunk ← ChunkFromHandle h;
  _ ← modify (fun s => let st := stats_ s in
        let used := add64 (bytes_in_use st) (size chunk) in with_stats
        (mkStats (num_allocs st + 1) used (Z.max (peak_bytes_in_use st) used)
           (Z.max (largest_alloc_size st) (size chunk)) (pool_bytes st) (peak_pool_bytes st)) s);
  mret (ptr chunk).

(** [for (; bin_num < kNumBins; bin_num++)]; [bs] are the bins still to search. *)
Fixpoint find_in_bins (rounded_bytes num_bytes freed_before : Z) (bs : list nat) : M Z :=
  match bs with
  | [] => mret 0
  | b :: bs =>
      l ← BinFromIndex b;
      found ← find_in_bin rounded_bytes freed_before l;
      match found with
      | Some h => take_chunk b h rounded_bytes num_bytes
      | None => find_in_bins rounded_bytes num_bytes freed_before bs
      end
  end.

Definition FindChunkPtr (bin_num : nat) (rounded_bytes num_bytes freed_before : Z) : M Z :=
  find_in_bins rounded_bytes num_bytes freed_before (seq bin_num (kNumBins - bin_num)).

(** Only the lookups of AddTraceMe. *)
Definition AddTraceMe (p : Z) : M () :=
  h ← get_handle p;
  h ← lift (match h with Some h => OK h | None => Crash end);
  _ ← ChunkFromHandle h;
  mret ().

(** *** Timestamped chunks *)

(** The first loop of MergeTimestampedChunks; the result is
    [(to_merge, new_ts_queue)]. *)
Fixpoint sweep_timestamped (required_bytes : Z) (q : list ChunkHandle) :
    M (list Z * list ChunkHandle) :=
  match q with
  | [] => mret ([], [])
  | h :: q =>
      c ← ChunkFromHandle h;
      h' ← get_handle (ptr c);
      match h' with
      | None => sweep_timestamped required_bytes q
      | Some h' =>
          if in_use c || bool_decide (bin_num c = None)
          then sweep_timestamped required_bytes q
          else if freed_at_count c =? 0 then
            r ← sweep_timestamped required_bytes q; mret (ptr c :: fst r, snd r)
          else
            frontier ← gets safe_frontier_;
            if freed_at_count c <? frontier then
              _ ← upd_chunk h (set_freed_at_count 0);
              r ← sweep_timestamped required_bytes q; mret (ptr c :: fst r, snd r)
            else if 0 <? required_bytes then
              r ← sweep_timestamped required_bytes q; mret (ptr c :: fst r, snd r)
            else
              r ← sweep_timestamped required_bytes q; mret (fst r, h' :: snd r)
      end
  end.

(** The second loop; the result is [satisfied]. *)
Fixpoint merge_candidates (required_bytes : Z) (satisfied : bool) (to_merge : list Z) : M bool :=
  match to_merge with
  | [] => mret satisfied
  | p :: to_merge =>
      h ← get_handle p;
      match h with
      | None => merge_candidates required_bytes satisfied to_merge
      | Some h =>
          if (required_bytes =? 0) || negb satisfied then
            _ ← RemoveFreeChunkFromBin h;
            new_h ← TryToCoalesce h (0 <? required_bytes);
            _ ← InsertFreeChunkIntoBin new_h;
            if 0 <? required_bytes then
              c ← ChunkFromHandle new_h;
              _ ← (if negb (new_h =? h)%nat && (0 <? freed_at_count c)
                   then modify (fun s => with_timestamped (timestamped_chunks_ s ++ [new_h]) s)
                   else mret ());
              merge_candidates required_bytes
                (if required_bytes <=? size c then true else satisfied) to_merge
            else merge_candidates required_bytes satisfied to_merge
          else
            _ ← modify (fun s => with_timestamped (timestamped_chunks_ s ++ [h]) s);
            merge_candidates required_bytes satisfied to_merge
      end
  end.

Definition MergeTimestampedChunks (required_bytes : Z) : M bool :=
  q ← gets timestamped_chunks_;
  swept ← sweep_timestamped required_bytes q;
  _ ← modify (with_timestamped (snd swept));
  merge_candidates required_bytes (required_bytes =? 0) (fst swept).

Definition SetSafeFrontier (count : Z) : M () :=
  current ← gets safe_frontier_;
  if current <? count then modify (with_frontier count) else mret ().

(** *** Deallocating regions *)

(** The walk over the chunks of a region that looks for one in use. *)
Fixpoint any_use (fuel : nat) (h : option ChunkHandle) : M bool :=
  match fuel with
  | O => diverge
  | S fuel =>
      match h with
      | None => mret false
      | Some h =>
          c ← ChunkFromHandle h;
          if in_use c then mret true else any_use fuel (next c)
      end
  end.

Fixpoint free_regions (rs : list AllocationRegion) : M (list Z * Z) :=
  match rs with
  | [] => mret ([], 0)
  | region :: rs =>
      h ← get_handle (region_ptr region);
      n ← gets (fun s => length (chunks_ s));
      used ← any_use (S n) h;
      r ← free_regions rs;
      mret (if used : bool then r
            else (region_ptr region :: fst r, u64 (memory_size region + snd r)))
  end.

(** The walk that removes the chunks of a region. *)
Fixpoint delete_chunks (fuel : nat) (h : option ChunkHandle) : M () :=
  match fuel with
  | O => diverge
  | S fuel =>
      match h with
      | None => mret ()
      | Some h =>
          c ← ChunkFromHandle h;
          _ ← (if bool_decide (bin_num c <> None) then RemoveFreeChunkFromBin h else mret ());
          c ← ChunkFromHandle h;
          _ ← DeleteChunk h;
          delete_chunks fuel (next c)
      end
  end.

(** The iterator is the index [i]; [n] regions are left. *)
Fixpoint DeallocateRegions_loop (n : nat) (region_ptrs : list Z) (i : nat) : M () :=
  match n with
  | O => mret ()
  | S n =>
      it ← (rs ← gets regions_; nth_ rs i);
      if contains region_ptrs (region_ptr it) then
        h ← get_handle (region_ptr it);
        n_chunks ← gets (fun s => length (chunks_ s));
        _ ← delete_chunks (S n_chunks) h;
        _ ← modify (fun s => with_sub
              (Free (sub_allocator_ s) (region_ptr it) (memory_size it)) s);
        _ ← modify (fun s => let st := stats_ s in with_stats
              (mkStats (num_allocs st) (bytes_in_use st) (peak_bytes_in_use st)
                 (largest_alloc_size st) (sub64 (pool_bytes st) (memory_size it))
                 (peak_pool_bytes st)) s);
        _ ← modify (fun s => with_regions (delete i (regions_ s)) s);
        DeallocateRegions_loop n region_ptrs i
      else DeallocateRegions_loop n region_ptrs (S i)
  end.

Definition DeallocateRegions (region_ptrs : list Z) : M () :=
  n ← gets (fun s => length (regions_ s));
  DeallocateRegions_loop n region_ptrs 0.

Definition DeallocateFreeRegions (rounded_bytes : Z) : M bool :=
  if negb (garbage_collection cfg) then mret false
  else
    rs ← gets regions_;
    found ← free_regions rs;
    if snd found =? 0 then mret false
    else
      st ← gets stats_;
      let available_bytes := u64 (memory_limit_ cfg - pool_bytes st + snd found) in
      if available_bytes <? rounded_bytes then mret false
      else
        _ ← DeallocateRegions (fst found);
        mret true.

(** *** The public operations *)

(** [traced p k]: if [p] is not null trace it and return it, otherwise go on. *)
Definition traced (p : Z) (k : M Z) : M Z :=
  if p =? 0 then k else _ ← AddTraceMe p; mret p.

Definition AllocateRawInternal (fuel : nat) (unused_alignment num_bytes freed_before : Z) : M Z :=
  if num_bytes =? 0 then mret 0
  else
    let rounded_bytes := RoundedBytes num_bytes in
    let bin_num := BinNumForSize rounded_bytes in
    q ← gets timestamped_chunks_;
    _ ← (if bool_decide (q <> []) then MergeTimestampedChunks 0 else mret false);
    p ← FindChunkPtr bin_num rounded_bytes num_bytes freed_before;
    traced p (
      extended ← Extend fuel unused_alignment rounded_bytes;
      p ← (if extended : bool
           then FindChunkPtr bin_num rounded_bytes num_bytes freed_before else mret 0);
      traced p (
        q ← gets timestamped_chunks_;
        merged ← (if (freed_before =? 0) && bool_decide (q <> [])
                  then MergeTimestampedChunks rounded_bytes else mret false);
        p ← (if merged : bool
             then FindChunkPtr bin_num rounded_bytes num_bytes freed_before else mret 0);
        traced p (
          collected ← DeallocateFreeRegions rounded_bytes;
          extended ← (if collected : bool
                      then Extend fuel unused_alignment rounded_bytes else mret false);
          p ← (if extended : bool
               then FindChunkPtr bin_num rounded_bytes num_bytes freed_before else mret 0);
          traced p (mret 0)))).

Definition DeallocateRawInternal (p : Z) : M () :=
  if p =? 0 then mret ()
  else
    h ← get_handle p;
    h ← lift (match h with Some h => OK h | None => Crash end);
    chunk ← ChunkFromHandle h;
    _ ← MarkFree h;
    timing_counter ← gets timing_counter_;
    match timing_counter with
    | Some _ =>
        _ ← InsertFreeChunkIntoBin h;
        modify (fun s => with_timestamped (timestamped_chunks_ s ++ [h]) s)
    | None =>
        h' ← TryToCoalesce h false;
        InsertFreeChunkIntoBin h'
    end.

(** RequestedSize, AllocatedSize and AllocationId: a field of the chunk at [p]. *)
Definition chunk_at (p : Z) : M Chunk :=
  h ← get_handle p;
  h ← lift (match h with Some h => OK h | None => Crash end);
  ChunkFromHandle h.
Definition RequestedSize (p : Z) : M Z :=
  _ ← mcheck (negb (p =? 0)); c ← chunk_at p; mret (requested_size c).
Definition AllocatedSize (p : Z) : M Z := c ← chunk_at p; mret (size c).
Definition AllocationId (p : Z) : M Z := c ← chunk_at p; mret (allocation_id c).

(** LargestFreeChunk: the last element of the last bin that is not empty. *)
Fixpoint largest_in_bins (n : nat) : M Z :=
  match n with
  | O => mret 0
  | S b =>
      l ← BinFromIndex b;
      match last l with
      | Some h => c ← ChunkFromHandle h; mret (i64 (size c))
      | None => largest_in_bins b
      end
  end.
Definition LargestFreeChunk : M Z := largest_in_bins kNumBins.

Definition ClearStats : M bool :=
  _ ← modify (fun s => let st := stats_ s in with_stats
        (mkStats 0 (bytes_in_use st) (bytes_in_use st) 0 (pool_bytes st) (peak_pool_bytes st)) s);
  mret true.

(** The constructor, with the timing counter installed. *)
Definition BFCAllocator (allow_growth : bool) (counter : option Z) (sub : Sub) : bfc Sub :=
  mkBfc [] None [] (replicate kNumBins [])
    (if allow_growth then RoundedBytes (Z.min (memory_limit_ cfg) (Z.shiftl 2 20))
     else RoundedBytes (memory_limit_ cfg))
    1 [] counter 0 (mkStats 0 0 0 0 0 0) sub.
End Operations.
