(* ===== verification/BfcHeap.v ===== *)
(** * The heap of the best-fit-with-coalescing allocator, abstractly

    The invariant that relates the chunks of BFCAllocator, their links and the
    maps from addresses to handles, on functions instead of vectors, and the four
    changes the allocator makes to it: a chunk is split, two chunks are merged, a
    region is added, a region is extended.  Nothing here runs code; [BfcInv]
    shows that the code performs these changes. *)

From Stdlib Require Import ZArith Lia.
From S2P Require Import Prelude MachineInt BfcAllocator.

(** The fields of a chunk that place it in memory. *)
Record Node := mkNode {
  n_ptr : Z;
  n_size : Z;
  n_prev : option ChunkHandle;
  n_next : option ChunkHandle;
}.

Definition n_end (n : Node) : Z := n_ptr n + n_size n.
Definition with_prev (v : option ChunkHandle) (n : Node) :=
  mkNode (n_ptr n) (n_size n) v (n_next n).
Definition with_next (v : option ChunkHandle) (n : Node) :=
  mkNode (n_ptr n) (n_size n) (n_prev n) v.

(** [nd] maps handles to nodes, [reg lo hi] says that [lo, hi) is a region, [sl]
    is the handle registered at an address. *)
Definition grid (reg : Z -> Z -> Prop) (p : Z) : Prop :=
  exists lo hi, reg lo hi /\ lo <= p < hi /\ (256 | p - lo).

Definition live (nd : nat -> option Node) (reg : Z -> Z -> Prop) (sl : Z -> option nat)
    (h : nat) (n : Node) : Prop :=
  nd h = Some n /\ grid reg (n_ptr n) /\ sl (n_ptr n) = Some h.

Lemma live_fun nd reg sl h n m : live nd reg sl h n -> live nd reg sl h m -> n = m.
Proof. intros (? & _) (? & _). congruence. Qed.

(** Disjoint regions of whole multiples of 256 bytes. *)
Record regions_wf (reg : Z -> Z -> Prop) : Prop := {
  reg_size : forall lo hi, reg lo hi -> 0 < lo < hi /\ (256 | hi - lo);
  reg_same : forall lo hi lo' hi' a,
    reg lo hi -> reg lo' hi' -> lo <= a < hi -> lo' <= a < hi' -> lo = lo' /\ hi = hi';
}.

(** A chunk lies in the region [lo, hi) and its links lead to its neighbours. *)
Record placed (nd : nat -> option Node) (reg : Z -> Z -> Prop) (sl : Z -> option nat)
    (h : nat) (n : Node) (lo hi : Z) : Prop := {
  pl_reg : reg lo hi;
  pl_lo : lo <= n_ptr n;
  pl_hi : n_end n <= hi;
  pl_grid : (256 | n_ptr n - lo);
  pl_pos : 0 < n_size n;
  pl_size : (256 | n_size n);
  pl_next : match n_next n with
            | None => n_end n = hi
            | Some k => n_end n < hi /\ sl (n_end n) = Some k /\
                        exists m, nd k = Some m /\ n_prev m = Some h
            end;
  pl_prev : match n_prev n with
            | None => n_ptr n = lo
            | Some k => exists m, live nd reg sl k m /\ n_next m = Some h
            end;
}.

Record heap_ok (nd : nat -> option Node) (reg : Z -> Z -> Prop) (sl : Z -> option nat) :
    Prop := {
  hp_reg : regions_wf reg;
  hp_slot : forall p h, grid reg p -> sl p = Some h ->
    exists n, nd h = Some n /\ n_ptr n = p;
  hp_first : forall lo hi, reg lo hi -> exists h, sl lo = Some h;
  hp_placed : forall h n, live nd reg sl h n -> exists lo hi, placed nd reg sl h n lo hi;
  hp_gap : forall h n q, live nd reg sl h n -> n_ptr n < q < n_end n -> grid reg q ->
    sl q = None;
}.

#[global] Arguments reg_size {reg}.
#[global] Arguments reg_same {reg}.
#[global] Arguments hp_reg {nd reg sl}.
#[global] Arguments hp_slot {nd reg sl}.
#[global] Arguments hp_first {nd reg sl}.
#[global] Arguments hp_placed {nd reg sl}.
#[global] Arguments hp_gap {nd reg sl}.
#[global] Arguments pl_reg {nd reg sl h n lo hi}.
#[global] Arguments pl_lo {nd reg sl h n lo hi}.
#[global] Arguments pl_hi {nd reg sl h n lo hi}.
#[global] Arguments pl_next {nd reg sl h n lo hi}.
#[global] Arguments pl_prev {nd reg sl h n lo hi}.

(** ** Consequences *)

Section Facts.
Context (nd : nat -> option Node) (reg : Z -> Z -> Prop) (sl : Z -> option nat).
Hypothesis H : heap_ok nd reg sl.
#[local] Abbreviation live := (live nd reg sl).
#[local] Abbreviation placed := (placed nd reg sl).

Lemma grid_lo lo hi : reg lo hi -> grid reg lo.
Proof.
  intros Hr. destruct (reg_size (hp_reg H) _ _ Hr).
  exists lo, hi. rewrite Z.sub_diag. split_and!; [done|lia|lia|apply Z.divide_0_r].
Qed.

Lemma live_inj h n h' n' : live h n -> live h' n' -> n_ptr n = n_ptr n' -> h = h' /\ n = n'.
Proof. intros (? & ? & ?) (? & ? & ?) Hp. rewrite Hp in *. by simplify_eq. Qed.

Lemma slot_live p h : grid reg p -> sl p = Some h -> exists n, live h n /\ n_ptr n = p.
Proof.
  intros Hg Hs. destruct (hp_slot H _ _ Hg Hs) as (n & Hn & Hp).
  exists n. subst p. done.
Qed.

(** Two live chunks never overlap. *)
Lemma live_disjoint h n h' n' a :
  live h n -> live h' n' -> n_ptr n <= a < n_end n -> n_ptr n' <= a < n_end n' ->
  h = h' /\ n = n'.
Proof.
  intros Hl Hl' Ha Ha'.
  destruct (Z.lt_trichotomy (n_ptr n) (n_ptr n')) as [Hlt|[He|Hlt]].
  - pose proof (hp_gap H h n (n_ptr n') Hl ltac:(lia) (proj1 (proj2 Hl'))) as Hg.
    destruct Hl' as (_ & _ & Hs). congruence.
  - by apply live_inj.
  - pose proof (hp_gap H h' n' (n_ptr n) Hl' ltac:(lia) (proj1 (proj2 Hl))) as Hg.
    destruct Hl as (_ & _ & Hs). congruence.
Qed.

Lemma live_pos h n : live h n -> 0 < n_size n.
Proof. intros Hl. destruct (hp_placed H _ _ Hl) as (? & ? & Hp). apply Hp. Qed.

Lemma live_end_grid h n k : live h n -> n_next n = Some k -> grid reg (n_end n).
Proof.
  intros Hl Hk. destruct (hp_placed H _ _ Hl) as (lo & hi & [Hr Hlo Hhi Hg Hpos Hsz Hn _]).
  rewrite Hk in Hn. exists lo, hi. unfold n_end in *. split_and!; [done|lia|lia|].
  replace (n_ptr n + n_size n - lo) with (n_ptr n - lo + n_size n) by lia.
  by apply Z.divide_add_r.
Qed.

(** The next chunk begins where the chunk ends. *)
Lemma live_next h n k :
  live h n -> n_next n = Some k ->
  exists m, live k m /\ n_ptr m = n_end n /\ n_prev m = Some h.
Proof.
  intros Hl Hk. pose proof (live_end_grid h n k Hl Hk) as Hg.
  destruct (hp_placed H _ _ Hl) as (lo & hi & [_ _ _ _ _ _ Hn _]).
  rewrite Hk in Hn. destruct Hn as (_ & Hs & m & Hm & Hpm).
  destruct (hp_slot H _ _ Hg Hs) as (m' & Hm' & Hp).
  assert (m' = m) as -> by congruence. exists m. split_and!; [|done..]. split; [done|]. rewrite Hp. done.
Qed.

Lemma live_prev h n k :
  live h n -> n_prev n = Some k ->
  exists m, live k m /\ n_end m = n_ptr n /\ n_next m = Some h.
Proof.
  intros Hl Hk. destruct (hp_placed H _ _ Hl) as (lo & hi & Hp).
  pose proof (pl_prev Hp) as Hpv. rewrite Hk in Hpv.
  destruct Hpv as (m & Hm & Hnx). exists m. split_and!; [done| |done].
  destruct (live_next _ _ _ Hm Hnx) as (m' & Hm' & He & _).
  destruct Hl as (Hl & _), Hm' as (Hm' & _). rewrite Hl in Hm'. by simplify_eq.
Qed.

Lemma live_next_ne h n k : live h n -> n_next n = Some k -> k <> h.
Proof.
  intros Hl Hk ->. destruct (live_next h n h Hl Hk) as (m & (Hm & _) & He & _).
  pose proof (live_pos h n Hl). destruct Hl as (Hl & _).
  assert (m = n) as -> by congruence. unfold n_end in He. lia.
Qed.

Lemma live_prev_ne h n k : live h n -> n_prev n = Some k -> k <> h.
Proof.
  intros Hl Hk ->. destruct (live_prev h n h Hl Hk) as (m & Hm & He & Hn).
  by apply (live_next_ne h m h Hm Hn).
Qed.

(** Links are injective: the other link leads back. *)
Lemma live_next_inj h1 n1 h2 n2 k :
  live h1 n1 -> live h2 n2 -> n_next n1 = Some k -> n_next n2 = Some k -> h1 = h2.
Proof.
  intros H1 H2 E1 E2. destruct (live_next _ _ _ H1 E1) as (m1 & (Hm1 & _) & _ & P1).
  destruct (live_next _ _ _ H2 E2) as (m2 & (Hm2 & _) & _ & P2). congruence.
Qed.

Lemma live_prev_next h n j m : live h n -> live j m -> n_prev m = Some h -> n_next n = Some j.
Proof.
  intros Hl Hm Hp. destruct (live_prev _ _ _ Hm Hp) as (n' & (Hn' & _) & _ & Hx).
  destruct Hl as (Hn & _). congruence.
Qed.

(** A chunk whose next link is empty ends its region. *)
Lemma live_reg_unique h n lo hi :
  live h n -> reg lo hi -> lo <= n_ptr n < hi -> placed h n lo hi.
Proof.
  intros Hl Hr Ha. destruct (hp_placed H _ _ Hl) as (lo' & hi' & Hp).
  destruct (reg_same (hp_reg H) lo hi lo' hi' (n_ptr n)) as [-> ->]; try done.
  - apply Hp.
  - destruct Hp as [? ? Hhi ? ? ? ? ?]. unfold n_end in Hhi. lia.
Qed.

(** The chunks of a region cover it: whatever holds at its start and is passed
    on from a chunk to the next one holds of some chunk around every address. *)
Lemma region_covered lo hi a :
  reg lo hi -> lo <= a < hi -> exists h n, live h n /\ n_ptr n <= a < n_end n.
Proof.
  intros Hr Ha.
  assert (Hg : forall d, 0 <= d -> forall h n, live h n -> lo <= n_ptr n <= a -> d = a - n_ptr n ->
    exists h n, live h n /\ n_ptr n <= a < n_end n).
  { intros d Hd. pattern d. apply Z_lt_induction; [|done]. clear d Hd.
    intros d IH h n Hl Hb ->. destruct (Z.lt_ge_cases a (n_end n)); [exists h, n; split; [done|lia]|].
    destruct (live_reg_unique h n lo hi Hl Hr ltac:(lia)) as [_ _ Hhi _ Hpos _ Hn _].
    destruct (n_next n) as [k|] eqn:Ek; [|lia].
    destruct (live_next _ _ _ Hl Ek) as (m & Hm & He & _).
    unfold n_end in *. apply (IH (a - n_ptr m) ltac:(lia) k m Hm); [lia|done]. }
  destruct (hp_first H lo hi Hr) as [h Hs].
  destruct (slot_live lo h (grid_lo lo hi Hr) Hs) as (n & Hl & Hp).
  apply (Hg (a - lo) ltac:(lia) h n Hl); lia.
Qed.
End Facts.
#[global] Arguments grid_lo {nd reg sl}.
#[global] Arguments live_inj {nd reg sl}.
#[global] Arguments slot_live {nd reg sl}.
#[global] Arguments live_disjoint {nd reg sl}.
#[global] Arguments live_pos {nd reg sl}.
#[global] Arguments live_end_grid {nd reg sl}.
#[global] Arguments live_next {nd reg sl}.
#[global] Arguments live_prev {nd reg sl}.
#[global] Arguments live_next_ne {nd reg sl}.
#[global] Arguments live_prev_ne {nd reg sl}.
#[global] Arguments live_next_inj {nd reg sl}.
#[global] Arguments live_prev_next {nd reg sl}.
#[global] Arguments live_reg_unique {nd reg sl}.
#[global] Arguments region_covered {nd reg sl}.

(** A chunk that keeps its place is placed when its links are right. *)
Lemma placed_links nd reg sl nd' reg' sl' h m m' lo hi :
  placed nd reg sl h m lo hi -> n_ptr m' = n_ptr m -> n_size m' = n_size m -> reg' lo hi ->
  match n_next m' with
  | None => n_end m' = hi
  | Some k => n_end m' < hi /\ sl' (n_end m') = Some k /\
              exists x, nd' k = Some x /\ n_prev x = Some h
  end ->
  match n_prev m' with
  | None => n_ptr m' = lo
  | Some k => exists x, live nd' reg' sl' k x /\ n_next x = Some h
  end ->
  placed nd' reg' sl' h m' lo hi.
Proof.
  intros [? ? Hhi ? ? ? _ _] Ep Es Hr Hn Hp. unfold n_end in *.
  split; try done; unfold n_end; by rewrite ?Ep, ?Es.
Qed.

(** ** Splitting a chunk *)

Definition split_nd (nd : nat -> option Node) (h hn : nat) (n : Node) (k : Z) :
    nat -> option Node := fun j =>
  if decide (j = hn) then Some (mkNode (n_ptr n + k) (n_size n - k) (Some h) (n_next n))
  else if decide (j = h) then Some (mkNode (n_ptr n) k (n_prev n) (Some hn))
  else if decide (n_next n = Some j) then with_prev (Some hn) <$> nd j
  else nd j.
Definition set_sl (sl : Z -> option nat) (p : Z) (v : option nat) : Z -> option nat :=
  fun q => if decide (q = p) then v else sl q.

Section Split.
Context (nd : nat -> option Node) (reg : Z -> Z -> Prop) (sl : Z -> option nat).
Hypothesis H : heap_ok nd reg sl.
Context (h hn : nat) (n : Node) (k : Z).
Hypothesis Hl : live nd reg sl h n.
Hypothesis Hnew : forall m, ~ live nd reg sl hn m.
Hypothesis Hk : 0 < k < n_size n.
Hypothesis Hdiv : (256 | k).
Let nd' := split_nd nd h hn n k.
Let sl' := set_sl sl (n_ptr n + k) (Some hn).

Lemma split_hn_ne j m : live nd reg sl j m -> j <> hn.
Proof. intros Hj ->. by apply (Hnew m). Qed.

Lemma split_grid : grid reg (n_ptr n + k).
Proof.
  destruct (hp_placed H _ _ Hl) as (lo & hi & [Hr Hlo Hhi Hg _ _ _ _]).
  exists lo, hi. unfold n_end in *. split_and!; [done|lia|lia|].
  replace (n_ptr n + k - lo) with (n_ptr n - lo + k) by lia. by apply Z.divide_add_r.
Qed.

Lemma split_slot_none : sl (n_ptr n + k) = None.
Proof. apply (hp_gap H h n); [done|unfold n_end; lia|apply split_grid]. Qed.

(** The other chunks stay live, with the same place and the same next link. *)
Lemma split_other j m :
  live nd reg sl j m -> j <> h ->
  live nd' reg sl' j (if decide (n_next n = Some j) then with_prev (Some hn) m else m).
Proof.
  intros Hj Hne. pose proof (split_hn_ne j m Hj). destruct Hj as (Hm & Hg & Hs).
  assert (n_ptr m <> n_ptr n + k) by (intros He; rewrite He, split_slot_none in Hs; done).
  unfold live, nd', sl', split_nd, set_sl.
  rewrite !decide_False by done. rewrite Hm. case_decide; simpl; by rewrite decide_False.
Qed.

Lemma split_old : live nd' reg sl' h (mkNode (n_ptr n) k (n_prev n) (Some hn)).
Proof.
  pose proof (split_hn_ne h n Hl). destruct Hl as (Hm & Hg & Hs).
  unfold live, nd', sl', split_nd, set_sl. simpl.
  rewrite (decide_False (P := h = hn)), decide_True by done. rewrite decide_False by lia. done.
Qed.

Lemma split_new : live nd' reg sl' hn (mkNode (n_ptr n + k) (n_size n - k) (Some h) (n_next n)).
Proof.
  unfold live, nd', sl', split_nd, set_sl. simpl. rewrite !decide_True by done.
  split_and!; [done|apply split_grid|done].
Qed.

(** And there are no other live chunks. *)
Lemma split_live_inv j m' :
  live nd' reg sl' j m' ->
  (j = hn /\ m' = mkNode (n_ptr n + k) (n_size n - k) (Some h) (n_next n)) \/
  (j = h /\ m' = mkNode (n_ptr n) k (n_prev n) (Some hn)) \/
  (j <> h /\ j <> hn /\ exists m, live nd reg sl j m /\
     m' = if decide (n_next n = Some j) then with_prev (Some hn) m else m).
Proof.
  unfold live at 1. unfold nd', split_nd. intros (Hm & Hg & Hs).
  case_decide as E1; [left; by simplify_eq|].
  case_decide as E2; [right; left; by simplify_eq|].
  right. right. split_and!; [done..|].
  unfold sl', set_sl in Hs. case_decide as E3; [by simplify_eq|].
  case_decide as E4; [|by exists m'].
  apply fmap_Some in Hm as (m & Hm & ->). exists m. done.
Qed.

(** The next link of a chunk other than [h] leads to the same place as before. *)
Lemma split_next_other j m x :
  live nd reg sl j m -> j <> h -> n_next m = Some x ->
  sl' (n_end m) = Some x /\ exists y, nd' x = Some y /\ n_prev y = Some j.
Proof.
  intros Hm Hj Hx. destruct (live_next H _ _ _ Hm Hx) as (y & Hy & Hpy & Hpv).
  destruct (decide (x = h)) as [->|Hxh].
  - destruct split_old as (Ho & _ & Hs). pose proof (live_fun _ _ _ _ _ _ Hy Hl) as ->.
    rewrite <- Hpy. split; [exact Hs|]. eexists. split; [exact Ho|done].
  - assert (n_next n <> Some x) as Hnx.
    { intros He. by rewrite (live_next_inj H _ _ _ _ _ Hm Hl Hx He) in Hj. }
    pose proof (split_other x y Hy Hxh) as Ho. rewrite decide_False in Ho by done.
    destruct Ho as (Ho & _ & Hs). rewrite <- Hpy. split; [exact Hs|]. by exists y.
Qed.

Lemma split_placed_old lo hi :
  placed nd reg sl h n lo hi ->
  placed nd' reg sl' h (mkNode (n_ptr n) k (n_prev n) (Some hn)) lo hi.
Proof.
  intros [Hr Hlo Hhi Hg Hpos Hsz Hn Hp]. unfold n_end in *. split; unfold n_end; simpl; try done; try lia.
  - destruct split_new as (Ho & _ & Hs). split_and!; [lia|exact Hs|]. eexists. split; [exact Ho|done].
  - destruct (n_prev n) as [x|] eqn:Ex; [|done]. destruct Hp as (mx & Hmx & Hnx).
    pose proof (live_prev_ne H _ _ _ Hl Ex) as Hx.
    eexists. split; [exact (split_other x mx Hmx Hx)|]. by case_decide.
Qed.

Lemma split_placed_new lo hi :
  placed nd reg sl h n lo hi ->
  placed nd' reg sl' hn (mkNode (n_ptr n + k) (n_size n - k) (Some h) (n_next n)) lo hi.
Proof.
  intros [Hr Hlo Hhi Hg Hpos Hsz Hn Hp]. unfold n_end in *. split; unfold n_end; simpl; try done; try lia.
  - replace (n_ptr n + k - lo) with (n_ptr n - lo + k) by lia. by apply Z.divide_add_r.
  - by apply Z.divide_sub_r.
  - replace (n_ptr n + k + (n_size n - k)) with (n_ptr n + n_size n) by lia.
    destruct (n_next n) as [x|] eqn:Ex; [|done]. destruct Hn as (Hlt & Hs & _).
    destruct (live_next H h n x Hl Ex) as (mx & Hmx & Hpx & _).
    pose proof (live_next_ne H _ _ _ Hl Ex) as Hx.
    pose proof (split_other x mx Hmx Hx) as (Hx' & _). rewrite decide_True in Hx' by done.
    split_and!; [done|unfold sl', set_sl; by rewrite decide_False by lia|].
    eexists. split; [exact Hx'|done].
  - eexists. split; [apply split_old|done].
Qed.

Lemma split_placed_other j m lo hi :
  live nd reg sl j m -> j <> h -> placed nd reg sl j m lo hi ->
  placed nd' reg sl' j (if decide (n_next n = Some j) then with_prev (Some hn) m else m) lo hi.
Proof.
  intros Hm Hj Hpl. apply (placed_links _ _ _ _ _ _ _ _ _ _ _ Hpl); [by case_decide..|apply Hpl| |].
  - replace (n_next (if decide _ then _ else _)) with (n_next m) by (by case_decide).
    replace (n_end (if decide _ then _ else _)) with (n_end m) by (by case_decide).
    pose proof (pl_next Hpl) as Hn. destruct (n_next m) as [x|] eqn:Ex; [|done].
    split; [apply Hn|]. by apply (split_next_other j m).
  - case_decide as Ec; simpl; [eexists; split; [apply split_new|done]|].
    pose proof (pl_prev Hpl) as Hp. destruct (n_prev m) as [x|] eqn:Ex; [|done].
    destruct Hp as (y & Hy & Hny). assert (x <> h) as Hx.
    { intros ->. by rewrite (live_prev_next H _ _ _ _ Hl Hm Ex) in Ec. }
    eexists. split; [exact (split_other x y Hy Hx)|]. by case_decide.
Qed.

Lemma split_gap j m' q :
  live nd' reg sl' j m' -> n_ptr m' < q < n_end m' -> grid reg q -> sl' q = None.
Proof.
  unfold sl', set_sl.
  intros [[-> ->]|[[-> ->]|(Hj1 & Hj2 & m & Hm & ->)]]%split_live_inv Hq Hg; unfold n_end in Hq; simpl in Hq.
  - rewrite decide_False by lia. apply (hp_gap H h n); [done|unfold n_end; lia|done].
  - rewrite decide_False by lia. apply (hp_gap H h n); [done|unfold n_end; lia|done].
  - assert (n_ptr m < q < n_end m) as Hq' by (unfold n_end; by case_decide).
    destruct (decide (q = n_ptr n + k)) as [->|E]; [|by apply (hp_gap H j m)].
    destruct (live_disjoint H _ _ _ _ (n_ptr n + k) Hm Hl ltac:(lia) ltac:(unfold n_end; lia)) as [-> _].
    done.
Qed.

Lemma split_heap_ok : heap_ok nd' reg sl'.
Proof.
  split.
  - apply H.
  - intros p j Hg Hs. unfold sl', set_sl in Hs. case_decide as E.
    + injection Hs as <-. rewrite E. destruct split_new as (? & _). eexists. split; done.
    + destruct (slot_live H _ _ Hg Hs) as (m & Hm & Hp).
      destruct (decide (j = h)) as [->|Hj].
      * destruct split_old as (? & _). eexists. split; [done|]. simpl.
        destruct Hl as (? & _), Hm as (? & _). congruence.
      * destruct (split_other j m Hm Hj) as (? & _). eexists. split; [done|]. by case_decide.
  - intros lo hi Hr. destruct (hp_first H _ _ Hr) as [j Hj]. unfold sl', set_sl.
    case_decide; eauto.
  - intros j m' [[-> ->]|[[-> ->]|(Hj1 & Hj2 & m & Hm & ->)]]%split_live_inv.
    + destruct (hp_placed H _ _ Hl) as (lo & hi & Hp). eauto using split_placed_new.
    + destruct (hp_placed H _ _ Hl) as (lo & hi & Hp). eauto using split_placed_old.
    + destruct (hp_placed H _ _ Hm) as (lo & hi & Hp). eauto using split_placed_other.
  - exact split_gap.
Qed.
End Split.

(** ** Merging a chunk with the next one *)

(** [d] is what becomes of the chunk merged away; its handle is free. *)
Definition merge_nd (nd : nat -> option Node) (h1 h2 : nat) (n1 n2 : Node) (d : option Node) :
    nat -> option Node := fun j =>
  if decide (j = h2) then d
  else if decide (j = h1) then
    Some (mkNode (n_ptr n1) (n_size n1 + n_size n2) (n_prev n1) (n_next n2))
  else if decide (n_next n2 = Some j) then with_prev (Some h1) <$> nd j
  else nd j.

Section Merge.
Context (nd : nat -> option Node) (reg : Z -> Z -> Prop) (sl : Z -> option nat).
Hypothesis H : heap_ok nd reg sl.
Context (h1 h2 : nat) (n1 n2 : Node) (d : option Node).
Hypothesis Hl1 : live nd reg sl h1 n1.
Hypothesis Hl2 : live nd reg sl h2 n2.
Hypothesis Hnext : n_next n1 = Some h2.
Let nd' := merge_nd nd h1 h2 n1 n2 d.
Let sl' := set_sl sl (n_ptr n2) None.
Let merged := mkNode (n_ptr n1) (n_size n1 + n_size n2) (n_prev n1) (n_next n2).

Lemma merge_ne : h2 <> h1.
Proof. exact (live_next_ne H _ _ _ Hl1 Hnext). Qed.

Lemma merge_adjacent : n_ptr n2 = n_end n1 /\ n_prev n2 = Some h1.
Proof.
  destruct (live_next H _ _ _ Hl1 Hnext) as (m & Hm & He & Hp).
  by pose proof (live_fun _ _ _ _ _ _ Hm Hl2) as ->.
Qed.

Lemma merge_sl q j : sl q = Some j -> j <> h2 -> sl' q = Some j.
Proof.
  intros Hs Hj. unfold sl', set_sl. case_decide as E; [|done].
  subst q. destruct Hl2 as (_ & _ & Hs2). congruence.
Qed.

Lemma merge_other j m :
  live nd reg sl j m -> j <> h1 -> j <> h2 ->
  live nd' reg sl' j (if decide (n_next n2 = Some j) then with_prev (Some h1) m else m).
Proof.
  intros (Hm & Hg & Hs) Hj1 Hj2.
  assert (sl' (n_ptr m) = Some j) by by apply merge_sl.
  unfold live, nd', merge_nd. rewrite !decide_False by done. rewrite Hm. by case_decide.
Qed.

Lemma merge_new : live nd' reg sl' h1 merged.
Proof.
  pose proof merge_ne as Hne. destruct Hl1 as (Hm & Hg & Hs).
  assert (sl' (n_ptr n1) = Some h1) by (apply merge_sl; done).
  unfold live, nd', merge_nd. by rewrite decide_False, decide_True.
Qed.

Lemma merge_live_inv j m' :
  live nd' reg sl' j m' ->
  (j = h1 /\ m' = merged) \/
  (j <> h1 /\ j <> h2 /\ exists m, live nd reg sl j m /\
     m' = if decide (n_next n2 = Some j) then with_prev (Some h1) m else m).
Proof.
  intros (Hm & Hg & Hs). unfold sl', set_sl in Hs. case_decide as E; [done|].
  unfold nd', merge_nd in Hm. case_decide as E1.
  { subst j. exfalso. destruct (hp_slot H _ _ Hg Hs) as (x & Hx & Hp).
    destruct Hl2 as (Hx' & _). congruence. }
  case_decide as E2; [left; by injection Hm as <-|].
  right. split_and!; [done..|].
  case_decide as E4; [|by exists m'].
  apply fmap_Some in Hm as (m & Hm & ->). exists m. done.
Qed.

(** The end of the second chunk. *)
Lemma merge_next_new x :
  n_next n2 = Some x -> sl' (n_end n2) = Some x /\ exists y, nd' x = Some y /\ n_prev y = Some h1.
Proof.
  intros Hx. destruct (live_next H _ _ _ Hl2 Hx) as (y & Hy & Hpy & _).
  pose proof (live_next_ne H _ _ _ Hl2 Hx) as Hx2.
  assert (x <> h1) as Hx1.
  { intros ->. pose proof (live_fun _ _ _ _ _ _ Hy Hl1) as ->.
    destruct merge_adjacent as [Ha _]. pose proof (live_pos H _ _ Hl1).
    pose proof (live_pos H _ _ Hl2). unfold n_end in *. lia. }
  pose proof (merge_other x y Hy Hx1 Hx2) as Ho. rewrite decide_True in Ho by done.
  destruct Ho as (Ho & _ & Hs). simpl in Hs. rewrite <- Hpy. split; [exact Hs|].
  eexists. split; [exact Ho|done].
Qed.

Lemma merge_placed_new lo hi : placed nd reg sl h1 n1 lo hi -> placed nd' reg sl' h1 merged lo hi.
Proof.
  intros [Hr Hlo Hhi Hg Hpos Hsz Hn Hp]. destruct merge_adjacent as [Ha Hpv].
  rewrite Hnext in Hn. destruct Hn as (Hlt & _).
  destruct (live_reg_unique H h2 n2 lo hi Hl2 Hr) as [_ _ Hhi2 _ Hpos2 Hsz2 Hn2 _];
    [unfold n_end in *; lia|].
  assert (n_end merged = n_end n2) as Hend by (unfold n_end in *; simpl; lia).
  split; simpl; try done; try (unfold n_end in *; simpl; lia).
  - by apply Z.divide_add_r.
  - rewrite Hend. destruct (n_next n2) as [x|] eqn:Ex; [|done].
    split; [apply Hn2|]. by apply merge_next_new.
  - destruct (n_prev n1) as [x|] eqn:Ex; [|done]. destruct Hp as (mx & Hmx & Hnx).
    pose proof (live_prev_ne H _ _ _ Hl1 Ex) as Hx.
    assert (x <> h2) as Hx2.
    { intros ->. pose proof (live_fun _ _ _ _ _ _ Hmx Hl2) as ->.
      destruct (live_prev H _ _ _ Hl1 Ex) as (y & Hy & He & _).
      pose proof (live_fun _ _ _ _ _ _ Hy Hl2) as ->. unfold n_end in *. lia. }
    eexists. split; [exact (merge_other x mx Hmx Hx Hx2)|]. by case_decide.
Qed.

Lemma merge_next_other j m x :
  live nd reg sl j m -> j <> h1 -> j <> h2 -> n_next m = Some x ->
  sl' (n_end m) = Some x /\ exists y, nd' x = Some y /\ n_prev y = Some j.
Proof.
  intros Hm Hj Hj2 Hx. destruct (live_next H _ _ _ Hm Hx) as (y & Hy & Hpy & Hpv).
  assert (x <> h2) as Hx2.
  { intros ->. by rewrite (live_next_inj H _ _ _ _ _ Hm Hl1 Hx Hnext) in Hj. }
  destruct (decide (x = h1)) as [->|Hx1].
  - pose proof (live_fun _ _ _ _ _ _ Hy Hl1) as ->. destruct merge_new as (Ho & _ & Hs).
    rewrite <- Hpy. split; [exact Hs|]. eexists. split; [exact Ho|done].
  - pose proof (merge_other x y Hy Hx1 Hx2) as Ho.
    assert (n_next n2 <> Some x) as E.
    { intros E. by rewrite (live_next_inj H _ _ _ _ _ Hm Hl2 Hx E) in Hj2. }
    rewrite decide_False in Ho by done.
    destruct Ho as (Ho & _ & Hs). rewrite <- Hpy. split; [exact Hs|]. by exists y.
Qed.

Lemma merge_placed_other j m lo hi :
  live nd reg sl j m -> j <> h1 -> j <> h2 -> placed nd reg sl j m lo hi ->
  placed nd' reg sl' j (if decide (n_next n2 = Some j) then with_prev (Some h1) m else m) lo hi.
Proof.
  intros Hm Hj Hj2 Hpl. apply (placed_links _ _ _ _ _ _ _ _ _ _ _ Hpl); [by case_decide..|apply Hpl| |].
  - replace (n_next (if decide _ then _ else _)) with (n_next m) by (by case_decide).
    replace (n_end (if decide _ then _ else _)) with (n_end m) by (by case_decide).
    pose proof (pl_next Hpl) as Hn. destruct (n_next m) as [x|] eqn:Ex; [|done].
    split; [apply Hn|]. by apply (merge_next_other j m).
  - case_decide as Ec; simpl; [eexists; split; [apply merge_new|done]|].
    pose proof (pl_prev Hpl) as Hp. destruct (n_prev m) as [x|] eqn:Ex; [|done].
    destruct Hp as (y & Hy & Hny).
    assert (x <> h1) as Hx.
    { intros ->. pose proof (live_prev_next H _ _ _ _ Hl1 Hm Ex) as E. congruence. }
    assert (x <> h2) as Hx2.
    { intros ->. by rewrite (live_prev_next H _ _ _ _ Hl2 Hm Ex) in Ec. }
    eexists. split; [exact (merge_other x y Hy Hx Hx2)|]. by case_decide.
Qed.

Lemma merge_gap j m' q :
  live nd' reg sl' j m' -> n_ptr m' < q < n_end m' -> grid reg q -> sl' q = None.
Proof.
  unfold sl', set_sl. destruct (decide (q = n_ptr n2)) as [|E]; [done|].
  intros [[-> ->]|(Hj1 & Hj2 & m & Hm & ->)]%merge_live_inv Hq Hg.
  - destruct merge_adjacent as [Ha _]. unfold n_end in *. simpl in Hq.
    destruct (Z.lt_ge_cases q (n_ptr n1 + n_size n1)).
    + apply (hp_gap H h1 n1); [done|unfold n_end; lia|done].
    + apply (hp_gap H h2 n2); [done|unfold n_end; lia|done].
  - apply (hp_gap H j m); [done| |done]. unfold n_end in *. by case_decide.
Qed.

Lemma merge_first lo hi : reg lo hi -> exists j, sl' lo = Some j.
Proof.
  intros Hr. destruct (hp_first H _ _ Hr) as [j Hj]. unfold sl', set_sl.
  case_decide as E; [|eauto]. exfalso.
  destruct (hp_placed H _ _ Hl2) as (lo' & hi' & Hp2).
  destruct (hp_placed H _ _ Hl1) as (lo1 & hi1 & Hp1).
  destruct merge_adjacent as [Ha Hpv].
  pose proof (pl_next Hp1) as Hn. rewrite Hnext in Hn. destruct Hn as (Hlt & _).
  destruct Hp1 as [Hr1 Hlo1 _ _ Hpos1 _ _ _], (reg_size (hp_reg H) _ _ Hr).
  unfold n_end in *.
  destruct (reg_same (hp_reg H) lo hi lo1 hi1 lo Hr Hr1); lia.
Qed.

Lemma merge_heap_ok : heap_ok nd' reg sl'.
Proof.
  split.
  - apply H.
  - intros p j Hg Hs. unfold sl', set_sl in Hs. case_decide as E; [done|].
    destruct (slot_live H _ _ Hg Hs) as (m & Hm & Hp).
    assert (j <> h2) as Hj2 by (intros ->; pose proof (live_fun _ _ _ _ _ _ Hm Hl2); congruence).
    destruct (decide (j = h1)) as [->|Hj].
    + destruct merge_new as (? & _). eexists. split; [done|].
      pose proof (live_fun _ _ _ _ _ _ Hm Hl1). simpl. congruence.
    + destruct (merge_other j m Hm Hj Hj2) as (? & _). eexists. split; [done|]. by case_decide.
  - exact merge_first.
  - intros j m' [[-> ->]|(Hj1 & Hj2 & m & Hm & ->)]%merge_live_inv.
    + destruct (hp_placed H _ _ Hl1) as (lo & hi & Hp). eauto using merge_placed_new.
    + destruct (hp_placed H _ _ Hm) as (lo & hi & Hp). eauto using merge_placed_other.
  - exact merge_gap.
Qed.
End Merge.

(** ** Forgetting regions *)

(** The invariant speaks only of the chunks registered in the regions, so it
    survives when regions are dropped and anything else changes. *)
Section Restrict.
Context (nd nd' : nat -> option Node) (reg reg' : Z -> Z -> Prop) (sl sl' : Z -> option nat).
Hypothesis H : heap_ok nd reg sl.
Hypothesis Hreg : forall lo hi, reg' lo hi -> reg lo hi.
Hypothesis Hsl : forall p, grid reg' p -> sl' p = sl p.
Hypothesis Hnd : forall p j, grid reg' p -> sl p = Some j -> nd' j = nd j.

Lemma restrict_grid p : grid reg' p -> grid reg p.
Proof. intros (lo & hi & Hr & ?). exists lo, hi. eauto. Qed.

Lemma restrict_live j m : live nd' reg' sl' j m <-> live nd reg sl j m /\ grid reg' (n_ptr m).
Proof.
  split.
  - intros (Hm & Hg & Hs). rewrite Hsl in Hs by done. rewrite (Hnd _ _ Hg Hs) in Hm.
    split; [|done]. split_and!; [done| |done]. by apply restrict_grid.
  - intros [(Hm & Hg & Hs) Hg']. split_and!; [by rewrite (Hnd _ _ Hg' Hs)|done|by rewrite Hsl].
Qed.

Lemma restrict_region j m lo hi :
  placed nd reg sl j m lo hi -> grid reg' (n_ptr m) -> reg' lo hi.
Proof.
  intros [Hr Hlo Hhi _ Hpos _ _ _] (lo' & hi' & Hr' & Hin & _). unfold n_end in *.
  destruct (reg_same (hp_reg H) lo hi lo' hi' (n_ptr m) Hr (Hreg _ _ Hr')) as [-> ->];
    [lia..|done].
Qed.

Lemma restrict_heap_ok : heap_ok nd' reg' sl'.
Proof.
  pose proof (hp_reg H) as [Hsize Hsame]. split.
  - split; [eauto|]. intros ????? H1 H2. apply (Hsame _ _ _ _ a); eauto.
  - intros p j Hg Hs. rewrite Hsl in Hs by done. rewrite (Hnd _ _ Hg Hs).
    apply (hp_slot H); [by apply restrict_grid|done].
  - intros lo hi Hr. destruct (hp_first H lo hi (Hreg _ _ Hr)) as [j Hj]. exists j.
    rewrite Hsl; [done|]. destruct (Hsize _ _ (Hreg _ _ Hr)).
    exists lo, hi. rewrite Z.sub_diag. split_and!; [done|lia|lia|apply Z.divide_0_r].
  - intros j m [Hm Hg]%restrict_live. destruct (hp_placed H _ _ Hm) as (lo & hi & Hp).
    pose proof (restrict_region _ _ _ _ Hp Hg) as Hr'. exists lo, hi.
    apply (placed_links _ _ _ _ _ _ _ _ _ _ _ Hp); [done..| |].
    + pose proof (pl_next Hp) as Hn. destruct (n_next m) as [k|] eqn:Ek; [|done].
      destruct Hn as (Hlt & Hs & Hk). destruct Hp as [? ? ? Hgr Hpos Hsz _ _]. unfold n_end in *.
      assert (grid reg' (n_ptr m + n_size m)) as Hge.
      { exists lo, hi. split_and!; [done|lia|lia|].
        replace (n_ptr m + n_size m - lo) with (n_ptr m - lo + n_size m) by lia.
        by apply Z.divide_add_r. }
      rewrite Hsl, (Hnd _ _ Hge Hs) by done. done.
    + pose proof (pl_prev Hp) as Hn. destruct (n_prev m) as [k|] eqn:Ek; [|done].
      destruct (live_prev H _ _ _ Hm Ek) as (x & Hx & He & Hnx).
      exists x. split; [|done]. apply restrict_live. split; [done|].
      destruct (hp_placed H _ _ Hx) as (lo2 & hi2 & Hp2).
      pose proof (pl_next Hp2) as Hn2. rewrite Hnx in Hn2.
      destruct Hp2 as [Hr2 Hlo2 ? Hg2 Hpos2 ? _ _], Hp as [Hr Hlo Hhi ? Hpos ? _ _]. unfold n_end in *.
      destruct (Hsame lo hi lo2 hi2 (n_ptr m) Hr Hr2) as [-> ->]; [lia..|].
      exists lo2, hi2. split_and!; [done|lia|lia|done].
  - intros j m q [Hm Hg]%restrict_live Hq Hgq. rewrite Hsl by done.
    apply (hp_gap H j m); [done..|]. by apply restrict_grid.
Qed.
End Restrict.

(** ** Adding a region *)

Definition add_reg (reg : Z -> Z -> Prop) (a b : Z) : Z -> Z -> Prop :=
  fun lo hi => reg lo hi \/ lo = a /\ hi = b.
Definition set_nd (nd : nat -> option Node) (h : nat) (n : Node) : nat -> option Node :=
  fun j => if decide (j = h) then Some n else nd j.

Section AddRegion.
Context (nd : nat -> option Node) (reg : Z -> Z -> Prop) (sl sl' : Z -> option nat).
Hypothesis H : heap_ok nd reg sl.
Context (h : nat) (a b : Z).
Hypothesis Hwf : regions_wf (add_reg reg a b).
Hypothesis Hnew : forall m, ~ live nd reg sl h m.
Hypothesis Hfresh : ~ reg a b.
Hypothesis Hold : forall p, grid reg p -> sl' p = sl p.
Hypothesis Ha : sl' a = Some h.
Hypothesis Hrest : forall q, a < q < b -> (256 | q - a) -> sl' q = None.
Let n := mkNode a (b - a) None None.
Let nd' := set_nd nd h n.
Let reg' := add_reg reg a b.

Lemma add_range : 0 < a < b /\ (256 | b - a).
Proof. apply (reg_size Hwf). by right. Qed.

Lemma add_apart lo hi x : reg lo hi -> lo <= x < hi -> ~ (a <= x < b).
Proof.
  intros Hr Hx Hab. destruct (reg_same Hwf lo hi a b x) as [-> ->]; [by left|by right|done..].
Qed.

Lemma add_grid p : grid reg' p <-> grid reg p \/ (a <= p < b /\ (256 | p - a)).
Proof.
  split.
  - intros (lo & hi & [Hr|[-> ->]] & Hp & Hd); [left; by exists lo, hi|by right].
  - intros [(lo & hi & Hr & Hp & Hd)|[Hp Hd]].
    + exists lo, hi. split; [by left|done].
    + exists a, b. split; [by right|done].
Qed.

Lemma add_grid_old p : grid reg p -> ~ (a <= p < b).
Proof. intros (lo & hi & Hr & Hp & _). by apply (add_apart lo hi). Qed.

Lemma add_slot q j : grid reg' q -> sl' q = Some j -> (q = a /\ j = h) \/ (grid reg q /\ sl q = Some j).
Proof.
  intros [Hg|[Hq Hd]]%add_grid Hs.
  - right. by rewrite Hold in Hs.
  - left. destruct (decide (q = a)) as [->|]; [split; congruence|].
    rewrite Hrest in Hs by (done || lia). done.
Qed.

Lemma add_old j m : live nd reg sl j m -> live nd' reg' sl' j m.
Proof.
  intros Hj. assert (j <> h) by (intros ->; by apply (Hnew m)).
  destruct Hj as (Hm & Hg & Hs). unfold live, nd', set_nd. rewrite decide_False by done.
  split_and!; [done|apply add_grid; by left|by rewrite Hold].
Qed.

Lemma add_new : live nd' reg' sl' h n.
Proof.
  destruct add_range as [? ?]. unfold live, nd', set_nd. rewrite decide_True by done. simpl.
  split_and!; [done|apply add_grid; right; split; [lia|]|done].
  rewrite Z.sub_diag. apply Z.divide_0_r.
Qed.

Lemma add_live_inv j m : live nd' reg' sl' j m -> (j = h /\ m = n) \/ (j <> h /\ live nd reg sl j m).
Proof.
  intros (Hm & Hg & Hs). unfold nd', set_nd in Hm. case_decide as E; [left; split; congruence|].
  right. split; [done|]. destruct (add_slot _ _ Hg Hs) as [[? ?]|[? ?]]; done.
Qed.

Lemma add_heap_ok : heap_ok nd' reg' sl'.
Proof.
  destruct add_range as [Hab Hd]. split.
  - exact Hwf.
  - intros p j Hg Hs. destruct (add_slot _ _ Hg Hs) as [[-> ->]|[Hg' Hs']].
    + destruct add_new as (? & _). by exists n.
    + destruct (slot_live H _ _ Hg' Hs') as (m & Hm & Hp).
      destruct (add_old _ _ Hm) as (? & _). by exists m.
  - intros lo hi [Hr|[-> ->]]; [|eauto].
    destruct (hp_first H _ _ Hr) as [j Hj]. exists j.
    rewrite Hold; [done|]. by apply (grid_lo H lo hi).
  - intros j m [[-> ->]|[Hj Hm]]%add_live_inv.
    + exists a, b. split; unfold n_end; simpl; try lia; try done; [by right|].
      rewrite Z.sub_diag. apply Z.divide_0_r.
    + destruct (hp_placed H _ _ Hm) as (lo & hi & Hp). exists lo, hi.
      apply (placed_links _ _ _ _ _ _ _ _ _ _ _ Hp); [done..|left; apply Hp| |].
      * pose proof (pl_next Hp) as Hn. destruct (n_next m) as [k|] eqn:Ek; [|done].
        destruct (live_next H _ _ _ Hm Ek) as (x & Hx & He & Hpx).
        destruct (add_old _ _ Hx) as (Hx' & _). split; [apply Hn|].
        rewrite Hold by (by apply (live_end_grid H j m k)).
        split; [apply Hn|]. by exists x.
      * pose proof (pl_prev Hp) as Hn. destruct (n_prev m) as [k|] eqn:Ek; [|done].
        destruct Hn as (x & Hx & Hnx). exists x. split; [by apply add_old|done].
  - intros j m q [[-> ->]|[Hj Hm]]%add_live_inv Hq Hg; unfold n_end in Hq; simpl in Hq.
    + apply add_grid in Hg as [Hg|[Hq' Hd']]; [|apply Hrest; [lia|done]].
      exfalso. apply (add_grid_old q Hg). lia.
    + destruct (hp_placed H _ _ Hm) as (lo & hi & [Hr Hlo Hhi _ _ _ _ _]). unfold n_end in *.
      apply add_grid in Hg as [Hg|[Hq' Hd']].
      * rewrite Hold by done. by apply (hp_gap H j m).
      * exfalso. apply (add_apart lo hi q Hr); lia.
Qed.

Lemma add_live_iff j : (exists m, live nd' reg' sl' j m) <-> (exists m, live nd reg sl j m) \/ j = h.
Proof.
  split.
  - intros [m [[-> _]|[_ Hm]]%add_live_inv]; [by right|left; by exists m].
  - intros [[m Hm]|Hj]; [exists m; by apply add_old|].
    subst j. exists n. apply add_new.
Qed.
End AddRegion.

(** ** Growing the last chunk of a region, and the region with it *)

Definition grow_reg (reg : Z -> Z -> Prop) (lo0 b : Z) : Z -> Z -> Prop :=
  fun lo hi => reg lo hi /\ lo <> lo0 \/ lo = lo0 /\ hi = b.

Section GrowRegion.
Context (nd : nat -> option Node) (reg : Z -> Z -> Prop) (sl sl' : Z -> option nat).
Hypothesis H : heap_ok nd reg sl.
Context (h : nat) (n : Node) (lo0 a b : Z).
Hypothesis Hreg : reg lo0 a.
Hypothesis Hwf : regions_wf (grow_reg reg lo0 b).
Hypothesis Hl : live nd reg sl h n.
Hypothesis Hend : n_end n = a.
Hypothesis Hnone : n_next n = None.
Hypothesis Hab : a < b.
Hypothesis Hold : forall p, grid reg p -> sl' p = sl p.
Hypothesis Hrest : forall q, a <= q < b -> (256 | q - lo0) -> sl' q = None.
Let n' := mkNode (n_ptr n) (n_size n + (b - a)) (n_prev n) None.
Let nd' := set_nd nd h n'.
Let reg' := grow_reg reg lo0 b.

Lemma grow_reg_of lo hi : reg lo hi -> exists hi', reg' lo hi' /\ hi <= hi' /\ (lo <> lo0 -> hi' = hi).
Proof.
  intros Hr. destruct (decide (lo = lo0)) as [->|E].
  - exists b. destruct (reg_size (hp_reg H) _ _ Hr), (reg_size (hp_reg H) _ _ Hreg).
    destruct (reg_same (hp_reg H) lo0 hi lo0 a lo0 Hr Hreg) as [_ ->]; [lia..|].
    split_and!; [right; done|lia|done].
  - exists hi. split_and!; [by left|done|done].
Qed.

Lemma grow_grid p : grid reg' p <-> grid reg p \/ (a <= p < b /\ (256 | p - lo0)).
Proof.
  destruct (reg_size (hp_reg H) _ _ Hreg) as [Hr0 _]. split.
  - intros (lo & hi & [[Hr Hne]|[-> ->]] & Hp & Hd); [left; by exists lo, hi|].
    destruct (Z.lt_ge_cases p a); [left; exists lo0, a; split_and!; [done|lia|lia|done]|].
    right. split; [lia|done].
  - intros [(lo & hi & Hr & Hp & Hd)|[Hp Hd]].
    + destruct (grow_reg_of lo hi Hr) as (hi' & Hr' & Hle & _). exists lo, hi'.
      split_and!; [done|lia|lia|done].
    + exists lo0, b. split_and!; [by right|lia|lia|done].
Qed.

Lemma grow_slot q j : grid reg' q -> sl' q = Some j -> grid reg q /\ sl q = Some j.
Proof.
  intros [Hg|[Hq Hd]]%grow_grid Hs; [by rewrite Hold in Hs|]. by rewrite Hrest in Hs.
Qed.

Lemma grow_other j m : live nd reg sl j m -> j <> h -> live nd' reg' sl' j m.
Proof.
  intros (Hm & Hg & Hs) Hj. unfold live, nd', set_nd. rewrite decide_False by done.
  split_and!; [done|apply grow_grid; by left|by rewrite Hold].
Qed.

Lemma grow_last : live nd' reg' sl' h n'.
Proof.
  destruct Hl as (Hm & Hg & Hs). unfold live, nd', set_nd. rewrite decide_True by done.
  split_and!; [done|apply grow_grid; by left|]. simpl. by rewrite Hold.
Qed.

Lemma grow_live_inv j m : live nd' reg' sl' j m -> (j = h /\ m = n') \/ (j <> h /\ live nd reg sl j m).
Proof.
  intros (Hm & Hg & Hs). unfold nd', set_nd in Hm. case_decide as E; [left; split; congruence|].
  right. split; [done|]. by destruct (grow_slot _ _ Hg Hs).
Qed.

Lemma grow_prev j m k :
  live nd reg sl j m -> n_prev m = Some k ->
  exists x, live nd' reg' sl' k x /\ n_next x = Some j.
Proof.
  intros Hm Ek. destruct (live_prev H _ _ _ Hm Ek) as (x & Hx & _ & Hnx).
  assert (k <> h) by (intros ->; pose proof (live_fun _ _ _ _ _ _ Hx Hl); congruence).
  exists x. split; [by apply grow_other|done].
Qed.

Lemma grow_placed_last : placed nd' reg' sl' h n' lo0 b.
Proof.
  destruct (reg_size (hp_reg H) _ _ Hreg) as [Hr0 Hd0].
  assert (reg' lo0 b) as Hr' by (by right).
  destruct (reg_size Hwf _ _ Hr') as [_ Hd].
  pose proof (live_pos H _ _ Hl) as Hpos0.
  destruct (live_reg_unique H h n lo0 a Hl Hreg) as [_ Hlo Hhi Hg Hpos Hsz _ Hp].
  { destruct (hp_placed H _ _ Hl) as (lo & hi & Hpl).
    pose proof (pl_next Hpl) as Hn. rewrite Hnone in Hn.
    destruct Hpl as [Hr Hlo Hhi _ Hpos _ _ _]. unfold n_end in Hend, Hn, Hhi.
    destruct (Z.lt_ge_cases (n_ptr n) lo0) as [Hlt|]; [|lia].
    destruct (reg_same (hp_reg H) lo hi lo0 a lo0 Hr Hreg); lia. }
  unfold n_end in Hend, Hhi. split; unfold n_end; simpl; try done; try lia.
  - apply Z.divide_add_r; [done|]. replace (b - a) with ((b - lo0) - (a - lo0)) by lia.
    by apply Z.divide_sub_r.
  - pose proof (fun k => grow_prev h n k Hl) as Hgp.
    destruct (n_prev n) as [k|]; [|done]. by apply Hgp.
Qed.

Lemma grow_heap_ok : heap_ok nd' reg' sl'.
Proof.
  split.
  - exact Hwf.
  - intros p j Hg Hs. destruct (grow_slot _ _ Hg Hs) as [Hg' Hs'].
    destruct (slot_live H _ _ Hg' Hs') as (m & Hm & Hp). destruct (decide (j = h)) as [->|Hj].
    + destruct grow_last as (? & _). exists n'. split; [done|].
      by pose proof (live_fun _ _ _ _ _ _ Hm Hl) as ->.
    + destruct (grow_other _ _ Hm Hj) as (? & _). by exists m.
  - assert (forall lo hi, reg lo hi -> exists j, sl' lo = Some j) as Hf.
    { intros lo hi Hr. destruct (hp_first H _ _ Hr) as [j Hj]. exists j.
      rewrite Hold; [done|]. by apply (grid_lo H lo hi). }
    intros lo hi [[Hr _]|[-> ->]]; eauto.
  - intros j m [[-> ->]|[Hj Hm]]%grow_live_inv; [exists lo0, b; apply grow_placed_last|].
    destruct (hp_placed H _ _ Hm) as (lo & hi & Hp).
    destruct (grow_reg_of lo hi (pl_reg Hp)) as (hi' & Hr' & Hle & Hsame).
    exists lo, hi'. pose proof (pl_next Hp) as Hn.
    assert (match n_next m with
            | None => n_end m = hi'
            | Some k => n_end m < hi' /\ sl' (n_end m) = Some k /\
                        exists x, nd' k = Some x /\ n_prev x = Some j
            end).
    { destruct (n_next m) as [k|] eqn:Ek.
      - destruct (live_next H _ _ _ Hm Ek) as (x & Hx & He & Hpx).
        split; [destruct Hn; lia|]. rewrite Hold by (by apply (live_end_grid H j m k)).
        split; [apply Hn|]. unfold nd', set_nd. case_decide as E; [|destruct Hx; eauto].
        subst k. exists n'. split; [done|]. by pose proof (live_fun _ _ _ _ _ _ Hx Hl) as ->.
      - destruct (decide (lo = lo0)) as [->|E]; [|by rewrite Hsame].
        exfalso. apply Hj. pose proof (live_pos H _ _ Hm). pose proof (live_pos H _ _ Hl).
        destruct (reg_size (hp_reg H) _ _ Hreg), (reg_size (hp_reg H) _ _ (pl_reg Hp)).
        destruct (reg_same (hp_reg H) lo0 hi lo0 a lo0 (pl_reg Hp) Hreg) as [_ ->]; [lia..|].
        unfold n_end in *. apply (live_disjoint H j m h n (a - 1) Hm Hl); unfold n_end; lia. }
    destruct Hp as [Hr Hlo Hhi Hgr Hpos Hsz _ Hpv]. split; try done; try lia.
    destruct (n_prev m) as [k|] eqn:Ek; [|done].
    exact (grow_prev j m k Hm Ek).
  - intros j m q [[-> ->]|[Hj Hm]]%grow_live_inv Hq Hg; unfold n_end in *; simpl in Hq.
    + apply grow_grid in Hg as [Hg|[Hq' Hd']]; [|by apply Hrest].
      rewrite Hold by done. destruct (Z.lt_ge_cases q a).
      * apply (hp_gap H h n); [done|unfold n_end; lia|done].
      * exfalso. destruct Hg as (lo & hi & Hr & Hin & Hdv).
        destruct (decide (lo = lo0)) as [->|E].
        { destruct (reg_size (hp_reg H) _ _ Hreg).
          destruct (reg_same (hp_reg H) lo0 hi lo0 a lo0 Hr Hreg) as [_ ->]; lia. }
        destruct (reg_size (hp_reg H) _ _ Hreg).
        destruct (reg_same Hwf lo hi lo0 b q); [left; done|right; done|lia|lia|lia].
    + destruct (hp_placed H _ _ Hm) as (lo & hi & [Hr Hlo Hhi _ Hpos _ _ _]).
      apply grow_grid in Hg as [Hg|[Hq' Hd']]; [|by apply Hrest].
      rewrite Hold by done. by apply (hp_gap H j m).
Qed.
End GrowRegion.

(** ** Appending a chunk to a region

    The last chunk grows and is split where it used to end. *)
Section AppendRegion.
Context (nd : nat -> option Node) (reg : Z -> Z -> Prop) (sl sl' : Z -> option nat).
Hypothesis H : heap_ok nd reg sl.
Context (h hn : nat) (n : Node) (lo0 a b : Z).
Hypothesis Hreg : reg lo0 a.
Hypothesis Hwf : regions_wf (grow_reg reg lo0 b).
Hypothesis Hl : live nd reg sl h n.
Hypothesis Hnew : forall m, ~ live nd reg sl hn m.
Hypothesis Hend : n_end n = a.
Hypothesis Hnone : n_next n = None.
Hypothesis Hab : a < b.
Hypothesis Hold : forall p, grid reg p -> sl' p = sl p.
Hypothesis Hrest : forall q, a <= q < b -> (256 | q - lo0) -> sl' q = None.
Let n' := mkNode (n_ptr n) (n_size n + (b - a)) (n_prev n) None.
Let nd1 := set_nd nd h n'.
Let reg' := grow_reg reg lo0 b.
Let nd2 := split_nd nd1 h hn n' (n_size n).
Let sl2 := set_sl sl' (n_ptr n' + n_size n) (Some hn).

Lemma append_grown : heap_ok nd1 reg' sl' /\ live nd1 reg' sl' h n' /\
  (forall m, ~ live nd1 reg' sl' hn m) /\ 0 < n_size n < n_size n' /\ (256 | n_size n).
Proof.
  destruct (hp_placed H _ _ Hl) as (lo & hi & [_ _ _ _ Hpos Hdiv _ _]). split_and!; try done.
  - apply (grow_heap_ok nd reg sl sl' H h n lo0 a b); done.
  - apply (grow_last nd reg sl sl' H h n lo0 a b); done.
  - intros m Hm. destruct (grow_live_inv nd reg sl sl' H h n lo0 a b Hreg Hab Hold Hrest hn m Hm)
      as [[-> _]|[_ Hm']]; [by apply (Hnew n)|by apply (Hnew m)].
  - unfold n'. simpl. lia.
Qed.

Lemma append_heap_ok : heap_ok nd2 reg' sl2.
Proof.
  destruct append_grown as (H1 & Hl1 & Hn1 & Hk & Hd).
  exact (split_heap_ok nd1 reg' sl' H1 h hn n' (n_size n) Hl1 Hn1 Hk Hd).
Qed.

Lemma append_live_iff j : (exists m, live nd2 reg' sl2 j m) <-> (exists m, live nd reg sl j m) \/ j = hn.
Proof.
  destruct append_grown as (H1 & Hl1 & Hn1 & Hk & Hd). split.
  - intros [m Hj]. destruct (split_live_inv nd1 reg' sl' h hn n' (n_size n) j m Hj)
      as [[-> _]|[[-> _]|(_ & _ & m0 & Hm & _)]].
    + by right.
    + left. by exists n.
    + left. destruct (grow_live_inv nd reg sl sl' H h n lo0 a b Hreg Hab Hold Hrest j m0 Hm)
        as [[-> _]|[_ Hm']]; eauto.
  - intros [[m Hm]| ->].
    + destruct (decide (j = h)) as [->|Hj].
      * eexists. exact (split_old nd1 reg' sl' h hn n' (n_size n) Hl1 Hn1 Hk).
      * pose proof (grow_other nd reg sl sl' H h n lo0 a b Hreg Hab Hold j m Hm Hj) as Hm'.
        eexists. exact (split_other nd1 reg' sl' H1 h hn n' (n_size n) Hl1 Hn1 Hk Hd j m Hm' Hj).
    + eexists. exact (split_new nd1 reg' sl' H1 h hn n' (n_size n) Hl1 Hk Hd).
Qed.
End AppendRegion.
