(* ===== verification/BfcRegions.v ===== *)
(** * The region manager of the allocator

    RegionManager and AllocationRegion of xla/tsl/framework/bfc_allocator.h: the
    regions stay sorted and apart, and together they are a map from the
    256-byte grid of the regions to chunk handles. *)

From Stdlib Require Import ZArith Lia.
From stdpp Require Import sorting.
From S2P Require Import Prelude MachineInt BfcAllocator BfcHeap.

Record region_ok (r : AllocationRegion) : Prop := {
  ro_ptr : 0 < region_ptr r;
  ro_size : 0 < memory_size r;
  ro_div : (256 | memory_size r);
  ro_end : end_ptr r = region_ptr r + memory_size r;
  ro_max : end_ptr r < two64;
  ro_handles : 256 * Zlen (handles_ r) = memory_size r;
}.

Definition before (r1 r2 : AllocationRegion) : Prop := end_ptr r1 <= region_ptr r2.

Definition regions_ok (rs : list AllocationRegion) : Prop :=
  Forall region_ok rs /\ StronglySorted before rs.

Definition reg_of (rs : list AllocationRegion) (lo hi : Z) : Prop :=
  exists r, r ∈ rs /\ region_ptr r = lo /\ end_ptr r = hi.
Definition sl_of (rs : list AllocationRegion) (p : Z) : option ChunkHandle :=
  match region_get_handle rs p with OK v => v | _ => None end.

(** The part of a region that does not change with its handles. *)
Definition extent (r : AllocationRegion) : Z * Z * Z := (region_ptr r, memory_size r, end_ptr r).

Lemma region_ok_nth rs i r : regions_ok rs -> rs !! i = Some r -> region_ok r.
Proof. intros [HF _] Hi. by apply (Forall_lookup_1 _ _ _ _ HF Hi). Qed.

Lemma upper_bound_spec rs i r p :
  regions_ok rs -> rs !! i = Some r -> region_ptr r <= p < end_ptr r -> upper_bound p rs = i.
Proof.
  intros [_ Hs]. revert i. induction Hs as [|a l Hs IH HF]; intros i Hi Hp; [done|].
  destruct i as [|i]; simpl in Hi |- *.
  - simplify_eq. by rewrite (proj2 (Z.ltb_lt _ _)) by lia.
  - pose proof (Forall_lookup_1 _ _ _ _ HF Hi) as Hb. unfold before in Hb.
    rewrite (proj2 (Z.ltb_ge _ _)) by lia. by rewrite (IH i).
Qed.

(** A region is known by its start. *)
Lemma region_ptr_inj rs i j r x :
  regions_ok rs -> rs !! i = Some r -> rs !! j = Some x -> region_ptr x = region_ptr r -> i = j.
Proof.
  intros Hok Hi Hj He. pose proof (region_ok_nth _ _ _ Hok Hi) as [? ? ? ? ? ?].
  pose proof (region_ok_nth _ _ _ Hok Hj) as [? ? ? ? ? ?].
  rewrite <- (upper_bound_spec rs i r (region_ptr r) Hok Hi) by lia.
  apply (upper_bound_spec rs j x _ Hok Hj). lia.
Qed.

(** An address on the grid belongs to one handle slot of one region. *)
Definition cell (rs : list AllocationRegion) (p : Z) (i : nat) (r : AllocationRegion) (k : nat) :=
  rs !! i = Some r /\ p = region_ptr r + 256 * Z.of_nat k /\ (k < length (handles_ r))%nat.

Lemma grid_cell rs p :
  regions_ok rs -> grid (reg_of rs) p <-> exists i r k, cell rs p i r k.
Proof.
  intros Hok. split.
  - intros (lo & hi & (r & [i Hi]%list_elem_of_lookup & <- & <-) & Hp & [k Hk]).
    pose proof (region_ok_nth _ _ _ Hok Hi) as [? ? ? He ? Hl]. unfold Zlen in Hl.
    exists i, r, (Z.to_nat k). split_and!; [done|lia|lia].
  - intros (i & r & k & Hi & -> & Hk). pose proof (region_ok_nth _ _ _ Hok Hi) as [? ? ? He ? Hl].
    unfold Zlen in Hl. exists (region_ptr r), (end_ptr r). split_and!; [|lia|lia|].
    + exists r. split; [|done]. by apply list_elem_of_lookup_2 in Hi.
    + exists (Z.of_nat k). lia.
Qed.

Lemma cell_RegionFor rs p i r k : regions_ok rs -> cell rs p i r k -> RegionFor rs p = OK (i, r).
Proof.
  intros Hok (Hi & -> & Hk). pose proof (region_ok_nth _ _ _ Hok Hi) as [? ? ? He ? Hl].
  unfold Zlen in Hl. unfold RegionFor.
  rewrite (upper_bound_spec rs i r) by (done || lia). by rewrite Hi.
Qed.

Lemma cell_IndexFor rs p i r k : regions_ok rs -> cell rs p i r k -> IndexFor r p = Z.of_nat k.
Proof.
  intros Hok (Hi & -> & Hk). pose proof (region_ok_nth _ _ _ Hok Hi) as [? ? ? He ? Hl].
  unfold Zlen in Hl. unfold IndexFor, u64, kMinAllocationBits.
  rewrite Z.mod_small by lia. rewrite Z.shiftr_div_pow2 by lia.
  replace (region_ptr r + 256 * Z.of_nat k - region_ptr r) with (Z.of_nat k * 2 ^ 8) by lia.
  by rewrite Z.div_mul.
Qed.

Lemma cell_get rs p i r k :
  regions_ok rs -> cell rs p i r k -> handles_ r !! k = Some (sl_of rs p) /\
  region_get_handle rs p = OK (sl_of rs p).
Proof.
  intros Hok Hc. pose proof Hc as (Hi & Hp & Hk).
  destruct (lookup_lt_is_Some_2 _ _ Hk) as [v Hv].
  assert (region_get_handle rs p = OK v) as Hg.
  { unfold region_get_handle. rewrite (cell_RegionFor _ _ _ _ _ Hok Hc). cbn [mbind outcome_bind].
    simpl. rewrite (cell_IndexFor _ _ _ _ _ Hok Hc). unfold handle_at, Zlen.
    rewrite (proj2 (Z.ltb_lt _ _)) by lia. apply at_OK. by rewrite idx_of_nat. }
  unfold sl_of. by rewrite Hg.
Qed.

Lemma cell_handle_at rs p i r k :
  regions_ok rs -> cell rs p i r k -> handle_at (handles_ r) (IndexFor r p) = OK (sl_of rs p).
Proof.
  intros Hok Hc. rewrite <- (proj2 (cell_get _ _ _ _ _ Hok Hc)). unfold region_get_handle.
  by rewrite (cell_RegionFor _ _ _ _ _ Hok Hc).
Qed.

Lemma grid_get rs p :
  regions_ok rs -> grid (reg_of rs) p -> region_get_handle rs p = OK (sl_of rs p).
Proof. intros Hok (i & r & k & Hc)%grid_cell; [|done]. by apply (cell_get rs p i r k). Qed.

(** Every address of a region is in the cell that starts at the multiple of 256 below it. *)
Definition granule (lo p : Z) : Z := lo + 256 * ((p - lo) / 256).

Lemma granule_grid (reg : Z -> Z -> Prop) lo hi p : reg lo hi -> lo <= p < hi -> grid reg (granule lo p) /\ lo <= granule lo p <= p.
Proof.
  intros Hr Hp. assert (0 <= (p - lo) / 256) by (apply Z.div_pos; lia). pose proof (Z.mul_div_le (p - lo) 256 ltac:(lia)).
  unfold granule. split; [|lia]. exists lo, hi. split; [done|]. split; [lia|]. exists ((p - lo) / 256). lia.
Qed.

Lemma granule_get rs lo hi p :
  regions_ok rs -> reg_of rs lo hi -> lo <= p < hi -> region_get_handle rs p = region_get_handle rs (granule lo p).
Proof.
  intros Hok Hr Hp. destruct (granule_grid _ _ _ _ Hr Hp) as [_ Hg]. destruct Hr as (r & [i Hi]%list_elem_of_lookup & <- & <-).
  pose proof (region_ok_nth _ _ _ Hok Hi) as [? ? ? He ? Hl]. unfold region_get_handle, RegionFor.
  rewrite !(upper_bound_spec rs i r) by (done || lia). rewrite Hi. cbn [mbind outcome_bind snd]. f_equal.
  unfold granule, IndexFor, u64, kMinAllocationBits in *. rewrite !Z.mod_small, !Z.shiftr_div_pow2 by lia. change (2 ^ 8) with 256.
  rewrite Z.add_simpl_l, Z.mul_comm. symmetry. by apply Z.div_mul.
Qed.

Lemma cell_fun rs p i r k i' r' k' :
  regions_ok rs -> cell rs p i r k -> cell rs p i' r' k' -> i = i' /\ r = r' /\ k = k'.
Proof.
  intros Hok Hc Hc'. pose proof (cell_RegionFor _ _ _ _ _ Hok Hc) as H1.
  rewrite (cell_RegionFor _ _ _ _ _ Hok Hc') in H1. simplify_eq.
  destruct Hc as (_ & Hp & _), Hc' as (_ & Hp' & _). split_and!; [done..|lia].
Qed.

Lemma reg_of_wf rs : regions_ok rs -> regions_wf (reg_of rs).
Proof.
  intros Hok. split.
  - intros lo hi (r & [i Hi]%list_elem_of_lookup & <- & <-).
    pose proof (region_ok_nth _ _ _ Hok Hi) as [? ? ? He ? Hl].
    split; [lia|]. rewrite He. by replace (region_ptr r + memory_size r - region_ptr r) with (memory_size r) by lia.
  - intros lo hi lo' hi' a (r & [i Hi]%list_elem_of_lookup & <- & <-)
      (r' & [i' Hi']%list_elem_of_lookup & <- & <-) Ha Ha'.
    pose proof (upper_bound_spec _ _ _ _ Hok Hi Ha) as E1.
    pose proof (upper_bound_spec _ _ _ _ Hok Hi' Ha') as E2.
    rewrite E1 in E2. by simplify_eq.
Qed.

(** Whether an address is on the grid can be decided. *)
#[export] Instance grid_reg_of_dec rs p : Decision (grid (reg_of rs) p).
Proof.
  refine (cast_if (decide (Exists (fun r => (region_ptr r <= p < end_ptr r) /\
    (p - region_ptr r) mod 256 = 0) rs))); rewrite Exists_exists in *.
  - destruct e as (r & Hr & Hp & Hd). exists (region_ptr r), (end_ptr r).
    split_and!; [by exists r|lia|lia|]. by apply Z.mod_divide.
  - intros (lo & hi & (r & Hr & <- & <-) & Hp & Hd). apply n. exists r.
    split; [done|]. split; [lia|]. by apply Z.mod_divide.
Defined.

(** ** Extents *)

Lemma reg_of_extent rs rs' lo hi :
  extent <$> rs = extent <$> rs' -> reg_of rs lo hi <-> reg_of rs' lo hi.
Proof.
  assert (forall rs1 rs2 : list AllocationRegion, extent <$> rs1 = extent <$> rs2 ->
    reg_of rs1 lo hi -> reg_of rs2 lo hi) as Hd; [|by split; apply Hd].
  intros rs1 rs2 He (r & Hr & <- & <-).
  assert (extent r ∈ extent <$> rs2) as (r' & Er & Hr')%list_elem_of_fmap
    by (rewrite <- He; by apply list_elem_of_fmap_2).
  exists r'. unfold extent in Er. by simplify_eq.
Qed.

Lemma regions_ok_extent rs rs' :
  extent <$> rs = extent <$> rs' -> regions_ok rs ->
  Forall2 (fun r r' => length (handles_ r) = length (handles_ r')) rs rs' -> regions_ok rs'.
Proof.
  intros He [HF Hs] Hl. revert rs' He Hl.
  induction rs as [|r rs IH]; intros [|r' rs'] He Hl; try done.
  apply Forall_cons in HF as [Hr HF]. apply StronglySorted_inv in Hs as [Hs Hb].
  apply Forall2_cons in Hl as [Hl1 Hl]. injection He as E1 E2 E3 He.
  change (extent <$> rs = extent <$> rs') in He.
  destruct (IH HF Hs rs') as [HF' Hs']; [done|done|]. split.
  - constructor; [|done]. destruct Hr as [? ? ? ? ? Hh]. unfold Zlen in *. rewrite Hl1 in Hh.
    split; unfold Zlen; congruence.
  - constructor; [done|]. rewrite Forall_forall in Hb |- *. intros x Hx.
    assert (extent x ∈ extent <$> rs) as (y & Ey & Hy)%list_elem_of_fmap
      by (rewrite He; by apply list_elem_of_fmap_2).
    specialize (Hb y Hy). unfold before, extent in *. injection Ey as Ey1 Ey2 Ey3. congruence.
Qed.

(** ** set_handle *)

(** Replacing a region by one of the same extent. *)
Lemma extent_insert (rs : list AllocationRegion) i r r' :
  rs !! i = Some r -> extent r' = extent r -> extent <$> <[i := r']> rs = extent <$> rs.
Proof.
  intros Hi He. rewrite list_fmap_insert. apply list_insert_id.
  by rewrite list_lookup_fmap, Hi, He.
Qed.

Lemma regions_ok_insert rs i r r' :
  regions_ok rs -> rs !! i = Some r -> extent r' = extent r ->
  length (handles_ r') = length (handles_ r) -> regions_ok (<[i := r']> rs).
Proof.
  intros Hok Hi He Hl. apply (regions_ok_extent rs); [|done|].
  - symmetry. by apply (extent_insert rs i r).
  - apply Forall2_same_length_lookup_2; [by rewrite length_insert|].
    intros j x y Hx Hy. apply list_lookup_insert_Some in Hy as [(-> & <- & _)|[_ Hy]]; congruence.
Qed.

Definition with_handles (r : AllocationRegion) (hs : list (option ChunkHandle)) :=
  mkRegion (region_ptr r) (memory_size r) (end_ptr r) hs.

Lemma set_handle_cell rs p i r k v :
  regions_ok rs -> cell rs p i r k ->
  region_set_handle rs p v = OK (<[i := with_handles r (<[k := v]> (handles_ r))]> rs).
Proof.
  intros Hok Hc. unfold region_set_handle. rewrite (cell_RegionFor _ _ _ _ _ Hok Hc).
  cbn [mbind outcome_bind]. simpl. rewrite (cell_IndexFor _ _ _ _ _ Hok Hc).
  unfold set_at. destruct Hc as (_ & _ & Hk).
  rewrite (proj2 (Z.leb_le _ _)), (proj2 (Z.ltb_lt _ _)) by lia. simpl. by rewrite Nat2Z.id.
Qed.

Lemma set_handle_spec rs p v :
  regions_ok rs -> grid (reg_of rs) p ->
  exists rs', region_set_handle rs p v = OK rs' /\ regions_ok rs' /\
    extent <$> rs' = extent <$> rs /\
    forall q, grid (reg_of rs) q -> sl_of rs' q = set_sl (sl_of rs) p v q.
Proof.
  intros Hok Hg. pose proof Hg as (i & r & k & Hc)%grid_cell; [|done].
  pose proof Hc as (Hi & Hp & Hk).
  set (r' := with_handles r (<[k := v]> (handles_ r))).
  assert (regions_ok (<[i := r']> rs)) as Hok'.
  { apply (regions_ok_insert rs i r); [done..|]. simpl. by rewrite length_insert. }
  exists (<[i := r']> rs). split_and!; [by apply set_handle_cell|done|by apply (extent_insert rs i r)|].
  intros q (i' & r1 & k' & Hc')%grid_cell; [|done]. unfold set_sl.
  pose proof Hc' as (Hi' & Hq & Hk'). destruct (decide (i' = i)) as [->|Hne].
  - assert (r1 = r) as -> by congruence.
    assert (cell (<[i := r']> rs) q i r' k') as Hc2.
    { split_and!; [|done|simpl; by rewrite length_insert].
      apply list_lookup_insert_eq. by apply lookup_lt_Some in Hi. }
    destruct (cell_get _ _ _ _ _ Hok' Hc2) as [Hv _]. simpl in Hv.
    destruct (cell_get _ _ _ _ _ Hok Hc') as [Hv' _].
    apply list_lookup_insert_Some in Hv as [(-> & <- & _)|[Hkk Hv]].
    + by rewrite decide_True by congruence.
    + rewrite decide_False; [congruence|lia].
  - assert (cell (<[i := r']> rs) q i' r1 k') as Hc2.
    { split_and!; [|done..]. by rewrite list_lookup_insert_ne. }
    destruct (cell_get _ _ _ _ _ Hok' Hc2) as [Hv _].
    destruct (cell_get _ _ _ _ _ Hok Hc') as [Hv' _].
    rewrite decide_False; [congruence|]. intros ->.
    by destruct (cell_fun _ _ _ _ _ _ _ _ Hok Hc Hc') as [-> _].
Qed.

(** ** Adding a region *)

Definition apart (rs : list AllocationRegion) (a b : Z) : Prop :=
  forall lo hi x, reg_of rs lo hi -> lo <= x < hi -> ~ (a <= x < b).

Lemma apart_nth rs a b i r :
  regions_ok rs -> apart rs a b -> rs !! i = Some r -> a < b -> end_ptr r <= a \/ b <= region_ptr r.
Proof.
  intros Hok Ha Hi Hab. pose proof (region_ok_nth _ _ _ Hok Hi) as [? ? ? He ? _].
  assert (reg_of rs (region_ptr r) (end_ptr r)) as Hr.
  { exists r. split; [by apply list_elem_of_lookup_2 in Hi|done]. }
  destruct (Z.le_gt_cases (end_ptr r) a); [by left|].
  destruct (Z.le_gt_cases b (region_ptr r)); [by right|]. exfalso.
  destruct (Z.le_gt_cases (region_ptr r) a).
  - apply (Ha _ _ a Hr); lia.
  - apply (Ha _ _ (region_ptr r) Hr); lia.
Qed.

Lemma new_region_ok a n :
  0 < a -> 0 < n -> (256 | n) -> a + n < two64 -> region_ok (new_region a n).
Proof.
  intros Ha Hn [k Hk] Hm. split; simpl; try done; try lia.
  - by exists k.
  - unfold Zlen. rewrite length_replicate. unfold n_handles, kMinAllocationSize, u64.
    z64. rewrite Z.mod_small by lia.
    replace (n + 256 - 1) with (255 + k * 256) by lia. rewrite Z.div_add by done.
    change (255 / 256) with 0. lia.
Qed.

Lemma upper_bound_le p rs : (upper_bound p rs <= length rs)%nat.
Proof. induction rs as [|r rs IH]; simpl; [done|]. case_match; lia. Qed.

Lemma upper_bound_before p (rs : list AllocationRegion) i r :
  rs !! i = Some r -> (i < upper_bound p rs)%nat -> end_ptr r <= p.
Proof.
  revert i. induction rs as [|a rs IH]; intros i Hi; simpl; [done|].
  destruct (Z.ltb_spec p (end_ptr a)); [lia|]. destruct i as [|i]; simpl in Hi; [by simplify_eq|].
  intros Hl. apply (IH i); [done|lia].
Qed.

Lemma upper_bound_after p rs i r :
  regions_ok rs -> rs !! i = Some r -> (upper_bound p rs <= i)%nat -> p < end_ptr r.
Proof.
  intros [HF Hs]. revert i HF. induction Hs as [|a l Hs IH Hb]; intros i HF Hi Hu; [done|].
  simpl in Hu. apply Forall_cons in HF as [Ha HF].
  destruct (Z.ltb_spec p (end_ptr a)) as [Hlt|Hge].
  - destruct i as [|i]; simpl in Hi; [by simplify_eq|].
    pose proof (Forall_lookup_1 _ _ _ _ Hb Hi) as Hbr. unfold before in Hbr.
    pose proof (Forall_lookup_1 _ _ _ _ HF Hi) as [? ? ? He ? _]. lia.
  - destruct i as [|i]; [lia|]. apply (IH i); [done..|lia].
Qed.

Lemma elem_of_insert_region i r x rs :
  x ∈ insert_region i r rs <-> x = r \/ x ∈ rs.
Proof.
  unfold insert_region. rewrite elem_of_app, elem_of_cons.
  rewrite <- (take_drop i rs) at 3. rewrite elem_of_app. tauto.
Qed.

Lemma insert_region_ok rs a n :
  regions_ok rs -> apart rs a (a + n) -> region_ok (new_region a n) ->
  regions_ok (insert_region (upper_bound a rs) (new_region a n) rs).
Proof.
  intros Hok Hap Hnew. pose proof Hnew as [? Hpos ? He ? _]. simpl in *.
  set (u := upper_bound a rs). split.
  - destruct Hok as [HF _]. unfold insert_region. apply Forall_app. split; [by apply Forall_take|].
    constructor; [done|by apply Forall_drop].
  - assert (Forall (fun x => before x (new_region a n)) (take u rs)) as Hb1.
    { apply Forall_lookup. intros i x Hx. apply lookup_take_Some in Hx as [Hx Hi].
      unfold before. simpl. by apply (upper_bound_before a rs i x). }
    assert (Forall (before (new_region a n)) (drop u rs)) as Hb2.
    { apply Forall_lookup. intros i x Hx. rewrite lookup_drop in Hx. unfold before. simpl.
      pose proof (upper_bound_after a rs _ x Hok Hx ltac:(unfold u; lia)).
      destruct (apart_nth _ _ _ _ _ Hok Hap Hx); lia. }
    destruct Hok as [_ Hs]. rewrite <- (take_drop u rs) in Hs.
    apply StronglySorted_app in Hs as (Hx & Hs1 & Hs2). unfold insert_region.
    apply StronglySorted_app. split_and!; [|done|by constructor].
    intros x y Hxt [->|Hy]%elem_of_cons; [|by apply Hx].
    by apply (Forall_forall (fun x => before x (new_region a n)) (take u rs)).
Qed.

(** The handles of the regions are looked up in the same way in a larger list. *)
Lemma sl_of_cell rs p i r k v :
  regions_ok rs -> cell rs p i r k -> handles_ r !! k = Some v -> sl_of rs p = v.
Proof. intros Hok Hc Hv. destruct (cell_get _ _ _ _ _ Hok Hc). congruence. Qed.

Lemma insert_region_spec rs a n :
  regions_ok rs -> apart rs a (a + n) -> region_ok (new_region a n) ->
  let rs' := insert_region (upper_bound a rs) (new_region a n) rs in
  (forall lo hi, reg_of rs' lo hi <-> add_reg (reg_of rs) a (a + n) lo hi) /\
  (forall p, grid (reg_of rs) p -> sl_of rs' p = sl_of rs p) /\
  (forall q, a <= q < a + n -> (256 | q - a) -> sl_of rs' q = None).
Proof.
  intros Hok Hap Hnew rs'. pose proof (insert_region_ok _ _ _ Hok Hap Hnew) as Hok'.
  fold rs' in Hok'. pose proof (upper_bound_le a rs) as Hu. split_and!.
  - intros lo hi. unfold rs', add_reg, reg_of. setoid_rewrite elem_of_insert_region. split.
    + intros (r & [->|Hr] & <- & <-); [by right|left; eauto].
    + intros [(r & Hr & <- & <-)|[-> ->]]; eexists; split; eauto.
  - intros p (i & r & k & Hc)%grid_cell; [|done]. pose proof Hc as (Hi & Hp & Hk).
    destruct (cell_get _ _ _ _ _ Hok Hc) as [Hv _].
    assert (r ∈ rs') as [j Hj]%list_elem_of_lookup.
    { apply elem_of_insert_region. right. by apply list_elem_of_lookup_2 in Hi. }
    by apply (sl_of_cell rs' p j r k).
  - intros q Hq [k Hk].
    assert (new_region a n ∈ rs') as [j Hj]%list_elem_of_lookup.
    { apply elem_of_insert_region. by left. }
    pose proof (ro_handles _ Hnew) as Hl. unfold Zlen in Hl. simpl in Hl.
    apply (sl_of_cell rs' q j (new_region a n) (Z.to_nat k)); [done| |].
    + split_and!; [done|simpl; lia|simpl; lia].
    + simpl. rewrite length_replicate in Hl. apply lookup_replicate_2. lia.
Qed.

(** ** Extending a region *)

Lemma extend_ok r n :
  region_ok r -> 0 < n -> (256 | n) -> end_ptr r + n < two64 ->
  extend n r = mkRegion (region_ptr r) (memory_size r + n) (end_ptr r + n)
    (handles_ r ++ replicate (Z.to_nat (n / 256)) None) /\ region_ok (extend n r).
Proof.
  intros [Hp Hs [d Hd] He Hm Hl] Hn [k Hk] Hmax. unfold Zlen in Hl.
  assert (extend n r = mkRegion (region_ptr r) (memory_size r + n) (end_ptr r + n)
    (handles_ r ++ replicate (Z.to_nat (n / 256)) None)) as ->.
  { unfold extend, resize_handles, n_handles, kMinAllocationSize, u64.
    rewrite (Z.mod_small (memory_size r + n)) by (z64; lia).
    assert (0 <= memory_size r + n + 256 - 1 < two64 \/ two64 <= memory_size r + n + 256 - 1)
      as [Hsmall|Hbig] by lia.
    - rewrite Z.mod_small by done. replace (memory_size r + n + 256 - 1) with (255 + (d + k) * 256) by lia.
      rewrite Z.div_add by done. change (255 / 256) with 0. rewrite Hk, Z.div_mul by done.
      f_equal. rewrite take_ge by lia. f_equal. f_equal. lia.
    - exfalso. z64. lia. }
  split; [done|]. split; simpl; try lia.
  - exists (d + k). lia.
  - unfold Zlen. rewrite length_app, length_replicate. rewrite Hk, Z.div_mul by done. lia.
Qed.

Lemma AddOrExtend_spec rs a n x rs' :
  regions_ok rs -> apart rs a (a + n) -> region_ok (new_region a n) ->
  AddOrExtendAllocationRegion a n rs = (x, rs') ->
  match x with
  | None => rs' = insert_region (upper_bound a rs) (new_region a n) rs
  | Some i => exists r, rs !! i = Some r /\ end_ptr r = a /\ rs' = <[i := extend n r]> rs
  end.
Proof.
  intros Hok Hap Hnew. unfold AddOrExtendAllocationRegion.
  destruct (upper_bound a rs) as [|i] eqn:Eu; [by intros [= <- <-]|].
  destruct (rs !! i) as [r|] eqn:Er; [|by intros [= <- <-]].
  destruct (Z.eqb_spec (end_ptr r) a); intros [= <- <-]; [|done]. eauto.
Qed.

Lemma extend_regions_ok rs a n i r :
  regions_ok rs -> apart rs a (a + n) -> region_ok (new_region a n) ->
  rs !! i = Some r -> end_ptr r = a -> regions_ok (<[i := extend n r]> rs).
Proof.
  intros Hok Hap Hnew Hi He. pose proof Hnew as [Hp Hn Hd _ Hmax _]. simpl in *.
  destruct (extend_ok r n) as [Hext Hr']; [by apply (region_ok_nth rs i)|done|done|lia|].
  split.
  - apply Forall_lookup. intros j x [(-> & <- & _)|[_ Hx]]%list_lookup_insert_Some; [done|].
    by apply (region_ok_nth rs j).
  - apply sorted_lookup_2. intros j1 j2 x y Hx Hy Hj. unfold before.
    apply list_lookup_insert_Some in Hx as [(-> & <- & _)|[Hj1 Hx]];
    apply list_lookup_insert_Some in Hy as [(<- & <- & _)|[Hj2 Hy]]; try lia.
    + rewrite Hext. simpl. pose proof (proj2 Hok) as Hs.
      pose proof (sorted_lookup _ _ _ _ _ _ Hs Hj Hi Hy) as Hb. unfold before in Hb.
      pose proof (region_ok_nth _ _ _ Hok Hy) as [? ? ? Hey ? _].
      destruct (apart_nth _ _ _ _ _ Hok Hap Hy); lia.
    + rewrite Hext. simpl. apply (sorted_lookup _ _ _ _ _ _ (proj2 Hok) Hj Hx Hi).
    + apply (sorted_lookup _ _ _ _ _ _ (proj2 Hok) Hj Hx Hy).
Qed.

Lemma extend_region_spec rs a n i r :
  regions_ok rs -> apart rs a (a + n) -> region_ok (new_region a n) ->
  rs !! i = Some r -> end_ptr r = a ->
  let rs' := <[i := extend n r]> rs in
  (forall lo hi, reg_of rs' lo hi <-> grow_reg (reg_of rs) (region_ptr r) (a + n) lo hi) /\
  (forall p, grid (reg_of rs) p -> sl_of rs' p = sl_of rs p) /\
  (forall q, a <= q < a + n -> (256 | q - region_ptr r) -> sl_of rs' q = None).
Proof.
  intros Hok Hap Hnew Hi He rs'. pose proof (extend_regions_ok _ _ _ _ _ Hok Hap Hnew Hi He) as Hok'.
  pose proof (region_ok_nth _ _ _ Hok Hi) as Hr. pose proof Hnew as [Hp Hn Hd _ Hmax _]. simpl in *.
  destruct (extend_ok r n) as [Hext _]; [done..|lia|].
  assert (rs' !! i = Some (extend n r)) as Hi'.
  { apply list_lookup_insert_eq. by apply lookup_lt_Some in Hi. }
  split_and!.
  - intros lo hi. unfold grow_reg. split.
    + intros (x & [j Hj]%list_elem_of_lookup & <- & <-).
      apply list_lookup_insert_Some in Hj as [(-> & <- & _)|[Hne Hj]].
      * right. rewrite Hext. simpl. lia.
      * left. split; [exists x; split; [by apply list_elem_of_lookup_2 in Hj|done]|].
        intros Heq. apply Hne. exact (region_ptr_inj _ _ _ _ _ Hok Hi Hj Heq).
    + intros [[(x & [j Hj]%list_elem_of_lookup & <- & <-) Hne]|[-> ->]].
      * exists x. split; [|done]. apply (list_elem_of_lookup_2 _ j). unfold rs'.
        rewrite list_lookup_insert_ne; [done|]. intros ->. congruence.
      * exists (extend n r). split; [by apply (list_elem_of_lookup_2 _ i)|].
        rewrite Hext. simpl. lia.
  - intros p (j & x & k & Hc)%grid_cell; [|done]. pose proof Hc as (Hj & Hpk & Hk).
    destruct (cell_get _ _ _ _ _ Hok Hc) as [Hv _]. destruct (decide (j = i)) as [->|Hne].
    + assert (x = r) as -> by congruence. apply (sl_of_cell rs' p i (extend n r) k); [done| |].
      * rewrite Hext. split_and!; [by rewrite <- Hext|done|simpl; rewrite length_app; lia].
      * rewrite Hext. simpl. by rewrite lookup_app_l.
    + apply (sl_of_cell rs' p j x k); [done| |done]. split_and!; [|done..].
      unfold rs'. by rewrite list_lookup_insert_ne.
  - intros q Hq [k Hk]. pose proof Hr as [? ? [d Hdd] Hend ? Hl]. unfold Zlen in Hl.
    destruct Hd as [e Hde].
    apply (sl_of_cell rs' q i (extend n r) (Z.to_nat k)); [done| |].
    + rewrite Hext. split_and!; [by rewrite <- Hext|simpl; lia|].
      simpl. rewrite length_app, length_replicate, Hde, Z.div_mul by done. lia.
    + rewrite Hext. simpl. rewrite lookup_app_r by lia. apply lookup_replicate_2.
      rewrite Hde, Z.div_mul by done. lia.
Qed.

(** ** Removing a region *)

Lemma delete_region_ok rs i : regions_ok rs -> regions_ok (delete i rs).
Proof.
  intros [HF Hs]. split; [by apply Forall_delete|].
  apply sorted_lookup_2. intros j1 j2 x y Hx Hy Hj.
  destruct (decide (j1 < i)%nat), (decide (j2 < i)%nat);
    rewrite ?list_lookup_delete_lt, ?list_lookup_delete_ge in Hx by lia;
    rewrite ?list_lookup_delete_lt, ?list_lookup_delete_ge in Hy by lia;
    by eapply (sorted_lookup before rs); [done| |done..]; lia.
Qed.

Lemma delete_region_spec rs i r :
  regions_ok rs -> rs !! i = Some r ->
  (forall lo hi, reg_of (delete i rs) lo hi <-> reg_of rs lo hi /\ lo <> region_ptr r) /\
  (forall p, grid (reg_of (delete i rs)) p -> sl_of (delete i rs) p = sl_of rs p).
Proof.
  intros Hok Hi. pose proof (delete_region_ok _ i Hok) as Hok'.
  assert (forall j x, delete i rs !! j = Some x -> exists j', rs !! j' = Some x /\ j' <> i) as Hdel.
  { intros j x Hx. destruct (decide (j < i)%nat).
    - rewrite list_lookup_delete_lt in Hx by done. exists j. split; [done|lia].
    - rewrite list_lookup_delete_ge in Hx by lia. exists (S j). split; [done|lia]. }
  split.
  - intros lo hi. split.
    + intros (x & [j Hj]%list_elem_of_lookup & <- & <-). destruct (Hdel _ _ Hj) as (j' & Hj' & Hne).
      split; [exists x; split; [by apply list_elem_of_lookup_2 in Hj'|done]|]. intros Heq. apply Hne.
      symmetry. exact (region_ptr_inj _ _ _ _ _ Hok Hi Hj' Heq).
    + intros [(x & [j Hj]%list_elem_of_lookup & <- & <-) Hne]. exists x. split; [|done].
      assert (j <> i) by (intros ->; congruence). destruct (decide (j < i)%nat).
      * apply (list_elem_of_lookup_2 _ j). by rewrite list_lookup_delete_lt.
      * apply (list_elem_of_lookup_2 _ (j - 1)). rewrite list_lookup_delete_ge by lia.
        by replace (S (j - 1)) with j by lia.
  - intros p (j & x & k & Hc)%grid_cell; [|done]. pose proof Hc as (Hj & Hp & Hk).
    destruct (Hdel _ _ Hj) as (j' & Hj' & _). destruct (cell_get _ _ _ _ _ Hok' Hc) as [Hv _].
    symmetry. by apply (sl_of_cell rs p j' x k).
Qed.
