(* ===== verification/BfcInv.v ===== *)
(** * The bins, and the invariant of the allocator. *)

From Stdlib Require Import ZArith Lia.
From stdpp Require Import sorting.
From S2P Require Import Prelude MachineInt BfcAllocator BfcHeap BfcRegions.

(** ** Sizes, bins and free-chunk sets of the allocator

    RoundedBytes, BinNumForSize and the ordered sets of free chunks of
    xla/tsl/framework/bfc_allocator.{h,cc}. *)

(** ** RoundedBytes *)

Lemma RoundedBytes_eq n :
  0 <= n <= two64 - 256 -> RoundedBytes n = 256 * ((n + 255) / 256).
Proof.
  intros Hn. unfold RoundedBytes, kMinAllocationSize, u64.
  pose proof (Z.div_mod (n + 255) 256 ltac:(done)).
  pose proof (Z.mod_pos_bound (n + 255) 256 ltac:(done)).
  rewrite (Z.mod_small (n + 256 - 1)) by (z64; lia).
  replace (n + 256 - 1) with (n + 255) by lia. rewrite Z.mod_small; [done|z64; lia].
Qed.

Lemma RoundedBytes_bounds n :
  0 <= n <= two64 - 256 ->
  n <= RoundedBytes n < n + 256 /\ (256 | RoundedBytes n).
Proof.
  intros Hn. rewrite RoundedBytes_eq by done. split.
  - pose proof (Z.div_mod (n + 255) 256 ltac:(done)).
    pose proof (Z.mod_pos_bound (n + 255) 256 ltac:(done)). lia.
  - apply Z.divide_factor_l.
Qed.

(** ** BinNumForSize *)

Lemma BinNumForSize_lt n : (BinNumForSize n < kNumBins)%nat.
Proof.
  unfold BinNumForSize, kNumBins. pose proof (Z.log2_nonneg (Z.shiftr (Z.max n 256) kMinAllocationBits)).
  lia.
Qed.

Lemma BinNumForSize_mono m n : m <= n -> (BinNumForSize m <= BinNumForSize n)%nat.
Proof.
  intros Hmn. unfold BinNumForSize. apply Z2Nat.inj_le.
  - pose proof (Z.log2_nonneg (Z.shiftr (Z.max m 256) kMinAllocationBits)). unfold kNumBins. lia.
  - pose proof (Z.log2_nonneg (Z.shiftr (Z.max n 256) kMinAllocationBits)). unfold kNumBins. lia.
  - apply Z.min_le_compat_l. apply Z.log2_le_mono.
    unfold kMinAllocationBits. rewrite !Z.shiftr_div_pow2 by lia. apply Z.div_le_mono; lia.
Qed.

(** Bin [b] holds the sizes from [256 * 2^b] up to the next bin, the last one
    everything from there on. *)
Lemma BinNumForSize_range n b :
  256 <= n -> BinNumForSize n = b ->
  BinNumToSize b <= n /\ ((b < 20)%nat -> n < BinNumToSize (S b)).
Proof.
  intros Hn <-. unfold BinNumToSize, BinNumForSize, kNumBins, kMinAllocationBits.
  rewrite Z.max_l by lia. rewrite !Z.shiftl_mul_pow2 by lia. rewrite Z.shiftr_div_pow2 by lia.
  change (2 ^ 8) with 256. set (v := n / 256).
  assert (0 < v) as Hv by (unfold v; apply Z.div_str_pos; lia).
  pose proof (Z.log2_spec v Hv) as [Hlo Hhi]. pose proof (Z.log2_nonneg v).
  pose proof (Z.div_mod n 256 ltac:(done)) as Hdm. pose proof (Z.mod_pos_bound n 256 ltac:(done)).
  fold v in Hdm. split.
  - transitivity (256 * 2 ^ Z.log2 v); [|lia]. apply Z.mul_le_mono_nonneg_l; [done|].
    apply Z.pow_le_mono_r; lia.
  - intros Hb. replace (Z.of_nat (S _)) with (Z.succ (Z.log2 v)) by lia. lia.
Qed.

(** ** The order of the free chunks *)

Lemma chunk_less_spec a b :
  chunk_less a b = true <-> size a < size b \/ size a = size b /\ ptr a < ptr b.
Proof.
  unfold chunk_less. destruct (Z.eqb_spec (size a) (size b)); simpl; rewrite Z.ltb_lt; lia.
Qed.

Lemma chunk_less_trans a b c :
  chunk_less a b = true -> chunk_less b c = true -> chunk_less a c = true.
Proof. rewrite !chunk_less_spec. lia. Qed.

(** In a vector of chunks: the order by size and then address. *)
Definition less (cs : list Chunk) (h k : ChunkHandle) : Prop :=
  exists a b, cs !! h = Some a /\ cs !! k = Some b /\ chunk_less a b = true.

Definition set_ok (cs : list Chunk) (l : list ChunkHandle) : Prop :=
  StronglySorted (less cs) l /\ Forall (fun h => exists c, cs !! h = Some c) l.

Lemma less_irrefl cs h : ~ less cs h h.
Proof. intros (a & b & Ha & Hb & Hl%chunk_less_spec). simplify_eq. lia. Qed.

Lemma less_trans cs h k j : less cs h k -> less cs k j -> less cs h j.
Proof.
  intros (a & b & Ha & Hb & H1) (b' & c & Hb' & Hc & H2). exists a, c.
  split_and!; [done..|]. assert (b' = b) as -> by congruence. by apply (chunk_less_trans a b c).
Qed.

Lemma ChunkComparator_eval cs h k a b :
  cs !! h = Some a -> cs !! k = Some b -> ChunkComparator cs h k = OK (chunk_less a b).
Proof. intros Ha Hb. unfold ChunkComparator. by rewrite Ha, Hb. Qed.

Lemma set_ok_cons cs h l :
  set_ok cs (h :: l) <->
  (exists c, cs !! h = Some c) /\ Forall (less cs h) l /\ set_ok cs l.
Proof.
  unfold set_ok. rewrite Forall_cons. split.
  - intros [[? ?]%StronglySorted_inv [? ?]]. done.
  - intros (? & ? & ? & ?). split; [by constructor|done].
Qed.

Lemma set_ok_nil cs : set_ok cs [].
Proof. split; constructor. Qed.

Lemma set_ok_NoDup cs l : set_ok cs l -> NoDup l.
Proof.
  induction l as [|h l IH]; intros Hl; [constructor|]. apply set_ok_cons in Hl as (_ & HF & Hl).
  constructor; [|by apply IH]. intros Hin. rewrite Forall_forall in HF.
  by apply (less_irrefl cs h), HF.
Qed.

Lemma set_insert_spec cs h c l :
  set_ok cs l -> cs !! h = Some c ->
  (forall k d, k ∈ l -> cs !! k = Some d -> size d = size c -> ptr d = ptr c -> False) ->
  exists l', set_insert cs h l = OK l' /\ set_ok cs l' /\ forall k, k ∈ l' <-> k = h \/ k ∈ l.
Proof.
  intros Hl Hc Hne. induction l as [|k l IH].
  - exists [h]. split_and!; [done| |intros k; set_solver].
    apply set_ok_cons. split_and!; [eauto|constructor|done].
  - pose proof Hl as ([d Hd] & HF & Hl')%set_ok_cons. simpl.
    rewrite (ChunkComparator_eval _ _ _ _ _ Hc Hd). cbn [mbind outcome_bind].
    destruct (chunk_less c d) eqn:E1.
    { exists (h :: k :: l). split_and!; [done| |intros j; set_solver].
      apply set_ok_cons. split_and!; [eauto| |done]. assert (less cs h k) as Hhk by (exists c, d; done).
      constructor; [done|]. apply (Forall_impl _ _ _ HF). intros j. by apply less_trans. }
    rewrite (ChunkComparator_eval _ _ _ _ _ Hd Hc). cbn [mbind outcome_bind].
    assert (chunk_less d c = true) as E2.
    { apply chunk_less_spec. pose proof (Hne k d ltac:(left) Hd) as Hx.
      assert (~ (size c < size d \/ size c = size d /\ ptr c < ptr d))
        by (rewrite <- chunk_less_spec; by rewrite E1).
      destruct (Z.lt_trichotomy (size d) (size c)) as [?|[?|?]]; [by left| |lia].
      right. split; [done|]. destruct (Z.lt_trichotomy (ptr d) (ptr c)) as [?|[?|?]]; [done|tauto|lia]. }
    rewrite E2. destruct IH as (l' & El & Hl2 & Hin); [done| |].
    { intros j e Hj. apply Hne. by right. }
    rewrite El. simpl. exists (k :: l'). split_and!; [done| |].
    + apply set_ok_cons. split_and!; [eauto| |done]. apply Forall_forall. intros j Hj%Hin.
      destruct Hj as [->|Hj]; [by exists d, c|]. by apply (Forall_forall (less cs k) l).
    + intros j. rewrite !elem_of_cons, Hin. tauto.
Qed.

Lemma set_erase_spec cs h l :
  set_ok cs l -> h ∈ l ->
  exists l', set_erase cs h l = OK (l', 1) /\ set_ok cs l' /\ forall k, k ∈ l' <-> k ∈ l /\ k <> h.
Proof.
  intros Hl Hh. induction l as [|k l IH]; [by apply not_elem_of_nil in Hh|].
  pose proof Hl as ([d Hd] & HF & Hl')%set_ok_cons. simpl. apply elem_of_cons in Hh as [->|Hh].
  - rewrite !(ChunkComparator_eval _ _ _ _ _ Hd Hd). cbn [mbind outcome_bind].
    assert (chunk_less d d = false) as -> by (apply not_true_iff_false; rewrite chunk_less_spec; lia).
    cbn [mbind outcome_bind]. exists l. split_and!; [done..|]. intros j. rewrite elem_of_cons.
    rewrite Forall_forall in HF. split; [|tauto]. intros Hj. split; [by right|].
    intros ->. by apply (less_irrefl cs k), HF.
  - pose proof (proj1 (Forall_forall (less cs k) l) HF h Hh) as (d' & c & Hd' & Hc & Hlt).
    assert (d' = d) as -> by congruence.
    rewrite (ChunkComparator_eval _ _ _ _ _ Hd Hc), Hlt. cbn [mbind outcome_bind].
    destruct (IH Hl' Hh) as (l' & El & Hl2 & Hin). rewrite El. simpl.
    exists (k :: l'). split_and!; [done| |].
    + apply set_ok_cons. split_and!; [eauto| |done]. apply Forall_forall. intros j [Hj _]%Hin.
      by apply (Forall_forall (less cs k) l).
    + intros j. rewrite !elem_of_cons, Hin.
      assert (k <> h) by (intros ->; by apply (less_irrefl cs h), (proj1 (Forall_forall _ _) HF)).
      split; [intros [->|[? ?]]; tauto|intros [[->|?] ?]; tauto].
Qed.

Lemma set_filter_spec cs h l :
  set_ok cs l -> set_ok cs (filter (fun k => k <> h) l).
Proof.
  induction l as [|k l IH]; intros Hl; [done|].
  pose proof Hl as ([d Hd] & HF & Hl')%set_ok_cons. rewrite filter_cons. case_decide; [|by apply IH].
  apply set_ok_cons. split_and!; [eauto| |by apply IH]. apply Forall_forall.
  intros j [_ Hj]%list_elem_of_filter. by apply (Forall_forall (less cs k) l).
Qed.

(** The order reads only the sizes and addresses of the members. *)
Lemma set_ok_ext cs cs' l :
  (forall h c, h ∈ l -> cs !! h = Some c ->
     exists c', cs' !! h = Some c' /\ size c' = size c /\ ptr c' = ptr c) ->
  set_ok cs l -> set_ok cs' l.
Proof.
  induction l as [|k l IH]; intros Hext Hl; [apply set_ok_nil|].
  apply set_ok_cons in Hl as ([d Hd] & HF & Hl'). apply set_ok_cons. split_and!.
  - destruct (Hext k d ltac:(left) Hd) as (d' & ? & _). eauto.
  - apply Forall_forall. intros j Hj.
    destruct (proj1 (Forall_forall (less cs k) l) HF j Hj) as (d1 & c & Hd1 & Hc & Hlt%chunk_less_spec).
    destruct (Hext k d1 ltac:(left) Hd1) as (d' & Hd' & Es & Ep).
    destruct (Hext j c ltac:(by right) Hc) as (c' & Hc' & Es' & Ep').
    exists d', c'. split; [done|]. split; [done|]. rewrite chunk_less_spec. lia.
  - apply IH; [|done]. intros h c Hh. apply Hext. by right.
Qed.

(** ** The invariant of the allocator's state

    [Inv] relates the chunk vector, the regions, the bins, the list of unused
    chunks and the statistics of xla/tsl/framework/bfc_allocator.cc.  It is kept
    by every private operation; between two operations of one method some chunks
    are free but in no bin ([X]) and some belong to no region any more ([D]). *)

(** ** Weakest preconditions

    [wp d m s Q]: from state [s] the computation [m] returns a value and a state
    that satisfy [Q].  It does not crash; it may run out of fuel only when [d]
    allows divergence. *)
Section Wp.
Context {Sub : Type}.
Implicit Types s : bfc Sub.

Definition wp {A} (d : bool) (m : M Sub A) s (Q : A -> bfc Sub -> Prop) : Prop :=
  match m s with
  | OK (a, s') => Q a s'
  | NoFuel => d = true
  | _ => False
  end.

Lemma wp_bind {A B} d (m : M Sub A) (k : A -> M Sub B) s Q :
  wp d m s (fun a s' => wp d (k a) s' Q) -> wp d (m ≫= k) s Q.
Proof. unfold wp, mbind, M_bind. by destruct (m s) as [[a s']| | |]. Qed.

Lemma wp_assoc {A B C} d (m : M Sub A) (k : A -> M Sub B) (k' : M Sub C) s Q :
  wp d (m ≫= k) s (fun _ s' => wp d k' s' Q) -> wp d (a ← m; _ ← k a; k') s Q.
Proof.
  unfold wp, mbind, M_bind. destruct (m s) as [[a s']| | |]; try done.
  by destruct (k a s') as [[b s2]| | |].
Qed.

Lemma wp_mono {A} d (m : M Sub A) s (Q Q' : A -> bfc Sub -> Prop) :
  wp d m s Q -> (forall a s', Q a s' -> Q' a s') -> wp d m s Q'.
Proof. unfold wp. destruct (m s) as [[a s']| | |]; auto. Qed.

Lemma wp_ret {A} d (a : A) s Q : Q a s -> wp d (mret a) s Q.
Proof. done. Qed.
Lemma wp_gets {A} d (f : bfc Sub -> A) s Q : Q (f s) s -> wp d (gets f) s Q.
Proof. done. Qed.
Lemma wp_modify d f s Q : Q () (f s) -> wp d (modify (Sub := Sub) f) s Q.
Proof. done. Qed.
Lemma wp_lift {A} d (o : outcome A) a s Q : o = OK a -> Q a s -> wp d (lift o) s Q.
Proof. by intros ->. Qed.
Lemma wp_mcheck d b s Q : b = true -> Q () s -> wp d (mcheck b) s Q.
Proof. by intros ->. Qed.
Lemma wp_chunk d h c s Q :
  chunks_ s !! h = Some c -> Q c s -> wp d (ChunkFromHandle h) s Q.
Proof. intros Hc HQ. unfold wp, ChunkFromHandle. by rewrite Hc. Qed.
Lemma wp_upd d h f c s Q :
  chunks_ s !! h = Some c -> Q () (with_chunks (<[h := f c]> (chunks_ s)) s) ->
  wp d (upd_chunk h f) s Q.
Proof. intros Hc HQ. unfold wp, upd_chunk. by rewrite Hc. Qed.
Lemma wp_nth {A} d (l : list A) i a s Q : l !! i = Some a -> Q a s -> wp d (nth_ l i) s Q.
Proof. intros Hi HQ. unfold wp, nth_. by rewrite Hi. Qed.
Lemma wp_bin d b l s Q : bins_ s !! b = Some l -> Q l s -> wp d (BinFromIndex b) s Q.
Proof. intros Hc HQ. unfold wp, BinFromIndex. by rewrite Hc. Qed.

(** Without fuel there is nothing to diverge: a total proof is a partial one. *)
Lemma wp_total {A} d (m : M Sub A) s Q : wp false m s Q -> wp d m s Q.
Proof. unfold wp. by destruct (m s) as [[a s']| | |]. Qed.

Lemma wp_OK {A} d (m : M Sub A) s Q a s' : m s = OK (a, s') -> wp d m s Q -> Q a s'.
Proof. unfold wp. by intros ->. Qed.
Lemma wp_false {A} (m : M Sub A) s Q : wp false m s Q <-> exists a s', m s = OK (a, s') /\ Q a s'.
Proof.
  unfold wp. destruct (m s) as [[a s']| | |]; split; try done; try by intros (? & ? & ? & ?).
  - eauto.
  - by intros (? & ? & [= <- <-] & ?).
Qed.
End Wp.

(** ** The invariant *)

Definition node_of (c : Chunk) : Node := mkNode (ptr c) (size c) (prev c) (next c).
Definition nd_of (cs : list Chunk) (h : nat) : option Node := node_of <$> cs !! h.

(** The chunk [c] at [h] is registered in one of the regions [R]. *)
Definition lv (R : Z -> Z -> Prop) (cs : list Chunk) (rs : list AllocationRegion)
    (h : nat) (c : Chunk) : Prop :=
  cs !! h = Some c /\ grid R (ptr c) /\ sl_of rs (ptr c) = Some h.

Definition used_bytes (c : Chunk) : Z := if in_use c then size c else 0.
Fixpoint sum (l : list Z) : Z := match l with [] => 0 | x :: l => x + sum l end.

(** The handles of the list of unused chunks, in order. *)
Fixpoint free_chain (cs : list Chunk) (o : option ChunkHandle) (fl : list ChunkHandle) : Prop :=
  match fl with
  | [] => o = None
  | h :: fl => o = Some h /\ exists c, cs !! h = Some c /\ free_chain cs (next c) fl
  end.

Definition bins_ok (cs : list Chunk) (bins : list (list ChunkHandle)) : Prop :=
  length bins = kNumBins /\
  (forall h c b, cs !! h = Some c -> bin_num c = Some b -> (b < kNumBins)%nat) /\
  forall b l, bins !! b = Some l ->
    set_ok cs l /\ (forall h, h ∈ l <-> exists c, cs !! h = Some c /\ bin_num c = Some b).

Record Inv {Sub} (R : Z -> Z -> Prop) (X D : gset nat) (s : bfc Sub) : Prop := {
  i_regs : regions_ok (regions_ s);
  i_sub : forall lo hi, R lo hi -> reg_of (regions_ s) lo hi;
  i_heap : heap_ok (nd_of (chunks_ s)) R (sl_of (regions_ s));
  i_live : forall h c, lv R (chunks_ s) (regions_ s) h c ->
    if in_use c then bin_num c = None /\ h ∉ X
    else bin_num c = if decide (h ∈ X) then None else Some (BinNumForSize (size c));
  i_dead : forall h c, chunks_ s !! h = Some c -> ~ lv R (chunks_ s) (regions_ s) h c ->
    in_use c = false /\ (h ∉ D -> bin_num c = None);
  i_X : forall h, h ∈ X -> exists c, lv R (chunks_ s) (regions_ s) h c /\ in_use c = false;
  i_D : forall h, h ∈ D -> exists c, chunks_ s !! h = Some c /\ ~ lv R (chunks_ s) (regions_ s) h c;
  i_bins : bins_ok (chunks_ s) (bins_ s);
  i_free : exists fl, free_chain (chunks_ s) (free_chunks_list_ s) fl /\ NoDup fl /\
    forall h, h ∈ fl -> (h ∉ D) /\
      exists c, chunks_ s !! h = Some c /\ ~ lv R (chunks_ s) (regions_ s) h c;
  i_used : bytes_in_use (stats_ s) = i64 (sum (used_bytes <$> chunks_ s));
  i_pool : pool_bytes (stats_ s) = i64 (sum (memory_size <$> regions_ s));
  i_next : 0 < next_allocation_id_ s;
  i_ids : forall h c, chunks_ s !! h = Some c -> in_use c = true ->
    0 < allocation_id c < next_allocation_id_ s;
  i_unique : forall h h' c c', chunks_ s !! h = Some c -> chunks_ s !! h' = Some c' ->
    in_use c = true -> allocation_id c = allocation_id c' -> h = h';
}.

#[global] Arguments i_regs {Sub R X D s}.
#[global] Arguments i_sub {Sub R X D s}.
#[global] Arguments i_heap {Sub R X D s}.
#[global] Arguments i_live {Sub R X D s}.
#[global] Arguments i_dead {Sub R X D s}.
#[global] Arguments i_X {Sub R X D s}.
#[global] Arguments i_D {Sub R X D s}.
#[global] Arguments i_bins {Sub R X D s}.
#[global] Arguments i_free {Sub R X D s}.
#[global] Arguments i_used {Sub R X D s}.
#[global] Arguments i_pool {Sub R X D s}.
#[global] Arguments i_next {Sub R X D s}.
#[global] Arguments i_ids {Sub R X D s}.
#[global] Arguments i_unique {Sub R X D s}.

Lemma live_lv R cs rs h n :
  live (nd_of cs) R (sl_of rs) h n <-> exists c, lv R cs rs h c /\ n = node_of c.
Proof.
  unfold live, lv, nd_of. split.
  - intros (Hn & Hg & Hs). apply fmap_Some in Hn as (c & Hc & ->). by exists c.
  - intros (c & (Hc & Hg & Hs) & ->). by rewrite Hc.
Qed.

Lemma lv_live R cs rs h c : lv R cs rs h c -> live (nd_of cs) R (sl_of rs) h (node_of c).
Proof. intros Hl. apply live_lv. by exists c. Qed.

Lemma lv_fun R cs rs h c c' : lv R cs rs h c -> cs !! h = Some c' -> c' = c.
Proof. intros (Hc & _) Hc'. congruence. Qed.

Lemma lv_valid R cs rs h c : lv R cs rs h c -> (h < length cs)%nat.
Proof. intros (Hc & _). by apply lookup_lt_Some in Hc. Qed.

(** ** The chunk vector *)

Lemma nd_of_insert cs h c' j :
  (h < length cs)%nat ->
  nd_of (<[h := c']> cs) j = if decide (j = h) then Some (node_of c') else nd_of cs j.
Proof.
  intros Hh. unfold nd_of. case_decide as E.
  - subst j. by rewrite list_lookup_insert_eq.
  - by rewrite list_lookup_insert_ne.
Qed.

Lemma lookup_insert_cases (cs : list Chunk) h c' j c :
  <[h := c']> cs !! j = Some c ->
  (j = h /\ c = c' /\ (h < length cs)%nat) \/ (j <> h /\ cs !! j = Some c).
Proof.
  intros [(-> & -> & ?)|[? ?]]%list_lookup_insert_Some; [by left|by right].
Qed.

Lemma sum_app l1 l2 : sum (l1 ++ l2) = sum l1 + sum l2.
Proof. induction l1 as [|x l1 IH]; simpl; lia. Qed.

Lemma sum_insert {A} (f : A -> Z) l i x y :
  l !! i = Some x -> sum (f <$> <[i := y]> l) = sum (f <$> l) - f x + f y.
Proof.
  revert i. induction l as [|a l IH]; intros [|i] Hi; csimpl in *; simplify_eq; [lia|].
  rewrite IH by done. lia.
Qed.

Lemma sum_delete {A} (f : A -> Z) l i x :
  l !! i = Some x -> sum (f <$> delete i l) = sum (f <$> l) - f x.
Proof.
  revert i. induction l as [|a l IH]; intros [|i] Hi; csimpl in *; simplify_eq; [lia|].
  rewrite IH by done. lia.
Qed.

(** ** Changing the heap

    When chunks and regions change so that the heap invariant holds again, the
    rest of the invariant survives as long as the bins, the allocations and the
    unused chunks are left alone.  [K] are the chunks that leave the regions and
    [B] the ones that enter them. *)

(** What the bins and the statistics see of a chunk. *)
Definition tag (c : Chunk) : Z * option nat * option (Z * Z) :=
  (allocation_id c, bin_num c,
   if in_use c || bool_decide (bin_num c <> None) then Some (size c, ptr c) else None).

Lemma tag_fields c c' :
  tag c' = tag c ->
  allocation_id c' = allocation_id c /\ in_use c' = in_use c /\ bin_num c' = bin_num c /\
  (in_use c = true \/ bin_num c <> None -> size c' = size c /\ ptr c' = ptr c).
Proof.
  unfold tag. intros Ht. injection Ht as Ea Eb Es.
  assert (in_use c' = in_use c) as Eu by (unfold in_use; by rewrite Ea).
  split_and!; [done..|]. rewrite Eu, Eb in Es. intros Hor.
  assert (in_use c || bool_decide (bin_num c <> None) = true) as E.
  { destruct Hor as [->|Hb]; [done|]. by rewrite bool_decide_eq_true_2, orb_true_r. }
  rewrite E in Es. by injection Es.
Qed.

Lemma tag_lookup (cs cs' : list Chunk) h c :
  (forall h, tag <$> cs' !! h = tag <$> cs !! h) -> cs !! h = Some c ->
  exists c', cs' !! h = Some c' /\ tag c' = tag c.
Proof.
  intros Ht Hc. specialize (Ht h). rewrite Hc in Ht.
  apply fmap_Some in Ht as (c' & Hc' & E). by exists c'.
Qed.

Lemma tag_used (cs cs' : list Chunk) :
  (forall h, tag <$> cs' !! h = tag <$> cs !! h) -> used_bytes <$> cs' = used_bytes <$> cs.
Proof.
  intros Ht. apply list_eq. intros h. rewrite !list_lookup_fmap.
  destruct (cs !! h) as [c|] eqn:Hc.
  - destruct (tag_lookup _ _ _ _ Ht Hc) as (c' & -> & (_ & Eu & _ & Es)%tag_fields). simpl.
    f_equal. unfold used_bytes. rewrite Eu. destruct (in_use c); [|done]. by apply Es; left.
  - specialize (Ht h). rewrite Hc in Ht. by apply fmap_None in Ht as ->.
Qed.

Lemma tag_bins cs cs' bins :
  (forall h, tag <$> cs' !! h = tag <$> cs !! h) -> bins_ok cs bins -> bins_ok cs' bins.
Proof.
  intros Ht (Hlen & Hlt & Hb). split; [done|]. split.
  { intros h c' b Hc' Eb. destruct (tag_lookup cs' cs h c') as (c & Hc & E); [by intros j; rewrite Ht|done|].
    apply tag_fields in E as (_ & _ & Eb' & _). apply (Hlt h c); congruence. }
  intros b l Hl. destruct (Hb b l Hl) as [Hs Hin].
  assert (forall cs1 cs2 : list Chunk, (forall h, tag <$> cs2 !! h = tag <$> cs1 !! h) ->
    forall h, (exists c, cs1 !! h = Some c /\ bin_num c = Some b) ->
    exists c, cs2 !! h = Some c /\ bin_num c = Some b) as Hd.
  { intros cs1 cs2 Ht' h (c & Hc & Eb). destruct (tag_lookup _ _ _ _ Ht' Hc) as (c' & Hc' & Ef).
    apply tag_fields in Ef as (_ & _ & Eb' & _). exists c'. by rewrite Eb'. }
  split.
  - apply (set_ok_ext cs); [|done]. intros h c (c1 & Hc1 & Eb)%Hin Hc.
    destruct (tag_lookup _ _ _ _ Ht Hc) as (c' & Hc' & (_ & _ & _ & Es)%tag_fields).
    exists c'. split; [done|]. apply Es. right. congruence.
  - intros h. rewrite Hin. split; apply Hd; [done|]. intros j. by rewrite Ht.
Qed.

Lemma free_chain_ext (cs cs' : list Chunk) fl o :
  (forall h, h ∈ fl -> cs' !! h = cs !! h) -> free_chain cs o fl -> free_chain cs' o fl.
Proof.
  revert o. induction fl as [|h fl IH]; intros o He; simpl; [done|].
  intros (-> & c & Hc & Hf). split; [done|]. exists c. rewrite He by (by left). split; [done|].
  apply IH; [|done]. intros k Hk. apply He. by right.
Qed.

Section Surgery.
Context {Sub : Type} (R R' : Z -> Z -> Prop) (X D K B : gset nat) (s s' : bfc Sub).
Hypothesis H : Inv R X D s.
Hypothesis Hregs : regions_ok (regions_ s').
Hypothesis Hsub : forall lo hi, R' lo hi -> reg_of (regions_ s') lo hi.
Hypothesis Hheap : heap_ok (nd_of (chunks_ s')) R' (sl_of (regions_ s')).
Hypothesis Htag : forall h, tag <$> chunks_ s' !! h = tag <$> chunks_ s !! h.
Hypothesis Hlv : forall h,
  (exists c, lv R' (chunks_ s') (regions_ s') h c) <->
  (exists c, lv R (chunks_ s) (regions_ s) h c) /\ h ∉ K \/ h ∈ B.
Hypothesis Hdead : forall h c, chunks_ s !! h = Some c ->
  ~ lv R (chunks_ s) (regions_ s) h c -> h ∉ D -> chunks_ s' !! h = Some c.
Hypothesis HK : forall h, h ∈ K -> exists c, lv R (chunks_ s) (regions_ s) h c /\ in_use c = false.
Hypothesis HB : forall h, h ∈ B -> h ∈ D /\ exists c, chunks_ s !! h = Some c /\ bin_num c = None.
Hypothesis Hbins : bins_ s' = bins_ s.
Hypothesis Hfree : free_chunks_list_ s' = free_chunks_list_ s.
Hypothesis Hused : bytes_in_use (stats_ s') = bytes_in_use (stats_ s).
Hypothesis Hpool : pool_bytes (stats_ s') = i64 (sum (memory_size <$> regions_ s')).
Hypothesis Hnext : next_allocation_id_ s' = next_allocation_id_ s.

Lemma surgery_tag_inv h c' :
  chunks_ s' !! h = Some c' -> exists c, chunks_ s !! h = Some c /\ tag c' = tag c.
Proof.
  intros Hc'. destruct (tag_lookup (chunks_ s') (chunks_ s) h c') as (c & Hc & E); [|done|by exists c].
  intros j. by rewrite Htag.
Qed.

Lemma surgery_live h c' :
  lv R' (chunks_ s') (regions_ s') h c' ->
  if in_use c' then bin_num c' = None /\ h ∉ (X ∖ K) ∪ B
  else bin_num c' = if decide (h ∈ (X ∖ K) ∪ B) then None else Some (BinNumForSize (size c')).
Proof.
  intros Hl. destruct (surgery_tag_inv h c' (proj1 Hl)) as (c & Hc & Ht).
  apply tag_fields in Ht as (_ & Eu & Eb & Es). rewrite Eu, Eb.
  destruct (decide (h ∈ B)) as [HhB|HhB].
  - destruct (HB _ HhB) as (HhD & c1 & Hc1 & Hbn). assert (c1 = c) as -> by congruence.
    destruct (i_D H _ HhD) as (c2 & Hc2 & Hn). assert (c2 = c) as -> by congruence.
    destruct (i_dead H _ _ Hc Hn) as [-> _]. rewrite decide_True by set_solver. done.
  - destruct (proj1 (Hlv h) (ex_intro _ c' Hl)) as [[[c1 Hl1] HhK]|]; [|done].
    pose proof (lv_fun _ _ _ _ _ _ Hl1 Hc) as ->. pose proof (i_live H _ _ Hl1) as Hi.
    destruct (in_use c1).
    + destruct Hi as [? ?]. split; [done|]. set_solver.
    + rewrite Hi in Es. rewrite Hi. destruct (decide (h ∈ X)).
      * rewrite decide_True; [done|set_solver].
      * rewrite decide_False by set_solver. destruct Es as [-> _]; [by right|done].
Qed.

Lemma surgery_dead h c' :
  chunks_ s' !! h = Some c' -> ~ lv R' (chunks_ s') (regions_ s') h c' ->
  in_use c' = false /\ (h ∉ (D ∖ B) ∪ K -> bin_num c' = None).
Proof.
  intros Hc' Hn. destruct (surgery_tag_inv h c' Hc') as (c & Hc & Ht).
  apply tag_fields in Ht as (_ & Eu & Eb & _). rewrite Eu, Eb.
  assert (forall c2, ~ lv R' (chunks_ s') (regions_ s') h c2) as Hn'.
  { intros c2 Hl. apply Hn. by pose proof (lv_fun _ _ _ _ _ _ Hl Hc') as ->. }
  destruct (decide (h ∈ K)) as [HhK|HhK].
  - destruct (HK _ HhK) as (c1 & Hl1 & Hu). pose proof (lv_fun _ _ _ _ _ _ Hl1 Hc) as ->.
    split; [done|]. set_solver.
  - assert (~ lv R (chunks_ s) (regions_ s) h c) as Hd.
    { intros Hl. destruct (proj2 (Hlv h)) as [c2 Hl2]; [left; eauto|]. by apply (Hn' c2). }
    destruct (i_dead H _ _ Hc Hd) as [Hu Hb]. split; [done|]. intros HhD. apply Hb.
    assert (h ∉ B); [|set_solver]. intros HhB.
    destruct (proj2 (Hlv h)) as [c2 Hl2]; [by right|]. by apply (Hn' c2).
Qed.

Lemma surgery_D h :
  h ∈ (D ∖ B) ∪ K -> exists c, chunks_ s' !! h = Some c /\ ~ lv R' (chunks_ s') (regions_ s') h c.
Proof.
  intros HhD. assert (exists c, chunks_ s !! h = Some c) as [c Hc].
  { apply elem_of_union in HhD as [[Hd _]%elem_of_difference|Hk].
    - destruct (i_D H _ Hd) as (c & ? & _). eauto.
    - destruct (HK _ Hk) as (c & (? & _) & _). eauto. }
  destruct (tag_lookup _ _ _ _ Htag Hc) as (c' & Hc' & _). exists c'. split; [done|].
  intros Hl. destruct (proj1 (Hlv h) (ex_intro _ c' Hl)) as [[[c1 Hl1] HhK]|HhB].
  - assert (h ∈ D) as Hd by set_solver. destruct (i_D H _ Hd) as (c2 & Hc2 & Hn).
    by pose proof (lv_fun _ _ _ _ _ _ Hl1 Hc2) as ->.
  - destruct (HB _ HhB) as (Hd & _). assert (h ∈ K) as HhK by set_solver.
    destruct (HK _ HhK) as (c1 & Hl1 & _). destruct (i_D H _ Hd) as (c2 & Hc2 & Hn).
    by pose proof (lv_fun _ _ _ _ _ _ Hl1 Hc2) as ->.
Qed.

Lemma surgery_X h :
  h ∈ (X ∖ K) ∪ B -> exists c, lv R' (chunks_ s') (regions_ s') h c /\ in_use c = false.
Proof.
  intros HhX. assert (exists c, chunks_ s !! h = Some c /\ in_use c = false /\
    ((exists c, lv R (chunks_ s) (regions_ s) h c) /\ h ∉ K \/ h ∈ B)) as (c & Hc & Hu & Hor).
  { apply elem_of_union in HhX as [[Hx Hk]%elem_of_difference|Hb].
    - destruct (i_X H _ Hx) as (c & Hl & Hu). exists c. split_and!; [apply Hl|done|left; eauto].
    - destruct (HB _ Hb) as (Hd & c & Hc & _). destruct (i_D H _ Hd) as (c2 & Hc2 & Hn).
      assert (c2 = c) as -> by congruence. destruct (i_dead H _ _ Hc Hn) as [Hu _].
      exists c. split_and!; [done..|by right]. }
  apply Hlv in Hor as [c' Hl]. exists c'. split; [done|].
  destruct (surgery_tag_inv h c' (proj1 Hl)) as (c1 & Hc1 & (_ & Eu & _)%tag_fields). congruence.
Qed.

Lemma surgery_free :
  exists fl, free_chain (chunks_ s') (free_chunks_list_ s') fl /\ NoDup fl /\
    forall h, h ∈ fl -> (h ∉ (D ∖ B) ∪ K) /\
      exists c, chunks_ s' !! h = Some c /\ ~ lv R' (chunks_ s') (regions_ s') h c.
Proof.
  destruct (i_free H) as (fl & Hch & Hnd & Hfl). exists fl. rewrite Hfree.
  split_and!; [|done|].
  - apply (free_chain_ext (chunks_ s)); [|done]. intros h Hh.
    destruct (Hfl h Hh) as (HhD & c & Hc & Hn).
    exact (eq_trans (Hdead h c Hc Hn HhD) (eq_sym Hc)).
  - intros h Hh. destruct (Hfl h Hh) as (HhD & c & Hc & Hn).
    assert (h ∉ K) as HhK.
    { intros Hk. destruct (HK _ Hk) as (c1 & Hl1 & _). by pose proof (lv_fun _ _ _ _ _ _ Hl1 Hc) as ->. }
    split; [set_solver|]. exists c. split; [by apply Hdead|]. intros Hl.
    destruct (proj1 (Hlv h) (ex_intro _ c Hl)) as [[[c1 Hl1] _]|HhB].
    + by pose proof (lv_fun _ _ _ _ _ _ Hl1 Hc) as ->.
    + destruct (HB _ HhB) as [? _]. done.
Qed.

Lemma Inv_surgery : Inv R' ((X ∖ K) ∪ B) ((D ∖ B) ∪ K) s'.
Proof.
  split; try done.
  - exact surgery_live.
  - exact surgery_dead.
  - exact surgery_X.
  - exact surgery_D.
  - rewrite Hbins. by apply (tag_bins (chunks_ s)), (i_bins H).
  - exact surgery_free.
  - rewrite Hused, (tag_used (chunks_ s)) by done. exact (i_used H).
  - rewrite Hnext. exact (i_next H).
  - intros h c' Hc'. destruct (surgery_tag_inv _ _ Hc') as (c & Hc & (Ea & Eu & _)%tag_fields).
    rewrite Hnext, Ea, Eu. by apply (i_ids H h).
  - intros h h' c1 c1' Hc1 Hc1'. destruct (surgery_tag_inv _ _ Hc1) as (c & Hc & (Ea & Eu & _)%tag_fields).
    destruct (surgery_tag_inv _ _ Hc1') as (c' & Hc' & (Ea' & _)%tag_fields).
    rewrite Ea, Ea', Eu. by apply (i_unique H).
Qed.
End Surgery.
