(* ===== verification/BfcOps.v ===== *)
(** * The private operations of the allocator keep the invariant

    A [wp] rule for every private method of
    xla/tsl/framework/bfc_allocator.cc up to TryToCoalesce: it does not crash, it
    keeps [Inv], and the rule says which fields of the state it changes. *)

From Stdlib Require Import ZArith Lia.
From S2P Require Import Prelude MachineInt BfcAllocator BfcHeap BfcRegions BfcInv.

(** ** Changing the status of one chunk *)

Lemma lv_update R cs rs h c c' j d :
  cs !! h = Some c -> ptr c' = ptr c ->
  lv R (<[h := c']> cs) rs j d <->
  (j = h /\ d = c' /\ lv R cs rs h c) \/ (j <> h /\ lv R cs rs j d).
Proof.
  intros Hc Hp. assert (h < length cs)%nat as Hlt by by apply lookup_lt_Some in Hc.
  unfold lv. split.
  - intros ([(-> & -> & _)|[Hj Hd]]%lookup_insert_cases & Hg & Hs).
    + left. rewrite Hp in Hg, Hs. done.
    + right. done.
  - intros [(-> & -> & _ & Hg & Hs)|(Hj & Hd & Hg & Hs)].
    + rewrite list_lookup_insert_eq, Hp by done. done.
    + rewrite list_lookup_insert_ne by done. done.
Qed.

Lemma heap_ok_ext nd nd' reg sl :
  (forall j, nd' j = nd j) -> heap_ok nd reg sl -> heap_ok nd' reg sl.
Proof. intros Hnd H. by apply (restrict_heap_ok nd nd' reg reg sl sl). Qed.

Lemma nd_of_same cs h c c' :
  cs !! h = Some c -> node_of c' = node_of c -> forall j, nd_of (<[h := c']> cs) j = nd_of cs j.
Proof.
  intros Hc Hn j. rewrite nd_of_insert by (by apply lookup_lt_Some in Hc).
  case_decide as E; [|done]. subst j. unfold nd_of. by rewrite Hc, Hn.
Qed.

Lemma free_chain_update cs h c c' o fl :
  cs !! h = Some c -> next c' = next c -> free_chain cs o fl -> free_chain (<[h := c']> cs) o fl.
Proof.
  intros Hc Hn. revert o. induction fl as [|k fl IH]; intros o; simpl; [done|].
  intros (-> & d & Hd & Hf). split; [done|]. destruct (decide (k = h)) as [->|Hk].
  - exists c'. rewrite list_lookup_insert_eq by (by apply lookup_lt_Some in Hc).
    split; [done|]. assert (d = c) as -> by congruence. rewrite Hn. by apply IH.
  - exists d. rewrite list_lookup_insert_ne by done. split; [done|]. by apply IH.
Qed.

Section Retag.
Context {Sub : Type} (R : Z -> Z -> Prop) (X X' D : gset nat) (s s' : bfc Sub).
Context (h : nat) (c c' : Chunk).
Hypothesis H : Inv R X D s.
Hypothesis Hc : chunks_ s !! h = Some c.
Hypothesis Hchunks : chunks_ s' = <[h := c']> (chunks_ s).
Hypothesis Hregions : regions_ s' = regions_ s.
Hypothesis Hnode : node_of c' = node_of c.
Hypothesis HX : forall j, j <> h -> j ∈ X' <-> j ∈ X.
Hypothesis Hlive : lv R (chunks_ s) (regions_ s) h c ->
  if in_use c' then bin_num c' = None /\ h ∉ X'
  else bin_num c' = if decide (h ∈ X') then None else Some (BinNumForSize (size c')).
Hypothesis Hdead : ~ lv R (chunks_ s) (regions_ s) h c ->
  in_use c' = false /\ (h ∉ D -> bin_num c' = None).
Hypothesis HhX : h ∈ X' -> lv R (chunks_ s) (regions_ s) h c /\ in_use c' = false.
Hypothesis Hbins : bins_ok (chunks_ s') (bins_ s').
Hypothesis Hfree : free_chunks_list_ s' = free_chunks_list_ s.
Hypothesis Hused : bytes_in_use (stats_ s') =
  i64 (sum (used_bytes <$> chunks_ s) - used_bytes c + used_bytes c').
Hypothesis Hpool : pool_bytes (stats_ s') = pool_bytes (stats_ s).
Hypothesis Hnext : next_allocation_id_ s <= next_allocation_id_ s'.
Hypothesis Hid : in_use c' = true -> 0 < allocation_id c' < next_allocation_id_ s' /\
  forall j d, j <> h -> chunks_ s !! j = Some d -> allocation_id d <> allocation_id c'.

Lemma retag_lv j d :
  lv R (chunks_ s') (regions_ s') j d <->
  (j = h /\ d = c' /\ lv R (chunks_ s) (regions_ s) h c) \/
  (j <> h /\ lv R (chunks_ s) (regions_ s) j d).
Proof.
  rewrite Hchunks, Hregions. apply lv_update; [done|].
  change (n_ptr (node_of c') = n_ptr (node_of c)). by rewrite Hnode.
Qed.

Lemma retag_lookup j d :
  chunks_ s' !! j = Some d -> (j = h /\ d = c') \/ (j <> h /\ chunks_ s !! j = Some d).
Proof.
  rewrite Hchunks. intros [(-> & -> & _)|[? ?]]%lookup_insert_cases; [by left|by right].
Qed.

Lemma retag_lookup_ne j : j <> h -> chunks_ s' !! j = chunks_ s !! j.
Proof. intros Hj. rewrite Hchunks. by rewrite list_lookup_insert_ne. Qed.

Lemma retag_lookup_eq : chunks_ s' !! h = Some c'.
Proof. rewrite Hchunks. apply list_lookup_insert_eq. by apply lookup_lt_Some in Hc. Qed.

Lemma retag_free :
  exists fl, free_chain (chunks_ s') (free_chunks_list_ s') fl /\ NoDup fl /\
    forall j, j ∈ fl -> (j ∉ D) /\
      exists d, chunks_ s' !! j = Some d /\ ~ lv R (chunks_ s') (regions_ s') j d.
Proof.
  destruct (i_free H) as (fl & Hch & Hnd & Hfl). exists fl. rewrite Hfree.
  split_and!; [|done|].
  - rewrite Hchunks. apply (free_chain_update _ _ c); [done| |done].
    change (n_next (node_of c') = n_next (node_of c)). by rewrite Hnode.
  - intros j Hj. destruct (Hfl j Hj) as (HjD & d & Hd & Hn). split; [done|].
    destruct (decide (j = h)) as [->|Hne].
    + exists c'. split; [apply retag_lookup_eq|]. intros [(_ & _ & Hl)|[? _]]%retag_lv; [|done].
      by pose proof (lv_fun _ _ _ _ _ _ Hl Hd) as ->.
    + exists d. rewrite retag_lookup_ne by done. split; [done|].
      intros [(? & _)|[_ Hl]]%retag_lv; done.
Qed.

Lemma retag_D j : j ∈ D -> exists d, chunks_ s' !! j = Some d /\ ~ lv R (chunks_ s') (regions_ s') j d.
Proof.
  intros HjD. destruct (i_D H j HjD) as (d & Hd & Hn). destruct (decide (j = h)) as [->|Hne].
  - exists c'. split; [apply retag_lookup_eq|]. intros [(_ & _ & Hl)|[? _]]%retag_lv; [|done].
    by pose proof (lv_fun _ _ _ _ _ _ Hl Hd) as ->.
  - exists d. rewrite retag_lookup_ne by done. split; [done|].
    intros [(? & _)|[_ Hl]]%retag_lv; done.
Qed.

Lemma retag_X j : j ∈ X' -> exists d, lv R (chunks_ s') (regions_ s') j d /\ in_use d = false.
Proof.
  intros Hj. destruct (decide (j = h)) as [->|Hne].
  - destruct (HhX Hj) as [Hl Hu]. exists c'. split; [|done]. apply retag_lv. by left.
  - apply HX in Hj; [|done]. destruct (i_X H j Hj) as (d & Hl & Hu). exists d. split; [|done].
    apply retag_lv. by right.
Qed.

Lemma Inv_retag : Inv R X' D s'.
Proof.
  split.
  - rewrite Hregions. exact (i_regs H).
  - rewrite Hregions. exact (i_sub H).
  - rewrite Hregions, Hchunks. apply (heap_ok_ext (nd_of (chunks_ s))); [|exact (i_heap H)].
    by apply (nd_of_same _ _ c).
  - intros j d [(-> & -> & Hl)|[Hj Hl]]%retag_lv; [by apply Hlive|].
    pose proof (i_live H _ _ Hl) as Hi. destruct (in_use d); [rewrite (HX j Hj); done|].
    rewrite Hi. destruct (decide (j ∈ X)) as [E|E], (decide (j ∈ X')) as [E'|E']; try done;
      rewrite (HX j Hj) in E'; done.
  - intros j d Hd Hn. apply retag_lookup in Hd as [[-> ->]|[Hj Hd]].
    + apply Hdead. intros Hl. apply Hn, retag_lv. by left.
    + apply (i_dead H j d Hd). intros Hl. apply Hn, retag_lv. by right.
  - exact retag_X.
  - exact retag_D.
  - done.
  - exact retag_free.
  - rewrite Hused, Hchunks. by rewrite (sum_insert used_bytes _ _ c).
  - rewrite Hpool, Hregions. exact (i_pool H).
  - pose proof (i_next H). lia.
  - intros j d [[-> ->]|[Hj Hd]]%retag_lookup Hu; [by apply Hid|].
    pose proof (i_ids H j d Hd Hu). lia.
  - intros j j' d d' Hd Hd' Hu He.
    apply retag_lookup in Hd as [[-> ->]|[Hj Hd]]; apply retag_lookup in Hd' as [[-> ->]|[Hj' Hd']].
    + done.
    + destruct (Hid Hu) as [_ Hne]. by destruct (Hne j' d').
    + assert (in_use c' = true) as Hu' by (unfold in_use in *; by rewrite <- He).
      destruct (Hid Hu') as [_ Hne]. by destruct (Hne j d).
    + by apply (i_unique H j j' d d').
Qed.
End Retag.

(** ** The bins *)

Lemma set_ok_update cs h c c' l :
  cs !! h = Some c -> size c' = size c -> ptr c' = ptr c -> set_ok cs l -> set_ok (<[h := c']> cs) l.
Proof.
  intros Hc Hs Hp. apply set_ok_ext. intros k d _ Hd. destruct (decide (k = h)) as [->|Hk].
  - exists c'. rewrite list_lookup_insert_eq by (by apply lookup_lt_Some in Hc).
    assert (d = c) as -> by congruence. done.
  - exists d. by rewrite list_lookup_insert_ne.
Qed.

(** Replacing the chunk [h] and its bin. *)
Lemma bins_ok_replace cs bins h c c' b l l' :
  bins_ok cs bins -> cs !! h = Some c -> size c' = size c -> ptr c' = ptr c ->
  bins !! b = Some l -> set_ok cs l' ->
  (forall b', b' <> b -> bin_num c' = Some b' <-> bin_num c = Some b') -> (b < kNumBins)%nat ->
  (forall k, k ∈ l' <-> (k = h /\ bin_num c' = Some b) \/ (k <> h /\ k ∈ l)) ->
  bins_ok (<[h := c']> cs) (<[b := l']> bins).
Proof.
  intros (Hlen & Hlt0 & Hb) Hc Hs Hp Hl Hl' Hoth Hb0 Hin. split; [by rewrite length_insert|]. split.
  { intros k d b1 [(-> & -> & _)|[_ Hd]]%lookup_insert_cases E; [|by apply (Hlt0 k d)].
    destruct (decide (b1 = b)) as [->|Hne]; [done|]. apply Hoth in E; [|done]. by apply (Hlt0 h c). }
  assert (h < length cs)%nat as Hlt by by apply lookup_lt_Some in Hc.
  assert (forall b1 l1, set_ok cs l1 ->
    (forall k, k ∈ l1 <-> (k = h /\ bin_num c' = Some b1) \/
      (k <> h /\ exists d, cs !! k = Some d /\ bin_num d = Some b1)) ->
    set_ok (<[h := c']> cs) l1 /\
    (forall k, k ∈ l1 <-> exists d, <[h := c']> cs !! k = Some d /\ bin_num d = Some b1)) as Hgo.
  { intros b1 l1 Hok Hk. split; [by apply (set_ok_update cs h c)|]. intros k. rewrite Hk. split.
    - intros [[-> E]|(Hne & d & Hd & E)]; [exists c'; by rewrite list_lookup_insert_eq|].
      exists d. by rewrite list_lookup_insert_ne.
    - intros (d & [(-> & -> & _)|[Hne Hd]]%lookup_insert_cases & E); [by left|right; eauto]. }
  intros b1 l1 [(-> & <- & _)|[Hne Hl1]]%list_lookup_insert_Some.
  - apply Hgo; [done|]. intros k. rewrite Hin. destruct (Hb _ _ Hl) as [_ Hbl]. by rewrite Hbl.
  - destruct (Hb _ _ Hl1) as [Hok Hbl]. apply Hgo; [done|]. intros k. rewrite Hbl.
    rewrite (Hoth b1) by done. split.
    + intros (d & Hd & E). destruct (decide (k = h)) as [->|]; [left|right; eauto].
      assert (d = c) as -> by congruence. done.
    + intros [[-> E]|(_ & ?)]; eauto.
Qed.

Lemma bins_ok_same cs bins h c c' :
  bins_ok cs bins -> cs !! h = Some c -> bin_num c' = bin_num c ->
  (bin_num c <> None -> size c' = size c /\ ptr c' = ptr c) ->
  bins_ok (<[h := c']> cs) bins.
Proof.
  intros (Hlen & Hlt0 & Hb) Hc Eb Hs. split; [done|]. split.
  { intros k d b1 [(-> & -> & _)|[_ Hd]]%lookup_insert_cases E; [|by apply (Hlt0 k d)].
    apply (Hlt0 h c); congruence. }
  intros b l Hl. destruct (Hb b l Hl) as [Hok Hin].
  assert (h < length cs)%nat as Hlt by by apply lookup_lt_Some in Hc. split.
  - apply (set_ok_ext cs); [|done]. intros k d (d1 & Hd1 & E)%Hin Hd.
    destruct (decide (k = h)) as [->|Hk].
    + exists c'. rewrite list_lookup_insert_eq by done. assert (d = c) as -> by congruence.
      split; [done|]. apply Hs. congruence.
    + exists d. by rewrite list_lookup_insert_ne.
  - intros k. rewrite Hin. split.
    + intros (d & Hd & E). destruct (decide (k = h)) as [->|Hk].
      * exists c'. rewrite list_lookup_insert_eq by done. split; [done|congruence].
      * exists d. by rewrite list_lookup_insert_ne.
    + intros (d & [(-> & -> & _)|[Hne Hd]]%lookup_insert_cases & E); [|by exists d].
      exists c. split; [done|congruence].
Qed.

Section BinOps.
Context {Sub : Type} (R : Z -> Z -> Prop) (X D : gset nat).
Implicit Types s : bfc Sub.

Lemma bin_lookup s b :
  Inv R X D s -> (b < kNumBins)%nat ->
  exists l, bins_ s !! b = Some l /\ set_ok (chunks_ s) l /\
    (forall h, h ∈ l <-> exists c, chunks_ s !! h = Some c /\ bin_num c = Some b).
Proof.
  intros H Hb. destruct (i_bins H) as (Hlen & _ & Hbins).
  destruct (lookup_lt_is_Some_2 (bins_ s) b) as [l Hl]; [by rewrite Hlen|].
  exists l. split; [done|]. by apply Hbins.
Qed.

(** A chunk is live, or it is not; either way it is not in use when it is in a bin. *)
Lemma lv_stable s h c (P : Prop) :
  (P \/ ~ P) -> (lv R (chunks_ s) (regions_ s) h c -> P) ->
  (~ lv R (chunks_ s) (regions_ s) h c -> P) -> P.
Proof. tauto. Qed.

Lemma binned s h c b :
  Inv R X D s -> chunks_ s !! h = Some c -> bin_num c = Some b ->
  in_use c = false /\ (h ∉ X) /\ (b < kNumBins)%nat.
Proof.
  intros H Hc Eb. split_and!.
  - apply (lv_stable s h c); [destruct (in_use c); auto| |].
    + intros Hl. pose proof (i_live H _ _ Hl) as Hi. destruct (in_use c); [|done].
      destruct Hi. congruence.
    + intros Hn. apply (i_dead H _ _ Hc Hn).
  - intros HX. destruct (i_X H _ HX) as (d & Hl & Hu). pose proof (lv_fun _ _ _ _ _ _ Hl Hc) as ->.
    pose proof (i_live H _ _ Hl) as Hi. rewrite Hu, decide_True in Hi by done. congruence.
  - destruct (i_bins H) as (_ & Hlt & _). by apply (Hlt h c).
Qed.

(** Taking a chunk out of its bin. *)
Lemma unbin_Inv s h c b l l' :
  Inv R X D s -> chunks_ s !! h = Some c -> bin_num c = Some b ->
  bins_ s !! b = Some l -> set_ok (chunks_ s) l' -> (forall k, k ∈ l' <-> k ∈ l /\ k <> h) ->
  let s' := with_chunks (<[h := set_bin_num None c]> (chunks_ s)) (with_bins (<[b := l']> (bins_ s)) s) in
  (lv R (chunks_ s) (regions_ s) h c -> Inv R ({[h]} ∪ X) D s') /\
  (~ lv R (chunks_ s) (regions_ s) h c -> Inv R X D s').
Proof.
  intros H Hc Eb Hl Hl' Hin s'. destruct (binned s h c b H Hc Eb) as (Hu & HhX & Hb).
  assert (bins_ok (chunks_ s') (bins_ s')) as Hbins.
  { simpl. apply (bins_ok_replace _ _ h c _ b l); try done; [apply H| |].
    - intros b' Hb'. simpl. rewrite Eb. split; congruence.
    - intros k. rewrite Hin. simpl. naive_solver. }
  assert (in_use (set_bin_num None c) = false) as Hu' by done.
  assert (used_bytes (set_bin_num None c) = used_bytes c) as Eused by done.
  split; intros Hlv; apply (Inv_retag R X _ D s _ h c (set_bin_num None c)); try done; simpl;
    rewrite ?Hu'; try set_solver; try (rewrite Eused, Z.sub_add; apply H).
  - rewrite decide_True by set_solver. done.
Qed.

Lemma RemoveFreeChunkFromBin_wp d s h c b Q :
  Inv R X D s -> chunks_ s !! h = Some c -> bin_num c = Some b ->
  (forall bins',
    let s' := with_chunks (<[h := set_bin_num None c]> (chunks_ s)) (with_bins bins' s) in
    (lv R (chunks_ s) (regions_ s) h c -> Inv R ({[h]} ∪ X) D s') ->
    (~ lv R (chunks_ s) (regions_ s) h c -> Inv R X D s') -> Q () s') ->
  wp d (RemoveFreeChunkFromBin h) s Q.
Proof.
  intros H Hc Eb HQ. destruct (binned s h c b H Hc Eb) as (Hu & _ & Hb).
  destruct (bin_lookup s b H Hb) as (l & Hl & Hok & Hin).
  destruct (set_erase_spec (chunks_ s) h l Hok) as (l' & El & Hok' & Hin'); [apply Hin; eauto|].
  destruct (unbin_Inv s h c b l l' H Hc Eb Hl Hok' Hin') as [H1 H2].
  unfold RemoveFreeChunkFromBin. apply wp_bind, (wp_chunk _ _ c); [done|].
  apply wp_bind, wp_mcheck; [by rewrite Hu, Eb|]. rewrite Eb.
  apply wp_bind, (wp_lift _ _ b); [done|]. apply wp_bind, (wp_bin _ _ l); [done|].
  apply wp_bind, wp_gets. apply wp_bind, (wp_lift _ _ (l', 1)); [done|].
  apply wp_bind, wp_modify. apply wp_bind, wp_mcheck; [done|].
  apply (wp_upd _ _ _ c); [done|]. by apply HQ.
Qed.

Lemma RemoveFreeChunkIterFromBin_wp d s h c b Q :
  Inv R X D s -> lv R (chunks_ s) (regions_ s) h c -> bin_num c = Some b ->
  (forall bins',
    let s' := with_chunks (<[h := set_bin_num None c]> (chunks_ s)) (with_bins bins' s) in
    Inv R ({[h]} ∪ X) D s' -> Q () s') ->
  wp d (RemoveFreeChunkIterFromBin b h) s Q.
Proof.
  intros H Hlv Eb HQ. pose proof (proj1 Hlv) as Hc.
  destruct (binned s h c b H Hc Eb) as (Hu & _ & Hb).
  destruct (bin_lookup s b H Hb) as (l & Hl & Hok & Hin).
  destruct (unbin_Inv s h c b l (filter (fun k => k <> h) l) H Hc Eb Hl) as [H1 _];
    [by apply set_filter_spec|intros k; rewrite list_elem_of_filter; tauto|].
  unfold RemoveFreeChunkIterFromBin. apply wp_bind, (wp_chunk _ _ c); [done|].
  apply wp_bind, wp_mcheck; [by rewrite Hu, Eb|].
  apply wp_bind, (wp_bin _ _ l); [done|]. apply wp_bind, wp_modify.
  apply (wp_upd _ _ _ c); [done|]. by apply HQ, H1.
Qed.

(** A set holds no second chunk with the size and the address of a live one. *)
Lemma bin_no_equal s h c b l k d :
  Inv R X D s -> D = ∅ -> lv R (chunks_ s) (regions_ s) h c -> bin_num c = None ->
  bins_ s !! b = Some l -> k ∈ l -> chunks_ s !! k = Some d -> ptr d = ptr c -> False.
Proof.
  intros H -> Hl Eb Hbl Hk Hd Hp. destruct (i_bins H) as (_ & _ & Hbins).
  destruct (Hbins b l Hbl) as [_ Hin]. apply Hin in Hk as (d' & Hd' & Eb').
  assert (d' = d) as -> by congruence.
  apply (lv_stable s k d); [auto| |].
  - intros (_ & _ & Hs). destruct Hl as (Hc & _ & Hs'). rewrite Hp, Hs' in Hs.
    injection Hs as <-. congruence.
  - intros Hn. destruct (i_dead H k d Hd Hn) as [_ Hnone]. rewrite Hnone in Eb' by set_solver. done.
Qed.

Lemma InsertFreeChunkIntoBin_wp d s h c Q :
  Inv R X D s -> D = ∅ -> h ∈ X -> lv R (chunks_ s) (regions_ s) h c ->
  (forall bins',
    let s' := with_chunks (<[h := set_bin_num (Some (BinNumForSize (size c))) c]> (chunks_ s))
                (with_bins bins' s) in
    Inv R (X ∖ {[h]}) D s' -> Q () s') ->
  wp d (InsertFreeChunkIntoBin h) s Q.
Proof.
  intros H HD HhX Hlv HQ. pose proof (proj1 Hlv) as Hc. set (b := BinNumForSize (size c)) in *.
  destruct (i_X H h HhX) as (c1 & Hlv1 & Hu). pose proof (lv_fun _ _ _ _ _ _ Hlv1 Hc) as <-.
  pose proof (i_live H _ _ Hlv) as Eb. rewrite Hu, decide_True in Eb by done.
  destruct (bin_lookup s b H (BinNumForSize_lt _)) as (l & Hl & Hok & Hin).
  set (c' := set_bin_num (Some b) c). set (cs' := <[h := c']> (chunks_ s)).
  assert (cs' !! h = Some c') as Hc' by (apply list_lookup_insert_eq; by apply lookup_lt_Some in Hc).
  destruct (set_insert_spec cs' h c' l) as (l' & El & Hok' & Hin'); [by apply (set_ok_update _ _ c)|done| |].
  { intros k e Hk [(-> & -> & _)|[_ He]]%lookup_insert_cases _ Hp.
    - apply Hin in Hk as (e & He & E). congruence.
    - by apply (bin_no_equal s h c b l k e). }
  assert (set_ok (chunks_ s) l') as Hok1.
  { apply (set_ok_ext cs'); [|done]. intros k e Hk [(-> & -> & _)|[_ He]]%lookup_insert_cases; [by exists c|by exists e]. }
  unfold InsertFreeChunkIntoBin. apply wp_bind, (wp_chunk _ _ c); [done|].
  apply wp_bind, wp_mcheck; [by rewrite Hu, Eb|].
  apply wp_bind, (wp_bin _ _ l); [done|]. apply wp_bind, (wp_upd _ _ _ c); [done|].
  apply wp_bind, wp_gets. apply wp_bind, (wp_lift _ _ l'); [done|]. apply wp_modify.
  apply HQ. apply (Inv_retag R X _ D s _ h c c'); try done; cbn [chunks_ bins_ stats_ with_chunks with_bins].
  - clear. set_solver.
  - intros _. change (in_use c') with (in_use c). rewrite Hu, decide_False; [done|clear; set_solver].
  - apply (bins_ok_replace _ _ h c _ b l); try done; [apply H| |by apply BinNumForSize_lt|].
    + intros b' Hb'. simpl. rewrite Eb. split; congruence.
    + intros k. rewrite Hin'. simpl. split; [intros [->|Hk]; [by left|]|intros [[-> _]|[_ ?]]; auto].
      right. split; [|done]. intros ->. apply Hin in Hk as (e & He & E). congruence.
  - change (used_bytes c') with (used_bytes c). rewrite Z.sub_add. apply H.
  - change (in_use c') with (in_use c). by rewrite Hu.
Qed.
End BinOps.

(** ** The list of unused chunks *)

Section ChunkList.
Context {Sub : Type} (R : Z -> Z -> Prop) (X : gset nat).
Implicit Types s : bfc Sub.

(** A dead chunk is in neither [X] nor a bin nor in use. *)
Lemma dead_facts D s h c :
  Inv R X D s -> chunks_ s !! h = Some c -> ~ lv R (chunks_ s) (regions_ s) h c ->
  (h ∉ X) /\ in_use c = false /\ (h ∉ D -> bin_num c = None).
Proof.
  intros H Hc Hn. split; [|by apply (i_dead H h)]. intros HX.
  destruct (i_X H h HX) as (d & Hl & _). by pose proof (lv_fun _ _ _ _ _ _ Hl Hc) as ->.
Qed.

Lemma lv_snoc s D k d :
  Inv R X D s ->
  lv R (chunks_ s ++ [Chunk_default]) (regions_ s) k d <-> lv R (chunks_ s) (regions_ s) k d.
Proof.
  intros H. unfold lv. split.
  - intros (Hd & Hg & Hs). destruct (hp_slot (i_heap H) _ _ Hg Hs) as (n & Hn & _).
    unfold nd_of in Hn. apply fmap_Some in Hn as (d' & Hd' & _).
    rewrite lookup_app_l in Hd by (by apply lookup_lt_Some in Hd'). done.
  - intros (Hd & ?). by rewrite (lookup_app_l_Some _ _ _ _ Hd).
Qed.

Lemma snoc_lookup (cs : list Chunk) k d :
  (cs ++ [Chunk_default]) !! k = Some d ->
  cs !! k = Some d \/ (k = length cs /\ d = Chunk_default).
Proof.
  intros Hd. apply lookup_app_Some in Hd as [?|[? Hd]]; [by left|right].
  apply list_lookup_singleton_Some in Hd as [? ->]. split; [lia|done].
Qed.

Lemma bins_ok_snoc cs bins : bins_ok cs bins -> bins_ok (cs ++ [Chunk_default]) bins.
Proof.
  intros (Hlen & Hlt & Hb). split; [done|]. split.
  { intros h c b [Hc|[_ ->]]%snoc_lookup E; [by apply (Hlt h c)|done]. }
  intros b l Hl. destruct (Hb b l Hl) as [Hok Hin]. split.
  - apply (set_ok_ext cs); [|done]. intros k d _ Hd. exists d.
    by rewrite (lookup_app_l_Some _ _ _ _ Hd).
  - intros k. rewrite Hin. split.
    + intros (c & Hc & E). exists c. by rewrite (lookup_app_l_Some _ _ _ _ Hc).
    + intros (c & [Hc|[_ ->]]%snoc_lookup & E); [by exists c|done].
Qed.

Lemma free_chain_snoc cs o fl : free_chain cs o fl -> free_chain (cs ++ [Chunk_default]) o fl.
Proof.
  revert o. induction fl as [|h fl IH]; intros o; simpl; [done|].
  intros (-> & c & Hc & Hf). split; [done|]. exists c.
  rewrite (lookup_app_l_Some _ _ _ _ Hc). auto.
Qed.

(** The vector grows by an unused chunk. *)
Lemma snoc_Inv D s :
  Inv R X D s -> length (chunks_ s) ∉ D ->
  Inv R X ({[length (chunks_ s)]} ∪ D) (with_chunks (chunks_ s ++ [Chunk_default]) s).
Proof.
  intros H HD. split; cbn [chunks_ regions_ bins_ free_chunks_list_ stats_ next_allocation_id_ with_chunks].
  - exact (i_regs H).
  - exact (i_sub H).
  - apply (restrict_heap_ok (nd_of (chunks_ s)) _ R R (sl_of (regions_ s)) _ (i_heap H)); try done.
    intros p j Hg Hs. destruct (hp_slot (i_heap H) _ _ Hg Hs) as (n & Hn & _). unfold nd_of in *.
    apply fmap_Some in Hn as (d' & Hd' & _). by rewrite (lookup_app_l_Some _ _ _ _ Hd'), Hd'.
  - intros k d Hl%(lv_snoc s D); [|done]. exact (i_live H _ _ Hl).
  - intros k d Hd Hn. rewrite (lv_snoc s D) in Hn by done. apply snoc_lookup in Hd as [Hd|[-> ->]].
    + destruct (i_dead H k d Hd Hn) as [Hu Hb]. split; [done|]. clear -Hb. set_solver.
    + done.
  - intros k Hk. destruct (i_X H k Hk) as (d & Hl & Hu). exists d. by rewrite (lv_snoc s D).
  - intros k [->%elem_of_singleton|Hk]%elem_of_union.
    + exists Chunk_default. split; [by apply list_lookup_middle|]. rewrite (lv_snoc s D) by done.
      intros Hl. pose proof (lv_valid _ _ _ _ _ Hl). lia.
    + destruct (i_D H k Hk) as (d & Hd & Hn). exists d. rewrite (lv_snoc s D) by done.
      by rewrite (lookup_app_l_Some _ _ _ _ Hd).
  - apply bins_ok_snoc, H.
  - destruct (i_free H) as (fl & Hch & Hnd & Hfl). exists fl.
    split_and!; [by apply free_chain_snoc|done|]. intros k Hk.
    destruct (Hfl k Hk) as (HkD & d & Hd & Hn). split.
    + assert (k <> length (chunks_ s)) as Hkl by (apply lookup_lt_Some in Hd; lia). clear -HkD Hkl. set_solver.
    + exists d. rewrite (lv_snoc s D) by done. by rewrite (lookup_app_l_Some _ _ _ _ Hd).
  - rewrite fmap_app, sum_app. simpl. rewrite (i_used H). f_equal. unfold used_bytes. simpl. lia.
  - exact (i_pool H).
  - exact (i_next H).
  - intros k d [Hd|[_ ->]]%snoc_lookup; [by apply (i_ids H k)|done].
  - intros k k' d d' [Hd|[_ ->]]%snoc_lookup [Hd'|[_ ->]]%snoc_lookup Hu He; try done.
    + by apply (i_unique H k k' d d').
    + unfold in_use in Hu. by rewrite He in Hu.
Qed.

Lemma snoc_lookup_ne (cs : list Chunk) k :
  k <> length cs -> (cs ++ [Chunk_default]) !! k = cs !! k.
Proof.
  intros Hk. destruct (decide (k < length cs)%nat); [by apply lookup_app_l|].
  rewrite lookup_app_r by lia. rewrite (lookup_ge_None_2 cs) by lia.
  apply lookup_ge_None_2. simpl. lia.
Qed.

(** The first unused chunk leaves the list. *)
Lemma pop_Inv D s h c fl :
  Inv R X D s -> chunks_ s !! h = Some c -> ~ lv R (chunks_ s) (regions_ s) h c ->
  free_chain (chunks_ s) (next c) fl -> NoDup (h :: fl) ->
  (forall k, k ∈ fl -> (k ∉ D) /\
     exists e, chunks_ s !! k = Some e /\ ~ lv R (chunks_ s) (regions_ s) k e) ->
  Inv R X ({[h]} ∪ D) (with_free_list (next c) s).
Proof.
  intros H Hc Hn Hch [Hhfl Hnd]%NoDup_cons Hfl.
  split; cbn [chunks_ regions_ bins_ free_chunks_list_ stats_ next_allocation_id_ with_free_list];
    try exact (i_regs H); try exact (i_sub H); try exact (i_heap H); try exact (i_live H);
    try exact (i_X H); try exact (i_bins H); try exact (i_used H); try exact (i_pool H);
    try exact (i_next H); try exact (i_ids H); try exact (i_unique H).
  - intros k e He Hne. destruct (i_dead H k e He Hne) as [? Hbe]. split; [done|].
    clear -Hbe. set_solver.
  - intros k [->%elem_of_singleton|Hk]%elem_of_union; [by exists c|by apply (i_D H)].
  - exists fl. split_and!; [done..|]. intros k Hk. destruct (Hfl k Hk) as (HkD & He).
    split; [|done]. assert (k <> h) as Hkh by (intros ->; done). clear -HkD Hkh. set_solver.
Qed.

Lemma AllocateChunk_wp d D s Q :
  Inv R X D s ->
  (forall h c s', Inv R X ({[h]} ∪ D) s' -> (h ∉ D) -> (h ∉ X) ->
     chunks_ s' !! h = Some c -> in_use c = false -> bin_num c = None ->
     (forall k, k <> h -> chunks_ s' !! k = chunks_ s !! k) ->
     (forall k e, lv R (chunks_ s') (regions_ s') k e <-> lv R (chunks_ s) (regions_ s) k e) ->
     ~ lv R (chunks_ s') (regions_ s') h c ->
     s' = with_chunks (chunks_ s') (with_free_list (free_chunks_list_ s') s) -> Q h s') ->
  wp d AllocateChunk s Q.
Proof.
  intros H HQ. unfold AllocateChunk. apply wp_bind, wp_gets.
  destruct (i_free H) as (fl & Hch & Hnd & Hfl). destruct (free_chunks_list_ s) as [h|] eqn:Efl.
  - destruct fl as [|h' fl]; [done|]. destruct Hch as ([= <-] & c & Hc & Hch).
    destruct (Hfl h ltac:(left)) as (HhD & c' & Hc' & Hn). assert (c' = c) as -> by congruence.
    destruct (dead_facts D s h c H Hc Hn) as (HhX & Hu & Hb).
    apply wp_bind, (wp_chunk _ _ c); [done|]. apply wp_bind, wp_modify, wp_ret.
    apply (HQ h c); try done; [|by apply Hb].
    apply (pop_Inv D s h c fl); try done. intros k Hk. apply Hfl. by right.
  - apply wp_bind, wp_gets. apply wp_bind, wp_modify, wp_ret.
    assert (length (chunks_ s) ∉ D) as HlD.
    { intros (c & Hc & _)%(i_D H). apply lookup_lt_Some in Hc. lia. }
    apply (HQ _ Chunk_default); try done.
    + by apply snoc_Inv.
    + intros (c & (Hc & _) & _)%(i_X H). apply lookup_lt_Some in Hc. lia.
    + by apply list_lookup_middle.
    + intros k Hk. by apply snoc_lookup_ne.
    + intros k e. by apply (lv_snoc s D).
    + simpl. rewrite (lv_snoc s D) by done. intros Hl. pose proof (lv_valid _ _ _ _ _ Hl). lia.
Qed.

Lemma DeallocateChunk_Inv D s h c :
  Inv R X D s -> h ∈ D -> chunks_ s !! h = Some c -> bin_num c = None ->
  let c' := set_next (free_chunks_list_ s) (set_bin_num None (set_allocation_id (-1) c)) in
  Inv R X (D ∖ {[h]}) (with_free_list (Some h) (with_chunks (<[h := c']> (chunks_ s)) s)).
Proof.
  intros H HhD Hc Hb c'. destruct (i_D H h HhD) as (c1 & Hc1 & Hn).
  assert (c1 = c) as -> by congruence. destruct (dead_facts D s h c H Hc Hn) as (HhX & Hu & _).
  assert (allocation_id c = -1) as Ea by (unfold in_use in Hu; lia).
  set (cs' := <[h := c']> (chunks_ s)).
  assert (forall k e, lv R cs' (regions_ s) k e <-> lv R (chunks_ s) (regions_ s) k e) as Hlv.
  { intros k e. unfold cs'. rewrite (lv_update R _ _ h c) by done. split; [by intros [(_ & _ & ?)|[_ ?]]|].
    intros Hl. right. split; [|done]. intros ->. by pose proof (lv_fun _ _ _ _ _ _ Hl Hc) as ->. }
  assert (forall k, k <> h -> cs' !! k = chunks_ s !! k) as Hne
    by (intros k Hk; unfold cs'; by rewrite list_lookup_insert_ne).
  assert (cs' !! h = Some c') as Hh
    by (unfold cs'; rewrite list_lookup_insert_eq; [done|by apply lookup_lt_Some in Hc]).
  split; cbn [chunks_ regions_ bins_ free_chunks_list_ stats_ next_allocation_id_ with_free_list with_chunks];
    fold cs'; try exact (i_regs H); try exact (i_sub H); try exact (i_pool H); try exact (i_next H).
  - apply (restrict_heap_ok (nd_of (chunks_ s)) _ R R (sl_of (regions_ s)) _ (i_heap H)); try done.
    intros p j Hg Hs. destruct (hp_slot (i_heap H) _ _ Hg Hs) as (n & Hnd & Hp).
    unfold nd_of in *. rewrite Hne; [done|]. intros ->. apply Hn.
    rewrite Hc in Hnd. injection Hnd as <-. simpl in Hp. subst p. done.
  - intros k e Hl%Hlv. exact (i_live H _ _ Hl).
  - intros k e He Hnl. rewrite Hlv in Hnl. destruct (decide (k = h)) as [->|Hk].
    + assert (e = c') as -> by congruence. done.
    + rewrite Hne in He by done. destruct (i_dead H k e He Hnl) as [? Hbe]. split; [done|].
      intros HkD. apply Hbe. clear -HkD Hk. set_solver.
  - intros k Hk. destruct (i_X H k Hk) as (e & Hl & ?). exists e. by rewrite Hlv.
  - intros k [Hk Hkh]%elem_of_difference. destruct (i_D H k Hk) as (e & He & Hnl).
    exists e. rewrite Hlv, Hne; [done|]. clear -Hkh. set_solver.
  - apply (bins_ok_same _ _ h c); [apply H|done| |done]. done.
  - destruct (i_free H) as (fl & Hch & Hnd & Hfl).
    assert (h ∉ fl) as Hhfl by (intros Hin; by destruct (Hfl h Hin)).
    exists (h :: fl). split_and!.
    + simpl. split; [done|]. exists c'. split; [done|].
      apply (free_chain_ext (chunks_ s)); [|done]. intros k Hk. apply Hne. by intros ->.
    + by constructor.
    + intros k [->|Hk]%elem_of_cons.
      * split; [clear; set_solver|]. exists c'. split; [done|]. rewrite Hlv. intros Hl.
        apply Hn. rewrite (lv_fun _ _ _ _ _ _ Hl Hc). exact Hl.
      * destruct (Hfl k Hk) as (HkD & e & He & Hnl). split; [clear -HkD; set_solver|].
        exists e. rewrite Hlv, Hne; [done|]. by intros ->.
  - unfold cs'. rewrite (sum_insert used_bytes _ _ c) by done. rewrite (i_used H).
    f_equal. unfold used_bytes. rewrite Hu. simpl. lia.
  - intros k e [(-> & -> & _)|[_ He]]%lookup_insert_cases; [done|by apply (i_ids H k)].
  - intros k k' e e' [(-> & -> & _)|[_ He]]%lookup_insert_cases; [done|].
    intros [(-> & -> & _)|[_ He']]%lookup_insert_cases; [|by apply (i_unique H k k' e e')].
    intros Hu' E. unfold in_use in Hu'. simpl in E. rewrite E in Hu'. done.
Qed.
End ChunkList.
