(* ===== verification/BfcCoalesce.v ===== *)
(** * Splitting, merging and coalescing chunks

    SplitChunk, Merge, MarkFree and TryToCoalesce of
    xla/tsl/framework/bfc_allocator.cc: each is one of the heap changes of
    [BfcHeap] and keeps [Inv]. *)

From Stdlib Require Import ZArith Lia.
From S2P Require Import Prelude MachineInt BfcAllocator BfcHeap BfcRegions BfcInv BfcOps.

Section Facts.
Context {Sub : Type} (R : Z -> Z -> Prop) (X D : gset nat).
Implicit Types s : bfc Sub.

Lemma lv_bounds s h c :
  Inv R X D s -> lv R (chunks_ s) (regions_ s) h c ->
  0 < ptr c /\ 0 < size c /\ (256 | size c) /\ ptr c + size c < two64.
Proof.
  intros H Hl. destruct (hp_placed (i_heap H) _ _ (lv_live _ _ _ _ _ Hl)) as (lo & hi & [Hr Hlo Hhi _ Hpos Hsz _ _]).
  destruct (i_sub H _ _ Hr) as (r & [i Hi]%list_elem_of_lookup & Hrp & Hre).
  pose proof (region_ok_nth _ _ _ (i_regs H) Hi) as [? ? ? ? ? _].
  unfold n_end in *. simpl in *. split_and!; [lia|lia|done|lia].
Qed.

Lemma lv_next s h c k :
  Inv R X D s -> lv R (chunks_ s) (regions_ s) h c -> next c = Some k ->
  exists e, lv R (chunks_ s) (regions_ s) k e /\ ptr e = ptr c + size c /\ prev e = Some h /\ k <> h.
Proof.
  intros H Hl Hk. pose proof (lv_live _ _ _ _ _ Hl) as Hl'.
  destruct (live_next (i_heap H) _ _ k Hl' Hk) as (n & (e & He & ->)%live_lv & Hp & Hv).
  exists e. split_and!; [done..|]. exact (live_next_ne (i_heap H) _ _ _ Hl' Hk).
Qed.

Lemma lv_prev s h c k :
  Inv R X D s -> lv R (chunks_ s) (regions_ s) h c -> prev c = Some k ->
  exists e, lv R (chunks_ s) (regions_ s) k e /\ ptr c = ptr e + size e /\ next e = Some h /\ k <> h.
Proof.
  intros H Hl Hk. pose proof (lv_live _ _ _ _ _ Hl) as Hl'.
  destruct (live_prev (i_heap H) _ _ k Hl' Hk) as (n & (e & He & ->)%live_lv & Hp & Hv).
  exists e. split_and!; [done..|]. exact (live_prev_ne (i_heap H) _ _ _ Hl' Hk).
Qed.

Lemma lookup_insert_decide (cs : list Chunk) h c k :
  (h < length cs)%nat -> <[h := c]> cs !! k = if decide (k = h) then Some c else cs !! k.
Proof.
  intros Hh. case_decide as E; [subst k; by apply list_lookup_insert_eq|by apply list_lookup_insert_ne].
Qed.
Lemma Inv_eq X1 X2 D1 D2 s : X1 = X2 -> D1 = D2 -> Inv R X1 D1 s -> Inv R X2 D2 s.
Proof. by intros -> ->. Qed.
End Facts.

(** A chunk after some assignments. *)
Ltac lookup_chunk :=
  cbn [chunks_ with_chunks with_regions with_free_list with_bins];
  rewrite !lookup_insert_decide by (by rewrite ?length_insert);
  repeat (first [rewrite decide_True by done | rewrite decide_False by done]).

(** [match o with Some k => ChunkFromHandle(k)->prev = v] *)
Definition relink (o : option ChunkHandle) (v : option ChunkHandle) (cs : list Chunk) : list Chunk :=
  match o with
  | None => cs
  | Some k => match cs !! k with Some e => <[k := set_prev v e]> cs | None => cs end
  end.

Lemma relink_lookup o v cs k :
  relink o v cs !! k = if decide (o = Some k) then set_prev v <$> cs !! k else cs !! k.
Proof.
  unfold relink. destruct o as [j|]; [|done]. destruct (cs !! j) as [e|] eqn:E.
  - rewrite lookup_insert_decide by (by apply lookup_lt_Some in E).
    destruct (decide (k = j)) as [->|Hk].
    + rewrite decide_True by done. by rewrite E.
    + rewrite decide_False by congruence. done.
  - case_decide as Ek; [|done]. injection Ek as ->. by rewrite E.
Qed.

Lemma length_relink o v cs : length (relink o v cs) = length cs.
Proof. unfold relink. repeat case_match; by rewrite ?length_insert. Qed.

Lemma wp_relink {Sub} d o v (s : bfc Sub) Q :
  (forall k, o = Some k -> exists e, chunks_ s !! k = Some e) ->
  Q () (with_chunks (relink o v (chunks_ s)) s) ->
  wp d (match o with Some k => upd_chunk k (set_prev v) | None => mret () end) s Q.
Proof.
  intros Hk HQ. destruct o as [k|].
  - destruct (Hk k eq_refl) as [e He]. apply (wp_upd _ _ _ e); [done|]. unfold relink in HQ.
    by rewrite He in HQ.
  - apply wp_ret. simpl in HQ. by destruct s.
Qed.

(** The handles at addresses on the grid after set_handle. *)
Lemma set_handle_wp {Sub} d R X D (s : bfc Sub) (s0 : bfc Sub) p v Q :
  Inv R X D s0 -> regions_ s = regions_ s0 -> grid R p ->
  (forall rs', regions_ok rs' -> extent <$> rs' = extent <$> regions_ s0 ->
     (forall q, grid R q -> sl_of rs' q = set_sl (sl_of (regions_ s0)) p v q) ->
     Q () (with_regions rs' s)) ->
  wp d (set_handle p v) s Q.
Proof.
  intros H Hrs Hg HQ.
  assert (forall q, grid R q -> grid (reg_of (regions_ s0)) q) as Hgr.
  { intros q (lo & hi & Hr & ?). exists lo, hi. split; [by apply (i_sub H)|done]. }
  destruct (set_handle_spec (regions_ s0) p v (i_regs H) (Hgr _ Hg)) as (rs' & E & Hok & He & Hsl).
  unfold set_handle. apply wp_bind, wp_gets. rewrite Hrs.
  apply wp_bind, (wp_lift _ _ rs'); [done|]. apply wp_modify. apply HQ; auto.
Qed.

Lemma extent_memory (rs rs' : list AllocationRegion) :
  extent <$> rs' = extent <$> rs -> memory_size <$> rs' = memory_size <$> rs.
Proof.
  intros He. assert (forall l : list AllocationRegion, memory_size <$> l = (fun e => snd (fst e)) <$> (extent <$> l)) as Hm.
  { intros l. rewrite <- list_fmap_compose. done. }
  by rewrite !Hm, He.
Qed.

(** ** Steps that only rearrange free memory

    Nothing but the chunks, the regions' handles, the bins and the list of unused
    chunks changes, and the chunks in use stay where they are. *)

(** What a client sees of a chunk. *)
Definition core (c : Chunk) : Z * Z * Z * Z := (ptr c, size c, requested_size c, allocation_id c).

Definition used {Sub} (R : Z -> Z -> Prop) (s : bfc Sub) (h : nat) (a : Z * Z * Z * Z) : Prop :=
  exists c, lv R (chunks_ s) (regions_ s) h c /\ in_use c = true /\ core c = a.

Record internal {Sub} (R : Z -> Z -> Prop) (s s' : bfc Sub) : Prop := {
  in_rest : s' = with_chunks (chunks_ s') (with_free_list (free_chunks_list_ s')
    (with_regions (regions_ s') (with_bins (bins_ s') s)));
  in_extent : extent <$> regions_ s' = extent <$> regions_ s;
  in_used : forall h a, used R s' h a <-> used R s h a;
  in_grid : forall h c, chunks_ s !! h = Some c -> grid R (ptr c) ->
    exists c', chunks_ s' !! h = Some c' /\ grid R (ptr c');
}.

#[export] Instance internal_preorder {Sub} R : PreOrder (@internal Sub R).
Proof.
  split.
  - intros s. split; [by destruct s|done|done|eauto].
  - intros s1 s2 s3 [E1 X1 U1 G1] [E2 X2 U2 G2]. split.
    + rewrite E2 at 1. rewrite E1 at 1. done.
    + by rewrite X2.
    + intros h a. by rewrite U2.
    + intros h c Hc Hg. destruct (G1 h c Hc Hg) as (c' & Hc' & Hg'). by apply (G2 h c').
Qed.

(** A chunk that is not in use may change anything but its place. *)
Lemma internal_update {Sub} R (s : bfc Sub) h c c' bins :
  chunks_ s !! h = Some c -> in_use c = false -> in_use c' = false -> ptr c' = ptr c ->
  internal R s (with_chunks (<[h := c']> (chunks_ s)) (with_bins bins s)).
Proof.
  intros Hc Hu Hu' Hp. split; [done|done| |].
  2: { intros k e He Hg. simpl. rewrite lookup_insert_decide by (by apply lookup_lt_Some in Hc).
       case_decide as E; [|by exists e]. subst k. assert (e = c) as -> by congruence.
       exists c'. by rewrite Hp. }
  intros k a. unfold used. simpl. split.
  - intros (e & [(-> & -> & _)|[_ Hl]]%(lv_update R _ _ h c) & Hue & E); [congruence| |done..].
    by exists e.
  - intros (e & Hl & Hue & E). exists e. split; [|done]. apply (lv_update R _ _ h c); [done..|].
    right. split; [|done]. intros ->. pose proof (lv_fun _ _ _ _ _ _ Hl Hc) as ->. congruence.
Qed.

(** ** Merge *)

Section Merge.
Context {Sub : Type} (R : Z -> Z -> Prop) (X : gset nat) (s : bfc Sub).
Context (h1 h2 : nat) (c1 c2 : Chunk).
Hypothesis H : Inv R X ∅ s.
Hypothesis Hl1 : lv R (chunks_ s) (regions_ s) h1 c1.
Hypothesis Hl2 : lv R (chunks_ s) (regions_ s) h2 c2.
Hypothesis Hx1 : h1 ∈ X.
Hypothesis Hx2 : h2 ∈ X.
Hypothesis Hnext : next c1 = Some h2.

Definition merged_chunk : Chunk :=
  set_freed_at_count (Z.max (freed_at_count c1) (freed_at_count c2))
    (set_size (u64 (size c1 + size c2)) (set_next (next c2) c1)).

(** The chunks before the second one is given up. *)
Definition merge_chunks : list Chunk :=
  <[h1 := merged_chunk]> (relink (next c2) (Some h1) (<[h1 := set_next (next c2) c1]> (chunks_ s))).

Lemma merge_facts :
  h2 <> h1 /\ ptr c2 = ptr c1 + size c1 /\ prev c2 = Some h1 /\
  in_use c1 = false /\ in_use c2 = false /\ bin_num c1 = None /\ bin_num c2 = None /\
  u64 (size c1 + size c2) = size c1 + size c2 /\ next c2 <> Some h1 /\ next c2 <> Some h2.
Proof.
  destruct (lv_next R X ∅ s h1 c1 h2 H Hl1 Hnext) as (e & He & Hp & Hv & Hne).
  pose proof (lv_fun _ _ _ _ _ _ He (proj1 Hl2)) as <-.
  destruct (i_X H _ Hx1) as (d1 & Hd1 & Hu1). pose proof (lv_fun _ _ _ _ _ _ Hd1 (proj1 Hl1)) as <-.
  destruct (i_X H _ Hx2) as (d2 & Hd2 & Hu2). pose proof (lv_fun _ _ _ _ _ _ Hd2 (proj1 Hl2)) as <-.
  pose proof (i_live H _ _ Hl1) as Hb1. rewrite Hu1, decide_True in Hb1 by done.
  pose proof (i_live H _ _ Hl2) as Hb2. rewrite Hu2, decide_True in Hb2 by done.
  destruct (lv_bounds R X ∅ s h1 c1 H Hl1) as (? & ? & _ & ?).
  destruct (lv_bounds R X ∅ s h2 c2 H Hl2) as (? & ? & _ & ?).
  split_and!; try done.
  - unfold u64. apply Z.mod_small. lia.
  - intros En. destruct (lv_next R X ∅ s h2 c2 h1 H Hl2 En) as (e & He' & Hp' & _).
    pose proof (lv_fun _ _ _ _ _ _ He' (proj1 Hl1)) as <-. lia.
  - intros En. by destruct (lv_next R X ∅ s h2 c2 h2 H Hl2 En) as (e & _ & _ & _ & ?).
Qed.

Lemma merge_chunks_lookup k :
  merge_chunks !! k = if decide (k = h1) then Some merged_chunk
    else if decide (next c2 = Some k) then set_prev (Some h1) <$> chunks_ s !! k
    else chunks_ s !! k.
Proof.
  pose proof (lv_valid _ _ _ _ _ Hl1) as Hlt. unfold merge_chunks.
  rewrite lookup_insert_decide by (by rewrite length_relink, length_insert).
  case_decide as E1; [done|]. rewrite relink_lookup.
  by rewrite !lookup_insert_decide, (decide_False (P := k = h1)) by done.
Qed.

Lemma merge_ptr k e :
  chunks_ s !! k = Some e -> exists e', merge_chunks !! k = Some e' /\ ptr e' = ptr e.
Proof.
  intros He. rewrite merge_chunks_lookup. case_decide as E1.
  - subst k. rewrite (proj1 Hl1) in He. injection He as <-. by eexists.
  - rewrite He. case_decide; by eexists.
Qed.

Lemma merge_tag k : tag <$> merge_chunks !! k = tag <$> chunks_ s !! k.
Proof.
  destruct merge_facts as (_ & _ & _ & Hu1 & _ & Hb1 & _). rewrite merge_chunks_lookup.
  case_decide as E1; [|case_decide; [by destruct (chunks_ s !! k)|done]].
  subst k. rewrite (proj1 Hl1). simpl. f_equal. unfold tag, merged_chunk. simpl.
  unfold in_use in *. simpl in *. rewrite Hb1. by rewrite Hu1.
Qed.

Lemma merge_nd_eq k :
  nd_of merge_chunks k = merge_nd (nd_of (chunks_ s)) h1 h2 (node_of c1) (node_of c2)
    (Some (node_of c2)) k.
Proof.
  destruct merge_facts as (Hne & _ & _ & _ & _ & _ & _ & Hsz & Hn1 & Hn2).
  unfold nd_of, merge_nd. rewrite merge_chunks_lookup. cbn [n_next node_of].
  destruct (decide (k = h1)) as [->|E1].
  - rewrite decide_False by done. simpl. unfold merged_chunk, node_of. simpl. by rewrite Hsz.
  - destruct (decide (k = h2)) as [->|E2].
    + rewrite decide_False by done. by rewrite (proj1 Hl2).
    + case_decide; [by destruct (chunks_ s !! k)|done].
Qed.

Lemma merge_core k e e' :
  chunks_ s !! k = Some e -> merge_chunks !! k = Some e' ->
  in_use e' = in_use e /\ (in_use e = true -> core e' = core e).
Proof.
  destruct merge_facts as (_ & _ & _ & Hu1 & _). rewrite merge_chunks_lookup. intros He.
  destruct (decide (k = h1)) as [->|Hk].
  - intros [= <-]. rewrite (proj1 Hl1) in He. injection He as <-. split; [done|congruence].
  - rewrite He. case_decide; simpl; by intros [= <-].
Qed.

Section WithRegions.
Context (rs' : list AllocationRegion).
Hypothesis Hok : regions_ok rs'.
Hypothesis Hext : extent <$> rs' = extent <$> regions_ s.
Hypothesis Hsl : forall q, grid R q -> sl_of rs' q = set_sl (sl_of (regions_ s)) (ptr c2) None q.
Let sM := with_regions rs' (with_chunks merge_chunks s).

Lemma merge_heap : heap_ok (nd_of merge_chunks) R (sl_of rs').
Proof.
  apply (restrict_heap_ok _ _ R R _ _
    (merge_heap_ok _ _ _ (i_heap H) h1 h2 _ _ (Some (node_of c2))
       (lv_live _ _ _ _ _ Hl1) (lv_live _ _ _ _ _ Hl2) Hnext)); [done|done|].
  intros p j _ _. apply merge_nd_eq.
Qed.

Lemma merge_lv k e' :
  lv R merge_chunks rs' k e' <->
  k <> h2 /\ merge_chunks !! k = Some e' /\ exists e, lv R (chunks_ s) (regions_ s) k e.
Proof.
  destruct merge_facts as (Hne & _ & _ & _ & _ & _ & _ & Hsz & Hn1 & Hn2).
  assert (forall e, merge_chunks !! k = Some e' -> chunks_ s !! k = Some e -> ptr e' = ptr e) as Hptr.
  { intros e He' He. rewrite merge_chunks_lookup in He'. case_decide as E1.
    - subst k. injection He' as <-. rewrite (proj1 Hl1) in He. by injection He as <-.
    - rewrite He in He'. case_decide; simpl in He'; by injection He' as <-. }
  assert (forall e', merge_chunks !! k = Some e' -> exists e, chunks_ s !! k = Some e) as Hex.
  { intros e He'. destruct (chunks_ s !! k) eqn:E; [eauto|].
    pose proof (merge_tag k) as Ht. by rewrite He', E in Ht. }
  split.
  - intros (He' & Hg & Hs). destruct (Hex _ He') as [e He]. pose proof (Hptr e He' He) as Hp.
    rewrite Hsl in Hs by done. unfold set_sl in Hs. case_decide as E; [done|].
    rewrite Hp in *. split_and!; [|done|by exists e].
    intros ->. apply E. rewrite (proj1 Hl2) in He. by injection He as <-.
  - intros (Hk & He' & e & He & Hg & Hs). pose proof (Hptr e He' He) as Hp. split; [done|].
    rewrite Hp. split; [done|]. rewrite Hsl by done. unfold set_sl. case_decide as E; [|done].
    rewrite E in Hs. destruct Hl2 as (_ & _ & Hs2). congruence.
Qed.

Lemma merge_Inv : Inv R (X ∖ {[h2]}) {[h2]} sM.
Proof.
  apply (Inv_eq R ((X ∖ {[h2]}) ∪ ∅) _ ((∅ ∖ ∅) ∪ {[h2]}) _); [clear; set_solver..|].
  apply (Inv_surgery R R X ∅ {[h2]} ∅ s sM H);
    cbn [chunks_ regions_ bins_ stats_ next_allocation_id_ free_chunks_list_ sM with_regions with_chunks];
    try done.
  - intros lo hi Hr. apply (reg_of_extent rs' (regions_ s)); [done|]. by apply (i_sub H).
  - exact merge_heap.
  - exact merge_tag.
  - intros k. split.
    + intros [e' (Hk & He' & He)%merge_lv]. left. split; [done|]. clear -Hk. set_solver.
    + intros [[[e He] Hk]|Hk]; [|clear -Hk; set_solver].
      destruct (tag_lookup _ _ k e merge_tag (proj1 He)) as (e' & He' & _). exists e'.
      apply merge_lv. split_and!; [clear -Hk; set_solver|done|by exists e].
  - intros k e He Hn _. rewrite merge_chunks_lookup. rewrite decide_False.
    + rewrite decide_False; [done|]. intros E.
      destruct (lv_next R X ∅ s h2 c2 k H Hl2 E) as (e1 & He1 & _).
      by pose proof (lv_fun _ _ _ _ _ _ He1 He) as ->.
    + intros ->. by pose proof (lv_fun _ _ _ _ _ _ Hl1 He) as ->.
  - intros k ->%elem_of_singleton. exists c2. split; [done|]. apply merge_facts.
  - rewrite (extent_memory (regions_ s)) by done. exact (i_pool H).
Qed.
End WithRegions.
End Merge.

(** Merging two free chunks changes no chunk in use. *)
Lemma merge_used {Sub} R X (s s' : bfc Sub) h1 h2 c1 c2 :
  Inv R X ∅ s -> lv R (chunks_ s) (regions_ s) h1 c1 -> lv R (chunks_ s) (regions_ s) h2 c2 ->
  h1 ∈ X -> h2 ∈ X -> next c1 = Some h2 ->
  (forall k e', lv R (chunks_ s') (regions_ s') k e' <->
     k <> h2 /\ merge_chunks s h1 c1 c2 !! k = Some e' /\ exists e, lv R (chunks_ s) (regions_ s) k e) ->
  forall k a, used R s' k a <-> used R s k a.
Proof.
  intros H Hl1 Hl2 Hx1 Hx2 Hnext Hlv k a.
  destruct (merge_facts R X s h1 h2 c1 c2 H Hl1 Hl2 Hx1 Hx2 Hnext) as (_ & _ & _ & _ & Hu2 & _).
  unfold used. split.
  - intros (e' & (_ & He' & e & He)%Hlv & Hu & <-).
    destruct (merge_core R X s h1 h2 c1 c2 H Hl1 Hl2 Hx1 Hx2 Hnext k e e' (proj1 He) He') as [Eu Ec].
    exists e. rewrite <- Eu. split_and!; [done..|]. symmetry. apply Ec. congruence.
  - intros (e & He & Hu & <-).
    destruct (tag_lookup _ _ k e (merge_tag R X s h1 h2 c1 c2 H Hl1 Hl2 Hx1 Hx2 Hnext) (proj1 He)) as (e' & He' & _).
    destruct (merge_core R X s h1 h2 c1 c2 H Hl1 Hl2 Hx1 Hx2 Hnext k e e' (proj1 He) He') as [Eu Ec].
    exists e'. split_and!; [|congruence|by apply Ec]. apply Hlv. split_and!; [|done|by exists e].
    intros ->. pose proof (lv_fun _ _ _ _ _ _ Hl2 (proj1 He)) as ->. congruence.
Qed.

Lemma Merge_wp {Sub} d R X (s : bfc Sub) h1 h2 c1 c2 Q :
  Inv R X ∅ s -> lv R (chunks_ s) (regions_ s) h1 c1 -> lv R (chunks_ s) (regions_ s) h2 c2 ->
  h1 ∈ X -> h2 ∈ X -> next c1 = Some h2 ->
  (forall s', Inv R (X ∖ {[h2]}) ∅ s' -> internal R s s' ->
     (forall k e', lv R (chunks_ s') (regions_ s') k e' <->
        k <> h2 /\ merge_chunks s h1 c1 c2 !! k = Some e' /\
        exists e, lv R (chunks_ s) (regions_ s) k e) -> Q () s') ->
  wp d (Merge h1 h2) s Q.
Proof.
  intros H Hl1 Hl2 Hx1 Hx2 Hnext HQ.
  destruct (merge_facts R X s h1 h2 c1 c2 H Hl1 Hl2 Hx1 Hx2 Hnext)
    as (Hne & Hadj & Hpv & Hu1 & Hu2 & Hb1 & Hb2 & Hsz & Hn1 & Hn2).
  pose proof (lv_valid _ _ _ _ _ Hl1) as Hlt.
  unfold Merge. apply wp_bind, (wp_chunk _ _ c1); [apply Hl1|].
  apply wp_bind, (wp_chunk _ _ c2); [apply Hl2|].
  apply wp_bind, wp_mcheck; [by rewrite Hu1, Hu2|].
  apply wp_bind, (wp_upd _ _ _ c1); [apply Hl1|].
  apply wp_bind, wp_mcheck; [by apply bool_decide_eq_true|]. apply wp_bind, wp_relink.
  { simpl. intros k Ek. destruct (lv_next R X ∅ s h2 c2 k H Hl2 Ek) as (e & (He & _) & _).
    rewrite lookup_insert_decide by done. case_decide; eauto. }
  simpl. apply wp_bind, (wp_upd _ _ _ (set_next (next c2) c1)).
  { simpl. rewrite relink_lookup, lookup_insert_decide, (decide_True (P := h1 = h1)) by done.
    by rewrite decide_False. }
  set (s1 := with_chunks _ _).
  assert (Ech : chunks_ s1 = merge_chunks s h1 c1 c2) by done.
  assert (E1 : s1 = with_chunks (merge_chunks s h1 c1 c2) s) by done.
  clearbody s1. subst s1. unfold DeleteChunk.
  assert (Hc2 : merge_chunks s h1 c1 c2 !! h2 = Some c2).
  { rewrite (merge_chunks_lookup R s h1 c1 c2 Hl1), !decide_False by done. apply Hl2. }
  apply wp_bind, (wp_chunk _ _ c2); [done|].
  apply wp_bind, (set_handle_wp _ R X ∅ _ s); [done|done|apply Hl2|].
  intros rs' Hok Hext Hsl. pose proof (merge_Inv R X s h1 h2 c1 c2 H Hl1 Hl2 Hx1 Hx2 Hnext rs' Hok Hext Hsl) as HI.
  unfold DeallocateChunk. apply wp_bind, wp_gets. apply wp_bind, (wp_upd _ _ _ c2); [done|].
  apply wp_modify.
  pose proof (DeallocateChunk_Inv R _ _ _ h2 c2 HI ltac:(clear; set_solver) Hc2 Hb2) as HI2.
  cbv zeta in HI2. set (s' := with_free_list _ _) in HI2 |- *.
  assert (Hlv : forall k e', lv R (chunks_ s') (regions_ s') k e' <->
    k <> h2 /\ merge_chunks s h1 c1 c2 !! k = Some e' /\ exists e, lv R (chunks_ s) (regions_ s) k e).
  { intros k e'. rewrite <- (merge_lv R X s h1 h2 c1 c2 H Hl1 Hl2 Hx1 Hx2 Hnext rs' Hsl).
    unfold s'. cbn [chunks_ regions_ with_free_list with_chunks with_regions].
    rewrite (lv_update R _ _ h2 c2) by done. split.
    - intros [(_ & _ & Hl)|[_ Hl]]; [|done].
      by apply (merge_lv R X s h1 h2 c1 c2 H Hl1 Hl2 Hx1 Hx2 Hnext rs' Hsl) in Hl as [? _].
    - intros Hl. right. split; [|done].
      by apply (merge_lv R X s h1 h2 c1 c2 H Hl1 Hl2 Hx1 Hx2 Hnext rs' Hsl) in Hl as [? _]. }
  apply HQ; [|split; [done|done| |]|done].
  - replace (∅ : gset nat) with ({[h2]} ∖ {[h2]} : gset nat) by (clear; set_solver). done.
  - by apply (merge_used R X s s' h1 h2 c1 c2).
  - intros k e He Hg. destruct (merge_ptr R s h1 c1 c2 Hl1 k e He) as (e' & He' & Hp).
    unfold s'. cbn [chunks_ with_free_list with_chunks].
    rewrite lookup_insert_decide by (by apply lookup_lt_Some in Hc2).
    case_decide as E; [|exists e'; by rewrite Hp]. subst k.
    eexists. split; [done|]. simpl. by apply Hl2.
Qed.

(** ** SplitChunk *)

Section Split.
Context {Sub : Type} (R : Z -> Z -> Prop) (X : gset nat) (s : bfc Sub).
Context (h hn : nat) (c cn : Chunk) (k : Z).
Hypothesis H : Inv R X {[hn]} s.
Hypothesis Hl : lv R (chunks_ s) (regions_ s) h c.
Hypothesis Hx : h ∈ X.
Hypothesis Hcn : chunks_ s !! hn = Some cn.
Hypothesis Hbn : bin_num cn = None.
Hypothesis Hk : 0 < k < size c.
Hypothesis Hdiv : (256 | k).

(** The chunk split off, before it is put into a bin, and what is left of [c]. *)
Definition split_chunk_new : Chunk :=
  set_next (next c) (set_prev (Some h) (set_freed_at_count (freed_at_count c)
    (set_allocation_id (-1) (set_size (u64 (size c - k)) (set_ptr (ptr c + k) cn))))).
Definition split_chunk_old : Chunk := set_next (Some hn) (set_size k c).

Definition is_split (cs' : list Chunk) : Prop := forall j,
  cs' !! j = if decide (j = hn) then Some split_chunk_new
    else if decide (j = h) then Some split_chunk_old
    else if decide (next c = Some j) then set_prev (Some hn) <$> chunks_ s !! j
    else chunks_ s !! j.

Lemma split_facts :
  h <> hn /\ (forall e, ~ lv R (chunks_ s) (regions_ s) hn e) /\ in_use c = false /\
  bin_num c = None /\ in_use cn = false /\ next c <> Some hn /\ next c <> Some h /\
  u64 (size c - k) = size c - k /\ (hn ∉ X).
Proof.
  destruct (i_D H hn ltac:(clear; set_solver)) as (c1 & Hc1 & Hn).
  assert (c1 = cn) as -> by congruence.
  assert (forall e, ~ lv R (chunks_ s) (regions_ s) hn e) as Hnl.
  { intros e He. by pose proof (lv_fun _ _ _ _ _ _ He Hcn) as ->. }
  destruct (i_X H _ Hx) as (d1 & Hd1 & Hu1). pose proof (lv_fun _ _ _ _ _ _ Hd1 (proj1 Hl)) as <-.
  pose proof (i_live H _ _ Hl) as Hb1. rewrite Hu1, decide_True in Hb1 by done.
  destruct (dead_facts R X _ s hn cn H Hcn Hn) as (HnX & Hun & _).
  destruct (lv_bounds R X _ s h c H Hl) as (? & ? & _ & ?).
  split_and!; try done.
  - intros ->. by apply (Hnl c).
  - intros En. destruct (lv_next R X _ s h c hn H Hl En) as (e & He & _). by apply (Hnl e).
  - intros En. by destruct (lv_next R X _ s h c h H Hl En) as (e & _ & _ & _ & ?).
  - unfold u64. apply Z.mod_small. lia.
Qed.

Section WithState.
Context (cs' : list Chunk) (rs' : list AllocationRegion).
Hypothesis Hcs : is_split cs'.
Hypothesis Hok : regions_ok rs'.
Hypothesis Hext : extent <$> rs' = extent <$> regions_ s.
Hypothesis Hsl : forall q, grid R q ->
  sl_of rs' q = set_sl (sl_of (regions_ s)) (ptr c + k) (Some hn) q.
Let sS := with_regions rs' (with_chunks cs' s).

Lemma split_chunk_tag j : tag <$> cs' !! j = tag <$> chunks_ s !! j.
Proof.
  destruct split_facts as (_ & _ & Hu & Hb & Hun & _). rewrite Hcs.
  case_decide as E1; [|case_decide as E2; [|case_decide; [by destruct (chunks_ s !! j)|done]]].
  - subst j. rewrite Hcn. simpl. f_equal. unfold tag, split_chunk_new. simpl.
    unfold in_use in *. simpl. rewrite Hbn. assert (allocation_id cn = -1) as -> by lia. done.
  - subst j. rewrite (proj1 Hl). simpl. f_equal. unfold tag, split_chunk_old. simpl.
    unfold in_use in *. simpl in *. by rewrite Hb, Hu.
Qed.

Lemma split_nd_eq j :
  nd_of cs' j = split_nd (nd_of (chunks_ s)) h hn (node_of c) k j.
Proof.
  destruct split_facts as (Hne & _ & _ & _ & _ & Hn1 & Hn2 & Hsz & _).
  unfold nd_of, split_nd. rewrite Hcs. cbn [n_next node_of].
  case_decide as E1; [|case_decide as E2].
  - unfold split_chunk_new, node_of. simpl. by rewrite Hsz.
  - done.
  - case_decide; [by destruct (chunks_ s !! j)|done].
Qed.

Lemma split_chunk_heap : heap_ok (nd_of cs') R (sl_of rs').
Proof.
  destruct split_facts as (Hne & Hnl & _).
  apply (restrict_heap_ok _ _ R R _ _
    (split_heap_ok _ _ _ (i_heap H) h hn _ k (lv_live _ _ _ _ _ Hl)
       ltac:(intros m (e & He & _)%live_lv; by apply (Hnl e)) Hk Hdiv)); [done|done|].
  intros p j _ _. apply split_nd_eq.
Qed.

Lemma split_chunk_grid : grid R (ptr c + k).
Proof. exact (split_grid _ _ _ (i_heap H) h (node_of c) k (lv_live _ _ _ _ _ Hl) Hk Hdiv). Qed.

Lemma split_lv j e' :
  lv R cs' rs' j e' <->
  (j = hn /\ e' = split_chunk_new) \/ (j = h /\ e' = split_chunk_old) \/
  (j <> h /\ j <> hn /\ exists e, lv R (chunks_ s) (regions_ s) j e /\
     e' = if decide (next c = Some j) then set_prev (Some hn) e else e).
Proof.
  destruct split_facts as (Hne & Hnl & _ & _ & _ & Hn1 & Hn2 & Hsz & _).
  assert (sl_of (regions_ s) (ptr c + k) = None) as Hnone.
  { exact (split_slot_none _ _ _ (i_heap H) h (node_of c) k (lv_live _ _ _ _ _ Hl) Hk Hdiv). }
  assert (forall e, lv R (chunks_ s) (regions_ s) j e -> ptr e <> ptr c + k) as Hap.
  { intros e (_ & _ & Hs) E. by rewrite E, Hnone in Hs. }
  split.
  - intros (He' & Hg & Hs). rewrite Hcs in He'. case_decide as E1; [left; split; congruence|].
    case_decide as E2; [right; left; split; congruence|]. right. right. split_and!; [done..|].
    rewrite Hsl in Hs by done. unfold set_sl in Hs.
    case_decide as E3; [congruence|]. case_decide as E4.
    + apply fmap_Some in He' as (e & He & ->). by exists e.
    + by exists e'.
  - intros [[-> ->]|[[-> ->]|(Hj1 & Hj2 & e & He & ->)]].
    + split_and!; [by rewrite Hcs, decide_True|apply split_chunk_grid|].
      rewrite Hsl by apply split_chunk_grid. unfold set_sl. by rewrite decide_True.
    + destruct Hl as (_ & Hg & Hs). split_and!; [by rewrite Hcs, decide_False, decide_True|done|].
      rewrite Hsl by done. unfold set_sl. simpl. by rewrite decide_False by lia.
    + pose proof (Hap e He) as Hp. destruct He as (He & Hg & Hs). split_and!.
      * rewrite Hcs, !(decide_False (P := j = _)), He by done. by case_decide.
      * by case_decide.
      * replace (ptr (if decide _ then _ else _)) with (ptr e) by (by case_decide).
        rewrite Hsl by done. unfold set_sl. by rewrite decide_False.
Qed.

Lemma split_Inv : Inv R (X ∪ {[hn]}) ∅ sS.
Proof.
  destruct split_facts as (Hne & Hnl & Hu & Hb & Hun & Hn1 & Hn2 & Hsz & HnX).
  apply (Inv_eq R ((X ∖ ∅) ∪ {[hn]}) _ (({[hn]} ∖ {[hn]}) ∪ ∅) _); [clear; set_solver..|].
  apply (Inv_surgery R R X {[hn]} ∅ {[hn]} s sS H);
    cbn [chunks_ regions_ bins_ stats_ next_allocation_id_ free_chunks_list_ sS with_regions with_chunks];
    try done.
  - intros lo hi Hr. apply (reg_of_extent rs' (regions_ s)); [done|]. by apply (i_sub H).
  - exact split_chunk_heap.
  - exact split_chunk_tag.
  - intros j. split.
    + intros [e' [[-> _]|[[-> _]|(_ & _ & e & He & _)]]%split_lv].
      * right. clear. set_solver.
      * left. split; [by exists c|done].
      * left. split; [by exists e|done].
    + intros [[[e He] _]|Hj%elem_of_singleton]; [|subst j].
      * assert (j <> hn) as Hj by (intros ->; by apply (Hnl e)).
        destruct (decide (j = h)) as [->|Hjh]; [eexists; apply split_lv; right; left; done|].
        eexists. apply split_lv. right. right. split_and!; [done..|]. by exists e.
      * eexists. apply split_lv. left. done.
  - intros j e He Hn HjD. rewrite Hcs, decide_False by (clear -HjD; set_solver).
    rewrite decide_False.
    + rewrite decide_False; [done|]. intros E.
      destruct (lv_next R X _ s h c j H Hl E) as (e1 & He1 & _).
      by pose proof (lv_fun _ _ _ _ _ _ He1 He) as ->.
    + intros ->. by pose proof (lv_fun _ _ _ _ _ _ Hl He) as ->.
  - intros j ->%elem_of_singleton. split; [clear; set_solver|]. by exists cn.
  - rewrite (extent_memory (regions_ s)) by done. exact (i_pool H).
Qed.
End WithState.
End Split.

(** What SplitChunk leaves in the vector. *)
Lemma is_split_built {Sub} R X (s : bfc Sub) h hn c cn k (a b a' a2 : Chunk) :
  Inv R X {[hn]} s -> lv R (chunks_ s) (regions_ s) h c -> h ∈ X ->
  chunks_ s !! hn = Some cn -> bin_num cn = None -> 0 < k < size c ->
  is_split s h hn c cn k
    (relink (next c) (Some hn) (<[h := split_chunk_old hn c k]> (<[hn := split_chunk_new h c cn k]>
      (<[hn := a]> (<[h := b]> (<[hn := a']> (<[hn := a2]> (chunks_ s)))))))) .
Proof.
  intros H Hl Hx Hcn Hbn Hk j.
  pose proof (lv_valid _ _ _ _ _ Hl) as Hlt. assert (hn < length (chunks_ s))%nat as Hltn by by apply lookup_lt_Some in Hcn.
  rewrite relink_lookup, !lookup_insert_decide by (by rewrite ?length_insert).
  destruct (split_facts R X s h hn c cn k H Hl Hx Hcn Hbn Hk) as (Hne & _ & _ & _ & _ & Hn1 & Hn2 & _).
  destruct (decide (j = hn)) as [->|E1].
  - rewrite (decide_False (P := next c = Some hn)), (decide_False (P := hn = h)) by done. done.
  - destruct (decide (j = h)) as [->|E2]; [by rewrite (decide_False (P := next c = Some h))|done].
Qed.

(** Splitting a free chunk changes no chunk in use. *)
Lemma split_used {Sub} R (s s' : bfc Sub) h hn c new old :
  lv R (chunks_ s) (regions_ s) h c -> in_use c = false -> in_use new = false -> in_use old = false ->
  (forall e, ~ lv R (chunks_ s) (regions_ s) hn e) ->
  (forall j e', lv R (chunks_ s') (regions_ s') j e' <->
     (j = hn /\ e' = new) \/ (j = h /\ e' = old) \/
     (j <> h /\ j <> hn /\ exists e, lv R (chunks_ s) (regions_ s) j e /\
        e' = if decide (next c = Some j) then set_prev (Some hn) e else e)) ->
  forall j a, used R s' j a <-> used R s j a.
Proof.
  intros Hl Hu Hun Huo Hnl HL j a. unfold used. setoid_rewrite HL. split.
  - intros (e' & [[-> ->]|[[-> ->]|(Hj1 & Hj2 & e & He & ->)]] & Hue & <-); [congruence..|].
    exists e. by case_decide.
  - intros (e & He & Hue & <-). assert (j <> h) as Hj.
    { intros ->. pose proof (lv_fun _ _ _ _ _ _ Hl (proj1 He)) as ->. congruence. }
    exists (if decide (next c = Some j) then set_prev (Some hn) e else e).
    split_and!; [|by case_decide..]. right. right. split_and!; [done| |by exists e].
    intros ->. by apply (Hnl e).
Qed.

Lemma SplitChunk_wp {Sub} d R X (s : bfc Sub) h c k Q :
  Inv R X ∅ s -> h ∈ X -> lv R (chunks_ s) (regions_ s) h c -> 0 < k < size c -> (256 | k) ->
  (forall s' hn cn, Inv R X ∅ s' -> internal R s s' -> h <> hn ->
     (forall e, ~ lv R (chunks_ s) (regions_ s) hn e) ->
     let new := split_chunk_new h c cn k in
     (forall j e', lv R (chunks_ s') (regions_ s') j e' <->
        (j = hn /\ e' = set_bin_num (Some (BinNumForSize (size new))) new) \/
        (j = h /\ e' = split_chunk_old hn c k) \/
        (j <> h /\ j <> hn /\ exists e, lv R (chunks_ s) (regions_ s) j e /\
           e' = if decide (next c = Some j) then set_prev (Some hn) e else e)) -> Q () s') ->
  wp d (SplitChunk h k) s Q.
Proof.
  intros H Hx Hl Hk Hdiv HQ. unfold SplitChunk. apply wp_bind.
  apply (AllocateChunk_wp R X d ∅ s); [done|].
  intros hn cn s1 H1' _ HnX Hcn Hun Hbn Hch Hlv Hnl Es1.
  assert (H1 : Inv R X {[hn]} s1).
  { apply (Inv_eq R X _ ({[hn]} ∪ ∅) _ _); [done|clear; set_solver|done]. }
  clear H1'. assert (Hl1 : lv R (chunks_ s1) (regions_ s1) h c) by by apply Hlv.
  destruct (split_facts R X s1 h hn c cn k H1 Hl1 Hx Hcn Hbn Hk) as (Hne & Hnl1 & Hu & Hb & _ & Hn1 & Hn2 & _).
  apply wp_bind, (wp_chunk _ _ c); [apply Hl1|].
  apply wp_bind, wp_mcheck; [by rewrite Hu, Hb|].
  apply wp_bind, (wp_upd _ _ _ cn); [done|].
  apply wp_bind, (set_handle_wp _ R X {[hn]} _ s1); [done|done| |].
  { by apply (split_chunk_grid R X s1 h hn c k). }
  intros rs' Hok Hext Hsl.
  pose proof (lv_valid _ _ _ _ _ Hl1) as Hlt.
  assert (hn < length (chunks_ s1))%nat as Hltn by by apply lookup_lt_Some in Hcn.
  apply wp_bind, (wp_upd _ _ _ (set_ptr (ptr c + k) cn)); [by lookup_chunk|].
  apply wp_bind, (wp_upd _ _ _ c); [lookup_chunk; apply Hl1|].
  apply wp_bind; eapply wp_upd; [lookup_chunk; done|].
  apply wp_bind; eapply wp_upd; [lookup_chunk; done|].
  apply wp_bind; eapply wp_upd; [lookup_chunk; done|].
  apply wp_bind, wp_relink.
  { intros j Ej. destruct (lv_next R X _ s1 h c j H1 Hl1 Ej) as (e & (He & _) & _).
    lookup_chunk. repeat case_decide; eauto. }
  pose proof (is_split_built R X s1 h hn c cn k) as Hbuilt.
  set (sB := with_chunks _ _).
  assert (Hcs : is_split s1 h hn c cn k (chunks_ sB)) by by apply Hbuilt.
  assert (HsB : sB = with_regions rs' (with_chunks (chunks_ sB) s1)) by done.
  clearbody sB. clear Hbuilt. set (cs' := chunks_ sB) in *. clearbody cs'. subst sB.
  pose proof (split_Inv R X s1 h hn c cn k H1 Hl1 Hx Hcn Hbn Hk Hdiv cs' rs' Hcs Hok Hext Hsl) as HI.
  pose proof (split_lv R X s1 h hn c cn k H1 Hl1 Hx Hcn Hbn Hk Hdiv cs' rs' Hcs Hsl) as HL.
  assert (HLn : lv R cs' rs' hn (split_chunk_new h c cn k)) by (apply HL; by left).
  apply (InsertFreeChunkIntoBin_wp R (X ∪ {[hn]}) ∅ d _ hn (split_chunk_new h c cn k)); [done|done| |done|].
  { clear. set_solver. }
  intros bins' s' HI'.
  assert (HL' : forall j e', lv R (chunks_ s') (regions_ s') j e' <->
        (j = hn /\ e' = set_bin_num (Some (BinNumForSize (size (split_chunk_new h c cn k))))
                          (split_chunk_new h c cn k)) \/
        (j = h /\ e' = split_chunk_old hn c k) \/
        (j <> h /\ j <> hn /\ exists e, lv R (chunks_ s) (regions_ s) j e /\
           e' = if decide (next c = Some j) then set_prev (Some hn) e else e)).
  { intros j e'. setoid_rewrite <- Hlv. unfold s'.
    cbn [chunks_ regions_ with_chunks with_bins with_regions].
    rewrite (lv_update R _ _ hn (split_chunk_new h c cn k)) by (done || apply HLn).
    rewrite (HL j e'). split.
    - intros [(-> & -> & _)|[Hj [[-> _]|[[-> ->]|Ho]]]]; [by left|done|by right; left|by right; right].
    - intros [[-> ->]|[[-> ->]|(Hj1 & Hj2 & Ho)]]; [by left|right..].
      + split; [done|]. by right; left.
      + split; [done|]. by right; right. }
  apply (HQ s' hn cn); [| |done|by setoid_rewrite <- Hlv|done].
  - replace X with ((X ∪ {[hn]}) ∖ {[hn]}) by (clear -HnX; set_solver). done.
  - split; [unfold s'; by rewrite Es1|by rewrite Es1 in Hext| |].
    2: { intros j e He Hg. pose proof (Hcs j) as Hj. unfold s'. cbn [chunks_ with_chunks with_bins with_regions].
      rewrite lookup_insert_decide by (apply lookup_lt_Some in Hcn; by apply (lv_valid _ _ _ _ _ HLn)).
      repeat case_decide; simplify_eq; try (eexists; split; [done|]; apply HLn || apply Hl).
      - rewrite Hch, He in Hj by done. eexists. split; [exact Hj|done].
      - rewrite Hch, He in Hj by done. eexists. split; [exact Hj|done]. }
    refine (split_used R s s' h hn c _ _ Hl Hu _ _ _ HL'); [done|exact Hu|by setoid_rewrite <- Hlv].
Qed.
