(* ===== verification/BfcFree.v ===== *)
(** * Freeing a chunk

    MarkFree, TryToCoalesce and DeallocateRawInternal of
    xla/tsl/framework/bfc_allocator.cc.  Without a timing counter no two
    neighbouring chunks are both free between calls ([NoAdj]): that is what
    coalescing is for. *)

From Stdlib Require Import ZArith Lia.
From S2P Require Import Prelude MachineInt BfcAllocator BfcHeap BfcRegions BfcInv BfcOps BfcCoalesce.

(** The live chunks of a state. *)
Definition live_chunk {Sub} (R : Z -> Z -> Prop) (s : bfc Sub) (h : nat) (c : Chunk) : Prop :=
  lv R (chunks_ s) (regions_ s) h c.

(** No counter orders the frees. *)
Definition quiet {Sub} (R : Z -> Z -> Prop) (s : bfc Sub) : Prop :=
  timing_counter_ s = None /\ forall h c, live_chunk R s h c -> freed_at_count c = 0.

(** Of two neighbours one is in use, [E] apart. *)
Definition NoAdj {Sub} (R : Z -> Z -> Prop) (E : gset nat) (s : bfc Sub) : Prop :=
  forall h c k e, live_chunk R s h c -> next c = Some k -> live_chunk R s k e ->
    in_use c = false -> in_use e = false -> h ∈ E \/ k ∈ E.

Definition next_used {Sub} (R : Z -> Z -> Prop) (s : bfc Sub) (h : nat) : Prop :=
  forall c k e, live_chunk R s h c -> next c = Some k -> live_chunk R s k e -> in_use e = true.
Definition prev_used {Sub} (R : Z -> Z -> Prop) (s : bfc Sub) (h : nat) : Prop :=
  forall c k e, live_chunk R s h c -> prev c = Some k -> live_chunk R s k e -> in_use e = true.

Section Adjacent.
Context {Sub : Type} (R : Z -> Z -> Prop).
Implicit Types s : bfc Sub.

Lemma NoAdj_mono (E E' : gset nat) s : E ⊆ E' -> NoAdj R E s -> NoAdj R E' s.
Proof. intros Hs HN h c k e H1 H2 H3 H4 H5. destruct (HN h c k e H1 H2 H3 H4 H5); set_solver. Qed.

(** A chunk whose neighbours are in use needs no exemption. *)
Lemma NoAdj_close X D s h c :
  Inv R X D s -> live_chunk R s h c -> NoAdj R {[h]} s -> next_used R s h -> prev_used R s h ->
  NoAdj R ∅ s.
Proof.
  intros H Hl HN Hn Hp h1 c1 k e Hl1 Hk He Hu1 Hue.
  destruct (HN h1 c1 k e Hl1 Hk He Hu1 Hue) as [Hh|Hh]; apply elem_of_singleton in Hh; subst.
  - exfalso. by rewrite (Hn c1 k e) in Hue.
  - exfalso. destruct (lv_next R X D s h1 c1 h H Hl1 Hk) as (e' & He' & _ & Hpe & _).
    by rewrite (Hp e' h1 c1) in Hu1.
Qed.

(** Changes that keep links, uses and times of the live chunks. *)
Definition same_links s s' : Prop := forall h c', live_chunk R s' h c' ->
  exists c, live_chunk R s h c /\ next c' = next c /\ prev c' = prev c /\
    in_use c' = in_use c /\ freed_at_count c' = freed_at_count c.

Lemma same_links_quiet s s' :
  same_links s s' -> timing_counter_ s' = timing_counter_ s -> quiet R s -> quiet R s'.
Proof.
  intros Hs Ht [Hq Hf]. split; [congruence|]. intros h c' Hl.
  destruct (Hs h c' Hl) as (c & Hl' & _ & _ & _ & ->). by apply (Hf h).
Qed.

Lemma same_links_NoAdj s s' E : same_links s s' -> NoAdj R E s -> NoAdj R E s'.
Proof.
  intros Hs HN h c' k e' H1 Hk H2 Hu Hu'.
  destruct (Hs _ _ H1) as (c & Hl & En & _ & Eu & _), (Hs _ _ H2) as (e & Hle & _ & _ & Eue & _).
  apply (HN h c k e); congruence.
Qed.

Lemma same_links_next s s' h : same_links s s' -> next_used R s h -> next_used R s' h.
Proof.
  intros Hs HN c' k e' H1 Hk H2.
  destruct (Hs _ _ H1) as (c & Hl & En & _ & _ & _), (Hs _ _ H2) as (e & Hle & _ & _ & Eue & _).
  rewrite Eue. apply (HN c k e); congruence.
Qed.

Lemma same_links_prev s s' h : same_links s s' -> prev_used R s h -> prev_used R s' h.
Proof.
  intros Hs HN c' k e' H1 Hk H2.
  destruct (Hs _ _ H1) as (c & Hl & _ & En & _ & _), (Hs _ _ H2) as (e & Hle & _ & _ & Eue & _).
  rewrite Eue. apply (HN c k e); congruence.
Qed.

(** Putting a chunk into a bin or taking it out. *)
Lemma rebin_links s h c b bins :
  chunks_ s !! h = Some c ->
  same_links s (with_chunks (<[h := set_bin_num b c]> (chunks_ s)) (with_bins bins s)).
Proof.
  intros Hc k e' Hl. unfold live_chunk in Hl. simpl in Hl.
  apply (lv_update R _ _ h c) in Hl as [(-> & -> & Hl)|[_ Hl]]; [by exists c|by exists e'|done..].
Qed.
End Adjacent.

(** ** The neighbours after a merge *)

Section MergeLinks.
Context {Sub : Type} (R : Z -> Z -> Prop) (X : gset nat) (s s' : bfc Sub).
Context (h1 h2 : nat) (c1 c2 : Chunk).
Hypothesis H : Inv R X ∅ s.
Hypothesis Hl1 : lv R (chunks_ s) (regions_ s) h1 c1.
Hypothesis Hl2 : lv R (chunks_ s) (regions_ s) h2 c2.
Hypothesis Hx1 : h1 ∈ X.
Hypothesis Hx2 : h2 ∈ X.
Hypothesis Hnext : next c1 = Some h2.
Hypothesis Hlv : forall k e', lv R (chunks_ s') (regions_ s') k e' <->
  k <> h2 /\ merge_chunks s h1 c1 c2 !! k = Some e' /\ exists e, lv R (chunks_ s) (regions_ s) k e.

Lemma merged_live : live_chunk R s' h1 (merged_chunk c1 c2).
Proof.
  destruct (merge_facts R X s h1 h2 c1 c2 H Hl1 Hl2 Hx1 Hx2 Hnext) as (Hne & _).
  apply Hlv. split_and!; [done| |by exists c1].
  rewrite (merge_chunks_lookup R s h1 c1 c2 Hl1). by rewrite decide_True.
Qed.

(** The chunks apart from the merged one keep their next link and their use. *)
Lemma merged_other k e' :
  live_chunk R s' k e' -> k <> h1 ->
  k <> h2 /\ exists e, live_chunk R s k e /\ next e' = next e /\ in_use e' = in_use e /\
    freed_at_count e' = freed_at_count e /\
    prev e' = if decide (next c2 = Some k) then Some h1 else prev e.
Proof.
  intros (Hk2 & He' & e & He)%Hlv Hk1. split; [done|]. exists e. split; [done|].
  rewrite (merge_chunks_lookup R s h1 c1 c2 Hl1), decide_False, (proj1 He) in He' by done.
  case_decide; simpl in He'; by injection He' as <-.
Qed.

Lemma merged_quiet : timing_counter_ s' = timing_counter_ s -> quiet R s -> quiet R s'.
Proof.
  intros Ht [Hq Hf]. split; [congruence|]. intros k e' Hl. destruct (decide (k = h1)) as [->|Hk].
  - pose proof (lv_fun _ _ _ _ _ _ merged_live (proj1 Hl)) as ->. unfold merged_chunk. simpl.
    by rewrite (Hf _ _ Hl1), (Hf _ _ Hl2).
  - destruct (merged_other k e' Hl Hk) as (_ & e & He & _ & _ & -> & _). by apply (Hf k).
Qed.

Lemma merged_NoAdj : NoAdj R {[h1; h2]} s -> NoAdj R {[h1]} s'.
Proof.
  intros HN k e' k' f' H1 Hk H2 Hu Hu'.
  destruct (decide (k = h1)) as [->|Hk1]; [left; set_solver|].
  destruct (decide (k' = h1)) as [->|Hk1']; [right; set_solver|].
  destruct (merged_other k e' H1 Hk1) as (Hk2 & e & He & En & Eu & _).
  destruct (merged_other k' f' H2 Hk1') as (Hk2' & f & Hf & _ & Euf & _).
  destruct (HN k e k' f He) as [Hin|Hin]; [congruence|done|congruence|congruence|..];
    clear -Hin Hk1 Hk2 Hk1' Hk2'; set_solver.
Qed.

(** The chunk that followed the second one is in use. *)
Lemma merged_next : next_used R s h2 -> next_used R s' h1.
Proof.
  intros HN c k e' Hc Hk He'.
  pose proof (lv_fun _ _ _ _ _ _ merged_live (proj1 Hc)) as ->. simpl in Hk.
  destruct (merge_facts R X s h1 h2 c1 c2 H Hl1 Hl2 Hx1 Hx2 Hnext) as (_&_&_&_&_&_&_&_&Hn1&_).
  assert (k <> h1) as Hk1 by congruence.
  destruct (merged_other k e' He' Hk1) as (_ & e & He & _ & -> & _). by apply (HN c2 k e).
Qed.

(** The chunk before the first one is in use. *)
Lemma merged_prev : prev_used R s h1 -> prev_used R s' h1.
Proof.
  intros HP c k e' Hc Hk He'.
  pose proof (lv_fun _ _ _ _ _ _ merged_live (proj1 Hc)) as ->. simpl in Hk.
  destruct (lv_prev R X ∅ s h1 c1 k H Hl1 Hk) as (e0 & He0 & _ & _ & Hk1).
  destruct (merged_other k e' He' Hk1) as (_ & e & He & _ & -> & _). by apply (HP c1 k e).
Qed.
End MergeLinks.

(** ** TryToCoalesce *)

Section Coalesce.
Context {Sub : Type} (R : Z -> Z -> Prop).
Implicit Types s : bfc Sub.

(** The chunk under way is the only one outside the bins. *)
Lemma under_way s h :
  Inv R {[h]} ∅ s -> exists c, live_chunk R s h c /\ in_use c = false /\ bin_num c = None.
Proof.
  intros H. destruct (i_X H h ltac:(set_solver)) as (c & Hl & Hu). exists c. split_and!; [done..|].
  pose proof (i_live H _ _ Hl) as Hb. rewrite Hu, decide_True in Hb by set_solver. done.
Qed.

Lemma free_binned s h k e :
  Inv R {[h]} ∅ s -> live_chunk R s k e -> k <> h -> in_use e = false ->
  bin_num e = Some (BinNumForSize (size e)).
Proof.
  intros H Hl Hk Hu. pose proof (i_live H _ _ Hl) as Hb. rewrite Hu, decide_False in Hb; [done|].
  clear -Hk. set_solver.
Qed.

(** Taking the neighbour [k] out of its bin and merging [h1] with [h2], one of
    which is [k] and the other the chunk under way. *)
Lemma remove_merge_wp d s h k h1 h2 c1 c2 e Q :
  Inv R {[h]} ∅ s -> live_chunk R s k e -> k <> h -> in_use e = false ->
  live_chunk R s h1 c1 -> live_chunk R s h2 c2 -> next c1 = Some h2 ->
  (h1 = h /\ h2 = k) \/ (h1 = k /\ h2 = h) ->
  (forall s', Inv R {[h1]} ∅ s' -> internal R s s' ->
     (exists c', live_chunk R s' h1 c') ->
     (quiet R s -> quiet R s') ->
     (NoAdj R {[h]} s -> NoAdj R {[h1]} s') ->
     (next_used R s h2 -> next_used R s' h1) ->
     (prev_used R s h1 -> prev_used R s' h1) -> Q () s') ->
  wp d (_ ← RemoveFreeChunkFromBin k; Merge h1 h2) s Q.
Proof.
  intros H Hlk Hne Hu Hl1 Hl2 Hnext Hor HQ. pose proof (free_binned s h k e H Hlk Hne Hu) as Hb.
  apply wp_bind, (RemoveFreeChunkFromBin_wp R {[h]} ∅ _ _ k e (BinNumForSize (size e)));
    [done|apply Hlk|done|].
  intros bins' s1 HI _. specialize (HI Hlk).
  pose proof (internal_update R s k e (set_bin_num None e) bins' (proj1 Hlk) Hu Hu eq_refl) as Hint.
  pose proof (rebin_links R s k e None bins' (proj1 Hlk)) as Hlinks. fold s1 in Hint, Hlinks.
  assert (forall j c, live_chunk R s j c -> exists c', live_chunk R s1 j c' /\ next c' = next c) as Hlive.
  { intros j c Hl. destruct (decide (j = k)) as [->|Hjk].
    - exists (set_bin_num None e). split; [apply (lv_update R _ _ k e); [apply Hlk|done|by left]|].
      by pose proof (lv_fun _ _ _ _ _ _ Hl (proj1 Hlk)) as ->.
    - exists c. split; [|done]. apply (lv_update R _ _ k e); [apply Hlk|done|by right]. }
  destruct (Hlive h1 c1 Hl1) as (d1 & Hd1 & En1), (Hlive h2 c2 Hl2) as (d2 & Hd2 & _).
  rewrite Hnext in En1.
  assert (h1 ∈ ({[k]} ∪ {[h]} : gset nat) /\ h2 ∈ ({[k]} ∪ {[h]} : gset nat)) as [Hx1 Hx2]
    by (clear -Hor; set_solver).
  assert (({[k]} ∪ {[h]}) ∖ {[h2]} = ({[h1]} : gset nat)) as HX
    by (clear -Hor Hne; destruct Hor as [[-> ->]|[-> ->]]; set_solver).
  apply (Merge_wp d R ({[k]} ∪ {[h]}) s1 h1 h2 d1 d2); [done..|].
  intros s' HI' Hint' Hlv. rewrite HX in HI'. apply HQ; [done|by etrans|..].
  - exists (merged_chunk d1 d2). by apply (merged_live R ({[k]} ∪ {[h]}) s1 s' h1 h2).
  - intros Hq. apply (merged_quiet R ({[k]} ∪ {[h]}) s1 s' h1 h2 d1 d2); try done.
    + by rewrite (in_rest _ _ _ Hint').
    + by apply (same_links_quiet R s).
  - intros HN. apply (merged_NoAdj R ({[k]} ∪ {[h]}) s1 s' h1 h2 d1 d2); try done.
    apply (NoAdj_mono R {[h]}); [clear -Hor; set_solver|]. by apply (same_links_NoAdj R s).
  - intros HN. apply (merged_next R ({[k]} ∪ {[h]}) s1 s' h1 h2 d1 d2); try done.
    by apply (same_links_next R s).
  - intros HN. apply (merged_prev R ({[k]} ∪ {[h]}) s1 s' h1 h2 d1 d2); try done.
    by apply (same_links_prev R s).
Qed.

Lemma CoalesceNext_wp d s h ign Q :
  Inv R {[h]} ∅ s ->
  (forall s', Inv R {[h]} ∅ s' -> internal R s s' ->
     (quiet R s -> quiet R s') ->
     (NoAdj R {[h]} s -> NoAdj R {[h]} s') ->
     (quiet R s -> NoAdj R {[h]} s -> next_used R s' h) -> Q () s') ->
  wp d (CoalesceNext h ign) s Q.
Proof.
  intros H HQ. destruct (under_way s h H) as (c & Hl & Hu & Hb). unfold CoalesceNext.
  apply wp_bind, (wp_chunk _ _ c); [apply Hl|]. destruct (next c) as [hn|] eqn:Ehn.
  2: { apply wp_ret, HQ; try done. intros _ _ c' k e Hc' Hk.
       pose proof (lv_fun _ _ _ _ _ _ Hl (proj1 Hc')) as ->. congruence. }
  destruct (lv_next R _ _ s h c hn H Hl Ehn) as (n & Hn & _ & Hpv & Hne).
  apply wp_bind, (wp_chunk _ _ n); [apply Hn|].
  destruct (negb (in_use n) && ((freed_at_count n =? 0) || ign)) eqn:Ec.
  - apply andb_true_iff in Ec as [Hun%negb_true_iff _].
    apply (remove_merge_wp d s h hn h hn c n n); try done; [by left|].
    intros s' HI Hint _ Hq HA Hnx _. apply HQ; try done.
    intros Hqs HN. apply Hnx. intros n' k e Hn' Hk He.
    pose proof (lv_fun _ _ _ _ _ _ Hn (proj1 Hn')) as ->. destruct (in_use e) eqn:Eue; [done|].
    destruct (HN hn n k e Hn Hk He Hun Eue) as [Hx|Hx]; apply elem_of_singleton in Hx; [done|].
    subst k. destruct (lv_next R _ _ s hn n h H Hn Hk) as (c' & Hc' & Hp' & _).
    pose proof (lv_fun _ _ _ _ _ _ Hl (proj1 Hc')) as ->.
    destruct (lv_next R _ _ s h c hn H Hl Ehn) as (n' & Hn'' & Hp'' & _).
    pose proof (lv_fun _ _ _ _ _ _ Hn (proj1 Hn'')) as ->.
    pose proof (lv_bounds R _ _ s h c H Hl). pose proof (lv_bounds R _ _ s hn n H Hn). lia.
  - apply wp_ret, HQ; try done. intros [_ Hq] HN c' k e Hc' Hk He.
    pose proof (lv_fun _ _ _ _ _ _ Hl (proj1 Hc')) as ->. assert (k = hn) as -> by congruence.
    pose proof (lv_fun _ _ _ _ _ _ Hn (proj1 He)) as ->. rewrite (Hq hn n Hn) in Ec.
    by destruct (in_use n).
Qed.

Lemma CoalescePrev_wp d s h ign Q :
  Inv R {[h]} ∅ s ->
  (forall h' s', Inv R {[h']} ∅ s' -> internal R s s' ->
     (quiet R s -> quiet R s') ->
     (quiet R s -> NoAdj R {[h]} s -> next_used R s h -> NoAdj R ∅ s') -> Q h' s') ->
  wp d (CoalescePrev h ign) s Q.
Proof.
  intros H HQ. destruct (under_way s h H) as (c & Hl & Hu & Hb). unfold CoalescePrev.
  apply wp_bind, (wp_chunk _ _ c); [apply Hl|]. destruct (prev c) as [hp|] eqn:Ehp.
  2: { apply wp_ret, HQ; try done. intros _ HN Hnx. apply (NoAdj_close R {[h]} ∅ s h c); try done.
       intros c' k e Hc' Hk. pose proof (lv_fun _ _ _ _ _ _ Hl (proj1 Hc')) as ->. congruence. }
  destruct (lv_prev R _ _ s h c hp H Hl Ehp) as (n & Hn & _ & Hnx & Hne).
  apply wp_bind, (wp_chunk _ _ n); [apply Hn|].
  destruct (negb (in_use n) && ((freed_at_count n =? 0) || ign)) eqn:Ec.
  - apply andb_true_iff in Ec as [Hun%negb_true_iff _].
    apply wp_assoc, (remove_merge_wp d s h hp hp h n c n); try done; [by right|].
    intros s' HI Hint [c' Hc'] Hq HA Hnxu Hpvu. apply wp_ret, HQ; [done..|].
    intros Hqs HN Hnu. apply (NoAdj_close R {[hp]} ∅ s' hp c'); [done|done|by apply HA|by apply Hnxu|].
    apply Hpvu. intros n' k e Hn' Hk He. pose proof (lv_fun _ _ _ _ _ _ Hn (proj1 Hn')) as ->.
    destruct (lv_prev R _ _ s hp n k H Hn Hk) as (e' & He' & Hpe & Hne' & _).
    pose proof (lv_fun _ _ _ _ _ _ He' (proj1 He)) as ->. destruct (in_use e') eqn:Eue; [done|].
    destruct (HN k e' hp n He' Hne' Hn Eue Hun) as [Hx|Hx]; apply elem_of_singleton in Hx; [|done].
    subst k. pose proof (lv_fun _ _ _ _ _ _ Hl (proj1 He')) as ->.
    destruct (lv_prev R _ _ s h c hp H Hl Ehp) as (n' & Hn'' & Hp'' & _).
    pose proof (lv_fun _ _ _ _ _ _ Hn (proj1 Hn'')) as ->.
    pose proof (lv_bounds R _ _ s h c H Hl). pose proof (lv_bounds R _ _ s hp n H Hn). lia.
  - apply wp_ret, HQ; try done. intros [_ Hq] HN Hnu. apply (NoAdj_close R {[h]} ∅ s h c); try done.
    intros c' k e Hc' Hk He.
    pose proof (lv_fun _ _ _ _ _ _ Hl (proj1 Hc')) as ->. assert (k = hp) as -> by congruence.
    pose proof (lv_fun _ _ _ _ _ _ Hn (proj1 He)) as ->. rewrite (Hq hp n Hn) in Ec.
    by destruct (in_use n).
Qed.

Lemma TryToCoalesce_wp d s h ign Q :
  Inv R {[h]} ∅ s ->
  (forall h' s', Inv R {[h']} ∅ s' -> internal R s s' ->
     (quiet R s -> quiet R s') ->
     (quiet R s -> NoAdj R {[h]} s -> NoAdj R ∅ s') -> Q h' s') ->
  wp d (TryToCoalesce h ign) s Q.
Proof.
  intros H HQ. destruct (under_way s h H) as (c & Hl & _ & _). unfold TryToCoalesce.
  apply wp_bind, (wp_chunk _ _ c); [apply Hl|].
  destruct (negb ign && (0 <? freed_at_count c)) eqn:E.
  - apply andb_true_iff in E as [_ Hf%Z.ltb_lt]. apply wp_ret, HQ; try done.
    intros [_ Hq]. rewrite (Hq h c Hl) in Hf. lia.
  - apply wp_bind, CoalesceNext_wp; [done|]. intros s1 H1 Hint1 Hq1 HA1 Hn1.
    apply CoalescePrev_wp; [done|]. intros h' s' H2 Hint2 Hq2 HA2.
    apply HQ; [done|by etrans|auto|auto].
Qed.

(** A chunk under way goes back into its bin. *)
Lemma Insert_last_wp d s h Q :
  Inv R {[h]} ∅ s ->
  (forall s', Inv R ∅ ∅ s' -> internal R s s' -> (quiet R s -> quiet R s') ->
     (NoAdj R ∅ s -> NoAdj R ∅ s') ->
     (forall k c, live_chunk R s k c -> exists b, live_chunk R s' k (set_bin_num b c)) -> Q () s') ->
  wp d (InsertFreeChunkIntoBin h) s Q.
Proof.
  intros H HQ. destruct (under_way s h H) as (c & Hl & Hu & _).
  apply (InsertFreeChunkIntoBin_wp R {[h]} ∅ d s h c); [done|done|set_solver|done|].
  intros bins' s' HI. pose proof (rebin_links R s h c (Some (BinNumForSize (size c))) bins' (proj1 Hl)) as Hln.
  apply HQ.
  - by rewrite difference_diag_L in HI.
  - by apply (internal_update R s h c); [apply Hl|..].
  - by apply (same_links_quiet R s).
  - by apply (same_links_NoAdj R s).
  - intros k e Hk. destruct (decide (k = h)) as [->|Hkh].
    + pose proof (lv_fun _ _ _ _ _ _ Hl (proj1 Hk)) as ->. eexists.
      apply (lv_update R _ _ h c); [apply Hl|done|by left].
    + exists (bin_num e). apply (lv_update R _ _ h c); [apply Hl|done|]. right. by destruct e.
Qed.
End Coalesce.

(** ** MarkFree *)

Section MarkFree.
Context {Sub : Type} (R : Z -> Z -> Prop).
Implicit Types s : bfc Sub.

(** The state after a chunk in use has become a free one under way. *)
Record freed s (h : nat) (c : Chunk) s' : Prop := {
  fr_inv : Inv R {[h]} ∅ s';
  fr_chunk : exists c', chunks_ s' = <[h := c']> (chunks_ s) /\ ptr c' = ptr c /\ in_use c' = false;
  fr_regions : regions_ s' = regions_ s;
  fr_rest : timestamped_chunks_ s' = timestamped_chunks_ s /\ sub_allocator_ s' = sub_allocator_ s /\
    curr_region_allocation_bytes_ s' = curr_region_allocation_bytes_ s /\
    (timing_counter_ s = None <-> timing_counter_ s' = None);
  fr_quiet : quiet R s -> quiet R s';
  fr_NoAdj : NoAdj R ∅ s -> NoAdj R {[h]} s';
}.

Lemma MarkFree_state s h c c' t st :
  Inv R ∅ ∅ s -> live_chunk R s h c -> in_use c = true ->
  node_of c' = node_of c -> allocation_id c' = -1 -> bin_num c' = bin_num c ->
  (t = None <-> timing_counter_ s = None) -> (t = None -> freed_at_count c' = freed_at_count c) ->
  bytes_in_use st = sub64 (bytes_in_use (stats_ s)) (size c) ->
  pool_bytes st = pool_bytes (stats_ s) ->
  freed s h c (with_stats st (with_timing t (with_chunks (<[h := c']> (chunks_ s)) s))).
Proof.
  intros H Hl Hu Hnode Ha Hb Ht Hf Hst Hpool. pose proof (i_live H _ _ Hl) as Hi. rewrite Hu in Hi.
  destruct Hi as [Hbn _]. rewrite Hbn in Hb.
  assert (in_use c' = false) as Hu' by (unfold in_use; by rewrite Ha).
  assert (ptr c' = ptr c) as Hp by (change (n_ptr (node_of c') = n_ptr (node_of c)); by rewrite Hnode).
  assert (next c' = next c) as Hn by (change (n_next (node_of c') = n_next (node_of c)); by rewrite Hnode).
  set (s' := with_stats st _).
  assert (forall k e, live_chunk R s' k e -> (k = h /\ e = c') \/ (k <> h /\ live_chunk R s k e)) as Hlv.
  { intros k e He. unfold live_chunk, s' in He. simpl in He.
    apply (lv_update R _ _ h c) in He as [(-> & -> & _)|[? ?]]; [by left|by right|apply Hl|done]. }
  split.
  - apply (Inv_retag R ∅ {[h]} ∅ s s' h c c' H (proj1 Hl)); try done;
      unfold s'; cbn [chunks_ bins_ stats_ next_allocation_id_ with_stats with_timing with_chunks]; rewrite ?Hu'.
    + clear. set_solver.
    + intros _. rewrite decide_True by set_solver. done.
    + apply (bins_ok_same _ _ h c); [apply H|apply Hl|congruence|congruence].
    + rewrite Hst, (i_used H), sub64_i64. f_equal. unfold used_bytes. rewrite Hu, Hu'. lia.
    + done.
  - exists c'. done.
  - done.
  - done.
  - intros [Hq Hf']. split; [unfold s'; simpl; by apply Ht|].
    intros k e [[-> ->]|[_ He]]%Hlv; [rewrite Hf by (by apply Ht); by apply (Hf' h)|by apply (Hf' k)].
  - intros HN k e k' e' [[-> ->]|[Hk He]]%Hlv Hk' [[-> ->]|[Hk2 He']]%Hlv Hue Hue';
      [left; set_solver|left; set_solver|right; set_solver|].
    left. destruct (HN k e k' e') as [Hx|Hx]; [done..| |]; clear -Hx; set_solver.
Qed.

Lemma MarkFree_wp d s h c Q :
  Inv R ∅ ∅ s -> live_chunk R s h c -> in_use c = true ->
  (forall s', freed s h c s' -> Q () s') -> wp d (MarkFree h) s Q.
Proof.
  intros H Hl Hu HQ. pose proof (i_live H _ _ Hl) as Hi. rewrite Hu in Hi. destruct Hi as [Hbn _].
  unfold MarkFree. apply wp_bind, (wp_chunk _ _ c); [apply Hl|].
  apply wp_bind, wp_mcheck; [by rewrite Hu, Hbn|].
  apply wp_bind, (wp_upd _ _ _ c); [apply Hl|]. apply wp_bind, wp_gets.
  destruct (timing_counter_ s) as [v|] eqn:Et; simpl; rewrite ?Et.
  - apply wp_bind, wp_bind, wp_modify. eapply wp_upd.
    { simpl. apply list_lookup_insert_eq. by apply (lv_valid _ _ _ _ _ Hl). }
    apply wp_modify, HQ. simpl. rewrite list_insert_insert_eq.
    apply (MarkFree_state s h c (set_freed_at_count (v + 1) (set_allocation_id (-1) c)) (Some (v + 1))); try done.
    by rewrite Et.
  - apply wp_bind, wp_ret, wp_modify, HQ.
    by apply (MarkFree_state s h c (set_allocation_id (-1) c) (timing_counter_ s)).
Qed.
End MarkFree.

(** ** DeallocateRawInternal *)

(** The chunks in the queue of timestamped chunks exist, and their addresses
    belong to regions. *)
Definition ts_ok {Sub} (R : Z -> Z -> Prop) (s : bfc Sub) : Prop :=
  forall h, h ∈ timestamped_chunks_ s -> exists c, chunks_ s !! h = Some c /\ grid R (ptr c).

(** The state of the allocator between two calls. *)
Record Good {Sub} (R : Z -> Z -> Prop) (s : bfc Sub) : Prop := {
  g_inv : Inv R ∅ ∅ s;
  g_ts : ts_ok R s;
  g_curr : (256 | curr_region_allocation_bytes_ s);
  g_timing : timing_counter_ s = None ->
    quiet R s /\ NoAdj R ∅ s /\ timestamped_chunks_ s = [];
}.
#[global] Arguments g_inv {Sub R s}.
#[global] Arguments g_ts {Sub R s}.
#[global] Arguments g_curr {Sub R s}.
#[global] Arguments g_timing {Sub R s}.

Section Deallocate.
Context {Sub : Type} (R : Z -> Z -> Prop).
Implicit Types s : bfc Sub.

Lemma internal_ts s s' : internal R s s' -> ts_ok R s -> ts_ok R s'.
Proof.
  intros Hi Ht h Hh. rewrite (in_rest _ _ _ Hi) in Hh. destruct (Ht h Hh) as (c & Hc & Hg).
  by apply (in_grid _ _ _ Hi h c).
Qed.

Lemma internal_timestamped s s' :
  internal R s s' -> timestamped_chunks_ s' = timestamped_chunks_ s /\
  timing_counter_ s' = timing_counter_ s /\ sub_allocator_ s' = sub_allocator_ s /\
  curr_region_allocation_bytes_ s' = curr_region_allocation_bytes_ s /\ stats_ s' = stats_ s /\
  next_allocation_id_ s' = next_allocation_id_ s /\ safe_frontier_ s' = safe_frontier_ s.
Proof. intros Hi. by rewrite (in_rest _ _ _ Hi). Qed.

Lemma get_handle_wp d X D s p Q :
  Inv R X D s -> grid R p -> Q (sl_of (regions_ s) p) s -> wp d (get_handle p) s Q.
Proof.
  intros H Hg HQ. unfold get_handle. apply wp_bind, wp_gets.
  apply (wp_lift _ _ (sl_of (regions_ s) p)); [|done]. apply grid_get; [exact (i_regs H)|].
  destruct Hg as (lo & hi & Hr & ?). exists lo, hi. split; [by apply (i_sub H)|done].
Qed.

Lemma freed_used s h c s' :
  live_chunk R s h c -> freed R s h c s' ->
  forall k a, used R s' k a <-> k <> h /\ used R s k a.
Proof.
  intros Hl Hf k a. destruct (fr_chunk _ _ _ _ _ Hf) as (c' & Ech & Hp & Hu').
  unfold used. rewrite Ech, (fr_regions _ _ _ _ _ Hf).
  assert (forall e, lv R (<[h:=c']> (chunks_ s)) (regions_ s) k e <->
    (k = h /\ e = c' /\ lv R (chunks_ s) (regions_ s) h c) \/ (k <> h /\ lv R (chunks_ s) (regions_ s) k e))
    as Hlv by (intros e; apply lv_update; [apply Hl|done]). split.
  - intros (e & [(-> & -> & _)|[Hk He]]%Hlv & Hu & Ha); [congruence|]. split; [done|by exists e].
  - intros [Hk (e & He & Hu & Ha)]. exists e. split; [|done]. apply Hlv. by right.
Qed.

Lemma DeallocateRawInternal_wp d s h c Q :
  Good R s -> live_chunk R s h c -> in_use c = true ->
  (forall s', Good R s' -> extent <$> regions_ s' = extent <$> regions_ s ->
     (forall k a, used R s' k a <-> k <> h /\ used R s k a) ->
     sub_allocator_ s' = sub_allocator_ s ->
     (timing_counter_ s = None <-> timing_counter_ s' = None) -> Q () s') ->
  wp d (DeallocateRawInternal (ptr c)) s Q.
Proof.
  intros HG Hl Hu HQ. pose proof (g_inv HG) as H. pose proof (lv_bounds R _ _ s h c H Hl) as Hb.
  unfold DeallocateRawInternal. rewrite (proj2 (Z.eqb_neq _ _)) by lia.
  apply wp_bind, (get_handle_wp _ ∅ ∅); [done|apply Hl|]. rewrite (proj2 (proj2 Hl)).
  apply wp_bind, (wp_lift _ _ h); [done|]. apply wp_bind, (wp_chunk _ _ c); [apply Hl|].
  apply wp_bind, (MarkFree_wp R _ s h c); [done..|]. intros s1 Hf.
  pose proof (freed_used s h c s1 Hl Hf) as Hus. destruct Hf as [HI (c' & Ech & Hp & Hu') Hrs Hrest Hq HA].
  destruct Hrest as (Ets & Esub & Ecurr & Etim).
  assert (ts_ok R s1) as Hts.
  { intros k Hk. rewrite Ets in Hk. destruct (g_ts HG k Hk) as (e & He & Hg). rewrite Ech.
    rewrite lookup_insert_decide by (by apply (lv_valid _ _ _ _ _ Hl)).
    case_decide as E; [|by exists e]. exists c'. rewrite Hp. split; [done|]. apply Hl. }
  apply wp_bind, wp_gets. destruct (timing_counter_ s1) as [v|] eqn:Et.
  - apply wp_bind, (Insert_last_wp R _ s1 h); [done|]. intros s2 H2 Hint _ _ Hlive.
    destruct (internal_timestamped _ _ Hint) as (E1 & E2 & E3 & E4 & _).
    apply wp_modify, HQ; cbn [regions_ sub_allocator_ timing_counter_ with_timestamped].
    + split; cbn [curr_region_allocation_bytes_ timing_counter_ with_timestamped].
      * by destruct H2.
      * intros k [Hk|Hk%list_elem_of_singleton]%elem_of_app.
        -- by apply (internal_ts _ _ Hint Hts).
        -- subst k. destruct (Hlive h c') as [b Hlb].
           { split; [by rewrite Ech, list_lookup_insert_eq by (by apply (lv_valid _ _ _ _ _ Hl))|].
             rewrite Hp, Hrs. apply Hl. }
           eexists. split; [apply Hlb|]. apply Hlb.
      * rewrite E4, Ecurr. apply HG.
      * rewrite E2, Et. done.
    + by rewrite (in_extent _ _ _ Hint), Hrs.
    + intros k a. rewrite <- Hus. by rewrite <- (in_used _ _ _ Hint).
    + by rewrite E3, Esub.
    + by rewrite E2, Et, Etim.
  - apply wp_bind, (TryToCoalesce_wp R _ s1 h); [done|]. intros h' s2 H2 Hint Hq2 HA2.
    apply (Insert_last_wp R _ s2 h'); [done|]. intros s3 H3 Hint3 Hq3 HA3 _.
    pose proof (transitivity Hint Hint3) as Hint'. 
    destruct (internal_timestamped _ _ Hint') as (E1 & E2 & E3 & E4 & _).
    destruct (g_timing HG) as (Hqs & HAs & Etq); [by apply Etim|].
    apply HQ.
    + split; [done|by apply (internal_ts _ _ Hint')|rewrite E4, Ecurr; apply HG|].
      intros _. split_and!; [auto|auto|by rewrite E1, Ets].
    + by rewrite (in_extent _ _ _ Hint'), Hrs.
    + intros k a. rewrite <- Hus. by rewrite <- (in_used _ _ _ Hint').
    + by rewrite E3, Esub.
    + rewrite E2, Et. done.
Qed.
End Deallocate.
