(* ===== verification/BfcAlloc.v ===== *)
(** * Finding and taking a chunk

    FindChunkPtr of xla/tsl/framework/bfc_allocator.cc: the search visits the free
    chunks in the order of their sizes, and the chunk it stops at is split when
    too much of it would be wasted. *)

From Stdlib Require Import ZArith Lia.
From stdpp Require Import sorting.
From S2P Require Import Prelude MachineInt BfcAllocator BfcHeap BfcRegions BfcInv BfcOps BfcCoalesce BfcFree.

(** ** The neighbours after a split *)

Section SplitLinks.
Context {Sub : Type} (R : Z -> Z -> Prop) (X : gset nat) (s s' : bfc Sub).
Context (h hn : nat) (c cn : Chunk) (k : Z) (b : option nat).
Hypothesis H : Inv R X ∅ s.
Hypothesis Hl : live_chunk R s h c.
Hypothesis Hu : in_use c = false.
Hypothesis Hdead : forall e, ~ lv R (chunks_ s) (regions_ s) hn e.
Hypothesis Hlv : forall j e', live_chunk R s' j e' <->
  (j = hn /\ e' = set_bin_num b (split_chunk_new h c cn k)) \/
  (j = h /\ e' = split_chunk_old hn c k) \/
  (j <> h /\ j <> hn /\ exists e, lv R (chunks_ s) (regions_ s) j e /\
     e' = if decide (next c = Some j) then set_prev (Some hn) e else e).

Lemma split_NoAdj : NoAdj R ∅ s -> NoAdj R {[h]} s'.
Proof.
  intros HN k1 e1 k2 e2 H1 Hk H2 Hu1 Hu2.
  destruct (decide (k1 = h)) as [->|Hk1]; [left; set_solver|].
  destruct (decide (k2 = h)) as [->|Hk2]; [right; set_solver|]. exfalso.
  assert (forall j e', live_chunk R s' j e' -> j <> h -> j <> hn ->
    exists e, live_chunk R s j e /\ next e' = next e /\ in_use e' = in_use e) as Hoth.
  { intros j e' [[? _]|[[? _]|(_ & _ & e & He & ->)]]%Hlv ? ?; [done|done|].
    exists e. by case_decide. }
  apply Hlv in H1 as Hc1. destruct Hc1 as [[-> ->]|[[-> _]|(_ & Hj1 & _)]]; [|done|].
  - simpl in Hk. destruct (decide (k2 = hn)) as [->|Hk2n].
    { destruct (lv_next R X ∅ s h c hn H Hl Hk) as (e & He & _). by apply (Hdead e). }
    destruct (Hoth k2 e2 H2 Hk2 Hk2n) as (e & He & _ & Eu).
    destruct (HN h c k2 e Hl Hk He Hu); [congruence|set_solver..].
  - destruct (Hoth k1 e1 H1 Hk1 Hj1) as (e & He & En & Eu). rewrite En in Hk.
    destruct (decide (k2 = hn)) as [->|Hk2n].
    { destruct (lv_next R X ∅ s k1 e hn H He Hk) as (e' & He' & _). by apply (Hdead e'). }
    destruct (Hoth k2 e2 H2 Hk2 Hk2n) as (e' & He' & _ & Eu').
    destruct (HN k1 e k2 e' He Hk He'); [congruence|congruence|set_solver..].
Qed.

Lemma split_quiet : timing_counter_ s' = timing_counter_ s -> quiet R s -> quiet R s'.
Proof.
  intros Ht [Hq Hf]. split; [congruence|].
  intros j e' [[-> ->]|[[-> ->]|(_ & _ & e & He & ->)]]%Hlv; simpl; [exact (Hf h c Hl)..|].
  case_decide; exact (Hf j e He).
Qed.
End SplitLinks.

(** ** Whether to split *)

Record cfg_ok (cfg : Config) : Prop := {
  cfg_frag : 0 < max_internal_fragmentation_bytes cfg < two63;
  cfg_limit : 0 <= memory_limit_ cfg < two63;
}.

Lemma should_split_spec cfg sz r :
  cfg_ok cfg -> 0 < r <= sz -> 2 * r < two64 -> sz < two64 ->
  should_split cfg sz r = true <-> 2 * r <= sz \/ max_internal_fragmentation_bytes cfg <= sz - r.
Proof.
  intros [[Hf1 Hf2] _] Hr H2 Hs. unfold should_split. rewrite orb_true_iff, !Z.leb_le.
  unfold u64. rewrite (Z.mod_small (r * 2)) by lia.
  rewrite (Z.mod_small (max_internal_fragmentation_bytes cfg)) by (z64; lia).
  destruct (i64_cong sz) as [k ->].
  replace (sz + k * two64 - r) with ((sz - r) + k * two64) by lia.
  rewrite Z_mod_plus_full, Z.mod_small by lia. lia.
Qed.

(** ** Taking a chunk *)

Section Take.
Context {Sub : Type} (cfg : Config) (R : Z -> Z -> Prop).
Implicit Types s : bfc Sub.

(** The chunk under way becomes an allocation of [num_bytes]. *)
Definition taken s (h : nat) (c : Chunk) (num_bytes : Z) : bfc Sub :=
  let st := stats_ s in
  let u := add64 (bytes_in_use st) (size c) in
  let c' := set_allocation_id (next_allocation_id_ s) (set_requested_size num_bytes c) in
  with_stats (mkStats (num_allocs st + 1) u (Z.max (peak_bytes_in_use st) u)
    (Z.max (largest_alloc_size st) (size c)) (pool_bytes st) (peak_pool_bytes st))
    (with_chunks (<[h := c']> (chunks_ s)) (with_next_id (next_allocation_id_ s + 1) s)).

Definition taken_core s (c : Chunk) (num_bytes : Z) : Z * Z * Z * Z :=
  (ptr c, size c, num_bytes, next_allocation_id_ s).

Lemma taken_Inv s h c n :
  Inv R {[h]} ∅ s -> live_chunk R s h c -> in_use c = false -> bin_num c = None ->
  Inv R ∅ ∅ (taken s h c n).
Proof.
  intros H Hl Hu Hb. pose proof (i_next H) as Hn.
  set (c' := set_allocation_id (next_allocation_id_ s) (set_requested_size n c)).
  assert (in_use c' = true) as Hu' by (unfold in_use; simpl; lia).
  apply (Inv_retag R {[h]} ∅ ∅ s _ h c c' H (proj1 Hl)); try done;
    unfold taken; cbn [chunks_ bins_ stats_ next_allocation_id_ bytes_in_use with_stats with_next_id with_chunks];
    fold c'; rewrite ?Hu'.
  - set_solver.
  - intros _. split; [done|set_solver].
  - apply (bins_ok_same _ _ h c); [apply H|apply Hl|done|done].
  - rewrite (i_used H), add64_i64. f_equal. unfold used_bytes. rewrite Hu, Hu'. simpl. lia.
  - lia.
  - intros _. simpl. split; [lia|]. intros j e Hj He Ha.
    destruct (in_use e) eqn:Eu; [pose proof (i_ids H j e He Eu); lia|]. unfold in_use in Eu. lia.
Qed.

Lemma taken_lv s h c n j e' :
  live_chunk R s h c ->
  live_chunk R (taken s h c n) j e' <->
  (j = h /\ e' = set_allocation_id (next_allocation_id_ s) (set_requested_size n c)) \/
  (j <> h /\ live_chunk R s j e').
Proof.
  intros Hl. unfold live_chunk, taken. cbn [chunks_ regions_ with_stats with_next_id with_chunks].
  rewrite (lv_update R _ _ h c) by (done || apply Hl). split.
  - intros [(-> & -> & _)|?]; auto.
  - intros [[-> ->]|?]; auto.
Qed.

Lemma taken_used s h c n :
  Inv R {[h]} ∅ s -> live_chunk R s h c -> in_use c = false -> forall k a,
  used R (taken s h c n) k a <-> (k = h /\ a = taken_core s c n) \/ used R s k a.
Proof.
  intros H Hl Hu k a. pose proof (i_next H) as Hn. unfold used.
  pose proof (fun j e' => taken_lv s h c n j e' Hl) as Ht. unfold live_chunk in Ht. split.
  - intros (e & [[-> ->]|[_ He]]%Ht & Hue & <-); [by left|right; by exists e].
  - intros [[-> ->]|(e & He & Hue & <-)].
    + eexists. split; [apply Ht; by left|]. split; [|done]. unfold in_use. simpl. lia.
    + exists e. split; [|done]. apply Ht. right. split; [|done].
      intros ->. pose proof (lv_fun _ _ _ _ _ _ Hl (proj1 He)) as ->. congruence.
Qed.

Lemma taken_quiet s h c n : live_chunk R s h c -> quiet R s -> quiet R (taken s h c n).
Proof.
  intros Hl [Hq Hf]. split; [done|]. intros j e' [[-> ->]|[_ He]]%taken_lv; [exact (Hf h c Hl)|exact (Hf j e' He)|done].
Qed.

Lemma taken_NoAdj s h c n :
  Inv R {[h]} ∅ s -> live_chunk R s h c -> NoAdj R {[h]} s -> NoAdj R ∅ (taken s h c n).
Proof.
  intros H Hl HN k1 e1 k2 e2 H1 Hk H2 Hu1 Hu2. pose proof (i_next H) as Hn. exfalso.
  apply taken_lv in H1 as [[-> ->]|[Hk1 H1]]; [unfold in_use in Hu1; simpl in Hu1; lia| |done].
  apply taken_lv in H2 as [[-> ->]|[Hk2 H2]]; [unfold in_use in Hu2; simpl in Hu2; lia| |done].
  destruct (HN k1 e1 k2 e2 H1 Hk H2 Hu1 Hu2); set_solver.
Qed.
End Take.

(** ** take_chunk *)

(** What a successful search does to the state: one more allocation. *)
Record allocated {Sub} (cfg : Config) (R : Z -> Z -> Prop) (s : bfc Sub) (p r n : Z) (s' : bfc Sub) :
    Prop := {
  al_inv : Inv R ∅ ∅ s';
  al_ts : ts_ok R s -> ts_ok R s';
  al_extent : extent <$> regions_ s' = extent <$> regions_ s;
  al_rest : timestamped_chunks_ s' = timestamped_chunks_ s /\
    timing_counter_ s' = timing_counter_ s /\ sub_allocator_ s' = sub_allocator_ s /\
    curr_region_allocation_bytes_ s' = curr_region_allocation_bytes_ s /\
    next_allocation_id_ s' = next_allocation_id_ s + 1;
  al_quiet : quiet R s -> quiet R s';
  al_NoAdj : NoAdj R ∅ s -> NoAdj R ∅ s';
  al_used : exists h sz, (r <= sz < 2 * r /\ sz - r < max_internal_fragmentation_bytes cfg) /\
    0 < p /\ (256 | sz) /\ (forall a, ~ used R s h a) /\
    forall k a, used R s' k a <-> (k = h /\ a = (p, sz, n, next_allocation_id_ s)) \/ used R s k a;
}.

Section TakeWp.
Context {Sub : Type} (cfg : Config) (R : Z -> Z -> Prop).
Implicit Types s : bfc Sub.

(** The end of [take_chunk], from a chunk under way of the right size. *)
Lemma taken_allocated s s2 h c c2 r n :
  internal R s s2 -> Inv R {[h]} ∅ s2 -> live_chunk R s h c -> in_use c = false ->
  live_chunk R s2 h c2 -> in_use c2 = false -> bin_num c2 = None -> ptr c2 = ptr c ->
  r <= size c2 < 2 * r -> size c2 - r < max_internal_fragmentation_bytes cfg ->
  (quiet R s -> quiet R s2) -> (NoAdj R ∅ s -> NoAdj R {[h]} s2) ->
  allocated cfg R s (ptr c) r n (taken s2 h c2 n).
Proof.
  intros Hint H Hl Hu Hl2 Hu2 Hb2 Hp Hsz Hfrag Hq HN.
  destruct (internal_timestamped R _ _ Hint) as (E1 & E2 & E3 & E4 & E5 & E6 & _).
  destruct (lv_bounds R _ _ s2 h c2 H Hl2) as (Hp0 & Hs0 & Hdiv & _).
  split.
  - by apply taken_Inv.
  - intros Hts k Hk. pose proof (internal_ts R _ _ Hint Hts k Hk) as (e & He & Hg).
    unfold taken. cbn [chunks_ with_stats with_next_id with_chunks].
    rewrite lookup_insert_decide by (by apply (lv_valid _ _ _ _ _ Hl2)).
    case_decide as E; [|by exists e]. eexists. split; [done|]. apply Hl2.
  - apply (in_extent _ _ _ Hint).
  - unfold taken. simpl. by rewrite E6.
  - intros Hqs. apply taken_quiet; auto.
  - intros HNs. apply taken_NoAdj; auto.
  - exists h, (size c2). split_and!; [lia..|lia|done| |].
    + intros a (e & He & Hue & _). pose proof (lv_fun _ _ _ _ _ _ Hl (proj1 He)) as ->. congruence.
    + intros k a. rewrite (taken_used R s2 h c2 n H Hl2 Hu2).
      unfold taken_core. rewrite Hp, E6. by rewrite (in_used _ _ _ Hint).
Qed.

Lemma finish_wp d s h c n Q :
  chunks_ s !! h = Some c -> Q (ptr c) (taken s h c n) ->
  wp d (id ← gets next_allocation_id_;
        _ ← modify (with_next_id (id + 1));
        _ ← upd_chunk h (fun c => set_allocation_id id (set_requested_size n c));
        chunk ← ChunkFromHandle h;
        _ ← modify (fun s => let st := stats_ s in
              let used := add64 (bytes_in_use st) (size chunk) in with_stats
              (mkStats (num_allocs st + 1) used (Z.max (peak_bytes_in_use st) used)
                 (Z.max (largest_alloc_size st) (size chunk)) (pool_bytes st) (peak_pool_bytes st)) s);
        mret (ptr chunk)) s Q.
Proof.
  intros Hc HQ. apply wp_bind, wp_gets. apply wp_bind, wp_modify.
  apply wp_bind, (wp_upd _ _ _ c); [done|]. apply wp_bind. eapply wp_chunk.
  { simpl. apply list_lookup_insert_eq. by apply lookup_lt_Some in Hc. }
  apply wp_bind, wp_modify, wp_ret. exact HQ.
Qed.

Lemma take_chunk_wp d s b h c r n Q :
  cfg_ok cfg -> Inv R ∅ ∅ s -> live_chunk R s h c -> bin_num c = Some b -> in_use c = false ->
  0 < r <= size c -> (256 | r) -> 2 * r < two64 ->
  (forall s', allocated cfg R s (ptr c) r n s' -> Q (ptr c) s') ->
  wp d (take_chunk cfg b h r n) s Q.
Proof.
  intros Hcfg H Hl Hb Hu Hr Hdiv H2r HQ.
  destruct (lv_bounds R _ _ s h c H Hl) as (_ & _ & _ & Hmax).
  assert (size c < two64) as Hsz by (destruct (lv_bounds R _ _ s h c H Hl) as (? & _); lia).
  pose proof (should_split_spec cfg (size c) r Hcfg Hr H2r Hsz) as Hsplit.
  unfold take_chunk. apply wp_bind, (RemoveFreeChunkIterFromBin_wp R ∅ ∅ _ s h c b); [done..|].
  intros bins' s1 H1. apply (Inv_eq R ({[h]} ∪ ∅) {[h]} ∅ ∅) in H1; [|clear; set_solver|done].
  pose proof (internal_update R s h c (set_bin_num None c) bins' (proj1 Hl) Hu Hu eq_refl) as Hint.
  pose proof (rebin_links R s h c None bins' (proj1 Hl)) as Hlinks. fold s1 in Hint, Hlinks.
  assert (live_chunk R s1 h (set_bin_num None c)) as Hl1.
  { apply (lv_update R _ _ h c); [apply Hl|done|by left]. }
  apply wp_bind, (wp_chunk _ _ (set_bin_num None c)); [apply Hl1|]. simpl.
  destruct (should_split cfg (size c) r) eqn:Es.
  - assert (0 < r < size c) as Hrs.
    { destruct (proj1 Hsplit eq_refl); [lia|]. destruct (cfg_frag _ Hcfg). lia. }
    apply wp_bind, (SplitChunk_wp d R {[h]} s1 h (set_bin_num None c)); [done|set_solver|done..|].
    intros s2 hn cn H2 Hint2 Hne Hdead new Hlv. apply finish_wp with (split_chunk_old hn (set_bin_num None c) r).
    { apply (Hlv h). right. by left. }
    apply HQ, (taken_allocated s s2 h c _ r n); try done.
    + by etrans.
    + apply (Hlv h). right. by left.
    + simpl. lia.
    + simpl. destruct (cfg_frag _ Hcfg). lia.
    + intros Hq. apply (split_quiet R s1 s2 h hn (set_bin_num None c) cn r _ Hl1 Hlv).
      * by destruct (internal_timestamped R _ _ Hint2) as (_ & -> & _).
      * by apply (same_links_quiet R s).
    + intros HN. apply (split_NoAdj R {[h]} s1 s2 h hn (set_bin_num None c) cn r _ H1 Hl1 Hu Hdead Hlv).
      by apply (same_links_NoAdj R s).
  - apply wp_bind, wp_ret, finish_wp with (set_bin_num None c); [apply Hl1|].
    assert (~ (2 * r <= size c \/ max_internal_fragmentation_bytes cfg <= size c - r)) as Hno
      by (rewrite <- Hsplit; done).
    apply HQ, (taken_allocated s s1 h c (set_bin_num None c) r n); try done; simpl; [lia..| |].
    + by apply (same_links_quiet R s).
    + intros HN. apply (NoAdj_mono R ∅); [set_solver|]. by apply (same_links_NoAdj R s).
Qed.
End TakeWp.

(** ** FindChunkPtr *)

(** The test of the inner loop. *)
Definition fits (r freed_before : Z) (c : Chunk) : bool :=
  negb ((0 <? freed_before) && (freed_before <? freed_at_count c)) && (r <=? size c).

Section Find.
Context {Sub : Type} (cfg : Config) (R : Z -> Z -> Prop) (s : bfc Sub) (r freed_before : Z).
#[local] Abbreviation fits := (fits r freed_before).

Lemma find_in_bin_spec l :
  Forall (fun h => exists c, chunks_ s !! h = Some c) l ->
  exists o, find_in_bin r freed_before l s = OK (o, s) /\
  match o with
  | None => forall h c, h ∈ l -> chunks_ s !! h = Some c -> fits c = false
  | Some h => exists l1 l2 c, l = l1 ++ h :: l2 /\ chunks_ s !! h = Some c /\ fits c = true /\
      forall k e, k ∈ l1 -> chunks_ s !! k = Some e -> fits e = false
  end.
Proof.
  induction 1 as [|h l [c Hc] HF IH].
  - exists None. split; [done|]. intros h c Hh. by apply not_elem_of_nil in Hh.
  - assert (find_in_bin r freed_before (h :: l) s =
      if fits c then OK (Some h, s) else find_in_bin r freed_before l s) as ->.
    { simpl. unfold mbind, M_bind, ChunkFromHandle. rewrite Hc. unfold BfcAlloc.fits.
      destruct (_ && _); simpl; [done|]. by destruct (r <=? size c). }
    destruct (fits c) eqn:Ef.
    + exists (Some h). split; [done|]. exists [], l, c. split_and!; [done..|].
      intros k e Hk. by apply not_elem_of_nil in Hk.
    + destruct IH as (o & E & Ho). exists o. split; [done|]. destruct o as [h'|].
      * destruct Ho as (l1 & l2 & c' & -> & Hc' & Hf & Hl1). exists (h :: l1), l2, c'.
        split_and!; [done..|]. intros k e [->|Hk]%elem_of_cons He; [congruence|by apply (Hl1 k)].
      * intros k e [->|Hk]%elem_of_cons He; [congruence|by apply (Ho k)].
Qed.

(** The chunk [c] at [h] is the smallest free chunk that fits, the first of
    several by address. *)
Definition best (h : nat) (c : Chunk) : Prop :=
  live_chunk R s h c /\ in_use c = false /\ fits c = true /\
  forall k e, live_chunk R s k e -> in_use e = false -> fits e = true ->
    k = h \/ chunk_less c e = true.

Hypothesis H : Inv R ∅ ∅ s.
Hypothesis Hdec : forall p, {grid R p} + {~ grid R p}.

(** The bins hold the free chunks. *)
Lemma bin_members b l h :
  bins_ s !! b = Some l ->
  h ∈ l <-> exists c, live_chunk R s h c /\ in_use c = false /\ BinNumForSize (size c) = b.
Proof.
  intros Hl. destruct (i_bins H) as (_ & _ & Hb). destruct (Hb b l Hl) as [_ Hin]. rewrite Hin. split.
  - intros (c & Hc & Eb).
    destruct (binned R ∅ ∅ s h c b H Hc Eb) as (Hu & _ & _).
    assert (live_chunk R s h c) as Hlc.
    { assert (~ ~ live_chunk R s h c) as Hnn.
      { intros Hn. destruct (i_dead H h c Hc Hn) as [_ Hx]. rewrite Hx in Eb by set_solver. done. }
      destruct (Hdec (ptr c)) as [Hg|Hg]; [|exfalso; apply Hnn; by intros (_ & ? & _)].
      destruct (decide (sl_of (regions_ s) (ptr c) = Some h)) as [E|E];
        [done|exfalso; apply Hnn; by intros (_ & _ & ?)]. }
    exists c. split_and!; [done..|]. pose proof (i_live H _ _ Hlc) as Hi.
    rewrite Hu, decide_False in Hi by set_solver. congruence.
  - intros (c & Hlc & Hu & Eb). exists c. split; [apply Hlc|].
    pose proof (i_live H _ _ Hlc) as Hi. rewrite Hu, decide_False in Hi by set_solver. congruence.
Qed.

(** The first chunk that fits in the first bin that has one is the best. *)
Lemma first_is_best b l l1 h l2 c :
  bins_ s !! b = Some l -> l = l1 ++ h :: l2 -> chunks_ s !! h = Some c -> fits c = true ->
  (forall k e, k ∈ l1 -> chunks_ s !! k = Some e -> fits e = false) ->
  (forall k e, live_chunk R s k e -> in_use e = false -> fits e = true ->
     (b <= BinNumForSize (size e))%nat) ->
  best h c.
Proof.
  intros Hl -> Hc Hf Hl1 Hbs.
  destruct (proj1 (bin_members b _ h Hl)) as (c' & Hlc & Hu & Eb); [set_solver|].
  pose proof (lv_fun _ _ _ _ _ _ Hlc Hc) as <-. split_and!; [done..|].
  intros k e He Hue Hfe. pose proof (Hbs k e He Hue Hfe) as Hbe.
  destruct (decide (BinNumForSize (size e) = b)) as [Ebe|Ebe].
  - assert (k ∈ l1 ++ h :: l2) as Hk by (apply (bin_members b _ k Hl); eauto).
    apply elem_of_app in Hk as [Hk|[->|Hk]%elem_of_cons]; [|by left|right].
    + pose proof (Hl1 k e Hk (proj1 He)). congruence.
    + destruct (i_bins H) as (_ & _ & Hb). destruct (Hb b _ Hl) as [[Hs _] _].
      apply StronglySorted_app in Hs as (_ & _ & Hs). apply StronglySorted_inv in Hs as [_ HF].
      destruct (proj1 (Forall_forall _ _) HF k Hk) as (a1 & a2 & H1 & H2 & Hlt).
      pose proof (proj1 He). congruence.
  - right. apply chunk_less_spec. left. destruct (Z.lt_ge_cases (size c) (size e)); [done|].
    pose proof (BinNumForSize_mono (size e) (size c) ltac:(lia)). lia.
Qed.

Lemma find_in_bins_wp d n num Q :
  cfg_ok cfg -> 0 < r -> (256 | r) -> 2 * r < two64 ->
  (forall k e, live_chunk R s k e -> in_use e = false -> fits e = true ->
     (kNumBins - n <= BinNumForSize (size e))%nat) ->
  (n <= kNumBins)%nat ->
  ((forall k e, live_chunk R s k e -> in_use e = false -> fits e = false) -> Q 0 s) ->
  (forall h c s', best h c -> allocated cfg R s (ptr c) r num s' -> Q (ptr c) s') ->
  wp d (find_in_bins cfg r num freed_before (seq (kNumBins - n) n)) s Q.
Proof.
  intros Hcfg Hr Hdiv H2r Hbs Hn Hnone Hsome.
  assert (forall m i, (i + m = kNumBins)%nat -> (forall k e, live_chunk R s k e -> in_use e = false ->
      fits e = true -> (i <= BinNumForSize (size e))%nat) ->
    wp d (find_in_bins cfg r num freed_before (seq i m)) s Q) as Hgo; [|apply Hgo; [lia|done]].
  clear Hbs Hn n. induction m as [|m IH]; intros i Hi Hbs; simpl.
  - apply wp_ret, Hnone. intros k e He Hu. apply not_true_iff_false. intros Hf.
    pose proof (Hbs k e He Hu Hf). pose proof (BinNumForSize_lt (size e)). lia.
  - destruct (bin_lookup R ∅ ∅ s i H ltac:(lia)) as (l & Hl & Hok & _).
    apply wp_bind, (wp_bin _ _ l); [done|].
    destruct (find_in_bin_spec l (proj2 Hok)) as (o & Eo & Ho).
    apply wp_bind. unfold wp. rewrite Eo. destruct o as [h|].
    + destruct Ho as (l1 & l2 & c & El & Hc & Hf & Hl1).
      pose proof (first_is_best i l l1 h l2 c Hl El Hc Hf Hl1 Hbs) as Hbest.
      destruct Hbest as (Hlc & Hu & _). pose proof (i_live H _ _ Hlc) as Hb.
      rewrite Hu, decide_False in Hb by set_solver.
      destruct (proj1 (bin_members i l h Hl)) as (c' & Hlc' & _ & Ei); [set_solver|].
      pose proof (lv_fun _ _ _ _ _ _ Hlc' Hc) as <-. rewrite Ei in Hb.
      unfold BfcAlloc.fits in Hf. apply andb_true_iff in Hf as [Hf1 Hf2%Z.leb_le].
      apply (take_chunk_wp cfg R d s i h c r num); try done.
      intros s' Hs'. apply (Hsome h); [|done].
      apply (first_is_best i l l1 h l2 c); try done.
      unfold BfcAlloc.fits. by rewrite Hf1, (proj2 (Z.leb_le _ _)).
    + apply IH; [lia|]. intros k e He Hu Hf. pose proof (Hbs k e He Hu Hf).
      destruct (decide (BinNumForSize (size e) = i)) as [Ei|]; [|lia]. exfalso.
      rewrite (Ho k e) in Hf; [done| |apply He]. apply (bin_members i l k Hl). eauto.
Qed.

Lemma FindChunkPtr_wp d n Q :
  cfg_ok cfg -> 0 < r -> (256 | r) -> 2 * r < two64 ->
  ((forall k e, live_chunk R s k e -> in_use e = false -> fits e = false) -> Q 0 s) ->
  (forall h c s', best h c -> allocated cfg R s (ptr c) r n s' -> Q (ptr c) s') ->
  wp d (FindChunkPtr cfg (BinNumForSize r) r n freed_before) s Q.
Proof.
  intros Hcfg Hr Hdiv H2r Hnone Hsome. unfold FindChunkPtr.
  pose proof (BinNumForSize_lt r) as Hlt.
  replace (BinNumForSize r) with (kNumBins - (kNumBins - BinNumForSize r))%nat at 1 by lia.
  apply find_in_bins_wp; try done; [|lia].
  intros k e He Hu Hf. unfold BfcAlloc.fits in Hf. apply andb_true_iff in Hf as [_ Hf%Z.leb_le].
  pose proof (BinNumForSize_mono r (size e) Hf). lia.
Qed.
End Find.
