(* ===== verification/BfcSub.v ===== *)
(** * The size that a failed extension asks for next, and the sub-allocator. *)

From Stdlib Require Import ZArith Lia Setoid Morphisms.
From S2P Require Import Prelude MachineInt BfcAllocator BfcHeap BfcRegions BfcInv BfcOps BfcCoalesce BfcFree.

(** ** Backing off

    The fallback of Extend in xla/tsl/framework/bfc_allocator.cc: after a failed
    call to the sub-allocator the size is multiplied by the binary32 number 0.9f
    and rounded up to a multiple of 256 bytes. *)

Lemma u64_range z : 0 <= u64 z < two64.
Proof. unfold u64. by apply Z.mod_pos_bound. Qed.

(** Rounding to [k] bits less adds at most half a unit. *)
Lemma shift_round_le m k : 0 <= m -> 0 < k -> shift_round m k * 2 ^ k <= m + 2 ^ (k - 1).
Proof.
  intros Hm Hk. unfold shift_round. rewrite !Z.shiftl_mul_pow2, Z.shiftr_div_pow2 by lia.
  rewrite Z.mul_1_l. assert (2 ^ k = 2 * 2 ^ (k - 1)) as Ek by (rewrite <- Z.pow_succ_r by lia; f_equal; lia).
  pose proof (Z.pow_pos_nonneg 2 (k - 1) ltac:(lia) ltac:(lia)) as Hh.
  pose proof (Z.div_mod m (2 ^ k) ltac:(lia)) as Hdm. pose proof (Z.mod_pos_bound m (2 ^ k) ltac:(lia)) as Hmb.
  destruct (_ || _) eqn:E; [|nia].
  apply orb_true_iff in E as [E%Z.ltb_lt|[E%Z.eqb_eq _]%andb_true_iff]; nia.
Qed.

Lemma shift_round_nonneg m k : 0 <= m -> 0 < k -> 0 <= shift_round m k.
Proof.
  intros Hm Hk. unfold shift_round. rewrite Z.shiftr_div_pow2 by lia.
  pose proof (Z.div_pos m (2 ^ k) Hm ltac:(lia)). destruct (_ || _); lia.
Qed.

(** A binary32 value is off by at most a factor of 1 + 2^-24. *)
Lemma f32_round_le m e : 0 <= m ->
  exists m' k, f32_round m e = (m', e + k) /\ 0 <= k /\ 0 <= m' /\ m' * 2 ^ k * 16777216 <= m * 16777217.
Proof.
  intros Hm. unfold f32_round. destruct (Z.leb_spec (Z.log2 m - 23) 0) as [Hk|Hk].
  - exists m, 0. rewrite Z.add_0_r, Z.mul_1_r. split_and!; [done|lia..].
  - assert (0 < m) as Hpos by (destruct (Z.eq_dec m 0) as [->|]; [simpl in Hk|]; lia).
    set (k := Z.log2 m - 23) in *. exists (shift_round m k), k.
    pose proof (shift_round_le m k ltac:(lia) Hk). pose proof (shift_round_nonneg m k ltac:(lia) Hk).
    assert (2 ^ (k - 1) * 16777216 <= m).
    { change 16777216 with (2 ^ 24). rewrite <- Z.pow_add_r by lia.
      replace (k - 1 + 24) with (Z.log2 m) by lia. apply Z.log2_spec. lia. }
    split_and!; [done|lia|done|lia].
Qed.

Lemma f32_trunc_le m K : 0 <= m -> 0 <= K -> f32_trunc (m, K - 24) * 16777216 <= m * 2 ^ K.
Proof.
  intros Hm HK. unfold f32_trunc. cbn [fst snd]. change 16777216 with (2 ^ 24).
  destruct (Z.leb_spec 0 (K - 24)).
  - rewrite Z.shiftl_mul_pow2 by lia. rewrite <- Z.mul_assoc, <- Z.pow_add_r by lia.
    replace (K - 24 + 24) with K by lia. lia.
  - rewrite Z.shiftr_div_pow2 by lia. replace (- (K - 24)) with (24 - K) by lia.
    replace (2 ^ 24) with (2 ^ (24 - K) * 2 ^ K) by (rewrite <- Z.pow_add_r by lia; f_equal; lia).
    pose proof (Z.mul_div_le m (2 ^ (24 - K)) ltac:(lia)). pose proof (Z.pow_pos_nonneg 2 K). nia.
Qed.

Lemma backpedal_le b : 0 <= b -> 0 <= backpedal b /\
  backpedal b * 16777216 * 16777216 * 16777216 <= b * 15099494 * 16777217 * 16777217.
Proof.
  intros Hb. unfold backpedal.
  destruct (f32_round_le b 0 Hb) as (m1 & k1 & -> & Hk1 & Hm1 & H1). cbn [fst snd].
  pose proof (Z.pow_pos_nonneg 2 k1 ltac:(lia) Hk1) as Hp1.
  destruct (f32_round_le (m1 * 15099494) (0 + k1 - 24) ltac:(lia)) as (m2 & k2 & -> & Hk2 & Hm2 & H2).
  pose proof (f32_trunc_le m2 (k1 + k2) Hm2 ltac:(lia)) as H3.
  replace (k1 + k2 - 24) with (0 + k1 - 24 + k2) in H3 by lia.
  split.
  { unfold f32_trunc. cbn [fst snd]. destruct (0 <=? _); [by apply Z.shiftl_nonneg|by apply Z.shiftr_nonneg]. }
  set (t := f32_trunc _) in *. rewrite Z.pow_add_r in H3 by lia.
  pose proof (Z.pow_pos_nonneg 2 k2 ltac:(lia) Hk2) as Hp2.
  set (P1 := 2 ^ k1) in *. set (P2 := 2 ^ k2) in *.
  assert (m2 * P2 * 16777216 * P1 <= m1 * 15099494 * 16777217 * P1) by (apply Z.mul_le_mono_nonneg_r; lia).
  assert (m1 * P1 * 16777216 * (15099494 * 16777217) <= b * 16777217 * (15099494 * 16777217))
    by (apply Z.mul_le_mono_nonneg_r; lia).
  lia.
Qed.

(** From 2560 bytes on every step is to a smaller size. *)
Lemma backpedal_shrinks b :
  2560 <= b < two64 -> (256 | b) -> backpedal b < two64 - 256 /\ RoundedBytes (backpedal b) < b.
Proof.
  intros Hb Hd. destruct (backpedal_le b ltac:(lia)) as [Hpos Hle].
  assert (backpedal b + 255 < b) by lia. split; [lia|].
  destruct (RoundedBytes_bounds (backpedal b)) as [Hr _]; lia.
Qed.

(** ** Memory for a new region

    The first half of Extend of xla/tsl/framework/bfc_allocator.cc: what the
    allocator relies on of its sub-allocator, the size of the region, the calls
    with their fallback to smaller sizes, and the walk to the last chunk of a
    region. *)

(** ** Regions up to equivalence *)

Definition reg_equiv : relation (Z -> Z -> Prop) :=
  pointwise_relation Z (pointwise_relation Z iff).

#[export] Instance reg_equiv_equivalence : Equivalence reg_equiv.
Proof. unfold reg_equiv. apply _. Qed.

#[export] Instance grid_proper : Proper (reg_equiv ==> eq ==> iff) grid.
Proof. intros R R' HR p ? <-. unfold grid. by setoid_rewrite (HR _ _). Qed.

#[export] Instance lv_proper : Proper (reg_equiv ==> eq ==> eq ==> eq ==> eq ==> iff) lv.
Proof. intros R R' HR cs ? <- rs ? <- h ? <- c ? <-. unfold lv. by rewrite HR. Qed.

#[export] Instance live_chunk_proper {Sub} :
  Proper (reg_equiv ==> eq ==> eq ==> eq ==> iff) (@live_chunk Sub).
Proof. intros R R' HR s ? <- h ? <- c ? <-. unfold live_chunk. by rewrite HR. Qed.

#[export] Instance used_proper {Sub} : Proper (reg_equiv ==> eq ==> eq ==> eq ==> iff) (@used Sub).
Proof. intros R R' HR s ? <- h ? <- a ? <-. unfold used. by setoid_rewrite HR. Qed.

#[export] Instance quiet_proper {Sub} : Proper (reg_equiv ==> eq ==> iff) (@quiet Sub).
Proof. intros R R' HR s ? <-. unfold quiet. by setoid_rewrite HR. Qed.

#[export] Instance NoAdj_proper {Sub} : Proper (reg_equiv ==> eq ==> eq ==> iff) (@NoAdj Sub).
Proof. intros R R' HR E ? <- s ? <-. unfold NoAdj. by setoid_rewrite HR. Qed.

#[export] Instance ts_ok_proper {Sub} : Proper (reg_equiv ==> eq ==> iff) (@ts_ok Sub).
Proof. intros R R' HR s ? <-. unfold ts_ok. by setoid_rewrite HR. Qed.

Lemma heap_ok_reg nd R R' sl : reg_equiv R R' -> heap_ok nd R sl -> heap_ok nd R' sl.
Proof. intros HR H. apply (restrict_heap_ok nd nd R R' sl sl H); try done. intros lo hi. by apply HR. Qed.

Lemma Inv_reg {Sub} R R' X D (s : bfc Sub) : reg_equiv R R' -> Inv R X D s -> Inv R' X D s.
Proof.
  intros HR H.
  apply (Inv_eq R' ((X ∖ ∅) ∪ ∅) X ((D ∖ ∅) ∪ ∅) D); [set_solver..|].
  apply (Inv_surgery R R' X D ∅ ∅ s s H); try done.
  - exact (i_regs H).
  - intros lo hi Hr. by apply (i_sub H), HR.
  - apply (heap_ok_reg _ R); [done|exact (i_heap H)].
  - intros h. setoid_rewrite HR. set_solver.
  - exact (i_pool H).
Qed.

#[export] Instance Inv_proper {Sub} : Proper (reg_equiv ==> eq ==> eq ==> eq ==> iff) (@Inv Sub).
Proof. intros R R' HR X ? <- D ? <- s ? <-. split; apply Inv_reg; [done|by symmetry]. Qed.

#[export] Instance Good_proper {Sub} : Proper (reg_equiv ==> eq ==> iff) (@Good Sub).
Proof.
  intros R R' HR s ? <-. split; intros [H1 H2 H3 H4]; split; try done;
    [by rewrite <- HR|by rewrite <- HR|by rewrite <- HR|by rewrite HR|by rewrite HR|by rewrite HR].
Qed.

Lemma extent_reg_equiv rs rs' : extent <$> rs' = extent <$> rs -> reg_equiv (reg_of rs') (reg_of rs).
Proof. intros He lo hi. by apply reg_of_extent. Qed.

(** ** The sub-allocator

    What the allocator relies on: a block is new memory of at least the size
    asked for, and whole multiples of 256 bytes yield whole multiples. *)
Class SubAllocatorLaws (Sub : Type) `{SA : SubAllocator Sub} := {
  owns : Sub -> Z -> Prop;
  Alloc_null : forall s al n r s', Alloc s al n = ((0, r), s') -> forall a, owns s' a <-> owns s a;
  Alloc_block : forall s al n p r s', Alloc s al n = ((p, r), s') -> p <> 0 -> 0 < n -> (256 | n) ->
    (0 < p /\ n <= r /\ (256 | r) /\ p + r < two64) /\
    (forall a, p <= a < p + r -> ~ owns s a) /\
    (forall a, owns s' a <-> owns s a \/ p <= a < p + r);
  Free_block : forall s p n a, owns (Free s p n) a <-> owns s a /\ ~ (p <= a < p + n);
}.

(** The regions are made of memory that the sub-allocator handed out. *)
Definition own_ok {Sub} `{SubAllocatorLaws Sub} (R : Z -> Z -> Prop) (sub : Sub) : Prop :=
  forall lo hi a, R lo hi -> lo <= a < hi -> owns sub a.

(** ** The size of the region *)

Lemma u64_divide n : (256 | n) -> (256 | u64 n).
Proof.
  intros [k ->]. unfold u64. pose proof (Z.div_mod (k * 256) two64 ltac:(done)) as E.
  exists (k - 72057594037927936 * (k * 256 / two64)). z64. lia.
Qed.

Lemma grow_region_spec fuel r curr inc c' inc' :
  grow_region fuel r curr inc = OK (c', inc') -> (256 | curr) -> r <= c' /\ (256 | c').
Proof.
  revert curr inc. induction fuel as [|fuel IH]; intros curr inc; simpl; [done|].
  destruct (Z.ltb_spec curr r) as [Hlt|Hge].
  - intros Hg Hd. apply (IH _ _ Hg). apply u64_divide. by apply Z.divide_mul_l.
  - by intros [= <- <-].
Qed.

(** With a size to double, 64 steps reach any request below 2^63. *)
Lemma grow_region_terminates fuel r curr inc :
  0 < curr -> r <= two63 -> r <= curr * 2 ^ Z.of_nat fuel ->
  exists c' inc', grow_region (S fuel) r curr inc = OK (c', inc').
Proof.
  intros Hc Hr. revert curr inc Hc. induction fuel as [|fuel IH]; intros curr inc Hc Hf; simpl.
  - rewrite Z.mul_1_r in Hf. rewrite (proj2 (Z.ltb_ge _ _)) by lia. eauto.
  - destruct (Z.ltb_spec curr r) as [Hlt|Hge]; [|eauto].
    assert (u64 (curr * 2) = curr * 2) as -> by (unfold u64; rewrite Z.mod_small; z64; lia).
    apply (IH (curr * 2) true); [lia|].
    replace (Z.of_nat (S fuel)) with (Z.succ (Z.of_nat fuel)) in Hf by lia.
    rewrite Z.pow_succ_r in Hf by lia. lia.
Qed.

Section ExtendAlloc.
Context {Sub : Type} `{SL : SubAllocatorLaws Sub}.
Implicit Types s : bfc Sub.

(** The block that Extend gets. *)
Definition block_ok (sub : Sub) (rounded : Z) (p r : Z) (sub' : Sub) : Prop :=
  (0 < p /\ rounded <= r /\ (256 | r) /\ p + r < two64) /\
  (forall a, p <= a < p + r -> ~ owns sub a) /\
  (forall a, owns sub' a <-> owns sub a \/ p <= a < p + r).

Definition alloc_result (sub : Sub) (rounded : Z) (o : option (Z * Z)) (sub' : Sub) : Prop :=
  match o with
  | None => forall a, owns sub' a <-> owns sub a
  | Some (p, r) => block_ok sub rounded p r sub'
  end.

Lemma alloc_step al n rounded sub p r sub' :
  Alloc sub al n = ((p, r), sub') -> 0 < rounded <= n -> (256 | n) ->
  if p =? 0 then forall a, owns sub' a <-> owns sub a else block_ok sub rounded p r sub'.
Proof.
  intros Ha Hn Hd. destruct (Z.eqb_spec p 0) as [->|Hp].
  - by apply (Alloc_null _ _ _ _ _ Ha).
  - destruct (Alloc_block _ _ _ _ _ _ Ha Hp ltac:(lia) Hd) as [(? & ? & ? & ?) [? ?]].
    split; [split_and!; try done; lia|done].
Qed.

Lemma RoundedBytes_divide n : (256 | RoundedBytes n).
Proof. unfold RoundedBytes. apply u64_divide, Z.divide_factor_l. Qed.

(** Enough fuel: the loop has no fixed point among the sizes it tries, and every
    round takes at least 256 bytes off. *)
Definition backs_off (d : bool) (fuel : nat) (rounded n : Z) : Prop :=
  d = true \/ (2560 <= rounded /\ n <= 256 * Z.of_nat fuel).

Lemma backpedal_loop_wp d fuel al rounded n s sub0 Q :
  0 < rounded <= n -> n < two64 -> (256 | n) -> backs_off d fuel rounded n ->
  (forall a, owns (sub_allocator_ s) a <-> owns sub0 a) ->
  (forall o sub', alloc_result sub0 rounded o sub' -> Q o (with_sub sub' s)) ->
  wp d (backpedal_loop fuel al rounded n) s Q.
Proof.
  revert n s. induction fuel as [|fuel IH]; intros n s Hn Hmax Hd Hf Hs HQ; simpl.
  { destruct Hf as [Hf|[? ?]]; [done|lia]. }
  set (m := RoundedBytes (backpedal n)). destruct (Z.ltb_spec m rounded) as [Hlt|Hge].
  - apply wp_ret. destruct s. by apply (HQ None).
  - apply wp_bind, wp_gets. destruct (Alloc _ al m) as [[p r] sub'] eqn:Ea.
    pose proof (RoundedBytes_divide (backpedal n)) as Hdm. fold m in Hdm.
    pose proof (alloc_step _ _ rounded _ _ _ _ Ea ltac:(lia) Hdm) as Hstep.
    apply wp_bind, wp_modify. simpl. destruct (p =? 0).
    + apply IH; [lia|apply u64_range|done| |intros a; simpl; by rewrite Hstep|].
      * destruct Hf as [Hf|[Hr Hf]]; [by left|right]. split; [done|].
        destruct (backpedal_shrinks n ltac:(lia) Hd) as [_ Hm]. fold m in Hm.
        destruct Hd as [x ->], Hdm as [y Ey]. lia.
      * intros o sub2 Ho. by apply HQ.
    + apply wp_ret, (HQ (Some (p, r)) sub'). destruct Hstep as [H1 [H2 H3]].
      split; [done|]. split; [intros a Ha Ho; apply (H2 a Ha); by apply Hs|].
      intros a. by rewrite H3, Hs.
Qed.

Lemma extend_alloc_wp d fuel al rounded n s Q :
  0 < rounded <= n -> n < two64 -> (256 | n) -> backs_off d fuel rounded n ->
  (forall o sub', alloc_result (sub_allocator_ s) rounded o sub' -> Q o (with_sub sub' s)) ->
  wp d (extend_alloc fuel al rounded n) s Q.
Proof.
  intros Hn Hmax Hd Hf HQ. unfold extend_alloc. apply wp_bind, wp_gets.
  destruct (Alloc _ al n) as [[p r] sub'] eqn:Ea.
  pose proof (alloc_step _ _ rounded _ _ _ _ Ea Hn Hd) as Hstep.
  apply wp_bind, wp_modify. simpl. destruct (p =? 0).
  - apply (backpedal_loop_wp _ _ _ _ _ _ (sub_allocator_ s)); [done..|].
    intros o sub2 Ho. by apply HQ.
  - by apply wp_ret, (HQ (Some (p, r)) sub').
Qed.
End ExtendAlloc.

(** ** Walking along a region *)

Section Walk.
Context (nd : nat -> option Node) (R : Z -> Z -> Prop) (sl : Z -> option nat) (N : nat).
Hypothesis H : heap_ok nd R sl.
Hypothesis Hbound : forall k m, live nd R sl k m -> (k < N)%nat.

(** The chunks [V] lie before the chunk [k]. *)
Definition behind (V : list nat) (m : Node) : Prop :=
  NoDup V /\ forall v, v ∈ V -> exists mv, live nd R sl v mv /\ n_ptr mv < n_ptr m.

Lemma behind_nil m : behind [] m.
Proof. split; [constructor|]. intros v Hv. by apply not_elem_of_nil in Hv. Qed.

Lemma behind_next V k m m' :
  behind V m -> live nd R sl k m -> n_ptr m < n_ptr m' -> behind (k :: V) m'.
Proof.
  intros [Hnd HV] Hl Hlt. split.
  - constructor; [|done]. intros Hk. destruct (HV k Hk) as (mv & Hmv & Hp).
    pose proof (live_fun _ _ _ _ _ _ Hmv Hl) as ->. lia.
  - intros v [->|Hv]%elem_of_cons; [by exists m|]. destruct (HV v Hv) as (mv & Hmv & Hp).
    exists mv. split; [done|lia].
Qed.

(** There are at most [N] chunks. *)
Lemma behind_length V k m : behind V m -> live nd R sl k m -> (length V < N)%nat.
Proof.
  intros [Hnd HV] Hl. assert (NoDup (k :: V)) as Hnd'.
  { constructor; [|done]. intros Hk. destruct (HV k Hk) as (mv & Hmv & Hp).
    pose proof (live_fun _ _ _ _ _ _ Hmv Hl) as ->. lia. }
  enough (length (k :: V) <= length (seq 0 N))%nat by (rewrite length_seq in *; simpl in *; lia).
  apply submseteq_length, NoDup_submseteq; [done|]. intros v Hv. apply elem_of_seq.
  apply elem_of_cons in Hv as [->|Hv].
  - pose proof (Hbound _ _ Hl). lia.
  - destruct (HV v Hv) as (mv & Hmv & _). pose proof (Hbound _ _ Hmv). lia.
Qed.

Lemma next_after k m k' m' : live nd R sl k m -> n_next m = Some k' -> live nd R sl k' m' -> n_ptr m < n_ptr m'.
Proof.
  intros Hl Hk Hl'. destruct (live_next H _ _ _ Hl Hk) as (m2 & Hm2 & He & _).
  pose proof (live_fun _ _ _ _ _ _ Hm2 Hl') as ->. pose proof (live_pos H _ _ Hl). unfold n_end in He. lia.
Qed.

(** The next chunk stays in the region. *)
Lemma next_in_region lo hi k m k' m' :
  R lo hi -> live nd R sl k m -> lo <= n_ptr m < hi -> n_next m = Some k' -> live nd R sl k' m' ->
  lo <= n_ptr m' < hi.
Proof.
  intros Hr Hl Hp Hk Hl'. destruct (live_next H _ _ _ Hl Hk) as (m2 & Hm2 & He & _).
  pose proof (live_fun _ _ _ _ _ _ Hm2 Hl') as ->.
  pose proof (live_reg_unique H k m lo hi Hl Hr Hp) as Hpl. pose proof (pl_next Hpl) as Hn. rewrite Hk in Hn.
  pose proof (live_pos H _ _ Hl). unfold n_end in *. lia.
Qed.

Context {Sub : Type} (s : bfc Sub).
Hypothesis Hnodes : forall k m, live nd R sl k m -> nd_of (chunks_ s) k = Some m.

Lemma node_chunk k m :
  live nd R sl k m -> exists c, chunks_ s !! k = Some c /\ m = node_of c.
Proof. intros Hl%Hnodes. unfold nd_of in Hl. by apply fmap_Some in Hl. Qed.

Lemma last_chunk_wp d lo hi fuel V k m Q :
  R lo hi -> live nd R sl k m -> lo <= n_ptr m < hi -> behind V m ->
  (fuel + length V = S N)%nat ->
  (forall k' m', live nd R sl k' m' -> lo <= n_ptr m' < hi -> n_next m' = None -> Q k' s) ->
  wp d (last_chunk fuel k) s Q.
Proof.
  intros Hr. revert V k m. induction fuel as [|fuel IH]; intros V k m Hl Hp HV Hf HQ.
  { pose proof (behind_length V k m HV Hl). simpl in Hf. lia. }
  simpl. destruct (node_chunk k m Hl) as (c & Hc & Em). apply wp_bind, (wp_chunk _ _ c); [done|].
  destruct (next c) as [k'|] eqn:Ek.
  - assert (n_next m = Some k') as Hk by by rewrite Em.
    destruct (live_next H _ _ _ Hl Hk) as (m' & Hm' & _).
    apply (IH (k :: V) k' m'); [done|by apply (next_in_region lo hi k m k')| | |done].
    + apply (behind_next V k m m'); [done..|]. by apply (next_after k m k').
    + simpl. lia.
  - apply wp_ret, (HQ k m); [done..|]. by rewrite Em.
Qed.
End Walk.
