(* ===== verification/BfcRegister.v ===== *)
(** * Registering a block of memory

    add_region of BfcAllocator.v, the second half of Extend: the block becomes a
    region of its own, or extends the region before it. *)

From Stdlib Require Import ZArith Lia Setoid Morphisms.
From S2P Require Import Prelude MachineInt BfcAllocator BfcHeap BfcRegions BfcInv BfcOps BfcCoalesce BfcFree BfcSub.

(** ** Registering the memory *)

(** The old last chunk of an extended region gets a next link. *)
Definition relast (last : option nat) (h j : nat) (c : Chunk) : Chunk :=
  if decide (last = Some j) then set_next (Some h) c else c.

(** The state [s'] with the new chunk [h], before it is coalesced. *)
Record extended {Sub} (R R' : Z -> Z -> Prop) (last : option nat) (s : bfc Sub) (h : nat)
    (s' : bfc Sub) : Prop := {
  ex_inv : Inv R' {[h]} ∅ s';
  ex_new : exists c, chunks_ s' !! h = Some c /\ in_use c = false /\ freed_at_count c = 0 /\
    grid R' (ptr c);
  ex_dead : forall c, ~ live_chunk R s h c;
  ex_old : forall j, j <> h -> chunks_ s' !! j = relast last h j <$> chunks_ s !! j;
  ex_live : forall j, (exists c, live_chunk R' s' j c) <-> (exists c, live_chunk R s j c) \/ j = h;
  ex_grid : forall p, grid R p -> grid R' p;
  ex_rest : timestamped_chunks_ s' = timestamped_chunks_ s /\
    timing_counter_ s' = timing_counter_ s /\ sub_allocator_ s' = sub_allocator_ s /\
    curr_region_allocation_bytes_ s' = curr_region_allocation_bytes_ s;
  ex_next : next_allocation_id_ s' = next_allocation_id_ s;
}.

Section Extended.
Context {Sub : Type} (R R' : Z -> Z -> Prop) (last : option nat) (s : bfc Sub) (h : nat) (s' : bfc Sub).
Hypothesis E : extended R R' last s h s'.

Lemma relast_fields j c :
  core (relast last h j c) = core c /\ in_use (relast last h j c) = in_use c /\
  freed_at_count (relast last h j c) = freed_at_count c /\
  (next (relast last h j c) = next c \/ next (relast last h j c) = Some h).
Proof. unfold relast. case_decide; split_and!; auto. Qed.

Lemma extended_live j e' :
  live_chunk R' s' j e' -> j <> h -> exists e, live_chunk R s j e /\ e' = relast last h j e.
Proof.
  intros Hl Hj. destruct (proj1 (ex_live _ _ _ _ _ _ E j)) as [[e He]|]; [by exists e'| |done].
  exists e. split; [done|]. pose proof (ex_old _ _ _ _ _ _ E j Hj) as Ho.
  rewrite (proj1 Hl), (proj1 He) in Ho. simpl in Ho. congruence.
Qed.

Lemma extended_live_old j e :
  live_chunk R s j e -> j <> h /\ live_chunk R' s' j (relast last h j e).
Proof.
  intros Hl. assert (j <> h) as Hj by (intros ->; by apply (ex_dead _ _ _ _ _ _ E e)).
  split; [done|]. destruct (proj2 (ex_live _ _ _ _ _ _ E j)) as [e' He]; [left; by exists e|].
  pose proof (ex_old _ _ _ _ _ _ E j Hj) as Ho. rewrite (proj1 Hl), (proj1 He) in Ho. simpl in Ho.
  congruence.
Qed.

Lemma extended_new e : live_chunk R' s' h e -> in_use e = false /\ freed_at_count e = 0.
Proof.
  intros Hl. destruct (ex_new _ _ _ _ _ _ E) as (c & Hc & Hu & Hf & _).
  pose proof (lv_fun _ _ _ _ _ _ Hl Hc) as ->. done.
Qed.

Lemma extended_used k a : used R' s' k a <-> used R s k a.
Proof.
  split.
  - intros (e' & Hl & Hu & <-). assert (k <> h) as Hk.
    { intros ->. destruct (extended_new e' Hl). congruence. }
    destruct (extended_live k e' Hl Hk) as (e & He & ->).
    destruct (relast_fields k e) as (Ec & Eu & _). exists e. rewrite <- Eu, Ec. done.
  - intros (e & Hl & Hu & <-). destruct (extended_live_old k e Hl) as [_ Hl'].
    destruct (relast_fields k e) as (Ec & Eu & _). eexists. split; [exact Hl'|]. by rewrite Eu, Ec.
Qed.

Lemma extended_quiet : quiet R s -> quiet R' s'.
Proof.
  intros [Hq Hf]. destruct (ex_rest _ _ _ _ _ _ E) as (_ & Et & _). split; [congruence|].
  intros k e' Hl. destruct (decide (k = h)) as [->|Hk]; [by apply extended_new|].
  destruct (extended_live k e' Hl Hk) as (e & He & ->).
  destruct (relast_fields k e) as (_ & _ & -> & _). exact (Hf k e He).
Qed.

Lemma extended_NoAdj : NoAdj R ∅ s -> NoAdj R' {[h]} s'.
Proof.
  intros HN k1 e1 k2 e2 H1 Hk H2 Hu1 Hu2.
  destruct (decide (k1 = h)) as [->|Hk1]; [left; set_solver|].
  destruct (decide (k2 = h)) as [->|Hk2]; [right; set_solver|]. exfalso.
  destruct (extended_live k1 e1 H1 Hk1) as (f1 & Hf1 & ->), (extended_live k2 e2 H2 Hk2) as (f2 & Hf2 & ->).
  destruct (relast_fields k1 f1) as (_ & E1 & _ & [En|En]); [|congruence].
  destruct (relast_fields k2 f2) as (_ & E2 & _).
  destruct (HN k1 f1 k2 f2 Hf1 ltac:(congruence) Hf2); [congruence|congruence|set_solver..].
Qed.

Lemma extended_ts : ts_ok R s -> ts_ok R' s'.
Proof.
  intros Ht k Hk. destruct (ex_rest _ _ _ _ _ _ E) as (Ets & _). rewrite Ets in Hk.
  destruct (Ht k Hk) as (c & Hc & Hg). destruct (decide (k = h)) as [->|Hne].
  - destruct (ex_new _ _ _ _ _ _ E) as (c' & Hc' & _ & _ & Hg'). by exists c'.
  - rewrite (ex_old _ _ _ _ _ _ E k Hne), Hc. simpl. eexists. split; [done|].
    unfold relast. case_decide; by apply (ex_grid _ _ _ _ _ _ E).
Qed.
End Extended.

(** The chunk vector does not know the regions and the statistics. *)
Lemma AllocateChunk_frame {Sub} d st rs (s : bfc Sub) Q :
  wp d AllocateChunk s (fun h s1 => Q h (with_stats st (with_regions rs s1))) ->
  wp d AllocateChunk (with_stats st (with_regions rs s)) Q.
Proof.
  unfold AllocateChunk, wp, mbind, M_bind, gets, ChunkFromHandle, modify. simpl.
  destruct (free_chunks_list_ s) as [h|]; simpl; [|intros HQ; exact HQ].
  destruct (chunks_ s !! h); simpl; intros HQ; exact HQ.
Qed.

Section Register.
Context {Sub : Type} (R R' : Z -> Z -> Prop) (s s1 : bfc Sub) (st : AllocatorStats).
Context (h : nat) (cn c0 : Chunk) (last : option nat).
Context (cs' : list Chunk) (rs' : list AllocationRegion).
Hypothesis H1 : Inv R ∅ {[h]} s1.
Hypothesis Hcn : chunks_ s1 !! h = Some cn.
Hypothesis Hun : in_use cn = false.
Hypothesis Hbn : bin_num cn = None.
Hypothesis Hch : forall k, k <> h -> chunks_ s1 !! k = chunks_ s !! k.
Hypothesis Hlv1 : forall k e, lv R (chunks_ s1) (regions_ s1) k e <-> lv R (chunks_ s) (regions_ s) k e.
Hypothesis Hrest : s1 = with_chunks (chunks_ s1) (with_free_list (free_chunks_list_ s1) s).
Hypothesis Hc0 : tag c0 = tag cn /\ freed_at_count c0 = 0 /\ grid R' (ptr c0).
Hypothesis Hh : cs' !! h = Some c0.
Hypothesis Hcs : forall j, j <> h -> cs' !! j = relast last h j <$> chunks_ s1 !! j.
Hypothesis Hok : regions_ok rs'.
Hypothesis Hsub : forall lo hi, R' lo hi -> reg_of rs' lo hi.
Hypothesis Hheap : heap_ok (nd_of cs') R' (sl_of rs').
Hypothesis Hlive : forall j, (exists n, live (nd_of cs') R' (sl_of rs') j n) <->
  (exists n, live (nd_of (chunks_ s1)) R (sl_of (regions_ s1)) j n) \/ j = h.
Hypothesis Hgrid : forall p, grid R p -> grid R' p.
Hypothesis Hlast : forall k, last = Some k -> exists e, lv R (chunks_ s1) (regions_ s1) k e.
Hypothesis Hused : bytes_in_use st = bytes_in_use (stats_ s).
Hypothesis Hpool : pool_bytes st = i64 (sum (memory_size <$> rs')).

Lemma ex_lv_live (Q : Z -> Z -> Prop) cs rs j :
  (exists c, lv Q cs rs j c) <-> exists n, live (nd_of cs) Q (sl_of rs) j n.
Proof.
  split; [intros [c Hc]; eexists; by apply lv_live|].
  intros [n (c & Hc & _)%live_lv]. by exists c.
Qed.

Lemma relast_tag j c : tag (relast last h j c) = tag c.
Proof. unfold relast. by case_decide. Qed.

Lemma register_extended :
  extended R R' last s h (with_stats st (with_regions rs' (with_chunks cs' s1))).
Proof.
  destruct Hc0 as (Ht & Hf & Hg). pose proof Ht as Ht'. apply tag_fields in Ht' as (_ & Eu & _).
  assert (stats_ s1 = stats_ s) as Est by by rewrite Hrest.
  split.
  - apply (Inv_eq R' ((∅ ∖ ∅) ∪ {[h]}) {[h]} (({[h]} ∖ {[h]}) ∪ ∅) ∅); [clear; set_solver..|].
    apply (Inv_surgery R R' ∅ {[h]} ∅ {[h]} s1 _ H1); simpl; try done.
    + intros j. destruct (decide (j = h)) as [->|Hj]; [by rewrite Hh, Hcn; simpl; rewrite Ht|].
      rewrite Hcs by done. destruct (chunks_ s1 !! j); simpl; [by rewrite relast_tag|done].
    + intros j. rewrite !ex_lv_live, Hlive. set_solver.
    + intros j c Hc Hn Hj. assert (j <> h) as Hjh by (clear -Hj; set_solver).
      rewrite Hcs, Hc by done. simpl. f_equal. unfold relast. case_decide as E; [|done].
      destruct (Hlast j E) as [e He]. by pose proof (lv_fun _ _ _ _ _ _ He Hc) as ->.
    + intros j Hj%elem_of_singleton. subst j. split; [set_solver|by exists cn].
    + by rewrite Hused, Est.
  - exists c0. simpl. split_and!; [done|congruence|done..].
  - intros c Hl. apply Hlv1 in Hl. destruct (i_D H1 h ltac:(set_solver)) as (c' & Hc' & Hn).
    by pose proof (lv_fun _ _ _ _ _ _ Hl Hc') as ->.
  - intros j Hj. simpl. by rewrite Hcs, Hch.
  - intros j. unfold live_chunk. simpl. rewrite ex_lv_live, Hlive, <- ex_lv_live. by setoid_rewrite Hlv1.
  - done.
  - simpl. by rewrite Hrest.
  - simpl. by rewrite Hrest.
Qed.
End Register.

Lemma live_ext nd nd' R sl sl' j n :
  (forall k, nd' k = nd k) -> (forall p, grid R p -> sl' p = sl p) ->
  live nd' R sl' j n <-> live nd R sl j n.
Proof.
  intros Hn Hs. unfold live. rewrite Hn. split; intros (? & Hg & Hx); split_and!; try done;
    [by rewrite <- Hs|by rewrite Hs].
Qed.

(** The new chunk of a block of memory. *)
Definition block_chunk (mem bytes : Z) (c : Chunk) : Chunk :=
  set_freed_at_count 0 (set_next None (set_prev None
    (set_allocation_id (-1) (set_size bytes (set_ptr mem c))))).

Lemma block_chunk_tag mem n v c :
  in_use c = false -> bin_num c = None -> tag (set_prev v (block_chunk mem n c)) = tag c.
Proof.
  intros Hu Hb. unfold tag, block_chunk. simpl. rewrite Hb.
  assert (allocation_id c = -1) as Ha by (unfold in_use in Hu; lia).
  unfold in_use. simpl. by rewrite Ha.
Qed.

Section NewRegion.
Context {Sub : Type} (R : Z -> Z -> Prop) (s1 : bfc Sub) (h : nat) (cn : Chunk) (mem n : Z).
Hypothesis H1 : Inv R ∅ {[h]} s1.
Hypothesis Hcn : chunks_ s1 !! h = Some cn.
Hypothesis HR : reg_equiv (reg_of (regions_ s1)) R.
Hypothesis Hap : apart (regions_ s1) mem (mem + n).
Hypothesis Hnew : region_ok (new_region mem n).

Lemma dead_h m : ~ live (nd_of (chunks_ s1)) R (sl_of (regions_ s1)) h m.
Proof.
  intros (c & Hl & _)%live_lv. destruct (i_D H1 h (proj2 (elem_of_singleton h h) eq_refl)) as (c' & Hc' & Hn).
  by pose proof (lv_fun _ _ _ _ _ _ Hl Hc') as ->.
Qed.

Section AsNew.
Context (rs2 : list AllocationRegion).
Let rsA := insert_region (upper_bound mem (regions_ s1)) (new_region mem n) (regions_ s1).
Let R' := add_reg R mem (mem + n).
Let cs' := <[h := block_chunk mem n cn]> (chunks_ s1).
Hypothesis Hext : extent <$> rs2 = extent <$> rsA.
Hypothesis Hsl2 : forall q, grid (reg_of rsA) q -> sl_of rs2 q = set_sl (sl_of rsA) mem (Some h) q.

Lemma new_reg_equiv : reg_equiv R' (reg_of rsA).
Proof.
  destruct (insert_region_spec _ _ _ (i_regs H1) Hap Hnew) as (Hr & _). intros lo hi.
  fold rsA in Hr. rewrite Hr. unfold R', add_reg. by rewrite (HR lo hi).
Qed.

Lemma new_wf : regions_wf R'.
Proof.
  pose proof (reg_of_wf _ (insert_region_ok _ _ _ (i_regs H1) Hap Hnew)) as [Hs Hsame].
  fold rsA in Hs, Hsame. split.
  - intros lo hi Hr%new_reg_equiv. by apply Hs.
  - intros ????? Ha%new_reg_equiv Hb%new_reg_equiv. by apply Hsame.
Qed.

Lemma new_nd j : nd_of cs' j = set_nd (nd_of (chunks_ s1)) h (mkNode mem (mem + n - mem) None None) j.
Proof.
  unfold cs', set_nd. rewrite nd_of_insert by (by apply lookup_lt_Some in Hcn).
  case_decide; [|done]. unfold node_of, block_chunk. simpl. do 3 f_equal. lia.
Qed.

Lemma new_slots :
  (forall p, grid R p -> sl_of rs2 p = sl_of (regions_ s1) p) /\ sl_of rs2 mem = Some h /\
  (forall q, mem < q < mem + n -> (256 | q - mem) -> sl_of rs2 q = None).
Proof.
  destruct (insert_region_spec _ _ _ (i_regs H1) Hap Hnew) as (Hr & Hs1 & Hs2).
  fold rsA in Hr, Hs1, Hs2. pose proof (ro_size _ Hnew) as Hpos. simpl in Hpos.
  assert (forall q, mem <= q < mem + n -> (256 | q - mem) -> grid (reg_of rsA) q) as Hg2.
  { intros q Hq Hd. exists mem, (mem + n). split_and!; [apply Hr; by right|lia|lia|done]. }
  assert (forall p, grid R p -> grid (reg_of (regions_ s1)) p) as Hg1 by (intros p; by rewrite HR).
  split_and!.
  - intros p Hp. assert (grid (reg_of rsA) p) as Hpg.
    { destruct (Hg1 p Hp) as (lo & hi & Hl & ?). exists lo, hi. split; [apply Hr; by left|done]. }
    rewrite Hsl2 by done. unfold set_sl. case_decide as E; [|by apply Hs1, Hg1].
    exfalso. subst p. destruct (Hg1 mem Hp) as (lo & hi & Hl & Hb & _). apply (Hap lo hi mem); lia || done.
  - rewrite Hsl2; [unfold set_sl; by rewrite decide_True|]. apply Hg2; [lia|].
    rewrite Z.sub_diag. apply Z.divide_0_r.
  - intros q Hq Hd. rewrite Hsl2 by (apply Hg2; [lia|done]). unfold set_sl.
    rewrite decide_False by lia. apply Hs2; [lia|done].
Qed.

Lemma new_fresh : ~ R mem (mem + n).
Proof.
  intros Hr%HR. pose proof (ro_size _ Hnew) as Hpos. simpl in Hpos.
  apply (Hap _ _ mem Hr); lia.
Qed.

Lemma new_heap : heap_ok (nd_of cs') R' (sl_of rs2).
Proof.
  destruct new_slots as (Hs1 & Hs2 & Hs3).
  apply (heap_ok_ext _ _ _ _ new_nd).
  apply (add_heap_ok (nd_of (chunks_ s1)) R (sl_of (regions_ s1)) (sl_of rs2) (i_heap H1));
    [exact new_wf|exact dead_h|exact new_fresh|done..].
Qed.

Lemma new_live j :
  (exists m, live (nd_of cs') R' (sl_of rs2) j m) <->
  (exists m, live (nd_of (chunks_ s1)) R (sl_of (regions_ s1)) j m) \/ j = h.
Proof.
  destruct new_slots as (Hs1 & Hs2 & Hs3).
  setoid_rewrite (live_ext _ _ _ _ _ j _ new_nd (fun p _ => eq_refl)).
  exact (add_live_iff (nd_of (chunks_ s1)) R (sl_of (regions_ s1)) (sl_of rs2)
    h mem (mem + n) new_wf dead_h Hs1 Hs2 Hs3 j).
Qed.
End AsNew.

(** The memory continues the region [r0], whose last chunk is [last]. *)
Section AsExtension.
Context (i : nat) (r0 : AllocationRegion) (rs2 : list AllocationRegion) (last : nat) (cl : Chunk).
Let rsB := <[i := extend n r0]> (regions_ s1).
Let R' := grow_reg R (region_ptr r0) (mem + n).
Let cs' := <[last := set_next (Some h) cl]>
  (<[h := set_prev (Some last) (block_chunk mem n cn)]> (chunks_ s1)).
Hypothesis Hi : regions_ s1 !! i = Some r0.
Hypothesis He : end_ptr r0 = mem.
Hypothesis Hsl2 : forall q, grid (reg_of rsB) q -> sl_of rs2 q = set_sl (sl_of rsB) mem (Some h) q.
Hypothesis Hlast : lv R (chunks_ s1) (regions_ s1) last cl.
Hypothesis Hlp : region_ptr r0 <= ptr cl < mem.
Hypothesis Hln : next cl = None.

Lemma ext_reg0 : R (region_ptr r0) mem.
Proof. apply HR. exists r0. split; [by apply list_elem_of_lookup_2 in Hi|done]. Qed.

Lemma ext_reg_equiv : reg_equiv R' (reg_of rsB).
Proof.
  destruct (extend_region_spec _ _ _ _ _ (i_regs H1) Hap Hnew Hi He) as (Hr & _). intros lo hi.
  fold rsB in Hr. rewrite Hr. unfold R', grow_reg. by rewrite (HR lo hi).
Qed.

Lemma ext_wf : regions_wf R'.
Proof.
  pose proof (reg_of_wf _ (extend_regions_ok _ _ _ _ _ (i_regs H1) Hap Hnew Hi He)) as [Hs Hsame].
  fold rsB in Hs, Hsame. split.
  - intros lo hi Hr%ext_reg_equiv. by apply Hs.
  - intros ????? Ha%ext_reg_equiv Hb%ext_reg_equiv. by apply Hsame.
Qed.

Lemma ext_end : n_end (node_of cl) = mem.
Proof.
  pose proof (live_reg_unique (i_heap H1) last _ _ _ (lv_live _ _ _ _ _ Hlast) ext_reg0 Hlp) as Hpl.
  pose proof (pl_next Hpl) as Hn. unfold node_of in Hn. simpl in Hn. by rewrite Hln in Hn.
Qed.

Lemma ext_ne : last <> h.
Proof.
  intros E. apply (dead_h (node_of cl)). pose proof (lv_live _ _ _ _ _ Hlast) as Hl. by rewrite E in Hl.
Qed.

Definition grown_last : Node := mkNode (ptr cl) (size cl + n) (prev cl) None.

Lemma ext_nd j : nd_of cs' j =
  split_nd (set_nd (nd_of (chunks_ s1)) last grown_last) last h grown_last (size cl) j.
Proof.
  pose proof ext_ne as Hne. pose proof (lookup_lt_Some _ _ _ Hcn) as Hh.
  pose proof (lv_valid _ _ _ _ _ Hlast) as Hl. pose proof ext_end as Hend. unfold n_end in Hend. simpl in Hend.
  unfold cs', split_nd, set_nd. rewrite nd_of_insert by (by rewrite length_insert).
  rewrite nd_of_insert by done. simpl.
  destruct (decide (j = last)) as [->|Hj].
  - rewrite (decide_False (P := last = h)) by done. done.
  - destruct (decide (j = h)) as [->|Hjh]; [|done].
    unfold node_of, block_chunk, grown_last. simpl. do 2 f_equal; [lia|]. lia.
Qed.

Lemma ext_slots :
  (forall p, grid R p -> sl_of rsB p = sl_of (regions_ s1) p) /\
  (forall q, mem <= q < mem + n -> (256 | q - region_ptr r0) -> sl_of rsB q = None) /\
  (forall q, grid R' q -> sl_of rs2 q = set_sl (sl_of rsB) mem (Some h) q).
Proof.
  destruct (extend_region_spec _ _ _ _ _ (i_regs H1) Hap Hnew Hi He) as (Hr & Hs1 & Hs2).
  fold rsB in Hr, Hs1, Hs2. split_and!; [|done|].
  - intros p Hp. apply Hs1. by rewrite HR.
  - intros q Hq. apply Hsl2. by rewrite <- ext_reg_equiv.
Qed.

Lemma ext_live_last : live (nd_of (chunks_ s1)) R (sl_of (regions_ s1)) last (node_of cl).
Proof. by apply lv_live. Qed.

Lemma ext_slot_mem q : grid R' q -> sl_of rs2 q = set_sl (sl_of rsB) (ptr cl + size cl) (Some h) q.
Proof.
  intros Hq. destruct ext_slots as (_ & _ & Hs). rewrite (Hs q Hq).
  pose proof ext_end as Hend. unfold n_end in Hend. simpl in Hend. by rewrite Hend.
Qed.

Lemma ext_n : mem + n - mem = n.
Proof. lia. Qed.

Lemma ext_heap : heap_ok (nd_of cs') R' (sl_of rs2).
Proof.
  destruct ext_slots as (Hs1 & Hs2 & _). pose proof (ro_size _ Hnew) as Hpos. simpl in Hpos.
  pose proof (append_heap_ok (nd_of (chunks_ s1)) R (sl_of (regions_ s1)) (sl_of rsB) (i_heap H1)
    last h (node_of cl) (region_ptr r0) mem (mem + n) ext_reg0 ext_wf ext_live_last dead_h
    ext_end Hln ltac:(lia) Hs1 Hs2) as Hheap.
  rewrite ext_n in Hheap.
  apply (restrict_heap_ok _ (nd_of cs') R' R' _ (sl_of rs2) Hheap); try done.
  - exact ext_slot_mem.
  - intros p j _ _. exact (ext_nd j).
Qed.

Lemma ext_live j :
  (exists m, live (nd_of cs') R' (sl_of rs2) j m) <->
  (exists m, live (nd_of (chunks_ s1)) R (sl_of (regions_ s1)) j m) \/ j = h.
Proof.
  destruct ext_slots as (Hs1 & Hs2 & _). pose proof (ro_size _ Hnew) as Hpos. simpl in Hpos.
  pose proof (append_live_iff (nd_of (chunks_ s1)) R (sl_of (regions_ s1)) (sl_of rsB) (i_heap H1)
    last h (node_of cl) (region_ptr r0) mem (mem + n) ext_reg0 ext_wf ext_live_last dead_h
    ext_end Hln ltac:(lia) Hs1 Hs2 j) as Hlive.
  rewrite ext_n in Hlive. rewrite <- Hlive.
  by setoid_rewrite (live_ext _ _ _ _ _ j _ ext_nd ext_slot_mem).
Qed.
End AsExtension.
End NewRegion.

(** ** The wp of add_region *)

Lemma sum_insert_region i a n rs :
  sum (memory_size <$> insert_region i (new_region a n) rs) = sum (memory_size <$> rs) + n.
Proof.
  unfold insert_region. rewrite <- (take_drop i rs) at 3.
  rewrite !fmap_app, fmap_cons. rewrite !sum_app. simpl. lia.
Qed.

Lemma sum_extend_region i n r0 rs :
  rs !! i = Some r0 -> memory_size (extend n r0) = memory_size r0 + n ->
  sum (memory_size <$> <[i := extend n r0]> rs) = sum (memory_size <$> rs) + n.
Proof.
  intros Hi Hm. rewrite (sum_insert _ _ _ r0) by done. lia.
Qed.

(** A chunk taken from the chunk vector of [s]. *)
Record spare {Sub} (R : Z -> Z -> Prop) (s : bfc Sub) (h : nat) (cn : Chunk) (s1 : bfc Sub) : Prop := {
  sp_inv : Inv R ∅ {[h]} s1;
  sp_chunk : chunks_ s1 !! h = Some cn;
  sp_free : in_use cn = false;
  sp_bin : bin_num cn = None;
  sp_old : forall k, k <> h -> chunks_ s1 !! k = chunks_ s !! k;
  sp_lv : forall k e, lv R (chunks_ s1) (regions_ s1) k e <-> lv R (chunks_ s) (regions_ s) k e;
  sp_rest : s1 = with_chunks (chunks_ s1) (with_free_list (free_chunks_list_ s1) s);
}.

Section AddRegionWp.
Context {Sub : Type} (R : Z -> Z -> Prop) (s : bfc Sub) (st : AllocatorStats) (mem n : Z).
Hypothesis H : Inv R ∅ ∅ s.
Hypothesis HR : reg_equiv (reg_of (regions_ s)) R.
Hypothesis Hap : apart (regions_ s) mem (mem + n).
Hypothesis Hnew : region_ok (new_region mem n).
Hypothesis Hused : bytes_in_use st = bytes_in_use (stats_ s).
Hypothesis Hpool : pool_bytes st = i64 (sum (memory_size <$> regions_ s) + n).

(** The state once the chunk of the block has its handle. *)
Definition placed_state (rs2 : list AllocationRegion) (h : nat) (cn : Chunk) (s1 : bfc Sub) : bfc Sub :=
  with_stats st (with_regions rs2 (with_chunks (<[h := block_chunk mem n cn]> (chunks_ s1)) s1)).

Lemma place_chunk_wp {A} d rs' (k : nat -> M Sub A) Q :
  regions_ok rs' -> grid (reg_of rs') mem ->
  (forall h cn s1 rs2, spare R s h cn s1 -> regions_ok rs2 -> extent <$> rs2 = extent <$> rs' ->
     (forall q, grid (reg_of rs') q -> sl_of rs2 q = set_sl (sl_of rs') mem (Some h) q) ->
     wp d (k h) (placed_state rs2 h cn s1) Q) ->
  wp d (h ← AllocateChunk; _ ← upd_chunk h (block_chunk mem n); _ ← set_handle mem (Some h); k h)
    (with_stats st (with_regions rs' s)) Q.
Proof.
  intros Hok Hg HQ. apply wp_bind, AllocateChunk_frame, (AllocateChunk_wp R ∅ d ∅ s); [done|].
  intros h cn s1 H1 _ _ Hcn Hu Hb Hold Hlv _ Hrest.
  apply wp_bind, (wp_upd _ _ _ cn); [done|].
  destruct (set_handle_spec rs' mem (Some h) Hok Hg) as (rs2 & Eset & Hok2 & He & Hsl).
  unfold set_handle. apply wp_bind, wp_bind, wp_gets. apply wp_bind, (wp_lift _ _ rs2); [exact Eset|].
  apply wp_modify. apply (HQ h cn s1 rs2); [|done..]. split; try done.
  apply (Inv_eq R ∅ ∅ ({[h]} ∪ ∅) {[h]} s1); [done|clear; set_solver|done].
Qed.

(** The block has been registered. *)
Record added (R' : Z -> Z -> Prop) (last : option nat) (h : nat) (s' : bfc Sub) : Prop := {
  ad_extended : extended R R' last s h s';
  ad_equiv : reg_equiv (reg_of (regions_ s')) R';
  ad_bytes : forall lo hi a, R' lo hi -> lo <= a < hi ->
    (exists lo' hi', R lo' hi' /\ lo' <= a < hi') \/ mem <= a < mem + n;
  ad_stats : stats_ s' = st;
}.

Section Placed.
Context (h : nat) (cn : Chunk) (s1 : bfc Sub) (rs2 : list AllocationRegion).
Hypothesis Hsp : spare R s h cn s1.
Hypothesis Hok2 : regions_ok rs2.

Lemma spare_regions : regions_ s1 = regions_ s.
Proof. rewrite (sp_rest _ _ _ _ _ Hsp). done. Qed.

Lemma placed_new :
  let rsA := insert_region (upper_bound mem (regions_ s)) (new_region mem n) (regions_ s) in
  extent <$> rs2 = extent <$> rsA ->
  (forall q, grid (reg_of rsA) q -> sl_of rs2 q = set_sl (sl_of rsA) mem (Some h) q) ->
  added (add_reg R mem (mem + n)) None h (placed_state rs2 h cn s1).
Proof.
  intros rsA Hext Hsl2. pose proof spare_regions as Er.
  assert (reg_equiv (reg_of (regions_ s1)) R) as HR1 by by rewrite Er.
  assert (apart (regions_ s1) mem (mem + n)) as Hap1 by by rewrite Er.
  unfold rsA in *. rewrite <- Er in Hext, Hsl2.
  pose proof (new_reg_equiv R s1 h mem n (sp_inv _ _ _ _ _ Hsp) HR1 Hap1 Hnew) as HRA.
  assert (reg_equiv (reg_of rs2) (add_reg R mem (mem + n))) as HR2.
  { rewrite (extent_reg_equiv _ _ Hext). by symmetry. }
  pose proof (new_fresh R s1 mem n HR1 Hap1 Hnew) as Hfresh.
  pose proof (lookup_lt_Some _ _ _ (sp_chunk _ _ _ _ _ Hsp)) as Hlt.
  assert (forall p, grid R p -> grid (add_reg R mem (mem + n)) p) as Hgrid.
  { intros p (lo & hi & Hr & ?). exists lo, hi. split; [by left|done]. }
  split; [|done| |done].
  - apply (register_extended R _ s s1 st h cn (block_chunk mem n cn) None _ rs2);
      try (apply Hsp); try done.
    + split_and!; [|done|].
      * apply (block_chunk_tag mem n None cn); apply Hsp.
      * exists mem, (mem + n). pose proof (ro_size _ Hnew) as Hpos. simpl in Hpos.
        split; [by right|]. split; [simpl; lia|]. simpl. rewrite Z.sub_diag. apply Z.divide_0_r.
    + by apply list_lookup_insert_eq.
    + intros j Hj. rewrite list_lookup_insert_ne by done. by destruct (chunks_ s1 !! j).
    + intros lo hi. by apply HR2.
    + apply (new_heap R s1 h cn mem n); done || apply Hsp.
    + apply (new_live R s1 h cn mem n); done || apply Hsp.
    + rewrite Hpool. f_equal. rewrite (extent_memory _ _ Hext), sum_insert_region. by rewrite Er.
  - intros lo hi a [Hr|[-> ->]] Ha; [left; by exists lo, hi|by right].
Qed.

(** The chunks on the way from the old state to the extended region. *)
Section PlacedExt.
Context (i : nat) (r0 : AllocationRegion) (last : nat) (cl : Chunk).
Hypothesis Hi : regions_ s !! i = Some r0.
Hypothesis He : end_ptr r0 = mem.
Let rsB := <[i := extend n r0]> (regions_ s).
Hypothesis Hext : extent <$> rs2 = extent <$> rsB.
Hypothesis Hsl2 : forall q, grid (reg_of rsB) q -> sl_of rs2 q = set_sl (sl_of rsB) mem (Some h) q.
Hypothesis Hlast : lv R (chunks_ s1) (regions_ s1) last cl.
Hypothesis Hlp : region_ptr r0 <= ptr cl < mem.
Hypothesis Hln : next cl = None.
Let R' := grow_reg R (region_ptr r0) (mem + n).
Let cs' := <[last := set_next (Some h) cl]>
  (<[h := set_prev (Some last) (block_chunk mem n cn)]> (chunks_ s1)).

Lemma placed_ne : last <> h.
Proof.
  intros E. destruct (i_D (sp_inv _ _ _ _ _ Hsp) h (proj2 (elem_of_singleton h h) eq_refl)) as (c & Hc & Hn). apply Hn.
  rewrite E in Hlast. by rewrite (lv_fun _ _ _ _ _ _ Hlast Hc).
Qed.

Lemma placed_chunks j : j <> h -> cs' !! j = relast (Some last) h j <$> chunks_ s1 !! j.
Proof.
  intros Hj. pose proof placed_ne as Hne. unfold relast, cs'.
  destruct (decide (j = last)) as [->|Hjl].
  - rewrite list_lookup_insert_eq by (rewrite length_insert; by apply (lv_valid _ _ _ _ _ Hlast)).
    rewrite (proj1 Hlast). simpl. by rewrite decide_True.
  - rewrite !list_lookup_insert_ne by done. destruct (chunks_ s1 !! j); simpl; [|done].
    by rewrite decide_False by congruence.
Qed.

Lemma placed_new_chunk : cs' !! h = Some (set_prev (Some last) (block_chunk mem n cn)).
Proof.
  unfold cs'. rewrite list_lookup_insert_ne by exact placed_ne. apply list_lookup_insert_eq.
  exact (lookup_lt_Some _ _ _ (sp_chunk _ _ _ _ _ Hsp)).
Qed.

Lemma placed_extended : added R' (Some last) h (with_stats st (with_regions rs2 (with_chunks cs' s1))).
Proof.
  pose proof spare_regions as Er.
  assert (reg_equiv (reg_of (regions_ s1)) R) as HR1 by by rewrite Er.
  assert (apart (regions_ s1) mem (mem + n)) as Hap1 by by rewrite Er.
  assert (regions_ s1 !! i = Some r0) as Hi1 by by rewrite Er.
  assert (forall q, grid (reg_of (<[i := extend n r0]> (regions_ s1))) q ->
    sl_of rs2 q = set_sl (sl_of (<[i := extend n r0]> (regions_ s1))) mem (Some h) q) as Hsl1
    by by rewrite Er.
  pose proof (ext_reg_equiv R s1 h mem n (sp_inv _ _ _ _ _ Hsp) HR1 Hap1 Hnew i r0 Hi1 He) as HRB.
  rewrite Er in HRB.
  assert (reg_equiv (reg_of rs2) R') as HR2.
  { rewrite (extent_reg_equiv _ _ Hext). by symmetry. }
  pose proof (ro_size _ Hnew) as Hpos. simpl in Hpos.
  pose proof (ext_reg0 R s1 mem HR1 i r0 Hi1 He) as Hr0.
  destruct (reg_size (hp_reg (i_heap H)) _ _ Hr0) as [Hb0 Hd0].
  assert (forall p, grid R p -> grid R' p) as Hgrid.
  { intros p (lo & hi & Hr & Hp & Hd). destruct (decide (lo = region_ptr r0)) as [->|Hlo].
    - exists (region_ptr r0), (mem + n). split; [by right|]. split; [|done].
      destruct (reg_same (hp_reg (i_heap H)) _ _ _ _ (region_ptr r0) Hr Hr0) as [_ ->]; lia.
    - exists lo, hi. split; [by left|done]. }
  split; [|done| |done].
  - apply (register_extended R _ s s1 st h cn (set_prev (Some last) (block_chunk mem n cn)) (Some last) _ rs2);
      try (apply Hsp); try done.
    + split_and!; [|done|].
      * apply (block_chunk_tag mem n (Some last) cn); apply Hsp.
      * exists (region_ptr r0), (mem + n). split; [by right|]. split; [simpl; lia|done].
    + exact placed_new_chunk.
    + exact placed_chunks.
    + intros lo hi. by apply HR2.
    + apply (ext_heap R s1 h cn mem n) with (i := i); done || apply Hsp.
    + apply (ext_live R s1 h cn mem n) with (i := i); done || apply Hsp.
    + intros k [= <-]. by exists cl.
    + rewrite Hpool. f_equal. rewrite (extent_memory _ _ Hext). unfold rsB.
      rewrite (sum_extend_region _ _ r0); [done..|].
      destruct (extend_ok r0 n) as [-> _]; [by apply (region_ok_nth (regions_ s) i), Hi; apply (i_regs H)|done|..].
      * apply (ro_div _ Hnew).
      * rewrite He. apply (ro_max _ Hnew).
      * done.
  - intros lo hi a [[Hr Hlo]|[-> ->]] Ha; [left; by exists lo, hi|].
    destruct (Z.lt_ge_cases a mem); [left|right; lia]. exists (region_ptr r0), mem. split; [done|lia].
Qed.
End PlacedExt.

(** The first chunk of the region that was extended. *)
Lemma first_chunk i r0 :
  regions_ s !! i = Some r0 -> end_ptr r0 = mem ->
  let rsB := <[i := extend n r0]> (regions_ s) in
  extent <$> rs2 = extent <$> rsB ->
  (forall q, grid (reg_of rsB) q -> sl_of rs2 q = set_sl (sl_of rsB) mem (Some h) q) ->
  exists r2 first m, rs2 !! i = Some r2 /\
    handle_at (handles_ r2) (IndexFor r2 (region_ptr r2)) = OK (Some first) /\
    R (region_ptr r0) mem /\ region_ptr r0 < mem /\
    live (nd_of (chunks_ s1)) R (sl_of (regions_ s1)) first m /\ n_ptr m = region_ptr r0.
Proof.
  intros Hi He rsB Hext Hsl2. pose proof spare_regions as Er.
  pose proof (ext_reg0 R s mem HR i r0 Hi He) as Hr0.
  destruct (reg_size (hp_reg (i_heap H)) _ _ Hr0) as [Hb0 _].
  destruct (extend_region_spec _ _ _ _ _ (i_regs H) Hap Hnew Hi He) as (HregB & HslB & _).
  fold rsB in HregB, HslB. pose proof (lookup_lt_Some _ _ _ Hi) as Hilt.
  assert (exists r2, rs2 !! i = Some r2 /\ region_ptr r2 = region_ptr r0) as (r2 & Hr2 & Ep).
  { assert ((extent <$> rs2) !! i = Some (extent (extend n r0))) as Hx.
    { rewrite Hext, list_lookup_fmap. unfold rsB. by rewrite list_lookup_insert_eq. }
    rewrite list_lookup_fmap in Hx. apply fmap_Some in Hx as (r2 & Hr2 & Hx). exists r2.
    split; [done|]. by injection Hx. }
  pose proof (grid_lo (i_heap H) _ _ Hr0) as Hg0.
  assert (grid (reg_of (regions_ s)) (region_ptr r0)) as Hg by by rewrite HR.
  destruct (hp_first (i_heap H) _ _ Hr0) as [first Hfirst].
  assert (sl_of rs2 (region_ptr r0) = Some first) as Hf2.
  { rewrite Hsl2, <- Hfirst.
    - unfold set_sl. rewrite decide_False by lia. by apply HslB.
    - exists (region_ptr r0), (mem + n). pose proof (ro_size _ Hnew) as Hpos. simpl in Hpos.
      split; [apply HregB; by right|]. split; [lia|]. rewrite Z.sub_diag. apply Z.divide_0_r. }
  assert (cell rs2 (region_ptr r2) i r2 0) as Hcell.
  { pose proof (region_ok_nth _ _ _ Hok2 Hr2) as [_ Hs2 _ _ _ Hh2]. unfold Zlen in Hh2.
    split_and!; [done|lia|lia]. }
  rewrite <- Er in Hfirst. pose proof (sp_inv _ _ _ _ _ Hsp) as H1.
  destruct (slot_live (i_heap H1) _ _ Hg0 Hfirst) as (m & Hm & Hpm).
  exists r2, first, m. split_and!; try done; [|lia].
  by rewrite (cell_handle_at _ _ _ _ _ Hok2 Hcell), Ep, Hf2.
Qed.

(** The walk over the region that was extended. *)
Lemma walk_wp {A} d i r0 (k : nat -> M Sub A) Q :
  regions_ s !! i = Some r0 -> end_ptr r0 = mem ->
  let rsB := <[i := extend n r0]> (regions_ s) in
  extent <$> rs2 = extent <$> rsB ->
  (forall q, grid (reg_of rsB) q -> sl_of rs2 q = set_sl (sl_of rsB) mem (Some h) q) ->
  (forall last cl, lv R (chunks_ s1) (regions_ s1) last cl -> region_ptr r0 <= ptr cl < mem ->
     next cl = None -> wp d (k last) (placed_state rs2 h cn s1) Q) ->
  wp d (r ← (rs ← gets regions_; nth_ rs i);
        first ← lift (handle_at (handles_ r) (IndexFor r (region_ptr r)));
        first ← lift (match first with Some k => OK k | None => Crash end);
        n ← gets (fun s => length (chunks_ s));
        last ← last_chunk (S n) first;
        k last) (placed_state rs2 h cn s1) Q.
Proof.
  intros Hi He rsB Hext Hsl2 HQ.
  destruct (first_chunk i r0 Hi He Hext Hsl2) as (r2 & first & m & Hr2 & Hh & Hr0 & Hlt & Hm & Hpm).
  apply wp_bind, wp_bind, wp_gets, (wp_nth _ _ _ r2); [done|].
  apply wp_bind, (wp_lift _ _ (Some first)); [done|]. apply wp_bind, (wp_lift _ _ first); [done|].
  apply wp_bind, wp_gets.
  assert (length (chunks_ (placed_state rs2 h cn s1)) = length (chunks_ s1)) as ->
    by apply length_insert.
  assert (forall j mj, live (nd_of (chunks_ s1)) R (sl_of (regions_ s1)) j mj ->
    nd_of (<[h := block_chunk mem n cn]> (chunks_ s1)) j = Some mj) as Hnodes.
  { intros j mj Hj. assert (j <> h) as Hne.
    { intros ->. by apply (dead_h R s1 h (sp_inv _ _ _ _ _ Hsp) mj). }
    unfold nd_of. rewrite list_lookup_insert_ne by done. apply Hj. }
  apply wp_bind, (last_chunk_wp (nd_of (chunks_ s1)) R (sl_of (regions_ s1)) (length (chunks_ s1))
    (i_heap (sp_inv _ _ _ _ _ Hsp))) with (lo := region_ptr r0) (hi := mem) (V := []) (m := m); try done.
  - intros j mj (c & Hl & _)%live_lv. by apply (lv_valid _ _ _ _ _ Hl).
  - lia.
  - apply behind_nil.
  - intros last m' (cl & Hcl & ->)%live_lv Hp Hn. by apply (HQ last cl).
Qed.
End Placed.

Lemma add_region_wp cfg d Q :
  (forall R' last h s', added R' last h s' ->
     wp d (h' ← TryToCoalesce h false; InsertFreeChunkIntoBin h') s' Q) ->
  wp d (add_region cfg mem n) (with_stats st s) Q.
Proof.
  intros HQ. unfold add_region. apply wp_bind, wp_gets.
  change (regions_ (with_stats st s)) with (regions_ s).
  set (choice := if coalesce_regions_ cfg then _ else _).
  assert (match fst choice with
    | None => snd choice = insert_region (upper_bound mem (regions_ s)) (new_region mem n) (regions_ s)
    | Some i => exists r0, regions_ s !! i = Some r0 /\ end_ptr r0 = mem /\
        snd choice = <[i := extend n r0]> (regions_ s) end) as Hchoice.
  { unfold choice. destruct (coalesce_regions_ cfg); [|done].
    destruct (AddOrExtendAllocationRegion mem n (regions_ s)) as [x rs'] eqn:Ex.
    exact (AddOrExtend_spec _ _ _ _ _ (i_regs H) Hap Hnew Ex). }
  destruct choice as [[i|] rs']; simpl in Hchoice; apply wp_bind, wp_modify.
  - destruct Hchoice as (r0 & Hi & He & ->).
    pose proof (ext_reg0 R s mem HR i r0 Hi He) as Hr0.
    destruct (reg_size (hp_reg (i_heap H)) _ _ Hr0) as [Hb0 Hd0].
    apply (place_chunk_wp d (<[i := extend n r0]> (regions_ s)) (fun h => _)).
    + by apply (extend_regions_ok _ _ _ _ _ (i_regs H) Hap Hnew Hi He).
    + destruct (extend_region_spec _ _ _ _ _ (i_regs H) Hap Hnew Hi He) as (Hr & _).
      exists (region_ptr r0), (mem + n). pose proof (ro_size _ Hnew) as Hpos. simpl in Hpos.
      split; [apply Hr; by right|]. split; [lia|done].
    + intros h cn s1 rs2 Hsp Hok2 Hext Hsl2. apply wp_bind.
      apply (walk_wp h cn s1 rs2 Hsp Hok2 d i r0 (fun last => _ ← upd_chunk h (set_prev (Some last));
        upd_chunk last (set_next (Some h))) _ Hi He Hext Hsl2).
      intros last cl Hl Hp Hn. pose proof (lookup_lt_Some _ _ _ (sp_chunk _ _ _ _ _ Hsp)) as Hh.
      pose proof (placed_ne h cn s1 Hsp last cl Hl) as Hne.
      apply wp_bind, (wp_upd _ _ _ (block_chunk mem n cn)); [by apply list_lookup_insert_eq|].
      simpl. rewrite list_insert_insert_eq. apply (wp_upd _ _ _ cl).
      { simpl. rewrite list_lookup_insert_ne by done. apply Hl. }
      eapply HQ. by apply (placed_extended h cn s1 rs2 Hsp Hok2 i r0 last cl).
  - subst rs'. apply (place_chunk_wp d _ (fun h => _)).
    + by apply (insert_region_ok _ _ _ (i_regs H) Hap Hnew).
    + destruct (insert_region_spec _ _ _ (i_regs H) Hap Hnew) as (Hr & _).
      exists mem, (mem + n). pose proof (ro_size _ Hnew) as Hpos. simpl in Hpos.
      split; [apply Hr; by right|]. split; [lia|]. rewrite Z.sub_diag. apply Z.divide_0_r.
    + intros h cn s1 rs2 Hsp Hok2 Hext Hsl2. apply wp_bind, wp_ret.
      eapply HQ. by apply placed_new.
Qed.
End AddRegionWp.

