(* ===== verification/BfcExtend.v ===== *)
(** * Timestamps of freed chunks, and the extension of the pool. *)

From Stdlib Require Import ZArith Lia Setoid Morphisms.
From S2P Require Import Prelude MachineInt BfcAllocator BfcHeap BfcRegions BfcInv BfcOps BfcCoalesce BfcFree BfcSub.
From S2P Require Import BfcRegister.

(** ** Chunks freed under a timing counter

    MergeTimestampedChunks of xla/tsl/framework/bfc_allocator.cc.  A chunk freed
    while a timing counter is installed is not coalesced at once: it is put on
    [timestamped_chunks_], and merged with its neighbours once the safe frontier
    has passed it, or when an allocation needs the memory. *)

(** What a merge changes is out of sight. *)
Record hidden {Sub} (R : Z -> Z -> Prop) (s s' : bfc Sub) : Prop := {
  hd_extent : extent <$> regions_ s' = extent <$> regions_ s;
  hd_used : forall k a, used R s' k a <-> used R s k a;
  hd_sub : sub_allocator_ s' = sub_allocator_ s;
  hd_timing : timing_counter_ s' = timing_counter_ s;
  hd_curr : curr_region_allocation_bytes_ s' = curr_region_allocation_bytes_ s;
  hd_next : next_allocation_id_ s' = next_allocation_id_ s;
}.

#[export] Instance hidden_preorder {Sub} R : PreOrder (@hidden Sub R).
Proof.
  split; [by intros s|]. intros s1 s2 s3 [E1 U1 ????] [E2 U2 ????].
  split; try congruence. intros k a. by rewrite U2.
Qed.

Section Timestamps.
Context {Sub : Type} (R : Z -> Z -> Prop).
Implicit Types s : bfc Sub.

Lemma internal_hidden s s' : internal R s s' -> hidden R s s'.
Proof.
  intros Hi. destruct (internal_timestamped _ _ _ Hi) as (E1 & E2 & E3 & E4 & E5 & E6 & E7).
  split; [apply Hi|apply Hi|done..].
Qed.

Lemma hidden_timestamped s q : hidden R s (with_timestamped q s).
Proof. done. Qed.

(** The chunks of the queue are where they were put. *)
Definition on_grid s (q : list nat) : Prop :=
  forall h, h ∈ q -> exists c, chunks_ s !! h = Some c /\ grid R (ptr c).

Lemma internal_on_grid s s' q : internal R s s' -> on_grid s q -> on_grid s' q.
Proof.
  intros Hi Hq h Hh. destruct (Hq h Hh) as (c & Hc & Hg). by apply (in_grid _ _ _ Hi h c).
Qed.

Lemma on_grid_live s h c : live_chunk R s h c -> on_grid s [h].
Proof. intros Hl k ->%list_elem_of_singleton. exists c. split; apply Hl. Qed.

Lemma on_grid_app s q1 q2 : on_grid s q1 -> on_grid s q2 -> on_grid s (q1 ++ q2).
Proof. intros H1 H2 h [Hh|Hh]%elem_of_app; auto. Qed.

(** No allocation starts at these addresses. *)
Definition not_used s (ps : list Z) : Prop :=
  forall p, p ∈ ps -> grid R p /\ forall h c, live_chunk R s h c -> ptr c = p -> in_use c = false.

Lemma not_used_hidden s s' ps : hidden R s s' -> not_used s ps -> not_used s' ps.
Proof.
  intros Hh Hn p Hp. destruct (Hn p Hp) as [Hg Hu]. split; [done|]. intros h c Hl Ep.
  destruct (in_use c) eqn:E; [|done].
  destruct (proj1 (hd_used _ _ _ Hh h (core c))) as (c0 & Hl0 & Hu0 & Ec); [by exists c|].
  rewrite <- (Hu h c0); [done..|]. unfold core in Ec. congruence.
Qed.

(** *** The sweep *)

Lemma touch s h c v :
  Inv R ∅ ∅ s -> live_chunk R s h c -> in_use c = false ->
  let s' := with_chunks (<[h := set_freed_at_count v c]> (chunks_ s)) s in
  Inv R ∅ ∅ s' /\ internal R s s'.
Proof.
  intros H Hl Hu s'. split.
  2: { pose proof (internal_update R s h c (set_freed_at_count v c) (bins_ s) (proj1 Hl) Hu Hu eq_refl) as Hi.
       by destruct s. }
  apply (Inv_eq R ((∅ ∖ ∅) ∪ ∅) ∅ ((∅ ∖ ∅) ∪ ∅) ∅); [set_solver..|].
  apply (Inv_surgery R R ∅ ∅ ∅ ∅ s s' H); simpl; try done.
  - exact (i_regs H).
  - exact (i_sub H).
  - apply (heap_ok_ext (nd_of (chunks_ s))); [|exact (i_heap H)].
    by apply (nd_of_same _ _ c); [apply Hl|].
  - intros j. rewrite lookup_insert_decide by (by apply (lv_valid _ _ _ _ _ Hl)).
    case_decide as E; [|done]. subst j. by rewrite (proj1 Hl).
  - intros j. setoid_rewrite (lv_update R (chunks_ s) (regions_ s) h c _ j); [|apply Hl|done]. split.
    + intros [e [(-> & _ & He)|[_ He]]]; left; (split; [by eexists|set_solver]).
    + intros [[[e He] _]|Hj]; [|set_solver].
      destruct (decide (j = h)) as [->|Hj]; [eexists; by left|exists e; by right].
  - intros j e He Hn _. destruct (decide (j = h)) as [->|Hj]; [|by rewrite list_lookup_insert_ne].
    exfalso. apply Hn. by rewrite (lv_fun _ _ _ _ _ _ Hl He).
  - exact (i_pool H).
Qed.

Lemma sweep_wp d req q s Q :
  Inv R ∅ ∅ s -> on_grid s q ->
  (forall s' r, Inv R ∅ ∅ s' -> internal R s s' -> not_used s' (fst r) -> on_grid s' (snd r) -> Q r s') ->
  wp d (sweep_timestamped req q) s Q.
Proof.
  revert s Q. induction q as [|h q IH]; intros s Q H Hq HQ; simpl.
  { apply wp_ret, HQ; try done; intros k Hk; by apply not_elem_of_nil in Hk. }
  assert (on_grid s q) as Hq' by (intros k Hk; apply Hq; by right).
  destruct (Hq h) as (c & Hc & Hg); [by left|].
  apply wp_bind, (wp_chunk _ _ c); [done|].
  apply wp_bind, (get_handle_wp R _ ∅ ∅); [done..|].
  destruct (sl_of (regions_ s) (ptr c)) as [h'|] eqn:Es; [|by apply IH].
  destruct (in_use c || bool_decide (bin_num c = None)) eqn:Eb; [by apply IH|].
  apply orb_false_iff in Eb as [Hu Hb%bool_decide_eq_false].
  assert (live_chunk R s h c) as Hl.
  { destruct (decide (sl_of (regions_ s) (ptr c) = Some h)) as [E|E]; [done|].
    exfalso. apply Hb. apply (i_dead H h c Hc); [|set_solver]. intros (_ & _ & Hs). done. }
  assert (h' = h) as -> by (destruct Hl as (_ & _ & Hs); congruence).
  assert (forall s', internal R s s' -> Inv R ∅ ∅ s' -> not_used s' [ptr c]) as Hthis.
  { intros s' Hi _ p ->%list_elem_of_singleton. split; [done|]. intros k e Hk Ep.
    destruct (in_use e) eqn:E; [|done].
    destruct (proj1 (in_used _ _ _ Hi k (core e))) as (c0 & Hl0 & Hu0 & Ec); [by exists e|].
    exfalso. assert (k = h) as ->.
    { destruct Hl0 as (_ & _ & Hs0), Hl as (_ & _ & Hs). unfold core in Ec. congruence. }
    pose proof (lv_fun _ _ _ _ _ _ Hl0 Hc) as ->. congruence. }
  assert (forall s1, Inv R ∅ ∅ s1 -> internal R s s1 ->
    wp d (r ← sweep_timestamped req q; mret (ptr c :: fst r, snd r)) s1 Q) as Hadd.
  { intros s1 H1 Hi1. apply wp_bind, IH; [done|by apply (internal_on_grid s)|].
    intros s' r H' Hi' Hn Ho. apply wp_ret, HQ; [done|by etrans| |done].
    intros p [->|Hp]%elem_of_cons; [|by apply Hn].
    apply (Hthis s'); [by etrans|done|by left]. }
  destruct (freed_at_count c =? 0); [by apply Hadd|]. apply wp_bind, wp_gets.
  destruct (freed_at_count c <? safe_frontier_ s).
  { apply wp_bind, (wp_upd _ _ _ c); [done|]. destruct (touch s h c 0 H Hl Hu). by apply Hadd. }
  destruct (0 <? req); [by apply Hadd|].
  apply wp_bind, IH; [done..|]. intros s' r H' Hi' Hn Ho. apply wp_ret, HQ; try done.
  simpl. change (h :: snd r) with ([h] ++ snd r). apply on_grid_app; [|done].
  apply (internal_on_grid s); [done|]. by apply (on_grid_live s h c).
Qed.

(** *** Merging the candidates *)

(** One candidate leaves its bin, is merged and put back. *)
Lemma merge_one_wp {A} d s h c ign (k : nat -> M Sub A) Q :
  Inv R ∅ ∅ s -> live_chunk R s h c -> in_use c = false ->
  (forall h' s', Inv R ∅ ∅ s' -> internal R s s' -> (exists c', live_chunk R s' h' c') ->
     wp d (k h') s' Q) ->
  wp d (_ ← RemoveFreeChunkFromBin h; new_h ← TryToCoalesce h ign;
        _ ← InsertFreeChunkIntoBin new_h; k new_h) s Q.
Proof.
  intros H Hl Hu HQ. pose proof (i_live H h c Hl) as Hb.
  rewrite Hu, decide_False in Hb by apply not_elem_of_empty.
  apply wp_bind, (RemoveFreeChunkFromBin_wp R ∅ ∅ d s h c (BinNumForSize (size c))); [done|apply Hl|done|].
  intros bins' s1 H1 _. specialize (H1 Hl).
  assert (Inv R {[h]} ∅ s1) as H1' by (apply (Inv_eq R ({[h]} ∪ ∅) _ ∅ ∅); [set_solver|done|done]).
  pose proof (internal_update R s h c (set_bin_num None c) bins' (proj1 Hl) Hu Hu eq_refl) as Hi1.
  fold s1 in Hi1. apply wp_bind, (TryToCoalesce_wp R d s1 h); [done|]. intros h' s2 H2 Hi2 _ _.
  destruct (under_way R s2 h' H2) as (c2 & Hl2 & _).
  apply wp_bind, (Insert_last_wp R d s2 h'); [done|]. intros s3 H3 Hi3 _ _ Hlive.
  destruct (Hlive h' c2 Hl2) as [b Hb3].
  apply HQ; [done| |by eexists]. etrans; [exact Hi1|]. by etrans.
Qed.

Lemma merge_candidates_wp d req sat ps s Q :
  Inv R ∅ ∅ s -> ts_ok R s -> not_used s ps ->
  (forall b s', Inv R ∅ ∅ s' -> ts_ok R s' -> hidden R s s' -> Q b s') ->
  wp d (merge_candidates req sat ps) s Q.
Proof.
  revert sat s Q. induction ps as [|p ps IH]; intros sat s Q H Ht Hn HQ; simpl.
  { by apply wp_ret, HQ. }
  assert (not_used s ps) as Hn' by (intros x Hx; apply Hn; by right).
  destruct (Hn p) as [Hg Hfree]; [by left|].
  apply wp_bind, (get_handle_wp R _ ∅ ∅); [done..|].
  destruct (sl_of (regions_ s) p) as [h|] eqn:Es; [|by apply IH].
  assert (exists c, live_chunk R s h c /\ ptr c = p) as (c & Hl & Ep).
  { destruct (slot_live (i_heap H) p h Hg Es) as (n & (c & Hl & ->)%live_lv & Hp). by exists c. }
  assert (forall q s1, Inv R ∅ ∅ s1 -> ts_ok R s1 -> hidden R s s1 -> on_grid s1 q -> forall sat,
    wp d (merge_candidates req sat ps) (with_timestamped (timestamped_chunks_ s1 ++ q) s1) Q) as Hqueue.
  { intros q s1 H1 Ht1 Hh1 Hq sat'.
    assert (hidden R s (with_timestamped (timestamped_chunks_ s1 ++ q) s1)) as Hh2 by
      (etrans; [exact Hh1|apply hidden_timestamped]).
    apply IH; [by destruct H1|by apply on_grid_app|by apply (not_used_hidden s)|].
    intros b s' H' Ht' Hh'. apply HQ; [done..|by etrans]. }
  destruct ((req =? 0) || negb sat) eqn:Ec.
  - apply (merge_one_wp d s h c _ (fun h' => _)); [done..|by apply (Hfree h)|].
    intros h' s1 H1 Hi1 [c1 Hl1]. pose proof (internal_ts R _ _ Hi1 Ht) as Ht1.
    assert (forall sat', wp d (merge_candidates req sat' ps) s1 Q) as Hgo.
    { intros sat'. apply IH; [done..|apply (not_used_hidden s); [by apply internal_hidden|done]|].
      intros b s' H' Ht' Hh'. apply HQ; [done..|]. etrans; [by apply internal_hidden|done]. }
    destruct (0 <? req); [|apply Hgo].
    apply wp_bind, (wp_chunk _ _ c1); [apply Hl1|]. apply wp_bind.
    destruct (negb (h' =? h)%nat && (0 <? freed_at_count c1)); [|apply wp_ret, Hgo].
    apply wp_modify, Hqueue; [done..|by apply internal_hidden|by apply (on_grid_live s1 h' c1)].
  - apply wp_bind, wp_modify, Hqueue; [done..|by apply (on_grid_live s h c)].
Qed.

(** MergeTimestampedChunks never fails, and what it does is hidden. *)
Lemma MergeTimestampedChunks_wp d req s Q :
  Good R s -> timing_counter_ s <> None ->
  (forall b s', Good R s' -> hidden R s s' -> Q b s') ->
  wp d (MergeTimestampedChunks req) s Q.
Proof.
  intros HG Ht HQ. unfold MergeTimestampedChunks. apply wp_bind, wp_gets.
  apply wp_bind, sweep_wp; [apply HG..|]. intros s1 [ps q] H1 Hi1 Hn Ho. simpl in Hn, Ho.
  apply wp_bind, wp_modify.
  apply merge_candidates_wp; [by destruct H1|done|done|].
  intros b s' H' Ht' Hh'.
  assert (hidden R s s') as Hh.
  { etrans; [by apply internal_hidden|]. by transitivity (with_timestamped q s1). }
  apply HQ; [|done]. split; [done..|rewrite (hd_curr _ _ _ Hh); apply HG|].
  intros E. rewrite (hd_timing _ _ _ Hh) in E. done.
Qed.
End Timestamps.

(** ** Extending the allocator by a region

    Extend of xla/tsl/framework/bfc_allocator.cc: the states between two calls,
    what a client sees of them, and that Extend keeps both. *)

(** ** Extend *)

(** The state of the allocator between two calls, with its own regions, all of
    them memory that the sub-allocator handed out. *)
Definition regs {Sub} (s : bfc Sub) : Z -> Z -> Prop := reg_of (regions_ s).

Record Ok {Sub} `{SubAllocatorLaws Sub} (s : bfc Sub) : Prop := {
  ok_good : Good (regs s) s;
  ok_own : own_ok (regs s) (sub_allocator_ s);
}.

(** What a client cannot tell apart: the allocations and the ids to come. *)
Record kept {Sub} (s s' : bfc Sub) : Prop := {
  kp_used : forall k a, used (regs s') s' k a <-> used (regs s) s k a;
  kp_timing : timing_counter_ s' = timing_counter_ s;
  kp_next : next_allocation_id_ s' = next_allocation_id_ s;
}.

#[export] Instance kept_preorder {Sub} : PreOrder (@kept Sub).
Proof.
  split; [by intros s|]. intros s1 s2 s3 [U1 T1 N1] [U2 T2 N2].
  split; [intros k a; by rewrite U2|congruence..].
Qed.

Lemma Inv_frame {Sub} R X D (s s' : bfc Sub) :
  chunks_ s' = chunks_ s -> free_chunks_list_ s' = free_chunks_list_ s -> regions_ s' = regions_ s ->
  bins_ s' = bins_ s -> next_allocation_id_ s' = next_allocation_id_ s ->
  bytes_in_use (stats_ s') = bytes_in_use (stats_ s) -> pool_bytes (stats_ s') = pool_bytes (stats_ s) ->
  Inv R X D s -> Inv R X D s'.
Proof.
  intros E1 E2 E3 E4 E5 E6 E7 H. destruct H.
  split; rewrite ?E1, ?E2, ?E3, ?E4, ?E5, ?E6, ?E7; assumption.
Qed.

(** Any assignment to the size of the next region, the sub-allocator or the
    other statistics. *)
Lemma Good_frame {Sub} R (s s' : bfc Sub) :
  chunks_ s' = chunks_ s -> free_chunks_list_ s' = free_chunks_list_ s -> regions_ s' = regions_ s ->
  bins_ s' = bins_ s -> next_allocation_id_ s' = next_allocation_id_ s ->
  bytes_in_use (stats_ s') = bytes_in_use (stats_ s) -> pool_bytes (stats_ s') = pool_bytes (stats_ s) ->
  timestamped_chunks_ s' = timestamped_chunks_ s -> timing_counter_ s' = timing_counter_ s ->
  (256 | curr_region_allocation_bytes_ s') -> Good R s -> Good R s'.
Proof.
  intros E1 E2 E3 E4 E5 E6 E7 E8 E9 Hc [G1 G2 G3 G4]. split; [by apply (Inv_frame R ∅ ∅ s)| |done|].
  - unfold ts_ok. by rewrite E8, E1.
  - unfold quiet, NoAdj, live_chunk. rewrite E1, E3, E8, E9. exact G4.
Qed.

Section ExtendWp.
Context {Sub : Type} `{SL : SubAllocatorLaws Sub}.
Implicit Types s : bfc Sub.

(** From the registration of a block to the end of the call. *)
Lemma coalesce_added_wp d R s st mem n R' last h s1 Q :
  Good R s -> added R s st mem n R' last h s1 ->
  (forall s2, Good R' s2 -> reg_equiv (regs s2) R' ->
     (forall k a, used R' s2 k a <-> used R s k a) ->
     sub_allocator_ s2 = sub_allocator_ s -> timing_counter_ s2 = timing_counter_ s ->
     next_allocation_id_ s2 = next_allocation_id_ s -> Q () s2) ->
  wp d (h' ← TryToCoalesce h false; InsertFreeChunkIntoBin h') s1 Q.
Proof.
  intros HG [HE Heq _ _] HQ. destruct (ex_rest _ _ _ _ _ _ HE) as (Ets & Etm & Esub & Ecurr).
  apply wp_bind, (TryToCoalesce_wp R' d s1 h); [apply HE|]. intros h' s2 H2 Hint Hq2 HA2.
  apply (Insert_last_wp R' d s2 h'); [done|]. intros s3 H3 Hint3 Hq3 HA3 _.
  pose proof (transitivity Hint Hint3) as Hint'.
  destruct (internal_timestamped _ _ _ Hint') as (E1 & E2 & E3 & E4 & _ & E6 & _).
  pose proof (ex_next _ _ _ _ _ _ HE) as Enext.
  apply HQ; try congruence.
  - split; [done| | |].
    + apply (internal_ts R' s1); [done|]. apply (extended_ts _ _ _ _ _ _ HE), HG.
    + rewrite E4, Ecurr. apply HG.
    + intros Ht. destruct (g_timing HG) as (Hqs & HAs & Etq); [congruence|].
      split_and!; [|  |congruence].
      * apply Hq3, Hq2, (extended_quiet _ _ _ _ _ _ HE Hqs).
      * apply HA3, HA2; [apply (extended_quiet _ _ _ _ _ _ HE Hqs)|apply (extended_NoAdj _ _ _ _ _ _ HE HAs)].
  - rewrite <- Heq. apply extent_reg_equiv. exact (in_extent _ _ _ Hint').
  - intros k a. rewrite (in_used _ _ _ Hint'). apply (extended_used _ _ _ _ _ _ HE).
Qed.

Lemma Ok_frame s s' :
  chunks_ s' = chunks_ s -> free_chunks_list_ s' = free_chunks_list_ s -> regions_ s' = regions_ s ->
  bins_ s' = bins_ s -> next_allocation_id_ s' = next_allocation_id_ s ->
  bytes_in_use (stats_ s') = bytes_in_use (stats_ s) -> pool_bytes (stats_ s') = pool_bytes (stats_ s) ->
  timestamped_chunks_ s' = timestamped_chunks_ s -> timing_counter_ s' = timing_counter_ s ->
  (256 | curr_region_allocation_bytes_ s') -> (forall a, owns (sub_allocator_ s) a -> owns (sub_allocator_ s') a) ->
  Ok s -> Ok s' /\ kept s s'.
Proof.
  intros E1 E2 E3 E4 E5 E6 E7 E8 E9 Hc Hsub [HG Ho]. split; split.
  - unfold regs. rewrite E3. by apply (Good_frame _ s).
  - unfold regs. rewrite E3. intros lo hi a Hr Ha. apply Hsub. exact (Ho lo hi a Hr Ha).
  - intros k a. unfold used, regs. by rewrite E1, E3.
  - done.
  - done.
Qed.

(** The second half of Extend: a block was received. *)
Lemma Extend_block_wp d cfg s sub0 rounded p r inc Q :
  Ok s -> 0 < rounded -> own_ok (regs s) sub0 ->
  block_ok sub0 rounded p r (sub_allocator_ s) ->
  (forall s', Ok s' -> kept s s' -> Q true s') ->
  wp d (_ ← (if inc : bool then mret () else
                 modify (fun s => with_curr (u64 (curr_region_allocation_bytes_ s * 2)) s));
           _ ← modify (fun s => let st := stats_ s in
                let pool := add64 (pool_bytes st) r in with_stats
                (mkStats (num_allocs st) (bytes_in_use st) (peak_bytes_in_use st)
                   (largest_alloc_size st) pool (Z.max pool (peak_pool_bytes st))) s);
           _ ← add_region cfg p r;
           mret true) s Q.
Proof.
  intros Hs Hr Ho0 Hb HQ.
  assert (wp d (if inc then mret () else
      modify (fun s => with_curr (u64 (curr_region_allocation_bytes_ s * 2)) s)) s
      (fun _ s1 => exists c, s1 = with_curr c s /\ (256 | c))) as Hcurr.
  { pose proof (g_curr (ok_good _ Hs)) as Hc. destruct inc.
    - exists (curr_region_allocation_bytes_ s). split; [by destruct s|done].
    - eexists. split; [done|]. apply u64_divide. by apply Z.divide_mul_l. }
  apply wp_bind. apply (wp_mono _ _ _ _ _ Hcurr). intros [] s1 (c & -> & Hc). clear Hcurr.
  destruct (Ok_frame s (with_curr c s)) as [[HG1 Ho1] Hk1]; try done.
  apply wp_bind, wp_modify. cbn zeta. apply wp_bind.
  destruct Hb as ((Hp & Hrr & Hdr & Hmax) & Hfresh & Hown).
  assert (apart (regions_ s) p (p + r)) as Hap.
  { intros lo hi x Hlh Hx Hpx. apply (Hfresh x Hpx). exact (Ho0 lo hi x Hlh Hx). }
  pose proof (new_region_ok p r Hp ltac:(lia) Hdr Hmax) as Hnew.
  apply (add_region_wp (regs s) (with_curr c s) _ p r (g_inv HG1)); try done.
  { simpl. pose proof (i_pool (g_inv HG1)) as Ep. simpl in Ep. rewrite Ep. apply add64_i64. }
  intros R' last h s2 Had. apply (coalesce_added_wp _ _ _ _ _ _ _ _ _ _ _ HG1 Had).
  intros s3 HG3 Heq Hu Esub Etm Enx. apply wp_ret, HQ; split.
  - by rewrite Heq.
  - rewrite Esub. intros lo hi a Hlh%Heq Ha. apply Hown.
    destruct (ad_bytes _ _ _ _ _ _ _ _ _ Had lo hi a Hlh Ha) as [(lo' & hi' & Hr' & Ha')|Ha']; [left|by right].
    exact (Ho0 lo' hi' a Hr' Ha').
  - intros k a. rewrite Heq. apply Hu.
  - exact Etm.
  - exact Enx.
Qed.

Lemma grow_region_result fuel r curr inc :
  match grow_region fuel r curr inc with OK _ | NoFuel => True | _ => False end.
Proof.
  revert curr inc. induction fuel as [|fuel IH]; intros curr inc; simpl; [done|].
  destruct (curr <? r); [apply IH|done].
Qed.

(** When Extend is sure to return. *)
Definition extends (d : bool) (cfg : Config) (fuel : nat) (rounded : Z) s : Prop :=
  d = true \/ (2560 <= rounded <= two63 /\ 0 < curr_region_allocation_bytes_ s /\ (64 <= fuel)%nat /\
    u64 (memory_limit_ cfg - pool_bytes (stats_ s)) <= 256 * Z.of_nat fuel).

Lemma Extend_wp d cfg fuel al rounded s Q :
  Ok s -> 0 < rounded -> (256 | rounded) -> extends d cfg fuel rounded s ->
  (forall b s', Ok s' -> kept s s' -> Q b s') ->
  wp d (Extend cfg fuel al rounded) s Q.
Proof.
  intros Hs Hr Hd Hext HQ. unfold Extend. apply wp_bind, wp_gets.
  set (all := u64 (memory_limit_ cfg - pool_bytes (stats_ s))).
  assert (0 <= all < two64) as Hall by apply u64_range.
  set (avail := all / kMinAllocationSize * kMinAllocationSize).
  assert (0 <= avail <= all) as Havail.
  { unfold avail, kMinAllocationSize. pose proof (Z.mul_div_le all 256). pose proof (Z.div_pos all 256). lia. }
  destruct (Z.ltb_spec avail rounded) as [Hlt|Hge]; [by apply wp_ret, HQ|].
  apply wp_bind, wp_gets. set (curr := curr_region_allocation_bytes_ s).
  assert (d = true \/ grow_region fuel rounded curr false <> NoFuel) as Hgrow.
  { destruct Hext as [?|(H1 & H2 & H3 & _)]; [by left|right].
    destruct fuel as [|fuel]; [lia|].
    destruct (grow_region_terminates fuel rounded curr false H2 ltac:(lia)) as (c & i & E); [|by rewrite E].
    etrans; [apply H1|]. change two63 with (2 ^ 63).
    transitivity (1 * 2 ^ Z.of_nat fuel); [rewrite Z.mul_1_l; apply Z.pow_le_mono_r; lia|].
    apply Z.mul_le_mono_nonneg_r; [apply Z.pow_nonneg; lia|]. unfold curr. lia. }
  pose proof (grow_region_result fuel rounded curr false).
  destruct (grow_region fuel rounded curr false) as [[c inc]| | |] eqn:Eg; try done.
  2: { apply wp_bind. unfold lift, wp. by destruct Hgrow. }
  destruct (grow_region_spec _ _ _ _ _ _ Eg (g_curr (ok_good _ Hs))) as [Hge' Hdc].
  apply wp_bind, (wp_lift _ _ (c, inc)); [done|]. apply wp_bind, wp_modify. cbn [fst snd].
  assert (256 | Z.min c avail) as Hmin.
  { apply Z.min_case; [done|]. apply Z.divide_factor_r. }
  apply wp_bind, extend_alloc_wp; [lia|lia|done| |].
  { destruct Hext as [?|(H1 & _ & _ & H4)]; [by left|right]. fold all in H4. lia. }
  intros o sub' Ho.
  destruct o as [[p r]|].
  - assert (forall a, owns (sub_allocator_ s) a -> owns sub' a) as Hmono.
    { intros a Ha. apply Ho. by left. }
    destruct (Ok_frame s (with_sub sub' (with_curr c s))) as [H1 Hk1]; try done.
    apply (Extend_block_wp d cfg _ (sub_allocator_ s) rounded); try done; [apply Hs|].
    intros s' Hs' Hk'. apply HQ; [done|]. by transitivity (with_sub sub' (with_curr c s)).
  - destruct (Ok_frame s (with_sub sub' (with_curr c s))) as [H1 Hk1]; try done.
    { intros a Ha. by apply Ho. }
    by apply wp_ret, HQ.
Qed.
End ExtendWp.
