(* ===== verification/BfcCollect.v ===== *)
(** * Giving free regions back

    DeallocateFreeRegions and DeallocateRegions of
    xla/tsl/framework/bfc_allocator.cc: the regions without a chunk in use are
    returned to the sub-allocator, their chunks to the chunk vector. *)

From Stdlib Require Import ZArith Lia.
From S2P Require Import Prelude MachineInt BfcAllocator BfcHeap BfcRegions BfcInv BfcOps BfcCoalesce BfcFree BfcSub.
From S2P Require Import BfcRegister BfcExtend.

(** ** The chunks of a region *)

Section Chain.
Context (cs : list Chunk) (rs : list AllocationRegion) (R : Z -> Z -> Prop).
Hypothesis H : heap_ok (nd_of cs) R (sl_of rs).
Context (lo hi : Z).
Hypothesis Hr : R lo hi.

(** The links lead from the chunk [k] through all chunks up to the end. *)
Lemma chain_from k c :
  lv R cs rs k c -> lo <= ptr c < hi ->
  exists l, free_chain cs (Some k) l /\ NoDup l /\
    forall j, j ∈ l <-> exists e, lv R cs rs j e /\ ptr c <= ptr e < hi.
Proof.
  enough (forall d, 0 <= d -> forall k c, lv R cs rs k c -> lo <= ptr c < hi -> d = hi - ptr c ->
    exists l, free_chain cs (Some k) l /\ NoDup l /\
      forall j, j ∈ l <-> exists e, lv R cs rs j e /\ ptr c <= ptr e < hi) as Hg.
  { intros Hl Hp. by apply (Hg (hi - ptr c) ltac:(lia) k c). }
  intros d Hd. pattern d. apply Z_lt_induction; [|done]. clear d Hd k c.
  intros d IH k c Hl Hp ->. pose proof (lv_live _ _ _ _ _ Hl) as Hlv.
  destruct (live_reg_unique H k _ lo hi Hlv Hr Hp) as [_ _ Hhi _ Hpos _ Hnx _].
  unfold n_end in Hnx, Hhi. simpl in Hnx, Hpos, Hhi.
  assert (forall j e, lv R cs rs j e -> ptr c <= ptr e -> j = k \/ ptr c + size c <= ptr e) as Hgap.
  { intros j e He Hle. destruct (Z.lt_ge_cases (ptr e) (ptr c + size c)) as [Hlt|]; [left|by right].
    pose proof (live_pos H _ _ (lv_live _ _ _ _ _ He)) as Hpe. simpl in Hpe.
    destruct (live_disjoint H j (node_of e) k (node_of c) (ptr e)) as [-> _]; try done;
      [by apply lv_live|unfold n_end; simpl; lia..]. }
  destruct (next c) as [k'|] eqn:Ek.
  - destruct Hnx as (Hlt & _).
    destruct (live_next H k _ k' Hlv Ek) as (m & (e & He & ->)%live_lv & Hpe & _).
    unfold n_end in Hpe. simpl in Hpe.
    destruct (IH (hi - ptr e) ltac:(lia) k' e He ltac:(lia) eq_refl) as (l & Hch & Hnd & Hin).
    exists (k :: l). split_and!.
    + split; [done|]. exists c. split; [apply Hl|]. by rewrite Ek.
    + constructor; [|done]. intros (e' & He' & Hge)%Hin.
      pose proof (lv_fun _ _ _ _ _ _ He' (proj1 Hl)). subst. lia.
    + intros j. rewrite elem_of_cons, Hin. split.
      * intros [->|(e' & He' & Hge)]; [exists c; split; [done|lia]|exists e'; split; [done|lia]].
      * intros (e' & He' & Hge). destruct (Hgap j e' He' ltac:(lia)) as [->|Hge']; [by left|right].
        exists e'. split; [done|lia].
  - exists [k]. split_and!.
    + split; [done|]. exists c. split; [apply Hl|]. by rewrite Ek.
    + apply NoDup_singleton.
    + intros j. rewrite list_elem_of_singleton. split.
      * intros ->. exists c. split; [done|lia].
      * intros (e' & He' & Hge). destruct (Hgap j e' He' ltac:(lia)) as [->|Hge']; [done|lia].
Qed.

Lemma chain_length o l : free_chain cs o l -> NoDup l -> (length l <= length cs)%nat.
Proof.
  intros Hch Hnd. rewrite <- (length_seq (length cs) 0). apply submseteq_length, NoDup_submseteq; [done|].
  clear Hnd. revert o Hch. induction l as [|h l IH]; intros o Hch x Hx; [by apply not_elem_of_nil in Hx|].
  destruct Hch as (_ & c & Hc & Hch). apply elem_of_cons in Hx as [->|Hx]; [|by apply (IH (next c))].
  apply elem_of_seq. apply lookup_lt_Some in Hc. lia.
Qed.
End Chain.

(** ** Looking for a chunk in use *)

Section AnyUse.
Context {Sub : Type}.
Implicit Types s : bfc Sub.

Lemma any_use_wp d s l o fuel Q :
  free_chain (chunks_ s) o l -> (length l < fuel)%nat ->
  (forall b, (b = false -> forall h c, h ∈ l -> chunks_ s !! h = Some c -> in_use c = false) -> Q b s) ->
  wp d (any_use fuel o) s Q.
Proof.
  revert o fuel. induction l as [|h l IH]; intros o fuel Hch Hf HQ; (destruct fuel as [|fuel]; [simpl in Hf; lia|]).
  - simpl in Hch. subst o. apply wp_ret, HQ. intros _ h c Hh. by apply not_elem_of_nil in Hh.
  - destruct Hch as (-> & c & Hc & Hch). simpl. apply wp_bind, (wp_chunk _ _ c); [done|].
    destruct (in_use c) eqn:Eu; [by apply wp_ret, HQ|].
    apply IH; [done|simpl in Hf; lia|]. intros b Hb. apply HQ. intros E k e [->|Hk]%elem_of_cons He.
    + congruence.
    + by apply (Hb E k).
Qed.

(** The chunks of the region [r] are free. *)
Definition region_free (R : Z -> Z -> Prop) s (lo hi : Z) : Prop :=
  forall h c, live_chunk R s h c -> lo <= ptr c < hi -> in_use c = false.

(** The first chunk of a region, and the chain from it. *)
Lemma region_chain X D s lo hi :
  Inv (regs s) X D s -> regs s lo hi ->
  exists first l, sl_of (regions_ s) lo = Some first /\ free_chain (chunks_ s) (Some first) l /\ NoDup l /\
    (length l <= length (chunks_ s))%nat /\
    forall j, j ∈ l <-> exists e, live_chunk (regs s) s j e /\ lo <= ptr e < hi.
Proof.
  intros H Hr. destruct (hp_first (i_heap H) _ _ Hr) as [first Hf].
  destruct (reg_size (hp_reg (i_heap H)) _ _ Hr) as [Hb _].
  pose proof (grid_lo (i_heap H) _ _ Hr) as Hg.
  destruct (slot_live (i_heap H) _ _ Hg Hf) as (m & (c & Hl & ->)%live_lv & Hp). simpl in Hp.
  destruct (chain_from _ _ _ (i_heap H) lo hi Hr first c Hl ltac:(lia)) as (l & Hch & Hnd & Hin).
  exists first, l. split_and!; try done; [by apply (chain_length _ (Some first))|].
  intros j. rewrite Hin, Hp. done.
Qed.

Lemma free_regions_wp d s rs Q :
  Inv (regs s) ∅ ∅ s -> (forall r, r ∈ rs -> r ∈ regions_ s) ->
  (forall ps n, (forall p, p ∈ ps -> exists r, r ∈ regions_ s /\ region_ptr r = p /\
     region_free (regs s) s (region_ptr r) (end_ptr r)) -> Q (ps, n) s) ->
  wp d (free_regions rs) s Q.
Proof.
  intros H. revert Q. induction rs as [|r rs IH]; intros Q Hrs HQ; cbn [free_regions].
  { apply wp_ret, HQ. intros p Hp. by apply not_elem_of_nil in Hp. }
  assert (r ∈ regions_ s) as Hin by (apply Hrs; by left).
  assert (regs s (region_ptr r) (end_ptr r)) as Hr by (by exists r).
  destruct (region_chain _ _ _ _ _ H Hr) as (first & l & Hf & Hch & Hnd & Hlen & Hmem).
  apply wp_bind, (get_handle_wp (regs s) _ ∅ ∅); [done|by apply (grid_lo (i_heap H) _ _ Hr)|].
  rewrite Hf. apply wp_bind, wp_gets. apply wp_bind, (any_use_wp _ _ l); [done|lia|].
  intros b Hb. apply wp_bind, IH; [intros x Hx; apply Hrs; by right|].
  intros ps n Hps. apply wp_ret. destruct b; [by apply HQ|]. apply HQ.
  intros p [->|Hp]%elem_of_cons; [|by apply Hps]. exists r. split_and!; [done..|].
  intros h c Hl Hpc. apply (Hb eq_refl h); [|apply Hl]. apply Hmem. by exists c.
Qed.
End AnyUse.

(** ** Deleting the chunks of a region *)

Section Delete.
Context {Sub : Type}.
Implicit Types s : bfc Sub.

Lemma lv_sl R cs rs rs' h c :
  (forall p, grid R p -> sl_of rs' p = sl_of rs p) -> lv R cs rs' h c <-> lv R cs rs h c.
Proof.
  intros Hs. unfold lv. split; intros (? & Hg & Hx); split_and!; try done; [by rewrite <- Hs|by rewrite Hs].
Qed.

(** The regions may change where no chunk is registered. *)
Lemma Inv_regions R X D s rs' st :
  Inv R X D s -> regions_ok rs' -> (forall lo hi, R lo hi -> reg_of rs' lo hi) ->
  (forall p, grid R p -> sl_of rs' p = sl_of (regions_ s) p) ->
  bytes_in_use st = bytes_in_use (stats_ s) -> pool_bytes st = i64 (sum (memory_size <$> rs')) ->
  Inv R X D (with_stats st (with_regions rs' s)).
Proof.
  intros H Hok Hsub Hs Hu Hp.
  apply (Inv_eq R ((X ∖ ∅) ∪ ∅) X ((D ∖ ∅) ∪ ∅) D); [clear; set_solver..|].
  apply (Inv_surgery R R X D ∅ ∅ s _ H); simpl; try done.
  - apply (restrict_heap_ok _ _ R R _ _ (i_heap H)); try done.
  - intros h. setoid_rewrite (lv_sl R (chunks_ s) (regions_ s) rs' h _ Hs). clear. set_solver.
Qed.

(** The region [lo, hi) leaves the regions the invariant speaks of. *)
Definition without (R : Z -> Z -> Prop) (lo : Z) : Z -> Z -> Prop := fun a b => R a b /\ a <> lo.

Lemma grid_without R lo hi p :
  regions_wf R -> R lo hi -> grid (without R lo) p <-> grid R p /\ ~ (lo <= p < hi).
Proof.
  intros Hwf Hr. split.
  - intros (a & b & [Hab Hne] & Hp & Hd). split; [by exists a, b|]. intros Hin.
    destruct (reg_same Hwf lo hi a b p Hr Hab Hin Hp). congruence.
  - intros [(a & b & Hab & Hp & Hd) Hn]. exists a, b. split; [|done]. split; [done|].
    intros ->. apply Hn. destruct (reg_size Hwf _ _ Hr), (reg_size Hwf _ _ Hab).
    destruct (reg_same Hwf lo hi lo b lo Hr Hab) as [_ ->]; lia.
Qed.

Lemma limbo s lo hi l :
  Inv (regs s) ∅ ∅ s -> regs s lo hi -> region_free (regs s) s lo hi ->
  (forall j, j ∈ l <-> exists e, live_chunk (regs s) s j e /\ lo <= ptr e < hi) ->
  Inv (without (regs s) lo) ∅ (list_to_set l) s.
Proof.
  intros H Hr Hfree Hin. pose proof (hp_reg (i_heap H)) as Hwf.
  apply (Inv_eq _ ((∅ ∖ list_to_set l) ∪ ∅) ∅ ((∅ ∖ ∅) ∪ list_to_set l) _); [clear; set_solver..|].
  apply (Inv_surgery (regs s) _ ∅ ∅ (list_to_set l) ∅ s s H); try done.
  - exact (i_regs H).
  - by intros a b [Hab _].
  - apply (restrict_heap_ok _ _ (regs s) _ _ _ (i_heap H)); try done. by intros a b [Hab _].
  - intros j. rewrite elem_of_list_to_set, Hin. unfold lv.
    setoid_rewrite (grid_without (regs s) lo hi _ Hwf Hr). split.
    + intros (c & Hc & [Hg Hn] & Hs). left. split; [by exists c|].
      intros (e & He & Hp). pose proof (lv_fun _ _ _ _ _ _ He Hc) as ->. done.
    + intros [[(c & Hc & Hg & Hs) Hn]|Hj]; [|by apply not_elem_of_empty in Hj].
      exists c. split_and!; try done. intros Hp. apply Hn. by exists c.
  - intros j Hj. rewrite elem_of_list_to_set in Hj. apply Hin in Hj as (e & He & Hp).
    exists e. split; [done|]. by apply (Hfree j).
  - exact (i_pool H).
Qed.

(** The walk that deletes the chunks of a list, none of which is registered in
    the regions [R]. *)
Section DeleteWp.
Context (R : Z -> Z -> Prop).

(** What the walk changes. *)
Record deleted s s' : Prop := {
  dl_extent : extent <$> regions_ s' = extent <$> regions_ s;
  dl_lv : forall k c, lv R (chunks_ s') (regions_ s') k c <-> lv R (chunks_ s) (regions_ s) k c;
  dl_rest : s' = with_chunks (chunks_ s') (with_free_list (free_chunks_list_ s')
    (with_regions (regions_ s') (with_bins (bins_ s') s)));
}.

Instance deleted_preorder : PreOrder deleted.
Proof.
  split; [intros s; split; [done|done|by destruct s]|].
  intros s1 s2 s3 [E1 L1 R1] [E2 L2 R2]. split; [congruence|intros k c; by rewrite L2|].
  rewrite R2 at 1. rewrite R1 at 1. done.
Qed.

(** A chunk of the list: it has a slot, in a region apart. *)
Definition in_limbo s (h : nat) : Prop :=
  exists c, chunks_ s !! h = Some c /\ grid (reg_of (regions_ s)) (ptr c) /\ ~ grid R (ptr c).

Lemma lv_dead s h c c' k e :
  chunks_ s !! h = Some c -> ~ lv R (chunks_ s) (regions_ s) h c -> ptr c' = ptr c ->
  lv R (<[h := c']> (chunks_ s)) (regions_ s) k e <-> lv R (chunks_ s) (regions_ s) k e.
Proof.
  intros Hc Hn Hp. rewrite (lv_update R _ _ h c) by done. split; [by intros [(_ & _ & ?)|[_ ?]]|].
  intros Hl. right. split; [|done]. intros ->. by pose proof (lv_fun _ _ _ _ _ _ Hl Hc) as ->.
Qed.

Lemma unbin_limbo_wp d D s h c Q :
  Inv R ∅ D s -> chunks_ s !! h = Some c -> ~ grid R (ptr c) ->
  (forall s1 b, Inv R ∅ D s1 -> deleted s s1 -> chunks_ s1 = <[h := set_bin_num b c]> (chunks_ s) ->
     b = None -> regions_ s1 = regions_ s -> Q () s1) ->
  wp d (if bool_decide (bin_num c <> None) then RemoveFreeChunkFromBin h else mret ()) s Q.
Proof.
  intros H Hc Hg HQ. assert (~ lv R (chunks_ s) (regions_ s) h c) as Hn by (by intros (_ & ? & _)).
  destruct (bin_num c) as [b|] eqn:Eb; simpl.
  - apply (RemoveFreeChunkFromBin_wp R ∅ D d s h c b); [done..|]. intros bins' s1 _ HI.
    apply (HQ s1 None); [by apply HI| |done..]. split; [done| |done].
    intros k e. apply (lv_dead s h c); done.
  - apply wp_ret, (HQ s None); [done..| |done|done].
    rewrite list_insert_id; [done|]. rewrite Hc. destruct c. simpl in Eb. by subst.
Qed.

Lemma DeleteChunk_limbo_wp d D s h c Q :
  Inv R ∅ D s -> h ∈ D -> chunks_ s !! h = Some c -> bin_num c = None ->
  grid (reg_of (regions_ s)) (ptr c) -> ~ grid R (ptr c) ->
  (forall s', Inv R ∅ (D ∖ {[h]}) s' -> deleted s s' ->
     (forall k, k <> h -> chunks_ s' !! k = chunks_ s !! k) -> Q () s') ->
  wp d (DeleteChunk h) s Q.
Proof.
  intros H HhD Hc Hb Hg Hng HQ.
  unfold DeleteChunk. apply wp_bind, (wp_chunk _ _ c); [done|].
  destruct (set_handle_spec (regions_ s) (ptr c) None (i_regs H) Hg) as (rs' & Eset & Hok & He & Hsl).
  assert (forall p, grid R p -> sl_of rs' p = sl_of (regions_ s) p) as Hsame.
  { intros p Hp. rewrite Hsl.
    - unfold set_sl. rewrite decide_False; [done|]. by intros ->.
    - destruct Hp as (lo & hi & Hr & ?). exists lo, hi. split; [by apply (i_sub H)|done]. }
  apply wp_bind. unfold erase, set_handle. apply wp_bind, wp_gets.
  apply wp_bind, (wp_lift _ _ rs'); [exact Eset|]. apply wp_modify.
  assert (Inv R ∅ D (with_regions rs' s)) as H1.
  { replace (with_regions rs' s) with (with_stats (stats_ s) (with_regions rs' s)) by done.
    apply Inv_regions; try done.
    - intros lo hi Hr. apply (reg_of_extent _ _ _ _ He). by apply (i_sub H).
    - rewrite (extent_memory _ _ He). exact (i_pool H). }
  unfold DeallocateChunk. apply wp_bind, wp_gets. apply wp_bind, (wp_upd _ _ _ c); [done|]. apply wp_modify.
  pose proof (DeallocateChunk_Inv R ∅ D (with_regions rs' s) h c H1 HhD Hc Hb) as H2. simpl in H2 |- *.
  apply HQ; [exact H2| |intros k Hk; simpl; by rewrite list_lookup_insert_ne].
  split; [done| |done]. intros k e. simpl. rewrite <- (lv_sl R _ _ rs' k e Hsame).
  apply (lv_dead (with_regions rs' s) h c); try done. by intros (_ & ? & _).
Qed.

Lemma delete_chunks_wp d s l o fuel Q :
  Inv R ∅ (list_to_set l) s -> free_chain (chunks_ s) o l -> NoDup l -> (length l < fuel)%nat ->
  (forall h, h ∈ l -> in_limbo s h) ->
  (forall s', Inv R ∅ ∅ s' -> deleted s s' -> Q () s') ->
  wp d (delete_chunks fuel o) s Q.
Proof.
  revert s o fuel Q. induction l as [|h l IH]; intros s o fuel Q H Hch Hnd Hf Hlim HQ;
    (destruct fuel as [|fuel]; [simpl in Hf; lia|]); cbn [delete_chunks].
  { simpl in Hch. subst o. by apply wp_ret, HQ. }
  destruct Hch as (-> & c & Hc & Hch). apply NoDup_cons in Hnd as [Hhl Hnd].
  destruct (Hlim h) as (c' & Hc' & Hg & Hng); [by left|]. assert (c' = c) as -> by congruence.
  apply wp_bind, (wp_chunk _ _ c); [done|].
  apply wp_bind, (unbin_limbo_wp d (list_to_set (h :: l)) s h c); [done..|].
  intros s1 b H1 Hd1 Ech -> Ers.
  assert (chunks_ s1 !! h = Some (set_bin_num None c)) as Hc1.
  { rewrite Ech. apply list_lookup_insert_eq. by apply lookup_lt_Some in Hc. }
  apply wp_bind, (wp_chunk _ _ (set_bin_num None c)); [done|].
  apply wp_bind, (DeleteChunk_limbo_wp d (list_to_set (h :: l)) s1 h (set_bin_num None c));
    [done|set_solver|done|done|by rewrite Ers|done|].
  intros s2 H2 Hd2 Hother.
  assert (forall k, k ∈ l -> chunks_ s2 !! k = chunks_ s !! k) as Hsame.
  { intros k Hk. assert (k <> h) by (by intros ->). by rewrite Hother, Ech, list_lookup_insert_ne. }
  apply IH; [| |done|simpl in Hf; lia| |].
  - apply (Inv_eq R ∅ ∅ (list_to_set (h :: l) ∖ {[h]})); [done| |done].
    clear -Hhl. apply set_eq. intros k. rewrite elem_of_difference, !elem_of_list_to_set, elem_of_cons, elem_of_singleton.
    split; [tauto|]. intros Hk. split; [by right|]. by intros ->.
  - simpl. by apply (free_chain_ext (chunks_ s)).
  - intros k Hk. destruct (Hlim k) as (e & He & Hge & Hne); [by right|]. exists e.
    rewrite (Hsame k Hk). split_and!; try done.
    pose proof (transitivity Hd1 Hd2) as Hd. destruct Hge as (lo & hi & Hr & ?).
    exists lo, hi. split; [|done]. by apply (reg_of_extent _ _ _ _ (dl_extent _ _ Hd)).
  - intros s' H' Hd'. apply HQ; [done|]. transitivity s1; [done|]. by transitivity s2.
Qed.
End DeleteWp.
End Delete.

(** ** Giving a region back *)

Section Release.
Context {Sub : Type} `{SL : SubAllocatorLaws Sub}.
Implicit Types s : bfc Sub.

(** No allocation starts in [lo, hi). *)
Definition unused s (lo hi : Z) : Prop :=
  forall k p sz rq id, used (regs s) s k (p, sz, rq, id) -> ~ (lo <= p < hi).

Lemma unused_free s lo hi : unused s lo hi <-> region_free (regs s) s lo hi.
Proof.
  split.
  - intros Hu h c Hl Hp. destruct (in_use c) eqn:E; [|done]. exfalso.
    apply (Hu h (ptr c) (size c) (requested_size c) (allocation_id c)); [by exists c|done].
  - intros Hf k p sz rq id (c & Hl & Hu & Ec) Hp. unfold core in Ec. rewrite (Hf k c Hl) in Hu; [done|].
    congruence.
Qed.

Section ReleaseOne.
Context (s s1 : bfc Sub) (i : nat) (it : AllocationRegion) (st : AllocatorStats).
Let R := regs s.
Let R0 := without R (region_ptr it).
Let sub' := Free (sub_allocator_ s1) (region_ptr it) (memory_size it).
Let s2 := with_regions (delete i (regions_ s1)) (with_stats st (with_sub sub' s1)).
Hypothesis Hs : Ok s.
Hypothesis Ht : timing_counter_ s = None.
Hypothesis Hi : regions_ s !! i = Some it.
Hypothesis Hun : unused s (region_ptr it) (end_ptr it).
Hypothesis H1 : Inv R0 ∅ ∅ s1.
Hypothesis Hd : deleted R0 s s1.
Hypothesis Hst : bytes_in_use st = bytes_in_use (stats_ s1) /\
  pool_bytes st = sub64 (pool_bytes (stats_ s1)) (memory_size it).

Lemma release_region : exists r1, regions_ s1 !! i = Some r1 /\ extent r1 = extent it.
Proof.
  assert ((extent <$> regions_ s1) !! i = Some (extent it)) as Hx.
  { rewrite (dl_extent _ _ _ Hd), list_lookup_fmap. by rewrite Hi. }
  rewrite list_lookup_fmap in Hx. apply fmap_Some in Hx as (r1 & ? & ?). by exists r1.
Qed.

Lemma release_extent : extent <$> regions_ s2 = delete i (extent <$> regions_ s).
Proof. simpl. by rewrite list_fmap_delete, (dl_extent _ _ _ Hd). Qed.

Lemma release_regs : reg_equiv (regs s2) R0.
Proof.
  destruct release_region as (r1 & Hr1 & [= Ep _ _]). intros lo hi. unfold regs, s2. simpl.
  rewrite (proj1 (delete_region_spec _ _ _ (i_regs H1) Hr1)), Ep. unfold R0, without, R, regs.
  by rewrite (reg_of_extent _ _ _ _ (dl_extent _ _ _ Hd)).
Qed.

Lemma release_sl p : grid R0 p -> sl_of (delete i (regions_ s1)) p = sl_of (regions_ s1) p.
Proof.
  destruct release_region as (r1 & Hr1 & _). rewrite <- release_regs. apply (delete_region_spec _ _ _ (i_regs H1) Hr1).
Qed.

Lemma release_live k c : live_chunk R0 s2 k c <-> live_chunk R0 s k c.
Proof. unfold live_chunk. simpl. rewrite (lv_sl R0 _ _ _ k c release_sl). apply Hd. Qed.

Lemma release_reg : R (region_ptr it) (end_ptr it).
Proof. exists it. split; [by apply list_elem_of_lookup_2 in Hi|done]. Qed.

Lemma release_sub k c : live_chunk R0 s k c -> live_chunk R s k c.
Proof.
  intros (Hc & Hg & Hsl). split_and!; try done.
  destruct Hg as (lo & hi & [Hr _] & ?). by exists lo, hi.
Qed.

Lemma release_used k a : used R0 s2 k a <-> used R s k a.
Proof.
  split.
  - intros (c & Hl & Hu & Ec). exists c. split; [|done]. by apply release_sub, release_live.
  - intros (c & Hl & Hu & Ec). exists c. split; [|done]. apply release_live.
    destruct Hl as (Hc & Hg & Hsl). split_and!; try done.
    apply (grid_without R _ (end_ptr it)); [exact (hp_reg (i_heap (g_inv (ok_good _ Hs))))|exact release_reg|].
    split; [done|]. apply (Hun k (ptr c) (size c) (requested_size c) (allocation_id c)). by exists c.
Qed.

Lemma release_inv : Inv R0 ∅ ∅ s2.
Proof.
  destruct release_region as (r1 & Hr1 & [= Ep Em Ee]). destruct Hst as [Hst1 Hst2].
  assert (Inv R0 ∅ ∅ (with_sub sub' s1)) as H1' by (by apply (Inv_frame R0 ∅ ∅ s1)).
  apply (Inv_regions R0 ∅ ∅ (with_sub sub' s1) (delete i (regions_ s1)) st H1'); try done.
  - apply delete_region_ok. exact (i_regs H1).
  - intros lo hi Hr. by apply release_regs.
  - exact release_sl.
  - rewrite Hst2, (i_pool H1), sub64_i64. f_equal.
    rewrite <- Em. symmetry. exact (sum_delete memory_size _ _ r1 Hr1).
Qed.

Lemma release_Ok : Ok s2 /\ kept s s2.
Proof.
  pose proof (ok_good _ Hs) as HG. pose proof (dl_rest _ _ _ Hd) as Er.
  destruct (g_timing HG Ht) as ([_ Hq] & HA & Hts).
  assert (timing_counter_ s2 = timing_counter_ s /\ timestamped_chunks_ s2 = timestamped_chunks_ s /\
    curr_region_allocation_bytes_ s2 = curr_region_allocation_bytes_ s /\
    next_allocation_id_ s2 = next_allocation_id_ s /\ sub_allocator_ s1 = sub_allocator_ s)
    as (E1 & E2 & E3 & E4 & E5) by (simpl; by rewrite Er).
  split; split.
  - rewrite release_regs. split; [exact release_inv| |rewrite E3; apply HG|].
    + intros h Hh. rewrite E2, Hts in Hh. by apply not_elem_of_nil in Hh.
    + intros _. split_and!.
      * split; [congruence|]. intros k c Hl%release_live%release_sub. by apply (Hq k c).
      * intros k c j e Hk%release_live%release_sub Hn Hj%release_live%release_sub. by apply (HA k c j e).
      * congruence.
  - intros lo hi a Hr Ha. apply release_regs in Hr as [Hr Hne]. apply Free_block. rewrite E5. split.
    + exact (ok_own _ Hs lo hi a Hr Ha).
    + intros Hin. apply Hne. pose proof (region_ok_nth _ _ _ (i_regs (g_inv HG)) Hi) as [_ _ _ He _ _].
      destruct (reg_same (hp_reg (i_heap (g_inv HG))) lo hi (region_ptr it) (end_ptr it) a) as [-> _];
        [done|exact release_reg|done|lia|done].
  - intros k a. rewrite release_regs. apply release_used.
  - exact E1.
  - exact E4.
Qed.
End ReleaseOne.

Lemma release_wp d i it (k : M Sub ()) s Q :
  Ok s -> timing_counter_ s = None -> regions_ s !! i = Some it -> unused s (region_ptr it) (end_ptr it) ->
  (forall s2, Ok s2 -> kept s s2 -> extent <$> regions_ s2 = delete i (extent <$> regions_ s) ->
     wp d k s2 Q) ->
  wp d (h ← get_handle (region_ptr it);
        n_chunks ← gets (fun s => length (chunks_ s));
        _ ← delete_chunks (S n_chunks) h;
        _ ← modify (fun s => with_sub (Free (sub_allocator_ s) (region_ptr it) (memory_size it)) s);
        _ ← modify (fun s => let st := stats_ s in with_stats
              (mkStats (num_allocs st) (bytes_in_use st) (peak_bytes_in_use st)
                 (largest_alloc_size st) (sub64 (pool_bytes st) (memory_size it))
                 (peak_pool_bytes st)) s);
        _ ← modify (fun s => with_regions (delete i (regions_ s)) s);
        k) s Q.
Proof.
  intros Hs Ht Hi Hu HQ. pose proof (g_inv (ok_good _ Hs)) as H.
  assert (it ∈ regions_ s) as Hin by (by apply list_elem_of_lookup_2 in Hi).
  assert (regs s (region_ptr it) (end_ptr it)) as Hr by (by exists it).
  destruct (region_chain _ _ _ _ _ H Hr) as (first & l & Hf & Hch & Hnd & Hlen & Hmem).
  apply wp_bind, (get_handle_wp (regs s) _ ∅ ∅); [done|by apply (grid_lo (i_heap H) _ _ Hr)|].
  rewrite Hf. apply wp_bind, wp_gets.
  apply wp_bind, (delete_chunks_wp (without (regs s) (region_ptr it)) d s l); [|done|done|lia| |].
  - apply (limbo s _ (end_ptr it)); [done..| |done]. by apply unused_free.
  - intros h (e & He & Hp)%Hmem. exists e. split_and!; [apply He|apply He|].
    rewrite (grid_without (regs s) _ (end_ptr it)); [|exact (hp_reg (i_heap H))|done]. by intros [_ ?].
  - intros s1 H1 Hd. do 3 apply wp_bind, wp_modify. cbn zeta.
    pose proof (fun st Hst => release_Ok s s1 i it st Hs Ht Hi Hu H1 Hd Hst) as Hok.
    edestruct Hok as [Hs2 Hk2]; [|apply HQ; [exact Hs2|exact Hk2|]]; [done|].
    exact (release_extent s s1 i it _ Hd).
Qed.

Lemma extent_delete_sub rs rs' i lo hi :
  extent <$> rs' = delete i (extent <$> rs) -> reg_of rs' lo hi -> reg_of rs lo hi.
Proof.
  intros He (r' & Hr' & <- & <-).
  assert (extent r' ∈ extent <$> rs) as (r & [= E1 _ E3] & Hr)%list_elem_of_fmap; [|by exists r].
  apply (elem_of_submseteq (delete i (extent <$> rs))).
  - rewrite <- He. by apply list_elem_of_fmap_2.
  - apply sublist_submseteq, sublist_delete.
Qed.

Lemma DeallocateRegions_loop_wp d n ps i s Q :
  Ok s -> timing_counter_ s = None -> (i + n = length (regions_ s))%nat ->
  (forall lo hi, regs s lo hi -> lo ∈ ps -> unused s lo hi) ->
  (forall s', Ok s' -> kept s s' -> Q () s') ->
  wp d (DeallocateRegions_loop n ps i) s Q.
Proof.
  revert i s Q. induction n as [|n IH]; intros i s Q Hs Ht Hn Hun HQ; cbn [DeallocateRegions_loop].
  { by apply wp_ret, HQ. }
  destruct (lookup_lt_is_Some_2 (regions_ s) i ltac:(lia)) as [it Hi].
  apply wp_bind, wp_bind, wp_gets, (wp_nth _ _ _ it); [done|].
  destruct (contains ps (region_ptr it)) eqn:Ec; [|apply IH; [done..|lia|done|done]].
  assert (regs s (region_ptr it) (end_ptr it)) as Hr.
  { exists it. split; [by apply list_elem_of_lookup_2 in Hi|done]. }
  apply release_wp; [done..| |].
  { apply Hun; [done|by apply contains_spec]. }
  intros s2 Hs2 Hk2 He. apply IH; [done| | | |].
  - rewrite (kp_timing _ _ Hk2). exact Ht.
  - apply (f_equal length) in He. rewrite length_delete, !length_fmap in He by (rewrite list_lookup_fmap, Hi; done).
    lia.
  - intros lo hi Hr2 Hlo k p sz rq id Hus. apply (kp_used _ _ Hk2) in Hus. revert Hus. apply Hun; [|done].
    exact (extent_delete_sub _ _ _ lo hi He Hr2).
  - intros s' Hs' Hk'. apply HQ; [done|]. by etrans.
Qed.

(** Collecting needs that no chunk waits on the list of timestamped chunks: the
    counter is never installed together with garbage collection. *)
Lemma DeallocateFreeRegions_wp cfg d rounded s Q :
  Ok s -> garbage_collection cfg = false \/ timing_counter_ s = None ->
  (forall b s', Ok s' -> kept s s' -> Q b s') ->
  wp d (DeallocateFreeRegions cfg rounded) s Q.
Proof.
  intros Hs Hgc HQ. unfold DeallocateFreeRegions.
  destruct (garbage_collection cfg) eqn:Eg; simpl; [|by apply wp_ret, HQ].
  destruct Hgc as [|Ht]; [done|]. pose proof (i_regs (g_inv (ok_good _ Hs))) as Hregs.
  apply wp_bind, wp_gets. apply wp_bind, free_regions_wp; [apply Hs|done|].
  intros ps n Hps. simpl. destruct (n =? 0); [by apply wp_ret, HQ|].
  apply wp_bind, wp_gets. destruct (_ <? rounded); [by apply wp_ret, HQ|].
  apply wp_bind. unfold DeallocateRegions. apply wp_bind, wp_gets.
  apply DeallocateRegions_loop_wp; [done..| |].
  - intros lo hi (r & [j Hj]%list_elem_of_lookup & <- & <-) Hp. apply unused_free.
    destruct (Hps _ Hp) as (r' & [j' Hj']%list_elem_of_lookup & Ep & Hf).
    assert (j' = j) as -> by (by apply (region_ptr_inj _ _ _ _ _ Hregs Hj' Hj)).
    assert (r' = r) as -> by congruence. exact Hf.
  - intros s' Hs' Hk'. by apply wp_ret, HQ.
Qed.
End Release.
