(* ===== verification/BfcSpec.v ===== *)
(** * The contract of the allocator

    AllocateRaw and DeallocateRaw of xla/tsl/framework/bfc_allocator.cc against an
    abstract specification: a finite map from addresses to allocations.  A state
    of the allocator is seen as such a map ([view]); the public operations change
    it as the specification says, and the steps of a client keep the invariant. *)

From Stdlib Require Import ZArith Lia.
From S2P Require Import Prelude MachineInt BfcAllocator BfcHeap BfcRegions BfcInv BfcOps BfcCoalesce BfcFree BfcAlloc.
From S2P Require Import BfcSub BfcRegister BfcExtend BfcCollect.

(** ** The abstract specification *)

(** An allocation: its size, the size that was asked for and its id. *)
Definition allocation : Type := Z * Z * Z.
Definition alloc_map : Type := Z -> option allocation.
Definition alloc_size (a : allocation) : Z := fst (fst a).

Definition alloc_add (m : alloc_map) (p : Z) (a : allocation) : alloc_map :=
  fun q => if decide (q = p) then Some a else m q.
Definition alloc_del (m : alloc_map) (p : Z) : alloc_map :=
  fun q => if decide (q = p) then None else m q.

Definition alloc_apart (m : alloc_map) (p sz : Z) : Prop :=
  forall q a, m q = Some a -> p + sz <= q \/ q + alloc_size a <= p.

(** A call returns null and changes nothing, or a fresh block of at least the
    size asked for. *)
Inductive alloc_spec (m : alloc_map) (n : Z) : Z -> alloc_map -> Prop :=
  | alloc_fails m' : (forall q, m' q = m q) -> alloc_spec m n 0 m'
  | alloc_succeeds p sz id m' :
      0 < p -> 0 < n <= sz -> (256 | sz) -> alloc_apart m p sz ->
      (forall q a, m q = Some a -> snd a <> id) ->
      (forall q, m' q = alloc_add m p (sz, n, id) q) ->
      alloc_spec m n p m'.

(** The allocations of a state, through the handles of the regions. *)
Definition view {Sub} (s : bfc Sub) : alloc_map := fun p =>
  match region_get_handle (regions_ s) p with
  | OK (Some h) =>
      match chunks_ s !! h with
      | Some c => if in_use c && (ptr c =? p) then Some (size c, requested_size c, allocation_id c) else None
      | None => None
      end
  | _ => None
  end.

Section View.
Context {Sub : Type} `{SL : SubAllocatorLaws Sub}.
Implicit Types s : bfc Sub.

Lemma sl_of_Some rs p h : sl_of rs p = Some h -> region_get_handle rs p = OK (Some h).
Proof. unfold sl_of. destruct (region_get_handle rs p) as [o| | |]; congruence. Qed.

Lemma view_used s p sz rq id :
  Ok s -> view s p = Some (sz, rq, id) <-> exists k, used (regs s) s k (p, sz, rq, id).
Proof.
  intros Hs. pose proof (g_inv (ok_good _ Hs)) as H. unfold view. split.
  - destruct (region_get_handle (regions_ s) p) as [[h|]| | |] eqn:Eh; try done.
    destruct (chunks_ s !! h) as [c|] eqn:Ec; [|done].
    destruct (in_use c && (ptr c =? p)) eqn:Eu; [|done].
    apply andb_true_iff in Eu as [Eu Ep%Z.eqb_eq]. intros [= <- <- <-]. exists h, c.
    assert (lv (regs s) (chunks_ s) (regions_ s) h c) as Hl; [|split_and!; [done..|unfold core; by rewrite Ep]].
    destruct (decide (grid (regs s) (ptr c))) as [Hg|Hg].
    + split_and!; [done..|]. unfold sl_of. by rewrite Ep, Eh.
    + exfalso. destruct (i_dead H h c Ec) as [Hd _]; [by intros (_ & ? & _)|congruence].
  - intros (k & c & (Hc & Hg & Hsl) & Hu & Ecore). unfold core in Ecore. injection Ecore as Ep <- <- <-.
    rewrite Ep in Hsl. rewrite (sl_of_Some _ _ _ Hsl), Hc, Hu, Ep, Z.eqb_refl. done.
Qed.

Lemma used_fun s k p sz rq id k' a :
  Ok s -> used (regs s) s k (p, sz, rq, id) -> used (regs s) s k' a -> fst (fst (fst a)) = p ->
  k' = k /\ a = (p, sz, rq, id).
Proof.
  intros Hs (c & Hl & _ & Ec) (c' & Hl' & _ & Ec') Ep. unfold core in Ec, Ec'. subst a. simpl in Ep.
  injection Ec as Ep' <- <- <-. assert (k' = k) as ->.
  { destruct Hl as (_ & _ & Hs1), Hl' as (_ & _ & Hs2). congruence. }
  pose proof (lv_fun _ _ _ _ _ _ Hl (proj1 Hl')) as ->. split; [done|]. unfold core. by rewrite Ep'.
Qed.

Lemma view_ext s s' :
  Ok s -> Ok s' -> (forall p sz rq id, (exists k, used (regs s') s' k (p, sz, rq, id)) <->
    exists k, used (regs s) s k (p, sz, rq, id)) -> forall p, view s' p = view s p.
Proof.
  intros Hs Hs' Hu p. apply option_eq. intros [[sz rq] id]. by rewrite !view_used, Hu.
Qed.

Lemma kept_view s s' : Ok s -> Ok s' -> kept s s' -> forall p, view s' p = view s p.
Proof.
  intros Hs Hs' Hk. apply view_ext; [done..|]. intros p sz rq id.
  by setoid_rewrite (kp_used _ _ Hk).
Qed.
End View.

(** ** Allocation *)

Section Allocate.
Context {Sub : Type} `{SL : SubAllocatorLaws Sub} (cfg : Config).
Hypothesis Hcfg : cfg_ok cfg.
Implicit Types s : bfc Sub.

(** A chunk has been handed out. *)
Record handed (s : bfc Sub) (n p : Z) (s' : bfc Sub) : Prop := {
  ha_ok : Ok s';
  ha_timing : timing_counter_ s' = timing_counter_ s;
  ha_chunk : exists h sz, 0 < p /\ n <= sz /\ (256 | sz) /\ (forall a, ~ used (regs s) s h a) /\
    forall k a, used (regs s') s' k a <->
      (k = h /\ a = (p, sz, n, next_allocation_id_ s)) \/ used (regs s) s k a;
}.

Definition answered (s : bfc Sub) (n p : Z) (s' : bfc Sub) : Prop :=
  (p = 0 /\ Ok s' /\ kept s s') \/ (p <> 0 /\ handed s n p s').

Lemma allocated_handed s p r n s' :
  Ok s -> n <= r -> allocated cfg (regs s) s p r n s' -> handed s n p s'.
Proof.
  intros [HG Ho] Hn [HI Hts He (E1 & E2 & E3 & E4 & E5) Hq HA (h & sz & (Hb & _) & Hp & Hd & Hnew & Hu)].
  pose proof (extent_reg_equiv _ _ He) as Hreg. fold (regs s') (regs s) in Hreg. split.
  - split.
    + rewrite Hreg. split; [done|apply Hts, HG|rewrite E4; apply HG|].
      intros Ht. destruct (g_timing HG) as (Hqs & HAs & Etq); [congruence|].
      split_and!; [auto|auto|congruence].
    + rewrite E3. intros lo hi a Hr%Hreg. by apply Ho.
  - exact E2.
  - exists h, sz. split_and!; try done; [lia|]. intros k a. by rewrite Hreg.
Qed.

Lemma Find_wp d s r n fb Q :
  Ok s -> 0 < r -> (256 | r) -> 2 * r < two64 -> n <= r ->
  (forall p s', answered s n p s' -> Q p s') ->
  wp d (FindChunkPtr cfg (BinNumForSize r) r n fb) s Q.
Proof.
  intros Hs Hr Hd H2 Hn HQ. pose proof (g_inv (ok_good _ Hs)) as H.
  apply (FindChunkPtr_wp cfg (regs s) s r fb H (fun p => decide (grid (regs s) p))); try done.
  - intros _. apply HQ. by left.
  - intros h c s' _ Ha. apply HQ. right. pose proof (allocated_handed s _ _ _ _ Hs Hn Ha) as Hh.
    split; [|done]. destruct (ha_chunk _ _ _ _ Hh) as (? & ? & ? & _). lia.
Qed.

Lemma AddTraceMe_wp d s k p sz rq id Q :
  Ok s -> used (regs s) s k (p, sz, rq, id) -> Q () s -> wp d (AddTraceMe p) s Q.
Proof.
  intros Hs (c & Hl & Hu & Ec) HQ. unfold core in Ec. injection Ec as Ep _ _ _. subst p.
  unfold AddTraceMe. apply wp_bind, (get_handle_wp (regs s) _ ∅ ∅); [apply Hs|apply Hl|].
  rewrite (proj2 (proj2 Hl)). apply wp_bind, (wp_lift _ _ k); [done|].
  apply wp_bind, (wp_chunk _ _ c); [apply Hl|]. by apply wp_ret.
Qed.

Lemma answered_kept s s1 n p s2 : kept s s1 -> answered s1 n p s2 -> answered s n p s2.
Proof.
  intros Hk [(-> & Ho & Hk')|[Hp [Ho Ht (h & sz & H1 & H2 & H3 & H4 & H5)]]].
  - left. split_and!; [done..|by etrans].
  - right. split; [done|]. split; [done|by rewrite Ht, (kp_timing _ _ Hk)|].
    exists h, sz. split_and!; try done.
    + intros a Ha. apply (H4 a). by apply (kp_used _ _ Hk).
    + intros k a. by rewrite H5, (kp_used _ _ Hk), (kp_next _ _ Hk).
Qed.

(** Every try ends the call or leaves the allocations as they are. *)
Lemma traced_wp d s0 s1 n p k Q :
  answered s0 n p s1 -> (forall p s', answered s0 n p s' -> Q p s') ->
  (Ok s1 -> kept s0 s1 -> wp d k s1 Q) -> wp d (traced p k) s1 Q.
Proof.
  intros [(-> & Ho & Hk)|[Hp Hh]] HQ Hnull; unfold traced.
  - rewrite Z.eqb_refl. by apply Hnull.
  - rewrite (proj2 (Z.eqb_neq _ _)) by done.
    destruct (ha_chunk _ _ _ _ Hh) as (h & sz & _ & _ & _ & _ & Hu).
    apply wp_bind, (AddTraceMe_wp d s1 h p sz n (next_allocation_id_ s0)); [apply Hh|apply Hu; by left|].
    apply wp_ret, HQ. by right.
Qed.

(** A conditional search: no answer is null. *)
Lemma Find_if_wp d (b : bool) s0 s r n fb Q :
  Ok s -> kept s0 s -> 0 < r -> (256 | r) -> 2 * r < two64 -> n <= r ->
  (forall p s', answered s0 n p s' -> Q p s') ->
  wp d (if b then FindChunkPtr cfg (BinNumForSize r) r n fb else mret 0) s Q.
Proof.
  intros Hs Hk Hr Hd H2 Hn HQ. destruct b.
  - apply Find_wp; [done..|]. intros p s' Ha. apply HQ. by apply (answered_kept s0 s).
  - apply wp_ret, HQ. by left.
Qed.

Lemma Merge_if_wp d (b : bool) req s Q :
  Ok s -> (b = true -> timestamped_chunks_ s <> []) ->
  (forall x s', Ok s' -> kept s s' -> Q x s') ->
  wp d (if b then MergeTimestampedChunks req else mret false) s Q.
Proof.
  intros Hs Hb HQ. destruct b; [|by apply wp_ret, HQ].
  assert (timing_counter_ s <> None) as Ht.
  { intros Et. destruct (g_timing (ok_good _ Hs) Et) as (_ & _ & E). by apply Hb. }
  apply (MergeTimestampedChunks_wp (regs s)); [apply Hs|done|]. intros x s' HG Hh.
  pose proof (extent_reg_equiv _ _ (hd_extent _ _ _ Hh)) as Hreg. fold (regs s') (regs s) in Hreg.
  apply HQ; split.
  - by rewrite Hreg.
  - rewrite (hd_sub _ _ _ Hh). intros lo hi a Hr%Hreg. by apply (ok_own _ Hs).
  - intros k a. rewrite Hreg. apply Hh.
  - apply Hh.
  - apply Hh.
Qed.

Lemma AllocateRawInternal_wp fuel al n fb s Q :
  Ok s -> garbage_collection cfg = false \/ timing_counter_ s = None -> 0 <= n <= two63 - 256 ->
  (forall p s', answered s n p s' -> (n = 0 -> p = 0) -> Q p s') ->
  wp true (AllocateRawInternal cfg fuel al n fb) s Q.
Proof.
  intros Hs Hgc Hn HQ. unfold AllocateRawInternal. destruct (Z.eqb_spec n 0) as [->|Hn0].
  { apply wp_ret, HQ; [by left|done]. }
  destruct (RoundedBytes_bounds n) as [Hb Hd]; [z64; lia|].
  set (r := RoundedBytes n) in *. assert (0 < r /\ 2 * r < two64 /\ n <= r) as (Hr & H2 & Hnr) by (z64; lia).
  assert (forall p s', answered s n p s' -> Q p s') as HQ' by (intros p s' Ha; by apply HQ).
  cbn zeta. apply wp_bind, wp_gets. apply wp_bind, Merge_if_wp; [done|by rewrite bool_decide_eq_true|].
  intros x1 s1 Hs1 Hk1. apply wp_bind, (Find_if_wp true true s); [done..|]. intros p2 s2 Ha2.
  apply (traced_wp _ s s2 n); [done..|]. intros Hs2 Hk2.
  apply wp_bind, Extend_wp; [done..|by left|]. intros x3 s3 Hs3 Hk3. pose proof (transitivity Hk2 Hk3) as Hk3'.
  apply wp_bind, (Find_if_wp true x3 s); [done..|]. intros p4 s4 Ha4.
  apply (traced_wp _ s s4 n); [done..|]. intros Hs4 Hk4.
  apply wp_bind, wp_gets. apply wp_bind, Merge_if_wp; [done|by intros [_ ?%bool_decide_eq_true]%andb_true_iff|].
  intros x5 s5 Hs5 Hk5. pose proof (transitivity Hk4 Hk5) as Hk5'.
  apply wp_bind, (Find_if_wp true x5 s); [done..|]. intros p6 s6 Ha6.
  apply (traced_wp _ s s6 n); [done..|]. intros Hs6 Hk6.
  apply wp_bind, DeallocateFreeRegions_wp; [done|by rewrite (kp_timing _ _ Hk6)|].
  intros x7 s7 Hs7 Hk7. pose proof (transitivity Hk6 Hk7) as Hk7'.
  apply wp_bind.
  assert (forall Q', (forall b s', Ok s' -> kept s7 s' -> Q' b s') ->
    wp true (if x7 then Extend cfg fuel al r else mret false) s7 Q') as Hext.
  { intros Q' HQ2. destruct x7; [apply Extend_wp; try done; by left|by apply wp_ret, HQ2]. }
  apply Hext. intros x8 s8 Hs8 Hk8. pose proof (transitivity Hk7' Hk8) as Hk8'.
  apply wp_bind, (Find_if_wp true x8 s); [done..|]. intros p9 s9 Ha9.
  apply (traced_wp _ s s9 n); [done..|]. intros Hs9 Hk9. apply wp_ret, HQ'. by left.
Qed.
End Allocate.

(** ** The contract, step by step *)

Section Contract.
Context {Sub : Type} `{SL : SubAllocatorLaws Sub}.
Implicit Types s : bfc Sub.

Lemma used_disjoint s h p sz rq id k q sz' rq' id' :
  Ok s -> used (regs s) s h (p, sz, rq, id) -> used (regs s) s k (q, sz', rq', id') -> h <> k ->
  p + sz <= q \/ q + sz' <= p.
Proof.
  intros Hs (c & Hl & _ & Ec) (e & He & _ & Ee) Hne. unfold core in Ec, Ee.
  injection Ec as <- <- _ _. injection Ee as <- <- _ _. pose proof (i_heap (g_inv (ok_good _ Hs))) as H.
  pose proof (lv_live _ _ _ _ _ Hl) as L1. pose proof (lv_live _ _ _ _ _ He) as L2.
  destruct (Z.le_gt_cases (ptr c + size c) (ptr e)); [by left|].
  destruct (Z.le_gt_cases (ptr e + size e) (ptr c)); [by right|]. exfalso.
  pose proof (live_pos H _ _ L1). pose proof (live_pos H _ _ L2). simpl in *.
  destruct (live_disjoint H _ _ _ _ (Z.max (ptr c) (ptr e)) L1 L2) as [? _]; [unfold n_end; simpl; lia..|done].
Qed.

Lemma view_disjoint s p a q b :
  Ok s -> view s p = Some a -> view s q = Some b -> p <> q ->
  p + alloc_size a <= q \/ q + alloc_size b <= p.
Proof.
  intros Hs. destruct a as [[sz rq] id], b as [[sz' rq'] id'].
  intros [k Hk]%view_used [k' Hk']%view_used Hne; [|done..].
  apply (used_disjoint s k p sz rq id k' q sz' rq' id'); try done. intros ->. apply Hne.
  destruct Hk as (c & Hl & _ & Ec), Hk' as (c' & Hl' & _ & Ec'). unfold core in Ec, Ec'.
  pose proof (lv_fun _ _ _ _ _ _ Hl (proj1 Hl')) as ->. congruence.
Qed.

(** An allocation is memory of a region, hence of the sub-allocator. *)
Lemma view_owned s p a :
  Ok s -> view s p = Some a -> 0 < p /\ 0 < alloc_size a /\ (256 | alloc_size a) /\
  p + alloc_size a < two64 /\ forall x, p <= x < p + alloc_size a -> owns (sub_allocator_ s) x.
Proof.
  intros Hs. destruct a as [[sz rq] id]. intros [k (c & Hl & Hu & Ec)]%view_used; [|done].
  unfold core in Ec. injection Ec as <- <- _ _. simpl. pose proof (g_inv (ok_good _ Hs)) as H.
  destruct (lv_bounds _ _ _ s k c H Hl) as (? & ? & ? & ?). split_and!; try done.
  intros x Hx. destruct (hp_placed (i_heap H) _ _ (lv_live _ _ _ _ _ Hl)) as (lo & hi & [Hr Hlo Hhi _ _ _ _ _]).
  apply (ok_own _ Hs lo hi x Hr). unfold n_end in Hhi. unfold alloc_size in Hx. simpl in Hx, Hlo, Hhi. lia.
Qed.

Lemma answered_spec s n p s' :
  Ok s -> 0 <= n -> (n = 0 -> p = 0) -> answered s n p s' -> alloc_spec (view s) n p (view s').
Proof.
  intros Hs Hn Hz [(-> & Hs' & Hk)|[Hp [Hs' _ (h & sz & H1 & H2 & H3 & H4 & H5)]]].
  - apply alloc_fails. by apply kept_view.
  - pose proof (g_inv (ok_good _ Hs)) as H.
    apply (alloc_succeeds _ _ p sz (next_allocation_id_ s)); try done; [lia|..].
    + intros q [[sz' rq'] id'] [k Hk]%view_used; [|done]. simpl.
      apply (used_disjoint s' h p sz n (next_allocation_id_ s) k q sz' rq' id'); [done|apply H5; by left|apply H5; by right|].
      intros ->. by apply (H4 _ Hk).
    + intros q [[sz' rq'] id'] [k (c & Hl & Hu & Ec)]%view_used E; [|done]. simpl in E.
      pose proof (i_ids H k c (proj1 Hl) Hu) as Hid. unfold core in Ec. injection Ec as _ _ _ E'. lia.
    + assert (forall q a, view s' q = Some a <-> alloc_add (view s) p (sz, n, next_allocation_id_ s) q = Some a) as Hv.
      { intros q [[sz' rq'] id']. rewrite view_used by done. unfold alloc_add. setoid_rewrite H5. split.
        - intros [k [[-> [= -> -> -> ->]]|Hk]]; [by rewrite decide_True|].
          rewrite decide_False; [apply view_used; [done|by exists k]|]. intros ->.
          assert (used (regs s') s' h (p, sz, n, next_allocation_id_ s)) as Hh by (apply H5; by left).
          assert (used (regs s') s' k (p, sz', rq', id')) as Hk' by (apply H5; by right).
          destruct (used_fun s' h p sz n _ k _ Hs' Hh Hk' eq_refl) as [-> _]. by apply (H4 _ Hk).
        - case_decide as E; [intros [= <- <- <-]; exists h; left; by subst|].
          intros [k Hk]%view_used; [|done]. exists k. by right. }
      intros q. apply option_eq. intros a. apply Hv.
Qed.

(** ** DeallocateRaw *)

Lemma dealloc_wp d s p a Q :
  Ok s -> view s p = Some a ->
  (forall s', Ok s' -> (timing_counter_ s = None <-> timing_counter_ s' = None) ->
     (forall q, view s' q = alloc_del (view s) p q) -> Q () s') ->
  wp d (DeallocateRawInternal p) s Q.
Proof.
  intros Hs Hv HQ. destruct a as [[sz rq] id]. pose proof Hv as [h Hh]%view_used; [|done].
  pose proof Hh as (c & Hl & Hu & Ec). unfold core in Ec. injection Ec as Ep _ _ _. rewrite <- Ep.
  apply (DeallocateRawInternal_wp (regs s) d s h c); [apply Hs|done..|].
  intros s' HG He Hus Hsub Ht. pose proof (extent_reg_equiv _ _ He) as Hreg. fold (regs s') (regs s) in Hreg.
  assert (Ok s') as Hs'.
  { split; [by rewrite Hreg|]. rewrite Hsub. intros lo hi x Hr%Hreg. by apply (ok_own _ Hs). }
  apply HQ; [done..|]. intros q. apply option_eq. intros [[sz' rq'] id']. rewrite view_used by done.
  unfold alloc_del. setoid_rewrite Hreg. setoid_rewrite Hus. split.
  - intros [k [Hk Huk]]. rewrite decide_False; [apply view_used; [done|by exists k]|]. intros ->.
    by destruct (used_fun s h p sz rq id k _ Hs Hh Huk eq_refl).
  - case_decide as E; [done|]. intros [k Hk]%view_used; [|done]. exists k. split; [|done].
    intros ->. apply E. destruct Hk as (c' & Hl' & _ & Ec').
    pose proof (lv_fun _ _ _ _ _ _ Hl' (proj1 Hl)) as ->. unfold core in Ec'. congruence.
Qed.
End Contract.
