(* ===== verification/BfcQuery.v ===== *)
(** * Freed memory is used again, and the queries of the allocator. *)

From Stdlib Require Import ZArith Lia.
From stdpp Require Import sorting.
From S2P Require Import Prelude MachineInt BfcAllocator BfcHeap BfcRegions BfcInv BfcOps BfcCoalesce BfcFree BfcAlloc.
From S2P Require Import BfcSub BfcRegister BfcExtend BfcCollect BfcSpec.

(** ** Freed memory is used again

    Coalescing in xla/tsl/framework/bfc_allocator.cc: memory that no allocation
    overlaps lies within a single free chunk, so that an allocation that fits is
    served from it without a new region. *)

Section Reuse.
Context {Sub : Type} `{SL : SubAllocatorLaws Sub}.
Implicit Types s : bfc Sub.

(** No allocation overlaps [p, p + sz). *)
Definition untouched s (p sz : Z) : Prop :=
  forall k q sz' rq id, used (regs s) s k (q, sz', rq, id) -> q + sz' <= p \/ p + sz <= q.

Lemma free_cover s lo hi p sz :
  Ok s -> timing_counter_ s = None -> regs s lo hi -> lo <= p -> p + sz <= hi -> 0 < sz ->
  untouched s p sz ->
  exists h c, live_chunk (regs s) s h c /\ in_use c = false /\ ptr c <= p /\ p + sz <= ptr c + size c.
Proof.
  intros Hs Ht Hr Hlo Hhi Hpos Hun. pose proof (ok_good _ Hs) as HG.
  pose proof (i_heap (g_inv HG)) as H.
  assert (forall h c, live_chunk (regs s) s h c -> ptr c < p + sz -> p < ptr c + size c -> in_use c = false) as Hfree.
  { intros h c Hl H1 H2. destruct (in_use c) eqn:E; [|done]. exfalso.
    destruct (Hun h (ptr c) (size c) (requested_size c) (allocation_id c)); [by exists c|lia..]. }
  destruct (region_covered H lo hi p Hr ltac:(lia)) as (h & n & (c & Hl & ->)%live_lv & Hp).
  unfold n_end in Hp. simpl in Hp. assert (in_use c = false) as Hu by (apply (Hfree h); [done|lia..]).
  exists h, c. split_and!; try done; [lia|].
  destruct (Z.le_gt_cases (p + sz) (ptr c + size c)) as [|Hlt]; [done|exfalso].
  pose proof (lv_live _ _ _ _ _ Hl) as Hlv. pose proof (live_pos H _ _ Hlv) as Hpc. simpl in Hpc.
  assert (lo <= ptr c < hi) as Hin.
  { destruct (hp_placed H _ _ Hlv) as (lo' & hi' & [Hr' Hlo' Hhi' _ _ _ _ _]). unfold n_end in Hhi'. simpl in *.
    destruct (reg_same (hp_reg H) lo hi lo' hi' p Hr Hr') as [-> ->]; lia. }
  destruct (live_reg_unique H h _ lo hi Hlv Hr Hin) as [_ _ _ _ _ _ Hnx _]. unfold n_end in Hnx. simpl in Hnx.
  destruct (next c) as [k|] eqn:Ek; [|lia].
  destruct (live_next H h _ k Hlv Ek) as (m & (e & He & ->)%live_lv & Hpe & _). unfold n_end in Hpe. simpl in Hpe.
  pose proof (live_pos H _ _ (lv_live _ _ _ _ _ He)) as Hpos'. simpl in Hpos'.
  assert (in_use e = false) as Hue by (apply (Hfree k); [done|lia..]).
  destruct (g_timing HG Ht) as (_ & HA & _).
  destruct (HA h c k e Hl Ek He Hu Hue) as [Hx|Hx]; by apply not_elem_of_empty in Hx.
Qed.

(** An allocation that some free chunk can hold is served at once. *)
Lemma AllocateRaw_from_free cfg fuel al n fb s h c :
  cfg_ok cfg -> Ok s -> timing_counter_ s = None -> 0 < n <= two63 - 256 ->
  live_chunk (regs s) s h c -> in_use c = false -> RoundedBytes n <= size c ->
  exists q s', AllocateRawInternal cfg fuel al n fb s = OK (q, s') /\ q <> 0.
Proof.
  intros Hcfg Hs Ht Hn Hl Hu Hle. apply (wp_false _ _ (fun q _ => q <> 0)). unfold AllocateRawInternal.
  rewrite (proj2 (Z.eqb_neq _ _)) by lia. cbn zeta. apply wp_bind, wp_gets.
  destruct (g_timing (ok_good _ Hs) Ht) as ([_ Hq] & _ & Hts). rewrite Hts, bool_decide_false by naive_solver.
  apply wp_bind, wp_ret. destruct (RoundedBytes_bounds n) as [Hb Hd]; [z64; lia|].
  apply wp_bind, (FindChunkPtr_wp cfg (regs s) s (RoundedBytes n) fb (g_inv (ok_good _ Hs))
    (fun p => decide (grid (regs s) p))); [done|lia|done|z64; lia|..].
  - intros Hnone. exfalso. specialize (Hnone h c Hl Hu). unfold BfcAlloc.fits in Hnone.
    rewrite (Hq h c Hl), (proj2 (Z.leb_le _ _)), andb_true_r in Hnone by done.
    apply negb_false_iff in Hnone. lia.
  - intros h' c' s' _ Ha. pose proof (allocated_handed cfg s _ _ _ _ Hs (proj1 Hb) Ha) as Hh.
    destruct (ha_chunk _ _ _ _ Hh) as (j & sz & Hp & _ & _ & _ & Hus).
    unfold traced. rewrite (proj2 (Z.eqb_neq _ _)) by lia.
    apply wp_bind, (AddTraceMe_wp false s' j (ptr c') sz n (next_allocation_id_ s)); [apply Hh|apply Hus; by left|].
    apply wp_ret. lia.
Qed.

(** What has been freed is one free chunk, with what surrounds it. *)
Lemma dealloc_covered s p sz rq id :
  Ok s -> timing_counter_ s = None -> view s p = Some (sz, rq, id) ->
  exists s1, DeallocateRawInternal p s = OK ((), s1) /\ Ok s1 /\ timing_counter_ s1 = None /\
    exists h c, live_chunk (regs s1) s1 h c /\ in_use c = false /\ ptr c <= p /\ p + sz <= ptr c + size c.
Proof.
  intros Hs Ht Hv. pose proof Hv as [h Hh]%view_used; [|done].
  pose proof Hh as (c & Hl & Hu & Ec). unfold core in Ec. injection Ec as Ep Esz _ _.
  enough (wp false (DeallocateRawInternal p) s (fun _ s1 => Ok s1 /\ timing_counter_ s1 = None /\
    exists h c, live_chunk (regs s1) s1 h c /\ in_use c = false /\ ptr c <= p /\ p + sz <= ptr c + size c))
    as ([] & s1 & E & ?)%wp_false by (by exists s1).
  rewrite <- Ep at 1.
  apply (DeallocateRawInternal_wp (regs s) false s h c); [apply Hs|done..|].
  intros s1 HG He Hus Hsub Ht1. pose proof (extent_reg_equiv _ _ He) as Hreg. fold (regs s1) (regs s) in Hreg.
  assert (Ok s1) as Hs1.
  { split; [by rewrite Hreg|]. rewrite Hsub. intros lo hi x Hr%Hreg. by apply (ok_own _ Hs). }
  apply Ht1 in Ht. split_and!; [done..|].
  destruct (hp_placed (i_heap (g_inv (ok_good _ Hs))) _ _ (lv_live _ _ _ _ _ Hl)) as (lo & hi & [Hr Hlo Hhi _ Hpos _ _ _]).
  unfold n_end in Hhi. simpl in Hlo, Hhi, Hpos.
  apply (free_cover s1 lo hi p sz); [done|done|by apply Hreg|lia..|].
  intros k q sz' rq' id' Hk. rewrite Hreg in Hk. apply Hus in Hk as [Hne Hk].
  destruct (used_disjoint s h p sz rq id k q sz' rq' id' Hs Hh Hk) as [?|?]; [done|by right|by left].
Qed.
End Reuse.

(** ** Queries

    LargestFreeChunk, RequestedSize, AllocatedSize and AllocationId of
    xla/tsl/framework/bfc_allocator.cc. *)

(** ** The largest free chunk *)

Section Largest.
Context {Sub : Type} (R : Z -> Z -> Prop) (s : bfc Sub).
Hypothesis H : Inv R ∅ ∅ s.
Hypothesis Hdec : forall p, {grid R p} + {~ grid R p}.
Hypothesis Hsmall : forall h c, live_chunk R s h c -> size c < two63.

Definition free_chunk (h : nat) (c : Chunk) : Prop := live_chunk R s h c /\ in_use c = false.

Lemma last_max cs l h c k e :
  StronglySorted (less cs) l -> last l = Some h -> cs !! h = Some c -> k ∈ l -> cs !! k = Some e ->
  size e <= size c.
Proof.
  intros Hs Hl Hc Hk He. apply last_Some in Hl as [l' ->].
  apply elem_of_app in Hk as [Hk|Hk%list_elem_of_singleton]; [|subst k; assert (e = c) as -> by congruence; lia].
  apply StronglySorted_app in Hs as (Hlt & _ & _).
  destruct (Hlt k h Hk ltac:(by apply list_elem_of_singleton)) as (a & b & Ha & Hb & Hab%chunk_less_spec).
  assert (a = e /\ b = c) as [-> ->] by (split; congruence). lia.
Qed.

Lemma largest_in_bins_spec n : (n <= kNumBins)%nat ->
  exists r, largest_in_bins n s = OK (r, s) /\
    (forall h c, free_chunk h c -> (BinNumForSize (size c) < n)%nat -> size c <= r) /\
    (r = 0 \/ exists h c, free_chunk h c /\ size c = r).
Proof.
  induction n as [|b IH]; intros Hn.
  { exists 0. split_and!; [done|intros; lia|by left]. }
  destruct (IH ltac:(lia)) as (r & Er & Hmax & Hr). simpl.
  unfold mbind, M_bind, BinFromIndex.
  destruct (i_bins H) as (Hlen & _ & Hbins).
  destruct (lookup_lt_is_Some_2 (bins_ s) b ltac:(lia)) as [l Hl]. rewrite Hl.
  pose proof (fun h => bin_members R s H Hdec b l h Hl) as Hmem.
  destruct (last l) as [h|] eqn:Elast.
  - assert (h ∈ l) as (c & Hlv & Hu & Eb)%Hmem.
    { apply last_Some in Elast as [l' ->]. apply elem_of_app. right. by left. }
    unfold ChunkFromHandle. rewrite (proj1 Hlv).
    destruct (lv_bounds _ _ _ s h c H Hlv) as (_ & Hpos & _).
    pose proof (Hsmall h c Hlv). exists (size c).
    assert (i64 (size c) = size c) as Ei by (apply i64_small, is_i64_spec; z64; lia).
    split_and!; [by rewrite Ei| |right; by exists h, c].
    intros k e [Hk Huk] Hb. destruct (decide (BinNumForSize (size e) = b)) as [E|E].
    + destruct (Hbins b l Hl) as [[Hsort _] _]. apply (last_max _ l h c k e Hsort Elast (proj1 Hlv)); [|apply Hk].
      apply Hmem. by exists e.
    + destruct (Z.le_gt_cases (size e) (size c)) as [|Hlt]; [done|].
      pose proof (BinNumForSize_mono (size c) (size e) ltac:(lia)). lia.
  - apply last_None in Elast. subst l. exists r. split_and!; [done| |done].
    intros k e [Hk Huk] Hb. apply (Hmax k e); [done|].
    destruct (decide (BinNumForSize (size e) = b)) as [E|E]; [|lia].
    exfalso. apply (not_elem_of_nil k), Hmem. by exists e.
Qed.

Lemma LargestFreeChunk_spec :
  exists r, LargestFreeChunk s = OK (r, s) /\ (forall h c, free_chunk h c -> size c <= r) /\
    (r = 0 \/ exists h c, free_chunk h c /\ size c = r).
Proof.
  destruct (largest_in_bins_spec kNumBins ltac:(done)) as (r & E & Hmax & Hr).
  exists r. split_and!; [done| |done]. intros h c Hf. apply (Hmax h c Hf), BinNumForSize_lt.
Qed.
End Largest.

(** ** The sizes of an allocation *)

Section Sizes.
Context {Sub : Type} `{SL : SubAllocatorLaws Sub}.
Implicit Types s : bfc Sub.

Lemma chunk_at_spec s p sz rq id :
  Ok s -> view s p = Some (sz, rq, id) ->
  exists c, chunk_at p s = OK (c, s) /\ size c = sz /\ requested_size c = rq /\ allocation_id c = id /\ p <> 0.
Proof.
  intros Hs [h (c & Hl & Hu & Ec)]%view_used; [|done]. unfold core in Ec. injection Ec as <- <- <- <-.
  pose proof (g_inv (ok_good _ Hs)) as H. destruct (lv_bounds _ _ _ s h c H Hl) as (? & _).
  exists c. split_and!; try done; [|lia].
  assert (wp false (chunk_at (ptr c)) s (fun c' s' => c' = c /\ s' = s)) as (c' & s' & E & -> & ->)%wp_false.
  { unfold chunk_at. apply wp_bind, (get_handle_wp (regs s) _ ∅ ∅); [done|apply Hl|].
    rewrite (proj2 (proj2 Hl)). apply wp_bind, (wp_lift _ _ h); [done|].
    apply (wp_chunk _ _ c); [apply Hl|done]. }
  exact E.
Qed.
End Sizes.
