(* ===== verification/BfcTheorems.v ===== *)
(** * The properties of the BFC allocator, and what modelling it showed. *)

From Stdlib Require Import ZArith Lia.
From S2P Require Import Prelude MachineInt BfcAllocator BfcHeap BfcRegions BfcInv BfcOps BfcCoalesce BfcFree BfcAlloc.
From S2P Require Import BfcSub BfcRegister BfcExtend BfcCollect BfcSpec BfcQuery.

(** ** The allocator: theorems

    What AllocateRaw and DeallocateRaw of xla/tsl/framework/bfc_allocator.cc
    promise, call by call and for every sequence of calls, with a small
    sub-allocator on which the hypotheses hold and the definitions run. *)

(** ** A sub-allocator

    It owns a list of intervals and hands out the addresses after the last. *)

Definition Arena : Type := list (Z * Z).
Definition arena_next (a : Arena) : Z := fold_right (fun b m => Z.max (snd b) m) 4096 a.
Definition arena_cut (p n : Z) (b : Z * Z) : list (Z * Z) :=
  [(fst b, Z.min (snd b) p); (Z.max (fst b) (p + n), snd b)].

#[export] Instance Arena_SubAllocator : SubAllocator Arena := {
  Alloc a al n := let p := arena_next a in
    if p + n <? 1048576 then ((p, n), (p, p + n) :: a) else ((0, 0), a);
  Free a p n := concat (arena_cut p n <$> a);
}.

Definition arena_owns (a : Arena) (x : Z) : Prop := exists b, b ∈ a /\ fst b <= x < snd b.

Lemma arena_next_le a b : b ∈ a -> snd b <= arena_next a.
Proof.
  induction a as [|c a IH]; [by intros ?%not_elem_of_nil|]. simpl. unfold arena_next in *. simpl.
  intros [->|Hb]%elem_of_cons; [lia|]. specialize (IH Hb). lia.
Qed.

Lemma arena_next_pos a : 0 < arena_next a.
Proof. unfold arena_next. induction a as [|c a IH]; simpl; lia. Qed.

Lemma arena_owns_cons b a x : arena_owns (b :: a) x <-> arena_owns a x \/ fst b <= x < snd b.
Proof.
  unfold arena_owns. setoid_rewrite elem_of_cons. split.
  - intros (c & [->|Hc] & Hx); [by right|left; by exists c].
  - intros [(c & Hc & Hx)|Hx]; [exists c; auto|exists b; auto].
Qed.

#[export] Program Instance Arena_laws : SubAllocatorLaws Arena := {
  owns := arena_owns;
}.
Next Obligation.
  intros a al n r a'. simpl. pose proof (arena_next_pos a) as Hp.
  destruct (_ <? 1048576); intros [=]; subst; [lia|done].
Qed.
Next Obligation.
  intros a al n p r a'. simpl. pose proof (arena_next_pos a) as Hpos.
  destruct (Z.ltb_spec (arena_next a + n) 1048576); intros [=] Hp Hn Hd; subst; [|done].
  split_and!; try done; [z64; lia|..].
  - intros x Hx (b & Hb%arena_next_le & Hxb). lia.
  - intros x. by rewrite arena_owns_cons.
Qed.
Next Obligation.
  intros a p n x. simpl. unfold arena_owns. split.
  - intros (b & Hb & Hx). apply list_elem_of_In, in_concat in Hb as (l & Hl & Hb).
    apply list_elem_of_In, list_elem_of_fmap in Hl as (c & -> & Hc).
    simpl in Hb. destruct Hb as [<-|[<-|[]]]; simpl in Hx; (split; [exists c; split; [done|lia]|lia]).
  - intros [(c & Hc & Hx) Hn].
    assert (forall b, In b (arena_cut p n c) -> b ∈ concat (arena_cut p n <$> a)) as Hin.
    { intros b Hb. apply list_elem_of_In, in_concat. exists (arena_cut p n c). split; [|done].
      apply list_elem_of_In. by apply list_elem_of_fmap_2. }
    destruct (Z.lt_ge_cases x p); [exists (fst c, Z.min (snd c) p)|exists (Z.max (fst c) (p + n), snd c)];
      (split; [apply Hin; simpl; auto|simpl; lia]).
Qed.

(** ** The steps of a client *)

Section Client.
Context {Sub : Type} `{SL : SubAllocatorLaws Sub} (cfg : Config).
Implicit Types s : bfc Sub.

(** Garbage collection is not combined with a timing counter. *)
Definition plain s : Prop := garbage_collection cfg = false \/ timing_counter_ s = None.

(** A call that returns.  A client frees what is allocated. *)
Inductive step : bfc Sub -> bfc Sub -> Prop :=
  | step_AllocateRaw fuel al n fb s p s' :
      0 <= n <= two63 - 256 -> AllocateRawInternal cfg fuel al n fb s = OK (p, s') -> step s s'
  | step_DeallocateRaw s p a s' :
      view s p = Some a -> DeallocateRawInternal p s = OK ((), s') -> step s s'
  | step_SetSafeFrontier s n s' : SetSafeFrontier n s = OK ((), s') -> step s s'
  | step_ClearStats s b s' : ClearStats s = OK (b, s') -> step s s'.

Inductive reachable : bfc Sub -> Prop :=
  | reachable_init allow_growth counter sub :
      garbage_collection cfg = false \/ counter = None ->
      reachable (BFCAllocator cfg allow_growth counter sub)
  | reachable_step s s' : reachable s -> step s s' -> reachable s'.

Lemma heap_ok_empty nd R sl : (forall lo hi, ~ R lo hi) -> heap_ok nd R sl.
Proof.
  intros Hno. assert (forall p, ~ grid R p) as Hg by (intros p (lo & hi & Hr & _); by apply (Hno lo hi)).
  split.
  - split; intros lo hi **; exfalso; by apply (Hno lo hi).
  - intros p h Hp. exfalso. by apply (Hg p).
  - intros lo hi Hr. exfalso. by apply (Hno lo hi).
  - intros h n (_ & Hp & _). exfalso. by apply (Hg (n_ptr n)).
  - intros h n q (_ & Hp & _). exfalso. by apply (Hg (n_ptr n)).
Qed.

Lemma init_Ok allow_growth counter sub : Ok (BFCAllocator cfg allow_growth counter sub).
Proof.
  assert (forall lo hi, ~ reg_of [] lo hi) as Hno by (intros lo hi (r & Hr & _); by apply not_elem_of_nil in Hr).
  assert (forall h c rs, ~ lv (reg_of []) [] rs h c) as Hlv by (by intros h c rs (Hc & _)).
  split; [|intros lo hi a Hr; exfalso; by apply (Hno lo hi)].
  split.
  - split; simpl; try done.
    + split; constructor.
    + by apply heap_ok_empty.
    + intros h c Hl. exfalso. by apply (Hlv h c []).
    + change (bins_ok [] (replicate kNumBins [])). split_and!; [done..|]. intros b l Hb. apply lookup_replicate in Hb as [-> _]. split.
      * by split; constructor.
      * intros h. split; [by intros ?%not_elem_of_nil|by intros (c & ? & _)].
    + exists []. split_and!; [done|constructor|]. intros h Hh. by apply not_elem_of_nil in Hh.
  - intros h Hh. by apply not_elem_of_nil in Hh.
  - simpl. destruct allow_growth; apply RoundedBytes_divide.
  - intros Ht. split_and!; [split; [done|]|..|done].
    + intros h c Hl. exfalso. by apply (Hlv h c []).
    + intros h c k e Hl. exfalso. by apply (Hlv h c []).
Qed.

Lemma step_Ok s s' : cfg_ok cfg -> Ok s -> plain s -> step s s' -> Ok s' /\ plain s'.
Proof.
  intros Hcfg Hs Hp Hst.
  destruct Hst as [fuel al n fb s0 p s1 Hn E|s0 p a s1 Hv E|s0 n s1 E|s0 b s1 E].
  - refine (wp_OK true _ _ (fun _ s1 => Ok s1 /\ plain s1) _ _ E _).
    apply AllocateRawInternal_wp; [done..|]. intros q s2 [(_ & Ho & Hk)|[_ Hh]] _.
    + split; [done|]. unfold plain. by rewrite (kp_timing _ _ Hk).
    + split; [apply Hh|]. unfold plain. by rewrite (ha_timing _ _ _ _ Hh).
  - refine (wp_OK false _ _ (fun _ s1 => Ok s1 /\ plain s1) _ _ E _).
    apply (dealloc_wp _ _ _ a); [done..|]. intros s2 Ho Ht _. split; [done|].
    destruct Hp as [?|Hp]; [by left|right; by apply Ht].
  - unfold SetSafeFrontier, mbind, M_bind, gets, modify in E. destruct (_ <? n); injection E as <-; [|done].
    destruct (Ok_frame s0 (with_frontier n s0)); try done. apply (ok_good _ Hs).
  - injection E as _ <-. set (s1 := with_stats _ _).
    destruct (Ok_frame s0 s1); try done. apply (ok_good _ Hs).
Qed.

Lemma reachable_Ok s : cfg_ok cfg -> reachable s -> Ok s /\ plain s.
Proof.
  intros Hcfg. induction 1 as [g c sub Hc|s s' _ [IH1 IH2] Hst].
  - split; [apply init_Ok|done].
  - by apply (step_Ok s s').
Qed.
End Client.

(** ** Runs on the arena *)

Definition demo_cfg : Config := mkConfig 1048576 false true 134217728.
Definition run {A} (m : M Arena A) (s : bfc Arena) : bfc Arena :=
  match m s with OK (_, s') => s' | _ => s end.
Definition demo0 : bfc Arena := BFCAllocator demo_cfg true None [].
Definition demo1 : bfc Arena := run (AllocateRawInternal demo_cfg 70 64 300 0) demo0.
Definition demo2 : bfc Arena := run (AllocateRawInternal demo_cfg 70 64 1000 0) demo1.
Definition demo3 : bfc Arena := run (DeallocateRawInternal 4096) demo2.

(** A region, found by evaluation. *)
Lemma regs_find (s : bfc Arena) lo hi :
  existsb (fun r => (region_ptr r =? lo) && (end_ptr r =? hi)) (regions_ s) = true -> regs s lo hi.
Proof.
  intros (r & Hr & [Hlo%Z.eqb_eq Hhi%Z.eqb_eq]%andb_true_iff)%existsb_exists.
  exists r. split; [by apply list_elem_of_In|done].
Qed.

Lemma small_chunks (cs : list Chunk) h c :
  forallb (fun c => size c <? two63) cs = true -> cs !! h = Some c -> size c < two63.
Proof.
  rewrite forallb_forall. intros Hs Hc. apply Z.ltb_lt, Hs, list_elem_of_In.
  by apply list_elem_of_lookup_2 in Hc.
Qed.

Lemma demo_cfg_ok : cfg_ok demo_cfg.
Proof. by split. Qed.

Lemma demo_reachable : reachable demo_cfg demo0 /\ reachable demo_cfg demo1 /\
  reachable demo_cfg demo2 /\ reachable demo_cfg demo3.
Proof.
  assert (reachable demo_cfg demo0) as H0 by (apply reachable_init; by left).
  assert (reachable demo_cfg demo1) as H1.
  { apply (reachable_step _ _ _ H0), (step_AllocateRaw _ 70 64 300 0 _ 4096); [done|]. by vm_compute. }
  assert (reachable demo_cfg demo2) as H2.
  { apply (reachable_step _ _ _ H1), (step_AllocateRaw _ 70 64 1000 0 _ 4608); [done|]. by vm_compute. }
  split_and!; [done..|].
  apply (reachable_step _ _ _ H2), (step_DeallocateRaw _ _ 4096 (512, 300, 1)); by vm_compute.
Qed.

Lemma demo_Ok : Ok demo0 /\ Ok demo1 /\ Ok demo2 /\ Ok demo3.
Proof.
  destruct demo_reachable as (H0 & H1 & H2 & H3).
  split_and!; eapply reachable_Ok; [exact demo_cfg_ok|exact H0|exact demo_cfg_ok|exact H1|
    exact demo_cfg_ok|exact H2|exact demo_cfg_ok|exact H3].
Qed.

(** ** AllocateRaw and DeallocateRaw refine the specification *)

(** C1: AllocateRaw on a state of the allocator never crashes and refines the
    abstract allocator: it returns null and leaves the map of allocations as it
    is, or adds one fresh block of at least the bytes asked for, a multiple of 256
    bytes that overlaps no other allocation, under a new id.  It may merge,
    extend, back off and collect regions on the way; the invariant holds again. *)
Theorem AllocateRaw_refines {Sub : Type} `{SL : SubAllocatorLaws Sub} (cfg : Config) (fuel : nat)
    (al n fb : Z) (s : bfc Sub)
    (Hcfg : cfg_ok cfg) (Hs : Ok s) (Hp : plain cfg s) (Hn : 0 <= n <= two63 - 256) :
  match AllocateRawInternal cfg fuel al n fb s with
  | OK (p, s') => Ok s' /\ plain cfg s' /\ alloc_spec (view s) n p (view s')
  | NoFuel => True
  | _ => False
  end.
Proof.
  assert (wp true (AllocateRawInternal cfg fuel al n fb) s
    (fun p s' => Ok s' /\ plain cfg s' /\ alloc_spec (view s) n p (view s'))) as Hw.
  { apply AllocateRawInternal_wp; [done..|]. intros p s' Ha Hz.
    pose proof (answered_spec s n p s' Hs ltac:(lia) Hz Ha) as Hspec.
    split_and!; [by destruct Ha as [(_ & ? & _)|[_ ?%ha_ok]]| |done].
    unfold plain. destruct Ha as [(_ & _ & Hk)|[_ Hh]]; [by rewrite (kp_timing _ _ Hk)|].
    by rewrite (ha_timing _ _ _ _ Hh). }
  unfold wp in Hw. by destruct (AllocateRawInternal cfg fuel al n fb s) as [[p s']| | |].
Qed.

Lemma AllocateRaw_refines_witness :
  match AllocateRawInternal demo_cfg 70 64 1000 0 demo1 with
  | OK (p, s') => Ok s' /\ plain demo_cfg s' /\ alloc_spec (view demo1) 1000 p (view s')
  | NoFuel => True
  | _ => False
  end.
Proof.
  apply (AllocateRaw_refines demo_cfg 70 64 1000 0 demo1);
    [exact demo_cfg_ok|apply demo_Ok|by left|split; by vm_compute].
Defined.

(** C21: DeallocateRaw of an allocated address returns, and removes exactly this
    allocation from the map; the chunk is merged with its free neighbours or put
    on the list of timestamped chunks, and the invariant holds again. *)
Theorem DeallocateRaw_refines {Sub : Type} `{SL : SubAllocatorLaws Sub} (s : bfc Sub) (p : Z)
    (a : allocation) (Hs : Ok s) (Hv : view s p = Some a) :
  exists s', DeallocateRawInternal p s = OK ((), s') /\ Ok s' /\
    forall q, view s' q = alloc_del (view s) p q.
Proof.
  assert (wp false (DeallocateRawInternal p) s (fun _ s' => Ok s' /\ forall q, view s' q = alloc_del (view s) p q))
    as ([] & s' & E & H)%wp_false; [|by exists s'].
  apply (dealloc_wp _ _ _ a); [done..|]. by intros s' Ho _ Hd.
Qed.

Lemma DeallocateRaw_refines_witness :
  view demo2 4096 = Some (512, 300, 1) /\
  exists s', DeallocateRawInternal 4096 demo2 = OK ((), s') /\ Ok s' /\
    forall q, view s' q = alloc_del (view demo2) 4096 q.
Proof.
  split; [by vm_compute|].
  apply (DeallocateRaw_refines demo2 4096 (512, 300, 1)); [apply demo_Ok|by vm_compute].
Defined.

(** ** Every sequence of calls *)

(** C2: whatever sequence of allocations, deallocations, SetSafeFrontier and
    ClearStats calls a client makes, the live allocations are multiples of 256
    bytes of memory that the sub-allocator handed out and has not got back, no two
    of them overlap, and no two have the same id. *)
Theorem reachable_allocations_safe {Sub : Type} `{SL : SubAllocatorLaws Sub} (cfg : Config) (s : bfc Sub)
    (Hcfg : cfg_ok cfg) (Hr : reachable cfg s) :
  forall p sz rq id, view s p = Some (sz, rq, id) ->
    (0 < p /\ 0 < sz /\ (256 | sz) /\ p + sz < two64) /\
    (forall x, p <= x < p + sz -> owns (sub_allocator_ s) x) /\
    forall q sz' rq' id', view s q = Some (sz', rq', id') -> p <> q ->
      (p + sz <= q \/ q + sz' <= p) /\ id <> id'.
Proof.
  destruct (reachable_Ok cfg s Hcfg Hr) as [Hs _]. intros p sz rq id Hv.
  destruct (view_owned s p _ Hs Hv) as (H1 & H2 & H3 & H4 & H5).
  split_and!; [done..|]. intros q sz' rq' id' Hv' Hne. split.
  - exact (view_disjoint s p _ q _ Hs Hv Hv' Hne).
  - intros ->. apply Hne. apply view_used in Hv as (k & c & Hl & Hu & Ec); [|done].
    apply view_used in Hv' as (k' & c' & Hl' & Hu' & Ec'); [|done]. unfold core in Ec, Ec'.
    assert (k = k') as <-.
    { apply (i_unique (g_inv (ok_good _ Hs)) k k' c c' (proj1 Hl) (proj1 Hl') Hu). congruence. }
    pose proof (lv_fun _ _ _ _ _ _ Hl (proj1 Hl')) as ->. congruence.
Qed.

Lemma reachable_allocations_safe_witness :
  view demo2 4608 = Some (1024, 1000, 2) /\ (0 < 4608 /\ 0 < 1024 /\ (256 | 1024) /\ 4608 + 1024 < two64) /\
  (forall x, 4608 <= x < 4608 + 1024 -> owns (sub_allocator_ demo2) x) /\
  forall q sz' rq' id', view demo2 q = Some (sz', rq', id') -> 4608 <> q ->
    (4608 + 1024 <= q \/ q + sz' <= 4608) /\ 2 <> id'.
Proof.
  split; [by vm_compute|].
  apply (reachable_allocations_safe demo_cfg demo2 demo_cfg_ok (proj1 (proj2 (proj2 demo_reachable)))) with (rq := 1000).
  by vm_compute.
Defined.

(** C22: after any sequence of calls every region is tiled: each of its addresses
    lies in exactly one chunk, and when no timing counter is installed two
    neighbouring chunks are never both free. *)
Theorem reachable_regions_tiled {Sub : Type} `{SL : SubAllocatorLaws Sub} (cfg : Config) (s : bfc Sub)
    (Hcfg : cfg_ok cfg) (Hr : reachable cfg s) :
  (forall lo hi x, regs s lo hi -> lo <= x < hi ->
    exists h c, live_chunk (regs s) s h c /\ lo <= ptr c <= x /\ x < ptr c + size c <= hi /\
      forall k e, live_chunk (regs s) s k e -> ptr e <= x < ptr e + size e -> k = h) /\
  (timing_counter_ s = None -> forall h c k e,
    live_chunk (regs s) s h c -> next c = Some k -> live_chunk (regs s) s k e ->
    ptr e = ptr c + size c /\ (in_use c = true \/ in_use e = true)).
Proof.
  destruct (reachable_Ok cfg s Hcfg Hr) as [Hs _]. pose proof (i_heap (g_inv (ok_good _ Hs))) as H. split.
  - intros lo hi x Hlh Hx. destruct (region_covered H lo hi x Hlh Hx) as (h & n & (c & Hl & ->)%live_lv & Hp).
    unfold n_end in Hp. simpl in Hp. pose proof (lv_live _ _ _ _ _ Hl) as Hlv.
    destruct (hp_placed H _ _ Hlv) as (lo' & hi' & [Hr' Hlo' Hhi' _ _ _ _ _]). unfold n_end in Hhi'. simpl in *.
    destruct (reg_same (hp_reg H) lo hi lo' hi' x Hlh Hr') as [-> ->]; [lia..|].
    exists h, c. split_and!; [done|lia..|]. intros k e He Hpe.
    destruct (live_disjoint H k (node_of e) h (node_of c) x) as [-> _]; [by apply lv_live|done|exact Hpe|exact Hp|done].
  - intros Ht h c k e Hl Hk He. split.
    + destruct (live_next H h _ k (lv_live _ _ _ _ _ Hl) Hk) as (m & (e' & He' & ->)%live_lv & Hpe & _).
      pose proof (lv_fun _ _ _ _ _ _ He (proj1 He')) as ->. exact Hpe.
    + destruct (in_use c) eqn:Eu; [by left|]. destruct (in_use e) eqn:Eue; [by right|exfalso].
      destruct (g_timing (ok_good _ Hs) Ht) as (_ & HA & _).
      destruct (HA h c k e Hl Hk He Eu Eue) as [Hx|Hx]; by apply not_elem_of_empty in Hx.
Qed.

Lemma reachable_regions_tiled_witness :
  exists h c, live_chunk (regs demo2) demo2 h c /\ 4096 <= ptr c <= 5000 /\ 5000 < ptr c + size c <= 947968 /\
    forall k e, live_chunk (regs demo2) demo2 k e -> ptr e <= 5000 < ptr e + size e -> k = h.
Proof.
  apply (proj1 (reachable_regions_tiled demo_cfg demo2 demo_cfg_ok (proj1 (proj2 (proj2 demo_reachable))))
    4096 947968 5000); [|lia].
  apply regs_find. by vm_compute.
Defined.

(** ** Placement and coalescing *)

(** C25: when no timing counter is installed, memory that has been freed can be
    allocated again: after DeallocateRaw of a block an allocation that fits into
    it succeeds, whatever the sub-allocator would answer. *)
Theorem freed_memory_reused {Sub : Type} `{SL : SubAllocatorLaws Sub} (cfg : Config) (s : bfc Sub)
    (p sz rq id n fb : Z) (Hcfg : cfg_ok cfg) (Hs : Ok s) (Ht : timing_counter_ s = None)
    (Hv : view s p = Some (sz, rq, id)) (Hn : 0 < n <= two63 - 256) (Hle : RoundedBytes n <= sz) :
  exists s1, DeallocateRawInternal p s = OK ((), s1) /\
    forall fuel al, exists q s2, AllocateRawInternal cfg fuel al n fb s1 = OK (q, s2) /\ q <> 0.
Proof.
  destruct (dealloc_covered s p sz rq id Hs Ht Hv) as (s1 & E & Hs1 & Ht1 & h & c & Hl & Hu & H1 & H2).
  exists s1. split; [done|]. intros fuel al.
  apply (AllocateRaw_from_free cfg fuel al n fb s1 h c); try done. lia.
Qed.

Lemma freed_memory_reused_witness :
  RoundedBytes 512 <= 1024 /\
  exists s1, DeallocateRawInternal 4608 demo2 = OK ((), s1) /\
    forall fuel al, exists q s2, AllocateRawInternal demo_cfg fuel al 512 0 s1 = OK (q, s2) /\ q <> 0.
Proof.
  split; [by vm_compute|].
  apply (freed_memory_reused demo_cfg demo2 4608 1024 1000 2 512 0);
    [exact demo_cfg_ok|apply demo_Ok|by vm_compute|by vm_compute|split; by vm_compute|by vm_compute].
Defined.

(** C33: FindChunkPtr is best fit: it returns null, without a change, only when no
    free chunk fits the request, and otherwise the address of the smallest free
    chunk that fits, the lowest of several; what is handed out is less than twice
    the rounded request, and the excess is below the fragmentation limit. *)
Theorem FindChunkPtr_best_fit {Sub : Type} `{SL : SubAllocatorLaws Sub} (cfg : Config) (s : bfc Sub)
    (n fb : Z) (Hcfg : cfg_ok cfg) (Hs : Ok s) (Hn : 0 < n <= two63 - 256) :
  let r := RoundedBytes n in
  exists p s', FindChunkPtr cfg (BinNumForSize r) r n fb s = OK (p, s') /\
    ((p = 0 /\ s' = s /\ forall k e, live_chunk (regs s) s k e -> in_use e = false -> fits r fb e = false) \/
     (exists h c sz, best (regs s) s r fb h c /\ p = ptr c /\ view s' p = Some (sz, n, next_allocation_id_ s) /\
        r <= sz < 2 * r /\ sz - r < max_internal_fragmentation_bytes cfg)).
Proof.
  intros r. destruct (RoundedBytes_bounds n) as [Hb Hd]; [z64; lia|]. fold r in Hb, Hd. apply wp_false.
  apply (FindChunkPtr_wp cfg (regs s) s r fb (g_inv (ok_good _ Hs)) (fun p => decide (grid (regs s) p)));
    [done|lia|done|z64; lia|by left|].
  intros h c s' Hbest Ha. right. destruct (al_used _ _ _ _ _ _ _ Ha) as (h' & sz & Hsz & _ & _ & _ & Hu).
  pose proof (ha_ok _ _ _ _ (allocated_handed cfg s _ _ _ _ Hs (proj1 Hb) Ha)) as Hs'.
  exists h, c, sz. split_and!; try done; [|lia..].
  apply view_used; [done|]. exists h'.
  pose proof (extent_reg_equiv _ _ (al_extent _ _ _ _ _ _ _ Ha)) as Hreg. fold (regs s') (regs s) in Hreg.
  rewrite Hreg. apply Hu. by left.
Qed.

Lemma FindChunkPtr_best_fit_witness :
  let r := RoundedBytes 200 in
  exists p s', FindChunkPtr demo_cfg (BinNumForSize r) r 200 0 demo3 = OK (p, s') /\
    ((p = 0 /\ s' = demo3 /\ forall k e, live_chunk (regs demo3) demo3 k e -> in_use e = false -> fits r 0 e = false) \/
     (exists h c sz, best (regs demo3) demo3 r 0 h c /\ p = ptr c /\
        view s' p = Some (sz, 200, next_allocation_id_ demo3) /\
        r <= sz < 2 * r /\ sz - r < max_internal_fragmentation_bytes demo_cfg)).
Proof.
  apply (FindChunkPtr_best_fit demo_cfg demo3 200 0); [exact demo_cfg_ok|apply demo_Ok|split; by vm_compute].
Defined.

(** C32: as long as the region size has not wrapped around to 0, Extend returns for every
    request of a multiple of 256 bytes from 2560 bytes to 2^63, whatever the sub-allocator
    answers, and keeps the invariant and the allocations: the region size reaches the
    request in 64 doublings, and every round of the fallback (multiplication by 0.9f,
    rounding up to 256 bytes) takes 256 bytes off.  With the region size 0 the loop that
    doubles it does not end ([grow_region_never_ends], [region_size_wraps]). *)
Theorem Extend_terminates {Sub : Type} `{SL : SubAllocatorLaws Sub} (cfg : Config) (fuel : nat)
    (al n : Z) (s : bfc Sub) (Hs : Ok s) (Hn : 2560 <= n <= two63) (Hd : (256 | n))
    (Hc : 0 < curr_region_allocation_bytes_ s) (Hf : (64 <= fuel)%nat)
    (Hf' : u64 (memory_limit_ cfg - pool_bytes (stats_ s)) <= 256 * Z.of_nat fuel) :
  exists b s', Extend cfg fuel al n s = OK (b, s') /\ Ok s' /\ forall p, view s' p = view s p.
Proof.
  apply (wp_false _ s (fun _ s' => Ok s' /\ forall p, view s' p = view s p)).
  apply Extend_wp; [done|lia|done|by right|]. intros b s' Hs' Hk. split; [done|]. by apply kept_view.
Qed.

Lemma Extend_terminates_witness :
  u64 (memory_limit_ demo_cfg - pool_bytes (stats_ demo2)) <= 256 * Z.of_nat 4096 /\
  exists b s', Extend demo_cfg 4096 64 2560 demo2 = OK (b, s') /\ Ok s' /\ forall p, view s' p = view demo2 p.
Proof.
  split; [by vm_compute|].
  apply (Extend_terminates demo_cfg 4096 64 2560 demo2);
    [apply demo_Ok|split; by vm_compute|by exists 10|by vm_compute|by apply Nat.leb_le|by vm_compute].
Defined.

(** ** Errors and queries *)

(** DeallocateRaw does not look at the low bits of an address: it frees what starts at the
    multiple of 256 bytes below. *)
Lemma DeallocateRaw_granule {Sub : Type} `{SL : SubAllocatorLaws Sub} (s : bfc Sub) lo hi p : Ok s -> regs s lo hi -> lo <= p < hi ->
  DeallocateRawInternal p s = DeallocateRawInternal (granule lo p) s.
Proof.
  intros Hs Hr Hp. pose proof (g_inv (ok_good _ Hs)) as H. destruct (reg_size (hp_reg (i_heap H)) _ _ Hr).
  destruct (granule_grid _ _ _ _ Hr Hp) as [_ Hg]. unfold DeallocateRawInternal. rewrite !(proj2 (Z.eqb_neq _ 0)) by lia.
  assert (get_handle p s = get_handle (granule lo p) s) as E.
  { unfold get_handle, mbind, M_bind, gets, lift. by rewrite (granule_get _ _ _ _ (i_regs H) Hr Hp). }
  unfold mbind, M_bind. by rewrite E.
Qed.

(** C40: DeallocateRaw of an address of the pool, aligned or not, ends in a CHECK failure when
    no allocation starts at the multiple of 256 bytes below it (counted from the start of its
    region), such as an address that has been freed before. *)
Theorem DeallocateRaw_double_free {Sub : Type} `{SL : SubAllocatorLaws Sub} (s : bfc Sub) (lo hi p : Z)
    (Hs : Ok s) (Hr : regs s lo hi) (Hp : lo <= p < hi) (Hv : view s (granule lo p) = None) :
  DeallocateRawInternal p s = Crash.
Proof.
  pose proof (g_inv (ok_good _ Hs)) as H. rewrite (DeallocateRaw_granule s lo hi p) by done.
  destruct (granule_grid _ _ _ _ Hr Hp) as [Hg Hle]. destruct (reg_size (hp_reg (i_heap H)) _ _ Hr). set (q := granule lo p) in *.
  unfold DeallocateRawInternal. rewrite (proj2 (Z.eqb_neq _ _)) by lia.
  unfold get_handle, mbind, M_bind, gets, lift. rewrite (grid_get _ _ (i_regs H) Hg).
  destruct (sl_of (regions_ s) q) as [h|] eqn:Es; [|done].
  destruct (slot_live (i_heap H) q h Hg Es) as (n & (c & Hl & ->)%live_lv & Hq). simpl in Hq.
  unfold MarkFree, ChunkFromHandle, mbind, M_bind, mcheck, lift. rewrite (proj1 Hl).
  destruct (in_use c) eqn:Eu; [|by rewrite (proj1 Hl), Eu]. exfalso.
  enough (view s q = Some (size c, requested_size c, allocation_id c)) by congruence.
  apply view_used; [done|]. exists h, c. split_and!; [done..|]. unfold core. by rewrite Hq.
Qed.

(** In the pool from 4096 to 947968 with the block at 4096 freed. *)
Lemma DeallocateRaw_double_free_witness :
  granule 4096 4097 = 4096 /\ view demo3 4096 = None /\ DeallocateRawInternal 4097 demo3 = Crash.
Proof.
  split; [done|]. split; [by vm_compute|].
  apply (DeallocateRaw_double_free demo3 4096 947968 4097); [apply demo_Ok| |lia|by vm_compute].
  apply regs_find. by vm_compute.
Defined.

(** Before, while the block at 4096 is allocated, the address 4097 frees it. *)
Example DeallocateRaw_unaligned : DeallocateRawInternal 4097 demo2 = DeallocateRawInternal 4096 demo2.
Proof. by vm_compute. Qed.

(** LargestFreeChunk, the last element of the last bin that is not empty, is
    the maximum of the sizes of all free chunks (0 when there is none). *)
Lemma LargestFreeChunk_max {Sub : Type} `{SL : SubAllocatorLaws Sub} (s : bfc Sub) (Hs : Ok s)
    (Hsmall : forall h c, live_chunk (regs s) s h c -> size c < two63) :
  exists r, LargestFreeChunk s = OK (r, s) /\ (forall h c, free_chunk (regs s) s h c -> size c <= r) /\
    (r = 0 \/ exists h c, free_chunk (regs s) s h c /\ size c = r).
Proof.
  apply LargestFreeChunk_spec; [apply Hs|intros p; apply (decide (grid (regs s) p))|done].
Qed.

Lemma LargestFreeChunk_max_witness :
  exists r, LargestFreeChunk demo3 = OK (r, demo3) /\
    (forall h c, free_chunk (regs demo3) demo3 h c -> size c <= r) /\
    (r = 0 \/ exists h c, free_chunk (regs demo3) demo3 h c /\ size c = r).
Proof.
  apply (LargestFreeChunk_max demo3); [apply demo_Ok|].
  intros h c (Hc & _). apply (small_chunks (chunks_ demo3) h); [by vm_compute|done].
Defined.

(** RequestedSize, AllocatedSize and AllocationId of an allocated address
    return the three parts of its allocation and change nothing. *)
Lemma allocation_queries {Sub : Type} `{SL : SubAllocatorLaws Sub} (s : bfc Sub) (p sz rq id : Z)
    (Hs : Ok s) (Hv : view s p = Some (sz, rq, id)) :
  RequestedSize p s = OK (rq, s) /\ AllocatedSize p s = OK (sz, s) /\ AllocationId p s = OK (id, s).
Proof.
  destruct (chunk_at_spec s p sz rq id Hs Hv) as (c & E & <- & <- & <- & Hp).
  assert (forall A (k : Chunk -> M Sub A), (chunk_at p ≫= k) s = k c s) as Hk.
  { intros A k. unfold mbind, M_bind. by rewrite E. }
  split_and!; [|apply Hk..]. unfold RequestedSize. rewrite (proj2 (Z.eqb_neq _ _)) by done. apply Hk.
Qed.

Lemma allocation_queries_witness :
  RequestedSize 4608 demo2 = OK (1000, demo2) /\ AllocatedSize 4608 demo2 = OK (1024, demo2) /\
  AllocationId 4608 demo2 = OK (2, demo2).
Proof. apply (allocation_queries demo2 4608 1024 1000 2); [apply demo_Ok|by vm_compute]. Defined.

(** ** The allocator at its limits

    Inputs outside the hypotheses of BfcTheorems.v on which
    xla/tsl/framework/bfc_allocator.cc does not do what it means to: loops that
    never end, a size that wraps, and a list that keeps a chunk of a region that is
    gone. *)

(** 0.9f * 2304 is rounded up to 2304 again: with a sub-allocator that is out of
    memory the fallback loop of Extend never ends for a request of up to 2304
    bytes. *)
Lemma backpedal_never_ends {Sub : Type} `{SA : SubAllocator Sub} (fuel : nat) (al r : Z) (s : bfc Sub) :
  (forall sub n, exists rec sub', Alloc sub al n = ((0, rec), sub')) -> r <= 2304 ->
  backpedal_loop fuel al r 2304 s = NoFuel.
Proof.
  intros Hnull Hr. revert s. induction fuel as [|fuel IH]; intros s; [done|]. simpl.
  assert (RoundedBytes (backpedal 2304) = 2304) as -> by (by vm_compute).
  rewrite (proj2 (Z.ltb_ge _ _)) by lia. unfold mbind, M_bind, gets, modify.
  destruct (Hnull (sub_allocator_ s) 2304) as (rec & sub' & ->). simpl. apply IH.
Qed.

(** Once the region size is 0, as after 64 doublings, the loop that looks for a
    large enough one never ends. *)
Lemma grow_region_never_ends (fuel : nat) (r : Z) (inc : bool) :
  0 < r -> grow_region fuel r 0 inc = NoFuel.
Proof.
  intros Hr. revert inc. induction fuel as [|fuel IH]; intros inc; [done|]. simpl.
  rewrite (proj2 (Z.ltb_lt _ _)) by done. apply IH.
Qed.

Lemma region_size_wraps (curr : Z) : Nat.iter 64 (fun c => u64 (c * 2)) curr = 0.
Proof.
  assert (forall n, Nat.iter (S n) (fun c => u64 (c * 2)) curr = u64 (curr * 2 ^ Z.of_nat (S n))) as Hn.
  { intros n. induction n as [|n IH]; [done|]. rewrite (Nat.iter_succ (S n)), IH. unfold u64.
    rewrite Z.mul_mod_idemp_l by done. f_equal. rewrite (Nat2Z.inj_succ (S n)), Z.pow_succ_r by lia. lia. }
  rewrite (Hn 63%nat). unfold u64. apply Z.mod_mul. done.
Qed.

(** The request 2^64 - 1 is rounded to 0 bytes: the call succeeds with a chunk of
    size 0 in front of a free chunk at the same address, and the deallocation of
    the address is a CHECK failure. *)
Example AllocateRaw_wraps :
  RoundedBytes (two64 - 1) = 0 /\
  match AllocateRawInternal demo_cfg 70 64 (two64 - 1) 0 demo0 with
  | OK (p, s') => match DeallocateRawInternal p s' with Crash => Some p | _ => None end
  | _ => None
  end = Some 4096.
Proof. split; by vm_compute. Qed.

(** Garbage collection with a timing counter: the collected region leaves its
    chunk on the list of timestamped chunks, and the next allocation crashes. *)
Definition gc_cfg : Config := mkConfig 2048 true true 134217728.
Definition gc0 : bfc Arena := BFCAllocator gc_cfg false (Some 0) [].
Definition gc1 : bfc Arena := run (AllocateRawInternal gc_cfg 70 64 300 0) gc0.
Definition gc2 : bfc Arena := run (DeallocateRawInternal 4096) gc1.
Definition gc3 : bfc Arena := run (AllocateRawInternal gc_cfg 70 64 2048 5) gc2.

Example stale_timestamped_chunk :
  timestamped_chunks_ gc2 <> [] /\ AllocateRawInternal gc_cfg 70 64 256 0 gc3 = Crash.
Proof. split; by vm_compute. Qed.
