(* ===== verification/TileAssignment.v ===== *)
(** * Tile assignments: the data and operations of xla/hlo/ir/tile_assignment.{h,cc}

    An IotaTileAssignment describes an array of device numbers by the reshaping and
    transposition of 0, 1, 2, ...; a TileAssignment is one of these, whose array it
    materializes on demand, or an array.  The spans that CanonicalizeIotaDims shrinks
    in place are lists.  The cached array is state: an operation that may fill the cache
    returns the assignment.  The pointer [array_] points to [shared_array_] where there
    is one and else to the static array of the replicated assignment.  The mutex and the
    conversion to a string are not modelled. *)

From S2P Require Import Prelude MachineInt PermutationUtil IndexUtil Util Arrays.

Record IotaTileAssignment := mkIota {
  dims : list Z;
  reshape_dims : list Z;
  transpose_perm : list Z;
}.

#[export] Instance IotaTileAssignment_eq_dec : EqDecision IotaTileAssignment.
Proof. solve_decision. Defined.

(** ** Canonicalization *)

Definition old_to_new_dims (dims : list Z) : list Z * Z :=
  foldl (fun '(old_to_new, new_ndims) d =>
      if d =? 1 then (old_to_new ++ [-1], new_ndims) else (old_to_new ++ [new_ndims], new_ndims + 1))
    ([], 0) dims.

(** Remove all dimensions of size one. *)
Definition remove_one_dims (dims perm : list Z) : outcome (list Z * list Z) :=
  let '(old_to_new, new_ndims) := old_to_new_dims dims in
  if new_ndims =? Zlen dims then OK (dims, perm)
  else
    '(dims, perm, _) ← foldM (fun '(dims, perm, new_idx) i =>
        new_dim ← at_ old_to_new i;
        dims ← (if 0 <=? new_dim then d ← at_ dims i; set_at dims new_dim d else OK dims);
        p ← at_ perm i;
        new_perm_dim ← at_ old_to_new p;
        if 0 <=? new_perm_dim
        then perm ← set_at perm new_idx new_perm_dim; OK (dims, perm, new_idx + 1)
        else OK (dims, perm, new_idx))
      (dims, perm, 0) (indices dims);
    OK (take (Z.to_nat new_ndims) dims, take (Z.to_nat new_ndims) perm).

(** Merge subranges of dimensions that are in major to minor order. *)
Definition merge_dims (dims perm : list Z) : outcome (list Z * bool) :=
  '(dims, _, changed) ← foldM (fun '(dims, base, changed) i =>
      base_dim ← at_ perm base;
      dim ← at_ perm i;
      if base_dim + (i - base) =? dim
      then b ← at_ dims base_dim; d ← at_ dims dim;
           dims ← set_at dims base_dim (mul64 b d); dims ← set_at dims dim 1;
           OK (dims, base, true)
      else OK (dims, i, changed))
    (dims, 0, false) (seqZ 1 (Zlen dims - 1));
  OK (dims, changed).

Fixpoint CanonicalizeIotaDims_loop (fuel : nat) (dims perm : list Z) : outcome (list Z * list Z) :=
  match fuel with
  | O => NoFuel
  | S fuel =>
      '(dims, perm) ← remove_one_dims dims perm;
      '(dims, changed) ← merge_dims dims perm;
      if (changed : bool) then CanonicalizeIotaDims_loop fuel dims perm else OK (dims, perm)
  end.

Definition CanonicalizeIotaDims (dims perm : list Z) : outcome (list Z * list Z) :=
  if Zlen dims <=? 1 then OK (dims, perm) else CanonicalizeIotaDims_loop (S (length dims)) dims perm.

(** ** Transpositions *)

Inductive TransposeKind := kNoop | kReshape | kTranspose.

#[export] Instance TransposeKind_eq_dec : EqDecision TransposeKind.
Proof. solve_decision. Defined.

Fixpoint GetTransposeKind_loop (dims perm : list Z) (i : Z) (kind : TransposeKind) (prev_non_one_dim : Z) :
    outcome TransposeKind :=
  match perm with
  | [] => OK kind
  | d :: perm =>
      x ← at_ dims d;
      if x =? 1 then
        moved ← (if d =? i then OK false else y ← at_ dims i; OK (negb (y =? 1)));
        GetTransposeKind_loop dims perm (i + 1) (if (moved : bool) then kReshape else kind) prev_non_one_dim
      else if d <=? prev_non_one_dim then OK kTranspose
      else GetTransposeKind_loop dims perm (i + 1) kind d
  end.

Definition GetTransposeKind (dims perm : list Z) : outcome TransposeKind :=
  GetTransposeKind_loop dims perm 0 kNoop (-1).

Record DecanonicalizationInfo := mkDecanonicalizationInfo {
  new_reshape_dims : list Z;
  new_transpose_perm : list Z;
  new_transpose_perm_idx_to_original_reshape_dim : list Z;
  original_reshape_dim_to_new_transpose_perm_indices : list (list Z);
}.

(** Divide [dim_size] by [i] as long as it divides it. *)
Fixpoint divide_out (fuel : nat) (i dim_size : Z) (new_dims : list Z) : outcome (Z * list Z) :=
  match fuel with
  | O => NoFuel
  | S fuel =>
      r ← modulo dim_size i;
      if r =? 0 then q ← divide dim_size i; divide_out fuel i q (new_dims ++ [i]) else OK (dim_size, new_dims)
  end.

Definition log2_fuel (dim_size : Z) : nat := S (S (Z.to_nat (Z.log2 dim_size))).

(** The odd divisors, from [i] on; [i * i] is an int. *)
Fixpoint odd_divisors (fuel : nat) (i dim_size : Z) (new_dims : list Z) : outcome (Z * list Z) :=
  if i32 (i * i) <=? dim_size then
    match fuel with
    | O => NoFuel
    | S fuel =>
        '(dim_size, new_dims) ← divide_out (log2_fuel dim_size) i dim_size new_dims;
        odd_divisors fuel (i32 (i + 2)) dim_size new_dims
    end
  else OK (dim_size, new_dims).

Definition factor_dim (dim_size : Z) (new_dims : list Z) : outcome (list Z) :=
  '(dim_size, new_dims) ← divide_out (log2_fuel dim_size) 2 dim_size new_dims;
  '(dim_size, new_dims) ← odd_divisors (Z.to_nat (Z.sqrt dim_size)) 3 dim_size new_dims;
  if 1 <? dim_size then _ ← check (2 <? dim_size); OK (new_dims ++ [dim_size]) else OK new_dims.

(** One factor of the original dimension [old_dim], at position [j]. *)
Definition push_factor (old_dim : Z) (info : DecanonicalizationInfo) (j : Z) : outcome DecanonicalizationInfo :=
  let perm := new_transpose_perm info ++ [j] in
  group ← at_ (original_reshape_dim_to_new_transpose_perm_indices info) old_dim;
  groups ← set_at (original_reshape_dim_to_new_transpose_perm_indices info) old_dim (group ++ [Zlen perm - 1]);
  OK (mkDecanonicalizationInfo (new_reshape_dims info) perm
        (new_transpose_perm_idx_to_original_reshape_dim info ++ [old_dim]) groups).

Definition FullyDecanonicalize (reshape_dims transpose_perm : list Z) : outcome DecanonicalizationInfo :=
  '(new_dims, old_to_new) ← foldM (fun '(new_dims, old_to_new) dim_size =>
      new_dims ← factor_dim dim_size new_dims; OK (new_dims, old_to_new ++ [Zlen new_dims])) ([], [0]) reshape_dims;
  foldM (fun info old_dim =>
      first ← at_ old_to_new old_dim;
      n ← at_ old_to_new (old_dim + 1);
      foldM (push_factor old_dim) info (seqZ first (n - first)))
    (mkDecanonicalizationInfo new_dims [] [] (replicate (length transpose_perm) [])) transpose_perm.

(** ** IotaTileAssignment *)

Definition Create_iota (dims : list Z) : IotaTileAssignment := mkIota dims [Product dims] [0].

Definition Create (dims reshape_dims transpose_perm : list Z) : outcome IotaTileAssignment :=
  '(dims_span, perm_span) ← CanonicalizeIotaDims reshape_dims transpose_perm;
  match dims_span with
  | [] =>
      _ ← check (negb (bool_decide (reshape_dims = [])) && negb (bool_decide (transpose_perm = [])));
      OK (mkIota dims [1] [0])
  | _ => OK (mkIota dims dims_span perm_span)
  end.

Definition iota_eq (a b : IotaTileAssignment) : bool :=
  bool_decide (dims a = dims b) && bool_decide (reshape_dims a = reshape_dims b)
  && bool_decide (transpose_perm a = transpose_perm b).

Definition iota_ndims (a : IotaTileAssignment) : Z := Zlen (dims a).
Definition iota_dim (a : IotaTileAssignment) (n : Z) : outcome Z := at_ (dims a) n.
Definition iota_num_elements (a : IotaTileAssignment) : Z := foldl mul64 1 (dims a).

Definition ToArray_of (reshape_dims transpose_perm dims : list Z) : outcome (Array Z) :=
  array ← TransposeDimensions transpose_perm (FillIota 0 (new_Array reshape_dims));
  Reshape dims array.

Definition ToArray (a : IotaTileAssignment) : outcome (Array Z) :=
  ToArray_of (reshape_dims a) (transpose_perm a) (dims a).

(** index[0] * dims[1] + index[1] ...; also of the last loop. *)
Definition linearize (dims index : list Z) : outcome Z :=
  x ← at_ index 0;
  foldM (fun linear_index i =>
      d ← at_ dims i; x ← at_ index i; OK (add64 (mul64 linear_index d) x)) x (seqZ 1 (Zlen dims - 1)).

(** [dim_size] is an int. *)
Definition value_at (a : IotaTileAssignment) (index : list Z) : outcome Z :=
  linear_index ← linearize (dims a) index;
  '(_, reshape_index) ← foldM (fun '(linear_index, reshape_index) i =>
      dim ← at_ (transpose_perm a) i;
      d ← at_ (reshape_dims a) dim;
      let dim_size := i32 d in
      r ← modulo linear_index dim_size;
      reshape_index ← set_at reshape_index dim r;
      q ← divide linear_index dim_size;
      OK (q, reshape_index))
    (linear_index, replicate (length (reshape_dims a)) 0) (rev (indices (reshape_dims a)));
  linearize (reshape_dims a) reshape_index.

(** *** Grouping the prime factors *)

(** A later factor of the same original dimension that divides the target. *)
Fixpoint look_ahead (info : DecanonicalizationInfo) (dims : list Z) (target transpose_perm_idx : Z) (candidates : list Z) :
    outcome (option Z) :=
  match candidates with
  | [] => OK None
  | c :: candidates =>
      if transpose_perm_idx <? c then
        new_reshape_dim_idx ← at_ (new_transpose_perm info) c;
        new_cand ← at_ dims new_reshape_dim_idx;
        r ← modulo target new_cand;
        if r =? 0 then OK (Some new_reshape_dim_idx) else look_ahead info dims target transpose_perm_idx candidates
      else look_ahead info dims target transpose_perm_idx candidates
  end.

(** [dims] is decanonicalized_reshape_dims, in which factors may be swapped. *)
Definition generate_candidate (info : DecanonicalizationInfo) (dims : list Z) (target transpose_perm_idx : Z) :
    outcome (list Z * option Z) :=
  reshape_dim_idx ← at_ (new_transpose_perm info) transpose_perm_idx;
  cand ← at_ dims reshape_dim_idx;
  r ← modulo target cand;
  if r =? 0 then OK (dims, Some reshape_dim_idx)
  else
    original_reshape_dim ← at_ (new_transpose_perm_idx_to_original_reshape_dim info) transpose_perm_idx;
    candidates ← at_ (original_reshape_dim_to_new_transpose_perm_indices info) original_reshape_dim;
    found ← look_ahead info dims target transpose_perm_idx candidates;
    match found with
    | Some new_reshape_dim_idx =>
        new_cand ← at_ dims new_reshape_dim_idx;
        dims ← set_at dims reshape_dim_idx new_cand;
        dims ← set_at dims new_reshape_dim_idx cand;
        OK (dims, Some reshape_dim_idx)
    | None => OK (dims, None)
    end.

(** The while loop; the result is the dimensions, the rest of the target, the next
    position and the group. *)
Fixpoint group_loop (fuel : nat) (info : DecanonicalizationInfo) (dims : list Z) (target transpose_perm_idx : Z)
    (group : list Z) (reshape_dim_idx : option Z) : outcome (list Z * Z * Z * list Z) :=
  match reshape_dim_idx with
  | None => OK (dims, target, transpose_perm_idx, group)
  | Some r =>
      match fuel with
      | O => NoFuel
      | S fuel =>
          cand ← at_ dims r;
          target ← divide target cand;
          let group := group ++ [r] in
          let transpose_perm_idx := transpose_perm_idx + 1 in
          if Zlen dims <=? transpose_perm_idx then OK (dims, target, transpose_perm_idx, group)
          else
            '(dims, next) ← generate_candidate info dims target transpose_perm_idx;
            group_loop fuel info dims target transpose_perm_idx group next
      end
  end.

(** A group for every dimension that is not one; [None] where a dimension is no product. *)
Fixpoint group_dims (info : DecanonicalizationInfo) (dims : list Z) (transpose_perm_idx : Z) (non_one_dims : list Z) :
    outcome (option (list Z * list (list Z))) :=
  match non_one_dims with
  | [] => OK (Some (dims, []))
  | target :: rest =>
      if transpose_perm_idx <? Zlen dims then
        '(dims, r) ← generate_candidate info dims target transpose_perm_idx;
        '(dims, target, transpose_perm_idx, group) ← group_loop (length dims) info dims target transpose_perm_idx [] r;
        if negb (target =? 1) then OK None
        else
          groups ← group_dims info dims transpose_perm_idx rest;
          OK ('(dims, groups) ← groups; Some (dims, group :: groups))
      else OK (Some (dims, (fun _ => []) <$> non_one_dims))
  end.

(** *** Transpose *)

(** The dimensions that are not one, their numbers, and whether they are those of the transposed iota. *)
Definition non_one_dims (a : IotaTileAssignment) : outcome (list Z * list Z * bool) :=
  foldM (fun '(non_one_dims, one_to_non_one, is_pure_transpose) dim =>
      if dim =? 1 then OK (non_one_dims, one_to_non_one ++ [-1], is_pure_transpose)
      else
        differs ← (if Zlen (reshape_dims a) <=? Zlen non_one_dims then OK true
                   else p ← at_ (transpose_perm a) (Zlen non_one_dims); d ← at_ (reshape_dims a) p; OK (negb (d =? dim)));
        OK (non_one_dims ++ [dim], one_to_non_one ++ [Zlen non_one_dims], is_pure_transpose && negb differs))
    ([], [], true) (dims a).

Definition pure_transpose (a : IotaTileAssignment) (one_to_non_one perm : list Z) : outcome (list Z) :=
  foldM (fun new_perm p =>
      d ← at_ (dims a) p;
      if d =? 1 then OK new_perm
      else k ← at_ one_to_non_one p; q ← at_ (transpose_perm a) k; OK (new_perm ++ [q])) [] perm.

Definition flatten_groups (groups : list (list Z)) (one_to_non_one perm : list Z) : outcome (list Z) :=
  foldM (fun flattened dim =>
      k ← at_ one_to_non_one dim;
      if k <? 0 then OK flattened else group ← at_ groups k; OK (flattened ++ group)) [] perm.

Definition Transpose (a : IotaTileAssignment) (perm : list Z) : outcome (option IotaTileAssignment) :=
  kind ← GetTransposeKind (dims a) perm;
  if bool_decide (kind = kNoop) then OK (Some a)
  else
    new_dims ← mapM (fun i => p ← at_ perm i; at_ (dims a) p) (indices (dims a));
    if bool_decide (kind = kReshape) then
      t ← Create new_dims (reshape_dims a) (transpose_perm a); OK (Some t)
    else if Zlen (reshape_dims a) =? 1 then
      t ← Create new_dims (dims a) perm; OK (Some t)
    else
      '(non_one, one_to_non_one, is_pure_transpose) ← non_one_dims a;
      if (is_pure_transpose : bool) then
        _ ← check (Zlen (reshape_dims a) =? Zlen non_one);
        new_perm ← pure_transpose a one_to_non_one perm;
        _ ← check (Zlen (reshape_dims a) =? Zlen new_perm);
        t ← Create new_dims (reshape_dims a) new_perm; OK (Some t)
      else
        info ← FullyDecanonicalize (reshape_dims a) (transpose_perm a);
        _ ← check (Zlen non_one <=? Zlen (new_reshape_dims info));
        grouped ← group_dims info (new_reshape_dims info) 0 non_one;
        match grouped with
        | None => OK None
        | Some (decanonicalized_reshape_dims, groups) =>
            flattened ← flatten_groups groups one_to_non_one perm;
            _ ← check (Zlen flattened =? Zlen (new_transpose_perm info));
            t ← Create new_dims decanonicalized_reshape_dims flattened; OK (Some t)
        end.

(** ** TileAssignment *)

Record TileAssignment := mkTile {
  iota_ : option IotaTileAssignment;
  shared_array_ : option (Array Z);
  array_ : option (Array Z);
}.

Definition ReplicatedArray : Array Z := new_Array [0].
Definition new_TileAssignment : TileAssignment := mkTile None None (Some ReplicatedArray).
Definition tile_of_array (array : Array Z) : TileAssignment := mkTile None (Some array) (Some array).
Definition tile_of_device (device_id : Z) : TileAssignment := tile_of_array (new_Array_filled [1] device_id).
Definition tile_of_iota (iota : IotaTileAssignment) : TileAssignment := mkTile (Some iota) None None.
Definition tile_of_dims (dims : list Z) : TileAssignment := tile_of_iota (Create_iota dims).
Definition tile_of_reshape (dims reshape_dims transpose_perm : list Z) : outcome TileAssignment :=
  iota ← Create dims reshape_dims transpose_perm; OK (tile_of_iota iota).

Definition MaybeMaterializeFullArray (t : TileAssignment) : outcome TileAssignment :=
  match array_ t with
  | Some _ => OK t
  | None =>
      match iota_ t with
      | Some iota => full ← ToArray iota; OK (mkTile (iota_ t) (Some full) (Some full))
      | None => Crash
      end
  end.

Definition array (t : TileAssignment) : outcome (Array Z * TileAssignment) :=
  t ← MaybeMaterializeFullArray t;
  match array_ t with Some a => OK (a, t) | None => Crash end.

Definition shared_array (t : TileAssignment) : outcome (option (Array Z) * TileAssignment) :=
  t ← MaybeMaterializeFullArray t; OK (shared_array_ t, t).

Definition on_tile {A} (f : Array Z -> outcome A) (g : IotaTileAssignment -> outcome A) (t : TileAssignment) : outcome A :=
  match array_ t, iota_ t with Some a, _ => f a | None, Some iota => g iota | None, None => Crash end.

Definition tile_value (t : TileAssignment) (indexes : list Z) : outcome Z :=
  on_tile (fun a => get a indexes) (fun iota => value_at iota indexes) t.
Definition tile_dimensions : TileAssignment -> outcome (list Z) :=
  on_tile (fun a => OK (dimensions a)) (fun iota => OK (dims iota)).
Definition tile_num_dimensions : TileAssignment -> outcome Z :=
  on_tile (fun a => OK (num_dimensions a)) (fun iota => OK (iota_ndims iota)).
Definition tile_dim (t : TileAssignment) (n : Z) : outcome Z :=
  on_tile (fun a => dim a n) (fun iota => iota_dim iota n) t.
Definition tile_num_elements : TileAssignment -> outcome Z :=
  on_tile (fun a => OK (num_elements a)) (fun iota => OK (iota_num_elements iota)).
Definition first (t : TileAssignment) : outcome Z :=
  match array_ t with Some a => at_ (values_ a) 0 | None => OK 0 end.

(** The calls of the callback, and the assignment. *)
Definition tile_Each (t : TileAssignment) : outcome (list (list Z * Z) * TileAssignment) :=
  '(a, t) ← array t; calls ← Each a; OK (calls, t).

Definition tile_eq (a b : TileAssignment) : outcome (bool * TileAssignment * TileAssignment) :=
  match iota_ a, iota_ b with
  | Some x, Some y => OK (iota_eq x y, a, b)
  | _, _ =>
      '(x, a) ← array a;
      '(y, b) ← array b;
      OK (array_eq x y, a, b)
  end.

Definition tile_Reshape (t : TileAssignment) (new_dimensions : list Z) : outcome (TileAssignment * TileAssignment) :=
  match iota_ t with
  | Some iota =>
      _ ← check (Product new_dimensions =? iota_num_elements iota);
      OK (tile_of_iota (mkIota new_dimensions (reshape_dims iota) (transpose_perm iota)), t)
  | None =>
      '(reshaped, t) ← array t;
      reshaped ← Reshape new_dimensions reshaped;
      OK (tile_of_array reshaped, t)
  end.

Definition tile_Transpose (t : TileAssignment) (perm : list Z) : outcome (TileAssignment * TileAssignment) :=
  ds ← tile_dimensions t;
  kind ← GetTransposeKind ds perm;
  if bool_decide (kind = kNoop) then OK (t, t)
  else
    transposed ← match iota_ t with Some iota => Transpose iota perm | None => OK None end;
    match transposed with
    | Some transposed => OK (tile_of_iota transposed, t)
    | None =>
        '(cloned_array, t) ← array t;
        cloned_array ← TransposeDimensions perm cloned_array;
        OK (tile_of_array cloned_array, t)
    end.

Definition UsesDevice (t : TileAssignment) (device : Z) : outcome (bool * TileAssignment) :=
  match iota_ t with
  | Some iota => OK (device <? iota_num_elements iota, t)
  | None => '(a, t) ← array t; OK (bool_decide (device ∈ values_ a), t)
  end.
