(* ===== verification/IotaLayout.v ===== *)
(** * Layouts of iota assignments

    The theory behind xla/hlo/ir/tile_assignment.cc.  A layout is a list of sizes and
    strides, the most significant first; it maps a linear index to the sum of its digits
    times the strides.  The reshaped and transposed iota is such a layout ([lay]); the
    steps of the canonicalization keep the map, and reduced layouts with the same map
    are equal. *)

From S2P Require Import Prelude MachineInt PermutationUtil IndexUtil Util Arrays.

Definition size (L : list (Z * Z)) : Z := prod L.*1.

Fixpoint val (L : list (Z * Z)) (l : Z) : Z :=
  match L with [] => 0 | (_, s) :: L => l / size L * s + val L (l mod size L) end.

Definition sizes_pos (L : list (Z * Z)) : Prop := Forall (fun x => 0 < x.1) L.

Lemma sizes_pos_fst L : sizes_pos L <-> Forall (fun d => 0 < d) L.*1.
Proof. unfold sizes_pos. by rewrite Forall_fmap. Qed.

Lemma size_pos L : sizes_pos L -> 0 < size L.
Proof. intros HL. by apply prod_pos, sizes_pos_fst. Qed.

Lemma size_app A B : size (A ++ B) = size A * size B.
Proof. unfold size. by rewrite fmap_app, prod_app. Qed.

Lemma size_cons n s L : size ((n, s) :: L) = n * size L.
Proof. done. Qed.

Lemma size_snoc A n s : size (A ++ [(n, s)]) = size A * n.
Proof. rewrite size_app. unfold size. simpl. lia. Qed.

Lemma val_app A B l : sizes_pos A -> sizes_pos B -> 0 <= l < size (A ++ B) ->
  val (A ++ B) l = val A (l / size B) + val B (l mod size B).
Proof.
  intros HA HB. pose proof (size_pos B HB) as HsB. revert l. induction HA as [|[n s] A Hn HA IH]; intros l Hl.
  { simpl in *. rewrite Z.mod_small by done. done. }
  simpl in Hn. pose proof (size_pos A HA) as HsA. cbn [val app]. rewrite size_app.
  rewrite IH by (rewrite size_app; apply Z.mod_pos_bound; nia).
  rewrite (Z.mul_comm (size A)), <- Z.div_div by lia. rewrite <- Z.add_assoc. f_equal. f_equal.
  - f_equal. rewrite Z.rem_mul_r by lia. rewrite (Z.mul_comm (size B)), Z.div_add by lia.
    rewrite (Z.div_small (l mod size B)) by (by apply Z.mod_pos_bound). lia.
  - f_equal. rewrite Z.rem_mul_r by lia. rewrite (Z.mul_comm (size B)), Z.mod_add by lia. apply Z.mod_mod. lia.
Qed.

Lemma val_dot L y : Forall2 digit L.*1 y -> val L (rm L.*1 y) = dot y L.*2.
Proof.
  revert y. induction L as [|[n s] L IH]; intros y Hy; [by inversion Hy|]. rewrite fmap_cons in Hy.
  apply Forall2_cons_inv_l in Hy as (x & ys & Hd & Hys & ->). cbn [val fmap list_fmap fst snd rm dot].
  pose proof (rm_bound _ _ Hys) as Hb. fold (size L) in Hb |- *. rewrite (Z.add_comm (x * size L)), Z.div_add, Z.mod_add by lia.
  rewrite Z.div_small, Z.mod_small by lia. rewrite IH by done. lia.
Qed.

(** ** The same map *)

Record same (L K : list (Z * Z)) : Prop := {
  same_pos_l : sizes_pos L;
  same_pos_r : sizes_pos K;
  same_size : size L = size K;
  same_val : forall l, 0 <= l < size L -> val L l = val K l;
}.

#[export] Instance same_per : RelationClasses.PER same.
Proof.
  split.
  - intros L K [HL HK Hs Hv]. split; [done..|]. intros l Hl. symmetry. apply Hv. lia.
  - intros L K M [HL HK Hs Hv] [_ HM Hs' Hv']. split; [done..|congruence|]. intros l Hl. rewrite Hv by done. apply Hv'. lia.
Qed.

Lemma same_layout_refl L : sizes_pos L -> same L L.
Proof. by split. Qed.

Lemma same_app A A' B B' : same A A' -> same B B' -> same (A ++ B) (A' ++ B').
Proof.
  intros [HA HA' HsA HvA] [HB HB' HsB HvB]. pose proof (size_pos _ HA). pose proof (size_pos _ HB). split.
  - by apply Forall_app.
  - by apply Forall_app.
  - rewrite !size_app. congruence.
  - intros l Hl. rewrite val_app by done. rewrite val_app by (try done; rewrite size_app in *; rewrite <- HsA, <- HsB; done).
    rewrite <- HsB. rewrite size_app in Hl. rewrite HvA, HvB; [done|by apply Z.mod_pos_bound|].
    split; [apply Z.div_pos; lia|]. apply Z.div_lt_upper_bound; lia.
Qed.

Lemma same_middle A B X Y : sizes_pos A -> sizes_pos B -> same X Y -> same (A ++ X ++ B) (A ++ Y ++ B).
Proof. intros HA HB HX. apply same_app; [by apply same_layout_refl|]. apply same_app; [done|by apply same_layout_refl]. Qed.

Lemma same_one s : same [(1, s)] [].
Proof. split; [by repeat constructor|constructor|done|]. intros l Hl. cbn in *. assert (l = 0) as -> by lia. done. Qed.

Lemma same_merge n1 n2 s : 0 < n1 -> 0 < n2 -> same [(n1, n2 * s); (n2, s)] [(n1 * n2, s)].
Proof.
  intros H1 H2. split; [by repeat constructor|repeat constructor; simpl; lia|unfold size; simpl; lia|].
  intros l Hl. cbn [val size]. unfold size. cbn [fmap list_fmap fst prod]. rewrite !Z.mul_1_r, !Z.div_1_r.
  pose proof (Z.div_mod l n2 ltac:(lia)). nia.
Qed.

Lemma same_ones L : sizes_pos L -> same (filter (fun x => x.1 <> 1) L) L.
Proof.
  induction 1 as [|[n s] L Hn HL IH]; [apply same_layout_refl; constructor|]. simpl in Hn. destruct (decide (n = 1)) as [->|Hne].
  - rewrite filter_cons_False by (intros Hc; by apply Hc). apply (same_app [] [(1, s)] _ L); [symmetry; apply same_one|done].
  - rewrite filter_cons_True by done. apply (same_app [(n, s)] [(n, s)]); [|done]. apply same_layout_refl. by repeat constructor.
Qed.

(** ** Reduced layouts are unique *)

(** No size is one and no two neighbours can be merged. *)
Fixpoint reduced (L : list (Z * Z)) : Prop :=
  match L with
  | [] => True
  | (n, s) :: L => 1 < n /\ (match L with [] => True | (m, t) :: _ => s <> m * t end) /\ reduced L
  end.

Lemma reduced_pos L : reduced L -> sizes_pos L.
Proof. induction L as [|[n s] L IH]; intros HR; constructor; [simpl in *; lia|]. apply IH. simpl in HR. tauto. Qed.

Lemma reduced_snoc L n s : reduced (L ++ [(n, s)]) <->
  reduced L /\ 1 < n /\ (match last L with Some (_, t) => t <> n * s | None => True end).
Proof.
  induction L as [|[m t] L IH]; [simpl; tauto|]. cbn [app reduced]. rewrite IH. destruct L as [|[m2 t2] L]; simpl; [tauto|].
  destruct (last ((m2, t2) :: L)) as [[]|] eqn:E; simpl in *; rewrite ?E; tauto.
Qed.

Lemma val_snoc A n s l : sizes_pos A -> 0 < n -> 0 <= l < size A * n -> val (A ++ [(n, s)]) l = val A (l / n) + l mod n * s.
Proof.
  intros HA Hn Hl. assert (Es : size [(n, s)] = n) by (unfold size; simpl; lia).
  rewrite val_app, Es; [|done|by repeat constructor|by rewrite size_app, Es]. f_equal. simpl. unfold size. simpl. rewrite Z.div_1_r. lia.
Qed.

Lemma val_zero A : sizes_pos A -> val A 0 = 0.
Proof. intros HA. induction HA as [|[n s] A Hn HA IH]; [done|]. simpl. pose proof (size_pos A HA). by rewrite Z.div_0_l, Z.mod_0_l, IH by lia. Qed.

Lemma snoc_case {A} (l : list A) : l = [] \/ exists k x, l = k ++ [x].
Proof. destruct l as [|x k _] using rev_ind; eauto. Qed.

(** The smallest size is where the map stops to be linear. *)
Lemma reduced_last A B n m s t : reduced (A ++ [(n, s)]) -> reduced (B ++ [(m, t)]) -> same (A ++ [(n, s)]) (B ++ [(m, t)]) ->
  s = t /\ n <= m.
Proof.
  intros HA HB [_ _ Hs Hv]. apply reduced_snoc in HA as (HA & Hn & HlA), HB as (HB & Hm & HlB).
  pose proof (size_pos A (reduced_pos A HA)) as HpA. pose proof (size_pos B (reduced_pos B HB)) as HpB.
  rewrite !size_snoc in Hs. rewrite size_snoc in Hv.
  assert (Hval : forall l, 0 <= l < size A * n -> val A (l / n) + l mod n * s = val B (l / m) + l mod m * t).
  { intros l Hl. rewrite <- !val_snoc by (try (by apply reduced_pos); lia). by apply Hv. }
  assert (Est : s = t).
  { specialize (Hval 1 ltac:(nia)). rewrite !Z.div_small, !Z.mod_small, !val_zero in Hval by (try (by apply reduced_pos); lia). lia. }
  split; [done|]. subst t. destruct (Z.le_gt_cases n m) as [?|Hgt]; [done|]. exfalso.
  assert (Hm' : size B <> 1) by nia. destruct (snoc_case B) as [->|(B' & [k r] & ->)]; [by unfold size in Hm'|].
  rewrite last_snoc in HlB. apply reduced_snoc in HB as (HB & Hk & _).
  specialize (Hval m ltac:(nia)). rewrite (Z.div_small m n), (Z.mod_small m n), Z.div_same, Z.mod_same in Hval by lia.
  pose proof (size_pos B' (reduced_pos B' HB)). rewrite val_zero, val_snoc in Hval; [|by apply reduced_pos|lia|nia|by apply reduced_pos].
  rewrite Z.div_small, Z.mod_small, val_zero in Hval; [|by apply reduced_pos|lia|lia]. lia.
Qed.

Lemma reduced_unique L K : reduced L -> reduced K -> same L K -> L = K.
Proof.
  revert K. induction L as [|[n s] A IH] using rev_ind; intros K HL HK Hsame.
  - destruct Hsame as [_ _ Hs _]. destruct K as [|[m t] K]; [done|]. exfalso. rewrite size_cons in Hs. change (size []) with 1 in Hs. simpl in HK.
    pose proof (size_pos K ltac:(apply reduced_pos; tauto)). nia.
  - destruct (snoc_case K) as [->|(B & [m t] & ->)].
    { exfalso. destruct Hsame as [_ _ Hs _]. apply reduced_snoc in HL as (HA & Hn & _). rewrite size_snoc in Hs. change (size []) with 1 in Hs.
      pose proof (size_pos A (reduced_pos A HA)). nia. }
    destruct (reduced_last A B n m s t HL HK Hsame) as [-> Hnm].
    destruct (reduced_last B A m n t t HK HL (symmetry Hsame)) as [_ Hmn]. assert (m = n) as -> by lia. f_equal.
    apply reduced_snoc in HL as (HA & Hn & _), HK as (HB & _ & _). apply IH; [done..|]. destruct Hsame as [_ _ Hs Hv].
    pose proof (reduced_pos A HA). pose proof (reduced_pos B HB). rewrite !size_snoc in Hs.
    split; [done..|nia|]. intros q Hq. specialize (Hv (q * n)). rewrite size_snoc in Hv.
    rewrite !val_snoc, Z.div_mul, Z.mod_mul in Hv by (done || nia). nia.
Qed.
