(* ===== verification/IotaCanonical.v ===== *)
(** * Canonical iota assignments: theorems

    CanonicalizeIotaDims of xla/hlo/ir/tile_assignment.cc keeps the layout of the iota,
    ends, and returns the canonical form, which determines and is determined by the map
    from indices to device numbers. *)

From Stdlib Require Import Sorted.
From stdpp Require Import sorting.
From S2P Require Import Prelude MachineInt PermutationUtil IndexUtil Util Arrays TileAssignment IotaLayout.

(** The layout of an iota that is reshaped to [R] and transposed by [p]. *)
Definition entry (R : list Z) (j : Z) : Z * Z := (nth (Z.to_nat j) R 0, prod (drop (S (Z.to_nat j)) R)).
Definition lay (R p : list Z) : list (Z * Z) := entry R <$> p.

Lemma lay_fst R p : (lay R p).*1 = sel R p.
Proof. unfold lay. rewrite <- list_fmap_compose. done. Qed.

Lemma lay_size R p : is_perm p -> length p = length R -> size (lay R p) = prod R.
Proof. intros Hp Hl. unfold size. rewrite lay_fst. apply prod_perm. by apply sel_perm. Qed.

Lemma nth_pos R j : Forall (fun d => 0 < d) R -> 0 <= j < Zlen R -> 0 < nth (Z.to_nat j) R 0.
Proof.
  intros HR Hj. unfold Zlen in Hj. destruct (lookup_lt_is_Some_2 R (Z.to_nat j)) as [d Hd]; [lia|].
  rewrite nth_lookup, Hd. simpl. by eapply Forall_lookup_1 in HR.
Qed.

Lemma lay_pos R p : Forall (fun d => 0 < d) R -> Forall (fun j => 0 <= j < Zlen R) p -> sizes_pos (lay R p).
Proof. intros HR Hp. apply Forall_fmap. eapply Forall_impl; [exact Hp|]. intros j Hj. by apply nth_pos. Qed.

Lemma lay_perm_pos R p : Forall (fun d => 0 < d) R -> is_perm p -> length p = length R -> sizes_pos (lay R p).
Proof. intros HR Hp Hl. apply lay_pos; [done|]. by apply perm_in_range. Qed.

Lemma strides_drop R k : (k < length R)%nat -> strides R !! k = Some (prod (drop (S k) R)).
Proof. revert k. induction R as [|r R IH]; intros [|k] Hk; simpl in *; try lia; [by rewrite drop_0|]. apply IH. lia. Qed.

Lemma lay_snd R p : Forall (fun j => 0 <= j < Zlen R) p -> (lay R p).*2 = sel (strides R) p.
Proof.
  intros Hp. unfold lay, sel. rewrite <- list_fmap_compose. apply list_fmap_ext. intros k j Hj. simpl.
  eapply Forall_lookup_1 in Hp; [|done]. unfold Zlen in Hp. rewrite nth_lookup, strides_drop by lia. done.
Qed.

(** Consecutive dimensions are like their product. *)
Lemma lay_run R j n : Forall (fun d => 0 < d) R -> (j + n <= length R)%nat ->
  same (lay R (seqZ (Z.of_nat j) (Z.of_nat n))) [(prod (take n (drop j R)), prod (drop (j + n) R))].
Proof.
  intros HR. induction n as [|n IH]; intros Hn; [symmetry; apply same_one|]. specialize (IH ltac:(lia)).
  destruct (lookup_lt_is_Some_2 R (j + n)) as [x Hx]; [lia|]. pose proof Hx as Hpos. eapply Forall_lookup_1 in Hpos; [|exact HR]. simpl in Hpos.
  rewrite seqZ_S. unfold lay in *. rewrite fmap_app. simpl. unfold entry at 2.
  rewrite (take_S_r _ _ x) by by rewrite lookup_drop. rewrite prod_app. simpl. rewrite Z.mul_1_r.
  replace (Z.to_nat (Z.of_nat j + Z.of_nat n)) with (j + n)%nat by lia. rewrite nth_lookup, Hx. cbn [default from_option id].
  assert (HT : sizes_pos [(x, prod (drop (S (j + n)) R))]) by by constructor.
  etransitivity; [apply same_app; [exact IH|apply same_layout_refl; exact HT]|].
  rewrite (drop_S _ _ _ Hx). simpl. replace (j + S n)%nat with (S (j + n)) by lia.
  apply same_merge; [|done]. by apply prod_pos, Forall_take, Forall_drop.
Qed.

(** ** Removing ones *)

(** The new number of a dimension. *)
Definition renumber (R : list Z) (j : Z) : Z := Zlen (filter (fun d => d <> 1) (take (Z.to_nat j) R)).
Definition without_ones (R : list Z) : list Z := filter (fun d => d <> 1) R.
Definition not_one (R : list Z) (j : Z) : Prop := nth (Z.to_nat j) R 0 <> 1.
#[export] Instance not_one_dec R j : Decision (not_one R j) := _.
Definition renumbered (R p : list Z) : list Z := renumber R <$> filter (not_one R) p.

Lemma old_to_new_spec R : (old_to_new_dims R).2 = Zlen (without_ones R) /\
  length (old_to_new_dims R).1 = length R /\
  forall k, (k < length R)%nat -> (old_to_new_dims R).1 !! k =
    Some (if nth k R 0 =? 1 then -1 else renumber R (Z.of_nat k)).
Proof.
  induction R as [|d R (IH1 & IH2 & IH3)] using rev_ind; [simpl; split; [done|split; [done|]]; intros; lia|].
  unfold old_to_new_dims. rewrite foldl_app. fold (old_to_new_dims R). destruct (old_to_new_dims R) as [l c]. cbn [foldl fst snd] in *.
  unfold without_ones in *. rewrite filter_app.
  assert (Hlen : forall x : Z, length (l ++ [x]) = length (R ++ [d])) by (intros; rewrite !length_app; simpl; lia).
  assert (Hend : nth (length R) (R ++ [d]) 0 = d) by (by rewrite app_nth2, Nat.sub_diag by lia).
  assert (Hk : forall k x, (k < length (R ++ [d]))%nat -> x = (if d =? 1 then -1 else Zlen (filter (fun d => d <> 1) R)) ->
    (l ++ [x]) !! k = Some (if nth k (R ++ [d]) 0 =? 1 then -1 else renumber (R ++ [d]) (Z.of_nat k))).
  { intros k x Hk ->. rewrite length_app in Hk. simpl in Hk. unfold renumber. rewrite Nat2Z.id. destruct (decide (k = length R)) as [->|Hne].
    - rewrite Hend, take_app_length, <- IH2, list_lookup_middle by done. done.
    - rewrite lookup_app_l by lia. rewrite IH3 by lia. unfold renumber. rewrite Nat2Z.id.
      rewrite app_nth1 by lia. by rewrite take_app_le by lia. }
  destruct (Z.eqb_spec d 1) as [->|Hd]; cbn [fst snd].
  - rewrite filter_cons_False, app_nil_r by (intros Hc; by apply Hc). split; [done|]. split; [apply Hlen|]. intros k Hlt. by apply Hk.
  - rewrite filter_cons_True by done. split; [rewrite Zlen_app, IH1; done|]. split; [apply Hlen|]. intros k Hlt. by apply Hk.
Qed.

Lemma without_ones_split R j : 0 <= j < Zlen R -> not_one R j ->
  without_ones R = without_ones (take (Z.to_nat j) R) ++ nth (Z.to_nat j) R 0 :: without_ones (drop (S (Z.to_nat j)) R).
Proof.
  intros Hj Hne. unfold not_one, Zlen in *. destruct (lookup_lt_is_Some_2 R (Z.to_nat j)) as [d Hd]; [lia|].
  rewrite nth_lookup, Hd in *. simpl in *. rewrite <- (take_drop_middle _ _ _ Hd) at 1. unfold without_ones.
  by rewrite filter_app, filter_cons_True by done.
Qed.

Lemma renumber_bound R j : 0 <= j < Zlen R -> not_one R j -> 0 <= renumber R j < Zlen (without_ones R) /\ renumber R j <= j.
Proof.
  intros Hj Hne. rewrite (without_ones_split R j) by done. unfold renumber, Zlen in *. rewrite length_app. simpl.
  pose proof (length_filter (fun d => d <> 1) (take (Z.to_nat j) R)) as Hlf. rewrite length_take in Hlf. unfold without_ones. lia.
Qed.

Lemma prod_without_ones R : prod (without_ones R) = prod R.
Proof.
  unfold without_ones. induction R as [|d R IH]; [done|]. destruct (decide (d = 1)) as [->|Hd].
  - rewrite filter_cons_False by (intros Hc; by apply Hc). simpl. lia.
  - rewrite filter_cons_True by done. simpl. lia.
Qed.

Lemma entry_renumber R j : 0 <= j < Zlen R -> not_one R j -> entry (without_ones R) (renumber R j) = entry R j.
Proof.
  intros Hj Hne. unfold entry. rewrite (without_ones_split R j) at 1 2 by done. unfold renumber, Zlen. rewrite Nat2Z.id.
  fold (without_ones (take (Z.to_nat j) R)). f_equal; [by rewrite app_nth2, Nat.sub_diag by lia|].
  rewrite drop_app_ge by lia. replace (S _ - _)%nat with 1%nat by lia. simpl. by rewrite drop_0, prod_without_ones.
Qed.

Lemma lay_renumbered R p : Forall (fun j => 0 <= j < Zlen R) p ->
  lay (without_ones R) (renumbered R p) = filter (fun x => x.1 <> 1) (lay R p).
Proof.
  unfold lay, renumbered. induction 1 as [|j p Hj Hp IH]; [done|]. rewrite (fmap_cons (entry R)). destruct (decide (not_one R j)) as [Hn|Hn].
  - rewrite !filter_cons_True by done. rewrite !fmap_cons, IH, entry_renumber by done. done.
  - rewrite !filter_cons_False by done. done.
Qed.

(** Numbers of dimensions other than ones keep their order. *)
Lemma renumber_lt R i j : 0 <= i < j -> j < Zlen R -> not_one R i -> renumber R i < renumber R j.
Proof.
  intros Hij Hj Hi. unfold renumber. set (T := take (Z.to_nat j) R).
  assert (Ht : take (Z.to_nat i) R = take (Z.to_nat i) T) by (unfold T; rewrite take_take; f_equal; lia). rewrite Ht.
  assert (HlT : length T = Z.to_nat j) by (unfold T; rewrite length_take; unfold Zlen in *; lia).
  assert (Hn : not_one T i).
  { unfold not_one, T in *. destruct (lookup_lt_is_Some_2 R (Z.to_nat i)) as [d Hd]; [unfold Zlen in *; lia|].
    rewrite nth_lookup, lookup_take_lt by lia. by rewrite nth_lookup in Hi. }
  pose proof (without_ones_split T i ltac:(unfold Zlen; lia) Hn) as E. unfold without_ones in E. rewrite E.
  unfold Zlen. rewrite length_app. simpl. lia.
Qed.

Lemma filter_indices_length R : length (filter (not_one R) (indices R)) = length (without_ones R).
Proof.
  unfold without_ones. induction R as [|d R IH] using rev_ind; [done|].
  assert (Ei : indices (R ++ [d]) = indices R ++ [Zlen R]).
  { unfold indices, Zlen. rewrite length_app. simpl. rewrite Nat.add_1_r. apply seqZ_S. }
  rewrite Ei, !filter_app, !length_app. f_equal.
  - rewrite <- IH. f_equal. apply filter_ext_in. intros j Hj%elem_of_indices. unfold not_one, Zlen in *. by rewrite app_nth1 by lia.
  - unfold not_one. assert (En : nth (Z.to_nat (Zlen R)) (R ++ [d]) 0 = d) by (unfold Zlen; rewrite Nat2Z.id, app_nth2, Nat.sub_diag by lia; done).
    destruct (decide (d = 1)) as [->|Hd].
    + rewrite !filter_cons_False; [done|intros Hc; by apply Hc|rewrite En; intros Hc; by apply Hc].
    + rewrite !filter_cons_True; [done|done|by rewrite En].
Qed.

Lemma renumbered_length R p : is_perm p -> length p = length R -> length (renumbered R p) = length (without_ones R).
Proof.
  intros Hp Hl. unfold renumbered. rewrite length_fmap, <- filter_indices_length.
  apply Permutation_length, filter_Permutation. unfold is_perm, indices, Zlen in *. by rewrite <- Hl.
Qed.

Lemma renumbered_perm R p : is_perm p -> length p = length R -> is_perm (renumbered R p).
Proof.
  intros Hp Hl. pose proof (perm_in_range R p Hp Hl) as Hr. apply is_perm_bounds. split.
  - unfold renumbered. apply NoDup_fmap_2_strong; [|by apply NoDup_filter, is_perm_NoDup].
    intros i j [Hi Hni]%list_elem_of_filter [Hj Hnj]%list_elem_of_filter E. rewrite Forall_forall in Hr.
    apply Hr in Hni, Hnj. destruct (Z.lt_trichotomy i j) as [Hlt|[?|Hlt]]; [|done|].
    + pose proof (renumber_lt R i j ltac:(lia) ltac:(lia) Hi). lia.
    + pose proof (renumber_lt R j i ltac:(lia) ltac:(lia) Hj). lia.
  - unfold Zlen. rewrite renumbered_length by done. apply Forall_fmap, Forall_forall. intros j [Hj Hin]%list_elem_of_filter.
    rewrite Forall_forall in Hr. pose proof (renumber_bound R j (Hr j Hin) Hj). unfold Zlen in *. simpl. lia.
Qed.

(** A list that is compacted in place: [out] is its new front, the elements from [k] on
    are still those of [l]. *)
Record compacted {A} (l out buf : list A) (k : nat) : Prop := {
  cp_length : length buf = length l;
  cp_le : (length out <= k)%nat;
  cp_front : take (length out) buf = out;
  cp_rest : forall i, (k <= i)%nat -> buf !! i = l !! i;
}.

Lemma compacted_start {A} (l : list A) : compacted l [] l 0.
Proof. by split. Qed.

Lemma compacted_skip {A} (l out buf : list A) k : compacted l out buf k -> compacted l out buf (S k).
Proof. intros [H1 H2 H3 H4]. split; [done|lia|done|]. intros i Hi. apply H4. lia. Qed.

Lemma compacted_push {A} (l out buf : list A) k x : compacted l out buf k -> (k < length l)%nat ->
  exists buf', set_at buf (Zlen out) x = OK buf' /\ compacted l (out ++ [x]) buf' (S k).
Proof.
  intros [H1 H2 H3 H4] Hk. exists (<[length out := x]> buf). split.
  { apply set_at_OK. unfold Zlen. split; [lia|by rewrite Nat2Z.id]. }
  split; [by rewrite length_insert|rewrite length_app; simpl; lia| |].
  - rewrite length_app, Nat.add_1_r. erewrite take_S_r by (apply list_lookup_insert_eq; lia). by rewrite take_insert_ge, H3 by lia.
  - intros i Hi. rewrite list_lookup_insert_ne by lia. apply H4. lia.
Qed.

Lemma without_ones_snoc R k d : R !! k = Some d ->
  without_ones (take (S k) R) = without_ones (take k R) ++ (if d =? 1 then [] else [d]).
Proof.
  intros Hd. unfold without_ones. rewrite (take_S_r _ _ _ Hd), filter_app. f_equal.
  destruct (Z.eqb_spec d 1) as [->|?]; [by rewrite filter_cons_False by (intros Hc; by apply Hc)|by rewrite filter_cons_True by done].
Qed.

Lemma renumbered_snoc R p k j : p !! k = Some j ->
  renumbered R (take (S k) p) = renumbered R (take k p) ++ (if nth (Z.to_nat j) R 0 =? 1 then [] else [renumber R j]).
Proof.
  intros Hj. unfold renumbered. rewrite (take_S_r _ _ _ Hj), filter_app, fmap_app. f_equal.
  destruct (Z.eqb_spec (nth (Z.to_nat j) R 0) 1) as [E|?].
  - by rewrite filter_cons_False by (unfold not_one; rewrite E; intros Hc; by apply Hc).
  - by rewrite filter_cons_True.
Qed.

Lemma without_ones_all R : Zlen (without_ones R) = Zlen R -> without_ones R = R.
Proof.
  unfold without_ones, Zlen. induction R as [|d R IH]; [done|]. destruct (decide (d = 1)) as [->|Hd].
  - rewrite filter_cons_False by (intros Hc; by apply Hc). intros Hl. pose proof (length_filter (fun d => d <> 1) R). simpl in Hl. lia.
  - rewrite filter_cons_True by done. simpl. intros Hl. rewrite IH by lia. done.
Qed.

Lemma renumber_id R j : without_ones R = R -> 0 <= j < Zlen R -> renumber R j = j /\ not_one R j.
Proof.
  intros HR Hj. assert (HF : Forall (fun d => d <> 1) R).
  { rewrite <- HR. apply Forall_forall. intros d [Hd _]%list_elem_of_filter. done. }
  unfold renumber, Zlen, not_one in *. destruct (lookup_lt_is_Some_2 R (Z.to_nat j)) as [d Hd]; [lia|].
  rewrite nth_lookup, Hd. split; [|by eapply Forall_lookup_1 in HF].
  assert (E : filter (fun d => d <> 1) (take (Z.to_nat j) R) = take (Z.to_nat j) R).
  { assert (HFt : Forall (fun d => d <> 1) (take (Z.to_nat j) R)) by by apply Forall_take. clear -HFt.
    induction HFt as [|x l Hx HF IH]; [done|]. by rewrite filter_cons_True, IH. }
  rewrite E, length_take. lia.
Qed.

Lemma renumbered_id R p : without_ones R = R -> Forall (fun j => 0 <= j < Zlen R) p -> renumbered R p = p.
Proof.
  intros HR. unfold renumbered. induction 1 as [|j p Hj Hp IH]; [done|]. destruct (renumber_id R j HR Hj) as [Hr Hn].
  rewrite filter_cons_True by done. by rewrite fmap_cons, Hr, IH.
Qed.

Lemma remove_one_dims_ok R p : is_perm p -> length p = length R ->
  remove_one_dims R p = OK (without_ones R, renumbered R p).
Proof.
  intros Hp Hl. pose proof (perm_in_range R p Hp Hl) as Hr. unfold remove_one_dims.
  destruct (old_to_new_spec R) as (Hc & Hlo & Hlk). destruct (old_to_new_dims R) as [old c]. cbn [fst snd] in *. subst c.
  destruct (Z.eqb_spec (Zlen (without_ones R)) (Zlen R)) as [E|_].
  { apply without_ones_all in E. by rewrite E, renumbered_id. }
  match goal with |- context [foldM ?F ?B _] => destruct (foldM_indices (fun k '(d, q, n) =>
    compacted R (without_ones (take k R)) d k /\ compacted p (renumbered R (take k p)) q k /\ n = Zlen (renumbered R (take k p)))
    F R B) as ([[d q] n] & HF & HD & HQ & _) end.
  - split; [apply compacted_start|]. split; [apply compacted_start|done].
  - intros k [[d q] n] Hk (HD & HQ & ->). destruct (lookup_lt_is_Some_2 R k Hk) as [r Hrk].
    destruct (lookup_lt_is_Some_2 p k) as [j Hj]; [lia|]. pose proof Hj as Hjr. eapply Forall_lookup_1 in Hjr; [|exact Hr]. simpl in Hjr.
    assert (Hold : forall i, 0 <= i < Zlen R -> at_ old i = OK (if nth (Z.to_nat i) R 0 =? 1 then -1 else renumber R i)).
    { intros i Hi. apply at_OK, idx_Some. split; [lia|]. unfold Zlen in Hi. rewrite Hlk by lia. rewrite Z2Nat.id by lia. done. }
    rewrite Hold by (unfold Zlen; lia). cbn [mbind outcome_bind]. rewrite Nat2Z.id, nth_lookup, Hrk. cbn [default from_option id].
    rewrite (without_ones_snoc R k r), (renumbered_snoc R p k j) by done.
    assert (HD' : exists d', (if 0 <=? (if r =? 1 then -1 else renumber R (Z.of_nat k)) then
        x ← at_ d (Z.of_nat k); set_at d (if r =? 1 then -1 else renumber R (Z.of_nat k)) x else OK d) = OK d' /\
        compacted R (without_ones (take k R) ++ (if r =? 1 then [] else [r])) d' (S k)).
    { destruct (Z.eqb_spec r 1) as [->|Hne]; [exists d; split; [done|]; rewrite app_nil_r; by apply compacted_skip|].
      rewrite (proj2 (Z.leb_le 0 _)) by (unfold renumber; apply Zlen_nonneg).
      rewrite (proj2 (at_OK d _ r)) by (rewrite idx_of_nat, (cp_rest _ _ _ _ HD) by lia; done). cbn [mbind outcome_bind].
      unfold renumber. rewrite Nat2Z.id. by apply compacted_push. }
    destruct HD' as (d' & -> & HD'). cbn [mbind outcome_bind].
    rewrite (proj2 (at_OK q _ j)) by (rewrite idx_of_nat, (cp_rest _ _ _ _ HQ) by lia; done). cbn [mbind outcome_bind].
    rewrite Hold by done. cbn [mbind outcome_bind]. destruct (Z.eqb_spec (nth (Z.to_nat j) R 0) 1) as [E1|Hne1].
    + change (0 <=? -1) with false. cbv iota. eexists. split; [done|]. rewrite !app_nil_r. split; [done|]. split; [by apply compacted_skip|done].
    + rewrite (proj2 (Z.leb_le 0 _)) by (unfold renumber; apply Zlen_nonneg).
      destruct (compacted_push p _ q k (renumber R j) HQ) as (q' & -> & HQ'); [lia|]. cbn [mbind outcome_bind].
      eexists. split; [done|]. split; [done|]. split; [done|]. rewrite Zlen_app. done.
  - rewrite HF. cbn [mbind outcome_bind]. rewrite (take_ge R), (take_ge p) in * by lia. unfold Zlen. rewrite Nat2Z.id.
    rewrite (cp_front _ _ _ _ HD). rewrite <- (renumbered_length R p) by done. by rewrite (cp_front _ _ _ _ HQ).
Qed.

(** ** Merging neighbours *)

Lemma merge_entry X M Y x y j : Z.to_nat j <> length X ->
  (Z.to_nat j < length X \/ length X + S (length M) < Z.to_nat j)%nat ->
  entry (X ++ x * y :: M ++ 1 :: Y) j = entry (X ++ x :: M ++ y :: Y) j.
Proof.
  intros Hne Hj. unfold entry. destruct Hj as [Hj|Hj].
  - rewrite !app_nth1 by lia. f_equal. rewrite !drop_app_le by lia. rewrite !prod_app. simpl. rewrite !prod_app. simpl. ring.
  - rewrite !app_nth2 by lia. replace (Z.to_nat j - length X)%nat with (S (Z.to_nat j - length X - 1)) by lia. simpl.
    rewrite !app_nth2 by lia. replace (Z.to_nat j - length X - 1 - length M)%nat with (S (Z.to_nat j - length X - 1 - length M - 1)) by lia. simpl.
    f_equal. rewrite !drop_app_ge by lia. replace (S (Z.to_nat j) - length X)%nat with (S (Z.to_nat j - length X)) by lia. simpl.
    rewrite !drop_app_ge by lia. by replace (Z.to_nat j - length X - length M)%nat with (S (Z.to_nat j - length X - length M - 1)) by lia.
Qed.

Lemma merge_same X M Y x y A B :
  let R := X ++ x :: M ++ y :: Y in
  let run := seqZ (Zlen X) (Zlen M + 2) in
  Forall (fun d => 0 < d) R -> Forall (fun j => 0 <= j < Zlen R) (A ++ run ++ B) -> NoDup (A ++ run ++ B) ->
  same (lay (X ++ x * y :: M ++ 1 :: Y) (A ++ run ++ B)) (lay R (A ++ run ++ B)).
Proof.
  intros R run HR Hr Hnd. set (R' := X ++ x * y :: M ++ 1 :: Y).
  assert (HR' : Forall (fun d => 0 < d) R').
  { unfold R, R' in *. rewrite !Forall_app, !Forall_cons, !Forall_app, !Forall_cons in *.
    destruct HR as (HX & Hx & HM & Hy & HY). split_and!; try done; nia. }
  assert (Hlen : length R' = length R) by (unfold R, R'; rewrite !length_app; simpl; rewrite !length_app; done).
  assert (Hout : forall C, Forall (fun j => 0 <= j < Zlen R) C -> (forall j, j ∈ C -> j ∉ run) -> lay R' C = lay R C).
  { intros C HC Hrun. unfold lay. apply list_fmap_ext. intros k j Hj. eapply Forall_lookup_1 in HC; [|exact Hj]. simpl in HC.
    specialize (Hrun j (list_elem_of_lookup_2 _ _ _ Hj)). unfold run in Hrun. rewrite elem_of_seqZ in Hrun. unfold Zlen in *.
    apply merge_entry; lia. }
  apply Forall_app in Hr as [HrA [HrR HrB]%Forall_app]. apply NoDup_app in Hnd as (_ & HAr & (_ & HrB' & _)%NoDup_app).
  unfold lay. rewrite !fmap_app. fold (lay R' A) (lay R' run) (lay R' B) (lay R A) (lay R run) (lay R B).
  rewrite (Hout A), (Hout B); [|done|intros j Hj Hjr; by apply (HrB' j Hjr)|done|intros j Hj Hjr; apply (HAr j Hj), elem_of_app; by left].
  apply same_middle; [by apply lay_pos|by apply lay_pos|].
  assert (Hrn : run = seqZ (Z.of_nat (length X)) (Z.of_nat (length M + 2))) by (unfold run, Zlen; f_equal; lia). rewrite Hrn.
  assert (HlR : (length X + (length M + 2) <= length R)%nat) by (unfold R; rewrite length_app; simpl; rewrite length_app; simpl; lia).
  etransitivity; [apply lay_run; [done|by rewrite Hlen]|]. etransitivity; [|symmetry; by apply lay_run].
  assert (Hd : forall u v, drop (length X) (X ++ u :: M ++ v :: Y) = u :: M ++ v :: Y) by (intros; by apply drop_app_length).
  unfold R, R'. assert (Hdd : forall l : list Z, drop (length X + (length M + 2)) l = drop (length M + 2) (drop (length X) l)) by (intros; by rewrite drop_drop).
  rewrite !Hdd, !Hd. replace (length M + 2)%nat with (S (S (length M))) by lia. rewrite !firstn_cons, !skipn_cons.
  rewrite !take_app_ge, !drop_app_ge by lia. replace (S (length M) - length M)%nat with 1%nat by lia. simpl.
  rewrite !prod_app. simpl. replace (x * y * (prod M * (1 * 1))) with (x * (prod M * (y * 1))) by ring. apply same_layout_refl.
  unfold R in HR. rewrite !Forall_app, !Forall_cons, !Forall_app, !Forall_cons in HR. destruct HR as (HX & Hx & HM & Hy & HY).
  repeat constructor. simpl. pose proof (prod_pos M HM). nia.
Qed.

Lemma run_split (p : list Z) b m x : (forall t, (t <= m)%nat -> p !! (b + t)%nat = Some (x + Z.of_nat t)) ->
  p = take b p ++ seqZ x (Z.of_nat (S m)) ++ drop (b + S m) p.
Proof.
  intros Hrun. rewrite <- (take_drop b p) at 1. f_equal. rewrite <- (take_drop (S m) (drop b p)), drop_drop at 1. f_equal.
  apply list_eq. intros t. destruct (decide (t <= m)%nat) as [Ht|Ht].
  - rewrite lookup_take_lt, lookup_drop, Hrun by lia. symmetry. apply lookup_seqZ. lia.
  - rewrite lookup_take_ge by lia. symmetry. apply lookup_ge_None_2. rewrite length_seqZ. lia.
Qed.

Lemma two_split (R : list Z) i j x y : (i < j)%nat -> R !! i = Some x -> R !! j = Some y ->
  exists X M Y, R = X ++ x :: M ++ y :: Y /\ length X = i /\ (length X + S (length M))%nat = j.
Proof.
  intros Hij Hi Hj. pose proof (lookup_lt_Some _ _ _ Hj). exists (take i R), (take (j - S i) (drop (S i) R)), (drop (S j) R).
  split; [|rewrite !length_take, length_drop; lia].
  rewrite <- (take_drop_middle R i x Hi) at 1. do 2 f_equal. rewrite <- (take_drop (j - S i) (drop (S i) R)) at 1. f_equal.
  rewrite drop_drop. replace (S i + (j - S i))%nat with j by lia. by apply drop_S.
Qed.

(** The state of the merging loop before round [i] = [S k]; [b] is the base. *)
Record merging (R p d : list Z) (b k : nat) (changed : bool) : Prop := {
  mg_pos : Forall (fun x => 0 < x) d;
  mg_length : length d = length R;
  mg_base : (b <= k)%nat;
  mg_run : exists x, forall t, (t <= k - b)%nat -> p !! (b + t)%nat = Some (x + Z.of_nat t);
  mg_same : same (lay d p) (lay R p);
  mg_changed : changed = true -> exists t j, (t <= k)%nat /\ t <> b /\ p !! t = Some j /\ d !! Z.to_nat j = Some 1;
  mg_unchanged : changed = false -> d = R /\ b = k /\
    forall t x y, (t < k)%nat -> p !! t = Some x -> p !! S t = Some y -> y <> x + 1;
}.

Lemma merging_apart R p d b k changed i x j : is_perm p -> length p = length R -> merging R p d b k changed ->
  (S k < length p)%nat -> p !! b = Some x -> p !! S k = Some j -> j <> x + Z.of_nat (S k - b) ->
  i = S k -> merging R p d i i changed.
Proof.
  intros Hp Hl [Hpos Hlen Hbk [x' Hrun] Hs Hc Hu] Hk Hx Hj Hne ->. split; [done|done|lia| |done| |].
  - exists j. intros t Ht. assert (t = 0%nat) as -> by lia. rewrite Nat.add_0_r, Hj. f_equal. lia.
  - intros Hch. destruct (Hc Hch) as (t & j' & Ht & _ & Hpt & Hd). exists t, j'. split; [lia|]. split; [lia|]. done.
  - intros Hch. destruct (Hu Hch) as (-> & -> & Had). split; [done|]. split; [done|]. intros t y z Ht Hy Hz.
    destruct (decide (t = k)) as [->|]; [|apply (Had t); [lia|done..]].
    assert (y = x) by congruence. assert (z = j) by congruence. lia.
Qed.

Lemma merging_merge R p d b k changed x j : is_perm p -> length p = length R -> prod R < two63 -> merging R p d b k changed ->
  (S k < length p)%nat -> p !! b = Some x -> p !! S k = Some j -> j = x + Z.of_nat (S k - b) ->
  exists u v, at_ d x = OK u /\ at_ d j = OK v /\
    exists d1 d2, set_at d x (mul64 u v) = OK d1 /\ set_at d1 j 1 = OK d2 /\ merging R p d2 b (S k) true.
Proof.
  intros Hp Hl Hsmall [Hpos Hlen Hbk [x' Hrun] Hs Hc Hu] Hk Hx Hj Ej.
  assert (Hx0 : 0 <= x < Zlen p) by (apply (is_perm_range p); [done|by eapply list_elem_of_lookup_2]).
  assert (Hj0 : 0 <= j < Zlen p) by (apply (is_perm_range p); [done|by eapply list_elem_of_lookup_2]).
  assert (x' = x) as -> by (specialize (Hrun 0%nat ltac:(lia)); rewrite Nat.add_0_r, Hx in Hrun; injection Hrun; lia).
  unfold Zlen in Hx0, Hj0. destruct (lookup_lt_is_Some_2 d (Z.to_nat x)) as [u Hu']; [lia|].
  destruct (lookup_lt_is_Some_2 d (Z.to_nat j)) as [v Hv']; [lia|].
  destruct (two_split d (Z.to_nat x) (Z.to_nat j) u v) as (X & M & Y & Ed & HX & HM); [lia|done|done|].
  exists u, v. split; [apply at_OK, idx_Some; split; [lia|done]|]. split; [apply at_OK, idx_Some; split; [lia|done]|].
  assert (Hprod : prod d = prod R) by (rewrite <- (lay_size d p), <- (lay_size R p) by (done || lia); apply Hs).
  assert (Huv : 0 < u /\ 0 < v /\ u * v <= prod d).
  { rewrite Ed in Hpos |- *. rewrite !Forall_app, !Forall_cons, !Forall_app, !Forall_cons in Hpos. destruct Hpos as (HpX & Hpu & HpM & Hpv & HpY).
    split; [done|]. split; [done|]. rewrite prod_app. simpl. rewrite prod_app. simpl.
    pose proof (prod_pos X HpX). pose proof (prod_pos M HpM). pose proof (prod_pos Y HpY). 
    replace (prod X * (u * (prod M * (v * prod Y)))) with (u * v * (prod X * prod M * prod Y)) by ring.
    assert (1 <= prod X * prod M * prod Y) by nia. nia. }
  assert (Em : mul64 u v = u * v) by (apply mul64_fits; lia).
  assert (E2 : <[Z.to_nat j := 1]> (<[Z.to_nat x := u * v]> d) = X ++ u * v :: M ++ 1 :: Y).
  { rewrite Ed, <- HX, <- HM. rewrite insert_app_r_alt by lia. rewrite Nat.sub_diag. simpl.
    rewrite insert_app_r_alt by lia. replace (length X + S (length M) - length X)%nat with (S (length M)) by lia. simpl.
    rewrite insert_app_r_alt by lia. by rewrite Nat.sub_diag. }
  exists (<[Z.to_nat x := u * v]> d), (X ++ u * v :: M ++ 1 :: Y). rewrite Em.
  split; [apply set_at_OK; unfold Zlen; split; [lia|done]|].
  split; [apply set_at_OK; unfold Zlen; rewrite length_insert; split; [lia|done]|].
  assert (Hrun' : forall t, (t <= S k - b)%nat -> p !! (b + t)%nat = Some (x + Z.of_nat t)).
  { intros t Ht. destruct (decide (t <= k - b)%nat) as [Ht'|Ht']; [by apply Hrun|].
    replace (b + t)%nat with (S k) by lia. rewrite Hj. f_equal. lia. }
  split.
  - rewrite Ed in Hpos. rewrite !Forall_app, !Forall_cons, !Forall_app, !Forall_cons in *. intuition nia.
  - rewrite <- Hlen, Ed, !length_app. simpl. rewrite !length_app. done.
  - lia.
  - exists x. exact Hrun'.
  - etransitivity; [|exact Hs]. pose proof (run_split p b (S k - b) x Hrun') as Ep.
    assert (Er : seqZ x (Z.of_nat (S (S k - b))) = seqZ (Zlen X) (Zlen M + 2)) by (unfold Zlen; f_equal; lia). rewrite Er in Ep.
    rewrite Ep, Ed. apply merge_same; rewrite <- ?Ed, <- ?Ep; [done| |by apply is_perm_NoDup].
    apply perm_in_range; [done|lia].
  - intros _. exists (S k), j. split; [lia|]. split; [lia|]. split; [done|]. rewrite <- E2. apply list_lookup_insert_eq. rewrite length_insert. lia.
  - done.
Qed.

Definition apart (p : list Z) : Prop := forall t x y, p !! t = Some x -> p !! S t = Some y -> y <> x + 1.

Lemma merge_dims_ok R p : Forall (fun x => 0 < x) R -> prod R < two63 -> is_perm p -> length p = length R ->
  exists d changed, merge_dims R p = OK (d, changed) /\ Forall (fun x => 0 < x) d /\ length d = length R /\
    same (lay d p) (lay R p) /\ (changed = true -> 1 ∈ d) /\ (changed = false -> d = R /\ apart p).
Proof.
  intros HR Hs Hp Hl. pose proof (lay_perm_pos R p HR Hp Hl) as Hlay.
  destruct (decide (length R = 0)%nat) as [H0|H0].
  { destruct R; [|done]. destruct p; [|done]. exists [], false. split; [done|]. split; [constructor|]. split; [done|].
    split; [by apply same_layout_refl|]. split; [done|]. intros _. split; [done|]. intros t x y Hx. done. }
  destruct (lookup_lt_is_Some_2 p 0%nat) as [x0 Hx0]; [lia|]. unfold merge_dims.
  match goal with |- context [foldM ?F ?B _] => destruct (foldM_seqZ_from (fun k '(d, base, changed) =>
    exists b, base = Z.of_nat b /\ merging R p d b k changed) F 1 (length R - 1) B) as ([[d base] changed] & HF & b & _ & HM) end.
  - exists 0%nat. split; [done|]. split; [done|done|lia| |by apply same_layout_refl|done|].
    + exists x0. intros t Ht. assert (t = 0%nat) as -> by lia. simpl. rewrite Hx0. f_equal. lia.
    + intros _. split; [done|]. split; [done|]. intros t x y Ht. lia.
  - intros k [[d base] changed] Hk (b & -> & HM). pose proof (mg_base _ _ _ _ _ _ HM) as Hbk.
    destruct (lookup_lt_is_Some_2 p b) as [x Hx]; [lia|]. destruct (lookup_lt_is_Some_2 p (S k)) as [j Hj]; [lia|].
    replace (1 + Z.of_nat k) with (Z.of_nat (S k)) by lia.
    rewrite (proj2 (at_OK p (Z.of_nat b) x)) by by rewrite idx_of_nat. rewrite (proj2 (at_OK p (Z.of_nat (S k)) j)) by by rewrite idx_of_nat.
    cbn [mbind outcome_bind]. destruct (Z.eqb_spec (x + (Z.of_nat (S k) - Z.of_nat b)) j) as [E|Hne].
    + destruct (merging_merge R p d b k changed x j) as (u & v & -> & -> & d1 & d2 & H1 & H2 & HM'); [done..|lia|done|done|lia|].
      cbn [mbind outcome_bind]. rewrite H1. cbn [mbind outcome_bind]. rewrite H2. cbn [mbind outcome_bind]. eexists. split; [done|]. by exists b.
    + eexists. split; [done|]. exists (S k). split; [done|]. eapply merging_apart; [done|done|exact HM|lia|exact Hx|exact Hj|lia|done].
  - replace (Z.of_nat (length R - 1)) with (Zlen R - 1) in HF by (unfold Zlen; lia). rewrite HF. cbn [mbind outcome_bind].
    destruct HM as [Hpos Hlen Hbk _ Hsame Hc Hu]. exists d, changed. split; [done|]. split; [done|]. split; [done|]. split; [done|].
    split; intros Hch.
    + destruct (Hc Hch) as (t & j & _ & _ & _ & Hd). by eapply list_elem_of_lookup_2.
    + destruct (Hu Hch) as (-> & _ & Had). split; [done|]. intros t x y Hx Hy. apply (Had t); [|done..].
      apply lookup_lt_Some in Hy. lia.
Qed.

(** ** The whole canonicalization *)

Record canonical (R p : list Z) : Prop := {
  cn_perm : is_perm p;
  cn_length : length p = length R;
  cn_big : Forall (fun x => 1 < x) R;
  cn_apart : apart p;
}.

Lemma without_ones_big R : Forall (fun x => 0 < x) R -> Forall (fun x => 1 < x) (without_ones R).
Proof.
  intros HR. apply Forall_forall. intros x [Hx Hin]%list_elem_of_filter. rewrite Forall_forall in HR. specialize (HR x Hin). lia.
Qed.

Lemma big_pos R : Forall (fun x => 1 < x) R -> Forall (fun x => 0 < x) R.
Proof. intros HR. eapply Forall_impl; [exact HR|]. simpl. lia. Qed.

Lemma renumbered_same R p : Forall (fun x => 0 < x) R -> is_perm p -> length p = length R ->
  same (lay (without_ones R) (renumbered R p)) (lay R p).
Proof.
  intros HR Hp Hl. rewrite lay_renumbered by by apply perm_in_range. by apply same_ones, lay_perm_pos.
Qed.

Lemma Canonicalize_loop_ok fuel : forall R p, Forall (fun x => 0 < x) R -> prod R < two63 -> is_perm p -> length p = length R ->
  (length (without_ones R) < fuel)%nat ->
  exists R' p', CanonicalizeIotaDims_loop fuel R p = OK (R', p') /\ canonical R' p' /\ same (lay R' p') (lay R p).
Proof.
  induction fuel as [|fuel IH]; intros R p HR Hs Hp Hl Hf; [lia|]. cbn [CanonicalizeIotaDims_loop].
  rewrite remove_one_dims_ok by done. cbn [mbind outcome_bind].
  set (R1 := without_ones R) in *. set (p1 := renumbered R p).
  assert (HR1 : Forall (fun x => 1 < x) R1) by by apply without_ones_big.
  assert (Hp1 : is_perm p1) by by apply renumbered_perm.
  assert (Hl1 : length p1 = length R1) by by apply renumbered_length.
  assert (Hs1 : prod R1 < two63) by (unfold R1; by rewrite prod_without_ones).
  pose proof (renumbered_same R p HR Hp Hl) as Hsame.
  destruct (merge_dims_ok R1 p1) as (d & changed & -> & Hd & Hld & Hsd & Hch & Hnch); [by apply big_pos|done..|].
  cbn [mbind outcome_bind]. destruct changed.
  - assert (Hpd : prod d = prod R1) by (rewrite <- (lay_size d p1), <- (lay_size R1 p1) by (done || lia); apply Hsd).
    assert (Hlt : (length (without_ones d) < length d)%nat).
    { unfold without_ones. apply (length_filter_lt (fun x => x <> 1) d 1); [by apply Hch|auto]. }
    destruct (IH d p1) as (R' & p' & HC & Hcn & HS); [done|by rewrite Hpd|done|lia|lia|].
    exists R', p'. split; [done|]. split; [done|]. etransitivity; [exact HS|]. by etransitivity.
  - destruct (Hnch eq_refl) as [-> Hap]. exists R1, p1. split; [done|]. by split.
Qed.

Lemma CanonicalizeIotaDims_ok R p : Forall (fun x => 0 < x) R -> prod R < two63 -> is_perm p -> length p = length R ->
  exists R' p', CanonicalizeIotaDims R p = OK (R', p') /\ same (lay R' p') (lay R p) /\
    (canonical R' p' \/ (R' = [1] /\ p' = [0])).
Proof.
  intros HR Hs Hp Hl. unfold CanonicalizeIotaDims, Zlen. destruct (Z.leb_spec (Z.of_nat (length R)) 1) as [H1|H1].
  - exists R, p. split; [done|]. split; [by apply same_layout_refl, lay_perm_pos|].
    destruct R as [|r [|? ?]]; simpl in H1; [|destruct (decide (r = 1)) as [->|Hr]|lia].
    + left. destruct p; [|done]. split; [done|done|constructor|]. intros t x y Hx. done.
    + right. split; [done|]. destruct p as [|j [|? ?]]; try done. pose proof (is_perm_range _ j Hp ltac:(set_solver)). unfold Zlen in *. simpl in *.
      by assert (j = 0) as -> by lia.
    + left. destruct p as [|j [|? ?]]; try done. apply Forall_cons in HR as [Hr0 _]. split; [done|done|repeat constructor; lia|].
      intros [|t] x y Hx Hy; done.
  - destruct (Canonicalize_loop_ok (S (length R)) R p) as (R' & p' & HC & Hcn & HS); [done..|pose proof (length_filter (fun d => d <> 1) R); unfold without_ones; lia|].
    exists R', p'. split; [done|]. split; [done|by left].
Qed.

Lemma prod_drop_lt R i j : Forall (fun x => 1 < x) R -> (i < j <= length R)%nat -> prod (drop j R) < prod (drop i R).
Proof.
  intros HR Hij. rewrite <- (take_drop (j - i) (drop i R)), prod_app, drop_drop. replace (i + (j - i))%nat with j by lia.
  assert (1 < prod (take (j - i) (drop i R))).
  { destruct (lookup_lt_is_Some_2 R i) as [r Hi]; [lia|]. rewrite (drop_S _ _ _ Hi). destruct (j - i)%nat as [|n] eqn:En; [lia|]. rewrite firstn_cons. cbn [prod].
    assert (Hr1 : 1 < r) by by eapply Forall_lookup_1 in HR. pose proof (prod_pos (take n (drop (S i) R)) ltac:(by apply Forall_take, Forall_drop, big_pos)). nia. }
  pose proof (prod_pos (drop j R) ltac:(by apply Forall_drop, big_pos)). nia.
Qed.

(** A canonical iota has a reduced layout. *)
Lemma canonical_reduced R p : canonical R p -> reduced (lay R p).
Proof.
  intros [Hp Hl HR Hap]. pose proof (perm_in_range R p Hp Hl) as Hr. clear Hp Hl. induction Hr as [|x p Hx Hr IH]; [done|].
  pose proof (IH ltac:(intros t; apply (Hap (S t)))) as HI. unfold lay. rewrite fmap_cons. fold (lay R p). unfold entry at 1. cbn [reduced]. unfold Zlen in Hx.
  split.
  { destruct (lookup_lt_is_Some_2 R (Z.to_nat x)) as [d Hd]; [lia|]. rewrite nth_lookup, Hd. simpl. by eapply Forall_lookup_1 in HR. }
  split; [|done]. destruct p as [|y p]; [done|]. unfold lay. rewrite fmap_cons. unfold entry at 1.
  pose proof (Hap 0%nat x y eq_refl eq_refl) as Hxy. apply Forall_cons in Hr as [Hy _]. unfold Zlen in Hy.
  destruct (lookup_lt_is_Some_2 R (Z.to_nat y)) as [e He]; [lia|]. rewrite nth_lookup, He. cbn [default from_option id].
  assert (Ed : e * prod (drop (S (Z.to_nat y)) R) = prod (drop (Z.to_nat y) R)) by by rewrite (drop_S _ _ _ He).
  rewrite Ed. intros E. pose proof (fun i j => prod_drop_lt R i j HR) as Hmono.
  destruct (Nat.lt_trichotomy (S (Z.to_nat x)) (Z.to_nat y)) as [Hlt|[Heq|Hlt]].
  - specialize (Hmono (S (Z.to_nat x)) (Z.to_nat y)). lia.
  - lia.
  - specialize (Hmono (Z.to_nat y) (S (Z.to_nat x))). lia.
Qed.

(** ** Canonical forms are unique *)

Lemma lay_indices R : lay R (indices R) = zip R (strides R).
Proof.
  apply list_eq. intros k. unfold lay. rewrite list_lookup_fmap. destruct (decide (k < length R)%nat) as [Hk|Hk].
  - rewrite (proj2 (idx_indices R k (Z.of_nat k))) by done. simpl. destruct (lookup_lt_is_Some_2 R k Hk) as [r Hr].
    symmetry. apply lookup_zip_with_Some. exists r, (prod (drop (S k) R)). split; [|by rewrite strides_drop].
    unfold entry. by rewrite Nat2Z.id, nth_lookup, Hr.
  - rewrite (lookup_ge_None_2 (indices R)) by (rewrite length_indices; lia). symmetry. apply lookup_ge_None_2.
    rewrite length_zip_with, length_strides. lia.
Qed.

Lemma strides_sorted R : Forall (fun x => 1 < x) R -> StronglySorted (fun a b : Z * Z => b.2 < a.2) (zip R (strides R)).
Proof.
  induction R as [|r R IH]; intros HR; [constructor|]. apply Forall_cons in HR as [Hr HR]. constructor; [by apply IH|].
  apply Forall_forall. intros [n s] [k Hk]%list_elem_of_lookup. apply lookup_zip_with_Some in Hk as (n' & s' & [= -> ->] & Hn & Hs).
  pose proof (lookup_lt_Some _ _ _ Hn) as Hlt. rewrite strides_drop in Hs by done. injection Hs as <-. simpl.
  pose proof (prod_drop_lt R 0 (S k) HR ltac:(lia)) as Hd. by rewrite drop_0 in Hd.
Qed.

Lemma lay_full R p : is_perm p -> length p = length R -> lay R p ≡ₚ zip R (strides R).
Proof.
  intros Hp Hl. rewrite <- lay_indices. unfold lay. apply fmap_Permutation. unfold is_perm, indices, Zlen in *. by rewrite <- Hl.
Qed.

Lemma canonical_unique R p R' p' : canonical R p -> canonical R' p' -> same (lay R p) (lay R' p') -> R = R' /\ p = p'.
Proof.
  intros HC HC' Hs. apply reduced_unique in Hs; [|by apply canonical_reduced..].
  destruct HC as [Hp Hl HR _], HC' as [Hp' Hl' HR' _].
  assert (Ez : zip R (strides R) = zip R' (strides R')).
  { apply (StronglySorted_unique_strong (fun a b : Z * Z => b.2 < a.2)); [intros a b _ _ ? ?; lia|by apply strides_sorted..|].
    by rewrite <- (lay_full R p), <- (lay_full R' p'), Hs by done. }
  assert (ER : R = R').
  { rewrite <- (fst_zip R (strides R)), Ez, fst_zip by (rewrite length_strides; done). done. }
  split; [done|]. subst R'. apply list_eq. intros k. pose proof (f_equal (lookup k) Hs) as Hk. unfold lay in Hk. rewrite !list_lookup_fmap in Hk.
  destruct (p !! k) as [i|] eqn:Ei, (p' !! k) as [j|] eqn:Ej; try done. injection Hk as _ Hstr. f_equal.
  pose proof (is_perm_range p i Hp (list_elem_of_lookup_2 _ _ _ Ei)) as Hi. pose proof (is_perm_range p' j Hp' (list_elem_of_lookup_2 _ _ _ Ej)) as Hj.
  unfold Zlen in *. destruct (Z.lt_trichotomy i j) as [Hlt|[?|Hlt]]; [|done|].
  - pose proof (prod_drop_lt R (S (Z.to_nat i)) (S (Z.to_nat j)) HR). lia.
  - pose proof (prod_drop_lt R (S (Z.to_nat j)) (S (Z.to_nat i)) HR). lia.
Qed.
