(* ===== verification/IotaAssignment.v ===== *)
(** * Iota assignments: theorems

    Create gives the canonical form of the reshaped and transposed iota; value_at, the
    materialized array and the layout agree; equality of assignments is equality of the
    arrays that they denote; every device occurs once. *)

From S2P Require Import Prelude MachineInt PermutationUtil IndexUtil Util Arrays ArrayTheorems TileAssignment.
From S2P Require Import IotaLayout IotaCanonical.

(** What a created assignment keeps: the canonical form, or that of a single device. *)
Definition iota_form (R p : list Z) : Prop := (canonical R p /\ R <> []) \/ (R = [1] /\ p = [0]).

Record iota_ok (a : IotaTileAssignment) : Prop := {
  io_dims : Forall (fun d => 0 < d) (dims a);
  io_nonempty : dims a <> [];
  io_form : iota_form (reshape_dims a) (transpose_perm a);
  io_prod : prod (dims a) = prod (reshape_dims a);
  io_small : prod (reshape_dims a) < two31;
}.

Lemma form_perm R p : iota_form R p -> is_perm p /\ length p = length R /\ Forall (fun d => 0 < d) R /\ R <> [].
Proof.
  intros [[[Hp Hl HR _] Hne]|[-> ->]]; [by split_and!; try apply big_pos|].
  split; [apply IsPermutation_iff; by vm_compute|]. split_and!; [done|repeat constructor|done].
Qed.

Definition iota_layout (a : IotaTileAssignment) : list (Z * Z) := lay (reshape_dims a) (transpose_perm a).

Lemma iota_layout_size a : iota_ok a -> sizes_pos (iota_layout a) /\ size (iota_layout a) = prod (dims a).
Proof.
  intros [_ _ Hf Hpr _]. destruct (form_perm _ _ Hf) as (Hp & Hl & HR & _). unfold iota_layout.
  split; [by apply lay_perm_pos|]. by rewrite lay_size.
Qed.

(** ** value_at *)

Lemma linearize_ok ds ix : ds <> [] -> Forall2 digit ds ix -> prod ds < two63 -> linearize ds ix = OK (rm ds ix).
Proof.
  intros Hne HF Hs. pose proof (digits_pos _ _ HF) as Hp. pose proof (Forall2_length _ _ _ HF) as Hl.
  destruct (lookup_lt_is_Some_2 ix 0%nat) as [x0 Hx0]; [destruct ds; simpl in *; [done|lia]|].
  unfold linearize. rewrite (proj2 (at_OK ix 0 x0)) by (apply idx_Some; done). cbn [mbind outcome_bind].
  destruct (foldM_seqZ_from (fun k acc => acc = rm (take (S k) ds) (take (S k) ix))
    (fun linear_index i => d ← at_ ds i; x ← at_ ix i; OK (add64 (mul64 linear_index d) x)) 1 (length ds - 1) x0) as (r & HR & Hr).
  - destruct ds as [|d ds], ix as [|x ix]; try done. simpl in *. injection Hx0 as ->. lia.
  - intros k acc Hk ->. destruct (lookup_lt_is_Some_2 ds (S k)) as [d Hd]; [lia|].
    destruct (Forall2_lookup_l _ _ _ _ _ HF Hd) as (x & Hx & Hdig). unfold digit in Hdig. replace (1 + Z.of_nat k) with (Z.of_nat (S k)) by lia.
    rewrite (proj2 (at_OK ds (Z.of_nat (S k)) d)) by by rewrite idx_of_nat. rewrite (proj2 (at_OK ix (Z.of_nat (S k)) x)) by by rewrite idx_of_nat.
    cbn [mbind outcome_bind]. eexists. split; [done|]. rewrite (take_S_r _ _ _ Hd), (take_S_r _ _ _ Hx), rm_app by (rewrite !length_take; lia).
    pose proof (rm_bound _ _ (Forall2_take _ _ _ (S k) HF)) as Hb. pose proof (prod_small ds (S (S k)) Hp) as Hps.
    rewrite (take_S_r _ _ _ Hd), prod_app in Hps. simpl prod in *. cbn [rm]. rewrite mul64_fits by (z64; nia). rewrite add64_fits by (z64; nia). cbn [prod]. lia.
  - replace (Z.of_nat (length ds - 1)) with (Zlen ds - 1) in HR by (unfold Zlen; destruct ds; simpl in *; [done|lia]). rewrite HR, Hr.
    rewrite !take_ge by lia. done.
Qed.

Lemma rm_small_digit ds ix k d : Forall2 digit ds ix -> ds !! k = Some d -> d <= prod ds.
Proof. intros HF Hd. apply elem_le_prod; [by eapply digits_pos|by eapply list_elem_of_lookup_2]. Qed.

(** The index before the reshaping. *)
Lemma value_at_index a ix ri : iota_ok a -> Forall2 digit (dims a) ix -> Forall2 digit (reshape_dims a) ri ->
  rm (dims a) ix = rm (sel (reshape_dims a) (transpose_perm a)) (sel ri (transpose_perm a)) ->
  value_at a ix = OK (rm (reshape_dims a) ri).
Proof.
  intros [Hd Hne Hf Hpr Hs] Hix Hri Erm. destruct (form_perm _ _ Hf) as (Hp & Hl & HR & HRne).
  set (R := reshape_dims a) in *. set (p := transpose_perm a) in *. unfold value_at. fold R p.
  assert (Hs63 : prod R < two63) by (unfold two31 in Hs; z64; lia).
  rewrite linearize_ok by (done || lia). cbn [mbind outcome_bind].
  assert (Hy : Forall2 digit (sel R p) (sel ri p)) by by apply sel_digits, perm_in_range.
  set (ns := sel R p) in *. set (y := sel ri p) in *. assert (Hlns : length ns = length R) by (unfold ns; rewrite length_sel; lia).
  pose proof (Forall2_length _ _ _ Hy) as Hly. pose proof (Forall2_length _ _ _ Hri) as Hlri.
  match goal with |- context [foldM ?F ?B _] => destruct (foldM_rev_indices (fun k '(l, out) =>
    l = rm (take k ns) (take k y) /\ length out = length R /\
    forall i j, (k <= i)%nat -> p !! i = Some j -> out !! Z.to_nat j = ri !! Z.to_nat j) F R B) as ([l out] & HF & Hl' & Hlo & Hout) end.
  - rewrite Erm, !take_ge by lia. split; [done|]. split; [apply length_replicate|]. intros i j Hi Hj. apply lookup_lt_Some in Hj. lia.
  - intros k [l out] Hk (-> & Hlo & Hout). destruct (lookup_lt_is_Some_2 p k) as [j Hj]; [lia|].
    pose proof (is_perm_range p j Hp (list_elem_of_lookup_2 _ _ _ Hj)) as Hjr. unfold Zlen in Hjr.
    rewrite (proj2 (at_OK p (Z.of_nat k) j)) by by rewrite idx_of_nat. cbn [mbind outcome_bind].
    destruct (lookup_lt_is_Some_2 R (Z.to_nat j)) as [r Hr]; [lia|]. destruct (lookup_lt_is_Some_2 ri (Z.to_nat j)) as [x Hx]; [lia|].
    pose proof (Forall2_lookup_lr _ _ _ _ _ _ Hri Hr Hx) as Hdig. unfold digit in Hdig.
    pose proof (rm_small_digit _ _ _ _ Hri Hr) as Hrs. assert (Hns : ns !! k = Some r) by (unfold ns; rewrite (sel_lookup R p k j Hj); [done|unfold Zlen; lia]).
    assert (Hyk : y !! k = Some x) by (unfold y; rewrite (sel_lookup ri p k j Hj); [done|unfold Zlen; lia]).
    rewrite (proj2 (at_OK R j r)) by (apply idx_Some; split; [lia|done]). cbn [mbind outcome_bind].
    rewrite i32_small by (unfold two31 in *; lia).
    pose proof (rm_bound _ _ (Forall2_take _ _ _ k Hy)) as Hbk. pose proof (prod_small ns (S k) (digits_pos _ _ Hy)) as Hps.
    assert (Epr : prod ns = prod R) by (by apply prod_perm, sel_perm).
    rewrite (take_S_r _ _ _ Hns), prod_app in Hps. simpl prod in Hps.
    rewrite (take_S_r _ _ _ Hns), (take_S_r _ _ _ Hyk), rm_app by (rewrite !length_take; lia). cbn [rm prod]. rewrite !Z.mul_1_r, Z.add_0_r.
    rewrite modulo_pos by nia. cbn [mbind outcome_bind].
    rewrite (Z.add_comm (_ * r)), Z.mod_add, Z.mod_small by lia.
    rewrite (proj2 (set_at_OK out (<[Z.to_nat j := x]> out) j x)) by (unfold Zlen; split; [lia|done]). cbn [mbind outcome_bind].
    destruct (divide_pos (x + rm (take k ns) (take k y) * r) r) as [-> _]; [nia|lia|]. cbn [mbind outcome_bind].
    rewrite Z.div_add, Z.div_small by lia. eexists. split; [done|]. split; [lia|]. split; [by rewrite length_insert|].
    intros i j' Hi Hj'. destruct (decide (i = k)) as [->|Hne'].
    + assert (j' = j) as -> by congruence. by rewrite list_lookup_insert_eq by lia.
    + rewrite list_lookup_insert_ne; [apply (Hout i); [lia|done]|]. intros E.
      pose proof (is_perm_range p j' Hp (list_elem_of_lookup_2 _ _ _ Hj')). assert (j' = j) as -> by lia.
      apply Hne'. by eapply NoDup_lookup; [apply is_perm_NoDup|..].
  - rewrite HF. cbn [mbind outcome_bind]. assert (Eout : out = ri).
    { apply list_eq. intros k. destruct (decide (k < length R)%nat) as [Hk|Hk]; [|by rewrite !lookup_ge_None_2 by lia].
      assert (Hin : Z.of_nat k ∈ p) by (apply is_perm_surj; [done|unfold Zlen; lia]). apply list_elem_of_lookup in Hin as [i Hi].
      specialize (Hout i _ ltac:(lia) Hi). by rewrite Nat2Z.id in Hout. }
    rewrite Eout. by apply linearize_ok.
Qed.

Lemma val_lay R p ri : is_perm p -> length p = length R -> Forall2 digit R ri ->
  val (lay R p) (rm (sel R p) (sel ri p)) = rm R ri.
Proof.
  intros Hp Hl Hri. pose proof (perm_in_range R p Hp Hl) as Hr. pose proof (Forall2_length _ _ _ Hri) as Hlr.
  rewrite <- lay_fst, val_dot by (rewrite lay_fst; by apply sel_digits).
  rewrite lay_snd by done. rewrite dot_sel by (rewrite ?length_strides; done || lia). by rewrite rm_strides.
Qed.

Lemma index_before ds R p ix : is_perm p -> length p = length R -> Forall (fun d => 0 < d) R -> prod ds = prod R ->
  Forall2 digit ds ix -> exists ri, Forall2 digit R ri /\ rm ds ix = rm (sel R p) (sel ri p).
Proof.
  intros Hp Hl HR Hpr Hix. pose proof (rm_bound _ _ Hix) as Hb.
  destruct (rm_digits (sel R p) (rm ds ix)) as (y & Hy & Ey).
  { by rewrite sel_perm. } { rewrite (prod_perm (sel R p) R) by (by apply sel_perm). lia. }
  destruct (sel_onto R y p Hp Hl Hy) as (ri & Hri & ->). by exists ri.
Qed.

Lemma value_at_ok a ix : iota_ok a -> Forall2 digit (dims a) ix -> value_at a ix = OK (val (iota_layout a) (rm (dims a) ix)).
Proof.
  intros Ha Hix. pose proof Ha as [_ _ Hf Hpr _]. destruct (form_perm _ _ Hf) as (Hp & Hl & HR & _).
  destruct (index_before _ _ _ ix Hp Hl HR Hpr Hix) as (ri & Hri & E).
  rewrite (value_at_index a ix ri) by done. unfold iota_layout. by rewrite E, val_lay.
Qed.

(** ** Create *)

Lemma Create_ok ds R p : Forall (fun d => 0 < d) ds -> ds <> [] -> Forall (fun d => 0 < d) R -> R <> [] ->
  is_perm p -> length p = length R -> prod ds = prod R -> prod R < two31 ->
  exists a, Create ds R p = OK a /\ iota_ok a /\ dims a = ds /\ same (iota_layout a) (lay R p).
Proof.
  intros Hds Hdne HR HRne Hp Hl Hpr Hs. unfold Create.
  destruct (CanonicalizeIotaDims_ok R p) as (R' & p' & -> & Hsame & Hform); [done|unfold two31 in Hs; z64; lia|done..|].
  cbn [mbind outcome_bind].
  assert (Hprod : prod R' = prod R).
  { rewrite <- (lay_size R p), <- (same_size _ _ Hsame) by done.
    destruct Hform as [[Hp' Hl' _ _]|[-> ->]]; [symmetry; by apply lay_size|done]. }
  destruct R' as [|r R'].
  - rewrite bool_decide_eq_false_2 by done. rewrite bool_decide_eq_false_2 by (by destruct p, R). cbn [negb andb check mbind outcome_bind].
    eexists. split; [done|]. split; [split; simpl; [done|done|by right|simpl in Hprod; lia|by vm_compute]|]. split; [done|].
    etransitivity; [|exact Hsame]. destruct Hform as [[_ Hl' _ _]|[? _]]; [|done]. destruct p' as [|? ?]; [|done]. apply same_one.
  - eexists. split; [done|]. split; [split; simpl; [done|done| |simpl in Hprod; lia|simpl in Hprod; lia]|by split].
    destruct Hform as [Hc|Hc]; [left; by split|by right].
Qed.

Lemma same_form a b : iota_ok a -> iota_ok b -> same (iota_layout a) (iota_layout b) ->
  reshape_dims a = reshape_dims b /\ transpose_perm a = transpose_perm b.
Proof.
  intros [_ _ Ha _ _] [_ _ Hb _ _] Hs. unfold iota_layout in Hs. destruct Ha as [[Ha HRa]|[Ea Epa]], Hb as [[Hb HRb]|[Eb Epb]].
  - by apply canonical_unique.
  - exfalso. rewrite Eb, Epb in Hs. destruct Ha as [Hp Hl HR _]. assert (Hs1 : prod (reshape_dims a) = 1) by (rewrite <- (lay_size _ (transpose_perm a)) by done; apply Hs).
    destruct (reshape_dims a) as [|r R]; [done|]. apply Forall_cons in HR as [Hr HR]. simpl in Hs1. pose proof (prod_pos R ltac:(by apply big_pos)). nia.
  - exfalso. rewrite Ea, Epa in Hs. destruct Hb as [Hp Hl HR _]. assert (Hs1 : 1 = prod (reshape_dims b)) by (rewrite <- (lay_size _ (transpose_perm b)) by done; apply Hs).
    destruct (reshape_dims b) as [|r R]; [done|]. apply Forall_cons in HR as [Hr HR]. simpl in Hs1. pose proof (prod_pos R ltac:(by apply big_pos)). nia.
  - by rewrite Ea, Eb, Epa, Epb.
Qed.

Lemma iota_eq_spec a b : iota_eq a b = true <-> a = b.
Proof.
  unfold iota_eq. rewrite !andb_true_iff, !bool_decide_eq_true. destruct a, b. simpl. split; [by intros [[-> ->] ->]|by intros [= -> -> ->]].
Qed.

Lemma iota_eq_values a b : iota_ok a -> iota_ok b ->
  iota_eq a b = true <-> dims a = dims b /\ forall ix, Forall2 digit (dims a) ix -> value_at a ix = value_at b ix.
Proof.
  intros Ha Hb. rewrite iota_eq_spec. split; [by intros ->|]. intros [Ed Hv].
  destruct (iota_layout_size a Ha) as [HpA HsA], (iota_layout_size b Hb) as [HpB HsB].
  assert (Hs : same (iota_layout a) (iota_layout b)).
  { split; [done..|congruence|]. intros l Hl. destruct (rm_digits (dims a) l) as (ix & Hix & <-); [apply Ha|lia|].
    specialize (Hv ix Hix). rewrite !value_at_ok in Hv by (congruence || done). rewrite Ed. congruence. }
  apply same_form in Hs as [ER Ep]; [|done..]. destruct a, b. simpl in *. congruence.
Qed.

(** C13: equality of iota assignments, which compares the sizes, the reshaping and the
    permutation, is equality of the arrays that they denote, because every assignment keeps
    its canonical form: two assignments are equal exactly when they have the same sizes and
    the same device at every index. *)
Theorem iota_eq_denotation (a b : IotaTileAssignment) (Ha : iota_ok a) (Hb : iota_ok b) :
  iota_eq a b = true <-> dims a = dims b /\ forall ix, Forall2 digit (dims a) ix -> value_at a ix = value_at b ix.
Proof. by apply iota_eq_values. Qed.

(** C14: for sizes and a reshaping of the same number of elements and a permutation, Create
    returns an assignment in canonical form whose device at an index is that of the array
    arange(n).reshape(reshape_dims).transpose(transpose_perm).reshape(dims): the row-major
    number, in the reshaping, of the index that the permutation moves to the index. *)
Theorem Create_value_at (ds R p : list Z) (Hds : Forall (fun d => 0 < d) ds) (Hdne : ds <> [])
    (HR : Forall (fun d => 0 < d) R) (HRne : R <> []) (Hp : is_perm p) (Hl : length p = length R)
    (Hpr : prod ds = prod R) (Hs : prod R < two31) :
  exists a, Create ds R p = OK a /\ dims a = ds /\ iota_form (reshape_dims a) (transpose_perm a) /\
    forall ix ri, Forall2 digit ds ix -> Forall2 digit R ri -> rm ds ix = rm (sel R p) (sel ri p) ->
      value_at a ix = OK (rm R ri).
Proof.
  destruct (Create_ok ds R p) as (a & HC & Ha & Ed & Hsame); [done..|]. exists a. split; [done|]. split; [done|]. split; [apply Ha|].
  intros ix ri Hix Hri E. rewrite value_at_ok by (done || by rewrite Ed). rewrite Ed, E.
  pose proof (sel_digits _ _ p Hri (perm_in_range R p Hp Hl)) as Hy. pose proof (rm_bound _ _ Hy) as Hb.
  rewrite (same_val _ _ Hsame), val_lay by (done || (rewrite (same_size _ _ Hsame); unfold size; by rewrite lay_fst)). done.
Qed.

(** ** The materialized array *)

Lemma FillIota_ok R : Forall (fun d => 0 < d) R -> prod R < two63 ->
  array_ok R (FillIota 0 (new_Array R)) /\ forall ri, Forall2 digit R ri -> get (FillIota 0 (new_Array R)) ri = OK (rm R ri).
Proof.
  intros HR Hs. assert (Hl : Zlen (values_ (new_Array R)) = prod R).
  { unfold new_Array, new_Array_filled, Fill. simpl. unfold Zlen. rewrite !length_replicate, (calculate_elements_ok R HR Hs).
    pose proof (prod_pos R HR). lia. }
  assert (Hok : array_ok R (FillIota 0 (new_Array R))).
  { split; [done|done| |done]. change (Zlen (seqZ 0 (Zlen (values_ (new_Array R)))) = prod R). rewrite Hl. unfold Zlen.
    rewrite length_seqZ. pose proof (prod_pos R HR). lia. }
  split; [done|]. intros ri Hri. destruct (get_ok _ _ Hok ri Hri) as (v & -> & Hv). f_equal. change (seqZ 0 (Zlen (values_ (new_Array R))) !! Z.to_nat (rm R ri) = Some v) in Hv.
  pose proof (rm_bound _ _ Hri). apply lookup_seqZ in Hv as [-> _]. lia.
Qed.

Lemma ToArray_ok a : iota_ok a ->
  exists arr, ToArray a = OK arr /\ array_ok (dims a) arr /\ forall ix, Forall2 digit (dims a) ix -> get arr ix = value_at a ix.
Proof.
  intros Ha. pose proof Ha as [Hd Hne Hf Hpr Hs]. destruct (form_perm _ _ Hf) as (Hp & Hl & HR & HRne).
  assert (Hs63 : prod (reshape_dims a) < two63) by (unfold two31 in Hs; z64; lia).
  destruct (FillIota_ok (reshape_dims a) HR Hs63) as [Hok Hget]. unfold ToArray, ToArray_of.
  destruct (TransposeDimensions_ok _ _ _ Hok Hp Hl) as (b & -> & Hb & Hgb). cbn [mbind outcome_bind].
  unfold Reshape, num_elements. rewrite Product_ok by (done || lia). rewrite (ao_values _ _ Hb).
  rewrite (prod_perm (sel _ _) (reshape_dims a)) by by apply sel_perm. rewrite Hpr, Z.eqb_refl. cbn [check mbind outcome_bind].
  eexists. split; [done|]. assert (Hr : array_ok (dims a) (mkArray (dims a) (values_ b))).
  { split; [done|done| |lia]. simpl. rewrite (ao_values _ _ Hb), Hpr. by apply prod_perm, sel_perm. }
  split; [done|]. intros ix Hix. destruct (index_before _ _ _ ix Hp Hl HR Hpr Hix) as (ri & Hri & E).
  rewrite (value_at_index a ix ri) by done. rewrite <- Hget, <- Hgb by done.
  destruct (get_ok _ _ Hr ix Hix) as (v & -> & Hv). destruct (get_ok _ _ Hb (sel ri (transpose_perm a))) as (w & -> & Hw).
  { by apply sel_digits, perm_in_range. } simpl in Hv. rewrite E in Hv. congruence.
Qed.

Lemma iota_num_elements_ok a : iota_ok a -> iota_num_elements a = prod (dims a).
Proof.
  intros [Hd _ _ Hpr Hs]. unfold iota_num_elements. fold (Product (dims a)). apply Product_ok; [done|]. unfold two31 in Hs. z64. lia.
Qed.

Lemma value_at_each_device a : iota_ok a ->
  (forall ix, Forall2 digit (dims a) ix -> exists v, value_at a ix = OK v /\ 0 <= v < iota_num_elements a) /\
  forall v, 0 <= v < iota_num_elements a ->
    exists ix, Forall2 digit (dims a) ix /\ value_at a ix = OK v /\
      forall iy, Forall2 digit (dims a) iy -> value_at a iy = OK v -> iy = ix.
Proof.
  intros Ha. rewrite iota_num_elements_ok by done. pose proof Ha as [Hd _ Hf Hpr _]. destruct (form_perm _ _ Hf) as (Hp & Hl & HR & _).
  split.
  - intros ix Hix. destruct (index_before _ _ _ ix Hp Hl HR Hpr Hix) as (ri & Hri & E). exists (rm (reshape_dims a) ri).
    split; [by apply value_at_index|]. rewrite Hpr. by apply rm_bound.
  - intros v Hv. destruct (rm_digits (reshape_dims a) v HR ltac:(lia)) as (ri & Hri & <-).
    pose proof (sel_digits _ _ _ Hri (perm_in_range _ _ Hp Hl)) as Hy. pose proof (rm_bound _ _ Hy) as Hb.
    rewrite (prod_perm _ _ (sel_perm _ _ Hp Hl)), <- Hpr in Hb.
    destruct (rm_digits (dims a) _ Hd Hb) as (ix & Hix & E). exists ix. split; [done|]. split; [by apply value_at_index|].
    intros iy Hiy Hvy. destruct (index_before _ _ _ iy Hp Hl HR Hpr Hiy) as (rj & Hrj & E').
    rewrite (value_at_index a iy rj) in Hvy by done. injection Hvy as Hvy. apply rm_inj in Hvy; [|done..]. subst rj.
    apply (rm_inj (dims a)); [done..|congruence].
Qed.

(** value_at takes every device number below num_elements exactly once: it is defined
    and in range at every index, and every number in range is the value at one index. *)
Lemma value_at_bijective (a : IotaTileAssignment) (Ha : iota_ok a) :
  (forall ix, Forall2 digit (dims a) ix -> exists v, value_at a ix = OK v /\ 0 <= v < iota_num_elements a) /\
  forall v, 0 <= v < iota_num_elements a ->
    exists ix, Forall2 digit (dims a) ix /\ value_at a ix = OK v /\
      forall iy, Forall2 digit (dims a) iy -> value_at a iy = OK v -> iy = ix.
Proof. by apply value_at_each_device. Qed.

(** ** Examples *)

Lemma plain_iota_ok : iota_ok (mkIota [2; 3] [6] [0]).
Proof.
  split; cbn [dims reshape_dims transpose_perm]; [repeat constructor|done| |reflexivity|by vm_compute].
  left. split; [|done]. split; [|reflexivity|repeat constructor|].
  - apply IsPermutation_iff. by vm_compute.
  - intros [|t] x y Hx Hy; simplify_eq/=.
Defined.

Lemma swapped_iota_ok : iota_ok (mkIota [2; 3] [3; 2] [1; 0]).
Proof.
  split; cbn [dims reshape_dims transpose_perm]; [repeat constructor|done| |reflexivity|by vm_compute].
  left. split; [|done]. split; [|reflexivity|repeat constructor|].
  - apply IsPermutation_iff. by vm_compute.
  - intros [|[|t]] x y Hx Hy; simplify_eq/=; lia.
Defined.

Lemma iota_eq_denotation_witness :
  ~ (forall ix, Forall2 digit [2; 3] ix -> value_at (mkIota [2; 3] [6] [0]) ix = value_at (mkIota [2; 3] [3; 2] [1; 0]) ix).
Proof.
  intros Hv. assert (E : iota_eq (mkIota [2; 3] [6] [0]) (mkIota [2; 3] [3; 2] [1; 0]) = true).
  { apply (iota_eq_denotation _ _ plain_iota_ok swapped_iota_ok). split; [reflexivity|exact Hv]. }
  vm_compute in E. discriminate.
Defined.

Lemma Create_value_at_witness :
  exists a, Create [60] [1; 3; 1; 4; 1; 5] [4; 3; 2; 5; 1; 0] = OK a /\ reshape_dims a = [3; 20] /\ value_at a [7] = OK 22.
Proof.
  destruct (Create_value_at [60] [1; 3; 1; 4; 1; 5] [4; 3; 2; 5; 1; 0]) as (a & E & Hd & _ & Hv).
  - repeat constructor.
  - discriminate.
  - repeat constructor.
  - discriminate.
  - apply IsPermutation_iff. vm_compute. reflexivity.
  - reflexivity.
  - reflexivity.
  - vm_compute. reflexivity.
  - exists a. split; [exact E|]. split; [vm_compute in E; injection E as <-; reflexivity|].
    rewrite (Hv [7] [0; 1; 0; 0; 0; 2]); [vm_compute; reflexivity|repeat constructor; unfold digit; lia|repeat constructor; unfold digit; lia|].
    vm_compute. reflexivity.
Defined.

Lemma value_at_bijective_witness :
  exists ix, Forall2 digit [2; 3] ix /\ value_at (mkIota [2; 3] [3; 2] [1; 0]) ix = OK 3.
Proof.
  destruct (value_at_bijective _ swapped_iota_ok) as [_ Hall]. destruct (Hall 3) as (ix & Hix & Hv & _); [vm_compute; split; congruence|].
  exists ix. split; assumption.
Defined.
