(* ===== verification/IotaFactors.v ===== *)
(** * The regrouping of the prime factors of an iota assignment. *)

From Stdlib Require Import Zdivisibility.
From S2P Require Import Prelude MachineInt PermutationUtil IndexUtil Util Arrays ArrayTheorems TileAssignment.
From S2P Require Import IotaLayout IotaCanonical IotaAssignment.

(** ** Prime factors of iota dimensions: theorems

    FullyDecanonicalize of xla/hlo/ir/tile_assignment.cc splits every dimension into its
    prime factors; the factored iota has the same layout. *)

(** No divisor below [i]. *)
Definition rough (i n : Z) : Prop := forall d, 1 < d < i -> ~ (d | n).

Lemma rough_prime i n : 0 < i -> 1 < n -> rough i n -> n < i * i -> Z.prime n.
Proof.
  intros Hi Hn Hr Hlt. split; [done|]. intros d Hd Hdiv. destruct Hdiv as [q Hq].
  assert (Hq1 : 1 < q) by nia. assert (Hq' : (q | n)) by (exists d; rewrite Hq; ring). assert (Hd' : (d | n)) by (exists q; rewrite Hq; ring).
  destruct (Z.lt_ge_cases d i) as [Hdi|Hdi]; [apply (Hr d); [lia|done]|]. destruct (Z.lt_ge_cases q i) as [Hqi|Hqi]; [apply (Hr q); [lia|done]|]. nia.
Qed.

Lemma rough_divisor i n m : rough i n -> (m | n) -> rough i m.
Proof. intros Hr Hm d Hd Hdm. apply (Hr d Hd). by etransitivity. Qed.

Lemma rough_next i n : rough i n -> ~ (i | n) -> rough (i + 1) n.
Proof. intros Hr Hi d Hd Hdn. destruct (decide (d = i)) as [->|]; [done|]. apply (Hr d); [lia|done]. Qed.

(** The least divisor is a prime. *)
Lemma rough_least i n : 1 < i -> rough i n -> (i | n) -> Z.prime i.
Proof.
  intros Hi Hr Hin. split; [done|]. intros d Hd Hdi. apply (Hr d Hd). by etransitivity.
Qed.

Lemma divide_out_ok fuel : forall i n acc, 1 < i -> 0 < n < two63 -> rough i n -> n < 2 ^ Z.of_nat fuel ->
  exists m ps, divide_out (S fuel) i n acc = OK (m, acc ++ ps) /\ 0 < m <= n /\ Forall Z.prime ps /\ n = prod ps * m /\
    rough (i + 1) m.
Proof.
  induction fuel as [|fuel IH]; intros i n acc Hi Hn Hr Hf.
  { simpl in Hf. assert (n = 1) as -> by lia. cbn [divide_out]. rewrite modulo_pos by lia. cbn [mbind outcome_bind].
    rewrite Z.mod_1_l by lia. exists 1, []. rewrite app_nil_r. split; [done|]. split; [lia|]. split; [constructor|]. split; [done|].
    intros d Hd [q Hq]. nia. }
  remember (S fuel) as fuel' eqn:Ef. cbn [divide_out]. rewrite modulo_pos by lia. cbn [mbind outcome_bind].
  destruct (Z.eqb_spec (n mod i) 0) as [E|E].
  - apply Z.mod_divide in E; [|lia]. destruct (divide_pos n i) as [-> _]; [lia..|]. cbn [mbind outcome_bind].
    pose proof E as [q Hq]. rewrite Hq, Z.div_mul by lia. subst fuel'.
    destruct (IH i q (acc ++ [i]) Hi) as (m & ps & -> & Hm & Hps & Hpr & Hrm).
    + nia.
    + apply (rough_divisor i n); [done|]. exists i. rewrite Hq. ring.
    + rewrite Nat2Z.inj_succ, Z.pow_succ_r in Hf by lia. nia.
    + exists m, (i :: ps). rewrite <- app_assoc. split; [done|]. split; [nia|]. split; [|split; [simpl; nia|done]].
      constructor; [|done]. by apply (rough_least i n).
  - exists n, []. rewrite app_nil_r. split; [done|]. split; [lia|]. split; [constructor|]. split; [simpl; lia|].
    apply rough_next; [done|]. intros Hd. apply E. by apply Z.mod_divide; [lia|].
Qed.

Lemma log2_fuel_ok n : 0 < n -> n < 2 ^ Z.of_nat (S (Z.to_nat (Z.log2 n))).
Proof.
  intros Hn. pose proof (Z.log2_nonneg n). pose proof (Z.log2_spec n Hn). rewrite Nat2Z.inj_succ, Z2Nat.id by lia. lia.
Qed.

(** The largest int whose square does not overflow is 46340; the loop may go one step past
    the root. *)
Definition factor_bound : Z := 46339 * 46339.

Lemma odd_divisors_ok fuel : forall i n acc, 3 <= i -> i <= 46339 -> Z.odd i = true -> 0 < n < factor_bound -> rough i n -> rough 3 n ->
  Z.sqrt n < i + 2 * Z.of_nat fuel ->
  exists m ps, odd_divisors fuel i n acc = OK (m, acc ++ ps) /\ 0 < m <= n /\ Forall Z.prime ps /\ n = prod ps * m /\
    (m = 1 \/ Z.prime m).
Proof.
  assert (Hstop : forall i n acc, 3 <= i -> 0 < n -> rough i n -> n < i * i ->
    exists m ps, OK (n, acc) = OK (m, acc ++ ps) /\ 0 < m <= n /\ Forall Z.prime ps /\ n = prod ps * m /\ (m = 1 \/ Z.prime m)).
  { intros i n acc Hi Hn Hr Hlt. exists n, []. rewrite app_nil_r. split; [done|]. split; [lia|]. split; [constructor|]. split; [simpl; lia|].
    destruct (decide (n = 1)) as [->|Hne]; [by left|right]. apply (rough_prime i); [lia|lia|done|lia]. }
  induction fuel as [|fuel IH]; intros i n acc Hi Hi' Ho Hn Hr Hr3 Hf; cbn [odd_divisors]; unfold factor_bound in Hn;
    rewrite i32_small by (unfold two31; nia); destruct (Z.leb_spec (i * i) n) as [Hle|Hgt].
  - pose proof (Z.sqrt_le_square n i ltac:(lia) ltac:(lia)). lia.
  - apply (Hstop i); [lia|lia|done|lia].
  - unfold log2_fuel. destruct (divide_out_ok (S (Z.to_nat (Z.log2 n))) i n acc) as (m & ps & -> & Hm & Hps & Hpr & Hrm);
      [lia|z64; lia|done|apply log2_fuel_ok; lia|]. cbn [mbind outcome_bind].
    assert (Hd : (m | n)) by (exists (prod ps); done). assert (Hi2 : i + 2 <= 46339).
    { assert (i < 46339) by nia. destruct (decide (i = 46338)) as [->|]; [by vm_compute in Ho|]. lia. }
    rewrite i32_small by (unfold two31; lia). pose proof (Z.sqrt_le_mono m n ltac:(lia)).
    destruct (IH (i + 2) m (acc ++ ps)) as (m' & ps' & -> & Hm' & Hps' & Hpr' & Hend).
    + lia.
    + done.
    + by rewrite Z.odd_add, Ho.
    + unfold factor_bound. lia.
    + intros d Hd2 Hdm. destruct (decide (d = i + 1)) as [->|]; [|apply (Hrm d); [lia|done]].
      assert (Hev : Z.even (i + 1) = true) by (rewrite Z.even_add, <- Z.negb_odd, Ho; done).
      apply Z.even_spec in Hev as [k Hk]. apply (Hr3 2); [lia|]. etransitivity; [|exact Hd]. etransitivity; [|exact Hdm]. exists k. lia.
    + by apply (rough_divisor 3 n).
    + lia.
    + exists m', (ps ++ ps'). rewrite app_assoc. split; [done|]. split; [lia|]. split; [by apply Forall_app|]. split; [|done].
      rewrite prod_app. rewrite Hpr at 1. rewrite Hpr' at 1. ring.
  - apply (Hstop i); [lia|lia|done|lia].
Qed.

(** Every dimension is split into its prime factors. *)
Lemma factor_dim_ok n acc : 0 < n < factor_bound ->
  exists ps, factor_dim n acc = OK (acc ++ ps) /\ Forall Z.prime ps /\ prod ps = n.
Proof.
  intros Hn. unfold factor_dim, log2_fuel. unfold factor_bound in Hn.
  destruct (divide_out_ok (S (Z.to_nat (Z.log2 n))) 2 n acc) as (m & ps & -> & Hm & Hps & Hpr & Hrm);
    [lia|z64; lia|intros d Hd; lia|apply log2_fuel_ok; lia|]. cbn [mbind outcome_bind].
  destruct (odd_divisors_ok (Z.to_nat (Z.sqrt m)) 3 m (acc ++ ps)) as (m' & ps' & -> & Hm' & Hps' & Hpr' & Hend);
    [lia|lia|done|unfold factor_bound; lia|done|done|pose proof (Z.sqrt_nonneg m); lia|]. cbn [mbind outcome_bind].
  destruct (Z.ltb_spec 1 m') as [Hlt|Hge].
  - destruct Hend as [->|Hprime]; [lia|]. assert (Hne2 : m' <> 2).
    { intros ->. apply (Hrm 2); [lia|]. exists (prod ps'). lia. }
    rewrite (proj2 (Z.ltb_lt 2 m')) by lia. cbn [check mbind outcome_bind]. exists (ps ++ ps' ++ [m']). rewrite !app_assoc. split; [done|].
    split; [rewrite !Forall_app; split_and!; [done..|by constructor]|]. rewrite !prod_app. simpl. rewrite Hpr, Hpr'. ring.
  - exists (ps ++ ps'). rewrite app_assoc. split; [done|]. split; [by apply Forall_app|]. rewrite prod_app, Hpr, Hpr'. assert (m' = 1) as -> by lia. ring.
Qed.

(** ** The blocks of factors *)

(** [starts] are the positions in [R2] where the factors of the dimensions of [R] begin. *)
Record blocks (R : list Z) (starts : list Z) (R2 : list Z) : Prop := {
  bl_length : length starts = S (length R);
  bl_first : starts !! 0%nat = Some 0;
  bl_last : starts !! length R = Some (Zlen R2);
  bl_mono : forall i j x y, (i <= j)%nat -> starts !! i = Some x -> starts !! j = Some y -> x <= y;
  bl_big : Forall (fun d => 1 < d) R2;
  bl_prod : forall j s, starts !! j = Some s -> prod (drop (Z.to_nat s) R2) = prod (drop j R);
}.

Definition run (starts : list Z) (j : Z) : list Z :=
  let s := nth (Z.to_nat j) starts 0 in seqZ s (nth (S (Z.to_nat j)) starts 0 - s).

(** The positions of a dimension's factors. *)
Lemma blocks_range R starts R2 j : blocks R starts R2 -> (j < length R)%nat ->
  exists s e, starts !! j = Some s /\ starts !! S j = Some e /\ 0 <= s <= e /\ e <= Zlen R2.
Proof.
  intros [Hl H0 Hlast Hm _ _] Hj. destruct (lookup_lt_is_Some_2 starts j) as [s Hs]; [lia|].
  destruct (lookup_lt_is_Some_2 starts (S j)) as [e He]; [lia|]. exists s, e. split; [done|]. split; [done|].
  pose proof (Hm 0%nat j 0 s ltac:(lia) H0 Hs). pose proof (Hm j (S j) s e ltac:(lia) Hs He).
  pose proof (Hm (S j) (length R) e _ ltac:(lia) He Hlast). lia.
Qed.

Lemma run_eq starts j s e : starts !! Z.to_nat j = Some s -> starts !! S (Z.to_nat j) = Some e ->
  run starts j = seqZ s (e - s).
Proof. intros Hs He. unfold run. by rewrite !nth_lookup, Hs, He. Qed.

Lemma block_same R starts R2 j : blocks R starts R2 -> 0 <= j < Zlen R -> same (lay R2 (run starts j)) [entry R j].
Proof.
  intros Hb Hj. unfold Zlen in Hj. destruct (blocks_range R starts R2 (Z.to_nat j) Hb) as (s & e & Hs & He & Hse & HeR); [lia|].
  rewrite (run_eq _ _ _ _ Hs He). pose proof (bl_big _ _ _ Hb) as Hbig. pose proof (big_pos _ Hbig) as Hpos.
  destruct (lookup_lt_is_Some_2 R (Z.to_nat j)) as [r Hr]; [lia|]. unfold entry. rewrite nth_lookup, Hr. cbn [default from_option id].
  pose proof (bl_prod _ _ _ Hb _ _ Hs) as Hps. pose proof (bl_prod _ _ _ Hb _ _ He) as Hpe.
  rewrite (drop_S _ _ _ Hr) in Hps. cbn [prod] in Hps. unfold Zlen in HeR.
  replace (seqZ s (e - s)) with (seqZ (Z.of_nat (Z.to_nat s)) (Z.of_nat (Z.to_nat e - Z.to_nat s))) by (f_equal; lia).
  etransitivity; [apply lay_run; [done|lia]|].
  replace (Z.to_nat s + (Z.to_nat e - Z.to_nat s))%nat with (Z.to_nat e) by lia. rewrite Hpe.
  assert (Et : prod (take (Z.to_nat e - Z.to_nat s) (drop (Z.to_nat s) R2)) = r).
  { pose proof (prod_pos (drop (Z.to_nat e) R2) ltac:(by apply Forall_drop)) as Hpp.
    rewrite <- (take_drop (Z.to_nat e - Z.to_nat s) (drop (Z.to_nat s) R2)), prod_app, drop_drop in Hps.
    replace (Z.to_nat s + (Z.to_nat e - Z.to_nat s))%nat with (Z.to_nat e) in Hps by lia. rewrite Hpe in Hps, Hpp. nia. }
  rewrite Et. apply same_layout_refl. repeat constructor. simpl. rewrite <- Et. apply prod_pos, Forall_take, Forall_drop. done.
Qed.

Lemma lay_concat R2 runs : lay R2 (concat runs) = concat (lay R2 <$> runs).
Proof. induction runs as [|r runs IH]; [done|]. simpl. unfold lay in *. by rewrite fmap_app, IH. Qed.

(** The factored iota has the layout of the iota. *)
Lemma blocks_same R starts R2 p : blocks R starts R2 -> Forall (fun j => 0 <= j < Zlen R) p ->
  same (lay R2 (concat (run starts <$> p))) (lay R p).
Proof.
  intros Hb. induction 1 as [|j p Hj Hp IH]; [apply same_layout_refl; constructor|]. rewrite fmap_cons. cbn [concat].
  unfold lay in *. rewrite fmap_app, (fmap_cons (entry R)). apply (same_app _ [entry R j]); [|done]. by apply (block_same R starts R2 j).
Qed.

(** ** Swapping factors of a dimension *)

Lemma prod_swap R2 a b x y k : (a < b)%nat -> R2 !! a = Some x -> R2 !! b = Some y -> (k <= a \/ b < k)%nat ->
  prod (drop k (<[b := x]> (<[a := y]> R2))) = prod (drop k R2).
Proof.
  intros Hab Ha Hb Hk. destruct (two_split R2 a b x y Hab Ha Hb) as (X & M & Y & -> & HX & HM). subst a. rewrite <- HM.
  rewrite insert_app_r_alt by lia. rewrite Nat.sub_diag. simpl. rewrite insert_app_r_alt by lia.
  replace (length X + S (length M) - length X)%nat with (S (length M)) by lia. simpl.
  rewrite insert_app_r_alt by lia. rewrite Nat.sub_diag. simpl. destruct Hk as [Hk|Hk].
  - rewrite !drop_app_le by lia. rewrite !prod_app. simpl. rewrite !prod_app. simpl. ring.
  - rewrite !drop_app_ge by lia. replace (k - length X)%nat with (S (k - length X - 1)) by lia. simpl.
    rewrite !drop_app_ge by lia. by replace (k - length X - 1 - length M)%nat with (S (k - length X - 1 - length M - 1)) by lia.
Qed.

Lemma blocks_swap R starts R2 j a b x y : blocks R starts R2 -> 0 <= j < Zlen R -> (a < b)%nat ->
  Z.of_nat a ∈ run starts j -> Z.of_nat b ∈ run starts j -> R2 !! a = Some x -> R2 !! b = Some y ->
  blocks R starts (<[b := x]> (<[a := y]> R2)).
Proof.
  intros Hb Hj Hab Hra Hrb Hx Hy. unfold Zlen in Hj. destruct (blocks_range R starts R2 (Z.to_nat j) Hb) as (s & e & Hs & He & Hse & HeR); [lia|].
  rewrite (run_eq _ _ _ _ Hs He) in Hra, Hrb. rewrite elem_of_seqZ in Hra, Hrb. destruct Hb as [Hl H0 Hlast Hm Hbig Hpr].
  split; [done|done| |done| |].
  - unfold Zlen. by rewrite !length_insert.
  - apply Forall_insert; [apply Forall_insert; [done|]|]; by eapply Forall_lookup_1 in Hbig.
  - intros i t Ht. rewrite prod_swap; [by apply Hpr|done|done|done|]. destruct (decide (i <= Z.to_nat j)%nat) as [Hi|Hi].
    + pose proof (Hm i (Z.to_nat j) t s Hi Ht Hs). lia.
    + pose proof (Hm (S (Z.to_nat j)) i e t ltac:(lia) He Ht). lia.
Qed.

(** ** FullyDecanonicalize *)

Lemma prime_big ps : Forall Z.prime ps -> Forall (fun d => 1 < d) ps.
Proof. intros HF. eapply Forall_impl; [exact HF|]. intros q Hq. apply Z.prime_ge_2 in Hq. simpl. lia. Qed.

Lemma blocks_nil : blocks [] [0] [].
Proof.
  split; [done|done|done| |constructor|].
  - intros [|i] [|j] x y Hij Hx Hy; simplify_eq/=; lia.
  - intros [|j] s Hs; [by injection Hs as <-|by destruct j].
Qed.

Lemma blocks_snoc R starts R2 r ps : blocks R starts R2 -> Forall Z.prime ps -> prod ps = r ->
  blocks (R ++ [r]) (starts ++ [Zlen (R2 ++ ps)]) (R2 ++ ps).
Proof.
  intros [Hl H0 Hlast Hm Hbig Hpr] Hps Hr.
  assert (Hlen : length (R ++ [r]) = length starts) by (rewrite length_app; simpl; lia).
  assert (Hold : forall i x, starts !! i = Some x -> 0 <= x <= Zlen R2).
  { intros i x Hx. pose proof (lookup_lt_Some _ _ _ Hx). pose proof (Hm 0%nat i 0 x ltac:(lia) H0 Hx). pose proof (Hm i (length R) x _ ltac:(lia) Hx Hlast). lia. }
  assert (Hat : forall i x, (starts ++ [Zlen (R2 ++ ps)]) !! i = Some x -> starts !! i = Some x \/ i = length starts /\ x = Zlen (R2 ++ ps)).
  { intros i x [Hx|[Hge Hx]]%lookup_app_Some; [by left|right]. apply list_lookup_singleton_Some in Hx as [Hi <-]. split; [lia|done]. }
  split.
  - rewrite Hlen, !length_app. simpl. lia.
  - by rewrite lookup_app_l by lia.
  - rewrite Hlen, lookup_app_r, Nat.sub_diag by lia. done.
  - intros i j x y Hij Hx Hy. destruct (Hat i x Hx) as [Hx'|[-> ->]], (Hat j y Hy) as [Hy'|[-> ->]].
    + by apply (Hm i j).
    + specialize (Hold i x Hx'). rewrite Zlen_app. pose proof (Zlen_nonneg ps). lia.
    + apply lookup_lt_Some in Hy'. lia.
    + lia.
  - apply Forall_app. split; [done|by apply prime_big].
  - intros j s Hs. destruct (Hat j s Hs) as [Hs'|[-> ->]].
    + specialize (Hold j s Hs'). pose proof (lookup_lt_Some _ _ _ Hs'). unfold Zlen in Hold. rewrite !drop_app_le by lia. rewrite !prod_app, (Hpr j s Hs'). simpl. rewrite Hr. lia.
    + unfold Zlen. rewrite Nat2Z.id, drop_ge, drop_ge by (rewrite ?Hlen; lia). done.
Qed.

(** The positions in the transposed factors know their dimension. *)
Record info_ok (R p starts : list Z) (done : list Z) (info : DecanonicalizationInfo) : Prop := {
  in_perm : new_transpose_perm info = concat (run starts <$> done);
  in_origin : length (new_transpose_perm_idx_to_original_reshape_dim info) = length (new_transpose_perm info);
  in_run : forall i j x, new_transpose_perm_idx_to_original_reshape_dim info !! i = Some j ->
    new_transpose_perm info !! i = Some x -> j ∈ done /\ x ∈ run starts j;
  in_groups : length (original_reshape_dim_to_new_transpose_perm_indices info) = length p;
  in_group : forall j g c, original_reshape_dim_to_new_transpose_perm_indices info !! Z.to_nat j = Some g -> 0 <= j -> c ∈ g ->
    0 <= c /\ new_transpose_perm_idx_to_original_reshape_dim info !! Z.to_nat c = Some j;
}.

Lemma info_start R p starts R2 : info_ok R p starts [] (mkDecanonicalizationInfo R2 [] [] (replicate (length p) [])).
Proof.
  split; simpl; [done|done|done|apply length_replicate|]. intros j g c [-> _]%lookup_replicate _ []%not_elem_of_nil.
Qed.

Record pushing (R p starts : list Z) (before : list Z) (old_dim : Z) (k : nat) (info : DecanonicalizationInfo) : Prop := {
  pu_perm : new_transpose_perm info = concat (run starts <$> before) ++ take k (run starts old_dim);
  pu_origin : length (new_transpose_perm_idx_to_original_reshape_dim info) = length (new_transpose_perm info);
  pu_run : forall i j x, new_transpose_perm_idx_to_original_reshape_dim info !! i = Some j ->
    new_transpose_perm info !! i = Some x -> j ∈ before ++ [old_dim] /\ x ∈ run starts j;
  pu_groups : length (original_reshape_dim_to_new_transpose_perm_indices info) = length p;
  pu_group : forall j g c, original_reshape_dim_to_new_transpose_perm_indices info !! Z.to_nat j = Some g -> 0 <= j -> c ∈ g ->
    0 <= c /\ new_transpose_perm_idx_to_original_reshape_dim info !! Z.to_nat c = Some j;
}.

Lemma push_factor_ok R p starts before old_dim k info x : 0 <= old_dim < Zlen p -> run starts old_dim !! k = Some x ->
  pushing R p starts before old_dim k info ->
  exists info', push_factor old_dim info x = OK info' /\ new_reshape_dims info' = new_reshape_dims info /\
    pushing R p starts before old_dim (S k) info'.
Proof.
  intros Hod Hx [Hperm Hor Hrun Hgs Hg]. unfold push_factor, Zlen in *.
  destruct (lookup_lt_is_Some_2 (original_reshape_dim_to_new_transpose_perm_indices info) (Z.to_nat old_dim)) as [g Hgo]; [lia|].
  rewrite (proj2 (at_OK _ old_dim g)) by (apply idx_Some; split; [lia|done]). cbn [mbind outcome_bind].
  set (G := original_reshape_dim_to_new_transpose_perm_indices info) in *. set (O := new_transpose_perm_idx_to_original_reshape_dim info) in *.
  set (P := new_transpose_perm info) in *. set (g' := g ++ [Z.of_nat (length (P ++ [x])) - 1]).
  rewrite (proj2 (set_at_OK G (<[Z.to_nat old_dim := g']> G) old_dim g')) by (unfold Zlen; split; [lia|done]). cbn [mbind outcome_bind].
  eexists. split; [done|]. split; [done|]. split; cbn [new_transpose_perm new_transpose_perm_idx_to_original_reshape_dim original_reshape_dim_to_new_transpose_perm_indices].
  - by rewrite Hperm, (take_S_r _ _ _ Hx), app_assoc.
  - rewrite !length_app. simpl. lia.
  - intros i j y Hj Hy. apply lookup_app_Some in Hj as [Hj|[Hge Hj]].
    + rewrite lookup_app_l in Hy by (apply lookup_lt_Some in Hj; lia). by apply (Hrun i).
    + apply list_lookup_singleton_Some in Hj as [Hi <-]. assert (i = length P) as -> by lia.
      rewrite list_lookup_middle in Hy by done. injection Hy as <-. split; [apply elem_of_app; right; by apply list_elem_of_singleton|].
      by eapply list_elem_of_lookup_2.
  - by rewrite length_insert.
  - intros j h c Hh Hj Hc. destruct (decide (j = old_dim)) as [->|Hne].
    + rewrite list_lookup_insert_eq in Hh by lia. injection Hh as <-. apply elem_of_app in Hc as [Hc|Hc].
      * destruct (Hg old_dim g c Hgo Hj Hc) as [Hc0 Hoc]. split; [done|]. rewrite lookup_app_l by (by eapply lookup_lt_Some). done.
      * apply list_elem_of_singleton in Hc as ->. rewrite length_app. simpl. split; [lia|].
        replace (Z.to_nat (Z.of_nat (length P + 1) - 1)) with (length O) by lia. by apply list_lookup_middle.
    + rewrite list_lookup_insert_ne in Hh by lia. destruct (Hg j h c Hh Hj Hc) as [Hc0 Hoc]. split; [done|].
      rewrite lookup_app_l by (by eapply lookup_lt_Some). done.
Qed.

Lemma push_run_ok R p starts R2 before old_dim info : blocks R starts R2 -> 0 <= old_dim < Zlen p -> length p = length R ->
  info_ok R p starts before info ->
  exists info', (first ← at_ starts old_dim; n ← at_ starts (old_dim + 1);
      foldM (push_factor old_dim) info (seqZ first (n - first))) = OK info' /\
    new_reshape_dims info' = new_reshape_dims info /\ info_ok R p starts (before ++ [old_dim]) info'.
Proof.
  intros Hb Hod Hl [Hperm Hor Hrun Hgs Hg]. unfold Zlen in Hod.
  destruct (blocks_range R starts R2 (Z.to_nat old_dim) Hb) as (s & e & Hs & He & Hse & _); [lia|].
  rewrite (proj2 (at_OK starts old_dim s)) by (apply idx_Some; split; [lia|done]). cbn [mbind outcome_bind].
  rewrite (proj2 (at_OK starts (old_dim + 1) e)) by (apply idx_Some; split; [lia|by replace (Z.to_nat (old_dim + 1)) with (S (Z.to_nat old_dim)) by lia]).
  cbn [mbind outcome_bind]. pose proof (run_eq _ _ _ _ Hs He) as Erun.
  destruct (foldM_seqZ_from (fun k i => new_reshape_dims i = new_reshape_dims info /\ pushing R p starts before old_dim k i)
    (push_factor old_dim) s (Z.to_nat (e - s)) info) as (info' & HF & Hdims & [Hperm' Hor' Hrun' Hgs' Hg']).
  - split; [done|]. split; [by rewrite Hperm, app_nil_r|done| |done|done]. intros i j x Hj Hx.
    destruct (Hrun i j x Hj Hx). split; [apply elem_of_app; by left|done].
  - intros k i Hk [Hd HP]. destruct (push_factor_ok R p starts before old_dim k i (s + Z.of_nat k)) as (i' & Hi' & Hd' & HP').
    + unfold Zlen. lia. + rewrite Erun. apply lookup_seqZ. lia. + done.
    + exists i'. split; [done|]. split; [congruence|done].
  - rewrite Z2Nat.id in HF by lia. exists info'. split; [done|]. split; [done|].
    split; [|done..]. rewrite Hperm', fmap_app, concat_app. cbn [fmap list_fmap concat]. rewrite app_nil_r. f_equal.
    apply take_ge. rewrite Erun, length_seqZ. lia.
Qed.

Lemma FullyDecanonicalize_ok R p : Forall (fun r => 0 < r < factor_bound) R -> is_perm p -> length p = length R ->
  exists info starts, FullyDecanonicalize R p = OK info /\ blocks R starts (new_reshape_dims info) /\
    info_ok R p starts p info /\ Forall Z.prime (new_reshape_dims info).
Proof.
  intros HR Hp Hl. unfold FullyDecanonicalize.
  destruct (foldM_total (fun l '(new_dims, starts) => blocks l starts new_dims /\ Forall Z.prime new_dims)
    (fun '(new_dims, old_to_new) dim_size =>
      new_dims ← factor_dim dim_size new_dims; OK (new_dims, old_to_new ++ [Zlen new_dims])) R ([], [0])) as ([R2 starts] & -> & Hb & Hpr).
  - split; [apply blocks_nil|constructor].
  - intros l1 r l2 [R2 starts] E [Hb Hpr]. rewrite E in HR. apply Forall_app in HR as [_ [Hr _]%Forall_cons].
    destruct (factor_dim_ok r R2 Hr) as (ps & -> & Hps & Hprod). cbn [mbind outcome_bind]. eexists. split; [done|].
    split; [by apply blocks_snoc|by apply Forall_app].
  - cbn [mbind outcome_bind].
    destruct (foldM_total (fun l info => new_reshape_dims info = R2 /\ info_ok R p starts l info)
      (fun info old_dim => first ← at_ starts old_dim; n ← at_ starts (old_dim + 1);
        foldM (push_factor old_dim) info (seqZ first (n - first))) p
      (mkDecanonicalizationInfo R2 [] [] (replicate (length p) []))) as (info & HF & Hd & HI).
    + split; [done|apply info_start].
    + intros l1 j l2 i E [Hd HI]. assert (Hj : 0 <= j < Zlen p) by (apply is_perm_range; [done|rewrite E; set_solver]).
      destruct (push_run_ok R p starts R2 l1 j i Hb Hj Hl HI) as (i' & Hi' & Hd' & HI'). exists i'. split; [done|]. split; [congruence|done].
    + exists info, starts. split; [exact HF|]. rewrite Hd. done.
Qed.

(** ** Grouping prime factors: theorems

    The grouping of IotaTileAssignment::Transpose (xla/hlo/ir/tile_assignment.cc): where
    it succeeds, every dimension that is not one is the product of consecutive factors
    of the transposed iota, after factors of the same original dimension were swapped. *)

(** ** Counting factors *)

Lemma prime_in_product q l : Z.prime q -> (q | prod l) -> exists A m B, l = A ++ q * m :: B.
Proof.
  intros Hq. induction l as [|x l IH]; intros Hd.
  - exfalso. simpl in Hd. apply Z.divide_1_r in Hd. apply Z.prime_ge_2 in Hq. lia.
  - simpl in Hd. apply Z.divide_prime_mul in Hd as [[m ->]|Hd]; [|by destruct (IH Hd) as (A & m & B & ->); exists (x :: A), m, B|done].
    exists [], m, l. by rewrite Z.mul_comm.
Qed.

Lemma factors_count qs : forall l, Forall Z.prime qs -> Forall (fun d => 1 < d) l -> prod l = prod qs -> (length l <= length qs)%nat.
Proof.
  induction qs as [|q qs IH]; intros l Hqs Hl Hpr.
  - destruct l as [|x l]; [done|]. exfalso. apply Forall_cons in Hl as [Hx Hl]. pose proof (prod_pos l ltac:(by apply big_pos)). simpl in Hpr. nia.
  - apply Forall_cons in Hqs as [Hq Hqs]. destruct (prime_in_product q l Hq) as (A & m & B & ->); [exists (prod qs); rewrite Hpr; simpl; ring|].
    pose proof (Z.prime_ge_2 q Hq) as Hq2. apply Forall_app in Hl as [HA [Hm HB]%Forall_cons]. rewrite length_app. simpl.
    assert (Epr : prod A * (m * prod B) = prod qs).
    { rewrite prod_app in Hpr. cbn [prod] in Hpr. apply (Z.mul_reg_l _ _ q); [lia|]. rewrite <- Hpr. ring. }
    destruct (decide (m = 1)) as [->|Hm1].
    + specialize (IH (A ++ B) Hqs ltac:(by apply Forall_app)). rewrite prod_app, length_app in IH. rewrite Z.mul_1_l in Epr. specialize (IH Epr). lia.
    + specialize (IH (A ++ m :: B) Hqs). rewrite prod_app, length_app in IH. simpl in IH.
      assert (HF : Forall (fun d => 1 < d) (A ++ m :: B)) by (apply Forall_app; split; [done|]; constructor; [nia|done]).
      specialize (IH HF Epr). lia.
Qed.

(** ** The loops *)

(** [d'] has the factors of [d] at the first [k] positions. *)
Definition agree (perm : list Z) (k : nat) (d d' : list Z) : Prop := forall x, x ∈ take k perm -> nth (Z.to_nat x) d' 0 = nth (Z.to_nat x) d 0.

Lemma agree_refl perm k d : agree perm k d d.
Proof. by intros x Hx. Qed.

Lemma agree_trans perm k d d' d'' : agree perm k d d' -> agree perm k d' d'' -> agree perm k d d''.
Proof. intros H1 H2 x Hx. rewrite (H2 x Hx). by apply H1. Qed.

Lemma agree_le perm j k d d' : (j <= k)%nat -> agree perm k d d' -> agree perm j d d'.
Proof.
  intros Hjk HA x Hx. apply HA. apply list_elem_of_lookup in Hx as [i Hi]. apply lookup_take_Some in Hi as [Hi Hlt].
  apply list_elem_of_lookup. exists i. apply lookup_take_Some. split; [done|lia].
Qed.

Lemma agree_sel perm k d d' l : agree perm k d d' -> (forall x, x ∈ l -> x ∈ take k perm) -> sel d' l = sel d l.
Proof.
  intros HA Hin. unfold sel. apply list_fmap_ext. intros i x Hx. apply HA, Hin. by eapply list_elem_of_lookup_2.
Qed.

Lemma sel_list_app (d l m : list Z) : sel d (l ++ m) = sel d l ++ sel d m.
Proof. unfold sel. apply map_app. Qed.

Lemma swap_sym (d : list Z) a b x y : a <> b -> <[b := x]> (<[a := y]> d) = <[a := y]> (<[b := x]> d).
Proof. intros Hne. by rewrite list_insert_insert_ne. Qed.

Section Grouping.
Context (R p starts : list Z) (info : DecanonicalizationInfo).
Context (Hp : is_perm p) (Hl : length p = length R) (Hinfo : info_ok R p starts p info).
Context (Hperm : is_perm (new_transpose_perm info)).

Notation perm := (new_transpose_perm info).

Definition factored (d : list Z) : Prop := blocks R starts d /\ length perm = length d.
Lemma perm_range d x : factored d -> x ∈ perm -> 0 <= x < Zlen d.
Proof using Hp Hl Hinfo Hperm. intros [_ Hlen] Hx. pose proof (is_perm_range _ x Hperm Hx). unfold Zlen in *. lia. Qed.

Lemma factor_at d i x : factored d -> perm !! i = Some x ->
  exists c, d !! Z.to_nat x = Some c /\ at_ d x = OK c /\ 1 < c /\ at_ perm (Z.of_nat i) = OK x.
Proof using Hp Hl Hinfo Hperm.
  intros Hf Hx. pose proof (perm_range d x Hf (list_elem_of_lookup_2 _ _ _ Hx)) as Hr.
  destruct (lookup_lt_is_Some_2 d (Z.to_nat x)) as [c Hc]; [unfold Zlen in Hr; lia|]. exists c. split; [done|].
  split; [apply at_OK, idx_Some; split; [lia|done]|]. split; [|apply at_OK; by rewrite idx_of_nat].
  destruct Hf as [Hb _]. pose proof (bl_big _ _ _ Hb) as Hbig. by eapply Forall_lookup_1 in Hbig.
Qed.

Lemma factored_swap d j x y cx cy : factored d -> 0 <= j < Zlen R -> x <> y -> x ∈ run starts j -> y ∈ run starts j -> 0 <= x -> 0 <= y ->
  d !! Z.to_nat x = Some cx -> d !! Z.to_nat y = Some cy -> factored (<[Z.to_nat y := cx]> (<[Z.to_nat x := cy]> d)).
Proof using Hp Hl Hinfo Hperm.
  intros [Hb Hlen] Hj Hne Hx Hy Hx0 Hy0 Hcx Hcy. split; [|by rewrite !length_insert].
  destruct (Z.lt_trichotomy x y) as [Hlt|[?|Hlt]]; [|done|].
  - apply (blocks_swap R starts d j); [done|done|lia|by rewrite Z2Nat.id by lia..|done|done].
  - rewrite swap_sym by lia. apply (blocks_swap R starts d j); [done|done|lia|by rewrite Z2Nat.id by lia..|done|done].
Qed.

Lemma look_ahead_ok d target idx cands j : factored d -> 0 < target < two63 ->
  (forall c, c ∈ cands -> 0 <= c /\ new_transpose_perm_idx_to_original_reshape_dim info !! Z.to_nat c = Some j) ->
  exists r, look_ahead info d target idx cands = OK r /\
    (forall x, r = Some x -> exists c, idx < c /\ 0 <= c /\ perm !! Z.to_nat c = Some x /\ x ∈ run starts j /\
      exists cx, d !! Z.to_nat x = Some cx /\ (cx | target)).
Proof using Hp Hl Hinfo Hperm.
  intros Hf Ht. induction cands as [|c cands IH]; intros Hc; cbn [look_ahead]; [by exists None|].
  destruct (IH ltac:(intros; apply Hc; by right)) as (r & Hr & HP). destruct (Z.ltb_spec idx c) as [Hlt|_]; [|by exists r].
  destruct (Hc c ltac:(by left)) as [Hc0 Hor]. pose proof (lookup_lt_Some _ _ _ Hor) as Hlt'. rewrite (in_origin _ _ _ _ _ Hinfo) in Hlt'.
  destruct (lookup_lt_is_Some_2 perm (Z.to_nat c) Hlt') as [x Hx]. destruct (factor_at d _ x Hf Hx) as (cx & Hcx & Hat & Hbig & Hpx).
  rewrite Z2Nat.id in Hpx by lia. rewrite Hpx. cbn [mbind outcome_bind]. rewrite Hat. cbn [mbind outcome_bind].
  rewrite modulo_pos by lia. cbn [mbind outcome_bind]. destruct (Z.eqb_spec (target mod cx) 0) as [E|_]; [|by exists r].
  exists (Some x). split; [done|]. intros ? [= <-]. exists c. split; [done|]. split; [done|]. split; [done|].
  split; [by apply (in_run _ _ _ _ _ Hinfo _ _ _ Hor Hx)|]. exists cx. split; [done|]. apply Z.mod_divide; [lia|done].
Qed.

Lemma generate_candidate_ok d target idx : factored d -> 0 < target < two63 -> (idx < length perm)%nat ->
  exists d' r, generate_candidate info d target (Z.of_nat idx) = OK (d', r) /\ factored d' /\ agree perm idx d d' /\
    (forall x, r = Some x -> perm !! idx = Some x /\ exists c, d' !! Z.to_nat x = Some c /\ (c | target)).
Proof using Hp Hl Hinfo Hperm.
  intros Hf Ht Hidx. destruct (lookup_lt_is_Some_2 perm idx Hidx) as [x Hx]. destruct (factor_at d idx x Hf Hx) as (cx & Hcx & Hat & Hbig & Hpx).
  unfold generate_candidate. rewrite Hpx. cbn [mbind outcome_bind]. rewrite Hat. cbn [mbind outcome_bind]. rewrite modulo_pos by lia. cbn [mbind outcome_bind].
  destruct (Z.eqb_spec (target mod cx) 0) as [E|_].
  { exists d, (Some x). split; [done|]. split; [done|]. split; [apply agree_refl|]. intros ? [= <-]. split; [done|]. exists cx. split; [done|].
    apply Z.mod_divide; [lia|done]. }
  destruct Hinfo as [Hip Hio Hir Hig Hic].
  destruct (lookup_lt_is_Some_2 (new_transpose_perm_idx_to_original_reshape_dim info) idx) as [j Hj]; [lia|].
  destruct (Hir idx j x Hj Hx) as [Hjp Hxr]. pose proof (is_perm_range p j Hp Hjp) as Hjr. unfold Zlen in Hjr.
  rewrite (proj2 (at_OK _ (Z.of_nat idx) j)) by by rewrite idx_of_nat. cbn [mbind outcome_bind].
  destruct (lookup_lt_is_Some_2 (original_reshape_dim_to_new_transpose_perm_indices info) (Z.to_nat j)) as [cands Hcs]; [lia|].
  rewrite (proj2 (at_OK _ j cands)) by (apply idx_Some; split; [lia|done]). cbn [mbind outcome_bind].
  destruct (look_ahead_ok d target (Z.of_nat idx) cands j Hf Ht) as (r & -> & HP); [intros c Hc; apply (Hic j cands c Hcs); [lia|done]|].
  cbn [mbind outcome_bind]. destruct r as [y|]; [|exists d, None; split; [done|]; split; [done|]; split; [apply agree_refl|done]].
  destruct (HP y eq_refl) as (c & Hlt & Hc0 & Hy & Hyr & cy & Hcy & Hdiv).
  pose proof (perm_range d x Hf (list_elem_of_lookup_2 _ _ _ Hx)) as Hxr0. pose proof (perm_range d y Hf (list_elem_of_lookup_2 _ _ _ Hy)) as Hyr0.
  assert (Hnd : NoDup perm) by by apply is_perm_NoDup.
  assert (Hne : x <> y) by (intros ->; pose proof (NoDup_lookup _ _ _ _ Hnd Hx Hy); lia). unfold Zlen in *.
  rewrite (proj2 (at_OK d y cy)) by (apply idx_Some; split; [lia|done]). cbn [mbind outcome_bind].
  rewrite (proj2 (set_at_OK d (<[Z.to_nat x := cy]> d) x cy)) by (unfold Zlen; split; [lia|done]). cbn [mbind outcome_bind].
  rewrite (proj2 (set_at_OK _ (<[Z.to_nat y := cx]> (<[Z.to_nat x := cy]> d)) y cx)) by (unfold Zlen; rewrite length_insert; split; [lia|done]).
  cbn [mbind outcome_bind]. eexists _, (Some x). split; [done|].
  split; [apply (factored_swap d j); unfold Zlen; try done; lia|]. split.
  - intros z Hz. apply list_elem_of_lookup in Hz as [i Hi]. apply lookup_take_Some in Hi as [Hi Hlti].
    pose proof (perm_range d z Hf (list_elem_of_lookup_2 _ _ _ Hi)). rewrite !nth_lookup, !list_lookup_insert_ne; [done|..].
    + intros E. assert (z = x) as -> by lia. pose proof (NoDup_lookup _ _ _ _ Hnd Hi Hx). lia.
    + intros E. assert (z = y) as -> by lia. pose proof (NoDup_lookup _ _ _ _ Hnd Hi Hy). lia.
  - intros ? [= <-]. split; [done|]. exists cy. split; [|done]. rewrite list_lookup_insert_ne by lia. apply list_lookup_insert_eq. lia.
Qed.

(** The factors from position [i] to position [k]. *)
Definition part (i k : nat) : list Z := take (k - i) (drop i perm).

Lemma part_nil i : part i i = [].
Proof using Hp Hl Hinfo Hperm. unfold part. by rewrite Nat.sub_diag. Qed.

Lemma part_snoc i k x : (i <= k)%nat -> perm !! k = Some x -> part i (S k) = part i k ++ [x].
Proof using Hp Hl Hinfo Hperm.
  intros Hik Hx. unfold part. replace (S k - i)%nat with (S (k - i)) by lia. apply take_S_r.
  rewrite lookup_drop. by replace (i + (k - i))%nat with k by lia.
Qed.

Lemma part_cons i k x : (i < k)%nat -> perm !! i = Some x -> part i k = x :: part (S i) k.
Proof using Hp Hl Hinfo Hperm.
  intros Hik Hx. unfold part. rewrite (drop_S _ _ _ Hx). by replace (k - i)%nat with (S (k - S i)) by lia.
Qed.

Lemma part_in i k x : x ∈ part i k -> x ∈ take k perm.
Proof using Hp Hl Hinfo Hperm.
  intros [j Hj]%list_elem_of_lookup. unfold part in Hj. apply lookup_take_Some in Hj as [Hj Hlt]. rewrite lookup_drop in Hj.
  apply list_elem_of_lookup. exists (i + j)%nat. apply lookup_take_Some. split; [done|lia].
Qed.

Lemma group_loop_ok i0 fuel : forall d target idx r, factored d -> 0 < target < two63 -> (i0 <= idx < length perm)%nat ->
  (forall x, r = Some x -> perm !! idx = Some x /\ exists c, d !! Z.to_nat x = Some c /\ (c | target)) ->
  (length perm - idx <= fuel)%nat ->
  exists d' target' k, group_loop fuel info d target (Z.of_nat idx) (part i0 idx) r = OK (d', target', Z.of_nat k, part i0 k) /\
    factored d' /\ agree perm idx d d' /\ (idx <= k <= length perm)%nat /\ 0 < target' /\ target = prod (sel d' (part idx k)) * target'.
Proof using Hp Hl Hinfo Hperm.
  induction fuel as [|fuel IH]; intros d target idx r Hf Ht Hidx Hr Hfuel; [lia|]. cbn [group_loop].
  destruct r as [x|].
  2:{ exists d, target, idx. split; [done|]. split; [done|]. split; [apply agree_refl|]. split; [lia|]. split; [lia|].
    rewrite part_nil. simpl. lia. }
  destruct (Hr x eq_refl) as [Hx (c & Hc & q & Hq)]. destruct (factor_at d idx x Hf Hx) as (c' & Hc' & Hat & Hbig & _).
  assert (c' = c) as -> by congruence. rewrite Hat. cbn [mbind outcome_bind].
  destruct (divide_pos target c) as [-> _]; [lia..|]. cbn [mbind outcome_bind]. rewrite Hq, Z.div_mul by lia.
  rewrite <- part_snoc by (done || lia). replace (Z.of_nat idx + 1) with (Z.of_nat (S idx)) by lia.
  assert (Hq0 : 0 < q < two63) by nia. pose proof Hf as [_ Hlen].
  assert (Hnth : forall d', agree perm (S idx) d d' -> nth (Z.to_nat x) d' 0 = c).
  { intros d' HA. rewrite HA; [by rewrite nth_lookup, Hc|]. apply list_elem_of_lookup. exists idx. apply lookup_take_Some. split; [done|lia]. }
  destruct (Z.leb_spec (Zlen d) (Z.of_nat (S idx))) as [Hend|Hmore].
  - unfold Zlen in Hend. exists d, q, (S idx). split; [done|]. split; [done|]. split; [apply agree_refl|]. split; [lia|]. split; [lia|].
    rewrite (part_cons idx (S idx) x), part_nil by (done || lia). cbn [sel map prod].
    rewrite (Hnth d) by apply agree_refl. lia.
  - unfold Zlen in Hmore. destruct (generate_candidate_ok d q (S idx) Hf Hq0 ltac:(lia)) as (d1 & r1 & -> & Hf1 & HA1 & Hr1). cbn [mbind outcome_bind].
    destruct (IH d1 q (S idx) r1 Hf1 Hq0 ltac:(lia) Hr1 ltac:(lia)) as (d' & t' & k & -> & Hf' & HA' & Hk & Ht' & Eq).
    exists d', t', k. split; [done|]. split; [done|]. pose proof (agree_trans _ _ _ _ _ HA1 HA') as HA.
    split; [apply (agree_le perm idx (S idx)); [lia|done]|]. split; [lia|]. split; [done|].
    rewrite (part_cons idx k x) by (done || lia). cbn [sel map prod]. rewrite (Hnth d' HA). fold (sel d' (part (S idx) k)). rewrite Eq. ring.
Qed.

Lemma prod_sel d : factored d -> prod (sel d perm) = prod R.
Proof using Hp Hl Hinfo Hperm.
  intros [Hb Hlen]. rewrite (prod_perm (sel d perm) d) by (by apply sel_perm).
  pose proof (bl_prod _ _ _ Hb 0%nat 0 (bl_first _ _ _ Hb)) as Hpr. simpl in Hpr. by rewrite !drop_0 in Hpr.
Qed.

Lemma sel_big d l : factored d -> (forall x, x ∈ l -> x ∈ perm) -> Forall (fun c => 1 < c) (sel d l).
Proof using Hp Hl Hinfo Hperm.
  intros Hf Hin. apply Forall_fmap, Forall_forall. intros x Hx. apply Hin in Hx. apply list_elem_of_lookup in Hx as [i Hi].
  destruct (factor_at d i x Hf Hi) as (c & Hc & _ & Hbig & _). simpl. by rewrite nth_lookup, Hc.
Qed.

(** The groups of a result: consecutive parts with the wanted products. *)
Lemma group_dims_ok ns : forall d idx, factored d -> (idx <= length perm)%nat -> Forall (fun n => 1 < n) ns -> prod R < two63 ->
  prod (sel d (take idx perm)) * prod ns = prod R ->
  exists r, group_dims info d (Z.of_nat idx) ns = OK r /\
    (forall d' groups, r = Some (d', groups) -> factored d' /\ agree perm idx d d' /\
      concat groups = drop idx perm /\ Forall2 (fun g n => prod (sel d' g) = n) groups ns).
Proof using Hp Hl Hinfo Hperm.
  induction ns as [|n ns IH]; intros d idx Hf Hidx Hns Hsmall Hpr; cbn [group_dims].
  - exists (Some (d, [])). split; [done|]. intros d' groups [= <- <-]. split; [done|]. split; [apply agree_refl|]. split; [|constructor].
    pose proof (prod_sel d Hf) as E. rewrite <- (take_drop idx perm), sel_list_app, prod_app in E. cbn [prod] in Hpr.
    assert (HB : Forall (fun c => 1 < c) (sel d (drop idx perm))).
    { apply sel_big; [done|]. intros x Hx. apply list_elem_of_lookup in Hx as [i Hi]. rewrite lookup_drop in Hi. by eapply list_elem_of_lookup_2. }
    assert (HT : 0 < prod (sel d (take idx perm))).
    { apply prod_pos, big_pos, sel_big; [done|]. intros x Hx. apply list_elem_of_lookup in Hx as [i Hi]. apply lookup_take_Some in Hi as [Hi _]. by eapply list_elem_of_lookup_2. }
    assert (E1 : prod (sel d (drop idx perm)) = 1) by nia.
    destruct (drop idx perm) as [|x l]; [done|]. exfalso. unfold sel in HB, E1. cbn [map prod] in HB, E1. apply Forall_cons in HB as [Hx HB].
    pose proof (prod_pos _ (big_pos _ HB)) as HpB. nia.
  - apply Forall_cons in Hns as [Hn Hns]. pose proof Hf as [Hb Hlen]. pose proof (prod_pos ns (big_pos _ Hns)) as Hppos.
    assert (HT : 0 < prod (sel d (take idx perm))).
    { apply prod_pos, big_pos, sel_big; [done|]. intros x Hx. apply list_elem_of_lookup in Hx as [i Hi]. apply lookup_take_Some in Hi as [Hi _]. by eapply list_elem_of_lookup_2. }
    cbn [prod] in Hpr. destruct (Z.ltb_spec (Z.of_nat idx) (Zlen d)) as [Hlt|Hge].
    2:{ exfalso. unfold Zlen in Hge. rewrite take_ge, prod_sel in Hpr by (done || lia). rewrite take_ge, prod_sel in HT by (done || lia).
      assert (1 < n * prod ns) by nia. nia. }
    assert (Hn63 : 0 < n < two63).
    { assert (1 <= prod (sel d (take idx perm)) * prod ns) by nia.
      replace (prod (sel d (take idx perm)) * (n * prod ns)) with (n * (prod (sel d (take idx perm)) * prod ns)) in Hpr by ring. nia. }
    unfold Zlen in Hlt. destruct (generate_candidate_ok d n idx Hf Hn63 ltac:(lia)) as (d1 & r1 & -> & Hf1 & HA1 & Hr1).
    cbn [mbind outcome_bind].
    destruct (group_loop_ok idx (length d1) d1 n idx r1 Hf1 Hn63 ltac:(lia) Hr1 ltac:(destruct Hf1; lia)) as (d2 & t & k & HG & Hf2 & HA2 & Hk & Ht & Et).
    rewrite part_nil in HG. rewrite HG. cbn [mbind outcome_bind]. destruct (Z.eqb_spec t 1) as [->|_]; cbn [negb]; [|by exists None].
    rewrite Z.mul_1_r in Et. pose proof (agree_trans _ _ _ _ _ HA1 HA2) as HA.
    assert (Hsplit : take k perm = take idx perm ++ part idx k).
    { unfold part. rewrite <- (take_drop idx (take k perm)) at 1. rewrite take_take, Nat.min_l by lia. f_equal. by rewrite skipn_firstn_comm. }
    destruct (IH d2 k Hf2 ltac:(lia) Hns Hsmall) as (r & -> & Hres).
    { rewrite Hsplit, sel_list_app, prod_app, (agree_sel perm idx d d2) by done. rewrite <- Et, <- Hpr. ring. }
    cbn [mbind outcome_bind]. destruct r as [[d3 groups]|]; [|by exists None]. eexists. split; [done|]. intros d' gs [= <- <-].
    destruct (Hres d3 groups eq_refl) as (Hf3 & HA3 & Hcat & HF). split; [done|].
    split; [apply (agree_trans _ _ _ _ _ HA); apply (agree_le perm idx k); [lia|done]|]. split.
    + cbn [concat]. rewrite Hcat. unfold part. rewrite <- (take_drop (k - idx) (drop idx perm)) at 2. rewrite drop_drop.
      by replace (idx + (k - idx))%nat with k by lia.
    + constructor; [|done]. rewrite (agree_sel perm k d2 d3); [done|done|]. intros x Hx. by apply (part_in idx).
Qed.
End Grouping.
