(* ===== verification/IotaTranspose.v ===== *)
(** * Transposition of iota assignments: theorems

    IotaTileAssignment::Transpose (xla/hlo/ir/tile_assignment.cc) on each of its paths:
    nothing to do, only sizes of one moved, a plain iota, a transposed iota whose
    dimensions are those of the assignment, and groups of prime factors. *)

From Stdlib Require Import Sorted Zdivisibility.
From stdpp Require Import sorting.
From S2P Require Import Prelude MachineInt PermutationUtil IndexUtil Util Arrays ArrayTheorems TileAssignment.
From S2P Require Import IotaLayout IotaCanonical IotaAssignment IotaFactors.

(** ** GetTransposeKind *)

Lemma GetTransposeKind_loop_ok ds : forall suf i kind prev, Forall (fun j => 0 <= j < Zlen ds) suf ->
  (i + length suf <= length ds)%nat ->
  exists K, GetTransposeKind_loop ds suf (Z.of_nat i) kind prev = OK K /\
    (K <> kTranspose -> StronglySorted Z.lt (filter (not_one ds) suf) /\ Forall (fun j => prev < j) (filter (not_one ds) suf)) /\
    (K = kNoop -> kind = kNoop /\ forall k d, suf !! k = Some d -> nth (Z.to_nat d) ds 0 = 1 -> nth (i + k) ds 0 = 1).
Proof.
  induction suf as [|d suf IH]; intros i kind prev Hr Hi; cbn [GetTransposeKind_loop].
  { exists kind. split; [done|]. split; [intros Hk; split; constructor|]. intros Hk. split; [done|]. intros k d Hd. done. }
  apply Forall_cons in Hr as [Hd Hr]. simpl in Hi. cbv beta in Hd. rewrite (at_nth ds d) by done. cbn [mbind outcome_bind].
  destruct (Z.eqb_spec (nth (Z.to_nat d) ds 0) 1) as [E|E].
  - assert (Hmv : exists moved : bool, (if d =? Z.of_nat i then OK false else y ← at_ ds (Z.of_nat i); OK (negb (y =? 1))) = OK moved /\
      (moved = false -> nth i ds 0 = 1)).
    { destruct (Z.eqb_spec d (Z.of_nat i)) as [->|Hne]; [exists false; split; [done|]; intros _; by rewrite Nat2Z.id in E|].
      rewrite at_nth by (unfold Zlen; lia). rewrite Nat2Z.id. cbn [mbind outcome_bind]. eexists. split; [done|].
      destruct (Z.eqb_spec (nth i ds 0) 1); [done|]. done. }
    destruct Hmv as (moved & -> & Hmv). cbn [mbind outcome_bind]. replace (Z.of_nat i + 1) with (Z.of_nat (S i)) by lia.
    destruct (IH (S i) (if moved then kReshape else kind) prev Hr ltac:(lia)) as (K & -> & HK1 & HK2). exists K. split; [done|].
    rewrite filter_cons_False by (unfold not_one; rewrite E; intros Hc; by apply Hc). split.
    + exact HK1.
    + intros HK. destruct (HK2 HK) as [Hkd Hall]. destruct moved; [done|]. split; [done|]. intros [|k] j Hj Hj1.
      * rewrite Nat.add_0_r. by apply Hmv.
      * replace (i + S k)%nat with (S i + k)%nat by lia. by apply (Hall k j).
  - rewrite filter_cons_True by done. destruct (Z.leb_spec d prev) as [Hle|Hgt]; [by exists kTranspose|].
    replace (Z.of_nat i + 1) with (Z.of_nat (S i)) by lia.
    destruct (IH (S i) kind d Hr ltac:(lia)) as (K & -> & HK1 & HK2). exists K. split; [done|]. split.
    + intros HK. destruct (HK1 HK) as (Hs & Hf). split; [by constructor|]. constructor; [lia|].
      eapply Forall_impl; [exact Hf|]. simpl. lia.
    + intros HK. destruct (HK2 HK) as [Hkd Hall]. split; [done|]. intros [|k] j Hj Hj1; [simplify_eq/=; done|].
      replace (i + S k)%nat with (S i + k)%nat by lia. by apply (Hall k j).
Qed.

(** Dimensions other than ones stay in order. *)
Definition keeps_order (ds perm : list Z) : Prop := filter (not_one ds) perm = filter (not_one ds) (indices ds).

Lemma StronglySorted_filter {A} (R : A -> A -> Prop) (P : A -> Prop) `{forall x, Decision (P x)} l :
  StronglySorted R l -> StronglySorted R (filter P l).
Proof.
  induction 1 as [|x l Hs IH HF]; [constructor|]. rewrite filter_cons. destruct (decide (P x)); [|done]. constructor; [done|].
  apply Forall_forall. intros y [_ Hy]%list_elem_of_filter. rewrite Forall_forall in HF. by apply HF.
Qed.

Lemma indices_sorted {A} (l : list A) : StronglySorted Z.lt (indices l).
Proof.
  unfold indices. generalize 0. generalize (Zlen l). intros n m. destruct (decide (0 <= n)) as [Hn|Hn]; [|by rewrite seqZ_nil by lia; constructor].
  revert m. pattern n. apply natlike_ind; [constructor| |done]. intros k Hk IH m. rewrite seqZ_cons by lia. rewrite Z.pred_succ. constructor; [apply IH|].
  apply Forall_forall. intros x Hx%elem_of_seqZ. lia.
Qed.

Lemma GetTransposeKind_ok ds perm : is_perm perm -> length perm = length ds ->
  exists K, GetTransposeKind ds perm = OK K /\ (K <> kTranspose -> keeps_order ds perm) /\
    (K = kNoop -> forall k d, perm !! k = Some d -> nth (Z.to_nat d) ds 0 = 1 -> nth k ds 0 = 1).
Proof.
  intros Hp Hl. unfold GetTransposeKind.
  destruct (GetTransposeKind_loop_ok ds perm 0 kNoop (-1)) as (K & HK & HK1 & HK2); [by apply perm_in_range|lia|].
  exists K. split; [exact HK|]. split; [|intros E; by apply HK2].
  intros HKne. destruct (HK1 HKne) as (Hs & _). unfold keeps_order.
  apply (StronglySorted_unique_strong Z.lt); [intros; lia|done|apply StronglySorted_filter, indices_sorted|].
  apply filter_Permutation. unfold is_perm, indices, Zlen in *. by rewrite <- Hl.
Qed.

Lemma val_indices ds l : Forall (fun d => 0 < d) ds -> 0 <= l < prod ds -> val (lay ds (indices ds)) l = l.
Proof.
  intros Hd Hl. destruct (rm_digits ds l Hd Hl) as (ix & Hix & <-).
  assert (Hp : is_perm (indices ds)).
  { apply is_perm_bounds. split; [apply NoDup_seqZ|]. apply Forall_forall. intros x Hx%elem_of_indices. unfold Zlen in *. by rewrite length_indices. }
  assert (Ei : sel ix (indices ds) = ix).
  { replace (indices ds) with (indices ix) by (unfold indices, Zlen; by rewrite (Forall2_length _ _ _ Hix)). apply sel_indices. }
  pose proof (val_lay ds (indices ds) ix Hp (length_indices ds) Hix) as Hv. by rewrite sel_indices, Ei in Hv.
Qed.

Lemma keeps_order_rm ds perm ix : is_perm perm -> length perm = length ds -> keeps_order ds perm -> Forall2 digit ds ix ->
  rm (sel ds perm) (sel ix perm) = rm ds ix.
Proof.
  intros Hp Hl Hk Hix. pose proof (digits_pos _ _ Hix) as Hd. pose proof (perm_in_range ds perm Hp Hl) as Hr.
  assert (Hri : Forall (fun j => 0 <= j < Zlen ds) (indices ds)) by (apply Forall_forall; intros x Hx%elem_of_indices; done).
  assert (Hf : forall q, filter (fun x => x.1 <> 1) (lay ds q) = lay ds (filter (not_one ds) q)).
  { intros q. unfold lay. induction q as [|j q IH]; [done|]. rewrite fmap_cons, !filter_cons, IH.
    destruct (decide (not_one ds j)) as [Hn|Hn]; [rewrite decide_True by done; done|rewrite decide_False by done; done]. }
  assert (Hs : same (lay ds perm) (lay ds (indices ds))).
  { etransitivity; [symmetry; apply same_ones; by apply lay_pos|]. rewrite Hf, Hk, <- Hf. apply same_ones. by apply lay_pos. }
  pose proof (sel_digits _ _ perm Hix Hr) as Hy. pose proof (rm_bound _ _ Hy) as Hb. rewrite (prod_perm _ _ (sel_perm _ _ Hp Hl)) in Hb.
  rewrite <- (val_lay ds perm ix Hp Hl Hix), (same_val _ _ Hs), val_indices; [done|done|done|]. by rewrite lay_size.
Qed.

(** Lists of the same order with ones at the same places. *)
Lemma ones_agree (l k : list Z) : length l = length k -> filter (fun d => d <> 1) l = filter (fun d => d <> 1) k ->
  (forall i, nth i l 0 = 1 -> nth i k 0 = 1) -> l = k.
Proof.
  revert k. induction l as [|x l IH]; intros [|y k] Hl Hf Hn; try done. simpl in Hl.
  assert (Hlen : (length (filter (fun d => d <> 1%Z) l) =
    length (filter (fun d => d <> 1%Z) k) + (if decide (y <> 1%Z) then 1 else 0) - (if decide (x <> 1%Z) then 1 else 0))%nat).
  { apply (f_equal length) in Hf. rewrite !filter_cons in Hf. destruct (decide (x <> 1)), (decide (y <> 1)); simpl in Hf; lia. }
  assert (Hle : (length (without_ones k) <= length (without_ones l))%nat).
  { unfold without_ones. clear -Hl Hn. assert (Hn' : forall i, nth i l 0 = 1 -> nth i k 0 = 1) by (intros i; apply (Hn (S i))). clear Hn x y. revert k Hl Hn'.
    induction l as [|x l IH]; intros [|y k] Hl Hn; try (simpl in *; lia). simpl in Hl. rewrite !filter_cons.
    specialize (IH k ltac:(lia) (fun i => Hn (S i))). specialize (Hn 0%nat). simpl in Hn.
    destruct (decide (x <> 1)), (decide (y <> 1)); simpl; lia. }
  unfold without_ones in Hle. rewrite !filter_cons in Hf. specialize (Hn 0%nat) as Hn0. simpl in Hn0.
  assert (IHk : filter (fun d => d <> 1) l = filter (fun d => d <> 1) k -> l = k) by (intros E; apply IH; [lia|done|intros i; apply (Hn (S i))]).
  destruct (decide (x <> 1)) as [Hx|Hx], (decide (y <> 1)) as [Hy|Hy].
  - injection Hf as -> Hf. f_equal. by apply IHk.
  - apply (f_equal length) in Hf. simpl in Hf, Hlen. lia.
  - destruct Hy. apply Hn0. lia.
  - assert (x = y) as -> by lia. f_equal. by apply IHk.
Qed.

Lemma noop_dims ds perm : is_perm perm -> length perm = length ds -> keeps_order ds perm ->
  (forall k d, perm !! k = Some d -> nth (Z.to_nat d) ds 0 = 1 -> nth k ds 0 = 1) -> sel ds perm = ds.
Proof.
  intros Hp Hl Hk Hn. assert (Hf : forall q, filter (fun d => d <> 1) (sel ds q) = sel ds (filter (not_one ds) q)).
  { intros q. unfold sel. induction q as [|j q IH]; [done|]. cbn [map]. rewrite !filter_cons, IH.
    destruct (decide (not_one ds j)) as [Hj|Hj]; [rewrite decide_True by done; done|rewrite decide_False by done; done]. }
  apply ones_agree.
  - by rewrite length_sel.
  - rewrite Hf, Hk, <- Hf. by rewrite sel_indices.
  - intros i Hi. unfold sel in Hi. destruct (perm !! i) as [d|] eqn:Ed.
    + apply (Hn i d Ed). rewrite nth_lookup, list_lookup_fmap, Ed in Hi. done.
    + rewrite nth_lookup, list_lookup_fmap, Ed in Hi. done.
Qed.

(** ** Transposing groups of dimensions *)

Definition pick {A} (l : list (list A)) (j : Z) : list A := nth (Z.to_nat j) l [].

Lemma val_groups R2 G ds ix q : Forall (fun d => 0 < d) R2 -> Forall (fun g => Forall (fun j => 0 <= j < Zlen R2) g) G ->
  Forall2 (fun g d => prod (sel R2 g) = d) G ds -> Forall2 digit ds ix -> Forall (fun j => 0 <= j < Zlen ds) q ->
  val (lay R2 (concat (pick G <$> q))) (rm (sel ds q) (sel ix q)) =
  foldr Z.add 0 ((fun j => val (lay R2 (pick G j)) (nth (Z.to_nat j) ix 0)) <$> q).
Proof.
  intros HR HG Hpr Hix. induction 1 as [|j q Hj Hq IH]; [done|]. rewrite !fmap_cons. cbn [concat foldr]. rewrite <- IH. clear IH.
  assert (Hpick : forall i, 0 <= i < Zlen ds -> Forall (fun j => 0 <= j < Zlen R2) (pick G i) /\ prod (sel R2 (pick G i)) = nth (Z.to_nat i) ds 0).
  { intros i Hi. unfold Zlen in Hi. destruct (lookup_lt_is_Some_2 ds (Z.to_nat i)) as [d Hd]; [lia|].
    destruct (Forall2_lookup_r _ _ _ _ _ Hpr Hd) as (g & Hg & Hgd). unfold pick. rewrite !nth_lookup, Hg, Hd. split; [by eapply Forall_lookup_1 in HG|done]. }
  assert (HC : Forall (fun j => 0 <= j < Zlen R2) (concat (pick G <$> q))).
  { apply Forall_concat, Forall_fmap. eapply Forall_impl; [exact Hq|]. intros i Hi. by apply Hpick. }
  assert (Hsz : forall g, size (lay R2 g) = prod (sel R2 g)) by (intros g; unfold size; by rewrite lay_fst).
  assert (HsC : size (lay R2 (concat (pick G <$> q))) = prod (sel ds q)).
  { rewrite Hsz. clear HC Hj. induction Hq as [|i q Hi Hq IH]; [done|]. change (prod (sel R2 (pick G i ++ concat (pick G <$> q))) = nth (Z.to_nat i) ds 0 * prod (sel ds q)).
    rewrite sel_list_app, prod_app. destruct (Hpick i Hi) as [_ ->]. f_equal. exact IH. }
  destruct (Hpick j Hj) as [Hgj Hpj]. pose proof (nth_digit ds ix j Hix Hj) as Hdj. unfold digit in Hdj.
  pose proof (sel_digits ds ix q Hix Hq) as Hdq. pose proof (rm_bound _ _ Hdq) as Hb.
  unfold lay at 1. rewrite fmap_app. fold (lay R2 (pick G j)) (lay R2 (concat (pick G <$> q))). 
  change (sel ds (j :: q)) with (nth (Z.to_nat j) ds 0 :: sel ds q). change (sel ix (j :: q)) with (nth (Z.to_nat j) ix 0 :: sel ix q). cbn [rm].
  rewrite val_app; [|by apply lay_pos|by apply lay_pos|].
  - rewrite HsC. rewrite (Z.add_comm (_ * _)), Z.div_add, Z.mod_add by lia. rewrite Z.div_small, Z.mod_small by lia. done.
  - rewrite size_app, HsC, Hsz, Hpj. nia.
Qed.

Lemma pick_indices {A} (G : list (list A)) (ds : list Z) : length G = length ds -> pick G <$> indices ds = G.
Proof.
  intros Hl. apply list_eq. intros k. rewrite list_lookup_fmap. destruct (decide (k < length ds)%nat) as [Hk|Hk].
  - rewrite (proj2 (idx_indices ds k (Z.of_nat k))) by done. simpl. unfold pick. rewrite Nat2Z.id, nth_lookup.
    by destruct (lookup_lt_is_Some_2 G k) as [g ->]; [lia|].
  - rewrite (lookup_ge_None_2 (indices ds)) by (rewrite length_indices; lia). symmetry. apply lookup_ge_None_2. lia.
Qed.

(** The value at the permuted index under the permuted groups. *)
Lemma val_permuted R2 G ds ix perm : Forall (fun d => 0 < d) R2 -> Forall (fun g => Forall (fun j => 0 <= j < Zlen R2) g) G ->
  Forall2 (fun g d => prod (sel R2 g) = d) G ds -> Forall2 digit ds ix -> is_perm perm -> length perm = length ds ->
  val (lay R2 (concat (pick G <$> perm))) (rm (sel ds perm) (sel ix perm)) = val (lay R2 (concat G)) (rm ds ix).
Proof.
  intros HR HG Hpr Hix Hp Hl. pose proof (Forall2_length _ _ _ Hpr) as HlG. pose proof (Forall2_length _ _ _ Hix) as Hlx.
  rewrite (val_groups R2 G ds ix perm) by (done || by apply perm_in_range).
  assert (Ei : sel ix (indices ds) = ix).
  { replace (indices ds) with (indices ix) by (unfold indices, Zlen; by rewrite Hlx). apply sel_indices. }
  pose proof (val_groups R2 G ds ix (indices ds) HR HG Hpr Hix) as Hv. rewrite pick_indices, sel_indices, Ei in Hv by done.
  rewrite Hv by (apply Forall_forall; intros x Hx%elem_of_indices; done).
  apply sum_perm, fmap_Permutation. unfold is_perm, indices, Zlen in *. by rewrite <- Hl.
Qed.

(** A group for every dimension: none for those of size one. *)
Definition group_of (ds : list Z) (groups : list (list Z)) (j : Z) : list Z :=
  if nth (Z.to_nat j) ds 0 =? 1 then [] else nth (Z.to_nat (renumber ds j)) groups [].

Definition all_groups (ds : list Z) (groups : list (list Z)) : list (list Z) := group_of ds groups <$> indices ds.

Lemma all_groups_snoc ds d groups : (length (without_ones ds) <= length groups)%nat ->
  all_groups (ds ++ [d]) groups = all_groups ds (take (length (without_ones ds)) groups) ++
    [if d =? 1 then [] else nth (length (without_ones ds)) groups []].
Proof.
  intros Hl. unfold all_groups. assert (Ei : indices (ds ++ [d]) = indices ds ++ [Zlen ds]).
  { unfold indices, Zlen. rewrite length_app. simpl. rewrite Nat.add_1_r. apply seqZ_S. }
  rewrite Ei, fmap_app. f_equal.
  - apply list_fmap_ext. intros k j Hj. apply idx_indices in Hj as [Hk ->]. unfold group_of, renumber. rewrite Nat2Z.id, app_nth1 by lia.
    rewrite take_app_le by lia. destruct (Z.eqb_spec (nth k ds 0) 1) as [_|Hne]; [done|].
    pose proof (renumber_bound ds (Z.of_nat k) ltac:(unfold Zlen; lia)) as Hb. unfold renumber, not_one in Hb. rewrite Nat2Z.id in Hb.
    destruct (Hb Hne) as [Hb1 _]. unfold Zlen in Hb1. fold (without_ones (take k ds)) in *. unfold Zlen. rewrite Nat2Z.id, !nth_lookup, lookup_take_lt by lia. done.
  - unfold group_of, renumber. unfold Zlen. cbn [fmap list_fmap]. rewrite !Nat2Z.id, app_nth2, Nat.sub_diag, take_app_length by lia. done.
Qed.

Lemma all_groups_ok ds : forall groups (P : list Z -> Z -> Prop), P [] 1 -> Forall2 P groups (without_ones ds) ->
  concat (all_groups ds groups) = concat groups /\ Forall2 P (all_groups ds groups) ds.
Proof.
  induction ds as [|d ds IH] using rev_ind; intros groups P H1 HP; [inversion HP; subst; by split; [|constructor]|].
  assert (Hw : without_ones (ds ++ [d]) = without_ones ds ++ (if d =? 1 then [] else [d])).
  { unfold without_ones. rewrite filter_app. f_equal. destruct (Z.eqb_spec d 1) as [->|Hd].
    - by rewrite filter_cons_False by (intros Hc; by apply Hc).
    - by rewrite filter_cons_True by done. }
  rewrite Hw in HP. pose proof (Forall2_length _ _ _ HP) as Hlen. rewrite length_app in Hlen.
  apply Forall2_app_inv_r in HP as (g1 & g2 & HP1 & HP2 & ->). pose proof (Forall2_length _ _ _ HP1) as Hl1.
  rewrite all_groups_snoc by (rewrite length_app; lia). rewrite take_app_length' by lia.
  destruct (IH g1 P H1 HP1) as [HC HF]. rewrite !concat_app, HC. destruct (Z.eqb_spec d 1) as [->|Hd].
  - apply Forall2_nil_inv_r in HP2 as ->. split; [done|]. apply Forall2_app; [done|by constructor].
  - apply Forall2_cons_inv_r in HP2 as (g & g2' & Hg & Hnil & ->). apply Forall2_nil_inv_r in Hnil as ->.
    rewrite app_nth2, <- Hl1, Nat.sub_diag by lia. cbn [nth concat]. split; [done|]. apply Forall2_app; [done|by constructor].
Qed.

Lemma pick_all_groups ds groups q : Forall (fun j => 0 <= j < Zlen ds) q -> pick (all_groups ds groups) <$> q = group_of ds groups <$> q.
Proof.
  intros Hq. apply list_fmap_ext. intros k j Hj. eapply Forall_lookup_1 in Hq; [|exact Hj]. cbv beta in Hq. unfold Zlen in Hq.
  unfold pick, all_groups. rewrite nth_lookup, list_lookup_fmap, (proj2 (idx_indices ds (Z.to_nat j) j)) by lia. done.
Qed.

Lemma groups_permuted ds groups perm : is_perm perm -> length perm = length ds -> length groups = length (without_ones ds) ->
  concat (group_of ds groups <$> perm) ≡ₚ concat groups.
Proof.
  intros Hp Hl Hlg. destruct (all_groups_ok ds groups (fun _ _ => True)) as [HC _]; [done|by apply Forall2_same_length_lookup_2|].
  rewrite <- HC. unfold all_groups. assert (Hpi : perm ≡ₚ indices ds) by (unfold is_perm, indices, Zlen in *; by rewrite <- Hl). by rewrite Hpi.
Qed.

(** A new assignment from groups of the dimensions of [R2]. *)
Lemma regroup a R2 groups perm : iota_ok a -> is_perm perm -> length perm = length (dims a) ->
  Forall (fun d => 0 < d) R2 -> R2 <> [] -> is_perm (concat groups) -> length (concat groups) = length R2 ->
  Forall2 (fun g n => prod (sel R2 g) = n) groups (without_ones (dims a)) -> same (lay R2 (concat groups)) (iota_layout a) ->
  exists t, Create (sel (dims a) perm) R2 (concat (group_of (dims a) groups <$> perm)) = OK t /\ iota_ok t /\ dims t = sel (dims a) perm /\
    forall ix, Forall2 digit (dims a) ix -> value_at t (sel ix perm) = value_at a ix.
Proof.
  intros Ha Hp Hl HR HRne Hpg Hlg HF Hs. pose proof Ha as [Hd Hne _ Hpr Hsm]. set (ds := dims a) in *.
  destruct (all_groups_ok ds groups (fun g n => prod (sel R2 g) = n)) as [HC HFa]; [done|done|].
  pose proof (perm_in_range ds perm Hp Hl) as Hr. set (q := concat (group_of ds groups <$> perm)).
  assert (Eq : q = concat (pick (all_groups ds groups) <$> perm)) by (unfold q; by rewrite pick_all_groups).
  assert (Hq : q ≡ₚ concat groups) by (apply groups_permuted; [done|done|by eapply Forall2_length]).
  assert (Hlq : length q = length R2) by (by rewrite Hq).
  assert (Hpq : is_perm q).
  { unfold is_perm in *. rewrite Hq at 1. rewrite Hpg. unfold indices, Zlen. by rewrite Hlq, Hlg. }
  destruct (iota_layout_size a Ha) as [HpA HsA].
  assert (HprR : prod R2 = prod ds) by (rewrite <- (lay_size R2 (concat groups)) by done; rewrite (same_size _ _ Hs); done).
  assert (Eds : prod (sel ds perm) = prod ds) by (by apply prod_perm, sel_perm).
  destruct (Create_ok (sel ds perm) R2 q) as (t & HCr & Ht & Edt & Hst); [by rewrite sel_perm| |done|done|done|done|by rewrite Eds|rewrite HprR; lia|].
  { intros E. apply (f_equal length) in E. rewrite length_sel, Hl in E. by destruct ds. }
  exists t. split; [done|]. split; [done|]. split; [done|]. intros ix Hix.
  pose proof (sel_digits _ _ perm Hix Hr) as Hy. pose proof (rm_bound _ _ Hy) as Hby. pose proof (rm_bound _ _ Hix) as Hb.
  rewrite !value_at_ok by (rewrite ?Edt; done). rewrite Edt. f_equal.
  rewrite (same_val _ _ Hst) by (rewrite (same_size _ _ Hst), lay_size by done; lia).
  fold ds. rewrite <- (same_val _ _ Hs (rm ds ix)) by (rewrite lay_size by done; lia).
  rewrite Eq, val_permuted; [by rewrite HC|done| |done..].
  apply Forall_forall. intros g Hg. apply Forall_forall. intros x Hx. apply (perm_in_range R2 (concat groups)) in Hpg; [|done].
  rewrite Forall_forall in Hpg. apply Hpg. rewrite <- HC. apply list_elem_of_In, in_concat. exists g. by split; apply list_elem_of_In.
Qed.

(** ** The parts of Transpose *)

Lemma old_to_new_at ds j : 0 <= j < Zlen ds ->
  at_ (old_to_new_dims ds).1 j = OK (if nth (Z.to_nat j) ds 0 =? 1 then -1 else renumber ds j).
Proof.
  intros Hj. destruct (old_to_new_spec ds) as (_ & _ & Hk). unfold Zlen in Hj. apply at_OK, idx_Some. split; [lia|].
  rewrite Hk by lia. by rewrite Z2Nat.id by lia.
Qed.

Lemma old_to_new_snoc ds d : (old_to_new_dims (ds ++ [d])).1 =
  (old_to_new_dims ds).1 ++ [if d =? 1 then -1 else Zlen (without_ones ds)].
Proof.
  destruct (old_to_new_spec ds) as (Hc & _). unfold old_to_new_dims in *. rewrite foldl_app.
  destruct (foldl _ ([], 0) ds) as [l c]. cbn [foldl fst snd] in *. rewrite Hc. by destruct (d =? 1).
Qed.

Lemma without_ones_app ds d : without_ones (ds ++ [d]) = without_ones ds ++ (if d =? 1 then [] else [d]).
Proof.
  unfold without_ones. rewrite filter_app. f_equal. destruct (Z.eqb_spec d 1) as [->|Hd].
  - by rewrite filter_cons_False by (intros Hc; by apply Hc).
  - by rewrite filter_cons_True by done.
Qed.

Lemma non_one_dims_ok a : iota_ok a -> exists pure, non_one_dims a = OK (without_ones (dims a), (old_to_new_dims (dims a)).1, pure) /\
  (pure = true -> without_ones (dims a) `prefix_of` sel (reshape_dims a) (transpose_perm a)).
Proof.
  intros Ha. destruct (form_perm _ _ (io_form _ Ha)) as (Hp & Hl & HR & _). unfold non_one_dims.
  set (R := reshape_dims a) in *. set (p := transpose_perm a) in *.
  match goal with |- context [foldM ?F ?B _] => destruct (foldM_total (fun l '(non_one, o2n, pure) =>
    non_one = without_ones l /\ o2n = (old_to_new_dims l).1 /\ (pure = true -> without_ones l `prefix_of` sel R p)) F (dims a) B)
    as ([[non_one o2n] pure] & HF & -> & -> & Hpure) end.
  - split; [done|]. split; [done|]. intros _. apply prefix_nil.
  - intros l1 d l2 [[non_one o2n] pure] _ (-> & -> & Hpure). rewrite old_to_new_snoc, without_ones_app. destruct (Z.eqb_spec d 1) as [->|Hd].
    { eexists. split; [done|]. cbv beta iota. by rewrite app_nil_r. }
    set (n := without_ones l1) in *.
    assert (Hdf : exists differs : bool, (if Zlen R <=? Zlen n then OK true
        else q ← at_ p (Zlen n); d0 ← at_ R q; OK (negb (d0 =? d))) = OK differs /\
        (differs = false -> sel R p !! length n = Some d)).
    { unfold Zlen. destruct (Z.leb_spec (Z.of_nat (length R)) (Z.of_nat (length n))) as [Hle|Hgt]; [by exists true|].
      destruct (lookup_lt_is_Some_2 p (length n)) as [q Hq]; [lia|]. rewrite (proj2 (at_OK p _ q)) by by rewrite idx_of_nat.
      cbn [mbind outcome_bind]. pose proof (is_perm_range p q Hp (list_elem_of_lookup_2 _ _ _ Hq)) as Hqr.
      rewrite at_nth by (unfold Zlen in *; lia). cbn [mbind outcome_bind]. eexists. split; [done|]. intros Hne.
      apply negb_false_iff, Z.eqb_eq in Hne. unfold sel. rewrite list_lookup_fmap, Hq. simpl. by rewrite Hne. }
    destruct Hdf as (differs & -> & Hdf). cbn [mbind outcome_bind]. eexists. split; [done|]. split; [done|]. split; [done|].
    intros [Hpu Hnd]%andb_true_iff. destruct (Hpure Hpu) as [k Hk]. apply negb_true_iff in Hnd. specialize (Hdf Hnd).
    rewrite Hk, lookup_app_r, Nat.sub_diag in Hdf by lia. destruct k as [|e k]; [done|]. simpl in Hdf. injection Hdf as ->.
    exists k. by rewrite Hk, <- app_assoc.
  - rewrite HF. by exists pure.
Qed.

(** The accumulating loop over the permutation. *)
Lemma append_loop {A} (f : list A -> Z -> outcome (list A)) (g : Z -> list A) perm :
  (forall acc j, j ∈ perm -> f acc j = OK (acc ++ g j)) -> foldM f [] perm = OK (concat (g <$> perm)).
Proof.
  intros Hf. destruct (foldM_total (fun l acc => acc = concat (g <$> l)) f perm []) as (acc & -> & ->); [done| |done].
  intros l1 j l2 acc -> ->. eexists. split; [apply Hf; set_solver|]. rewrite fmap_app, concat_app. simpl. by rewrite app_nil_r.
Qed.

Lemma flatten_groups_ok ds groups perm : is_perm perm -> length perm = length ds -> length groups = length (without_ones ds) ->
  flatten_groups groups (old_to_new_dims ds).1 perm = OK (concat (group_of ds groups <$> perm)).
Proof.
  intros Hp Hl Hlg. apply append_loop. intros acc j Hj. pose proof (is_perm_range perm j Hp Hj) as Hr. unfold Zlen in Hr.
  rewrite old_to_new_at by (unfold Zlen; lia). cbn [mbind outcome_bind]. unfold group_of.
  destruct (Z.eqb_spec (nth (Z.to_nat j) ds 0) 1) as [_|Hne]; [by rewrite app_nil_r|].
  destruct (renumber_bound ds j) as [Hb _]; [unfold Zlen; lia|done|]. rewrite (proj2 (Z.ltb_ge (renumber ds j) 0)) by lia.
  destruct (lookup_lt_is_Some_2 groups (Z.to_nat (renumber ds j))) as [g Hg]; [unfold Zlen in Hb; lia|].
  rewrite (proj2 (at_OK groups (renumber ds j) g)) by (apply idx_Some; split; [lia|done]). cbn [mbind outcome_bind]. by rewrite nth_lookup, Hg.
Qed.

Lemma pure_transpose_ok a perm : is_perm perm -> length perm = length (dims a) -> length (without_ones (dims a)) = length (transpose_perm a) ->
  pure_transpose a (old_to_new_dims (dims a)).1 perm =
    OK (concat (group_of (dims a) ((fun x => [x]) <$> transpose_perm a) <$> perm)).
Proof.
  intros Hp Hl Hlw. apply append_loop. intros acc j Hj. pose proof (is_perm_range perm j Hp Hj) as Hr. unfold Zlen in Hr.
  rewrite (at_nth (dims a) j) by (unfold Zlen; lia). cbn [mbind outcome_bind]. unfold group_of.
  destruct (Z.eqb_spec (nth (Z.to_nat j) (dims a) 0) 1) as [E|Hne]; [by rewrite app_nil_r|].
  rewrite old_to_new_at by (unfold Zlen; lia). rewrite (proj2 (Z.eqb_neq _ _) Hne). cbn [mbind outcome_bind].
  destruct (renumber_bound (dims a) j) as [Hb _]; [unfold Zlen; lia|done|].
  destruct (lookup_lt_is_Some_2 (transpose_perm a) (Z.to_nat (renumber (dims a) j))) as [g Hg]; [unfold Zlen in Hb; lia|].
  rewrite (proj2 (at_OK (transpose_perm a) (renumber (dims a) j) g)) by (apply idx_Some; split; [lia|done]). cbn [mbind outcome_bind].
  by rewrite nth_lookup, list_lookup_fmap, Hg.
Qed.

Lemma new_dims_ok ds perm : is_perm perm -> length perm = length ds ->
  mapM (fun i => p ← at_ perm i; at_ ds p) (indices ds) = OK (sel ds perm).
Proof.
  intros Hp Hl. apply mapM_seqZ_OK. split; [by rewrite length_sel|]. intros k b Hb. unfold sel in Hb. rewrite list_lookup_fmap in Hb.
  destruct (perm !! k) as [j|] eqn:Ej; [|done]. simpl in Hb. injection Hb as <-.
  rewrite (proj2 (at_OK perm (Z.of_nat k) j)) by by rewrite idx_of_nat. cbn [mbind outcome_bind]. apply at_nth.
  pose proof (is_perm_range perm j Hp (list_elem_of_lookup_2 _ _ _ Ej)). unfold Zlen in *. lia.
Qed.

(** ** Transpose *)

(** What a transposition promises. *)
Definition transposed (a : IotaTileAssignment) (perm : list Z) (t : IotaTileAssignment) : Prop :=
  iota_ok t /\ dims t = sel (dims a) perm /\
  forall ix, Forall2 digit (dims a) ix -> value_at t (sel ix perm) = value_at a ix.

Section Transpose.
Context (a : IotaTileAssignment) (perm : list Z) (Ha : iota_ok a) (Hp : is_perm perm) (Hl : length perm = length (dims a)).

Lemma sel_dims_facts : Forall (fun d => 0 < d) (sel (dims a) perm) /\ sel (dims a) perm <> [] /\ prod (sel (dims a) perm) = prod (dims a).
Proof using Ha Hp Hl.
  split; [rewrite sel_perm by done; apply Ha|]. split; [|by apply prod_perm, sel_perm]. intros E.
  apply (f_equal length) in E. rewrite length_sel, Hl in E. destruct Ha as [_ Hne _ _ _]. by destruct (dims a).
Qed.

(** The paths on which the row-major order stays. *)
Lemma same_order_ok t : keeps_order (dims a) perm -> iota_ok t -> dims t = sel (dims a) perm -> same (iota_layout t) (iota_layout a) ->
  transposed a perm t.
Proof using Ha Hp Hl.
  intros Hk Ht Hd Hs. split; [done|]. split; [done|]. intros ix Hix. destruct (iota_layout_size a Ha) as [_ HsA].
  pose proof (sel_digits _ _ perm Hix (perm_in_range _ _ Hp Hl)) as Hy. pose proof (rm_bound _ _ Hix) as Hb.
  rewrite !value_at_ok by (rewrite ?Hd; done). rewrite Hd, keeps_order_rm by done. f_equal. apply (same_val _ _ Hs).
  rewrite (same_size _ _ Hs). lia.
Qed.

Lemma reshape_path : keeps_order (dims a) perm ->
  exists t, Create (sel (dims a) perm) (reshape_dims a) (transpose_perm a) = OK t /\ transposed a perm t.
Proof using Ha Hp Hl.
  intros Hk. destruct sel_dims_facts as (H1 & H2 & H3). pose proof Ha as [_ _ Hf Hpr Hs]. destruct (form_perm _ _ Hf) as (Hpp & Hlp & HR & HRne).
  destruct (Create_ok (sel (dims a) perm) (reshape_dims a) (transpose_perm a)) as (t & HC & Ht & Hd & Hst); [done..|congruence|done|].
  exists t. split; [done|]. by apply same_order_ok.
Qed.

Lemma plain_path : Zlen (reshape_dims a) = 1 -> exists t, Create (sel (dims a) perm) (dims a) perm = OK t /\ transposed a perm t.
Proof using Ha Hp Hl.
  intros H1. destruct sel_dims_facts as (Hs1 & Hs2 & Hs3). pose proof Ha as [Hd Hne Hf Hpr Hs]. destruct (form_perm _ _ Hf) as (Hpp & Hlp & HR & HRne).
  destruct (Create_ok (sel (dims a) perm) (dims a) perm) as (t & HC & Ht & Hdt & Hst); [done..|congruence|].
  exists t. split; [done|]. split; [done|]. split; [done|]. intros ix Hix.
  pose proof (sel_digits _ _ perm Hix (perm_in_range _ _ Hp Hl)) as Hy. pose proof (rm_bound _ _ Hy) as Hby. pose proof (rm_bound _ _ Hix) as Hb.
  rewrite !value_at_ok by (rewrite ?Hdt; done). rewrite Hdt. f_equal.
  rewrite (same_val _ _ Hst) by (rewrite (same_size _ _ Hst), lay_size by done; lia). rewrite val_lay by done.
  unfold iota_layout. unfold Zlen in H1. destruct (reshape_dims a) as [|n [|? ?]] eqn:ER; try (simpl in H1; lia).
  destruct (transpose_perm a) as [|j [|? ?]]; try (simpl in Hlp; lia).
  assert (0 <= j < Zlen [j]) by (apply is_perm_range; [done|by left]). unfold Zlen in *. assert (j = 0) as -> by (simpl in *; lia).
  symmetry. apply (val_indices [n]); [done|lia].
Qed.

Lemma pure_path : 1 < Zlen (reshape_dims a) -> without_ones (dims a) `prefix_of` sel (reshape_dims a) (transpose_perm a) ->
  Zlen (reshape_dims a) = Zlen (without_ones (dims a)) /\
  exists q, pure_transpose a (old_to_new_dims (dims a)).1 perm = OK q /\ length q = length (reshape_dims a) /\
    exists t, Create (sel (dims a) perm) (reshape_dims a) q = OK t /\ transposed a perm t.
Proof using Ha Hp Hl.
  intros H1 [rest Hpre]. pose proof Ha as [Hd Hne Hf Hpr Hs]. destruct (form_perm _ _ Hf) as (Hpp & Hlp & HR & HRne).
  destruct Hf as [[[_ _ Hbig _] _]|[E _]]; [|rewrite E in H1; unfold Zlen in H1; simpl in H1; lia].
  assert (Hrest : rest = []).
  { assert (Hb : Forall (fun d => 1 < d) (sel (reshape_dims a) (transpose_perm a))) by (by rewrite sel_perm).
    rewrite Hpre in Hb. apply Forall_app in Hb as [_ Hb]. pose proof (prod_perm _ _ (sel_perm _ _ Hpp Hlp)) as E.
    rewrite Hpre, prod_app, prod_without_ones, <- Hpr in E. pose proof (prod_pos _ Hd). destruct rest as [|x rest]; [done|]. exfalso.
    apply Forall_cons in Hb as [Hx Hb]. pose proof (prod_pos rest (big_pos _ Hb)). cbn [prod] in E. assert (1 < x * prod rest) by nia. nia. }
  rewrite Hrest, app_nil_r in Hpre. assert (Hlw : length (without_ones (dims a)) = length (transpose_perm a)) by (by rewrite <- Hpre, length_sel).
  split; [unfold Zlen; lia|]. rewrite pure_transpose_ok by done. set (groups := (fun x => [x]) <$> transpose_perm a).
  assert (HC : concat groups = transpose_perm a).
  { unfold groups. generalize (transpose_perm a). intros l. induction l as [|x l IH]; [done|]. simpl. f_equal. exact IH. }
  assert (HF : Forall2 (fun g n => prod (sel (reshape_dims a) g) = n) groups (without_ones (dims a))).
  { rewrite <- Hpre. unfold groups, sel. apply Forall2_fmap, Forall_Forall2_diag, Forall_true. intros x. simpl. lia. }
  destruct (regroup a (reshape_dims a) groups perm) as (t & HCr & Ht); try done; try (by rewrite HC).
  { rewrite HC. apply same_layout_refl. by apply lay_perm_pos. }
  eexists. split; [done|]. split.
  - rewrite <- Hlp, <- HC. apply Permutation_length, groups_permuted; [done|done|by eapply Forall2_length].
  - exists t. by split.
Qed.
End Transpose.

(** ** The path of prime factors *)

Lemma runs_all R starts R2 : blocks R starts R2 -> concat (run starts <$> indices R) = indices R2.
Proof.
  intros Hb. enough (Hk : forall k s, (k <= length R)%nat -> starts !! k = Some s -> concat (run starts <$> seqZ 0 (Z.of_nat k)) = seqZ 0 s).
  { apply (Hk (length R)); [lia|apply Hb]. }
  induction k as [|k IH]; intros e Hk He.
  { rewrite (bl_first _ _ _ Hb) in He. injection He as <-. done. }
  destruct (blocks_range R starts R2 k Hb) as (s & e' & Hs & He' & Hse & _); [lia|]. assert (e' = e) as -> by congruence.
  rewrite seqZ_S, fmap_app, concat_app, (IH s) by (lia || done). cbn [fmap list_fmap concat]. rewrite app_nil_r, Z.add_0_l.
  rewrite (run_eq starts (Z.of_nat k) s e) by by rewrite Nat2Z.id. replace e with (s + (e - s)) at 2 by lia. by rewrite seqZ_app by lia.
Qed.

Lemma factors_perm R p starts info : is_perm p -> length p = length R -> blocks R starts (new_reshape_dims info) ->
  info_ok R p starts p info -> is_perm (new_transpose_perm info) /\ length (new_transpose_perm info) = length (new_reshape_dims info).
Proof.
  intros Hp Hl Hb Hi. assert (Hpm : new_transpose_perm info ≡ₚ indices (new_reshape_dims info)).
  { rewrite (in_perm _ _ _ _ _ Hi), <- (runs_all R starts) by done.
    assert (Hpi : p ≡ₚ indices R) by (unfold is_perm, indices, Zlen in *; by rewrite <- Hl). by rewrite Hpi. }
  assert (Hlen : length (new_transpose_perm info) = length (new_reshape_dims info)) by (by rewrite Hpm, length_indices).
  split; [|done]. unfold is_perm, indices, Zlen in *. by rewrite Hlen.
Qed.

Section Factors.
Context (a : IotaTileAssignment) (perm : list Z) (Ha : iota_ok a) (Hp : is_perm perm) (Hl : length perm = length (dims a)).
Context (Hsmall : prod (dims a) < factor_bound) (Hmany : 1 < Zlen (reshape_dims a)).

Lemma factor_path : exists info, FullyDecanonicalize (reshape_dims a) (transpose_perm a) = OK info /\
  Zlen (without_ones (dims a)) <= Zlen (new_reshape_dims info) /\
  exists r, group_dims info (new_reshape_dims info) 0 (without_ones (dims a)) = OK r /\
    forall d groups, r = Some (d, groups) ->
      exists q, flatten_groups groups (old_to_new_dims (dims a)).1 perm = OK q /\ Zlen q = Zlen (new_transpose_perm info) /\
        exists t, Create (sel (dims a) perm) d q = OK t /\ transposed a perm t.
Proof using Ha Hp Hl Hsmall Hmany.
  pose proof Ha as [Hd Hne Hf Hpr Hs]. destruct (form_perm _ _ Hf) as (Hpp & Hlp & HR & HRne).
  set (R := reshape_dims a) in *. set (p := transpose_perm a) in *. pose proof (prod_pos R HR) as HpR.
  destruct (FullyDecanonicalize_ok R p) as (info & starts & HFD & Hb & Hi & Hprime); [|done..|].
  { apply Forall_forall. intros r Hr. rewrite Forall_forall in HR. split; [by apply HR|]. eapply Z.le_lt_trans; [|exact Hsmall].
    rewrite Hpr. apply elem_le_prod; [by apply Forall_forall|done]. }
  destruct (factors_perm R p starts info Hpp Hlp Hb Hi) as [Hnp Hnl]. exists info. split; [done|].
  pose proof (without_ones_big _ Hd) as Hwb. pose proof (prod_without_ones (dims a)) as Hwp.
  pose proof (bl_prod _ _ _ Hb 0%nat 0 (bl_first _ _ _ Hb)) as HprN. simpl in HprN. rewrite !drop_0 in HprN.
  split; [unfold Zlen; apply inj_le, factors_count; [done..|congruence]|].
  assert (Hft : factored R starts info (new_reshape_dims info)) by by split.
  destruct (group_dims_ok R p starts info Hpp Hlp Hi Hnp (without_ones (dims a)) (new_reshape_dims info) 0 Hft) as (r & HG & Hr);
    [lia|done|unfold two31 in Hs; z64; lia|simpl; rewrite Hwp; lia|].
  exists r. split; [exact HG|]. intros d groups Er. destruct (Hr d groups Er) as ([Hbd Hld] & _ & HC & HF). simpl in HC. rewrite drop_0 in HC.
  pose proof (Forall2_length _ _ _ HF) as Hlg.
  eexists. split; [by apply flatten_groups_ok|]. split.
  - unfold Zlen. f_equal. rewrite <- HC. by apply Permutation_length, groups_permuted.
  - apply regroup; try done.
    + apply big_pos. apply (bl_big _ _ _ Hbd).
    + intros ->. pose proof (bl_prod _ _ _ Hbd 0%nat 0 (bl_first _ _ _ Hbd)) as Hbp. simpl in Hbp. rewrite drop_0 in Hbp.
      destruct Hf as [[[_ _ Hbig _] _]|[E _]]; [|unfold Zlen in Hmany; rewrite E in Hmany; simpl in Hmany; lia].
      destruct R as [|x R']; [done|]. apply Forall_cons in Hbig as [Hx Hbig]. pose proof (prod_pos R' (big_pos _ Hbig)). simpl in Hbp. nia.
    + by rewrite HC.
    + by rewrite HC.
    + rewrite HC, (in_perm _ _ _ _ _ Hi). apply (blocks_same R starts); [done|]. by apply perm_in_range.
Qed.
End Factors.

Lemma Transpose_ok a perm : iota_ok a -> is_perm perm -> length perm = length (dims a) -> prod (dims a) < factor_bound ->
  exists r, Transpose a perm = OK r /\ forall t, r = Some t -> transposed a perm t.
Proof.
  intros Ha Hp Hl Hsm. unfold Transpose.
  destruct (GetTransposeKind_ok (dims a) perm Hp Hl) as (K & -> & HK1 & HK2). cbn [mbind outcome_bind].
  case_bool_decide as Hnoop.
  { exists (Some a). split; [done|]. intros t [= <-]. specialize (HK1 ltac:(by rewrite Hnoop)). specialize (HK2 Hnoop).
    apply (same_order_ok a perm Ha Hp Hl); [done|done|symmetry; by apply noop_dims|]. apply same_layout_refl. by apply iota_layout_size. }
  rewrite new_dims_ok by done. cbn [mbind outcome_bind]. case_bool_decide as Hres.
  { destruct (reshape_path a perm Ha Hp Hl) as (t & -> & Ht); [apply HK1; by rewrite Hres|]. exists (Some t). split; [done|]. by intros ? [= <-]. }
  destruct (Z.eqb_spec (Zlen (reshape_dims a)) 1) as [H1|H1].
  { destruct (plain_path a perm Ha Hp Hl H1) as (t & -> & Ht). exists (Some t). split; [done|]. by intros ? [= <-]. }
  assert (Hmany : 1 < Zlen (reshape_dims a)).
  { destruct (form_perm _ _ (io_form _ Ha)) as (_ & _ & _ & Hne). unfold Zlen in *. destruct (reshape_dims a); [done|]. simpl in *. lia. }
  destruct (non_one_dims_ok a Ha) as (pure & -> & Hpure). cbn [mbind outcome_bind]. destruct pure.
  - destruct (pure_path a perm Ha Hp Hl Hmany (Hpure eq_refl)) as (E & q & -> & Hq & t & HC & Ht). rewrite E, Z.eqb_refl. cbn [check mbind outcome_bind].
    unfold Zlen in *. rewrite Hq, E, Z.eqb_refl. cbn [check mbind outcome_bind]. rewrite HC. exists (Some t). split; [done|]. by intros ? [= <-].
  - destruct (factor_path a perm Ha Hp Hl Hsm Hmany) as (info & -> & Hle & r & HG & Hr). cbn [mbind outcome_bind].
    rewrite (proj2 (Z.leb_le _ _) Hle). cbn [check mbind outcome_bind]. rewrite HG. cbn [mbind outcome_bind].
    destruct r as [[d groups]|]; [|by exists None]. destruct (Hr d groups eq_refl) as (q & -> & Hq & t & HC & Ht). cbn [mbind outcome_bind].
    rewrite Hq, Z.eqb_refl. cbn [check mbind outcome_bind]. rewrite HC. exists (Some t). split; [done|]. by intros ? [= <-].
Qed.

(** transposing an iota assignment of fewer than 46339 squared devices never fails a
    check, ends, and where it returns an assignment (by moving sizes of one, permuting the
    reshaping, or regrouping swapped prime factors) that has the permuted sizes and, at
    every permuted index, the device of the index. *)
Lemma iota_Transpose_correct (a : IotaTileAssignment) (perm : list Z) (Ha : iota_ok a) (Hp : is_perm perm)
    (Hl : length perm = length (dims a)) (Hsm : iota_num_elements a < factor_bound) :
  exists r, Transpose a perm = OK r /\ forall t, r = Some t ->
    iota_form (reshape_dims t) (transpose_perm t) /\ dims t = sel (dims a) perm /\
    forall ix, Forall2 digit (dims a) ix -> value_at t (sel ix perm) = value_at a ix.
Proof.
  rewrite iota_num_elements_ok in Hsm by done. destruct (Transpose_ok a perm Ha Hp Hl Hsm) as (r & Hr & HP). exists r. split; [done|].
  intros t Et. destruct (HP t Et) as (Ht & Hd & Hv). split; [apply Ht|by split].
Qed.

Lemma iota_example_ok : iota_ok (mkIota [4; 5; 24] [15; 4; 8] [1; 0; 2]).
Proof.
  split; cbn [dims reshape_dims transpose_perm]; [repeat constructor|done| |reflexivity|by vm_compute].
  left. split; [|done]. split; [|reflexivity|repeat constructor|].
  - apply IsPermutation_iff. by vm_compute.
  - intros [|[|[|t]]] x y Hx Hy; simplify_eq/=; lia.
Defined.

Lemma iota_Transpose_correct_witness :
  let a := mkIota [4; 5; 24] [15; 4; 8] [1; 0; 2] in
  exists t, Transpose a [2; 0; 1] = OK (Some t) /\ dims t = [24; 4; 5] /\ value_at t [7; 1; 3] = value_at a [1; 3; 7] /\
    value_at a [1; 3; 7] = OK 303.
Proof.
  intros a. destruct (iota_Transpose_correct a [2; 0; 1]) as (r & Hr & HP).
  - apply iota_example_ok.
  - apply IsPermutation_iff. by vm_compute.
  - reflexivity.
  - by vm_compute.
  - assert (E : Transpose a [2; 0; 1] = OK (Some (mkIota [24; 4; 5] [5; 3; 4; 8] [1; 3; 2; 0]))) by (vm_compute; reflexivity).
    rewrite E in Hr. injection Hr as <-. destruct (HP _ eq_refl) as (_ & Hd & Hv). eexists. split; [exact E|]. split; [exact Hd|].
    split; [|vm_compute; reflexivity]. apply (Hv [1; 3; 7]). repeat constructor; lia.
Defined.
