(* ===== verification/TileTheorems.v ===== *)
(** * TileAssignment: theorems

    A tile assignment in the format of an iota, materialized or not, or of an array:
    the operations of xla/hlo/ir/tile_assignment.cc do not depend on the format. *)

From S2P Require Import Prelude MachineInt PermutationUtil IndexUtil Util Arrays ArrayTheorems TileAssignment.
From S2P Require Import IotaLayout IotaCanonical IotaAssignment IotaFactors IotaTranspose.

(** A valid assignment of the sizes [ds]. *)
Inductive tile_ok (ds : list Z) : TileAssignment -> Prop :=
| tile_iota a : iota_ok a -> dims a = ds -> tile_ok ds (mkTile (Some a) None None)
| tile_cached a arr : iota_ok a -> dims a = ds -> ToArray a = OK arr -> tile_ok ds (mkTile (Some a) (Some arr) (Some arr))
| tile_array arr shared : ds <> [] -> array_ok ds arr -> prod ds < two31 -> tile_ok ds (mkTile None shared (Some arr)).

Lemma cached_array a arr : iota_ok a -> ToArray a = OK arr ->
  array_ok (dims a) arr /\ forall ix, Forall2 digit (dims a) ix -> get arr ix = value_at a ix.
Proof. intros Ha HT. destruct (ToArray_ok a Ha) as (arr' & HT' & Hok). rewrite HT in HT'. by injection HT' as <-. Qed.

Lemma tile_ok_dims ds t : tile_ok ds t -> tile_dimensions t = OK ds /\ ds <> [] /\ Forall (fun d => 0 < d) ds /\ prod ds < two31.
Proof.
  destruct 1 as [a Ha <-|a arr Ha <- HT|arr shared Hne Hok Hs].
  - split; [done|]. destruct Ha as [Hd Hne _ Hpr Hs]. split; [done|]. split; [done|congruence].
  - destruct (cached_array a arr Ha HT) as [Hok _]. destruct Ha as [Hd Hne _ Hpr Hs]. unfold tile_dimensions, on_tile, dimensions. simpl.
    rewrite (ao_sizes _ _ Hok). split; [done|]. split; [done|]. split; [done|congruence].
  - unfold tile_dimensions, on_tile, dimensions. simpl. rewrite (ao_sizes _ _ Hok). split; [done|]. split; [done|]. split; [apply Hok|done].
Qed.

(** The array of an assignment: every format materializes to it. *)
Lemma array_ok_of ds t : tile_ok ds t -> exists arr t', array t = OK (arr, t') /\ tile_ok ds t' /\ iota_ t' = iota_ t /\ array_ok ds arr /\
  forall ix, Forall2 digit ds ix -> tile_value t ix = get arr ix /\ tile_value t' ix = tile_value t ix.
Proof.
  unfold array, MaybeMaterializeFullArray. destruct 1 as [a Ha <-|a arr Ha <- HT|arr shared Hne Hok Hs]; simpl.
  - destruct (ToArray_ok a Ha) as (arr & HT & Hok & Hget). rewrite HT. simpl. eexists _, _. split; [done|].
    split; [by apply tile_cached|]. split; [done|]. split; [done|]. intros ix Hix. unfold tile_value, on_tile. simpl. by rewrite Hget.
  - destruct (cached_array a arr Ha HT) as [Hok Hget]. eexists _, _. split; [done|]. split; [by apply tile_cached|]. done.
  - eexists _, _. split; [done|]. split; [by apply tile_array|]. done.
Qed.

Lemma iota_tile_value ds t a ix : tile_ok ds t -> iota_ t = Some a -> Forall2 digit ds ix -> tile_value t ix = value_at a ix.
Proof.
  destruct 1 as [b Hb <-|b arr Hb <- HT|arr shared Hne Hok Hs]; simpl; [| |done].
  - by intros [= ->].
  - intros [= ->] Hix. destruct (cached_array a arr Hb HT) as [_ Hget]. unfold tile_value, on_tile. simpl. by apply Hget.
Qed.

Lemma iota_tile_ok ds t a : tile_ok ds t -> iota_ t = Some a -> iota_ok a /\ dims a = ds.
Proof. destruct 1; simpl; intros [= ->]; done. Qed.

(** ** Equality *)

Lemma array_eq_spec ds es (x y : Array Z) : array_ok ds x -> array_ok es y ->
  array_eq x y = true <-> ds = es /\ forall ix, Forall2 digit ds ix -> get x ix = get y ix.
Proof.
  intros Hx Hy. unfold array_eq. rewrite andb_true_iff, !bool_decide_eq_true, (ao_sizes _ _ Hx), (ao_sizes _ _ Hy). split.
  - intros [<- Hv]. split; [done|]. intros ix Hix. assert (x = y) as -> by (destruct x, y, Hx, Hy; simpl in *; congruence). done.
  - intros [<- Hg]. split; [done|]. apply list_eq. intros k. destruct (decide (Z.of_nat k < prod ds)) as [Hk|Hk].
    + destruct (rm_digits ds (Z.of_nat k) (ao_pos _ _ Hx)) as (ix & Hix & E); [lia|]. specialize (Hg ix Hix).
      destruct (get_ok _ _ Hx ix Hix) as (v & Hv & Hlv). destruct (get_ok _ _ Hy ix Hix) as (w & Hw & Hlw).
      rewrite E, Nat2Z.id in Hlv, Hlw. congruence.
    + pose proof (ao_values _ _ Hx) as Hlx. pose proof (ao_values _ _ Hy) as Hly. unfold Zlen in *. rewrite !lookup_ge_None_2 by lia. done.
Qed.

Lemma tile_eq_ok (ds es : list Z) (s t : TileAssignment) (Hs : tile_ok ds s) (Ht : tile_ok es t) :
  exists r s' t', tile_eq s t = OK (r, s', t') /\ tile_ok ds s' /\ tile_ok es t' /\
    (r = true <-> ds = es /\ forall ix, Forall2 digit ds ix -> tile_value s ix = tile_value t ix).
Proof.
  assert (Hiff : forall (r : bool) (f g : list Z -> outcome Z),
    (forall ix, Forall2 digit ds ix -> tile_value s ix = f ix) -> (forall ix, Forall2 digit es ix -> tile_value t ix = g ix) ->
    (r = true <-> ds = es /\ forall ix, Forall2 digit ds ix -> f ix = g ix) ->
    (r = true <-> ds = es /\ forall ix, Forall2 digit ds ix -> tile_value s ix = tile_value t ix)).
  { intros r f g Hf Hg ->. split; intros [<- Hv]; (split; [done|]); intros ix Hix; specialize (Hv ix Hix);
      rewrite Hf, Hg in * by done; done. }
  assert (Harr : exists r s' t', ('(x, a) ← array s; '(y, b) ← array t; OK (array_eq x y, a, b)) = OK (r, s', t') /\ tile_ok ds s' /\ tile_ok es t' /\
    (r = true <-> ds = es /\ forall ix, Forall2 digit ds ix -> tile_value s ix = tile_value t ix)).
  { destruct (array_ok_of ds s Hs) as (x & s' & -> & Hs' & _ & Hx & Hvx), (array_ok_of es t Ht) as (y & t' & -> & Ht' & _ & Hy & Hvy).
    cbn [mbind outcome_bind]. exists (array_eq x y), s', t'. split; [done|]. split; [done|]. split; [done|].
    apply (Hiff _ (get x) (get y)); [intros; by apply Hvx|intros; by apply Hvy|by apply array_eq_spec]. }
  unfold tile_eq. destruct (iota_ s) as [a|] eqn:Ea; [|exact Harr]. destruct (iota_ t) as [b|] eqn:Eb; [|exact Harr].
  exists (iota_eq a b), s, t. split; [done|]. split; [done|]. split; [done|].
  destruct (iota_tile_ok ds s a Hs Ea) as [Ha Hda], (iota_tile_ok es t b Ht Eb) as [Hb Hdb].
  apply (Hiff _ (value_at a) (value_at b)); [intros; by apply (iota_tile_value ds)|intros; by apply (iota_tile_value es)|].
  rewrite <- Hda, <- Hdb. by apply iota_eq_values.
Qed.

(** C26: two tile assignments, whatever their formats and whether or not their arrays are
    materialized, compare equal exactly when they have the same sizes and the same device
    at every index; the comparison leaves both assignments what they are. *)
Theorem tile_eq_correct (ds es : list Z) (s t : TileAssignment) (Hs : tile_ok ds s) (Ht : tile_ok es t) :
  exists r s' t', tile_eq s t = OK (r, s', t') /\ tile_ok ds s' /\ tile_ok es t' /\
    (r = true <-> ds = es /\ forall ix, Forall2 digit ds ix -> tile_value s ix = tile_value t ix).
Proof. by apply tile_eq_ok. Qed.

(** ** Transposition *)

Lemma array_same_order ds (arr : Array Z) perm ix : array_ok ds arr -> is_perm perm -> length perm = length ds -> keeps_order ds perm ->
  sel ds perm = ds -> Forall2 digit ds ix -> get arr (sel ix perm) = get arr ix.
Proof.
  intros Harr Hp Hl Hk Hd Hix. pose proof (sel_digits _ _ perm Hix (perm_in_range _ _ Hp Hl)) as Hy. rewrite Hd in Hy.
  destruct (get_ok _ _ Harr ix Hix) as (v & -> & Hv), (get_ok _ _ Harr _ Hy) as (w & -> & Hw). f_equal.
  pose proof (keeps_order_rm ds perm ix Hp Hl Hk Hix) as E. rewrite Hd in E. rewrite E in Hw. congruence.
Qed.

(** C5: transposing a tile assignment gives, for every format and on every path (nothing to
    do, a transposed iota, or a transposed copy of the materialized array where the iota
    cannot be regrouped), an assignment of the permuted sizes with the same devices: the
    device at the permuted index is the device of the index. *)
Theorem tile_Transpose_correct (ds perm : list Z) (t : TileAssignment) (Ht : tile_ok ds t) (Hp : is_perm perm)
    (Hl : length perm = length ds) (Hsm : prod ds < factor_bound) :
  exists u t', tile_Transpose t perm = OK (u, t') /\ tile_ok (sel ds perm) u /\ tile_ok ds t' /\
    forall ix, Forall2 digit ds ix -> tile_value u (sel ix perm) = tile_value t ix /\ tile_value t' ix = tile_value t ix.
Proof.
  destruct (tile_ok_dims ds t Ht) as (Hd & Hne & Hpos & Hs31). unfold tile_Transpose. rewrite Hd. cbn [mbind outcome_bind].
  destruct (GetTransposeKind_ok ds perm Hp Hl) as (K & -> & HK1 & HK2). cbn [mbind outcome_bind].
  destruct (array_ok_of ds t Ht) as (arr & t' & Harr & Ht' & Hi' & Hok & Hval). case_bool_decide as Hnoop.
  { exists t, t. specialize (HK1 ltac:(by rewrite Hnoop)). specialize (HK2 Hnoop). pose proof (noop_dims ds perm Hp Hl HK1 HK2) as Eds.
    split; [done|]. split; [by rewrite Eds|]. split; [done|]. intros ix Hix. split; [|done].
    pose proof (sel_digits _ _ perm Hix (perm_in_range _ _ Hp Hl)) as Hy. rewrite Eds in Hy.
    destruct (Hval ix Hix) as [-> _], (Hval _ Hy) as [-> _]. by apply (array_same_order ds). }
  assert (Hcopy : exists u t', ('(cloned, t) ← array t; cloned ← TransposeDimensions perm cloned; OK (tile_of_array cloned, t)) = OK (u, t') /\
    tile_ok (sel ds perm) u /\ tile_ok ds t' /\
    forall ix, Forall2 digit ds ix -> tile_value u (sel ix perm) = tile_value t ix /\ tile_value t' ix = tile_value t ix).
  { rewrite Harr. cbn [mbind outcome_bind]. destruct (TransposeDimensions_ok ds perm arr Hok Hp Hl) as (b & -> & Hb & Hget). cbn [mbind outcome_bind].
    exists (tile_of_array b), t'. split; [done|]. split.
    { apply tile_array; [|done|by rewrite (prod_perm _ _ (sel_perm _ _ Hp Hl))]. intros E. apply (f_equal length) in E. rewrite length_sel, Hl in E. by destruct ds. }
    split; [done|]. intros ix Hix. destruct (Hval ix Hix) as [Hv Hv']. split; [|done]. rewrite Hv. by apply Hget. }
  destruct (iota_ t) as [a|] eqn:Ea; [|exact Hcopy]. destruct (iota_tile_ok ds t a Ht Ea) as [Ha Hda].
  destruct (Transpose_ok a perm Ha Hp) as (r & -> & Hr); [congruence|congruence|]. cbn [mbind outcome_bind].
  destruct r as [u|]; [|exact Hcopy]. destruct (Hr u eq_refl) as (Hu & Hdu & Hvu). exists (tile_of_iota u), t. split; [done|].
  split; [apply tile_iota; [done|congruence]|]. split; [done|]. intros ix Hix. split; [|done].
  rewrite (iota_tile_value ds t a) by done. apply Hvu. congruence.
Qed.

(** ** Reshaping *)

Lemma tile_Reshape_ok ds es t : tile_ok ds t -> Forall (fun d => 0 < d) es -> es <> [] -> prod es = prod ds ->
  exists u t', tile_Reshape t es = OK (u, t') /\ tile_ok es u /\ tile_ok ds t' /\
    forall ix iy, Forall2 digit ds ix -> Forall2 digit es iy -> rm ds ix = rm es iy -> tile_value u iy = tile_value t ix.
Proof.
  intros Ht Hes Hne Hpr. destruct (tile_ok_dims ds t Ht) as (Hd & _ & Hpos & Hs31). unfold tile_Reshape.
  destruct (iota_ t) as [a|] eqn:Ea.
  - destruct (iota_tile_ok ds t a Ht Ea) as [Ha Hda]. rewrite iota_num_elements_ok, Hda by done.
    rewrite Product_ok by (done || (unfold two31 in Hs31; z64; lia)). rewrite Hpr, Z.eqb_refl. cbn [check mbind outcome_bind].
    eexists _, _. split; [done|].
    assert (Hu : iota_ok (mkIota es (reshape_dims a) (transpose_perm a))) by (destruct Ha; split; simpl in *; [done|done|done|congruence|done]).
    split; [by apply tile_iota|]. split; [done|]. intros ix iy Hix Hiy E. rewrite (iota_tile_value ds t a ix) by done.
    unfold tile_value, on_tile. simpl. rewrite !value_at_ok by (done || congruence). simpl. rewrite Hda, E. done.
  - destruct (array_ok_of ds t Ht) as (arr & t' & -> & Ht' & _ & Hok & Hval). cbn [mbind outcome_bind]. unfold Reshape, num_elements.
    rewrite Product_ok by (done || (unfold two31 in Hs31; z64; lia)). rewrite (ao_values _ _ Hok), Hpr, Z.eqb_refl. cbn [check mbind outcome_bind].
    assert (Hr : array_ok es (mkArray es (values_ arr))) by (split; [done|done|simpl; rewrite (ao_values _ _ Hok); done|rewrite Hpr; apply Hok]).
    eexists _, _. split; [done|]. split; [apply tile_array; [done|done|congruence]|]. split; [done|]. intros ix iy Hix Hiy E.
    destruct (Hval ix Hix) as [-> _]. unfold tile_value, on_tile. simpl.
    destruct (get_ok _ _ Hr iy Hiy) as (v & -> & Hv), (get_ok _ _ Hok ix Hix) as (w & -> & Hw). simpl in Hv. rewrite E in Hw. congruence.
Qed.

(** ** Devices *)

Lemma UsesDevice_ok ds t device : tile_ok ds t -> 0 <= device ->
  exists r t', UsesDevice t device = OK (r, t') /\ tile_ok ds t' /\
    (r = true <-> exists ix, Forall2 digit ds ix /\ tile_value t ix = OK device).
Proof.
  intros Ht Hdev. unfold UsesDevice. destruct (iota_ t) as [a|] eqn:Ea.
  - destruct (iota_tile_ok ds t a Ht Ea) as [Ha Hda]. exists (device <? iota_num_elements a), t. split; [done|]. split; [done|].
    destruct (value_at_each_device a Ha) as [Hrange Hall]. rewrite Z.ltb_lt. split.
    + intros Hlt. destruct (Hall device) as (ix & Hix & Hv & _); [lia|]. exists ix. rewrite Hda in Hix. split; [done|].
      by rewrite (iota_tile_value ds t a).
    + intros (ix & Hix & Hv). rewrite (iota_tile_value ds t a) in Hv by done. rewrite <- Hda in Hix.
      destruct (Hrange ix Hix) as (v & Hv' & Hlt). rewrite Hv in Hv'. injection Hv' as <-. lia.
  - destruct (array_ok_of ds t Ht) as (arr & t' & -> & Ht' & _ & Hok & Hval). cbn [mbind outcome_bind].
    eexists _, t'. split; [done|]. split; [done|]. rewrite bool_decide_eq_true. split.
    + intros [k Hk]%list_elem_of_lookup. pose proof (lookup_lt_Some _ _ _ Hk) as Hlt. pose proof (ao_values _ _ Hok) as Hlv. unfold Zlen in Hlv.
      destruct (rm_digits ds (Z.of_nat k) (ao_pos _ _ Hok)) as (ix & Hix & E); [lia|]. exists ix. split; [done|].
      destruct (Hval ix Hix) as [-> _]. destruct (get_ok _ _ Hok ix Hix) as (v & -> & Hv). rewrite E, Nat2Z.id in Hv. congruence.
    + intros (ix & Hix & Hv). destruct (Hval ix Hix) as [E _]. rewrite E in Hv. destruct (get_ok _ _ Hok ix Hix) as (w & Hw & Hlw).
      rewrite Hv in Hw. injection Hw as <-. by eapply list_elem_of_lookup_2.
Qed.

(** The two formats of the same assignment disagree on a negative device. *)
Lemma UsesDevice_negative :
  let iota := tile_of_dims [2; 2] in
  let full := tile_of_array (mkArray [2; 2] [0; 1; 2; 3]) in
  (x ← tile_eq iota full; OK (x.1.1)) = OK true /\
  (x ← UsesDevice iota (-1); OK (x.1)) = OK true /\ (x ← UsesDevice full (-1); OK (x.1)) = OK false.
Proof. vm_compute. split; [reflexivity|]. split; reflexivity. Qed.

Lemma first_ok ds t : tile_ok ds t -> first t = tile_value t (replicate (length ds) 0).
Proof.
  intros Ht. destruct (tile_ok_dims ds t Ht) as (_ & Hne & Hpos & _).
  assert (Hz : Forall2 digit ds (replicate (length ds) 0)) by (clear -Hpos; induction Hpos; simpl; constructor; [by unfold digit; lia|done]).
  assert (Hz0 : rm ds (replicate (length ds) 0) = 0) by (rewrite rm_strides by (by rewrite length_replicate); apply dot_zeros; by apply Forall_replicate).
  assert (Harr : forall arr : Array Z, array_ok ds arr -> at_ (values_ arr) 0 = get arr (replicate (length ds) 0)).
  { intros arr Hok. destruct (get_ok _ _ Hok _ Hz) as (v & -> & Hv). rewrite Hz0 in Hv. apply at_OK, idx_Some. split; [lia|done]. }
  destruct Ht as [a Ha <-|a arr Ha <- HT|arr shared _ Hok _]; unfold first, tile_value, on_tile; simpl.
  - destruct (iota_layout_size a Ha) as [Hp Hs]. by rewrite value_at_ok, Hz0, val_zero.
  - destruct (cached_array a arr Ha HT) as [Hok _]. by apply Harr.
  - by apply Harr.
Qed.

(** ** Examples *)

Lemma example_iota_ok : tile_ok [3; 2] (tile_of_iota (mkIota [3; 2] [2; 3] [1; 0])).
Proof.
  apply tile_iota; [|reflexivity]. split; cbn [dims reshape_dims transpose_perm]; [repeat constructor|done| |reflexivity|by vm_compute].
  left. split; [|done]. split; [|reflexivity|repeat constructor|].
  - apply IsPermutation_iff. by vm_compute.
  - intros [|[|t]] x y Hx Hy; simplify_eq/=; lia.
Defined.

Lemma example_array_ok : tile_ok [3; 2] (tile_of_array (mkArray [3; 2] [0; 3; 1; 4; 2; 5])).
Proof. apply tile_array; [done| |by vm_compute]. split; [done|repeat constructor|done|by vm_compute]. Defined.

Lemma tile_eq_correct_witness :
  exists s t, tile_eq (tile_of_iota (mkIota [3; 2] [2; 3] [1; 0])) (tile_of_array (mkArray [3; 2] [0; 3; 1; 4; 2; 5])) = OK (true, s, t) /\
    forall ix, Forall2 digit [3; 2] ix ->
      tile_value (tile_of_iota (mkIota [3; 2] [2; 3] [1; 0])) ix = tile_value (tile_of_array (mkArray [3; 2] [0; 3; 1; 4; 2; 5])) ix.
Proof.
  destruct (tile_eq_correct _ _ _ _ example_iota_ok example_array_ok) as (r & s & t & E & _ & _ & Hr).
  assert (Er : r = true) by (vm_compute in E; injection E; done). subst r. exists s, t. split; [exact E|]. by apply Hr.
Defined.

Lemma tile_Transpose_correct_witness :
  exists u t, tile_Transpose (tile_of_iota (mkIota [3; 2] [2; 3] [1; 0])) [1; 0] = OK (u, t) /\
    tile_value u [1; 2] = OK 5 /\ tile_value (tile_of_iota (mkIota [3; 2] [2; 3] [1; 0])) [2; 1] = OK 5.
Proof.
  destruct (tile_Transpose_correct [3; 2] [1; 0] _ example_iota_ok) as (u & t & E & _ & _ & Hv).
  - apply IsPermutation_iff. by vm_compute.
  - reflexivity.
  - by vm_compute.
  - exists u, t. split; [exact E|]. destruct (Hv [2; 1]) as [Hv' _]; [repeat constructor; unfold digit; lia|].
    change (sel [2; 1] [1; 0]) with [1; 2] in Hv'. split; [rewrite Hv'|]; vm_compute; reflexivity.
Defined.
