(* ===== verification/HloSharding.v ===== *)
(** * Shardings: the data and operations of xla/hlo/ir/hlo_sharding.{h,cc}

    An HloSharding says how the parts of an array are distributed over devices, or, for a
    tuple, has one sharding for every leaf of its shape.  Operations of a tiled sharding
    that materialize its tile assignment return the sharding with the cache filled; a
    comparison and the constructors return only their result.  The type of the
    metadata, which no operation inspects, is a parameter.  A ShapeTree is the list of
    its leaves, in pre-order.  Conversion to a string, hashing, the construction from a
    ShapeTree and the constructor for tests are not modelled. *)

From S2P Require Import Prelude MachineInt Primitive Shape IndexUtil MathUtil Util SlicePermutation Arrays TileAssignment.

(** ** The message of xla_data.proto *)

Module OpSharding.
Inductive OpShardingType := REPLICATED | MAXIMAL | TUPLE | OTHER | MANUAL | UNKNOWN | UNREDUCED.
Inductive ShardGroupType := AS | LIKE.
End OpSharding.
Abbreviation OpShardingType := OpSharding.OpShardingType.

#[export] Instance OpShardingType_eq_dec : EqDecision OpShardingType.
Proof. solve_decision. Defined.

(** The number of a type, the index in an array over the types. *)
Definition type_number (t : OpShardingType) : Z :=
  match t with
  | OpSharding.REPLICATED => 0 | OpSharding.MAXIMAL => 1 | OpSharding.TUPLE => 2 | OpSharding.OTHER => 3
  | OpSharding.MANUAL => 4 | OpSharding.UNKNOWN => 5 | OpSharding.UNREDUCED => 6
  end.

Inductive OpShardingProto (OpMetadata : Type) := mkOpSharding {
  type : OpShardingType;
  tile_assignment_dimensions : list Z;
  tile_assignment_devices : list Z;
  tuple_shardings : list (OpShardingProto OpMetadata);
  replicate_on_last_tile_dim : bool;
  metadata : list OpMetadata;
  last_tile_dims : list OpShardingType;
  iota_reshape_dims : list Z;
  iota_transpose_perm : list Z;
  is_shard_group : bool;
  shard_group_id : Z;
  shard_group_type : OpSharding.ShardGroupType;
}.
Arguments mkOpSharding {OpMetadata}.
Arguments type {OpMetadata}.
Arguments tile_assignment_dimensions {OpMetadata}.
Arguments tile_assignment_devices {OpMetadata}.
Arguments tuple_shardings {OpMetadata}.
Arguments replicate_on_last_tile_dim {OpMetadata}.
Arguments metadata {OpMetadata}.
Arguments last_tile_dims {OpMetadata}.
Arguments iota_reshape_dims {OpMetadata}.
Arguments iota_transpose_perm {OpMetadata}.
Arguments is_shard_group {OpMetadata}.
Arguments shard_group_id {OpMetadata}.
Arguments shard_group_type {OpMetadata}.

(** ** The class *)

Record ShardGroup := mkShardGroup { sg_id : Z; shard_as : bool; shard_like : bool }.

#[export] Instance ShardGroup_eq_dec : EqDecision ShardGroup.
Proof. solve_decision. Defined.

Definition NotShardGroup : ShardGroup := mkShardGroup (-1) false false.
Definition ShardAs (id : Z) : ShardGroup := mkShardGroup id true false.
Definition ShardLike (id : Z) : ShardGroup := mkShardGroup id false true.

Inductive HloSharding (OpMetadata : Type) := mkSharding {
  tile_assignment_ : TileAssignment;
  tuple_elements_ : list (HloSharding OpMetadata);
  metadata_ : list OpMetadata;
  subgroup_types_ : list OpShardingType;
  replicated_ : bool;
  maximal_ : bool;
  tuple_ : bool;
  manual_ : bool;
  unknown_ : bool;
  unreduced_ : bool;
  replicate_on_last_tile_dim_ : bool;
  shard_group_ : ShardGroup;
}.
Arguments mkSharding {OpMetadata}.
Arguments tile_assignment_ {OpMetadata}.
Arguments tuple_elements_ {OpMetadata}.
Arguments metadata_ {OpMetadata}.
Arguments subgroup_types_ {OpMetadata}.
Arguments replicated_ {OpMetadata}.
Arguments maximal_ {OpMetadata}.
Arguments tuple_ {OpMetadata}.
Arguments manual_ {OpMetadata}.
Arguments unknown_ {OpMetadata}.
Arguments unreduced_ {OpMetadata}.
Arguments replicate_on_last_tile_dim_ {OpMetadata}.
Arguments shard_group_ {OpMetadata}.

(** The leaves of a tuple shape, in pre-order. *)
Fixpoint leaves (s : Shape) : list Shape :=
  match s with TupleShape l => flat_map leaves l | s => [s] end.

Fixpoint GetLeafCount (s : Shape) : Z :=
  match s with
  | TupleShape l => foldl (fun count sub => if Shape.IsTuple sub then count + GetLeafCount sub else count + 1) 0 l
  | _ => 1
  end.

(** The offset of the range of [n] elements from [i] on. *)
Definition subrange {A} (l : list A) (i n : Z) : outcome (list A) :=
  if (0 <=? i) && (i + n <=? Zlen l) then OK (take (Z.to_nat n) (drop (Z.to_nat i) l)) else Crash.

(** A call of the callback of EachTile: the device, the offset and the limit. *)
Abbreviation tile_call := (Z * list Z * list Z)%type.

Section Sharding.
Context {OpMetadata : Type}.
Local Abbreviation HloSharding := (HloSharding OpMetadata).
Local Abbreviation OpShardingProto := (OpShardingProto OpMetadata).
Implicit Types (s : HloSharding) (metadata : list OpMetadata).

(** *** Constructors *)

(** HloSharding(manual, replicated, unknown, unreduced, metadata) *)
Definition new_HloSharding (manual replicated unknown unreduced : bool) metadata : HloSharding :=
  mkSharding new_TileAssignment [] metadata [] replicated replicated false manual unknown unreduced false NotShardGroup.
(** HloSharding(device_id, metadata) *)
Definition new_HloSharding_device (device_id : Z) metadata : HloSharding :=
  mkSharding (tile_of_device device_id) [] metadata [] false true false false false false false NotShardGroup.
(** HloSharding(tile_assignment, replicate_on_last_tile_dim, metadata) *)
Definition new_HloSharding_tile (tile_assignment : TileAssignment) (replicate_on_last_tile_dim : bool) metadata : HloSharding :=
  mkSharding tile_assignment [] metadata [] false false false false false false replicate_on_last_tile_dim NotShardGroup.
(** HloSharding(tile_assignment, subgroup_types, metadata) *)
Definition new_HloSharding_subgroup (tile_assignment : TileAssignment) (subgroup_types : list OpShardingType) metadata : HloSharding :=
  mkSharding tile_assignment [] metadata subgroup_types false false false false false false false NotShardGroup.
(** HloSharding(tuple_shardings) *)
Definition new_HloSharding_tuple (tuple_shardings : list HloSharding) : HloSharding :=
  mkSharding new_TileAssignment tuple_shardings [] [] false false true false false false false NotShardGroup.

Definition SetShardGroup (shard_group : ShardGroup) s : HloSharding :=
  mkSharding (tile_assignment_ s) (tuple_elements_ s) (metadata_ s) (subgroup_types_ s) (replicated_ s) (maximal_ s) (tuple_ s)
    (manual_ s) (unknown_ s) (unreduced_ s) (replicate_on_last_tile_dim_ s) shard_group.
Definition ClearShardGroup s : HloSharding := SetShardGroup NotShardGroup s.
Definition set_subgroups (types : list OpShardingType) (last : bool) s : HloSharding :=
  mkSharding (tile_assignment_ s) (tuple_elements_ s) (metadata_ s) types (replicated_ s) (maximal_ s) (tuple_ s)
    (manual_ s) (unknown_ s) (unreduced_ s) last (shard_group_ s).
Definition set_tile_assignment (t : TileAssignment) s : HloSharding :=
  mkSharding t (tuple_elements_ s) (metadata_ s) (subgroup_types_ s) (replicated_ s) (maximal_ s) (tuple_ s)
    (manual_ s) (unknown_ s) (unreduced_ s) (replicate_on_last_tile_dim_ s) (shard_group_ s).

Definition Replicate metadata : HloSharding := new_HloSharding false true false false metadata.
Definition Manual metadata : HloSharding := new_HloSharding true false false false metadata.
Definition Unknown metadata : HloSharding := new_HloSharding false false true false metadata.
Definition Unreduced metadata : HloSharding := new_HloSharding false false false true metadata.
Definition AssignDevice (device_id : Z) metadata : HloSharding := new_HloSharding_device device_id metadata.
Definition Tile (tile_assignment : TileAssignment) metadata : HloSharding := new_HloSharding_tile tile_assignment false metadata.
Definition Tile_array (tile_assignment : Array Z) metadata : HloSharding := Tile (tile_of_array tile_assignment) metadata.
Definition IotaTile (tile_assignment_dims : list Z) metadata : HloSharding := Tile (tile_of_dims tile_assignment_dims) metadata.
Definition IotaTile_reshape (tile_assignment_dims reshape_dims transpose_perm : list Z) metadata : outcome HloSharding :=
  t ← tile_of_reshape tile_assignment_dims reshape_dims transpose_perm; OK (Tile t metadata).
Definition FlatTuple (sub_shardings : list HloSharding) : HloSharding := new_HloSharding_tuple sub_shardings.

Definition Tile1D (input_shape : Shape) (num_tiles : Z) metadata : outcome HloSharding :=
  r ← Shape.rank input_shape;
  _ ← check (1 =? r);
  _ ← check (1 <? num_tiles);
  t ← tile_of_reshape [num_tiles] [num_tiles] [0]; OK (new_HloSharding_tile t false metadata).

(** *** Predicates *)

Fixpoint IsReplicated s : bool :=
  match s with mkSharding _ els _ _ replicated _ tuple _ _ _ _ _ => if tuple then forallb IsReplicated els else replicated end.
Fixpoint IsTileMaximal s : bool :=
  match s with mkSharding _ els _ _ _ maximal tuple _ _ _ _ _ => if tuple then forallb IsTileMaximal els else maximal end.
Fixpoint IsManual s : bool :=
  match s with mkSharding _ els _ _ _ _ tuple manual _ _ _ _ => if tuple then forallb IsManual els else manual end.
Fixpoint IsUnknown s : bool :=
  match s with mkSharding _ els _ _ _ _ tuple _ unknown _ _ _ => if tuple then forallb IsUnknown els else unknown end.
Fixpoint IsUnreduced s : bool :=
  match s with mkSharding _ els _ _ _ _ tuple _ _ unreduced _ _ => if tuple then forallb IsUnreduced els else unreduced end.
Fixpoint IsShardGroup s : bool :=
  match s with mkSharding _ els _ _ _ _ tuple _ _ _ _ g =>
    if tuple then negb (Nat.eqb (length els) 0) && forallb IsShardGroup els
    else negb (sg_id g =? -1) && (shard_like g || shard_as g)
  end.
Fixpoint IsShardAs s : bool :=
  match s with mkSharding _ els _ _ _ _ tuple _ _ _ _ g =>
    if tuple then negb (Nat.eqb (length els) 0) && forallb IsShardAs els else negb (sg_id g =? -1) && shard_as g
  end.
Fixpoint IsShardLike s : bool :=
  match s with mkSharding _ els _ _ _ _ tuple _ _ _ _ g =>
    if tuple then negb (Nat.eqb (length els) 0) && forallb IsShardLike els else negb (sg_id g =? -1) && shard_like g
  end.
Fixpoint IsManualSubgroup s : bool :=
  match s with mkSharding _ els _ types _ _ tuple _ _ _ _ _ =>
    if tuple then forallb IsManualSubgroup els else bool_decide (OpSharding.MANUAL ∈ types)
  end.
Fixpoint IsUnreducedSubgroup s : bool :=
  match s with mkSharding _ els _ types _ _ tuple _ _ _ _ _ =>
    if tuple then forallb IsUnreducedSubgroup els else bool_decide (OpSharding.UNREDUCED ∈ types)
  end.
Definition IsTuple s : bool := tuple_ s.
Definition IsTiled s : bool := negb (IsTileMaximal s) && negb (IsManual s) && negb (IsUnknown s).
Definition IsTiledLeaf s : bool := negb (maximal_ s) && negb (manual_ s) && negb (unknown_ s).
Definition HasPartialReplication s : bool := replicate_on_last_tile_dim_ s || bool_decide (OpSharding.REPLICATED ∈ subgroup_types_ s).
Definition IsReservedDevice (device : Z) : bool := device <? 0.

(** *** Ranks and subgroup dimensions *)

Definition tiled_rank s : outcome Z :=
  n ← tile_num_dimensions (tile_assignment_ s);
  OK ((if replicate_on_last_tile_dim_ s then n - 1 else n) - Zlen (subgroup_types_ s)).
Definition TiledDataRank s : outcome Z := _ ← check (IsTiled s); tiled_rank s.
Definition TiledDataRankLeaf s : outcome Z := _ ← check (IsTiledLeaf s); tiled_rank s.

Fixpoint find_type (t : OpShardingType) (types : list OpShardingType) : option Z :=
  match types with
  | [] => None
  | u :: types => if bool_decide (u = t) then Some 0 else Z.add 1 <$> find_type t types
  end.

Definition SubgroupDim (t : OpShardingType) s : outcome (option Z) :=
  match find_type t (subgroup_types_ s) with
  | Some i => r ← TiledDataRank s; OK (Some (i + r))
  | None => OK None
  end.
Definition SubgroupReplicationDim s : outcome Z :=
  d ← SubgroupDim OpSharding.REPLICATED s;
  match d with
  | Some d => OK d
  | None => if replicate_on_last_tile_dim_ s then n ← tile_num_dimensions (tile_assignment_ s); OK (n - 1) else OK (-1)
  end.
Definition SubgroupManualDim s : outcome Z := d ← SubgroupDim OpSharding.MANUAL s; OK (default (-1) d).
Definition SubgroupUnreducedDim s : outcome Z := d ← SubgroupDim OpSharding.UNREDUCED s; OK (default (-1) d).

(** *** Partial replication *)

(** The loop over [perm], from its end: the dimensions grouped, and the one to split. *)
Fixpoint group_minor (dims rev_perm : list Z) (group_size grouped_dims : Z) : outcome (option (Z * option (Z * Z))) :=
  match rev_perm with
  | [] => OK (Some (grouped_dims, None))
  | dim :: rev_perm =>
      dim_size ← at_ dims dim;
      if dim_size <=? group_size then
        r ← modulo group_size dim_size;
        if negb (r =? 0) then OK None
        else group_size ← divide group_size dim_size; group_minor dims rev_perm group_size (grouped_dims + 1)
      else
        r ← modulo dim_size group_size;
        if negb (r =? 0) then OK None
        else q ← divide dim_size group_size; OK (Some (grouped_dims + 1, Some (dim, q)))
  end.

Definition sort_last (n : Z) (l : list Z) : list Z :=
  let k := Z.to_nat (Zlen l - n) in take k l ++ c_sort (drop k l).

Fixpoint position (x : Z) (l : list Z) : nat :=
  match l with [] => 0 | y :: l => if x =? y then 0%nat else S (position x l) end.

Definition GroupMinorIotaDimsSorted (dims perm : list Z) (group_size : Z) : outcome (option (list Z * list Z)) :=
  grouped ← group_minor dims (rev perm) group_size 0;
  match grouped with
  | None => OK None
  | Some (grouped_dims, None) => OK (Some (dims, sort_last grouped_dims perm))
  | Some (grouped_dims, Some (split_i, size)) =>
      d ← at_ dims split_i;
      q ← divide d size;
      let new_dims := take (Z.to_nat split_i) dims ++ [size; q] ++ drop (S (Z.to_nat split_i)) dims in
      let renumber perm_dim := if perm_dim <=? split_i then perm_dim else perm_dim + 1 in
      let perm_split := position split_i perm in
      let new_perm := (renumber <$> take (S perm_split) perm) ++ [split_i + 1] ++ (renumber <$> drop (S perm_split) perm) in
      OK (Some (new_dims, sort_last grouped_dims new_perm))
  end.

(** Sort every [group_size] elements. *)
Fixpoint sort_groups (fuel : nat) (group_size : nat) (l : list Z) : outcome (list Z) :=
  match l with
  | [] => OK []
  | _ =>
      match fuel with
      | O => NoFuel
      | S fuel =>
          if (length l <? group_size)%nat then Crash
          else rest ← sort_groups fuel group_size (drop group_size l); OK (c_sort (take group_size l) ++ rest)
      end
  end.

(** The array with its groups of replicas sorted. *)
Definition sorted_tile (t : TileAssignment) (group_size : Z) metadata : outcome HloSharding :=
  '(a, _) ← array t;
  values ← sort_groups (length (values_ a)) (Z.to_nat group_size) (values_ a);
  OK (new_HloSharding_tile (tile_of_array (mkArray (sizes_ a) values)) true metadata).

Definition PartialTile (t : TileAssignment) metadata : outcome HloSharding :=
  num_elements ← tile_num_elements t;
  n ← tile_num_dimensions t;
  ds ← tile_dimensions t;
  replicate ← (if n =? 1 then OK true else back ← at_ ds (n - 1); OK (u64 back =? u64 num_elements));
  if (replicate : bool) then OK (Replicate metadata)
  else
    group_size ← at_ ds (n - 1);
    if group_size =? 1 then
      '(t, _) ← tile_Reshape t (take (Z.to_nat (n - 1)) ds); OK (new_HloSharding_tile t false metadata)
    else
      match iota_ t with
      | Some iota =>
          p ← at_ (transpose_perm iota) (Zlen (transpose_perm iota) - 1);
          d ← at_ (reshape_dims iota) p;
          if d =? group_size then OK (new_HloSharding_tile t true metadata)
          else
            grouped ← GroupMinorIotaDimsSorted (reshape_dims iota) (transpose_perm iota) group_size;
            match grouped with
            | Some (new_reshape_dims, new_transpose_perm) =>
                t ← tile_of_reshape (dims iota) new_reshape_dims new_transpose_perm;
                OK (new_HloSharding_tile t true metadata)
            | None => sorted_tile t group_size metadata
            end
      | None => sorted_tile t group_size metadata
      end.

(** *** Subgroups *)

Definition kOrderedTypes : list OpShardingType :=
  [OpSharding.MAXIMAL; OpSharding.TUPLE; OpSharding.OTHER; OpSharding.MANUAL; OpSharding.UNREDUCED; OpSharding.REPLICATED;
   OpSharding.UNKNOWN].

(** The lambda create_sharding. *)
Definition create_sharding (tiles : TileAssignment) (types : list OpShardingType) metadata : outcome HloSharding :=
  let subgroups :=
    match last types with
    | Some OpSharding.REPLICATED => s ← PartialTile tiles metadata; OK (set_subgroups (subgroup_types_ s ++ types) false s)
    | _ => OK (new_HloSharding_subgroup tiles types metadata)
    end in
  match types with
  | [OpSharding.REPLICATED] => PartialTile tiles metadata
  | [OpSharding.MANUAL] =>
      n ← tile_num_elements tiles; ds ← tile_dimensions tiles; back ← at_ ds (Zlen ds - 1);
      if n =? back then OK (Manual metadata) else subgroups
  | _ => subgroups
  end.

(** The first loop: the dimensions of every type, those removed, the number of types, and
    whether anything has to change. *)
Definition collect_subgroups (t : TileAssignment) (subgroup_types : list OpShardingType) (data_dims : Z) :
    outcome (list (list Z) * list Z * Z * bool) :=
  foldM (fun '(type_to_dims, removed_dims, subgroup_count, needs_merging) i =>
      d ← tile_dim t (i + data_dims);
      if d =? 1 then OK (type_to_dims, removed_dims ++ [i + data_dims], subgroup_count, true)
      else
        ty ← at_ subgroup_types i;
        dims ← at_ type_to_dims (type_number ty);
        type_to_dims ← set_at type_to_dims (type_number ty) (dims ++ [i + data_dims]);
        let first := Nat.eqb (length dims) 0 in
        OK (type_to_dims, removed_dims, if first then subgroup_count + 1 else subgroup_count, needs_merging || negb first))
    (replicate 7 [], [], 0, false) (indices subgroup_types).

(** The loop over the types in order: [perm], the shapes, and the types that occur. *)
Definition merge_types (t : TileAssignment) (type_to_dims : list (list Z)) (perm shape : list Z) :
    outcome (list Z * list Z * list Z * list OpShardingType) :=
  foldM (fun '(perm, merged_shape, transposed_shape, merged_types) ty =>
      dims ← at_ type_to_dims (type_number ty);
      match dims with
      | [] => OK (perm, merged_shape, transposed_shape, merged_types)
      | _ =>
          sizes ← mapM (tile_dim t) dims;
          OK (perm ++ dims, merged_shape ++ [foldl mul64 1 sizes], transposed_shape ++ sizes, merged_types ++ [ty])
      end)
    (perm, shape, shape, []) kOrderedTypes.

(** The array of the merged subgroups. *)
Definition merged_array (t : TileAssignment) (perm transposed_shape merged_shape : list Z) : outcome TileAssignment :=
  n ← tile_num_dimensions t;
  values ← each_index (new_Array transposed_shape) (fun values indices_ i _ =>
      src_indices ← foldM (fun src i => p ← at_ perm i; x ← at_ indices_ i; set_at src p x)
        (replicate (Z.to_nat n) 0) (indices indices_);
      v ← tile_value t src_indices; set_at values i v)
    (values_ (new_Array transposed_shape));
  a ← Reshape merged_shape (mkArray transposed_shape values);
  OK (tile_of_array a).

Definition merged_tile_assignment (t : TileAssignment) (perm removed_dims transposed_shape merged_shape : list Z) : outcome TileAssignment :=
  match iota_ t with
  | Some iota =>
      transposed_iota ← Transpose iota (perm ++ removed_dims);
      match transposed_iota with
      | Some u => tile_of_reshape merged_shape (reshape_dims u) (transpose_perm u)
      | None => merged_array t (perm ++ removed_dims) transposed_shape merged_shape
      end
  | None => merged_array t perm transposed_shape merged_shape
  end.

Definition Subgroup (t : TileAssignment) (subgroup_types : list OpShardingType) metadata : outcome HloSharding :=
  match subgroup_types with
  | [] => OK (new_HloSharding_tile t false metadata)
  | first_type :: _ =>
      n ← tile_num_dimensions t;
      ds ← tile_dimensions t;
      let data_dims := n - Zlen subgroup_types in
      let data_tile_shape := if 0 <=? data_dims then take (Z.to_nat data_dims) ds else ds in
      let trivial :=
        if forallb (fun ty => bool_decide (ty = first_type)) subgroup_types && (Product data_tile_shape =? 1) then
          match first_type with
          | OpSharding.MANUAL => Some (Manual metadata)
          | OpSharding.REPLICATED => Some (Replicate metadata)
          | OpSharding.UNREDUCED => Some (Unreduced metadata)
          | _ => None
          end
        else None in
      match trivial with
      | Some s => OK s
      | None =>
          _ ← check (0 <=? data_dims);
          '(type_to_dims, removed_dims, subgroup_count, needs_merging) ← collect_subgroups t subgroup_types data_dims;
          if needs_merging || (1 <? subgroup_count) then
            '(perm, merged_shape, transposed_shape, merged_types) ← merge_types t type_to_dims (seqZ 0 data_dims) data_tile_shape;
            new_tile_assignment ← merged_tile_assignment t perm removed_dims transposed_shape merged_shape;
            create_sharding new_tile_assignment merged_types metadata
          else create_sharding t subgroup_types metadata
      end
  end.

(** *** Tiles and devices *)

Definition first_device s : outcome Z := '(a, _) ← array (tile_assignment_ s); at_ (values_ a) 0.

Fixpoint UsesDevice s (device : Z) : outcome bool :=
  match s with
  | mkSharding t els _ _ replicated _ tuple manual _ _ _ _ =>
      if tuple then
        (fix any (els : list HloSharding) : outcome bool :=
          match els with [] => OK false | e :: els => u ← UsesDevice e device; if (u : bool) then OK true else any els end) els
      else if replicated || manual then OK true
      else '(u, _) ← TileAssignment.UsesDevice t device; OK u
  end.

Fixpoint UniqueDevice s : outcome (option Z) :=
  match s with
  | mkSharding t els _ _ replicated maximal tuple _ _ _ _ _ =>
      if tuple then
        (fix all (els : list HloSharding) (unique_device : option Z) : outcome (option Z) :=
          match els with
          | [] => OK unique_device
          | e :: els =>
              device ← UniqueDevice e;
              match device, unique_device with
              | None, _ => OK None
              | Some d, Some u => if negb (d =? u) then OK None else all els (Some d)
              | Some d, None => all els (Some d)
              end
          end) els None
      else if negb replicated && maximal then '(a, _) ← array t; d ← at_ (values_ a) 0; OK (Some d)
      else OK None
  end.
Definition GetUniqueDevice s : outcome Z :=
  device ← UniqueDevice s; match device with Some d => OK d | None => Crash end.
Definition HasUniqueDevice s : outcome bool := device ← UniqueDevice s; OK (bool_decide (is_Some device)).

(** The map of the devices, and the count. *)
Definition UsedDevices s : outcome (gmap Z Z * Z) :=
  if IsTuple s then
    device_map ← foldM (fun (device_map : gmap Z Z) e =>
        device ← UniqueDevice e;
        OK (match device with Some d => <[d := default 0 (device_map !! d) + 1]> device_map | None => device_map end))
      ∅ (tuple_elements_ s);
    OK (device_map, Zlen (tuple_elements_ s))
  else
    device ← UniqueDevice s;
    OK (match device with Some d => {[d := 1]} | None => ∅ end, 1).

Definition resize (k : Z) (l : list Z) : outcome (list Z) :=
  if k <? 0 then Crash else OK (take (Z.to_nat k) l ++ replicate (Z.to_nat k - length l) 0).

Definition TileIndexForDevice s (device : Z) : outcome (list Z * HloSharding) :=
  _ ← check (negb (maximal_ s));
  _ ← check (negb (IsManual s));
  _ ← check (negb (IsUnknown s));
  _ ← check (negb (IsTuple s));
  '(calls, t) ← tile_Each (tile_assignment_ s);
  let ret_index := foldl (fun ret '(index, d) => if d =? device then index else ret) [] calls in
  _ ← check (negb (bool_decide (ret_index = [])));
  k ← TiledDataRank s;
  ret_index ← resize k ret_index;
  OK (ret_index, set_tile_assignment t s).

Definition DeviceForTileIndex s (index : list Z) : outcome Z :=
  _ ← check (negb (replicated_ s));
  _ ← check (negb (IsManual s));
  _ ← check (negb (IsUnknown s));
  _ ← check (negb (IsTuple s));
  if maximal_ s then first_device s
  else
    k ← TiledDataRank s;
    n ← tile_num_dimensions (tile_assignment_ s);
    if (Zlen index =? k) && (Zlen index <? n)
    then tile_value (tile_assignment_ s) (index ++ replicate (Z.to_nat (n - Zlen index)) 0)
    else tile_value (tile_assignment_ s) index.

(** One bound of a tile: [min (x * CeilOfRatio (shape_dim, tile_assignment_.dim (i)), shape_dim)]. *)
Definition tile_bound s (x i shape_dim : Z) : outcome Z :=
  d ← tile_dim (tile_assignment_ s) i;
  c ← CeilOfRatio shape_dim d;
  OK (Z.min (mul64 x c) shape_dim).

Definition tile_bounds s (shape : Shape) (f : Z -> Z) (index : list Z) : outcome (list Z) :=
  mapM (fun i => x ← at_ index i; shape_dim ← Shape.dimension shape i; tile_bound s (f x) i shape_dim) (indices index).

Definition TileOffsetForDevice s (shape : Shape) (device : Z) : outcome (list Z * HloSharding) :=
  _ ← check (negb (IsTuple s));
  _ ← check (negb (IsManual s));
  _ ← check (negb (IsUnknown s));
  if maximal_ s then r ← Shape.rank shape; OK (replicate (Z.to_nat r) 0, s)
  else
    r ← Shape.rank shape;
    k ← TiledDataRank s;
    _ ← check (r =? k);
    '(index, s) ← TileIndexForDevice s device;
    offset ← tile_bounds s shape (fun x => x) index;
    OK (offset, s).

Definition TileLimitForDevice s (shape : Shape) (device : Z) : outcome (list Z * HloSharding) :=
  _ ← check (negb (IsTuple s));
  _ ← check (negb (IsManual s));
  _ ← check (negb (IsUnknown s));
  if maximal_ s then ds ← Shape.dimensions shape; OK (ds, s)
  else
    r ← Shape.rank shape;
    k ← TiledDataRank s;
    _ ← check (r =? k);
    '(index, s) ← TileIndexForDevice s device;
    limit ← tile_bounds s shape (fun x => add64 x 1) index;
    OK (limit, s).

(** [n] is [i + 1]. *)
Fixpoint NextIndex_from (index limit : list Z) (n : nat) : outcome (list Z * bool) :=
  match n with
  | O => OK (index, false)
  | S i =>
      x ← at_ index (Z.of_nat i);
      l ← at_ limit (Z.of_nat i);
      let x := add64 x 1 in
      if x <? l then index ← set_at index (Z.of_nat i) x; OK (index, true)
      else index ← set_at index (Z.of_nat i) 0; NextIndex_from index limit i
  end.
Definition NextIndex (index limit : list Z) : outcome (list Z * bool) := NextIndex_from index limit (length index).

(** The replicas of one tile: the calls, the next position, and whether all devices were in range. *)
Fixpoint each_replica (num_replicas : nat) (devices : list Z) (num_devices : Z) (tile_offset tile_limit : list Z)
    (calls : list tile_call) (flat_tile_index : Z) : outcome (list tile_call * Z * bool) :=
  match num_replicas with
  | O => OK (calls, flat_tile_index, true)
  | S num_replicas =>
      _ ← check (flat_tile_index <? num_devices);
      device_id ← at_ devices flat_tile_index;
      if (device_id <? 0) || (num_devices <=? device_id) then OK (calls, flat_tile_index, false)
      else each_replica num_replicas devices num_devices tile_offset tile_limit (calls ++ [(device_id, tile_offset, tile_limit)])
             (flat_tile_index + 1)
  end.

(** The loop over the tiles: the calls, and the status. *)
Fixpoint each_tile_loop (fuel : nat) (dims tile_dims tile_assignment_dims devices : list Z) (num_devices num_replicas : Z)
    (unique_tile_index : list Z) (calls : list tile_call) (flat_tile_index : Z) : outcome (list tile_call * outcome ()) :=
  match fuel with
  | O => NoFuel
  | S fuel =>
      tile_offset ← mapM (fun i =>
          t ← at_ tile_dims i; x ← at_ unique_tile_index i; d ← at_ dims i; OK (Z.min (mul64 t x) d)) (indices dims);
      tile_limit ← mapM (fun i =>
          t ← at_ tile_dims i; x ← at_ unique_tile_index i; d ← at_ dims i; OK (Z.min (mul64 t (add64 x 1)) d)) (indices dims);
      '(calls, flat_tile_index, in_range) ←
        each_replica (Z.to_nat num_replicas) devices num_devices tile_offset tile_limit calls flat_tile_index;
      if negb in_range then OK (calls, Err kInvalidArgument)
      else
        '(unique_tile_index, more) ← NextIndex unique_tile_index tile_assignment_dims;
        if (more : bool)
        then each_tile_loop fuel dims tile_dims tile_assignment_dims devices num_devices num_replicas unique_tile_index calls flat_tile_index
        else OK (calls, OK ())
  end.

Definition EachTile s (dims : list Z) : outcome (list tile_call * outcome () * HloSharding) :=
  _ ← check (negb (IsTuple s));
  _ ← check (negb (IsManual s));
  _ ← check (negb (IsUnknown s));
  _ ← check (negb (maximal_ s));
  tile_assignment_dims ← tile_dimensions (tile_assignment_ s);
  '(a, t) ← array (tile_assignment_ s);
  let s := set_tile_assignment t s in
  let num_devices := i32 (num_elements a) in
  k ← TiledDataRank s;
  if negb (Zlen dims =? k) then OK ([], Err kInvalidArgument, s)
  else
    tile_dims ← mapM (fun i => d ← at_ dims i; n ← at_ tile_assignment_dims i; CeilOfRatio d n) (indices dims);
    replication_dim ← SubgroupReplicationDim s;
    num_replicas ← (if replication_dim =? -1 then OK 1 else at_ tile_assignment_dims replication_dim);
    '(calls, status) ← each_tile_loop (S (length (values_ a))) dims tile_dims tile_assignment_dims (values_ a) num_devices num_replicas
        (replicate (length dims) 0) [] 0;
    OK (calls, status, s).

(** *** Tile shapes *)

Definition unpartitioned s : bool := IsTileMaximal s || IsManual s || IsUnreduced s || IsUnknown s.

Definition TileShape s (shape : Shape) : outcome Shape :=
  if unpartitioned s then OK shape
  else
    k ← TiledDataRank s;
    foldM (fun result_shape i =>
        x ← Shape.dimension shape i;
        d ← tile_dim (tile_assignment_ s) i;
        c ← CeilOfRatio x d;
        set_dimensions result_shape i c None)
      shape (seqZ 0 k).

Definition TileShape_device s (shape : Shape) (device : Z) : outcome (Shape * HloSharding) :=
  if unpartitioned s then OK (shape, s)
  else
    '(index, s) ← TileIndexForDevice s device;
    result_shape ← foldM (fun result_shape i =>
        x ← at_ index i;
        shape_dim ← Shape.dimension shape i;
        offset ← tile_bound s x i shape_dim;
        limit ← tile_bound s (add64 x 1) i shape_dim;
        set_dimensions result_shape i (sub64 limit offset) None)
      shape (indices index);
    OK (result_shape, s).

Definition TotalNumTiles s : outcome Z :=
  if IsTileMaximal s then OK 1
  else
    _ ← check (negb (IsManual s));
    _ ← check (negb (IsUnknown s));
    ds ← tile_dimensions (tile_assignment_ s); OK (Product ds).

Definition NumTiles s : outcome Z :=
  if IsTileMaximal s then OK 1
  else
    _ ← check (negb (IsManual s));
    _ ← check (negb (IsUnknown s));
    ds ← tile_dimensions (tile_assignment_ s);
    k ← TiledDataRank s;
    OK (Product (if 0 <=? k then take (Z.to_nat k) ds else ds)).

Definition NumTilesLeaf s : outcome Z :=
  if maximal_ s then OK 1
  else
    _ ← check (negb (manual_ s) && negb (unknown_ s));
    ds ← tile_dimensions (tile_assignment_ s);
    k ← TiledDataRankLeaf s;
    OK (Product (if 0 <=? k then take (Z.to_nat k) ds else ds)).

Definition NumTiles_dims s (dims : list Z) : outcome Z :=
  if IsTileMaximal s then OK 1
  else
    _ ← check (negb (IsManual s));
    n ← tile_num_dimensions (tile_assignment_ s);
    _ ← check (negb (replicate_on_last_tile_dim_ s) || negb (bool_decide (n - 1 ∈ dims)));
    foldM (fun num_tiles d => _ ← check (d <? n); x ← tile_dim (tile_assignment_ s) d; OK (mul64 num_tiles x)) 1 dims.

(** *** Comparison and metadata *)

(** operator== *)
Fixpoint sharding_eq s (other : HloSharding) {struct s} : outcome bool :=
  match s with
  | mkSharding t els _ types replicated maximal _ manual unknown unreduced last group =>
      if negb (eqb replicated (replicated_ other) && eqb maximal (maximal_ other) && eqb manual (manual_ other)
               && eqb unknown (unknown_ other) && eqb unreduced (unreduced_ other)) then OK false
      else
        '(same, _, _) ← tile_eq t (tile_assignment_ other);
        if negb same then OK false
        else
          same ← (if negb (Nat.eqb (length els) (length (tuple_elements_ other))) then OK false
                  else (fix all (els others : list HloSharding) : outcome bool :=
                    match els, others with
                    | e :: els, o :: others => r ← sharding_eq e o; if (r : bool) then all els others else OK false
                    | _, _ => OK true
                    end) els (tuple_elements_ other));
          OK (same && eqb last (replicate_on_last_tile_dim_ other) && bool_decide (types = subgroup_types_ other)
              && bool_decide (group = shard_group_ other))
  end.

Definition ExtractSingleSharding s : outcome (option HloSharding) :=
  if negb (IsTuple s) then OK (Some s)
  else
    match tuple_elements_ s with
    | [] => OK None
    | first :: rest =>
        same ← foldM (fun (same : bool) e => if same then sharding_eq first e else OK false) true rest;
        OK (if (same : bool) then Some first else None)
    end.

Definition set_metadata metadata s : HloSharding :=
  mkSharding (tile_assignment_ s) (tuple_elements_ s) metadata (subgroup_types_ s) (replicated_ s) (maximal_ s) (tuple_ s)
    (manual_ s) (unknown_ s) (unreduced_ s) (replicate_on_last_tile_dim_ s) (shard_group_ s).
Definition set_tuple_elements (els : list HloSharding) s : HloSharding :=
  mkSharding (tile_assignment_ s) els (metadata_ s) (subgroup_types_ s) (replicated_ s) (maximal_ s) (tuple_ s)
    (manual_ s) (unknown_ s) (unreduced_ s) (replicate_on_last_tile_dim_ s) (shard_group_ s).

Definition WithMetadata metadata (overwrite : bool) s : HloSharding :=
  let assign_metadata e := if Nat.eqb (length (metadata_ e)) 0 || overwrite then set_metadata metadata e else e in
  if IsTuple s then set_tuple_elements (assign_metadata <$> tuple_elements_ s) s else assign_metadata s.

Definition WithoutMetadata s : HloSharding :=
  set_tuple_elements (set_metadata [] <$> tuple_elements_ s) (set_metadata [] s).

(** *** Tuples *)

Definition RequiredLeaves (shape : Shape) : Z :=
  let leaf_count := GetLeafCount shape in if leaf_count =? 0 then 1 else leaf_count.

Definition CheckLeafCount s (shape : Shape) : outcome () :=
  let leaf_count := GetLeafCount shape in
  if (leaf_count =? 0) && (Zlen (tuple_elements_ s) =? 1) then OK ()
  else require (leaf_count =? Zlen (tuple_elements_ s)) kInternal.

Definition Tuple (tuple_shape : Shape) (shardings : list HloSharding) : outcome HloSharding :=
  _ ← check (Shape.IsTuple tuple_shape);
  _ ← check (forallb (fun s => negb (IsTuple s)) shardings);
  _ ← check (Nat.eqb (length shardings) 0 || (Zlen shardings =? RequiredLeaves tuple_shape));
  OK (new_HloSharding_tuple shardings).

Definition SingleTuple (tuple_shape : Shape) s : outcome HloSharding :=
  _ ← check (Shape.IsTuple tuple_shape);
  _ ← check (negb (IsTuple s));
  OK (new_HloSharding_tuple (replicate (Z.to_nat (RequiredLeaves tuple_shape)) s)).

Definition Single (shape : Shape) s : outcome HloSharding :=
  if Shape.IsTuple shape then SingleTuple shape s else OK s.

(** The leaves of the tree: the subshapes with their shardings. *)
Definition AsShapeTree s (shape : Shape) : outcome (list (Shape * HloSharding)) :=
  if IsTuple s then _ ← CheckLeafCount s shape; OK (zip (leaves shape) (tuple_elements_ s))
  else OK ((fun leaf => (leaf, s)) <$> leaves shape).

Definition GetTupleSharding s (shape : Shape) : outcome HloSharding :=
  if IsTuple s then _ ← CheckLeafCount s shape; OK s else SingleTuple shape s.

Definition NormalizeTupleSharding s (shape : Shape) : outcome HloSharding :=
  if Shape.IsTuple shape && negb (IsTuple s) then SingleTuple shape s else OK s.

(** The loop over the index: the number of the first leaf, and the subshape. *)
Definition locate (shape : Shape) (index : list Z) : outcome (Z * Shape) :=
  foldM (fun '(sharding_index, sub_shape) idx =>
      sharding_index ← foldM (fun n i => l ← tuple_shapes sub_shape; e ← at_ l i; OK (n + GetLeafCount e)) sharding_index (seqZ 0 idx);
      l ← tuple_shapes sub_shape;
      sub_shape ← at_ l idx;
      OK (sharding_index, sub_shape)) (0, shape) index.

Definition GetSubSharding s (shape : Shape) (index : list Z) : outcome HloSharding :=
  _ ← check (IsTuple s);
  '(sharding_index, sub_shape) ← locate shape index;
  if Shape.IsTuple sub_shape
  then els ← subrange (tuple_elements_ s) sharding_index (GetLeafCount sub_shape); Tuple sub_shape els
  else at_ (tuple_elements_ s) sharding_index.

(** *** Validation *)

(** The callback of ValidateNonTuple: its device is an int32_t. *)
Definition see_device (num_devices : option Z) (seen_devices : gset Z) (device : Z) : outcome (gset Z) :=
  let device := i32 device in
  if match num_devices with Some n => n <=? device | None => false end then Err kInvalidArgument
  else if bool_decide (device ∈ seen_devices) then Err kInvalidArgument
  else OK ({[device]} ∪ seen_devices).

Definition ValidateNonTuple s (shape : Shape) (num_devices : option Z) : outcome () :=
  if Shape.IsTuple shape then Err kInvalidArgument
  else if replicated_ s then OK ()
  else
    all_devices_seen ←
      match iota_ (tile_assignment_ s) with
      | None =>
          '(a, _) ← array (tile_assignment_ s);
          seen_devices ← each_index a (fun seen _ _ device => see_device num_devices seen device) ∅;
          OK match num_devices with Some n => Z.of_nat (base.size seen_devices) =? n | None => true end
      | Some iota => OK match num_devices with Some n => iota_num_elements iota =? n | None => true end
      end;
    if unpartitioned s then OK ()
    else
      r ← Shape.rank shape;
      k ← TiledDataRank s;
      _ ← require (r =? k) kInvalidArgument;
      _ ← require all_devices_seen kInvalidArgument;
      n ← tile_num_elements (tile_assignment_ s);
      require (negb (n =? 1)) kInvalidArgument.

Definition ValidateTuple s (shape : Shape) (num_devices : option Z) : outcome () :=
  if negb (Shape.IsTuple shape) then Err kInvalidArgument
  else
    _ ← CheckLeafCount s shape;
    if (GetLeafCount shape =? 0) && Nat.eqb (length (tuple_elements_ s)) 0 then OK ()
    else
      tree ← value_or_die (AsShapeTree s shape);
      forM_ tree (fun '(sub, e) => ValidateNonTuple e sub num_devices).

Definition Validate s (shape : Shape) (num_devices : option Z) : outcome () :=
  if Shape.IsToken shape then OK ()
  else if IsTuple s then ValidateTuple s shape num_devices else ValidateNonTuple s shape num_devices.

(** *** Messages *)

(** SetShardGroupFromProto *)
Definition set_group_from (proto : OpShardingProto) s : HloSharding :=
  SetShardGroup
    (if is_shard_group proto then
       match shard_group_type proto with
       | OpSharding.AS => ShardAs (shard_group_id proto)
       | OpSharding.LIKE => ShardLike (shard_group_id proto)
       end
     else NotShardGroup) s.

(** The overflow of a product is not looked at: any_overflow stays false. *)
Definition product_no_overflow (dims : list Z) : outcome Z :=
  let any_overflow := false in
  let product := foldl (fun p d => (OverflowSafeMultiply p d).1) 1 dims in
  _ ← require (negb any_overflow) kInternal; OK product.

Definition create_tile_assignment (proto : OpShardingProto) (use_iota : bool) : outcome TileAssignment :=
  if use_iota then tile_of_reshape (tile_assignment_dimensions proto) (iota_reshape_dims proto) (iota_transpose_perm proto)
  else
    let tiles := new_Array (tile_assignment_dimensions proto) in
    let devices := tile_assignment_devices proto in
    if Zlen devices <=? num_elements tiles
    then OK (tile_of_array (mkArray (sizes_ tiles) (devices ++ drop (length devices) (values_ tiles))))
    else Crash.

Definition FromProto_tiled (proto : OpShardingProto) : outcome HloSharding :=
  let use_iota := negb (Nat.eqb (length (iota_reshape_dims proto)) 0) in
  _ ← (if use_iota then
         _ ← require (Nat.eqb (length (tile_assignment_devices proto)) 0) kInternal;
         require (Nat.eqb (length (iota_reshape_dims proto)) (length (iota_transpose_perm proto))) kInternal
       else require (negb (Nat.eqb (length (tile_assignment_devices proto)) 0)) kInternal);
  if (use_iota && forallb (fun d => d =? 1) (iota_reshape_dims proto))
     || (negb use_iota && Nat.eqb (length (tile_assignment_devices proto)) 1)
  then OK (set_group_from proto (Replicate (metadata proto)))
  else
    _ ← require (negb (Nat.eqb (length (tile_assignment_dimensions proto)) 0)) kInternal;
    product_of_dimensions ← product_no_overflow (tile_assignment_dimensions proto);
    _ ← (if use_iota then
           product_of_iota_dimensions ← product_no_overflow (iota_reshape_dims proto);
           require (product_of_dimensions =? product_of_iota_dimensions) kInternal
         else require (product_of_dimensions =? Zlen (tile_assignment_devices proto)) kInternal);
    match last_tile_dims proto with
    | _ :: _ =>
        _ ← require (negb (replicate_on_last_tile_dim proto)) kInternal;
        t ← create_tile_assignment proto use_iota;
        s ← Subgroup t (last_tile_dims proto) (metadata proto); OK (set_group_from proto s)
    | [] =>
        t ← create_tile_assignment proto use_iota;
        if replicate_on_last_tile_dim proto
        then s ← PartialTile t (metadata proto); OK (set_group_from proto s)
        else OK (set_group_from proto (new_HloSharding_tile t false (metadata proto)))
    end.

Fixpoint FromProto (proto : OpShardingProto) : outcome HloSharding :=
  match proto with
  | mkOpSharding ty _ devices tuple_shardings _ metadata _ _ _ _ _ _ =>
      match ty with
      | OpSharding.TUPLE =>
          _ ← require (Nat.eqb (length metadata) 0) kInternal;
          els ← (fix all (l : list OpShardingProto) : outcome (list HloSharding) :=
              match l with [] => OK [] | p :: l => e ← FromProto p; els ← all l; OK (e :: els) end) tuple_shardings;
          OK (set_group_from proto (new_HloSharding_tuple els))
      | OpSharding.REPLICATED => OK (set_group_from proto (Replicate metadata))
      | OpSharding.MANUAL => OK (set_group_from proto (Manual metadata))
      | OpSharding.UNREDUCED => OK (set_group_from proto (Unreduced metadata))
      | OpSharding.UNKNOWN => OK (set_group_from proto (Unknown metadata))
      | OpSharding.MAXIMAL =>
          match devices with
          | [d] => OK (set_group_from proto (new_HloSharding_device d metadata))
          | _ => Err kInternal
          end
      | OpSharding.OTHER => FromProto_tiled proto
      end
  end.

(** The message of a sharding that is not a tuple. *)
Definition ToProto_leaf s : outcome OpShardingProto :=
  devices ← match iota_ (tile_assignment_ s) with
            | Some _ => OK []
            | None => '(a, _) ← array (tile_assignment_ s); OK (values_ a)
            end;
  let '(reshape, perm) := match iota_ (tile_assignment_ s) with Some i => (reshape_dims i, transpose_perm i) | None => ([], []) end in
  ds ← tile_dimensions (tile_assignment_ s);
  let '(ty, other) :=
    if IsReplicated s then (OpSharding.REPLICATED, false)
    else if IsTileMaximal s then (OpSharding.MAXIMAL, false)
    else if IsManual s then (OpSharding.MANUAL, false)
    else if IsUnreduced s then (OpSharding.UNREDUCED, false)
    else if IsUnknown s then (OpSharding.UNKNOWN, false)
    else (OpSharding.OTHER, true) in
  let group := IsShardGroup s in
  OK (mkOpSharding ty (if (other : bool) then ds else []) devices [] (other && replicate_on_last_tile_dim_ s) (metadata_ s)
        (if (other : bool) then subgroup_types_ s else []) reshape perm group
        (if group then sg_id (shard_group_ s) else 0)
        (if group && negb (shard_as (shard_group_ s)) then OpSharding.LIKE else OpSharding.AS)).

Fixpoint ToProto s : outcome OpShardingProto :=
  match s with
  | mkSharding _ els metadata _ _ _ tuple _ _ _ _ _ =>
      if tuple then
        _ ← check (Nat.eqb (length metadata) 0);
        protos ← (fix all (l : list HloSharding) : outcome (list OpShardingProto) :=
            match l with [] => OK [] | e :: l => p ← ToProto e; protos ← all l; OK (p :: protos) end) els;
        OK (mkOpSharding OpSharding.TUPLE [] [] protos false [] [] [] [] false 0 OpSharding.AS)
      else ToProto_leaf s
  end.

End Sharding.
