(* ===== verification/ShardingTiles.v ===== *)
(** * The tiles of a sharding

    Tile indices and devices are in bijection up to replication, the tiles of the devices
    partition the shape, and EachTile enumerates them. *)

From S2P Require Import Prelude MachineInt Primitive Shape IndexUtil MathUtil Util Arrays ArrayTheorems TileAssignment.
From S2P Require Import IotaLayout IotaCanonical IotaAssignment IotaFactors IotaTranspose TileTheorems HloSharding.

Section Tiles.
Context {OpMetadata : Type}.
Local Abbreviation HloSharding := (HloSharding OpMetadata).
Implicit Types s : HloSharding.

(** A tiled sharding that is not a tuple: the sizes [ds] of its tile assignment are those of
    the data, the first [k], and those of the subgroups. *)
Record tiled (ds : list Z) (k : nat) s : Prop := {
  td_tile : tile_ok ds (tile_assignment_ s);
  td_replicated : replicated_ s = false;
  td_maximal : maximal_ s = false;
  td_tuple : tuple_ s = false;
  td_manual : manual_ s = false;
  td_unknown : unknown_ s = false;
  td_rank : Z.of_nat k + (if replicate_on_last_tile_dim_ s then 1 else 0) + Zlen (subgroup_types_ s) = Zlen ds;
}.

(** No device has two tiles. *)
Definition unique_devices (ds : list Z) (t : TileAssignment) : Prop :=
  forall ix iy d, Forall2 digit ds ix -> Forall2 digit ds iy -> tile_value t ix = OK d -> tile_value t iy = OK d -> ix = iy.

(** The same sharding, whose tile assignment may be materialized. *)
Definition same_sharding (ds : list Z) s s' : Prop :=
  exists t, s' = set_tile_assignment t s /\ tile_ok ds t /\ iota_ t = iota_ (tile_assignment_ s) /\
    forall ix, Forall2 digit ds ix -> tile_value t ix = tile_value (tile_assignment_ s) ix.

Lemma same_tiled ds k s s' : tiled ds k s -> same_sharding ds s s' -> tiled ds k s'.
Proof. intros [] (t & -> & Ht & _). by split. Qed.

Lemma leaf_flags s : tuple_ s = false -> IsManual s = manual_ s /\ IsUnknown s = unknown_ s /\ IsTileMaximal s = maximal_ s /\
  IsReplicated s = replicated_ s /\ IsUnreduced s = unreduced_ s.
Proof. destruct s. simpl. by intros ->. Qed.

Lemma td_len ds k s : tiled ds k s -> (k <= length ds)%nat.
Proof. intros [_ _ _ _ _ _ Hr]. unfold Zlen in *. destruct (replicate_on_last_tile_dim_ s); lia. Qed.

Lemma TiledDataRank_ok ds k s : tiled ds k s -> TiledDataRank s = OK (Z.of_nat k).
Proof.
  intros [Ht _ Hm Htu Hman Hu Hr]. destruct (leaf_flags s Htu) as (E1 & E2 & E3 & _).
  unfold TiledDataRank, IsTiled, tiled_rank. rewrite E1, E2, E3, Hm, Hman, Hu. cbn [negb andb check mbind outcome_bind].
  destruct (tile_ok_dims ds _ Ht) as (Hd & _). unfold tile_num_dimensions, tile_dimensions, on_tile in *.
  destruct (array_ (tile_assignment_ s)) as [a|], (iota_ (tile_assignment_ s)) as [i|]; try done; injection Hd as Hd;
    cbn [mbind outcome_bind]; f_equal; unfold num_dimensions, iota_ndims, Zlen in *; unfold dimensions in Hd; rewrite Hd;
    destruct (replicate_on_last_tile_dim_ s); lia.
Qed.

(** ** Devices and tile indices *)

Lemma last_match (calls : list (list Z * Z)) (device : Z) (ix r : list Z) :
  (forall iy, (iy, device) ∈ calls -> iy = ix) ->
  foldl (fun ret '(index, d) => if d =? device then index else ret) r calls = (if bool_decide ((ix, device) ∈ calls) then ix else r).
Proof.
  revert r. induction calls as [|[iy d] calls IH]; intros r Hu; [done|]. simpl. rewrite IH by (intros; apply Hu; by right).
  destruct (Z.eqb_spec d device) as [->|Hne].
  - rewrite (Hu iy) by left. case_bool_decide; [by rewrite bool_decide_true by by right|]. by rewrite bool_decide_true by left.
  - case_bool_decide as Hin; [by rewrite bool_decide_true by by right|]. rewrite bool_decide_false; [done|].
    intros [[= -> ->]|?]%elem_of_cons; done.
Qed.

(** All calls of Each: an index and its device. *)
Lemma tile_Each_ok ds t : tile_ok ds t -> exists calls t', tile_Each t = OK (calls, t') /\ tile_ok ds t' /\ iota_ t' = iota_ t /\
  (forall ix, Forall2 digit ds ix -> tile_value t' ix = tile_value t ix) /\
  (forall ix d, (ix, d) ∈ calls <-> Forall2 digit ds ix /\ tile_value t ix = OK d).
Proof.
  intros Ht. unfold tile_Each. destruct (array_ok_of ds t Ht) as (arr & t' & -> & Ht' & Hi & Hok & Hval). cbn [mbind outcome_bind].
  destruct (Each_ok ds arr Hok) as (calls & -> & Hv & Hix). cbn [mbind outcome_bind]. exists calls, t'.
  split; [done|]. split; [done|]. split; [done|]. split; [intros; by apply Hval|]. intros ix d. split.
  - intros [k Hk]%list_elem_of_lookup. destruct (Hix k ix d Hk) as [Hd Hrm]. split; [done|]. destruct (Hval ix Hd) as [-> _].
    destruct (get_ok _ _ Hok ix Hd) as (v & -> & Hlv). f_equal. rewrite <- Hv, Hrm, Nat2Z.id, list_lookup_fmap, Hk in Hlv. by injection Hlv.
  - intros [Hd Hv']. destruct (Hval ix Hd) as [E _]. rewrite E in Hv'. destruct (get_ok _ _ Hok ix Hd) as (v & Hg & Hlv).
    rewrite Hg in Hv'. injection Hv' as ->. rewrite <- Hv, list_lookup_fmap in Hlv.
    destruct (calls !! Z.to_nat (rm ds ix)) as [[iy d']|] eqn:Ek; [|done]. injection Hlv as ->.
    destruct (Hix _ _ _ Ek) as [Hdy Hrmy]. pose proof (rm_bound _ _ Hd) as Hb. rewrite Z2Nat.id in Hrmy by lia.
    assert (iy = ix) as -> by (by apply (rm_inj ds)). by eapply list_elem_of_lookup_2.
Qed.

(** The tile of a device is its index without the subgroups. *)
Lemma TileIndexForDevice_ok ds k s ix d : tiled ds k s -> unique_devices ds (tile_assignment_ s) -> Forall2 digit ds ix ->
  tile_value (tile_assignment_ s) ix = OK d -> exists s', TileIndexForDevice s d = OK (take k ix, s') /\ same_sharding ds s s'.
Proof.
  intros Hs Hu Hix Hv. pose proof (td_len _ _ _ Hs) as Hk. pose proof (TiledDataRank_ok _ _ _ Hs) as Hr.
  pose proof Hs as [Ht _ Hm Htu Hman Hunk _]. destruct (leaf_flags s Htu) as (E1 & E2 & _ & _).
  unfold TileIndexForDevice, IsTuple. rewrite E1, E2, Hm, Hman, Hunk, Htu. cbn [negb check mbind outcome_bind].
  destruct (tile_Each_ok ds _ Ht) as (calls & t' & -> & Ht' & Hi & Hval & Hcalls). cbn [mbind outcome_bind].
  rewrite (last_match calls d ix).
  2: { intros iy [Hdy Hvy]%Hcalls. by apply (Hu iy ix d). }
  rewrite bool_decide_true by (by apply Hcalls). destruct (tile_ok_dims _ _ Ht) as (_ & Hne & _).
  pose proof (Forall2_length _ _ _ Hix) as Hl. rewrite bool_decide_false by (intros ->; by destruct ds). cbn [negb check mbind outcome_bind].
  rewrite Hr. cbn [mbind outcome_bind]. unfold resize. rewrite (proj2 (Z.ltb_ge _ _)) by lia. cbn [mbind outcome_bind]. rewrite Nat2Z.id.
  replace (k - length ix)%nat with 0%nat by lia. rewrite app_nil_r. eexists. split; [done|]. by exists t'.
Qed.

Definition zeros (n : nat) : list Z := replicate n 0.

Lemma zeros_digit ds : Forall (fun d => 0 < d) ds -> Forall2 digit ds (zeros (length ds)).
Proof. intros Hp. unfold zeros. induction Hp; simpl; constructor; [by unfold digit; lia|done]. Qed.

(** The first replica of a tile. *)
Lemma first_replica ds k i : Forall (fun d => 0 < d) ds -> (k <= length ds)%nat -> Forall2 digit (take k ds) i ->
  Forall2 digit ds (i ++ zeros (length ds - k)) /\ take k (i ++ zeros (length ds - k)) = i.
Proof.
  intros Hp Hk Hi. pose proof (Forall2_length _ _ _ Hi) as Hl. rewrite length_take in Hl. split; [|rewrite take_app_le, take_ge by lia; done].
  rewrite <- (take_drop k ds) at 1. apply Forall2_app; [done|]. rewrite <- length_drop. by apply zeros_digit, Forall_drop.
Qed.

Lemma DeviceForTileIndex_ok ds k s i : tiled ds k s -> Forall2 digit (take k ds) i ->
  DeviceForTileIndex s i = tile_value (tile_assignment_ s) (i ++ zeros (length ds - k)).
Proof.
  intros Hs Hi. pose proof (td_len _ _ _ Hs) as Hk. pose proof (TiledDataRank_ok _ _ _ Hs) as Hr.
  pose proof Hs as [Ht Hrep Hm Htu Hman Hunk _]. destruct (leaf_flags s Htu) as (E1 & E2 & _ & _).
  unfold DeviceForTileIndex, IsTuple. rewrite E1, E2, Hm, Hman, Hunk, Htu, Hrep. cbn [negb check mbind outcome_bind]. rewrite Hr. cbn [mbind outcome_bind].
  pose proof (Forall2_length _ _ _ Hi) as Hl. rewrite length_take in Hl.
  assert (tile_num_dimensions (tile_assignment_ s) = OK (Zlen ds)) as ->.
  { destruct (tile_ok_dims ds _ Ht) as (Hd & _). unfold tile_num_dimensions, tile_dimensions, on_tile in *.
    destruct (array_ (tile_assignment_ s)) as [a|], (iota_ (tile_assignment_ s)); try done; injection Hd as Hd; f_equal;
      unfold num_dimensions, iota_ndims; unfold dimensions in Hd; by rewrite Hd. }
  cbn [mbind outcome_bind]. unfold Zlen, zeros. rewrite (proj2 (Z.eqb_eq _ _)) by lia. cbn [andb].
  destruct (Z.ltb_spec (Z.of_nat (length i)) (Z.of_nat (length ds))) as [Hlt|Hge].
  - do 3 f_equal. lia.
  - replace (length ds - k)%nat with 0%nat by lia. by rewrite app_nil_r.
Qed.

(** ** The bounds of a tile *)

(** CeilOfRatio. *)
Definition tile_size (x n : Z) : Z := - (- x / n).

Lemma tile_size_bounds x n : 0 <= x -> 0 < n -> x <= tile_size x n * n < x + n /\ 0 <= tile_size x n <= x.
Proof.
  intros Hx Hn. unfold tile_size. pose proof (Z.div_mod (- x) n ltac:(lia)) as E. pose proof (Z.mod_pos_bound (- x) n Hn) as Hm. nia.
Qed.

(** The position [e] is in exactly one of the [n] parts. *)
Lemma part_of x n e i : 0 <= e < x -> 0 < n -> 0 <= i < n ->
  (Z.min (i * tile_size x n) x <= e < Z.min ((i + 1) * tile_size x n) x <-> e / tile_size x n = i).
Proof.
  intros He Hn Hi. destruct (tile_size_bounds x n ltac:(lia) Hn) as [[H1 H2] H3]. set (c := tile_size x n) in *.
  assert (Hc : 0 < c) by nia. split.
  - intros [Hlo Hhi]. symmetry. apply Z.div_unique with (e - c * i); nia.
  - intros <-. pose proof (Z.div_mod e c ltac:(lia)) as E. pose proof (Z.mod_pos_bound e c Hc). split; [apply Z.min_le_iff; nia|apply Z.min_glb_lt_iff; nia].
Qed.

Lemma part_index x n e : 0 <= e < x -> 0 < n -> 0 <= e / tile_size x n < n.
Proof.
  intros He Hn. destruct (tile_size_bounds x n ltac:(lia) Hn) as [[H1 H2] H3]. assert (Hc : 0 < tile_size x n) by nia.
  split; [by apply Z.div_pos; lia|]. apply Z.div_lt_upper_bound; nia.
Qed.

Definition bound (f : Z -> Z) (x d n : Z) : Z := Z.min (f x * tile_size d n) d.

(** The sizes of an array of which no bound of a tile overflows. *)
Definition sizes_fit (sh : list Z) : Prop := Forall (fun x => 0 <= x < two63 - two31) sh.

Lemma dimension_lookup shape st k d : array_state shape = OK st -> Shape.dims st !! k = Some d -> Shape.dimension shape (Z.of_nat k) = OK d.
Proof. intros Hst Hk. unfold Shape.dimension. rewrite Hst. cbn [mbind outcome_bind]. apply at_OK, idx_Some. rewrite Nat2Z.id. split; [lia|done]. Qed.

Lemma tile_dim_lookup ds t k d : tile_ok ds t -> ds !! k = Some d -> tile_dim t (Z.of_nat k) = OK d.
Proof.
  intros Ht Hk. destruct (tile_ok_dims ds t Ht) as (Hd & _). unfold tile_dim, tile_dimensions, on_tile in *.
  assert (at_ ds (Z.of_nat k) = OK d) by (apply at_OK, idx_Some; rewrite Nat2Z.id; split; [lia|done]).
  destruct (array_ t) as [a|], (iota_ t); try done; injection Hd as Hd; unfold dim, iota_dim; unfold dimensions in Hd; by rewrite Hd.
Qed.

(** [f] is the identity or the successor. *)
Definition shift (f : Z -> Z) : Prop := forall x, 0 <= x < two31 -> 0 <= f x <= x + 1.

Lemma tile_bound_ok ds k s i x d n f : tiled ds k s -> shift f -> ds !! i = Some n -> 0 <= x < n -> 0 <= d < two63 - two31 ->
  tile_bound s (f x) (Z.of_nat i) d = OK (bound f x d n).
Proof.
  intros Hs Hf Hn Hx Hd. pose proof Hs as [Ht _ _ _ _ _ _]. destruct (tile_ok_dims ds _ Ht) as (_ & _ & Hp & Hsm).
  assert (Hn31 : n < two31).
  { pose proof (elem_le_prod ds n Hp ltac:(by eapply list_elem_of_lookup_2)). lia. }
  unfold tile_bound. rewrite (tile_dim_lookup ds) with (d := n) by done. cbn [mbind outcome_bind].
  rewrite CeilOfRatio_ok by (unfold two63, two31 in *; lia). cbn [mbind outcome_bind]. fold (tile_size d n).
  destruct (tile_size_bounds d n ltac:(lia) ltac:(lia)) as [[H1 H2] H3]. specialize (Hf x ltac:(lia)).
  unfold mul64. rewrite i64_small by (apply is_i64_spec; unfold two63, two31 in *; nia). done.
Qed.
Lemma tile_bounds_ok ds k s shape st index f : tiled ds k s -> shift f -> array_state shape = OK st -> length (Shape.dims st) = k -> sizes_fit (Shape.dims st) -> Forall2 digit (take k ds) index ->
  exists b, tile_bounds s shape f index = OK b /\ length b = k /\
    forall i x d n, index !! i = Some x -> Shape.dims st !! i = Some d -> ds !! i = Some n -> b !! i = Some (bound f x d n).
Proof.
  intros Hs Hf Hst Hk Hsh Hix. set (sh := Shape.dims st) in *. pose proof (td_len _ _ _ Hs) as Hlk. pose proof (Forall2_length _ _ _ Hix) as Hl. rewrite length_take in Hl.
  unfold tile_bounds.
  assert (Hall : forall i x d n, index !! i = Some x -> sh !! i = Some d -> ds !! i = Some n ->
    (x ← at_ index (Z.of_nat i); shape_dim ← Shape.dimension shape (Z.of_nat i); tile_bound s (f x) (Z.of_nat i) shape_dim)
    = OK (bound f x d n)).
  { intros i x d n Hx Hd Hn. rewrite (proj2 (at_OK index (Z.of_nat i) x)) by (apply idx_Some; rewrite Nat2Z.id; split; [lia|done]).
    cbn [mbind outcome_bind]. rewrite (dimension_lookup shape st i d) by done. cbn [mbind outcome_bind].
    apply (tile_bound_ok ds k); [done|done|done| |].
    - pose proof (Forall2_lookup_lr _ _ _ i n x Hix) as HD. apply HD; [|done]. rewrite lookup_take_lt; [done|]. apply lookup_lt_Some in Hd. lia.
    - unfold sizes_fit in Hsh. rewrite Forall_lookup in Hsh. by apply (Hsh i). }
  destruct (mapM_exists (fun i => x ← at_ index i; shape_dim ← Shape.dimension shape i;
    tile_bound s (f x) i shape_dim) (indices index)) as [b Hb].
  { intros i Hi%elem_of_indices. unfold Zlen in Hi. rewrite <- (Z2Nat.id i) by lia.
    destruct (lookup_lt_is_Some_2 index (Z.to_nat i)) as [x Hx]; [lia|]. destruct (lookup_lt_is_Some_2 sh (Z.to_nat i)) as [d Hd]; [lia|].
    destruct (lookup_lt_is_Some_2 ds (Z.to_nat i)) as [n Hn]; [lia|]. rewrite (Hall _ x d n) by done. by eexists. }
  exists b. split; [done|]. unfold indices, Zlen in Hb. apply mapM_seqZ_OK in Hb as [Hlb Hb].
  split; [lia|]. intros i x d n Hx Hd Hn. destruct (lookup_lt_is_Some_2 b i) as [y Hy]; [apply lookup_lt_Some in Hx; lia|].
  specialize (Hb _ _ Hy). rewrite (Hall _ x d n) in Hb by done. by injection Hb as <-.
Qed.

Lemma rank_ok shape st : array_state shape = OK st -> Shape.rank shape = OK (Zlen (Shape.dims st)).
Proof. intros Hst. unfold Shape.rank. by rewrite Hst. Qed.

Lemma shift_id : shift (fun x => x).
Proof. intros x Hx. lia. Qed.
Lemma shift_succ : shift (fun x => add64 x 1).
Proof. intros x Hx. unfold add64. rewrite i64_small; [lia|]. apply is_i64_spec. unfold two63, two31 in *. lia. Qed.

(** [b] are the bounds [f] of the tile [i]. *)
Definition bounds_of (f : Z -> Z) (ds sh i b : list Z) : Prop :=
  length b = length i /\ forall j x d n, i !! j = Some x -> sh !! j = Some d -> ds !! j = Some n -> b !! j = Some (bound f x d n).

(** The offset and the limit of the tile of a device. *)
Lemma tile_of_device_ok ds k s shape st ix d : tiled ds k s -> unique_devices ds (tile_assignment_ s) ->
  array_state shape = OK st -> length (Shape.dims st) = k -> sizes_fit (Shape.dims st) ->
  Forall2 digit ds ix -> tile_value (tile_assignment_ s) ix = OK d ->
  exists o l s1 s2, TileOffsetForDevice s shape d = OK (o, s1) /\ TileLimitForDevice s shape d = OK (l, s2) /\
    same_sharding ds s s1 /\ same_sharding ds s s2 /\
    bounds_of (fun x => x) ds (Shape.dims st) (take k ix) o /\ bounds_of (fun x => add64 x 1) ds (Shape.dims st) (take k ix) l.
Proof.
  intros Hs Hu Hst Hk Hfit Hix Hv. pose proof (TiledDataRank_ok _ _ _ Hs) as Hr. pose proof (td_len _ _ _ Hs) as Hlk.
  pose proof Hs as [_ _ Hm Htu Hman Hunk _]. destruct (leaf_flags s Htu) as (E1 & E2 & _).
  unfold TileOffsetForDevice, TileLimitForDevice, IsTuple. rewrite E1, E2, Hm, Htu, Hman, Hunk, (rank_ok _ _ Hst).
  cbn [negb check mbind outcome_bind]. rewrite Hr. cbn [mbind outcome_bind]. unfold Zlen. rewrite Hk, Z.eqb_refl. cbn [check mbind outcome_bind].
  destruct (TileIndexForDevice_ok ds k s ix d Hs Hu Hix Hv) as (s' & -> & Hs'). cbn [mbind outcome_bind].
  pose proof (same_tiled _ _ _ _ Hs Hs') as Hts. pose proof (Forall2_take _ _ _ k Hix) as Hdig. pose proof (Forall2_length _ _ _ Hdig) as Hl.
  rewrite length_take in Hl.
  destruct (tile_bounds_ok ds k s' shape st (take k ix) (fun x => x)) as (o & -> & Hlo & Ho); [done|exact shift_id|done..|].
  destruct (tile_bounds_ok ds k s' shape st (take k ix) (fun x => add64 x 1)) as (l & -> & Hll & Hlb); [done|exact shift_succ|done..|].
  cbn [mbind outcome_bind]. exists o, l, s', s'. split; [done|]. split; [done|]. split; [done|]. split; [done|].
  split; (split; [rewrite <- Hl; lia|done]).
Qed.

(** The element [e] of the array is in the tile between the bounds. *)
Definition inside (o l e : list Z) : Prop :=
  length o = length e /\ length l = length e /\ forall j a b x, o !! j = Some a -> l !! j = Some b -> e !! j = Some x -> a <= x < b.

(** The tile of an element. *)
Definition tile_of (ds sh e : list Z) : list Z := zip_with Z.div e (zip_with tile_size sh ds).

Lemma tile_of_lookup ds sh e j x d n : e !! j = Some x -> sh !! j = Some d -> ds !! j = Some n -> tile_of ds sh e !! j = Some (x / tile_size d n).
Proof. intros Hx Hd Hn. unfold tile_of. rewrite !lookup_zip_with, Hx, Hd, Hn. done. Qed.

Lemma tile_of_digit ds k sh e : Forall (fun d => 0 < d) ds -> (k <= length ds)%nat -> length sh = k -> Forall2 digit sh e ->
  Forall2 digit (take k ds) (tile_of ds sh e).
Proof.
  intros Hp Hk Hl He. pose proof (Forall2_length _ _ _ He) as Hle. apply Forall2_same_length_lookup_2.
  { unfold tile_of. rewrite !length_zip_with, length_take. lia. }
  intros j n x Hn Hx. apply lookup_take_Some in Hn as [Hn Hj]. destruct (lookup_lt_is_Some_2 sh j) as [d Hd]; [lia|].
  destruct (lookup_lt_is_Some_2 e j) as [y Hy]; [lia|]. rewrite (tile_of_lookup _ _ _ _ _ _ _ Hy Hd Hn) in Hx. injection Hx as <-.
  rewrite Forall_lookup in Hp. specialize (Hp _ _ Hn). apply part_index; [|done]. by apply (Forall2_lookup_lr _ _ _ j d y He).
Qed.

(** An element is inside exactly one tile. *)
Lemma inside_tile ds k sh e i o l : Forall (fun d => 0 < d) ds -> prod ds < two31 -> (k <= length ds)%nat -> length sh = k ->
  Forall2 digit sh e -> Forall2 digit (take k ds) i ->
  bounds_of (fun x => x) ds sh i o -> bounds_of (fun x => add64 x 1) ds sh i l -> (inside o l e <-> i = tile_of ds sh e).
Proof.
  intros Hp Hsm Hk Hl He Hi [Hlo Ho] [Hll Hlb]. pose proof (Forall2_length _ _ _ He) as Hle. pose proof (Forall2_length _ _ _ Hi) as Hli.
  rewrite length_take in Hli.
  assert (Hone : forall j x d n y, i !! j = Some x -> sh !! j = Some d -> ds !! j = Some n -> e !! j = Some y ->
    (bound (fun x => x) x d n <= y < bound (fun x => add64 x 1) x d n <-> y / tile_size d n = x)).
  { intros j x d n y Hx Hd Hn Hy. unfold bound.
    pose proof (Forall2_lookup_lr _ _ _ j n x Hi) as HD. specialize (HD ltac:(by rewrite lookup_take_lt by (apply lookup_lt_Some in Hd; lia)) Hx).
    pose proof (Forall2_lookup_lr _ _ _ j d y He Hd Hy) as HE. unfold digit in HD, HE.
    pose proof (elem_le_prod ds n Hp ltac:(by eapply list_elem_of_lookup_2)).
    unfold add64. rewrite (i64_small (x + 1)) by (apply is_i64_spec; unfold two63, two31 in *; lia). apply part_of; lia. }
  split.
  - intros (_ & _ & Hin). apply list_eq. intros j. destruct (i !! j) as [x|] eqn:Hx.
    + pose proof (lookup_lt_Some _ _ _ Hx) as Hj. destruct (lookup_lt_is_Some_2 sh j) as [d Hd]; [lia|].
      destruct (lookup_lt_is_Some_2 ds j) as [n Hn]; [lia|]. destruct (lookup_lt_is_Some_2 e j) as [y Hy]; [lia|].
      rewrite (tile_of_lookup _ _ _ _ _ _ _ Hy Hd Hn). f_equal. symmetry. apply (Hone j x d n y); try done.
      by apply (Hin j); [apply Ho|apply Hlb|].
    + apply lookup_ge_None in Hx. symmetry. apply lookup_ge_None. unfold tile_of. rewrite !length_zip_with. lia.
  - intros ->. split; [lia|]. split; [lia|]. intros j a b y Ha Hb Hy. pose proof (lookup_lt_Some _ _ _ Hy) as Hj. destruct (lookup_lt_is_Some_2 sh j) as [d Hd]; [lia|].
    destruct (lookup_lt_is_Some_2 ds j) as [n Hn]; [lia|]. pose proof (tile_of_lookup _ _ _ _ _ _ _ Hy Hd Hn) as Hx.
    rewrite (Ho j _ d n Hx Hd Hn) in Ha. rewrite (Hlb j _ d n Hx Hd Hn) in Hb. injection Ha as <-. injection Hb as <-. by apply (Hone j _ d n y Hx Hd Hn Hy).
Qed.

(** ** EachTile *)

Lemma bounds_unique f ds sh i b c : length i = length sh -> (length sh <= length ds)%nat -> bounds_of f ds sh i b -> bounds_of f ds sh i c -> b = c.
Proof.
  intros Hl Hk [Hb Hbv] [Hc Hcv]. apply list_eq. intros j. destruct (i !! j) as [x|] eqn:Hx.
  - pose proof (lookup_lt_Some _ _ _ Hx). destruct (lookup_lt_is_Some_2 sh j) as [d Hd]; [lia|]. destruct (lookup_lt_is_Some_2 ds j) as [n Hn]; [lia|].
    by rewrite (Hbv j x d n), (Hcv j x d n).
  - apply lookup_ge_None in Hx. rewrite !lookup_ge_None_2 by lia. done.
Qed.

(** The sizes of the tiles. *)
Lemma tile_dims_ok ds sh : Forall (fun d => 0 < d) ds -> prod ds < two31 -> (length sh <= length ds)%nat -> sizes_fit sh ->
  exists ts, mapM (fun i => d ← at_ sh i; n ← at_ ds i; CeilOfRatio d n) (indices sh) = OK ts /\ length ts = length sh /\
    forall j d n, sh !! j = Some d -> ds !! j = Some n -> ts !! j = Some (tile_size d n).
Proof.
  intros Hp Hsm Hl Hfit.
  assert (Hall : forall j d n, sh !! j = Some d -> ds !! j = Some n -> (d ← at_ sh (Z.of_nat j); n ← at_ ds (Z.of_nat j); CeilOfRatio d n) = OK (tile_size d n)).
  { intros j d n Hd Hn. rewrite (at_nat _ _ _ Hd). cbn [mbind outcome_bind]. rewrite (at_nat _ _ _ Hn). cbn [mbind outcome_bind].
    unfold sizes_fit in Hfit. rewrite Forall_lookup in Hfit, Hp. specialize (Hfit _ _ Hd). specialize (Hp _ _ Hn). simpl in *. apply CeilOfRatio_ok; unfold two63, two31 in *; lia. }
  destruct (mapM_exists (fun i => d ← at_ sh i; n ← at_ ds i; CeilOfRatio d n) (indices sh)) as [ts Hts].
  { intros i Hi%elem_of_indices. unfold Zlen in Hi. rewrite <- (Z2Nat.id i) by lia.
    destruct (lookup_lt_is_Some_2 sh (Z.to_nat i)) as [d Hd]; [lia|]. destruct (lookup_lt_is_Some_2 ds (Z.to_nat i)) as [n Hn]; [lia|].
    rewrite (Hall _ d n) by done. by eexists. }
  exists ts. split; [done|]. unfold indices, Zlen in Hts. apply mapM_seqZ_OK in Hts as [Hlt Hts]. split; [done|]. intros j d n Hd Hn.
  destruct (lookup_lt_is_Some_2 ts j) as [y Hy]; [apply lookup_lt_Some in Hd; lia|]. specialize (Hts _ _ Hy). rewrite (Hall j d n) in Hts by done. by injection Hts as <-.
Qed.

Lemma each_bounds_ok ds k sh ts u f : Forall (fun d => 0 < d) ds -> prod ds < two31 -> (k <= length ds)%nat -> length sh = k -> sizes_fit sh -> shift f ->
  length ts = length sh -> (forall j d n, sh !! j = Some d -> ds !! j = Some n -> ts !! j = Some (tile_size d n)) -> Forall2 digit (take k ds) u ->
  exists b, mapM (fun i => t ← at_ ts i; x ← at_ u i; d ← at_ sh i; OK (Z.min (mul64 t (f x)) d)) (indices sh) = OK b /\ bounds_of f ds sh u b.
Proof.
  intros Hp Hsm Hk Hl Hfit Hf Hlt Hts Hu. pose proof (Forall2_length _ _ _ Hu) as Hlu. rewrite length_take in Hlu.
  assert (Hall : forall j x d n, u !! j = Some x -> sh !! j = Some d -> ds !! j = Some n ->
    (t ← at_ ts (Z.of_nat j); x ← at_ u (Z.of_nat j); d ← at_ sh (Z.of_nat j); OK (Z.min (mul64 t (f x)) d)) = OK (bound f x d n)).
  { intros j x d n Hx Hd Hn. rewrite (at_nat _ _ _ (Hts _ _ _ Hd Hn)). cbn [mbind outcome_bind]. rewrite (at_nat _ _ _ Hx). cbn [mbind outcome_bind].
    rewrite (at_nat _ _ _ Hd). cbn [mbind outcome_bind]. unfold bound. do 2 f_equal.
    pose proof (Forall2_lookup_lr _ _ _ j n x Hu) as HD. specialize (HD ltac:(by rewrite lookup_take_lt by (apply lookup_lt_Some in Hd; lia)) Hx).
    unfold sizes_fit in Hfit. rewrite Forall_lookup in Hfit. specialize (Hfit _ _ Hd). simpl in Hfit. unfold digit in HD.
    pose proof (elem_le_prod ds n Hp ltac:(by eapply list_elem_of_lookup_2)). destruct (tile_size_bounds d n ltac:(lia) ltac:(lia)) as [[H1 H2] H3].
    specialize (Hf x ltac:(lia)). unfold mul64. rewrite Z.mul_comm. apply i64_small, is_i64_spec. unfold two63, two31 in *. nia. }
  destruct (mapM_exists (fun i => t ← at_ ts i; x ← at_ u i; d ← at_ sh i; OK (Z.min (mul64 t (f x)) d)) (indices sh)) as [b Hb].
  { intros i Hi%elem_of_indices. unfold Zlen in Hi. rewrite <- (Z2Nat.id i) by lia.
    destruct (lookup_lt_is_Some_2 u (Z.to_nat i)) as [x Hx]; [lia|].
    destruct (lookup_lt_is_Some_2 sh (Z.to_nat i)) as [d Hd]; [lia|]. destruct (lookup_lt_is_Some_2 ds (Z.to_nat i)) as [n Hn]; [lia|].
    rewrite (Hall _ x d n) by done. by eexists. }
  exists b. split; [done|]. unfold indices, Zlen in Hb. apply mapM_seqZ_OK in Hb as [Hlb Hb]. split; [lia|]. intros j x d n Hx Hd Hn.
  destruct (lookup_lt_is_Some_2 b j) as [y Hy]; [apply lookup_lt_Some in Hd; lia|]. specialize (Hb _ _ Hy). rewrite (Hall j x d n) in Hb by done. by injection Hb as <-.
Qed.

(** NextIndex is the step to the next index of an array of the first sizes. *)
Lemma NextIndex_next ds k u n : (n <= k)%nat -> NextIndex_from u ds n = next_index_from (no_default_init (T := Z) (take k ds)) u n.
Proof.
  revert u. induction n as [|n IH]; intros u Hn; [done|]. simpl.
  assert (at_ (take k ds) (Z.of_nat n) = at_ ds (Z.of_nat n)) as ->.
  { unfold at_, idx. rewrite Nat2Z.id, lookup_take_lt by lia. done. }
  destruct (at_ u (Z.of_nat n)); [|done..]. cbn [mbind outcome_bind]. destruct (at_ ds (Z.of_nat n)); [|done..]. cbn [mbind outcome_bind].
  destruct (_ <? _); [done|]. destruct (set_at u (Z.of_nat n) 0); [|done..]. cbn [mbind outcome_bind]. apply IH. lia.
Qed.

Lemma NextIndex_ok ds k u : Forall (fun d => 0 < d) ds -> prod ds < two63 -> (k <= length ds)%nat -> Forall2 digit (take k ds) u ->
  exists v b, NextIndex u ds = OK (v, b) /\ Forall2 digit (take k ds) v /\
    (if b then rm (take k ds) v = rm (take k ds) u + 1 else rm (take k ds) u = prod (take k ds) - 1).
Proof.
  intros Hp Hsm Hk Hu. pose proof (Forall2_length _ _ _ Hu) as Hl. rewrite length_take in Hl. pose proof (prod_small ds k Hp).
  assert (Hok : array_ok (take k ds) (no_default_init (T := Z) (take k ds))) by (apply no_default_init_ok; [by apply Forall_take|lia]).
  unfold NextIndex. rewrite (NextIndex_next ds k) by lia. replace (length u) with (length (take k ds)) by (rewrite length_take; lia).
  exact (next_index_ok _ _ Hok u Hu).
Qed.

Lemma each_replica_ok n : forall devices f o l calls,
  (f + n <= length devices)%nat -> Forall (fun d => 0 <= d < Zlen devices) devices ->
  each_replica n devices (Zlen devices) o l calls (Z.of_nat f) =
    OK (calls ++ ((fun d => (d, o, l)) <$> take n (drop f devices)), Z.of_nat (f + n), true).
Proof.
  induction n as [|n IH]; intros devices f o l calls Hn HF; simpl.
  - rewrite app_nil_r. do 4 f_equal. lia.
  - rewrite (proj2 (Z.ltb_lt _ _)) by (unfold Zlen; lia). cbn [check mbind outcome_bind].
    destruct (lookup_lt_is_Some_2 devices f) as [d Hd]; [lia|]. rewrite (at_nat _ _ _ Hd). cbn [mbind outcome_bind].
    pose proof HF as HF'. rewrite Forall_lookup in HF'. specialize (HF' _ _ Hd). simpl in HF'.
    rewrite (proj2 (Z.ltb_ge d 0)), (proj2 (Z.leb_gt (Zlen devices) d)) by lia. cbn [orb].
    replace (Z.of_nat f + 1) with (Z.of_nat (S f)) by lia. rewrite IH by (lia || done). rewrite (drop_S _ _ _ Hd). simpl. rewrite <- app_assoc. simpl.
    do 4 f_equal. lia.
Qed.

(** What EachTile calls for the devices at the positions below [flat]. *)
Definition called (ds : list Z) (k : nat) (sh devices : list Z) (flat : nat) (calls : list tile_call) : Prop :=
  length calls = flat /\ forall ix d, Forall2 digit ds ix -> (Z.to_nat (rm ds ix) < flat)%nat -> devices !! Z.to_nat (rm ds ix) = Some d ->
    exists o l, calls !! Z.to_nat (rm ds ix) = Some (d, o, l) /\
      bounds_of (fun x => x) ds sh (take k ix) o /\ bounds_of (fun x => add64 x 1) ds sh (take k ix) l.

(** One round: the replicas of the tile [u]. *)
Lemma each_called_step ds k sh devices u o l calls g : Forall (fun d => 0 < d) ds -> (k <= length ds)%nat -> Zlen devices = prod ds ->
  Z.of_nat g = prod (drop k ds) -> Forall2 digit (take k ds) u ->
  bounds_of (fun x => x) ds sh u o -> bounds_of (fun x => add64 x 1) ds sh u l ->
  called ds k sh devices (Z.to_nat (rm (take k ds) u) * g) calls ->
  called ds k sh devices (Z.to_nat (rm (take k ds) u) * g + g)
    (calls ++ ((fun d => (d, o, l)) <$> take g (drop (Z.to_nat (rm (take k ds) u) * g) devices))).
Proof.
  intros Hp Hk Hdev Hg Hu Ho Hl [Hlen Hc]. pose proof (rm_bound _ _ Hu) as Hb. set (f := (Z.to_nat (rm (take k ds) u) * g)%nat) in *.
  assert (Hsplit : prod ds = prod (take k ds) * prod (drop k ds)) by (by rewrite <- prod_app, take_drop).
  assert (Hfg : (f + g <= length devices)%nat) by (unfold f, Zlen in *; nia). split.
  { rewrite length_app, length_fmap, length_take, length_drop. lia. }
  intros ix d Hix Hlt Hd. destruct (decide (Z.to_nat (rm ds ix) < f)%nat) as [Hold|Hnew].
  - destruct (Hc ix d Hix Hold Hd) as (o' & l' & Hcall & HB). exists o', l'. split; [|done]. rewrite lookup_app_l; [done|]. apply lookup_lt_Some in Hcall. done.
  - assert (Htake : take k ix = u).
    { pose proof (Forall2_take _ _ _ k Hix) as Ht. pose proof (Forall2_drop _ _ _ k Hix) as Hdr. pose proof (rm_bound _ _ Ht) as Hbt. pose proof (rm_bound _ _ Hdr) as Hbd.
      apply (rm_inj (take k ds)); [done|done|]. pose proof (Forall2_length _ _ _ Hix) as Hlx.
      assert (E : rm ds ix = rm (take k ds) (take k ix) * prod (drop k ds) + rm (drop k ds) (drop k ix)).
      { rewrite <- rm_app by (rewrite !length_take; lia). by rewrite !take_drop. }
      unfold f in *. nia. }
    exists o, l. rewrite Htake. split; [|done]. rewrite lookup_app_r by lia. rewrite Hlen, list_lookup_fmap, lookup_take_lt by lia.
    rewrite lookup_drop. replace (f + (Z.to_nat (rm ds ix) - f))%nat with (Z.to_nat (rm ds ix)) by lia. by rewrite Hd.
Qed.

Lemma each_tile_loop_ok ds k sh ts devices g : Forall (fun d => 0 < d) ds -> prod ds < two31 -> (k <= length ds)%nat -> length sh = k -> sizes_fit sh ->
  length ts = length sh -> (forall j d n, sh !! j = Some d -> ds !! j = Some n -> ts !! j = Some (tile_size d n)) ->
  Zlen devices = prod ds -> Forall (fun d => 0 <= d < Zlen devices) devices -> Z.of_nat g = prod (drop k ds) ->
  forall fuel u calls, Forall2 digit (take k ds) u -> prod (take k ds) - rm (take k ds) u <= Z.of_nat fuel ->
    called ds k sh devices (Z.to_nat (rm (take k ds) u) * g) calls ->
    exists calls', each_tile_loop fuel sh ts ds devices (Zlen devices) (Z.of_nat g) u calls (Z.of_nat (Z.to_nat (rm (take k ds) u) * g)) = OK (calls', OK ()) /\
      called ds k sh devices (length devices) calls'.
Proof.
  intros Hp Hsm Hk Hl Hfit Hlt Hts Hdev HF Hg. induction fuel as [|fuel IH]; intros u calls Hu Hfuel Hc.
  { pose proof (rm_bound _ _ Hu). lia. }
  pose proof (rm_bound _ _ Hu) as Hb. assert (Hsplit : prod ds = prod (take k ds) * prod (drop k ds)) by (by rewrite <- prod_app, take_drop).
  cbn [each_tile_loop].
  destruct (each_bounds_ok ds k sh ts u (fun x => x) Hp Hsm Hk Hl Hfit shift_id Hlt Hts Hu) as (o & Eo & Ho). rewrite Eo. cbn [mbind outcome_bind].
  destruct (each_bounds_ok ds k sh ts u (fun x => add64 x 1) Hp Hsm Hk Hl Hfit shift_succ Hlt Hts Hu) as (l & El & Hlm). rewrite El. cbn [mbind outcome_bind].
  rewrite Nat2Z.id, each_replica_ok by (done || (unfold Zlen in *; nia)). cbn [mbind outcome_bind negb].
  destruct (NextIndex_ok ds k u) as (v & b & -> & Hv & Hstep); [done|unfold two31, two63 in *; lia|done|done|]. cbn [mbind outcome_bind].
  pose proof (each_called_step ds k sh devices u o l calls g Hp Hk Hdev Hg Hu Ho Hlm Hc) as Hc'. destruct b.
  - assert (E : (Z.to_nat (rm (take k ds) u) * g + g = Z.to_nat (rm (take k ds) v) * g)%nat) by nia.
    rewrite E in Hc' |- *. apply IH; [done|lia|done].
  - eexists. split; [reflexivity|]. replace (length devices) with (Z.to_nat (rm (take k ds) u) * g + g)%nat by (unfold Zlen in *; nia). done.
Qed.

(** The subgroups of which the last dimension is the only one: replicas. *)
Definition only_replicas (ds : list Z) (k : nat) s : Prop :=
  k = length ds \/ S k = length ds /\ (replicate_on_last_tile_dim_ s = true \/ subgroup_types_ s = [OpSharding.REPLICATED]).

Lemma num_replicas_ok ds k s : tiled ds k s -> only_replicas ds k s ->
  (r ← SubgroupReplicationDim s; if r =? -1 then OK 1 else at_ ds r) = OK (prod (drop k ds)).
Proof.
  intros Hs Hrep. pose proof (TiledDataRank_ok _ _ _ Hs) as Hr. pose proof Hs as [Ht _ _ _ _ _ Hrank].
  assert (Hn : tile_num_dimensions (tile_assignment_ s) = OK (Zlen ds)).
  { destruct (tile_ok_dims ds _ Ht) as (Hd & _). unfold tile_num_dimensions, tile_dimensions, on_tile in *.
    destruct (array_ (tile_assignment_ s)) as [a|], (iota_ (tile_assignment_ s)); try done; injection Hd as Hd; f_equal;
      unfold num_dimensions, iota_ndims; unfold dimensions in Hd; by rewrite Hd. }
  assert (Hone : S k = length ds -> at_ ds (Z.of_nat k) = OK (prod (drop k ds))).
  { intros Hk. destruct (lookup_lt_is_Some_2 ds k) as [g Hg]; [lia|]. rewrite (at_nat _ _ _ Hg), (drop_S _ _ _ Hg), drop_ge by lia. simpl. f_equal. lia. }
  unfold SubgroupReplicationDim, SubgroupDim, Zlen in *. destruct Hrep as [->|[Hk Hrep]].
  - destruct (replicate_on_last_tile_dim_ s); [lia|]. destruct (subgroup_types_ s); [|simpl in Hrank; lia]. simpl. by rewrite drop_all.
  - destruct (subgroup_types_ s) as [|ty [|ty' types]]; simpl in Hrank.
    + destruct Hrep as [E|?]; [|done]. rewrite E in *. cbn [find_type mbind outcome_bind]. rewrite Hn. cbn [mbind outcome_bind]. rewrite (proj2 (Z.eqb_neq (Z.of_nat (length ds) - 1) (-1))) by lia.
      replace (Z.of_nat (length ds) - 1) with (Z.of_nat k) by lia. by apply Hone.
    + destruct (replicate_on_last_tile_dim_ s); [lia|]. destruct Hrep as [?|[= ->]]; [done|]. simpl. rewrite Hr. cbn [mbind outcome_bind]. rewrite Z.add_0_l, (proj2 (Z.eqb_neq (Z.of_nat k) (-1))) by lia. by apply Hone.
    + destruct (replicate_on_last_tile_dim_ s); lia.
Qed.

End Tiles.

Lemma tile_value_total ds t ix : tile_ok ds t -> Forall2 digit ds ix -> exists d, tile_value t ix = OK d.
Proof.
  intros Ht Hix. destruct (array_ok_of ds t Ht) as (arr & t' & _ & _ & _ & Hok & Hval). destruct (Hval ix Hix) as [-> _].
  destruct (get_ok _ _ Hok ix Hix) as (v & -> & _). by exists v.
Qed.

Lemma TileIndexForDevice_unused {M} ds k (s : HloSharding M) d : tiled ds k s ->
  (forall ix, Forall2 digit ds ix -> tile_value (tile_assignment_ s) ix <> OK d) -> TileIndexForDevice s d = Crash.
Proof.
  intros Hs Hno. pose proof Hs as [Ht _ Hm Htu Hman Hunk _]. destruct (leaf_flags s Htu) as (E1 & E2 & _ & _).
  unfold TileIndexForDevice, IsTuple. rewrite E1, E2, Hm, Hman, Hunk, Htu. cbn [negb check mbind outcome_bind].
  destruct (tile_Each_ok ds _ Ht) as (calls & t' & -> & Ht' & Hi & Hval & Hcalls). cbn [mbind outcome_bind].
  rewrite (last_match calls d []).
  2: { intros iy [Hdy Hvy]%Hcalls. by destruct (Hno iy). }
  by destruct (bool_decide (([], d) ∈ calls)).
Qed.

(** C17: devices and tiles of a tiled sharding whose devices are distinct: every tile index
    has a device, and asking this device for its tile gives the index back; a device of
    the assignment at any replica of a tile is given the tile; asking for the tile of any
    other device fails a CHECK. *)
Theorem DeviceForTileIndex_inverse {M} (ds : list Z) (k : nat) (s : HloSharding M) (Hs : tiled ds k s)
    (Hu : unique_devices ds (tile_assignment_ s)) :
  (forall i, Forall2 digit (take k ds) i -> exists d s',
    DeviceForTileIndex s i = OK d /\ TileIndexForDevice s d = OK (i, s') /\ same_sharding ds s s') /\
  (forall ix d, Forall2 digit ds ix -> tile_value (tile_assignment_ s) ix = OK d ->
    exists s', TileIndexForDevice s d = OK (take k ix, s') /\ same_sharding ds s s') /\
  (forall d, (forall ix, Forall2 digit ds ix -> tile_value (tile_assignment_ s) ix <> OK d) -> TileIndexForDevice s d = Crash).
Proof.
  split; [|split].
  - intros i Hi. destruct (tile_ok_dims ds _ (td_tile _ _ _ Hs)) as (_ & _ & Hp & _).
    destruct (first_replica ds k i Hp (td_len _ _ _ Hs) Hi) as [Hix Htk]. destruct (tile_value_total ds _ _ (td_tile _ _ _ Hs) Hix) as [d Hd].
    destruct (TileIndexForDevice_ok ds k s _ d Hs Hu Hix Hd) as (s' & HT & Hs'). rewrite Htk in HT. exists d, s'.
    by rewrite (DeviceForTileIndex_ok ds k s i Hs Hi).
  - intros ix d Hix Hd. by apply (TileIndexForDevice_ok ds k).
  - intros d. by apply (TileIndexForDevice_unused ds k).
Qed.

(** C6: the tiles partition the array: for every element there is one tile index such that
    the element lies between the offset and the limit of a device exactly when the device
    has this tile; so every element is on some device, and two devices that hold it are
    replicas of one tile. *)
Theorem tiles_partition {M} (ds : list Z) (k : nat) (s : HloSharding M) (shape : Shape) (st : ArrayState) (e : list Z)
    (Hs : tiled ds k s) (Hu : unique_devices ds (tile_assignment_ s)) (Hst : array_state shape = OK st)
    (Hk : length (Shape.dims st) = k) (Hfit : sizes_fit (Shape.dims st)) (He : Forall2 digit (Shape.dims st) e) :
  exists i, Forall2 digit (take k ds) i /\
    forall ix d, Forall2 digit ds ix -> tile_value (tile_assignment_ s) ix = OK d ->
      exists o l s1 s2, TileOffsetForDevice s shape d = OK (o, s1) /\ TileLimitForDevice s shape d = OK (l, s2) /\
        same_sharding ds s s1 /\ same_sharding ds s s2 /\ (inside o l e <-> take k ix = i).
Proof.
  destruct (tile_ok_dims ds _ (td_tile _ _ _ Hs)) as (_ & _ & Hp & Hsm). pose proof (td_len _ _ _ Hs) as Hlk.
  exists (tile_of ds (Shape.dims st) e). split; [by apply tile_of_digit|]. intros ix d Hix Hv.
  destruct (tile_of_device_ok ds k s shape st ix d) as (o & l & s1 & s2 & H1 & H2 & H3 & H4 & Ho & Hl); [done..|].
  exists o, l, s1, s2. split; [done|]. split; [done|]. split; [done|]. split; [done|].
  apply (inside_tile ds k (Shape.dims st)); try done. by apply Forall2_take.
Qed.

(** C16: for a sharding without other subgroups than replicas, and devices that are numbers
    below their count, EachTile succeeds and calls its function once for every device, in
    the order of the assignment, with the offset and the limit that TileOffsetForDevice and
    TileLimitForDevice give for the device. *)
Theorem EachTile_agrees {M} (ds : list Z) (k : nat) (s : HloSharding M) (shape : Shape) (st : ArrayState)
    (Hs : tiled ds k s) (Hu : unique_devices ds (tile_assignment_ s)) (Hrep : only_replicas ds k s)
    (Hdev : forall ix d, Forall2 digit ds ix -> tile_value (tile_assignment_ s) ix = OK d -> 0 <= d < prod ds)
    (Hst : array_state shape = OK st) (Hk : length (Shape.dims st) = k) (Hfit : sizes_fit (Shape.dims st)) :
  exists calls s', EachTile s (Shape.dims st) = OK (calls, OK (), s') /\ same_sharding ds s s' /\ Zlen calls = prod ds /\
    forall ix d, Forall2 digit ds ix -> tile_value (tile_assignment_ s) ix = OK d ->
      exists o l s1 s2, calls !! Z.to_nat (rm ds ix) = Some (d, o, l) /\
        TileOffsetForDevice s shape d = OK (o, s1) /\ TileLimitForDevice s shape d = OK (l, s2).
Proof.
  pose proof (td_tile _ _ _ Hs) as Ht. destruct (tile_ok_dims ds _ Ht) as (Hd & _ & Hp & Hsm). pose proof (td_len _ _ _ Hs) as Hlk.
  pose proof Hs as [_ _ Hm Htu Hman Hunk _]. destruct (leaf_flags s Htu) as (E1 & E2 & _).
  unfold EachTile, IsTuple. rewrite E1, E2, Hm, Htu, Hman, Hunk, Hd. cbn [negb check mbind outcome_bind].
  destruct (array_ok_of ds _ Ht) as (arr & t' & -> & Ht' & Hi & Hok & Hval). cbn [mbind outcome_bind].
  assert (Hs' : same_sharding ds s (set_tile_assignment t' s)) by (exists t'; split; [done|]; split; [done|]; split; [done|]; intros; by apply Hval).
  pose proof (same_tiled _ _ _ _ Hs Hs') as Hts. rewrite (TiledDataRank_ok _ _ _ Hts). cbn [mbind outcome_bind].
  unfold Zlen at 1. rewrite Hk, Z.eqb_refl. cbn [negb].
  destruct (tile_dims_ok ds (Shape.dims st)) as (ts & -> & Hlt & Hts'); [done|done|lia|done|]. cbn [mbind outcome_bind].
  assert (Hrep' : only_replicas ds k (set_tile_assignment t' s)) by done.
  pose proof (num_replicas_ok ds k _ Hts Hrep') as Hg.
  destruct (SubgroupReplicationDim (set_tile_assignment t' s)) as [r| | |]; try done. cbn [mbind outcome_bind] in Hg |- *. rewrite Hg. cbn [mbind outcome_bind].
  pose proof (ao_values _ _ Hok) as Hvals. unfold num_elements. rewrite i32_small by (unfold two31 in *; pose proof (prod_pos ds Hp); lia).
  assert (HF : Forall (fun d => 0 <= d < Zlen (values_ arr)) (values_ arr)).
  { apply Forall_forall. intros d [j Hj]%list_elem_of_lookup. pose proof (lookup_lt_Some _ _ _ Hj). unfold Zlen in *.
    destruct (rm_digits ds (Z.of_nat j) Hp) as (ix & Hix & E); [lia|]. rewrite Hvals. apply (Hdev ix); [done|]. destruct (Hval ix Hix) as [-> _].
    destruct (get_ok _ _ Hok ix Hix) as (v & -> & Hv). rewrite E, Nat2Z.id in Hv. congruence. }
  pose proof (prod_pos (drop k ds) (Forall_drop _ _ _ Hp)) as Hgp. pose proof (prod_small ds k Hp) as Htp.
  assert (Hz : Forall2 digit (take k ds) (replicate k 0) /\ rm (take k ds) (replicate k 0) = 0).
  { replace k with (length (take k ds)) at 2 4 by (rewrite length_take; lia). split; [by apply zeros_digit, Forall_take|].
    rewrite rm_strides by (by rewrite length_replicate). apply dot_zeros. by apply Forall_replicate. }
  destruct Hz as [Hz Hz0].
  destruct (each_tile_loop_ok ds k (Shape.dims st) ts (values_ arr) (Z.to_nat (prod (drop k ds))) Hp Hsm Hlk Hk Hfit Hlt Hts' Hvals HF ltac:(lia)
    (S (length (values_ arr))) _ [] Hz) as (calls & Hloop & Hlen & Hcalls).
  { rewrite Hz0. unfold Zlen in *. lia. }
  { rewrite Hz0. split; [done|]. intros ix d _ Hlt0. simpl in Hlt0. lia. }
  rewrite Hz0 in Hloop. rewrite (Z2Nat.id (prod (drop k ds))) in Hloop by lia.
  change (Z.of_nat (Z.to_nat 0 * Z.to_nat (prod (drop k ds)))) with 0 in Hloop. rewrite Hloop. cbn [mbind outcome_bind].
  exists calls, (set_tile_assignment t' s). split; [done|]. split; [done|]. split; [unfold Zlen in *; lia|]. intros ix d Hix Hv.
  destruct (tile_of_device_ok ds k s shape st ix d) as (o & l & s1 & s2 & H1 & H2 & _ & _ & Ho & Hl); [done..|]. pose proof (rm_bound _ _ Hix) as Hb.
  destruct (Hval ix Hix) as [Hv' _]. rewrite Hv in Hv'. destruct (get_ok _ _ Hok ix Hix) as (v & Hgv & Hlv). rewrite Hgv in Hv'. injection Hv' as ->.
  destruct (Hcalls ix v Hix) as (o' & l' & Hcall & Ho' & Hl'); [unfold Zlen in *; lia|done|].
  pose proof (Forall2_length _ _ _ Hix) as Hlx.
  assert (o = o') as <- by (apply (bounds_unique (fun x => x) ds (Shape.dims st) (take k ix)); [rewrite length_take; lia|lia|done|done]).
  assert (l = l') as <- by (apply (bounds_unique (fun x => add64 x 1) ds (Shape.dims st) (take k ix)); [rewrite length_take; lia|lia|done|done]).
  by exists o, l, s1, s2.
Qed.

(** ** Manual subgroups

    EachTile steps over the replicas of a tile only.  With a manual subgroup it gives
    the second device of the first tile the second tile, and never visits the others. *)
Definition manual_example : HloSharding () :=
  new_HloSharding_subgroup (tile_of_array (mkArray [2; 2] [0; 1; 2; 3])) [OpSharding.MANUAL] [].
Definition example_shape : Shape := ArrayShape F32 (mkArrayState [4] [false] None).

Lemma EachTile_manual :
  (r ← EachTile manual_example [4]; OK (r.1.1)) = OK [(0, [0], [2]); (1, [2], [4])] /\
  (r ← TileOffsetForDevice manual_example example_shape 1; OK (r.1)) = OK [0] /\
  (r ← TileOffsetForDevice manual_example example_shape 2; OK (r.1)) = OK [2].
Proof. vm_compute. split; [reflexivity|]. split; reflexivity. Qed.

(** ** Examples *)

Definition partial_example : HloSharding () := new_HloSharding_tile (tile_of_array (mkArray [2; 2] [3; 1; 2; 0])) true [].
Definition five : ArrayState := mkArrayState [5] [false] None.

Lemma partial_tiled : tiled [2; 2] 1 partial_example.
Proof. split; try reflexivity. apply tile_array; [done| |by vm_compute]. split; [done|repeat constructor|done|by vm_compute]. Defined.

Lemma two_by_two ix : Forall2 digit [2; 2] ix -> ix = [0; 0] \/ ix = [0; 1] \/ ix = [1; 0] \/ ix = [1; 1].
Proof.
  intros Hix. destruct ix as [|x [|y [|]]]; try by apply Forall2_length in Hix. apply Forall2_cons in Hix as [Hx [Hy _]%Forall2_cons].
  unfold digit in *. assert (x = 0 \/ x = 1) as [->| ->] by lia; assert (y = 0 \/ y = 1) as [->| ->] by lia; auto.
Qed.

Lemma partial_unique : unique_devices [2; 2] (tile_assignment_ partial_example).
Proof.
  intros ix iy d Hx%two_by_two Hy%two_by_two. intuition subst; try done;
    repeat match goal with H : tile_value _ _ = OK _ |- _ => vm_compute in H; injection H as H end; congruence.
Qed.

Lemma DeviceForTileIndex_inverse_witness :
  exists d s', DeviceForTileIndex partial_example [1] = OK d /\ TileIndexForDevice partial_example d = OK ([1], s') /\ d = 2.
Proof.
  destruct (DeviceForTileIndex_inverse [2; 2] 1 partial_example partial_tiled partial_unique) as (H & _ & _).
  destruct (H [1]) as (d & s' & Hd & Hi & _); [repeat constructor; unfold digit; lia|]. exists d, s'. split; [exact Hd|]. split; [exact Hi|].
  vm_compute in Hd. by injection Hd.
Defined.

Lemma tiles_partition_witness :
  exists i, Forall2 digit [2] i /\
    forall ix d, Forall2 digit [2; 2] ix -> tile_value (tile_assignment_ partial_example) ix = OK d ->
      exists o l s1 s2, TileOffsetForDevice partial_example (ArrayShape F32 five) d = OK (o, s1) /\
        TileLimitForDevice partial_example (ArrayShape F32 five) d = OK (l, s2) /\ (inside o l [4] <-> take 1 ix = i).
Proof.
  destruct (tiles_partition [2; 2] 1 partial_example (ArrayShape F32 five) five [4] partial_tiled partial_unique) as (i & Hi & H).
  - reflexivity.
  - reflexivity.
  - repeat constructor; by vm_compute.
  - repeat constructor; unfold digit; lia.
  - exists i. split; [exact Hi|]. intros ix d Hix Hd. destruct (H ix d Hix Hd) as (o & l & s1 & s2 & H1 & H2 & _ & _ & H3). by exists o, l, s1, s2.
Defined.

Lemma EachTile_agrees_witness :
  exists calls s', EachTile partial_example [5] = OK (calls, OK (), s') /\ Zlen calls = 4.
Proof.
  destruct (EachTile_agrees [2; 2] 1 partial_example (ArrayShape F32 five) five partial_tiled partial_unique) as (calls & s' & H & _ & Hl & _).
  - right. split; [reflexivity|by left].
  - intros ix d Hx%two_by_two Hd. assert (0 <= d < 4); [|done]. intuition subst; vm_compute in Hd; injection Hd as <-; lia.
  - reflexivity.
  - reflexivity.
  - repeat constructor; by vm_compute.
  - exists calls, s'. split; [exact H|exact Hl].
Defined.
