(* ===== verification/ShardingPartial.v ===== *)
(** * Partial replication

    PartialTile sorts the devices of every group of replicas, in the iota by grouping its
    minor dimensions where this is possible and else in the array; whatever it does, the
    groups are those of the assignment it is given, sorted. *)

From Stdlib Require Import Sorted.
From stdpp Require Import sorting.
From S2P Require Import Prelude MachineInt Primitive Shape PermutationUtil IndexUtil MathUtil Util SlicePermutation Arrays.
From S2P Require Import ArrayTheorems TileAssignment IotaLayout IotaCanonical IotaAssignment TileTheorems HloSharding ShardingTiles.

(** ** Sorting *)

Lemma c_sort_unique l k : l ≡ₚ k -> StronglySorted Z.le k -> c_sort l = k.
Proof.
  intros Hp Hk. apply (StronglySorted_unique Z.le); [apply Sorted_StronglySorted; [apply _|]; apply Sorted_merge_sort; apply _|done|].
  unfold c_sort. by rewrite merge_sort_Permutation.
Qed.

Lemma c_sort_sorted l : StronglySorted Z.le (c_sort l).
Proof. apply Sorted_StronglySorted; [apply _|]. apply Sorted_merge_sort; apply _. Qed.

Lemma c_sort_perm l : c_sort l ≡ₚ l.
Proof. apply merge_sort_Permutation. Qed.

Lemma sorted_add c l : StronglySorted Z.le l -> StronglySorted Z.le (Z.add c <$> l).
Proof. induction 1 as [|x l Hl IH HF]; simpl; constructor; [done|]. apply Forall_fmap. eapply Forall_impl; [exact HF|]. simpl. lia. Qed.

Lemma c_sort_add c l : c_sort (Z.add c <$> l) = Z.add c <$> c_sort l.
Proof. apply c_sort_unique; [by rewrite c_sort_perm|]. apply sorted_add, c_sort_sorted. Qed.

(** ** The numbers of a layout *)

Fixpoint sums (B : list (Z * Z)) : list Z :=
  match B with [] => [0] | (n, s) :: B => flat_map (fun x => Z.add (x * s) <$> sums B) (seqZ 0 n) end.

Definition vals (B : list (Z * Z)) : list Z := val B <$> seqZ 0 (size B).

Lemma seqZ_mul (n : nat) m : 0 < m -> seqZ 0 (Z.of_nat n * m) = flat_map (fun x => Z.add (x * m) <$> seqZ 0 m) (seqZ 0 (Z.of_nat n)).
Proof.
  intros Hm. induction n as [|n IH]; [done|]. rewrite seqZ_S, flat_map_app, <- IH. simpl. rewrite app_nil_r, fmap_add_seqZ, Z.add_0_r.
  rewrite <- seqZ_app by lia. f_equal. lia.
Qed.

Lemma fmap_flat_map {A B C} (f : B -> C) (g : A -> list B) l : f <$> flat_map g l = flat_map (fun x => f <$> g x) l.
Proof. induction l as [|x l IH]; [done|]. simpl. by rewrite fmap_app, IH. Qed.

Lemma flat_map_ext_in {A B} (f g : A -> list B) l : (forall x, x ∈ l -> f x = g x) -> flat_map f l = flat_map g l.
Proof. intros Hfg. induction l as [|x l IH]; [done|]. simpl. rewrite Hfg by left. f_equal. apply IH. intros y Hy. apply Hfg. by right. Qed.

Lemma vals_sums B : sizes_pos B -> vals B = sums B.
Proof.
  induction 1 as [|[n s] B Hn HB IH]; [done|]. simpl in Hn. cbn [sums]. rewrite <- IH. unfold vals. pose proof (size_pos B HB) as Hs.
  rewrite size_cons. rewrite <- (Z2Nat.id n) by lia. rewrite seqZ_mul by done. rewrite fmap_flat_map. apply flat_map_ext_in. intros x Hx.
  rewrite <- !list_fmap_compose. apply list_fmap_ext. intros i j Hj. apply list_elem_of_lookup_2, elem_of_seqZ in Hj. simpl.
  rewrite (Z.add_comm (x * size B)), Z.div_add, Z.mod_add, Z.div_small, Z.mod_small by lia. lia.
Qed.

Lemma flat_map_perm {A B} (f g : A -> list B) l : (forall x, f x ≡ₚ g x) -> flat_map f l ≡ₚ flat_map g l.
Proof. intros Hfg. induction l as [|x l IH]; simpl; [done|]. by rewrite Hfg, IH. Qed.

Lemma flat_map_nil {A B} (l : list A) : flat_map (fun _ => [] : list B) l = [].
Proof. by induction l. Qed.

Lemma flat_map_plus {A B} (f g : A -> list B) l : flat_map (fun x => f x ++ g x) l ≡ₚ flat_map f l ++ flat_map g l.
Proof. induction l as [|x l IH]; simpl; [done|]. rewrite IH. solve_Permutation. Qed.

Lemma flat_map_swap {A B C} (f : A -> B -> list C) l k :
  flat_map (fun x => flat_map (f x) k) l ≡ₚ flat_map (fun y => flat_map (fun x => f x y) l) k.
Proof.
  induction l as [|x l IH]; simpl; [by rewrite flat_map_nil|]. rewrite IH. symmetry. apply flat_map_plus.
Qed.

Lemma sums_perm B C : B ≡ₚ C -> sums B ≡ₚ sums C.
Proof.
  induction 1 as [|[n s] B C HBC IH|[n s] [m t] B|B C D _ IH1 _ IH2]; [done| | |by rewrite IH1].
  - cbn [sums]. apply flat_map_perm. intros x. by rewrite IH.
  - cbn [sums]. rewrite (flat_map_perm _ (fun x => flat_map (fun y => (fun v => x * t + (y * s + v)) <$> sums B) (seqZ 0 n))).
    2: { intros x. rewrite fmap_flat_map. apply flat_map_perm. intros y. by rewrite <- list_fmap_compose. }
    rewrite flat_map_swap. apply flat_map_perm. intros y. rewrite fmap_flat_map. apply flat_map_perm. intros x.
    rewrite <- list_fmap_compose. erewrite list_fmap_ext; [done|]. intros _ v _. simpl. lia.
Qed.

(** The largest number. *)
Fixpoint top (B : list (Z * Z)) : Z := match B with [] => 0 | (n, s) :: B => (n - 1) * s + top B end.

(** Every stride is at least the largest number of the strides behind it. *)
Fixpoint nested (B : list (Z * Z)) : Prop := match B with [] => True | (n, s) :: B => 0 < n /\ top B <= s /\ nested B end.

Lemma steps_sorted V c s (n : nat) : forall a, 0 <= c <= s -> StronglySorted Z.le V -> Forall (fun v => 0 <= v <= c) V ->
  StronglySorted Z.le (flat_map (fun x => Z.add (x * s) <$> V) (seqZ a (Z.of_nat n))) /\
  Forall (fun v => a * s <= v <= (a + Z.of_nat n - 1) * s + c) (flat_map (fun x => Z.add (x * s) <$> V) (seqZ a (Z.of_nat n))).
Proof.
  induction n as [|n IH]; intros a Hc Hs HF; [by split; constructor|].
  rewrite Nat2Z.inj_succ, seqZ_cons by lia. replace (Z.succ a) with (a + 1) by lia. rewrite Z.pred_succ. cbn [flat_map]. destruct (IH (a + 1) Hc Hs HF) as [IH1 IH2].
  assert (HV : Forall (fun v => a * s <= v <= a * s + c) (Z.add (a * s) <$> V)).
  { apply Forall_fmap. eapply Forall_impl; [exact HF|]. simpl. lia. }
  split.
  - apply StronglySorted_app. split; [|split; [by apply sorted_add|done]]. intros x y Hx Hy.
    rewrite Forall_forall in IH2, HV. specialize (IH2 y Hy). specialize (HV x Hx). simpl in *. lia.
  - apply Forall_app. split; (eapply Forall_impl; [eassumption|]); simpl; intros v Hv; nia.
Qed.

Lemma sums_nested B : nested B -> StronglySorted Z.le (sums B) /\ Forall (fun v => 0 <= v <= top B) (sums B) /\ 0 <= top B.
Proof.
  induction B as [|[n s] B IH]; intros HB; [split; [repeat constructor|]; split; [repeat constructor; simpl; lia|simpl; lia]|].
  destruct HB as (Hn & Hs & HB). destruct (IH HB) as (H1 & H2 & H3). cbn [sums top].
  destruct (steps_sorted (sums B) (top B) s (Z.to_nat n) 0) as [H4 H5]; [lia|done|done|]. rewrite Z2Nat.id in H4, H5 by lia.
  split; [done|]. split; [eapply Forall_impl; [exact H5|]; simpl; lia|nia].
Qed.

(** Ascending dimensions of an iota. *)
Lemma lay_nested R p : Forall (fun d => 0 < d) R -> StronglySorted Z.lt p -> forall i, 0 <= i -> Forall (fun j => i <= j < Zlen R) p ->
  nested (lay R p) /\ top (lay R p) <= prod (drop (Z.to_nat i) R) - 1.
Proof.
  intros HR. induction 1 as [|j p Hs IH HF]; intros i Hi Hr.
  - simpl. split; [done|]. pose proof (prod_pos _ (Forall_drop _ (Z.to_nat i) _ HR)). lia.
  - apply Forall_cons in Hr as [Hj Hr]. unfold Zlen in *. destruct (IH (j + 1)) as [H1 H2]; [lia| |].
    { apply Forall_forall. intros y Hy. rewrite Forall_forall in HF, Hr. specialize (HF y Hy). specialize (Hr y Hy). simpl in *. lia. }
    cbn [lay fmap list_fmap entry nested top]. fold (lay R p). replace (Z.to_nat (j + 1)) with (S (Z.to_nat j)) in H2 by lia.
    destruct (lookup_lt_is_Some_2 R (Z.to_nat j)) as [d Hd]; [lia|]. rewrite nth_lookup, Hd. cbn [default from_option id].
    pose proof HR as HR'. rewrite Forall_lookup in HR'. specialize (HR' _ _ Hd). simpl in HR'. split; [split; [done|]; split; [lia|done]|].
    assert (Hle : prod (drop (Z.to_nat j) R) <= prod (drop (Z.to_nat i) R)).
    { replace (Z.to_nat j) with (Z.to_nat i + (Z.to_nat j - Z.to_nat i))%nat by lia. rewrite <- drop_drop.
      rewrite <- (take_drop (Z.to_nat j - Z.to_nat i) (drop (Z.to_nat i) R)) at 2. rewrite prod_app.
      pose proof (prod_pos _ (Forall_take _ (Z.to_nat j - Z.to_nat i) _ (Forall_drop _ (Z.to_nat i) _ HR))).
      pose proof (prod_pos _ (Forall_drop _ (Z.to_nat j - Z.to_nat i) _ (Forall_drop _ (Z.to_nat i) _ HR))). nia. }
    rewrite (drop_S _ _ _ Hd) in Hle. simpl in Hle. nia.
Qed.

(** The ascending order of the last dimensions of a layout sorts its numbers. *)
Lemma vals_sorted B B' : sizes_pos B -> B' ≡ₚ B -> nested B' -> vals B' = c_sort (vals B).
Proof.
  intros HB Hp Hn. assert (HB' : sizes_pos B') by (unfold sizes_pos in *; by rewrite Hp). rewrite !vals_sums by done. symmetry.
  apply c_sort_unique; [by apply sums_perm|]. by apply sums_nested.
Qed.

(** ** Grouping the minor dimensions *)

Lemma group_minor_ok R P : Forall (fun d => 0 < d < two63) R -> Forall (fun j => 0 <= j < Zlen R) P -> forall gs n, 0 < gs < two63 ->
  exists r, group_minor R (rev P) gs n = OK r /\
    match r with
    | None => True
    | Some (m, None) => (prod (sel R P) | gs)
    | Some (m, Some (dim, q)) => exists P1 P2 i, P = P1 ++ dim :: P2 /\ m = n + 1 + Zlen P2 /\
        gs = i * prod (sel R P2) /\ nth (Z.to_nat dim) R 0 = q * i /\ 0 < q /\ 0 < i
    end.
Proof.
  intros HR. induction P as [|dim P IH] using rev_ind; intros HP gs n Hgs.
  { exists (Some (n, None)). split; [done|]. exists gs. simpl. lia. }
  apply Forall_app in HP as [HP [Hdim _]%Forall_cons]. rewrite rev_app_distr. cbn [rev app group_minor].
  destruct (at_in_range R dim Hdim) as [d Hd]. rewrite Hd. cbn [mbind outcome_bind].
  apply at_OK, idx_Some in Hd as [_ Hd]. pose proof HR as HR'. rewrite Forall_lookup in HR'. specialize (HR' _ _ Hd). simpl in HR'.
  assert (Hnth : nth (Z.to_nat dim) R 0 = d) by (by rewrite nth_lookup, Hd).
  destruct (Z.leb_spec d gs) as [Hle|Hgt].
  - rewrite modulo_pos by lia. cbn [mbind outcome_bind]. destruct (Z.eqb_spec (gs mod d) 0) as [Hz|Hnz]; cbn [negb]; [|by exists None].
    destruct (divide_pos gs d ltac:(lia) ltac:(lia)) as [-> Hq]. cbn [mbind outcome_bind].
    assert (Egs : gs = d * (gs / d)) by (apply Z.div_exact; lia).
    assert (0 < gs / d) by nia. destruct (IH HP (gs / d) (n + 1)) as (r & -> & Hr); [lia|]. exists r. split; [done|].
    destruct r as [[m [[dim' q]|]]|]; [| |done].
    + destruct Hr as (P1 & P2 & i & -> & -> & E & Hn & Hq0 & Hi). exists P1, (P2 ++ [dim]), i. rewrite <- app_assoc. split; [done|].
      split; [unfold Zlen; rewrite length_app; simpl; lia|]. split; [|done]. unfold sel in *. rewrite map_app, prod_app. simpl. rewrite Hnth. rewrite Egs, E. ring.
    + unfold sel in *. rewrite map_app, prod_app. simpl. rewrite Hnth. destruct Hr as [c Ec]. exists c. rewrite Egs, Ec. ring.
  - rewrite modulo_pos by lia. cbn [mbind outcome_bind]. destruct (Z.eqb_spec (d mod gs) 0) as [Hz|Hnz]; cbn [negb]; [|by exists None].
    destruct (divide_pos d gs ltac:(lia) ltac:(lia)) as [-> Hq]. cbn [mbind outcome_bind].
    assert (Ed : d = gs * (d / gs)) by (apply Z.div_exact; lia).
    eexists. split; [done|]. exists P, [], gs. split; [done|]. split; [unfold Zlen; simpl; lia|]. simpl. split; [lia|]. split; [rewrite Hnth; lia|]. nia.
Qed.

(** *** Splitting a dimension *)

Definition ren (k j : Z) : Z := if j <=? k then j else j + 1.

Section Split.
Context (X Y : list Z) (q i : Z).
Let R := X ++ (q * i) :: Y.
Let R2 := X ++ [q; i] ++ Y.
Let k := Zlen X.

Lemma split_entry j : 0 <= j -> j <> k -> entry R2 (ren k j) = entry R j.
Proof using Type.
  intros Hj Hne. unfold R, R2, k, ren, entry, Zlen in *. destruct (Z.leb_spec j (Z.of_nat (length X))).
  - rewrite !app_nth1 by lia. f_equal. rewrite !drop_app_le by lia. rewrite !prod_app. simpl. ring.
  - rewrite (app_nth2 X ([q; i] ++ Y)), (app_nth2 X (_ :: Y)), (drop_app_ge X ([q; i] ++ Y)), (drop_app_ge X (_ :: Y)) by lia.
    remember (Z.to_nat j - length X - 1)%nat as m eqn:Hm.
    replace (S (Z.to_nat (j + 1)) - length X)%nat with (S (S (S m))) by lia. replace (S (Z.to_nat j) - length X)%nat with (S (S m)) by lia.
    replace (Z.to_nat (j + 1) - length X)%nat with (S (S m)) by lia. replace (Z.to_nat j - length X)%nat with (S m) by lia. done.
Qed.

Lemma split_first : entry R2 k = (q, i * prod Y).
Proof using Type.
  unfold R2, k, entry, Zlen. rewrite Nat2Z.id. f_equal.
  - rewrite app_nth2 by lia. by replace (length X - length X)%nat with 0%nat by lia.
  - rewrite drop_app_ge by lia. by replace (S (length X) - length X)%nat with 1%nat by lia.
Qed.
Lemma split_second : entry R2 (k + 1) = (i, prod Y).
Proof using Type.
  unfold R2, k, entry, Zlen. replace (Z.to_nat (Z.of_nat (length X) + 1)) with (S (length X)) by lia. f_equal.
  - rewrite app_nth2 by lia. by replace (S (length X) - length X)%nat with 1%nat by lia.
  - rewrite drop_app_ge by lia. by replace (S (S (length X)) - length X)%nat with 2%nat by lia.
Qed.
Lemma split_whole : entry R k = (q * i, prod Y).
Proof using Type.
  unfold R, k, entry, Zlen. rewrite Nat2Z.id. f_equal.
  - rewrite app_nth2 by lia. by replace (length X - length X)%nat with 0%nat by lia.
  - rewrite drop_app_ge by lia. by replace (S (length X) - length X)%nat with 1%nat by lia.
Qed.

Context (P1 P2 : list Z) (Hp : is_perm (P1 ++ k :: P2)) (Hl : length (P1 ++ k :: P2) = length R).

Lemma split_apart j : j ∈ P1 ++ P2 -> 0 <= j < Zlen R /\ j <> k.
Proof using Hp Hl.
  intros Hj. pose proof (is_perm_NoDup _ Hp) as Hnd. assert (Hj' : j ∈ P1 ++ k :: P2) by set_solver.
  pose proof (is_perm_range _ _ Hp Hj') as Hr. split; [unfold Zlen in *; lia|]. intros ->.
  apply NoDup_app in Hnd as (_ & Hd & [Hk _]%NoDup_cons). apply elem_of_app in Hj as [Hj|Hj]; [|done]. by apply (Hd k Hj); left.
Qed.

Lemma split_lay P : (forall j, j ∈ P -> j ∈ P1 ++ P2) -> lay R2 (ren k <$> P) = lay R P.
Proof using Hp Hl.
  intros HP. unfold lay. rewrite <- list_fmap_compose. apply list_fmap_ext. intros n j Hj. simpl.
  destruct (split_apart j (HP j (list_elem_of_lookup_2 _ _ _ Hj))). apply split_entry; lia.
Qed.

Lemma split_perm : is_perm ((ren k <$> P1) ++ k :: (k + 1) :: (ren k <$> P2)).
Proof using Hp Hl.
  assert (Hlen : Zlen ((ren k <$> P1) ++ k :: (k + 1) :: (ren k <$> P2)) = Zlen (P1 ++ k :: P2) + 1).
  { unfold Zlen. rewrite !length_app. simpl. rewrite !length_fmap. lia. }
  apply is_perm_of_surj. intros x Hx. rewrite Hlen in Hx.
  assert (HkR : 0 <= k < Zlen (P1 ++ k :: P2)) by (apply (is_perm_range _ k Hp); set_solver).
  destruct (decide (x = k)) as [->|Hne]; [set_solver|]. destruct (decide (x = k + 1)) as [->|Hne1]; [set_solver|].
  assert (exists y, y ∈ P1 ++ k :: P2 /\ ren k y = x /\ y <> k) as (y & Hy & <- & Hyk).
  { unfold ren. destruct (Z.leb_spec x k) as [Hle|Hgt].
    - exists x. rewrite (proj2 (Z.leb_le x k)) by lia. split; [apply is_perm_surj; [done|lia]|lia].
    - exists (x - 1). rewrite (proj2 (Z.leb_gt (x - 1) k)) by lia. split; [apply is_perm_surj; [done|lia]|lia]. }
  apply elem_of_app in Hy as [Hy|[->|Hy]%elem_of_cons]; [|done|].
  - apply elem_of_app. left. by apply list_elem_of_fmap_2.
  - apply elem_of_app. right. right. right. by apply list_elem_of_fmap_2.
Qed.

End Split.

Lemma position_app k P1 P2 : k ∉ P1 -> position k (P1 ++ k :: P2) = length P1.
Proof.
  induction P1 as [|x P1 IH]; intros Hk; simpl; [by rewrite Z.eqb_refl|].
  apply not_elem_of_cons in Hk as [Hne Hk]. rewrite (proj2 (Z.eqb_neq _ _)) by done. by rewrite IH.
Qed.

Lemma is_perm_same p p' : is_perm p -> p ≡ₚ p' -> is_perm p'.
Proof.
  intros Hp E. apply is_perm_bounds in Hp as [Hnd Hr]. apply is_perm_bounds. unfold Zlen in *. rewrite <- E. split; [done|].
  rewrite <- (Permutation_length E). done.
Qed.

Lemma c_sort_strict p : NoDup p -> StronglySorted Z.lt (c_sort p).
Proof.
  intros Hnd. assert (Hnd' : NoDup (c_sort p)) by (by rewrite c_sort_perm). pose proof (c_sort_sorted p) as Hs.
  revert Hnd' Hs. generalize (c_sort p). clear. induction l as [|x l IH]; intros Hnd Hs; [constructor|].
  apply NoDup_cons in Hnd as [Hx Hnd]. apply StronglySorted_inv in Hs as [Hs HF]. constructor; [by apply IH|].
  apply Forall_forall. intros y Hy. rewrite Forall_forall in HF. specialize (HF y Hy). assert (x <> y) by (by intros ->). lia.
Qed.

(** A result of the grouping: the layout up to the order of its minor part, which is sorted. *)
Record regrouped (R p R2 p2 : list Z) (g : Z) : Prop := {
  rg_pos : Forall (fun d => 0 < d) R2;
  rg_nonempty : R2 <> [];
  rg_perm : is_perm p2;
  rg_length : length p2 = length R2;
  rg_prod : prod R2 = prod R;
  rg_layout : exists A B B', same (lay R p) (A ++ B) /\ lay R2 p2 = A ++ B' /\ B' ≡ₚ B /\ nested B' /\
    size B = g /\ sizes_pos A /\ sizes_pos B;
}.

Lemma split_regrouped X Y q i P1 P2 : let R := X ++ (q * i) :: Y in let k := Zlen X in
  Forall (fun d => 0 < d) R -> 0 < q -> 0 < i -> is_perm (P1 ++ k :: P2) -> length (P1 ++ k :: P2) = length R ->
  regrouped R (P1 ++ k :: P2) (X ++ [q; i] ++ Y) (((ren k <$> P1) ++ [k]) ++ c_sort ((k + 1) :: (ren k <$> P2))) (i * prod (sel R P2)).
Proof.
  intros R k HR Hq Hi Hp Hl. set (R2 := X ++ [q; i] ++ Y).
  assert (HX : Forall (fun d => 0 < d) X /\ Forall (fun d => 0 < d) Y) by (unfold R in HR; rewrite Forall_app, Forall_cons in HR; tauto).
  assert (HR2 : Forall (fun d => 0 < d) R2) by (destruct HX; unfold R2; rewrite !Forall_app; split_and!; [done|repeat constructor; done|done]).
  pose proof (split_perm X Y q i P1 P2 Hp Hl) as Hp2. fold k in Hp2.
  assert (Eperm : (ren k <$> P1) ++ k :: (k + 1) :: (ren k <$> P2) ≡ₚ ((ren k <$> P1) ++ [k]) ++ c_sort ((k + 1) :: (ren k <$> P2))).
  { rewrite c_sort_perm, <- app_assoc. done. }
  assert (Hlen : length ((ren k <$> P1) ++ k :: (k + 1) :: (ren k <$> P2)) = length R2).
  { unfold R2, R in *. rewrite !length_app in *. simpl in *. rewrite !length_fmap. lia. }
  assert (HrP : Forall (fun j => 0 <= j < Zlen R) (P1 ++ k :: P2)) by (by apply perm_in_range).
  apply Forall_app in HrP as [HrP1 [_ HrP2]%Forall_cons].
  assert (Ht : sizes_pos [(i, prod Y)]) by (by repeat constructor).
  split; [done|by destruct X|by eapply is_perm_same| |unfold R2, R; rewrite !prod_app; simpl; ring|].
  { rewrite <- Hlen. apply Permutation_length. by symmetry. }
  exists (lay R P1 ++ [(q, i * prod Y)]), ((i, prod Y) :: lay R P2), (lay R2 (c_sort ((k + 1) :: (ren k <$> P2)))).
  split; [|split; [|split; [|split; [|split; [|split]]]]].
  - unfold lay. rewrite fmap_app, fmap_cons, <- app_assoc. fold (lay R P1) (lay R P2).
    unfold R, k. rewrite split_whole. fold R. apply (same_middle (lay R P1) (lay R P2) [(q * i, prod Y)] [(q, i * prod Y); (i, prod Y)]); [by apply lay_pos|by apply lay_pos|].
    symmetry. by apply same_merge.
  - unfold lay. rewrite !fmap_app. fold (lay R2 (ren k <$> P1)) (lay R P1). unfold R2, k. rewrite (split_lay X Y q i P1 P2 Hp Hl P1) by set_solver.
    by rewrite <- (split_first X Y q i).
  - unfold lay. rewrite c_sort_perm, fmap_cons. fold (lay R2 (ren k <$> P2)) (lay R P2). unfold R2, k.
    rewrite (split_lay X Y q i P1 P2 Hp Hl P2) by set_solver. by rewrite <- (split_second X Y q i).
  - apply (lay_nested R2 _ HR2) with (i := 0); [|done|].
    + apply c_sort_strict. pose proof (is_perm_NoDup _ Hp2) as Hnd. by apply NoDup_app in Hnd as (_ & _ & [_ Hnd]%NoDup_cons).
    + assert (Hr2 : Forall (fun j => 0 <= j < Zlen R2) ((ren k <$> P1) ++ k :: (k + 1) :: (ren k <$> P2))) by (by apply perm_in_range).
      rewrite c_sort_perm. by apply Forall_app in Hr2 as [_ [_ Hr2]%Forall_cons].
  - rewrite size_cons. unfold size. by rewrite lay_fst.
  - apply Forall_app. split; [by apply lay_pos|by repeat constructor].
  - constructor; [done|by apply lay_pos].
Qed.

Lemma prod_sel_split R P1 k P2 : Forall (fun d => 0 < d) R -> is_perm (P1 ++ k :: P2) -> length (P1 ++ k :: P2) = length R -> prod (sel R (P1 ++ k :: P2)) = prod R.
Proof. intros HR Hp Hl. apply prod_perm. by apply sel_perm. Qed.

Lemma GroupMinor_ok R p g : Forall (fun d => 0 < d) R -> prod R < two31 -> is_perm p -> length p = length R -> 0 < g < prod R ->
  exists r, GroupMinorIotaDimsSorted R p g = OK r /\
    match r with None => True | Some (R2, p2) => regrouped R p R2 p2 g end.
Proof.
  intros HR Hsm Hp Hl Hg. unfold GroupMinorIotaDimsSorted.
  destruct (group_minor_ok R p) with (gs := g) (n := 0) as (r & -> & Hr).
  { apply Forall_forall. intros d Hd. pose proof HR as HR'. rewrite Forall_forall in HR'. specialize (HR' d Hd). simpl in HR'.
    pose proof (elem_le_prod R d HR Hd). unfold two31, two63 in *. lia. }
  { by apply perm_in_range. } { unfold two31, two63 in *. lia. }
  cbn [mbind outcome_bind]. destruct r as [[m [[dim q]|]]|]; [| |by exists None].
  2: { exfalso. rewrite (prod_perm _ _ (sel_perm R p Hp Hl)) in Hr. apply Z.divide_pos_le in Hr; lia. }
  destruct Hr as (P1 & P2 & i & -> & -> & Eg & Hn & Hq & Hi).
  assert (Hdim : 0 <= dim < Zlen R) by (pose proof (is_perm_range _ dim Hp ltac:(set_solver)); unfold Zlen in *; lia).
  unfold Zlen in Hdim. destruct (lookup_lt_is_Some_2 R (Z.to_nat dim)) as [d Hd]; [lia|]. rewrite nth_lookup, Hd in Hn. simpl in Hn. subst d.
  rewrite (proj2 (at_OK R dim (q * i))) by (apply idx_Some; split; [lia|done]). cbn [mbind outcome_bind].
  pose proof (elem_le_prod R (q * i) HR ltac:(by eapply list_elem_of_lookup_2)).
  destruct (divide_pos (q * i) q) as [-> _]; [unfold two31, two63 in *; nia|done|]. rewrite (Z.mul_comm q i), Z.div_mul by lia. cbn [mbind outcome_bind].
  assert (ER : R = take (Z.to_nat dim) R ++ (q * i) :: drop (S (Z.to_nat dim)) R) by (by rewrite take_drop_middle).
  assert (Ek : Zlen (take (Z.to_nat dim) R) = dim) by (unfold Zlen; rewrite length_take; lia).
  pose proof (is_perm_NoDup _ Hp) as Hnd. apply NoDup_app in Hnd as (_ & Hd1 & [Hd2 _]%NoDup_cons).
  rewrite position_app by (intros Hin; by apply (Hd1 dim Hin); left).
  eexists. split; [reflexivity|]. cbn beta iota.
  assert (Es : sort_last (0 + 1 + Zlen P2) (((fun j => if j <=? dim then j else j + 1) <$> take (S (length P1)) (P1 ++ dim :: P2)) ++ [dim + 1] ++
      ((fun j => if j <=? dim then j else j + 1) <$> drop (S (length P1)) (P1 ++ dim :: P2))) =
    ((ren dim <$> P1) ++ [dim]) ++ c_sort ((dim + 1) :: (ren dim <$> P2))).
  { change (fun j => if j <=? dim then j else j + 1) with (ren dim). rewrite (cons_middle dim P1 P2), (app_assoc P1 [dim] P2).
    rewrite take_app_length', drop_app_length' by (rewrite length_app; simpl; lia). rewrite fmap_app. simpl. unfold ren at 2. rewrite Z.leb_refl.
    unfold sort_last.
    assert (Z.to_nat (Zlen (((ren dim <$> P1) ++ [dim]) ++ dim + 1 :: (ren dim <$> P2)) - (0 + 1 + Zlen P2)) = length ((ren dim <$> P1) ++ [dim])) as ->.
    { unfold Zlen. rewrite !length_app. simpl. rewrite !length_fmap. lia. }
    by rewrite take_app_length, drop_app_length. }
  rewrite Es. clear Es.
  pose proof (split_regrouped (take (Z.to_nat dim) R) (drop (S (Z.to_nat dim)) R) q i P1 P2) as HS. cbn zeta in HS. rewrite <- ER, Ek in HS.
  rewrite Eg. by apply HS.
Qed.

(** ** The groups of replicas *)

(** The devices of the replicas of a tile, in order. *)
Definition replicas (t : TileAssignment) (g : Z) (ix : list Z) : outcome (list Z) :=
  mapM (fun j => tile_value t (ix ++ [j])) (seqZ 0 g).

Lemma mapM_values {A B} (f : A -> outcome B) h l : (forall a, a ∈ l -> f a = OK (h a)) -> mapM f l = OK (h <$> l).
Proof.
  intros Hf. apply mapM_OK. induction l as [|a l IH]; [constructor|]. rewrite fmap_cons. constructor; [apply Hf; by left|].
  apply IH. intros b Hb. apply Hf. by right.
Qed.

Lemma replica_index D g ix j : Forall2 digit D ix -> 0 <= j < g ->
  Forall2 digit (D ++ [g]) (ix ++ [j]) /\ rm (D ++ [g]) (ix ++ [j]) = rm D ix * g + j.
Proof.
  intros Hix Hj. split; [apply Forall2_app; [done|constructor; [exact Hj|constructor]]|].
  rewrite rm_app by (by eapply Forall2_length). simpl. lia.
Qed.

Lemma replicas_iota D g t a A B ix : tile_ok (D ++ [g]) t -> iota_ t = Some a -> Forall2 digit D ix ->
  same (iota_layout a) (A ++ B) -> size B = g -> sizes_pos A -> sizes_pos B -> replicas t g ix = OK (Z.add (val A (rm D ix)) <$> vals B).
Proof.
  intros Ht Ha Hix Hsame HB HpA HpB. unfold replicas, vals. rewrite HB, <- list_fmap_compose. apply mapM_values. intros j Hj%elem_of_seqZ.
  destruct (replica_index D g ix j Hix ltac:(lia)) as [Hij Hrm]. destruct (iota_tile_ok _ _ _ Ht Ha) as [Hok Hd].
  rewrite (iota_tile_value (D ++ [g]) t a) by done. rewrite value_at_ok by (done || congruence). rewrite Hd, Hrm.
  pose proof (rm_bound _ _ Hix) as Hb. pose proof (rm_bound _ _ Hij) as Hbi. rewrite Hrm in Hbi.
  destruct (iota_layout_size a Hok) as [_ Hsz]. rewrite Hd in Hsz.
  rewrite (same_val _ _ Hsame) by (by rewrite Hsz). rewrite val_app; [|done|done|by rewrite <- (same_size _ _ Hsame), Hsz].
  rewrite HB. simpl. rewrite (Z.add_comm (rm D ix * g)), Z.div_add, Z.mod_add, Z.div_small, Z.mod_small by lia. done.
Qed.

Lemma replicas_array D g t arr ix : array_ok (D ++ [g]) arr -> (forall ix, Forall2 digit (D ++ [g]) ix -> tile_value t ix = get arr ix) ->
  0 < g -> Forall2 digit D ix -> replicas t g ix = OK (take (Z.to_nat g) (drop (Z.to_nat (rm D ix) * Z.to_nat g) (values_ arr))).
Proof.
  intros Harr Hval Hg Hix. pose proof (rm_bound _ _ Hix) as Hb. pose proof (ao_values _ _ Harr) as Hv. rewrite prod_app in Hv. simpl in Hv. unfold Zlen in Hv.
  unfold replicas. rewrite <- (Z2Nat.id g) at 1 by lia. apply mapM_seqZ_OK. split; [rewrite length_take, length_drop; nia|].
  intros j b Hjb. apply lookup_take_Some in Hjb as [Hjb Hj]. rewrite lookup_drop in Hjb.
  destruct (replica_index D g ix (Z.of_nat j) Hix ltac:(lia)) as [Hij Hrm]. rewrite Hval by done.
  destruct (get_ok _ _ Harr _ Hij) as (v & -> & Hlv). rewrite Hrm in Hlv.
  replace (Z.to_nat (rm D ix * g + Z.of_nat j)) with (Z.to_nat (rm D ix) * Z.to_nat g + j)%nat in Hlv by nia. congruence.
Qed.

Lemma sort_groups_ok g : (0 < g)%nat -> forall n l fuel, length l = (n * g)%nat -> (n <= fuel)%nat ->
  exists r, sort_groups fuel g l = OK r /\ length r = length l /\
    forall q, (q < n)%nat -> take g (drop (q * g) r) = c_sort (take g (drop (q * g) l)).
Proof.
  intros Hg. induction n as [|n IH]; intros l fuel Hl Hf.
  { destruct l; [|done]. exists []. destruct fuel; (split; [done|]; split; [done|]; lia). }
  destruct l as [|x l']; [simpl in Hl; lia|]. set (l := x :: l') in *. destruct fuel as [|fuel]; [lia|].
  assert (Hlt : (length l <? g)%nat = false) by (apply Nat.ltb_ge; lia).
  change (sort_groups (S fuel) g l) with (if (length l <? g)%nat then Crash else rest ← sort_groups fuel g (drop g l); OK (c_sort (take g l) ++ rest)).
  rewrite Hlt. destruct (IH (drop g l) fuel) as (r & -> & Hlr & Hr); [rewrite length_drop; lia|lia|]. cbn [mbind outcome_bind].
  assert (Hc : length (c_sort (take g l)) = g) by (rewrite (Permutation_length (c_sort_perm _)), length_take; lia).
  eexists. split; [done|]. split; [rewrite length_app, Hc, Hlr, length_drop; lia|]. intros [|q] Hq.
  - simpl. rewrite drop_0. by rewrite take_app_length'.
  - simpl. rewrite drop_app_ge by lia. rewrite Hc. replace (g + q * g - g)%nat with (q * g)%nat by lia. rewrite Hr by lia. rewrite drop_drop. done.
Qed.

Section Partial.
Context {OpMetadata : Type} (D : list Z) (g : Z) (t : TileAssignment) (metadata : list OpMetadata).
Context (Ht : tile_ok (D ++ [g]) t).

Lemma tile_num_elements_ok ds u : tile_ok ds u -> tile_num_elements u = OK (prod ds).
Proof using Type.
  destruct 1 as [a Ha <-|a arr Ha <- HT|arr shared Hne Hok Hs]; unfold tile_num_elements, on_tile; simpl.
  - by rewrite iota_num_elements_ok.
  - destruct (cached_array a arr Ha HT) as [Hok _]. unfold num_elements. by rewrite (ao_values _ _ Hok).
  - unfold num_elements. by rewrite (ao_values _ _ Hok).
Qed.

Lemma tile_num_dimensions_ok ds u : tile_ok ds u -> tile_num_dimensions u = OK (Zlen ds).
Proof using Type.
  destruct 1 as [a Ha <-|a arr Ha <- HT|arr shared Hne Hok Hs]; unfold tile_num_dimensions, on_tile; simpl; [done| |].
  - destruct (cached_array a arr Ha HT) as [Hok _]. unfold num_dimensions. by rewrite (ao_sizes _ _ Hok).
  - unfold num_dimensions. by rewrite (ao_sizes _ _ Hok).
Qed.

(** The assignment [u] with the groups of [t] sorted. *)
Definition sorted_groups (u : TileAssignment) : Prop :=
  tile_ok (D ++ [g]) u /\
  forall ix, Forall2 digit D ix -> exists l, replicas t g ix = OK l /\ replicas u g ix = OK (c_sort l).

Lemma sorted_tile_ok : exists u, sorted_tile t g metadata = OK (new_HloSharding_tile u true metadata) /\ sorted_groups u.
Proof using Ht.
  unfold sorted_tile. destruct (array_ok_of _ t Ht) as (arr & t' & -> & _ & _ & Hok & Hval). cbn [mbind outcome_bind].
  pose proof (tile_ok_dims _ _ Ht) as (_ & Hne & Hpos & Hsm). pose proof Hpos as HposD. apply Forall_app in HposD as [HD [Hg _]%Forall_cons].
  pose proof (ao_values _ _ Hok) as Hv. rewrite prod_app in Hv. simpl in Hv. pose proof (prod_pos D HD).
  destruct (sort_groups_ok (Z.to_nat g) ltac:(lia) (Z.to_nat (prod D)) (values_ arr) (length (values_ arr))) as (r & -> & Hlr & Hr); [unfold Zlen in *; nia|unfold Zlen in *; nia|].
  cbn [mbind outcome_bind].
  assert (Hok' : array_ok (D ++ [g]) (mkArray (sizes_ arr) r)).
  { destruct Hok as [H1 H2 H3 H4]. split; simpl; [done|done|unfold Zlen in *; lia|done]. }
  eexists. split; [reflexivity|]. split; [by apply tile_array|]. intros ix Hix.
  exists (take (Z.to_nat g) (drop (Z.to_nat (rm D ix) * Z.to_nat g) (values_ arr))). split.
  - apply replicas_array; [done|intros; by apply Hval|done|done].
  - rewrite (replicas_array D g _ _ ix Hok') by done. simpl. rewrite Hr; [done|]. pose proof (rm_bound _ _ Hix). lia.
Qed.

(** An iota whose minor part is sorted as a layout. *)
Lemma sorted_iota u a b A B B' : iota_ t = Some a -> tile_ok (D ++ [g]) u -> iota_ u = Some b ->
  same (iota_layout a) (A ++ B) -> same (iota_layout b) (A ++ B') -> B' ≡ₚ B -> nested B' -> size B = g -> sizes_pos A -> sizes_pos B ->
  sorted_groups u.
Proof using Ht.
  intros Ha Hu Hb HsA HsB HBB Hn Hg HpA HpB. split; [done|]. intros ix Hix.
  assert (HpB' : sizes_pos B') by (unfold sizes_pos in *; by rewrite HBB).
  assert (Hg' : size B' = g) by (rewrite <- Hg; unfold size; apply prod_perm; by rewrite HBB).
  eexists. split; [by apply (replicas_iota D g t a A B)|]. rewrite (replicas_iota D g u b A B' ix) by done.
  by rewrite c_sort_add, (vals_sorted B B').
Qed.

Lemma PartialTile_iota a : iota_ t = Some a -> prod D <> 1 -> 1 < g ->
  exists u, (p ← at_ (transpose_perm a) (Zlen (transpose_perm a) - 1);
      d ← at_ (reshape_dims a) p;
      if d =? g then OK (new_HloSharding_tile t true metadata)
      else
        grouped ← GroupMinorIotaDimsSorted (reshape_dims a) (transpose_perm a) g;
        match grouped with
        | Some (new_reshape_dims, new_transpose_perm) =>
            t ← tile_of_reshape (dims a) new_reshape_dims new_transpose_perm;
            OK (new_HloSharding_tile t true metadata)
        | None => sorted_tile t g metadata
        end) = OK (new_HloSharding_tile u true metadata) /\ sorted_groups u.
Proof using Ht.
  intros Ha HD1 Hg. destruct (iota_tile_ok _ _ _ Ht Ha) as [Hok Hd]. pose proof Hok as [Hio Hne Hf Hpr Hsm].
  destruct (form_perm _ _ Hf) as (Hp & Hl & HR & HRne). pose proof (perm_in_range _ _ Hp Hl) as Hr.
  rewrite Hd in Hio, Hpr. pose proof Hio as HioD. apply Forall_app in HioD as [HD _]. rewrite prod_app in Hpr. simpl in Hpr. pose proof (prod_pos D HD).
  destruct (snoc_case (transpose_perm a)) as [E|(P & x & E)]; [rewrite E in Hl; by destruct (reshape_dims a)|].
  assert (at_ (transpose_perm a) (Zlen (transpose_perm a) - 1) = OK x) as ->.
  { rewrite E. apply at_OK, idx_Some. unfold Zlen. rewrite length_app. simpl. split; [lia|].
    replace (Z.to_nat (Z.of_nat (length P + 1) - 1)) with (length P) by lia. by rewrite list_lookup_middle. }
  cbn [mbind outcome_bind]. rewrite E in Hr. pose proof Hr as Hr'. apply Forall_app in Hr' as [HrP [Hx _]%Forall_cons].
  destruct (at_in_range (reshape_dims a) x Hx) as [d Hxd]. rewrite Hxd. cbn [mbind outcome_bind].
  apply at_OK, idx_Some in Hxd as [_ Hxd]. destruct (Z.eqb_spec d g) as [->|Hne2].
  - exists t. split; [done|]. set (st := prod (drop (S (Z.to_nat x)) (reshape_dims a))).
    assert (Hlay : iota_layout a = lay (reshape_dims a) P ++ [(g, st)]).
    { unfold iota_layout, lay. rewrite E, fmap_app. simpl. unfold entry at 2. by rewrite nth_lookup, Hxd. }
    assert (Hps : 0 < st) by (by apply prod_pos, Forall_drop).
    apply (sorted_iota t a a (lay (reshape_dims a) P) [(g, st)] [(g, st)]); try done.
    + rewrite Hlay. apply same_layout_refl. apply Forall_app. split; [by apply lay_pos|]. repeat constructor; simpl; lia.
    + rewrite Hlay. apply same_layout_refl. apply Forall_app. split; [by apply lay_pos|]. repeat constructor; simpl; lia.
    + simpl. lia.
    + unfold size. simpl. lia.
    + by apply lay_pos.
    + repeat constructor. simpl. lia.
  - destruct (GroupMinor_ok (reshape_dims a) (transpose_perm a) g) as (r & -> & Hgr); [done|done|done|done|nia|]. cbn [mbind outcome_bind].
    destruct r as [[R2 p2]|]; [|exact sorted_tile_ok]. destruct Hgr as [HR2 HR2ne Hp2 Hl2 Hpr2 (A & B & B' & HsA & HsB & HBB & Hn & HBg & HpA & HpB)].
    unfold tile_of_reshape. rewrite Hd. destruct (Create_ok (D ++ [g]) R2 p2) as (b & -> & Hb & Hdb & Hsame); [done|by destruct D|done|done|done|done| |congruence|].
    { rewrite prod_app. simpl. lia. }
    cbn [mbind outcome_bind]. eexists. split; [reflexivity|]. apply (sorted_iota _ a b A B B'); try done; [by apply tile_iota|by rewrite HsB in Hsame].
Qed.

Lemma PartialTile_ok : prod D <> 1 -> 1 < g -> exists u, PartialTile t metadata = OK (new_HloSharding_tile u true metadata) /\ sorted_groups u.
Proof using Ht.
  intros HD1 Hg. destruct (tile_ok_dims _ _ Ht) as (Hd & _ & Hpos & Hsm). pose proof Hpos as HposD. apply Forall_app in HposD as [HD _]. pose proof (prod_pos D HD).
  unfold PartialTile. rewrite (tile_num_elements_ok _ _ Ht), (tile_num_dimensions_ok _ _ Ht), Hd. cbn [mbind outcome_bind].
  assert (HDl : (0 < length D)%nat) by (destruct D; simpl in *; lia).
  assert (Hlast : at_ (D ++ [g]) (Zlen (D ++ [g]) - 1) = OK g).
  { apply at_OK, idx_Some. unfold Zlen. rewrite length_app. simpl. split; [lia|].
    replace (Z.to_nat (Z.of_nat (length D + 1) - 1)) with (length D) by lia. by rewrite list_lookup_middle. }
  rewrite (proj2 (Z.eqb_neq (Zlen (D ++ [g])) 1)) by (unfold Zlen; rewrite length_app; simpl; lia). rewrite Hlast. cbn [mbind outcome_bind].
  rewrite prod_app in Hsm |- *. simpl in Hsm |- *. unfold u64. rewrite !Z.mod_small by (unfold two31, two64 in *; nia).
  rewrite (proj2 (Z.eqb_neq g (prod D * (g * 1)))) by nia. rewrite (proj2 (Z.eqb_neq g 1)) by lia.
  destruct (iota_ t) as [a|] eqn:Ea; [by apply PartialTile_iota|exact sorted_tile_ok].
Qed.

End Partial.

(** C7: PartialTile on every path.  With one tile only the sharding is replicated.  Without
    replicas it is the tiling of the other dimensions with the same devices.  Otherwise,
    whether the assignment is an iota whose minor dimensions can be regrouped or not, the
    result has the same sizes, and the devices of the replicas of every tile are those of
    the given assignment, sorted. *)
Theorem PartialTile_correct {M} (D : list Z) (g : Z) (t : TileAssignment) (metadata : list M) (Ht : tile_ok (D ++ [g]) t) :
  (prod D = 1 -> PartialTile t metadata = OK (Replicate metadata)) /\
  (prod D <> 1 -> g = 1 -> exists u, PartialTile t metadata = OK (new_HloSharding_tile u false metadata) /\ tile_ok D u /\
     forall ix, Forall2 digit D ix -> tile_value u ix = tile_value t (ix ++ [0])) /\
  (prod D <> 1 -> 1 < g -> exists u, PartialTile t metadata = OK (new_HloSharding_tile u true metadata) /\ tile_ok (D ++ [g]) u /\
     forall ix, Forall2 digit D ix -> exists l, replicas t g ix = OK l /\ replicas u g ix = OK (c_sort l)).
Proof.
  destruct (tile_ok_dims _ _ Ht) as (Hd & _ & Hpos & Hsm). pose proof Hpos as HposD. apply Forall_app in HposD as [HD [Hg _]%Forall_cons].
  pose proof (prod_pos D HD) as HpD. pose proof Hsm as Hsm'. rewrite prod_app in Hsm'. simpl in Hsm'.
  assert (Hlast : at_ (D ++ [g]) (Zlen (D ++ [g]) - 1) = OK g).
  { apply at_OK, idx_Some. unfold Zlen. rewrite length_app. simpl. split; [lia|].
    replace (Z.to_nat (Z.of_nat (length D + 1) - 1)) with (length D) by lia. by rewrite list_lookup_middle. }
  split; [|split].
  - intros HD1. unfold PartialTile. rewrite (tile_num_elements_ok _ _ Ht), (tile_num_dimensions_ok _ _ Ht), Hd. cbn [mbind outcome_bind].
    rewrite Hlast. cbn [mbind outcome_bind]. rewrite prod_app, HD1. change (prod [g]) with (g * 1).
    rewrite Z.mul_1_l, Z.mul_1_r, Z.eqb_refl. by destruct (Zlen (D ++ [g]) =? 1).
  - intros HD1 ->. unfold PartialTile. rewrite (tile_num_elements_ok _ _ Ht), (tile_num_dimensions_ok _ _ Ht), Hd. cbn [mbind outcome_bind].
    assert (HDl : (0 < length D)%nat) by (destruct D; simpl in *; lia).
    rewrite (proj2 (Z.eqb_neq (Zlen (D ++ [1])) 1)) by (unfold Zlen; rewrite length_app; simpl; lia). rewrite Hlast. cbn [mbind outcome_bind].
    rewrite prod_app. change (prod [1]) with 1. unfold u64. rewrite !Z.mod_small by (unfold two31, two64 in *; nia). rewrite (proj2 (Z.eqb_neq 1 (prod D * 1))) by nia.
    cbn [mbind outcome_bind]. change (1 =? 1) with true. cbv iota.
    assert (take (Z.to_nat (Zlen (D ++ [1]) - 1)) (D ++ [1]) = D) as ->.
    { unfold Zlen. rewrite length_app. simpl. replace (Z.to_nat (Z.of_nat (length D + 1) - 1)) with (length D) by lia. by rewrite take_app_length. }
    destruct (tile_Reshape_ok (D ++ [1]) D t Ht HD) as (u & t' & -> & Hu & _ & Hv); [by intros ->|rewrite prod_app; simpl; lia|].
    cbn [mbind outcome_bind]. exists u. split; [done|]. split; [done|]. intros ix Hix.
    destruct (replica_index D 1 ix 0 Hix ltac:(lia)) as [Hij Hrm]. apply Hv; [done|done|]. rewrite Hrm. lia.
  - intros HD1 Hg1. destruct (PartialTile_ok D g t metadata Ht HD1 Hg1) as (u & Hu & Hs). by exists u.
Qed.

(** ** Examples *)

(** The transposed iota 0 2 1 3 of the sizes 2 and 2: the groups of replicas 0 2 and 1 3 are
    sorted; the reversed dimensions of an iota are regrouped. *)
Definition grouped_example : IotaTileAssignment := mkIota [2; 6] [2; 2; 3] [0; 2; 1].

Lemma grouped_example_ok : tile_ok [2; 6] (tile_of_iota grouped_example).
Proof.
  apply tile_iota; [|reflexivity]. split; cbn [dims reshape_dims transpose_perm grouped_example]; [repeat constructor|done| |reflexivity|by vm_compute].
  left. split; [|done]. split; [|reflexivity|repeat constructor|].
  - apply IsPermutation_iff. by vm_compute.
  - intros [|[|[|i]]] x y Hx Hy; simplify_eq/=; lia.
Defined.

Lemma PartialTile_correct_witness :
  exists u, PartialTile (OpMetadata := ()) (tile_of_iota grouped_example) [] = OK (new_HloSharding_tile u true []) /\
    replicas (tile_of_iota grouped_example) 6 [0] = OK [0; 3; 1; 4; 2; 5] /\ replicas u 6 [0] = OK [0; 1; 2; 3; 4; 5].
Proof.
  destruct (PartialTile_correct (M := ()) [2] 6 (tile_of_iota grouped_example) [] grouped_example_ok) as (_ & _ & H).
  destruct H as (u & Hu & _ & Hr); [by vm_compute|lia|]. exists u. split; [exact Hu|].
  destruct (Hr [0]) as (l & Hl & Hs); [repeat constructor; unfold digit; lia|]. assert (l = [0; 3; 1; 4; 2; 5]) as -> by (vm_compute in Hl; by injection Hl).
  split; [exact Hl|exact Hs].
Defined.
