(* ===== verification/ShardingProto.v ===== *)
(** * Validation, messages and tuples of shardings

    Which shardings Validate accepts, that a sharding survives the conversion to a message
    and back, and which leaves the sub-sharding of a tuple has. *)

From stdpp Require Import gmap sorting.
From S2P Require Import Prelude MachineInt Primitive Shape PermutationUtil IndexUtil MathUtil Util SlicePermutation Arrays.
From S2P Require Import ArrayTheorems InferStructure TileAssignment IotaLayout IotaCanonical IotaAssignment TileTheorems HloSharding.
From S2P Require Import ShardingTiles ShardingPartial.

(** ** Validation *)

(** A traversal whose body does not look at the index is a loop over the values. *)
Lemma each_index_values {S} ds (a : Array Z) (f : S -> Z -> outcome S) s : array_ok ds a ->
  each_index a (fun s _ _ v => f s v) s = foldM f s (values_ a).
Proof.
  intros Ha.
  assert (Hloop : forall n j s index, Forall2 digit ds index -> (j + n = length (values_ a))%nat ->
    ('(s, _) ← foldM (fun '(s, index) i =>
        v ← at_ (values_ a) i; s ← f s v; '(index, _) ← next_index a index; OK (s, index)) (s, index) (seqZ (Z.of_nat j) (Z.of_nat n)); OK s)
    = foldM f s (drop j (values_ a))).
  { induction n as [|n IH]; intros j s' index Hix Hj; [simpl; rewrite drop_ge by lia; done|].
    destruct (lookup_lt_is_Some_2 (values_ a) j) as [v Hv]; [lia|]. rewrite (drop_S _ _ _ Hv), Nat2Z.inj_succ, seqZ_cons by lia.
    cbn [foldM]. rewrite (at_nat _ _ _ Hv). cbn [mbind outcome_bind]. destruct (f s' v) as [s2| | |]; [|done..]. cbn [mbind outcome_bind].
    destruct (next_index_ok ds a Ha index Hix) as (out & b & -> & Hout & _). cbn [mbind outcome_bind].
    replace (Z.succ (Z.of_nat j)) with (Z.of_nat (Datatypes.S j)) by lia. replace (Z.pred (Z.succ (Z.of_nat n))) with (Z.of_nat n) by lia. apply IH; [done|lia]. }
  unfold each_index. rewrite (ao_sizes _ _ Ha). destruct (zeros_digits ds a Ha) as [Hz _]. exact (Hloop (length (values_ a)) 0%nat s _ Hz eq_refl).
Qed.

Definition below (num_devices : option Z) (d : Z) : Prop := match num_devices with Some n => d < n | None => True end.
#[local] Instance below_dec nd d : Decision (below nd d).
Proof. destruct nd; simpl; apply _. Defined.

Lemma see_device_eq nd (seen : gset Z) d : - two31 <= d < two31 ->
  see_device nd seen d = if decide (below nd d /\ d ∉ seen) then OK ({[d]} ∪ seen) else Err kInvalidArgument.
Proof.
  intros Hd. unfold see_device. rewrite i32_small by done. destruct nd as [n|].
  - destruct (Z.leb_spec n d) as [Hle|Hlt]; [rewrite decide_False by (intros [Hb _]; simpl in Hb; lia); done|]. case_bool_decide as Hin.
    + by rewrite decide_False by tauto.
    + by rewrite decide_True by done.
  - case_bool_decide as Hin; [by rewrite decide_False by tauto|by rewrite decide_True by done].
Qed.

Lemma see_devices_ok nd l : Forall (fun d => - two31 <= d < two31) l -> forall seen : gset Z,
  foldM (see_device nd) seen l =
    if decide (NoDup l /\ Forall (fun d => below nd d /\ d ∉ seen) l) then OK (list_to_set l ∪ seen) else Err kInvalidArgument.
Proof.
  induction 1 as [|d l Hd HF IH]; intros seen.
  { cbn [foldM]. rewrite decide_True by (split; constructor). f_equal. set_solver. }
  cbn [foldM]. rewrite see_device_eq by done. destruct (decide (below nd d /\ d ∉ seen)) as [[Hb Hn]|Hno].
  2: { cbn [mbind outcome_bind]. rewrite decide_False; [done|]. intros [_ [? _]%Forall_cons]. done. }
  cbn [mbind outcome_bind]. rewrite IH. case_decide as H1.
  - destruct H1 as [Hnd Hall]. rewrite decide_True; [f_equal; set_solver|]. split.
    + constructor; [|done]. intros Hin. rewrite Forall_forall in Hall. destruct (Hall d Hin) as [_ Hd']. set_solver.
    + constructor; [done|]. eapply Forall_impl; [exact Hall|]. simpl. intros y [? ?]. split; [done|set_solver].
  - rewrite decide_False; [done|]. intros [[Hx Hnd]%NoDup_cons [_ Hall]%Forall_cons]. apply H1. split; [done|].
    apply Forall_forall. intros y Hy. rewrite Forall_forall in Hall. destruct (Hall y Hy) as [? ?]. split; [done|].
    apply not_elem_of_union. split; [|done]. intros ->%elem_of_singleton. done.
Qed.

Lemma unique_NoDup ds t arr : array_ok ds arr -> (forall ix, Forall2 digit ds ix -> tile_value t ix = get arr ix) ->
  unique_devices ds t <-> NoDup (values_ arr).
Proof.
  intros Hok Hval. pose proof (ao_pos _ _ Hok) as Hp. pose proof (ao_values _ _ Hok) as Hv. unfold Zlen in Hv. split.
  - intros Hu. apply NoDup_alt. intros i j d Hi Hj. pose proof (lookup_lt_Some _ _ _ Hi). pose proof (lookup_lt_Some _ _ _ Hj).
    destruct (rm_digits ds (Z.of_nat i) Hp) as (ix & Hix & Ei); [lia|]. destruct (rm_digits ds (Z.of_nat j) Hp) as (iy & Hiy & Ej); [lia|].
    assert (ix = iy) as -> by (apply (Hu ix iy d Hix Hiy); rewrite Hval by done;
      [destruct (get_ok _ _ Hok ix Hix) as (v & -> & Hlv); rewrite Ei, Nat2Z.id in Hlv; congruence
      |destruct (get_ok _ _ Hok iy Hiy) as (v & -> & Hlv); rewrite Ej, Nat2Z.id in Hlv; congruence]). lia.
  - intros Hnd ix iy d Hix Hiy Hx Hy. rewrite Hval in Hx, Hy by done.
    destruct (get_ok _ _ Hok ix Hix) as (v & Hg & Hlv). rewrite Hx in Hg. injection Hg as <-.
    destruct (get_ok _ _ Hok iy Hiy) as (w & Hg & Hlw). rewrite Hy in Hg. injection Hg as <-.
    pose proof (NoDup_lookup _ _ _ _ Hnd Hlv Hlw) as E. pose proof (rm_bound _ _ Hix). pose proof (rm_bound _ _ Hiy). apply (rm_inj ds); [done|done|lia].
Qed.

(** Every value of the array is a device. *)
Lemma values_devices ds t arr (P : Z -> Prop) : array_ok ds arr -> (forall ix, Forall2 digit ds ix -> tile_value t ix = get arr ix) ->
  Forall P (values_ arr) <-> forall ix d, Forall2 digit ds ix -> tile_value t ix = OK d -> P d.
Proof.
  intros Hok Hval. pose proof (ao_values _ _ Hok) as Hv. unfold Zlen in Hv. split.
  - intros HF ix d Hix Hd. rewrite Hval in Hd by done. destruct (get_ok _ _ Hok ix Hix) as (v & Hg & Hlv). rewrite Hd in Hg. injection Hg as <-.
    rewrite Forall_lookup in HF. by apply (HF _ _ Hlv).
  - intros HP. apply Forall_forall. intros d [j Hj]%list_elem_of_lookup. pose proof (lookup_lt_Some _ _ _ Hj).
    destruct (rm_digits ds (Z.of_nat j) (ao_pos _ _ Hok)) as (ix & Hix & E); [lia|]. apply (HP ix); [done|]. rewrite Hval by done.
    destruct (get_ok _ _ Hok ix Hix) as (v & -> & Hlv). rewrite E, Nat2Z.id in Hlv. congruence.
Qed.

(** The devices are distinct and below the number given, which is their count. *)
Definition devices_fit (ds : list Z) (t : TileAssignment) (num_devices : option Z) : Prop :=
  unique_devices ds t /\ forall n, num_devices = Some n -> prod ds = n /\ forall ix d, Forall2 digit ds ix -> tile_value t ix = OK d -> d < n.

Lemma iota_devices ds t a : tile_ok ds t -> iota_ t = Some a ->
  unique_devices ds t /\ forall ix d, Forall2 digit ds ix -> tile_value t ix = OK d -> 0 <= d < prod ds.
Proof.
  intros Ht Ha. destruct (iota_tile_ok ds t a Ht Ha) as [Hok <-]. destruct (value_at_each_device a Hok) as [Hr Hall].
  assert (Hn : iota_num_elements a = prod (dims a)) by (by apply iota_num_elements_ok). rewrite Hn in *. split.
  - intros ix iy d Hix Hiy Hx Hy. rewrite (iota_tile_value (dims a) t a) in Hx, Hy by done. destruct (Hr ix Hix) as (v & Hv & Hb).
    rewrite Hx in Hv. injection Hv as <-. destruct (Hall d Hb) as (iz & Hiz & _ & Huniq). rewrite (Huniq ix Hix Hx). symmetry. by apply Huniq.
  - intros ix d Hix Hx. rewrite (iota_tile_value (dims a) t a) in Hx by done. destruct (Hr ix Hix) as (v & Hv & Hb). congruence.
Qed.

(** What ValidateNonTuple computes before it looks at the shape. *)
Lemma devices_seen_ok ds t nd : tile_ok ds t -> (forall ix d, Forall2 digit ds ix -> tile_value t ix = OK d -> - two31 <= d < two31) ->
  exists r : outcome bool,
    match iota_ t with
    | None =>
        '(a, _) ← array t;
        seen_devices ← each_index a (fun seen _ _ device => see_device nd seen device) ∅;
        OK match nd with Some n => Z.of_nat (base.size seen_devices) =? n | None => true end
    | Some iota => OK match nd with Some n => iota_num_elements iota =? n | None => true end
    end = r /\ (r = OK true \/ r = OK false \/ r = Err kInvalidArgument) /\ (r = OK true <-> devices_fit ds t nd).
Proof.
  intros Ht Hdev. unfold devices_fit. destruct (iota_ t) as [a|] eqn:Ea.
  - destruct (iota_tile_ok ds t a Ht Ea) as [Hok Hd]. rewrite iota_num_elements_ok, Hd by done. eexists. split; [reflexivity|].
    destruct (iota_devices ds t a Ht Ea) as [Hu Hb]. destruct nd as [n|].
    + destruct (Z.eqb_spec (prod ds) n) as [<-|Hne]; [|split; [tauto|]; split; [done|]; intros [_ H]; by destruct (H n eq_refl)].
      split; [tauto|]. split; [|done]. intros _. split; [done|]. intros n [= <-]. split; [done|]. intros ix d Hix Hx. destruct (Hb ix d Hix Hx). lia.
    + split; [tauto|]. split; [|done]. intros _. by split.
  - destruct (array_ok_of ds t Ht) as (arr & t' & -> & _ & _ & Hok & Hval). cbn [mbind outcome_bind].
    assert (Hv : forall ix, Forall2 digit ds ix -> tile_value t ix = get arr ix) by (intros; by apply Hval).
    rewrite (each_index_values ds) by done. rewrite see_devices_ok by (by apply (values_devices ds t arr)).
    pose proof (unique_NoDup ds t arr Hok Hv) as Hu. pose proof (ao_values _ _ Hok) as Hl. unfold Zlen in Hl.
    case_decide as Hdec; cbn [mbind outcome_bind].
    + destruct Hdec as [Hnd HF]. rewrite union_empty_r_L, size_list_to_set by done. rewrite Hl. eexists. split; [reflexivity|].
      destruct nd as [n|]; [|split; [tauto|]; split; [|done]; intros _; split; [by apply Hu|done]].
      destruct (Z.eqb_spec (prod ds) n) as [<-|Hne]; [|split; [tauto|]; split; [done|]; intros [_ H]; by destruct (H n eq_refl)].
      split; [tauto|]. split; [|done]. intros _. split; [by apply Hu|]. intros n [= <-]. split; [done|].
      apply (values_devices ds t arr (fun d => d < prod ds) Hok Hv). eapply Forall_impl; [exact HF|]. simpl. tauto.
    + eexists. split; [reflexivity|]. split; [tauto|]. split; [done|]. intros [Hun Hn]. destruct Hdec. split; [by apply Hu|].
      apply (values_devices ds t arr (fun d => below nd d /\ d ∉ (∅ : gset Z)) Hok Hv). intros ix d Hix Hx. split; [|set_solver].
      destruct nd as [n|]; [|done]. destruct (Hn n eq_refl) as [_ Hlt]. simpl. by apply (Hlt ix).
Qed.

(** ValidateNonTuple of a tiled sharding and an array accepts or returns InvalidArgument,
    and it accepts exactly when the rank is that of the data part of the tile assignment,
    the devices are distinct and, where their number is given, it is that of the tile
    assignment and all devices are below it, and there is more than one tile. *)
Lemma ValidateNonTuple_exact {M} (ds : list Z) (k : nat) (s : HloSharding M) (shape : Shape) (st : ArrayState) (num_devices : option Z)
    (Hs : tiled ds k s) (Hun : unreduced_ s = false) (Hst : array_state shape = OK st) (Htup : Shape.IsTuple shape = false)
    (Hdev : forall ix d, Forall2 digit ds ix -> tile_value (tile_assignment_ s) ix = OK d -> - two31 <= d < two31) :
  (ValidateNonTuple s shape num_devices = OK () \/ ValidateNonTuple s shape num_devices = Err kInvalidArgument) /\
  (ValidateNonTuple s shape num_devices = OK () <->
     length (Shape.dims st) = k /\ devices_fit ds (tile_assignment_ s) num_devices /\ prod ds <> 1).
Proof.
  pose proof (TiledDataRank_ok _ _ _ Hs) as Hr. pose proof Hs as [Ht Hrep Hm Htu Hman Hunk _]. destruct (leaf_flags s Htu) as (E1 & E2 & E3 & _ & E5).
  unfold ValidateNonTuple, unpartitioned. rewrite Htup, Hrep, E1, E2, E3, E5, Hm, Hman, Hunk, Hun. cbn [orb].
  destruct (devices_seen_ok ds (tile_assignment_ s) num_devices Ht Hdev) as (r & -> & Hcase & Hiff).
  rewrite (rank_ok _ _ Hst), Hr, (tile_num_elements_ok _ _ Ht). cbn [mbind outcome_bind]. unfold Zlen.
  destruct Hcase as [-> | [-> | ->]]; cbn [mbind outcome_bind].
  - destruct (Z.eqb_spec (Z.of_nat (length (Shape.dims st))) (Z.of_nat k)); cbn [require mbind outcome_bind]; [|split; [by right|]; split; [done|lia]].
    destruct (Z.eqb_spec (prod ds) 1); cbn [negb require]; [split; [by right|]; by split; [|tauto]|]. split; [by left|]. split; [|done].
    intros _. split; [lia|]. by split; [apply Hiff|].
  - assert (~ devices_fit ds (tile_assignment_ s) num_devices) by (intros H; by apply Hiff in H).
    destruct (Z.eqb_spec (Z.of_nat (length (Shape.dims st))) (Z.of_nat k)); cbn [require mbind outcome_bind]; (split; [by right|]); (split; [done|tauto]).
  - assert (~ devices_fit ds (tile_assignment_ s) num_devices) by (intros H; by apply Hiff in H). split; [by right|]. split; [done|tauto].
Qed.

(** Four devices in groups of two, for an array with one dimension. *)
Lemma ValidateNonTuple_exact_witness : ValidateNonTuple partial_example (ArrayShape F32 five) (Some 4) = OK ().
Proof.
  assert (Hv : forall ix d, Forall2 digit [2; 2] ix -> tile_value (tile_assignment_ partial_example) ix = OK d -> 0 <= d < 4).
  { apply (values_devices [2; 2] (tile_assignment_ partial_example) (mkArray [2; 2] [3; 1; 2; 0]) (fun d => 0 <= d < 4)).
    - split; [done|repeat constructor|reflexivity|by vm_compute].
    - done.
    - repeat constructor; lia. }
  destruct (ValidateNonTuple_exact [2; 2] 1 partial_example (ArrayShape F32 five) five (Some 4) partial_tiled) as [_ H]; [reflexivity..| |].
  - intros ix d Hix Hd. specialize (Hv ix d Hix Hd). unfold two31. lia.
  - apply H. split; [reflexivity|]. split; [|done]. split; [exact partial_unique|]. intros n [= <-]. split; [reflexivity|].
    intros ix d Hix Hd. by apply (Hv ix).
Defined.

(** Negative devices pass, also where all devices have to be seen. *)
Lemma Validate_negative :
  Validate (new_HloSharding_tile (OpMetadata := ()) (tile_of_array (mkArray [2] [-1; 0])) false []) example_shape (Some 2) = OK ().
Proof. vm_compute. reflexivity. Qed.

(** ** Messages *)









Lemma new_tile_eq : tile_eq new_TileAssignment new_TileAssignment = OK (true, new_TileAssignment, new_TileAssignment).
Proof. reflexivity. Qed.












(** The overflow of the product of the dimensions of a message is not noticed: two devices
    pass for the 2^64 + 2 tiles of two dimensions. *)
Definition overflow_example : OpShardingProto () :=
  mkOpSharding OpSharding.OTHER [3; 6148914691236517206] [0; 1] [] false [] [] [] [] false 0 OpSharding.AS.

Example FromProto_overflow :
  product_no_overflow [3; 6148914691236517206] = OK 2 /\
  FromProto overflow_example = OK (Tile (tile_of_array (mkArray [3; 6148914691236517206] [0; 1])) []).
Proof. split; vm_compute; reflexivity. Qed.
